(* ===== verification/_CoqProject ===== *)
-Q . S2P
Prelude.v
GoValue.v
GoLib.v
GoText.v
Graph.v
Workflow.v
Dag.v
DagPaths.v
Validator.v
StateMachine.v
Orchestrator.v
Retry.v
Heap.v
PriorityQueue.v
WorkerPool.v
QueueManager.v
Saga.v
EventStore.v
EventSourcing.v
RateLimit.v
Partition.v
Coordinator.v
Sharing.v
Variables.v
Checkpoint.v
Recovery.v
Schedule.v
CronScheduler.v
Cancellation.v
ErrorHandler.v
Base64.v
Triggers.v
TriggerManager.v
WorkerRegistry.v
Conditions.v
LoopNodes.v
TransformNodes.v
Transfer.v
Debugger.v
WorkflowRepo.v
Templates.v
ValidationService.v
WorkflowService.v
Http.v
WorkflowApi.v
Redis.v
Tokens.v
Auth.v
AuthApi.v
ApiKeys.v
Webhooks.v
NodeRegistry.v
Users.v
UserService.v
Cost.v
Credentials.v
UtilityNodes.v
Projections.v
CredentialApi.v
UserApi.v
WebhookApi.v
Archival.v
GlobalVariables.v
VariableApi.v
ExecutionGraph.v
Analytics.v
Calendar.v
Billing.v
Permissions.v
ApiKeyApi.v
ScheduleApi.v
ExecutionMetrics.v
ExecutionLogger.v
