(* ===== verification/Prelude.v ===== *)
(** * LinkFlow: a verification library

    LinkFlow is a workflow automation platform in Go.  A workflow is a graph of
    nodes; an execution request is queued by priority, taken by a pool of
    workers, and run by the orchestrator node by node, while a state machine
    records its life cycle and an executor service, distributed over several
    hosts, does the node work.  Workflows are edited, versioned, shared and
    activated through the workflow service; triggers, schedules and webhooks
    start them; an authentication service issues the tokens the others check.
    Around that core the repository has libraries for sagas, event sourcing,
    retries and rate limits.  This library models that logic as executable
    definitions, one per Go function and with the Go names, and proves what makes
    each part correct.

    ** The parts, their sources and their files

    Shared
    - [Prelude]: results, outcomes, iteration orders, automation, generic lemmas.
    - [GoValue]: values of type interface{}, the type assertions on them, and
      float64 arithmetic through [SpecFloat].
    - [GoLib], [GoText], [Base64], [Calendar]: the parts of strings, strconv,
      math, encoding/base64 and time the code uses.
    - [Graph]: adjacency maps and the three graph searches that
      pkg/contracts/workflow spells out in several places.
    - [Redis]: strings and counters with expiry, and counters over a window.

    Workflow definitions, pkg/contracts/workflow
    - [Workflow] (workflow.go): the aggregate, Validate, Activate, Deactivate,
      Clone.
    - [Dag], [DagPaths] (dag.go): construction, validation, topological order,
      ancestors and descendants; paths, levels, the critical path.
    - [Validator] (validator.go): the validation pass with its errors and
      warnings, and its own topological order.
    - [Variables] (variables.go): scopes, interpolation, coercion, the manager.
    - [Triggers] (trigger.go): the kinds of triggers and their factory.
    - [ExecutionGraph] (execution.go): dependencies and groups of parallel nodes.

    The workflow service, internal/workflow
    - [WorkflowRepo] (adapters/db/repository): workflows, versions, permissions,
      variables and environments as tables.
    - [Templates] (adapters/templates/manager.go), [Sharing]
      (app/sharing/manager.go), [Transfer] (app/transfer), [Debugger]
      (app/debug/debugger.go), [Analytics] (app/analytics/collector.go).
    - [TriggerManager] (adapters/triggers/manager.go): triggers in their table, in
      memory, in the cron runner and in Redis.
    - [ValidationService] and [WorkflowService] (app/service): the service, over
      the parts above and against the interface of the trigger manager.

    Running an execution, internal/execution/app
    - [StateMachine] and [Orchestrator] (orchestrator): the transition table, and
      the traversal of a workflow, which drives it.
    - [Retry] (retry/manager.go, and pkg/resilience/retry.go), [Checkpoint]
      (persistence/store.go), [Recovery] (recovery/manager.go), [Cancellation]
      (cancellation/manager.go), [ErrorHandler] (error/handler.go), [Cost] (cost),
      [Archival] (adapters/archival): old executions in an object store;
      [ExecutionLogger] (logging), [ExecutionMetrics] (metrics).
    - [Heap], [PriorityQueue], [WorkerPool], [QueueManager] (queue): Go's heap, the
      queue of one priority, the workers, the three queues with dead letters.

    The executor, internal/executor
    - [Partition], [Coordinator], [WorkerRegistry] (app/distributed): strategies of
      distribution, assignment of work, the registry over Redis or etcd.
    - [Conditions], [LoopNodes], [TransformNodes], [UtilityNodes] (domain/types):
      the executors of conditional, loop, transform and utility nodes.

    Other services
    - [Schedule], [CronScheduler] (internal/schedule): schedules, their service,
      and the scheduler with its leader election.
    - [Tokens] (pkg/auth/jwt, pkg/middleware/auth), [Auth] (internal/auth/app,
      its repository and pkg/contracts/user), [ApiKeys]
      (internal/auth/adapters/apikey), [Permissions] (pkg/middleware/auth): the
      checks of permissions and ownership in gin's chains of handlers.
    - [Users] (internal/user/adapters/db/repository, pkg/cache): users and roles as
      tables, and the repository that caches them; [UserService]
      (internal/user/app/service): users, and teams in Redis.
    - [Credentials] (internal/credential and pkg/contracts/credential): the vault,
      the repository and the service.
    - [GlobalVariables] (internal/variable): variables of all workflows, with
      encrypted secrets and the hash of their values for executions.
    - [Billing] (internal/billing): plans, subscriptions, invoices, usage.
    - [Webhooks] (internal/webhook and pkg/contracts/webhook).
    - [NodeRegistry] (internal/node): the catalogue of node types.

    HTTP interfaces: routes, middleware and handlers, over the services above
    - [Http]: requests, gin's search for a route, binding tags, and the shapes of
      the handlers.
    - [WorkflowApi], [AuthApi], [CredentialApi], [UserApi], [WebhookApi],
      [VariableApi], [ApiKeyApi], [ScheduleApi] (adapters/http and
      server/server.go of each service); that of billing is in [Billing].

    Libraries
    - [Saga] (pkg/saga/saga.go): sagas with compensation, two-phase commit.
    - [EventStore] (pkg/eventsourcing/store.go): the interface as the class
      [EventStore], and its implementation on a database.
    - [EventSourcing] (pkg/eventsourcing/aggregate.go): aggregates and their
      repository, proved against the class; the saga coordinator.
    - [Projections] (pkg/cqrs/projection.go): read models kept from events.
    - [RateLimit] (pkg/ratelimit/ratelimit.go): the in-memory, Redis, tiered and
      load-dependent limiters.

    ** How Go is modelled

    - A function returning [(A, error)] gives a [result A]; where it can panic
      or not return, an [outcome].  Methods take and return the receiver's
      state; published events are a list in the result.
    - [for k := range m] visits the keys in an unspecified order.  The order is
      an argument of the definition, a different one for each loop, and the
      theorems hold for every [ord] with [range_order m ord].
    - Integers are [Z].  Where the width matters the wrap-around is written out
      (FNV-1a, the affinity hash); float64 is [spec_float] with binary64
      rounding.  Counters that would need 2^63 steps to overflow are not
      wrapped.  Times and durations are nanoseconds in [Z].
    - The clock, random draws, generated IDs and the answers of remote services
      are arguments; a service collects them in a record for each call ([Call],
      [AuthCall], [WebhookCall] and the like).  [time.Now] is not assumed to grow
      unless a theorem says so.
    - Shared objects are handles in a store where aliasing matters: the workers
      of the pool, recovery tasks, cancellation contexts, schedules of cron jobs,
      debug sessions, the variables map that trigger, condition and loop nodes
      return as their output, the maps of the JSON node, the channels of pending
      requests.
    - Goroutines and timers appear as steps of a relation, at the granularity of
      the code's critical sections: [QueueManager], [Orchestrator],
      [Coordinator], [Checkpoint], [Recovery], [Cancellation], [Debugger].  What
      the code does outside of its locks is a step of its own: the reads and
      writes of the counters of [Recovery] and [Cancellation], every access of
      [WorkerPool] to a channel or an atomic counter; so are the lock operations
      of [NodeRegistry].  The other services are sequences of whole calls.
    - GORM: tables are maps; a transaction is applied whole or not at all; [fail]
      says which statement the database refuses; Save is an upsert of the whole
      row, unique indexes are checked, default values filled in.  Redis: hashes
      and strings as maps, sorted sets as scored members, keys with their expiry.
    - Third-party code is behind a class with the laws its documentation gives
      (cron, the registry backends, JWT), or a parameter (JSON, bcrypt, AES,
      SHA-256 and HMAC, gobreaker, regular expressions), arbitrary but for a round-trip
      hypothesis where a theorem needs one.  The interfaces between the parts are
      classes too: [EventStore], [TriggerPort], [RBACEnforcer], the strategies of
      [Partition], the backends of [WorkerRegistry], the [Storage] of archives.

    ** What the theorems show

    - Workflow validation: [DAG_Validate_correct], [Workflow_Validate_correct]
      and [Validator_correct] characterise exactly the accepted graphs, for all
      iteration orders; [topological_order_correct],
      [descendants_ancestors_dual], [GetExecutionPaths_correct],
      [CalculateLevels_correct] and [GetCriticalPath_correct] give the graph
      queries their mathematical meaning; [validation_service_correct] composes
      them.
    - The workflow service: [owner_only] and [tenant_isolation] (who can change
      what), [service_invariant] (active workflows validate, versions and
      variables agree with their tables), [activation_correct],
      [version_history_refinement], [template_round_trip],
      [export_import_round_trip], [sharing_invariant],
      [trigger_manager_refinement].
    - Running: [executeNodes_correct] (no node twice, only reachable ones, all
      runnable ones), [Execute_outcome] (record, machine and events agree),
      [state_machine_invariant], [checkpoint_refinement], [checkpoint_pipeline],
      [recovery_terminates], [cancellation_correct], [error_handler_correct],
      [ExecuteWithRetry_correct], [tracking_exact], [cost_books],
      [archiving_transparent], [cleanup_keeps], [sortExecutionsByDate_correct].
    - Queueing: [priority_queue_invariant], [worker_pool_conservation],
      [queue_manager_accounting], [snapshot_round_trip],
      [dead_letter_retry_budget].
    - Distribution: [getWorkerForItem_correct],
      [adding_worker_moves_items_to_it] (consistent hashing), [AssignWork_correct],
      [coordinator_invariant], [registry_backends_refine].
    - Nodes: [forEach_batches], [while_node_correct], [condition_operators],
      [aggregate_correct], [setNestedValue_correct] (setting a field, and what it
      shares with the input), [split_join_nodes], [registry_locks] and [builtin_nodes_permanent] (the
      catalogue), [parameters_validated].
    - Triggers from outside: [cron_entries_invariant], [webhook_admission],
      [webhook_cache_transparent], [webhook_rate_exact].
    - Authentication: [token_admission], [login_lockout], [refresh_rotation],
      [revocation_final], [api_key_life], [resource_permission_admits],
      [ownership_admits], [chain_guards] (a chain of middlewares admits what all of
      them admit).
    - Users: [user_cache_refinement] (reads through the cache answer what the table
      answers), [team_store_refinement], [UpdateUser_spec].
    - Credentials: [credential_round_trip] and [rotation_correct] (what is encrypted
      can be decrypted), [credential_isolation].
    - Global variables: [variables_refinement] (encryption and cache do not show),
      [secrets_not_disclosed] (no answer depends on a stored secret).
    - Billing and statistics: [usage_of_month], [SetDefault_correct],
      [counters_conserved] (flushes lose no execution on the way to the table),
      [counters_exact] (metrics), [reads_are_logged] and [retention] (logs).
    - HTTP interfaces, end to end: [api_isolation] (workflows), [auth_api_authority]
      (who may change roles, sessions and passwords), [credential_api_isolation],
      [hook_serve_keeps], [user_get_pure].
    - Sagas, event sourcing, limits: [saga_atomic],
      [two_phase_commit_consistent], [Save_optimistic], [save_load_round_trip],
      [projection_follows_history] (a read model is the fold of the history),
      [login_limit_exact].

    Other lemmas record where the code departs from what it documents, among
    them [nil_input_panics], [node_retries_unbounded], [Dequeue_returns_newest],
    [cancelled_saga_returns_nil], [two_phase_commit_reversible],
    [loaded_aggregate_loses_id], [requeue_leaks_processing],
    [redis_limiter_counts_seconds], [two_default_environments], [Logout_fails],
    [access_token_refreshes], [refresh_signs_forged_claims],
    [unconfigured_auth_accepts], [comma_permission_escalates],
    [cached_password_gone], [warm_up_drops_roles], [delete_foreign_members],
    [use_stores_plaintext], [generated_key_refused], [rule_order_matters],
    [incoming_dropped], [headers_ignored], [placeholders_succeed],
    [offset_skips_rows], [restore_never_finds], [hash_race], [save_overwrites],
    [combined_too_late], [long_life_expires], [creation_pretended],
    [first_read_empty], [average_halved], [recovery_count_lost],
    [cancellation_count_lost], [completed_before_counted], [late_result_panics],
    [applyEvent_recurses], [handlers_prevent_snapshot],
    [concurrent_saves_both_commit], [mixed_batch_breaks_versions],
    [refresh_token_survives_revocation], [broken_redis_admits_revoked],
    [failed_update_splits_cache], [partial_failure_remains],
    [yaml_loses_settings], [failed_lookup_duplicates], [use_beyond_limit].  The
    doc comment of a theorem names the lemmas that show what its conditions
    exclude.

    ** Fuel

    Loops that are not structural take fuel; a theorem on such a loop includes
    that the fuel passed is enough.
    - Graph searches: [graph_fuel], the number of roots plus that of nodes.
    - [paths_fuel]: the recursion of GetExecutionPaths is no deeper than the
      number of nodes when the graph is acyclic; on a reachable cycle no fuel is
      enough, as in the code.  [levels_fuel]: every pass of the queue of
      CalculateLevels raises a level bounded by the number of nodes.
      GetCriticalPath follows at most one parent per node.
    - [traversal_fuel]: executeNodes queues a node for each trigger and for each
      connection at most once.
    - executeNode takes one unit per attempt, since the code puts no bound on
      them ([node_retries_unbounded]); without configured retries one is enough.
    - [applyEvent] takes one unit per call of ApplyChange through reflection:
      none is needed unless the recursion is endless ([applyEvent_recurses]).
    - [gin_loop] takes one unit per handler of a chain and one to end.
    - Retry loops run over the number of attempts, the batches of a forEach node
      over the number of items, a while node over its maximum, the heap's sifting
      over the length of the slice.

    ** Not modelled

    The HTTP handlers of the other services, gRPC, GraphQL and WebSocket
    endpoints, migrations, configuration, logging, metrics and tracing; the
    services that are thin layers over a database or a third-party API (Stripe,
    notification, storage, search, analytics, audit); the tables of roles and
    OAuth tokens of the auth repository; the node executors that only call
    external systems; the token bucket (golang.org/x/time/rate) and the Lua
    script of the sliding window limiter; goroutines that only call a modelled
    function on a timer.

    What could be added next: the remaining queries of the event store and of
    the execution repository, and the hub of the WebSocket server. *)

From stdpp Require Export base gmap sets list strings pretty relations.
From Stdlib Require Export ZArith Lia.

(** ** Results of fallible Go functions

    A Go function returning [(A, error)] is a [result A]; the error is the
    text of the [error] value. *)

Inductive result (A : Type) : Type :=
| Ok (a : A)
| Err (e : string).
Arguments Ok {A} a.
Arguments Err {A} e.

Definition is_ok {A} (r : result A) : bool :=
  match r with Ok _ => true | Err _ => false end.

#[export] Instance result_eq_dec `{EqDecision A} : EqDecision (result A).
Proof. solve_decision. Defined.

(** ** Outcomes of running code *)

(** What running code can do: return, panic, or exceed the fuel given. *)
Inductive outcome (A : Type) : Type :=
| Ret (a : A)
| Panic (msg : string)
| NoFuel.
Arguments Ret {A} a.
Arguments Panic {A} msg.
Arguments NoFuel {A}.

(** ** Iteration order of Go maps

    [for k := range m] visits every key of [m] exactly once, in an order the
    language leaves unspecified.  Every definition that models such a loop
    takes the order as an argument [ord], and its theorems hold for every
    [ord] with [range_order m ord]. *)

Definition range_order {V : Type} (m : gmap string V) (ord : list string) : Prop :=
  NoDup ord ∧ ∀ k, k ∈ ord ↔ is_Some (m !! k).

(** The order used by executable witnesses. *)
Definition keys {V : Type} (m : gmap string V) : list string := (map_to_list m).*1.

(** [map[string]bool] used as a set, and reads of absent keys: a missing key
    reads as the zero value of the element type. *)
Definition get_int (m : gmap string Z) (k : string) : Z := default 0%Z (m !! k).
Definition get_slice {A} (m : gmap string (list A)) (k : string) : list A :=
  default [] (m !! k).
Definition append_at {A} (m : gmap string (list A)) (k : string) (x : A) :
    gmap string (list A) :=
  <[k := get_slice m k ++ [x]]> m.

(** [%v] of a slice of strings. *)
Definition fmt_slice (l : list string) : string :=
  "[" +:+ String.concat " " l +:+ "]".

(** ** Proof automation *)

Create HintDb linkflow.
Create Rewrite HintDb linkflow.

(** Case analysis on the first [match] or [if] in the goal or a hypothesis,
    with the equations simplified. *)
Ltac split_match :=
  match goal with
  | |- context [match ?x with _ => _ end] => destruct x eqn:?
  | H : context [match ?x with _ => _ end] |- _ => destruct x eqn:?
  end; simplify_eq/=.

(** ** Lemmas on iteration orders and map reads *)

Lemma keys_range_order {V} (m : gmap string V) : range_order m (keys m).
Proof.
  unfold range_order, keys. split; [apply NoDup_fst_map_to_list|].
  intros k. rewrite list_elem_of_fmap. split.
  - intros ([k' v] & -> & Hin). apply elem_of_map_to_list in Hin. by exists v.
  - intros [v Hv]. exists (k, v). split; [done|]. by apply elem_of_map_to_list.
Qed.

Lemma range_order_elem {V} (m : gmap string V) ord k :
  range_order m ord → k ∈ ord ↔ is_Some (m !! k).
Proof. intros [_ H]. apply H. Qed.

Lemma range_order_nodup {V} (m : gmap string V) ord : range_order m ord → NoDup ord.
Proof. by intros [H _]. Qed.

Lemma range_order_perm {V} (m : gmap string V) ord1 ord2 :
  range_order m ord1 → range_order m ord2 → ord1 ≡ₚ ord2.
Proof.
  intros [Hn1 H1] [Hn2 H2]. apply NoDup_Permutation; [done..|].
  intros k. by rewrite H1, H2.
Qed.

Lemma range_order_length {V} (m : gmap string V) ord :
  range_order m ord → length ord = size m.
Proof.
  intros H. rewrite (range_order_perm _ _ _ H (keys_range_order m)).
  unfold keys. by rewrite length_fmap, length_map_to_list.
Qed.

Lemma get_slice_append_at {A} (m : gmap string (list A)) k x k' :
  get_slice (append_at m k x) k' =
  if decide (k = k') then get_slice m k ++ [x] else get_slice m k'.
Proof.
  unfold append_at, get_slice. rewrite lookup_insert. by case_decide; subst.
Qed.

(** ** Lemmas on lists and runs *)

Lemma filter_none {A} (P : A → Prop) `{!∀ x, Decision (P x)} (l : list A) :
  (∀ x, x ∈ l → ¬ P x) → filter P l = [].
Proof.
  induction l as [|x l IH]; intros HP; [done|]. rewrite filter_cons, decide_False by (apply HP; left).
  apply IH. intros y Hy. apply HP. by right.
Qed.

Lemma filter_all {A} (P : A → Prop) `{!∀ x, Decision (P x)} (l : list A) :
  (∀ x, x ∈ l → P x) → filter P l = l.
Proof.
  induction l as [|x l IH]; intros HP; [done|]. rewrite filter_cons, decide_True by (apply HP; left).
  f_equal. apply IH. intros y Hy. apply HP. by right.
Qed.

Lemma imap_pair_snd {A} (l : list A) : snd <$> imap pair l = l.
Proof. apply list_eq. intros i. rewrite list_lookup_fmap, list_lookup_imap. by destruct (l !! i). Qed.

(** A property every step preserves holds along every run. *)
Lemma rtc_preserve {A} (R : relation A) (P : A → Prop) x y :
  (∀ x y, R x y → P x → P y) → rtc R x y → P x → P y.
Proof. intros Hstep. induction 1; eauto. Qed.

Lemma rtc_foldl {A B} (R : relation A) (f : A → B → A) l a :
  (∀ a b, R a (f a b)) → rtc R a (foldl f a l).
Proof. intros Hf. revert a. induction l; intros; simpl; [done|]. eapply rtc_l; eauto. Qed.

#[export] Hint Resolve keys_range_order range_order_nodup : linkflow.
#[export] Hint Rewrite @get_slice_append_at : linkflow.

(** ** Sums over the values of a map *)

Definition total {A} (f : A → nat) (ts : gmap nat A) : nat :=
  map_fold (λ _ x n, f x + n) 0 ts.

Lemma total_insert_new {A} (f : A → nat) ts p x : ts !! p = None → total f (<[p := x]> ts) = f x + total f ts.
Proof.
  intros H. unfold total.
  apply (map_fold_insert_L (λ _ x n, f x + n)); [intros; lia|done].
Qed.

Lemma total_delete {A} (f : A → nat) ts p x : ts !! p = Some x → total f ts = f x + total f (delete p ts).
Proof.
  intros H. rewrite <-(insert_delete_id ts p x H) at 1. apply total_insert_new, lookup_delete_eq.
Qed.

Lemma total_insert {A} (f : A → nat) ts p x y :
  ts !! p = Some x → total f (<[p := y]> ts) + f x = total f ts + f y.
Proof.
  intros H. rewrite (total_delete f ts p x H), <-insert_delete_eq.
  rewrite total_insert_new by apply lookup_delete_eq. lia.
Qed.

Lemma total_sum {A} (f g h : A → nat) ts :
  map_Forall (λ _ x, f x + g x = h x) ts → total f ts + total g ts = total h ts.
Proof.
  induction ts as [|p x ts Hp IH] using map_ind; intros H; [done|].
  apply map_Forall_insert in H as [Hx H]; [|done].
  rewrite !total_insert_new by done. specialize (IH H). lia.
Qed.

Lemma total_one {A} (ts : gmap nat A) : total (λ _, 1) ts = size ts.
Proof.
  induction ts as [|p x ts Hp IH] using map_ind; [done|].
  rewrite total_insert_new, map_size_insert_None by done. by rewrite IH.
Qed.

(** What the values of a table have in store, up to the order. *)
Definition gathered {A B} (f : A → option B) (ts : gmap nat A) : list B := omap f (map_to_list ts).*2.

Lemma gathered_new {A B} (f : A → option B) ts p x :
  ts !! p = None → gathered f (<[p := x]> ts) ≡ₚ gathered f ts ++ option_list (f x).
Proof.
  intros Hp. unfold gathered. rewrite map_to_list_insert by done. simpl. destruct (f x); simpl; [|by rewrite app_nil_r].
  by rewrite Permutation_cons_append.
Qed.

Lemma gathered_insert {A B} (f : A → option B) ts p x y :
  ts !! p = Some x → gathered f (<[p := y]> ts) ++ option_list (f x) ≡ₚ gathered f ts ++ option_list (f y).
Proof.
  intros Hp. rewrite <- insert_delete_eq, gathered_new by apply lookup_delete_eq.
  rewrite <- (insert_delete_id ts p x Hp) at 2. rewrite gathered_new by apply lookup_delete_eq.
  rewrite <- !app_assoc. by rewrite (Permutation_app_comm (option_list (f y))).
Qed.
