(* ===== verification/GoValue.v ===== *)
(** Values of Go's dynamic type [interface{}] as the services exchange them
    (decoded JSON plus the integers and times the code itself produces), and the
    type assertions the code applies to them. *)

From S2P Require Import Prelude.
From Stdlib Require Export SpecFloat.

(** [interface{}]: the dynamic types the modelled code distinguishes.  A
    [float64] is an IEEE-754 binary64 datum, kept exactly. *)
Inductive value : Type :=
| VNil
| VBool (b : bool)
| VInt (z : Z)
| VFloat (f : spec_float)
| VStr (s : string)
| VTime (t : Z)                     (* time.Time, in nanoseconds *)
| VArr (vs : list value)
| VObj (kvs : list (string * value)).

(** Values can be compared. *)
#[export] Instance spec_float_eq_dec : EqDecision spec_float.
Proof. solve_decision. Defined.
#[export] Instance value_eq_dec : EqDecision value.
Proof.
  refine (fix go (x y : value) : Decision (x = y) := let _ : EqDecision value := @go in
    match x, y with
    | VNil, VNil => left eq_refl
    | VBool a, VBool b => cast_if (decide (a = b))
    | VInt a, VInt b => cast_if (decide (a = b))
    | VFloat a, VFloat b => cast_if (decide (a = b))
    | VStr a, VStr b => cast_if (decide (a = b))
    | VTime a, VTime b => cast_if (decide (a = b))
    | VArr a, VArr b => cast_if (decide (a = b))
    | VObj a, VObj b => cast_if (decide (a = b))
    | _, _ => right _
    end); abstract congruence.
Defined.

(** [map[string]interface{}], possibly nil. *)
Abbreviation vmap := (gmap string value).

(** [m[k].(string)] with the comma-ok form: the key may be absent. *)
Definition get_string (m : vmap) (k : string) : option string :=
  match m !! k with Some (VStr s) => Some s | _ => None end.

Definition get_bool (m : vmap) (k : string) : option bool :=
  match m !! k with Some (VBool b) => Some b | _ => None end.

(** [int] is 64 bits wide on the platforms the services are built for. *)
Definition wrap64 (z : Z) : Z := ((z + 2 ^ 63) `mod` 2 ^ 64 - 2 ^ 63)%Z.
Definition wrapu32 (z : Z) : Z := (z `mod` 2 ^ 32)%Z.

(** binary64 operations of the IEEE-754 specification in the standard library. *)
Definition f64_of_Z (z : Z) : spec_float := binary_normalize 53 1024 z 0 false.
Definition f64_mul : spec_float → spec_float → spec_float := SFmul 53 1024.
Definition f64_div : spec_float → spec_float → spec_float := SFdiv 53 1024.
Definition f64_add : spec_float → spec_float → spec_float := SFadd 53 1024.
Definition f64_sub : spec_float → spec_float → spec_float := SFsub 53 1024.
Definition f64_ltb : spec_float → spec_float → bool := SFltb.
Definition f64_leb : spec_float → spec_float → bool := SFleb.

(** [int(f)] for a finite [f]: truncation towards zero (the conversion of
    infinities and NaN is implementation-specific and reads as 0 here; no
    modelled caller converts one). *)
Definition f64_trunc (f : spec_float) : Z :=
  match f with
  | S754_finite s m e =>
      let mag := match e with
                 | Zpos p => (Zpos m * 2 ^ Zpos p)%Z
                 | Z0 => Zpos m
                 | Zneg p => (Zpos m / 2 ^ Zpos p)%Z
                 end in
      if s then (- mag)%Z else mag
  | _ => 0%Z
  end.

(** [int64(f)] for every [f]; [outside] is what the platform gives for a value that
    int64 does not have. *)
Definition to_int64 (outside : spec_float → Z) (f : spec_float) : Z :=
  match f with
  | S754_zero _ => 0
  | S754_finite _ _ _ =>
      let z := f64_trunc f in if bool_decide (- 2 ^ 63 ≤ z < 2 ^ 63)%Z then z else outside f
  | _ => outside f
  end.

Lemma wrap64_id z : (- 2 ^ 63 ≤ z < 2 ^ 63)%Z → wrap64 z = z.
Proof. intros H. unfold wrap64. rewrite Z.mod_small; lia. Qed.

Lemma wrap64_range z : (- 2 ^ 63 ≤ wrap64 z < 2 ^ 63)%Z.
Proof. unfold wrap64. pose proof (Z.mod_pos_bound (z + 2 ^ 63) (2 ^ 64)). lia. Qed.

Lemma wrapu32_range z : (0 ≤ wrapu32 z < 2 ^ 32)%Z.
Proof. unfold wrapu32. apply Z.mod_pos_bound. lia. Qed.

#[export] Hint Resolve wrap64_range wrapu32_range : linkflow.
