(* ===== verification/GoLib.v ===== *)
(** Functions of Go's standard library the services use on strings and floats:
    strings.Contains, strings.ToLower, strings.Trim, strings.TrimSpace, the %v
    verb of fmt, math.Pow. *)

From S2P Require Import Prelude GoValue.
From Stdlib Require Import Ascii.

(** ** strings *)

(** [strings.Contains(s, sub)]. *)
Fixpoint contains (s sub : string) : bool :=
  String.prefix sub s ||
  match s with "" => false | String _ s' => contains s' sub end.

(** [strings.ToLower] on ASCII letters; the case mapping of letters outside
    ASCII is left out. *)
Definition lower_ascii (c : ascii) : ascii :=
  let n := N_of_ascii c in
  if (65 <=? n)%N && (n <=? 90)%N then ascii_of_N (n + 32) else c.
Fixpoint to_lower (s : string) : string :=
  match s with "" => "" | String c s' => String (lower_ascii c) (to_lower s') end.

Lemma prefix_app sub b : String.prefix sub (sub +:+ b) = true.
Proof. induction sub as [|c sub IH]; [by destruct b|]. simpl. by destruct (Ascii.ascii_dec c c). Qed.

Lemma prefix_spec sub s : String.prefix sub s = true ↔ ∃ b, s = sub +:+ b.
Proof.
  split; [|intros [b ->]; apply prefix_app].
  revert s. induction sub as [|c sub IH]; intros s; [by exists s|].
  destruct s as [|c' s]; simpl; [done|]. destruct (Ascii.ascii_dec c c') as [<-|]; [|done].
  intros (b & ->)%IH. by exists b.
Qed.

(** [Contains] finds exactly the substrings. *)
Lemma contains_spec s sub : contains s sub = true ↔ ∃ a b, s = a +:+ sub +:+ b.
Proof.
  induction s as [|c s IH]; cbn [contains]; rewrite orb_true_iff, prefix_spec.
  - split; [intros [[b ->]|?]; [by exists "", b|done]|].
    intros (a & b & E). left. destruct a; [|done]. by exists b.
  - rewrite IH. split.
    + intros [[b ->]|(a & b & ->)]; [by exists "", b|by exists (String c a), b].
    + intros ([|c' a] & b & E); [left; by exists b|]. injection E as <- ->. right. by exists a, b.
Qed.

(** [strings.Trim] with the set of characters to remove as a predicate. *)
Fixpoint trim_left (f : ascii → bool) (s : string) : string :=
  match s with "" => "" | String c s' => if f c then trim_left f s' else s end.
Fixpoint trim_right (f : ascii → bool) (s : string) : string :=
  match s with
  | "" => ""
  | String c s' =>
      match trim_right f s' with
      | "" => if f c then "" else String c ""
      | r => String c r
      end
  end.
Definition trim (f : ascii → bool) (s : string) : string := trim_right f (trim_left f s).

Definition in_cutset (cutset : list ascii) (c : ascii) : bool := bool_decide (c ∈ cutset).

(** The ASCII characters [unicode.IsSpace] accepts. *)
Definition is_space (c : ascii) : bool :=
  let n := N_of_ascii c in bool_decide (n ∈ [9; 10; 11; 12; 13; 32]%N).
Definition trim_space : string → string := trim is_space.

(** Every character of [s] satisfies [f]. *)
Fixpoint string_forall (f : ascii → bool) (s : string) : bool :=
  match s with "" => true | String c s' => f c && string_forall f s' end.

Lemma string_app_cons c a b : String c a +:+ b = String c (a +:+ b).
Proof. done. Qed.

Lemma string_app_assoc a b c : (a +:+ b) +:+ c = a +:+ (b +:+ c).
Proof. induction a as [|x a IH]; [done|]. by rewrite !string_app_cons, IH. Qed.

Lemma string_app_length (s t : string) :
  String.length (s +:+ t) = String.length s + String.length t.
Proof. induction s as [|c s IH]; [done|]. rewrite string_app_cons. simpl. by rewrite IH. Qed.

Lemma substring_all s : String.substring 0 (String.length s) s = s.
Proof. induction s as [|x s IH]; simpl; [done|]. by rewrite IH. Qed.

Lemma substring_app p s :
  String.substring (String.length p) (String.length (p +:+ s) - String.length p) (p +:+ s) = s.
Proof.
  rewrite string_app_length. replace (String.length p + String.length s - String.length p) with (String.length s) by lia.
  induction p as [|x p IH]; [apply substring_all|]. rewrite string_app_cons. simpl. apply IH.
Qed.

Lemma string_app_inj_l (p s t : string) : p +:+ s = p +:+ t → s = t.
Proof. induction p as [|x p IH]; [done|]. rewrite !string_app_cons. intros [= E]. by apply IH. Qed.

Lemma string_app_inj_r (s1 s2 t : string) : s1 +:+ t = s2 +:+ t → s1 = s2.
Proof.
  revert s2. induction s1 as [|c s1 IH]; intros [|c' s2]; rewrite ?string_app_cons.
  1: done.
  3: intros [= -> E]; f_equal; by apply IH.
  all: intros E; apply (f_equal String.length) in E; cbn [String.length] in E;
    rewrite ?string_app_length in E; cbn [String.length] in E; lia.
Qed.

Lemma string_app_nil_r s : s +:+ "" = s.
Proof. induction s as [|c s IH]; [done|]. by rewrite string_app_cons, IH. Qed.

Lemma string_forall_app f a b : string_forall f (a +:+ b) = string_forall f a && string_forall f b.
Proof. induction a as [|c a IH]; [done|]. rewrite string_app_cons. simpl. by rewrite IH, andb_assoc. Qed.

Lemma trim_left_app f a b : string_forall f a = true → trim_left f (a +:+ b) = trim_left f b.
Proof.
  induction a as [|c a IH]; [done|]. rewrite string_app_cons. simpl.
  intros [Hc Ha]%andb_true_iff. rewrite Hc. by apply IH.
Qed.

Lemma trim_right_app f a b : string_forall f b = true → trim_right f (a +:+ b) = trim_right f a.
Proof.
  intros Hb. assert (trim_right f b = "") as Hnil.
  { induction b as [|c b IH]; [done|]. simpl in *. apply andb_true_iff in Hb as [Hc Hb].
    by rewrite IH, Hc. }
  induction a as [|c a IH]; [exact Hnil|]. rewrite string_app_cons. simpl. by rewrite IH.
Qed.

Lemma trim_right_none f s : string_forall (λ c, negb (f c)) s = true → trim_right f s = s.
Proof.
  induction s as [|c s IH]; [done|]. simpl. intros [Hc Hs]%andb_true_iff. rewrite IH by done.
  destruct s; [|done]. by destruct (f c).
Qed.

(** What is wrapped in removed characters is what [Trim] returns. *)
Lemma trim_wrapped f a s b :
  string_forall f a = true → string_forall f b = true → string_forall (λ c, negb (f c)) s = true →
  trim f (a +:+ s +:+ b) = s.
Proof.
  intros Ha Hb Hs. unfold trim. rewrite trim_left_app by done. destruct s as [|c s].
  - change ("" +:+ b) with b. assert (trim_left f b = "") as ->; [|done].
    rewrite <- (string_app_nil_r b) at 1. by rewrite trim_left_app.
  - rewrite string_app_cons. simpl. pose proof Hs as [Hc _]%andb_true_iff. destruct (f c); [done|].
    rewrite <- string_app_cons, trim_right_app by done. by apply trim_right_none.
Qed.

(** ** fmt *)

(** [%v] of a dynamic value.  The decimal text of a [float64] and the text of a
    time are arguments; a map prints with its keys in order. *)
Section sprint.
Context (fmt_float : spec_float → string) (fmt_time : Z → string).

Fixpoint insert_entry (e : string * string) (l : list (string * string)) :
    list (string * string) :=
  match l with
  | [] => [e]
  | e' :: l' => if String.leb e.1 e'.1 then e :: l else e' :: insert_entry e l'
  end.

Fixpoint sprint (v : value) : string :=
  match v with
  | VNil => "<nil>"
  | VBool b => if b then "true" else "false"
  | VInt z => pretty z
  | VFloat f => fmt_float f
  | VStr s => s
  | VTime t => fmt_time t
  | VArr vs => fmt_slice (sprint <$> vs)
  | VObj kvs =>
      let entries := foldr insert_entry [] ((λ kv, (kv.1, sprint kv.2)) <$> kvs) in
      "map[" +:+ String.concat " " ((λ e, e.1 +:+ ":" +:+ e.2) <$> entries) +:+ "]"
  end.
End sprint.

(** ** math.Pow *)

Definition f64_one : spec_float := f64_of_Z 1.
Definition f64_half : spec_float := f64_div f64_one (f64_of_Z 2).
Definition f64_frexp : spec_float → spec_float * Z := SFfrexp 53 1024.
Definition f64_ldexp : spec_float → Z → spec_float := SFldexp 53 1024.

(** The square-and-multiply loop over the bits of the exponent: [a1 * 2^ae]
    accumulates the power, [x1 * 2^xe] is the current square. *)
Fixpoint pow_loop (i : positive) (a1 : spec_float) (ae : Z) (x1 : spec_float) (xe : Z) :
    spec_float * Z :=
  if bool_decide (xe < - 4096)%Z || bool_decide (4096 < xe)%Z then (a1, (ae + xe)%Z)
  else
    let square (i' : positive) (a1 : spec_float) (ae : Z) :=
      let x1 := f64_mul x1 x1 in
      let xe := (2 * xe)%Z in
      if f64_ltb x1 f64_half then pow_loop i' a1 ae (f64_add x1 x1) (xe - 1)
      else pow_loop i' a1 ae x1 xe in
    match i with
    | xH => (f64_mul a1 x1, (ae + xe)%Z)
    | xO i' => square i' a1 ae
    | xI i' => square i' (f64_mul a1 x1) (ae + xe)%Z
    end.

(** [math.Pow(x, float64(n))] for a finite [x] other than zero. *)
Definition f64_pow (x : spec_float) (n : Z) : spec_float :=
  if bool_decide (n = 0%Z) || SFeqb x f64_one then f64_one
  else if bool_decide (n = 1%Z) then x
  else
    let '(x1, xe) := f64_frexp x in
    match n with
    | Z0 => f64_one
    | Zpos i => let '(a1, ae) := pow_loop i f64_one 0 x1 xe in f64_ldexp a1 ae
    | Zneg i => let '(a1, ae) := pow_loop i f64_one 0 x1 xe in f64_ldexp (f64_div f64_one a1) (- ae)
    end.

(** Small powers of two are exact. *)
Example pow_2_10 : f64_pow (f64_of_Z 2) 10 = f64_of_Z 1024.
Proof. reflexivity. Qed.
Example pow_half : f64_pow (f64_of_Z 2) (-1) = f64_half.
Proof. reflexivity. Qed.
