(* ===== verification/GoText.v ===== *)
(** More of Go's standard library on strings, as the node executors use it:
    strings.Split, strings.Index, strings.HasSuffix, strings.ToUpper,
    strconv.Atoi. *)

From S2P Require Import Prelude GoValue GoLib.
From Stdlib Require Import Ascii DecimalString DecimalN.

(** ** strings.Split *)

(** The width of the first character: one for a byte that does not begin a
    valid UTF-8 sequence. *)
Definition byte_in (lo hi : N) (s : string) : bool :=
  match s with "" => false | String c _ => (lo <=? N_of_ascii c)%N && (N_of_ascii c <=? hi)%N end.
Definition drop1 (s : string) : string := match s with "" => "" | String _ s' => s' end.
Definition rune_size (s : string) : nat :=
  let cont := byte_in 128 191 in
  let s1 := drop1 s in let s2 := drop1 s1 in let s3 := drop1 s2 in
  if byte_in 194 223 s && cont s1 then 2
  else if ((byte_in 224 224 s && byte_in 160 191 s1) || (byte_in 237 237 s && byte_in 128 159 s1)
           || ((byte_in 225 236 s || byte_in 238 239 s) && cont s1)) && cont s2 then 3
  else if ((byte_in 240 240 s && byte_in 144 191 s1) || (byte_in 244 244 s && byte_in 128 143 s1)
           || (byte_in 241 243 s && cont s1)) && cont s2 && cont s3 then 4
  else 1.

(** [split_at sep s skip] splits [s] after dropping its first [skip] bytes: the
    first piece and the others. *)
Fixpoint split_at (sep s : string) (skip : nat) : string * list string :=
  match s with
  | "" => ("", [])
  | String c s' =>
      match skip with
      | S k => split_at sep s' k
      | O =>
          if String.prefix sep s
          then let '(h, t) := split_at sep s' (String.length sep - 1) in ("", h :: t)
          else let '(h, t) := split_at sep s' 0 in (String c h, t)
      end
  end.
Fixpoint explode (s : string) (width : nat) : string * list string :=
  match s with
  | "" => ("", [])
  | String c s' =>
      match width with
      | S (S k) => let '(h, t) := explode s' (S k) in (String c h, t)
      | _ => let '(h, t) := explode s' (rune_size s') in
             (String c "", match s' with "" => t | _ => h :: t end)
      end
  end.
Definition split (s sep : string) : list string :=
  if bool_decide (sep = "") then
    match s with "" => [] | _ => let '(h, t) := explode s (rune_size s) in h :: t end
  else let '(h, t) := split_at sep s 0 in h :: t.

Example split_text : split "a,,b" "," = ["a"; ""; "b"] ∧ split "abc" "" = ["a"; "b"; "c"].
Proof. split; reflexivity. Qed.

(** Splitting at a character. *)
Fixpoint no_char (c : ascii) (s : string) : bool :=
  match s with "" => true | String x s' => negb (bool_decide (x = c)) && no_char c s' end.

Lemma no_char_app c a b : no_char c (a +:+ b) = no_char c a && no_char c b.
Proof. induction a as [|x a IH]; [done|]. rewrite string_app_cons. simpl. by rewrite IH, andb_assoc. Qed.

Lemma split_at_char c x s :
  x ≠ c → split_at (String c "") (String x s) 0 =
          let '(h, t) := split_at (String c "") s 0 in (String x h, t).
Proof. intros H. cbn [split_at String.prefix]. destruct (ascii_dec c x); [congruence|done]. Qed.

Lemma split_at_sep c s : split_at (String c "") (String c s) 0 = let '(h, t) := split_at (String c "") s 0 in ("", h :: t).
Proof. cbn [split_at String.prefix]. destruct (ascii_dec c c); [|congruence]. by destruct s. Qed.

Lemma split_piece c p s :
  no_char c p = true →
  split_at (String c "") (p +:+ s) 0 = let '(h, t) := split_at (String c "") s 0 in (p +:+ h, t).
Proof.
  induction p as [|x p IH]; intros Hp; [by change ("" +:+ s) with s; destruct (split_at _ _ _)|].
  simpl in Hp. apply andb_true_iff in Hp as [Hx Hp]. apply negb_true_iff, bool_decide_eq_false in Hx.
  rewrite string_app_cons, split_at_char, IH by done. by destruct (split_at _ s 0).
Qed.

(** Pieces without the separator, joined and split again. *)
Lemma split_concat c ps :
  ps ≠ [] → Forall (λ p, no_char c p = true) ps → split (String.concat (String c "") ps) (String c "") = ps.
Proof.
  intros Hne Hps. unfold split. rewrite bool_decide_false by done.
  induction Hps as [|p ps Hp Hps IH]; [done|]. destruct ps as [|q ps].
  - simpl. rewrite <- (string_app_nil_r p) at 1. rewrite split_piece by done. simpl. by rewrite string_app_nil_r.
  - cbn [String.concat]. rewrite split_piece, string_app_cons by done.
    change ("" +:+ String.concat (String c "") (q :: ps)) with (String.concat (String c "") (q :: ps)).
    rewrite split_at_sep. specialize (IH ltac:(done)). destruct (split_at _ _ 0) as [h t].
    rewrite string_app_nil_r. by rewrite IH.
Qed.

(** ** Other functions on strings *)

(** The text before and after the first occurrence of a character, for
    [strings.Index(s, c)] and the slices around it. *)
Fixpoint cut (c : ascii) (s : string) : option (string * string) :=
  match s with
  | "" => None
  | String x s' =>
      if bool_decide (x = c) then Some ("", s')
      else match cut c s' with Some (a, b) => Some (String x a, b) | None => None end
  end.

Lemma cut_none c s : no_char c s = true → cut c s = None.
Proof.
  induction s as [|x s IH]; [done|]. simpl. intros [Hx Hs]%andb_true_iff.
  apply negb_true_iff in Hx. by rewrite Hx, IH.
Qed.
Lemma cut_app c a b : no_char c a = true → cut c (a +:+ String c b) = Some (a, b).
Proof.
  induction a as [|x a IH]; [by simpl; rewrite bool_decide_true|]. rewrite string_app_cons. simpl.
  intros [Hx Ha]%andb_true_iff. apply negb_true_iff in Hx. by rewrite Hx, IH.
Qed.

(** The string without its last byte. *)
Fixpoint drop_last (s : string) : string :=
  match s with "" => "" | String c s' => match s' with "" => "" | _ => String c (drop_last s') end end.

Lemma drop_last_app s c : drop_last (s +:+ String c "") = s.
Proof.
  induction s as [|x s IH]; [done|]. rewrite string_app_cons. simpl. rewrite IH.
  destruct (s +:+ String c "") eqn:E; [|done]. by destruct s.
Qed.

Definition upper_ascii (c : ascii) : ascii :=
  let n := N_of_ascii c in
  if (97 <=? n)%N && (n <=? 122)%N then ascii_of_N (n - 32) else c.
(** [strings.ToUpper] on ASCII letters. *)
Fixpoint to_upper (s : string) : string :=
  match s with "" => "" | String c s' => String (upper_ascii c) (to_upper s') end.

(** [strings.HasSuffix]. *)
Definition has_suffix (s suf : string) : bool :=
  bool_decide (String.length suf ≤ String.length s)
  && bool_decide (String.substring (String.length s - String.length suf) (String.length suf) s = suf).

(** ** strconv.Atoi *)

Definition clamp64 (z : Z) : Z := Z.max (- 2 ^ 63) (Z.min (2 ^ 63 - 1) z).

(** The integer [Atoi] returns, with its error dropped: zero for text that is
    not a number, the nearest int for one out of range. *)
Definition digits (s : string) : option Z :=
  match NilZero.uint_of_string s with Some u => Some (Z.of_N (N.of_uint u)) | None => None end.
Definition atoi (s : string) : Z :=
  match s with
  | String "-" s' => match digits s' with Some n => clamp64 (- n) | None => 0%Z end
  | String "+" s' => match digits s' with Some n => clamp64 n | None => 0%Z end
  | _ => match digits s with Some n => clamp64 n | None => 0%Z end
  end.

Definition string_of_N (n : N) : string := NilZero.string_of_uint (N.to_uint n).

Lemma digits_of_N n : digits (string_of_N n) = Some (Z.of_N n).
Proof.
  unfold digits, string_of_N. rewrite NilZero.usu; [by rewrite DecimalN.Unsigned.of_to|].
  intros H. assert (n = 0%N) as -> by (rewrite <- (DecimalN.Unsigned.of_to n), H; done). done.
Qed.

(** A text of digits. *)
Lemma uint_digits u c : no_char c "0123456789" = true → no_char c (NilEmpty.string_of_uint u) = true.
Proof.
  intros H. simpl in H. repeat (apply andb_true_iff in H as [? H]).
  induction u as [|u IH|u IH|u IH|u IH|u IH|u IH|u IH|u IH|u IH|u IH]; simpl; [done|..];
    rewrite IH; apply andb_true_iff; done.
Qed.
Lemma string_of_N_char n c : no_char c "0123456789" = true → no_char c (string_of_N n) = true.
Proof.
  intros H. unfold string_of_N, NilZero.string_of_uint. destruct (N.to_uint n) as [|u|u|u|u|u|u|u|u|u|u];
    [|exact (uint_digits _ c H)..].
  simpl in H |- *. apply andb_true_iff in H as [H _]. by rewrite H.
Qed.

Lemma atoi_of_N n : (Z.of_N n < 2 ^ 63)%Z → atoi (string_of_N n) = Z.of_N n.
Proof.
  intros H. pose proof (string_of_N_char n "-" eq_refl) as H1. pose proof (string_of_N_char n "+" eq_refl) as H2.
  pose proof (digits_of_N n) as Hd. unfold atoi. destruct (string_of_N n) as [|c s] eqn:E; [done|].
  simpl in H1, H2. apply andb_true_iff in H1 as [H1 _], H2 as [H2 _].
  apply negb_true_iff, bool_decide_eq_false in H1, H2. rewrite <- E in Hd |- *.
  assert (clamp64 (Z.of_N n) = Z.of_N n) as Hc by (unfold clamp64; lia).
  rewrite E in Hd |- *. destruct c as [[] [] [] [] [] [] [] []]; try congruence; by rewrite Hd.
Qed.
