(* ===== verification/Graph.v ===== *)
(** Directed graphs as adjacency maps, and the graph searches the workflow
    packages share: the cycle-detecting depth-first search (written out three
    times in pkg/contracts/workflow: dag.go, workflow.go, validator.go), the
    breadth-first search of dag.go, and the preorder depth-first collection
    behind GetDescendants / GetAncestors.  Each search is fuelled; its
    specification says which nodes it finds and that the fuel the callers
    pass is enough. *)

From S2P Require Import Prelude.

(** ** Graphs *)

(** [map[string][]string] with the targets of each source in order. *)
Abbreviation graph := (gmap string (list string)).

Definition succs (g : graph) (x : string) : list string := get_slice g x.

Definition edge (g : graph) : relation string := λ x y, y ∈ succs g x.

(** Every node that occurs as a source or as a target. *)
Definition universe (g : graph) : gset string :=
  dom g ∪ list_to_set (concat (map_to_list g).*2).

(** Fuel that is enough for every search started from [roots]. *)
Definition graph_fuel (g : graph) (roots : list string) : nat :=
  length roots + size (universe g ∪ list_to_set roots).

(** ** Cycle detection: depth-first search with a recursion stack *)

(** The loop over the neighbours; [rec] is the recursive closure. *)
Fixpoint dfs_neighbors
    (rec : string → gset string → gset string →
           option (bool * (gset string * gset string)))
    (ns : list string) (visited recStack : gset string) :
    option (bool * (gset string * gset string)) :=
  match ns with
  | [] => Some (false, (visited, recStack))
  | neighbor :: ns' =>
      if bool_decide (neighbor ∉ visited) then
        match rec neighbor visited recStack with
        | Some (false, (visited', recStack')) =>
            dfs_neighbors rec ns' visited' recStack'
        | r => r
        end
      else if bool_decide (neighbor ∈ recStack) then
        Some (true, (visited, recStack))
      else dfs_neighbors rec ns' visited recStack
  end.

Fixpoint hasCycleDFS (fuel : nat) (g : graph) (nodeID : string)
    (visited recStack : gset string) :
    option (bool * (gset string * gset string)) :=
  match fuel with
  | O => None
  | S fuel' =>
      match dfs_neighbors (hasCycleDFS fuel' g) (succs g nodeID)
              ({[nodeID]} ∪ visited) ({[nodeID]} ∪ recStack) with
      | Some (false, (visited', recStack')) =>
          Some (false, (visited', recStack' ∖ {[nodeID]}))
      | r => r
      end
  end.

(** The outer loop over the nodes of the workflow. *)
Fixpoint cycle_roots (fuel : nat) (g : graph) (roots : list string)
    (visited recStack : gset string) : option bool :=
  match roots with
  | [] => Some false
  | nodeID :: roots' =>
      if bool_decide (nodeID ∉ visited) then
        match hasCycleDFS fuel g nodeID visited recStack with
        | Some (true, _) => Some true
        | Some (false, (visited', recStack')) =>
            cycle_roots fuel g roots' visited' recStack'
        | None => None
        end
      else cycle_roots fuel g roots' visited recStack
  end.

(** ** Breadth-first search *)

Fixpoint bfs_neighbors (ns : list string) (visited : gset string)
    (queue : list string) : gset string * list string :=
  match ns with
  | [] => (visited, queue)
  | neighbor :: ns' =>
      if bool_decide (neighbor ∉ visited)
      then bfs_neighbors ns' ({[neighbor]} ∪ visited) (queue ++ [neighbor])
      else bfs_neighbors ns' visited queue
  end.

Fixpoint bfs (fuel : nat) (g : graph) (queue : list string)
    (visited : gset string) : option (gset string) :=
  match queue with
  | [] => Some visited
  | current :: queue' =>
      match fuel with
      | O => None
      | S fuel' =>
          let '(visited', queue'') :=
            bfs_neighbors (succs g current) visited queue' in
          bfs fuel' g queue'' visited'
      end
  end.

(** ** Preorder depth-first collection *)

Fixpoint collect_neighbors
    (rec : string → gset string → list string →
           option (gset string * list string))
    (ns : list string) (visited : gset string) (acc : list string) :
    option (gset string * list string) :=
  match ns with
  | [] => Some (visited, acc)
  | n :: ns' =>
      if bool_decide (n ∉ visited) then
        match rec n ({[n]} ∪ visited) (acc ++ [n]) with
        | Some (visited', acc') => collect_neighbors rec ns' visited' acc'
        | None => None
        end
      else collect_neighbors rec ns' visited acc
  end.

Fixpoint collect (fuel : nat) (g : graph) (current : string)
    (visited : gset string) (acc : list string) :
    option (gset string * list string) :=
  match fuel with
  | O => None
  | S fuel' => collect_neighbors (collect fuel' g) (succs g current) visited acc
  end.

(** ** Basic facts *)

Lemma succs_universe g x y : edge g x y → y ∈ universe g.
Proof.
  unfold edge, succs, get_slice, universe. intros Hy.
  destruct (g !! x) as [l|] eqn:E; simpl in Hy; [|by apply elem_of_nil in Hy].
  apply elem_of_union_r, elem_of_list_to_set, list_elem_of_In, in_concat.
  exists l. split; [|by apply list_elem_of_In].
  apply list_elem_of_In, list_elem_of_fmap. exists (x, l).
  split; [done|]. by apply elem_of_map_to_list.
Qed.

Lemma bool_decide_notin (x : string) (X : gset string) :
  bool_decide (x ∉ X) = negb (bool_decide (x ∈ X)).
Proof. by repeat case_bool_decide. Qed.

Lemma size_diff_grow (U V : gset string) n :
  n ∈ U → n ∉ V → size (U ∖ V) = S (size (U ∖ ({[n]} ∪ V))).
Proof.
  intros HU HV.
  assert (U ∖ V = {[n]} ∪ U ∖ ({[n]} ∪ V)) as ->.
  { apply set_eq. intros x. destruct (decide (x = n)); set_solver. }
  rewrite size_union by set_solver. by rewrite size_singleton.
Qed.

Lemma size_diff_mono (U V V' : gset string) :
  V ⊆ V' → size (U ∖ V') ≤ size (U ∖ V).
Proof. intros H. apply subseteq_size. set_solver. Qed.

Lemma tc_iff_edge_rtc (R : relation string) x y :
  tc R x y ↔ ∃ z, R x z ∧ rtc R z y.
Proof.
  split.
  - intros H. inversion H; subst; eauto using rtc_refl, tc_rtc.
  - intros (z & Hz & Hr). eapply tc_rtc_r; [by apply tc_once|done].
Qed.

Lemma rtc_closed (R : relation string) (P : string → Prop) x y :
  (∀ a b, P a → R a b → P b) → P x → rtc R x y → P y.
Proof. intros Hcl Hx Hr. revert Hx. induction Hr; eauto. Qed.

#[export] Hint Resolve succs_universe : linkflow.

(** ** Correctness of the cycle search *)

Section cycle_search.
Context (g : graph).
Implicit Types (V R : gset string) (n x y : string).

(** Finished nodes (visited, not on the recursion stack) only lead to
    finished nodes and lie on no cycle. *)
Record dfs_inv V R : Prop := {
  dfs_stack_visited : R ⊆ V;
  dfs_closed : ∀ x y, x ∈ V → x ∉ R → edge g x y → y ∈ V ∧ y ∉ R;
  dfs_acyclic : ∀ x, x ∈ V → x ∉ R → ¬ tc (edge g) x x
}.

(** Finished nodes can only reach finished nodes. *)
Lemma dfs_finished_reach V R x y :
  dfs_inv V R → x ∈ V → x ∉ R → rtc (edge g) x y → y ∈ V ∧ y ∉ R.
Proof.
  intros [_ Hcl _] Hx Hr Hxy.
  apply (rtc_closed (edge g) (λ z, z ∈ V ∧ z ∉ R) x y); [|done..].
  intros a b [Ha Ha'] Hab. eauto.
Qed.

(** Outcome of the search at [n]: a cycle reachable from [n], or [n] and all
    it reaches are finished and the stack is unchanged. *)
Definition dfs_post n V R (b : bool) V' R' : Prop :=
  if b then ∃ x, rtc (edge g) n x ∧ tc (edge g) x x
  else R' = R ∧ V ⊆ V' ∧ n ∈ V' ∧ dfs_inv V' R.

Lemma dfs_neighbors_spec rec n ns V R b V' R' :
  (∀ m V R b V' R', dfs_inv V R → m ∉ V → (∀ r, r ∈ R → tc (edge g) r m) →
     rec m V R = Some (b, (V', R')) → dfs_post m V R b V' R') →
  dfs_inv V R → n ∈ R → (∀ r, r ∈ R → rtc (edge g) r n) →
  (∀ m, m ∈ ns → edge g n m) →
  dfs_neighbors rec ns V R = Some (b, (V', R')) →
  if b then ∃ x, rtc (edge g) n x ∧ tc (edge g) x x
  else R' = R ∧ V ⊆ V' ∧ dfs_inv V' R ∧ ∀ m, m ∈ ns → m ∈ V' ∧ m ∉ R.
Proof.
  intros Hrec. revert V. induction ns as [|m ns IH]; intros V Hinv Hn Hst Hns Heq;
    simpl in Heq.
  { simplify_eq. split_and!; [done..|set_solver]. }
  assert (Hnm : edge g n m) by (apply Hns; left).
  assert (Hns' : ∀ k, k ∈ ns → edge g n k) by (intros; apply Hns; by right).
  rewrite bool_decide_notin in Heq. case_bool_decide as Hm; simpl in Heq.
  - case_bool_decide as HmR.
    + simplify_eq. exists n. split; [done|]. eapply tc_rtc_r; [by apply tc_once|auto].
    + specialize (IH V Hinv Hn Hst Hns' Heq). destruct b; [done|].
      destruct IH as (-> & HV & Hi & Hall). split_and!; [done..|].
      intros k [->|Hk]%elem_of_cons; [set_solver|auto].
  - destruct (rec m V R) as [[[] [V1 R1]]|] eqn:E; simplify_eq.
    + apply Hrec in E; [|done|done|by intros r Hr; eapply tc_rtc_l; [eauto|apply tc_once]].
      destruct E as (x & Hx & Hc). exists x. split; [by eapply rtc_l|done].
    + apply Hrec in E; [|done|done|by intros r Hr; eapply tc_rtc_l; [eauto|apply tc_once]].
      destruct E as (-> & HV1 & Hm1 & Hinv1).
      specialize (IH V1 Hinv1 Hn Hst Hns' Heq). destruct b; [done|].
      destruct IH as (-> & HV & Hi & Hall). split_and!; [done|set_solver|done|].
      assert (m ∉ R) by (intros ?; apply Hm; by apply (dfs_stack_visited _ _ Hinv)).
      intros k [->|Hk]%elem_of_cons; [set_solver|auto].
Qed.

(** Marking [n] visited and on the stack keeps the invariant. *)
Lemma dfs_inv_push n V R :
  dfs_inv V R → n ∉ V → dfs_inv ({[n]} ∪ V) ({[n]} ∪ R).
Proof.
  intros Hinv Hn. split.
  - pose proof (dfs_stack_visited _ _ Hinv). set_solver.
  - intros x y Hx HxR Hxy. destruct (dfs_closed _ _ Hinv x y); set_solver.
  - intros x Hx HxR. apply (dfs_acyclic _ _ Hinv); set_solver.
Qed.

(** Finishing [n], whose successors are all finished, keeps the invariant. *)
Lemma dfs_inv_pop n V R :
  dfs_inv V ({[n]} ∪ R) → n ∈ V → n ∉ R →
  (∀ m, edge g n m → m ∈ V ∧ m ∉ {[n]} ∪ R) →
  dfs_inv V R.
Proof.
  intros Hinv HnV HnR Hsucc. split.
  - pose proof (dfs_stack_visited _ _ Hinv). set_solver.
  - intros x y Hx HxR Hxy. destruct (decide (x = n)) as [->|Hne].
    + destruct (Hsucc y Hxy). set_solver.
    + destruct (dfs_closed _ _ Hinv x y); set_solver.
  - intros x Hx HxR Hc. destruct (decide (x = n)) as [->|Hne].
    + apply tc_iff_edge_rtc in Hc as (y & Hy & Hyn). destruct (Hsucc y Hy) as [HyV HyR].
      destruct (dfs_finished_reach _ _ _ _ Hinv HyV HyR Hyn). set_solver.
    + eapply (dfs_acyclic _ _ Hinv); [done| |done]. set_solver.
Qed.

Lemma hasCycleDFS_spec fuel n V R b V' R' :
  dfs_inv V R → n ∉ V → (∀ r, r ∈ R → tc (edge g) r n) →
  hasCycleDFS fuel g n V R = Some (b, (V', R')) → dfs_post n V R b V' R'.
Proof.
  revert n V R b V' R'. induction fuel as [|fuel IH]; intros n V R b V' R' Hinv Hn Hst Heq;
    simpl in Heq; [done|].
  destruct (dfs_neighbors _ _ _ _) as [[b1 [V1 R1]]|] eqn:E; [|done].
  assert (HnR : n ∉ R) by (intros ?; apply Hn; by apply (dfs_stack_visited _ _ Hinv)).
  eapply (dfs_neighbors_spec _ n) in E; [| |by apply dfs_inv_push|set_solver| |by intros].
  - destruct b1; simplify_eq; [done|]. destruct E as (-> & HV & Hi & Hall).
    unfold dfs_post. split_and!; [set_solver|set_solver|set_solver|].
    apply (dfs_inv_pop n); [done|set_solver|done|]. intros m Hm. by apply Hall.
  - intros. by eapply IH.
  - intros r [->%elem_of_singleton|Hr]%elem_of_union; [done|]. apply tc_rtc. auto.
Qed.

Lemma hasCycleDFS_mono fuel n V R b V' R' :
  hasCycleDFS fuel g n V R = Some (b, (V', R')) → V ⊆ V'.
Proof.
  revert n V R b V' R'. induction fuel as [|fuel IH]; intros n V R b V' R' Heq; [done|].
  simpl in Heq. destruct (dfs_neighbors _ _ _ _) as [[b1 [V1 R1]]|] eqn:E; [|done].
  assert (V1 = V') as -> by (destruct b1; congruence). clear Heq.
  trans ({[n]} ∪ V); [set_solver|]. revert E.
  generalize ({[n]} ∪ V) as W, ({[n]} ∪ R) as Q.
  induction (succs g n) as [|m ns IHns]; intros W Q E; simpl in E; [by simplify_eq|].
  case_bool_decide.
  - destruct (hasCycleDFS fuel g m W Q) as [[[] [V2 R2]]|] eqn:E2; simplify_eq; [eauto|].
    trans V2; eauto.
  - case_bool_decide; simplify_eq; eauto.
Qed.

(** Fuel bounded by the unvisited part of any successor-closed set is enough. *)
Lemma hasCycleDFS_total (U : gset string) fuel n V R :
  (∀ x y, edge g x y → y ∈ U) → n ∈ U → n ∉ V → size (U ∖ V) ≤ fuel →
  is_Some (hasCycleDFS fuel g n V R).
Proof.
  intros HU. revert n V R. induction fuel as [|fuel IH]; intros n V R HnU HnV Hsz.
  { rewrite (size_diff_grow _ _ n) in Hsz by done. lia. }
  simpl. rewrite (size_diff_grow _ _ n) in Hsz by done.
  cut (is_Some (dfs_neighbors (hasCycleDFS fuel g) (succs g n) ({[n]} ∪ V) ({[n]} ∪ R))).
  { intros [[[] [V1 R1]] ->]; eauto. }
  assert (Hs : ∀ m, m ∈ succs g n → m ∈ U) by (intros m Hm; by eapply HU).
  apply le_S_n in Hsz. revert Hs Hsz.
  generalize ({[n]} ∪ V) as W, ({[n]} ∪ R) as Q.
  induction (succs g n) as [|m ns IHns]; intros W Q Hs Hsz; simpl; [eauto|].
  case_bool_decide.
  - destruct (IH m W Q) as [[[] [V2 R2]] E]; [set_solver..|done|eauto|]; rewrite E; [eauto|].
    apply IHns; [set_solver|]. apply hasCycleDFS_mono in E.
    etrans; [by apply size_diff_mono|done].
  - case_bool_decide; [eauto|]. apply IHns; [set_solver|done].
Qed.

End cycle_search.

(** The whole search: it terminates on the callers' fuel, and answers
    whether a cycle is reachable from the given roots. *)
Definition cyclic_from (g : graph) (roots : list string) : Prop :=
  ∃ r x, r ∈ roots ∧ rtc (edge g) r x ∧ tc (edge g) x x.

Lemma cycle_roots_spec (U : gset string) fuel g roots V :
  (∀ x y, edge g x y → y ∈ U) → (∀ r, r ∈ roots → r ∈ U) → size U ≤ fuel →
  dfs_inv g V ∅ →
  ∃ b, cycle_roots fuel g roots V ∅ = Some b ∧ (b = true ↔ cyclic_from g roots).
Proof.
  intros HU Hr Hf. revert V. induction roots as [|n roots IH]; intros V Hinv; simpl.
  { exists false. split; [done|]. split; [done|]. intros (r & x & Hin & _). set_solver. }
  assert (Hcons : cyclic_from g (n :: roots) ↔
      (∃ x, rtc (edge g) n x ∧ tc (edge g) x x) ∨ cyclic_from g roots).
  { unfold cyclic_from. setoid_rewrite elem_of_cons. naive_solver. }
  assert (Hr' : ∀ r, r ∈ roots → r ∈ U) by set_solver.
  assert (Hfin : ∀ W, dfs_inv g W ∅ → n ∈ W → ¬ ∃ x, rtc (edge g) n x ∧ tc (edge g) x x).
  { intros W HW Hn (x & Hnx & Hx).
    destruct (dfs_finished_reach g _ _ _ _ HW Hn (not_elem_of_empty _) Hnx).
    by apply (dfs_acyclic _ _ _ HW x). }
  rewrite bool_decide_notin. case_bool_decide as Hn; simpl.
  - destruct (IH Hr' V Hinv) as (b & -> & Hb). exists b. split; [done|].
    rewrite Hb, Hcons. pose proof (Hfin _ Hinv Hn). tauto.
  - destruct (hasCycleDFS_total g U fuel n V ∅) as [[b [V1 R1]] E]; [done|set_solver|done| |].
    { etrans; [|done]. apply subseteq_size. set_solver. }
    rewrite E. pose proof E as Hpost. apply hasCycleDFS_spec in Hpost; [|done|done|set_solver].
    destruct b; simpl in Hpost.
    + exists true. split; [done|]. rewrite Hcons. tauto.
    + destruct Hpost as (-> & HV & HnV & Hinv1).
      destruct (IH Hr' V1 Hinv1) as (b & -> & Hb). exists b. split; [done|].
      rewrite Hb, Hcons. pose proof (Hfin _ Hinv1 HnV). tauto.
Qed.

Lemma dfs_inv_empty g : dfs_inv g ∅ ∅.
Proof. split; set_solver. Qed.

Lemma cycle_roots_correct g roots :
  ∃ b, cycle_roots (graph_fuel g roots) g roots ∅ ∅ = Some b ∧
       (b = true ↔ cyclic_from g roots).
Proof.
  apply (cycle_roots_spec (universe g ∪ list_to_set roots)).
  - intros x y Hxy. apply elem_of_union_l. eauto with linkflow.
  - intros r Hr. by apply elem_of_union_r, elem_of_list_to_set.
  - unfold graph_fuel. lia.
  - apply dfs_inv_empty.
Qed.

(** ** Correctness of the breadth-first search *)

Section breadth_first.
Context (g : graph).
Implicit Types (V : gset string) (q : list string).

Lemma bfs_neighbors_visited ns V q :
  (bfs_neighbors ns V q).1 = list_to_set ns ∪ V.
Proof.
  revert V q. induction ns as [|n ns IH]; intros V q; simpl; [set_solver|].
  case_bool_decide; rewrite IH; set_solver.
Qed.

(** The new queue is the old one followed by the newly visited neighbours,
    whose number the visited set pays for. *)
Lemma bfs_neighbors_queue ns V q :
  ∃ added, (bfs_neighbors ns V q).2 = q ++ added ∧ NoDup added ∧
    (∀ x, x ∈ added ↔ x ∈ ns ∧ x ∉ V).
Proof.
  revert V q. induction ns as [|n ns IH]; intros V q; simpl.
  { exists []. rewrite app_nil_r. split_and!; [done|constructor|set_solver]. }
  case_bool_decide as Hn.
  - destruct (IH ({[n]} ∪ V) (q ++ [n])) as (added & -> & Hnd & Hx).
    exists (n :: added). rewrite <- app_assoc. split_and!; [done| |].
    + constructor; [rewrite Hx; set_solver|done].
    + intros x. rewrite elem_of_cons, Hx, elem_of_cons.
      destruct (decide (x = n)); set_solver.
  - destruct (IH V q) as (added & -> & Hnd & Hx). exists added.
    split_and!; [done..|]. intros x. rewrite Hx. set_solver.
Qed.

(** Visited nodes are reachable from the roots; each is still queued or has
    all its successors visited. *)
Record bfs_inv (roots : list string) V q : Prop := {
  bfs_roots : ∀ r, r ∈ roots → r ∈ V;
  bfs_queue : ∀ x, x ∈ q → x ∈ V;
  bfs_sound : ∀ x, x ∈ V → ∃ r, r ∈ roots ∧ rtc (edge g) r x;
  bfs_done : ∀ x, x ∈ V → x ∈ q ∨ ∀ y, edge g x y → y ∈ V
}.

Lemma bfs_inv_step roots V x q :
  bfs_inv roots V (x :: q) →
  bfs_inv roots (bfs_neighbors (succs g x) V q).1 (bfs_neighbors (succs g x) V q).2.
Proof.
  intros Hinv. rewrite bfs_neighbors_visited.
  destruct (bfs_neighbors_queue (succs g x) V q) as (added & -> & _ & Hadd).
  split.
  - intros r Hr. apply elem_of_union_r. by apply (bfs_roots _ _ _ Hinv).
  - intros y [Hy|Hy]%elem_of_app.
    + apply elem_of_union_r, (bfs_queue _ _ _ Hinv). by right.
    + apply Hadd in Hy as [Hy _]. by apply elem_of_union_l, elem_of_list_to_set.
  - intros y [Hy%elem_of_list_to_set|Hy]%elem_of_union; [|by apply (bfs_sound _ _ _ Hinv)].
    destruct (bfs_sound _ _ _ Hinv x) as (r & Hr & Hrx).
    { apply (bfs_queue _ _ _ Hinv). left. }
    exists r. split; [done|]. by eapply rtc_r.
  - intros y Hy. destruct (decide (y ∈ V)) as [HyV|HyV].
    + destruct (bfs_done _ _ _ Hinv y HyV) as [[->|Hq]%elem_of_cons|Hd].
      * right. intros z Hz. by apply elem_of_union_l, elem_of_list_to_set.
      * left. by apply elem_of_app; left.
      * right. intros z Hz. apply elem_of_union_r. auto.
    + left. apply elem_of_app. right. apply Hadd. set_solver.
Qed.

(** Each dequeued node is paid for by the queue, each enqueued one by the
    unvisited nodes. *)
Lemma bfs_neighbors_measure (U : gset string) x V q :
  (∀ x y, edge g x y → y ∈ U) →
  length (bfs_neighbors (succs g x) V q).2 + size (U ∖ (bfs_neighbors (succs g x) V q).1)
  ≤ length q + size (U ∖ V).
Proof.
  intros HU. rewrite bfs_neighbors_visited.
  destruct (bfs_neighbors_queue (succs g x) V q) as (added & -> & Hnd & Hadd).
  rewrite length_app, <- Nat.add_assoc. apply Nat.add_le_mono_l.
  rewrite <- (size_list_to_set (C := gset string) added) by done. rewrite <- size_union.
  - apply subseteq_size. intros y. rewrite elem_of_union, elem_of_list_to_set, Hadd.
    intros [[Hy Hy']|Hy]; [|set_solver]. apply elem_of_difference. split; [by eapply HU|done].
  - intros y. rewrite elem_of_list_to_set, Hadd. set_solver.
Qed.

Lemma bfs_inv_final roots V :
  bfs_inv roots V [] → ∀ x, x ∈ V ↔ ∃ r, r ∈ roots ∧ rtc (edge g) r x.
Proof.
  intros Hinv x. split; [apply (bfs_sound _ _ _ Hinv)|].
  intros (r & Hr & Hrx).
  apply (rtc_closed (edge g) (.∈ V) r x); [|by apply (bfs_roots _ _ _ Hinv)|done].
  intros a b Ha Hab. destruct (bfs_done _ _ _ Hinv a Ha); [set_solver|auto].
Qed.

Lemma bfs_spec (U : gset string) fuel roots V q :
  (∀ x y, edge g x y → y ∈ U) → bfs_inv roots V q →
  length q + size (U ∖ V) ≤ fuel →
  ∃ V', bfs fuel g q V = Some V' ∧
    ∀ x, x ∈ V' ↔ ∃ r, r ∈ roots ∧ rtc (edge g) r x.
Proof.
  intros HU. revert V q. induction fuel as [|fuel IH]; intros V q Hinv Hf;
    (destruct q as [|x q]; [exists V; split; [done|by apply bfs_inv_final]|]).
  - simpl in Hf. lia.
  - simpl. pose proof (bfs_inv_step _ _ _ _ Hinv) as Hstep.
    pose proof (bfs_neighbors_measure U x V q HU) as Hm.
    destruct (bfs_neighbors (succs g x) V q) as [V' q'] eqn:E. simpl in *.
    apply IH; [done|lia].
Qed.

End breadth_first.

Lemma bfs_inv_init g roots : bfs_inv g roots (list_to_set roots) roots.
Proof.
  split; set_solver.
Qed.

Lemma bfs_correct g roots :
  ∃ V, bfs (graph_fuel g roots) g roots (list_to_set roots) = Some V ∧
    ∀ x, x ∈ V ↔ ∃ r, r ∈ roots ∧ rtc (edge g) r x.
Proof.
  apply (bfs_spec g (universe g)); [eauto with linkflow|apply bfs_inv_init|].
  unfold graph_fuel. apply Nat.add_le_mono_l, subseteq_size. set_solver.
Qed.

(** ** Correctness of the preorder collection *)

Section preorder.
Context (g : graph).
Implicit Types (V : gset string) (acc : list string).

(** What a call adds: visited and collected nodes grow together, the new
    ones are proper descendants, and every new node and [n] itself have all
    their successors visited. *)
Record collect_post (ns : list string) V acc V' acc' : Prop := {
  cp_grow : V ⊆ V';
  cp_acc : ∃ added, acc' = acc ++ added ∧ NoDup added ∧ ∀ x, x ∈ added ↔ x ∈ V' ∧ x ∉ V;
  cp_sound : ∀ x, x ∈ V' → x ∉ V → ∃ m, m ∈ ns ∧ rtc (edge g) m x;
  cp_heads : ∀ m, m ∈ ns → m ∈ V';
  cp_closed : ∀ x y, x ∈ V' → x ∉ V → edge g x y → y ∈ V'
}.

Lemma collect_post_nil V acc : collect_post [] V acc V acc.
Proof.
  split; try set_solver. exists []. rewrite app_nil_r. split_and!; [done|constructor|set_solver].
Qed.

Lemma collect_post_skip n ns V acc V' acc' :
  n ∈ V → collect_post ns V acc V' acc' → collect_post (n :: ns) V acc V' acc'.
Proof.
  intros Hn [Hg Ha Hs Hh Hc]. split; [done..| | |done].
  - intros x Hx Hx'. destruct (Hs x Hx Hx') as (m & Hm & Hr). exists m. set_solver.
  - set_solver.
Qed.

Lemma collect_post_cons n ns V acc V1 acc1 V2 acc2 :
  n ∉ V →
  collect_post (succs g n) ({[n]} ∪ V) (acc ++ [n]) V1 acc1 →
  collect_post ns V1 acc1 V2 acc2 →
  collect_post (n :: ns) V acc V2 acc2.
Proof.
  intros Hn [Hg1 (ad1 & -> & Hnd1 & Hx1) Hs1 Hh1 Hc1] [Hg2 (ad2 & -> & Hnd2 & Hx2) Hs2 Hh2 Hc2].
  split.
  - set_solver.
  - exists (n :: ad1 ++ ad2). rewrite <- !app_assoc. split_and!; [done| |].
    + constructor.
      * rewrite elem_of_app, Hx1, Hx2. set_solver.
      * apply NoDup_app. split_and!; [done| |done]. intros x. rewrite Hx1, Hx2. set_solver.
    + intros x. rewrite elem_of_cons, elem_of_app, Hx1, Hx2.
      destruct (decide (x = n)); [set_solver|]. destruct (decide (x ∈ V1)); set_solver.
  - intros x Hx Hx'. destruct (decide (x = n)) as [->|Hne]; [exists n; set_solver|].
    destruct (decide (x ∈ V1)) as [Hx1'|Hx1'].
    + destruct (Hs1 x Hx1') as (m & Hm & Hr); [set_solver|].
      exists n. split; [left|]. by eapply rtc_l.
    + destruct (Hs2 x Hx Hx1') as (m & Hm & Hr). exists m. split; [by right|done].
  - intros m [->|Hm]%elem_of_cons; [set_solver|auto].
  - intros x y Hx Hx' Hxy. destruct (decide (x ∈ V1)) as [Hx1'|Hx1'].
    + apply Hg2. destruct (decide (x = n)) as [->|Hne]; [auto|]. apply (Hc1 x); set_solver.
    + by apply (Hc2 x).
Qed.

Lemma collect_spec (U : gset string) fuel n V acc :
  (∀ x y, edge g x y → y ∈ U) → size (U ∖ V) < fuel →
  ∃ V' acc', collect fuel g n V acc = Some (V', acc') ∧
    collect_post (succs g n) V acc V' acc'.
Proof.
  intros HU. revert n V acc. induction fuel as [|fuel IH]; intros n V acc Hf; [lia|].
  simpl. assert (Hs : ∀ m, m ∈ succs g n → m ∈ U) by (intros m Hm; by eapply HU).
  revert V acc Hf Hs. induction (succs g n) as [|m ns IHns]; intros V acc Hf Hs; simpl.
  { exists V, acc. split; [done|apply collect_post_nil]. }
  assert (Hs' : ∀ k, k ∈ ns → k ∈ U) by set_solver.
  rewrite bool_decide_notin. case_bool_decide as Hm; simpl.
  - destruct (IHns V acc Hf Hs') as (V' & acc' & -> & Hpost). eexists _, _.
    split; [done|]. by apply collect_post_skip.
  - rewrite (size_diff_grow _ _ m) in Hf by set_solver.
    destruct (IH m ({[m]} ∪ V) (acc ++ [m])) as (V1 & acc1 & -> & H1); [lia|].
    destruct (IHns V1 acc1) as (V2 & acc2 & -> & H2); [|done|].
    { pose proof (size_diff_mono U _ _ (cp_grow _ _ _ _ _ H1)). lia. }
    eexists _, _. split; [done|]. by eapply collect_post_cons.
Qed.

End preorder.

(** The nodes collected from [n]: each proper descendant, once. *)
Lemma collect_correct g n :
  ∃ V acc, collect (S (size (universe g))) g n ∅ [] = Some (V, acc) ∧
    NoDup acc ∧ ∀ x, x ∈ acc ↔ tc (edge g) n x.
Proof.
  destruct (collect_spec g (universe g) (S (size (universe g))) n ∅ []) as (V & acc & E & H);
    [eauto with linkflow| |].
  { apply Nat.lt_succ_r, subseteq_size. set_solver. }
  exists V, acc. split; [done|].
  destruct H as [_ (added & Hacc & Hnd & Hx) Hs Hh Hc]. simpl in Hacc. subst acc.
  split; [done|]. intros x. rewrite Hx, tc_iff_edge_rtc. split.
  - intros [HxV _]. destruct (Hs x HxV) as (m & Hm & Hr); [set_solver|]. by exists m.
  - intros (m & Hm & Hr). split; [|set_solver].
    apply (rtc_closed (edge g) (.∈ V) m x); [|by apply Hh|done].
    intros a b Ha Hab. apply (Hc a); [done|set_solver|done].
Qed.

(** ** Paths in acyclic graphs *)

Definition acyclic (g : graph) : Prop := ∀ x, ¬ tc (edge g) x x.

Lemma edge_dom g x y : edge g x y → x ∈ dom g.
Proof.
  unfold edge, succs, get_slice. intros Hy. apply elem_of_dom.
  destruct (g !! x); simpl in Hy; [eauto|]. by apply elem_of_nil in Hy.
Qed.

(** Acyclicity is decided by the search itself. *)
Lemma acyclic_dec g : (∃ x, tc (edge g) x x) ∨ acyclic g.
Proof.
  destruct (cycle_roots_correct g (elements (dom g))) as ([] & _ & Hb).
  - left. destruct (proj1 Hb eq_refl) as (_ & x & _ & _ & Hx). by exists x.
  - right. intros x Hx. cut (false = true); [done|]. apply Hb. exists x, x.
    split_and!; [|done..]. apply elem_of_elements.
    apply tc_iff_edge_rtc in Hx as (y & Hy & _). by eapply edge_dom.
Qed.

(** The nodes after the first on a path of an acyclic graph are distinct, so
    a path has at most as many steps as the graph has nodes. *)
Lemma acyclic_steps_bound g k x y :
  acyclic g → nsteps (edge g) k x y → k ≤ size (universe g).
Proof.
  intros Hac Hk.
  cut (∃ l, NoDup l ∧ length l = k ∧ ∀ z, z ∈ l → z ∈ universe g ∧ tc (edge g) x z).
  { intros (l & Hnd & <- & Hl). rewrite <- (size_list_to_set (C := gset string)) by done.
    apply subseteq_size. intros z Hz%elem_of_list_to_set. by apply Hl. }
  induction Hk as [x|n x z y Hxz _ (l & Hnd & Hlen & Hl)].
  - exists []. split_and!; [constructor|done|set_solver].
  - exists (z :: l). split_and!; [|by rewrite <- Hlen|].
    + constructor; [|done]. intros Hz. apply (Hac z). by apply Hl.
    + intros v [->|Hv]%elem_of_cons.
      * split; [eauto with linkflow|by apply tc_once].
      * destruct (Hl v Hv) as [? ?]. split; [done|]. by eapply tc_l.
Qed.

(** A nonempty set in which every node has a predecessor forces a cycle. *)
Lemma preds_cycle g (X : gset string) v :
  v ∈ X → (∀ v, v ∈ X → ∃ u, u ∈ X ∧ edge g u v) → ∃ x, tc (edge g) x x.
Proof.
  intros Hv Hpred. destruct (acyclic_dec g) as [|Hac]; [done|]. exfalso.
  assert (Hlong : ∀ k, ∃ u, u ∈ X ∧ nsteps (edge g) k u v).
  { induction k as [|k (u & Hu & Hk)]; [exists v; split; [done|constructor]|].
    destruct (Hpred u Hu) as (u' & Hu' & He). exists u'. split; [done|by econstructor]. }
  destruct (Hlong (S (size (universe g)))) as (u & _ & Hk).
  apply acyclic_steps_bound in Hk; [lia|done].
Qed.
