(* ===== verification/Workflow.v ===== *)
(** pkg/contracts/workflow/workflow.go: the workflow aggregate (nodes,
    connections, settings), its validation, activation and cloning. *)

From S2P Require Import Prelude GoValue Graph.

(** ** Data *)

(** [Position] of workflow.go. *)
Record Position := { posX : spec_float; posY : spec_float }.

Record Node := {
  nID : string;
  nName : string;
  nType : string;
  nPosition : Position;
  nParameters : option vmap;      (* a nil map is [None] *)
  nDisabled : bool;
  nRetryCount : Z;
  nTimeout : Z
}.

Record Connection := {
  cID : string;
  cSource : string;
  cTarget : string;
  cSourcePort : string;
  cTargetPort : string;
  cData : option vmap
}.

Record ErrorHandling := {
  ehContinueOnFail : bool;
  ehRetryInterval : Z;
  ehMaxRetries : Z;
  ehErrorWorkflow : string
}.

Record Settings := {
  sErrorHandling : ErrorHandling;
  sTimeout : Z;
  sRetryOnFailure : bool;
  sMaxRetries : Z;
  sSaveDataOnError : bool;
  sTimezone : string
}.

Record Workflow := {
  wID : string;
  wName : string;
  wDescription : string;
  wUserID : string;
  wTeamID : string;
  wNodes : list Node;
  wConnections : list Connection;
  wSettings : Settings;
  wStatus : string;
  wIsActive : bool;
  wVersion : Z;
  wTags : list string;
  wCreatedAt : Z;
  wUpdatedAt : Z;
  wDeletedAt : option Z
}.

(** Status constants and node types. *)
Definition StatusInactive := "inactive".
Definition StatusActive := "active".
Definition NodeTypeTrigger := "trigger".
Definition NodeTypeAction := "action".
Definition NodeTypeCondition := "condition".
Definition NodeTypeLoop := "loop".
Definition NodeTypeMerge := "merge".
Definition NodeTypeSplit := "split".
Definition NodeTypeWebhook := "webhook".
Definition NodeTypeHTTPRequest := "http-request".
Definition NodeTypeDatabase := "database".
Definition NodeTypeCode := "code".
Definition NodeTypeEmail := "email".
Definition NodeTypeSlack := "slack".

(** ** Operations *)

Definition NewWorkflow (uuid name description userID : string) (now1 now2 : Z) : Workflow :=
  {| wID := uuid;
     wName := name;
     wDescription := description;
     wUserID := userID;
     wTeamID := "";
     wNodes := [];
     wConnections := [];
     wSettings :=
       {| sErrorHandling :=
            {| ehContinueOnFail := false; ehRetryInterval := 0;
               ehMaxRetries := 0; ehErrorWorkflow := "" |};
          sTimeout := 300; sRetryOnFailure := false; sMaxRetries := 3;
          sSaveDataOnError := false; sTimezone := "UTC" |};
     wStatus := StatusInactive;
     wIsActive := false;
     wVersion := 1;
     wTags := [];
     wCreatedAt := now1;
     wUpdatedAt := now2;
     wDeletedAt := None |}.

(** The adjacency list the validation and the DAG build from the connections. *)
Definition connection_graph (conns : list Connection) : graph :=
  foldl (λ g c, append_at g (cSource c) (cTarget c)) ∅ conns.

(** [hasCycle]: [None] would mean the search ran out of fuel. *)
Definition Workflow_hasCycle (w : Workflow) : option bool :=
  let g := connection_graph (wConnections w) in
  let roots := nID <$> wNodes w in
  cycle_roots (graph_fuel g roots) g roots ∅ ∅.

(** The node map and trigger flag built by [Validate]'s first loop. *)
Definition node_map (nodes : list Node) : gmap string Node :=
  foldl (λ m n, <[nID n := n]> m) ∅ nodes.

Fixpoint validate_connections (m : gmap string Node) (conns : list Connection) :
    option string :=
  match conns with
  | [] => None
  | conn :: conns' =>
      match m !! cSource conn, m !! cTarget conn with
      | None, _ => Some "invalid connection: source node not found"
      | _, None => Some "invalid connection: target node not found"
      | _, _ => validate_connections m conns'
      end
  end.

(** [Validate]: [Some (Ok ())] for a nil error. *)
Definition Workflow_Validate (w : Workflow) : option (result unit) :=
  let hasTrigger := existsb (λ n, bool_decide (nType n = NodeTypeTrigger)) (wNodes w) in
  if negb hasTrigger then Some (Err "workflow must have at least one trigger node")
  else match validate_connections (node_map (wNodes w)) (wConnections w) with
       | Some e => Some (Err e)
       | None =>
           match Workflow_hasCycle w with
           | None => None
           | Some true => Some (Err "workflow contains a cycle")
           | Some false => Some (Ok tt)
           end
       end.

Definition set_status (w : Workflow) (status : string) (active : bool) (now : Z) : Workflow :=
  {| wID := wID w; wName := wName w; wDescription := wDescription w;
     wUserID := wUserID w; wTeamID := wTeamID w; wNodes := wNodes w;
     wConnections := wConnections w; wSettings := wSettings w;
     wStatus := status; wIsActive := active; wVersion := wVersion w;
     wTags := wTags w; wCreatedAt := wCreatedAt w; wUpdatedAt := now;
     wDeletedAt := wDeletedAt w |}.

(** [Activate] mutates the workflow only when the validation succeeds. *)
Definition Workflow_Activate (w : Workflow) (now : Z) : option (Workflow * result unit) :=
  match Workflow_Validate w with
  | None => None
  | Some (Err e) => Some (w, Err e)
  | Some (Ok _) => Some (set_status w StatusActive true now, Ok tt)
  end.

Definition Workflow_Deactivate (w : Workflow) (now : Z) : Workflow :=
  set_status w StatusInactive false now.

(** [Clone]: a fresh inactive workflow at version 1 with the same content. *)
Definition Workflow_Clone (w : Workflow) (uuid newName : string) (now1 now2 : Z) : Workflow :=
  {| wID := uuid; wName := newName; wDescription := wDescription w;
     wUserID := wUserID w; wTeamID := wTeamID w; wNodes := wNodes w;
     wConnections := wConnections w; wSettings := wSettings w;
     wStatus := StatusInactive; wIsActive := false; wVersion := 1;
     wTags := wTags w; wCreatedAt := now1; wUpdatedAt := now2;
     wDeletedAt := None |}.

(** ** Specification: well-formed workflows *)

(** The edge relation the connections denote. *)
Definition conn_edge (conns : list Connection) : relation string :=
  λ x y, ∃ c, c ∈ conns ∧ cSource c = x ∧ cTarget c = y.

Definition node_ids (w : Workflow) : list string := nID <$> wNodes w.

(** What activation demands of a workflow: a trigger, connections between
    existing nodes, and no directed cycle. *)
Definition well_formed (w : Workflow) : Prop :=
  (∃ n, n ∈ wNodes w ∧ nType n = NodeTypeTrigger) ∧
  (∀ c, c ∈ wConnections w → cSource c ∈ node_ids w ∧ cTarget c ∈ node_ids w) ∧
  (∀ x, ¬ tc (conn_edge (wConnections w)) x x).

(** ** Lemmas *)

Lemma connection_graph_succs conns x :
  succs (connection_graph conns) x =
  cTarget <$> filter (λ c, cSource c = x) conns.
Proof.
  unfold connection_graph, succs.
  rewrite <- (app_nil_l (_ <$> _)).
  change (@nil string) with (get_slice (∅ : graph) x) at 1.
  generalize (∅ : graph) as g. induction conns as [|c conns IH]; intros g; simpl.
  - by rewrite app_nil_r.
  - rewrite IH, get_slice_append_at. rewrite filter_cons.
    case_decide as Hc; subst; [|done]. simpl. by rewrite <- app_assoc.
Qed.

Lemma connection_graph_edge conns x y :
  edge (connection_graph conns) x y ↔ conn_edge conns x y.
Proof.
  unfold edge, conn_edge. rewrite connection_graph_succs, list_elem_of_fmap.
  setoid_rewrite list_elem_of_filter. naive_solver.
Qed.

Lemma tc_edge_conn conns x y :
  tc (edge (connection_graph conns)) x y ↔ tc (conn_edge conns) x y.
Proof.
  split; apply (tc_congruence id); intros a b; apply connection_graph_edge.
Qed.

Lemma node_map_lookup nodes k :
  is_Some (node_map nodes !! k) ↔ k ∈ nID <$> nodes.
Proof.
  unfold node_map.
  cut (∀ m : gmap string Node, is_Some (foldl (λ m n, <[nID n:=n]> m) m nodes !! k) ↔
         is_Some (m !! k) ∨ k ∈ nID <$> nodes).
  { intros ->. rewrite lookup_empty. split; [intros [[]|]; done|by right]. }
  induction nodes as [|n nodes IH]; intros m; simpl; [set_solver|].
  rewrite IH, lookup_insert, elem_of_cons. case_decide; naive_solver.
Qed.

Lemma validate_connections_none m conns :
  validate_connections m conns = None ↔
  ∀ c, c ∈ conns → is_Some (m !! cSource c) ∧ is_Some (m !! cTarget c).
Proof.
  induction conns as [|c conns IH]; simpl; [set_solver|].
  setoid_rewrite elem_of_cons.
  destruct (m !! cSource c) eqn:E1, (m !! cTarget c) eqn:E2;
    (split; [naive_solver|]); intros H; destruct (H c) as [[? ?] [? ?]]; naive_solver.
Qed.

Lemma Workflow_hasCycle_spec w :
  ∃ b, Workflow_hasCycle w = Some b ∧
    (b = true ↔ ∃ r x, r ∈ node_ids w ∧ rtc (conn_edge (wConnections w)) r x ∧
                       tc (conn_edge (wConnections w)) x x).
Proof.
  destruct (cycle_roots_correct (connection_graph (wConnections w)) (node_ids w))
    as (b & Hb & Hc).
  exists b. split; [done|]. rewrite Hc. unfold cyclic_from.
  setoid_rewrite tc_edge_conn. split; intros (r & x & ? & Hr & ?); exists r, x;
    (split; [done|split; [|done]]); revert Hr; apply (rtc_congruence id);
    intros a b'; apply connection_graph_edge.
Qed.

(** When the endpoints are nodes, the cycle search misses no cycle. *)
Lemma endpoints_cycle_root w :
  (∀ c, c ∈ wConnections w → cSource c ∈ node_ids w ∧ cTarget c ∈ node_ids w) →
  (∃ r x, r ∈ node_ids w ∧ rtc (conn_edge (wConnections w)) r x ∧
          tc (conn_edge (wConnections w)) x x) ↔
  ∃ x, tc (conn_edge (wConnections w)) x x.
Proof.
  intros Hend. split; [naive_solver|]. intros (x & Hx).
  exists x, x. split_and!; [|done..]. apply tc_iff_edge_rtc in Hx as (y & (c & Hc & <- & _) & _).
  by apply Hend.
Qed.

Lemma Workflow_Validate_spec (w : Workflow) :
  ∃ r, Workflow_Validate w = Some r ∧ (r = Ok tt ↔ well_formed w).
Proof.
  unfold Workflow_Validate, well_formed.
  destruct (existsb _ _) eqn:Ht; simpl.
  2:{ eexists. split; [done|]. split; [done|]. intros ((n & Hn & Hty) & _).
      rewrite <- Is_true_false in Ht. destruct Ht. apply Is_true_true, existsb_exists.
      exists n. split; [by apply list_elem_of_In|by apply bool_decide_eq_true]. }
  assert (Htr : ∃ n, n ∈ wNodes w ∧ nType n = NodeTypeTrigger).
  { apply existsb_exists in Ht as (n & Hn%list_elem_of_In & Hty%bool_decide_eq_true). eauto. }
  destruct (validate_connections _ _) as [e|] eqn:Hv.
  { eexists. split; [done|]. split; [done|]. intros (_ & Hend & _).
    cut (validate_connections (node_map (wNodes w)) (wConnections w) = None); [congruence|].
    apply validate_connections_none. intros c Hc. rewrite !node_map_lookup. by apply Hend. }
  assert (Hend : ∀ c, c ∈ wConnections w → cSource c ∈ node_ids w ∧ cTarget c ∈ node_ids w).
  { intros c Hc. pose proof (proj1 (validate_connections_none _ _) Hv c Hc) as H.
    rewrite !node_map_lookup in H. done. }
  destruct (Workflow_hasCycle_spec w) as (b & -> & Hb).
  rewrite (endpoints_cycle_root w Hend) in Hb.
  destruct b; eexists; (split; [done|]).
  - split; [done|]. intros (_ & _ & Hc). destruct (proj1 Hb eq_refl) as (x & Hx). by destruct (Hc x).
  - split; [|done]. intros _. split_and!; [done..|]. intros x Hx.
    cut (false = true); [done|]. apply Hb. eauto.
Qed.

(** C4. [Workflow.Validate] always returns, and it returns nil exactly on the
    well-formed workflows: those with a trigger node, connections between
    existing nodes only, and no directed cycle. *)
Theorem Workflow_Validate_correct (w : Workflow) :
  ∃ r, Workflow_Validate w = Some r ∧ (r = Ok tt ↔ well_formed w).
Proof. apply Workflow_Validate_spec. Qed.

(** Workflows as their service drives them: created inactive, then activated,
    deactivated or cloned. *)
Inductive wf_step : Workflow → Workflow → Prop :=
| step_activate w w' now r :
    Workflow_Activate w now = Some (w', r) → wf_step w w'
| step_deactivate w now :
    wf_step w (Workflow_Deactivate w now)
| step_clone w uuid name now1 now2 :
    wf_step w (Workflow_Clone w uuid name now1 now2).

(** The activation invariant: the status text and the flag agree, and an
    active workflow is well-formed. *)
Definition activation_inv (w : Workflow) : Prop :=
  (wIsActive w = true ↔ wStatus w = StatusActive) ∧
  (wIsActive w = true → well_formed w).

(** From any workflow satisfying the activation invariant (an inactive
    one in particular), every sequence of Activate, Deactivate and Clone
    preserves it: no sequence of calls leaves an invalid workflow active. *)
Lemma active_workflows_well_formed (w w' : Workflow) :
  activation_inv w → rtc wf_step w w' → activation_inv w'.
Proof.
  intros Hinv Hr. revert Hinv.
  induction Hr as [|w w1 w2 Hstep _ IH]; intros Hinv; [done|]. apply IH. clear IH.
  destruct Hstep as [w w' now r Ha|w now|w uuid name now1 now2].
  - unfold Workflow_Activate in Ha.
    destruct (Workflow_Validate_spec w) as (v & Hv & Hwf). rewrite Hv in Ha.
    destruct v as [[]|e]; simplify_eq; [|done].
    split; [done|]. intros _. by apply Hwf.
  - split; simpl; [done|intros [=]].
  - split; simpl; [done|intros [=]].
Qed.

(** A trigger feeding an action. *)
Definition demo_node (id type : string) : Node :=
  {| nID := id; nName := id; nType := type;
     nPosition := {| posX := S754_zero false; posY := S754_zero false |};
     nParameters := None; nDisabled := false; nRetryCount := 0; nTimeout := 0 |}.
Definition demo_connection (s t : string) : Connection :=
  {| cID := s +:+ t; cSource := s; cTarget := t; cSourcePort := ""; cTargetPort := "";
     cData := None |}.
Definition with_graph (w : Workflow) (nodes : list Node) (conns : list Connection) : Workflow :=
  {| wID := wID w; wName := wName w; wDescription := wDescription w; wUserID := wUserID w;
     wTeamID := wTeamID w; wNodes := nodes; wConnections := conns; wSettings := wSettings w;
     wStatus := wStatus w; wIsActive := wIsActive w; wVersion := wVersion w; wTags := wTags w;
     wCreatedAt := wCreatedAt w; wUpdatedAt := wUpdatedAt w; wDeletedAt := wDeletedAt w |}.
Definition demo_workflow : Workflow :=
  with_graph (NewWorkflow "w1" "demo" "" "u1" 0 0)
    [demo_node "t" NodeTypeTrigger; demo_node "a" NodeTypeAction] [demo_connection "t" "a"].

Lemma active_workflows_well_formed_witness :
  ∃ w, Workflow_Activate demo_workflow 5 = Some (w, Ok tt) ∧ wIsActive w = true ∧ well_formed w.
Proof.
  eexists (set_status demo_workflow _ true 5). split; [vm_compute; reflexivity|]. split; [reflexivity|].
  refine (proj2 (active_workflows_well_formed demo_workflow _ _ _) _).
  - split; [done|]. intros [=].
  - apply rtc_once, (step_activate _ _ 5 (Ok tt)). vm_compute. reflexivity.
  - reflexivity.
Defined.
