(* ===== verification/Dag.v ===== *)
(** pkg/contracts/workflow/dag.go: the DAG built from a workflow, its
    validation, cycle detection, reachability queries and topological order. *)

From S2P Require Import Prelude GoValue Graph Workflow.

(** ** Data *)

Record DAG := {
  dNodes : gmap string Node;
  dEdges : graph;
  dStartNodes : list string;
  dEndNodes : list string
}.

Definition ErrWorkflowHasCycle := "workflow contains a cycle".

(** ** Construction *)

(** The [incoming] / [outgoing] counters of [build]. *)
Definition count_by (f : Connection → string) (conns : list Connection) : gmap string Z :=
  foldl (λ m c, <[f c := (get_int m (f c) + 1)%Z]> m) ∅ conns.

Definition is_start (incoming : gmap string Z) (nodeID : string) (node : Node) : bool :=
  bool_decide (get_int incoming nodeID = 0%Z) ||
  bool_decide (nType node = NodeTypeTrigger) ||
  bool_decide (nType node = NodeTypeWebhook).

(** [NewDAG] and [build]; [ord1] and [ord2] are the orders in which the two
    loops over the node map run. *)
Definition NewDAG (w : Workflow) (ord1 ord2 : list string) : DAG :=
  let nodes := node_map (wNodes w) in
  let incoming := count_by cTarget (wConnections w) in
  let outgoing := count_by cSource (wConnections w) in
  {| dNodes := nodes;
     dEdges := connection_graph (wConnections w);
     dStartNodes := filter (λ id, from_option (is_start incoming id) false (nodes !! id) = true) ord1;
     dEndNodes := filter (λ id, get_int outgoing id = 0%Z) ord2 |}.

(** ** Cycle detection *)

Definition HasCycle (d : DAG) (ordN : list string) : option bool :=
  cycle_roots (graph_fuel (dEdges d) ordN) (dEdges d) ordN ∅ ∅.

(** ** Reachability *)

Definition FindUnreachableNodes (d : DAG) (ordN : list string) : option (list string) :=
  match bfs (graph_fuel (dEdges d) (dStartNodes d)) (dEdges d) (dStartNodes d)
            (list_to_set (dStartNodes d)) with
  | None => None
  | Some reachable =>
      Some (filter (λ nodeID,
              (nodeID ∉ reachable) ∧ (from_option nDisabled false (dNodes d !! nodeID) = false)) ordN)
  end.

(** [IsConnected]: the search of [bfs] with an early exit on the target. *)
Fixpoint connected_neighbors (ns : list string) (target : string)
    (visited : gset string) (queue : list string) :
    option (gset string * list string) :=
  match ns with
  | [] => Some (visited, queue)
  | neighbor :: ns' =>
      if bool_decide (neighbor = target) then None
      else if bool_decide (neighbor ∉ visited)
      then connected_neighbors ns' target ({[neighbor]} ∪ visited) (queue ++ [neighbor])
      else connected_neighbors ns' target visited queue
  end.

(** [Some b] is the answer; [None] is exhausted fuel. *)
Fixpoint connected_loop (fuel : nat) (g : graph) (target : string)
    (queue : list string) (visited : gset string) : option bool :=
  match queue with
  | [] => Some false
  | current :: queue' =>
      match fuel with
      | O => None
      | S fuel' =>
          match connected_neighbors (succs g current) target visited queue' with
          | None => Some true
          | Some (visited', queue'') => connected_loop fuel' g target queue'' visited'
          end
      end
  end.

Definition IsConnected (d : DAG) (source target : string) : option bool :=
  if bool_decide (source = target) then Some true
  else connected_loop (graph_fuel (dEdges d) [source]) (dEdges d) target [source] {[source]}.

Definition GetDescendants (d : DAG) (nodeID : string) : option (list string) :=
  snd <$> collect (S (size (universe (dEdges d)))) (dEdges d) nodeID ∅ [].

(** [reverseEdges], built by ranging over the edge map in the order [ordE]. *)
Definition reverse_edges (g : graph) (ordE : list string) : graph :=
  foldl (λ r source, foldl (λ r target, append_at r target source) r (succs g source)) ∅ ordE.

Definition GetAncestors (d : DAG) (nodeID : string) (ordE : list string) : option (list string) :=
  let rev := reverse_edges (dEdges d) ordE in
  snd <$> collect (S (size (universe rev))) rev nodeID ∅ [].

(** ** Dependencies *)

Definition count_incoming (g : graph) (ordE : list string) (init : gmap string Z) :
    gmap string Z :=
  foldl (λ m source,
    foldl (λ m target, <[target := (get_int m target + 1)%Z]> m) m (succs g source)) init ordE.

Definition check_dependency (d : DAG) (incoming : gmap string Z) (nodeID : string)
    (node : Node) : option string :=
  if bool_decide (nType node = NodeTypeTrigger) || bool_decide (nType node = NodeTypeWebhook)
     || nDisabled node then None
  else if bool_decide (get_int incoming nodeID = 0%Z) then
    Some ("node " +:+ nodeID +:+ " (" +:+ nName node +:+ ") has no incoming connections")
  else if bool_decide (nType node = NodeTypeMerge) then
    if bool_decide (get_int incoming nodeID < 2)%Z then
      Some ("merge node " +:+ nodeID +:+ " requires at least 2 inputs, has "
            +:+ pretty (get_int incoming nodeID))
    else None
  else if bool_decide (nType node = NodeTypeCondition) then
    if bool_decide (length (succs (dEdges d) nodeID) < 2) then
      Some ("condition node " +:+ nodeID +:+ " should have at least 2 output branches")
    else None
  else None.

Fixpoint first_error {A} (check : A → option string) (l : list A) : result unit :=
  match l with
  | [] => Ok tt
  | x :: l' => match check x with Some e => Err e | None => first_error check l' end
  end.

Definition ValidateNodeDependencies (d : DAG) (ordE ordN : list string) : result unit :=
  let incoming := count_incoming (dEdges d) ordE ∅ in
  first_error (λ nodeID,
    match dNodes d !! nodeID with
    | Some node => check_dependency d incoming nodeID node
    | None => None
    end) ordN.

(** ** Validation *)

(** The loop over the edge map: source first, then its targets in order. *)
Definition check_endpoints (d : DAG) (source : string) : option string :=
  match dNodes d !! source with
  | None => Some ("source node " +:+ source +:+ " not found in DAG")
  | Some _ =>
      match first_error (λ target,
              match dNodes d !! target with
              | None => Some ("target node " +:+ target +:+ " not found in DAG")
              | Some _ => None
              end) (succs (dEdges d) source) with
      | Err e => Some e
      | Ok _ => None
      end
  end.

(** [Validate]; [ordC], [ordE], [ordU], [ordI], [ordD] are the orders of its
    loops over the node map (cycle search), the edge map, the node map
    (unreachable nodes), the edge map (incoming counts) and the node map
    (dependencies). *)
Definition DAG_Validate (d : DAG) (ordC ordE ordU ordI ordD : list string) :
    option (result unit) :=
  match HasCycle d ordC with
  | None => None
  | Some true => Some (Err ErrWorkflowHasCycle)
  | Some false =>
      match first_error (check_endpoints d) ordE with
      | Err e => Some (Err e)
      | Ok _ =>
          if bool_decide (length (dStartNodes d) = 0) then Some (Err "DAG has no start nodes")
          else if bool_decide (length (dEndNodes d) = 0) then Some (Err "DAG has no end nodes")
          else match FindUnreachableNodes d ordU with
               | None => None
               | Some unreachable =>
                   if bool_decide (0 < length unreachable) then
                     Some (Err ("DAG contains unreachable nodes: " +:+ fmt_slice unreachable))
                   else Some (ValidateNodeDependencies d ordI ordD)
               end
      end
  end.

(** ** Topological order (Kahn) *)

Fixpoint kahn_neighbors (ns : list string) (inDegree : gmap string Z)
    (queue : list string) : gmap string Z * list string :=
  match ns with
  | [] => (inDegree, queue)
  | neighbor :: ns' =>
      let deg := (get_int inDegree neighbor - 1)%Z in
      kahn_neighbors ns' (<[neighbor := deg]> inDegree)
        (if bool_decide (deg = 0%Z) then queue ++ [neighbor] else queue)
  end.

Fixpoint kahn (fuel : nat) (g : graph) (queue : list string)
    (inDegree : gmap string Z) (result : list string) : option (list string) :=
  match queue with
  | [] => Some result
  | current :: queue' =>
      match fuel with
      | O => None
      | S fuel' =>
          let '(inDegree', queue'') := kahn_neighbors (succs g current) inDegree queue' in
          kahn fuel' g queue'' inDegree' (result ++ [current])
      end
  end.

(** The in-degree map; [ordN] and [ordE] order the loops that fill it. *)
Definition in_degrees (d : DAG) (ordN ordE : list string) : gmap string Z :=
  count_incoming (dEdges d) ordE (foldl (λ m id, <[id := 0%Z]> m) ∅ ordN).

(** [GetTopologicalOrder]; [ordI] orders the loop over the in-degree map. *)
Definition GetTopologicalOrder (d : DAG) (ordN ordE ordI : list string) :
    option (result (list string)) :=
  let inDegree := in_degrees d ordN ordE in
  let queue := filter (λ id, get_int inDegree id = 0%Z) ordI in
  match kahn (size inDegree) (dEdges d) queue inDegree [] with
  | None => None
  | Some order =>
      if bool_decide (length order ≠ size (dNodes d))
      then Some (Err ErrWorkflowHasCycle)
      else Some (Ok order)
  end.

(** ** Specifications *)

(** Connections only mention nodes of the DAG. *)
Definition endpoints_exist (d : DAG) : Prop :=
  ∀ x y, edge (dEdges d) x y → x ∈ dom (dNodes d) ∧ y ∈ dom (dNodes d).

(** Every edge points forward in [l], and its source occurs in [l]. *)
Definition topo_sorted (g : graph) (l : list string) : Prop :=
  ∀ l1 v l2, l = l1 ++ v :: l2 → ∀ u, edge g u v → u ∈ l1.

(** ** Reachability queries *)

Lemma connected_neighbors_bfs ns target V q :
  connected_neighbors ns target V q =
  if bool_decide (target ∈ ns) then None else Some (bfs_neighbors ns V q).
Proof.
  revert V q. induction ns as [|n ns IH]; intros V q; simpl; [done|].
  destruct (decide (n = target)) as [->|Hn].
  - rewrite !bool_decide_eq_true_2; [done|by left|done].
  - rewrite (bool_decide_eq_false_2 (n = target)) by done.
    rewrite (bool_decide_ext (target ∈ n :: ns) (target ∈ ns)) by set_solver.
    destruct (bool_decide (n ∉ V)); by rewrite IH.
Qed.

Lemma connected_loop_spec (U : gset string) g source target fuel q V :
  (∀ x y, edge g x y → y ∈ U) → bfs_inv g [source] V q → target ∉ V →
  length q + size (U ∖ V) ≤ fuel →
  ∃ b, connected_loop fuel g target q V = Some b ∧ (b = true ↔ rtc (edge g) source target).
Proof.
  intros HU. revert V q. induction fuel as [|fuel IH]; intros V q Hinv Ht Hf;
    (destruct q as [|x q];
      [exists false; split; [done|]; split; [done|]; intros Hr;
       destruct Ht; apply (bfs_inv_final _ _ _ Hinv); exists source; set_solver|]).
  { simpl in Hf. lia. }
  simpl. rewrite connected_neighbors_bfs. case_bool_decide as Hin.
  - exists true. split; [done|]. split; [|done]. intros _.
    destruct (bfs_sound _ _ _ _ Hinv x) as (r & ->%list_elem_of_singleton & Hr).
    { apply (bfs_queue _ _ _ _ Hinv). left. }
    by eapply rtc_r.
  - pose proof (bfs_inv_step _ _ _ _ _ Hinv) as Hstep.
    pose proof (bfs_neighbors_measure g U x V q HU) as Hm.
    pose proof (bfs_neighbors_visited (succs g x) V q) as HV.
    destruct (bfs_neighbors (succs g x) V q) as [V' q'] eqn:E. simpl in *.
    apply IH; [done| |lia]. rewrite HV, elem_of_union, elem_of_list_to_set. tauto.
Qed.

Lemma bfs_inv_singleton g s : bfs_inv g [s] {[s]} [s].
Proof. pose proof (bfs_inv_init g [s]) as H. simpl in H. by rewrite union_empty_r_L in H. Qed.

(** [IsConnected] always answers, and answers true exactly when the
    target can be reached from the source along edges (in zero or more steps). *)
Lemma IsConnected_correct (d : DAG) (source target : string) :
  ∃ b, IsConnected d source target = Some b ∧
    (b = true ↔ rtc (edge (dEdges d)) source target).
Proof.
  unfold IsConnected. case_bool_decide as Heq; [subst; by exists true|].
  apply (connected_loop_spec (universe (dEdges d))); [eauto with linkflow|apply bfs_inv_singleton|set_solver|].
  unfold graph_fuel. apply Nat.add_le_mono_l, subseteq_size. set_solver.
Qed.

Lemma reverse_inner source targets r x y :
  x ∈ succs (foldl (λ r target, append_at r target source) r targets) y ↔
  x ∈ succs r y ∨ (x = source ∧ y ∈ targets).
Proof.
  revert r. induction targets as [|t ts IH]; intros r; simpl; [set_solver|].
  rewrite IH. unfold succs. rewrite get_slice_append_at. case_decide; set_solver.
Qed.

Lemma reverse_edges_edge g ordE :
  range_order g ordE → ∀ x y, edge (reverse_edges g ordE) y x ↔ edge g x y.
Proof.
  intros Hord x y. unfold edge, reverse_edges.
  cut (∀ r : graph, x ∈ succs (foldl (λ r source,
         foldl (λ r target, append_at r target source) r (succs g source)) r ordE) y ↔
       x ∈ succs r y ∨ (x ∈ ordE ∧ y ∈ succs g x)).
  { intros ->. assert (succs (∅ : graph) y = []) as -> by done.
    rewrite (range_order_elem _ _ _ Hord). split; [intros [[]%elem_of_nil|[_ ?]]; done|].
    intros Hy. right. split; [|done]. apply elem_of_dom. by eapply edge_dom. }
  clear Hord. induction ordE as [|s ordE IH]; intros r; simpl; [set_solver|].
  rewrite IH, reverse_inner, elem_of_cons.
  split; [intros [[?|[-> ?]]|[? ?]]; tauto|intros [?|[[->|?] ?]]; tauto].
Qed.

Lemma GetDescendants_spec (d : DAG) n :
  ∃ l, GetDescendants d n = Some l ∧ NoDup l ∧ ∀ x, x ∈ l ↔ tc (edge (dEdges d)) n x.
Proof.
  destruct (collect_correct (dEdges d) n) as (V & acc & E & H).
  exists acc. unfold GetDescendants. by rewrite E.
Qed.

Lemma tc_flip (R : relation string) x y : tc (λ a b, R b a) x y → tc R y x.
Proof.
  induction 1 as [x y H|x y z H _ IH]; [by apply tc_once|]. by eapply tc_r.
Qed.

Lemma GetAncestors_spec (d : DAG) n ordE :
  range_order (dEdges d) ordE →
  ∃ l, GetAncestors d n ordE = Some l ∧ NoDup l ∧ ∀ x, x ∈ l ↔ tc (edge (dEdges d)) x n.
Proof.
  intros Hord. destruct (collect_correct (reverse_edges (dEdges d) ordE) n) as (V & acc & E & Hnd & H).
  exists acc. unfold GetAncestors. rewrite E. split_and!; [done..|]. intros x. rewrite H.
  split; intros Hx.
  - apply tc_flip. revert Hx. apply (tc_congruence id). intros a b. by apply reverse_edges_edge.
  - apply tc_flip in Hx. revert Hx. apply (tc_congruence id). intros a b Hab.
    by apply reverse_edges_edge.
Qed.

(** [GetDescendants] and [GetAncestors] terminate on every DAG value,
    cyclic ones included, list no node twice, and are dual: they list exactly
    the nodes reachable from, respectively reaching, the given node in one or
    more steps, whatever order the edge map is iterated in. *)
Lemma descendants_ancestors_dual (d : DAG) (ordE : list string) (n m : string) :
  range_order (dEdges d) ordE →
  ∃ ds as_, GetDescendants d n = Some ds ∧ GetAncestors d m ordE = Some as_ ∧
    NoDup ds ∧ NoDup as_ ∧
    (m ∈ ds ↔ tc (edge (dEdges d)) n m) ∧ (m ∈ ds ↔ n ∈ as_).
Proof.
  intros Hord. destruct (GetDescendants_spec d n) as (ds & -> & Hnd & Hds).
  destruct (GetAncestors_spec d m ordE Hord) as (as_ & -> & Hnd' & Has).
  exists ds, as_. split_and!; [done..|apply Hds|]. by rewrite Hds, Has.
Qed.

(** ** Kahn's algorithm *)

(** Occurrences of [v] in a target list (parallel connections count). *)
Definition occ (v : string) (l : list string) : Z := Z.of_nat (length (filter (λ x, x = v) l)).

(** Edges into [v] whose source, among [ordE], is not in [done]. *)
Definition remaining (g : graph) (ordE done : list string) (v : string) : Z :=
  foldr (λ u acc, ((if bool_decide (u ∈ done) then 0 else occ v (succs g u)) + acc)%Z) 0%Z ordE.

Lemma occ_cons v x l : occ v (x :: l) = ((if decide (x = v) then 1 else 0) + occ v l)%Z.
Proof. unfold occ. rewrite filter_cons. destruct (decide (x = v)); simpl; lia. Qed.

Lemma occ_nonneg v l : (0 ≤ occ v l)%Z.
Proof. unfold occ. lia. Qed.

Lemma occ_pos v l : (0 < occ v l)%Z ↔ v ∈ l.
Proof.
  induction l as [|x l IH]; [split; [done|by intros ?%elem_of_nil]|].
  rewrite occ_cons, elem_of_cons. pose proof (occ_nonneg v l).
  case_decide; subst; [split; [by left|lia]|]. rewrite <- IH. split; [|intros [?|?]; [done|lia]].
  intros. right. lia.
Qed.

Lemma remaining_nonneg g ordE done v : (0 ≤ remaining g ordE done v)%Z.
Proof.
  unfold remaining. induction ordE as [|u ordE IH]; simpl; [done|].
  pose proof (occ_nonneg v (succs g u)). case_bool_decide; lia.
Qed.

Lemma remaining_zero g ordE done v :
  remaining g ordE done v = 0%Z ↔ ∀ u, u ∈ ordE → edge g u v → u ∈ done.
Proof.
  unfold edge. induction ordE as [|u ordE IH]; simpl; [set_solver|].
  setoid_rewrite elem_of_cons. fold (remaining g ordE done v) in *.
  pose proof (remaining_nonneg g ordE done v). pose proof (occ_nonneg v (succs g u)).
  pose proof (occ_pos v (succs g u)).
  case_bool_decide as Hu.
  - rewrite Z.add_0_l, IH. naive_solver.
  - split.
    + intros Hz. assert (occ v (succs g u) = 0 ∧ remaining g ordE done v = 0)%Z as [Ho Hr] by lia.
      rewrite IH in Hr. intros u' [->|Hu'] He; [|by apply Hr]. apply H1 in He. lia.
    + intros Hall. assert (occ v (succs g u) = 0)%Z.
      { destruct (decide (v ∈ succs g u)) as [He|He]; [naive_solver|].
        rewrite <- H1 in He. lia. }
      assert (remaining g ordE done v = 0)%Z; [apply IH; naive_solver|lia].
Qed.

Lemma remaining_snoc g ordE done c v :
  NoDup ordE → c ∉ done → (c ∈ ordE ∨ succs g c = []) →
  remaining g ordE (done ++ [c]) v = (remaining g ordE done v - occ v (succs g c))%Z.
Proof.
  intros Hnd Hc Hin.
  cut (remaining g ordE (done ++ [c]) v =
       remaining g ordE done v - (if bool_decide (c ∈ ordE) then occ v (succs g c) else 0))%Z.
  { intros ->. case_bool_decide; [done|]. destruct Hin as [?| ->]; [done|]. unfold occ. simpl. lia. }
  clear Hin. unfold remaining.
  induction Hnd as [|u ordE Hu Hnd IH]; simpl; [lia|]. rewrite IH. clear IH.
  destruct (decide (u = c)) as [->|Hne].
  - rewrite (bool_decide_eq_true_2 (c ∈ done ++ [c])) by set_solver.
    rewrite (bool_decide_eq_false_2 (c ∈ done)) by done.
    rewrite (bool_decide_eq_true_2 (c ∈ c :: ordE)) by set_solver.
    rewrite (bool_decide_eq_false_2 (c ∈ ordE)) by done. lia.
  - rewrite (bool_decide_ext (u ∈ done ++ [c]) (u ∈ done)) by set_solver.
    rewrite (bool_decide_ext (c ∈ u :: ordE) (c ∈ ordE)) by set_solver. lia.
Qed.

Lemma get_int_insert m k z v :
  get_int (<[k := z]> m) v = if decide (k = v) then z else get_int m v.
Proof. unfold get_int. rewrite lookup_insert. by case_decide. Qed.

(** The decrements of one round, and the nodes they bring to zero. *)
Lemma kahn_neighbors_spec ns m q :
  (∀ v, (occ v ns ≤ get_int m v)%Z) →
  ∃ added, (kahn_neighbors ns m q).2 = q ++ added ∧ NoDup added ∧
    (∀ v, get_int (kahn_neighbors ns m q).1 v = get_int m v - occ v ns)%Z ∧
    (∀ v, v ∈ added ↔ v ∈ ns ∧ get_int m v = occ v ns).
Proof.
  revert m q. induction ns as [|n ns IH]; intros m q Hocc; simpl.
  { exists []. rewrite app_nil_r. split_and!; [done|constructor| |set_solver].
    intros v. unfold occ. simpl. lia. }
  assert (Hocc' : ∀ v, (occ v ns ≤ get_int (<[n := (get_int m n - 1)%Z]> m) v)%Z).
  { intros v. specialize (Hocc v). rewrite occ_cons in Hocc. rewrite get_int_insert.
    destruct (decide (n = v)); subst; lia. }
  destruct (IH _ (if bool_decide (get_int m n - 1 = 0)%Z then q ++ [n] else q) Hocc')
    as (added & Hq & Hnd & Hm & Hadd). rewrite Hq.
  assert (Hv : ∀ v, v ∈ added ↔ v ∈ ns ∧ get_int m v = (occ v (n :: ns))%Z).
  { intros v. rewrite Hadd, get_int_insert, occ_cons.
    destruct (decide (n = v)); subst; split; intros [? ?]; split; (done || lia). }
  assert (Hm' : ∀ v, (get_int (kahn_neighbors ns (<[n := (get_int m n - 1)%Z]> m)
      (if bool_decide (get_int m n - 1 = 0)%Z then q ++ [n] else q)).1 v = get_int m v - occ v (n :: ns))%Z).
  { intros v. rewrite Hm, get_int_insert, occ_cons.
    destruct (decide (n = v)); subst; lia. }
  pose proof (Hocc n) as Hn. rewrite occ_cons, decide_True in Hn by done.
  pose proof (occ_nonneg n ns) as Hn0.
  case_bool_decide as Hz.
  - exists (n :: added). rewrite <- app_assoc. split_and!; [done| |done|].
    + constructor; [|done]. rewrite Hadd, get_int_insert, decide_True by done.
      intros [Hin%occ_pos ?]. lia.
    + intros v. rewrite !elem_of_cons, Hv. split; [|naive_solver].
      intros [->|[? ?]]; [|naive_solver]. split; [by left|]. rewrite occ_cons, decide_True by done. lia.
  - exists added. split_and!; [done..|]. intros v. rewrite Hv, elem_of_cons. split; [naive_solver|].
    intros [[->|?] Heq]; [|done]. split; [|done]. apply occ_pos.
    rewrite occ_cons, decide_True in Heq by done. lia.
Qed.

(** The loop invariant: the map holds the edges from unprocessed sources;
    the processed and queued nodes are those without any. *)
Record kahn_inv (g : graph) (D : gset string) (ordE : list string)
    (m : gmap string Z) (q res : list string) : Prop := {
  k_deg : ∀ v, get_int m v = remaining g ordE res v;
  k_zero : ∀ v, v ∈ res ++ q ↔ v ∈ D ∧ get_int m v = 0%Z;
  k_nodup : NoDup (res ++ q);
  k_topo : topo_sorted g res
}.

Lemma topo_sorted_snoc g l c :
  topo_sorted g l → (∀ u, edge g u c → u ∈ l) → topo_sorted g (l ++ [c]).
Proof.
  intros Hl Hc l1 v l2 Heq u Hu. destruct l2 as [|y l2 _] using rev_ind.
  - apply app_inj_tail in Heq as [-> ->]. auto.
  - rewrite app_comm_cons, app_assoc in Heq. apply app_inj_tail in Heq as [-> _]. by eapply Hl.
Qed.

(** In a topologically sorted list, all ancestors come first; so a listed
    node lies on no cycle. *)
Lemma topo_sorted_tc g l1 v l2 u :
  topo_sorted g (l1 ++ v :: l2) → tc (edge g) u v → u ∈ l1.
Proof.
  intros Hl Hu. induction Hu as [u v He|u w v He _ IH]; [by eapply Hl|].
  specialize (IH Hl). apply list_elem_of_split in IH as (a & b & ->).
  apply elem_of_app. left. eapply (Hl a w); [|done]. by rewrite <- app_assoc.
Qed.

Lemma topo_sorted_acyclic g l x : topo_sorted g l → NoDup l → x ∈ l → ¬ tc (edge g) x x.
Proof.
  intros Hl Hnd (l1 & l2 & ->)%list_elem_of_split Hx.
  apply (topo_sorted_tc _ _ _ _ _ Hl) in Hx. apply NoDup_app in Hnd as (_ & Hnd & _).
  apply (Hnd x Hx). left.
Qed.

Lemma kahn_inv_step g D ordE m c q res :
  range_order g ordE → (∀ x y, edge g x y → y ∈ D) →
  kahn_inv g D ordE m (c :: q) res →
  kahn_inv g D ordE (kahn_neighbors (succs g c) m q).1 (kahn_neighbors (succs g c) m q).2
    (res ++ [c]).
Proof.
  intros Hord HD [Hdeg Hzero Hnd Htopo].
  assert (Hc : c ∉ res) by (apply NoDup_app in Hnd; set_solver).
  assert (Hrem : ∀ v, remaining g ordE (res ++ [c]) v = (get_int m v - occ v (succs g c))%Z).
  { intros v. rewrite Hdeg. apply remaining_snoc; [by eapply range_order_nodup|done|].
    unfold succs, get_slice. destruct (g !! c) eqn:E; [left|by right].
    apply (range_order_elem _ _ _ Hord). eauto. }
  destruct (kahn_neighbors_spec (succs g c) m q) as (added & -> & Hnda & Hm & Hadd).
  { intros v. pose proof (remaining_nonneg g ordE (res ++ [c]) v). rewrite Hrem in H. lia. }
  assert (Hpred : ∀ u, edge g u c → u ∈ res).
  { intros u Hu. assert (get_int m c = 0%Z) as Hz by (apply Hzero; set_solver).
    rewrite Hdeg, remaining_zero in Hz. apply Hz; [|done].
    apply (range_order_elem _ _ _ Hord), elem_of_dom. by eapply edge_dom. }
  assert (Hnew : ∀ v, v ∈ added → v ∉ res ++ c :: q).
  { intros v [Hv Heq]%Hadd. rewrite Hzero. intros [_ Hz]. apply occ_pos in Hv. lia. }
  split.
  - intros v. by rewrite Hm, Hrem.
  - intros v. pose proof (Hzero v) as Hz. rewrite Hm.
    pose proof (remaining_nonneg g ordE (res ++ [c]) v) as Hge. rewrite Hrem in Hge.
    pose proof (occ_nonneg v (succs g c)) as Ho. pose proof (Hadd v) as Ha.
    rewrite <- app_assoc. simpl. rewrite !elem_of_app, elem_of_cons, elem_of_app, Ha.
    rewrite elem_of_app, elem_of_cons in Hz. split.
    + intros [?|[?|[?|[Hin Heq]]]]; [| | |split; [by eapply HD|lia]];
        (destruct (proj1 Hz) as [? ?]; [tauto|split; [done|lia]]).
    + intros [HvD Heq]. destruct (decide (get_int m v = 0%Z)) as [H0|H0]; [tauto|].
      right; right; right. split; [apply occ_pos; lia|lia].
  - rewrite <- app_assoc. simpl. rewrite app_comm_cons, app_assoc. apply NoDup_app.
    split_and!; [done| |done]. intros v Hv Hv'. by eapply Hnew.
  - by apply topo_sorted_snoc.
Qed.

Lemma kahn_spec g D ordE fuel m q res :
  range_order g ordE → (∀ x y, edge g x y → y ∈ D) → kahn_inv g D ordE m q res →
  size D ≤ length res + fuel →
  ∃ l m', kahn fuel g q m res = Some l ∧ kahn_inv g D ordE m' [] l.
Proof.
  intros Hord HD. revert m q res. induction fuel as [|fuel IH]; intros m q res Hinv Hf;
    (destruct q as [|c q]; [by exists res, m|]).
  - exfalso. assert (length (res ++ c :: q) ≤ size D) as Hlen.
    { rewrite <- (size_list_to_set (C := gset string)) by apply (k_nodup _ _ _ _ _ _ Hinv).
      apply subseteq_size. intros v Hv%elem_of_list_to_set. by apply (k_zero _ _ _ _ _ _ Hinv). }
    rewrite length_app in Hlen. simpl in Hlen. lia.
  - simpl. pose proof (kahn_inv_step _ _ _ _ _ _ _ Hord HD Hinv) as Hstep.
    destruct (kahn_neighbors (succs g c) m q) as [m' q'] eqn:E. simpl in Hstep.
    apply IH; [done|]. rewrite length_app. simpl. lia.
Qed.

Lemma count_inner ns m v :
  get_int (foldl (λ m target, <[target := (get_int m target + 1)%Z]> m) m ns) v
  = (get_int m v + occ v ns)%Z.
Proof.
  revert m. induction ns as [|n ns IH]; intros m; simpl; [unfold occ; simpl; lia|].
  rewrite IH, get_int_insert, occ_cons. destruct (decide (n = v)); subst; lia.
Qed.

Lemma count_incoming_get g ordE m v :
  get_int (count_incoming g ordE m) v = (get_int m v + remaining g ordE [] v)%Z.
Proof.
  unfold count_incoming, remaining. revert m.
  induction ordE as [|u ordE IH]; intros m; cbn [foldl foldr]; [lia|].
  rewrite IH, count_inner, bool_decide_eq_false_2 by set_solver. lia.
Qed.

Lemma count_incoming_dom g ordE m k :
  k ∈ dom (count_incoming g ordE m) ↔ k ∈ dom m ∨ ∃ u, u ∈ ordE ∧ edge g u k.
Proof.
  unfold count_incoming, edge. revert m. induction ordE as [|u ordE IH]; intros m; simpl; [set_solver|].
  rewrite IH. setoid_rewrite elem_of_cons.
  cut (∀ m ns, k ∈ dom (foldl (λ m target, <[target := (get_int m target + 1)%Z]> m) m ns) ↔
               k ∈ dom m ∨ k ∈ ns); [intros ->; naive_solver|].
  clear. intros m ns. revert m. induction ns as [|n ns IH]; intros m; simpl; [set_solver|].
  rewrite IH, dom_insert_L. set_solver.
Qed.

Lemma zero_map_get ordN m v :
  get_int m v = 0%Z → get_int (foldl (λ m id, <[id := 0%Z]> m) m ordN) v = 0%Z.
Proof.
  revert m. induction ordN as [|n ordN IH]; intros m Hm; simpl; [done|]. apply IH.
  rewrite get_int_insert. by case_decide.
Qed.

Lemma zero_map_dom (ordN : list string) (m : gmap string Z) k :
  k ∈ dom (foldl (λ m id, <[id := 0%Z]> m) m ordN) ↔ k ∈ dom m ∨ k ∈ ordN.
Proof.
  revert m. induction ordN as [|n ordN IH]; intros m; simpl; [set_solver|].
  rewrite IH, dom_insert_L. set_solver.
Qed.

Section topological.
Context (d : DAG) (ordN ordE ordI : list string).
Context (HordN : range_order (dNodes d) ordN) (HordE : range_order (dEdges d) ordE)
        (HordI : range_order (in_degrees d ordN ordE) ordI).

Lemma in_degrees_get v : get_int (in_degrees d ordN ordE) v = remaining (dEdges d) ordE [] v.
Proof. unfold in_degrees. rewrite count_incoming_get, zero_map_get; [lia|done]. Qed.

Lemma in_degrees_dom k :
  k ∈ dom (in_degrees d ordN ordE) ↔ k ∈ dom (dNodes d) ∨ ∃ u, edge (dEdges d) u k.
Proof.
  unfold in_degrees. rewrite count_incoming_dom, zero_map_dom, dom_empty_L.
  rewrite (range_order_elem _ _ _ HordN), elem_of_dom.
  assert ((∃ u, u ∈ ordE ∧ edge (dEdges d) u k) ↔ ∃ u, edge (dEdges d) u k) as ->; [|set_solver].
  split; [naive_solver|]. intros (u & Hu). exists u. split; [|done].
  apply (range_order_elem _ _ _ HordE), elem_of_dom. by eapply edge_dom.
Qed.

Lemma kahn_inv_init :
  kahn_inv (dEdges d) (dom (in_degrees d ordN ordE)) ordE (in_degrees d ordN ordE)
    (filter (λ id, get_int (in_degrees d ordN ordE) id = 0%Z) ordI) [].
Proof.
  split.
  - apply in_degrees_get.
  - intros v. simpl. rewrite list_elem_of_filter, (range_order_elem _ _ _ HordI), elem_of_dom. tauto.
  - simpl. apply NoDup_filter. by eapply range_order_nodup.
  - intros [|? ?] v l2; discriminate.
Qed.

(** What the loop computes on any DAG value, dangling targets included. *)
Lemma kahn_result :
  ∃ l, kahn (size (in_degrees d ordN ordE)) (dEdges d)
         (filter (λ id, get_int (in_degrees d ordN ordE) id = 0%Z) ordI)
         (in_degrees d ordN ordE) [] = Some l ∧
    NoDup l ∧ topo_sorted (dEdges d) l ∧
    ∀ v, v ∈ l ↔ v ∈ dom (in_degrees d ordN ordE) ∧ ∀ u, edge (dEdges d) u v → u ∈ l.
Proof.
  destruct (kahn_spec (dEdges d) (dom (in_degrees d ordN ordE)) ordE
              (size (in_degrees d ordN ordE)) (in_degrees d ordN ordE)
              (filter (λ id, get_int (in_degrees d ordN ordE) id = 0%Z) ordI) [])
    as (l & m' & Hl & [Hdeg Hzero Hnd Htopo]).
  - done.
  - intros x y Hxy. apply in_degrees_dom. eauto.
  - apply kahn_inv_init.
  - simpl. by rewrite size_dom.
  - exists l. rewrite app_nil_r in Hzero, Hnd. split_and!; [done..|].
    intros v. rewrite Hzero, Hdeg, remaining_zero. split; intros [Hv Hu]; (split; [done|]).
    + intros u He. apply Hu; [|done].
      apply (range_order_elem _ _ _ HordE), elem_of_dom. by eapply edge_dom.
    + intros u _. apply Hu.
Qed.

Lemma GetTopologicalOrder_spec :
  endpoints_exist d →
  ∃ r, GetTopologicalOrder d ordN ordE ordI = Some r ∧
    match r with
    | Ok l => acyclic (dEdges d) ∧ l ≡ₚ ordN ∧ topo_sorted (dEdges d) l
    | Err e => e = ErrWorkflowHasCycle ∧ ∃ x, tc (edge (dEdges d)) x x
    end.
Proof.
  intros Hend. unfold GetTopologicalOrder. destruct kahn_result as (l & -> & Hnd & Htopo & Hl).
  assert (HD : ∀ v, v ∈ dom (in_degrees d ordN ordE) ↔ v ∈ ordN).
  { intros v. rewrite in_degrees_dom, (range_order_elem _ _ _ HordN), <- elem_of_dom.
    split; [|by left]. intros [?|(u & Hu)]; [done|]. by destruct (Hend u v Hu). }
  assert (Hsub : ∀ v, v ∈ l → v ∈ ordN) by (intros v Hv; apply HD; by apply Hl).
  case_bool_decide as Hlen; (eexists; split; [done|]).
  - split; [done|].
    assert (∃ v, v ∈ ordN ∧ v ∉ l) as (v & HvN & Hvl).
    { destruct (decide (Forall (λ v, v ∈ l) ordN)) as [Hall|Hn].
      - destruct Hlen. rewrite <- (range_order_length _ _ HordN). apply Permutation_length.
        apply NoDup_Permutation; [done|by eapply range_order_nodup|].
        intros v. split; [apply Hsub|]. by rewrite Forall_forall in Hall; apply Hall.
      - apply not_Forall_Exists in Hn; [|apply _]. apply Exists_exists in Hn as (v & ? & ?). eauto. }
    apply (preds_cycle (dEdges d) (list_to_set ordN ∖ list_to_set l) v); [set_solver|].
    intros x Hx. apply elem_of_difference in Hx as [Hx%elem_of_list_to_set Hxl].
    rewrite elem_of_list_to_set in Hxl.
    assert (¬ remaining (dEdges d) ordE l x = 0%Z) as Hrem.
    { rewrite remaining_zero. intros Hall. apply Hxl, Hl. split; [by apply HD|].
      intros u Hu. apply Hall; [|done].
      apply (range_order_elem _ _ _ HordE), elem_of_dom. by eapply edge_dom. }
    destruct (decide (Forall (λ u, x ∈ succs (dEdges d) u → u ∈ l) ordE)) as [Hall|Hn].
    { destruct Hrem. apply remaining_zero. intros u Hu He. rewrite Forall_forall in Hall. by apply Hall. }
    apply not_Forall_Exists in Hn; [|apply _]. apply Exists_exists in Hn as (u & Hu & Hn). simpl in Hn.
    destruct (decide (x ∈ succs (dEdges d) u)) as [He|He]; [|tauto].
    exists u. split; [|done]. apply elem_of_difference.
    rewrite !elem_of_list_to_set. split; [|tauto].
    apply (range_order_elem _ _ _ HordN), elem_of_dom. by apply (Hend u x).
  - assert (l ≡ₚ ordN) as Hperm.
    { rewrite <- (range_order_length _ _ HordN) in Hlen.
      apply submseteq_length_Permutation; [|lia]. by apply NoDup_submseteq. }
    split_and!; [|done..]. intros x Hx.
    assert (Hxl : x ∈ l).
    { rewrite Hperm, (range_order_elem _ _ _ HordN), <- elem_of_dom.
      apply tc_iff_edge_rtc in Hx as (y & Hy & _). by apply (Hend x y). }
    by apply (topo_sorted_acyclic _ _ _ Htopo Hnd Hxl).
Qed.

End topological.

(** ** Validation *)

(** Number of connections into [v], parallel ones counted. *)
Definition indeg (g : graph) (v : string) : Z := remaining g (keys g) [] v.

Definition dependency_ok (d : DAG) (id : string) (n : Node) : Prop :=
  nType n ≠ NodeTypeTrigger → nType n ≠ NodeTypeWebhook → nDisabled n = false →
  indeg (dEdges d) id ≠ 0%Z ∧
  (nType n = NodeTypeMerge → (2 ≤ indeg (dEdges d) id)%Z) ∧
  (nType n = NodeTypeCondition → 2 ≤ length (succs (dEdges d) id)).

Record valid_dag (d : DAG) : Prop := {
  vd_sources : dom (dEdges d) ⊆ dom (dNodes d);
  vd_targets : ∀ x y, edge (dEdges d) x y → y ∈ dom (dNodes d);
  vd_acyclic : acyclic (dEdges d);
  vd_start : dStartNodes d ≠ [];
  vd_end : dEndNodes d ≠ [];
  vd_reach : ∀ id n, dNodes d !! id = Some n → nDisabled n = false →
    ∃ s, s ∈ dStartNodes d ∧ rtc (edge (dEdges d)) s id;
  vd_deps : ∀ id n, dNodes d !! id = Some n → dependency_ok d id n
}.

Lemma remaining_perm g ord1 ord2 done v :
  ord1 ≡ₚ ord2 → remaining g ord1 done v = remaining g ord2 done v.
Proof.
  unfold remaining. induction 1; simpl; lia.
Qed.

Lemma first_error_ok {A} (check : A → option string) l :
  first_error check l = Ok tt ↔ ∀ x, x ∈ l → check x = None.
Proof.
  induction l as [|x l IH]; simpl; [set_solver|]. setoid_rewrite elem_of_cons.
  destruct (check x) eqn:E; [split; [done|intros H; specialize (H x); naive_solver]|].
  rewrite IH. naive_solver.
Qed.

Lemma first_error_cases {A} (check : A → option string) l :
  first_error check l = Ok tt ∨ ∃ e, first_error check l = Err e.
Proof. destruct (first_error check l) as [[]|e]; eauto. Qed.

Lemma check_endpoints_none d source :
  check_endpoints d source = None ↔
  source ∈ dom (dNodes d) ∧ ∀ y, edge (dEdges d) source y → y ∈ dom (dNodes d).
Proof.
  unfold check_endpoints, edge. setoid_rewrite elem_of_dom.
  destruct (dNodes d !! source) eqn:E; [|naive_solver].
  match goal with |- context [first_error ?f ?l] =>
    pose proof (first_error_ok f l) as H; destruct (first_error f l) as [[]|e] end.
  - split; [|done]. intros _. split; [eauto|]. intros y Hy.
    pose proof (proj1 H eq_refl y Hy) as Hn. simpl in Hn. destruct (dNodes d !! y); [eauto|done].
  - split; [done|]. intros [_ Hy]. cut (@Err unit e = Ok tt); [done|]. apply H.
    intros y Hin. destruct (Hy y Hin) as [n' Hn]. by rewrite Hn.
Qed.

Lemma check_dependency_none d incoming id n :
  get_int incoming id = indeg (dEdges d) id →
  check_dependency d incoming id n = None ↔ dependency_ok d id n.
Proof.
  unfold check_dependency, dependency_ok. intros ->.
  destruct (nDisabled n); [rewrite orb_true_r; naive_solver|]. rewrite orb_false_r.
  case_bool_decide as Ht; [naive_solver|]. case_bool_decide as Hw; [naive_solver|]. simpl.
  case_bool_decide as H0; [split; [done|]; intros H; by destruct (H Ht Hw eq_refl)|].
  case_bool_decide as Hm.
  - assert (nType n ≠ NodeTypeCondition) by (rewrite Hm; discriminate).
    case_bool_decide; (split; [try done|]).
    + intros H'. destruct (H' Ht Hw eq_refl) as (_ & Hlt & _). specialize (Hlt Hm). lia.
    + intros _ _ _ _. split_and!; [done|lia|done].
    + done.
  - case_bool_decide as Hc; [case_bool_decide; (split; [try done|])|].
    + intros H'. destruct (H' Ht Hw eq_refl) as (_ & _ & Hlt). specialize (Hlt Hc). lia.
    + intros _ _ _ _. split_and!; [done..|lia].
    + done.
    + split; [|done]. intros _ _ _ _. done.
Qed.

Lemma FindUnreachableNodes_spec d ordN :
  range_order (dNodes d) ordN →
  ∃ l, FindUnreachableNodes d ordN = Some l ∧ NoDup l ∧
    ∀ x, x ∈ l ↔ ∃ n, dNodes d !! x = Some n ∧ nDisabled n = false ∧
      ¬ ∃ s, s ∈ dStartNodes d ∧ rtc (edge (dEdges d)) s x.
Proof.
  intros Hord. unfold FindUnreachableNodes.
  destruct (bfs_correct (dEdges d) (dStartNodes d)) as (V & -> & HV).
  eexists. split; [done|]. split; [apply NoDup_filter; by eapply range_order_nodup|].
  intros x. rewrite list_elem_of_filter, (range_order_elem _ _ _ Hord), HV.
  split.
  - intros [[Hx Hd] [n Hn]]. rewrite Hn in Hd. simpl in Hd. eauto.
  - intros (n & Hn & Hd & Hno). rewrite Hn. simpl. eauto.
Qed.

Lemma HasCycle_spec d ordN :
  range_order (dNodes d) ordN →
  ∃ b, HasCycle d ordN = Some b ∧ (b = true ↔ cyclic_from (dEdges d) ordN).
Proof. intros _. apply cycle_roots_correct. Qed.

Lemma HasCycle_acyclic d ordN b :
  range_order (dNodes d) ordN → endpoints_exist d → HasCycle d ordN = Some b →
  b = true ↔ ∃ x, tc (edge (dEdges d)) x x.
Proof.
  intros Hord Hend Hb. destruct (HasCycle_spec d ordN Hord) as (b' & Hb' & H).
  assert (b' = b) as -> by congruence. rewrite H. split.
  - intros (r & x & _ & _ & Hx). eauto.
  - intros (x & Hx). exists x, x. split_and!; [|done..].
    apply (range_order_elem _ _ _ Hord), elem_of_dom.
    apply tc_iff_edge_rtc in Hx as (y & Hy & _). by apply (Hend x y).
Qed.

Lemma endpoints_check_ok d ordE :
  range_order (dEdges d) ordE →
  first_error (check_endpoints d) ordE = Ok tt ↔
  dom (dEdges d) ⊆ dom (dNodes d) ∧ ∀ x y, edge (dEdges d) x y → y ∈ dom (dNodes d).
Proof.
  intros Hord. rewrite first_error_ok. setoid_rewrite check_endpoints_none.
  assert (Hel : ∀ x, x ∈ ordE ↔ x ∈ dom (dEdges d)).
  { intros x. by rewrite (range_order_elem _ _ _ Hord), elem_of_dom. }
  setoid_rewrite Hel. split.
  - intros H. split; [intros x Hx; by apply H|]. intros x y Hxy. eapply H; [|done]. by eapply edge_dom.
  - intros [Hs Ht] x Hx. eauto.
Qed.

Lemma dependencies_ok d ordE ordN :
  range_order (dEdges d) ordE → range_order (dNodes d) ordN →
  ValidateNodeDependencies d ordE ordN = Ok tt ↔
  ∀ id n, dNodes d !! id = Some n → dependency_ok d id n.
Proof.
  intros HordE HordN. unfold ValidateNodeDependencies. rewrite first_error_ok.
  assert (Hdeg : ∀ id, get_int (count_incoming (dEdges d) ordE ∅) id = indeg (dEdges d) id).
  { intros id. rewrite count_incoming_get. unfold indeg.
    rewrite (remaining_perm _ _ _ _ _ (range_order_perm _ _ _ HordE (keys_range_order _))).
    unfold get_int at 1. rewrite lookup_empty. simpl. lia. }
  split.
  - intros H id n Hn. specialize (H id). rewrite Hn in H.
    rewrite (check_dependency_none _ _ _ _ (Hdeg id)) in H. apply H.
    apply (range_order_elem _ _ _ HordN). eauto.
  - intros H id _. destruct (dNodes d !! id) as [n|] eqn:E; [|done].
    apply (check_dependency_none _ _ _ _ (Hdeg id)). by apply H.
Qed.

Lemma DAG_Validate_spec (d : DAG) (ordC ordE ordU ordI ordD : list string) :
  range_order (dNodes d) ordC → range_order (dEdges d) ordE → range_order (dNodes d) ordU →
  range_order (dEdges d) ordI → range_order (dNodes d) ordD →
  ∃ r, DAG_Validate d ordC ordE ordU ordI ordD = Some r ∧ (r = Ok tt ↔ valid_dag d).
Proof.
  intros HC HE HU HI HD. unfold DAG_Validate.
  destruct (HasCycle_spec d ordC HC) as (b & Hb & Hcyc). rewrite Hb. destruct b.
  { eexists. split; [done|]. split; [done|]. intros []. destruct (proj1 Hcyc eq_refl) as (_ & x & _ & _ & Hx).
    by destruct (vd_acyclic0 x). }
  pose proof (endpoints_check_ok d ordE HE) as Hend.
  destruct (first_error (check_endpoints d) ordE) as [[]|e].
  2:{ eexists. split; [done|]. split; [done|]. intros []. by rewrite (proj2 Hend (conj vd_sources0 vd_targets0)). }
  destruct (proj1 Hend eq_refl) as [Hs Ht].
  assert (endpoints_exist d) as Hee by (intros x y Hxy; split; [apply Hs; by eapply edge_dom|eauto]).
  assert (acyclic (dEdges d)) as Hac.
  { intros x Hx. cut (false = true); [done|]. apply (HasCycle_acyclic d ordC false HC Hee Hb). eauto. }
  case_bool_decide as Hst; [eexists; split; [done|]; split; [done|]; intros []; by destruct (dStartNodes d)|].
  case_bool_decide as Hen; [eexists; split; [done|]; split; [done|]; intros []; by destruct (dEndNodes d)|].
  destruct (FindUnreachableNodes_spec d ordU HU) as (l & -> & _ & Hl).
  case_bool_decide as Hlen.
  { eexists. split; [done|]. split; [done|]. intros []. destruct l as [|x l]; [simpl in Hlen; lia|].
    destruct (proj1 (Hl x)) as (n & Hn & Hdis & Hno); [left|]. by destruct Hno; eapply vd_reach0. }
  eexists. split; [done|]. rewrite (dependencies_ok d ordI ordD HI HD). split; [|by intros []].
  intros Hdeps. split; try done; [by destruct (dStartNodes d)|by destruct (dEndNodes d)|].
  destruct (bfs_correct (dEdges d) (dStartNodes d)) as (V & _ & HV).
  intros id n Hn Hdis. apply HV. destruct (decide (id ∈ V)) as [|Hno]; [done|].
  destruct l; [|simpl in Hlen; lia]. rewrite HV in Hno. exfalso. apply (not_elem_of_nil id), Hl. eauto.
Qed.

(** C1. [DAG.Validate] always returns, and it returns nil exactly on the valid
    DAGs: edges between existing nodes, no cycle, start and end nodes,
    every enabled node reachable from a start node, and every node's input
    and output requirements met; for all iteration orders of the maps. *)
Theorem DAG_Validate_correct (d : DAG) (ordC ordE ordU ordI ordD : list string) :
  range_order (dNodes d) ordC → range_order (dEdges d) ordE → range_order (dNodes d) ordU →
  range_order (dEdges d) ordI → range_order (dNodes d) ordD →
  ∃ r, DAG_Validate d ordC ordE ordU ordI ordD = Some r ∧ (r = Ok tt ↔ valid_dag d).
Proof. apply DAG_Validate_spec. Qed.

(** C2. On a DAG whose edges connect existing nodes, [GetTopologicalOrder]
    always returns: a permutation of the nodes in which every edge points
    forward when the graph is acyclic, and [ErrWorkflowHasCycle] when it is
    not; so it fails exactly when [HasCycle] reports a cycle, whatever the
    iteration orders of the two runs. *)
Theorem topological_order_correct (d : DAG) (ordN ordE ordI ordC : list string) :
  range_order (dNodes d) ordN → range_order (dEdges d) ordE →
  range_order (in_degrees d ordN ordE) ordI → range_order (dNodes d) ordC →
  endpoints_exist d →
  ∃ r b, GetTopologicalOrder d ordN ordE ordI = Some r ∧ HasCycle d ordC = Some b ∧
    match r with
    | Ok l => b = false ∧ acyclic (dEdges d) ∧ l ≡ₚ ordN ∧ topo_sorted (dEdges d) l
    | Err e => b = true ∧ e = ErrWorkflowHasCycle ∧ ∃ x, tc (edge (dEdges d)) x x
    end.
Proof.
  intros HN HE HI HC Hend.
  destruct (GetTopologicalOrder_spec d ordN ordE ordI HN HE HI Hend) as (r & Hr & Hspec).
  destruct (HasCycle_spec d ordC HC) as (b & Hb & _).
  pose proof (HasCycle_acyclic d ordC b HC Hend Hb) as Hcyc.
  exists r, b. split_and!; [done..|]. destruct r as [l|e].
  - destruct Hspec as (Hac & Hp & Ht). split_and!; [|done..].
    destruct b; [|done]. destruct (proj1 Hcyc eq_refl) as (x & Hx). by destruct (Hac x).
  - destruct Hspec as (-> & Hx). split_and!; [|done..]. by apply Hcyc.
Qed.

(** ** DAGs built from workflows *)

Lemma count_by_get f conns v :
  get_int (count_by f conns) v = occ v (f <$> conns).
Proof.
  unfold count_by.
  cut (∀ m, get_int (foldl (λ m c, <[f c := (get_int m (f c) + 1)%Z]> m) m conns) v =
            (get_int m v + occ v (f <$> conns))%Z).
  { intros ->. done. }
  induction conns as [|c conns IH]; intros m; cbn [foldl]; [unfold occ; cbn; lia|].
  rewrite fmap_cons, IH, get_int_insert, occ_cons. destruct (decide (f c = v)); subst; lia.
Qed.

Lemma count_by_zero conns v :
  get_int (count_by cTarget conns) v = 0%Z ↔ ¬ ∃ u, conn_edge conns u v.
Proof.
  rewrite count_by_get. pose proof (occ_pos v (cTarget <$> conns)) as H.
  pose proof (occ_nonneg v (cTarget <$> conns)). unfold conn_edge.
  assert ((∃ u, ∃ c, c ∈ conns ∧ cSource c = u ∧ cTarget c = v) ↔ v ∈ cTarget <$> conns) as ->.
  { rewrite list_elem_of_fmap. naive_solver. }
  rewrite <- H. lia.
Qed.

Lemma NewDAG_start w ord1 ord2 id :
  range_order (node_map (wNodes w)) ord1 →
  id ∈ dStartNodes (NewDAG w ord1 ord2) ↔
  ∃ n, dNodes (NewDAG w ord1 ord2) !! id = Some n ∧
    ((¬ ∃ u, edge (dEdges (NewDAG w ord1 ord2)) u id) ∨
     nType n = NodeTypeTrigger ∨ nType n = NodeTypeWebhook).
Proof.
  intros Hord. unfold NewDAG at 1; cbn [dStartNodes]. rewrite list_elem_of_filter.
  rewrite (range_order_elem _ _ _ Hord). unfold NewDAG; cbn [dNodes dEdges].
  setoid_rewrite connection_graph_edge. setoid_rewrite <- count_by_zero. unfold is_start.
  split.
  - intros [Hs [n Hn]]. exists n. split; [done|]. rewrite Hn in Hs. simpl in Hs.
    rewrite !orb_true_iff, !bool_decide_eq_true in Hs. tauto.
  - intros (n & Hn & Hs). rewrite Hn. split; [|eauto]. simpl.
    rewrite !orb_true_iff, !bool_decide_eq_true. tauto.
Qed.

(** In the DAG built from a workflow, once the cycle and endpoint checks
    of [Validate] pass, the unreachable-node check cannot fail: every node is
    reachable from a start node, so [FindUnreachableNodes] is empty. *)
Lemma acyclic_dag_fully_reachable (w : Workflow) (ord1 ord2 ordU : list string) :
  range_order (node_map (wNodes w)) ord1 →
  range_order (node_map (wNodes w)) ordU →
  endpoints_exist (NewDAG w ord1 ord2) → acyclic (dEdges (NewDAG w ord1 ord2)) →
  FindUnreachableNodes (NewDAG w ord1 ord2) ordU = Some [].
Proof.
  intros H1 HU Hend Hac. set (d := NewDAG w ord1 ord2) in *.
  destruct (FindUnreachableNodes_spec d ordU HU) as (l & -> & _ & Hl).
  destruct l as [|x l]; [done|]. exfalso.
  destruct (proj1 (Hl x)) as (n & Hn & _ & Hno); [left|].
  destruct (bfs_correct (dEdges d) (dStartNodes d)) as (V & _ & HV). rewrite <- HV in Hno.
  destruct (preds_cycle (dEdges d) (dom (dNodes d) ∖ V) x) as (y & Hy);
    [apply elem_of_difference; split; [by apply elem_of_dom_2 in Hn|done]| |by apply (Hac y)].
  intros v [Hv HvV]%elem_of_difference. apply elem_of_dom in Hv as [m Hm].
  destruct (decide (get_int (count_by cTarget (wConnections w)) v = 0%Z)) as [Hz|Hz].
  { exfalso. apply HvV, HV. exists v. split; [|done]. apply NewDAG_start; [done|].
    exists m. split; [done|]. left. apply count_by_zero in Hz.
    intros (u & Hu). apply Hz. exists u. by apply connection_graph_edge. }
  rewrite count_by_get in Hz. assert (v ∈ cTarget <$> wConnections w) as Hin.
  { apply occ_pos. pose proof (occ_nonneg v (cTarget <$> wConnections w)). lia. }
  apply list_elem_of_fmap in Hin as (c & -> & Hc).
  assert (edge (dEdges d) (cSource c) (cTarget c)) as He by (apply connection_graph_edge; by exists c).
  exists (cSource c). split; [|done]. apply elem_of_difference. split; [by apply (Hend _ _ He)|].
  rewrite HV. intros (s & Hs & Hr). apply HvV, HV. exists s. split; [done|]. by eapply rtc_r.
Qed.

(** ** A concrete DAG *)

(** Decision procedures for the side conditions, from the checks themselves. *)
Lemma endpoints_by_check d :
  first_error (check_endpoints d) (keys (dEdges d)) = Ok tt → endpoints_exist d.
Proof.
  intros H%(endpoints_check_ok _ _ (keys_range_order _)). destruct H as [Hs Ht].
  intros x y Hxy. split; [|by eapply Ht]. apply Hs. by eapply edge_dom.
Qed.

Lemma acyclic_by_check d :
  endpoints_exist d → HasCycle d (keys (dNodes d)) = Some false → acyclic (dEdges d).
Proof.
  intros Hend Hc x Hx. cut (false = true); [done|].
  apply (HasCycle_acyclic _ _ _ (keys_range_order _) Hend Hc). eauto.
Qed.

(** trigger → a, trigger → b, both merged by c. *)
Definition demo_diamond : Workflow :=
  with_graph demo_workflow
    [demo_node "t" NodeTypeTrigger; demo_node "a" NodeTypeAction; demo_node "b" NodeTypeAction;
     demo_node "c" NodeTypeMerge]
    [demo_connection "t" "a"; demo_connection "t" "b"; demo_connection "a" "c";
     demo_connection "b" "c"].
Definition demo_order : list string := keys (node_map (wNodes demo_diamond)).
Definition demo_dag : DAG := NewDAG demo_diamond demo_order demo_order.

Lemma descendants_ancestors_dual_witness :
  ∃ ds as_, GetDescendants demo_dag "t" = Some ds ∧
    GetAncestors demo_dag "c" (keys (dEdges demo_dag)) = Some as_ ∧
    "c" ∈ ds ∧ "t" ∈ as_.
Proof.
  destruct (descendants_ancestors_dual demo_dag (keys (dEdges demo_dag)) "t" "c"
              (keys_range_order _)) as (ds & as_ & Hd & Ha & _ & _ & _ & Hiff).
  exists ds, as_. assert ("c" ∈ ds) as Hin.
  { vm_compute in Hd. injection Hd as <-. repeat (left + right). }
  split_and!; [done..|by apply Hiff].
Defined.

Lemma DAG_Validate_correct_witness :
  let o := keys (dNodes demo_dag) in let e := keys (dEdges demo_dag) in
  DAG_Validate demo_dag o e o e o = Some (Ok tt) ∧ valid_dag demo_dag.
Proof.
  intros o e.
  destruct (DAG_Validate_correct demo_dag o e o e o) as (r & Hr & Hiff);
    [apply keys_range_order..|].
  assert (DAG_Validate demo_dag o e o e o = Some (Ok tt)) as E by (vm_compute; reflexivity).
  split; [exact E|]. apply Hiff. congruence.
Defined.

Lemma topological_order_correct_witness :
  let o := keys (dNodes demo_dag) in let e := keys (dEdges demo_dag) in
  ∃ l, GetTopologicalOrder demo_dag o e (keys (in_degrees demo_dag o e)) = Some (Ok l) ∧
    topo_sorted (dEdges demo_dag) l.
Proof.
  intros o e.
  destruct (topological_order_correct demo_dag o e (keys (in_degrees demo_dag o e)) o)
    as (r & b & Hr & Hb & H); [apply keys_range_order..| |].
  { apply endpoints_by_check. vm_compute. reflexivity. }
  assert (b = false) as Hf by (vm_compute in Hb; congruence).
  destruct r as [l|x]; [exists l; split; [exact Hr|apply H]|].
  destruct H as [H _]. congruence.
Defined.

Lemma acyclic_dag_fully_reachable_witness :
  FindUnreachableNodes demo_dag demo_order = Some [].
Proof.
  assert (endpoints_exist demo_dag) as Hend
    by (apply endpoints_by_check; vm_compute; reflexivity).
  apply (acyclic_dag_fully_reachable demo_diamond demo_order demo_order demo_order);
    [apply keys_range_order..|exact Hend|].
  apply acyclic_by_check; [exact Hend|vm_compute; reflexivity].
Defined.
