(* ===== verification/DagPaths.v ===== *)
(** pkg/contracts/workflow/dag.go, continued: the paths through a DAG, the
    levels of its nodes and its critical path. *)

From S2P Require Import Prelude GoValue Graph Workflow Dag.

(** ** Execution paths *)

(** The recursive search of [GetExecutionPaths].  The slices of sibling calls
    may share an array, but each path is copied before the next sibling runs
    and no call writes into the prefix it was given, so lists are faithful. *)
Fixpoint paths_dfs (fuel : nat) (g : graph) (nodeID : string) (currentPath : list string) :
    option (list (list string)) :=
  match fuel with
  | O => None
  | S fuel' =>
      let currentPath := currentPath ++ [nodeID] in
      match succs g nodeID with
      | [] => Some [currentPath]
      | neighbors => @concat _ <$> mapM (λ n, paths_dfs fuel' g n currentPath) neighbors
      end
  end.

Definition paths_fuel (g : graph) : nat := S (size (universe g)).

Definition GetExecutionPaths (d : DAG) : option (list (list string)) :=
  @concat _ <$> mapM (λ s, paths_dfs (paths_fuel (dEdges d)) (dEdges d) s []) (dStartNodes d).

(** A path from [x] that cannot be extended. *)
Inductive maximal_path (g : graph) : string → list string → Prop :=
| mp_end x : succs g x = [] → maximal_path g x [x]
| mp_step x y p : edge g x y → maximal_path g y p → maximal_path g x (x :: p).

Lemma mapM_concat {A B} (f : A → option (list B)) (P : A → B → Prop) l :
  (∀ x, x ∈ l → ∃ ys, f x = Some ys ∧ ∀ y, y ∈ ys ↔ P x y) →
  ∃ ys, @concat _ <$> mapM f l = Some ys ∧ ∀ y, y ∈ ys ↔ ∃ x, x ∈ l ∧ P x y.
Proof.
  induction l as [|x l IH]; intros Hl; simpl.
  { exists []. split; [done|]. set_solver. }
  destruct (Hl x) as (ys & -> & Hys); [left|]. simpl.
  destruct IH as (zs & Hzs & Hin); [intros; apply Hl; by right|].
  destruct (mapM f l) as [zss|]; simpl in *; [|done]. injection Hzs as <-.
  eexists. split; [done|]. intros y. simpl. rewrite elem_of_app, Hys, Hin. set_solver.
Qed.

(** From a node whose walks are shorter than the fuel, the search lists the
    maximal paths. *)
Lemma paths_dfs_spec g fuel x cur :
  (∀ k y, nsteps (edge g) k x y → k < fuel) →
  ∃ ps, paths_dfs fuel g x cur = Some ps ∧
    ∀ p, p ∈ ps ↔ ∃ q, p = cur ++ q ∧ maximal_path g x q.
Proof.
  revert x cur. induction fuel as [|fuel IH]; intros x cur Hk.
  { specialize (Hk 0 x). assert (0 < 0); [apply Hk; constructor|lia]. }
  simpl. destruct (succs g x) as [|n ns] eqn:Hs.
  - eexists. split; [done|]. intros p. rewrite list_elem_of_singleton. split.
    + intros ->. exists [x]. split; [done|]. by constructor.
    + intros (q & -> & Hq). inversion Hq as [|? y ? Hxy]; subst; [done|].
      unfold edge in Hxy. rewrite Hs in Hxy. by apply elem_of_nil in Hxy.
  - destruct (mapM_concat (λ n, paths_dfs fuel g n (cur ++ [x]))
      (λ n p, ∃ q, p = (cur ++ [x]) ++ q ∧ maximal_path g n q) (n :: ns)) as (ps & Hps & Hin).
    { intros y Hy. apply IH. intros k z Hz. assert (S k < S fuel); [|lia].
      apply (Hk (S k) z). econstructor; [|done]. unfold edge. by rewrite Hs. }
    exists ps. split; [exact Hps|]. intros p. rewrite Hin. split.
    + intros (y & Hy & q & -> & Hq). exists (x :: q). rewrite <- app_assoc. split; [done|].
      econstructor; [|done]. unfold edge. by rewrite Hs.
    + intros (q & -> & Hq). inversion Hq as [? Hnil|? y p Hxy Hp]; subst; [congruence|].
      exists y. split; [unfold edge in Hxy; by rewrite Hs in Hxy|]. exists p.
      by rewrite <- app_assoc.
Qed.

(** On an acyclic graph [GetExecutionPaths] returns, and lists exactly the
    paths from a start node to a node without successors; on a graph with a
    cycle reachable from a start node its recursion never ends. *)
Lemma GetExecutionPaths_correct (d : DAG) :
  (acyclic (dEdges d) →
     ∃ ps, GetExecutionPaths d = Some ps ∧
       ∀ p, p ∈ ps ↔ ∃ s, s ∈ dStartNodes d ∧ maximal_path (dEdges d) s p) ∧
  (cyclic_from (dEdges d) (dStartNodes d) →
     ∀ fuel, mapM (λ s, paths_dfs fuel (dEdges d) s []) (dStartNodes d) = None).
Proof.
  split.
  - intros Hac. unfold GetExecutionPaths.
    destruct (mapM_concat (λ s, paths_dfs (paths_fuel (dEdges d)) (dEdges d) s [])
      (maximal_path (dEdges d)) (dStartNodes d)) as (ps & Hps & Hin); [|by exists ps].
    intros s Hs. destruct (paths_dfs_spec (dEdges d) (paths_fuel (dEdges d)) s []) as (ps & Hps & Hin).
    { intros k y Hk. unfold paths_fuel. apply acyclic_steps_bound in Hk; [lia|done]. }
    exists ps. split; [exact Hps|]. intros p. rewrite Hin. simpl. naive_solver.
  - intros (r & x & Hr & Hrx & Hx) fuel.
    assert (Hinf : ∀ fuel y cur, tc (edge (dEdges d)) y x → paths_dfs fuel (dEdges d) y cur = None).
    { clear r Hr Hrx fuel. induction fuel as [|fuel IH]; intros y cur Hy; [done|]. cbn [paths_dfs].
      apply tc_iff_edge_rtc in Hy as (z & Hyz & Hzx).
      assert (tc (edge (dEdges d)) z x) as Hz.
      { by apply rtc_tc in Hzx as [->|?]. }
      unfold edge in Hyz. destruct (succs (dEdges d) y) as [|n ns] eqn:Hs; [by apply elem_of_nil in Hyz|].
      rewrite mapM_None_2; [done|]. apply Exists_exists. exists z. split; [done|]. by apply IH. }
    apply mapM_None_2, Exists_exists. exists r. split; [done|]. apply Hinf.
    apply rtc_tc in Hrx as [->|Ht]; [done|]. by apply (tc_transitive r x x).
Qed.

(** ** Levels *)

(** The loop over the neighbours of a dequeued node at [level]. *)
Fixpoint level_neighbors (ns : list string) (level : Z) (levels : gmap string Z)
    (queue : list string) : gmap string Z * list string :=
  match ns with
  | [] => (levels, queue)
  | neighbor :: ns' =>
      if bool_decide (get_int levels neighbor < level + 1)%Z
      then level_neighbors ns' level (<[neighbor := (level + 1)%Z]> levels) (queue ++ [neighbor])
      else level_neighbors ns' level levels queue
  end.

Fixpoint level_loop (fuel : nat) (g : graph) (queue : list string) (levels : gmap string Z) :
    option (gmap string Z) :=
  match queue with
  | [] => Some levels
  | current :: queue' =>
      match fuel with
      | O => None
      | S fuel' =>
          let '(levels', queue'') :=
            level_neighbors (succs g current) (get_int levels current) levels queue' in
          level_loop fuel' g queue'' levels'
      end
  end.

(** Each node of the graph can be raised to each level once. *)
Definition levels_fuel (d : DAG) : nat :=
  length (dStartNodes d) + size (universe (dEdges d)) * (size (universe (dEdges d)) + 1).

(** [CalculateLevels]; [ordN] orders the loop over the node map. *)
Definition CalculateLevels (d : DAG) (ordN : list string) : option (gmap string Z) :=
  let levels := foldl (λ m id, <[id := (-1)%Z]> m) ∅ ordN in
  let levels := foldl (λ m id, <[id := 0%Z]> m) levels (dStartNodes d) in
  level_loop (levels_fuel d) (dEdges d) (dStartNodes d) levels.

Definition GetNodeLevel (d : DAG) (ordN : list string) (nodeID : string) : option Z :=
  (λ levels, default (-1)%Z (levels !! nodeID)) <$> CalculateLevels d ordN.

(** A walk of [k] edges from a start node to [v]. *)
Definition start_walk (d : DAG) (k : Z) (v : string) : Prop :=
  ∃ s n, s ∈ dStartNodes d ∧ nsteps (edge (dEdges d)) n s v ∧ k = Z.of_nat n.

Section levels.
Context (d : DAG).
Let g := dEdges d.

(** The levels are lengths of walks (or not set yet); the edges out of nodes
    that are not queued are relaxed. *)
Record level_inv (levels : gmap string Z) (queue : list string) : Prop := {
  li_walk : ∀ v l, levels !! v = Some l → l = (-1)%Z ∨ start_walk d l v;
  li_start : ∀ s, s ∈ dStartNodes d → ∃ l, levels !! s = Some l ∧ (0 ≤ l)%Z;
  li_queue : ∀ v, v ∈ queue → ∃ l, levels !! v = Some l ∧ (0 ≤ l)%Z;
  li_relaxed : ∀ u v l, levels !! u = Some l → (0 ≤ l)%Z → u ∉ queue → edge g u v →
    (l + 1 ≤ get_int levels v)%Z
}.

(** What relaxing the neighbours does. *)
Record relaxed (level : Z) (ns : list string) (levels levels' : gmap string Z)
    (queue queue' : list string) : Prop := {
  rx_mono : ∀ v, (get_int levels v ≤ get_int levels' v)%Z;
  rx_keep : ∀ v, v ∉ ns → levels' !! v = levels !! v;
  rx_set : ∀ v l, levels' !! v = Some l →
    levels !! v = Some l ∨ v ∈ ns ∧ l = (level + 1)%Z ∧ v ∈ queue';
  rx_ns : ∀ v, v ∈ ns → (level + 1 ≤ get_int levels' v)%Z;
  rx_dom : ∀ v, is_Some (levels !! v) → is_Some (levels' !! v);
  rx_sub : ∀ v, v ∈ queue → v ∈ queue';
  rx_new : ∀ v, v ∈ queue' → v ∈ queue ∨ v ∈ ns ∧ levels' !! v = Some (level + 1)%Z
}.

Lemma level_neighbors_spec level ns levels queue :
  relaxed level ns levels (level_neighbors ns level levels queue).1 queue
    (level_neighbors ns level levels queue).2.
Proof.
  revert levels queue. induction ns as [|n ns IH]; intros levels queue; simpl.
  { split; try done; set_solver. }
  case_bool_decide as Hn.
  - specialize (IH (<[n := (level + 1)%Z]> levels) (queue ++ [n])).
    destruct (level_neighbors _ _ _ _) as [levels' queue']. simpl in *. destruct IH. split.
    + intros v. specialize (rx_mono0 v). rewrite get_int_insert in rx_mono0.
      case_decide; subst; lia.
    + intros v Hv. rewrite rx_keep0 by set_solver. rewrite lookup_insert_ne; [done|set_solver].
    + intros v l Hl. destruct (rx_set0 v l Hl) as [[[<- <-]|[_ ?]]%lookup_insert_Some|?]; [|by left|set_solver].
      right. split_and!; [left|done|]. apply rx_sub0. set_solver.
    + intros v [->|Hv]%elem_of_cons; [|by apply rx_ns0]. specialize (rx_mono0 n).
      rewrite get_int_insert, decide_True in rx_mono0 by done. done.
    + intros v Hv. apply rx_dom0. apply lookup_insert_is_Some. destruct (decide (n = v)); auto.
    + intros v Hv. apply rx_sub0. set_solver.
    + intros v Hv. destruct (rx_new0 v Hv) as [Hq|[Hq Hl]]; [|right; set_solver].
      apply elem_of_app in Hq as [?| ->%list_elem_of_singleton]; [by left|]. right. split; [left|].
      destruct (rx_dom0 n) as [l El]; [rewrite lookup_insert_eq; eauto|]. rewrite El.
      destruct (rx_set0 n l El) as [Hl|(_ & -> & _)]; [|done]. by rewrite lookup_insert_eq in Hl.
  - specialize (IH levels queue). destruct (level_neighbors _ _ _ _) as [levels' queue']. simpl in *.
    destruct IH. split; try done.
    + intros v Hv. apply rx_keep0. set_solver.
    + intros v l Hl. destruct (rx_set0 v l Hl) as [?|(? & ? & ?)]; [by left|]. right. split_and!; [by right|done..].
    + intros v [->|Hv]%elem_of_cons; [|by apply rx_ns0]. specialize (rx_mono0 n). lia.
    + intros v Hv. destruct (rx_new0 v Hv) as [?|[? ?]]; [by left|]. right. split; [by right|done].
Qed.

Lemma level_inv_step levels c q :
  level_inv levels (c :: q) →
  level_inv (level_neighbors (succs g c) (get_int levels c) levels q).1
    (level_neighbors (succs g c) (get_int levels c) levels q).2.
Proof.
  intros []. pose proof (level_neighbors_spec (get_int levels c) (succs g c) levels q) as [].
  destruct (li_queue0 c) as (lc & Hc & Hlc); [left|].
  assert (get_int levels c = lc) as Eg by (unfold get_int; by rewrite Hc). rewrite Eg in *.
  destruct (level_neighbors (succs g c) lc levels q) as [levels' q']. simpl in *.
  assert (Hwc : start_walk d lc c) by (destruct (li_walk0 c lc Hc); [lia|done]).
  assert (Hnn : ∀ v, (∃ l, levels !! v = Some l ∧ (0 ≤ l)%Z) → ∃ l, levels' !! v = Some l ∧ (0 ≤ l)%Z).
  { intros v (l & Hl & Hl0). destruct (rx_dom0 v) as [l' Hl']; [eauto|]. exists l'. split; [done|].
    destruct (rx_set0 v l' Hl') as [?|(_ & -> & _)]; [|lia]. congruence. }
  split.
  - intros v l Hl. destruct (rx_set0 v l Hl) as [?|(Hin & -> & _)]; [by eapply li_walk0|]. right.
    destruct Hwc as (s & n & Hs & Hn & ->). exists s, (S n). split_and!; [done| |lia].
    by eapply nsteps_r.
  - intros s Hs. by apply Hnn, li_start0.
  - intros v Hv. destruct (rx_new0 v Hv) as [Hq|[_ ->]]; [|exists (lc + 1)%Z; split; [done|lia]].
    apply Hnn, li_queue0. by right.
  - intros u v l Hu Hl Hnq He. destruct (rx_set0 u l Hu) as [Hu0|(_ & _ & ?)]; [|done].
    destruct (decide (u = c)) as [->|Hne].
    + rewrite Hc in Hu0. injection Hu0 as <-. by apply rx_ns0.
    + specialize (rx_mono0 v). specialize (li_relaxed0 u v l Hu0 Hl).
      assert (l + 1 ≤ get_int levels v)%Z; [|lia]. apply li_relaxed0; [|done].
      intros [->|Hq]%elem_of_cons; [done|]. by apply Hnq, rx_sub0.
Qed.

Lemma sum_update (l : list string) (f f' : string → nat) n :
  NoDup l → n ∈ l → (∀ v, v ≠ n → f' v = f v) →
  sum_list (f' <$> l) + f n = sum_list (f <$> l) + f' n.
Proof.
  intros Hnd Hn Hf. induction Hnd as [|x l Hx Hnd IH]; [by apply elem_of_nil in Hn|].
  rewrite !fmap_cons. cbn [sum_list]. apply elem_of_cons in Hn as [->|Hn].
  - assert (f' <$> l = f <$> l) as ->; [|simpl; lia].
    apply list_fmap_ext. intros i y Hy. apply Hf. intros ->. apply Hx. by eapply list_elem_of_lookup_2.
  - rewrite (Hf x) by (by intros ->). specialize (IH Hn). simpl. lia.
Qed.

(** How far the levels of the graph's nodes can still rise. *)
Definition headroom (levels : gmap string Z) : nat :=
  sum_list ((λ v, Z.to_nat (Z.of_nat (size (universe g)) - get_int levels v)) <$> elements (universe g)).

Lemma level_neighbors_measure level ns levels queue :
  (∀ v, v ∈ ns → v ∈ universe g) → (level + 1 ≤ Z.of_nat (size (universe g)))%Z →
  length (level_neighbors ns level levels queue).2 +
    headroom (level_neighbors ns level levels queue).1 ≤ length queue + headroom levels.
Proof.
  intros Hns Hl. revert levels queue. induction ns as [|n ns IH]; intros levels queue; [done|].
  cbn [level_neighbors]. case_bool_decide as Hn; [|apply IH; set_solver].
  etrans; [apply IH; set_solver|]. rewrite length_app. simpl.
  pose proof (sum_update (elements (universe g))
    (λ v, Z.to_nat (Z.of_nat (size (universe g)) - get_int levels v))
    (λ v, Z.to_nat (Z.of_nat (size (universe g)) - get_int (<[n := (level + 1)%Z]> levels) v)) n) as Hs.
  fold (headroom levels) (headroom (<[n := (level + 1)%Z]> levels)) in Hs. cbv beta in Hs.
  rewrite get_int_insert, decide_True in Hs by done.
  assert (n ∈ universe g) by (apply Hns; left).
  specialize (Hs (NoDup_elements _) ltac:(by apply elem_of_elements)).
  unfold headroom at 1. lapply Hs; [clear Hs; unfold headroom; intros; lia|].
  intros v Hv. rewrite get_int_insert. by rewrite decide_False.
Qed.

Lemma level_loop_spec fuel levels queue :
  acyclic g → level_inv levels queue → length queue + headroom levels ≤ fuel →
  ∃ levels', level_loop fuel g queue levels = Some levels' ∧ level_inv levels' [].
Proof.
  intros Hac. revert levels queue. induction fuel as [|fuel IH]; intros levels queue Hinv Hf;
    (destruct queue as [|c q]; [by exists levels|]); simpl in Hf; [lia|].
  cbn [level_loop].
  destruct (decide (succs g c = [])) as [Hs|Hs].
  - pose proof (level_inv_step _ _ _ Hinv) as Hi. rewrite Hs in *. simpl in *. apply IH; [done|lia].
  - assert (get_int levels c + 1 ≤ Z.of_nat (size (universe g)))%Z as Hb.
    { destruct (li_queue _ _ Hinv c) as (lc & Hc & Hlc); [left|]. unfold get_int. rewrite Hc. simpl.
      destruct (li_walk _ _ Hinv c lc Hc) as [?|(s & n & _ & Hn & ->)]; [lia|].
      destruct (succs g c) as [|y ys] eqn:Hy; [done|].
      assert (nsteps (edge g) (S n) s y) as Hsn by (eapply nsteps_r; [done|]; unfold edge; rewrite Hy; left).
      apply acyclic_steps_bound in Hsn; [lia|done]. }
    pose proof (level_neighbors_measure _ (succs g c) levels q
      (λ v Hv, succs_universe g c v Hv) Hb) as Hm.
    pose proof (level_inv_step _ _ _ Hinv) as Hi.
    destruct (level_neighbors _ _ _ _) as [levels' q']. simpl in *. apply IH; [done|lia].
Qed.

End levels.

Lemma foldl_insert_const (z : Z) l (m : gmap string Z) v :
  foldl (λ m id, <[id := z]> m) m l !! v = if decide (v ∈ l) then Some z else m !! v.
Proof.
  revert m. induction l as [|x l IH]; intros m; cbn [foldl];
    [by rewrite decide_False by apply not_elem_of_nil|].
  rewrite IH, lookup_insert. destruct (decide (v ∈ l)) as [Hv|Hv].
  - by rewrite decide_True by (by right).
  - destruct (decide (x = v)) as [->|Hx]; [by rewrite decide_True by left|].
    rewrite decide_False; [done|]. by intros [?|?]%elem_of_cons.
Qed.

(** The levels before the search: 0 at start nodes, -1 at other nodes. *)
Lemma level_inv_init d ordN :
  let levels := foldl (λ m id, <[id := 0%Z]> m) (foldl (λ m id, <[id := (-1)%Z]> m) ∅ ordN)
                  (dStartNodes d) in
  level_inv d levels (dStartNodes d) ∧
  headroom d levels ≤ size (universe (dEdges d)) * (size (universe (dEdges d)) + 1).
Proof.
  intros levels.
  assert (Hl : ∀ v, levels !! v = if decide (v ∈ dStartNodes d) then Some 0%Z
    else if decide (v ∈ ordN) then Some (-1)%Z else None).
  { intros v. unfold levels. rewrite !foldl_insert_const. by destruct (decide _). }
  split.
  - split.
    + intros v l. rewrite Hl. destruct (decide (v ∈ dStartNodes d)); [intros [= <-]; right|].
      * exists v, 0. split_and!; [done|constructor|done].
      * destruct (decide (v ∈ ordN)); [intros [= <-]; by left|done].
    + intros s Hs. exists 0%Z. rewrite Hl, decide_True by done. done.
    + intros s Hs. exists 0%Z. rewrite Hl, decide_True by done. done.
    + intros u v l Hu Hl0 Hq He. rewrite Hl, decide_False in Hu by done.
      destruct (decide (u ∈ ordN)); simplify_eq. done.
  - unfold headroom.
    assert (∀ l : list string, sum_list ((λ v, Z.to_nat (Z.of_nat (size (universe (dEdges d))) - get_int levels v)) <$> l)
      ≤ length l * (size (universe (dEdges d)) + 1)) as H; [|].
    { induction l as [|v l IH]; [done|]. rewrite fmap_cons, length_cons. cbn [sum_list].
      assert (-1 ≤ get_int levels v)%Z; [|simpl; lia]. unfold get_int. rewrite Hl.
      destruct (decide _); [simpl; lia|]. destruct (decide _); simpl; lia. }
    etrans; [apply H|]. done.
Qed.

(** When nothing is queued a level is at least the length of every walk. *)
Lemma level_inv_final d levels k v :
  level_inv d levels [] → start_walk d k v → ∃ l, levels !! v = Some l ∧ (k ≤ l)%Z.
Proof.
  intros Hinv (s & n & Hs & Hn & ->). revert v Hn. induction n as [|n IH]; intros v Hn.
  - inversion Hn; subst. destruct (li_start _ _ _ Hinv v Hs) as (l & ? & ?). eauto.
  - apply nsteps_inv_r in Hn as (u & Hu & He). destruct (IH u Hu) as (l & Hl & Hle).
    pose proof (li_relaxed _ _ _ Hinv u v l Hl ltac:(lia) ltac:(apply not_elem_of_nil) He) as Hr.
    unfold get_int in Hr. destruct (levels !! v) as [l'|]; simpl in Hr; [|lia]. exists l'. split; [done|lia].
Qed.

(** On an acyclic graph [CalculateLevels] returns, and the level of a node
    is the length of the longest walk to it from a start node, -1 when there
    is none; so along every edge out of a node with a level the level rises. *)
Lemma CalculateLevels_correct (d : DAG) (ordN : list string) :
  acyclic (dEdges d) → range_order (dNodes d) ordN →
  ∃ levels, CalculateLevels d ordN = Some levels ∧
    ∀ v, v ∈ dom (dNodes d) →
      ∃ l, GetNodeLevel d ordN v = Some l ∧
        ((l = (-1)%Z ∧ ∀ k, ¬ start_walk d k v) ∨
         (start_walk d l v ∧ ∀ k, start_walk d k v → (k ≤ l)%Z)) ∧
        (∀ u lu, GetNodeLevel d ordN u = Some lu → (0 ≤ lu)%Z → edge (dEdges d) u v → (lu < l)%Z).
Proof.
  intros Hac Hord. destruct (level_inv_init d ordN) as [Hinv Hm].
  destruct (level_loop_spec d (levels_fuel d) _ _ Hac Hinv) as (levels & Hrun & Hfin).
  { unfold levels_fuel. lia. }
  exists levels. split; [exact Hrun|]. intros v Hv.
  assert (CalculateLevels d ordN = Some levels) as Hcalc by exact Hrun.
  unfold GetNodeLevel. rewrite Hcalc. simpl. eexists. split; [done|]. split.
  - destruct (levels !! v) as [l|] eqn:Hl; simpl.
    + destruct (li_walk _ _ _ Hfin v l Hl) as [->|Hw].
      * left. split; [done|]. intros k Hk. destruct (level_inv_final _ _ _ _ Hfin Hk) as (l & Hl' & Hle).
        rewrite Hl in Hl'. injection Hl' as <-. destruct Hk as (? & n & _ & _ & ->). lia.
      * right. split; [done|]. intros k Hk. destruct (level_inv_final _ _ _ _ Hfin Hk) as (l' & Hl' & Hle).
        by rewrite Hl in Hl'; injection Hl' as <-.
    + left. split; [done|]. intros k Hk. destruct (level_inv_final _ _ _ _ Hfin Hk) as (l & Hl' & _). congruence.
  - intros u lu [= Hlu] Hge He. destruct (levels !! u) as [l|] eqn:Hu; simpl in Hlu; [|lia]. subst l.
    pose proof (li_relaxed _ _ _ Hfin u v lu Hu Hge ltac:(apply not_elem_of_nil) He) as Hr.
    unfold get_int in Hr. destruct (levels !! v); simpl in *; lia.
Qed.

Lemma demo_dag_endpoints : endpoints_exist demo_dag.
Proof. apply endpoints_by_check. vm_compute. reflexivity. Qed.

Lemma demo_dag_named : "" ∉ dom (dNodes demo_dag).
Proof. apply (bool_decide_eq_false_1 _). vm_compute. reflexivity. Qed.

Lemma demo_dag_starts s : s ∈ dStartNodes demo_dag → ∀ u, ¬ edge (dEdges demo_dag) u s.
Proof.
  assert (dStartNodes demo_dag = ["t"]) as -> by reflexivity. intros ->%list_elem_of_singleton u He.
  apply connection_graph_edge in He as (c & Hc & _ & Ht).
  revert c Hc Ht.
  refine (proj1 (Forall_forall (λ c, cTarget c = "t" → False) (wConnections demo_diamond)) _).
  repeat constructor; discriminate.
Qed.

Lemma demo_dag_ends v :
  v ∈ dEndNodes demo_dag ↔ v ∈ dom (dNodes demo_dag) ∧ succs (dEdges demo_dag) v = [].
Proof.
  assert (dEndNodes demo_dag = ["c"]) as -> by reflexivity. rewrite list_elem_of_singleton. split.
  - intros ->. split; [|reflexivity]. apply (bool_decide_eq_true_1 _). vm_compute. reflexivity.
  - intros [Hv Hs]. apply elem_of_dom, (range_order_elem _ _ _ (keys_range_order _)) in Hv.
    revert v Hv Hs.
    refine (proj1 (Forall_forall (λ v, succs (dEdges demo_dag) v = [] → v = "c") (keys (dNodes demo_dag))) _).
    assert (keys (dNodes demo_dag) = ["c"; "a"; "b"; "t"]) as ->; [vm_compute; reflexivity|].
    repeat constructor; (discriminate || done).
Qed.

Lemma demo_dag_acyclic : acyclic (dEdges demo_dag).
Proof. apply acyclic_by_check; [apply endpoints_by_check|]; vm_compute; reflexivity. Qed.

Lemma GetExecutionPaths_correct_witness :
  ∃ ps, GetExecutionPaths demo_dag = Some ps ∧
    ∀ p, p ∈ ps ↔ ∃ s, s ∈ dStartNodes demo_dag ∧ maximal_path (dEdges demo_dag) s p.
Proof. apply (proj1 (GetExecutionPaths_correct demo_dag)). exact demo_dag_acyclic. Defined.

Lemma CalculateLevels_correct_witness :
  ∃ levels, CalculateLevels demo_dag demo_order = Some levels ∧ GetNodeLevel demo_dag demo_order "c" = Some 2%Z.
Proof.
  destruct (CalculateLevels_correct demo_dag demo_order) as (levels & H & _).
  - exact demo_dag_acyclic.
  - apply keys_range_order.
  - exists levels. split; [exact H|reflexivity].
Defined.

(** ** The critical path *)

(** The update of one neighbour; the maps are [dist] and [parent]. *)
Definition relax (nodeID : string) (s : gmap string Z * gmap string string) (neighbor : string) :
    gmap string Z * gmap string string :=
  let '(dist, parent) := s in
  if bool_decide (get_int dist neighbor < get_int dist nodeID + 1)%Z
  then (<[neighbor := (get_int dist nodeID + 1)%Z]> dist, <[neighbor := nodeID]> parent)
  else s.

(** One node of the topological order. *)
Definition critical_step (d : DAG) (s : gmap string Z * gmap string string) (nodeID : string) :
    gmap string Z * gmap string string :=
  let '(dist, parent) := s in
  let dist :=
    if bool_decide (nodeID ∈ dStartNodes d) then <[nodeID := 1%Z]> dist
    else if bool_decide (get_int dist nodeID = 0%Z) then <[nodeID := 1%Z]> dist else dist in
  foldl (relax nodeID) (dist, parent) (succs (dEdges d) nodeID).

(** The end node with the largest distance, and that distance. *)
Definition best_end (d : DAG) (dist : gmap string Z) : Z * string :=
  foldl (λ acc nodeID, if bool_decide (acc.1 < get_int dist nodeID)%Z
                       then (get_int dist nodeID, nodeID) else acc) (0%Z, "") (dEndNodes d).

(** The walk back along [parent]; a missing key reads as the empty string. *)
Fixpoint follow (fuel : nat) (parent : gmap string string) (current : string)
    (path : list string) : option (list string) :=
  if bool_decide (current = "") then Some path
  else match fuel with
       | O => None
       | S fuel' => follow fuel' parent (default "" (parent !! current)) (current :: path)
       end.

(** [GetCriticalPath]; the orders are those of [GetTopologicalOrder].  Parents
    come earlier in the order, so the walk back has at most as many steps as
    the order has nodes. *)
Definition GetCriticalPath (d : DAG) (ordN ordE ordI : list string) : option (list string) :=
  match GetTopologicalOrder d ordN ordE ordI with
  | None => None
  | Some (Err _) => Some []
  | Some (Ok order) =>
      let '(dist, parent) := foldl (critical_step d) (∅, ∅) order in
      let '(maxDist, endNode) := best_end d dist in
      follow (Z.to_nat maxDist + length order) parent endNode []
  end.

(** The nodes of a walk ending at a node. *)
Inductive walk_to (g : graph) : string → list string → Prop :=
| wt_one v : walk_to g v [v]
| wt_step u v p : edge g u v → walk_to g u p → walk_to g v (p ++ [v]).

(** [k] is the number of nodes of the longest walks to [v]. *)
Definition longest_to (g : graph) (v : string) (k : Z) : Prop :=
  (∃ p, walk_to g v p ∧ Z.of_nat (length p) = k) ∧
  ∀ p, walk_to g v p → (Z.of_nat (length p) ≤ k)%Z.

Lemma relax_loop c ns dist parent :
  c ∉ ns →
  let '(dist', parent') := foldl (relax c) (dist, parent) ns in
  ∀ v, (v ∉ ns → get_int dist' v = get_int dist v ∧ parent' !! v = parent !! v) ∧
       (v ∈ ns → get_int dist' v = Z.max (get_int dist v) (get_int dist c + 1) ∧
          (parent' !! v = parent !! v ∧ get_int dist' v = get_int dist v ∨
           parent' !! v = Some c ∧ get_int dist' v = (get_int dist c + 1)%Z)).
Proof.
  revert dist parent. induction ns as [|n ns IH]; intros dist parent Hc; cbn [foldl].
  { intros v. split; [done|by intros ?%elem_of_nil]. }
  assert (c ≠ n ∧ c ∉ ns) as [Hcn Hcns] by set_solver. unfold relax at 2.
  case_bool_decide as Hlt.
  - specialize (IH (<[n := (get_int dist c + 1)%Z]> dist) (<[n := c]> parent) Hcns).
    destruct (foldl (relax c) _ ns) as [dist' parent']. intros v. specialize (IH v) as [H1 H2].
    rewrite !(get_int_insert dist n _ v) in H1, H2.
    assert (get_int (<[n := (get_int dist c + 1)%Z]> dist) c = get_int dist c) as Ec
      by by rewrite get_int_insert, decide_False.
    rewrite Ec in H2.
    rewrite lookup_insert in H1, H2. rewrite elem_of_cons.
    destruct (decide (n = v)) as [<-|Hnv]; (split; [naive_solver|]).
    + intros _. destruct (decide (n ∈ ns)) as [Hin|Hin].
      * destruct (H2 Hin) as [-> H]. split; [lia|]. right. destruct H as [[-> _]|[-> _]]; split; (done || lia).
      * destruct (H1 Hin) as [-> ->]. split; [lia|]. by right.
    + intros [->|Hin]; [done|]. by apply H2.
  - specialize (IH dist parent Hcns). destruct (foldl (relax c) _ ns) as [dist' parent'].
    intros v. specialize (IH v) as [H1 H2]. rewrite elem_of_cons. split.
    + intros Hv. apply H1. tauto.
    + intros Hv. destruct (decide (v ∈ ns)) as [Hin|Hin]; [by apply H2|].
      destruct Hv as [->|?]; [|done]. destruct (H1 Hin) as [-> ->]. split; [lia|]. by left.
Qed.

Section critical.
Context (d : DAG).
Let g := dEdges d.

(** After the nodes [res] of the order: their distances are final, their edges
    are relaxed, and [parent] holds the last step of a longest walk. *)
Record critical_inv (res : list string) (dist : gmap string Z) (parent : gmap string string) :
    Prop := {
  ci_done : ∀ v, v ∈ res → longest_to g v (get_int dist v);
  ci_relaxed : ∀ u v, u ∈ res → edge g u v → (get_int dist u + 1 ≤ get_int dist v)%Z;
  ci_parent : ∀ v,
    match parent !! v with
    | Some u => u ∈ res ∧ edge g u v ∧ get_int dist v = (get_int dist u + 1)%Z
    | None => get_int dist v = if decide (v ∈ res) then 1%Z else 0%Z
    end
}.

Lemma longest_to_pos v k : longest_to g v k → (1 ≤ k)%Z.
Proof. intros [_ H]. apply (H [v]). constructor. Qed.

(** The distance of the node being processed. *)
Definition own_distance (dist : gmap string Z) (parent : gmap string string) (c : string) : Z :=
  match parent !! c with Some _ => get_int dist c | None => 1%Z end.

Lemma own_distance_longest res dist parent c :
  critical_inv res dist parent → c ∉ res → (∀ u, edge g u c → u ∈ res) →
  longest_to g c (own_distance dist parent c).
Proof.
  intros [Hdone Hrel Hpar] Hc Hpred. unfold own_distance. specialize (Hpar c).
  destruct (parent !! c) as [u|] eqn:Hu.
  - destruct Hpar as (Hures & He & Hdc). destruct (Hdone u Hures) as [(p & Hp & Hlen) _]. split.
    + exists (p ++ [c]). split; [by econstructor|]. rewrite length_app. simpl. lia.
    + intros q Hq. inversion Hq as [|u' ? p' He' Hp']; subst.
      * assert (1 ≤ get_int dist u)%Z by (eapply longest_to_pos, Hdone; done). simpl. lia.
      * specialize (proj2 (Hdone u' (Hpred u' He')) p' Hp') as Hle.
        specialize (Hrel u' c (Hpred u' He') He') as Hr.
        rewrite length_app. simpl. lia.
  - split; [by exists [c]; split; [constructor|]|].
    intros q Hq. inversion Hq as [|u' ? p' He' Hp']; subst; [done|]. exfalso.
    rewrite decide_False in Hpar by done. specialize (Hrel u' c (Hpred u' He') He').
    specialize (longest_to_pos _ _ (Hdone u' (Hpred u' He'))). lia.
Qed.

(** The distance map before the relaxation. *)
Lemma own_distance_set res dist parent c :
  critical_inv res dist parent → c ∉ res → (c ∈ dStartNodes d → ∀ u, ¬ edge g u c) →
  let dist1 := if bool_decide (c ∈ dStartNodes d) then <[c := 1%Z]> dist
               else if bool_decide (get_int dist c = 0%Z) then <[c := 1%Z]> dist else dist in
  ∀ v, get_int dist1 v = if decide (c = v) then own_distance dist parent c else get_int dist v.
Proof.
  intros [Hdone _ Hpar] Hc Hstart dist1 v. specialize (Hpar c). unfold own_distance.
  assert (get_int dist c = 0%Z ∨ c ∈ dStartNodes d → parent !! c = None) as Hnone.
  { intros Hz. destruct (parent !! c) as [u|]; [|done]. destruct Hpar as (Hu & He & Hd).
    destruct Hz as [Hz|Hs]; [|by destruct (Hstart Hs u)].
    specialize (longest_to_pos _ _ (Hdone u Hu)). lia. }
  unfold dist1. case_bool_decide as Hs; [|case_bool_decide as Hz].
  1-2: rewrite get_int_insert, Hnone by auto; done.
  destruct (decide (c = v)) as [<-|]; [|done]. destruct (parent !! c); [done|].
  by rewrite decide_False in Hpar by done.
Qed.

(** What one step does: it settles the distance of [c] and relaxes the edges
    out of it, and touches nothing else. *)
Lemma critical_step_effect res dist parent c :
  critical_inv res dist parent → c ∉ res → c ∉ succs g c →
  (c ∈ dStartNodes d → ∀ u, ¬ edge g u c) →
  let D := own_distance dist parent c in
  let '(dist', parent') := critical_step d (dist, parent) c in
  get_int dist' c = D ∧ parent' !! c = parent !! c ∧
  ∀ v, v ≠ c → (get_int dist v ≤ get_int dist' v)%Z ∧ (edge g c v → (D + 1 ≤ get_int dist' v)%Z) ∧
    (parent' !! v = parent !! v ∧ get_int dist' v = get_int dist v ∨
     edge g c v ∧ parent' !! v = Some c ∧ get_int dist' v = (D + 1)%Z).
Proof.
  intros Hinv Hc Hcc Hstart. pose proof (own_distance_set _ _ _ _ Hinv Hc Hstart) as H1.
  cbv zeta in *. unfold critical_step.
  set (dist1 := if bool_decide (c ∈ dStartNodes d) then _ else _) in *. clearbody dist1.
  pose proof (H1 c) as H1c. rewrite decide_True in H1c by done.
  pose proof (relax_loop c (succs g c) dist1 parent Hcc) as Hr. fold g.
  destruct (foldl (relax c) (dist1, parent) (succs g c)) as [dist' parent'].
  destruct (Hr c) as [Hn _]. destruct (Hn Hcc) as [-> ->]. split_and!; [done..|].
  intros v Hv. pose proof (H1 v) as H1v. rewrite decide_False in H1v by done.
  destruct (Hr v) as [Hout Hin]. rewrite H1c, H1v in *. unfold edge.
  destruct (decide (v ∈ succs g c)) as [Hs|Hs].
  - destruct (Hin Hs) as [Hmax Hor]. split_and!; [lia|lia|]. destruct Hor as [?|[? ?]]; auto.
  - destruct (Hout Hs) as [Hd Hp]. split_and!; [lia|done|auto].
Qed.

Lemma critical_inv_step res dist parent c :
  critical_inv res dist parent → c ∉ res → (∀ u, edge g u c → u ∈ res) →
  (∀ v, edge g c v → v ∉ res ++ [c]) → (c ∈ dStartNodes d → ∀ u, ¬ edge g u c) →
  let '(dist', parent') := critical_step d (dist, parent) c in
  critical_inv (res ++ [c]) dist' parent'.
Proof.
  intros Hinv Hc Hpred Hsucc Hstart.
  assert (c ∉ succs g c) as Hcc by (intros He; apply (Hsucc c He); set_solver).
  pose proof (own_distance_longest _ _ _ _ Hinv Hc Hpred) as HD.
  pose proof (critical_step_effect _ _ _ _ Hinv Hc Hcc Hstart) as He. cbv zeta in He.
  destruct (critical_step d (dist, parent) c) as [dist' parent']. destruct He as (HDc & Hpc & He).
  destruct Hinv as [Hdone Hrel Hpar].
  assert (Hres : ∀ v, v ∈ res → get_int dist' v = get_int dist v).
  { intros v Hv. destruct (He v) as (_ & _ & [[_ ?]|(Hcv & _)]); [by intros ->|done|].
    destruct (Hsucc v Hcv). by apply elem_of_app; left. }
  split.
  - intros v [Hv| ->%list_elem_of_singleton]%elem_of_app; [|by rewrite HDc].
    rewrite Hres by done. by apply Hdone.
  - intros u v [Hu| ->%list_elem_of_singleton]%elem_of_app Huv.
    + rewrite Hres by done. specialize (Hrel u v Hu Huv).
      destruct (decide (v = c)) as [->|Hv]; [|destruct (He v Hv); lia].
      rewrite HDc. specialize (Hpar c). unfold own_distance. destruct (parent !! c); [done|].
      rewrite decide_False in Hpar by done. specialize (longest_to_pos _ _ (Hdone u Hu)). lia.
    + rewrite HDc. apply He; [by intros ->|done].
  - intros v. specialize (Hpar v). destruct (decide (v = c)) as [->|Hv].
    + rewrite Hpc, HDc. unfold own_distance. destruct (parent !! c) as [u|].
      * destruct Hpar as (Hu & ? & ->). rewrite Hres by done. split_and!; [set_solver|done..].
      * by rewrite decide_True by set_solver.
    + destruct (He v Hv) as (_ & _ & [[-> ->]|(Hcv & -> & ->)]);
        [|rewrite HDc; split_and!; [set_solver|done..]].
      destruct (parent !! v) as [u|].
      * destruct Hpar as (Hu & ? & ?). rewrite Hres by done. split_and!; [set_solver|done..].
      * rewrite Hpar. by destruct (decide (v ∈ res)), (decide (v ∈ res ++ [c])); set_solver.
Qed.

Lemma critical_loop order res rest dist parent :
  topo_sorted g order → NoDup order → order = res ++ rest →
  (∀ s, s ∈ dStartNodes d → ∀ u, ¬ edge g u s) → critical_inv res dist parent →
  let '(dist', parent') := foldl (critical_step d) (dist, parent) rest in
  critical_inv order dist' parent'.
Proof.
  intros Ht Hnd Ho Hstart. revert res dist parent Ho.
  induction rest as [|c rest IH]; intros res dist parent Ho Hinv; cbn [foldl].
  { rewrite Ho, app_nil_r. done. }
  assert (c ∉ res) as Hc by (rewrite Ho in Hnd; apply NoDup_app in Hnd as (_ & H & _); intros ?; by apply (H c); [|left]).
  assert (∀ u, edge g u c → u ∈ res) as Hpred by by apply (Ht res c rest).
  assert (∀ v, edge g c v → v ∉ res ++ [c]) as Hsucc.
  { intros v He [Hv| ->%list_elem_of_singleton]%elem_of_app; [|by apply Hc, Hpred].
    apply list_elem_of_split in Hv as (l1 & l2 & ->). apply Hc, elem_of_app. left.
    apply (Ht l1 v (l2 ++ c :: rest)); [|done]. rewrite Ho, <- app_assoc. done. }
  pose proof (critical_inv_step _ _ _ _ Hinv Hc Hpred Hsucc (Hstart c)) as Hstep.
  destruct (critical_step d (dist, parent) c) as [dist' parent'].
  apply (IH (res ++ [c])); [by rewrite <- app_assoc|done].
Qed.

(** Walking back from a node gives a longest walk to it. *)
Lemma follow_spec res dist parent k fuel v acc :
  critical_inv res dist parent → "" ∉ res → v ∈ res → get_int dist v = Z.of_nat k → k ≤ fuel →
  ∃ p, follow fuel parent v acc = Some (p ++ acc) ∧ walk_to g v p ∧ length p = k.
Proof.
  intros [Hdone _ Hpar] Hne. revert k v acc. induction fuel as [|fuel IH]; intros k v acc Hv Hk Hf;
    pose proof (longest_to_pos _ _ (Hdone v Hv)); [lia|].
  cbn [follow]. rewrite bool_decide_eq_false_2 by (by intros ->).
  specialize (Hpar v). destruct (parent !! v) as [u|]; simpl.
  - destruct Hpar as (Hu & He & Hd).
    destruct (IH (k - 1) u (v :: acc) Hu ltac:(lia) ltac:(lia)) as (p & -> & Hp & Hl).
    exists (p ++ [v]). rewrite <- app_assoc. split_and!; [done|by econstructor|].
    rewrite length_app. simpl. lia.
  - rewrite decide_True in Hpar by done. exists [v]. split_and!; [by destruct fuel|constructor|simpl; lia].
Qed.

Lemma best_end_spec dist :
  let '(m, e) := best_end d dist in
  (0 ≤ m)%Z ∧ (∀ v, v ∈ dEndNodes d → (get_int dist v ≤ m)%Z) ∧
  (m = 0%Z ∧ e = "" ∨ (0 < m)%Z ∧ e ∈ dEndNodes d ∧ get_int dist e = m).
Proof.
  unfold best_end. induction (dEndNodes d) as [|x l IH] using rev_ind; simpl.
  { split_and!; [done|by intros v ?%elem_of_nil|by left]. }
  rewrite foldl_snoc. destruct (foldl _ _ l) as [m e]. destruct IH as (H0 & Hall & Hm). simpl.
  case_bool_decide as Hlt.
  - split_and!; [lia| |right; split_and!; [lia|set_solver|done]].
    intros v [Hv| ->%list_elem_of_singleton]%elem_of_app; [specialize (Hall v Hv); lia|done].
  - split_and!; [done| |].
    + intros v [Hv| ->%list_elem_of_singleton]%elem_of_app; [by apply Hall|lia].
    + destruct Hm as [?|(? & ? & ?)]; [by left|right]. split_and!; [done|set_solver|done].
Qed.

(** Among finitely many nodes one has the largest distance. *)
Lemma max_node (f : string → Z) l : l ≠ [] → ∃ m, m ∈ l ∧ ∀ v, v ∈ l → (f v ≤ f m)%Z.
Proof.
  induction l as [|x l IH]; [done|]. intros _. destruct (decide (l = [])) as [->|Hl].
  - exists x. split; [left|]. by intros v ->%list_elem_of_singleton.
  - destruct (IH Hl) as (m & Hm & Hmax). destruct (decide (f x ≤ f m)%Z).
    + exists m. split; [by right|]. intros v [->|Hv]%elem_of_cons; [done|auto].
    + exists x. split; [left|]. intros v [->|Hv]%elem_of_cons; [done|]. specialize (Hmax v Hv). lia.
Qed.

End critical.

(** In an acyclic DAG in which no start node has an incoming edge and no
    node has an empty ID, [GetCriticalPath] returns a longest path: a walk
    along edges with at least as many nodes as any other, empty only when
    there are no nodes; whatever the iteration orders. *)
Lemma GetCriticalPath_correct (d : DAG) (ordN ordE ordI : list string) :
  range_order (dNodes d) ordN → range_order (dEdges d) ordE →
  range_order (in_degrees d ordN ordE) ordI →
  endpoints_exist d → acyclic (dEdges d) → "" ∉ dom (dNodes d) →
  (∀ s, s ∈ dStartNodes d → ∀ u, ¬ edge (dEdges d) u s) →
  (∀ v, v ∈ dEndNodes d ↔ v ∈ dom (dNodes d) ∧ succs (dEdges d) v = []) →
  ∃ path, GetCriticalPath d ordN ordE ordI = Some path ∧
    (path = [] ∧ dNodes d = ∅ ∨ ∃ e, e ∈ dEndNodes d ∧ walk_to (dEdges d) e path) ∧
    ∀ v p, v ∈ dom (dNodes d) → walk_to (dEdges d) v p → length p ≤ length path.
Proof.
  intros HN HE HI Hend Hac Hempty Hstart Hends. unfold GetCriticalPath.
  destruct (GetTopologicalOrder_spec d ordN ordE ordI HN HE HI Hend) as (r & -> & Hr).
  destruct r as [order|]; [|destruct Hr as (_ & x & Hx); by destruct (Hac x)].
  destruct Hr as (_ & Hperm & Htopo).
  assert (∀ v, v ∈ order ↔ v ∈ dom (dNodes d)) as Hin
    by (intros v; by rewrite Hperm, (range_order_elem _ _ _ HN), elem_of_dom).
  assert (NoDup order) as Hnd by (rewrite Hperm; by eapply range_order_nodup).
  assert (critical_inv d [] ∅ ∅) as H0.
  { split; [by intros v ?%elem_of_nil|by intros u v ?%elem_of_nil|]. intros v. rewrite lookup_empty.
    by rewrite decide_False by apply not_elem_of_nil. }
  pose proof (critical_loop d order [] order ∅ ∅ Htopo Hnd eq_refl Hstart H0) as Hinv.
  destruct (foldl (critical_step d) (∅, ∅) order) as [dist parent].
  pose proof (best_end_spec d dist) as Hbest. destruct (best_end d dist) as [m e].
  destruct Hbest as (Hm0 & Hall & Hm).
  destruct (decide (order = [])) as [->|Hne].
  { assert (dNodes d = ∅) as Hnil by (apply dom_empty_inv_L; set_solver).
    destruct Hm as [[-> ->]|(_ & [He _]%Hends & _)]; [|by rewrite Hnil in He].
    exists []. split_and!; [done|by left|]. rewrite Hnil. set_solver. }
  destruct (max_node (get_int dist) order Hne) as (x & Hx & Hmax).
  assert (x ∈ dEndNodes d) as Hxe.
  { apply Hends. split; [by apply Hin|]. destruct (succs (dEdges d) x) as [|y ys] eqn:Hy; [done|].
    assert (edge (dEdges d) x y) as He by (unfold edge; rewrite Hy; left).
    pose proof (ci_relaxed _ _ _ _ Hinv x y Hx He). specialize (Hmax y). exfalso.
    assert (y ∈ order) by (apply Hin; by apply (Hend x y)). specialize (Hmax ltac:(done)). lia. }
  specialize (Hall x Hxe). pose proof (longest_to_pos _ _ _ (ci_done _ _ _ _ Hinv x Hx)).
  destruct Hm as [[-> _]|(Hpos & He & Hde)]; [lia|].
  destruct (follow_spec d order dist parent (Z.to_nat m) (Z.to_nat m + length order) e [] Hinv)
    as (p & Hp & Hw & Hl); [by rewrite Hin|apply Hin; by apply Hends in He as [? _]|lia|lia|].
  rewrite app_nil_r in Hp. exists p. split_and!; [done|right; eauto|].
  intros v q Hv Hq. apply Hin in Hv. pose proof (proj2 (ci_done _ _ _ _ Hinv v Hv) q Hq).
  specialize (Hmax v Hv). lia.
Qed.

Lemma GetCriticalPath_correct_witness :
  ∃ path, GetCriticalPath demo_dag demo_order (keys (dEdges demo_dag))
      (keys (in_degrees demo_dag demo_order (keys (dEdges demo_dag)))) = Some path ∧ length path = 3.
Proof.
  destruct (GetCriticalPath_correct demo_dag demo_order (keys (dEdges demo_dag))
      (keys (in_degrees demo_dag demo_order (keys (dEdges demo_dag))))) as (path & Hp & _).
  - apply keys_range_order.
  - apply keys_range_order.
  - apply keys_range_order.
  - exact demo_dag_endpoints.
  - exact demo_dag_acyclic.
  - exact demo_dag_named.
  - exact demo_dag_starts.
  - exact demo_dag_ends.
  - exists path. split; [exact Hp|]. vm_compute in Hp. by injection Hp as <-.
Defined.

(** A trigger that has an incoming edge is a start node too, and its distance
    is set back to 1 when its turn comes: the five nodes of a, b, t, c, d are
    passed over for the four of p, q, r, s. *)
Definition reset_workflow : Workflow :=
  with_graph demo_workflow
    (((λ id, demo_node id NodeTypeAction) <$> ["a"; "b"; "c"; "d"; "p"; "q"; "r"; "s"]) ++
     [demo_node "t" NodeTypeTrigger])
    [demo_connection "a" "b"; demo_connection "b" "t"; demo_connection "t" "c";
     demo_connection "c" "d"; demo_connection "p" "q"; demo_connection "q" "r"; demo_connection "r" "s"].
Definition reset_order : list string := keys (node_map (wNodes reset_workflow)).
Definition reset_dag : DAG := NewDAG reset_workflow reset_order reset_order.

Lemma critical_path_reset :
  GetCriticalPath reset_dag reset_order (keys (dEdges reset_dag))
    (keys (in_degrees reset_dag reset_order (keys (dEdges reset_dag)))) =
    Some ["p"; "q"; "r"; "s"] ∧
  walk_to (dEdges reset_dag) "d" ["a"; "b"; "t"; "c"; "d"].
Proof.
  split; [vm_compute; reflexivity|].
  apply (wt_step _ "c" "d" ["a"; "b"; "t"; "c"]); [by left|].
  apply (wt_step _ "t" "c" ["a"; "b"; "t"]); [by left|].
  apply (wt_step _ "b" "t" ["a"; "b"]); [by left|].
  apply (wt_step _ "a" "b" ["a"]); [by left|]. constructor.
Qed.
