(* ===== verification/Validator.v ===== *)
(** pkg/contracts/workflow/validator.go: the validator behind saving and
    publishing a workflow: errors, warnings, and the execution order it
    computes. *)

From S2P Require Import Prelude GoValue Graph Workflow Dag.

(** ** Data *)

Definition ErrInvalidConnection := "invalid connection: node not found".
Definition ErrNoTriggerNode := "workflow must have at least one trigger node".
Definition ErrOrphanedNode := "workflow contains orphaned nodes".
Definition ErrDuplicateNodeID := "duplicate node ID found".

Record Validator := {
  vWorkflow : Workflow;
  vNodeMap : gmap string Node;
  vErrors : list string;
  vWarnings : list string
}.

Definition NewValidator (w : Workflow) : Validator :=
  {| vWorkflow := w; vNodeMap := ∅; vErrors := []; vWarnings := [] |}.

(** ** The checks *)

(** [buildNodeMap] continues the map of the validator, and stops at the first
    ID that is already there. *)
Fixpoint buildNodeMap (nodes : list Node) (m : gmap string Node) :
    option string * gmap string Node :=
  match nodes with
  | [] => (None, m)
  | node :: nodes' =>
      if bool_decide (is_Some (m !! nID node))
      then (Some (ErrDuplicateNodeID +:+ ": " +:+ nID node), m)
      else buildNodeMap nodes' (<[nID node := node]> m)
  end.

Definition is_trigger (n : Node) : bool :=
  bool_decide (nType n = NodeTypeTrigger) || bool_decide (nType n = NodeTypeWebhook).

Definition validateTriggerExists (w : Workflow) : option string :=
  if existsb is_trigger (wNodes w) then None else Some ErrNoTriggerNode.

(** The default ports are written into the loop's copy of the connection. *)
Definition validatePortCompatibility (source : Node) (conn : Connection) : option string :=
  let port := if bool_decide (cSourcePort conn = "") then "output" else cSourcePort conn in
  if bool_decide (nType source = NodeTypeSplit) && negb (bool_decide (port = "output"))
     && negb (bool_decide (port = "true")) && negb (bool_decide (port = "false"))
  then Some ("split node " +:+ nID source +:+ " has invalid output port: " +:+ port)
  else None.

(** [validateConnections]: the error, and the warnings added before it. *)
Fixpoint validateConnections (m : gmap string Node) (conns : list Connection) :
    option string * list string :=
  match conns with
  | [] => (None, [])
  | conn :: conns' =>
      match m !! cSource conn, m !! cTarget conn with
      | None, _ => (Some (ErrInvalidConnection +:+ ": source node '" +:+ cSource conn +:+ "' not found"), [])
      | _, None => (Some (ErrInvalidConnection +:+ ": target node '" +:+ cTarget conn +:+ "' not found"), [])
      | Some source, Some _ =>
          let '(err, warnings) := validateConnections m conns' in
          (err, match validatePortCompatibility source conn with
                | Some e => ("Connection " +:+ cID conn +:+ ": " +:+ e) :: warnings
                | None => warnings
                end)
      end
  end.

(** [validateNoCycles]; [ordN] orders the loop over the node map. *)
Definition validateNoCycles (w : Workflow) (ordN : list string) : option (option string) :=
  let g := connection_graph (wConnections w) in
  match cycle_roots (graph_fuel g ordN) g ordN ∅ ∅ with
  | None => None
  | Some true => Some (Some ErrWorkflowHasCycle)
  | Some false => Some None
  end.

Definition connected_ids (conns : list Connection) : gset string :=
  foldl (λ s c, {[cTarget c]} ∪ ({[cSource c]} ∪ s)) ∅ conns.

Definition validateNoOrphanedNodes (w : Workflow) (m : gmap string Node) (ordN : list string) :
    option string :=
  let connected := connected_ids (wConnections w) in
  let orphaned := filter (λ id,
    from_option is_trigger true (m !! id) = false ∧ id ∉ connected) ordN in
  if bool_decide (0 < length orphaned)
  then Some (ErrOrphanedNode +:+ ": nodes " +:+ fmt_slice orphaned +:+ " have no connections")
  else None.

(** The errors and warnings one node adds. *)
Definition missing_fields (what : string) (n : Node) (params : vmap) (fields : list string) :
    list string :=
  (λ f, what +:+ " node " +:+ nID n +:+ " missing '" +:+ f +:+ "' parameter") <$>
    filter (λ f, params !! f = None) fields.

Definition validateHTTPNode (n : Node) : list string * list string :=
  match nParameters n with
  | None => (["HTTP node " +:+ nID n +:+ " missing parameters"], [])
  | Some params =>
      (missing_fields "HTTP" n params ["url"],
       match params !! "method" with
       | Some (VStr method) =>
           if bool_decide (method ∈ ["GET"; "POST"; "PUT"; "DELETE"; "PATCH"]) then []
           else ["HTTP node " +:+ nID n +:+ " has non-standard method: " +:+ method]
       | _ => []
       end)
  end.

Definition validateDatabaseNode (n : Node) : list string :=
  match nParameters n with
  | None => ["Database node " +:+ nID n +:+ " missing parameters"]
  | Some params => missing_fields "Database" n params ["operation"; "table"]
  end.

Definition validateEmailNode (n : Node) : list string :=
  match nParameters n with
  | None => ["Email node " +:+ nID n +:+ " missing parameters"]
  | Some params => missing_fields "Email" n params ["to"; "subject"]
  end.

Definition validTypes : list string :=
  [NodeTypeTrigger; NodeTypeAction; NodeTypeCondition; NodeTypeLoop; NodeTypeMerge; NodeTypeSplit;
   NodeTypeWebhook; NodeTypeHTTPRequest; NodeTypeDatabase; NodeTypeCode; NodeTypeEmail;
   NodeTypeSlack].

(** One iteration of [validateNodeConfigurations]. *)
Definition validate_node (n : Node) : list string * list string :=
  let type_errors :=
    if bool_decide (nType n ∈ validTypes) then []
    else ["Node " +:+ nID n +:+ " has invalid type: " +:+ nType n] in
  let '(errors, warnings) :=
    if bool_decide (nType n = NodeTypeHTTPRequest) then validateHTTPNode n
    else if bool_decide (nType n = NodeTypeDatabase) then (validateDatabaseNode n, [])
    else if bool_decide (nType n = NodeTypeEmail) then (validateEmailNode n, [])
    else ([], []) in
  (type_errors ++ errors,
   warnings ++
   (if bool_decide (nTimeout n < 0)%Z
    then ["Node " +:+ nID n +:+ " has negative timeout: " +:+ pretty (nTimeout n)] else []) ++
   (if bool_decide (nRetryCount n < 0)%Z
    then ["Node " +:+ nID n +:+ " has negative retry count: " +:+ pretty (nRetryCount n)] else [])).

Definition validateNodeConfigurations (w : Workflow) : list string * list string :=
  (concat (fst ∘ validate_node <$> wNodes w), concat (snd ∘ validate_node <$> wNodes w)).

(** The warnings of [validateNodeDependencies]. *)
Definition incoming_sources (conns : list Connection) : gmap string (list string) :=
  foldl (λ m c, append_at m (cTarget c) (cSource c)) ∅ conns.

Definition dependency_warnings (incoming : gmap string (list string)) (id : string) (n : Node) :
    list string :=
  if is_trigger n then []
  else
    let k := length (get_slice incoming id) in
    (if bool_decide (k = 0) && negb (nDisabled n)
     then ["Node " +:+ id +:+ " (" +:+ nName n +:+ ") has no incoming connections"] else []) ++
    (if bool_decide (nType n = NodeTypeMerge) && bool_decide (k < 2)
     then ["Merge node " +:+ id +:+ " should have at least 2 inputs, has " +:+ pretty k] else []).

Definition validateNodeDependencies (w : Workflow) (m : gmap string Node) (ordN : list string) :
    list string :=
  let incoming := incoming_sources (wConnections w) in
  concat ((λ id, from_option (dependency_warnings incoming id) [] (m !! id)) <$> ordN).

(** ** Validation *)

Definition opt_list {A} (o : option A) : list A := from_option (λ x, [x]) [] o.

(** [Validate]; [ordC], [ordO] and [ordD] order the loops over the node map in
    the cycle, orphan and dependency checks. *)
Definition Validator_Validate (v : Validator) (ordC ordO ordD : list string) :
    option (Validator * option string) :=
  let w := vWorkflow v in
  match buildNodeMap (wNodes w) (vNodeMap v) with
  | (Some e, m) =>
      Some ({| vWorkflow := w; vNodeMap := m; vErrors := [e]; vWarnings := [] |}, Some e)
  | (None, m) =>
      let '(connErr, connWarnings) := validateConnections m (wConnections w) in
      match validateNoCycles w ordC with
      | None => None
      | Some cycleErr =>
          let '(nodeErrors, nodeWarnings) := validateNodeConfigurations w in
          let errors := opt_list (validateTriggerExists w) ++ opt_list connErr
                        ++ opt_list cycleErr ++ nodeErrors in
          let warnings := connWarnings ++ opt_list (validateNoOrphanedNodes w m ordO)
                          ++ nodeWarnings ++ validateNodeDependencies w m ordD in
          Some ({| vWorkflow := w; vNodeMap := m; vErrors := errors; vWarnings := warnings |},
                if bool_decide (0 < length errors)
                then Some ("validation failed with " +:+ pretty (length errors) +:+ " errors")
                else None)
      end
  end.

(** [GetTopologicalOrder] of the validator; [ordN] orders the loop that
    initialises the in-degrees, [ordI] the loop over them. *)
Definition validator_degrees (v : Validator) (ordN : list string) : gmap string Z :=
  foldl (λ m c, <[cTarget c := (get_int m (cTarget c) + 1)%Z]> m)
    (foldl (λ m id, <[id := 0%Z]> m) ∅ ordN) (wConnections (vWorkflow v)).
Definition Validator_GetTopologicalOrder (v : Validator) (ordN ordI : list string) :
    option (result (list string)) :=
  let g := connection_graph (wConnections (vWorkflow v)) in
  let inDegree := validator_degrees v ordN in
  let queue := filter (λ id, get_int inDegree id = 0%Z) ordI in
  match kahn (size inDegree) g queue inDegree [] with
  | None => None
  | Some order =>
      if bool_decide (length order ≠ size (vNodeMap v)) then Some (Err ErrWorkflowHasCycle)
      else Some (Ok order)
  end.

(** ** Specification *)

(** The parameters a node of each type must carry. *)
Definition required_fields (type : string) : option (list string) :=
  if bool_decide (type = NodeTypeHTTPRequest) then Some ["url"]
  else if bool_decide (type = NodeTypeDatabase) then Some ["operation"; "table"]
  else if bool_decide (type = NodeTypeEmail) then Some ["to"; "subject"]
  else None.

Definition configured (n : Node) : Prop :=
  nType n ∈ validTypes ∧
  ∀ fields, required_fields (nType n) = Some fields →
    ∃ params, nParameters n = Some params ∧ ∀ f, f ∈ fields → is_Some (params !! f).

(** The workflows the validator accepts. *)
Record valid_workflow (w : Workflow) : Prop := {
  vw_ids : NoDup (node_ids w);
  vw_trigger : ∃ n, n ∈ wNodes w ∧ nType n ∈ [NodeTypeTrigger; NodeTypeWebhook];
  vw_endpoints : ∀ c, c ∈ wConnections w → cSource c ∈ node_ids w ∧ cTarget c ∈ node_ids w;
  vw_acyclic : ∀ x, ¬ tc (conn_edge (wConnections w)) x x;
  vw_configured : Forall configured (wNodes w)
}.

(** ** Lemmas *)

Lemma buildNodeMap_spec nodes m :
  let '(err, m') := buildNodeMap nodes m in
  (err = None ↔ NoDup (nID <$> nodes) ∧ ∀ id, id ∈ nID <$> nodes → m !! id = None) ∧
  (err = None → m' = foldl (λ m n, <[nID n := n]> m) m nodes).
Proof.
  revert m. induction nodes as [|n nodes IH]; intros m; simpl.
  { split; [|done]. split; [|done]. intros _. split; [constructor|]. by intros id ?%elem_of_nil. }
  case_bool_decide as Hn.
  { split; [|done]. split; [done|]. intros [_ Hall]. rewrite Hall in Hn by left. by destruct Hn. }
  specialize (IH (<[nID n := n]> m)). destruct (buildNodeMap _ _) as [err m'].
  destruct IH as [IH1 IH2]. split; [|done]. rewrite IH1, NoDup_cons. setoid_rewrite elem_of_cons.
  apply eq_None_not_Some in Hn. split.
  - intros [Hnd Hall]. assert (nID n ∉ nID <$> nodes).
    { intros Hin. specialize (Hall _ Hin). by rewrite lookup_insert_eq in Hall. }
    split; [done|]. intros id [->|Hid]; [done|]. specialize (Hall id Hid).
    by apply lookup_insert_None in Hall as [? _].
  - intros [[Hni Hnd] Hall]. split; [done|]. intros id Hid. apply lookup_insert_None. split; [auto|].
    by intros <-.
Qed.

Lemma validateTriggerExists_none w :
  validateTriggerExists w = None ↔
  ∃ n, n ∈ wNodes w ∧ nType n ∈ [NodeTypeTrigger; NodeTypeWebhook].
Proof.
  unfold validateTriggerExists. destruct (existsb _ _) eqn:E.
  - split; [|done]. intros _. apply existsb_exists in E as (n & Hn%list_elem_of_In & Ht).
    exists n. split; [done|]. unfold is_trigger in Ht. rewrite orb_true_iff, !bool_decide_eq_true in Ht.
    set_solver.
  - split; [done|]. intros (n & Hn & Ht). exfalso.
    assert (existsb is_trigger (wNodes w) = true); [|congruence]. apply existsb_exists.
    exists n. split; [by apply list_elem_of_In|]. unfold is_trigger.
    rewrite orb_true_iff, !bool_decide_eq_true. set_solver.
Qed.

Lemma validateConnections_none m conns :
  (validateConnections m conns).1 = None ↔
  ∀ c, c ∈ conns → is_Some (m !! cSource c) ∧ is_Some (m !! cTarget c).
Proof.
  induction conns as [|c conns IH]; simpl; [set_solver|]. setoid_rewrite elem_of_cons.
  destruct (m !! cSource c) eqn:E1, (m !! cTarget c) eqn:E2; simpl;
    [|split; [done|]; intros H; destruct (H c) as [[? ?] [? ?]]; naive_solver..].
  destruct (validateConnections m conns) as [err warnings]. simpl in *. rewrite IH. naive_solver.
Qed.

Lemma missing_fields_nil what n params fields :
  missing_fields what n params fields = [] ↔ ∀ f, f ∈ fields → is_Some (params !! f).
Proof.
  unfold missing_fields. split.
  - intros H%fmap_nil_inv f Hf. destruct (params !! f) eqn:E; [eauto|].
    assert (f ∈ filter (λ f, params !! f = None) fields) as Hin by by apply list_elem_of_filter.
    rewrite H in Hin. by apply elem_of_nil in Hin.
  - intros H. destruct (filter _ _) as [|f l] eqn:E; [done|].
    assert (f ∈ filter (λ f, params !! f = None) fields) as Hin by (rewrite E; left).
    apply list_elem_of_filter in Hin as [Hf Hin]. destruct (H f Hin). congruence.
Qed.

Lemma parameters_ok (what msg : string) n fields :
  match nParameters n with None => [msg] | Some params => missing_fields what n params fields end = [] ↔
  ∃ params, nParameters n = Some params ∧ ∀ f, f ∈ fields → is_Some (params !! f).
Proof.
  destruct (nParameters n) as [params|]; [rewrite missing_fields_nil|]; naive_solver.
Qed.

Lemma validate_node_ok n : (validate_node n).1 = [] ↔ configured n.
Proof.
  unfold validate_node, configured, required_fields.
  assert (Htype : (if bool_decide (nType n ∈ validTypes) then []
    else ["Node " +:+ nID n +:+ " has invalid type: " +:+ nType n]) = [] ↔ nType n ∈ validTypes)
    by (case_bool_decide; naive_solver).
  set (te := if bool_decide (nType n ∈ validTypes) then _ else _) in *. clearbody te.
  assert (∀ errs : list string, te ++ errs = [] ↔ nType n ∈ validTypes ∧ errs = []) as Happ.
  { intros errs. rewrite <- Htype. destruct te; naive_solver. }
  case_bool_decide as H1; [|case_bool_decide as H2; [|case_bool_decide as H3]].
  - assert ((validateHTTPNode n).1 = match nParameters n with
      | None => ["HTTP node " +:+ nID n +:+ " missing parameters"]
      | Some params => missing_fields "HTTP" n params ["url"] end) as He
      by (unfold validateHTTPNode; by destruct (nParameters n)).
    destruct (validateHTTPNode n) as [errs ws]. simpl in He |- *.
    rewrite Happ, He, parameters_ok. naive_solver.
  - simpl. rewrite Happ. unfold validateDatabaseNode. rewrite parameters_ok. naive_solver.
  - simpl. rewrite Happ. unfold validateEmailNode. rewrite parameters_ok. naive_solver.
  - simpl. rewrite Happ. naive_solver.
Qed.

Lemma concat_nil_iff {A} (ls : list (list A)) : concat ls = [] ↔ Forall (λ l, l = []) ls.
Proof.
  induction ls as [|l ls IH]; simpl; [split; [constructor|done]|].
  rewrite Forall_cons, <- IH. destruct l; naive_solver.
Qed.

Lemma validateNodeConfigurations_ok w :
  (validateNodeConfigurations w).1 = [] ↔ Forall configured (wNodes w).
Proof.
  simpl. rewrite concat_nil_iff, Forall_fmap. apply Forall_iff. intros n. apply validate_node_ok.
Qed.

(** When the endpoints are nodes the search from all nodes finds every cycle. *)
Lemma validateNoCycles_spec w ordN :
  (∀ id, id ∈ ordN ↔ id ∈ node_ids w) →
  ∃ r, validateNoCycles w ordN = Some r ∧
    ((∀ c, c ∈ wConnections w → cSource c ∈ node_ids w ∧ cTarget c ∈ node_ids w) →
     r = None ↔ ∀ x, ¬ tc (conn_edge (wConnections w)) x x).
Proof.
  intros Hord. unfold validateNoCycles.
  destruct (cycle_roots_correct (connection_graph (wConnections w)) ordN) as (b & -> & Hb).
  assert ((∀ c, c ∈ wConnections w → cSource c ∈ node_ids w ∧ cTarget c ∈ node_ids w) →
    b = true ↔ ∃ x, tc (conn_edge (wConnections w)) x x) as Hc.
  { intros Hend. rewrite Hb. unfold cyclic_from. setoid_rewrite tc_edge_conn. split; [naive_solver|].
    intros (x & Hx). exists x, x. split_and!; [|done..]. apply Hord.
    apply tc_iff_edge_rtc in Hx as (y & (c & Hc & <- & _) & _). by apply Hend. }
  destruct b; eexists; (split; [done|]); intros Hend; specialize (Hc Hend).
  - split; [done|]. intros Hno. destruct (proj1 Hc eq_refl) as [x Hx]. by destruct (Hno x).
  - split; [|done]. intros _ x Hx. cut (false = true); [done|]. apply Hc. eauto.
Qed.

Lemma opt_list_nil {A} (o : option A) : opt_list o = [] ↔ o = None.
Proof. by destruct o. Qed.

(** [Validate] on any validator whose node map holds none of the IDs yet. *)
Lemma Validator_Validate_spec v ordC ordO ordD :
  let w := vWorkflow v in
  range_order (node_map (wNodes w)) ordC → vNodeMap v = ∅ →
  ∃ v' err, Validator_Validate v ordC ordO ordD = Some (v', err) ∧
    vWorkflow v' = w ∧ (err = None ↔ valid_workflow w) ∧ (err = None ↔ vErrors v' = []) ∧
    (err = None → vNodeMap v' = node_map (wNodes w)).
Proof.
  intros w Hord Hm0. unfold Validator_Validate. fold w.
  pose proof (buildNodeMap_spec (wNodes w) (vNodeMap v)) as Hb. rewrite Hm0 in *.
  destruct (buildNodeMap (wNodes w) ∅) as [[e|] m]; destruct Hb as [Hb Hm].
  { eexists _, _. split; [done|]. simpl. split_and!; try done. split; [done|]. intros [].
    apply Hb. split; [done|]. intros. apply lookup_empty. }
  specialize (Hm eq_refl). fold (node_map (wNodes w)) in Hm. subst m.
  destruct (validateNoCycles_spec w ordC) as (cyc & -> & Hcyc).
  { intros id. rewrite (range_order_elem _ _ _ Hord). apply node_map_lookup. }
  destruct (validateConnections _ _) as [connErr cw] eqn:Hconn.
  assert (connErr = None ↔ ∀ c, c ∈ wConnections w → cSource c ∈ node_ids w ∧ cTarget c ∈ node_ids w) as Hce.
  { change connErr with (connErr, cw).1. rewrite <- Hconn, validateConnections_none.
    by setoid_rewrite node_map_lookup. }
  pose proof (validateNodeConfigurations_ok w) as Hcfg.
  destruct (validateNodeConfigurations w) as [ne nw]. simpl in Hcfg.
  pose proof (validateTriggerExists_none w) as Htr.
  set (errors := opt_list _ ++ _).
  assert (errors = [] ↔ valid_workflow w) as Herr.
  { subst errors. rewrite !app_nil, !opt_list_nil, Hcfg, Htr, Hce. split.
    - intros (H1 & H2 & H3 & H4). split; try done; [by apply Hb|]. by apply Hcyc.
    - intros []. split_and!; try done. by apply Hcyc. }
  eexists _, _. split; [done|]. simpl. rewrite <- Herr.
  split_and!; [done|..]; case_bool_decide as Hlen; try done; destruct errors; simpl in *; (done || lia).
Qed.

(** ** The execution order *)

(** The DAG value the validator's search works on. *)
Definition validator_dag (v : Validator) : DAG :=
  {| dNodes := vNodeMap v; dEdges := connection_graph (wConnections (vWorkflow v));
     dStartNodes := []; dEndNodes := [] |}.

Lemma get_int_map_eq (m1 m2 : gmap string Z) :
  (∀ k, get_int m1 k = get_int m2 k) → (∀ k, k ∈ dom m1 ↔ k ∈ dom m2) → m1 = m2.
Proof.
  intros Hg Hd. apply map_eq. intros k. specialize (Hg k). specialize (Hd k).
  rewrite !elem_of_dom in Hd. unfold get_int in Hg.
  destruct (m1 !! k), (m2 !! k); simpl in *; [by subst| | |done].
  - by destruct (proj1 Hd ltac:(eauto)).
  - by destruct (proj2 Hd ltac:(eauto)).
Qed.

Lemma count_targets conns m :
  (∀ v, get_int (foldl (λ m c, <[cTarget c := (get_int m (cTarget c) + 1)%Z]> m) m conns) v =
        (get_int m v + occ v (cTarget <$> conns))%Z) ∧
  ∀ k, k ∈ dom (foldl (λ m c, <[cTarget c := (get_int m (cTarget c) + 1)%Z]> m) m conns) ↔
       k ∈ dom m ∨ k ∈ cTarget <$> conns.
Proof.
  revert m. induction conns as [|c conns IH]; intros m; cbn [foldl].
  { split; [intros v; unfold occ; simpl; lia|set_solver]. }
  destruct (IH (<[cTarget c := (get_int m (cTarget c) + 1)%Z]> m)) as [H1 H2]. split.
  - intros v. rewrite H1, get_int_insert, fmap_cons, occ_cons. destruct (decide (cTarget c = v)); subst; lia.
  - intros k. rewrite H2, dom_insert_L, fmap_cons. set_solver.
Qed.

(** Counting the edges source by source or connection by connection is the
    same. *)
Lemma occ_targets_filter v conns (P : Connection → Prop) `{∀ c, Decision (P c)} :
  (occ v (cTarget <$> filter P conns) + occ v (cTarget <$> filter (λ c, ¬ P c) conns))%Z =
  occ v (cTarget <$> conns).
Proof.
  induction conns as [|c conns IH]; [done|]. rewrite !filter_cons. rewrite fmap_cons, occ_cons.
  destruct (decide (P c)), (decide (¬ P c)); try tauto;
    rewrite fmap_cons, occ_cons; destruct (decide (cTarget c = v)); lia.
Qed.

Lemma remaining_targets conns ordE v :
  NoDup ordE →
  remaining (connection_graph conns) ordE [] v =
  occ v (cTarget <$> filter (λ c, cSource c ∈ ordE) conns).
Proof.
  intros Hnd. induction Hnd as [|u ordE Hu Hnd IH]; cbn [remaining foldr].
  { destruct (filter (λ c, cSource c ∈ []) conns) as [|c l] eqn:E; [done|].
    assert (c ∈ filter (λ c, cSource c ∈ []) conns) as Hc by (rewrite E; left).
    by apply list_elem_of_filter in Hc as [?%elem_of_nil _]. }
  fold (remaining (connection_graph conns) ordE [] v). rewrite IH.
  rewrite bool_decide_eq_false_2 by apply not_elem_of_nil. rewrite connection_graph_succs.
  rewrite <- (occ_targets_filter v (filter (λ c, cSource c ∈ u :: ordE) conns) (λ c, cSource c = u)).
  rewrite !list_filter_filter. f_equal; f_equal; f_equal; apply list_filter_iff; intros c; set_solver.
Qed.

Lemma validator_degrees_eq v ordN ordE :
  range_order (vNodeMap v) ordN → range_order (connection_graph (wConnections (vWorkflow v))) ordE →
  validator_degrees v ordN = in_degrees (validator_dag v) ordN ordE.
Proof.
  intros HN HE. unfold validator_degrees.
  destruct (count_targets (wConnections (vWorkflow v)) (foldl (λ m id, <[id := 0%Z]> m) ∅ ordN)) as [Hg Hd].
  assert (∀ c, c ∈ wConnections (vWorkflow v) → cSource c ∈ ordE) as Hsrc.
  { intros c Hc. apply (range_order_elem _ _ _ HE), elem_of_dom. eapply edge_dom.
    apply connection_graph_edge. by exists c. }
  apply get_int_map_eq; intros k.
  - rewrite Hg, in_degrees_get, zero_map_get by done. simpl.
    rewrite remaining_targets by by eapply range_order_nodup.
    assert (filter (λ c, cSource c ∈ ordE) (wConnections (vWorkflow v)) = wConnections (vWorkflow v)) as ->; [|lia].
    by apply filter_all.
  - rewrite Hd, (in_degrees_dom (validator_dag v) ordN ordE (keys _) HN HE (keys_range_order _)), zero_map_dom, dom_empty_L.
    rewrite (range_order_elem _ _ _ HN), <- elem_of_dom. simpl. setoid_rewrite connection_graph_edge.
    unfold conn_edge. rewrite list_elem_of_fmap. set_solver.
Qed.

(** The validator and the DAG compute the same order. *)
Lemma Validator_GetTopologicalOrder_dag v ordN ordI ordE :
  range_order (vNodeMap v) ordN → range_order (connection_graph (wConnections (vWorkflow v))) ordE →
  Validator_GetTopologicalOrder v ordN ordI = GetTopologicalOrder (validator_dag v) ordN ordE ordI.
Proof.
  intros HN HE. unfold Validator_GetTopologicalOrder, GetTopologicalOrder.
  by rewrite (validator_degrees_eq v ordN ordE).
Qed.

(** The validator always returns; on a fresh validator it reports success
    exactly on the valid workflows (distinct node IDs, a trigger or webhook,
    connections between existing nodes, no cycle, nodes of known types with
    their required parameters), and then no error; and after success
    [GetTopologicalOrder] returns all nodes in an order in which every
    connection points forward; whatever the iteration orders. *)
Lemma Validator_correct w ordC ordO ordD :
  range_order (node_map (wNodes w)) ordC →
  ∃ v err, Validator_Validate (NewValidator w) ordC ordO ordD = Some (v, err) ∧
    (err = None ↔ valid_workflow w) ∧ (err = None ↔ vErrors v = []) ∧
    (err = None → ∀ ordN ordI,
       range_order (node_map (wNodes w)) ordN → range_order (validator_degrees v ordN) ordI →
       ∃ l, Validator_GetTopologicalOrder v ordN ordI = Some (Ok l) ∧ l ≡ₚ ordN ∧
         ∀ l1 x l2 u, l = l1 ++ x :: l2 → conn_edge (wConnections w) u x → u ∈ l1).
Proof.
  intros HC. destruct (Validator_Validate_spec (NewValidator w) ordC ordO ordD HC eq_refl)
    as (v & err & Hv & Hw & Hok & Herr & Hm). simpl in *.
  exists v, err. split_and!; [done..|]. intros Hnone ordN ordI HN HI. specialize (Hm Hnone).
  apply Hok in Hnone as [_ _ Hend Hac _].
  set (g := connection_graph (wConnections w)).
  assert (range_order (vNodeMap v) ordN) as HN' by by rewrite Hm.
  pose proof (keys_range_order g) as HE.
  assert (range_order (connection_graph (wConnections (vWorkflow v))) (keys g)) as HE' by by rewrite Hw.
  rewrite (Validator_GetTopologicalOrder_dag v ordN ordI (keys g)) by done.
  rewrite (validator_degrees_eq v ordN (keys g)) in HI by done.
  destruct (GetTopologicalOrder_spec (validator_dag v) ordN (keys g) ordI HN' HE' HI) as (r & -> & Hr).
  { intros x y Hxy. simpl in *. rewrite Hw in Hxy. apply connection_graph_edge in Hxy as (c & Hc & <- & <-).
    rewrite Hm, !elem_of_dom, !node_map_lookup. by apply Hend. }
  simpl in Hr. rewrite Hw in Hr. destruct r as [l|e].
  - exists l. destruct Hr as (_ & Hp & Htopo). split_and!; [done..|].
    intros l1 x l2 u Hl Hu. eapply Htopo; [done|]. by apply connection_graph_edge.
  - destruct Hr as (_ & x & Hx). destruct (Hac x). by apply tc_edge_conn.
Qed.

Lemma Validator_correct_witness :
  ∃ v, Validator_Validate (NewValidator demo_workflow) (keys (node_map (wNodes demo_workflow))) [] [] =
    Some (v, None) ∧ valid_workflow demo_workflow.
Proof.
  destruct (Validator_correct demo_workflow (keys (node_map (wNodes demo_workflow))) [] []
    (keys_range_order _)) as (v & err & Hv & Hok & _).
  assert (err = None) as ->.
  { apply (f_equal (fmap snd)) in Hv. vm_compute in Hv. by injection Hv as <-. }
  exists v. split; [exact Hv|by apply Hok].
Defined.

(** [Validate] clears the messages of an earlier run but not its node map, so
    a second run on the same validator reports the first node as a
    duplicate. *)
Lemma revalidation_fails w ordC ordO ordD ordC' ordO' ordD' v n nodes :
  range_order (node_map (wNodes w)) ordC → wNodes w = n :: nodes →
  Validator_Validate (NewValidator w) ordC ordO ordD = Some (v, None) →
  ∃ v', Validator_Validate v ordC' ordO' ordD' =
    Some (v', Some (ErrDuplicateNodeID +:+ ": " +:+ nID n)).
Proof.
  intros HC Hn Hv.
  destruct (Validator_Validate_spec (NewValidator w) ordC ordO ordD HC eq_refl)
    as (v1 & err & Hv1 & Hw & _ & _ & Hm). simpl in *.
  rewrite Hv in Hv1. injection Hv1 as <- <-. unfold Validator_Validate. rewrite Hw, (Hm eq_refl), Hn.
  cbn [buildNodeMap]. rewrite bool_decide_eq_true_2; [eauto|].
  apply node_map_lookup. left.
Qed.
