(* ===== verification/StateMachine.v ===== *)
(** internal/execution/app/orchestrator/state_machine.go: the state machine
    of one workflow execution, with its transition history, timestamps and
    error record. *)

From S2P Require Import Prelude GoValue.

(** ** Data *)

(** [ExecutionState] and [ExecutionEvent] are Go string types. *)
Definition StatePending := "pending".
Definition StateQueued := "queued".
Definition StateRunning := "running".
Definition StatePaused := "paused".
Definition StateSuccess := "success".
Definition StateFailed := "failed".
Definition StateCancelled := "cancelled".
Definition StateTimeout := "timeout".

Definition EventStart := "start".
Definition EventPause := "pause".
Definition EventResume := "resume".
Definition EventComplete := "complete".
Definition EventFail := "fail".
Definition EventCancel := "cancel".
Definition EventTimeout := "timeout".
Definition EventQueue := "queue".

Record StateTransition := {
  trFrom : string;
  trTo : string;
  trEvent : string;
  trTimestamp : Z;
  trMetadata : option vmap
}.

Record ExecutionErrorDetail := {
  edNodeID : string;
  edError : string;
  edTimestamp : Z;
  edRetryable : bool
}.

Record ExecutionContext := {
  ctxExecutionID : string;
  ctxVariables : option vmap;
  ctxNodeOutputs : gmap string (option vmap);
  ctxErrors : list ExecutionErrorDetail;
  ctxStartTime : Z;
  ctxMetadata : gmap string string
}.

Record ExecutionError := {
  eeCode : string;
  eeMessage : string;
  eeNodeID : string;
  eeDetails : option vmap;
  eeTimestamp : Z;
  eeRetryable : bool
}.

Record ExecutionStateMachine := {
  smID : string;
  smWorkflowID : string;
  smState : string;
  smContext : option ExecutionContext;
  smHistory : list StateTransition;
  smCreatedAt : Z;
  smUpdatedAt : Z;
  smHasBus : bool;                  (* [eventBus != nil] *)
  smStartedAt : option Z;
  smCompletedAt : option Z;
  smPausedAt : option Z;
  smError : option ExecutionError;
  smMetadata : vmap
}.

(** The payload of the published ExecutionStateChanged event. *)
Record StateChangedEvent := {
  scAggregateID : string;
  scWorkflowID : string;
  scFrom : string;
  scTo : string;
  scEvent : string;
  scMetadata : option vmap
}.

Definition NewExecutionStateMachine (id workflowID : string)
    (context : option ExecutionContext) (hasBus : bool) (now : Z) : ExecutionStateMachine :=
  {| smID := id; smWorkflowID := workflowID; smState := StatePending;
     smContext := context; smHistory := []; smCreatedAt := now; smUpdatedAt := now;
     smHasBus := hasBus; smStartedAt := None; smCompletedAt := None; smPausedAt := None;
     smError := None; smMetadata := ∅ |}.

(** ** Transitions *)

Definition validTransitions : gmap string (gmap string string) :=
  list_to_map [
    (StatePending, list_to_map [
      (EventQueue, StateQueued); (EventStart, StateRunning); (EventCancel, StateCancelled)]);
    (StateQueued, list_to_map [
      (EventStart, StateRunning); (EventCancel, StateCancelled); (EventTimeout, StateTimeout)]);
    (StateRunning, list_to_map [
      (EventPause, StatePaused); (EventComplete, StateSuccess); (EventFail, StateFailed);
      (EventCancel, StateCancelled); (EventTimeout, StateTimeout)]);
    (StatePaused, list_to_map [
      (EventResume, StateRunning); (EventCancel, StateCancelled); (EventTimeout, StateTimeout)]);
    (StateSuccess, ∅);
    (StateFailed, list_to_map [(EventStart, StateRunning)]);
    (StateCancelled, ∅);
    (StateTimeout, ∅)].

Definition sm_isRetryable (metadata : option vmap) : bool :=
  match metadata with
  | None => false
  | Some m =>
      match get_bool m "retryable" with
      | Some retryable => retryable
      | None =>
          match get_string m "code" with
          | Some code =>
              bool_decide (code = "TIMEOUT") || bool_decide (code = "RATE_LIMIT")
              || bool_decide (code = "TEMPORARY_FAILURE")
          | None => false
          end
      end
  end.

Definition is_final_state (s : string) : bool :=
  bool_decide (s = StateSuccess) || bool_decide (s = StateFailed)
  || bool_decide (s = StateCancelled) || bool_decide (s = StateTimeout).

(** The error record of a failing transition; the previous one is kept when
    the metadata carries no error text. *)
Definition fail_error (sm : ExecutionStateMachine) (event : string) (metadata : option vmap)
    (now : Z) : option ExecutionError :=
  if bool_decide (event = EventFail) then
    match metadata with
    | Some m =>
        match get_string m "error" with
        | Some errMsg =>
            Some {| eeCode := "EXECUTION_FAILED"; eeMessage := errMsg; eeNodeID := "";
                    eeDetails := metadata; eeTimestamp := now;
                    eeRetryable := sm_isRetryable metadata |}
        | None => smError sm
        end
    | None => smError sm
    end
  else smError sm.

(** [Transition]: the three times are the three calls of [time.Now] (history
    entry, UpdatedAt, state timestamps).  Returns the machine, the error, and
    the event handed to the bus, if any. *)
Definition Transition (sm : ExecutionStateMachine) (event : string) (metadata : option vmap)
    (tHist tUpd now : Z) :
    ExecutionStateMachine * result unit * option StateChangedEvent :=
  let currentState := smState sm in
  match validTransitions !! currentState with
  | None => (sm, Err ("no transitions defined for state " +:+ currentState), None)
  | Some transitions =>
      match transitions !! event with
      | None =>
          (sm, Err ("invalid transition: " +:+ currentState +:+ " ->  (event: "
                    +:+ event +:+ ")"), None)
      | Some newState =>
          let sm' :=
            {| smID := smID sm; smWorkflowID := smWorkflowID sm; smState := newState;
               smContext := smContext sm;
               smHistory := smHistory sm ++
                 [{| trFrom := currentState; trTo := newState; trEvent := event;
                     trTimestamp := tHist; trMetadata := metadata |}];
               smCreatedAt := smCreatedAt sm; smUpdatedAt := tUpd; smHasBus := smHasBus sm;
               smStartedAt :=
                 if bool_decide (newState = StateRunning)
                 then match smStartedAt sm with None => Some now | s => s end
                 else smStartedAt sm;
               smCompletedAt :=
                 if is_final_state newState then Some now else smCompletedAt sm;
               smPausedAt :=
                 if bool_decide (newState = StatePaused) then Some now else smPausedAt sm;
               smError := fail_error sm event metadata now;
               smMetadata := smMetadata sm |} in
          (sm', Ok tt,
           if smHasBus sm then
             Some {| scAggregateID := smID sm; scWorkflowID := smWorkflowID sm;
                     scFrom := currentState; scTo := newState; scEvent := event;
                     scMetadata := metadata |}
           else None)
      end
  end.

(** ** Queries *)

Definition CanTransition (sm : ExecutionStateMachine) (event : string) : bool :=
  match validTransitions !! smState sm with
  | None => false
  | Some transitions => match transitions !! event with Some _ => true | None => false end
  end.

Definition IsTerminal (sm : ExecutionStateMachine) : bool := is_final_state (smState sm).
Definition IsRunning (sm : ExecutionStateMachine) : bool := bool_decide (smState sm = StateRunning).
Definition IsPaused (sm : ExecutionStateMachine) : bool := bool_decide (smState sm = StatePaused).

Definition GetDuration (sm : ExecutionStateMachine) (now : Z) : Z :=
  match smStartedAt sm with
  | None => 0
  | Some started =>
      match smCompletedAt sm with
      | Some completed => completed - started
      | None => now - started
      end
  end%Z.

(** [UpdateContext] runs [updateFunc] on the context and stamps UpdatedAt. *)
Definition UpdateContext (sm : ExecutionStateMachine)
    (updateFunc : ExecutionContext → ExecutionContext) (now : Z) : ExecutionStateMachine :=
  match smContext sm with
  | None => sm
  | Some c =>
      {| smID := smID sm; smWorkflowID := smWorkflowID sm; smState := smState sm;
         smContext := Some (updateFunc c); smHistory := smHistory sm;
         smCreatedAt := smCreatedAt sm; smUpdatedAt := now; smHasBus := smHasBus sm;
         smStartedAt := smStartedAt sm; smCompletedAt := smCompletedAt sm;
         smPausedAt := smPausedAt sm; smError := smError sm; smMetadata := smMetadata sm |}
  end.

(** The fields of [workflow.WorkflowExecution] that [ToWorkflowExecution] sets;
    a zero [time.Time] start is [None]. *)
Record WorkflowExecutionView := {
  veID : string;
  veWorkflowID : string;
  veStatus : string;
  veCreatedAt : Z;
  veStartedAt : option Z;
  veFinishedAt : option Z;
  veExecutionTime : Z;              (* milliseconds *)
  veError : string;
  veData : option vmap
}.

(** [Duration.Milliseconds]: integer division truncating towards zero. *)
Definition milliseconds (d : Z) : Z := Z.quot d 1000000.

Definition ToWorkflowExecution (sm : ExecutionStateMachine) : WorkflowExecutionView :=
  {| veID := smID sm;
     veWorkflowID := smWorkflowID sm;
     veStatus := smState sm;
     veCreatedAt := smCreatedAt sm;
     veStartedAt := smStartedAt sm;
     veFinishedAt := smCompletedAt sm;
     veExecutionTime :=
       match smCompletedAt sm, smStartedAt sm with
       | Some c, Some s => milliseconds (c - s)
       | _, _ => 0
       end;
     veError := match smError sm with Some e => eeMessage e | None => "" end;
     veData := match smContext sm with Some c => ctxVariables c | None => Some ∅ end |}.

(** ** The transition table as a relation *)

Definition next_state (s e : string) : option string :=
  match validTransitions !! s with Some ts => ts !! e | None => None end.

(** Its fifteen entries. *)
Definition transition_table : list (string * string * string) :=
  [(StatePending, EventQueue, StateQueued); (StatePending, EventStart, StateRunning);
   (StatePending, EventCancel, StateCancelled);
   (StateQueued, EventStart, StateRunning); (StateQueued, EventCancel, StateCancelled);
   (StateQueued, EventTimeout, StateTimeout);
   (StateRunning, EventPause, StatePaused); (StateRunning, EventComplete, StateSuccess);
   (StateRunning, EventFail, StateFailed); (StateRunning, EventCancel, StateCancelled);
   (StateRunning, EventTimeout, StateTimeout);
   (StatePaused, EventResume, StateRunning); (StatePaused, EventCancel, StateCancelled);
   (StatePaused, EventTimeout, StateTimeout);
   (StateFailed, EventStart, StateRunning)].

Ltac table_cases H :=
  repeat (apply elem_of_cons in H; destruct H as [H|H]); [..|by apply elem_of_nil in H].

Lemma next_state_table s e s' :
  next_state s e = Some s' ↔ (s, e, s') ∈ transition_table.
Proof.
  split.
  - unfold next_state. destruct (validTransitions !! s) as [ts|] eqn:E; [|done].
    apply elem_of_list_to_map_2 in E. intros Hs.
    table_cases E; simplify_eq; try (by rewrite lookup_empty in Hs);
      apply elem_of_list_to_map_2 in Hs; table_cases Hs; simplify_eq; set_solver.
  - intros H. table_cases H; simplify_eq; vm_compute; reflexivity.
Qed.

(** A successful or rejected [Transition] in terms of the table. *)
Lemma Transition_next sm event md t1 t2 t3 sm' r ev :
  Transition sm event md t1 t2 t3 = (sm', r, ev) →
  match next_state (smState sm) event with
  | None => sm' = sm ∧ is_ok r = false ∧ ev = None
  | Some s' => r = Ok tt ∧ smState sm' = s' ∧
      smHistory sm' = smHistory sm ++
        [{| trFrom := smState sm; trTo := s'; trEvent := event;
            trTimestamp := t1; trMetadata := md |}] ∧
      smStartedAt sm' = (if bool_decide (s' = StateRunning)
                         then match smStartedAt sm with None => Some t3 | s => s end
                         else smStartedAt sm) ∧
      smCompletedAt sm' = (if is_final_state s' then Some t3 else smCompletedAt sm) ∧
      (ev = None ↔ smHasBus sm = false)
  end.
Proof.
  unfold Transition, next_state. intros H.
  destruct (validTransitions !! smState sm) as [ts|]; [|by simplify_eq].
  destruct (ts !! event) as [s'|]; simplify_eq; [|done]. simpl.
  split_and!; try done. by destruct (smHasBus sm).
Qed.

(** ** Runs of the machine *)

(** One call on the machine, under a clock that does not run backwards: the
    clock readings of the call lie between the old and the new clock value. *)
Inductive sm_step : ExecutionStateMachine * Z → ExecutionStateMachine * Z → Prop :=
| sm_transition sm c event md t1 t2 t3 sm' r ev :
    (c ≤ t1)%Z → (t1 ≤ t2)%Z → (t2 ≤ t3)%Z →
    Transition sm event md t1 t2 t3 = (sm', r, ev) →
    sm_step (sm, c) (sm', t3)
| sm_update sm c f t :
    (c ≤ t)%Z → sm_step (sm, c) (UpdateContext sm f t, t).

(** The history links [s] to [s'] through entries of the table. *)
Fixpoint linked (s : string) (h : list StateTransition) (s' : string) : Prop :=
  match h with
  | [] => s = s'
  | tr :: h' => trFrom tr = s ∧ next_state s (trEvent tr) = Some (trTo tr) ∧ linked (trTo tr) h' s'
  end.

Record sm_inv (sm : ExecutionStateMachine) (clock : Z) : Prop := {
  inv_linked : linked StatePending (smHistory sm) (smState sm);
  inv_started : smState sm ∈ [StateRunning; StatePaused; StateSuccess; StateFailed] →
                is_Some (smStartedAt sm);
  inv_completed : is_final_state (smState sm) = true → is_Some (smCompletedAt sm);
  inv_early : is_Some (smCompletedAt sm) → smStartedAt sm = None →
              smState sm ∈ [StateCancelled; StateTimeout];
  inv_clock : ∀ t, smStartedAt sm = Some t ∨ smCompletedAt sm = Some t → (t ≤ clock)%Z;
  inv_order : ∀ s c, smStartedAt sm = Some s → smCompletedAt sm = Some c → (s ≤ c)%Z
}.

Lemma linked_snoc s h s' tr :
  linked s h s' → trFrom tr = s' → next_state s' (trEvent tr) = Some (trTo tr) →
  linked s (h ++ [tr]) (trTo tr).
Proof.
  revert s. induction h as [|tr' h IH]; intros s; simpl; [by intros -> -> ->|].
  intros (? & ? & ?) ? ?. auto.
Qed.

Lemma sm_inv_clock sm c c' : (c ≤ c')%Z → sm_inv sm c → sm_inv sm c'.
Proof. intros Hc []. split; try done. intros t Ht. etrans; [by apply inv_clock0|done]. Qed.

(** The facts of the table the invariant rests on: success, cancelled and
    timeout have no successor; paused, success and failed are entered from
    running only. *)
Lemma next_state_facts s e s' :
  next_state s e = Some s' →
  (s ∉ [StateSuccess; StateCancelled; StateTimeout]) ∧
  (s' ∈ [StatePaused; StateSuccess; StateFailed] → s = StateRunning) ∧
  (is_final_state s' = true → s' ≠ StateRunning) ∧
  (is_final_state s' = true → s' ∉ [StateCancelled; StateTimeout] → s = StateRunning).
Proof.
  intros H%next_state_table.
  table_cases H; simplify_eq; split_and!; try done; try (intros Hx; table_cases Hx; done);
    by intros _ Hn; destruct Hn; set_solver.
Qed.

Lemma sm_inv_transition sm c event md t1 t2 t3 sm' r ev :
  (c ≤ t3)%Z → Transition sm event md t1 t2 t3 = (sm', r, ev) → sm_inv sm c → sm_inv sm' t3.
Proof.
  intros H3 HT Hinv. apply Transition_next in HT.
  destruct (next_state (smState sm) event) as [s'|] eqn:Hn.
  2:{ destruct HT as (-> & _ & _). by apply (sm_inv_clock _ c). }
  destruct HT as (_ & Hst & Hh & Hs & Hc & _). destruct Hinv as [Hl Hst0 Hco0 He Hck Ho].
  pose proof (next_state_facts _ _ _ Hn) as (Hsrc & Hrun & Hfr & Hfin). rewrite <- Hst in *.
  assert (Hrs : smState sm = StateRunning → is_Some (smStartedAt sm)) by (intros Hr; apply Hst0; rewrite Hr; left).
  assert (Hlate : is_Some (smCompletedAt sm) → is_Some (smStartedAt sm)).
  { intros Hsome. destruct (smStartedAt sm) eqn:E; [eauto|]. specialize (He Hsome eq_refl). set_solver. }
  split.
  - rewrite Hh. by apply (linked_snoc _ _ (smState sm) (Build_StateTransition _ _ _ _ _)).
  - intros Hin. rewrite Hs. case_bool_decide; [by destruct (smStartedAt sm); eauto|].
    apply Hrs, Hrun. set_solver.
  - intros Hf. rewrite Hc, Hf. eauto.
  - rewrite Hc, Hs. destruct (is_final_state (smState sm')) eqn:Hf.
    + intros _ Hnone. destruct (decide (smState sm' ∈ [StateCancelled; StateTimeout])) as [|Hno]; [done|].
      rewrite bool_decide_eq_false_2 in Hnone by auto.
      destruct (Hrs (Hfin eq_refl Hno)). congruence.
    + intros Hsome%Hlate. destruct Hsome as [? ->]. by case_bool_decide.
  - assert (Hck' : ∀ t, smStartedAt sm = Some t ∨ smCompletedAt sm = Some t → (t ≤ t3)%Z)
      by (intros t Ht; etrans; [by apply Hck|done]).
    intros t [Ht|Ht].
    + rewrite Hs in Ht. case_bool_decide; [destruct (smStartedAt sm) eqn:E; simplify_eq; [|done]|];
        apply Hck'; auto.
    + rewrite Hc in Ht. destruct (is_final_state _); [by simplify_eq|]. apply Hck'. auto.
  - intros s0 c0. rewrite Hc, Hs. destruct (is_final_state (smState sm')) eqn:Hf.
    + rewrite bool_decide_eq_false_2 by auto. intros Hs0 [= <-].
      etrans; [apply Hck; by left|done].
    + intros Hs0 Hc0. apply Ho; [|done]. destruct (Hlate (ex_intro _ _ Hc0)) as [s1 Hs1].
      rewrite Hs1 in *. by case_bool_decide.
Qed.

Lemma sm_inv_step x y : sm_step x y → sm_inv x.1 x.2 → sm_inv y.1 y.2.
Proof.
  intros [sm c event md t1 t2 t3 sm' r ev H1 H2 H3 HT|sm c f t Hc] Hinv; simpl in *.
  - eapply sm_inv_transition; [|done..]. lia.
  - apply (sm_inv_clock _ _ t) in Hinv; [|done]. unfold UpdateContext.
    destruct (smContext sm); [|done]. by destruct Hinv; split.
Qed.

Lemma sm_inv_init id wid ctx bus now : sm_inv (NewExecutionStateMachine id wid ctx bus now) now.
Proof.
  split; simpl; try done.
  - intros Hin. table_cases Hin; done.
  - intros t [?|?]; done.
Qed.

Lemma sm_inv_reachable id wid ctx bus now sm c :
  rtc sm_step (NewExecutionStateMachine id wid ctx bus now, now) (sm, c) → sm_inv sm c.
Proof.
  intros Hr. apply (rtc_preserve _ (λ x, sm_inv x.1 x.2) _ _ sm_inv_step) in Hr; [done|].
  apply sm_inv_init.
Qed.

(** Success, cancelled and timeout accept no event. *)
Lemma sink_next s e : s ∈ [StateSuccess; StateCancelled; StateTimeout] → next_state s e = None.
Proof.
  intros Hs. destruct (next_state s e) eqn:E; [|done].
  by apply next_state_facts in E as [? _].
Qed.

Lemma sm_step_sink x y :
  sm_step x y → smState x.1 ∈ [StateSuccess; StateCancelled; StateTimeout] →
  smState y.1 = smState x.1 ∧ smHistory y.1 = smHistory x.1 ∧
  smCompletedAt y.1 = smCompletedAt x.1.
Proof.
  intros [sm c event md t1 t2 t3 sm' r ev _ _ _ HT|sm c f t _] Hs; simpl in *.
  - apply Transition_next in HT. rewrite (sink_next _ _ Hs) in HT. by destruct HT as [-> _].
  - unfold UpdateContext. by destruct (smContext sm).
Qed.

(** ** Properties *)

(** C13. For every sequence of calls on a fresh machine, under a clock that
    does not run backwards: the recorded history is a chain of table entries
    leading from pending to the current state; a machine that has run has a
    start time, one in a final state has a completion time; and the duration
    reported is never negative. *)
Theorem state_machine_invariant id wid ctx bus now sm clock :
  rtc sm_step (NewExecutionStateMachine id wid ctx bus now, now) (sm, clock) →
  linked StatePending (smHistory sm) (smState sm) ∧
  (smState sm ∈ [StateRunning; StatePaused; StateSuccess; StateFailed] →
    is_Some (smStartedAt sm)) ∧
  (IsTerminal sm = true → is_Some (veFinishedAt (ToWorkflowExecution sm))) ∧
  (0 ≤ GetDuration sm clock)%Z ∧ (0 ≤ veExecutionTime (ToWorkflowExecution sm))%Z.
Proof.
  intros [Hl Hs Hc He Hck Ho]%sm_inv_reachable. split_and!; [done..| |].
  - unfold GetDuration. destruct (smStartedAt sm) as [s|]; [|done].
    destruct (smCompletedAt sm) as [c|].
    + specialize (Ho _ _ eq_refl eq_refl). lia.
    + specialize (Hck s (or_introl eq_refl)). lia.
  - simpl. destruct (smCompletedAt sm) as [c|]; [|done].
    destruct (smStartedAt sm) as [s|]; [|done].
    specialize (Ho _ _ eq_refl eq_refl). apply Z.quot_pos; lia.
Qed.

(** A machine queued at 1 and started at 2. *)
Definition demo_machine : ExecutionStateMachine :=
  let sm0 := NewExecutionStateMachine "e" "w" None true 0 in
  let sm1 := (Transition sm0 EventQueue None 1 1 1).1.1 in
  (Transition sm1 EventStart None 2 2 2).1.1.

Lemma state_machine_invariant_witness : linked StatePending (smHistory demo_machine) StateRunning.
Proof.
  refine (proj1 (state_machine_invariant "e" "w" None true 0 demo_machine 2 _)).
  eapply rtc_l.
  { eapply (sm_transition _ _ EventQueue None 1 1 1); [lia..|]. vm_compute. reflexivity. }
  eapply rtc_l.
  { eapply (sm_transition _ _ EventStart None 2 2 2); [lia..|]. vm_compute. reflexivity. }
  apply rtc_refl.
Defined.

(** [CanTransition] predicts [Transition]: the call succeeds exactly when
    the query says so; a rejected call changes nothing and publishes nothing;
    an accepted one moves to the table's target, appends exactly one history
    entry, and publishes exactly when a bus is configured. *)
Lemma Transition_correct sm event md t1 t2 t3 :
  let '(sm', r, ev) := Transition sm event md t1 t2 t3 in
  (r = Ok tt ↔ CanTransition sm event = true) ∧
  (CanTransition sm event = false → sm' = sm ∧ ev = None) ∧
  (CanTransition sm event = true →
     next_state (smState sm) event = Some (smState sm') ∧
     (∃ tr, smHistory sm' = smHistory sm ++ [tr] ∧
        trFrom tr = smState sm ∧ trTo tr = smState sm' ∧ trEvent tr = event) ∧
     (is_Some ev ↔ smHasBus sm = true)).
Proof.
  destruct (Transition sm event md t1 t2 t3) as [[sm' r] ev] eqn:E.
  apply Transition_next in E.
  assert (CanTransition sm event = bool_decide (is_Some (next_state (smState sm) event))) as ->.
  { unfold CanTransition, next_state. destruct (validTransitions !! _) as [ts|]; [|done].
    by destruct (ts !! event). }
  destruct (next_state (smState sm) event) as [s'|].
  - destruct E as (-> & <- & Hh & _ & _ & Hev). rewrite bool_decide_eq_true_2 by eauto.
    split_and!; [done..|]. intros _. split_and!; [done| |].
    + eexists. split; [exact Hh|done].
    + rewrite <- not_eq_None_Some, Hev. by destruct (smHasBus sm).
  - destruct E as (-> & Hr & ->). rewrite bool_decide_eq_false_2 by (by intros []).
    split_and!; [by destruct r|done..].
Qed.

(** Success, cancelled and timeout are final: whatever is called on the
    machine afterwards, its state, history and completion time stay as they
    are. *)
Lemma final_states_absorbing sm c sm' c' :
  smState sm ∈ [StateSuccess; StateCancelled; StateTimeout] →
  rtc sm_step (sm, c) (sm', c') →
  smState sm' = smState sm ∧ smHistory sm' = smHistory sm ∧ smCompletedAt sm' = smCompletedAt sm.
Proof.
  intros Hs Hr. change sm with (sm, c).1 in Hs |- *. change sm' with (sm', c').1.
  revert Hs. induction Hr as [x|x y z Hxy Hyz IH]; intros Hs; [done|].
  destruct (sm_step_sink _ _ Hxy Hs) as (H1 & H2 & H3).
  destruct IH as (? & ? & ?); [congruence|]. split_and!; congruence.
Qed.

Lemma final_states_absorbing_witness :
  let sm := (Transition demo_machine EventComplete None 3 3 3).1.1 in
  smState (Transition sm EventStart None 4 4 4).1.1 = StateSuccess.
Proof.
  intros sm. refine (proj1 (final_states_absorbing sm 3 _ 4 _ _)).
  - vm_compute. apply list_elem_of_here.
  - apply rtc_once. eapply (sm_transition _ _ EventStart None 4 4 4); [lia..|].
    vm_compute. reflexivity.
Defined.

(** A failed execution can be started again, and then runs with the
    completion time of the failed run still set: until the next final state
    its duration is the failed run's, whatever the clock says. *)
Lemma restart_keeps_completion sm md t1 t2 t3 clock :
  smState sm = StateFailed → is_Some (smStartedAt sm) →
  let sm' := (Transition sm EventStart md t1 t2 t3).1.1 in
  IsTerminal sm = true ∧ IsRunning sm' = true ∧
  smCompletedAt sm' = smCompletedAt sm ∧ smError sm' = smError sm ∧
  (is_Some (smCompletedAt sm) → GetDuration sm' clock = GetDuration sm t3).
Proof.
  intros Hf [s Hs]. unfold Transition, IsTerminal. rewrite Hf. simpl.
  split_and!; try done. intros [c Hc]. unfold GetDuration. simpl. by rewrite Hs, Hc.
Qed.

Lemma restart_keeps_completion_witness :
  let sm := (Transition demo_machine EventFail None 5 5 5).1.1 in
  GetDuration (Transition sm EventStart None 7 7 7).1.1 1000 = 3%Z.
Proof.
  intros sm.
  destruct (restart_keeps_completion sm None 7 7 7 1000) as (_ & _ & _ & _ & H).
  - vm_compute. reflexivity.
  - exists 2%Z. vm_compute. reflexivity.
  - refine (eq_trans (H _) _); [exists 5%Z|]; vm_compute; reflexivity.
Defined.
