(* ===== verification/Orchestrator.v ===== *)
(** internal/execution/app/orchestrator/orchestrator.go: running one workflow
    execution (node traversal, node execution with retry, merging of outputs)
    and the table of pending node requests. *)

From S2P Require Import Prelude GoValue Graph Workflow StateMachine.

(** ** Data *)

Definition ExecutionRunning := "running".
Definition ExecutionCompleted := "completed".
Definition ExecutionFailed := "failed".
Definition NodeExecutionRunning := "running".
Definition NodeExecutionCompleted := "completed".
Definition NodeExecutionFailed := "failed".

Record WorkflowExecution := {
  weID : string;
  weWorkflowID : string;
  weVersion : Z;
  weStatus : string;
  weStartedAt : Z;
  weFinishedAt : option Z;
  weExecutionTime : Z;
  weData : option vmap;
  weError : string;
  weCreatedAt : Z
}.

Record NodeExecution := {
  neID : string;
  neExecutionID : string;
  neNodeID : string;
  neStatus : string;
  neStartedAt : Z;
  neFinishedAt : option Z;
  neInputData : option vmap;
  neOutputData : option vmap;
  neError : string;
  neRetryCount : Z
}.

(** What the code hands to the repository and to the event bus, as values at
    the time of the call. *)
Inductive effect : Type :=
| CreateExecution (e : WorkflowExecution)
| UpdateExecution (e : WorkflowExecution)
| CreateNodeExecution (n : NodeExecution)
| UpdateNodeExecution (n : NodeExecution)
| Publish (type aggregateID : string) (payload : vmap)
| PublishStateChanged (e : StateChangedEvent).

(** The outcome of one request to the executor service. *)
Inductive send_outcome : Type :=
| SendPublishError (e : string)
| SendResponse (result : option vmap)
| SendCancelled (e : string)
| SendTimeout.

(** The world around one execution.  [envDone] is the cancellation check of
    the [n]-th loop iteration and [envErrorTime] the clock there; the others
    are read by the [n]-th attempt to execute a node. *)
Record Env := {
  envDone : nat → bool;
  envErrorTime : nat → Z;
  envUUID : nat → string;
  envRequestID : nat → string;
  envStartTime : nat → Z;
  envFinishTime : nat → Z;
  envCreate : nat → option string;   (* error of CreateNodeExecution *)
  envSend : nat → send_outcome
}.

(** The output of a node: trigger, condition and loop nodes return the
    context's Variables map itself, so their output stays shared with it. *)
Inductive node_output : Type :=
| SharedVariables
| OwnMap (m : option vmap).

Record run_state := {
  rsAttempts : nat;
  rsVariables : option vmap;
  rsNodeOutputs : gmap string node_output;
  rsErrors : list ExecutionErrorDetail;
  rsTrace : list effect
}.

Definition emit (e : effect) (x : run_state) : run_state :=
  {| rsAttempts := rsAttempts x; rsVariables := rsVariables x;
     rsNodeOutputs := rsNodeOutputs x; rsErrors := rsErrors x; rsTrace := rsTrace x ++ [e] |}.
Definition next_attempt (x : run_state) : run_state :=
  {| rsAttempts := S (rsAttempts x); rsVariables := rsVariables x;
     rsNodeOutputs := rsNodeOutputs x; rsErrors := rsErrors x; rsTrace := rsTrace x |}.
Definition add_error (d : ExecutionErrorDetail) (x : run_state) : run_state :=
  {| rsAttempts := rsAttempts x; rsVariables := rsVariables x;
     rsNodeOutputs := rsNodeOutputs x; rsErrors := rsErrors x ++ [d]; rsTrace := rsTrace x |}.
Definition set_output (nodeID : string) (out : node_output) (vars : option vmap)
    (x : run_state) : run_state :=
  {| rsAttempts := rsAttempts x; rsVariables := vars;
     rsNodeOutputs := <[nodeID := out]> (rsNodeOutputs x); rsErrors := rsErrors x;
     rsTrace := rsTrace x |}.

(** The map a node output denotes when it is read. *)
Definition read_output (vars : option vmap) (out : node_output) : option vmap :=
  match out with SharedVariables => vars | OwnMap m => m end.

(** ** Node execution *)

Definition executeTriggerNode : node_output := SharedVariables.
Definition executeConditionNode : node_output := SharedVariables.
Definition executeLoopNode : node_output := SharedVariables.
Definition executeHTTPNode : node_output :=
  OwnMap (Some (<["status" := VInt 200]> {["body" := VStr "HTTP request executed"]})).
Definition executeCodeNode : node_output :=
  OwnMap (Some {["result" := VStr "Code executed successfully"]}).

(** The interface value a map is stored as in an event payload. *)
Definition vobj (m : option vmap) : value :=
  match m with None => VNil | Some m => VObj (map_to_list m) end.

Definition sendToExecutorService (env : Env) (n : nat) (execID : string) (node : Node)
    (x : run_state) : result node_output * run_state :=
  let request :=
    Publish "node.execute.request" execID
      (<["requestId" := VStr (envRequestID env n)]> (<["nodeId" := VStr (nID node)]>
       (<["nodeType" := VStr (nType node)]> (<["parameters" := vobj (nParameters node)]>
       {["inputData" := vobj (rsVariables x)]})))) in
  match envSend env n with
  | SendPublishError e => (Err ("failed to send to executor service: " +:+ e), x)
  | SendResponse m => (Ok (OwnMap m), emit request x)
  | SendCancelled e => (Err e, emit request x)
  | SendTimeout => (Err "timeout waiting for node execution response", emit request x)
  end.

Definition executeNodeByType (env : Env) (n : nat) (execID : string) (node : Node)
    (x : run_state) : result node_output * run_state :=
  if bool_decide (nType node = NodeTypeTrigger) then (Ok executeTriggerNode, x)
  else if bool_decide (nType node = NodeTypeHTTPRequest) then (Ok executeHTTPNode, x)
  else if bool_decide (nType node = NodeTypeCode) then (Ok executeCodeNode, x)
  else if bool_decide (nType node = NodeTypeCondition) then (Ok executeConditionNode, x)
  else if bool_decide (nType node = NodeTypeLoop) then (Ok executeLoopNode, x)
  else sendToExecutorService env n execID node x.

(** [for k, v := range outputData { Variables[k] = v }].  Writing the
    Variables map into itself changes nothing; writing into a nil map panics. *)
Definition merge_output (vars : option vmap) (out : node_output) : outcome (option vmap) :=
  match read_output vars out with
  | None => Ret vars
  | Some m =>
      match vars with
      | Some v => Ret (Some (m ∪ v))
      | None => if decide (m = ∅) then Ret None else Panic "assignment to entry in nil map"
      end
  end.

Definition find_node (w : Workflow) (nodeID : string) : option Node :=
  snd <$> list_find (λ n, nID n = nodeID) (wNodes w).

(** [executeNode]; one unit of fuel per attempt. *)
Fixpoint executeNode (fuel : nat) (env : Env) (w : Workflow) (execID nodeID : string)
    (x : run_state) : outcome (result unit * run_state) :=
  match find_node w nodeID with
  | None => Ret (Err ("node not found: " +:+ nodeID), x)
  | Some node =>
    if nDisabled node then Ret (Ok tt, x) else
    match fuel with
    | O => NoFuel
    | S fuel' =>
      let n := rsAttempts x in
      let x := next_attempt x in
      let nodeExec :=
        {| neID := envUUID env n; neExecutionID := execID; neNodeID := nodeID;
           neStatus := NodeExecutionRunning; neStartedAt := envStartTime env n;
           neFinishedAt := None; neInputData := rsVariables x; neOutputData := None;
           neError := ""; neRetryCount := 0 |} in
      match envCreate env n with
      | Some e => Ret (Err ("failed to create node execution: " +:+ e), x)
      | None =>
        let x := emit (CreateNodeExecution nodeExec) x in
        let x := emit (Publish "node.execution.started" (neID nodeExec)
          (<["executionId" := VStr execID]> (<["nodeId" := VStr nodeID]>
           {["nodeType" := VStr (nType node)]}))) x in
        let finish (status error : string) (out : option vmap) (x : run_state) :=
          let nodeExec' :=
            {| neID := neID nodeExec; neExecutionID := execID; neNodeID := nodeID;
               neStatus := status; neStartedAt := neStartedAt nodeExec;
               neFinishedAt := Some (envFinishTime env n); neInputData := rsVariables x;
               neOutputData := out; neError := error; neRetryCount := neRetryCount nodeExec |} in
          let x := emit (UpdateNodeExecution nodeExec') x in
          emit (Publish "node.execution.completed" (neID nodeExec)
                  {["status" := VStr status]}) x in
        match executeNodeByType env n execID node x with
        | (Err e, x) =>
            if bool_decide (0 < nRetryCount node)%Z
               && bool_decide (neRetryCount nodeExec < nRetryCount node)%Z
            then executeNode fuel' env w execID nodeID x
            else Ret (Err e, finish NodeExecutionFailed e None x)
        | (Ok out, x) =>
            match merge_output (rsVariables x) out with
            | Ret vars =>
                Ret (Ok tt, finish NodeExecutionCompleted "" (read_output vars out)
                              (set_output nodeID out vars x))
            | Panic msg => Panic msg
            | NoFuel => NoFuel
            end
        end
      end
    end
  end.

(** ** Traversal *)

Definition buildExecutionGraph (w : Workflow) : graph := connection_graph (wConnections w).

Definition findStartNodes (w : Workflow) : list string :=
  nID <$> filter (λ n, nType n = NodeTypeTrigger) (wNodes w).

(** The targets the loop enqueues after running [nodeID]. *)
Definition downstream (w : Workflow) (nodeID : string) (executed : list string) : list string :=
  cTarget <$> filter (λ c, cSource c = nodeID ∧ cTarget c ∉ executed) (wConnections w).

(** The loop of [executeNodes]; [iter] counts its iterations, [executed] lists
    the keys set in the [executed] map, [rfuel] bounds the attempts per node. *)
Fixpoint run_queue (fuel rfuel iter : nat) (env : Env) (w : Workflow) (execID : string)
    (queue executed : list string) (x : run_state) :
    outcome (result unit * run_state * list string) :=
  match queue with
  | [] => Ret (Ok tt, x, executed)
  | nodeID :: queue' =>
    match fuel with
    | O => NoFuel
    | S fuel' =>
      if envDone env iter then Ret (Err "execution cancelled", x, executed)
      else if bool_decide (nodeID ∈ executed) then
        run_queue fuel' rfuel (S iter) env w execID queue' executed x
      else
        let continue_with x :=
          let executed' := executed ++ [nodeID] in
          run_queue fuel' rfuel (S iter) env w execID
            (queue' ++ downstream w nodeID executed') executed' x in
        match executeNode rfuel env w execID nodeID x with
        | Panic msg => Panic msg
        | NoFuel => NoFuel
        | Ret (Ok _, x') => continue_with x'
        | Ret (Err e, x') =>
            if ehContinueOnFail (sErrorHandling (wSettings w)) then
              continue_with (add_error {| edNodeID := nodeID; edError := e;
                edTimestamp := envErrorTime env iter; edRetryable := false |} x')
            else Ret (Err e, x', executed)
        end
    end
  end.

(** Every connection is enqueued at most once. *)
Definition traversal_fuel (w : Workflow) : nat :=
  length (findStartNodes w) + length (wConnections w).

Definition executeNodes (rfuel : nat) (env : Env) (w : Workflow) (execID : string)
    (x : run_state) : outcome (result unit * run_state * list string) :=
  run_queue (traversal_fuel w) rfuel 0 env w execID (findStartNodes w) [] x.

(** ** One execution from start to end *)

Record WorkflowExecutor := {
  exWorkflow : Workflow;
  exExecution : WorkflowExecution;
  exMachine : ExecutionStateMachine;
  exRun : run_state;
  exDeadline : Z;                     (* of the context WithTimeout *)
  exCancelled : bool                  (* cancelFunc called *)
}.

(** The clock readings of [Execute] outside the traversal: those of the start
    transition, of the error metadata, of the final transition and of the
    finished-at stamp. *)
Record ExecTimes := {
  tStart : Z * Z * Z;
  tMeta : Z;
  tFinal : Z * Z * Z;
  tFinished : Z
}.

(** The context record shared with the state machine, as its fields read now. *)
Definition exec_context (ctx : ExecutionContext) (x : run_state) : ExecutionContext :=
  {| ctxExecutionID := ctxExecutionID ctx; ctxVariables := rsVariables x;
     ctxNodeOutputs := read_output (rsVariables x) <$> rsNodeOutputs x;
     ctxErrors := rsErrors x; ctxStartTime := ctxStartTime ctx; ctxMetadata := ctxMetadata ctx |}.

Definition with_context (sm : ExecutionStateMachine) (x : run_state) : ExecutionStateMachine :=
  {| smID := smID sm; smWorkflowID := smWorkflowID sm; smState := smState sm;
     smContext := (λ ctx, exec_context ctx x) <$> smContext sm; smHistory := smHistory sm;
     smCreatedAt := smCreatedAt sm; smUpdatedAt := smUpdatedAt sm; smHasBus := smHasBus sm;
     smStartedAt := smStartedAt sm; smCompletedAt := smCompletedAt sm;
     smPausedAt := smPausedAt sm; smError := smError sm; smMetadata := smMetadata sm |}.

(** A transition of the executor's machine; its event goes to the trace. *)
Definition machine_transition (sm : ExecutionStateMachine) (event : string)
    (md : option vmap) (t : Z * Z * Z) (x : run_state) :
    ExecutionStateMachine * result unit * run_state :=
  let '(sm', r, ev) := Transition sm event md t.1.1 t.1.2 t.2 in
  (sm', r, match ev with Some e => emit (PublishStateChanged e) x | None => x end).

(** The record of a finished execution; its Data is the context's Variables
    map, which it has shared since the execution was created. *)
Definition finished_record (e : WorkflowExecution) (status error : string) (x : run_state)
    (finishedAt : Z) : WorkflowExecution :=
  {| weID := weID e; weWorkflowID := weWorkflowID e; weVersion := weVersion e;
     weStatus := status; weStartedAt := weStartedAt e; weFinishedAt := Some finishedAt;
     weExecutionTime := milliseconds (finishedAt - weStartedAt e); weData := rsVariables x;
     weError := error; weCreatedAt := weCreatedAt e |}.

Definition with_result (ex : WorkflowExecutor) (sm : ExecutionStateMachine)
    (e : WorkflowExecution) (x : run_state) : WorkflowExecutor :=
  {| exWorkflow := exWorkflow ex; exExecution := e; exMachine := with_context sm x;
     exRun := x; exDeadline := exDeadline ex; exCancelled := true |}.

Definition handleExecutionError (ex : WorkflowExecutor) (sm : ExecutionStateMachine)
    (x : run_state) (err : string) (t : ExecTimes) : WorkflowExecutor :=
  let metadata := <["error" := VStr err]> {["timestamp" := VTime (tMeta t)]} in
  let '(sm, _, x) := machine_transition sm EventFail (Some metadata) (tFinal t) x in
  let e := finished_record (exExecution ex) ExecutionFailed err x (tFinished t) in
  let x := emit (UpdateExecution e) x in
  let x := emit (Publish "execution.failed" (weID e) {["error" := VStr err]}) x in
  with_result ex sm e x.

Definition completeExecution (ex : WorkflowExecutor) (sm : ExecutionStateMachine)
    (x : run_state) (t : ExecTimes) : WorkflowExecutor :=
  let '(sm, _, x) := machine_transition sm EventComplete None (tFinal t) x in
  let e := finished_record (exExecution ex) ExecutionCompleted (weError (exExecution ex)) x
             (tFinished t) in
  let x := emit (UpdateExecution e) x in
  let x := emit (Publish "execution.completed" (weID e)
    (<["workflowId" := VStr (wID (exWorkflow ex))]>
     {["duration" := VInt (weExecutionTime e)]})) x in
  with_result ex sm e x.

(** [Execute]: the deferred clean-up (removal from the table, cancellation) is
    [exCancelled] here and the deletion in [finish_executor] below. *)
Definition Execute (rfuel : nat) (env : Env) (ex : WorkflowExecutor) (t : ExecTimes) :
    outcome WorkflowExecutor :=
  let '(sm, r, x) := machine_transition (exMachine ex) EventStart None (tStart t) (exRun ex) in
  match r with
  | Err e => Ret (handleExecutionError ex sm x e t)
  | Ok _ =>
      match executeNodes rfuel env (exWorkflow ex) (weID (exExecution ex)) x with
      | Panic msg => Panic msg
      | NoFuel => NoFuel
      | Ret (Err e, x', _) => Ret (handleExecutionError ex sm x' e t)
      | Ret (Ok _, x', _) => Ret (completeExecution ex sm x' t)
      end
  end.

(** ** The orchestrator *)

(** A channel of capacity one holds at most one message. *)
Record Orchestrator := {
  oExecutors : gmap string WorkflowExecutor;
  oPending : gmap string nat;          (* request ID to channel *)
  oChans : gmap nat (list (option vmap));  (* channel buffers *)
  oNextChan : nat;
  oStopped : bool
}.

Definition NewOrchestrator : Orchestrator :=
  {| oExecutors := ∅; oPending := ∅; oChans := ∅; oNextChan := 0; oStopped := false |}.

Definition with_executors (o : Orchestrator) (m : gmap string WorkflowExecutor) : Orchestrator :=
  {| oExecutors := m; oPending := oPending o; oChans := oChans o; oNextChan := oNextChan o;
     oStopped := oStopped o |}.
Definition with_pending (o : Orchestrator) (p : gmap string nat)
    (c : gmap nat (list (option vmap))) (n : nat) : Orchestrator :=
  {| oExecutors := oExecutors o; oPending := p; oChans := c; oNextChan := n;
     oStopped := oStopped o |}.

(** [ExecuteWorkflow]: [getwf] and [createErr] are the repository's answers,
    [tNow] the clock; returns the execution handed to the caller. *)
Definition ExecuteWorkflow (o : Orchestrator) (getwf : result Workflow)
    (createErr : option string) (uuid workflowID : string) (inputData : option vmap)
    (tNow : Z) : result WorkflowExecution * Orchestrator :=
  match getwf with
  | Err e => (Err ("failed to get workflow: " +:+ e), o)
  | Ok wf =>
    if negb (wIsActive wf) then (Err "workflow is not active", o)
    else
      let execution :=
        {| weID := uuid; weWorkflowID := workflowID; weVersion := wVersion wf;
           weStatus := ExecutionRunning; weStartedAt := tNow; weFinishedAt := None;
           weExecutionTime := 0; weData := inputData; weError := ""; weCreatedAt := tNow |} in
      match createErr with
      | Some e => (Err ("failed to create execution: " +:+ e), o)
      | None =>
        let execContext :=
          {| ctxExecutionID := uuid; ctxVariables := inputData; ctxNodeOutputs := ∅;
             ctxErrors := []; ctxStartTime := tNow; ctxMetadata := ∅ |} in
        let executor :=
          {| exWorkflow := wf; exExecution := execution;
             exMachine := NewExecutionStateMachine uuid workflowID (Some execContext) true tNow;
             exRun := {| rsAttempts := 0; rsVariables := inputData; rsNodeOutputs := ∅;
                         rsErrors := [];
                         rsTrace := [CreateExecution execution;
                           Publish "execution.started" uuid
                             (<["workflowId" := VStr workflowID]>
                              {["executionId" := VStr uuid]})] |};
             exDeadline := (tNow + wrap64 (sTimeout (wSettings wf) * 1000000000))%Z;
             exCancelled := false |} in
        (Ok execution, with_executors o (<[uuid := executor]> (oExecutors o)))
      end
  end.

(** The deferred clean-up of [Execute]. *)
Definition finish_executor (o : Orchestrator) (id : string) : Orchestrator :=
  with_executors o (delete id (oExecutors o)).

Definition cancel_executor (ex : WorkflowExecutor) : WorkflowExecutor :=
  {| exWorkflow := exWorkflow ex; exExecution := exExecution ex; exMachine := exMachine ex;
     exRun := exRun ex; exDeadline := exDeadline ex; exCancelled := true |}.

Definition Stop (o : Orchestrator) : Orchestrator :=
  {| oExecutors := cancel_executor <$> oExecutors o; oPending := oPending o;
     oChans := oChans o; oNextChan := oNextChan o; oStopped := true |}.

Definition checkExecutionTimeouts (o : Orchestrator) (now : Z) : Orchestrator :=
  with_executors o ((λ ex,
    if bool_decide (wrap64 (sTimeout (wSettings (exWorkflow ex)) * 1000000000) <
                    now - weStartedAt (exExecution ex))%Z
    then cancel_executor ex else ex) <$> oExecutors o).

(** ** Pending node requests *)

Definition registerPending (o : Orchestrator) (requestID : string) : Orchestrator * nat :=
  let ch := oNextChan o in
  (with_pending o (<[requestID := ch]> (oPending o)) (<[ch := []]> (oChans o)) (S ch), ch).

(** The non-blocking send: a full channel drops the message. *)
Definition try_send (chans : gmap nat (list (option vmap))) (ch : nat) (m : option vmap) :
    gmap nat (list (option vmap)) :=
  match chans !! ch with
  | Some [] => <[ch := [m]]> chans
  | _ => chans
  end.

Definition resolvePending (o : Orchestrator) (requestID : string) (m : option vmap) :
    Orchestrator :=
  match oPending o !! requestID with
  | None => o
  | Some ch => with_pending o (delete requestID (oPending o)) (try_send (oChans o) ch m)
                 (oNextChan o)
  end.

Definition rejectPending (o : Orchestrator) (requestID : string) : Orchestrator :=
  with_pending o (delete requestID (oPending o)) (oChans o) (oNextChan o).

(** The waiting executor takes the message, if there is one. *)
Definition receive (o : Orchestrator) (ch : nat) : option (option vmap) * Orchestrator :=
  match oChans o !! ch with
  | Some (m :: rest) =>
      (Some m, with_pending o (oPending o) (<[ch := rest]> (oChans o)) (oNextChan o))
  | _ => (None, o)
  end.

Definition HandleNodeExecuteResponse (o : Orchestrator) (payload : vmap) :
    Orchestrator * result unit :=
  match default "" (get_string payload "requestId") with
  | "" => (o, Err "missing requestId in node.execute.response")
  | reqID =>
      match payload !! "result" with
      | None => (o, Err "missing result in node.execute.response")
      | Some (VObj kvs) => (resolvePending o reqID (Some (list_to_map kvs)), Ok tt)
      | Some _ => (o, Err "invalid result type in node.execute.response")
      end
  end.

(** ** The traversal *)

(** Nodes an execution should visit: those reachable from a trigger. *)
Definition triggered (w : Workflow) (n : string) : Prop :=
  ∃ s, s ∈ findStartNodes w ∧ rtc (conn_edge (wConnections w)) s n.

(** The nodes whose execution was started, in order. *)
Definition started (trace : list effect) : list string :=
  omap (λ e, match e with CreateNodeExecution n => Some (neNodeID n) | _ => None end) trace.

(** Nodes [executeNode] finds and does not skip. *)
Definition runnable (w : Workflow) (n : string) : Prop :=
  nDisabled <$> find_node w n = Some false.
#[export] Instance runnable_dec w n : Decision (runnable w n).
Proof. unfold runnable. apply _. Defined.

(** The repository accepts every new node execution. *)
Definition creates (env : Env) : Prop := ∀ i, envCreate env i = None.

Definition no_retries (w : Workflow) : Prop := ∀ n, n ∈ wNodes w → (nRetryCount n ≤ 0)%Z.

Lemma started_emit e x :
  started (rsTrace (emit e x)) =
  started (rsTrace x) ++ match e with CreateNodeExecution n => [neNodeID n] | _ => [] end.
Proof. unfold started. simpl. rewrite omap_app. by destruct e. Qed.

#[export] Hint Rewrite started_emit : linkflow.

Lemma started_app t1 t2 : started (t1 ++ t2) = started t1 ++ started t2.
Proof. unfold started. apply omap_app. Qed.

Lemma find_node_elem w id n : find_node w id = Some n → n ∈ wNodes w ∧ nID n = id.
Proof.
  unfold find_node. destruct (list_find _ _) as [[i m]|] eqn:E; [|done].
  intros [= <-]. apply list_find_Some in E as (Hl & Hid & _).
  split; [|done]. by apply list_elem_of_lookup_2 in Hl.
Qed.

(** Dispatch only appends a request to the trace. *)
Lemma executeNodeByType_state env n e node x r x' :
  executeNodeByType env n e node x = (r, x') →
  rsVariables x' = rsVariables x ∧ started (rsTrace x') = started (rsTrace x).
Proof.
  unfold executeNodeByType, sendToExecutorService.
  repeat case_bool_decide; [by intros [= _ <-]..|].
  destruct (envSend env n); intros [= _ <-]; autorewrite with linkflow; by rewrite ?app_nil_r.
Qed.

Lemma merge_output_some vars out :
  is_Some vars → ∃ v', merge_output vars out = Ret (Some v').
Proof. intros [v ->]. unfold merge_output. destruct (read_output _ _); simpl; eauto. Qed.

(** What one visit of [id] adds to the started nodes. *)
Definition visit_starts (env : Env) (w : Workflow) (id : string) (x x' : run_state) : Prop :=
  ∃ l, started (rsTrace x') = started (rsTrace x) ++ l ∧ l `sublist_of` [id] ∧
    (creates env → l = filter (runnable w) [id]).

Lemma visit_skipped env w id x x' :
  started (rsTrace x') = started (rsTrace x) → (creates env → ¬ runnable w id) →
  visit_starts env w id x x'.
Proof.
  intros Hs Hr. exists []. rewrite app_nil_r. split_and!; [done|apply sublist_nil_l|].
  intros Hc. by rewrite filter_cons_False by auto.
Qed.

Lemma visit_started env w id node x x' :
  find_node w id = Some node → nDisabled node = false →
  started (rsTrace x') = started (rsTrace x) ++ [id] → visit_starts env w id x x'.
Proof.
  intros Hf Hd Hs. exists [id]. split_and!; [done..|].
  intros _. by rewrite filter_cons_True by (unfold runnable; rewrite Hf; simpl; by rewrite Hd).
Qed.

(** Without retries a node is attempted once, and with a non-nil variable map
    the attempt returns. *)
Lemma executeNode_once env w e id x rfuel :
  no_retries w → is_Some (rsVariables x) →
  ∃ r x', executeNode (S rfuel) env w e id x = Ret (r, x') ∧ is_Some (rsVariables x') ∧
    visit_starts env w id x x'.
Proof.
  intros Hnr Hv. simpl. destruct (find_node w id) as [node|] eqn:Hf.
  2:{ eexists _, _. split_and!; [done..|]. apply visit_skipped; [done|]. unfold runnable. by rewrite Hf. }
  pose proof (find_node_elem _ _ _ Hf) as [Hin _].
  destruct (nDisabled node) eqn:Hdis.
  { eexists _, _. split_and!; [done..|]. apply visit_skipped; [done|]. unfold runnable. rewrite Hf. simpl.
    by rewrite Hdis. }
  destruct (envCreate env (rsAttempts x)) eqn:Hcr.
  { eexists _, _. split_and!; [done..|]. apply visit_skipped; [done|]. intros Hc. by rewrite Hc in Hcr. }
  destruct (executeNodeByType _ _ _ _ _) as [r x1] eqn:Ht.
  apply executeNodeByType_state in Ht as [Hv1 Ht]. autorewrite with linkflow in Ht. simpl in Ht, Hv1.
  destruct r as [out|err].
  - destruct (merge_output_some (rsVariables x1) out) as [v' Hm]; [by rewrite Hv1|].
    rewrite Hm. eexists _, _. split_and!; [done|eauto|]. eapply visit_started; [done..|].
    autorewrite with linkflow. simpl. by rewrite Ht, !app_nil_r.
  - rewrite bool_decide_eq_false_2 by (specialize (Hnr _ Hin); lia). simpl.
    eexists _, _. split_and!; [done|simpl; by rewrite Hv1|]. eapply visit_started; [done..|].
    autorewrite with linkflow. by rewrite Ht, !app_nil_r.
Qed.

(** Connections whose source has not run yet. *)
Definition unused (w : Workflow) (executed : list string) : nat :=
  length (filter (λ c, cSource c ∉ executed) (wConnections w)).

Lemma unused_snoc w executed id :
  id ∉ executed →
  length (downstream w id (executed ++ [id])) + unused w (executed ++ [id]) ≤ unused w executed.
Proof.
  intros Hid. unfold downstream, unused. rewrite length_fmap.
  induction (wConnections w) as [|c cs IH]; simpl; [lia|].
  rewrite !filter_cons.
  destruct (decide (cSource c = id ∧ cTarget c ∉ executed ++ [id])) as [[Hs _]|];
    destruct (decide (cSource c ∉ executed ++ [id])) as [H2|H2];
    destruct (decide (cSource c ∉ executed)) as [H3|H3]; simpl in *; try lia; exfalso; rewrite ?elem_of_app, ?list_elem_of_singleton in *; naive_solver.
Qed.

Lemma downstream_elem w id executed v :
  v ∈ downstream w id executed ↔ conn_edge (wConnections w) id v ∧ v ∉ executed.
Proof.
  unfold downstream, conn_edge. rewrite list_elem_of_fmap.
  setoid_rewrite list_elem_of_filter. naive_solver.
Qed.

Record traversal_inv (env : Env) (w : Workflow) (x0 : run_state) (queue executed : list string)
    (x : run_state) : Prop := {
  ti_nodup : NoDup executed;
  ti_sound : ∀ n, n ∈ queue ∨ n ∈ executed → triggered w n;
  ti_roots : ∀ n, n ∈ findStartNodes w → n ∈ queue ∨ n ∈ executed;
  ti_closed : ∀ u v, u ∈ executed → conn_edge (wConnections w) u v → v ∈ queue ∨ v ∈ executed;
  ti_vars : is_Some (rsVariables x);
  ti_started : ∃ l, started (rsTrace x) = started (rsTrace x0) ++ l ∧ l `sublist_of` executed ∧
    (creates env → l = filter (runnable w) executed)
}.

Lemma traversal_inv_skip env w x0 id queue executed x :
  id ∈ executed → traversal_inv env w x0 (id :: queue) executed x → traversal_inv env w x0 queue executed x.
Proof.
  intros Hin []. split; try done.
  - intros n Hn. apply ti_sound0. set_solver.
  - intros n Hn. destruct (ti_roots0 n Hn) as [Hq|?]; [|by right]. set_solver.
  - intros u v Hu Huv. destruct (ti_closed0 u v Hu Huv) as [Hq|?]; [|by right]. set_solver.
Qed.

Lemma traversal_inv_run env w x0 id queue executed x x' :
  id ∉ executed → traversal_inv env w x0 (id :: queue) executed x →
  is_Some (rsVariables x') →
  visit_starts env w id x x' →
  traversal_inv env w x0 (queue ++ downstream w id (executed ++ [id])) (executed ++ [id]) x'.
Proof.
  intros Hid [] Hv (l' & Hl' & Hs' & Hc'). split; [| | | |done|].
  - apply NoDup_app. split_and!; [done| |apply NoDup_singleton]. set_solver.
  - intros n. rewrite !elem_of_app, downstream_elem. intros [[Hq|[He _]]|[Hx|Hx]].
    + apply ti_sound0. set_solver.
    + destruct (ti_sound0 id) as (s & Hs & Hr); [set_solver|]. exists s. split; [done|]. by eapply rtc_r.
    + auto.
    + apply ti_sound0. set_solver.
  - intros n Hn. destruct (ti_roots0 n Hn); set_solver.
  - intros u v Hu Huv. destruct (decide (v ∈ executed ++ [id])) as [|Hno]; [by right|]. left.
    apply elem_of_app. apply elem_of_app in Hu as [Hu| ->%list_elem_of_singleton].
    + left. destruct (ti_closed0 u v Hu Huv); set_solver.
    + right. by apply downstream_elem.
  - destruct ti_started0 as (l & Hl & Hs & Hc). exists (l ++ l'). split_and!.
    + by rewrite Hl', Hl, app_assoc.
    + by apply sublist_app.
    + intros Hcr. by rewrite filter_app, Hc, Hc'.
Qed.

(** What the traversal has done when it stops. *)
Definition traversal_post (w : Workflow) (x0 x : run_state) (executed : list string) : Prop :=
  NoDup executed ∧ (∀ n, n ∈ executed → triggered w n) ∧
  ∃ l, started (rsTrace x) = started (rsTrace x0) ++ l ∧ NoDup l ∧ ∀ n, n ∈ l → triggered w n.

Lemma traversal_inv_post env w x0 queue executed x :
  traversal_inv env w x0 queue executed x → traversal_post w x0 x executed.
Proof.
  intros []. split_and!; [done|by auto|]. destruct ti_started0 as (l & Hl & Hs & _).
  exists l. split_and!; [done|by eapply sublist_NoDup|].
  intros n Hn. apply ti_sound0. right. by eapply elem_of_sublist.
Qed.

Lemma traversal_inv_stop env w x0 id queue executed x x' :
  id ∉ executed → traversal_inv env w x0 (id :: queue) executed x →
  is_Some (rsVariables x') →
  visit_starts env w id x x' →
  traversal_post w x0 x' executed.
Proof.
  intros Hid Hinv Hv Hst.
  pose proof (traversal_inv_run _ _ _ _ _ _ _ _ Hid Hinv Hv Hst) as (_ & _ & H)%traversal_inv_post.
  destruct Hinv. split_and!; auto.
Qed.

Lemma run_queue_spec env w execID x0 rfuel fuel iter queue executed x :
  no_retries w → traversal_inv env w x0 queue executed x →
  length queue + unused w executed ≤ fuel →
  ∃ r x' executed', run_queue fuel (S rfuel) iter env w execID queue executed x =
      Ret (r, x', executed') ∧
    traversal_post w x0 x' executed' ∧ (r = Ok tt → traversal_inv env w x0 [] executed' x') ∧
    (r = Ok tt ∨ (∃ i, envDone env i = true) ∨
     ehContinueOnFail (sErrorHandling (wSettings w)) = false).
Proof.
  intros Hnr. revert iter queue executed x.
  induction fuel as [|fuel IH]; intros iter queue executed x Hinv Hfuel;
    (destruct queue as [|id queue];
      [eexists _, _, _; split; [done|]; split_and!; [by eapply traversal_inv_post|done|by left]|]);
    simpl in Hfuel; [lia|].
  cbn [run_queue]. destruct (envDone env iter) eqn:Hd.
  { eexists _, _, _. split; [done|]. split_and!; [by eapply traversal_inv_post|done|]. eauto. }
  case_bool_decide as Hid.
  { apply IH; [by apply traversal_inv_skip in Hinv|lia]. }
  destruct (executeNode_once env w execID id x rfuel Hnr (ti_vars _ _ _ _ _ _ Hinv))
    as (r & x1 & He & Hv1 & Hst). rewrite He.
  pose proof (unused_snoc w executed id Hid).
  destruct r as [[]|e]; [apply IH; [by eapply traversal_inv_run|rewrite length_app; lia]|].
  destruct (ehContinueOnFail _) eqn:Hc.
  - apply IH; [by eapply traversal_inv_run|rewrite length_app; lia].
  - eexists _, _, _. split; [done|]. split_and!; [by eapply traversal_inv_stop|done|]. eauto.
Qed.

Lemma traversal_inv_complete env w x0 executed x n :
  traversal_inv env w x0 [] executed x → triggered w n → n ∈ executed.
Proof.
  intros [_ _ Hroots Hclosed _ _] (s & Hs & Hr).
  apply (rtc_preserve _ (λ v, v ∈ executed)) in Hr; [done| |].
  - intros u v Huv Hu. by destruct (Hclosed u v Hu Huv) as [?%elem_of_nil|?].
  - by destruct (Hroots s Hs) as [?%elem_of_nil|?].
Qed.

(** A finished traversal has executed the reachable nodes and started the
    runnable ones among them. *)
Lemma traversal_inv_started env w x0 executed x :
  traversal_inv env w x0 [] executed x →
  (∀ n, n ∈ executed ↔ triggered w n) ∧
  (creates env → started (rsTrace x) = started (rsTrace x0) ++ filter (runnable w) executed).
Proof.
  intros Hinv. split.
  - intros n. split; [intros ?; apply (ti_sound _ _ _ _ _ _ Hinv); by right|].
    by apply (traversal_inv_complete _ _ _ _ _ _ Hinv).
  - intros Hc. destruct (ti_started _ _ _ _ _ _ Hinv) as (l & -> & _ & Hl). by rewrite Hl.
Qed.

Lemma traversal_inv_init env w x :
  is_Some (rsVariables x) → traversal_inv env w x (findStartNodes w) [] x.
Proof.
  intros Hv. split; [constructor| |by left| |done|].
  - intros n [Hn|Hn%elem_of_nil]; [|done]. by exists n.
  - by intros u v Hn%elem_of_nil.
  - exists []. rewrite app_nil_r. split_and!; [done|apply sublist_nil_l|done].
Qed.

Lemma executeNodes_spec env w execID x rfuel :
  no_retries w → is_Some (rsVariables x) →
  ∃ r x' executed, executeNodes (S rfuel) env w execID x = Ret (r, x', executed) ∧
    traversal_post w x x' executed ∧ (r = Ok tt → traversal_inv env w x [] executed x') ∧
    (r = Ok tt ∨ (∃ i, envDone env i = true) ∨
     ehContinueOnFail (sErrorHandling (wSettings w)) = false).
Proof.
  intros Hnr Hv. apply run_queue_spec; [done|by apply traversal_inv_init|].
  unfold traversal_fuel, unused. pose proof (length_filter (λ c, cSource c ∉ []) (wConnections w)). lia.
Qed.

(** C3. When no node is configured with retries and the input map is not nil,
    [executeNodes] always returns, within one loop iteration per trigger and
    per connection; no node is started twice; only nodes reachable from a
    trigger are executed; when it returns nil it has executed exactly the
    reachable nodes, and started, in that order, those of them that exist and
    are enabled; and it fails only on cancellation or when ContinueOnFail
    is off. *)
Theorem executeNodes_correct env w execID x :
  no_retries w → is_Some (rsVariables x) → started (rsTrace x) = [] →
  ∃ r x' executed, executeNodes 1 env w execID x = Ret (r, x', executed) ∧
    NoDup (started (rsTrace x')) ∧ (∀ n, n ∈ started (rsTrace x') → triggered w n) ∧
    NoDup executed ∧ (∀ n, n ∈ executed → triggered w n) ∧
    (r = Ok tt → (∀ n, n ∈ executed ↔ triggered w n) ∧
       (creates env → started (rsTrace x') = filter (runnable w) executed)) ∧
    (r = Ok tt ∨ (∃ i, envDone env i = true) ∨
     ehContinueOnFail (sErrorHandling (wSettings w)) = false).
Proof.
  intros Hnr Hv H0. destruct (executeNodes_spec env w execID x 0 Hnr Hv)
    as (r & x' & ex & He & (Hnd & Hs & l & Hl & Hl') & Hok & Hcause).
  rewrite H0 in Hl. simpl in Hl. rewrite <- Hl in Hl'.
  exists r, x', ex. destruct Hl'. split_and!; [done..| |done].
  intros Hr. destruct (traversal_inv_started _ _ _ _ _ (Hok Hr)) as [Hall Hst]. split; [done|].
  intros Hc. by rewrite Hst, H0.
Qed.

(** An environment in which everything succeeds. *)
Definition quiet_env : Env :=
  {| envDone := λ _, false; envErrorTime := λ _, 0%Z; envUUID := λ n, pretty n;
     envRequestID := λ n, pretty n; envStartTime := λ _, 0%Z; envFinishTime := λ _, 0%Z;
     envCreate := λ _, None; envSend := λ _, SendResponse (Some ∅) |}.
Definition fresh_run (vars : option vmap) : run_state :=
  {| rsAttempts := 0; rsVariables := vars; rsNodeOutputs := ∅; rsErrors := []; rsTrace := [] |}.

Lemma executeNodes_correct_witness :
  ∃ x' executed, executeNodes 1 quiet_env demo_workflow "e" (fresh_run (Some ∅)) =
    Ret (Ok tt, x', executed) ∧ "a" ∈ executed ∧ triggered demo_workflow "a".
Proof.
  destruct (executeNodes_correct quiet_env demo_workflow "e" (fresh_run (Some ∅)))
    as (r & x' & ex & He & _ & _ & _ & _ & Hok & _); [|by eauto|done|].
  { refine (proj1 (Forall_forall (λ n, nRetryCount n ≤ 0)%Z (wNodes demo_workflow)) _).
    repeat (constructor; [simpl; lia|]). constructor. }
  assert (r = Ok tt ∧ "a" ∈ ex) as [-> Hin].
  { vm_compute in He. injection He as <- <- <-. split; [done|]. right. left. }
  exists x', ex. split_and!; [exact He|exact Hin|]. by apply (proj1 (Hok eq_refl)).
Defined.

(** ** Retries *)

(** The request fails in attempt [n]. *)
Definition send_fails (env : Env) (n : nat) : Prop :=
  match envSend env n with SendResponse _ => False | _ => True end.

(** Types handled by the executor service. *)
Definition remote_type (t : string) : bool :=
  negb (bool_decide (t ∈ [NodeTypeTrigger; NodeTypeHTTPRequest; NodeTypeCode;
                          NodeTypeCondition; NodeTypeLoop])).

Lemma executeNodeByType_remote env n e node x :
  remote_type (nType node) = true →
  executeNodeByType env n e node x = sendToExecutorService env n e node x.
Proof.
  unfold remote_type, executeNodeByType. rewrite negb_true_iff, bool_decide_eq_false.
  intros H. rewrite !bool_decide_eq_false_2; [done|..]; intros Heq; apply H; rewrite Heq; set_solver.
Qed.

(** A failing attempt of a node with retries is followed by another one. *)
Lemma executeNode_retry env w e id node x fuel :
  find_node w id = Some node → nDisabled node = false → remote_type (nType node) = true →
  (0 < nRetryCount node)%Z → envCreate env (rsAttempts x) = None →
  send_fails env (rsAttempts x) →
  ∃ x', executeNode (S fuel) env w e id x = executeNode fuel env w e id x' ∧
    rsAttempts x' = S (rsAttempts x) ∧ rsVariables x' = rsVariables x ∧
    started (rsTrace x') = started (rsTrace x) ++ [id].
Proof.
  intros Hf Hd Ht Hr Hc Hs. simpl. rewrite Hf, Hd, Hc.
  rewrite executeNodeByType_remote by done. unfold sendToExecutorService, send_fails in *.
  rewrite bool_decide_eq_true_2 by done.
  destruct (envSend env (rsAttempts x)); try done; eexists; (split; [reflexivity|]);
    (split_and!; [done..|]); autorewrite with linkflow; by rewrite ?app_nil_r.
Qed.

(** A configured retry count does not bound the attempts: each retry
    starts from a fresh record, so a node that fails [k] times and then
    succeeds is attempted [k + 1] times whatever its RetryCount is, and one
    that always fails never lets [executeNode] return. *)
Lemma node_retries_unbounded env w e id node x :
  find_node w id = Some node → nDisabled node = false → remote_type (nType node) = true →
  (0 < nRetryCount node)%Z → (∀ n, envCreate env n = None) → is_Some (rsVariables x) →
  (∀ k m, (∀ i, i < k → send_fails env (rsAttempts x + i)) →
     envSend env (rsAttempts x + k) = SendResponse m →
     ∃ x', executeNode (S k) env w e id x = Ret (Ok tt, x') ∧
       started (rsTrace x') = started (rsTrace x) ++ replicate (S k) id) ∧
  ((∀ n, send_fails env n) → ∀ fuel, executeNode fuel env w e id x = NoFuel).
Proof.
  intros Hf Hd Ht Hr Hc Hv. split.
  - intros k. revert x Hv. induction k as [|k IH]; intros x Hv m Hfail Hresp.
    + simpl. rewrite Hf, Hd, Hc, executeNodeByType_remote by done.
      rewrite Nat.add_0_r in Hresp. unfold sendToExecutorService. rewrite Hresp. simpl.
      destruct (merge_output_some (rsVariables x) (OwnMap m) Hv) as [v' Hm]. rewrite Hm.
      eexists. split; [done|]. unfold started. simpl. rewrite !omap_app. simpl.
      by rewrite !app_nil_r.
    + destruct (executeNode_retry env w e id node x (S k) Hf Hd Ht Hr (Hc _))
        as (x' & -> & Ha & Hv' & Hst); [rewrite <- (Nat.add_0_r (rsAttempts x)); apply Hfail; lia|].
      destruct (IH x') with (m := m) as (x'' & -> & Hx'').
      * by rewrite Hv'.
      * intros i Hi. rewrite Ha, Nat.add_succ_comm. apply Hfail. lia.
      * by rewrite Ha, Nat.add_succ_comm.
      * exists x''. split; [done|]. by rewrite Hx'', Hst, <- app_assoc.
  - intros Hfail fuel. revert x Hv. induction fuel as [|fuel IH]; intros x Hv.
    + simpl. by rewrite Hf, Hd.
    + destruct (executeNode_retry env w e id node x fuel Hf Hd Ht Hr (Hc _) (Hfail _))
        as (x' & -> & _ & Hv' & _). apply IH. by rewrite Hv'.
Qed.

Definition flaky_env : Env :=
  {| envDone := λ _, false; envErrorTime := λ _, 0%Z; envUUID := λ n, pretty n;
     envRequestID := λ n, pretty n; envStartTime := λ _, 0%Z; envFinishTime := λ _, 0%Z;
     envCreate := λ _, None;
     envSend := λ n, if decide (n < 5) then SendTimeout else SendResponse (Some ∅) |}.
Definition retrying_node : Node :=
  {| nID := "s"; nName := "s"; nType := NodeTypeSlack;
     nPosition := {| posX := S754_zero false; posY := S754_zero false |};
     nParameters := None; nDisabled := false; nRetryCount := 1; nTimeout := 0 |}.
Definition retrying_workflow : Workflow := with_graph demo_workflow [retrying_node] [].

(** One configured retry, six attempts. *)
Lemma node_retries_unbounded_witness :
  ∃ x', executeNode 6 flaky_env retrying_workflow "e" "s" (fresh_run (Some ∅)) = Ret (Ok tt, x') ∧
    started (rsTrace x') = replicate 6 "s".
Proof.
  destruct (node_retries_unbounded flaky_env retrying_workflow "e" "s" retrying_node
              (fresh_run (Some ∅))) as [H _]; [reflexivity..|by eauto|].
  apply (H 5 (Some ∅)); [|reflexivity].
  intros i Hi. unfold send_fails, flaky_env. simpl. by rewrite decide_True.
Defined.

(** With a nil input map the first node whose output is not empty makes
    the process panic: the merge writes into the nil Variables map. *)
Lemma nil_input_panics env w e id node x fuel :
  find_node w id = Some node → nDisabled node = false →
  nType node ∈ [NodeTypeHTTPRequest; NodeTypeCode] →
  rsVariables x = None → envCreate env (rsAttempts x) = None →
  executeNode (S fuel) env w e id x = Panic "assignment to entry in nil map".
Proof.
  intros Hf Hd Ht Hv Hc. simpl. rewrite Hf, Hd, Hc. unfold executeNodeByType.
  apply elem_of_cons in Ht as [Ht|Ht%list_elem_of_singleton]; rewrite Ht; simpl;
    unfold merge_output; rewrite Hv; simpl; by rewrite decide_False by done.
Qed.

Lemma nil_input_panics_witness :
  let w := with_graph demo_workflow [demo_node "h" NodeTypeHTTPRequest] [] in
  executeNode 1 quiet_env w "e" "h" (fresh_run None) = Panic "assignment to entry in nil map".
Proof.
  intros w. apply (nil_input_panics _ _ _ _ (demo_node "h" NodeTypeHTTPRequest));
    [reflexivity..|left|reflexivity|reflexivity].
Defined.

(** ** The outcome of an execution *)

(** The event of a transition of the machine to [s']. *)
Definition state_changed (sm : ExecutionStateMachine) (event : string) (md : option vmap)
    (s' : string) : list effect :=
  if smHasBus sm
  then [PublishStateChanged {| scAggregateID := smID sm; scWorkflowID := smWorkflowID sm;
          scFrom := smState sm; scTo := s'; scEvent := event; scMetadata := md |}]
  else [].

Lemma machine_transition_ok sm event md t x s' :
  next_state (smState sm) event = Some s' →
  ∃ sm' x', machine_transition sm event md t x = (sm', Ok tt, x') ∧ smState sm' = s' ∧
    rsVariables x' = rsVariables x ∧ smError sm' = fail_error sm event md t.2 ∧
    rsTrace x' = rsTrace x ++ state_changed sm event md s' ∧
    smID sm' = smID sm ∧ smWorkflowID sm' = smWorkflowID sm ∧ smHasBus sm' = smHasBus sm.
Proof.
  unfold next_state, machine_transition, Transition, state_changed. intros H.
  destruct (validTransitions !! smState sm) as [ts|]; [|done]. rewrite H.
  eexists _, _. split; [reflexivity|]. by destruct (smHasBus sm); simpl; rewrite ?app_nil_r.
Qed.
Lemma started_state_changed sm event md s' : started (state_changed sm event md s') = [].
Proof. unfold state_changed. by destruct (smHasBus sm). Qed.

(** What an execution leaves behind at its end: the event of the last transition, the
    final record, and the event that tells the end. *)
Definition closing (ex ex' : WorkflowExecutor) (event : string) (md : option vmap)
    (final : effect) : list effect :=
  (if smHasBus (exMachine ex)
   then [PublishStateChanged {| scAggregateID := smID (exMachine ex);
           scWorkflowID := smWorkflowID (exMachine ex); scFrom := StateRunning;
           scTo := smState (exMachine ex'); scEvent := event; scMetadata := md |}]
   else []) ++ [UpdateExecution (exExecution ex'); final].


(** The demo workflow, activated and submitted. *)
Definition demo_executor : option WorkflowExecutor :=
  oExecutors (ExecuteWorkflow NewOrchestrator
    (Ok (set_status demo_workflow StatusActive true 0)) None "e1" "w1" (Some ∅) 10).2 !! "e1".
Definition demo_times : ExecTimes :=
  {| tStart := (11, 11, 11); tMeta := 0; tFinal := (20, 20, 20); tFinished := 21 |}%Z.


(** ** Pending requests *)

Inductive pending_step : Orchestrator → Orchestrator → Prop :=
| p_register o req : pending_step o (registerPending o req).1
| p_resolve o req m : pending_step o (resolvePending o req m)
| p_reject o req : pending_step o (rejectPending o req)
| p_receive o ch : pending_step o (receive o ch).2
| p_response o payload : pending_step o (HandleNodeExecuteResponse o payload).1.

Record pending_inv (o : Orchestrator) : Prop := {
  pi_empty : ∀ req ch, oPending o !! req = Some ch → oChans o !! ch = Some [];
  pi_distinct : ∀ r1 r2 ch, oPending o !! r1 = Some ch → oPending o !! r2 = Some ch → r1 = r2;
  pi_fresh : ∀ ch, is_Some (oChans o !! ch) → ch < oNextChan o;
  pi_cap : ∀ ch buf, oChans o !! ch = Some buf → length buf ≤ 1
}.

Lemma pending_inv_drop o req :
  pending_inv o → pending_inv (with_pending o (delete req (oPending o)) (oChans o) (oNextChan o)).
Proof.
  intros []. split; simpl; try done.
  - intros r ch [_ H]%lookup_delete_Some. eauto.
  - intros r1 r2 ch [_ H1]%lookup_delete_Some [_ H2]%lookup_delete_Some. eauto.
Qed.

Lemma pending_inv_resolve o req m : pending_inv o → pending_inv (resolvePending o req m).
Proof.
  intros Hinv. unfold resolvePending. destruct (oPending o !! req) as [ch|] eqn:E; [|done].
  destruct Hinv. unfold try_send. rewrite (pi_empty0 _ _ E). split; simpl.
  - intros r c [Hne H]%lookup_delete_Some. rewrite lookup_insert_ne; [eauto|].
    intros ->. apply Hne. eauto.
  - intros r1 r2 c [_ H1]%lookup_delete_Some [_ H2]%lookup_delete_Some. eauto.
  - intros c [b [[-> _]|[_ H]]%lookup_insert_Some]; eauto.
  - intros c b [[<- <-]|[_ H]]%lookup_insert_Some; [done|eauto].
Qed.

Lemma pending_inv_step o o' : pending_step o o' → pending_inv o → pending_inv o'.
Proof.
  intros [o1 req|o1 req m|o1 req|o1 ch|o1 payload] Hinv.
  - assert (Hlt : ∀ r c, oPending o1 !! r = Some c → c ≠ oNextChan o1)
      by (intros r c H%(pi_empty _ Hinv); assert (c < oNextChan o1); [by eapply pi_fresh|lia]).
    destruct Hinv. split; simpl.
    + intros r ch. rewrite !lookup_insert. repeat case_decide; naive_solver.
    + intros r1 r2 ch. rewrite !lookup_insert. repeat case_decide; naive_solver.
    + intros ch [b [[<- _]|[_ H]]%lookup_insert_Some]; [lia|].
      assert (ch < oNextChan o1); [eauto|lia].
    + intros ch b [[_ <-]|[_ H]]%lookup_insert_Some; [simpl; lia|eauto].
  - by apply pending_inv_resolve.
  - by apply pending_inv_drop.
  - unfold receive. destruct (oChans o1 !! ch) as [[|m rest]|] eqn:E; [done| |done].
    destruct Hinv. split; simpl; [| done| |].
    + intros r c H. rewrite lookup_insert_ne; [eauto|]. intros ->. by rewrite (pi_empty0 _ _ H) in E.
    + intros c [b [[<- _]|[_ H]]%lookup_insert_Some]; eauto.
    + intros c b [[<- <-]|[_ H]]%lookup_insert_Some; [|eauto]. specialize (pi_cap0 _ _ E). simpl in pi_cap0. lia.
  - unfold HandleNodeExecuteResponse. repeat split_match; try done; by apply pending_inv_resolve.
Qed.

(** However requests are registered, answered, abandoned and received, an
    answer to a registered request is never dropped: it is in the requester's
    channel and no other channel changes; a second answer to the same request
    has no effect; and after [rejectPending] answers have none. *)
Lemma pending_response_delivered o req ch m m' :
  rtc pending_step NewOrchestrator o → oPending o !! req = Some ch →
  (receive (resolvePending o req m) ch).1 = Some m ∧
  (∀ ch', ch' ≠ ch → oChans (resolvePending o req m) !! ch' = oChans o !! ch') ∧
  resolvePending (resolvePending o req m) req m' = resolvePending o req m ∧
  resolvePending (rejectPending o req) req m' = rejectPending o req.
Proof.
  intros Hr Hp.
  apply (rtc_preserve _ pending_inv _ _ pending_inv_step) in Hr as [He _ _ _];
    [|split; simpl; [done..|by intros ? []|done]].
  unfold resolvePending. rewrite Hp. unfold try_send. rewrite (He _ _ Hp).
  unfold receive. simpl. rewrite lookup_insert_eq, !lookup_delete_eq. split_and!; try done.
  intros ch' Hne. by rewrite lookup_insert_ne by done.
Qed.

Lemma pending_response_delivered_witness :
  let o := (registerPending NewOrchestrator "r1").1 in
  (receive (resolvePending o "r1" (Some ∅)) 0).1 = Some (Some ∅).
Proof.
  intros o. refine (proj1 (pending_response_delivered o "r1" 0 (Some ∅) None _ _)).
  - apply rtc_once, p_register.
  - reflexivity.
Defined.

(** The traversal is breadth-first, not topological: a node runs as soon as
    one of its predecessors has run.  Here [c] joins the branches [t a c] and
    [t b d c], and runs before its input [d]. *)
Definition uneven_join_workflow : Workflow :=
  with_graph demo_workflow
    (demo_node "t" NodeTypeTrigger ::
     ((λ id, demo_node id NodeTypeMerge) <$> ["a"; "b"; "c"; "d"]))
    [demo_connection "t" "a"; demo_connection "t" "b"; demo_connection "a" "c";
     demo_connection "b" "d"; demo_connection "d" "c"].

Lemma join_runs_before_input :
  ∃ x ex, executeNodes 1 quiet_env uneven_join_workflow "e" (fresh_run (Some ∅)) =
    Ret (Ok tt, x, ex) ∧ started (rsTrace x) = ["t"; "a"; "b"; "c"; "d"] ∧
    conn_edge (wConnections uneven_join_workflow) "d" "c".
Proof.
  eexists _, _. split; [vm_compute; reflexivity|]. split; [vm_compute; reflexivity|].
  exists (demo_connection "d" "c"). split; [|done]. do 4 right. left.
Qed.
