(* ===== verification/Retry.v ===== *)
(** internal/execution/app/retry/manager.go: the retry manager, its backoff
    strategies and its error classifier; pkg/resilience/retry.go: the generic
    retry helper.  The circuit breaker (github.com/sony/gobreaker) is a
    parameter. *)

From S2P Require Import Prelude GoValue GoLib.

(** Durations are nanoseconds. *)
Definition sec (n : Z) : Z := (n * 1000000000)%Z.

(** ** Strategies *)

(** The [Strategy] interface.  [stNextDelay attempt rand] is given
    [rand.Int63n] as a function of its bound; [None] is a panic. *)
Record Strategy := {
  stShouldRetry : option string → Z → bool;
  stNextDelay : Z → (Z → Z) → option Z;
  stMaxAttempts : Z;
  stName : string
}.

(** [NextDelay] of the exponential strategy: the product is computed in
    float64 and capped before the conversion back. *)
Definition exponential_delay (initialDelay maxDelay : Z) (backoffFactor : spec_float)
    (attempt : Z) : Z :=
  let delay := f64_mul (f64_of_Z initialDelay) (f64_pow backoffFactor (attempt - 1)) in
  if f64_ltb (f64_of_Z maxDelay) delay then maxDelay else f64_trunc delay.

Definition NewExponentialBackoffStrategy (maxAttempts initialDelay maxDelay : Z)
    (backoffFactor : spec_float) : Strategy :=
  {| stShouldRetry := λ _ attempt, bool_decide (attempt ≤ maxAttempts)%Z;
     stNextDelay := λ attempt _,
       Some (exponential_delay initialDelay maxDelay backoffFactor attempt);
     stMaxAttempts := maxAttempts; stName := "exponential" |}.

Definition NewLinearBackoffStrategy (maxAttempts delayIncrement : Z) : Strategy :=
  {| stShouldRetry := λ _ attempt, bool_decide (attempt ≤ maxAttempts)%Z;
     stNextDelay := λ attempt _, Some (wrap64 (delayIncrement * attempt));
     stMaxAttempts := maxAttempts; stName := "linear" |}.

Definition NewFixedDelayStrategy (maxAttempts delay : Z) : Strategy :=
  {| stShouldRetry := λ _ attempt, bool_decide (attempt ≤ maxAttempts)%Z;
     stNextDelay := λ _ _, Some delay;
     stMaxAttempts := maxAttempts; stName := "fixed" |}.

(** [rand.Int63n] panics when its bound is not positive. *)
Definition NewRandomJitterStrategy (maxAttempts minDelay maxDelay : Z) : Strategy :=
  {| stShouldRetry := λ _ attempt, bool_decide (attempt ≤ maxAttempts)%Z;
     stNextDelay := λ _ rand,
       let n := wrap64 (maxDelay - minDelay) in
       if bool_decide (0 < n)%Z then Some (wrap64 (minDelay + rand n)) else None;
     stMaxAttempts := maxAttempts; stName := "random" |}.

(** ** Error classification *)

Definition ErrorTypeTransient := "transient".
Definition ErrorTypeTimeout := "timeout".
Definition ErrorTypeRateLimit := "rate_limit".
Definition ErrorTypeNetworkError := "network_error".
Definition ErrorTypeServiceError := "service_error".
Definition ErrorTypePermanent := "permanent".
Definition ErrorTypeUnknown := "unknown".

Definition retryableErrorPatterns : list string :=
  ["timeout"; "connection refused"; "connection reset"; "temporary failure"; "rate limit";
   "429"; "503"; "504"; "network"; "EOF"].

(** A nil error is [None]. *)
Definition IsRetryable (err : option string) : bool :=
  match err with
  | None => false
  | Some e => existsb (λ pattern, contains (to_lower e) (to_lower pattern)) retryableErrorPatterns
  end.

Definition GetErrorType (err : option string) : string :=
  match err with
  | None => ErrorTypeUnknown
  | Some e =>
      let errStr := to_lower e in
      if contains errStr "timeout" then ErrorTypeTimeout
      else if contains errStr "rate limit" || contains errStr "429" then ErrorTypeRateLimit
      else if contains errStr "connection" || contains errStr "network" then ErrorTypeNetworkError
      else if contains errStr "503" || contains errStr "504" then ErrorTypeServiceError
      else if contains errStr "temporary" then ErrorTypeTransient
      else ErrorTypePermanent
  end.

Definition GetRetryStrategy (err : option string) : Strategy :=
  let errorType := GetErrorType err in
  if bool_decide (errorType = ErrorTypeRateLimit)
  then NewExponentialBackoffStrategy 5 (sec 5) (sec 60) (f64_of_Z 2)
  else if bool_decide (errorType = ErrorTypeTimeout) || bool_decide (errorType = ErrorTypeNetworkError)
  then NewExponentialBackoffStrategy 3 (sec 1) (sec 30) (f64_of_Z 2)
  else if bool_decide (errorType = ErrorTypeServiceError)
  then NewFixedDelayStrategy 3 (sec 10)
  else NewExponentialBackoffStrategy 3 (sec 1) (sec 30) (f64_of_Z 2).

(** ** The circuit breaker

    gobreaker's [Execute(req)] asks the breaker whether it accepts the request;
    it either returns the breaker's error at once or runs the request, tells
    the breaker whether it succeeded and returns the request's error.  The
    first argument of each operation is the clock. *)
Record Breaker (B : Type) := {
  brNew : string → B;
  brAccept : Z → B → option string * B;
  brReport : Z → B → bool → B
}.
Arguments brNew {B} _ _.
Arguments brAccept {B} _ _ _.
Arguments brReport {B} _ _ _ _.

(** ** The manager *)

Record RetryConfig := {
  rcOperationID : string;
  rcStrategy : string;
  rcErrorWorkflow : string
}.

(** What a retried operation does, in order. *)
Inductive retry_effect : Type :=
| OpCall (err : option string)
| Wait (delay : Z)
| ErrorWorkflow (workflowID err : string).

(** The world around one call: the clock of the breaker in each attempt, the
    random source and whether the context is done before each wait is over. *)
Record RetryEnv := {
  reBefore : nat → Z;
  reAfter : nat → Z;
  reRand : nat → Z → Z;
  reDone : nat → option string
}.

Section Manager.
Context {B W : Type} (breaker : Breaker B).

Record Manager := {
  mgStrategies : gmap string Strategy;
  mgCircuitBreakers : gmap string B;
  mgTotalRetries : Z;
  mgSuccessfulRetries : Z;
  mgFailedRetries : Z
}.

Definition RegisterStrategy (m : Manager) (name : string) (s : Strategy) : Manager :=
  {| mgStrategies := <[name := s]> (mgStrategies m); mgCircuitBreakers := mgCircuitBreakers m;
     mgTotalRetries := mgTotalRetries m; mgSuccessfulRetries := mgSuccessfulRetries m;
     mgFailedRetries := mgFailedRetries m |}.

Definition NewManager : Manager :=
  let m := {| mgStrategies := ∅; mgCircuitBreakers := ∅; mgTotalRetries := 0;
              mgSuccessfulRetries := 0; mgFailedRetries := 0 |} in
  let m := RegisterStrategy m "exponential"
             (NewExponentialBackoffStrategy 3 (sec 1) (sec 30) (f64_of_Z 2)) in
  let m := RegisterStrategy m "linear" (NewLinearBackoffStrategy 3 (sec 2)) in
  let m := RegisterStrategy m "fixed" (NewFixedDelayStrategy 3 (sec 5)) in
  RegisterStrategy m "random" (NewRandomJitterStrategy 3 (sec 1) (sec 10)).

Definition GetStrategy (m : Manager) (name : string) : result Strategy :=
  match mgStrategies m !! name with
  | Some s => Ok s
  | None => Err ("strategy not found: " +:+ name)
  end.

(** The strategy a query by name uses, and the value the variable [err] holds
    afterwards: [strategy, err := m.GetStrategy(...)] overwrites the error the
    function was given.  [None]: the default strategy is missing too, and the
    call goes through a nil interface. *)
Definition select_strategy (m : Manager) (name : string) : option (Strategy * option string) :=
  match GetStrategy m name with
  | Ok s => Some (s, None)
  | Err e => (λ s, (s, Some e)) <$> mgStrategies m !! "exponential"
  end.

Definition Manager_ShouldRetry (m : Manager) (err : option string) (attempt : Z)
    (strategyName : string) : option bool :=
  if negb (IsRetryable err) then Some false
  else (λ se, stShouldRetry se.1 se.2 attempt) <$> select_strategy m strategyName.

Definition GetNextDelay (m : Manager) (attempt : Z) (strategyName : string)
    (rand : Z → Z) : option Z :=
  se ← select_strategy m strategyName; stNextDelay se.1 attempt rand.

Definition with_breaker (m : Manager) (id : string) (cb : B) : Manager :=
  {| mgStrategies := mgStrategies m; mgCircuitBreakers := <[id := cb]> (mgCircuitBreakers m);
     mgTotalRetries := mgTotalRetries m; mgSuccessfulRetries := mgSuccessfulRetries m;
     mgFailedRetries := mgFailedRetries m |}.
Definition count_retries (m : Manager) (total successful failed : Z) : Manager :=
  {| mgStrategies := mgStrategies m; mgCircuitBreakers := mgCircuitBreakers m;
     mgTotalRetries := (mgTotalRetries m + total)%Z;
     mgSuccessfulRetries := (mgSuccessfulRetries m + successful)%Z;
     mgFailedRetries := (mgFailedRetries m + failed)%Z |}.

Definition getOrCreateCircuitBreaker (m : Manager) (operationID : string) : B * Manager :=
  match mgCircuitBreakers m !! operationID with
  | Some cb => (cb, m)
  | None => (brNew breaker operationID, with_breaker m operationID (brNew breaker operationID))
  end.

(** One [circuitBreaker.Execute] of the loop: the error it returns, and what
    the operation returned when it was called. *)
Definition guarded_call (env : RetryEnv) (i : nat) (operation : W → option string * W)
    (cb : B) (w : W) : option string * option (option string) * B * W :=
  match brAccept breaker (reBefore env i) cb with
  | (Some e, cb') => (Some e, None, cb', w)
  | (None, cb') =>
      let '(r, w') := operation w in
      (r, Some r, brReport breaker (reAfter env i) cb' (bool_decide (r = None)), w')
  end.

(** [fmt.Errorf("operation failed after %d attempts: %w", n, lastErr)]. *)
Definition exhausted_error (n : Z) (lastErr : option string) : string :=
  "operation failed after " +:+ pretty n +:+ " attempts: " +:+
  match lastErr with Some e => e | None => "%!w(<nil>)" end.

(** The loop of [ExecuteWithRetry] from attempt [i] on, [n] attempts left.
    [tr] is what has happened so far. *)
Fixpoint retry_loop (n i : nat) (env : RetryEnv) (strategy : Strategy) (config : RetryConfig)
    (operation : W → option string * W) (cb : B) (lastErr : option string)
    (m : Manager) (w : W) (tr : list retry_effect) :
    outcome (option string * Manager * W * list retry_effect) :=
  let stop_with (lastErr : option string) (m : Manager) (w : W) (tr : list retry_effect) :=
    Ret (Some (exhausted_error (stMaxAttempts strategy) lastErr), count_retries m 0 0 1, w, tr) in
  match n with
  | O => stop_with lastErr m w tr
  | S n' =>
      let '(err, called, cb, w) := guarded_call env i operation cb w in
      let m := with_breaker m (rcOperationID config) cb in
      let lastErr := default lastErr called in
      let tr := tr ++ from_option (λ r, [OpCall r]) [] called in
      match err with
      | None => Ret (None, count_retries m 0 1 0, w, tr)
      | Some e =>
          let attempt := Z.of_nat (S i) in
          match Manager_ShouldRetry m (Some e) attempt (rcStrategy config) with
          | None => Panic "nil strategy"
          | Some false => stop_with lastErr m w tr
          | Some true =>
              match stNextDelay strategy attempt (reRand env i) with
              | None => Panic "invalid argument to Int63n"
              | Some delay =>
                  let m := count_retries m 1 0 0 in
                  let tr := tr ++ [Wait delay] in
                  match reDone env i with
                  | Some ctxErr => Ret (Some ctxErr, m, w, tr)
                  | None =>
                      let tr := tr ++
                        (if negb (bool_decide (rcErrorWorkflow config = ""))
                            && bool_decide (Z.of_nat i = (stMaxAttempts strategy - 1)%Z)
                         then [ErrorWorkflow (rcErrorWorkflow config) e] else []) in
                      retry_loop n' (S i) env strategy config operation cb lastErr m w tr
                  end
              end
          end
      end
  end.

Definition ExecuteWithRetry (env : RetryEnv) (m : Manager) (operation : W → option string * W)
    (config : RetryConfig) (w : W) :
    outcome (option string * Manager * W * list retry_effect) :=
  let config :=
    {| rcOperationID := rcOperationID config;
       rcStrategy := if bool_decide (rcStrategy config = "") then "exponential" else rcStrategy config;
       rcErrorWorkflow := rcErrorWorkflow config |} in
  match GetStrategy m (rcStrategy config) with
  | Err e => Ret (Some e, m, w, [])
  | Ok strategy =>
      let '(cb, m) := getOrCreateCircuitBreaker m (rcOperationID config) in
      retry_loop (Z.to_nat (stMaxAttempts strategy)) 0 env strategy config operation cb None m w []
  end.

(** ** Specification of the loop *)

Definition calls (tr : list retry_effect) : list (option string) :=
  omap (λ e, match e with OpCall r => Some r | _ => None end) tr.
Definition waits (tr : list retry_effect) : list Z :=
  omap (λ e, match e with Wait d => Some d | _ => None end) tr.

Lemma calls_app t1 t2 : calls (t1 ++ t2) = calls t1 ++ calls t2.
Proof. apply omap_app. Qed.
Lemma waits_app t1 t2 : waits (t1 ++ t2) = waits t1 ++ waits t2.
Proof. apply omap_app. Qed.
#[local] Hint Rewrite calls_app waits_app : linkflow.

(** The results of running [operation] [n] times, and the world after it. *)
Fixpoint run_results (operation : W → option string * W) (n : nat) (w : W) : list (option string) :=
  match n with O => [] | S n' => (operation w).1 :: run_results operation n' (operation w).2 end.
Fixpoint run_world (operation : W → option string * W) (n : nat) (w : W) : W :=
  match n with O => w | S n' => run_world operation n' (operation w).2 end.

(** A breaker that accepts every request. *)
Definition accepting : Prop := ∀ t b, (brAccept breaker t b).1 = None.

(** What the loop does from attempt [i] with [n] attempts left: the calls [cs]
    and waits [ws] it adds, and how it ends. *)
Record retry_post (env : RetryEnv) (strategy : Strategy) (operation : W → option string * W)
    (n i : nat) (m : Manager) (w : W) (cs : list (option string)) (ws : list Z)
    (err : option string) (m' : Manager) (w' : W) : Prop := {
  rp_calls : length cs ≤ n;
  rp_results : cs = run_results operation (length cs) w;
  rp_world : w' = run_world operation (length cs) w;
  rp_success : err = None ↔ last cs = Some None;
  rp_retried : ∀ k r, cs !! k = Some r → S k < length cs → IsRetryable r = true;
  rp_waits : ∀ k d, ws !! k = Some d →
    stNextDelay strategy (Z.of_nat (S (i + k))) (reRand env (i + k)) = Some d;
  rp_total : mgTotalRetries m' = (mgTotalRetries m + Z.of_nat (length ws))%Z;
  rp_successful : mgSuccessfulRetries m' =
    (mgSuccessfulRetries m + if decide (err = None) then 1 else 0)%Z;
  rp_strategies : mgStrategies m' = mgStrategies m;
  rp_persistent : accepting → err ≠ None →
    length cs = n ∨ (∃ k e, reDone env k = Some e ∧ err = Some e) ∨
    ∃ r, last cs = Some r ∧
      (IsRetryable r = false ∨ stShouldRetry strategy None (Z.of_nat (i + length cs)) = false)
}.

(** The manager's counters and strategies, up to the breakers. *)
Lemma retry_post_breaker env strategy operation n i m id b w cs ws err m' w' :
  retry_post env strategy operation n i (with_breaker m id b) w cs ws err m' w' →
  retry_post env strategy operation n i m w cs ws err m' w'.
Proof. by intros []. Qed.

(** An attempt that ends the loop with the results [cs] of at most one call. *)
Lemma retry_post_stop env strategy operation n i m w cs ws err m' w' :
  length cs ≤ 1 → cs = run_results operation (length cs) w → w' = run_world operation (length cs) w →
  (err = None ↔ last cs = Some None) →
  length ws ≤ 1 → (∀ d, last ws = Some d → stNextDelay strategy (Z.of_nat (S i)) (reRand env i) = Some d) →
  mgTotalRetries m' = (mgTotalRetries m + Z.of_nat (length ws))%Z →
  mgSuccessfulRetries m' = (mgSuccessfulRetries m + if decide (err = None) then 1 else 0)%Z →
  mgStrategies m' = mgStrategies m →
  (accepting → err ≠ None →
     (∃ k e, reDone env k = Some e ∧ err = Some e) ∨
     ∃ r, last cs = Some r ∧
       (IsRetryable r = false ∨ stShouldRetry strategy None (Z.of_nat (i + length cs)) = false)) →
  retry_post env strategy operation (S n) i m w cs ws err m' w'.
Proof.
  intros Hc Hr Hw Hs Hl Hd Ht Hsu Hst Hp. split; try done; [lia| | |by auto].
  - intros k r Hk Hlt. lia.
  - intros k d Hk. destruct ws as [|d0 [|]]; simpl in Hl; [done| |lia].
    destruct k; [|done]. rewrite Nat.add_0_r. by apply Hd.
Qed.

(** An attempt followed by a wait and the rest of the loop. *)
Lemma retry_post_retry env strategy operation n i m m1 w w1 c d cs ws err m' w' :
  (c = [] ∧ w1 = w ∧ ¬ accepting ∨ ∃ e, operation w = (Some e, w1) ∧ c = [Some e] ∧ IsRetryable (Some e) = true) →
  stNextDelay strategy (Z.of_nat (S i)) (reRand env i) = Some d →
  mgTotalRetries m1 = (mgTotalRetries m + 1)%Z → mgSuccessfulRetries m1 = mgSuccessfulRetries m →
  mgStrategies m1 = mgStrategies m →
  retry_post env strategy operation n (S i) m1 w1 cs ws err m' w' →
  retry_post env strategy operation (S n) i m w (c ++ cs) (d :: ws) err m' w'.
Proof.
  intros Hc Hd Ht Hsu Hst []. split; try congruence.
  - destruct Hc as [[-> _]|(e & _ & -> & _)]; simpl; lia.
  - destruct Hc as [(-> & -> & _)|(e & He & -> & _)]; simpl; [done|]. rewrite He. simpl. by f_equal.
  - destruct Hc as [(-> & -> & _)|(e & He & -> & _)]; simpl; [done|]. by rewrite He.
  - destruct Hc as [(-> & _)|(e & _ & -> & _)]; [done|]. rewrite rp_success0. simpl.
    destruct cs; [done|]. by rewrite last_cons_cons.
  - intros k r Hk Hlt. destruct Hc as [(-> & _)|(e & _ & -> & He)]; [by eapply rp_retried0|].
    destruct k; simpl in *; [by injection Hk as <-|]. eapply rp_retried0; [done|lia].
  - intros [|k] d' Hk; simpl in Hk; [injection Hk as <-; by rewrite Nat.add_0_r|].
    replace (i + S k) with (S i + k) by lia. by apply rp_waits0.
  - rewrite rp_total0, Ht. simpl. lia.
  - intros Ha Hne. destruct Hc as [(_ & _ & Hna)|(e & _ & -> & _)]; [done|].
    destruct (rp_persistent0 Ha Hne) as [Hn|[?|(r & Hl & Hr)]]; [left; simpl; lia|by auto|].
    right; right. exists r. rewrite last_app, Hl. split; [done|].
    rewrite length_app. simpl. by replace (i + S (length cs)) with (S i + length cs) by lia.
Qed.

(** [guarded_call] either is refused without touching the world or runs the
    operation once. *)
Lemma guarded_call_cases env i operation cb w :
  let '(err, called, cb', w') := guarded_call env i operation cb w in
  (called = None ∧ err ≠ None ∧ w' = w ∧ ¬ accepting) ∨
  (called = Some err ∧ operation w = (err, w')).
Proof.
  unfold guarded_call. destruct (brAccept _ _ _) as [[e|] cb'] eqn:Ha.
  - left. split_and!; [done..|]. intros H. specialize (H (reBefore env i) cb). by rewrite Ha in H.
  - destruct (operation w). by right.
Qed.

(** The calls one attempt makes, at most one, and what they leave behind. *)
Lemma guarded_call_run env i operation cb w :
  let '(err, called, cb', w') := guarded_call env i operation cb w in
  let cs := from_option (λ r, [r]) [] called in
  let tr := from_option (λ r, [OpCall r]) [] called in
  calls tr = cs ∧ waits tr = [] ∧ length cs ≤ 1 ∧ cs = run_results operation (length cs) w ∧
  w' = run_world operation (length cs) w ∧ (err = None ↔ last cs = Some None) ∧
  (accepting → last cs = Some err ∧ length cs = 1).
Proof.
  pose proof (guarded_call_cases env i operation cb w) as Hg.
  destruct (guarded_call env i operation cb w) as [[[err called] cb'] w'].
  destruct Hg as [(-> & ? & -> & ?)|[-> Hop]]; simpl.
  - split_and!; try done; try lia; naive_solver.
  - rewrite Hop. simpl. split_and!; try done; naive_solver.
Qed.

(** The wait the loop enters after a retryable failure. *)
Lemma Manager_ShouldRetry_registered m e attempt config strategy :
  mgStrategies m !! rcStrategy config = Some strategy →
  Manager_ShouldRetry m (Some e) attempt (rcStrategy config) =
  Some (IsRetryable (Some e) && stShouldRetry strategy None attempt).
Proof.
  intros Hs. unfold Manager_ShouldRetry, select_strategy, GetStrategy. rewrite Hs.
  by destruct (IsRetryable (Some e)).
Qed.

Lemma retry_loop_spec n i env strategy config operation cb lastErr m w tr :
  (∀ a r, is_Some (stNextDelay strategy a r)) →
  mgStrategies m !! rcStrategy config = Some strategy →
  ∃ err m' w' tr' cs ws,
    retry_loop n i env strategy config operation cb lastErr m w tr = Ret (err, m', w', tr') ∧
    calls tr' = calls tr ++ cs ∧ waits tr' = waits tr ++ ws ∧
    retry_post env strategy operation n i m w cs ws err m' w'.
Proof.
  intros Hd. revert i cb lastErr m w tr. induction n as [|n IH]; intros i cb lastErr m w tr Hs; cbn [retry_loop].
  { eexists _, _, _, _, [], []. split; [done|]. rewrite !app_nil_r. split_and!; [done..|].
    split; simpl; try done; lia. }
  pose proof (guarded_call_cases env i operation cb w) as Hg.
  pose proof (guarded_call_run env i operation cb w) as Hrun.
  destruct (guarded_call env i operation cb w) as [[[err called] cb'] w1]. cbv zeta in Hrun.
  set (m1 := with_breaker m (rcOperationID config) cb').
  set (cs0 := from_option (λ r, [r]) [] called : list (option string)) in *.
  destruct Hrun as (Hcs0 & Hws0 & Hr1 & Hr2 & Hr3 & Hr4 & Hlast).
  destruct err as [e|].
  2:{ eexists _, _, _, _, cs0, []. split; [done|]. autorewrite with linkflow. rewrite Hcs0, Hws0, !app_nil_r.
      split_and!; [done..|]. apply retry_post_stop; simpl; try done; lia. }
  rewrite (Manager_ShouldRetry_registered _ _ _ _ strategy) by done.
  destruct (IsRetryable (Some e) && stShouldRetry strategy None (Z.of_nat (S i))) eqn:Hsr.
  2:{ eexists _, _, _, _, cs0, []. split; [done|]. autorewrite with linkflow. rewrite Hcs0, Hws0, !app_nil_r.
      split_and!; [done..|]. apply retry_post_stop; simpl; try done; try lia; [naive_solver|].
      intros Ha _. right. destruct (Hlast Ha) as [-> ->]. eexists. split; [done|].
      rewrite Nat.add_1_r. by apply andb_false_iff. }
  apply andb_true_iff in Hsr as [Hret Hsh].
  destruct (Hd (Z.of_nat (S i)) (reRand env i)) as [d Hdl]. rewrite Hdl.
  destruct (reDone env i) as [ce|] eqn:Hdone.
  { eexists _, _, _, _, cs0, [d]. split; [done|]. autorewrite with linkflow. rewrite Hcs0, Hws0, !app_nil_r.
    split_and!; [done..|]. apply retry_post_stop; simpl; try done; try lia; [naive_solver|by intros ? [= <-]|].
    intros _ _. left. by exists i, ce. }
  match goal with |- context [retry_loop n (S i) env strategy config operation cb' ?le ?mm w1 ?tt] =>
    destruct (IH (S i) cb' le mm w1 tt Hs) as (err & m' & w' & tr' & cs & ws & -> & Hc & Hw & Hpost) end.
  eexists _, _, _, _, (cs0 ++ cs), (d :: ws). split; [done|].
  assert (Hq : ∀ b : bool, calls (if b then [ErrorWorkflow (rcErrorWorkflow config) e] else []) = [] ∧
                    waits (if b then [ErrorWorkflow (rcErrorWorkflow config) e] else []) = []) by by intros [].
  rewrite Hc, Hw. autorewrite with linkflow. rewrite Hcs0, Hws0, (proj1 (Hq _)), (proj2 (Hq _)). simpl.
  rewrite ?app_nil_r, <- ?app_assoc. split_and!; [done..|].
  eapply retry_post_retry; [|done| | | |exact Hpost]; simpl; try done; try lia.
  destruct Hg as [(-> & _ & -> & ?)|[-> Hop]]; [by left|right]. by exists e.
Qed.

(** [ExecuteWithRetry] with a registered strategy whose delays are defined
    always returns.  It calls the operation at most [MaxAttempts] times, one
    call after the other, and again only after a retryable failure; it returns
    nil exactly when the last call succeeded; the waits are the strategy's
    delays in order, and the counters record them and the success.  With a
    breaker that accepts every request it gives up only when the attempts are
    used up, the context is done, or the last failure is not to be retried.
    All this holds for any circuit breaker. *)
Lemma ExecuteWithRetry_correct env m operation config strategy w :
  rcStrategy config ≠ "" → mgStrategies m !! rcStrategy config = Some strategy →
  (∀ a r, is_Some (stNextDelay strategy a r)) →
  ∃ err m' w' tr, ExecuteWithRetry env m operation config w = Ret (err, m', w', tr) ∧
    retry_post env strategy operation (Z.to_nat (stMaxAttempts strategy)) 0 m w
      (calls tr) (waits tr) err m' w'.
Proof.
  intros Hne Hs Hd. unfold ExecuteWithRetry, GetStrategy. simpl.
  rewrite bool_decide_eq_false_2 by done. rewrite Hs.
  destruct (getOrCreateCircuitBreaker m (rcOperationID config)) as [cb m1] eqn:Hcb.
  assert (m1 = m ∨ ∃ b, m1 = with_breaker m (rcOperationID config) b) as Hm1.
  { unfold getOrCreateCircuitBreaker in Hcb. destruct (mgCircuitBreakers m !! _); simplify_eq; eauto. }
  assert (mgStrategies m1 !! rcStrategy config = Some strategy) as Hs1 by by destruct Hm1 as [->|[b ->]].
  match goal with |- context [retry_loop ?n 0 env strategy ?c operation cb None m1 w []] =>
    destruct (retry_loop_spec n 0 env strategy c operation cb None m1 w [] Hd Hs1)
      as (err & m' & w' & tr & cs & ws & Hrun & Hc & Hw & Hpost) end.
  simpl in Hc, Hw. subst cs ws. exists err, m', w', tr. split; [exact Hrun|].
  destruct Hm1 as [->|[b ->]]; [done|]. by apply retry_post_breaker in Hpost.
Qed.

End Manager.

(** A breaker that never trips. *)
Definition open_door : Breaker unit :=
  {| brNew := λ _, tt; brAccept := λ _ b, (None, b); brReport := λ _ b _, b |}.
Definition calm_env : RetryEnv :=
  {| reBefore := λ _, 0%Z; reAfter := λ _, 0%Z; reRand := λ _ _, 0%Z; reDone := λ _, None |}.
(** An operation that times out [n] times and then succeeds. *)
Definition flaky_operation (n : nat) : option string * nat :=
  match n with O => (None, O) | S n' => (Some "i/o timeout", n') end.
Definition demo_retry_config : RetryConfig :=
  {| rcOperationID := "op"; rcStrategy := "fixed"; rcErrorWorkflow := "" |}.

Lemma demo_retry_run :
  match ExecuteWithRetry open_door calm_env NewManager flaky_operation demo_retry_config 2 with
  | Ret (err, _, w, tr) => err = None ∧ w = 0 ∧ waits tr = [sec 5; sec 5]
  | _ => False
  end.
Proof. vm_compute. done. Qed.

Lemma ExecuteWithRetry_correct_witness :
  ∃ m' tr, ExecuteWithRetry open_door calm_env NewManager flaky_operation demo_retry_config 2 =
      Ret (None, m', 0, tr) ∧ waits tr = [sec 5; sec 5] ∧ mgTotalRetries m' = 2%Z.
Proof.
  destruct (ExecuteWithRetry_correct open_door calm_env NewManager flaky_operation
    demo_retry_config (NewFixedDelayStrategy 3 (sec 5)) 2) as (err & m' & w' & tr & Hrun & Hpost);
    [discriminate|reflexivity|intros a r; eexists; reflexivity|].
  pose proof demo_retry_run as Hd. rewrite Hrun in Hd. destruct Hd as (-> & -> & Hw).
  exists m', tr. split_and!; [exact Hrun|exact Hw|].
  rewrite (rp_total _ _ _ _ _ _ _ _ _ _ _ _ _ Hpost), Hw. reflexivity.
Defined.

(** The strategies a new manager registers wait between one and ten seconds in
    each of their three attempts, whatever the random source draws within its
    bounds. *)
Lemma default_delays_bounded name s attempt rand :
  mgStrategies (NewManager (B := unit)) !! name = Some s →
  (1 ≤ attempt ≤ stMaxAttempts s)%Z → (∀ n, 0 < n → 0 ≤ rand n < n)%Z →
  ∃ d, stNextDelay s attempt rand = Some d ∧ (sec 1 ≤ d ≤ sec 10)%Z.
Proof.
  intros Hs Ha Hr. unfold NewManager, RegisterStrategy in Hs. simpl in Hs.
  rewrite !lookup_insert_Some, lookup_empty in Hs.
  destruct Hs as [[_ <-]|[_ [[_ <-]|[_ [[_ <-]|[_ [[_ <-]|[_ [=]]]]]]]]]; simpl in Ha.
  - eexists. split; [reflexivity|]. cbv zeta.
    change (wrap64 (sec 10 - sec 1)) with (sec 9). specialize (Hr (sec 9) ltac:(done)).
    unfold sec in *. rewrite wrap64_id; lia.
  - eexists. split; [reflexivity|]. done.
  - eexists. split; [reflexivity|]. unfold sec. rewrite wrap64_id; lia.
  - eexists. split; [reflexivity|].
    assert (attempt = 1 ∨ attempt = 2 ∨ attempt = 3)%Z as [->|[->| ->]] by lia; by vm_compute.
Qed.

(** ** pkg/resilience/retry.go *)

Record ResilienceConfig := {
  rsMaxAttempts : Z;
  rsInitialDelay : Z;
  rsMaxDelay : Z;
  rsBackoffMultiplier : spec_float;
  rsJitter : spec_float;
  rsRetryableErrors : list string;
  rsShouldRetry : option (string → bool)
}.

Definition DefaultRetryConfig : ResilienceConfig :=
  {| rsMaxAttempts := 3; rsInitialDelay := 100 * 1000000; rsMaxDelay := sec 10;
     rsBackoffMultiplier := f64_of_Z 2; rsJitter := f64_div (f64_of_Z 1) (f64_of_Z 10);
     rsRetryableErrors := []; rsShouldRetry := None |}.

(** [calculateDelay]; [rand] is the draw of [rand.Float64]. *)
Definition calculateDelay (cfg : ResilienceConfig) (attempt : Z) (rand : spec_float) : Z :=
  let delay := f64_mul (f64_of_Z (rsInitialDelay cfg)) (f64_pow (rsBackoffMultiplier cfg) attempt) in
  let delay :=
    if f64_ltb (S754_zero false) (rsJitter cfg) then
      let jitterRange := f64_mul delay (rsJitter cfg) in
      f64_add (f64_sub delay jitterRange) (f64_mul (f64_mul rand (f64_of_Z 2)) jitterRange)
    else delay in
  let delay := if f64_ltb (f64_of_Z (rsMaxDelay cfg)) delay then f64_of_Z (rsMaxDelay cfg) else delay in
  f64_trunc delay.

(** The context's error before attempt [i] and during the wait after it, and
    the random draw of that wait. *)
Record ResilienceEnv := {
  rvBefore : nat → option string;
  rvDuring : nat → option string;
  rvRand : nat → spec_float
}.

Definition retry_refused (cfg : ResilienceConfig) (err : string) : bool :=
  match rsShouldRetry cfg with Some f => negb (f err) | None => false end.

(** The loop of [Retry] from attempt [i], [n] attempts left; also the number
    of calls and the delays waited for. *)
Fixpoint Retry_loop {W} (n i : nat) (cfg : ResilienceConfig) (env : ResilienceEnv)
    (fn : W → option string * W) (lastErr : option string) (w : W) :
    option string * W * nat * list Z :=
  match n with
  | O => (lastErr, w, 0, [])
  | S n' =>
      match rvBefore env i with
      | Some e => (Some e, w, 0, [])
      | None =>
          let '(err, w) := fn w in
          match err with
          | None => (None, w, 1, [])
          | Some e =>
              if retry_refused cfg e then (Some e, w, 1, [])
              else if bool_decide (Z.of_nat i < rsMaxAttempts cfg - 1)%Z then
                let delay := calculateDelay cfg (Z.of_nat i) (rvRand env i) in
                match rvDuring env i with
                | Some ce => (Some ce, w, 1, [delay])
                | None =>
                    let '(r, w, k, ds) := Retry_loop n' (S i) cfg env fn (Some e) w in
                    (r, w, S k, delay :: ds)
                end
              else
                let '(r, w, k, ds) := Retry_loop n' (S i) cfg env fn (Some e) w in
                (r, w, S k, ds)
          end
      end
  end.
Definition Retry {W} (cfg : ResilienceConfig) (env : ResilienceEnv) (fn : W → option string * W)
    (w : W) : option string * W * nat * list Z :=
  Retry_loop (Z.to_nat (rsMaxAttempts cfg)) 0 cfg env fn None w.

(** [RetryWithResult]: both results of [fn] and of the whole, a Go pair of a
    value and an error. *)
Fixpoint RetryWithResult_loop {W T} (n i : nat) (cfg : ResilienceConfig) (env : ResilienceEnv)
    (zero : T) (fn : W → T * option string * W) (lastErr : option string) (w : W) :
    T * option string * W * nat * list Z :=
  match n with
  | O => (zero, lastErr, w, 0, [])
  | S n' =>
      match rvBefore env i with
      | Some e => (zero, Some e, w, 0, [])
      | None =>
          let '(result, err, w) := fn w in
          match err with
          | None => (result, None, w, 1, [])
          | Some e =>
              if retry_refused cfg e then (zero, Some e, w, 1, [])
              else if bool_decide (Z.of_nat i < rsMaxAttempts cfg - 1)%Z then
                let delay := calculateDelay cfg (Z.of_nat i) (rvRand env i) in
                match rvDuring env i with
                | Some ce => (zero, Some ce, w, 1, [delay])
                | None =>
                    let '(x, r, w, k, ds) := RetryWithResult_loop n' (S i) cfg env zero fn (Some e) w in
                    (x, r, w, S k, delay :: ds)
                end
              else
                let '(x, r, w, k, ds) := RetryWithResult_loop n' (S i) cfg env zero fn (Some e) w in
                (x, r, w, S k, ds)
          end
      end
  end.
Definition RetryWithResult {W T} (cfg : ResilienceConfig) (env : ResilienceEnv) (zero : T)
    (fn : W → T * option string * W) (w : W) : T * option string * W * nat * list Z :=
  RetryWithResult_loop (Z.to_nat (rsMaxAttempts cfg)) 0 cfg env zero fn None w.

Definition IsRetryableHTTPStatus (statusCode : Z) : bool :=
  bool_decide (statusCode ∈ [408; 429; 500; 502; 503; 504]%Z).

(** [fn] of a call of [RetryWithResult] with its value forgotten. *)
Definition forget_value {W T} (fn : W → T * option string * W) (w : W) : option string * W :=
  let '(_, err, w) := fn w in (err, w).

(** Once a call has failed, success needs another call. *)
Lemma RetryWithResult_loop_called {W T} n i cfg env (zero : T) (fn : W → T * option string * W) e w :
  let '(_, err, _, k, _) := RetryWithResult_loop n i cfg env zero fn (Some e) w in
  err = None → k ≠ 0.
Proof.
  destruct n as [|n]; simpl; [done|]. destruct (rvBefore env i); [done|].
  destruct (fn w) as [[x [e'|]] w1]; [|done]. destruct (retry_refused cfg e'); [done|].
  destruct (RetryWithResult_loop _ _ _ _ _ _ _ _) as [[[[y err] w2] k] ds].
  case_bool_decide; [destruct (rvDuring env i)|]; done.
Qed.

Lemma RetryWithResult_loop_forget {W T} n i cfg env (zero : T) (fn : W → T * option string * W) le w :
  let '(x, err, w', k, ds) := RetryWithResult_loop n i cfg env zero fn le w in
  Retry_loop n i cfg env (forget_value fn) le w = (err, w', k, ds) ∧
  (err ≠ None → x = zero) ∧
  (err = None → match k with O => x = zero | S j => x = (fn (run_world (forget_value fn) j w)).1.1 end).
Proof.
  revert i le w. induction n as [|n IH]; intros i le w; simpl; [done|].
  destruct (rvBefore env i); [done|]. unfold forget_value at 1.
  destruct (fn w) as [[x [e|]] w1] eqn:Hf; [|simpl; by rewrite Hf].
  destruct (retry_refused cfg e); [done|]. specialize (IH (S i) (Some e) w1).
  pose proof (RetryWithResult_loop_called n (S i) cfg env zero fn e w1) as Hk.
  destruct (RetryWithResult_loop _ _ _ _ _ _ _ _) as [[[[y err] w2] k] ds]. destruct IH as (-> & Hz & Hx).
  assert (∀ j, run_world (forget_value fn) (S j) w = run_world (forget_value fn) j w1) as Hw.
  { intros j. simpl. unfold forget_value at 2. by rewrite Hf. }
  assert (err = None → y = (fn (run_world (forget_value fn) k w)).1.1) as Hy.
  { intros ->. destruct k as [|k]; [by destruct (Hk eq_refl)|]. rewrite Hw. by apply Hx. }
  case_bool_decide; [destruct (rvDuring env i)|]; done.
Qed.

(** What [Retry] does from attempt [i] with [n] attempts left. *)
Definition resilience_post {W} (cfg : ResilienceConfig) (env : ResilienceEnv)
    (fn : W → option string * W) (n i : nat) (le : option string) (w : W)
    (err : option string) (w' : W) (k : nat) (ds : list Z) : Prop :=
  let cs := run_results fn k w in
  k ≤ n ∧ w' = run_world fn k w ∧
  (∀ j r, cs !! j = Some r → S j < k → ∃ e, r = Some e ∧ retry_refused cfg e = false) ∧
  (err = None ↔ (n = 0 ∧ le = None) ∨ last cs = Some None) ∧
  (∀ j d, ds !! j = Some d → d = calculateDelay cfg (Z.of_nat (i + j)) (rvRand env (i + j))) ∧
  (length ds < n ∨ n = 0 ∧ ds = []) ∧
  (err ≠ None → (∃ j e, (rvBefore env j = Some e ∨ rvDuring env j = Some e) ∧ err = Some e) ∨
     k = n ∧ err = default le (last cs) ∨
     ∃ e, last cs = Some (Some e) ∧ err = Some e ∧ retry_refused cfg e = true).

(** One failed call before the rest of the loop. *)
Lemma resilience_post_cons {W} cfg env (fn : W → option string * W) n i le w e w1 d err w' k ds :
  fn w = (Some e, w1) → retry_refused cfg e = false → 0 < n →
  d = calculateDelay cfg (Z.of_nat i) (rvRand env i) →
  resilience_post cfg env fn n (S i) (Some e) w1 err w' k ds →
  resilience_post cfg env fn (S n) i le w err w' (S k) (d :: ds).
Proof.
  intros Hf Hr Hn -> (H1 & H2 & H3 & H4 & H5 & H6 & H7). unfold resilience_post.
  cbn [run_results run_world]. rewrite Hf. simpl. split_and!.
  - lia.
  - done.
  - intros [|j] r Hj Hlt; simpl in Hj; [injection Hj as <-; eauto|]. apply (H3 j); [done|lia].
  - rewrite H4. destruct k; simpl; [naive_solver lia|]. naive_solver lia.
  - intros [|j] d Hj; simpl in Hj; [injection Hj as <-; by rewrite Nat.add_0_r|].
    rewrite (H5 j d Hj). by replace (S i + j) with (i + S j) by lia.
  - left. destruct H6 as [?|[? _]]; simpl; lia.
  - intros Herr. destruct (H7 Herr) as [?|[[-> Hd]|(e' & Hl & -> & ?)]]; [by left| |].
    { right; left. split; [done|]. rewrite last_cons, Hd. by destruct (last _). }
    right; right. exists e'. split_and!; [|done..]. destruct k; [done|]. by rewrite <- Hl.
Qed.

Lemma Retry_loop_spec {W} n i cfg env (fn : W → option string * W) le w :
  Z.of_nat (i + n) = Z.max (Z.of_nat i) (rsMaxAttempts cfg) →
  let '(err, w', k, ds) := Retry_loop n i cfg env fn le w in
  resilience_post cfg env fn n i le w err w' k ds.
Proof.
  revert i le w. induction n as [|n IH]; intros i le w Hi; cbn [Retry_loop].
  { unfold resilience_post. split_and!; simpl; try done; naive_solver. }
  destruct (rvBefore env i) as [ce|] eqn:Hb.
  { unfold resilience_post. split_and!; simpl; try done; try lia; naive_solver lia. }
  destruct (fn w) as [[e|] w1] eqn:Hf; simpl.
  2:{ unfold resilience_post. cbn [run_results run_world]. rewrite Hf. simpl.
      split_and!; try done; try lia; naive_solver lia. }
  assert (∀ err ds, err ≠ None → length ds < S n →
    (∀ j d, ds !! j = Some d → d = calculateDelay cfg (Z.of_nat (i + j)) (rvRand env (i + j))) →
    ((∃ j e, (rvBefore env j = Some e ∨ rvDuring env j = Some e) ∧ err = Some e) ∨
     1 = S n ∧ err = Some e ∨ err = Some e ∧ retry_refused cfg e = true) →
    resilience_post cfg env fn (S n) i le w err w1 1 ds) as Hstop.
  { intros err ds Hne Hlen Hds Hc. unfold resilience_post. cbn [run_results run_world]. rewrite Hf. simpl.
    split_and!; try done; try lia; try naive_solver. }
  destruct (retry_refused cfg e) eqn:Hr; [apply Hstop; simpl; try done; try lia; auto|].
  case_bool_decide as Hlast.
  - destruct (rvDuring env i) as [ce|] eqn:Hd.
    + apply Hstop; simpl; try done; [lia| |left; exists i, ce; auto].
      intros [|j] d Hj; simplify_eq/=. by rewrite Nat.add_0_r.
    + specialize (IH (S i) (Some e) w1 ltac:(lia)).
      destruct (Retry_loop n (S i) cfg env fn (Some e) w1) as [[[err w'] k] ds].
      eapply resilience_post_cons; [done..|lia|done|done].
  - assert (n = 0) as -> by lia. simpl. apply Hstop; simpl; try done; [lia|]. auto.
Qed.

(** [Retry] calls [fn] at most [MaxAttempts] times and again only after an
    error that may be retried; it waits only between calls, for the computed
    delays; it returns nil exactly when the last call succeeded or no attempt
    is configured; and an error it returns is the context's, or that of a last
    call with the attempts used up or the error refused. [RetryWithResult]
    does the same and returns the last call's value, or the zero value with an
    error. *)
Lemma Retry_correct {W T} cfg env (zero : T) (fn : W → T * option string * W) w :
  let '(x, err, w', k, ds) := RetryWithResult cfg env zero fn w in
  Retry cfg env (forget_value fn) w = (err, w', k, ds) ∧ (err ≠ None → x = zero) ∧
  (err = None → match k with O => x = zero | S j => x = (fn (run_world (forget_value fn) j w)).1.1 end) ∧
  resilience_post cfg env (forget_value fn) (Z.to_nat (rsMaxAttempts cfg)) 0 None w err w' k ds.
Proof.
  unfold RetryWithResult, Retry.
  pose proof (RetryWithResult_loop_forget (Z.to_nat (rsMaxAttempts cfg)) 0 cfg env zero fn None w) as H.
  pose proof (Retry_loop_spec (Z.to_nat (rsMaxAttempts cfg)) 0 cfg env (forget_value fn) None w
    ltac:(lia)) as Hp.
  destruct (RetryWithResult_loop _ _ _ _ _ _ _ _) as [[[[x err] w'] k] ds].
  destruct H as (H & Hz & Hx). rewrite H in Hp. done.
Qed.
