(* ===== verification/Heap.v ===== *)
(** The binary heap of Go's container/heap ([up], [down], [Fix], [Remove],
    [Init]) over a slice of items with a sort key and a recorded position, as
    internal/execution/app/queue/priority_queue.go uses it. *)

From S2P Require Import Prelude.

Section Heap.
  Context {A B : Type}.
  Context (key : A → Z).             (* Less(i, j) is key i < key j *)
  Context (relabel : nat → A → A).   (* the index field written by Swap *)

(** ** Operations *)

Definition less (l : list A) (i j : nat) : bool :=
  match l !! i, l !! j with
  | Some x, Some y => bool_decide (key x < key y)%Z
  | _, _ => false
  end.

Definition swap (i j : nat) (l : list A) : list A :=
  match l !! i, l !! j with
  | Some x, Some y => <[i := relabel i y]> (<[j := relabel j x]> l)
  | _, _ => l
  end.

Definition parent (j : nat) : nat := (j - 1) / 2.

Fixpoint up (fuel j : nat) (l : list A) : list A :=
  match fuel with
  | O => l
  | S fuel' =>
      let i := parent j in
      if bool_decide (i = j) || negb (less l j i) then l else up fuel' i (swap i j l)
  end.

(** [down] returns the slice and the position the item sank to. *)
Fixpoint down (fuel i n : nat) (l : list A) : list A * nat :=
  match fuel with
  | O => (l, i)
  | S fuel' =>
      let j1 := 2 * i + 1 in
      if bool_decide (n ≤ j1) then (l, i)
      else
        let j2 := j1 + 1 in
        let j := if bool_decide (j2 < n) && less l j2 j1 then j2 else j1 in
        if negb (less l j i) then (l, i) else down fuel' j n (swap i j l)
  end.

Definition down_or_up (i n : nat) (l : list A) : list A :=
  let '(l', i') := down (S n) i n l in
  if bool_decide (i < i') then l' else up (S i) i l'.

Definition Fix (i : nat) (l : list A) : list A := down_or_up i (length l) l.

(** [heap.Remove] up to its final [Pop]: the removed item is in the last slot. *)
Definition Remove_to_end (i : nat) (l : list A) : list A :=
  let n := length l - 1 in
  if bool_decide (n = i) then l else down_or_up i n (swap i n l).

Fixpoint init_from (i n : nat) (l : list A) : list A :=
  match i with
  | O => l
  | S i' => init_from i' n (down (S n) i' n l).1
  end.
Definition Init (l : list A) : list A := init_from (length l / 2) (length l) l.

(** ** Specifications *)

(** Keys by position, 0 out of range. *)
Definition at_ (l : list A) (i : nat) : Z := from_option key 0%Z (l !! i).

(** The first [n] slots form a heap. *)
Definition heap (n : nat) (l : list A) : Prop :=
  ∀ c, 0 < c < n → (at_ l (parent c) ≤ at_ l c)%Z.

(** A heap except that slot [j] may be smaller than its parent. *)
Definition heap_but (j n : nat) (l : list A) : Prop :=
  (∀ c, 0 < c < n → c ≠ j → (at_ l (parent c) ≤ at_ l c)%Z) ∧
  (∀ c, 0 < c < n → parent c = j → 0 < j → (at_ l (parent j) ≤ at_ l c)%Z).

(** A heap except that slot [i] may be out of order with its parent and its
    children. *)
Definition heap_hole (i n : nat) (l : list A) : Prop :=
  (∀ c, 0 < c < n → c ≠ i → parent c ≠ i → (at_ l (parent c) ≤ at_ l c)%Z) ∧
  (∀ c, 0 < c < n → parent c = i → 0 < i → (at_ l (parent i) ≤ at_ l c)%Z).

  Context (erase : A → B).
  Hypothesis key_relabel : ∀ i x, key (relabel i x) = key x.
  Hypothesis erase_relabel : ∀ i x, erase (relabel i x) = erase x.

Lemma parent_lt j : 0 < j → parent j < j.
Proof. intros. unfold parent. apply Nat.Div0.div_lt_upper_bound; lia. Qed.

Lemma parent_child c i : 0 < c → parent c = i ↔ c = 2 * i + 1 ∨ c = 2 * i + 2.
Proof.
  intros Hc. unfold parent. pose proof (Nat.div_mod_eq (c - 1) 2).
  pose proof (Nat.mod_upper_bound (c - 1) 2). lia.
Qed.

(** ** Swapping *)

Lemma length_swap i j l : length (swap i j l) = length l.
Proof. unfold swap. destruct (l !! i), (l !! j); by rewrite ?length_insert. Qed.

Lemma swap_lookup i j l k x y :
  l !! i = Some x → l !! j = Some y →
  swap i j l !! k = if decide (k = i) then Some (relabel i y)
                    else if decide (k = j) then Some (relabel j x) else l !! k.
Proof.
  intros Hi Hj. unfold swap. rewrite Hi, Hj.
  apply lookup_lt_Some in Hi as ?. apply lookup_lt_Some in Hj as ?.
  destruct (decide (k = i)) as [->|Hki].
  { apply list_lookup_insert_eq. by rewrite length_insert. }
  rewrite list_lookup_insert_ne by done.
  destruct (decide (k = j)) as [->|Hkj]; [by apply list_lookup_insert_eq|].
  by rewrite list_lookup_insert_ne by done.
Qed.

Lemma at_swap i j l k :
  i < length l → j < length l →
  at_ (swap i j l) k = at_ l (if decide (k = i) then j else if decide (k = j) then i else k).
Proof.
  intros [x Hx]%lookup_lt_is_Some [y Hy]%lookup_lt_is_Some.
  unfold at_. rewrite (swap_lookup i j l k x y Hx Hy).
  repeat case_decide; subst; rewrite ?Hx, ?Hy; simpl; by rewrite ?key_relabel.
Qed.

Lemma less_at l i j :
  i < length l → j < length l → less l i j = bool_decide (at_ l i < at_ l j)%Z.
Proof.
  intros [x Hx]%lookup_lt_is_Some [y Hy]%lookup_lt_is_Some.
  unfold less, at_. by rewrite Hx, Hy.
Qed.

Lemma swap_perm i j l : erase <$> swap i j l ≡ₚ erase <$> l.
Proof.
  destruct (l !! i) as [x|] eqn:Hx; [|by unfold swap; rewrite Hx].
  destruct (l !! j) as [y|] eqn:Hy; [|by unfold swap; rewrite Hx, Hy].
  apply Permutation_inj. rewrite !length_fmap, length_swap. split; [done|].
  exists (λ k, if decide (k = i) then j else if decide (k = j) then i else k). split.
  - intros a b. repeat case_decide; congruence.
  - intros k. rewrite !list_lookup_fmap, (swap_lookup i j l k x y) by done.
    repeat case_decide; subst; rewrite ?Hx, ?Hy; simpl; by rewrite ?erase_relabel.
Qed.

(** Positions recorded in the items. *)
Context (index : A → Z).
Hypothesis index_relabel : ∀ i x, index (relabel i x) = Z.of_nat i.

Definition indexed (l : list A) : Prop := ∀ i x, l !! i = Some x → index x = Z.of_nat i.

Lemma indexed_swap i j l : indexed l → indexed (swap i j l).
Proof.
  intros Hl k z.
  destruct (l !! i) as [x|] eqn:Hx; [|unfold swap; rewrite Hx; apply Hl].
  destruct (l !! j) as [y|] eqn:Hy; [|unfold swap; rewrite Hx, Hy; apply Hl].
  rewrite (swap_lookup i j l k x y Hx Hy).
  repeat case_decide; subst; [by intros [= <-]..|]. apply Hl.
Qed.

(** Properties every swap preserves hold of all the operations. *)
Section Preserve.
  Context (P : list A → Prop).
  Hypothesis P_swap : ∀ i j l, P l → P (swap i j l).

Lemma up_preserve fuel j l : P l → P (up fuel j l).
Proof.
  revert j l. induction fuel as [|fuel IH]; intros j l Hl; simpl; [done|].
  destruct (_ || _); [done|]. by apply IH, P_swap.
Qed.

Lemma down_preserve fuel i n l : P l → P (down fuel i n l).1.
Proof.
  revert i l. induction fuel as [|fuel IH]; intros i l Hl; simpl; [done|].
  case_bool_decide; [done|]. destruct (negb _); [done|]. by apply IH, P_swap.
Qed.

Lemma down_or_up_preserve i n l : P l → P (down_or_up i n l).
Proof.
  intros Hl. unfold down_or_up. pose proof (down_preserve (S n) i n l Hl) as H.
  destruct (down (S n) i n l) as [l' i']. simpl in H.
  case_bool_decide; [done|]. by apply up_preserve.
Qed.

Lemma Remove_to_end_preserve i l : P l → P (Remove_to_end i l).
Proof.
  intros Hl. unfold Remove_to_end. case_bool_decide; [done|].
  by apply down_or_up_preserve, P_swap.
Qed.
End Preserve.

(** Slots from [n] on are out of reach of [down] and [up] below [n]. *)
Lemma swap_beyond i j k l : k ≠ i → k ≠ j → swap i j l !! k = l !! k.
Proof.
  intros Hi Hj. unfold swap. destruct (l !! i), (l !! j); try done.
  by rewrite !list_lookup_insert_ne by done.
Qed.

Lemma up_beyond fuel j k l : j < k → up fuel j l !! k = l !! k.
Proof.
  revert j l. induction fuel as [|fuel IH]; intros j l Hk; simpl; [done|].
  destruct (_ || _); [done|].
  assert (parent j ≤ j) by (destruct j; [done|apply Nat.lt_le_incl, parent_lt; lia]).
  rewrite IH by lia. apply swap_beyond; lia.
Qed.

Lemma down_beyond fuel i n k l : i < n → n ≤ k → (down fuel i n l).1 !! k = l !! k.
Proof.
  revert i l. induction fuel as [|fuel IH]; intros i l Hi Hk; cbn [down]; [done|].
  case_bool_decide as Hj; [done|]. destruct (negb _); [done|].
  destruct (bool_decide (2 * i + 1 + 1 < n)) eqn:E; cbn [andb];
    [apply bool_decide_eq_true in E; destruct (less l _ _)|];
    (rewrite IH by lia; apply swap_beyond; lia).
Qed.

Lemma down_or_up_beyond i n k l : i < n → n ≤ k → down_or_up i n l !! k = l !! k.
Proof.
  intros Hi Hk. unfold down_or_up. pose proof (down_beyond (S n) i n k l Hi Hk) as H.
  destruct (down (S n) i n l) as [l' i']. simpl in H. case_bool_decide; [done|].
  by rewrite up_beyond by lia.
Qed.

(** The item to remove ends up in the last slot. *)
Lemma Remove_to_end_last i l x :
  l !! i = Some x →
  erase <$> Remove_to_end i l !! (length l - 1) = Some (erase x).
Proof.
  intros Hx. apply lookup_lt_Some in Hx as Hi. unfold Remove_to_end.
  case_bool_decide as Hn; [by rewrite Hn, Hx|].
  rewrite down_or_up_beyond by lia.
  destruct (lookup_lt_is_Some_2 l (length l - 1)) as [y Hy]; [lia|].
  rewrite (swap_lookup i _ l _ x y Hx Hy), decide_False, decide_True by lia.
  simpl. by rewrite erase_relabel.
Qed.

(** ** Order *)

Lemma up_heap fuel j n l :
  n ≤ length l → j < n → j < fuel → heap_but j n l → heap n (up fuel j l).
Proof.
  revert j l. induction fuel as [|fuel IH]; intros j l Hn Hj Hf [H1 H2]; [lia|].
  cbn [up]. destruct (decide (j = 0)) as [->|Hj0].
  { rewrite bool_decide_eq_true_2 by done. simpl. intros c Hc. apply H1; lia. }
  assert (Hp : parent j < j) by (apply parent_lt; lia).
  rewrite bool_decide_eq_false_2 by lia. rewrite less_at by lia. simpl.
  case_bool_decide as Hlt; simpl.
  2:{ intros c Hc. destruct (decide (c = j)) as [->|]; [lia|by apply H1]. }
  apply IH; [by rewrite length_swap|lia..|]. split.
  - intros c Hc Hcj. rewrite !at_swap by lia.
    assert (parent c < c) by (apply parent_lt; lia).
    destruct (decide (c = j)) as [->|].
    { rewrite (decide_False (P := j = parent j)), !decide_True by lia. lia. }
    rewrite (decide_False (P := c = parent j)) by done.
    destruct (decide (parent c = parent j)) as [Hs|Hs].
    { specialize (H1 c Hc). rewrite Hs in H1. lia. }
    destruct (decide (parent c = j)) as [Hpc|Hpc]; [by apply H2; try lia|by apply H1].
  - intros c Hc Hpc Hpos. rewrite !at_swap by lia.
    assert (parent (parent j) < parent j) by (apply parent_lt; lia).
    assert (parent c < c) by (apply parent_lt; lia).
    rewrite (decide_False (P := parent (parent j) = parent j)),
            (decide_False (P := parent (parent j) = j)) by lia.
    assert (Hg : (at_ l (parent (parent j)) ≤ at_ l (parent j))%Z) by (apply H1; lia).
    rewrite (decide_False (P := c = parent j)) by lia.
    destruct (decide (c = j)) as [->|]; [done|]. etrans; [done|]. rewrite <- Hpc. by apply H1.
Qed.

(** The child [down] compares with is the smaller one. *)
Lemma down_child i n l :
  n ≤ length l → 2 * i + 1 < n →
  ∃ j, (if bool_decide (2 * i + 1 + 1 < n) && less l (2 * i + 1 + 1) (2 * i + 1)
        then 2 * i + 1 + 1 else 2 * i + 1) = j ∧
    parent j = i ∧ 0 < j < n ∧ ∀ c, 0 < c < n → parent c = i → (at_ l j ≤ at_ l c)%Z.
Proof.
  intros Hn Hj. eexists. split; [reflexivity|]. case_bool_decide as H2; cbn [andb].
  - rewrite less_at by lia. case_bool_decide as Hlt;
      (split; [apply parent_child; lia|]; split; [lia|]);
      intros c Hc [-> | ->]%parent_child; try lia;
      replace (2 * i + 2) with (2 * i + 1 + 1) by lia; lia.
  - split; [apply parent_child; lia|]. split; [lia|]. intros c Hc [-> | ->]%parent_child; lia.
Qed.

(** Sinking slot [i] to its smaller child [j] moves the hole there. *)
Lemma hole_step i j n l :
  n ≤ length l → i < n → heap_hole i n l → parent j = i → 0 < j < n →
  (∀ c, 0 < c < n → parent c = i → (at_ l j ≤ at_ l c)%Z) → (at_ l j < at_ l i)%Z →
  (0 < i → (at_ l (parent i) ≤ at_ l j)%Z) →
  heap_hole j n (swap i j l) ∧ (at_ (swap i j l) (parent j) ≤ at_ (swap i j l) j)%Z ∧
  (0 < i → (at_ (swap i j l) (parent i) ≤ at_ (swap i j l) i)%Z).
Proof.
  intros Hn Hi [H1 H2] Hji Hj Hmin Hlt Hpi.
  assert (i < j) by (rewrite <- Hji; apply parent_lt; lia).
  assert (Hpp : ∀ c, 0 < c → parent c < c) by apply parent_lt.
  rewrite Hji. split; [split|split].
  - intros c Hc Hcj Hpc. rewrite !at_swap by lia.
    rewrite (decide_False (P := c = j)), (decide_False (P := parent c = j)) by done.
    destruct (decide (parent c = i)) as [Hpc'|].
    { rewrite decide_False by (specialize (Hpp c); lia). by apply Hmin. }
    destruct (decide (c = i)) as [->|]; [apply Hpi; lia|by apply H1].
  - intros c Hc Hpc _. rewrite Hji, !at_swap by lia.
    rewrite decide_True by done. specialize (Hpp c). rewrite !decide_False by lia.
    rewrite <- Hpc. apply H1; [done|lia|congruence||lia].
  - rewrite !at_swap by lia. rewrite decide_True by done.
    rewrite decide_False, decide_True by lia. lia.
  - intros Hpos. specialize (Hpp i Hpos). rewrite !at_swap by lia.
    rewrite !decide_False, decide_True by lia. by apply Hpi.
Qed.

(** The loop of [down] once slot [i] is in order with its parent. *)
Lemma down_heap fuel i n l :
  n ≤ length l → n ≤ i + fuel → i < n → heap_hole i n l →
  (0 < i → (at_ l (parent i) ≤ at_ l i)%Z) → heap n (down fuel i n l).1.
Proof.
  revert i l. induction fuel as [|fuel IH]; intros i l Hn Hf Hi [H1 H2] H3; [lia|].
  cbn [down]. case_bool_decide as Hj1.
  { intros c Hc. destruct (decide (c = i)) as [->|]; [apply H3; lia|]. apply H1; [lia..|].
    intros Hpc%parent_child; lia. }
  destruct (down_child i n l Hn ltac:(lia)) as (j & Hj & Hji & Hjn & Hmin).
  rewrite Hj. clear Hj.
  rewrite less_at by lia. case_bool_decide as Hlt; simpl.
  2:{ intros c Hc. destruct (decide (c = i)) as [->|]; [apply H3; lia|].
      destruct (decide (parent c = i)) as [Hpc|]; [|by apply H1].
      rewrite Hpc. specialize (Hmin c Hc Hpc). lia. }
  destruct (hole_step i j n l) as (Hh & Hp & _); [done..| |].
  { intros Hpos. apply H2; [done..]. }
  apply IH; [by rewrite length_swap|apply parent_child in Hji; lia|lia|done|done].
Qed.

Lemma down_position fuel i n l : i ≤ (down fuel i n l).2.
Proof.
  revert i l. induction fuel as [|fuel IH]; intros i l; cbn [down]; [done|].
  case_bool_decide; [done|]. destruct (negb _); [done|].
  etrans; [|apply IH]. destruct (_ && _); lia.
Qed.

(** [down] followed, when nothing sank, by [up] repairs any single slot. *)
Lemma down_or_up_heap i n l :
  n ≤ length l → i < n → heap_hole i n l → heap n (down_or_up i n l).
Proof.
  intros Hn Hi [H1 H2]. unfold down_or_up. cbn [down]. case_bool_decide as Hj1.
  { rewrite bool_decide_eq_false_2 by lia. apply up_heap; [done..|lia|]. split; [|done].
    intros c Hc Hci. apply H1; [done..|]. intros Hpc%parent_child; lia. }
  destruct (down_child i n l Hn ltac:(lia)) as (j & Hj & Hji & Hjn & Hmin).
  rewrite Hj. clear Hj.
  rewrite less_at by lia. case_bool_decide as Hlt; cbn [negb].
  - destruct (hole_step i j n l) as (Hh & Hp & _); [done..| |].
    { intros Hpos. by apply H2. }
    pose proof (down_position n j n (swap i j l)) as Hpos.
    pose proof (down_heap n j n (swap i j l)) as Hd.
    destruct (down n j n (swap i j l)) as [l' i']. simpl in *.
    pose proof (parent_lt j ltac:(lia)). rewrite bool_decide_eq_true_2 by lia.
    apply Hd; [by rewrite length_swap|lia|lia|done|done].
  - rewrite bool_decide_eq_false_2 by lia. apply up_heap; [done..|lia|]. split; [|done].
    intros c Hc Hci. destruct (decide (parent c = i)) as [Hpc|]; [|by apply H1].
    rewrite Hpc. specialize (Hmin c Hc Hpc). lia.
Qed.

Lemma heap_root n l i : heap n l → i < n → (at_ l 0 ≤ at_ l i)%Z.
Proof.
  intros Hh. induction (lt_wf i) as [i _ IH]. intros Hi.
  destruct (decide (i = 0)) as [->|Hne]; [done|].
  pose proof (parent_lt i ltac:(lia)). etrans; [apply (IH (parent i)); lia|apply Hh; lia].
Qed.

Lemma heap_hole_intro i n l : heap n l → heap_hole i n l.
Proof.
  intros Hh. split; [auto|]. intros c Hc Hpc Hi.
  pose proof (parent_lt c ltac:(lia)). etrans; [apply Hh|rewrite <- Hpc; apply Hh]; lia.
Qed.

(** [Remove] leaves a heap in all slots but the last. *)
Lemma Remove_to_end_heap i l :
  i < length l → heap (length l) l → heap (length l - 1) (Remove_to_end i l).
Proof.
  intros Hi Hh. unfold Remove_to_end. case_bool_decide as Hlast; [intros c Hc; apply Hh; lia|].
  apply down_or_up_heap; [rewrite length_swap; lia|lia|].
  destruct (heap_hole_intro i _ _ Hh) as [H1 H2]. split.
  - intros c Hc Hci Hpc. pose proof (parent_lt c ltac:(lia)). rewrite !at_swap by lia.
    rewrite !decide_False by lia. apply H1; lia.
  - intros c Hc Hpc Hpos. pose proof (parent_lt c ltac:(lia)). pose proof (parent_lt i Hpos).
    rewrite !at_swap by lia. rewrite !decide_False by lia. apply H2; lia.
Qed.

(** Pushing at the end and fixing that slot. *)
Lemma Fix_last_heap l x :
  heap (length l) l → heap (length l + 1) (Fix (length l) (l ++ [x])).
Proof.
  intros Hh. unfold Fix. rewrite length_app. apply down_or_up_heap; [by rewrite length_app|simpl; lia|].
  assert (Hat : ∀ c, c < length l → at_ (l ++ [x]) c = at_ l c)
    by (intros c Hc; unfold at_; by rewrite lookup_app_l).
  split; simpl.
  - intros c Hc Hcl _. pose proof (parent_lt c ltac:(lia)). rewrite !Hat by lia. apply Hh. lia.
  - intros c Hc Hpc _. pose proof (parent_lt c ltac:(lia)). lia.
Qed.

(** A last slot no smaller than every other stays where it is. *)
Lemma Fix_last_stays l x :
  (∀ i, i < length l → (at_ l i ≤ key x)%Z) → Fix (length l) (l ++ [x]) = l ++ [x].
Proof.
  intros Hmax. unfold Fix, down_or_up. rewrite length_app. simpl length. cbn [down].
  rewrite bool_decide_eq_true_2 by lia. rewrite bool_decide_eq_false_2 by lia. cbn [up].
  case_bool_decide as Hp; [done|]. simpl.
  assert (parent (length l) < length l) by (destruct l; [by destruct Hp|apply parent_lt; simpl; lia]).
  rewrite less_at by (rewrite length_app; simpl; lia).
  rewrite bool_decide_eq_false_2; [done|]. unfold at_.
  rewrite list_lookup_middle, lookup_app_l by done. simpl. specialize (Hmax (parent (length l))).
  unfold at_ in Hmax. lia.
Qed.
End Heap.
