(* ===== verification/PriorityQueue.v ===== *)
(** internal/execution/app/queue/priority_queue.go: the queue of execution
    requests of one priority, kept as a heap ordered by enqueue time. *)

From S2P Require Import Prelude GoValue Heap.

(** ** Data *)

Definition PriorityHigh := "high".
Definition PriorityNormal := "normal".
Definition PriorityLow := "low".

Record ExecutionRequest := {
  reqID : string;
  reqWorkflowID : string;
  reqPriority : string;
  reqInputData : option vmap;
  reqMetadata : gmap string string;
  reqScheduledAt : option Z;
  reqRequestedBy : string;
  reqRequestedAt : Z
}.

Record QueueItem := {
  qiRequest : ExecutionRequest;
  qiPriority : string;
  qiEnqueuedAt : Z;
  qiRetryCount : Z;
  qiLastRetryAt : option Z;
  qiIndex : Z
}.

Record PriorityQueue := {
  pqItems : list QueueItem;
  pqPriority : string
}.

Definition set_index (i : Z) (it : QueueItem) : QueueItem :=
  {| qiRequest := qiRequest it; qiPriority := qiPriority it; qiEnqueuedAt := qiEnqueuedAt it;
     qiRetryCount := qiRetryCount it; qiLastRetryAt := qiLastRetryAt it; qiIndex := i |}.

(** ** The heap operations at this item type *)

Definition relabel (i : nat) (it : QueueItem) : QueueItem := set_index (Z.of_nat i) it.

(** [Less] compares enqueue times. *)
Abbreviation pq_less := (less qiEnqueuedAt).
Abbreviation pq_fix := (Fix qiEnqueuedAt relabel).
Abbreviation pq_remove_to_end := (Remove_to_end qiEnqueuedAt relabel).
Abbreviation pq_heap := (λ l, heap qiEnqueuedAt (length l) l).

Definition with_items (pq : PriorityQueue) (l : list QueueItem) : PriorityQueue :=
  {| pqItems := l; pqPriority := pqPriority pq |}.

(** ** Operations *)

Definition NewPriorityQueue (priority : string) : PriorityQueue :=
  {| pqItems := Init qiEnqueuedAt relabel []; pqPriority := priority |}.

Definition Push (pq : PriorityQueue) (item : QueueItem) : PriorityQueue :=
  with_items pq (pqItems pq ++ [set_index (Z.of_nat (length (pqItems pq))) item]).

(** [Pop]: [None] is the out-of-range panic on an empty slice. *)
Definition Pop (pq : PriorityQueue) : option (QueueItem * PriorityQueue) :=
  match last (pqItems pq) with
  | None => None
  | Some item => Some (set_index (-1) item, with_items pq (removelast (pqItems pq)))
  end.

Definition heapPush (pq : PriorityQueue) (x : QueueItem) : PriorityQueue := Push pq x.
Definition heapPop (pq : PriorityQueue) : option (QueueItem * PriorityQueue) := Pop pq.

Definition Enqueue (pq : PriorityQueue) (item : QueueItem) : PriorityQueue :=
  let pq := heapPush pq item in
  with_items pq (pq_fix (length (pqItems pq) - 1) (pqItems pq)).

Definition Dequeue (pq : PriorityQueue) : option QueueItem * PriorityQueue :=
  if bool_decide (length (pqItems pq) = 0) then (None, pq)
  else match heapPop pq with
       | Some (item, pq') => (Some item, pq')
       | None => (None, pq)
       end.

Definition Peek (pq : PriorityQueue) : option QueueItem := pqItems pq !! 0.
Definition Size (pq : PriorityQueue) : nat := length (pqItems pq).
Definition IsEmpty (pq : PriorityQueue) : bool := bool_decide (Size pq = 0).
Definition GetAll (pq : PriorityQueue) : list QueueItem := pqItems pq.

(** [Remove]: the item found first, by [heap.Remove] and its [Pop]. *)
Definition Remove (pq : PriorityQueue) (id : string) : bool * PriorityQueue :=
  match list_find (λ it, reqID (qiRequest it) = id) (pqItems pq) with
  | None => (false, pq)
  | Some (i, _) =>
      match Pop (with_items pq (pq_remove_to_end i (pqItems pq))) with
      | Some (_, pq') => (true, pq')
      | None => (true, pq)
      end
  end.

Definition Clear (pq : PriorityQueue) : PriorityQueue := with_items pq [].

(** ** Invariant *)

Definition pq_indexed (l : list QueueItem) : Prop :=
  ∀ i it, l !! i = Some it → qiIndex it = Z.of_nat i.

Definition pq_inv (pq : PriorityQueue) : Prop :=
  pq_heap (pqItems pq) ∧ pq_indexed (pqItems pq).

(** Items up to their recorded position. *)
Definition payload (it : QueueItem) : QueueItem := set_index 0 it.
Definition contents (pq : PriorityQueue) : list QueueItem := payload <$> pqItems pq.

Lemma removelast_snoc {A} (l : list A) x : removelast (l ++ [x]) = l.
Proof. apply removelast_last. Qed.

(** A non-empty slice, split at its last slot. *)
Lemma Pop_last pq it pq' :
  Pop pq = Some (it, pq') →
  ∃ x, pqItems pq = pqItems pq' ++ [x] ∧ it = set_index (-1) x ∧ pqPriority pq' = pqPriority pq.
Proof.
  unfold Pop. destruct (last (pqItems pq)) as [x|] eqn:E; [|done]. intros [= <- <-].
  apply last_Some in E as [l E]. exists x. simpl. rewrite E, removelast_snoc. done.
Qed.

Lemma Pop_nonempty pq : pqItems pq ≠ [] → is_Some (Pop pq).
Proof.
  unfold Pop. intros Hne. destruct (last (pqItems pq)) eqn:E; [eauto|].
  by apply last_None in E.
Qed.

Lemma pq_inv_prefix pq pq' x :
  heap qiEnqueuedAt (length (pqItems pq')) (pqItems pq' ++ [x]) →
  pq_indexed (pqItems pq' ++ [x]) → pqItems pq = pqItems pq' ++ [x] → pq_inv pq'.
Proof.
  intros Hh Hi _. split.
  - intros c Hc. specialize (Hh c Hc). pose proof (parent_lt c ltac:(lia)). unfold at_ in *.
    by rewrite !lookup_app_l in Hh by lia.
  - intros i it Hl. apply (Hi i). by apply lookup_app_l_Some.
Qed.

Lemma pq_fix_indexed i l : pq_indexed l → pq_indexed (pq_fix i l).
Proof.
  apply (down_or_up_preserve _ _ pq_indexed).
  intros a b l' H. by apply (indexed_swap relabel qiIndex).
Qed.

Lemma pq_fix_perm i l : payload <$> pq_fix i l ≡ₚ payload <$> l.
Proof.
  apply (down_or_up_preserve qiEnqueuedAt relabel (λ l', payload <$> l' ≡ₚ payload <$> l)); [|done].
  intros a b l' <-. by apply swap_perm.
Qed.

Lemma pq_remove_perm i l : payload <$> pq_remove_to_end i l ≡ₚ payload <$> l.
Proof.
  apply (Remove_to_end_preserve qiEnqueuedAt relabel (λ l', payload <$> l' ≡ₚ payload <$> l)); [|done].
  intros a b l' <-. by apply swap_perm.
Qed.

Lemma Enqueue_inv pq item : pq_inv pq → pq_inv (Enqueue pq item).
Proof.
  intros [Hh Hi]. unfold Enqueue, heapPush, Push. simpl. rewrite length_app. simpl.
  rewrite Nat.add_sub. split; simpl.
  - set (x := set_index _ item). rewrite <- (length_fmap payload (pq_fix _ _)).
    rewrite pq_fix_perm, length_fmap, length_app.
    by apply (Fix_last_heap qiEnqueuedAt relabel).
  - apply pq_fix_indexed. intros i it [Hl|[Hl Hit]]%lookup_app_Some; [by apply Hi|].
    apply list_lookup_singleton_Some in Hit as [? <-]. simpl. lia.
Qed.

Lemma Enqueue_contents pq item : contents (Enqueue pq item) ≡ₚ payload item :: contents pq.
Proof.
  unfold contents, Enqueue, heapPush, Push. simpl. rewrite pq_fix_perm, fmap_app.
  by rewrite Permutation_app_comm.
Qed.

Lemma Dequeue_spec pq :
  match Dequeue pq with
  | (None, pq') => pqItems pq = [] ∧ pq' = pq
  | (Some it, pq') => ∃ x, pqItems pq = pqItems pq' ++ [x] ∧ it = set_index (-1) x
  end.
Proof.
  unfold Dequeue, heapPop. case_bool_decide as Hl; [by apply nil_length_inv in Hl|].
  destruct (Pop_nonempty pq) as [[it pq'] E]; [by intros Hn; rewrite Hn in Hl|].
  rewrite E. apply Pop_last in E as (x & ? & ? & _). eauto.
Qed.

Lemma Dequeue_inv pq : pq_inv pq → pq_inv (Dequeue pq).2.
Proof.
  intros [Hh Hi]. pose proof (Dequeue_spec pq) as H.
  destruct (Dequeue pq) as [[it|] pq']; [|by destruct H as [_ ->]].
  destruct H as (x & E & _). simpl. rewrite E in Hh, Hi.
  apply (pq_inv_prefix pq _ x); [|done..]. intros c Hc. apply Hh. rewrite length_app. lia.
Qed.

Lemma Remove_spec pq id :
  pq_inv pq →
  match Remove pq id with
  | (false, pq') => pq' = pq ∧ ∀ it, it ∈ pqItems pq → reqID (qiRequest it) ≠ id
  | (true, pq') => pq_inv pq' ∧
      ∃ it, reqID (qiRequest it) = id ∧ contents pq ≡ₚ payload it :: contents pq'
  end.
Proof.
  intros [Hh Hi]. unfold Remove.
  destruct (list_find _ _) as [[i it]|] eqn:E.
  2:{ split; [done|]. intros it Hin. apply list_find_None in E. by eapply Forall_forall in E. }
  apply list_find_Some in E as (Hl & Hid & _). apply lookup_lt_Some in Hl as Hlt.
  set (l := pq_remove_to_end i (pqItems pq)).
  assert (Hlen : length l = length (pqItems pq))
    by (rewrite <- (length_fmap payload l); subst l; by rewrite pq_remove_perm, length_fmap).
  destruct (Pop_nonempty (with_items pq l)) as [[it' pq'] HP].
  { simpl. intros Hn. rewrite Hn in Hlen. simpl in Hlen. lia. }
  rewrite HP. apply Pop_last in HP as (x & El & _ & _). simpl in El.
  pose proof (f_equal length El) as Hlen'. rewrite length_app in Hlen'. simpl in Hlen'.
  pose proof (Remove_to_end_heap qiEnqueuedAt relabel (λ _ _, eq_refl) i _ Hlt Hh) as Hheap.
  fold l in Hheap. split.
  - apply (pq_inv_prefix (with_items pq l) _ x); simpl; rewrite <- El; [| |done].
    + replace (length (pqItems pq')) with (length (pqItems pq) - 1) by lia. done.
    + apply (Remove_to_end_preserve _ _ pq_indexed); [|done].
      intros a b l' H. by apply (indexed_swap relabel qiIndex).
  - exists it. split; [done|].
    pose proof (Remove_to_end_last qiEnqueuedAt relabel payload (λ _ _, eq_refl) i _ it Hl) as Hx.
    fold l in Hx. rewrite El, lookup_app_r in Hx by lia.
    replace (length (pqItems pq) - 1 - length (pqItems pq')) with 0 in Hx by lia.
    assert (payload it = payload x) as -> by (apply (inj Some); by rewrite <- Hx). unfold contents.
    rewrite <- (pq_remove_perm i (pqItems pq)). fold l. rewrite El, fmap_app.
    by rewrite Permutation_app_comm.
Qed.

Inductive pq_step : PriorityQueue → PriorityQueue → Prop :=
| pq_enqueue pq it : pq_step pq (Enqueue pq it)
| pq_dequeue pq : pq_step pq (Dequeue pq).2
| pq_remove pq id : pq_step pq (Remove pq id).2
| pq_clear pq : pq_step pq (Clear pq).

Lemma pq_inv_nil pq : pqItems pq = [] → pq_inv pq.
Proof. intros E. split; rewrite E; [intros c Hc; simpl in Hc; lia|done]. Qed.

Lemma pq_inv_step pq pq' : pq_step pq pq' → pq_inv pq → pq_inv pq'.
Proof.
  intros [q it|q|q id|q] Hinv; [by apply Enqueue_inv|by apply Dequeue_inv| |by apply pq_inv_nil].
  pose proof (Remove_spec q id Hinv) as H. destruct (Remove q id) as [[] q']; [by destruct H|].
  by destruct H as [-> _].
Qed.

Lemma pq_reachable_inv p pq : rtc pq_step (NewPriorityQueue p) pq → pq_inv pq.
Proof.
  intros Hr. apply (rtc_preserve _ pq_inv _ _ pq_inv_step) in Hr; [done|]. by apply pq_inv_nil.
Qed.

(** After any sequence of Enqueue, Dequeue, Remove and Clear on a new
    queue, the slice is a heap whose items record their positions, and [Peek]
    returns nothing only from an empty queue and otherwise an item enqueued
    no later than any other. *)
Lemma priority_queue_invariant p pq :
  rtc pq_step (NewPriorityQueue p) pq →
  pq_heap (pqItems pq) ∧ pq_indexed (pqItems pq) ∧
  match Peek pq with
  | None => pqItems pq = []
  | Some it => ∀ it', it' ∈ pqItems pq → (qiEnqueuedAt it ≤ qiEnqueuedAt it')%Z
  end.
Proof.
  intros [Hh Hi]%pq_reachable_inv. split_and!; [done..|].
  unfold Peek. destruct (pqItems pq) as [|it l] eqn:E; [done|]. simpl.
  intros it' [i Hit']%list_elem_of_lookup_1. apply lookup_lt_Some in Hit' as Hlt.
  pose proof (heap_root qiEnqueuedAt _ _ i Hh Hlt) as H. unfold at_ in H. by rewrite Hit' in H.
Qed.

Definition demo_request (id : string) : ExecutionRequest :=
  {| reqID := id; reqWorkflowID := "w"; reqPriority := PriorityNormal; reqInputData := None;
     reqMetadata := ∅; reqScheduledAt := None; reqRequestedBy := ""; reqRequestedAt := 0 |}.
Definition demo_item (id : string) (t : Z) : QueueItem :=
  {| qiRequest := demo_request id; qiPriority := PriorityNormal; qiEnqueuedAt := t;
     qiRetryCount := 0; qiLastRetryAt := None; qiIndex := 0 |}.
Definition demo_queue : PriorityQueue :=
  foldl Enqueue (NewPriorityQueue PriorityNormal)
    [demo_item "c" 3; demo_item "a" 1; demo_item "d" 4; demo_item "b" 2].

Lemma demo_queue_reachable : rtc pq_step (NewPriorityQueue PriorityNormal) demo_queue.
Proof. apply rtc_foldl. apply pq_enqueue. Qed.

Lemma priority_queue_invariant_witness :
  pq_heap (pqItems demo_queue) ∧ (reqID ∘ qiRequest <$> Peek demo_queue) = Some "a".
Proof.
  split; [|vm_compute; reflexivity].
  exact (proj1 (priority_queue_invariant _ _ demo_queue_reachable)).
Defined.

(** The operations lose and invent nothing: [Enqueue] adds exactly the
    item given, [Dequeue] of a non-empty queue takes out exactly the item it
    returns, [Remove] reports false only when no queued request has the ID
    and otherwise takes out exactly one item with that ID. *)
Lemma priority_queue_contents p pq item id :
  rtc pq_step (NewPriorityQueue p) pq →
  contents (Enqueue pq item) ≡ₚ payload item :: contents pq ∧
  match Dequeue pq with
  | (None, pq') => contents pq = [] ∧ pq' = pq
  | (Some it, pq') => contents pq ≡ₚ payload it :: contents pq'
  end ∧
  match Remove pq id with
  | (false, pq') => pq' = pq ∧ ∀ it, it ∈ pqItems pq → reqID (qiRequest it) ≠ id
  | (true, pq') => ∃ it, reqID (qiRequest it) = id ∧ contents pq ≡ₚ payload it :: contents pq'
  end.
Proof.
  intros Hinv%pq_reachable_inv. split_and!; [apply Enqueue_contents| |].
  - pose proof (Dequeue_spec pq) as H. destruct (Dequeue pq) as [[it|] pq'].
    + destruct H as (x & E & ->). unfold contents. rewrite E, fmap_app.
      by rewrite Permutation_app_comm.
    + destruct H as [H ->]. unfold contents. by rewrite H.
  - pose proof (Remove_spec pq id Hinv) as H. by destruct (Remove pq id) as [[] q']; [destruct H|].
Qed.

Lemma priority_queue_contents_witness :
  ∃ it, reqID (qiRequest it) = "d" ∧
    contents demo_queue ≡ₚ payload it :: contents (Remove demo_queue "d").2.
Proof.
  pose proof (priority_queue_contents _ demo_queue (demo_item "e" 5) "d" demo_queue_reachable)
    as (_ & _ & H).
  destruct (Remove demo_queue "d") as [b q'] eqn:E.
  assert (b = true) as -> by (vm_compute in E; congruence). exact H.
Defined.

(** [Dequeue] hands out the slot at the end of the slice.  So, when an
    item is enqueued whose time is no earlier than those queued, as happens
    under a clock that does not run backwards, the next [Dequeue] returns
    that newest item and leaves the older ones in place: the queue serves
    last in, first out. *)
Lemma Dequeue_returns_newest pq item :
  (∀ it, it ∈ pqItems pq → (qiEnqueuedAt it ≤ qiEnqueuedAt item)%Z) →
  Dequeue (Enqueue pq item) = (Some (set_index (-1) item), pq).
Proof.
  intros Hmax. set (x := set_index (Z.of_nat (length (pqItems pq))) item).
  assert (pqItems (Enqueue pq item) = pqItems pq ++ [x]) as E.
  { unfold Enqueue, heapPush, Push. simpl. rewrite length_app. simpl. rewrite Nat.add_sub.
    apply Fix_last_stays. intros i Hi. destruct (lookup_lt_is_Some_2 _ _ Hi) as [it Hit].
    unfold at_. rewrite Hit. apply Hmax. by eapply list_elem_of_lookup_2. }
  unfold Dequeue, heapPop, Pop. rewrite E, length_app. simpl.
  rewrite bool_decide_eq_false_2 by lia. rewrite last_snoc, removelast_snoc. simpl.
  by destruct pq.
Qed.

Lemma Dequeue_returns_newest_witness :
  let pq := Enqueue (NewPriorityQueue PriorityNormal) (demo_item "old" 1) in
  reqID ∘ qiRequest <$> (Dequeue (Enqueue pq (demo_item "new" 2))).1 = Some "new" ∧
  reqID ∘ qiRequest <$> Peek (Enqueue pq (demo_item "new" 2)) = Some "old".
Proof.
  intros pq. split; [|vm_compute; reflexivity].
  rewrite (Dequeue_returns_newest pq (demo_item "new" 2)); [reflexivity|].
  intros it Hit. vm_compute in Hit. apply list_elem_of_singleton in Hit as ->. simpl. lia.
Defined.
