(* ===== verification/WorkerPool.v ===== *)
(** internal/execution/app/queue/worker_pool.go: the pool of worker goroutines,
    its task and result channels, and its scaling.  The goroutines interleave between
    their single accesses to what they share: channels, atomic counters and the slice
    of workers under its lock. *)

From S2P Require Import Prelude GoValue PriorityQueue.

(** ** Data *)

Record WorkerTask := {
  wtID : string;
  wtWorkflowID : string;
  wtRequest : ExecutionRequest;
  wtCreatedAt : Z;
  wtTimeout : Z;
  wtRetries : Z
}.

Record WorkerResult := {
  wrTaskID : string;
  wrSuccess : bool;
  wrError : option string;
  wrResult : option vmap;
  wrWorkerID : Z;
  wrDuration : Z;
  wrCompletedAt : Z
}.

(** Where a worker goroutine is in [run] and [processTask]. *)
Inductive WorkerPhase :=
| Waiting                    (* in the select of [run] *)
| Received (t : WorkerTask)
| Marked (t : WorkerTask)    (* isActive is set *)
| Executing (t : WorkerTask) (* activeWorkers is incremented *)
| Sending (r : WorkerResult) (* completed or failed is incremented *)
| Sent                       (* the result is sent or dropped *)
| Unmarked                   (* isActive is reset *)
| Exited.

(** A worker goroutine; its stop channel is closed once [wkStopped]. *)
Record Worker := {
  wkID : Z;
  wkActive : bool;
  wkStopped : bool;
  wkPhase : WorkerPhase;
  wkLastActive : option Z;
  wkTasksProcessed : Z
}.

(** [wpAll] holds every goroutine ever started, by a number of its own;
    [wpWorkers] is the [workers] slice.  [wpSubmitting] are the calls of [Submit] that
    have sent their task and not counted it, [wpAccepted] and [wpFinished] the tasks
    sent and those executed so far. *)
Record WorkerPool := {
  wpAll : gmap nat Worker;
  wpNext : nat;
  wpWorkers : list nat;
  wpTaskQueue : list WorkerTask;
  wpTaskCap : Z;
  wpResults : list WorkerResult;
  wpMaxWorkers : Z;
  wpMinWorkers : Z;
  wpActiveWorkers : Z;
  wpTotalTasks : Z;
  wpCompletedTasks : Z;
  wpFailedTasks : Z;
  wpScaleUp : spec_float;
  wpScaleDown : spec_float;
  wpScaling : bool;
  wpLastScale : option Z;            (* [None]: the zero time *)
  wpCooldown : Z;
  wpStopped : bool;                  (* the channels that are closed *)
  wpTasksClosed : bool;
  wpResultsClosed : bool;
  wpSubmitting : nat;
  wpAccepted : list WorkerTask;
  wpFinished : list WorkerTask
}.

Record WorkerPoolConfig := {
  wcMinWorkers : Z;
  wcMaxWorkers : Z;
  wcTaskQueueSize : Z;
  wcEnableScaling : bool;
  wcScaleUpThreshold : spec_float;
  wcScaleDownThreshold : spec_float;
  wcScaleCooldown : Z
}.

Definition f64_is_zero (f : spec_float) : bool :=
  match f with S754_zero _ => true | _ => false end.
Definition f64_0_8 : spec_float := f64_div (f64_of_Z 8) (f64_of_Z 10).
Definition f64_0_2 : spec_float := f64_div (f64_of_Z 2) (f64_of_Z 10).

Definition NewWorkerPool (config : WorkerPoolConfig) (numCPU : Z) : WorkerPool :=
  {| wpAll := ∅; wpNext := 0; wpWorkers := []; wpTaskQueue := [];
     wpTaskCap := if bool_decide (wcTaskQueueSize config = 0%Z) then 1000
                  else wcTaskQueueSize config;
     wpResults := [];
     wpMaxWorkers := if bool_decide (wcMaxWorkers config = 0%Z) then (numCPU * 2)%Z
                     else wcMaxWorkers config;
     wpMinWorkers := if bool_decide (wcMinWorkers config = 0%Z) then 2 else wcMinWorkers config;
     wpActiveWorkers := 0; wpTotalTasks := 0; wpCompletedTasks := 0; wpFailedTasks := 0;
     wpScaleUp := if f64_is_zero (wcScaleUpThreshold config) then f64_0_8
                  else wcScaleUpThreshold config;
     wpScaleDown := if f64_is_zero (wcScaleDownThreshold config) then f64_0_2
                    else wcScaleDownThreshold config;
     wpScaling := wcEnableScaling config; wpLastScale := None;
     wpCooldown := if bool_decide (wcScaleCooldown config = 0%Z) then 30000000000
                   else wcScaleCooldown config;
     wpStopped := false; wpTasksClosed := false; wpResultsClosed := false; wpSubmitting := 0;
     wpAccepted := []; wpFinished := [] |}.

(** Updates of the fields the operations write. *)
Definition set_workers (wp : WorkerPool) (all : gmap nat Worker) (next : nat) (ws : list nat)
    (active : Z) : WorkerPool :=
  {| wpAll := all; wpNext := next; wpWorkers := ws; wpTaskQueue := wpTaskQueue wp;
     wpTaskCap := wpTaskCap wp; wpResults := wpResults wp; wpMaxWorkers := wpMaxWorkers wp;
     wpMinWorkers := wpMinWorkers wp; wpActiveWorkers := active;
     wpTotalTasks := wpTotalTasks wp; wpCompletedTasks := wpCompletedTasks wp;
     wpFailedTasks := wpFailedTasks wp; wpScaleUp := wpScaleUp wp;
     wpScaleDown := wpScaleDown wp; wpScaling := wpScaling wp; wpLastScale := wpLastScale wp;
     wpCooldown := wpCooldown wp; wpStopped := wpStopped wp; wpTasksClosed := wpTasksClosed wp;
     wpResultsClosed := wpResultsClosed wp; wpSubmitting := wpSubmitting wp;
     wpAccepted := wpAccepted wp; wpFinished := wpFinished wp |}.
Definition set_queues (wp : WorkerPool) (tasks : list WorkerTask) (results : list WorkerResult) : WorkerPool :=
  {| wpAll := wpAll wp; wpNext := wpNext wp; wpWorkers := wpWorkers wp; wpTaskQueue := tasks;
     wpTaskCap := wpTaskCap wp; wpResults := results; wpMaxWorkers := wpMaxWorkers wp;
     wpMinWorkers := wpMinWorkers wp; wpActiveWorkers := wpActiveWorkers wp;
     wpTotalTasks := wpTotalTasks wp; wpCompletedTasks := wpCompletedTasks wp; wpFailedTasks := wpFailedTasks wp;
     wpScaleUp := wpScaleUp wp; wpScaleDown := wpScaleDown wp; wpScaling := wpScaling wp;
     wpLastScale := wpLastScale wp; wpCooldown := wpCooldown wp; wpStopped := wpStopped wp;
     wpTasksClosed := wpTasksClosed wp; wpResultsClosed := wpResultsClosed wp; wpSubmitting := wpSubmitting wp;
     wpAccepted := wpAccepted wp; wpFinished := wpFinished wp |}.
Definition set_counts (wp : WorkerPool) (total completed failed : Z) (submitting : nat)
    (accepted finished : list WorkerTask) : WorkerPool :=
  {| wpAll := wpAll wp; wpNext := wpNext wp; wpWorkers := wpWorkers wp; wpTaskQueue := wpTaskQueue wp;
     wpTaskCap := wpTaskCap wp; wpResults := wpResults wp; wpMaxWorkers := wpMaxWorkers wp;
     wpMinWorkers := wpMinWorkers wp; wpActiveWorkers := wpActiveWorkers wp;
     wpTotalTasks := total; wpCompletedTasks := completed; wpFailedTasks := failed;
     wpScaleUp := wpScaleUp wp; wpScaleDown := wpScaleDown wp; wpScaling := wpScaling wp;
     wpLastScale := wpLastScale wp; wpCooldown := wpCooldown wp; wpStopped := wpStopped wp;
     wpTasksClosed := wpTasksClosed wp; wpResultsClosed := wpResultsClosed wp; wpSubmitting := submitting;
     wpAccepted := accepted; wpFinished := finished |}.
Definition set_scaled (wp : WorkerPool) (last : option Z) (stopped tasks results : bool) : WorkerPool :=
  {| wpAll := wpAll wp; wpNext := wpNext wp; wpWorkers := wpWorkers wp;
     wpTaskQueue := wpTaskQueue wp; wpTaskCap := wpTaskCap wp; wpResults := wpResults wp;
     wpMaxWorkers := wpMaxWorkers wp; wpMinWorkers := wpMinWorkers wp;
     wpActiveWorkers := wpActiveWorkers wp; wpTotalTasks := wpTotalTasks wp;
     wpCompletedTasks := wpCompletedTasks wp; wpFailedTasks := wpFailedTasks wp;
     wpScaleUp := wpScaleUp wp; wpScaleDown := wpScaleDown wp; wpScaling := wpScaling wp;
     wpLastScale := last; wpCooldown := wpCooldown wp; wpStopped := stopped; wpTasksClosed := tasks;
     wpResultsClosed := results; wpSubmitting := wpSubmitting wp; wpAccepted := wpAccepted wp;
     wpFinished := wpFinished wp |}.

(** ** Membership *)

Definition TotalWorkers (wp : WorkerPool) : Z := Z.of_nat (length (wpWorkers wp)).
Definition ActiveWorkers (wp : WorkerPool) : Z := wpActiveWorkers wp.

Definition addWorker (wp : WorkerPool) : result unit * WorkerPool :=
  if bool_decide (wpMaxWorkers wp ≤ TotalWorkers wp)%Z then
    (Err "worker pool is at maximum capacity", wp)
  else
    let worker := {| wkID := (TotalWorkers wp + 1)%Z; wkActive := false; wkStopped := false; wkPhase := Waiting;
                     wkLastActive := None; wkTasksProcessed := 0 |} in
    (Ok tt, set_workers wp (<[wpNext wp := worker]> (wpAll wp)) (S (wpNext wp))
              (wpWorkers wp ++ [wpNext wp]) (wpActiveWorkers wp)).

Definition worker_id (wp : WorkerPool) (h : nat) : option Z := wkID <$> wpAll wp !! h.
Definition worker_idle (wp : WorkerPool) (h : nat) : bool :=
  match wpAll wp !! h with Some w => negb (wkActive w) | None => false end.

Definition stop_worker (w : Worker) : Worker :=
  {| wkID := wkID w; wkActive := wkActive w; wkStopped := true; wkPhase := wkPhase w;
     wkLastActive := wkLastActive w; wkTasksProcessed := wkTasksProcessed w |}.

Definition removeWorker (wp : WorkerPool) : result unit * WorkerPool :=
  if bool_decide (TotalWorkers wp ≤ wpMinWorkers wp)%Z then
    (Err "worker pool is at minimum capacity", wp)
  else
    match list_find (λ h, worker_idle wp h = true) (wpWorkers wp) with
    | None => (Err "no idle workers to remove", wp)
    | Some (_, h) =>
        (Ok tt, set_workers wp (alter stop_worker h (wpAll wp)) (wpNext wp)
           (filter (λ h', worker_id wp h' ≠ worker_id wp h) (wpWorkers wp))
           (wpActiveWorkers wp))
    end.

(** [Start]: the minimum number of workers; the goroutines it starts besides
    are [processResults], [autoscale] and [reportMetrics]. *)
Fixpoint start_workers (n i : nat) (wp : WorkerPool) : result unit * WorkerPool :=
  match n with
  | O => (Ok tt, wp)
  | S n' =>
      match addWorker wp with
      | (Err e, wp') => (Err ("failed to start worker " +:+ pretty i +:+ ": " +:+ e), wp')
      | (Ok _, wp') => start_workers n' (S i) wp'
      end
  end.
Definition Start (wp : WorkerPool) : result unit * WorkerPool :=
  start_workers (Z.to_nat (wpMinWorkers wp)) 0 wp.

(** [Stop] in its steps; a second call panics on the closed channel.  It waits for
    the workers or for its context before it closes the results. *)
Definition stop_signal (wp : WorkerPool) : outcome WorkerPool :=
  if wpStopped wp then Panic "close of closed channel"
  else Ret (set_scaled wp (wpLastScale wp) true (wpTasksClosed wp) (wpResultsClosed wp)).
Definition stop_tasks (wp : WorkerPool) : WorkerPool :=
  set_scaled wp (wpLastScale wp) (wpStopped wp) true (wpResultsClosed wp).
Definition stop_workers (wp : WorkerPool) : WorkerPool :=
  set_workers wp (foldr (λ h all, alter stop_worker h all) (wpAll wp) (wpWorkers wp))
    (wpNext wp) (wpWorkers wp) (wpActiveWorkers wp).
Definition stop_results (wp : WorkerPool) : WorkerPool :=
  set_scaled wp (wpLastScale wp) (wpStopped wp) (wpTasksClosed wp) true.
Definition Stop (wp : WorkerPool) : outcome WorkerPool :=
  match stop_signal wp with Ret wp => Ret (stop_results (stop_workers (stop_tasks wp))) | o => o end.

(** ** Tasks *)

(** Which arm of the [select] in [Submit] runs. *)
Inductive submit_choice : Type := SubmitSend | SubmitCancelled | SubmitTimeout.

Definition with_timeout (t : WorkerTask) : WorkerTask :=
  {| wtID := wtID t; wtWorkflowID := wtWorkflowID t; wtRequest := wtRequest t;
     wtCreatedAt := wtCreatedAt t;
     wtTimeout := if bool_decide (wtTimeout t = 0%Z) then 300000000000 else wtTimeout t;
     wtRetries := wtRetries t |}.

(** [Submit] in its two steps: the select, and after a send the count.  [None] is the
    panic of sending on the channel [Stop] closed; the send arm needs room in the
    channel, and without it the call times out. *)
Definition submit_select (wp : WorkerPool) (task : WorkerTask) (c : submit_choice) :
    option (result unit * WorkerPool) :=
  match c with
  | SubmitSend =>
      if wpTasksClosed wp then None
      else if bool_decide (Z.of_nat (length (wpTaskQueue wp)) < wpTaskCap wp)%Z then
        let wp := set_queues wp (wpTaskQueue wp ++ [with_timeout task]) (wpResults wp) in
        Some (Ok tt, set_counts wp (wpTotalTasks wp) (wpCompletedTasks wp) (wpFailedTasks wp) (S (wpSubmitting wp))
                       (wpAccepted wp ++ [with_timeout task]) (wpFinished wp))
      else Some (Err "timeout submitting task - queue may be full", wp)
  | SubmitCancelled => Some (Err "context cancelled while submitting task", wp)
  | SubmitTimeout => Some (Err "timeout submitting task - queue may be full", wp)
  end.
Definition submit_count (wp : WorkerPool) : option WorkerPool :=
  match wpSubmitting wp with
  | O => None
  | S n => Some (set_counts wp (wpTotalTasks wp + 1) (wpCompletedTasks wp) (wpFailedTasks wp) n (wpAccepted wp) (wpFinished wp))
  end.
(** The call when nothing comes in between. *)
Definition Submit (wp : WorkerPool) (task : WorkerTask) (c : submit_choice) :
    option (result unit * WorkerPool) :=
  match submit_select wp task c with
  | Some (Ok _, wp') => (λ wp, (Ok tt, wp)) <$> submit_count wp'
  | r => r
  end.

Definition HasAvailableWorker (wp : WorkerPool) : bool :=
  bool_decide (Z.of_nat (length (wpTaskQueue wp)) < Z.quot (wpTaskCap wp) 2)%Z.

Definition put_worker (wp : WorkerPool) (h : nat) (w : Worker) (active : Z) : WorkerPool :=
  set_workers wp (<[h := w]> (wpAll wp)) (wpNext wp) (wpWorkers wp) active.
Definition at_phase (w : Worker) (active : bool) (ph : WorkerPhase) : Worker :=
  {| wkID := wkID w; wkActive := active; wkStopped := wkStopped w; wkPhase := ph;
     wkLastActive := wkLastActive w; wkTasksProcessed := wkTasksProcessed w |}.

(** The [run] loop of worker [h] returns: a stop channel is closed, or the task
    channel is closed and empty. *)
Definition exit_worker (wp : WorkerPool) (h : nat) (w : Worker) : option WorkerPool :=
  match wkPhase w with
  | Waiting =>
      if wkStopped w || wpStopped wp || (wpTasksClosed wp && bool_decide (wpTaskQueue wp = []))
      then Some (put_worker wp h (at_phase w (wkActive w) Exited) (wpActiveWorkers wp)) else None
  | _ => None
  end.
(** The loop takes the first task of the channel (the [select] may prefer it to a
    closed stop channel). *)
Definition take_task (wp : WorkerPool) (h : nat) (w : Worker) : option WorkerPool :=
  match wkPhase w, wpTaskQueue wp with
  | Waiting, task :: rest =>
      Some (set_queues (put_worker wp h (at_phase w (wkActive w) (Received task)) (wpActiveWorkers wp)) rest (wpResults wp))
  | _, _ => None
  end.
(** The result of a task: [res] and [err] are what the executor function returned. *)
Definition task_result (w : Worker) (task : WorkerTask) (res : option WorkerResult) (err : option string) (duration now : Z) :
    WorkerResult :=
  let base :=
    match res with
    | Some r => r
    | None => {| wrTaskID := wtID task; wrSuccess := false; wrError := None;
                 wrResult := None; wrWorkerID := wkID w; wrDuration := 0; wrCompletedAt := 0 |}
    end in
  {| wrTaskID := wrTaskID base;
     wrSuccess := match err with Some _ => false | None => true end;
     wrError := match err with Some e => Some e | None => wrError base end;
     wrResult := wrResult base; wrWorkerID := wrWorkerID base;
     wrDuration := duration; wrCompletedAt := now |}.
(** The executor returned: the task is counted. *)
Definition count_task (wp : WorkerPool) (task : WorkerTask) (err : option string) : WorkerPool :=
  set_counts wp (wpTotalTasks wp)
    (wpCompletedTasks wp + match err with Some _ => 0 | None => 1 end)
    (wpFailedTasks wp + match err with Some _ => 1 | None => 0 end) (wpSubmitting wp) (wpAccepted wp) (wpFinished wp ++ [task]).
(** The last writes of the deferred function. *)
Definition rested (w : Worker) (now : Z) : Worker :=
  {| wkID := wkID w; wkActive := wkActive w; wkStopped := wkStopped w; wkPhase := Waiting;
     wkLastActive := Some now; wkTasksProcessed := (wkTasksProcessed w + 1)%Z |}.
(** [processTask], one access at a time.  [sent] says whether the result channel
    (capacity 100) had room in time; on a closed channel the send panics. *)
Definition processTask (wp : WorkerPool) (h : nat) (w : Worker) (res : option WorkerResult) (err : option string)
    (duration now : Z) (sent : bool) : option (outcome WorkerPool) :=
  match wkPhase w with
  | Received t => Some (Ret (put_worker wp h (at_phase w true (Marked t)) (wpActiveWorkers wp)))
  | Marked t => Some (Ret (put_worker wp h (at_phase w (wkActive w) (Executing t)) (wpActiveWorkers wp + 1)))
  | Executing t =>
      Some (Ret (count_task (put_worker wp h (at_phase w (wkActive w) (Sending (task_result w t res err duration now)))
                              (wpActiveWorkers wp)) t err))
  | Sending r =>
      let wp' := put_worker wp h (at_phase w (wkActive w) Sent) (wpActiveWorkers wp) in
      if sent then
        if wpResultsClosed wp then Some (Panic "send on closed channel")
        else if bool_decide (length (wpResults wp) < 100)
        then Some (Ret (set_queues wp' (wpTaskQueue wp) (wpResults wp ++ [r]))) else None
      else Some (Ret wp')
  | Sent => Some (Ret (put_worker wp h (at_phase w false Unmarked) (wpActiveWorkers wp)))
  | Unmarked => Some (Ret (put_worker wp h (rested w now) (wpActiveWorkers wp - 1)))
  | Waiting | Exited => None
  end.

(** [processResults] takes the next result to publish it. *)
Definition take_result (wp : WorkerPool) : option (WorkerResult * WorkerPool) :=
  match wpResults wp with
  | [] => None
  | r :: rest => Some (r, set_queues wp (wpTaskQueue wp) rest)
  end.

(** ** Scaling *)

(** [active], [totalWorkers] and [queueSize] are what it has read before it decides. *)
Definition checkScaling (wp : WorkerPool) (since now active totalWorkers queueSize : Z) : WorkerPool :=
  if bool_decide (since < wpCooldown wp)%Z then wp
  else if bool_decide (totalWorkers = 0%Z) then wp
  else
    let utilization := f64_div (f64_of_Z active) (f64_of_Z totalWorkers) in
    let scaled wp := set_scaled wp (Some now) (wpStopped wp) (wpTasksClosed wp) (wpResultsClosed wp) in
    if (f64_ltb (wpScaleUp wp) utilization
        || bool_decide (Z.quot (wpTaskCap wp) 2 < queueSize)%Z)
       && bool_decide (totalWorkers < wpMaxWorkers wp)%Z then
      match addWorker wp with
      | (Ok _, wp') => scaled wp'
      | (Err _, wp') => wp'
      end
    else if f64_ltb utilization (wpScaleDown wp) && bool_decide (queueSize = 0%Z)
            && bool_decide (wpMinWorkers wp < totalWorkers)%Z then
      match removeWorker wp with
      | (Ok _, wp') => scaled wp'
      | (Err _, wp') => wp'
      end
    else wp.

Record WorkerPoolMetrics := {
  wmTotalWorkers : Z; wmActiveWorkers : Z; wmTotalTasks : Z; wmCompletedTasks : Z;
  wmFailedTasks : Z; wmQueueSize : Z; wmQueueCapacity : Z
}.

(** [GetMetrics] reads one value after the other, in the states [s1] to [s6]. *)
Definition GetMetrics (s1 s2 s3 s4 s5 s6 : WorkerPool) : WorkerPoolMetrics :=
  {| wmTotalWorkers := TotalWorkers s1; wmActiveWorkers := ActiveWorkers s2;
     wmTotalTasks := wpTotalTasks s3; wmCompletedTasks := wpCompletedTasks s4;
     wmFailedTasks := wpFailedTasks s5;
     wmQueueSize := Z.of_nat (length (wpTaskQueue s6)); wmQueueCapacity := wpTaskCap s6 |}.

(** ** Runs *)

Inductive pool_step : WorkerPool → WorkerPool → Prop :=
| ps_add wp : pool_step wp (addWorker wp).2
| ps_remove wp : pool_step wp (removeWorker wp).2
| ps_submit wp task c r wp' : submit_select wp task c = Some (r, wp') → pool_step wp wp'
| ps_count wp wp' : submit_count wp = Some wp' → pool_step wp wp'
| ps_take wp h w wp' : wpAll wp !! h = Some w → take_task wp h w = Some wp' → pool_step wp wp'
| ps_process wp h w res err d now sent wp' :
    wpAll wp !! h = Some w → processTask wp h w res err d now sent = Some (Ret wp') → pool_step wp wp'
| ps_exit wp h w wp' : wpAll wp !! h = Some w → exit_worker wp h w = Some wp' → pool_step wp wp'
| ps_result wp r wp' : take_result wp = Some (r, wp') → pool_step wp wp'
| ps_scale wp since now active total queue : pool_step wp (checkScaling wp since now active total queue)
| ps_stop wp wp' : stop_signal wp = Ret wp' → pool_step wp wp'
| ps_stop_tasks wp : pool_step wp (stop_tasks wp)
| ps_stop_workers wp : pool_step wp (stop_workers wp)
| ps_stop_results wp : pool_step wp (stop_results wp).

(** The task a worker holds and has not executed, and whether it counts as active. *)
Definition in_hand (w : Worker) : option WorkerTask :=
  match wkPhase w with Received t | Marked t | Executing t => Some t | _ => None end.
Definition counted_active (w : Worker) : nat :=
  match wkPhase w with Executing _ | Sending _ | Sent | Unmarked => 1 | _ => 0 end.
Definition marked (w : Worker) : bool :=
  match wkPhase w with Marked _ | Executing _ | Sending _ | Sent => true | _ => false end.

Record pool_inv (wp : WorkerPool) : Prop := {
  pv_fresh : ∀ h, is_Some (wpAll wp !! h) → h < wpNext wp;
  pv_listed : ∀ h, h ∈ wpWorkers wp → is_Some (wpAll wp !! h);
  pv_active : ∀ h w, wpAll wp !! h = Some w → wkActive w = marked w;
  pv_busy : wpActiveWorkers wp = Z.of_nat (total counted_active (wpAll wp));
  pv_tasks : wpAccepted wp ≡ₚ wpFinished wp ++ wpTaskQueue wp ++ gathered in_hand (wpAll wp);
  pv_total : (wpTotalTasks wp + Z.of_nat (wpSubmitting wp) = Z.of_nat (length (wpAccepted wp)))%Z;
  pv_ended : (wpCompletedTasks wp + wpFailedTasks wp = Z.of_nat (length (wpFinished wp)))%Z;
  pv_max : (TotalWorkers wp ≤ Z.max 0 (wpMaxWorkers wp))%Z;
  pv_cap : (Z.of_nat (length (wpTaskQueue wp)) ≤ Z.max 0 (wpTaskCap wp))%Z;
  pv_results : length (wpResults wp) ≤ 100
}.

(** What the invariant looks at in a worker. *)
Definition work (w : Worker) : bool * WorkerPhase := (wkActive w, wkPhase w).

Lemma work_all (all all' : gmap nat Worker) {B} (f : Worker → B) (g : bool * WorkerPhase → B) :
  (∀ w, f w = g (work w)) → (∀ h, work <$> all' !! h = work <$> all !! h) → f <$> all' = f <$> all.
Proof.
  intros Hf Hw. apply map_eq. intros h. rewrite !lookup_fmap. specialize (Hw h).
  destruct (all' !! h) as [w'|], (all !! h) as [w|]; simpl in *; try done. f_equal. rewrite !Hf. congruence.
Qed.
Lemma gathered_fmap {A B C} (f : A → B) (g : B → option C) (m : gmap nat A) : gathered g (f <$> m) = gathered (g ∘ f) m.
Proof. unfold gathered. rewrite map_to_list_fmap, <- list_fmap_compose. induction (map_to_list m) as [|[i x] l IH]; [done|]. csimpl. by rewrite IH. Qed.
Lemma total_fmap {A B} (f : A → B) (g : B → nat) (m : gmap nat A) : total g (f <$> m) = total (g ∘ f) m.
Proof.
  induction m as [|p x m Hp IH] using map_ind; [done|]. rewrite fmap_insert, !total_insert_new by (rewrite ?lookup_fmap, ?Hp; done).
  by rewrite IH.
Qed.

Lemma pool_inv_set_workers wp all' ws :
  (∀ h, work <$> all' !! h = work <$> wpAll wp !! h) → ws `sublist_of` wpWorkers wp →
  pool_inv wp → pool_inv (set_workers wp all' (wpNext wp) ws (wpActiveWorkers wp)).
Proof.
  intros Hw Hs [].
  assert (Hsome : ∀ h, is_Some (all' !! h) ↔ is_Some (wpAll wp !! h))
    by (intros h; by rewrite <- (fmap_is_Some work), Hw, fmap_is_Some).
  assert (work <$> all' = work <$> wpAll wp) as E by by apply (work_all (wpAll wp) all' work id).
  set (hand := λ x : bool * WorkerPhase, match x.2 with Received t | Marked t | Executing t => Some t | _ => None end).
  set (act := λ x : bool * WorkerPhase, match x.2 with Executing _ | Sending _ | Sent | Unmarked => 1 | _ => 0 end).
  assert (gathered in_hand all' = gathered in_hand (wpAll wp)) as Eh.
  { change in_hand with (hand ∘ work). by rewrite <- !gathered_fmap, E. }
  assert (total counted_active all' = total counted_active (wpAll wp)) as Ea.
  { change counted_active with (act ∘ work). by rewrite <- !total_fmap, E. }
  split; simpl; rewrite ?Eh, ?Ea; try done.
  - intros h Hh. by apply pv_fresh0, Hsome.
  - intros h Hh. apply Hsome, pv_listed0. by eapply elem_of_sublist.
  - intros h w Hh. specialize (Hw h). rewrite Hh in Hw.
    destruct (wpAll wp !! h) as [w0|] eqn:E0; simplify_eq/=.
    specialize (pv_active0 _ _ E0). unfold marked in *. destruct w, w0. by simplify_eq/=.
  - unfold TotalWorkers in *. simpl. apply sublist_length in Hs. lia.
Qed.

Lemma stop_work (all : gmap nat Worker) h h' : work <$> alter stop_worker h all !! h' = work <$> all !! h'.
Proof. rewrite lookup_alter. case_decide; [subst|done]. by destruct (all !! h'). Qed.

Lemma stops_work (all : gmap nat Worker) hs h :
  work <$> foldr (λ h all, alter stop_worker h all) all hs !! h = work <$> all !! h.
Proof. induction hs as [|h' hs IH]; simpl; [done|]. by rewrite stop_work. Qed.

Lemma pool_inv_add wp : pool_inv wp → pool_inv (addWorker wp).2.
Proof.
  intros Hinv. unfold addWorker. case_bool_decide as Hm; [done|]. simpl.
  assert (wpAll wp !! wpNext wp = None) as Hn.
  { destruct (wpAll wp !! wpNext wp) eqn:E; [|done].
    assert (wpNext wp < wpNext wp) by (apply (pv_fresh _ Hinv); eauto). lia. }
  destruct Hinv. split; simpl; rewrite ?total_insert_new, ?gathered_new by done; simpl; rewrite ?app_nil_r; try done.
  - intros h [w [[<- _]|[_ H]]%lookup_insert_Some]; [lia|].
    assert (h < wpNext wp); [eauto|lia].
  - intros h [Hh| ->%list_elem_of_singleton]%elem_of_app; apply lookup_insert_is_Some;
      [destruct (decide (wpNext wp = h)); eauto|by left].
  - intros h w [[_ <-]|[_ H]]%lookup_insert_Some; simpl; eauto.
  - unfold TotalWorkers in *. simpl. rewrite length_app. simpl. lia.
Qed.

Lemma pool_inv_remove wp : pool_inv wp → pool_inv (removeWorker wp).2.
Proof.
  intros Hinv. unfold removeWorker. case_bool_decide; [done|].
  destruct (list_find _ _) as [[i h]|]; [|done]. simpl.
  apply pool_inv_set_workers; [apply stop_work|apply sublist_filter|done].
Qed.

Lemma pool_inv_scaled wp last b1 b2 b3 : pool_inv wp → pool_inv (set_scaled wp last b1 b2 b3).
Proof. by intros []. Qed.

(** A worker goes on: [active], the queues and the tasks finished change with it. *)
Lemma pool_inv_worker wp wp' h w w' :
  pool_inv wp → wpAll wp !! h = Some w → wpAll wp' = <[h := w']> (wpAll wp) →
  wpNext wp' = wpNext wp → wpWorkers wp' = wpWorkers wp → wpMaxWorkers wp' = wpMaxWorkers wp → wpTaskCap wp' = wpTaskCap wp →
  wpAccepted wp' = wpAccepted wp → wpTotalTasks wp' = wpTotalTasks wp → wpSubmitting wp' = wpSubmitting wp →
  wkActive w' = marked w' →
  (wpActiveWorkers wp' + Z.of_nat (counted_active w) = wpActiveWorkers wp + Z.of_nat (counted_active w'))%Z →
  option_list (in_hand w) ++ wpFinished wp ++ wpTaskQueue wp ≡ₚ wpFinished wp' ++ wpTaskQueue wp' ++ option_list (in_hand w') →
  (wpCompletedTasks wp' + wpFailedTasks wp' = Z.of_nat (length (wpFinished wp')))%Z →
  length (wpTaskQueue wp') ≤ length (wpTaskQueue wp) → length (wpResults wp') ≤ 100 → pool_inv wp'.
Proof.
  intros [] Hw Ea En Ew Em Ec Eacc Et Es Hact Hcnt Htasks Hend Hq Hr.
  pose proof (total_insert counted_active _ _ _ w' Hw) as Ht. pose proof (gathered_insert in_hand _ _ _ w' Hw) as Hg.
  split; rewrite ?En, ?Ew, ?Em, ?Ec, ?Eacc, ?Et, ?Es; try done.
  - intros h'. rewrite Ea, lookup_insert_is_Some. intros [<-|[_ H]]; eauto.
  - intros h' Hh. rewrite Ea. apply lookup_insert_is_Some. destruct (decide (h = h')); eauto.
  - intros h' x. rewrite Ea. intros [[_ <-]|[_ H]]%lookup_insert_Some; eauto.
  - rewrite Ea. lia.
  - rewrite Ea, pv_tasks0. apply (Permutation_app_inv_r (option_list (in_hand w))). rewrite <- !app_assoc, Hg.
    rewrite (app_assoc (wpFinished wp)). rewrite (Permutation_app_comm (gathered in_hand (wpAll wp)) (option_list (in_hand w))).
    rewrite (Permutation_app_comm (gathered in_hand (wpAll wp)) (option_list (in_hand w'))).
    rewrite app_assoc, (Permutation_app_comm _ (option_list (in_hand w))), Htasks. by rewrite <- !app_assoc.
  - unfold TotalWorkers in *. rewrite Ew. done.
  - lia.
Qed.

Lemma pool_inv_process wp h w res err d now sent wp' :
  wpAll wp !! h = Some w → processTask wp h w res err d now sent = Some (Ret wp') → pool_inv wp → pool_inv wp'.
Proof.
  intros Hw E Hi. pose proof (pv_active _ Hi _ _ Hw) as Ha. pose proof (pv_ended _ Hi) as He. pose proof (pv_results _ Hi) as Hr.
  unfold processTask in E. destruct (wkPhase w) as [|t|t|t|r| | |] eqn:Ep; try done.
  - injection E as <-. eapply (pool_inv_worker wp _ h w); try done; unfold counted_active, in_hand; rewrite Ep; simpl; [lia|].
    by rewrite Permutation_cons_append, <- app_assoc.
  - injection E as <-. eapply (pool_inv_worker wp _ h w); try done; unfold marked, counted_active, in_hand in *; rewrite Ep in *; simpl; [done|lia|].
    by rewrite Permutation_cons_append, <- app_assoc.
  - injection E as <-. eapply (pool_inv_worker wp _ h w); try done; unfold marked, counted_active, in_hand in *; rewrite Ep in *; simpl; [done|lia| |].
    + rewrite app_nil_r, <- app_assoc. simpl. by rewrite Permutation_middle.
    + rewrite length_app. simpl. destruct err; lia.
  - assert (∀ q, length q ≤ 100 → pool_inv (set_queues (put_worker wp h (at_phase w (wkActive w) Sent) (wpActiveWorkers wp)) (wpTaskQueue wp) q)) as Hq.
    { intros q Hl. eapply (pool_inv_worker wp _ h w); try done; unfold marked, counted_active, in_hand in *; rewrite Ep in *; simpl; [done|lia|].
      by rewrite app_nil_r. }
    destruct sent.
    + destruct (wpResultsClosed wp); [done|]. case_bool_decide; [|done]. injection E as <-. apply Hq. rewrite length_app. simpl. lia.
    + injection E as <-. exact (Hq _ Hr).
  - injection E as <-. eapply (pool_inv_worker wp _ h w); try done; unfold marked, counted_active, in_hand in *; rewrite Ep in *; simpl; [lia|].
    by rewrite app_nil_r.
  - injection E as <-. eapply (pool_inv_worker wp _ h w); try done; unfold marked, counted_active, in_hand in *; rewrite Ep in *; simpl; [done|lia|].
    by rewrite app_nil_r.
Qed.

Lemma pool_inv_step wp wp' : pool_step wp wp' → pool_inv wp → pool_inv wp'.
Proof.
  intros [p|p|p task c r p' E|p p' E|p h w p' Hw E|p h w res err d now sent p' Hw E|p h w p' Hw E|p r p' E
    |p since now active tot queue|p p' E|p|p|p] Hinv.
  - by apply pool_inv_add.
  - by apply pool_inv_remove.
  - destruct c; simpl in E; [|by simplify_eq..]. destruct (wpTasksClosed p); [done|].
    case_bool_decide; simplify_eq; [|done]. destruct Hinv. split; simpl; try done; rewrite ?length_app; simpl; try lia.
    rewrite pv_tasks0, <- !app_assoc. do 2 f_equiv. by rewrite Permutation_app_comm.
  - unfold submit_count in E. destruct (wpSubmitting p) eqn:Es; [done|]. simplify_eq. destruct Hinv. split; simpl; try done. lia.
  - unfold take_task in E. destruct (wkPhase w) eqn:Ep; try done. destruct (wpTaskQueue p) as [|task rest] eqn:Hq; [done|]. simplify_eq.
    pose proof (pv_active _ Hinv _ _ Hw) as Ha. pose proof (pv_ended _ Hinv). pose proof (pv_results _ Hinv).
    eapply (pool_inv_worker p _ h w); try done; unfold marked, counted_active, in_hand in *; rewrite Ep, ?Hq in *; simpl; [done|lia| |lia].
    by rewrite Permutation_cons_append.
  - by eapply pool_inv_process.
  - unfold exit_worker in E. destruct (wkPhase w) eqn:Ep; try done. destruct (_ || _); [|done]. simplify_eq.
    pose proof (pv_active _ Hinv _ _ Hw) as Ha. pose proof (pv_ended _ Hinv). pose proof (pv_results _ Hinv).
    eapply (pool_inv_worker p _ h w); try done; unfold marked, counted_active, in_hand in *; rewrite Ep in *; simpl; [done|lia|].
    by rewrite app_nil_r.
  - unfold take_result in E. destruct (wpResults p) as [|r' rest] eqn:Hr; [done|]. simplify_eq.
    destruct Hinv. rewrite Hr in *. simpl in *. split; simpl; try done. lia.
  - unfold checkScaling. pose proof (pool_inv_add p Hinv). pose proof (pool_inv_remove p Hinv).
    destruct (addWorker p) as [[] ?], (removeWorker p) as [[] ?]; simpl in *;
      repeat case_match; by try apply pool_inv_scaled.
  - unfold stop_signal in E. destruct (wpStopped p); simplify_eq. by apply pool_inv_scaled.
  - by apply pool_inv_scaled.
  - apply pool_inv_set_workers; [apply stops_work|done..].
  - by apply pool_inv_scaled.
Qed.

Lemma pool_inv_new config numCPU : pool_inv (NewWorkerPool config numCPU).
Proof.
  split; try done; [by intros h [w Hw]|by intros h Hh%elem_of_nil|unfold TotalWorkers; simpl; lia..].
Qed.

(** C40. For every interleaving of scaling, submissions, workers and shutdown
    from a new pool, at the grain of single accesses to channels and counters and up to
    a panic on a closed channel: the tasks that entered the channel are, each once,
    those executed, those in the channel and those in the hands of a worker; the
    total is the number of tasks sent less the submissions that have not counted
    theirs yet, the completed and the failed are together the number executed, and
    the active count is the number of workers between its increment and its
    decrement; the pool never exceeds its maximum, the task channel its capacity,
    or the result channel its hundred slots.  In particular, when no submission and
    no worker is under way the total is the sum of completed, failed and queued
    tasks and no worker is active. *)
Theorem worker_pool_conservation config numCPU wp :
  rtc pool_step (NewWorkerPool config numCPU) wp →
  wpAccepted wp ≡ₚ wpFinished wp ++ wpTaskQueue wp ++ gathered in_hand (wpAll wp) ∧
  (wpTotalTasks wp + Z.of_nat (wpSubmitting wp) = Z.of_nat (length (wpAccepted wp)))%Z ∧
  (wpCompletedTasks wp + wpFailedTasks wp = Z.of_nat (length (wpFinished wp)))%Z ∧
  ActiveWorkers wp = Z.of_nat (total counted_active (wpAll wp)) ∧
  (TotalWorkers wp ≤ Z.max 0 (wpMaxWorkers wp))%Z ∧
  (Z.of_nat (length (wpTaskQueue wp)) ≤ Z.max 0 (wpTaskCap wp))%Z ∧ length (wpResults wp) ≤ 100 ∧
  (wpSubmitting wp = 0 → map_Forall (λ _ w, wkPhase w = Waiting ∨ wkPhase w = Exited) (wpAll wp) →
     wpTotalTasks wp = (wpCompletedTasks wp + wpFailedTasks wp + Z.of_nat (length (wpTaskQueue wp)))%Z
     ∧ ActiveWorkers wp = 0%Z).
Proof.
  intros Hr. apply (rtc_preserve _ pool_inv _ _ pool_inv_step) in Hr as []; [|apply pool_inv_new].
  split_and!; try done. intros Hs Hidle. unfold ActiveWorkers. rewrite pv_busy0.
  assert (gathered in_hand (wpAll wp) = [] ∧ total counted_active (wpAll wp) = 0) as [Eg ->].
  { clear -Hidle. induction (wpAll wp) as [|h w all Hh IH] using map_ind; [done|]. apply map_Forall_insert in Hidle as [Hp Hi]; [|done].
    destruct (IH Hi) as [E1 E2]. rewrite total_insert_new, E2 by done. split.
    - apply Permutation_nil_r. rewrite gathered_new, E1 by done. unfold in_hand. by destruct Hp as [-> | ->].
    - unfold counted_active. by destruct Hp as [-> | ->]. }
  apply Permutation_length in pv_tasks0. rewrite !length_app, Eg in pv_tasks0. simpl in pv_tasks0. split; lia.
Qed.

(** ** Worker numbers *)

Definition demo_config : WorkerPoolConfig :=
  {| wcMinWorkers := 2; wcMaxWorkers := 4; wcTaskQueueSize := 10; wcEnableScaling := true;
     wcScaleUpThreshold := S754_zero false; wcScaleDownThreshold := S754_zero false;
     wcScaleCooldown := 0 |}.
Definition demo_task : WorkerTask :=
  {| wtID := "t"; wtWorkflowID := "w"; wtRequest := demo_request "t"; wtCreatedAt := 0;
     wtTimeout := 0; wtRetries := 0 |}.

(** Two workers started, one added, the first removed, one added again: the
    numbers are then 2, 3 and 3. *)
Definition demo_pool : WorkerPool :=
  let wp := (Start (NewWorkerPool demo_config 4)).2 in
  (addWorker (removeWorker (addWorker wp).2).2).2.
(** Turns of a worker, as far as they go. *)
Definition worker_turn (wp : WorkerPool) (h : nat) : option WorkerPool :=
  w ← wpAll wp !! h;
  match take_task wp h w with
  | Some wp => Some wp
  | None => match processTask wp h w None None 0 0 true with Some (Ret wp) => Some wp | _ => None end
  end.
Fixpoint worker_turns (wp : WorkerPool) (h n : nat) : option WorkerPool :=
  match n with O => Some wp | S n => wp ← worker_turn wp h; worker_turns wp h n end.
Definition demo_pool_busy : option WorkerPool :=
  match submit_select demo_pool demo_task SubmitSend with
  | Some (_, wp) => worker_turns wp 1 3
  | None => None
  end.
Lemma worker_turns_reachable n wp h wp' : worker_turns wp h n = Some wp' → rtc pool_step wp wp'.
Proof.
  revert wp. induction n as [|n IH]; intros wp; simpl; [by intros [= ->]|]. unfold worker_turn.
  destruct (wpAll wp !! h) as [w|] eqn:Ew; [|done]. simpl. destruct (take_task wp h w) as [wp1|] eqn:E; simpl.
  - intros H. eapply rtc_l; [by eapply ps_take|]. by apply IH.
  - destruct (processTask _ _ _ _ _ _ _ _) as [[wp1| |]|] eqn:E1; try done. simpl. intros H. eapply rtc_l; [by eapply ps_process|]. by apply IH.
Qed.

Lemma Start_reachable n i wp : rtc pool_step wp (start_workers n i wp).2.
Proof.
  revert i wp. induction n as [|n IH]; intros i wp; simpl; [done|].
  destruct (addWorker wp) as [[] wp'] eqn:E; simpl;
    (eapply rtc_l; [apply ps_add|]; rewrite E; simpl; [apply IH || done]).
Qed.

Lemma demo_pool_reachable : rtc pool_step (NewWorkerPool demo_config 4) demo_pool.
Proof.
  etrans; [apply (Start_reachable 2 0)|]. change (start_workers 2 0 _) with (Start (NewWorkerPool demo_config 4)).
  eapply rtc_l; [apply ps_add|]. eapply rtc_l; [apply ps_remove|]. eapply rtc_l; [apply ps_add|].
  apply rtc_refl.
Qed.

Lemma worker_pool_conservation_witness :
  (TotalWorkers demo_pool ≤ 4)%Z ∧ wpAccepted demo_pool ≡ₚ [].
Proof.
  pose proof (worker_pool_conservation _ _ _ demo_pool_reachable) as (H1 & _ & _ & _ & H & _).
  split; [exact H|exact H1].
Defined.

(** A task is completed before its submission has counted it: the completed tasks are
    more than the total. *)
Lemma completed_before_counted :
  ∃ wp, rtc pool_step (NewWorkerPool demo_config 4) wp ∧ wpCompletedTasks wp = 1%Z ∧ wpTotalTasks wp = 0%Z ∧ ActiveWorkers wp = 1%Z.
Proof.
  destruct (submit_select demo_pool demo_task SubmitSend) as [[r wp1]|] eqn:Es; [|by vm_compute in Es].
  destruct (worker_turns wp1 1 4) as [wp|] eqn:E; [|by vm_compute in Es; injection Es as <- <-; vm_compute in E].
  exists wp. split; [|vm_compute in Es; injection Es as <- <-; vm_compute in E; injection E as <-; by vm_compute].
  etrans; [apply demo_pool_reachable|]. eapply rtc_l; [by eapply ps_submit|]. by eapply worker_turns_reachable.
Qed.
(** A shutdown that does not wait long enough closes the results under a worker. *)
Lemma late_result_panics :
  ∃ wp h w, rtc pool_step (NewWorkerPool demo_config 4) wp ∧ wpAll wp !! h = Some w
    ∧ processTask wp h w None None 0 0 true = Some (Panic "send on closed channel").
Proof.
  destruct (submit_select demo_pool demo_task SubmitSend) as [[r wp1]|] eqn:Es; [|by vm_compute in Es].
  destruct (worker_turns wp1 1 4) as [wp|] eqn:E; [|by vm_compute in Es; injection Es as <- <-; vm_compute in E].
  exists (stop_results wp), 1. eexists. split_and!.
  - etrans; [apply demo_pool_reachable|]. eapply rtc_l; [by eapply ps_submit|]. etrans; [by eapply worker_turns_reachable|].
    apply rtc_once, ps_stop_results.
  - vm_compute in Es. injection Es as <- <-. vm_compute in E. injection E as <-. vm_compute. reflexivity.
  - vm_compute in Es. injection Es as <- <-. vm_compute in E. injection E as <-. vm_compute. reflexivity.
Qed.

(** A new worker's number is the length of the slice plus one, so numbers
    repeat after a removal, and [removeWorker] drops every worker carrying
    the number while stopping only one: from the default minimum of two
    workers, a reachable pool scales down to one, and the other dropped
    worker keeps running outside the pool. *)
Lemma removeWorker_below_minimum :
  ∃ wp, rtc pool_step (NewWorkerPool demo_config 4) wp ∧
    (removeWorker wp).1 = Ok tt ∧
    (TotalWorkers (removeWorker wp).2 < wpMinWorkers wp)%Z ∧
    ∃ h w, (h ∉ wpWorkers (removeWorker wp).2) ∧
      wpAll (removeWorker wp).2 !! h = Some w ∧ wkStopped w = false.
Proof.
  destruct demo_pool_busy as [wp|] eqn:E; [|by vm_compute in E].
  exists wp. split_and!.
  - etrans; [apply demo_pool_reachable|]. unfold demo_pool_busy in E.
    destruct (submit_select _ _ _) as [[r wp1]|] eqn:Es; [|done].
    eapply rtc_l; [by eapply ps_submit|]. by eapply worker_turns_reachable.
  - vm_compute in E. injection E as <-. vm_compute. reflexivity.
  - vm_compute in E. injection E as <-. vm_compute. reflexivity.
  - exists 3. vm_compute in E. injection E as <-. eexists. split_and!;
      [|vm_compute; reflexivity|reflexivity].
    vm_compute. intros H. apply list_elem_of_singleton in H. done.
Qed.
