(* ===== verification/QueueManager.v ===== *)
(** internal/execution/app/queue: the dead letter queue of priority_queue.go
    and the queue manager of manager.go (three priority queues in front of the
    worker pool, counters, and snapshots in Redis). *)

From S2P Require Import Prelude GoValue Heap PriorityQueue WorkerPool.

(** ** Dead letter queue *)

Record DeadLetterItem := {
  dlRequest : ExecutionRequest;
  dlError : string;
  dlFailedAt : Z;
  dlRetryCount : Z;
  dlLastRetryAt : option Z;
  dlCanRetry : bool
}.

(** The in-memory list and the items stored under [dlq:item:<id>]; storing and
    loading an item is taken to preserve it. *)
Record DeadLetterQueue := {
  dlqItems : list DeadLetterItem;
  dlqMaxRetries : Z;
  dlqStore : gmap string DeadLetterItem
}.

Definition NewDeadLetterQueue (maxRetries : Z) : DeadLetterQueue :=
  {| dlqItems := []; dlqMaxRetries := maxRetries; dlqStore := ∅ |}.

(** [persistItem] and [removePersistedItem]; a Redis failure is only logged. *)
Definition DLQ_persistItem (store : gmap string DeadLetterItem) (item : DeadLetterItem)
    (redisOk : bool) : gmap string DeadLetterItem :=
  if redisOk then <[reqID (dlRequest item) := item]> store else store.
Definition DLQ_removePersistedItem (store : gmap string DeadLetterItem) (id : string)
    (redisOk : bool) : gmap string DeadLetterItem :=
  if redisOk then delete id store else store.

Definition same_request (id : string) (it : DeadLetterItem) : Prop := reqID (dlRequest it) = id.
#[export] Instance same_request_dec id it : Decision (same_request id it) :=
  decide (reqID (dlRequest it) = id).

Definition DLQ_Add (q : DeadLetterQueue) (request : ExecutionRequest) (err : string)
    (now now2 : Z) (redisOk : bool) : DeadLetterQueue :=
  match list_find (same_request (reqID request)) (dlqItems q) with
  | Some (i, existing) =>
      let retryCount := (dlRetryCount existing + 1)%Z in
      let existing' :=
        {| dlRequest := dlRequest existing; dlError := err; dlFailedAt := dlFailedAt existing;
           dlRetryCount := retryCount; dlLastRetryAt := Some now2;
           dlCanRetry := bool_decide (retryCount < dlqMaxRetries q)%Z |} in
      {| dlqItems := take i (dlqItems q) ++ drop (S i) (dlqItems q) ++ [existing'];
         dlqMaxRetries := dlqMaxRetries q;
         dlqStore := DLQ_persistItem (dlqStore q) existing' redisOk |}
  | None =>
      let item := {| dlRequest := request; dlError := err; dlFailedAt := now;
                     dlRetryCount := 0; dlLastRetryAt := None; dlCanRetry := true |} in
      {| dlqItems := dlqItems q ++ [item]; dlqMaxRetries := dlqMaxRetries q;
         dlqStore := DLQ_persistItem (dlqStore q) item redisOk |}
  end.

Definition DLQ_GetRetryable (q : DeadLetterQueue) : list DeadLetterItem :=
  filter (λ it, dlCanRetry it = true) (dlqItems q).

Definition DLQ_Remove (q : DeadLetterQueue) (requestID : string) (redisOk : bool) :
    bool * DeadLetterQueue :=
  match list_find (same_request requestID) (dlqItems q) with
  | Some (i, _) =>
      (true, {| dlqItems := take i (dlqItems q) ++ drop (S i) (dlqItems q);
                dlqMaxRetries := dlqMaxRetries q;
                dlqStore := DLQ_removePersistedItem (dlqStore q) requestID redisOk |})
  | None => (false, q)
  end.

Definition DLQ_Size (q : DeadLetterQueue) : nat := length (dlqItems q).
Definition DLQ_GetAll (q : DeadLetterQueue) : list DeadLetterItem := dlqItems q.

(** [RestoreFromRedis]: [ord] is the order of the scan, [bad] the keys whose
    value cannot be read or decoded, [scanErr] the iterator's error. *)
Definition RestoreFromRedis (q : DeadLetterQueue) (ord : list string) (bad : string → bool)
    (scanErr : option string) : result unit * DeadLetterQueue :=
  let items := omap (λ id, if bad id then None else dlqStore q !! id) ord in
  (match scanErr with
   | Some e => Err ("failed to scan dead letter items: " +:+ e)
   | None => Ok tt
   end,
   {| dlqItems := dlqItems q ++ items; dlqMaxRetries := dlqMaxRetries q;
      dlqStore := dlqStore q |}).

(** ** The retry budget *)

(** A log of failures: request, error text, the two clock readings, and
    whether Redis answered. *)
Definition failure : Type := ExecutionRequest * string * Z * Z * bool.
Definition add_failure (q : DeadLetterQueue) (f : failure) : DeadLetterQueue :=
  let '(r, e, t1, t2, ok) := f in DLQ_Add q r e t1 t2 ok.
Definition failures_of (id : string) (fs : list failure) : nat :=
  length (filter (λ f : failure, reqID f.1.1.1.1 = id) fs).

(** Each request has at most one entry, which counts its failures. *)
Definition dlq_counts (max : Z) (fs : list failure) (q : DeadLetterQueue) : Prop :=
  dlqMaxRetries q = max ∧ NoDup ((λ it, reqID (dlRequest it)) <$> dlqItems q) ∧
  (∀ it, it ∈ dlqItems q →
     Z.of_nat (failures_of (reqID (dlRequest it)) fs) = (dlRetryCount it + 1)%Z ∧
     (0 ≤ dlRetryCount it)%Z ∧
     dlCanRetry it = bool_decide (dlRetryCount it = 0%Z) || bool_decide (dlRetryCount it < max)%Z) ∧
  (∀ id, 0 < failures_of id fs → id ∈ (λ it, reqID (dlRequest it)) <$> dlqItems q).

Lemma failures_of_snoc id fs f :
  failures_of id (fs ++ [f]) =
  failures_of id fs + (if decide (reqID f.1.1.1.1 = id) then 1 else 0).
Proof.
  unfold failures_of. rewrite filter_app, length_app, filter_cons. by case_decide.
Qed.

Lemma take_drop_perm {A} i (l : list A) x :
  l !! i = Some x → l ≡ₚ x :: (take i l ++ drop (S i) l).
Proof. intros H. rewrite <- (take_drop_middle l i x H) at 1. by rewrite Permutation_middle. Qed.

Lemma dlq_counts_add max fs q f :
  dlq_counts max fs q → dlq_counts max (fs ++ [f]) (add_failure q f).
Proof.
  destruct f as [[[[r e] t1] t2] ok]. intros (Hm & Hnd & Hit & Hin). simpl. unfold DLQ_Add.
  destruct (list_find _ _) as [[i ex]|] eqn:E.
  - apply list_find_Some in E as (Hl & Hid & _). unfold same_request in Hid.
    pose proof (take_drop_perm _ _ _ Hl) as Hp.
    set (rest := take i (dlqItems q) ++ drop (S i) (dlqItems q)) in *.
    rewrite Hp in Hnd. apply NoDup_cons in Hnd as [Hni Hnd].
    destruct (Hit ex) as (Hc & H0 & _); [by eapply list_elem_of_lookup_2|]. rewrite app_assoc. fold rest.
    split_and!; simpl; [done| | |].
    + rewrite fmap_app. apply NoDup_app. split_and!; [done| |apply NoDup_singleton].
      intros x Hx Hx'%list_elem_of_singleton. subst x. by apply Hni.
    + intros it [Hr| ->%list_elem_of_singleton]%elem_of_app; rewrite failures_of_snoc; simpl.
      * rewrite decide_False, Nat.add_0_r.
        -- apply Hit. rewrite Hp. by right.
        -- intros Heq. apply Hni. rewrite Hid, Heq. by apply (list_elem_of_fmap_2 (λ it, reqID (dlRequest it))).
      * rewrite decide_True by done. split_and!; [lia..|].
        rewrite (bool_decide_eq_false_2 (_ = 0%Z)) by lia. by rewrite Hm.
    + intros id. rewrite failures_of_snoc. simpl. intros Hpos. rewrite fmap_app, elem_of_app. simpl.
      destruct (decide (reqID r = id)) as [<-|]; [right; rewrite Hid; left|].
      rewrite Nat.add_0_r in Hpos. apply Hin in Hpos. rewrite Hp in Hpos. simpl in Hpos.
      apply elem_of_cons in Hpos as [->|?]; [by rewrite Hid in *|by left].
  - apply list_find_None in E. rewrite Forall_forall in E. unfold same_request in E.
    assert (Hno : reqID r ∉ (λ it, reqID (dlRequest it)) <$> dlqItems q).
    { intros (it & Hr & Hx)%list_elem_of_fmap. by apply (E it). }
    assert (failures_of (reqID r) fs = 0) as Hz
      by (destruct (failures_of (reqID r) fs) eqn:Ez; [done|]; exfalso; apply Hno, Hin; lia).
    split_and!; simpl; [done| | |].
    + rewrite fmap_app. apply NoDup_app. split_and!; [done| |apply NoDup_singleton].
      by intros x Hx ->%list_elem_of_singleton.
    + intros it [Hr| ->%list_elem_of_singleton]%elem_of_app; rewrite failures_of_snoc; simpl.
      * rewrite decide_False, Nat.add_0_r; [by apply Hit|]. intros Heq. by apply (E it).
      * rewrite decide_True, Hz by done. done.
    + intros id. rewrite failures_of_snoc. simpl. intros Hpos. rewrite fmap_app, elem_of_app. simpl.
      destruct (decide (reqID r = id)) as [<-|]; [right; left|left; apply Hin; lia].
Qed.

Lemma dlq_counts_all max fs :
  dlq_counts max fs (foldl add_failure (NewDeadLetterQueue max) fs).
Proof.
  induction fs as [|f fs IH] using rev_ind.
  - split_and!; simpl; [done|constructor|by intros it Hx%elem_of_nil|unfold failures_of; simpl; lia].
  - rewrite foldl_app. by apply dlq_counts_add.
Qed.

(** After any sequence of recorded failures, each failed request has
    exactly one entry, and the request is offered for retry exactly while it
    has failed once or at most [maxRetries] times. *)
Lemma dead_letter_retry_budget max fs id :
  let q := foldl add_failure (NewDeadLetterQueue max) fs in
  let n := failures_of id fs in
  0 < n →
  ∃ it, reqID (dlRequest it) = id ∧ it ∈ DLQ_GetAll q ∧
    (∀ it', it' ∈ DLQ_GetAll q → reqID (dlRequest it') = id → it' = it) ∧
    dlRetryCount it = (Z.of_nat n - 1)%Z ∧
    (it ∈ DLQ_GetRetryable q ↔ n = 1 ∨ (Z.of_nat n ≤ max)%Z).
Proof.
  intros q n Hn. unfold DLQ_GetAll. destruct (dlq_counts_all max fs) as (_ & Hnd & Hit & Hin). fold q in Hnd, Hit, Hin.
  destruct (proj1 (list_elem_of_fmap _ _ _) (Hin id Hn)) as (it & -> & Hm).
  destruct (Hit it Hm) as (Hc & H0 & Hr). exists it. split_and!; [done|done| |subst n; lia|].
  - intros it' Hm' Heq. apply list_elem_of_lookup_1 in Hm as [i Hi].
    apply list_elem_of_lookup_1 in Hm' as [j Hj].
    assert (i = j) as <-; [|congruence].
    apply (NoDup_lookup _ i j (reqID (dlRequest it)) Hnd); rewrite list_lookup_fmap;
      [by rewrite Hi|rewrite Hj; simpl; congruence].
  - unfold DLQ_GetRetryable. rewrite list_elem_of_filter, Hr, orb_true_iff, !bool_decide_eq_true.
    split; [intros [[?|?] _]; subst n; [left|right]; lia|].
    intros [?|?]; (split; [|done]); subst n; [left|right]; lia.
Qed.

Lemma dead_letter_retry_budget_witness :
  let f : failure := (demo_request "r", "boom", 1%Z, 2%Z, true) in
  let q := foldl add_failure (NewDeadLetterQueue 3) [f; f; f] in
  ∃ it, reqID (dlRequest it) = "r" ∧ it ∈ DLQ_GetRetryable q.
Proof.
  intros f q. destruct (dead_letter_retry_budget 3 [f; f; f] "r") as (it & Hid & _ & _ & _ & Hiff).
  - vm_compute. lia.
  - exists it. split; [exact Hid|]. apply Hiff. right. vm_compute. congruence.
Defined.

(** ** The queue manager *)

Record QueueManager := {
  qmHigh : PriorityQueue;
  qmNormal : PriorityQueue;
  qmLow : PriorityQueue;
  qmQueuedCount : Z;
  qmProcessingCount : Z;
  qmCompletedCount : Z;
  qmFailedCount : Z;
  qmMaxQueueSize : Z;
  qmPersistQueue : bool;
  qmDeadLetter : option DeadLetterQueue;
  qmStopped : bool
}.

Record QueueConfig := {
  qcMaxQueueSize : Z;
  qcPersistToRedis : bool;
  qcEnableDeadLetter : bool;
  qcMaxRetries : Z;
  qcWorkerCount : Z
}.

Definition NewQueueManager (config : QueueConfig) : QueueManager :=
  {| qmHigh := NewPriorityQueue PriorityHigh; qmNormal := NewPriorityQueue PriorityNormal;
     qmLow := NewPriorityQueue PriorityLow; qmQueuedCount := 0; qmProcessingCount := 0;
     qmCompletedCount := 0; qmFailedCount := 0; qmMaxQueueSize := qcMaxQueueSize config;
     qmPersistQueue := qcPersistToRedis config;
     qmDeadLetter := if qcEnableDeadLetter config
                     then Some (NewDeadLetterQueue (qcMaxRetries config)) else None;
     qmStopped := false |}.

(** Redis: the values under [queue:item:<id>] and under the snapshot keys. *)
Record Redis := {
  rdItems : gmap string QueueItem;
  rdQueues : gmap string (list QueueItem)
}.

(** Goroutines started by an operation, to run at some later time. *)
Inductive redis_task : Type :=
| PersistItem (it : QueueItem)
| RemovePersistedItem (id : string).

(** [persistItem] and [removePersistedItem]; the position is not serialised. *)
Definition run_task (r : Redis) (t : redis_task) : Redis :=
  match t with
  | PersistItem it =>
      {| rdItems := <[reqID (qiRequest it) := payload it]> (rdItems r); rdQueues := rdQueues r |}
  | RemovePersistedItem id => {| rdItems := delete id (rdItems r); rdQueues := rdQueues r |}
  end.

Definition set_lanes (qm : QueueManager) (h n l : PriorityQueue) (queued processing : Z) :
    QueueManager :=
  {| qmHigh := h; qmNormal := n; qmLow := l; qmQueuedCount := queued;
     qmProcessingCount := processing; qmCompletedCount := qmCompletedCount qm;
     qmFailedCount := qmFailedCount qm; qmMaxQueueSize := qmMaxQueueSize qm;
     qmPersistQueue := qmPersistQueue qm; qmDeadLetter := qmDeadLetter qm;
     qmStopped := qmStopped qm |}.
Definition set_done (qm : QueueManager) (processing completed failed : Z)
    (dlq : option DeadLetterQueue) (stopped : bool) : QueueManager :=
  {| qmHigh := qmHigh qm; qmNormal := qmNormal qm; qmLow := qmLow qm;
     qmQueuedCount := qmQueuedCount qm; qmProcessingCount := processing;
     qmCompletedCount := completed; qmFailedCount := failed;
     qmMaxQueueSize := qmMaxQueueSize qm; qmPersistQueue := qmPersistQueue qm;
     qmDeadLetter := dlq; qmStopped := stopped |}.

Definition getQueueSize (qm : QueueManager) : Z :=
  Z.of_nat (Size (qmHigh qm) + Size (qmNormal qm) + Size (qmLow qm)).

(** The two halves of [Enqueue]: the checks, and the insertion under the lock. *)
Definition enqueue_check (qm : QueueManager) : result unit :=
  if qmStopped qm then Err "queue manager is stopped"
  else if bool_decide (qmMaxQueueSize qm ≤ getQueueSize qm)%Z then
    Err ("queue is full (max size: " +:+ pretty (qmMaxQueueSize qm) +:+ ")")
  else Ok tt.

Definition enqueue_insert (qm : QueueManager) (request : ExecutionRequest) (now : Z) :
    QueueManager * list redis_task :=
  let item := {| qiRequest := request; qiPriority := reqPriority request; qiEnqueuedAt := now;
                 qiRetryCount := 0; qiLastRetryAt := None; qiIndex := 0 |} in
  let tasks := if qmPersistQueue qm then [PersistItem item] else [] in
  let queued := (qmQueuedCount qm + 1)%Z in
  (if bool_decide (reqPriority request = PriorityHigh) then
     set_lanes qm (Enqueue (qmHigh qm) item) (qmNormal qm) (qmLow qm) queued
       (qmProcessingCount qm)
   else if bool_decide (reqPriority request = PriorityLow) then
     set_lanes qm (qmHigh qm) (qmNormal qm) (Enqueue (qmLow qm) item) queued
       (qmProcessingCount qm)
   else
     set_lanes qm (qmHigh qm) (Enqueue (qmNormal qm) item) (qmLow qm) queued
       (qmProcessingCount qm), tasks).

Definition QM_Enqueue (qm : QueueManager) (request : ExecutionRequest) (now : Z) :
    result unit * QueueManager * list redis_task :=
  match enqueue_check qm with
  | Err e => (Err e, qm, [])
  | Ok _ => let '(qm', tasks) := enqueue_insert qm request now in (Ok tt, qm', tasks)
  end.

Definition QM_Dequeue (qm : QueueManager) :
    result ExecutionRequest * QueueManager * list redis_task :=
  let taken (item : option QueueItem) (qm' : QueueManager) :=
    match item with
    | None => (Err "no items in queue", qm, [])
    | Some item =>
        (Ok (qiRequest item), qm',
         if qmPersistQueue qm then [RemovePersistedItem (reqID (qiRequest item))] else [])
    end in
  let processing := (qmProcessingCount qm + 1)%Z in
  let queued := (qmQueuedCount qm - 1)%Z in
  if negb (IsEmpty (qmHigh qm)) then
    let '(item, q) := Dequeue (qmHigh qm) in
    taken item (set_lanes qm q (qmNormal qm) (qmLow qm) queued processing)
  else if negb (IsEmpty (qmNormal qm)) then
    let '(item, q) := Dequeue (qmNormal qm) in
    taken item (set_lanes qm (qmHigh qm) q (qmLow qm) queued processing)
  else if negb (IsEmpty (qmLow qm)) then
    let '(item, q) := Dequeue (qmLow qm) in
    taken item (set_lanes qm (qmHigh qm) (qmNormal qm) q queued processing)
  else taken None qm.

(** [processNextItem]; [None] is the panic of [Submit] after the pool stopped. *)
Definition processNextItem (qm : QueueManager) (wp : WorkerPool) (c : submit_choice)
    (tTask tQueue : Z) : option (QueueManager * WorkerPool * list redis_task) :=
  if negb (HasAvailableWorker wp) then Some (qm, wp, [])
  else match QM_Dequeue qm with
       | (Err _, _, _) => Some (qm, wp, [])
       | (Ok request, qm1, tasks1) =>
           let task := {| wtID := reqID request; wtWorkflowID := reqWorkflowID request;
                          wtRequest := request; wtCreatedAt := tTask; wtTimeout := 0;
                          wtRetries := 0 |} in
           match Submit wp task c with
           | None => None
           | Some (Ok _, wp') => Some (qm1, wp', tasks1)
           | Some (Err _, wp') =>
               let '(_, qm2, tasks2) := QM_Enqueue qm1 request tQueue in
               Some (qm2, wp', tasks1 ++ tasks2)
           end
       end.

Definition retrieveRequest (r : Redis) (executionID : string) : option ExecutionRequest :=
  qiRequest <$> rdItems r !! executionID.

Definition HandleExecutionComplete (qm : QueueManager) (r : Redis) (executionID : string)
    (success : bool) (now now2 : Z) (redisOk : bool) : QueueManager :=
  let processing := (qmProcessingCount qm - 1)%Z in
  if success then
    set_done qm processing (qmCompletedCount qm + 1) (qmFailedCount qm) (qmDeadLetter qm)
      (qmStopped qm)
  else
    set_done qm processing (qmCompletedCount qm) (qmFailedCount qm + 1)
      (match qmDeadLetter qm with
       | None => None
       | Some dlq =>
           match retrieveRequest r executionID with
           | Some request => Some (DLQ_Add dlq request "execution failed" now now2 redisOk)
           | None => Some dlq
           end
       end) (qmStopped qm).

(** ** Snapshots *)

Definition lane (qm : QueueManager) (key : string) : PriorityQueue :=
  if bool_decide (key = "queue:high") then qmHigh qm
  else if bool_decide (key = "queue:normal") then qmNormal qm else qmLow qm.
Definition snapshot_keys : list string := ["queue:high"; "queue:normal"; "queue:low"].

(** [saveQueues]: [ord] is the order of the three keys, [err] Redis' answers. *)
Fixpoint saveQueues (qm : QueueManager) (r : Redis) (ord : list string)
    (err : string → option string) : result unit * Redis :=
  match ord with
  | [] => (Ok tt, r)
  | key :: ord' =>
      let items := GetAll (lane qm key) in
      if bool_decide (length items = 0) then saveQueues qm r ord' err
      else match err key with
           | Some e => (Err ("failed to save queue " +:+ key +:+ ": " +:+ e), r)
           | None =>
               saveQueues qm {| rdItems := rdItems r;
                                rdQueues := <[key := payload <$> items]> (rdQueues r) |} ord' err
           end
  end.

Definition set_lane (qm : QueueManager) (key : string) (q : PriorityQueue) : QueueManager :=
  if bool_decide (key = "queue:high") then
    set_lanes qm q (qmNormal qm) (qmLow qm) (qmQueuedCount qm) (qmProcessingCount qm)
  else if bool_decide (key = "queue:normal") then
    set_lanes qm (qmHigh qm) q (qmLow qm) (qmQueuedCount qm) (qmProcessingCount qm)
  else set_lanes qm (qmHigh qm) (qmNormal qm) q (qmQueuedCount qm) (qmProcessingCount qm).

Fixpoint restoreQueues (qm : QueueManager) (r : Redis) (ord : list string)
    (err : string → option string) : result unit * QueueManager :=
  match ord with
  | [] => (Ok tt, qm)
  | key :: ord' =>
      match err key with
      | Some e => (Err ("failed to get queue " +:+ key +:+ ": " +:+ e), qm)
      | None =>
          match rdQueues r !! key with
          | None => restoreQueues qm r ord' err
          | Some items => restoreQueues (set_lane qm key (foldl Enqueue (lane qm key) items)) r ord' err
          end
      end
  end.

(** [Stop]: the final snapshot's error is only logged. *)
Definition QM_Stop (qm : QueueManager) (r : Redis) (ord : list string)
    (err : string → option string) : QueueManager * Redis :=
  let qm' := set_done qm (qmProcessingCount qm) (qmCompletedCount qm) (qmFailedCount qm)
               (qmDeadLetter qm) true in
  (qm', if qmPersistQueue qm then (saveQueues qm' r ord err).2 else r).

Record QueueStatus := {
  qsHighPriority : Z; qsNormalPriority : Z; qsLowPriority : Z; qsTotalQueued : Z;
  qsProcessing : Z; qsCompleted : Z; qsFailed : Z; qsWorkersActive : Z; qsWorkersTotal : Z
}.

Definition GetQueueStatus (qm : QueueManager) (wp : WorkerPool) : QueueStatus :=
  {| qsHighPriority := Z.of_nat (Size (qmHigh qm));
     qsNormalPriority := Z.of_nat (Size (qmNormal qm));
     qsLowPriority := Z.of_nat (Size (qmLow qm));
     qsTotalQueued := qmQueuedCount qm; qsProcessing := qmProcessingCount qm;
     qsCompleted := qmCompletedCount qm; qsFailed := qmFailedCount qm;
     qsWorkersActive := ActiveWorkers wp; qsWorkersTotal := TotalWorkers wp |}.

(** ** Sizes *)

Lemma Size_Enqueue q it : Size (Enqueue q it) = S (Size q).
Proof.
  unfold Size. pose proof (Permutation_length (Enqueue_contents q it)) as H.
  unfold contents in H. rewrite length_fmap in H. simpl in H. by rewrite length_fmap in H.
Qed.

Lemma Dequeue_nonempty q :
  IsEmpty q = false →
  ∃ x q', Dequeue q = (Some (set_index (-1) x), q') ∧ pqItems q = pqItems q' ++ [x] ∧
    Size q = S (Size q').
Proof.
  unfold IsEmpty, Size. intros Hs%bool_decide_eq_false. pose proof (Dequeue_spec q) as H.
  destruct (Dequeue q) as [[it|] q'].
  - destruct H as (x & E & ->). exists x, q'. rewrite E, length_app. simpl. split_and!; [done..|lia].
  - destruct H as [E _]. by rewrite E in Hs.
Qed.

Lemma getQueueSize_insert qm req now :
  getQueueSize (enqueue_insert qm req now).1 = (getQueueSize qm + 1)%Z.
Proof.
  unfold enqueue_insert, getQueueSize. simpl.
  repeat case_bool_decide; simpl; rewrite Size_Enqueue; lia.
Qed.

(** What [QM_Dequeue] does to the manager. *)
Lemma QM_Dequeue_cases qm :
  (getQueueSize qm = 0%Z ∧ QM_Dequeue qm = (Err "no items in queue", qm, [])) ∨
  ∃ req x h n l,
    QM_Dequeue qm = (Ok req, set_lanes qm h n l (qmQueuedCount qm - 1) (qmProcessingCount qm + 1),
      if qmPersistQueue qm then [RemovePersistedItem (reqID req)] else []) ∧
    req = qiRequest x ∧ Size (qmHigh qm) + Size (qmNormal qm) + Size (qmLow qm) =
      S (Size h + Size n + Size l) ∧
    (pqItems (qmHigh qm) = pqItems h ++ [x] ∨
     (Size (qmHigh qm) = 0 ∧ pqItems (qmNormal qm) = pqItems n ++ [x]) ∨
     (Size (qmHigh qm) = 0 ∧ Size (qmNormal qm) = 0 ∧ pqItems (qmLow qm) = pqItems l ++ [x])).
Proof.
  unfold QM_Dequeue.
  destruct (IsEmpty (qmHigh qm)) eqn:E1; simpl.
  2:{ right. destruct (Dequeue_nonempty _ E1) as (x & q' & -> & Hx & Hs).
      eexists _, x, _, _, _. split; [reflexivity|]. split_and!; [done|lia|auto]. }
  assert (Size (qmHigh qm) = 0) as H1 by (by apply bool_decide_eq_true in E1).
  destruct (IsEmpty (qmNormal qm)) eqn:E2; simpl.
  2:{ right. destruct (Dequeue_nonempty _ E2) as (x & q' & -> & Hx & Hs).
      eexists _, x, _, _, _. split; [reflexivity|]. split_and!; [done|lia|auto]. }
  assert (Size (qmNormal qm) = 0) as H2 by (by apply bool_decide_eq_true in E2).
  destruct (IsEmpty (qmLow qm)) eqn:E3; simpl.
  2:{ right. destruct (Dequeue_nonempty _ E3) as (x & q' & -> & Hx & Hs).
      eexists _, x, _, _, _. split; [reflexivity|]. split_and!; [done|lia|auto]. }
  left. apply bool_decide_eq_true in E3. unfold getQueueSize. split; [lia|done].
Qed.

(** ** Accounting *)

(** Runs of the manager in which operations do not overlap; the number counts
    the requests accepted. *)
Inductive qm_run : nat → QueueManager → Prop :=
| run_new config : qm_run 0 (NewQueueManager config)
| run_enqueue k qm req now qm' ts :
    qm_run k qm → QM_Enqueue qm req now = (Ok tt, qm', ts) → qm_run (S k) qm'
| run_dequeue k qm r qm' ts :
    qm_run k qm → QM_Dequeue qm = (r, qm', ts) → qm_run k qm'
| run_complete k qm rd id success t1 t2 ok :
    qm_run k qm → qm_run k (HandleExecutionComplete qm rd id success t1 t2 ok)
| run_stop k qm rd ord err :
    qm_run k qm → qm_run k (QM_Stop qm rd ord err).1.

Definition accounts (k : nat) (qm : QueueManager) : Prop :=
  qmQueuedCount qm = getQueueSize qm ∧
  (qmQueuedCount qm + qmProcessingCount qm + qmCompletedCount qm + qmFailedCount qm)%Z = Z.of_nat k ∧
  (getQueueSize qm ≤ Z.max 0 (qmMaxQueueSize qm))%Z.

Lemma enqueue_insert_fields qm req now :
  let qm' := (enqueue_insert qm req now).1 in
  qmQueuedCount qm' = (qmQueuedCount qm + 1)%Z ∧ qmProcessingCount qm' = qmProcessingCount qm ∧
  qmCompletedCount qm' = qmCompletedCount qm ∧ qmFailedCount qm' = qmFailedCount qm ∧
  qmMaxQueueSize qm' = qmMaxQueueSize qm ∧ qmStopped qm' = qmStopped qm.
Proof. unfold enqueue_insert. simpl. by repeat case_bool_decide. Qed.

Lemma enqueue_check_ok qm :
  enqueue_check qm = Ok tt → qmStopped qm = false ∧ (getQueueSize qm < qmMaxQueueSize qm)%Z.
Proof.
  unfold enqueue_check. destruct (qmStopped qm); [done|]. case_bool_decide; [done|]. split; [done|lia].
Qed.

Lemma QM_Enqueue_ok qm req now qm' ts :
  QM_Enqueue qm req now = (Ok tt, qm', ts) →
  enqueue_check qm = Ok tt ∧ enqueue_insert qm req now = (qm', ts).
Proof.
  unfold QM_Enqueue. destruct (enqueue_check qm) as [[]|]; [|done].
  destruct (enqueue_insert qm req now). by intros [= <- <-].
Qed.

Lemma qm_run_accounts k qm : qm_run k qm → accounts k qm.
Proof.
  unfold accounts.
  induction 1 as [config|k qm req now qm' ts _ IH E|k qm r qm' ts _ IH E
    |k qm rd id success t1 t2 ok _ IH|k qm rd ord err _ IH].
  - split_and!; [done..|apply (Z.le_max_l 0)].
  - apply QM_Enqueue_ok in E as [Hc E]. apply enqueue_check_ok in Hc as [_ Hc].
    pose proof (enqueue_insert_fields qm req now) as (? & ? & ? & ? & ? & _).
    pose proof (getQueueSize_insert qm req now). rewrite E in *. simpl in *. lia.
  - destruct (QM_Dequeue_cases qm) as [[_ Hd]|(rq & x & h & n & l & Hd & _ & Hs & _)];
      rewrite Hd in E; simplify_eq; [done|]. unfold getQueueSize in *. simpl in *. lia.
  - destruct success; unfold getQueueSize in *; simpl in *; lia.
  - done.
Qed.

(** In every run without overlapping calls, the queued counter is the
    number of requests in the three queues and never exceeds the configured
    maximum; every accepted request is queued, being processed, completed or
    failed, in the counters; and [Dequeue] fails only when the queues are
    empty, serving high before normal before low. *)
Lemma queue_manager_accounting k qm :
  qm_run k qm →
  qmQueuedCount qm = getQueueSize qm ∧
  (qmQueuedCount qm + qmProcessingCount qm + qmCompletedCount qm + qmFailedCount qm)%Z = Z.of_nat k ∧
  (getQueueSize qm ≤ Z.max 0 (qmMaxQueueSize qm))%Z ∧
  match QM_Dequeue qm with
  | (Err _, _, _) => getQueueSize qm = 0%Z
  | (Ok req, qm', _) => getQueueSize qm' = (getQueueSize qm - 1)%Z ∧
      ∃ x, qiRequest x = req ∧
        (x ∈ pqItems (qmHigh qm) ∨ (Size (qmHigh qm) = 0 ∧ x ∈ pqItems (qmNormal qm)) ∨
         (Size (qmHigh qm) = 0 ∧ Size (qmNormal qm) = 0 ∧ x ∈ pqItems (qmLow qm)))
  end.
Proof.
  intros (H1 & H2 & H3)%qm_run_accounts. split_and!; [done..|].
  destruct (QM_Dequeue_cases qm) as [[Hz ->]|(req & x & h & n & l & -> & Hreq & Hs & Hx)]; [done|].
  split; [unfold getQueueSize; simpl; lia|]. exists x. split; [done|].
  destruct Hx as [-> |[[? ->]|(? & ? & ->)]]; set_solver.
Qed.

Definition demo_qconfig : QueueConfig :=
  {| qcMaxQueueSize := 2; qcPersistToRedis := true; qcEnableDeadLetter := true;
     qcMaxRetries := 3; qcWorkerCount := 1 |}.
Definition demo_manager : QueueManager := NewQueueManager demo_qconfig.
(** One request queued. *)
Definition demo_manager1 : QueueManager :=
  (QM_Enqueue demo_manager (demo_request "r1") 5).1.2.

Lemma queue_manager_accounting_witness :
  qmQueuedCount demo_manager1 = 1%Z ∧ getQueueSize demo_manager1 = 1%Z.
Proof.
  assert (qm_run 1 demo_manager1) as Hrun.
  { eapply (run_enqueue 0 demo_manager (demo_request "r1") 5); [apply run_new|]. vm_compute. reflexivity. }
  destruct (queue_manager_accounting 1 demo_manager1 Hrun) as (H & _).
  split; [reflexivity|]. rewrite <- H. reflexivity.
Defined.

(** ** Requests handed back and failed executions *)

(** When the pool refuses the request [processNextItem] has dequeued and
    it goes back into its queue, the queued counter is right again but the
    processing counter stays one too high, and no completion will lower it;
    when the manager has been stopped meanwhile, the request is in no queue
    any more. *)
Lemma requeue_leaks_processing qm wp c t1 t2 qm1 req ts1 e wp' :
  HasAvailableWorker wp = true →
  QM_Dequeue qm = (Ok req, qm1, ts1) →
  Submit wp {| wtID := reqID req; wtWorkflowID := reqWorkflowID req; wtRequest := req;
               wtCreatedAt := t1; wtTimeout := 0; wtRetries := 0 |} c = Some (Err e, wp') →
  ∃ qm2 ts, processNextItem qm wp c t1 t2 = Some (qm2, wp', ts) ∧
    qmProcessingCount qm2 = (qmProcessingCount qm + 1)%Z ∧
    ((getQueueSize qm ≤ qmMaxQueueSize qm)%Z → qmStopped qm = false →
       getQueueSize qm2 = getQueueSize qm ∧ qmQueuedCount qm2 = qmQueuedCount qm) ∧
    (qmStopped qm = true → getQueueSize qm2 = (getQueueSize qm - 1)%Z).
Proof.
  intros Hw Hd Hs. unfold processNextItem. rewrite Hw, Hd. simpl. rewrite Hs.
  assert (Hq1 : qmProcessingCount qm1 = (qmProcessingCount qm + 1)%Z ∧
    qmQueuedCount qm1 = (qmQueuedCount qm - 1)%Z ∧ qmStopped qm1 = qmStopped qm ∧
    qmMaxQueueSize qm1 = qmMaxQueueSize qm ∧ getQueueSize qm1 = (getQueueSize qm - 1)%Z).
  { destruct (QM_Dequeue_cases qm) as [[_ Hd']|(rq & x & h & n & l & Hd' & _ & Hsz & _)];
      rewrite Hd' in Hd; simplify_eq. unfold getQueueSize. simpl. split_and!; [done..|lia]. }
  destruct Hq1 as (Hp & Hq & Hst & Hm & Hsz). unfold QM_Enqueue.
  destruct (enqueue_check qm1) as [[]|e'] eqn:Hc.
  - pose proof (enqueue_insert_fields qm1 req t2) as (F1 & F2 & _).
    pose proof (getQueueSize_insert qm1 req t2) as F3.
    apply enqueue_check_ok in Hc as [Hns _]. destruct (enqueue_insert qm1 req t2) as [qm2 ts2].
    simpl in *. eexists _, _. split; [reflexivity|]. split_and!; [lia|intros; lia|congruence].
  - eexists _, _. split; [reflexivity|]. split_and!; [done| |done].
    intros Hle Hns. unfold enqueue_check in Hc. rewrite Hst, Hns in Hc. case_bool_decide; [lia|done].
Qed.

Lemma requeue_leaks_processing_witness :
  let wp := NewWorkerPool demo_config 4 in
  ∃ qm2 ts, processNextItem demo_manager1 wp SubmitTimeout 6 7 = Some (qm2, wp, ts) ∧
    getQueueSize qm2 = 1%Z ∧ qmProcessingCount qm2 = 1%Z.
Proof.
  intros wp.
  destruct (requeue_leaks_processing demo_manager1 wp SubmitTimeout 6 7
    (QM_Dequeue demo_manager1).1.2 (demo_request "r1") [RemovePersistedItem "r1"]
    "timeout submitting task - queue may be full" wp) as (qm2 & ts & H & Hp & Hok & _);
    [vm_compute; reflexivity..|].
  exists qm2, ts. split_and!; [exact H| |exact Hp].
  apply Hok; vm_compute; congruence.
Defined.

(** An execution that fails after its request was dequeued is not dead
    lettered: with persistence on, [Dequeue] has removed the stored request
    that [HandleExecutionComplete] looks up, and with persistence off it was
    never stored; in both cases the dead letter queue is unchanged. *)
Lemma failed_execution_not_dead_lettered qm rd req qm1 ts t1 t2 ok :
  QM_Dequeue qm = (Ok req, qm1, ts) →
  (qmPersistQueue qm = false → rdItems rd = ∅) →
  let rd1 := foldl run_task rd ts in
  qmDeadLetter (HandleExecutionComplete qm1 rd1 (reqID req) false t1 t2 ok) = qmDeadLetter qm ∧
  qmFailedCount (HandleExecutionComplete qm1 rd1 (reqID req) false t1 t2 ok) =
    (qmFailedCount qm + 1)%Z.
Proof.
  intros Hd Hrd.
  destruct (QM_Dequeue_cases qm) as [[_ Hd']|(rq & x & h & n & l & Hd' & _ & _ & _)];
    rewrite Hd' in Hd; simplify_eq. simpl. split; [|done].
  destruct (qmDeadLetter qm); [|done]. unfold retrieveRequest.
  destruct (qmPersistQueue qm); simpl; [by rewrite lookup_delete_eq|by rewrite Hrd].
Qed.

Lemma failed_execution_not_dead_lettered_witness :
  let rd := run_task {| rdItems := ∅; rdQueues := ∅ |} (PersistItem (demo_item "r1" 5)) in
  let '(_, qm1, ts) := QM_Dequeue demo_manager1 in
  qmDeadLetter (HandleExecutionComplete qm1 (foldl run_task rd ts) "r1" false 8 9 true) =
    Some (NewDeadLetterQueue 3).
Proof.
  intros rd. destruct (QM_Dequeue demo_manager1) as [[r qm1] ts] eqn:E.
  assert (r = Ok (demo_request "r1")) as -> by (apply (f_equal (λ x, x.1.1)) in E; vm_compute in E; by rewrite <- E).
  refine (proj1 (failed_execution_not_dead_lettered demo_manager1 rd (demo_request "r1") qm1 ts
    8 9 true E _)).
  vm_compute. discriminate.
Defined.

(** ** Concurrent callers *)

(** The size check and the insertion of [Enqueue] take the lock separately.
    The second component counts the callers between the two; at most [N]
    callers run at once. *)
Inductive race_step (N : nat) : QueueManager * nat → QueueManager * nat → Prop :=
| race_check qm w : enqueue_check qm = Ok tt → w < N → race_step N (qm, w) (qm, S w)
| race_insert qm w req now :
    race_step N (qm, S w) ((enqueue_insert qm req now).1, w)
| race_dequeue qm w : race_step N (qm, w) ((QM_Dequeue qm).1.2, w).

Lemma race_bound N x y :
  race_step N x y → 1 ≤ N →
  (getQueueSize x.1 + Z.of_nat x.2 ≤ Z.max 0 (qmMaxQueueSize x.1) + Z.of_nat N - 1)%Z →
  (getQueueSize y.1 + Z.of_nat y.2 ≤ Z.max 0 (qmMaxQueueSize y.1) + Z.of_nat N - 1)%Z ∧
  qmMaxQueueSize y.1 = qmMaxQueueSize x.1.
Proof.
  intros [qm w Hc Hw|qm w req now|qm w] HN H; cbn [fst snd] in *.
  - apply enqueue_check_ok in Hc as [_ Hc]. lia.
  - pose proof (getQueueSize_insert qm req now).
    pose proof (enqueue_insert_fields qm req now) as (_ & _ & _ & _ & -> & _). lia.
  - destruct (QM_Dequeue_cases qm) as [[_ ->]|(rq & it & h & n & l & -> & _ & Hs & _)]; [done|].
    unfold getQueueSize in *. simpl. lia.
Qed.

(** With at most [N] concurrent callers of [Enqueue] the queues hold at
    most [N - 1] requests more than the configured maximum, however the
    checks, insertions and dequeues interleave. *)
Lemma enqueue_race_bound N config qm w :
  1 ≤ N → rtc (race_step N) (NewQueueManager config, 0) (qm, w) →
  (getQueueSize qm ≤ Z.max 0 (qcMaxQueueSize config) + Z.of_nat N - 1)%Z.
Proof.
  intros HN Hr.
  cut ((getQueueSize qm + Z.of_nat w ≤ Z.max 0 (qmMaxQueueSize qm) + Z.of_nat N - 1)%Z ∧
       qmMaxQueueSize qm = qcMaxQueueSize config); [intros [? <-]; lia|].
  apply (rtc_preserve (race_step N) (λ x,
    (getQueueSize x.1 + Z.of_nat x.2 ≤ Z.max 0 (qmMaxQueueSize x.1) + Z.of_nat N - 1)%Z ∧
    qmMaxQueueSize x.1 = qcMaxQueueSize config) _ (qm, w)) in Hr; [done| |].
  - intros x y Hxy [H1 H2]. destruct (race_bound N x y Hxy HN H1) as [? E]. split; [done|congruence].
  - split; [|done]. change (0 + 0 ≤ Z.max 0 (qcMaxQueueSize config) + Z.of_nat N - 1)%Z. lia.
Qed.

(** Two callers pass the check of a queue of size one together: it then holds
    two requests, as many as the bound allows. *)
Definition one_slot : QueueConfig :=
  {| qcMaxQueueSize := 1; qcPersistToRedis := false; qcEnableDeadLetter := false;
     qcMaxRetries := 0; qcWorkerCount := 1 |}.
Definition raced : QueueManager :=
  (enqueue_insert (enqueue_insert (NewQueueManager one_slot) (demo_request "a") 1).1
     (demo_request "b") 2).1.

Lemma enqueue_race_bound_witness : getQueueSize raced = 2%Z ∧ (getQueueSize raced ≤ 2)%Z.
Proof.
  split; [vm_compute; reflexivity|].
  apply (enqueue_race_bound 2 one_slot raced 0); [lia|].
  eapply rtc_l; [apply race_check; [reflexivity|lia]|].
  eapply rtc_l; [apply race_check; [reflexivity|lia]|].
  eapply rtc_l; [apply (race_insert 2 _ _ (demo_request "a") 1)|].
  eapply rtc_l; [apply (race_insert 2 _ _ (demo_request "b") 2)|]. apply rtc_refl.
Defined.

(** ** Restarting from snapshots *)

Lemma foldl_Enqueue_contents items q :
  contents (foldl Enqueue q items) ≡ₚ contents q ++ (payload <$> items).
Proof.
  revert q. induction items as [|it items IH]; intros q; simpl; [by rewrite app_nil_r|].
  rewrite IH, Enqueue_contents. apply Permutation_middle.
Qed.

Lemma lane_set_lane qm k k' q :
  k ∈ snapshot_keys → k' ∈ snapshot_keys →
  lane (set_lane qm k q) k' = if decide (k = k') then q else lane qm k'.
Proof.
  intros Hk Hk'. unfold snapshot_keys in *. set_unfold.
  destruct_or! Hk; destruct_or! Hk'; subst; reflexivity.
Qed.

Lemma saveQueues_spec qm rd ord :
  ∃ rd', saveQueues qm rd ord (λ _, None) = (Ok tt, rd') ∧
    ∀ key, rdQueues rd' !! key =
      if decide (key ∈ ord ∧ Size (lane qm key) ≠ 0) then Some (contents (lane qm key))
      else rdQueues rd !! key.
Proof.
  revert rd. induction ord as [|k ord IH]; intros rd; cbn [saveQueues].
  { exists rd. split; [done|]. intros key. rewrite decide_False; [done|]. by intros [?%elem_of_nil _]. }
  unfold GetAll. case_bool_decide as Hz.
  - destruct (IH rd) as (rd' & -> & H). exists rd'. split; [done|]. intros key. rewrite H.
    apply decide_ext. rewrite elem_of_cons. unfold Size. split; [tauto|]. intros [[->|?] ?]; tauto.
  - destruct (IH {| rdItems := rdItems rd; rdQueues := <[k := payload <$> pqItems (lane qm k)]> (rdQueues rd) |})
      as (rd' & -> & H). exists rd'. split; [done|]. intros key. rewrite H. cbn [rdQueues].
    rewrite lookup_insert. destruct (decide (k = key)) as [<-|].
    + rewrite (decide_True (P := k ∈ k :: ord ∧ _)) by (split; [left|done]). by case_decide.
    + apply decide_ext. rewrite elem_of_cons. intuition congruence.
Qed.

Lemma restoreQueues_spec qm rd ord :
  NoDup ord → (∀ k, k ∈ ord → k ∈ snapshot_keys) →
  ∃ qm', restoreQueues qm rd ord (λ _, None) = (Ok tt, qm') ∧
    ∀ key, key ∈ snapshot_keys → contents (lane qm' key) ≡ₚ contents (lane qm key) ++
      (if decide (key ∈ ord) then payload <$> default [] (rdQueues rd !! key) else []).
Proof.
  revert qm. induction ord as [|k ord IH]; intros qm Hnd Hsub; cbn [restoreQueues].
  { exists qm. split; [done|]. intros key _. by rewrite decide_False, app_nil_r by apply not_elem_of_nil. }
  apply NoDup_cons in Hnd as [Hk Hnd].
  assert (Hsub' : ∀ k', k' ∈ ord → k' ∈ snapshot_keys) by set_solver.
  destruct (rdQueues rd !! k) as [items|] eqn:E.
  - destruct (IH (set_lane qm k (foldl Enqueue (lane qm k) items)) Hnd Hsub') as (qm' & -> & H).
    exists qm'. split; [done|]. intros key Hkey. rewrite H by done.
    rewrite lane_set_lane by (set_solver || done). destruct (decide (k = key)) as [<-|Hne].
    + rewrite foldl_Enqueue_contents, (decide_False (P := k ∈ ord)), decide_True by (left || done).
      rewrite app_nil_r, E. done.
    + by rewrite (decide_ext (key ∈ ord) (key ∈ k :: ord)) by set_solver.
  - destruct (IH qm Hnd Hsub') as (qm' & -> & H). exists qm'. split; [done|].
    intros key Hkey. rewrite H by done. destruct (decide (k = key)) as [<-|Hne].
    + rewrite (decide_False (P := k ∈ ord)), decide_True by (left || done). by rewrite E.
    + by rewrite (decide_ext (key ∈ ord) (key ∈ k :: ord)) by set_solver.
Qed.

(** Saving the queues and restoring them into a fresh manager brings back
    exactly the requests of every non-empty queue.  An empty queue is not
    saved, so for it the restart brings back whatever an earlier snapshot
    still held: requests that were already handed to workers run again. *)
Lemma snapshot_round_trip qm rd config ordS ordR :
  ordS ≡ₚ snapshot_keys → ordR ≡ₚ snapshot_keys →
  ∃ rd' qm', saveQueues qm rd ordS (λ _, None) = (Ok tt, rd') ∧
    restoreQueues (NewQueueManager config) rd' ordR (λ _, None) = (Ok tt, qm') ∧
    ∀ key, key ∈ snapshot_keys →
      contents (lane qm' key) ≡ₚ
        if decide (Size (lane qm key) = 0) then payload <$> default [] (rdQueues rd !! key)
        else contents (lane qm key).
Proof.
  intros HS HR. destruct (saveQueues_spec qm rd ordS) as (rd' & Hs & Hrd').
  destruct (restoreQueues_spec (NewQueueManager config) rd' ordR) as (qm' & Hr & Hqm').
  { rewrite HR. apply (bool_decide_unpack _). vm_compute. done. }
  { intros k. by rewrite HR. }
  exists rd', qm'. split_and!; [done..|]. intros key Hkey. rewrite Hqm' by done.
  assert (contents (lane (NewQueueManager config) key) = []) as ->
    by (unfold lane; by repeat case_bool_decide).
  rewrite decide_True, Hrd' by (by rewrite HR). simpl.
  destruct (decide (Size (lane qm key) = 0)) as [Hz|Hz].
  - rewrite decide_False; [done|]. by intros [_ ?].
  - rewrite decide_True by (by rewrite HS). simpl. unfold contents.
    rewrite <- list_fmap_compose. by apply Permutation_refl'.
Qed.

(** A request that was saved, then dequeued before the next save. *)
Lemma snapshot_round_trip_witness :
  let rd := (saveQueues demo_manager1 {| rdItems := ∅; rdQueues := ∅ |} snapshot_keys
               (λ _, None)).2 in
  let drained := (QM_Dequeue demo_manager1).1.2 in
  getQueueSize drained = 0%Z ∧
  ∃ rd' qm', saveQueues drained rd snapshot_keys (λ _, None) = (Ok tt, rd') ∧
    restoreQueues demo_manager rd' snapshot_keys (λ _, None) = (Ok tt, qm') ∧
    contents (lane qm' "queue:normal") ≡ₚ [demo_item "r1" 5].
Proof.
  intros rd drained. split; [vm_compute; reflexivity|].
  destruct (snapshot_round_trip drained rd demo_qconfig snapshot_keys snapshot_keys)
    as (rd' & qm' & H1 & H2 & H3); [done..|].
  exists rd', qm'. split_and!; [exact H1|exact H2|].
  refine (H3 "queue:normal" _). right. left.
Defined.
