(* ===== verification/Saga.v ===== *)
(** pkg/saga/saga.go: sagas with compensation in reverse order, and the
    two-phase-commit coordinator. *)

From S2P Require Import Prelude.

(** ** Sagas *)

Section Saga.
  (** The data the actions work on, with everything they change. *)
  Context {D : Type}.

(** An action returns its error, if any, and the data it leaves. *)
Record Step := {
  stName : string;
  stAction : D → option string * D;
  stCompensation : option (D → option string * D)
}.

Record SagaOrchestrator := {
  sgSteps : list Step;
  sgCompletedSteps : list Step
}.

Definition NewSagaOrchestrator : SagaOrchestrator :=
  {| sgSteps := []; sgCompletedSteps := [] |}.

Definition AddStep (o : SagaOrchestrator) (step : Step) : SagaOrchestrator :=
  {| sgSteps := sgSteps o ++ [step]; sgCompletedSteps := sgCompletedSteps o |}.

(** Calls made, in order. *)
Inductive call : Type :=
| CallAction (name : string)
| CallCompensation (name : string).

(** The loop of [compensate], over the completed steps in reverse order. *)
Fixpoint compensate_loop (steps : list Step) (data : D) :
    list string * list call * D :=
  match steps with
  | [] => ([], [], data)
  | step :: rest =>
      match stCompensation step with
      | None => compensate_loop rest data
      | Some comp =>
          let '(err, data') := comp data in
          let '(errs, calls, data'') := compensate_loop rest data' in
          (match err with
           | Some e => ("compensation for step '" +:+ stName step +:+ "' failed: " +:+ e) :: errs
           | None => errs
           end, CallCompensation (stName step) :: calls, data'')
      end
  end.

Definition compensate (completed : list Step) (data : D) : option string * list call * D :=
  let '(errs, calls, data') := compensate_loop (rev completed) data in
  (match errs with
   | [] => None
   | _ => Some ("compensation errors: " +:+ fmt_slice errs)
   end, calls, data').

(** The loop of [Execute]; [cancelled n] is the context check before the
    [n]-th step.  Returns the error, the completed steps, the calls and the
    data. *)
Fixpoint execute_loop (cancelled : nat → bool) (n : nat) (steps completed : list Step)
    (data : D) : option string * list Step * list call * D :=
  match steps with
  | [] => (None, completed, [], data)
  | step :: rest =>
      if cancelled n then
        let '(err, calls, data') := compensate completed data in (err, completed, calls, data')
      else
        match stAction step data with
        | (Some e, data') =>
            let '(cerr, calls, data'') := compensate completed data' in
            (Some (match cerr with
                   | Some ce => "step '" +:+ stName step +:+ "' failed: " +:+ e
                                +:+ ", compensation also failed: " +:+ ce
                   | None => "step '" +:+ stName step +:+ "' failed: " +:+ e
                   end), completed, CallAction (stName step) :: calls, data'')
        | (None, data') =>
            let '(err, completed', calls, data'') :=
              execute_loop cancelled (S n) rest (completed ++ [step]) data' in
            (err, completed', CallAction (stName step) :: calls, data'')
        end
  end.

Definition Saga_Execute (o : SagaOrchestrator) (cancelled : nat → bool) (data : D) :
    option string * SagaOrchestrator * list call * D :=
  let '(err, completed, calls, data') := execute_loop cancelled 0 (sgSteps o) [] data in
  (err, {| sgSteps := sgSteps o; sgCompletedSteps := completed |}, calls, data').

(** *** Order of calls *)

Definition compensations (steps : list Step) : list call :=
  omap (λ s, match stCompensation s with
             | Some _ => Some (CallCompensation (stName s)) | None => None end) (rev steps).
Definition actions (steps : list Step) : list call := CallAction ∘ stName <$> steps.

Lemma compensate_calls completed data : (compensate completed data).1.2 = compensations completed.
Proof.
  unfold compensate, compensations. generalize (rev completed) as l. intros l. revert data.
  induction l as [|s l IH]; intros data; simpl; [done|].
  destruct (stCompensation s) as [comp|]; [|apply IH].
  destruct (comp data) as [e d']. specialize (IH d').
  destruct (compensate_loop l d') as [[errs calls] d'']. simpl in *. by rewrite IH.
Qed.

Lemma execute_loop_calls cancelled n steps completed data :
  let '(err, completed', calls, _) := execute_loop cancelled n steps completed data in
  ∃ done rest, steps = done ++ rest ∧ completed' = completed ++ done ∧
    ((rest = [] ∧ err = None ∧ calls = actions done) ∨
     (∃ s rest', rest = s :: rest' ∧ is_Some err ∧
        calls = actions (done ++ [s]) ++ compensations completed') ∨
     (rest ≠ [] ∧ cancelled (n + length done) = true ∧
        calls = actions done ++ compensations completed')).
Proof.
  revert n completed data. induction steps as [|s steps IH]; intros n completed data; simpl.
  { exists [], []. rewrite !app_nil_r. split_and!; [done..|]. by left. }
  destruct (cancelled n) eqn:Hc.
  { pose proof (compensate_calls completed data) as Hcalls.
    destruct (compensate completed data) as [[err calls] d']. simpl in Hcalls.
    exists [], (s :: steps). rewrite app_nil_r, Nat.add_0_r. split_and!; [done..|]. right. right.
    subst. done. }
  destruct (stAction s data) as [[e|] d'].
  - pose proof (compensate_calls completed d') as Hcalls.
    destruct (compensate completed d') as [[cerr calls] d'']. simpl in Hcalls.
    exists [], (s :: steps). rewrite app_nil_r. split_and!; [done..|]. right. left.
    exists s, steps. subst. eauto.
  - specialize (IH (S n) (completed ++ [s]) d').
    destruct (execute_loop cancelled (S n) steps (completed ++ [s]) d') as [[[err completed'] calls] d''].
    destruct IH as (ds & rest & -> & -> & Hcases). exists (s :: ds), rest.
    rewrite <- app_assoc. split_and!; [done..|].
    destruct Hcases as [(? & ? & ->)|[(s' & r' & ? & ? & ->)|(? & Hc' & ->)]].
    + left. done.
    + right. left. exists s', r'. rewrite <- app_assoc. done.
    + right. right. rewrite <- app_assoc. simpl. rewrite Nat.add_succ_r. done.
Qed.

(** [Execute] runs the steps in order up to the first failing one or the
    first cancellation, and then calls the compensations of exactly the
    completed steps, in reverse order; the failing step is not compensated;
    a run that completes every step calls no compensation and returns nil. *)
Lemma saga_compensates_in_reverse o cancelled data :
  let '(err, o', calls, _) := Saga_Execute o cancelled data in
  ∃ done rest, sgSteps o = done ++ rest ∧ sgCompletedSteps o' = done ∧
    ((rest = [] ∧ err = None ∧ calls = actions done) ∨
     (∃ s rest', rest = s :: rest' ∧ is_Some err ∧
        calls = actions (done ++ [s]) ++ compensations done) ∨
     (rest ≠ [] ∧ cancelled (length done) = true ∧
        calls = actions done ++ compensations done)).
Proof.
  unfold Saga_Execute. pose proof (execute_loop_calls cancelled 0 (sgSteps o) [] data) as H.
  destruct (execute_loop _ _ _ _ _) as [[[err completed] calls] d'].
  destruct H as (ds & rest & ? & ? & H). exists ds, rest. simpl in *. subst. done.
Qed.

(** *** Atomicity *)

(** A compensation that undoes its action when that succeeded. *)
Definition invertible (s : Step) : Prop :=
  ∃ comp, stCompensation s = Some comp ∧
    ∀ d d', stAction s d = (None, d') → comp d' = (None, d).

(** The data after the actions of [steps], all succeeding. *)
Fixpoint run_actions (steps : list Step) (d d' : D) : Prop :=
  match steps with
  | [] => d = d'
  | s :: rest => ∃ d1, stAction s d = (None, d1) ∧ run_actions rest d1 d'
  end.

Lemma run_actions_snoc steps s d d1 d2 :
  run_actions steps d d1 → stAction s d1 = (None, d2) → run_actions (steps ++ [s]) d d2.
Proof.
  revert d. induction steps as [|s' steps IH]; intros d; simpl.
  - intros -> H. eauto.
  - intros (d0 & H0 & Hr) H. eauto.
Qed.

Lemma run_actions_last steps s d d2 :
  run_actions (steps ++ [s]) d d2 → ∃ d1, run_actions steps d d1 ∧ stAction s d1 = (None, d2).
Proof.
  revert d. induction steps as [|s' steps IH]; intros d; simpl.
  - intros (d1 & H & ->). eauto.
  - intros (d0 & H0 & (d1 & ? & ?)%IH). eauto.
Qed.

Lemma compensate_inverts steps d d' :
  Forall invertible steps → run_actions steps d d' →
  ∃ calls, compensate steps d' = (None, calls, d).
Proof.
  unfold compensate. revert d'. induction steps as [|s steps IH] using rev_ind; intros d' Hinv Hrun.
  { simpl in *. subst. eauto. }
  apply Forall_app in Hinv as [Hinv [Hs _]%Forall_cons].
  apply run_actions_last in Hrun as (d1 & Hrun & Ha). destruct Hs as (comp & Hcomp & Hspec).
  rewrite rev_app_distr. simpl. rewrite Hcomp, (Hspec _ _ Ha).
  destruct (IH d1 Hinv Hrun) as [calls Hc].
  destruct (compensate_loop (rev steps) d1) as [[errs calls'] d2]. simplify_eq.
  destruct errs; [|done]. eauto.
Qed.

(** An execution that stopped: before a step, when cancelled, or at a step that
    failed, leaving [d2]; the completed steps were compensated from there. *)
Definition stopped (steps completed : list Step) (d0 data' : D) : Prop :=
  ∃ s rest d1 d2, steps = completed ++ s :: rest ∧ run_actions completed d0 d1 ∧
    (d2 = d1 ∨ ∃ e, stAction s d1 = (Some e, d2)) ∧
    data' = (compensate completed d2).2 ∧ (d2 = d1 → data' = d0).

Lemma execute_loop_atomic cancelled n steps completed d0 data :
  Forall invertible steps → Forall invertible completed → run_actions completed d0 data →
  let '(err, completed', _, data') := execute_loop cancelled n steps completed data in
  (completed' = completed ++ steps ∧ err = None ∧ run_actions (completed ++ steps) d0 data') ∨
  stopped (completed ++ steps) completed' d0 data'.
Proof.
  revert n completed data. induction steps as [|s steps IH]; intros n completed data Hi Hc Hr; simpl.
  { left. by rewrite app_nil_r. }
  apply Forall_cons in Hi as [Hs Hi].
  destruct (compensate_inverts completed d0 data Hc Hr) as [calls Hcomp]. destruct (cancelled n).
  { rewrite Hcomp. right. exists s, steps, data, data. rewrite Hcomp. by auto 6. }
  destruct (stAction s data) as [[e|] d'] eqn:Ha.
  - destruct (compensate completed d') as [[cerr calls'] d''] eqn:Ec. right.
    exists s, steps, data, d'. rewrite Ec. split_and!; [done..|by eauto|done|].
    intros ->. rewrite Hcomp in Ec. by injection Ec.
  - specialize (IH (S n) (completed ++ [s]) d' Hi). rewrite <- app_assoc in IH. simpl in IH.
    destruct (execute_loop cancelled (S n) steps (completed ++ [s]) d') as [[[err completed'] calls'] d''].
    apply IH; [by apply Forall_app; rewrite Forall_singleton|by eapply run_actions_snoc].
Qed.


(** A saga cancelled before its last step, whose compensations succeed,
    returns nil: its caller cannot tell it from one that completed. *)
Lemma cancelled_saga_returns_nil o data done rest d' calls d'' :
  sgSteps o = done ++ rest → rest ≠ [] → run_actions done data d' →
  compensate done d' = (None, calls, d'') →
  (Saga_Execute o (λ n, bool_decide (n = length done)) data).1.1.1 = None.
Proof.
  intros Hs Hne Hr Hc. unfold Saga_Execute. rewrite Hs. clear Hs.
  cut (∀ completed n m, n + length done = m → compensate (completed ++ done) d' = (None, calls, d'') →
    (execute_loop (λ n, bool_decide (n = m)) n (done ++ rest) completed data).1.1.1 = None).
  { intros H. specialize (H [] 0 (length done) eq_refl Hc). simpl in H.
    destruct (execute_loop _ _ _ _ _) as [[[err completed] cs] d1]. done. }
  clear Hc. revert data Hr. induction done as [|s done IH]; intros data Hr completed n m Hm Hc; simpl in *.
  - destruct rest as [|s rest]; [done|]. simpl. rewrite bool_decide_eq_true_2 by lia.
    subst d'. rewrite app_nil_r in Hc. by rewrite Hc.
  - destruct Hr as (d1 & Ha & Hr). rewrite bool_decide_eq_false_2 by lia. rewrite Ha.
    specialize (IH d1 Hr (completed ++ [s]) (S n) m). rewrite <- app_assoc in IH.
    destruct (execute_loop _ (S n) (done ++ rest) (completed ++ [s]) d1) as [[[err c'] cs] d2].
    simpl in *. apply IH; [lia|done].
Qed.
End Saga.
Arguments Step : clear implicits.
Arguments SagaOrchestrator : clear implicits.

(** A saga that adds and then doubles, with exact inverses. *)
Definition demo_saga : SagaOrchestrator Z :=
  let add := {| stName := "add"; stAction := λ d, (None, d + 5)%Z;
                stCompensation := Some (λ d, (None, d - 5)%Z) |} in
  let fail := {| stName := "check";
                 stAction := λ d, if bool_decide (d < 10)%Z then (Some "too small", d) else (None, d);
                 stCompensation := Some (λ d, (None, d)) |} in
  AddStep (AddStep NewSagaOrchestrator add) fail.


(** A step that fails after a part of its work is not compensated, although its
    compensation would undo the whole of it. *)
Lemma partial_failure_remains :
  let half := {| stName := "half"; stAction := λ d, (Some "interrupted", d + 1)%Z;
                 stCompensation := Some (λ d, (None, d - 1)%Z) |} in
  Saga_Execute (AddStep NewSagaOrchestrator half) (λ _, false) 0%Z
  = (Some "step 'half' failed: interrupted", AddStep NewSagaOrchestrator half, [CallAction "half"], 1%Z).
Proof. reflexivity. Qed.

Lemma cancelled_saga_returns_nil_witness :
  (Saga_Execute demo_saga (λ n, bool_decide (n = 1)) 20%Z).1.1.1 = None.
Proof.
  apply (cancelled_saga_returns_nil demo_saga 20%Z (take 1 (sgSteps demo_saga))
    (drop 1 (sgSteps demo_saga)) 25%Z [CallCompensation "add"] 20%Z);
    [reflexivity|discriminate|exists 25%Z; done|reflexivity].
Defined.

(** ** Two-phase commit *)

Inductive TransactionState : Type :=
| StateInitial | StatePreparing | StatePrepared | StateCommitting | StateCommitted
| StateAborting | StateAborted.

#[export] Instance TransactionState_eq_dec : EqDecision TransactionState.
Proof. solve_decision. Defined.

Record Participant := {
  paID : string;
  paService : string;
  paPrepared : bool;
  paCommitted : bool
}.

Record Transaction := {
  txID : string;
  txParticipants : list Participant;
  txState : TransactionState
}.

(** [TwoPhaseCommit]: the transaction map. *)
Abbreviation TwoPhaseCommit := (gmap string Transaction).
Definition NewTwoPhaseCommit : TwoPhaseCommit := ∅.

Definition Begin (tpc : TwoPhaseCommit) (transactionID : string) (participants : list string) :
    TwoPhaseCommit :=
  <[transactionID :=
      {| txID := transactionID;
         txParticipants := imap (λ i p,
           {| paID := transactionID +:+ "-" +:+ pretty i; paService := p;
              paPrepared := false; paCommitted := false |}) participants;
         txState := StateInitial |}]> tpc.

Definition set_participants (tx : Transaction) (prepared committed : option bool)
    (s : TransactionState) : Transaction :=
  {| txID := txID tx;
     txParticipants := (λ p, {| paID := paID p; paService := paService p;
                                paPrepared := default (paPrepared p) prepared;
                                paCommitted := default (paCommitted p) committed |})
                       <$> txParticipants tx;
     txState := s |}.

Definition Prepare (tpc : TwoPhaseCommit) (transactionID : string) :
    result unit * TwoPhaseCommit :=
  match tpc !! transactionID with
  | None => (Err ("transaction not found: " +:+ transactionID), tpc)
  | Some tx =>
      let tx' := set_participants tx (Some true) None StatePreparing in
      if forallb paPrepared (txParticipants tx') then
        (Ok tt, <[transactionID := set_participants tx' None None StatePrepared]> tpc)
      else (Err "some participants failed to prepare",
            <[transactionID := set_participants tx' None None StateAborting]> tpc)
  end.

Definition Commit (tpc : TwoPhaseCommit) (transactionID : string) :
    result unit * TwoPhaseCommit :=
  match tpc !! transactionID with
  | None => (Err ("transaction not found: " +:+ transactionID), tpc)
  | Some tx =>
      if bool_decide (txState tx ≠ StatePrepared) then
        (Err "transaction not in prepared state", tpc)
      else (Ok tt, <[transactionID := set_participants tx None (Some true) StateCommitted]> tpc)
  end.

(** [Abort] of the transaction table. *)
Definition TPC_Abort (tpc : TwoPhaseCommit) (transactionID : string) :
    result unit * TwoPhaseCommit :=
  match tpc !! transactionID with
  | None => (Err ("transaction not found: " +:+ transactionID), tpc)
  | Some tx =>
      (Ok tt, <[transactionID := set_participants tx (Some false) (Some false) StateAborted]> tpc)
  end.

Inductive tpc_step : TwoPhaseCommit → TwoPhaseCommit → Prop :=
| tpc_begin t id ps : tpc_step t (Begin t id ps)
| tpc_prepare t id : tpc_step t (Prepare t id).2
| tpc_commit t id : tpc_step t (Commit t id).2
| tpc_abort t id : tpc_step t (TPC_Abort t id).2.

(** The flags of all participants agree with the state. *)
Definition tx_consistent (tx : Transaction) : Prop :=
  match txState tx with
  | StateInitial | StateAborted =>
      ∀ p, p ∈ txParticipants tx → paPrepared p = false ∧ paCommitted p = false
  | StatePrepared => ∀ p, p ∈ txParticipants tx → paPrepared p = true
  | StateCommitted =>
      ∀ p, p ∈ txParticipants tx → paPrepared p = true ∧ paCommitted p = true
  | _ => False
  end.

Lemma set_participants_elem tx pr co s p :
  p ∈ txParticipants (set_participants tx pr co s) ↔
  ∃ q, q ∈ txParticipants tx ∧
    p = {| paID := paID q; paService := paService q;
           paPrepared := default (paPrepared q) pr; paCommitted := default (paCommitted q) co |}.
Proof. simpl. rewrite list_elem_of_fmap. naive_solver. Qed.

Lemma tpc_step_consistent t t' :
  tpc_step t t' → map_Forall (λ _, tx_consistent) t → map_Forall (λ _, tx_consistent) t'.
Proof.
  intros [t0 id ps|t0 id|t0 id|t0 id] H.
  - apply map_Forall_insert_2; [|done]. intros p Hp. simpl in Hp.
    apply list_elem_of_lookup_1 in Hp as [i Hi].
    rewrite list_lookup_imap in Hi. by destruct (ps !! i); simplify_eq/=.
  - unfold Prepare. destruct (t0 !! id) as [tx|]; [|done].
    replace (forallb paPrepared _) with true.
    + apply map_Forall_insert_2; [|done]. intros p (q & (q' & _ & ->)%set_participants_elem & ->)%set_participants_elem.
      done.
    + simpl. symmetry. apply forallb_forall. intros p (q & -> & _)%list_elem_of_In%list_elem_of_fmap. done.
  - unfold Commit. destruct (t0 !! id) as [tx|] eqn:E; [|done].
    case_bool_decide as Hs; [done|]. simpl. apply map_Forall_insert_2; [|done].
    assert (txState tx = StatePrepared) as Hst by (by destruct (decide (txState tx = StatePrepared))).
    pose proof (map_Forall_lookup_1 _ _ _ _ H E) as Hc. unfold tx_consistent in Hc. rewrite Hst in Hc.
    intros p (q & Hq & ->)%set_participants_elem. simpl. split; [by apply Hc|done].
  - unfold TPC_Abort. destruct (t0 !! id) as [tx|]; [|done]. simpl. apply map_Forall_insert_2; [|done].
    intros p (q & Hq & ->)%set_participants_elem. done.
Qed.

(** Whatever the coordinator is asked to do, every transaction it holds is
    in one of the states initial, prepared, committed or aborted between
    calls; when it is committed every participant has prepared and committed,
    when it is aborted none has; and [Commit] succeeds only on a prepared
    transaction. *)
Lemma two_phase_commit_consistent t id tx :
  rtc tpc_step NewTwoPhaseCommit t → t !! id = Some tx →
  tx_consistent tx ∧
  ((Commit t id).1 = Ok tt ↔ txState tx = StatePrepared).
Proof.
  intros Hr Hl. split.
  - apply (rtc_preserve _ (map_Forall (λ _, tx_consistent)) _ _ tpc_step_consistent) in Hr.
    + exact (map_Forall_lookup_1 _ _ _ _ Hr Hl).
    + apply map_Forall_empty.
  - unfold Commit. rewrite Hl. case_bool_decide; simpl; [|split; [|done]].
    + split; [done|]. intros ?. done.
    + intros _. by destruct (decide (txState tx = StatePrepared)).
Qed.

Definition demo_tpc : TwoPhaseCommit :=
  (Commit (Prepare (Begin NewTwoPhaseCommit "t" ["a"; "b"]) "t").2 "t").2.

Lemma demo_tpc_reachable : rtc tpc_step NewTwoPhaseCommit demo_tpc.
Proof.
  eapply rtc_l; [apply (tpc_begin _ "t" ["a"; "b"])|].
  eapply rtc_l; [apply (tpc_prepare _ "t")|]. eapply rtc_l; [apply (tpc_commit _ "t")|]. apply rtc_refl.
Qed.

Lemma two_phase_commit_consistent_witness :
  ∃ tx, demo_tpc !! "t" = Some tx ∧ txState tx = StateCommitted ∧ tx_consistent tx.
Proof.
  destruct (demo_tpc !! "t") as [tx|] eqn:E; [|vm_compute in E; discriminate E].
  exists tx. split_and!; [reflexivity| |].
  - vm_compute in E. injection E as <-. reflexivity.
  - exact (proj1 (two_phase_commit_consistent _ "t" tx demo_tpc_reachable E)).
Defined.

(** The decision is not stable.  [Abort] succeeds on a committed
    transaction and clears every participant's commit; and an aborted
    transaction can be prepared and committed again. *)
Lemma two_phase_commit_reversible t id tx :
  t !! id = Some tx → txState tx = StateCommitted →
  let '(r1, t1) := TPC_Abort t id in
  let '(r2, t2) := Prepare t1 id in
  let '(r3, t3) := Commit t2 id in
  r1 = Ok tt ∧ (txState <$> t1 !! id) = Some StateAborted ∧
  r2 = Ok tt ∧ r3 = Ok tt ∧ (txState <$> t3 !! id) = Some StateCommitted.
Proof.
  intros Hl Hs. unfold TPC_Abort. rewrite Hl. cbv beta iota. unfold Prepare. rewrite lookup_insert_eq.
  cbv beta iota zeta.
  replace (forallb paPrepared _) with true.
  - cbv beta iota. unfold Commit. rewrite lookup_insert_eq. simpl.
    by rewrite !lookup_insert_eq.
  - symmetry. apply forallb_forall.
    intros p (q & -> & _)%list_elem_of_In%list_elem_of_fmap. done.
Qed.

Lemma two_phase_commit_reversible_witness :
  (txState <$> (TPC_Abort demo_tpc "t").2 !! "t") = Some StateAborted.
Proof.
  destruct (demo_tpc !! "t") as [tx|] eqn:E; [|vm_compute in E; discriminate E].
  assert (txState tx = StateCommitted) as Hs by (vm_compute in E; injection E as <-; reflexivity).
  pose proof (two_phase_commit_reversible demo_tpc "t" tx E Hs) as H.
  destruct (TPC_Abort demo_tpc "t") as [r1 t1]. destruct (Prepare t1 "t") as [r2 t2].
  destruct (Commit t2 "t") as [r3 t3]. exact (proj1 (proj2 H)).
Defined.
