(* ===== verification/EventStore.v ===== *)
(** pkg/eventsourcing/store.go: the interface of the event store, and its
    implementation on a relational database through GORM. *)

From S2P Require Import Prelude GoValue.
From stdpp Require Import sorting.

(** ** Data *)

Record Event := {
  evID : string;
  evAggregateID : string;
  evType : string;
  evVersion : Z;
  evPayload : string;
  evMetadata : gmap string string;
  evTimestamp : option Z;            (* [None]: the zero time *)
  evUserID : string;
  evCorrelationID : string
}.

#[export] Instance Event_eq_dec : EqDecision Event.
Proof. solve_decision. Defined.

Record Snapshot := {
  ssID : string;
  ssAggregateID : string;
  ssVersion : Z;
  ssState : string;
  ssTimestamp : option Z
}.

(** The event as it is stored: an ID and a timestamp are filled in when absent. *)
Definition stamp (uuid : string) (now : Z) (e : Event) : Event :=
  {| evID := if bool_decide (evID e = "") then uuid else evID e;
     evAggregateID := evAggregateID e; evType := evType e; evVersion := evVersion e;
     evPayload := evPayload e; evMetadata := evMetadata e;
     evTimestamp := match evTimestamp e with None => Some now | t => t end;
     evUserID := evUserID e; evCorrelationID := evCorrelationID e |}.

(** Equal but for the ID and an absent timestamp. *)
Definition stamped (e e' : Event) : Prop := ∃ uuid now, e' = stamp uuid now e.

(** Versions [v+1], [v+2], ... *)
Fixpoint consecutive (v : Z) (es : list Event) : Prop :=
  match es with
  | [] => True
  | e :: es' => evVersion e = (v + 1)%Z ∧ consecutive (v + 1) es'
  end.

Lemma consecutive_app v es1 es2 :
  consecutive v (es1 ++ es2) ↔ consecutive v es1 ∧ consecutive (v + Z.of_nat (length es1)) es2.
Proof.
  revert v. induction es1 as [|e es1 IH]; intros v; simpl; [by rewrite Z.add_0_r; tauto|].
  rewrite IH. replace (v + 1 + Z.of_nat (length es1))%Z with (v + Z.of_nat (S (length es1)))%Z by lia.
  tauto.
Qed.

Lemma consecutive_lookup v es i e :
  consecutive v es → es !! i = Some e → evVersion e = (v + 1 + Z.of_nat i)%Z.
Proof.
  revert v i. induction es as [|e0 es IH]; intros v i; [done|]. intros [Hv Hc].
  destruct i as [|i]; simpl; [intros [= <-]; lia|]. intros Hl. specialize (IH _ _ Hc Hl). lia.
Qed.

Lemma consecutive_stamped v es es' :
  Forall2 stamped es es' → consecutive v es ↔ consecutive v es'.
Proof.
  intros H. revert v. induction H as [|e e' es es' (u & n & ->) _ IH]; intros v; simpl; [done|].
  by rewrite IH.
Qed.

(** Events above version [v + n] are those after the first [n]. *)
Lemma consecutive_filter v es n :
  consecutive v es → filter (λ e, (v + Z.of_nat n < evVersion e)%Z) es = drop n es.
Proof.
  intros Hc. rewrite <- (take_drop n es) at 1. rewrite filter_app, filter_none, filter_all; [done|..].
  - intros e [i Hi]%list_elem_of_lookup_1. rewrite lookup_drop in Hi.
    apply (consecutive_lookup _ _ _ _ Hc) in Hi. lia.
  - intros e [i Hi]%list_elem_of_lookup_1. apply lookup_take_Some in Hi as [Hi Hlt].
    apply (consecutive_lookup _ _ _ _ Hc) in Hi. lia.
Qed.

Lemma consecutive_filter_Z es v :
  consecutive 0 es → filter (λ e, (v < evVersion e)%Z) es = drop (Z.to_nat v) es.
Proof.
  intros Hc. destruct (decide (0 ≤ v)%Z) as [Hv|Hv].
  - rewrite <- (consecutive_filter 0) by done. apply list_filter_iff. intros e. lia.
  - replace (Z.to_nat v) with 0 by lia. apply filter_all.
    intros e [i Hi]%list_elem_of_lookup_1. apply (consecutive_lookup _ _ _ _ Hc) in Hi. lia.
Qed.

(** ** The interface *)

(** What surrounds one call: the IDs and times generated, and the database's
    errors, for each statement of the call. *)
Record CallEnv := {
  ceGen : nat → string * Z;
  ceVersionErr : option string;
  ceErr : nat → option string
}.

(** What a client of an event store relies on. *)
Class EventStore (St : Type) := {
  es_Save : St → CallEnv → list Event → result unit * St;
  es_Load : St → string → list Event;
  es_LoadFromVersion : St → string → Z → list Event;
  es_LoadSnapshot : St → string → option Snapshot;
  es_SaveSnapshot : St → CallEnv → Snapshot → result unit * St;
  es_wf : St → Prop;
  es_load_consecutive st id : es_wf st → consecutive 0 (es_Load st id);
  es_load_from st id v :
    es_wf st → es_LoadFromVersion st id v = filter (λ e, (v < evVersion e)%Z) (es_Load st id);
  es_save_error st g es e st' : es_Save st g es = (Err e, st') → st' = st;
  es_save_ok st g es st' id :
    es_wf st → es ≠ [] → (∀ e, e ∈ es → evAggregateID e = id) → es_Save st g es = (Ok tt, st') →
    es_wf st' ∧ consecutive (Z.of_nat (length (es_Load st id))) es ∧
    (∃ es', Forall2 stamped es es' ∧ es_Load st' id = es_Load st id ++ es') ∧
    (∀ id', id' ≠ id → es_Load st' id' = es_Load st id') ∧
    (∀ id', es_LoadSnapshot st' id' = es_LoadSnapshot st id');
  es_save_snapshot st g s st' :
    es_wf st → es_SaveSnapshot st g s = (Ok tt, st') →
    es_wf st' ∧ (∀ id, es_Load st' id = es_Load st id) ∧
    (∃ s', es_LoadSnapshot st' (ssAggregateID s) = Some s' ∧ ssVersion s' = ssVersion s ∧
       ssState s' = ssState s) ∧
    (∀ id, id ≠ ssAggregateID s → es_LoadSnapshot st' id = es_LoadSnapshot st id);
  es_save_snapshot_error st g s e st' : es_SaveSnapshot st g s = (Err e, st') → st' = st
}.

(** ** The GORM store *)

(** The two tables, in insertion order. *)
Record GormEventStore := {
  gsEvents : list Event;
  gsSnapshots : list Snapshot;
  gsSnapshotFrequency : Z
}.

Definition NewGormEventStore (snapshotFrequency : Z) : GormEventStore :=
  {| gsEvents := []; gsSnapshots := []; gsSnapshotFrequency := snapshotFrequency |}.

Definition rows (db : list Event) (aggregateID : string) : list Event :=
  filter (λ e, evAggregateID e = aggregateID) db.

(** [SELECT COALESCE(MAX(version), 0)]. *)
Definition getVersionInTx (db : list Event) (aggregateID : string) : Z :=
  match evVersion <$> rows db aggregateID with
  | [] => 0
  | v :: vs => foldl Z.max v vs
  end.
Definition GetAggregateVersion (st : GormEventStore) (aggregateID : string) : Z :=
  getVersionInTx (gsEvents st) aggregateID.

(** [tx.Create(&event)]: the ID is the primary key; [err] is any other error
    of the database. *)
Definition create_event (db : list Event) (err : option string) (e : Event) :
    result (list Event) :=
  match err with
  | Some m => Err m
  | None =>
      if bool_decide (evID e ∈ evID <$> db) then
        Err "duplicate key value violates unique constraint"
      else Ok (db ++ [e])
  end.

(** The loop of [Save]; [i] numbers the events. *)
Fixpoint save_loop (env : CallEnv) (i : nat) (expectedVersion : Z) (events : list Event)
    (db : list Event) : result (list Event) :=
  match events with
  | [] => Ok db
  | event :: events' =>
      let expected := (expectedVersion + 1)%Z in
      if bool_decide (evVersion event ≠ expected) then
        Err ("version mismatch: expected " +:+ pretty expected +:+ ", got "
             +:+ pretty (evVersion event) +:+ " for event " +:+ pretty i)
      else
        match create_event db (ceErr env i) (stamp (ceGen env i).1 (ceGen env i).2 event) with
        | Err e => Err ("failed to save event: " +:+ e)
        | Ok db' => save_loop env (S i) expected events' db'
        end
  end.

(** [Save]'s transaction, whose [SELECT MAX(version)] found the events [seen]
    and whose inserts find the store [st]; it is rolled back when its function
    returns an error. *)
Definition save_tx (seen : list Event) (st : GormEventStore) (env : CallEnv) (events : list Event) :
    result unit * GormEventStore :=
  match events with
  | [] => (Ok tt, st)
  | first :: _ =>
      match ceVersionErr env with
      | Some e => (Err e, st)
      | None =>
          match save_loop env 0 (getVersionInTx seen (evAggregateID first))
                  events (gsEvents st) with
          | Err e => (Err e, st)
          | Ok db => (Ok tt, {| gsEvents := db; gsSnapshots := gsSnapshots st;
                                gsSnapshotFrequency := gsSnapshotFrequency st |})
          end
      end
  end.

(** [Save], when no other transaction commits between its statements. *)
Definition Gorm_Save (st : GormEventStore) (env : CallEnv) (events : list Event) :
    result unit * GormEventStore :=
  save_tx (gsEvents st) st env events.

(** [ORDER BY version ASC]. *)
Definition by_version (e1 e2 : Event) : Prop := (evVersion e1 ≤ evVersion e2)%Z.
#[export] Instance by_version_dec : RelDecision by_version.
Proof. unfold by_version. solve_decision. Defined.
#[export] Instance by_version_total : Total by_version.
Proof. intros x y. unfold by_version. lia. Qed.
#[export] Instance by_version_trans : Transitive by_version.
Proof. intros x y z. unfold by_version. lia. Qed.

Definition Gorm_Load (st : GormEventStore) (aggregateID : string) : list Event :=
  merge_sort by_version (rows (gsEvents st) aggregateID).
Definition Gorm_LoadFromVersion (st : GormEventStore) (aggregateID : string)
    (fromVersion : Z) : list Event :=
  merge_sort by_version
    (filter (λ e, evAggregateID e = aggregateID ∧ (fromVersion < evVersion e)%Z) (gsEvents st)).

(** [First] of the snapshots by descending version. *)
Definition best_snapshot (best : option Snapshot) (s : Snapshot) : option Snapshot :=
  match best with
  | None => Some s
  | Some b => if bool_decide (ssVersion b < ssVersion s)%Z then Some s else Some b
  end.
Definition Gorm_LoadSnapshot (st : GormEventStore) (aggregateID : string) : option Snapshot :=
  foldl best_snapshot None (filter (λ s, ssAggregateID s = aggregateID) (gsSnapshots st)).

Definition Gorm_SaveSnapshot (st : GormEventStore) (env : CallEnv) (s : Snapshot) :
    result unit * GormEventStore :=
  let gen := ceGen env 0 in
  let s := {| ssID := if bool_decide (ssID s = "") then gen.1 else ssID s;
              ssAggregateID := ssAggregateID s; ssVersion := ssVersion s; ssState := ssState s;
              ssTimestamp := match ssTimestamp s with None => Some gen.2 | t => t end |} in
  let kept := filter (λ s', ssAggregateID s' ≠ ssAggregateID s) (gsSnapshots st) in
  match ceErr env 0 with
  | Some e => (Err e, st)
  | None =>
      if bool_decide (ssID s ∈ ssID <$> kept) then
        (Err "duplicate key value violates unique constraint", st)
      else (Ok tt, {| gsEvents := gsEvents st; gsSnapshots := kept ++ [s];
                      gsSnapshotFrequency := gsSnapshotFrequency st |})
  end.

(** *** The store keeps every aggregate's versions consecutive *)

Definition gorm_wf (st : GormEventStore) : Prop :=
  ∀ id, consecutive 0 (rows (gsEvents st) id).

Lemma consecutive_sorted v es : consecutive v es → StronglySorted by_version es.
Proof.
  revert v. induction es as [|e es IH]; intros v; [constructor|]. intros [Hv Hc].
  constructor; [by eapply IH|]. apply Forall_forall. intros e' [i Hi]%list_elem_of_lookup_1.
  apply (consecutive_lookup _ _ _ _ Hc) in Hi. unfold by_version. lia.
Qed.

Lemma consecutive_sort v es : consecutive v es → merge_sort by_version es = es.
Proof.
  intros Hc. apply (StronglySorted_unique_strong by_version).
  - intros e1 e2 H1 H2 ? ?. rewrite merge_sort_Permutation in H1.
    apply list_elem_of_lookup_1 in H1 as [i Hi]. apply list_elem_of_lookup_1 in H2 as [j Hj].
    pose proof (consecutive_lookup _ _ _ _ Hc Hi). pose proof (consecutive_lookup _ _ _ _ Hc Hj).
    unfold by_version in *. assert (i = j) as -> by lia. congruence.
  - apply StronglySorted_merge_sort; apply _.
  - by eapply consecutive_sorted.
  - apply merge_sort_Permutation.
Qed.

Lemma Gorm_Load_rows st id : gorm_wf st → Gorm_Load st id = rows (gsEvents st) id.
Proof. intros Hwf. by apply (consecutive_sort 0). Qed.

Lemma consecutive_suffix v es n : consecutive v es → consecutive (v + Z.of_nat n) (drop n es).
Proof.
  intros Hc. destruct (decide (n ≤ length es)) as [Hn|Hn].
  - rewrite <- (take_drop n es), consecutive_app, length_take, Nat.min_l in Hc by lia. apply Hc.
  - by rewrite drop_ge by lia.
Qed.

Lemma foldl_max_last v vs m :
  (∀ x, x ∈ v :: vs → (x ≤ m)%Z) → m ∈ v :: vs → foldl Z.max v vs = m.
Proof.
  revert v. induction vs as [|w vs IH]; intros v Hle Hin; simpl.
  - by apply list_elem_of_singleton in Hin.
  - apply IH.
    + intros x [->|Hx]%elem_of_cons; [|apply Hle; by right; right].
      pose proof (Hle v ltac:(left)). pose proof (Hle w ltac:(right; left)). lia.
    + pose proof (Hle v ltac:(left)). pose proof (Hle w ltac:(right; left)).
      apply elem_of_cons in Hin as [->|[->|Hx]%elem_of_cons]; [| |by right].
      * replace (Z.max v w) with v by lia. left.
      * replace (Z.max v w) with w by lia. left.
Qed.

Lemma getVersionInTx_rows st id :
  gorm_wf st → getVersionInTx (gsEvents st) id = Z.of_nat (length (rows (gsEvents st) id)).
Proof.
  intros Hwf. specialize (Hwf id). unfold getVersionInTx.
  destruct (rows (gsEvents st) id) as [|e es] eqn:E; [done|]. rewrite fmap_cons.
  apply foldl_max_last; rewrite <- fmap_cons.
  - intros x (e' & -> & [i Hi]%list_elem_of_lookup_1)%list_elem_of_fmap.
    pose proof (lookup_lt_Some _ _ _ Hi). apply (consecutive_lookup _ _ _ _ Hwf) in Hi. lia.
  - destruct (lookup_lt_is_Some_2 (e :: es) (length es)) as [e' Hi]; [simpl; lia|].
    apply list_elem_of_fmap. exists e'. split; [|by eapply list_elem_of_lookup_2].
    apply (consecutive_lookup _ _ _ _ Hwf) in Hi. simpl. lia.
Qed.

Lemma create_event_ok db err e db' : create_event db err e = Ok db' → db' = db ++ [e].
Proof. unfold create_event. destruct err; [done|]. case_bool_decide; [done|]. by intros [= <-]. Qed.

Lemma save_loop_ok env i v es db db' :
  save_loop env i v es db = Ok db' →
  consecutive v es ∧ ∃ es', Forall2 stamped es es' ∧ db' = db ++ es'.
Proof.
  revert i v db. induction es as [|e es IH]; intros i v db; simpl.
  { intros [= <-]. split; [done|]. exists []. split; [constructor|by rewrite app_nil_r]. }
  case_bool_decide as Hv; [done|]. destruct (create_event _ _ _) as [db1|] eqn:Hc; [|done].
  apply create_event_ok in Hc as ->. intros (Hcons & es' & Hes & ->)%IH.
  assert (evVersion e = (v + 1)%Z) as Hv' by (by destruct (decide (evVersion e = v + 1)%Z)).
  split; [done|]. eexists (_ :: es'). split; [constructor; [by eexists _, _|done]|].
  by rewrite <- app_assoc.
Qed.

(** The rows a batch becomes. *)
Fixpoint stored (env : CallEnv) (i : nat) (es : list Event) : list Event :=
  match es with
  | [] => []
  | e :: es' => stamp (ceGen env i).1 (ceGen env i).2 e :: stored env (S i) es'
  end.

Lemma save_loop_succeeds env i v es db :
  consecutive v es → (∀ k, ceErr env k = None) → NoDup (evID <$> db ++ stored env i es) →
  save_loop env i v es db = Ok (db ++ stored env i es).
Proof.
  revert i v db. induction es as [|e es IH]; intros i v db Hc He Hnd; simpl in *.
  { by rewrite app_nil_r. }
  destruct Hc as [Hv Hc]. rewrite bool_decide_eq_false_2 by lia. unfold create_event.
  rewrite He, bool_decide_eq_false_2.
  - rewrite IH; [by rewrite <- app_assoc|done..|by rewrite <- app_assoc].
  - rewrite fmap_app in Hnd. apply NoDup_app in Hnd as (_ & Hdis & _).
    intros Hin. apply (Hdis _ Hin). left.
Qed.

Lemma rows_app db es id : rows (db ++ es) id = rows db id ++ rows es id.
Proof. apply filter_app. Qed.

Lemma rows_same es id : (∀ e, e ∈ es → evAggregateID e = id) → rows es id = es.
Proof. intros H. by apply filter_all. Qed.

Lemma rows_other es id id' :
  (∀ e, e ∈ es → evAggregateID e = id) → id' ≠ id → rows es id' = [].
Proof. intros H Hne. apply filter_none. intros e He. rewrite (H e He). congruence. Qed.

Lemma stamped_aggregate es es' id :
  Forall2 stamped es es' → (∀ e, e ∈ es → evAggregateID e = id) →
  ∀ e, e ∈ es' → evAggregateID e = id.
Proof.
  intros HF H e He. apply list_elem_of_lookup_1 in He as [i Hi].
  apply (Forall2_lookup_r _ _ _ _ _ HF) in Hi as (e0 & H0 & u & n & ->). simpl.
  apply H. by eapply list_elem_of_lookup_2.
Qed.

(** A successful [Save] of one aggregate's events appends them to its rows. *)
Lemma Gorm_Save_ok st env es st' id :
  gorm_wf st → es ≠ [] → (∀ e, e ∈ es → evAggregateID e = id) →
  Gorm_Save st env es = (Ok tt, st') →
  consecutive (Z.of_nat (length (rows (gsEvents st) id))) es ∧
  ∃ es', Forall2 stamped es es' ∧ (∀ e, e ∈ es' → evAggregateID e = id) ∧
    gsEvents st' = gsEvents st ++ es' ∧ gsSnapshots st' = gsSnapshots st.
Proof.
  intros Hwf Hne Hid HS. destruct es as [|e es]; [done|]. unfold Gorm_Save, save_tx in HS.
  destruct (ceVersionErr env); [done|]. rewrite (Hid e) in HS by left.
  rewrite getVersionInTx_rows in HS by done.
  destruct (save_loop _ _ _ _ _) as [db|] eqn:E; simplify_eq.
  apply save_loop_ok in E as (Hc & es' & HF & ->). split; [done|]. exists es'.
  split_and!; try done. by eapply stamped_aggregate.
Qed.

Lemma gorm_wf_append st es id :
  gorm_wf st → (∀ e, e ∈ es → evAggregateID e = id) →
  consecutive (Z.of_nat (length (rows (gsEvents st) id))) es →
  ∀ id', consecutive 0 (rows (gsEvents st ++ es) id').
Proof.
  intros Hwf Hid Hc id'. rewrite rows_app. destruct (decide (id' = id)) as [->|Hne].
  - rewrite (rows_same es) by done. apply consecutive_app. split; [apply Hwf|done].
  - rewrite (rows_other es id) by done. rewrite app_nil_r. apply Hwf.
Qed.

Lemma Gorm_LoadFromVersion_rows st id v :
  gorm_wf st →
  Gorm_LoadFromVersion st id v = filter (λ e, (v < evVersion e)%Z) (rows (gsEvents st) id).
Proof.
  intros Hwf. unfold Gorm_LoadFromVersion.
  rewrite (list_filter_iff _ (λ e, (v < evVersion e)%Z ∧ evAggregateID e = id)) by naive_solver.
  rewrite <- list_filter_filter. fold (rows (gsEvents st) id).
  rewrite consecutive_filter_Z by apply Hwf.
  by eapply consecutive_sort, consecutive_suffix, Hwf.
Qed.

Lemma Gorm_SaveSnapshot_ok st env s st' :
  Gorm_SaveSnapshot st env s = (Ok tt, st') →
  gsEvents st' = gsEvents st ∧
  (∃ s', Gorm_LoadSnapshot st' (ssAggregateID s) = Some s' ∧ ssVersion s' = ssVersion s ∧
     ssState s' = ssState s) ∧
  (∀ id, id ≠ ssAggregateID s → Gorm_LoadSnapshot st' id = Gorm_LoadSnapshot st id).
Proof.
  unfold Gorm_SaveSnapshot. destruct (ceErr env 0); [done|]. case_bool_decide; [done|].
  intros [= <-]. split; [done|]. unfold Gorm_LoadSnapshot. simpl. split.
  - rewrite filter_app, filter_none.
    + rewrite filter_cons, decide_True by done. simpl. eauto.
    + intros x [Hx _]%list_elem_of_filter. done.
  - intros id Hne. rewrite filter_app, (filter_none _ [_]).
    + rewrite app_nil_r, list_filter_filter. f_equal. apply list_filter_iff. naive_solver.
    + intros x ->%list_elem_of_singleton. simpl. congruence.
Qed.

(** The database store keeps what the interface promises. *)
#[export] Instance gorm_event_store : EventStore GormEventStore.
Proof.
  refine {| es_Save := Gorm_Save; es_Load := Gorm_Load;
            es_LoadFromVersion := Gorm_LoadFromVersion; es_LoadSnapshot := Gorm_LoadSnapshot;
            es_SaveSnapshot := Gorm_SaveSnapshot; es_wf := gorm_wf |}.
  - intros st id Hwf. rewrite Gorm_Load_rows by done. apply Hwf.
  - intros st id v Hwf. rewrite Gorm_Load_rows by done. by apply Gorm_LoadFromVersion_rows.
  - intros st env es e st'. unfold Gorm_Save, save_tx. destruct es; [done|].
    destruct (ceVersionErr env); [by intros [= _ <-]|].
    destruct (save_loop _ _ _ _ _); by intros [= <-].
  - intros st env es st' id Hwf Hne Hid HS.
    destruct (Gorm_Save_ok st env es st' id Hwf Hne Hid HS) as (Hc & es' & HF & Hid' & He & Hsn).
    assert (gorm_wf st') as Hwf'.
    { unfold gorm_wf. rewrite He. apply (gorm_wf_append st es' id Hwf Hid').
      by rewrite <- consecutive_stamped. }
    rewrite !Gorm_Load_rows by done. rewrite He, rows_app, (rows_same es') by done.
    split_and!; [done..|by exists es'| |].
    + intros id' Hne'. rewrite !Gorm_Load_rows, He, rows_app, (rows_other es' id) by done.
      by rewrite app_nil_r.
    + intros id'. unfold Gorm_LoadSnapshot. by rewrite Hsn.
  - intros st env s st' Hwf HS. destruct (Gorm_SaveSnapshot_ok st env s st' HS) as (He & Hs & Ho).
    assert (gorm_wf st') as Hwf' by (unfold gorm_wf; by rewrite He).
    split_and!; [done| |done..]. intros id. by rewrite !Gorm_Load_rows, He.
  - intros st env s e st'. unfold Gorm_SaveSnapshot. destruct (ceErr env 0); [by intros [= _ <-]|].
    case_bool_decide; by intros [= <-].
Defined.

(** The batch a successful [Save] stored. *)
Lemma save_loop_stored env i v es db db' :
  save_loop env i v es db = Ok db' → db' = db ++ stored env i es.
Proof.
  revert i v db. induction es as [|e es IH]; intros i v db; simpl.
  { intros [= <-]. by rewrite app_nil_r. }
  case_bool_decide; [done|]. destruct (create_event _ _ _) as [db1|] eqn:Hc; [|done].
  apply create_event_ok in Hc as ->. intros ->%IH. by rewrite <- app_assoc.
Qed.

(** The aggregate whose version [Save] compares a batch with. *)
Definition batch_aggregate (es : list Event) : string :=
  match es with [] => "" | e :: _ => evAggregateID e end.

Lemma Gorm_Save_eq st env es :
  es ≠ [] → Gorm_Save st env es =
  match ceVersionErr env with
  | Some e => (Err e, st)
  | None =>
      match save_loop env 0 (GetAggregateVersion st (batch_aggregate es)) es (gsEvents st) with
      | Err e => (Err e, st)
      | Ok db => (Ok tt, {| gsEvents := db; gsSnapshots := gsSnapshots st;
                            gsSnapshotFrequency := gsSnapshotFrequency st |})
      end
  end.
Proof. by destruct es. Qed.

(** A batch that continues an older version of the log is refused. *)
Lemma stale_batch_refused st st' env es id :
  gorm_wf st → gorm_wf st' → es ≠ [] → batch_aggregate es = id →
  length (Gorm_Load st id) < length (Gorm_Load st' id) →
  consecutive (GetAggregateVersion st id) es → ∃ err, Gorm_Save st' env es = (Err err, st').
Proof.
  intros Hwf Hwf' Hne Hid Hlt Hc. unfold GetAggregateVersion, Gorm_Save, save_tx in *.
  destruct es as [|e es]; [done|]. simpl in Hid. rewrite Hid. rewrite !Gorm_Load_rows in Hlt by done.
  destruct (ceVersionErr env); [by eauto|]. rewrite getVersionInTx_rows in * by done.
  destruct Hc as [Hv _]. simpl. rewrite bool_decide_true by lia. eauto.
Qed.

(** C15. [Save] is optimistic concurrency control, for transactions that do not
    overlap and on a store whose aggregates have consecutive versions from 1:
    a batch is stored whole, behind the events already there, exactly when its
    versions continue those of its first event's aggregate, the database
    reports no error and the IDs are new; otherwise nothing is stored.  When
    moreover all its events are of that aggregate, which the code does not
    check, they become the end of its log, the other logs stay as they are,
    all versions stay consecutive, and a later batch of a writer that had
    loaded the same version is refused. *)
Theorem Save_optimistic st env es :
  gorm_wf st → es ≠ [] →
  let id := batch_aggregate es in
  match Gorm_Save st env es with
  | (Ok _, st') =>
      consecutive (GetAggregateVersion st id) es ∧ gsEvents st' = gsEvents st ++ stored env 0 es ∧
      ((∀ e, e ∈ es → evAggregateID e = id) →
       gorm_wf st' ∧ Gorm_Load st' id = Gorm_Load st id ++ stored env 0 es ∧
       (∀ id', id' ≠ id → Gorm_Load st' id' = Gorm_Load st id') ∧
       (∀ env' es2, es2 ≠ [] → batch_aggregate es2 = id →
          consecutive (GetAggregateVersion st id) es2 →
          ∃ err, Gorm_Save st' env' es2 = (Err err, st')))
  | (Err _, st') => st' = st ∧
      ¬ (ceVersionErr env = None ∧ (∀ i, ceErr env i = None) ∧
         consecutive (GetAggregateVersion st id) es ∧
         NoDup (evID <$> gsEvents st ++ stored env 0 es))
  end.
Proof.
  intros Hwf Hne id. destruct (Gorm_Save st env es) as [[[]|err] st'] eqn:HS.
  2:{ split; [by eapply (@es_save_error _ gorm_event_store)|]. intros (Hv & He & Hc & Hnd).
      by rewrite Gorm_Save_eq, Hv, save_loop_succeeds in HS. }
  assert (consecutive (GetAggregateVersion st id) es ∧ gsEvents st' = gsEvents st ++ stored env 0 es)
    as [Hc Hev].
  { pose proof HS as HS'. rewrite Gorm_Save_eq in HS' by done. destruct (ceVersionErr env); [done|].
    destruct (save_loop _ _ _ _ _) as [db|] eqn:E; simplify_eq/=.
    split; [|by eapply save_loop_stored]. by apply save_loop_ok in E as [? _]. }
  split_and!; [done..|]. intros Hall.
  destruct (@es_save_ok _ gorm_event_store st env es st' id Hwf Hne Hall HS)
    as (Hwf' & _ & (es' & HF & Hl) & Ho & _). simpl in *.
  assert (Gorm_Load st' id = Gorm_Load st id ++ stored env 0 es) as Hl'.
  { apply Gorm_Save_ok with (id := id) in HS as (_ & es2 & HF2 & Hall2 & He2 & _); [|done..].
    rewrite !Gorm_Load_rows, Hev, rows_app by done. f_equal. apply rows_same. rewrite Hev in He2.
    apply app_inv_head in He2 as ->. done. }
  split_and!; [done..|]. intros env' es2 Hne2 Hid2 Hc2.
  apply (stale_batch_refused st st' env' es2 id); try done.
  rewrite Hl', length_app. destruct es; [done|]. simpl. lia.
Qed.

Definition demo_event (id agg : string) (v : Z) : Event :=
  {| evID := id; evAggregateID := agg; evType := "created"; evVersion := v; evPayload := "";
     evMetadata := ∅; evTimestamp := Some 1%Z; evUserID := ""; evCorrelationID := "" |}.
Definition demo_env : CallEnv :=
  {| ceGen := λ n, (pretty n, Z.of_nat n); ceVersionErr := None; ceErr := λ _, None |}.

(** Two transactions that overlap can both commit: each has read the maximal
    version before the other's insert, and no index forbids equal versions. *)
Lemma concurrent_saves_both_commit :
  ∃ st1 st2,
    save_tx [] (NewGormEventStore 10) demo_env [demo_event "e1" "a" 1] = (Ok tt, st1) ∧
    save_tx [] st1 demo_env [demo_event "e2" "a" 1] = (Ok tt, st2) ∧
    evVersion <$> Gorm_Load st2 "a" = [1; 1]%Z.
Proof. eexists _, _. split_and!; vm_compute; reflexivity. Qed.

(** A batch with a second aggregate's event is checked against the first one
    only, and leaves the second with versions that start at 2. *)
Lemma mixed_batch_breaks_versions :
  ∃ st', Gorm_Save (NewGormEventStore 10) demo_env [demo_event "e1" "a" 1; demo_event "e2" "b" 2]
           = (Ok tt, st') ∧ evVersion <$> Gorm_Load st' "b" = [2]%Z.
Proof. eexists _. split; vm_compute; reflexivity. Qed.

Lemma Save_optimistic_witness :
  ∃ st' err, Gorm_Save (NewGormEventStore 10) demo_env [demo_event "e1" "a" 1] = (Ok tt, st') ∧
    Gorm_Save st' demo_env [demo_event "e2" "a" 1] = (Err err, st').
Proof.
  destruct (Gorm_Save (NewGormEventStore 10) demo_env [demo_event "e1" "a" 1]) as [r st'] eqn:E.
  assert (r = Ok tt) as -> by (vm_compute in E; congruence).
  pose proof (Save_optimistic (NewGormEventStore 10) demo_env [demo_event "e1" "a" 1]) as H.
  cbv zeta in H. rewrite E in H. destruct H as (_ & _ & H).
  - intros id. done.
  - done.
  - destruct H as (_ & _ & _ & H); [by intros e ->%list_elem_of_singleton|].
    destruct (H demo_env [demo_event "e2" "a" 1]) as [err Herr]; [done|done|done|].
    exists st', err. split; [reflexivity|exact Herr].
Defined.
