(* ===== verification/EventSourcing.v ===== *)
(** pkg/eventsourcing/aggregate.go: event-sourced aggregates, the repository
    that loads and saves them, and the saga coordinator, over any event store
    that keeps the interface of EventStore.v. *)

From S2P Require Import Prelude GoValue EventStore GoLib GoText.
From Stdlib Require Import Ascii.

(** ** Names of event types *)

(** [strings.ToUpper] of a one-byte string: a byte that is no character of its
    own becomes the replacement character. *)
Definition upper_byte (c : ascii) : string :=
  if (N_of_ascii c <? 128)%N then String (upper_ascii c) ""
  else String (ascii_of_N 239) (String (ascii_of_N 191) (String (ascii_of_N 189) "")).

Definition toPascalCase (s : string) : string :=
  String.concat ""
    ((λ part, match part with "" => "" | String c rest => upper_byte c +:+ rest end) <$> split s "_").

Example toPascalCase_text :
  toPascalCase "workflow_created" = "WorkflowCreated" ∧ toPascalCase "_change" = "Change".
Proof. split; reflexivity. Qed.

Section Aggregates.
  (** The state of the concrete aggregate, outside [AggregateRoot]. *)
  Context {S : Type}.

(** ** Aggregates *)

(** [EventHandlers] holds closures over the aggregate's state; their errors
    are ignored. *)
Record AggregateRoot := {
  agID : string;
  agVersion : Z;
  agChanges : list Event;
  agEventHandlers : gmap string (Event → S → S);
  agCorrelationID : string;
  agUserID : string;
  agState : S
}.

Definition NewAggregateRoot (id uuid : string) (state : S) : AggregateRoot :=
  {| agID := if bool_decide (id = "") then uuid else id; agVersion := 0; agChanges := [];
     agEventHandlers := ∅; agCorrelationID := ""; agUserID := ""; agState := state |}.

(** The event [ApplyChange] makes of the one it is given. *)
Definition new_event (a : AggregateRoot) (e : Event) (now : Z) : Event :=
  {| evID := evID e; evAggregateID := agID a; evType := evType e;
     evVersion := (agVersion a + 1)%Z; evPayload := evPayload e; evMetadata := evMetadata e;
     evTimestamp := Some now; evUserID := agUserID a; evCorrelationID := agCorrelationID a |}.

(** The end of [applyEvent], with the state the handler left. *)
Definition record_event (a : AggregateRoot) (s : S) (e : Event) (isNew : bool) : AggregateRoot :=
  {| agID := agID a; agVersion := evVersion e;
     agChanges := if isNew then agChanges a ++ [e] else agChanges a;
     agEventHandlers := agEventHandlers a; agCorrelationID := agCorrelationID a;
     agUserID := agUserID a; agState := s |}.

(** [applyEvent].  An event type without handler is looked up as a method
    named "Apply" and the type in Pascal case; the only such method of
    [*AggregateRoot] is [ApplyChange] itself, which calls [applyEvent] with an
    event of the same type; [now] is the clock it reads. *)
Fixpoint applyEvent (fuel : nat) (a : AggregateRoot) (e : Event) (now : Z) (isNew : bool) :
    outcome AggregateRoot :=
  match agEventHandlers a !! evType e with
  | Some h => Ret (record_event a (h e (agState a)) e isNew)
  | None =>
      if bool_decide (toPascalCase (evType e) = "Change") then
        match fuel with
        | O => NoFuel
        | Datatypes.S fuel' =>
            match applyEvent fuel' a (new_event a e now) now true with
            | Ret a' => Ret (record_event a' (agState a') e isNew)
            | o => o
            end
        end
      else Ret (record_event a (agState a) e isNew)
  end.

Definition ApplyChange (fuel : nat) (a : AggregateRoot) (e : Event) (now : Z) :
    outcome AggregateRoot :=
  applyEvent fuel a (new_event a e now) now true.

Fixpoint LoadFromEvents (fuel : nat) (a : AggregateRoot) (events : list Event) (now : Z) :
    outcome AggregateRoot :=
  match events with
  | [] => Ret a
  | e :: events' =>
      match applyEvent fuel a e now false with
      | Ret a' => LoadFromEvents fuel a' events' now
      | o => o
      end
  end.

Definition GetUncommittedChanges (a : AggregateRoot) : list Event := agChanges a.

Definition MarkChangesAsCommitted (a : AggregateRoot) : AggregateRoot :=
  {| agID := agID a; agVersion := agVersion a; agChanges := [];
     agEventHandlers := agEventHandlers a; agCorrelationID := agCorrelationID a;
     agUserID := agUserID a; agState := agState a |}.

(** ** The repository *)

  Context {St : Type} `{EventStore St}.
  (** [json.Marshal] of the fields of an aggregate whose map of handlers is
      empty, and [json.Unmarshal] into an aggregate. *)
  Context (marshal : AggregateRoot → option string).
  Context (unmarshal : string → AggregateRoot → result AggregateRoot).
  Context (aggregateFactory : AggregateRoot).

(** [Load]; [snapErr] and [loadErr] are errors of the two queries. *)
Definition Repository_Load (fuel : nat) (st : St) (aggregateID : string) (now : Z)
    (snapErr loadErr : option string) : outcome (result AggregateRoot) :=
  let rebuild aggregate events :=
    match LoadFromEvents fuel aggregate events now with
    | Ret a => Ret (Ok a) | Panic m => Panic m | NoFuel => NoFuel
    end in
  match snapErr with
  | Some e => Ret (Err ("failed to load snapshot: " +:+ e))
  | None =>
      let aggregate := aggregateFactory in
      match es_LoadSnapshot st aggregateID with
      | Some snapshot =>
          match unmarshal (ssState snapshot) aggregate with
          | Err e => Ret (Err ("failed to load from snapshot: " +:+ e))
          | Ok aggregate =>
              match loadErr with
              | Some e => Ret (Err ("failed to load events: " +:+ e))
              | None => rebuild aggregate (es_LoadFromVersion st aggregateID (ssVersion snapshot))
              end
          end
      | None =>
          match loadErr with
          | Some e => Ret (Err ("failed to load events: " +:+ e))
          | None =>
              match es_Load st aggregateID with
              | [] => Ret (Err "aggregate not found")
              | events => rebuild aggregate events
              end
          end
      end
  end.

(** [json.Marshal] of an aggregate: [EventHandlers] is an exported field whose
    values are functions, which cannot be encoded; only the empty map can. *)
Definition json_marshal (a : AggregateRoot) : option string :=
  if bool_decide (size (agEventHandlers a) = 0) then marshal a else None.

(** [createSnapshot]; its error is ignored by [Save]. *)
Definition createSnapshot (st : St) (env : CallEnv) (a : AggregateRoot) (now : Z) : St :=
  match json_marshal a with
  | None => st
  | Some state =>
      (es_SaveSnapshot st env {| ssID := ""; ssAggregateID := agID a; ssVersion := agVersion a;
                                 ssState := state; ssTimestamp := Some now |}).2
  end.

Definition Repository_Save (st : St) (env env2 : CallEnv) (now : Z) (a : AggregateRoot) :
    result unit * St * AggregateRoot :=
  let changes := GetUncommittedChanges a in
  if bool_decide (length changes = 0) then (Ok tt, st, a)
  else match es_Save st env changes with
       | (Err e, st') => (Err ("failed to save events: " +:+ e), st', a)
       | (Ok _, st') =>
           let a := MarkChangesAsCommitted a in
           let st' := if bool_decide (Z.rem (agVersion a) 10 = 0%Z)
                      then createSnapshot st' env2 a now else st' in
           (Ok tt, st', a)
       end.

(** *** Replay *)

(** What an event does to the state, when it does not recurse. *)
Definition handle (hs : gmap string (Event → S → S)) (s : S) (e : Event) : S :=
  match hs !! evType e with Some h => h e s | None => s end.
Definition applicable (hs : gmap string (Event → S → S)) (e : Event) : Prop :=
  is_Some (hs !! evType e) ∨ toPascalCase (evType e) ≠ "Change".

Lemma applyEvent_ret fuel a e now isNew :
  applicable (agEventHandlers a) e →
  applyEvent fuel a e now isNew = Ret (record_event a (handle (agEventHandlers a) (agState a) e) e isNew).
Proof.
  clear. unfold applicable, handle. destruct fuel; simpl; destruct (agEventHandlers a !! evType e); try done;
    (intros [[? [=]]|Hn]; by rewrite bool_decide_false).
Qed.

(** An event of a type such as "change" without handler never finishes being
    applied: [ApplyChange] calls itself through reflection. *)
Lemma applyEvent_recurses fuel a e now isNew :
  ¬ applicable (agEventHandlers a) e → applyEvent fuel a e now isNew = NoFuel.
Proof.
  clear. revert e isNew. induction fuel as [|fuel IH]; intros e isNew Hn; simpl;
    (destruct (agEventHandlers a !! evType e) eqn:E; [destruct Hn; left; by rewrite E|]);
    (rewrite bool_decide_true by (destruct (decide (toPascalCase (evType e) = "Change"));
       [done|by destruct Hn; right])); [done|].
  by rewrite (IH (new_event a e now) true).
Qed.

#[local] Instance applicable_dec hs e : Decision (applicable hs e).
Proof. unfold applicable. apply _. Defined.

(** The aggregate reflects the log of its ID in [st] followed by its own
    uncommitted changes. *)
Record in_sync (st : St) (init : S) (a : AggregateRoot) : Prop := {
  sync_state : agState a = foldl (handle (agEventHandlers a)) init (es_Load st (agID a) ++ agChanges a);
  sync_version : agVersion a = Z.of_nat (length (es_Load st (agID a) ++ agChanges a));
  sync_changes : consecutive (Z.of_nat (length (es_Load st (agID a)))) (agChanges a);
  sync_ids : ∀ e, e ∈ agChanges a → evAggregateID e = agID a ∧ is_Some (evTimestamp e);
  sync_applicable : Forall (applicable (agEventHandlers a)) (es_Load st (agID a) ++ agChanges a)
}.

Lemma ApplyChange_in_sync fuel st init a e now a' :
  in_sync st init a → ApplyChange fuel a e now = Ret a' → in_sync st init a'.
Proof.
  intros [Hs Hv Hc Hi Ha] Happ. unfold ApplyChange in Happ.
  destruct (decide (applicable (agEventHandlers a) (new_event a e now))) as [Hap|Hn];
    [|by rewrite applyEvent_recurses in Happ].
  rewrite applyEvent_ret in Happ by done. injection Happ as <-. split; simpl.
  - by rewrite app_assoc, foldl_app, <- Hs.
  - rewrite Hv, app_assoc, !length_app. simpl. lia.
  - rewrite consecutive_app. split; [done|]. simpl. split; [|done]. rewrite Hv, length_app. lia.
  - intros e' [He| ->%list_elem_of_singleton]%elem_of_app; [by apply Hi|]. simpl. eauto.
  - rewrite app_assoc. apply Forall_app. split; [done|]. by constructor.
Qed.

(** An aggregate just made for an unused ID. *)
Lemma new_in_sync st init a :
  es_Load st (agID a) = [] → agChanges a = [] → agVersion a = 0%Z → agState a = init → in_sync st init a.
Proof.
  intros Hl Hc Hv Hs. split; rewrite ?Hl, ?Hc; try done; simpl; auto. by intros e He%elem_of_nil.
Qed.

(** Handlers do not look at the ID of the event row. *)
Definition ignore_id (hs : gmap string (Event → S → S)) : Prop :=
  ∀ t h e uuid now s, hs !! t = Some h → is_Some (evTimestamp e) → h (stamp uuid now e) s = h e s.

Lemma handle_stamped hs init es es' :
  ignore_id hs → (∀ e, e ∈ es → is_Some (evTimestamp e)) → Forall2 stamped es es' →
  foldl (handle hs) init es' = foldl (handle hs) init es.
Proof.
  intros Hh Ht HF. revert init Ht. induction HF as [|e e' es es' (u & n & ->) _ IH]; intros init Ht; [done|].
  simpl. rewrite IH by (intros; apply Ht; by right). f_equal. unfold handle. simpl.
  destruct (hs !! evType e) eqn:E; [|done]. eapply Hh; [done|]. apply Ht. left.
Qed.

Lemma applicable_stamped hs es es' :
  Forall2 stamped es es' → Forall (applicable hs) es → Forall (applicable hs) es'.
Proof.
  clear. intros HF. induction HF as [|e e' es es' (u & n & ->) _ IH]; [done|].
  rewrite !Forall_cons. intros [? ?]. split; [done|by apply IH].
Qed.

Lemma LoadFromEvents_ret fuel now a es :
  Forall (applicable (agEventHandlers a)) es →
  ∃ a', LoadFromEvents fuel a es now = Ret a' ∧
    agState a' = foldl (handle (agEventHandlers a)) (agState a) es ∧
    agEventHandlers a' = agEventHandlers a ∧ agID a' = agID a ∧ agChanges a' = agChanges a ∧
    agVersion a' = default (agVersion a) (evVersion <$> last es).
Proof.
  clear. revert a. induction es as [|e es IH]; intros a; simpl; [by eauto 10|].
  intros [He Hes]%Forall_cons. rewrite applyEvent_ret by done.
  destruct (IH (record_event a (handle (agEventHandlers a) (agState a) e) e false) Hes)
    as (a' & -> & Hs & Hh & Hi & Hc & Hv).
  exists a'. split_and!; try done. rewrite Hv, last_cons. by destruct (last es).
Qed.

(** Snapshots of aggregates without handlers read back what they stored:
    marshalling keeps the version and the state, and unmarshalling keeps the
    handlers of the fresh aggregate. *)
Definition snapshot_codec : Prop :=
  ∀ a s, agEventHandlers a = ∅ → agChanges a = [] → marshal a = Some s →
    ∃ a', unmarshal s aggregateFactory = Ok a' ∧ agState a' = agState a ∧
      agVersion a' = agVersion a ∧ agEventHandlers a' = agEventHandlers aggregateFactory.

(** The stored snapshots agree with the logs. *)
Definition snapshots_agree (st : St) (init : S) : Prop :=
  ∀ id s, es_LoadSnapshot st id = Some s →
    ∃ n a', ssVersion s = Z.of_nat n ∧ n ≤ length (es_Load st id) ∧ 0 < n ∧
      unmarshal (ssState s) aggregateFactory = Ok a' ∧
      agState a' = foldl (handle (agEventHandlers aggregateFactory)) init (take n (es_Load st id)) ∧
      agVersion a' = Z.of_nat n ∧ agEventHandlers a' = agEventHandlers aggregateFactory.

Lemma es_load_last st id :
  es_wf st → evVersion <$> last (es_Load st id) =
    if decide (es_Load st id = []) then None else Some (Z.of_nat (length (es_Load st id))).
Proof.
  intros Hwf. pose proof (es_load_consecutive st id Hwf) as Hc. case_decide as Hn; [by rewrite Hn|].
  destruct (last (es_Load st id)) as [e|] eqn:E; [|by apply last_None in E].
  rewrite last_lookup in E. apply (consecutive_lookup _ _ _ _ Hc) in E. simpl. f_equal.
  destruct (es_Load st id); [done|]. simpl in *. lia.
Qed.

(** [Load] rebuilds the aggregate from the log, with or without a snapshot. *)
Lemma Repository_Load_spec fuel now st init id :
  es_wf st → agState aggregateFactory = init → snapshots_agree st init → es_Load st id ≠ [] →
  Forall (applicable (agEventHandlers aggregateFactory)) (es_Load st id) →
  ∃ a', Repository_Load fuel st id now None None = Ret (Ok a') ∧
    agState a' = foldl (handle (agEventHandlers aggregateFactory)) init (es_Load st id) ∧
    agVersion a' = Z.of_nat (length (es_Load st id)).
Proof.
  intros Hwf Hi Hag Hne Happ. unfold Repository_Load. pose proof (es_load_last st id Hwf) as Hlast.
  rewrite decide_False in Hlast by done.
  destruct (es_LoadSnapshot st id) as [s|] eqn:Hs.
  - destruct (Hag id s Hs) as (n & a0 & Hsv & Hn & Hn0 & -> & Hst & Hver & Hh).
    rewrite es_load_from, Hsv, consecutive_filter_Z, Nat2Z.id by eauto using es_load_consecutive.
    destruct (LoadFromEvents_ret fuel now a0 (drop n (es_Load st id)))
      as (a' & -> & Hs' & _ & _ & _ & Hv'); [rewrite Hh; by apply Forall_drop|].
    eexists. split; [done|]. rewrite Hs', Hv', Hst, Hh, <- foldl_app, take_drop. split; [done|].
    destruct (decide (n = length (es_Load st id))) as [->|Hlt].
    + by rewrite drop_ge by done.
    + assert (last (drop n (es_Load st id)) = last (es_Load st id)) as ->; [|by rewrite Hlast].
      rewrite !last_lookup, lookup_drop, length_drop. f_equal. lia.
  - destruct (LoadFromEvents_ret fuel now aggregateFactory (es_Load st id) Happ)
      as (a' & E & Hs' & _ & _ & _ & Hv').
    destruct (es_Load st id) as [|e es] eqn:El; [done|]. rewrite <- El in *. rewrite E.
    eexists. split; [done|]. by rewrite Hs', Hv', Hlast, Hi.
Qed.

(** An aggregate that has a handler is never snapshotted. *)
Lemma handlers_prevent_snapshot st env a now :
  agEventHandlers a ≠ ∅ → createSnapshot st env a now = st.
Proof.
  intros Hne. unfold createSnapshot, json_marshal. rewrite bool_decide_false; [done|].
  by rewrite map_size_empty_iff.
Qed.

(** What storing the changes leaves in the store. *)
Definition saved (st : St) (init : S) (a : AggregateRoot) : Prop :=
  es_wf st ∧ snapshots_agree st init ∧ es_Load st (agID a) ≠ [] ∧
  foldl (handle (agEventHandlers a)) init (es_Load st (agID a)) = agState a ∧
  Z.of_nat (length (es_Load st (agID a))) = agVersion a ∧
  Forall (applicable (agEventHandlers a)) (es_Load st (agID a)).

Lemma save_changes st env init a st1 :
  es_wf st → in_sync st init a → agChanges a ≠ [] → ignore_id (agEventHandlers a) →
  snapshots_agree st init → es_Save st env (agChanges a) = (Ok tt, st1) → saved st1 init a.
Proof.
  intros Hwf [Hss Hsv Hsc Hsi Hap] Hne Hig Hag HS.
  destruct (es_save_ok st env (agChanges a) st1 (agID a) Hwf Hne) as (Hwf1 & _ & (es' & HF & Hl) & Ho & Hsn);
    [intros e He; by apply Hsi|done|].
  apply Forall_app in Hap as [Hap1 Hap2]. unfold saved. split_and!; [done| | | | |].
  - intros id s Hs. rewrite Hsn in Hs. destruct (Hag id s Hs) as (n & a0 & H1 & H2 & H3 & H4 & H5 & H6 & H7).
    exists n, a0. destruct (decide (id = agID a)) as [->|Hid]; [|rewrite Ho by done; by split_and!].
    rewrite Hl, length_app, take_app_le by lia. split_and!; try done. lia.
  - rewrite Hl. intros [_ ->]%app_eq_nil. apply Forall2_nil_inv_r in HF. done.
  - rewrite Hl, foldl_app, (handle_stamped _ _ (agChanges a)), <- foldl_app; [done|done| |done].
    intros e He. by apply Hsi.
  - rewrite Hl, Hsv, !length_app, (Forall2_length _ _ _ HF). done.
  - rewrite Hl. apply Forall_app. split; [done|]. by eapply applicable_stamped.
Qed.

Lemma createSnapshot_saved st env2 now init a :
  saved st init a → agEventHandlers a = agEventHandlers aggregateFactory → snapshot_codec →
  agChanges a = [] → saved (createSnapshot st env2 a now) init a.
Proof.
  intros Hsav Hh Hcodec Hch. unfold createSnapshot, json_marshal.
  case_bool_decide as Hsz; [|done]. apply map_size_empty_inv in Hsz.
  destruct (marshal a) as [js|] eqn:Hm; [|done].
  destruct (es_SaveSnapshot st env2 _) as [[[]|] st2] eqn:HSS; simpl.
  2:{ by apply es_save_snapshot_error in HSS as ->. }
  destruct Hsav as (Hwf & Hag & Hne & Hrep & Hlen & Hap).
  apply es_save_snapshot in HSS as (Hwf2 & Hl2 & (s' & Hs' & Hsv' & Hss') & Ho2); [|done].
  simpl in *. unfold saved. rewrite !Hl2. split_and!; try done.
  intros id s Hs. destruct (decide (id = agID a)) as [->|Hid].
  - rewrite Hs' in Hs. injection Hs as <-. rewrite !Hl2, Hss', Hsv'.
    destruct (Hcodec _ _ Hsz Hch Hm) as (a1 & -> & Hst1 & Hv1 & Hh1).
    exists (length (es_Load st (agID a))), a1.
    assert (0 < length (es_Load st (agID a))) by (destruct (es_Load st (agID a)); [done|simpl; lia]).
    rewrite take_ge, <- Hh by done. split_and!; try done; congruence.
  - rewrite Ho2 in Hs by done. rewrite !Hl2. by apply Hag.
Qed.

(** What a successful [Save] leaves in the store. *)
Lemma Repository_Save_store st env env2 now init a st' a' :
  es_wf st → in_sync st init a → es_Load st (agID a) ++ agChanges a ≠ [] →
  agEventHandlers a = agEventHandlers aggregateFactory → ignore_id (agEventHandlers a) →
  snapshot_codec → snapshots_agree st init →
  Repository_Save st env env2 now a = (Ok tt, st', a') →
  saved st' init a ∧ a' = MarkChangesAsCommitted a.
Proof.
  intros Hwf Hsync Hne Hh Hig Hcodec Hag. unfold Repository_Save, GetUncommittedChanges.
  destruct (decide (agChanges a = [])) as [Hc|Hc].
  { rewrite bool_decide_true by (by rewrite Hc). intros [= <- <-].
    split; [|destruct a; simpl in Hc; by subst].
    destruct Hsync as [Hs Hv _ _ Hap]. rewrite Hc, app_nil_r in *. by unfold saved. }
  rewrite bool_decide_eq_false_2 by (by destruct (agChanges a)).
  destruct (es_Save st env (agChanges a)) as [[[]|] st1] eqn:HS; [|done]. intros [= <- <-].
  pose proof (save_changes _ _ _ _ _ Hwf Hsync Hc Hig Hag HS) as Hsav. split; [|done].
  case_bool_decide; [|done].
  exact (createSnapshot_saved st1 env2 now init (MarkChangesAsCommitted a) Hsav Hh Hcodec eq_refl).
Qed.

(** C14. Loading what was saved gives back the aggregate: after a successful
    [Save] of an aggregate that follows the log of its ID in the store
    ([in_sync]: made for an unused ID, then changed and saved, nobody else
    writing to that ID) and has an event to load, [Load] under that ID returns
    one with the same version and state, whether it starts from a snapshot or
    from the first event, the aggregate still follows the log, and every
    snapshot in the store agrees with the log.  The event store is any
    implementation of the interface, which reads back rows as written.
    Conditions: the aggregate has the handlers the factory gives; these do not
    read the row ID, which is assigned on saving; none of the events is of a
    type that recurses ([sync_applicable]); the JSON of an aggregate without
    handlers decodes to what was encoded (one with handlers is never encoded);
    the queries of [Load] succeed. *)
Theorem save_load_round_trip fuel st env env2 now now2 init a st' a' :
  es_wf st → in_sync st init a → es_Load st (agID a) ++ agChanges a ≠ [] →
  agEventHandlers a = agEventHandlers aggregateFactory → ignore_id (agEventHandlers a) →
  agState aggregateFactory = init →
  snapshot_codec → snapshots_agree st init →
  Repository_Save st env env2 now a = (Ok tt, st', a') →
  ∃ a2, Repository_Load fuel st' (agID a) now2 None None = Ret (Ok a2) ∧
    agState a2 = agState a' ∧ agVersion a2 = agVersion a' ∧
    in_sync st' init a' ∧ snapshots_agree st' init.
Proof.
  intros Hwf Hsync Hne Hh Hig Hi Hcodec Hag HS.
  destruct (Repository_Save_store _ _ _ _ _ _ _ _ Hwf Hsync Hne Hh Hig Hcodec Hag HS)
    as [(Hwf' & Hag' & Hne' & Hrep & Hlen & Hap) ->].
  destruct (Repository_Load_spec fuel now2 st' init (agID a)) as (a2 & HL & Hs2 & Hv2);
    [done|done|done|done|by rewrite <- Hh|].
  exists a2. split; [done|]. rewrite Hs2, Hv2, <- Hh, Hrep, Hlen. split_and!; [done..| |done].
  split; simpl; rewrite ?app_nil_r; try done. by intros e He%elem_of_nil.
Qed.

(** [Load] does not give the aggregate its ID: an aggregate rebuilt from
    events keeps the ID its factory gave it.  When that is not the ID it was
    loaded by, every change made to it is refused on saving, because its
    version continues a log recorded under another ID. *)
Lemma loaded_aggregate_loses_id fuel now0 st id :
  es_wf st → es_LoadSnapshot st id = None → es_Load st id ≠ [] →
  Forall (applicable (agEventHandlers aggregateFactory)) (es_Load st id) →
  agChanges aggregateFactory = [] → es_Load st (agID aggregateFactory) = [] →
  ∃ a, Repository_Load fuel st id now0 None None = Ret (Ok a) ∧ agID a = agID aggregateFactory ∧
    ∀ e now env env2 t a1, ApplyChange fuel a e now = Ret a1 →
      ∃ err a', Repository_Save st env env2 t a1 = (Err err, st, a').
Proof.
  intros Hwf Hsn Hne Hap Hch H0. unfold Repository_Load. rewrite Hsn.
  destruct (LoadFromEvents_ret fuel now0 aggregateFactory (es_Load st id) Hap)
    as (a & E & _ & Hh & Hid & Hc & Hv). rewrite es_load_last, decide_False in Hv by done. simpl in Hv.
  destruct (es_Load st id) as [|e0 es] eqn:El; [done|]. rewrite <- El in *. rewrite E.
  exists a. split; [done|]. split; [done|]. intros e now env env2 t a1 Happ. unfold ApplyChange in Happ.
  destruct (decide (applicable (agEventHandlers a) (new_event a e now))) as [Hok|Hn];
    [|by rewrite applyEvent_recurses in Happ].
  rewrite applyEvent_ret in Happ by done. injection Happ as <-.
  unfold Repository_Save, GetUncommittedChanges. simpl. rewrite Hc, Hch. simpl.
  destruct (es_Save st env [new_event a e now]) as [[[]|err] st'] eqn:HS.
  - destruct (es_save_ok st env [new_event a e now] st' (agID a) Hwf) as (_ & Hcons & _);
      [done|by intros x ->%list_elem_of_singleton|done|]. rewrite Hid, H0 in Hcons.
    destruct Hcons as [Hv1 _]. simpl in Hv1. rewrite Hv, El in Hv1. simpl in Hv1. lia.
  - apply es_save_error in HS as Hst. subst st'. eauto.
Qed.
End Aggregates.
Arguments AggregateRoot : clear implicits.

(** ** A plain aggregate *)

(** The JSON of a bare [*AggregateRoot] without handlers or changes, for IDs
    of the characters of a UUID. *)
Definition quote_char : ascii := ascii_of_N 34.
Definition uuid_char (c : ascii) : bool :=
  let n := N_of_ascii c in
  ((48 <=? n) && (n <=? 57) || (97 <=? n) && (n <=? 102) || (n =? 45))%N.
Definition root_pieces (id : string) (version : N) : list string :=
  ["{"; "ID"; ":"; id; ","; "Version"; ":" +:+ string_of_N version +:+ ","; "Changes"; ":[],";
   "EventHandlers"; ":{}}"].
Definition root_marshal (a : AggregateRoot unit) : option string :=
  if forallb uuid_char (String.list_ascii_of_string (agID a)) && bool_decide (0 ≤ agVersion a)%Z
  then Some (String.concat (String quote_char "") (root_pieces (agID a) (Z.to_N (agVersion a)))) else None.
Definition root_unmarshal (s : string) (a : AggregateRoot unit) : result (AggregateRoot unit) :=
  match split s (String quote_char "") with
  | [_; _; _; id; _; _; v; _; _; _; _] =>
      match digits (drop_last (drop1 v)) with
      | Some n => Ok {| agID := id; agVersion := n; agChanges := []; agEventHandlers := agEventHandlers a;
                        agCorrelationID := agCorrelationID a; agUserID := agUserID a; agState := tt |}
      | None => Err "cannot unmarshal"
      end
  | _ => Err "unexpected end of JSON input"
  end.

Lemma uuid_no_quote s :
  forallb uuid_char (String.list_ascii_of_string s) = true → no_char quote_char s = true.
Proof.
  induction s as [|c s IH]; [done|]. simpl. intros [Hc Hs]%andb_true_iff. rewrite IH, andb_true_r by done.
  apply negb_true_iff, bool_decide_false. intros ->. by vm_compute in Hc.
Qed.

Lemma root_codec factory : snapshot_codec root_marshal root_unmarshal factory.
Proof.
  intros a s _ _. unfold root_marshal. destruct (forallb _ _) eqn:Hid; [|done]. cbn [andb].
  case_bool_decide as Hv; [|done]. intros Hs. apply Some_inj in Hs as <-.
  unfold root_unmarshal. rewrite split_concat.
  - cbn [root_pieces]. rewrite string_app_cons. cbn [drop1]. change ("" +:+ ?x) with x.
    rewrite drop_last_app, digits_of_N. eexists. split; [done|]. simpl.
    split_and!; [by destruct (agState a)|lia|done].
  - done.
  - unfold root_pieces. repeat constructor; try reflexivity; [by apply uuid_no_quote|].
    rewrite !no_char_app. by rewrite string_of_N_char.
Qed.

Definition root (id : string) : AggregateRoot unit := NewAggregateRoot id "fresh" tt.
(** An aggregate changed ten times, which [Save] snapshots. *)
Definition changed (a : AggregateRoot unit) : AggregateRoot unit :=
  match ApplyChange 0 a (demo_event "" "" 0) 7 with Ret a' => a' | _ => a end.
Definition root10 : AggregateRoot unit := Nat.iter 10 changed (root "c1").

Lemma changed_spec a :
  ApplyChange 0 a (demo_event "" "" 0) 7 = Ret (changed a) ∨ changed a = a.
Proof. unfold changed. destruct (ApplyChange _ _ _ _); auto. Qed.

Lemma root_iter_sync n : in_sync (NewGormEventStore 0) tt (Nat.iter n changed (root "c1")).
Proof.
  induction n as [|n IH]; [by apply new_in_sync|]. simpl.
  destruct (changed_spec (Nat.iter n changed (root "c1"))) as [E| ->]; [|done].
  by eapply ApplyChange_in_sync.
Qed.

(** Saving the aggregate stores a snapshot, and loading starts from it. *)
Lemma save_load_round_trip_witness :
  ∃ st' a' a2, Repository_Save root_marshal (NewGormEventStore 0) demo_env demo_env 9 root10
      = (Ok tt, st', a') ∧
    es_LoadSnapshot st' "c1" ≠ None ∧
    Repository_Load root_unmarshal (root "") 0 st' "c1" 11 None None = Ret (Ok a2) ∧
    agState a2 = agState a' ∧ agVersion a2 = agVersion a'.
Proof.
  destruct (Repository_Save root_marshal (NewGormEventStore 0) demo_env demo_env 9 root10)
    as [[r st'] a'] eqn:E.
  assert (r = Ok tt ∧ es_LoadSnapshot st' "c1" ≠ None) as [-> Hsn].
  { apply (f_equal fst) in E. vm_compute in E. injection E as <- <-. split; [done|]. by vm_compute. }
  destruct (save_load_round_trip root_marshal root_unmarshal (root "") 0
    (NewGormEventStore 0) demo_env demo_env 9 11 tt root10 st' a') as (a2 & H2 & Hs & Hv & _).
  - intros id. exact I.
  - apply root_iter_sync.
  - vm_compute. discriminate.
  - reflexivity.
  - intros t h e u n s Hl. discriminate Hl.
  - reflexivity.
  - apply root_codec.
  - intros id s Hl. discriminate Hl.
  - exact E.
  - exists st', a', a2. split_and!; [reflexivity|exact Hsn|exact H2|exact Hs|exact Hv].
Defined.

(** A counter, whose handler keeps it from ever being snapshotted. *)
Definition counter_factory : AggregateRoot nat :=
  {| agID := "fresh"; agVersion := 0; agChanges := [];
     agEventHandlers := {["created" := λ _ n, Datatypes.S n]}; agCorrelationID := "";
     agUserID := ""; agState := 0 |}.

Lemma loaded_aggregate_loses_id_witness :
  let st := (Gorm_Save (NewGormEventStore 0) demo_env [demo_event "e1" "c1" 1]).2 in
  ∃ a, Repository_Load (λ _ _, Err "no snapshot") counter_factory 0 st "c1" 5 None None = Ret (Ok a) ∧
    agID a = "fresh".
Proof.
  intros st.
  destruct (loaded_aggregate_loses_id (λ _, None) (λ _ _, Err "no snapshot") counter_factory 0 5 st "c1")
    as (a & Hl & Hid & _); [|reflexivity|done|..|reflexivity|reflexivity|].
  - apply (@es_save_ok _ gorm_event_store (NewGormEventStore 0) demo_env
      [demo_event "e1" "c1" 1] st "c1"); [by intros id|done|by intros e ->%list_elem_of_singleton|].
    vm_compute. reflexivity.
  - apply (bool_decide_unpack _). by vm_compute.
  - exists a. split; [exact Hl|exact Hid].
Defined.

(** ** The saga coordinator *)

Section Coordinator.
  Context {St : Type} `{EventStore St}.
  (** What the steps act on. *)
  Context {W : Type}.

Record SagaStep := {
  stepName : string;
  stepExecute : W → option string * W;
  stepCompensate : option (W → option string * W);
  stepCompleted : bool;
  stepCompletedAt : option Z
}.

Record Saga := {
  sagaID : string;
  sagaState : string;
  sagaStartedAt : Z;
  sagaCompletedAt : option Z;
  sagaSteps : list SagaStep;
  sagaCurrentStep : Z;
  sagaCompensateFrom : Z
}.

Definition with_progress (s : Saga) (state : string) (steps : list SagaStep)
    (current from : Z) (completed : option Z) : Saga :=
  {| sagaID := sagaID s; sagaState := state; sagaStartedAt := sagaStartedAt s;
     sagaCompletedAt := completed; sagaSteps := steps; sagaCurrentStep := current;
     sagaCompensateFrom := from |}.

(** [recordSagaEvent]: the error of [Save] is ignored. *)
Definition recordSagaEvent (st : St) (env : CallEnv) (uuid : string) (now : Z) (s : Saga)
    (eventType : string) : St :=
  (es_Save st env
    [{| evID := uuid; evAggregateID := sagaID s; evType := eventType; evVersion := 1;
        evPayload := "";
        evMetadata := <["saga_state" := sagaState s]>
                        {["current_step" := pretty (sagaCurrentStep s)]};
        evTimestamp := Some now; evUserID := ""; evCorrelationID := "" |}]).2.

(** What surrounds the coordinator's calls: one entry per recorded event. *)
Record CoordEnv := {
  coSave : nat → CallEnv;
  coUUID : nat → string;
  coNow : nat → Z
}.

(** The loop of [compensate] over the steps from [CompensateFrom] down to 0;
    [n] counts the recorded events; the calls made are returned last. *)
Fixpoint compensate_steps (env : CoordEnv) (s : Saga) (steps : list SagaStep) (n : nat)
    (st : St) (w : W) : nat * St * W * list string :=
  match steps with
  | [] => (n, st, w, [])
  | step :: rest =>
      match stepCompensate step with
      | None => compensate_steps env s rest n st w
      | Some comp =>
          let '(err, w') := comp w in
          let type := (match err with
                       | Some _ => "compensation_failed_" | None => "compensated_"
                       end) +:+ stepName step in
          let st' := recordSagaEvent st (coSave env n) (coUUID env n) (coNow env n) s type in
          let '(n', st'', w'', calls) := compensate_steps env s rest (S n) st' w' in
          (n', st'', w'', stepName step :: calls)
      end
  end.

Definition complete_step (step : SagaStep) (now : Z) : SagaStep :=
  {| stepName := stepName step; stepExecute := stepExecute step;
     stepCompensate := stepCompensate step; stepCompleted := true;
     stepCompletedAt := Some now |}.

(** The loop of [Execute]: [before] are the completed steps, as written back
    to the saga.  Returns the error, the saga, the store, the world and the
    compensations called. *)
Fixpoint coordinator_loop (env : CoordEnv) (s : Saga) (before after : list SagaStep) (n : nat)
    (st : St) (w : W) (now : Z) :
    option string * Saga * St * W * list string :=
  match after with
  | [] => (None, with_progress s "completed" before (sagaCurrentStep s) (sagaCompensateFrom s)
                   (Some now), st, w, [])
  | step :: rest =>
      let i := Z.of_nat (length before) in
      match stepExecute step w with
      | (Some _, w') =>
          let s' := with_progress s "compensating" (before ++ step :: rest) i i (sagaCompletedAt s) in
          let '(_, st', w'', calls) :=
            compensate_steps env s' (rev (before ++ [step])) n st w' in
          (Some ("saga failed at step " +:+ pretty i),
           with_progress s' "compensated" (sagaSteps s') i i (Some now), st', w'', calls)
      | (None, w') =>
          let before' := before ++ [complete_step step now] in
          let s' := with_progress s (sagaState s) (before' ++ rest) i (sagaCompensateFrom s)
                      (sagaCompletedAt s) in
          let st' := recordSagaEvent st (coSave env n) (coUUID env n) (coNow env n) s'
                       ("completed_step_" +:+ stepName step) in
          coordinator_loop env s' before' rest (S n) st' w' now
      end
  end.

Definition Coordinator_Execute (env : CoordEnv) (s : Saga) (st : St) (w : W) (started now : Z) :
    option string * Saga * St * W * list string :=
  coordinator_loop env
    {| sagaID := sagaID s; sagaState := "running"; sagaStartedAt := started;
       sagaCompletedAt := sagaCompletedAt s; sagaSteps := sagaSteps s;
       sagaCurrentStep := sagaCurrentStep s; sagaCompensateFrom := sagaCompensateFrom s |}
    [] (sagaSteps s) 0 st w now.

(** At most one event is ever stored for the saga. *)
Definition one_event (id : string) (st : St) : Prop :=
  es_wf st ∧ length (es_Load st id) ≤ 1.

Lemma recordSagaEvent_one st env uuid now s type :
  one_event (sagaID s) st → one_event (sagaID s) (recordSagaEvent st env uuid now s type).
Proof.
  intros [Hwf Hl]. unfold recordSagaEvent. destruct (es_Save st env _) as [[[]|err] st'] eqn:HS; simpl.
  - eapply (es_save_ok st env _ st' (sagaID s)) in HS as (Hwf' & [Hv _] & (es' & HF & Hl') & _);
      [|done|done|by intros e ->%list_elem_of_singleton].
    simpl in Hv. split; [done|]. rewrite Hl', length_app, <- (Forall2_length _ _ _ HF). simpl. lia.
  - by rewrite (es_save_error _ _ _ _ _ HS).
Qed.

Lemma compensate_steps_one env s steps n st w :
  one_event (sagaID s) st → one_event (sagaID s) (compensate_steps env s steps n st w).1.1.2.
Proof.
  revert n st w. induction steps as [|step steps IH]; intros n st w Hst; simpl; [done|].
  destruct (stepCompensate step) as [comp|]; [|by apply IH]. destruct (comp w) as [err w'].
  set (st' := recordSagaEvent _ _ _ _ _ _).
  assert (one_event (sagaID s) st') as Hst' by (by apply recordSagaEvent_one).
  specialize (IH (Datatypes.S n) st' w' Hst').
  by destruct (compensate_steps env s steps (Datatypes.S n) st' w') as [[[n' st2] w2] calls].
Qed.

Definition compensated_names (steps : list SagaStep) : list string :=
  omap (λ s, match stepCompensate s with Some _ => Some (stepName s) | None => None end) steps.

Lemma compensate_steps_calls env s steps n st w :
  (compensate_steps env s steps n st w).2 = compensated_names steps.
Proof.
  revert n st w. induction steps as [|step steps IH]; intros n st w; simpl; [done|].
  destruct (stepCompensate step) as [comp|]; [|apply IH]. destruct (comp w) as [err w'].
  set (st' := recordSagaEvent _ _ _ _ _ _). specialize (IH (Datatypes.S n) st' w').
  destruct (compensate_steps env s steps (Datatypes.S n) st' w') as [[[n' st2] w2] calls].
  simpl in *. by rewrite IH.
Qed.

Lemma compensated_complete before step now l :
  compensated_names (rev ((before ++ [complete_step step now]) ++ l)) =
  compensated_names (rev (before ++ step :: l)).
Proof.
  rewrite !rev_app_distr. change (rev (step :: l)) with (rev l ++ [step]).
  unfold compensated_names. rewrite !omap_app, <- app_assoc. done.
Qed.

Lemma coordinator_loop_spec env s before after n st w now :
  one_event (sagaID s) st →
  let '(err, s', st', _, calls) := coordinator_loop env s before after n st w now in
  one_event (sagaID s) st' ∧
  match err with
  | None => sagaState s' = "completed" ∧ calls = []
  | Some _ => sagaState s' = "compensated" ∧
      ∃ done failed rest, after = done ++ failed :: rest ∧
        calls = compensated_names (rev (before ++ done ++ [failed]))
  end.
Proof.
  revert s before n st w. induction after as [|step rest IH]; intros s before n st w Hst; simpl; [done|].
  destruct (stepExecute step w) as [[e|] w'].
  - set (s' := with_progress s _ _ _ _ _).
    pose proof (compensate_steps_one env s' (rev (before ++ [step])) n st w' Hst) as H1.
    pose proof (compensate_steps_calls env s' (rev (before ++ [step])) n st w') as H2.
    destruct (compensate_steps _ _ _ _ _ _) as [[[n' st'] w''] calls]. simpl in *.
    split_and!; [done..|]. exists [], step, rest. by subst.
  - set (s' := with_progress s _ _ _ _ _). set (st' := recordSagaEvent _ _ _ _ _ _).
    assert (one_event (sagaID s') st') as Hst' by (by apply recordSagaEvent_one).
    specialize (IH s' (before ++ [complete_step step now]) (Datatypes.S n) st' w' Hst').
    destruct (coordinator_loop _ _ _ _ _ _ _ _) as [[[[err s2] st2] w2] calls].
    destruct IH as [H1 H2]. split; [done|]. destruct err; [|done].
    destruct H2 as (? & ds & failed & r' & -> & ->). split; [done|].
    exists (step :: ds), failed, r'. split; [done|]. apply compensated_complete.
Qed.
End Coordinator.
Arguments SagaStep : clear implicits.
Arguments Saga : clear implicits.

(** The coordinator's outcome: when every step succeeds the saga is
    completed and nothing is compensated; when one fails, the compensations of
    the completed steps and of the failing step itself are called, last step
    first, and the saga ends compensated with an error.  Every progress event
    is recorded at version 1, so whatever the saga's length at most one of
    its events is stored. *)
Lemma coordinator_outcome {St} `{EventStore St} {W} env (s : Saga W) (st : St) (w : W) t1 t2 :
  es_wf st → es_Load st (sagaID s) = [] →
  let '(err, s', st', _, calls) := Coordinator_Execute env s st w t1 t2 in
  length (es_Load st' (sagaID s)) ≤ 1 ∧
  match err with
  | None => sagaState s' = "completed" ∧ calls = []
  | Some _ => sagaState s' = "compensated" ∧
      ∃ done failed rest, sagaSteps s = done ++ failed :: rest ∧
        calls = compensated_names (rev (done ++ [failed]))
  end.
Proof.
  intros Hwf Hl. unfold Coordinator_Execute. set (s0 := Build_Saga _ _ _ _ _ _ _).
  pose proof (coordinator_loop_spec env s0 [] (sagaSteps s) 0 st w t2) as Hspec.
  destruct (coordinator_loop _ _ _ _ _ _ _ _) as [[[[err s'] st'] w'] calls].
  destruct Hspec as [[_ H1] H2]; [split; [done|simpl; rewrite Hl; simpl; lia]|]. by split.
Qed.

Definition demo_coord_env : CoordEnv :=
  {| coSave := λ n, demo_env; coUUID := λ n, "u" +:+ pretty n; coNow := λ _, 0%Z |}.
Definition demo_step (name : string) (ok : bool) : SagaStep unit :=
  {| stepName := name; stepExecute := λ w, (if ok then None else Some "boom", w);
     stepCompensate := Some (λ w, (None, w)); stepCompleted := false; stepCompletedAt := None |}.
Definition demo_es_saga : Saga unit :=
  {| sagaID := "s1"; sagaState := ""; sagaStartedAt := 0; sagaCompletedAt := None;
     sagaSteps := [demo_step "a" true; demo_step "b" true; demo_step "c" false];
     sagaCurrentStep := 0; sagaCompensateFrom := 0 |}.

Lemma coordinator_outcome_witness :
  let '(_, _, st', _, calls) :=
    Coordinator_Execute demo_coord_env demo_es_saga (NewGormEventStore 0) () 1 2 in
  length (es_Load st' "s1") ≤ 1 ∧ calls = ["c"; "b"; "a"].
Proof.
  pose proof (coordinator_outcome demo_coord_env demo_es_saga (NewGormEventStore 0) () 1 2) as H.
  destruct (Coordinator_Execute _ _ _ _ _ _) as [[[[err s'] st'] w'] calls] eqn:E.
  split; [apply H; [by intros id|reflexivity]|].
  apply (f_equal snd) in E. vm_compute in E. by rewrite <- E.
Defined.
