(* ===== verification/RateLimit.v ===== *)
(** pkg/ratelimit/ratelimit.go: the in-memory login limiter, the Redis limiter
    with its tiers, and the load-dependent limiter. *)

From S2P Require Import Prelude GoValue.
From stdpp Require Import sorting.

(** Durations and times in nanoseconds. *)
Definition second : Z := 1000000000.
Definition minute : Z := 60 * second.
Definition hour : Z := 60 * minute.

(** ** In-memory limiter *)

Record attemptInfo := {
  aiCount : Z;
  aiFirstTime : Z;
  aiBlocked : bool;
  aiBlockTime : Z
}.

Record InMemoryRateLimiter := {
  imAttempts : gmap string attemptInfo;
  imMaxRetries : Z;
  imWindow : Z
}.

Definition NewInMemoryRateLimiter (maxRetries window : Z) : InMemoryRateLimiter :=
  {| imAttempts := ∅; imMaxRetries := maxRetries; imWindow := window |}.

Definition with_attempts (l : InMemoryRateLimiter) (m : gmap string attemptInfo) :
    InMemoryRateLimiter :=
  {| imAttempts := m; imMaxRetries := imMaxRetries l; imWindow := imWindow l |}.

(** The decision on one key's record. *)
Definition allow_info (maxRetries window now : Z) (info : option attemptInfo) :
    bool * attemptInfo :=
  match info with
  | None => (true, {| aiCount := 1; aiFirstTime := now; aiBlocked := false; aiBlockTime := 0 |})
  | Some info =>
      if aiBlocked info then
        if bool_decide (15 * minute < now - aiBlockTime info)%Z then
          (true, {| aiCount := 1; aiFirstTime := now; aiBlocked := false;
                    aiBlockTime := aiBlockTime info |})
        else (false, info)
      else if bool_decide (window < now - aiFirstTime info)%Z then
        (true, {| aiCount := 1; aiFirstTime := now; aiBlocked := false;
                  aiBlockTime := aiBlockTime info |})
      else
        let count := (aiCount info + 1)%Z in
        if bool_decide (maxRetries < count)%Z then
          (false, {| aiCount := count; aiFirstTime := aiFirstTime info; aiBlocked := true;
                     aiBlockTime := now |})
        else (true, {| aiCount := count; aiFirstTime := aiFirstTime info; aiBlocked := false;
                       aiBlockTime := aiBlockTime info |})
  end.

Definition InMemory_Allow (l : InMemoryRateLimiter) (key : string) (now : Z) :
    bool * InMemoryRateLimiter :=
  let '(b, info) := allow_info (imMaxRetries l) (imWindow l) now (imAttempts l !! key) in
  (b, with_attempts l (<[key := info]> (imAttempts l))).

Definition InMemory_Reset (l : InMemoryRateLimiter) (key : string) : InMemoryRateLimiter :=
  with_attempts l (delete key (imAttempts l)).

(** One tick of [cleanup]: entries first seen more than an hour ago go. *)
Definition cleanup_tick (l : InMemoryRateLimiter) (now : Z) : InMemoryRateLimiter :=
  with_attempts l (filter (λ kv, ¬ (hour < now - aiFirstTime kv.2)%Z) (imAttempts l)).

(** [LoginRateLimitMiddleware]: [status] is what the handler answered. *)
Definition LoginRateLimitMiddleware (l : InMemoryRateLimiter) (clientIP : string) (now : Z)
    (status : Z) : Z * InMemoryRateLimiter :=
  let '(allowed, l') := InMemory_Allow l clientIP now in
  if negb allowed then (429%Z, l')
  else (status, if bool_decide (status = 200%Z) then InMemory_Reset l' clientIP else l').

(** *** Runs on one key *)

Fixpoint answers (maxRetries window : Z) (info : option attemptInfo) (ts : list Z) : list bool :=
  match ts with
  | [] => []
  | t :: ts' =>
      let '(b, info') := allow_info maxRetries window t info in
      b :: answers maxRetries window (Some info') ts'
  end.

(** The answers the limiter gives to a sequence of attempts on [key]. *)
Fixpoint limiter_answers (l : InMemoryRateLimiter) (key : string) (ts : list Z) : list bool :=
  match ts with
  | [] => []
  | t :: ts' => let '(b, l') := InMemory_Allow l key t in b :: limiter_answers l' key ts'
  end.

Lemma limiter_answers_info l key ts :
  limiter_answers l key ts = answers (imMaxRetries l) (imWindow l) (imAttempts l !! key) ts.
Proof.
  revert l. induction ts as [|t ts IH]; intros l; simpl; [done|].
  unfold InMemory_Allow. destruct (allow_info _ _ _ _) as [b info]. rewrite IH. simpl.
  by rewrite lookup_insert_eq.
Qed.

(** Times in order, within [d] of the first. *)
Definition burst (t0 d : Z) (ts : list Z) : Prop := ∀ t, t ∈ ts → (t0 ≤ t ≤ t0 + d)%Z.

Lemma answers_blocked maxRetries window info ts :
  aiBlocked info = true → burst (aiBlockTime info) (15 * minute) ts →
  answers maxRetries window (Some info) ts = replicate (length ts) false.
Proof.
  intros Hb. induction ts as [|t ts IH]; intros Ht; simpl; [done|]. rewrite Hb.
  assert (t ∈ t :: ts) as Hin by left. specialize (Ht t Hin) as Ht0.
  rewrite bool_decide_eq_false_2 by lia. simpl. f_equal. apply IH. intros t' Hin'. apply Ht. by right.
Qed.

Lemma answers_counting maxRetries window info ts t0 :
  aiBlocked info = false → aiFirstTime info = t0 → (1 ≤ aiCount info)%Z →
  (aiCount info ≤ Z.max 1 maxRetries)%Z →
  StronglySorted Z.le ts → burst t0 (Z.min window (15 * minute)) ts →
  answers maxRetries window (Some info) ts =
    replicate (length ts `min` Z.to_nat (maxRetries - aiCount info)) true ++
    replicate (length ts - Z.to_nat (maxRetries - aiCount info)) false.
Proof.
  intros Hb Hf H1 Hc Hs Ht. revert info Hb Hf H1 Hc.
  induction Hs as [|t ts Hs IH Hle]; intros info Hb Hf H1 Hc; [done|].
  assert (t0 ≤ t ≤ t0 + Z.min window (15 * minute))%Z as Ht0 by (apply Ht; left).
  assert (Ht' : burst t0 (Z.min window (15 * minute)) ts) by (intros x Hx; apply Ht; by right).
  cbn [answers allow_info]. rewrite Hb, Hf, bool_decide_eq_false_2 by lia.
  case_bool_decide as Hm.
  - replace (Z.to_nat (maxRetries - aiCount info)) with 0 by lia. rewrite Nat.min_0_r. simpl. f_equal.
    apply answers_blocked; [done|]. simpl. intros x Hx. specialize (Ht' x Hx).
    rewrite Forall_forall in Hle. specialize (Hle x Hx). lia.
  - rewrite IH by (simpl; done || lia). simpl length.
    replace (Z.to_nat (maxRetries - aiCount info))
      with (S (Z.to_nat (maxRetries - (aiCount info + 1)))) by lia. done.
Qed.

(** From a fresh key, of any number of attempts within one window (and
    within the fifteen minutes of a block), the first [maxRetries] are
    allowed and all others refused; with a limit below one, the first still
    is allowed. *)
Lemma login_limit_exact l key t ts :
  imAttempts l !! key = None → StronglySorted Z.le (t :: ts) →
  burst t (Z.min (imWindow l) (15 * minute)) ts →
  let k := Z.to_nat (Z.max 1 (imMaxRetries l)) in
  limiter_answers l key (t :: ts) =
    replicate (S (length ts) `min` k) true ++ replicate (S (length ts) - k) false.
Proof.
  intros Hn Hs Hb k. apply StronglySorted_inv in Hs as [Hs _].
  rewrite limiter_answers_info, Hn. cbn [answers allow_info].
  rewrite (answers_counting _ _ _ _ t) by (simpl; done || lia). simpl aiCount.
  replace k with (S (Z.to_nat (imMaxRetries l - 1))) by lia. done.
Qed.

Lemma login_limit_exact_witness :
  limiter_answers (NewInMemoryRateLimiter 2 minute) "ip" [0; 1; 2; 3]%Z = [true; true; false; false].
Proof.
  rewrite (login_limit_exact (NewInMemoryRateLimiter 2 minute) "ip" 0 [1; 2; 3]%Z).
  - reflexivity.
  - reflexivity.
  - repeat constructor; lia.
  - intros t Ht. set_unfold. unfold minute, second. simpl. lia.
Defined.

(** *** Clean-up *)

(** A block starts within the window of its first attempt. *)
Definition info_wf (window : Z) (info : attemptInfo) : Prop :=
  aiBlocked info = true → (aiBlockTime info ≤ aiFirstTime info + window)%Z.

Lemma allow_info_wf maxRetries window now info :
  (∀ i, info = Some i → info_wf window i) → info_wf window (allow_info maxRetries window now info).2.
Proof.
  intros H. unfold info_wf in *. destruct info as [i|]; simpl; [|done]. specialize (H i eq_refl).
  destruct (aiBlocked i) eqn:Hb.
  - case_bool_decide; simpl; [done|]. intros _. by apply H.
  - case_bool_decide as Hw; simpl; [done|]. case_bool_decide; simpl; [lia|done].
Qed.

Inductive im_step : InMemoryRateLimiter → InMemoryRateLimiter → Prop :=
| im_allow l key now : im_step l (InMemory_Allow l key now).2
| im_reset l key : im_step l (InMemory_Reset l key)
| im_cleanup l now : im_step l (cleanup_tick l now).

Definition im_inv (l : InMemoryRateLimiter) : Prop :=
  map_Forall (λ _, info_wf (imWindow l)) (imAttempts l).

Lemma im_inv_step l l' : im_step l l' → im_inv l → im_inv l' ∧ imWindow l' = imWindow l ∧ imMaxRetries l' = imMaxRetries l.
Proof.
  unfold im_inv. intros [l0 key now|l0 key|l0 now] H; simpl.
  - unfold InMemory_Allow. pose proof (allow_info_wf (imMaxRetries l0) (imWindow l0) now (imAttempts l0 !! key)) as Hw.
    destruct (allow_info _ _ _ _) as [b info]. simpl in *. split; [|done].
    apply map_Forall_insert_2; [|done]. apply Hw. intros i Hi. exact (map_Forall_lookup_1 _ _ _ _ H Hi).
  - split; [|done]. by apply map_Forall_delete.
  - split; [|done]. intros k i [Hi _]%map_lookup_filter_Some. by apply (H k).
Qed.

(** Records that give the same answers: equal but for the time of a past block. *)
Definition info_equiv (i1 i2 : attemptInfo) : Prop :=
  aiCount i1 = aiCount i2 ∧ aiFirstTime i1 = aiFirstTime i2 ∧ aiBlocked i1 = aiBlocked i2 ∧
  (aiBlocked i1 = true → aiBlockTime i1 = aiBlockTime i2).

Lemma answers_equiv maxRetries window i1 i2 ts :
  info_equiv i1 i2 → answers maxRetries window (Some i1) ts = answers maxRetries window (Some i2) ts.
Proof.
  revert i1 i2. induction ts as [|t ts IH]; intros i1 i2 (H1 & H2 & H3 & H4); [done|].
  cbn [answers allow_info]. rewrite <- H1, <- H2, <- H3. destruct (aiBlocked i1) eqn:Hb.
  - rewrite <- H4 by done. case_bool_decide; f_equal; apply IH; split_and!; simpl; auto; congruence.
  - repeat case_bool_decide; f_equal; apply IH; split_and!; simpl; auto; congruence.
Qed.

(** With a window of at most forty-five minutes, dropping old entries is
    invisible: for every reachable limiter, every key and every later sequence
    of attempts, the answers after a clean-up are those without it.  In
    particular no block is lifted early. *)
Lemma cleanup_invisible maxRetries window l key now ts :
  (0 ≤ window ≤ 45 * minute)%Z →
  rtc im_step (NewInMemoryRateLimiter maxRetries window) l →
  (∀ t, t ∈ ts → (now ≤ t)%Z) →
  limiter_answers (cleanup_tick l now) key ts = limiter_answers l key ts.
Proof.
  intros Hw Hr Hts.
  assert (im_inv l ∧ imWindow l = window) as [Hinv Hwin].
  { apply (rtc_preserve _ (λ l, im_inv l ∧ imWindow l = window)) in Hr; [done| |].
    - intros x y Hxy [Hx1 Hx2]. destruct (im_inv_step x y Hxy Hx1) as (? & ? & _). split; [done|congruence].
    - split; [apply map_Forall_empty|done]. }
  rewrite !limiter_answers_info. simpl. rewrite map_lookup_filter.
  destruct (imAttempts l !! key) as [info|] eqn:E; [|done]. simpl.
  case_guard as Hold; [done|]. simpl.
  destruct ts as [|t ts]; [done|]. assert (now ≤ t)%Z by (apply Hts; left).
  assert (hour < now - aiFirstTime info)%Z as Hh by (simpl in Hold; lia).
  unfold hour in Hh. pose proof (map_Forall_lookup_1 _ _ _ _ Hinv E) as Hwf. unfold info_wf in Hwf.
  rewrite Hwin in *. assert (0 < minute)%Z by (unfold minute, second; lia).
  cbn [answers allow_info]. destruct (aiBlocked info) eqn:Hb.
  - specialize (Hwf eq_refl). rewrite bool_decide_eq_true_2 by lia. f_equal.
    by apply answers_equiv.
  - rewrite bool_decide_eq_true_2 by lia. f_equal. by apply answers_equiv.
Qed.

Lemma cleanup_invisible_witness :
  let l := (InMemory_Allow (NewInMemoryRateLimiter 1 minute) "ip" 0).2 in
  limiter_answers (cleanup_tick l (2 * hour)) "ip" [2 * hour; 2 * hour]%Z = [true; false].
Proof.
  intros l. rewrite (cleanup_invisible 1 minute l "ip" (2 * hour) [2 * hour; 2 * hour]%Z).
  - vm_compute. reflexivity.
  - unfold minute, second. lia.
  - apply rtc_once, im_allow.
  - intros t Ht. set_unfold. lia.
Defined.

(** ** Redis limiter *)

(** The sorted sets, by key: member to score (seconds), and the expiry of the
    key if one was set.  A key that expires holds only members the next
    request would remove, so expiry is recorded and not acted on. *)
Record RedisZ := {
  rzSets : gmap string (gmap string Z);
  rzExpiry : gmap string Z
}.

Record RedisRateLimiter := {
  rlLimit : Z;
  rlWindow : Z                        (* nanoseconds *)
}.

Definition NewRedisRateLimiter (limit window : Z) : RedisRateLimiter :=
  {| rlLimit := limit; rlWindow := window |}.

(** [int64(r.window.Seconds())] for a whole number of seconds. *)
Definition window_seconds (r : RedisRateLimiter) : Z := Z.quot (rlWindow r) second.

Definition zset (db : RedisZ) (key : string) : gmap string Z := default ∅ (rzSets db !! key).

(** [Allow] at Unix second [now]; [pipeErr] and [addErr] are Redis' errors. *)
Definition Redis_Allow (r : RedisRateLimiter) (db : RedisZ) (key : string) (now : Z)
    (pipeErr addErr : option string) : result bool * RedisZ :=
  let windowStart := (now - window_seconds r)%Z in
  match pipeErr with
  | Some e => (Err ("failed to execute pipeline: " +:+ e), db)
  | None =>
      let live := filter (λ ms, ¬ (0 ≤ ms.2 ≤ windowStart)%Z) (zset db key) in
      let db1 := {| rzSets := <[key := live]> (rzSets db); rzExpiry := rzExpiry db |} in
      let count := Z.of_nat (size live) in
      if bool_decide (rlLimit r ≤ count)%Z then (Ok false, db1)
      else
        let member := pretty now +:+ ":" +:+ key in
        match addErr with
        | Some e => (Err ("failed to add entry: " +:+ e), db1)
        | None =>
            (Ok true, {| rzSets := <[key := <[member := now]> live]> (rzSets db);
                         rzExpiry := <[key := (now * second + rlWindow r)%Z]> (rzExpiry db) |})
        end
  end.

(** Requests at the given seconds, without Redis errors. *)
Fixpoint redis_answers (r : RedisRateLimiter) (db : RedisZ) (key : string) (ts : list Z) :
    list (result bool) * RedisZ :=
  match ts with
  | [] => ([], db)
  | t :: ts' =>
      let '(b, db') := Redis_Allow r db key t None None in
      let '(bs, db'') := redis_answers r db' key ts' in (b :: bs, db'')
  end.

Lemma map_size_insert_le (m : gmap string Z) k v : size (<[k := v]> m) ≤ S (size m).
Proof. rewrite map_size_insert. destruct (m !! k); simpl; lia. Qed.

Lemma Redis_Allow_zset r db key now b db' :
  Redis_Allow r db key now None None = (Ok b, db') →
  let live := filter (λ ms, ¬ (0 ≤ ms.2 ≤ now - window_seconds r)%Z) (zset db key) in
  (b = true ↔ (Z.of_nat (size live) < rlLimit r)%Z) ∧
  zset db' key = if b then <[pretty now +:+ ":" +:+ key := now]> live else live.
Proof.
  unfold Redis_Allow. case_bool_decide as Hc; intros [= <- <-]; unfold zset at 2; simpl;
    rewrite lookup_insert_eq; simpl; (split; [|done]); split; [done|lia|lia|done].
Qed.

(** The number of members a key's sorted set holds after an allowed
    request never exceeds the limit, but a member stands for a whole second:
    when the live members leave room for two, any number of requests within
    one second is allowed. *)
Lemma redis_limiter_counts_seconds r db key now :
  (∀ b db', Redis_Allow r db key now None None = (Ok b, db') → b = true →
     (Z.of_nat (size (zset db' key)) ≤ rlLimit r)%Z) ∧
  ((0 < window_seconds r)%Z → (0 ≤ now)%Z →
   (Z.of_nat (size (filter (λ ms, ¬ (0 ≤ ms.2 ≤ now - window_seconds r)%Z) (zset db key))) + 1
      < rlLimit r)%Z →
   ∀ n, (redis_answers r db key (replicate n now)).1 = replicate n (Ok true)).
Proof.
  split.
  - intros b db' HA ->. apply Redis_Allow_zset in HA as [Hlt ->].
    pose proof (map_size_insert_le (filter (λ ms, ¬ (0 ≤ ms.2 ≤ now - window_seconds r)%Z) (zset db key))
      (pretty now +:+ ":" +:+ key) now). destruct Hlt as [Hlt _]. specialize (Hlt eq_refl). lia.
  - intros Hw Hnow Hroom n.
    set (live db := filter (λ ms : string * Z, ¬ (0 ≤ ms.2 ≤ now - window_seconds r)%Z) (zset db key)) in *.
    cut (∀ db, (Z.of_nat (size (live db)) + 1 < rlLimit r)%Z ∨
               ((Z.of_nat (size (live db)) < rlLimit r)%Z ∧
                live db !! (pretty now +:+ ":" +:+ key) = Some now) →
         (redis_answers r db key (replicate n now)).1 = replicate n (Ok true)); [by intros ->; auto|].
    clear db Hroom. induction n as [|n IH]; intros db Hdb; [done|]. cbn [replicate redis_answers].
    destruct (Redis_Allow r db key now None None) as [[b|e] db'] eqn:HA.
    2:{ unfold Redis_Allow in HA. by case_bool_decide. }
    destruct (Redis_Allow_zset _ _ _ _ _ _ HA) as [Hb Hz]. fold (live db) in Hb, Hz.
    assert (b = true) as -> by (apply Hb; destruct Hdb as [?|[? _]]; lia).
    assert (Hlive : live db' = <[pretty now +:+ ":" +:+ key := now]> (live db)).
    { unfold live at 1. rewrite Hz, map_filter_insert_True by (simpl; lia).
      f_equal. unfold live. by rewrite map_filter_filter_l. }
    specialize (IH db'). destruct (redis_answers r db' key (replicate n now)) as [bs db''].
    simpl in *. f_equal. apply IH. right. rewrite Hlive. split; [|apply lookup_insert_eq]. destruct Hdb as [Hlt|[Hlt Hin]].
    + pose proof (map_size_insert_le (live db) (pretty now +:+ ":" +:+ key) now). lia.
    + by rewrite insert_id.
Qed.

Lemma redis_limiter_counts_seconds_witness :
  (redis_answers (NewRedisRateLimiter 2 minute) {| rzSets := ∅; rzExpiry := ∅ |} "k"
     (replicate 50 7%Z)).1 = replicate 50 (Ok true).
Proof.
  apply (redis_limiter_counts_seconds (NewRedisRateLimiter 2 minute)
    {| rzSets := ∅; rzExpiry := ∅ |} "k" 7); vm_compute; congruence.
Defined.

(** *** Tiers *)

Record RateLimitTier := { tierLimit : Z; tierWindow : Z; tierBurst : Z }.

Definition NewTieredRateLimiter : gmap string RateLimitTier :=
  list_to_map [
    ("free", {| tierLimit := 100; tierWindow := hour; tierBurst := 10 |});
    ("basic", {| tierLimit := 1000; tierWindow := hour; tierBurst := 50 |});
    ("premium", {| tierLimit := 10000; tierWindow := hour; tierBurst := 200 |});
    ("enterprise", {| tierLimit := 100000; tierWindow := hour; tierBurst := 1000 |})].

(** [GetLimiter]: [None] is the zero tier of a table without "free". *)
Definition GetLimiter (tiers : gmap string RateLimitTier) (tier : string) : RedisRateLimiter :=
  let config := match tiers !! tier with
                | Some c => c
                | None => default {| tierLimit := 0; tierWindow := 0; tierBurst := 0 |} (tiers !! "free")
                end in
  NewRedisRateLimiter (tierLimit config) (tierWindow config).

(** ** Load-dependent limiter *)

Definition f64_ratio (n d : Z) : spec_float := f64_div (f64_of_Z n) (f64_of_Z d).

(** The ratio [Allow] sets from the load. *)
Definition adjust_ratio (load : spec_float) : spec_float :=
  if f64_ltb (f64_ratio 8 10) load then f64_ratio 1 2
  else if f64_ltb (f64_ratio 6 10) load then f64_ratio 3 4 else f64_of_Z 1.

(** [Dynamic_Allow]: the sampling on the clock's nanoseconds; [None] asks the
    base limiter. *)
Definition dynamic_sample (load : spec_float) (nanos : Z) : option bool :=
  let ratio := adjust_ratio load in
  if f64_ltb ratio (f64_of_Z 1)
     && bool_decide (f64_trunc (f64_mul ratio (f64_of_Z 100)) < Z.rem nanos 100)%Z
  then Some false else None.

(** The share of clock values the load-dependent limiter passes on: every
    one below a load of 0.6, 76 in a hundred up to 0.8 and 51 in a hundred
    above, one more than the reductions by 25% and 50% it is meant to make. *)
Lemma dynamic_limiter_share load :
  length (filter (λ n, dynamic_sample load (Z.of_nat n) = None) (seq 0 100)) =
  if f64_ltb (f64_ratio 8 10) load then 51
  else if f64_ltb (f64_ratio 6 10) load then 76 else 100.
Proof.
  unfold dynamic_sample, adjust_ratio.
  destruct (f64_ltb (f64_ratio 8 10) load); [vm_compute; reflexivity|].
  destruct (f64_ltb (f64_ratio 6 10) load); vm_compute; reflexivity.
Qed.
