(* ===== verification/Partition.v ===== *)
(** internal/executor/app/distributed/partition.go: partitioning of work items
    over workers by consistent hashing, by ranges and by hash, and the
    distributor that uses a strategy. *)

From S2P Require Import Prelude GoValue.
From Stdlib Require Import Ascii.

(** ** Data *)

Definition WorkerStatusActive := "active".

(** [WorkerNode] of coordinator.go. *)
Record WorkerNode := {
  wnID : string;
  wnAddress : string;
  wnCapacity : Z;
  wnCurrentLoad : Z;
  wnTags : list string;
  wnCapabilities : list string;
  wnStatus : string;
  wnLastHeartbeat : Z;
  wnRegisteredAt : Z;
  wnMetadata : gmap string string;
  wnExecutionsCompleted : Z;
  wnExecutionsFailed : Z;
  wnAverageExecutionTime : Z
}.

Record Partition := {
  ptID : string;
  ptWorkerID : string;
  ptWorkItems : list string;
  ptCreatedAt : Z;
  ptLastUpdatedAt : Z
}.

(** ** The strategy interface *)

(** Items assigned per worker, and all of them together. *)
Abbreviation assignment := (gmap string (list string)).
Definition assigned (a : assignment) : list string := concat (map_to_list a).*2.

(** The loop that turns assignments into partitions; [entries] is the order of
    the assignment map and each entry comes with the clock readings of its
    iteration: the one in the ID, then the two timestamps. *)
Definition create_partitions (partitions : gmap string Partition)
    (entries : list (string * list string * (Z * Z * Z))) : gmap string Partition :=
  foldl (λ ps e,
    let '(workerID, items, (nanos, created, updated)) := e in
    let id := "partition-" +:+ pretty nanos in
    <[id := {| ptID := id; ptWorkerID := workerID; ptWorkItems := items;
               ptCreatedAt := created; ptLastUpdatedAt := updated |}]> ps) partitions entries.

(** What the three strategies' [Rebalance] share: all items of the current
    partitions, in the order [collected] the map is ranged, are partitioned
    anew and the old partitions are dropped. *)
Definition redistribute (partition : list string → list WorkerNode → assignment)
    (collected : list (string * Partition)) (workers : list WorkerNode)
    (order : assignment → list (string * list string * (Z * Z * Z))) : gmap string Partition :=
  let allItems := concat (ptWorkItems <$> collected.*2) in
  create_partitions ∅ (order (partition allItems workers)).

(** What a [PartitionStrategy] promises: every item goes to exactly one of the
    workers offered, and rebalancing partitions the current items anew. *)
Record PartitionStrategy := {
  psPartition : list string → list WorkerNode → assignment;
  psRebalance : list (string * Partition) → list WorkerNode →
    (assignment → list (string * list string * (Z * Z * Z))) → gmap string Partition;
  psValid : list WorkerNode → Prop;
  ps_complete items workers :
    psValid workers → assigned (psPartition items workers) ≡ₚ items;
  ps_workers items workers w :
    psValid workers → is_Some (psPartition items workers !! w) → w ∈ wnID <$> workers;
  ps_rebalance collected workers order :
    psRebalance collected workers order = redistribute psPartition collected workers order
}.

Lemma assigned_append_at a k x : assigned (append_at a k x) ≡ₚ x :: assigned a.
Proof.
  unfold assigned, append_at, get_slice. destruct (a !! k) as [l|] eqn:E; simpl.
  - rewrite <- (insert_delete_id a k l) at 2 by done. rewrite <- insert_delete_eq.
    rewrite !map_to_list_insert by apply lookup_delete_eq. simpl.
    rewrite <- app_assoc. symmetry. apply Permutation_middle.
  - by rewrite map_to_list_insert.
Qed.

Lemma append_at_is_Some {A} (m : gmap string (list A)) k x w :
  is_Some (append_at m k x !! w) → w = k ∨ is_Some (m !! w).
Proof. unfold append_at. rewrite lookup_insert_is_Some. naive_solver. Qed.

(** ** FNV-1a *)

Definition fnv_step (h b : Z) : Z := wrapu32 (Z.lxor h b * 16777619).
Definition hash (s : string) : Z :=
  foldl fnv_step 2166136261%Z (Z.of_N ∘ N_of_ascii <$> String.list_ascii_of_string s).

Lemma hash_range s : (0 ≤ hash s < 2 ^ 32)%Z.
Proof.
  unfold hash. assert (0 ≤ 2166136261 < 2 ^ 32)%Z as H0 by lia. revert H0.
  generalize 2166136261%Z as h. induction (Z.of_N ∘ N_of_ascii <$> _) as [|b bs IH]; intros h Hh; [done|].
  apply IH, wrapu32_range.
Qed.

(** ** Consistent hashing *)

Abbreviation ring := (gmap Z string).

Definition add_replica (worker : WorkerNode) (r : ring) (i : nat) : ring :=
  <[hash (wnID worker +:+ ":" +:+ pretty i) := wnID worker]> r.
Definition add_worker (replicas : nat) (r : ring) (worker : WorkerNode) : ring :=
  foldl (add_replica worker) r (seq 0 replicas).
Definition buildRing (replicas : nat) (workers : list WorkerNode) : ring :=
  foldl (add_worker replicas) ∅ workers.

Definition MaxUint32 : Z := 2 ^ 32 - 1.

(** The search for the nearest key at or after [h]; 0 when none was taken. *)
Definition search_step (h : Z) (acc : Z * Z) (key : Z) : Z * Z :=
  let '(selected, minDiff) := acc in
  if bool_decide (h ≤ key)%Z then
    let diff := (key - h)%Z in
    if bool_decide (diff < minDiff)%Z then (key, diff) else acc
  else acc.

(** [getWorkerForItem]; [keys] is the order in which the ring map is ranged. *)
Definition getWorkerForItem (r : ring) (keys : list Z) (item : string) : string :=
  if bool_decide (size r = 0) then ""
  else
    let h := hash item in
    let selected := (foldl (search_step h) (0%Z, MaxUint32) keys).1 in
    let selected :=
      match keys with
      | k0 :: _ =>
          if bool_decide (selected = 0%Z)
          then foldl (λ s k, if bool_decide (k < s)%Z then k else s) k0 keys else selected
      | [] => selected
      end in
    default "" (r !! selected).

(** An order of the keys of the ring. *)
Definition ring_order (r : ring) (keys : list Z) : Prop :=
  NoDup keys ∧ ∀ k, k ∈ keys ↔ is_Some (r !! k).

Definition ring_wf (r : ring) : Prop := ∀ k, is_Some (r !! k) → (0 ≤ k ≤ MaxUint32)%Z.

(** The key responsible for hash [h]: the first at or after it, or the first
    of all when none follows. *)
Definition successor (r : ring) (h k : Z) : Prop :=
  is_Some (r !! k) ∧
  ((h ≤ k ∧ ∀ k', is_Some (r !! k') → h ≤ k' → k ≤ k') ∨
   ((∀ k', is_Some (r !! k') → k' < h) ∧ ∀ k', is_Some (r !! k') → k ≤ k'))%Z.

Lemma successor_unique r h k1 k2 : successor r h k1 → successor r h k2 → k1 = k2.
Proof.
  intros [H1 [[Ha Hb]|[Ha Hb]]] [H2 [[Hc Hd]|[Hc Hd]]].
  - specialize (Hb k2 H2 Hc). specialize (Hd k1 H1 Ha). lia.
  - specialize (Hc k1 H1). lia.
  - specialize (Ha k2 H2). lia.
  - specialize (Hb k2 H2). specialize (Hd k1 H1). lia.
Qed.

(** The search loop keeps the smallest difference seen. *)
Lemma search_spec h keys sel d :
  (∀ k, k ∈ keys → (0 ≤ k ≤ MaxUint32)%Z) → (0 ≤ h)%Z →
  let '(sel', d') := foldl (search_step h) (sel, d) keys in
  (d' ≤ d)%Z ∧ (∀ k, k ∈ keys → (h ≤ k)%Z → (d' ≤ k - h)%Z) ∧
  ((sel' = sel ∧ d' = d) ∨ (sel' ∈ keys ∧ (h ≤ sel')%Z ∧ d' = (sel' - h)%Z)).
Proof.
  revert sel d. induction keys as [|k keys IH]; intros sel d Hk Hh; simpl.
  { split_and!; [done|by intros k Hn%elem_of_nil|by left]. }
  assert (Hk' : ∀ x, x ∈ keys → (0 ≤ x ≤ MaxUint32)%Z) by (intros x Hx; apply Hk; by right).
  case_bool_decide as Hle; [case_bool_decide as Hlt|];
    [specialize (IH k (k - h)%Z Hk' Hh)|specialize (IH sel d Hk' Hh)..];
    destruct (foldl _ _ keys) as [sel' d']; destruct IH as (H1 & H2 & H3).
  - split_and!; [lia| |].
    + intros x [->|Hx]%elem_of_cons Hxh; [done|by apply H2].
    + right. destruct H3 as [[-> ->]|(? & ? & ->)]; (split_and!; [set_solver|done|done]).
  - split_and!; [done| |].
    + intros x [->|Hx]%elem_of_cons Hxh; [lia|by apply H2].
    + destruct H3 as [[-> ->]|(? & ? & ->)]; [by left|right; split_and!; [set_solver|done..]].
  - split_and!; [done| |].
    + intros x [->|Hx]%elem_of_cons Hxh; [lia|by apply H2].
    + destruct H3 as [[-> ->]|(? & ? & ->)]; [by left|right; split_and!; [set_solver|done..]].
Qed.

Lemma min_key_spec keys k0 :
  let m := foldl (λ s k, if bool_decide (k < s)%Z then k else s) k0 keys in
  (m = k0 ∨ m ∈ keys) ∧ (m ≤ k0)%Z ∧ ∀ k, k ∈ keys → (m ≤ k)%Z.
Proof.
  revert k0. induction keys as [|k keys IH]; intros k0; simpl.
  { split_and!; [by left|done|by intros k Hn%elem_of_nil]. }
  case_bool_decide as Hlt; [destruct (IH k) as (H1 & H2 & H3)|destruct (IH k0) as (H1 & H2 & H3)];
    (split_and!; [destruct H1 as [->|?]; set_solver|lia|]);
    intros x [->|Hx]%elem_of_cons; [done|by apply H3|lia|by apply H3].
Qed.

(** The key the search settles on is the successor of the item's hash. *)
Lemma getWorkerForItem_spec r keys item :
  ring_wf r → ring_order r keys → r ≠ ∅ →
  ∃ k w, successor r (hash item) k ∧ r !! k = Some w ∧ getWorkerForItem r keys item = w.
Proof.
  intros Hwf [_ Hord] Hne. unfold getWorkerForItem.
  rewrite bool_decide_eq_false_2 by (by rewrite map_size_empty_iff).
  pose proof (hash_range item) as Hh. set (h := hash item) in *.
  assert (Hk : ∀ k, k ∈ keys → (0 ≤ k ≤ MaxUint32)%Z) by (intros k Hk; by apply Hwf, Hord).
  pose proof (search_spec h keys 0 MaxUint32 Hk ltac:(lia)) as Hs.
  destruct (foldl (search_step h) (0%Z, MaxUint32) keys) as [sel d]. simpl.
  destruct Hs as (_ & Hmin & Hsel).
  assert (∃ k, successor r h k ∧ (match keys with
    | k0 :: _ => if bool_decide (sel = 0%Z)
        then foldl (λ s k, if bool_decide (k < s)%Z then k else s) k0 keys else sel
    | [] => sel end) = k) as (k & Hsucc & ->).
  2:{ destruct (proj1 Hsucc) as [w Hw]. exists k, w. by rewrite Hw. }
  destruct keys as [|k0 keys].
  { exfalso. apply map_choose in Hne as (k & x & Hx). apply (not_elem_of_nil k), Hord. eauto. }
  eexists. split; [|reflexivity].
  pose proof (min_key_spec (k0 :: keys) k0) as (Hm1 & _ & Hm3). set (m := foldl _ _ _) in *.
  assert (m ∈ k0 :: keys) as Hm by (destruct Hm1 as [->|?]; [left|done]).
  case_bool_decide as Hz.
  - split; [by apply Hord|].
    destruct (decide (Exists (λ k', (h ≤ k')%Z) (k0 :: keys)))
      as [(k' & Hk' & Hhk')%Exists_exists|Hno].
    + left. assert (h ≤ m)%Z; [|split; [done|]; intros x Hx _; by apply Hm3, Hord].
      destruct Hsel as [[-> ->]|(Hsel & Hle & _)]; [|subst; specialize (Hk m Hm); lia].
      specialize (Hmin k' Hk' Hhk'). pose proof (Hk k' Hk'). pose proof (Hk m Hm). unfold MaxUint32 in *. lia.
    + right. split; [|intros x Hx; by apply Hm3, Hord]. intros x Hx%Hord.
      destruct (decide (x < h)%Z); [done|]. destruct Hno. apply Exists_exists. exists x. split; [done|lia].
  - destruct Hsel as [[-> _]|(Hin & Hle & ->)]; [done|]. split; [by apply Hord|]. left.
    split; [done|]. intros x Hx%Hord Hxh. specialize (Hmin x Hx Hxh). lia.
Qed.

Lemma add_worker_lookup replicas r w k :
  add_worker replicas r w !! k = Some (wnID w) ∨ add_worker replicas r w !! k = r !! k.
Proof.
  unfold add_worker. revert r. induction (seq 0 replicas) as [|i l IH]; intros r; simpl; [by right|].
  destruct (IH (add_replica w r i)) as [?| ->]; [by left|].
  unfold add_replica. rewrite lookup_insert. case_decide; auto.
Qed.

Lemma elem_of_seq_0 i n : i ∈ seq 0 n ↔ i < n.
Proof. rewrite elem_of_seq. lia. Qed.

Lemma add_worker_dom replicas r w k :
  is_Some (add_worker replicas r w !! k) ↔
  is_Some (r !! k) ∨ ∃ i, i < replicas ∧ k = hash (wnID w +:+ ":" +:+ pretty i).
Proof.
  unfold add_worker. setoid_rewrite <- elem_of_seq_0.
  revert r. induction (seq 0 replicas) as [|i l IH]; intros r; simpl.
  { split; [by left|]. intros [?|(i & Hi%elem_of_nil & _)]; done. }
  rewrite IH. unfold add_replica. rewrite lookup_insert_is_Some.
  setoid_rewrite elem_of_cons. split.
  - intros [[<-|[_ ?]]|(j & ? & ?)]; [right; exists i; auto|by left|right; exists j; auto].
  - intros [?|(j & [->|?] & Hj)]; [|by left; left|right; eauto].
    left. destruct (decide (hash (wnID w +:+ ":" +:+ pretty i) = k)); auto.
Qed.

Lemma buildRing_snoc replicas ws w :
  buildRing replicas (ws ++ [w]) = add_worker replicas (buildRing replicas ws) w.
Proof. unfold buildRing. by rewrite foldl_app. Qed.

Lemma buildRing_facts replicas ws :
  ring_wf (buildRing replicas ws) ∧
  (∀ k w, buildRing replicas ws !! k = Some w → w ∈ wnID <$> ws) ∧
  (0 < replicas → ws ≠ [] → buildRing replicas ws ≠ ∅).
Proof.
  induction ws as [|w ws (H1 & H2 & H3)] using rev_ind; [by split_and!; [intros k []|..]|].
  rewrite buildRing_snoc. split_and!.
  - intros k [?|(i & _ & ->)]%add_worker_dom; [by apply H1|].
    pose proof (hash_range (wnID w +:+ ":" +:+ pretty i)). unfold MaxUint32. lia.
  - intros k x Hx. rewrite fmap_app, elem_of_app; simpl; rewrite list_elem_of_singleton.
    destruct (add_worker_lookup replicas (buildRing replicas ws) w k) as [E|E]; rewrite E in Hx;
      [simplify_eq; by right|left; eauto].
  - intros Hr _ Hn.
    assert (is_Some (add_worker replicas (buildRing replicas ws) w !! hash (wnID w +:+ ":" +:+ pretty 0))) as [x Hx]
      by (apply add_worker_dom; right; eauto).
    by rewrite Hn in Hx.
Qed.

(** C38. For every iteration order of the ring, [getWorkerForItem] returns the
    worker owning the successor of the item's hash on the ring: the key 0 and
    the largest key, where its sentinel value and its initial difference
    could mislead the search, included. *)
Theorem getWorkerForItem_correct replicas workers keys item :
  0 < replicas → workers ≠ [] → ring_order (buildRing replicas workers) keys →
  ∃ k, successor (buildRing replicas workers) (hash item) k ∧
    buildRing replicas workers !! k = Some (getWorkerForItem (buildRing replicas workers) keys item) ∧
    getWorkerForItem (buildRing replicas workers) keys item ∈ wnID <$> workers.
Proof.
  intros Hr Hw Hord. destruct (buildRing_facts replicas workers) as (Hwf & Hown & Hne).
  destruct (getWorkerForItem_spec _ keys item Hwf Hord (Hne Hr Hw)) as (k & w & Hs & Hk & ->).
  exists k. split_and!; [done..|by eapply Hown].
Qed.

Definition demo_node_worker (id : string) : WorkerNode :=
  {| wnID := id; wnAddress := ""; wnCapacity := 10; wnCurrentLoad := 0; wnTags := [];
     wnCapabilities := []; wnStatus := WorkerStatusActive; wnLastHeartbeat := 0;
     wnRegisteredAt := 0; wnMetadata := ∅; wnExecutionsCompleted := 0; wnExecutionsFailed := 0;
     wnAverageExecutionTime := 0 |}.
Definition ring_keys (r : ring) : list Z := (map_to_list r).*1.

Lemma ring_keys_order r : ring_order r (ring_keys r).
Proof.
  split; [apply NoDup_fst_map_to_list|]. intros k. unfold ring_keys. rewrite list_elem_of_fmap. split.
  - intros ([k' v] & -> & Hin%elem_of_map_to_list). by exists v.
  - intros [v Hv]. exists (k, v). split; [done|]. by apply elem_of_map_to_list.
Qed.

Lemma getWorkerForItem_correct_witness :
  let ws := [demo_node_worker "w1"; demo_node_worker "w2"] in
  getWorkerForItem (buildRing 3 ws) (ring_keys (buildRing 3 ws)) "item" ∈ ["w1"; "w2"].
Proof.
  intros ws.
  destruct (getWorkerForItem_correct 3 ws (ring_keys (buildRing 3 ws)) "item") as (k & _ & _ & H);
    [lia|discriminate|apply ring_keys_order|exact H].
Defined.

(** C36. Consistent hashing: with at least one worker and at least one point per
    worker, a worker added behind the others in the list the ring is built from,
    whatever points of the ring its hashes collide with, moves items to that
    worker only; every other item stays where it was, whatever
    orders the two rings are ranged in. *)
Theorem adding_worker_moves_items_to_it replicas workers w keys keys' item :
  0 < replicas → workers ≠ [] →
  ring_order (buildRing replicas workers) keys →
  ring_order (buildRing replicas (workers ++ [w])) keys' →
  getWorkerForItem (buildRing replicas (workers ++ [w])) keys' item = wnID w ∨
  getWorkerForItem (buildRing replicas (workers ++ [w])) keys' item =
    getWorkerForItem (buildRing replicas workers) keys item.
Proof.
  intros Hr Hw Hord Hord'. destruct (buildRing_facts replicas workers) as (Hwf & _ & Hne).
  destruct (buildRing_facts replicas (workers ++ [w])) as (Hwf' & _ & Hne').
  destruct (getWorkerForItem_spec _ keys item Hwf Hord (Hne Hr Hw)) as (k & x & Hs & Hk & ->).
  destruct (getWorkerForItem_spec _ keys' item Hwf' Hord' (Hne' Hr ltac:(by destruct workers)))
    as (k' & x' & Hs' & Hk' & ->).
  rewrite buildRing_snoc in *. set (R := buildRing replicas workers) in *.
  destruct (add_worker_lookup replicas R w k') as [E|E]; [left; congruence|right].
  assert (Hsub : ∀ y, is_Some (R !! y) → is_Some (add_worker replicas R w !! y))
    by (intros y Hy; apply add_worker_dom; by left).
  assert (successor R (hash item) k') as Hs2.
  { destruct Hs' as [_ Hs']. split; [rewrite <- E; eauto|].
    destruct Hs' as [[Ha Hb]|[Ha Hb]]; [left|right]; (split; [|by auto]); auto. }
  assert (k' = k) as -> by (by eapply successor_unique). congruence.
Qed.

Lemma adding_worker_moves_items_to_it_witness :
  let ws := [demo_node_worker "w1"; demo_node_worker "w2"] in
  let w := demo_node_worker "w3" in
  getWorkerForItem (buildRing 3 (ws ++ [w])) (ring_keys (buildRing 3 (ws ++ [w]))) "item" = "w3" ∨
  getWorkerForItem (buildRing 3 (ws ++ [w])) (ring_keys (buildRing 3 (ws ++ [w]))) "item" =
  getWorkerForItem (buildRing 3 ws) (ring_keys (buildRing 3 ws)) "item".
Proof.
  intros ws w. apply (adding_worker_moves_items_to_it 3 ws w);
    [lia|discriminate|apply ring_keys_order|apply ring_keys_order].
Defined.

(** [Partition] of the consistent-hash strategy; [ord i] is the order in which
    the ring is ranged for the [i]-th item. *)
Fixpoint assign_items (r : ring) (ord : nat → list Z) (i : nat) (items : list string)
    (a : assignment) : assignment :=
  match items with
  | [] => a
  | item :: items' =>
      let workerID := getWorkerForItem r (ord i) item in
      assign_items r ord (S i) items'
        (if bool_decide (workerID ≠ "") then append_at a workerID item else a)
  end.
Definition ConsistentHash_Partition (replicas : nat) (ord : ring → nat → list Z)
    (items : list string) (workers : list WorkerNode) : assignment :=
  let r := buildRing replicas workers in assign_items r (ord r) 0 items ∅.

Definition ConsistentHash_Rebalance (replicas : nat) (ord : ring → nat → list Z)
    (collected : list (string * Partition)) (workers : list WorkerNode)
    (order : assignment → list (string * list string * (Z * Z * Z))) : gmap string Partition :=
  redistribute (ConsistentHash_Partition replicas ord) collected workers order.

(** ** Ranges *)

(** One iteration: assignments so far, worker index, current batch. *)
Definition range_step (workers : list WorkerNode) (itemsPerWorker : nat)
    (acc : assignment * nat * list string) (item : string) : assignment * nat * list string :=
  let '(a, workerIndex, currentBatch) := acc in
  let currentBatch := currentBatch ++ [item] in
  if bool_decide (itemsPerWorker ≤ length currentBatch)
     && bool_decide (workerIndex < length workers - 1) then
    match workers !! workerIndex with
    | Some w => (<[wnID w := currentBatch]> a, S workerIndex, [])
    | None => acc
    end
  else (a, workerIndex, currentBatch).

Definition Range_Partition (items : list string) (workers : list WorkerNode) : assignment :=
  if bool_decide (length workers = 0) then ∅
  else
    let itemsPerWorker := let n := length items / length workers in
                          if bool_decide (n = 0) then 1 else n in
    let '(a, workerIndex, currentBatch) :=
      foldl (range_step workers itemsPerWorker) (∅, 0, []) items in
    if bool_decide (0 < length currentBatch) && bool_decide (workerIndex < length workers) then
      match workers !! workerIndex with
      | Some w => <[wnID w := currentBatch]> a
      | None => a
      end
    else a.

Definition Range_Rebalance (collected : list (string * Partition)) (workers : list WorkerNode)
    (order : assignment → list (string * list string * (Z * Z * Z))) : gmap string Partition :=
  redistribute Range_Partition collected workers order.

(** ** Hash *)

Definition Hash_Partition (items : list string) (workers : list WorkerNode) : assignment :=
  if bool_decide (length workers = 0) then ∅
  else foldl (λ a item,
    match workers !! Z.to_nat (hash item `mod` Z.of_nat (length workers)) with
    | Some w => append_at a (wnID w) item
    | None => a
    end) ∅ items.

Definition Hash_Rebalance (collected : list (string * Partition)) (workers : list WorkerNode)
    (order : assignment → list (string * list string * (Z * Z * Z))) : gmap string Partition :=
  redistribute Hash_Partition collected workers order.

(** ** The strategies keep the promise *)

Lemma assign_items_spec r ord i items a (ws : list string) :
  (∀ j item, getWorkerForItem r (ord j) item ∈ ws ∧ getWorkerForItem r (ord j) item ≠ "") →
  (∀ w, is_Some (a !! w) → w ∈ ws) →
  assigned (assign_items r ord i items a) ≡ₚ items ++ assigned a ∧
  ∀ w, is_Some (assign_items r ord i items a !! w) → w ∈ ws.
Proof.
  intros Hg. revert i a. induction items as [|x items IH]; intros i a Ha; simpl; [done|].
  destruct (Hg i x) as [Hin Hne]. rewrite bool_decide_eq_true_2 by done.
  destruct (IH (S i) (append_at a (getWorkerForItem r (ord i) x) x)) as [H1 H2].
  { intros w [->|?]%append_at_is_Some; auto. }
  split; [|done]. rewrite H1, assigned_append_at. symmetry. apply Permutation_middle.
Qed.

(** Workers with IDs, at least one of them. *)
Definition named_workers (workers : list WorkerNode) : Prop :=
  workers ≠ [] ∧ Forall (λ w, wnID w ≠ "") workers.

Lemma ConsistentHash_Partition_spec replicas ord items workers :
  0 < replicas → (∀ r i, ring_order r (ord r i)) → named_workers workers →
  assigned (ConsistentHash_Partition replicas ord items workers) ≡ₚ items ∧
  ∀ w, is_Some (ConsistentHash_Partition replicas ord items workers !! w) → w ∈ wnID <$> workers.
Proof.
  intros Hr Hord [Hne Hid]. unfold ConsistentHash_Partition.
  destruct (buildRing_facts replicas workers) as (Hwf & Hown & Hnemp). specialize (Hnemp Hr Hne).
  set (R := buildRing replicas workers) in *.
  destruct (assign_items_spec R (ord R) 0 items ∅ (wnID <$> workers)) as [H1 H2];
    [|by intros w []|split; [by rewrite H1, app_nil_r|done]].
  intros j item. destruct (getWorkerForItem_spec _ _ item Hwf (Hord R j) Hnemp) as (k & x & _ & Hk & ->).
  specialize (Hown _ _ Hk). split; [done|].
  apply list_elem_of_fmap in Hown as (w' & -> & Hw'). rewrite Forall_forall in Hid. by apply Hid.
Qed.

Definition consistent_hash (replicas : nat) (ord : ring → nat → list Z)
    (Hr : 0 < replicas) (Hord : ∀ r i, ring_order r (ord r i)) : PartitionStrategy.
Proof.
  refine {| psPartition := ConsistentHash_Partition replicas ord; psRebalance := ConsistentHash_Rebalance replicas ord;
    psValid := named_workers |}.
  - intros items ws Hws. by apply ConsistentHash_Partition_spec.
  - intros items ws w Hws. by apply ConsistentHash_Partition_spec.
  - done.
Defined.

Lemma Hash_Partition_spec items workers :
  workers ≠ [] →
  assigned (Hash_Partition items workers) ≡ₚ items ∧
  ∀ w, is_Some (Hash_Partition items workers !! w) → w ∈ wnID <$> workers.
Proof.
  intros Hne. unfold Hash_Partition. rewrite bool_decide_eq_false_2 by (by destruct workers).
  cut (∀ a, (∀ w, is_Some (a !! w) → w ∈ wnID <$> workers) →
    let a' := foldl (λ a item,
      match workers !! Z.to_nat (hash item `mod` Z.of_nat (length workers)) with
      | Some w => append_at a (wnID w) item | None => a end) a items in
    assigned a' ≡ₚ items ++ assigned a ∧ ∀ w, is_Some (a' !! w) → w ∈ wnID <$> workers).
  { intros H. destruct (H ∅) as [H1 H2]; [by intros w []|]. split; [|done]. by rewrite H1, app_nil_r. }
  induction items as [|x items IH]; intros a Ha; simpl; [done|].
  destruct (lookup_lt_is_Some_2 workers (Z.to_nat (hash x `mod` Z.of_nat (length workers)))) as [w Hw].
  { pose proof (Z.mod_pos_bound (hash x) (Z.of_nat (length workers))). destruct workers; [done|]. simpl in *. lia. }
  rewrite Hw. destruct (IH (append_at a (wnID w) x)) as [H1 H2].
  - intros w' [->|?]%append_at_is_Some; [|auto]. apply list_elem_of_fmap. exists w.
    split; [done|]. by eapply list_elem_of_lookup_2.
  - split; [|done]. rewrite H1, assigned_append_at. symmetry. apply Permutation_middle.
Qed.

Definition hash_strategy : PartitionStrategy.
Proof.
  refine {| psPartition := Hash_Partition; psRebalance := Hash_Rebalance;
    psValid := λ ws, ws ≠ [] |}.
  - intros items ws Hws. by apply Hash_Partition_spec.
  - intros items ws w Hws. by apply Hash_Partition_spec.
  - done.
Defined.

Lemma assigned_insert_new a k l : a !! k = None → assigned (<[k := l]> a) ≡ₚ l ++ assigned a.
Proof. intros Ha. unfold assigned. by rewrite map_to_list_insert. Qed.

(** Worker [i] holds nothing while only workers before it do. *)
Lemma range_fresh workers i w (a : assignment) :
  NoDup (wnID <$> workers) → workers !! i = Some w →
  (∀ w, is_Some (a !! w) → w ∈ wnID <$> take i workers) → a !! wnID w = None.
Proof.
  intros Hnd Hw Ha. apply eq_None_not_Some. intros (w' & Heq & [j Hj]%list_elem_of_lookup_1)%Ha%list_elem_of_fmap.
  apply lookup_take_Some in Hj as [Hj Hlt].
  assert (i = j); [|lia]. apply (NoDup_lookup _ _ _ (wnID w) Hnd); rewrite list_lookup_fmap;
    [by rewrite Hw|by rewrite Hj, Heq].
Qed.

(** The loop of [Range_Partition]: assigned plus batch is what was read, and
    only workers before the index hold anything. *)
Lemma range_loop_spec workers n items a i batch :
  NoDup (wnID <$> workers) → i ≤ length workers - 1 →
  (∀ w, is_Some (a !! w) → w ∈ wnID <$> take i workers) →
  let '(a', i', batch') := foldl (range_step workers n) (a, i, batch) items in
  i' ≤ length workers - 1 ∧ (∀ w, is_Some (a' !! w) → w ∈ wnID <$> take i' workers) ∧
  batch' ++ assigned a' ≡ₚ batch ++ items ++ assigned a.
Proof.
  intros Hnd. revert a i batch. induction items as [|x items IH]; intros a i batch Hi Ha; simpl; [done|].
  destruct (_ && _) eqn:Hg.
  - apply andb_true_iff in Hg as [_ Hlt%bool_decide_eq_true].
    destruct (lookup_lt_is_Some_2 workers i) as [w Hw]; [lia|]. rewrite Hw.
    assert (a !! wnID w = None) as Hnew by (by eapply range_fresh).
    specialize (IH (<[wnID w := batch ++ [x]]> a) (S i) []).
    destruct (foldl _ _ items) as [[a' i'] batch']. destruct IH as (H1 & H2 & H3); [lia| |].
    + intros w' [<-|[_ Hs]]%lookup_insert_is_Some; rewrite (take_S_r _ _ w) by done;
        rewrite fmap_app, elem_of_app; [right; left|left; auto].
    + split_and!; [done..|]. rewrite H3, assigned_insert_new by done. solve_Permutation.
  - specialize (IH a i (batch ++ [x]) Hi Ha).
    destruct (foldl _ _ items) as [[a' i'] batch']. destruct IH as (H1 & H2 & H3).
    split_and!; [done..|]. by rewrite H3, <- app_assoc.
Qed.

Lemma Range_Partition_spec items workers :
  workers ≠ [] → NoDup (wnID <$> workers) →
  assigned (Range_Partition items workers) ≡ₚ items ∧
  ∀ w, is_Some (Range_Partition items workers !! w) → w ∈ wnID <$> workers.
Proof.
  intros Hne Hnd. unfold Range_Partition. rewrite bool_decide_eq_false_2 by (by destruct workers).
  set (n := if bool_decide _ then _ else _).
  pose proof (range_loop_spec workers n items ∅ 0 [] Hnd) as H.
  destruct (foldl _ _ items) as [[a i] batch]. simpl in H.
  destruct H as (Hi & Ha & Hp); [lia|by intros w []|]. rewrite app_nil_r in Hp.
  assert (0 < length workers) by (destruct workers; [done|simpl; lia]).
  assert (Hsub : ∀ w, is_Some (a !! w) → w ∈ wnID <$> workers).
  { intros w (w' & -> & Hw')%Ha%list_elem_of_fmap. apply list_elem_of_fmap. exists w'.
    split; [done|]. by eapply elem_of_take in Hw' as (j & ? & _); eapply list_elem_of_lookup_2. }
  rewrite (bool_decide_eq_true_2 (i < _)) by lia. rewrite andb_true_r. case_bool_decide as Hb.
  - destruct (lookup_lt_is_Some_2 workers i) as [w Hw]; [lia|]. rewrite Hw. split.
    + rewrite assigned_insert_new by (by eapply range_fresh). done.
    + intros w' [<-|[_ ?]]%lookup_insert_is_Some; [|by apply Hsub].
      apply list_elem_of_fmap. exists w. split; [done|]. by eapply list_elem_of_lookup_2.
  - destruct batch; [done|simpl in Hb; lia].
Qed.

Definition range_strategy : PartitionStrategy.
Proof.
  refine {| psPartition := Range_Partition; psRebalance := Range_Rebalance;
    psValid := λ ws, ws ≠ [] ∧ NoDup (wnID <$> ws) |}.
  - intros items ws [? ?]. by apply Range_Partition_spec.
  - intros items ws w [? ?]. by apply Range_Partition_spec.
  - done.
Defined.

(** ** The distributor *)

(** [coordinator.GetWorkerStatus] in some order, filtered. *)
Definition active_workers (workers : list WorkerNode) : list WorkerNode :=
  filter (λ w, wnStatus w = WorkerStatusActive) workers.

Definition DistributeWork (ps : PartitionStrategy) (partitions : gmap string Partition)
    (workers : list WorkerNode) (items : list string)
    (order : assignment → list (string * list string * (Z * Z * Z))) :
    result unit * gmap string Partition :=
  let active := active_workers workers in
  if bool_decide (length active = 0) then (Err "no active workers available", partitions)
  else (Ok tt, create_partitions partitions (order (psPartition ps items active))).

Definition work_items (partitions : gmap string Partition) : list string :=
  concat (ptWorkItems <$> (map_to_list partitions).*2).

(** [Rebalance] of the distributor;
    [collected] is the order in which the partition map is ranged. *)
Definition Rebalance (ps : PartitionStrategy) (partitions : gmap string Partition)
    (workers : list WorkerNode) (collected : list (string * Partition))
    (order : assignment → list (string * list string * (Z * Z * Z))) :
    result unit * gmap string Partition :=
  let active := active_workers workers in
  if bool_decide (length active = 0) then (Err "no active workers for rebalancing", partitions)
  else (Ok tt, psRebalance ps collected active order).

Definition GetPartitionForWork (collected : list (string * Partition)) (workID : string) :
    option Partition :=
  snd ∘ snd <$> list_find (λ kp, workID ∈ ptWorkItems kp.2) collected.

(** An order of the assignment whose clock readings differ. *)
Definition distinct_order (order : assignment → list (string * list string * (Z * Z * Z))) : Prop :=
  ∀ a, (order a).*1 ≡ₚ map_to_list a ∧ NoDup ((λ e, e.2.1.1) <$> order a).

Lemma create_partitions_items entries partitions :
  NoDup ((λ e : string * list string * (Z * Z * Z), "partition-" +:+ pretty e.2.1.1) <$> entries) →
  (∀ e, e ∈ entries → partitions !! ("partition-" +:+ pretty e.2.1.1) = None) →
  work_items (create_partitions partitions entries) ≡ₚ work_items partitions ++ concat entries.*1.*2 ∧
  ∀ id p, create_partitions partitions entries !! id = Some p →
    partitions !! id = Some p ∨ ptWorkerID p ∈ entries.*1.*1.
Proof.
  revert partitions. induction entries as [|[[w items] [[n c] u]] es IH]; intros ps Hnd Hfr; simpl.
  { rewrite app_nil_r. auto. }
  apply NoDup_cons in Hnd as [Hni Hnd]. set (p := Build_Partition _ _ _ _ _).
  set (id0 := "partition-" +:+ pretty n) in *.
  assert (ps !! id0 = None) as Hnew by (apply (Hfr (w, items, (n, c, u))); left).
  destruct (IH (<[id0 := p]> ps)) as [H1 H2].
  - done.
  - intros e He. rewrite lookup_insert_ne; [apply Hfr; by right|].
    intros Heq. apply Hni. simpl. fold id0. rewrite Heq.
    by apply (list_elem_of_fmap_2 (λ e : string * list string * (Z * Z * Z), "partition-" +:+ pretty e.2.1.1)).
  - split.
    + rewrite H1. unfold work_items. rewrite map_to_list_insert by done. simpl. solve_Permutation.
    + intros id q Hq. destruct (H2 id q Hq) as [Hq'|?]; [|right; by right].
      apply lookup_insert_Some in Hq' as [[<- <-]|[_ ?]]; [right; left|by left].
Qed.

Lemma distinct_ids (entries : list (string * list string * (Z * Z * Z))) :
  NoDup ((λ e, e.2.1.1) <$> entries) →
  NoDup ((λ e, "partition-" +:+ pretty e.2.1.1) <$> entries).
Proof.
  intros Hnd.
  assert ((λ e : string * list string * (Z * Z * Z), "partition-" +:+ pretty e.2.1.1) <$> entries =
    (λ z, "partition-" +:+ pretty z) <$> ((λ e : string * list string * (Z * Z * Z), e.2.1.1) <$> entries))
    as -> by by rewrite <- list_fmap_compose.
  apply NoDup_fmap_2; [|done].
  intros x y Hxy. apply (inj (String.append "partition-")) in Hxy. by apply (inj pretty) in Hxy.
Qed.

(** Whatever the strategy, as long as it keeps its promise on the active
    workers, and the clock readings that name the new partitions differ,
    [Rebalance] neither loses nor duplicates a work item, and leaves every
    partition with an active worker; without active workers it changes
    nothing and fails. *)
Lemma Rebalance_preserves_work ps partitions workers collected order :
  psValid ps (active_workers workers) → distinct_order order →
  collected ≡ₚ map_to_list partitions →
  match Rebalance ps partitions workers collected order with
  | (Ok _, partitions') => work_items partitions' ≡ₚ work_items partitions ∧
      ∀ id p, partitions' !! id = Some p →
        ∃ w, w ∈ workers ∧ wnStatus w = WorkerStatusActive ∧ wnID w = ptWorkerID p
  | (Err _, partitions') => partitions' = partitions ∧ active_workers workers = []
  end.
Proof.
  intros Hv Hord Hcol. unfold Rebalance. case_bool_decide as Hl.
  { split; [done|]. by apply nil_length_inv. }
  rewrite ps_rebalance. unfold redistribute. set (items := concat (ptWorkItems <$> collected.*2)).
  set (a := psPartition ps items (active_workers workers)).
  destruct (Hord a) as [Hp Hnd].
  destruct (create_partitions_items (order a) ∅ (distinct_ids _ Hnd)) as [H1 H2]; [done|]. split.
  - rewrite H1, Hp. simpl. change (concat (map_to_list a).*2) with (assigned a).
    subst a. rewrite ps_complete by done. subst items. unfold work_items. by rewrite Hcol.
  - intros id p Hid. destruct (H2 id p Hid) as [Hn|Hin]; [by rewrite lookup_empty in Hn|].
    rewrite Hp in Hin. apply list_elem_of_fmap in Hin as ([w its] & Hw & Hin). simpl in Hw.
    apply elem_of_map_to_list in Hin. rewrite Hw.
    assert (w ∈ wnID <$> active_workers workers) as Hwa by (eapply (ps_workers ps items); [done|by exists its]).
    apply list_elem_of_fmap in Hwa as (wn & -> & [Hst Hwn]%list_elem_of_filter). by exists wn.
Qed.

(** Entries stamped with their position. *)
Definition stamped_order (a : assignment) : list (string * list string * (Z * Z * Z)) :=
  imap (λ i kv, (kv, (Z.of_nat i, 0, 0)%Z)) (map_to_list a).

Lemma stamped_order_distinct : distinct_order stamped_order.
Proof.
  intros a. unfold stamped_order. split.
  - rewrite fmap_imap. apply Permutation_refl'.
    transitivity (id <$> map_to_list a); [exact (imap_const id (map_to_list a))|apply list_fmap_id].
  - rewrite fmap_imap. apply NoDup_alt. intros i j x.
    rewrite !list_lookup_imap. destruct (map_to_list a !! i), (map_to_list a !! j); simpl; try done.
    intros [= <-] [= E]. lia.
Qed.

Lemma Rebalance_preserves_work_witness :
  let ws := [demo_node_worker "w1"; demo_node_worker "w2"] in
  let old := {["p" := {| ptID := "p"; ptWorkerID := "gone"; ptWorkItems := ["a"; "b"; "c"];
                         ptCreatedAt := 0; ptLastUpdatedAt := 0 |}]} in
  ∃ new, Rebalance hash_strategy old ws (map_to_list old) stamped_order = (Ok tt, new) ∧
    work_items new ≡ₚ ["a"; "b"; "c"].
Proof.
  intros ws old.
  pose proof (Rebalance_preserves_work hash_strategy old ws (map_to_list old) stamped_order) as H.
  destruct (Rebalance hash_strategy old ws (map_to_list old) stamped_order) as [r new] eqn:E.
  assert (r = Ok tt) as -> by (apply (f_equal fst) in E; vm_compute in E; by rewrite <- E).
  exists new. split; [reflexivity|]. rewrite (proj1 (H ltac:(discriminate) stamped_order_distinct ltac:(done))).
  vm_compute. done.
Defined.

(** Two partitions created at the same clock reading share their ID, and the
    first one's items are lost. *)
Lemma partition_id_collision w1 w2 items1 items2 n c u c' u' :
  work_items (create_partitions ∅ [(w1, items1, (n, c, u)); (w2, items2, (n, c', u'))]) = items2.
Proof.
  unfold create_partitions. simpl. rewrite insert_insert_eq. unfold work_items.
  rewrite insert_empty, map_to_list_singleton. simpl. apply app_nil_r.
Qed.
