(* ===== verification/Coordinator.v ===== *)
(** internal/executor/app/distributed/coordinator.go: the assignment of
    executions to workers, worker registration and health, reassignment and
    the periodic rebalancing of load counters. *)

From S2P Require Import Prelude GoValue Partition.

(** ** Data *)

Definition WorkerStatusUnhealthy := "unhealthy".
Definition WorkerStatusDraining := "draining".
Definition WorkerStatusOffline := "offline".

Definition SelectionStrategyLeastLoaded := "least_loaded".
Definition SelectionStrategyRoundRobin := "round_robin".
Definition SelectionStrategyRandom := "random".
Definition SelectionStrategyAffinity := "affinity".

(** The affinity key is the list of its code points. *)
Record WorkRequirements := {
  wrRequiresTags : list string;
  wrRequiredCapacity : Z;
  wrSelectionStrategy : string;
  wrAffinityKey : list Z
}.

Record WorkerMetrics := {
  wmtCurrentLoad : Z;
  wmtExecutionsCompleted : Z;
  wmtExecutionsFailed : Z;
  wmtAverageExecutionTime : Z;
  wmtHealthy : bool
}.

Inductive coord_event : Type :=
| WorkAssigned (executionID workerID workflowID : string)
| WorkReassigned (executionID fromWorkerID toWorkerID : string)
| WorkerRegistered (workerID address : string) (capacity : Z)
| WorkerUnregistered (workerID : string).

(** The workers are reached through the map only, so it holds their state. *)
Record Coordinator := {
  coWorkers : gmap string WorkerNode;
  coPartitions : gmap string string;     (* execution to worker *)
  coTotalExecutions : Z;
  coDistributedWork : Z
}.

Definition NewCoordinator : Coordinator :=
  {| coWorkers := ∅; coPartitions := ∅; coTotalExecutions := 0; coDistributedWork := 0 |}.

Definition with_load (w : WorkerNode) (load : Z) : WorkerNode :=
  {| wnID := wnID w; wnAddress := wnAddress w; wnCapacity := wnCapacity w; wnCurrentLoad := load;
     wnTags := wnTags w; wnCapabilities := wnCapabilities w; wnStatus := wnStatus w;
     wnLastHeartbeat := wnLastHeartbeat w; wnRegisteredAt := wnRegisteredAt w;
     wnMetadata := wnMetadata w; wnExecutionsCompleted := wnExecutionsCompleted w;
     wnExecutionsFailed := wnExecutionsFailed w; wnAverageExecutionTime := wnAverageExecutionTime w |}.
Definition with_status (w : WorkerNode) (status : string) : WorkerNode :=
  {| wnID := wnID w; wnAddress := wnAddress w; wnCapacity := wnCapacity w;
     wnCurrentLoad := wnCurrentLoad w; wnTags := wnTags w; wnCapabilities := wnCapabilities w;
     wnStatus := status; wnLastHeartbeat := wnLastHeartbeat w; wnRegisteredAt := wnRegisteredAt w;
     wnMetadata := wnMetadata w; wnExecutionsCompleted := wnExecutionsCompleted w;
     wnExecutionsFailed := wnExecutionsFailed w; wnAverageExecutionTime := wnAverageExecutionTime w |}.

Definition set_coord (c : Coordinator) (ws : gmap string WorkerNode) (ps : gmap string string)
    (total distributed : Z) : Coordinator :=
  {| coWorkers := ws; coPartitions := ps; coTotalExecutions := total;
     coDistributedWork := distributed |}.

(** ** Selection *)

(** A pointer to a worker is its key in the map. *)
Abbreviation candidate := (string * WorkerNode)%type.

Definition has_tags (required tags : list string) : bool :=
  forallb (λ t, existsb (λ t', bool_decide (t' = t)) tags) required.

Definition eligible (req : WorkRequirements) (w : WorkerNode) : bool :=
  bool_decide (wnStatus w = WorkerStatusActive)
  && negb (bool_decide (wnCapacity w ≤ wnCurrentLoad w)%Z)
  && has_tags (wrRequiresTags req) (wnTags w).

Definition MaxInt : Z := 2 ^ 63 - 1.

Definition load_percent (w : WorkerNode) : Z :=
  f64_trunc (f64_mul (f64_div (f64_of_Z (wnCurrentLoad w)) (f64_of_Z (wnCapacity w))) (f64_of_Z 100)).

Definition selectLeastLoaded (cs : list candidate) : option candidate :=
  snd (foldl (λ acc c, if bool_decide (load_percent c.2 < acc.1)%Z
                       then (load_percent c.2, Some c) else acc) (MaxInt, None) cs).

Definition selectRoundRobin (distributedWork : Z) (cs : list candidate) : option candidate :=
  match cs with
  | [] => None
  | _ => cs !! Z.to_nat (Z.rem distributedWork (Z.of_nat (length cs)))
  end.

(** [rand n] is the draw of [rand.Intn(n)]. *)
Definition selectRandom (rand : Z → Z) (cs : list candidate) : option candidate :=
  match cs with [] => None | _ => cs !! Z.to_nat (rand (Z.of_nat (length cs))) end.

Definition affinity_hash (key : list Z) : Z :=
  foldl (λ h ch, wrap64 (h * 31 + ch)) 0%Z key.

Definition selectWithAffinity (cs : list candidate) (key : list Z) : option candidate :=
  if bool_decide (key = []) || bool_decide (length cs = 0) then selectLeastLoaded cs
  else
    let index := Z.rem (affinity_hash key) (Z.of_nat (length cs)) in
    cs !! Z.to_nat (if bool_decide (index < 0)%Z then - index else index)%Z.

(** [ordW] orders the loop over the worker map. *)
Definition candidates (c : Coordinator) (req : WorkRequirements) (ordW : list string) :
    list candidate :=
  omap (λ id, match coWorkers c !! id with
              | Some w => if eligible req w then Some (id, w) else None
              | None => None
              end) ordW.

Definition selectWorker (c : Coordinator) (req : WorkRequirements) (ordW : list string)
    (rand : Z → Z) : option candidate :=
  let cs := candidates c req ordW in
  let strategy := wrSelectionStrategy req in
  if bool_decide (length cs = 0) then None
  else if bool_decide (strategy = SelectionStrategyRoundRobin)
  then selectRoundRobin (coDistributedWork c) cs
  else if bool_decide (strategy = SelectionStrategyRandom) then selectRandom rand cs
  else if bool_decide (strategy = SelectionStrategyAffinity)
  then selectWithAffinity cs (wrAffinityKey req)
  else selectLeastLoaded cs.

(** ** Assignment *)

Definition assign_to (c : Coordinator) (executionID key : string) (w : WorkerNode)
    (distributed : Z) : Coordinator :=
  set_coord c (<[key := with_load w (wnCurrentLoad w + 1)]> (coWorkers c))
    (<[executionID := wnID w]> (coPartitions c)) (coTotalExecutions c)
    (coDistributedWork c + distributed).

Definition AssignWork (c : Coordinator) (executionID workflowID : string) (req : WorkRequirements)
    (ordW : list string) (rand : Z → Z) : result WorkerNode * Coordinator * list coord_event :=
  let assigned :=
    match coPartitions c !! executionID with
    | Some workerID =>
        match coWorkers c !! workerID with
        | Some w => if bool_decide (wnStatus w = WorkerStatusActive) then Some w else None
        | None => None
        end
    | None => None
    end in
  match assigned with
  | Some w => (Ok w, c, [])
  | None =>
      let c := set_coord c (coWorkers c) (delete executionID (coPartitions c))
                 (coTotalExecutions c) (coDistributedWork c) in
      match selectWorker c req ordW rand with
      | None => (Err "no suitable worker available", c, [])
      | Some (key, w) =>
          (Ok (with_load w (wnCurrentLoad w + 1)), assign_to c executionID key w 1,
           [WorkAssigned executionID (wnID w) workflowID])
      end
  end.

(** One execution of [reassignWorkFromWorker]. *)
Definition reassign_one (workerID : string) (s : Coordinator * list coord_event)
    (e : string * list string) : Coordinator * list coord_event :=
  let '(c, evs) := s in
  let '(execID, ordW) := e in
  let c := set_coord c (coWorkers c) (delete execID (coPartitions c))
             (coTotalExecutions c) (coDistributedWork c) in
  match selectWorker c {| wrRequiresTags := []; wrRequiredCapacity := 0;
                          wrSelectionStrategy := SelectionStrategyLeastLoaded;
                          wrAffinityKey := [] |} ordW (λ _, 0%Z) with
  | Some (key, w) => (assign_to c execID key w 0, evs ++ [WorkReassigned execID workerID (wnID w)])
  | None => (c, evs)
  end.

(** [ordP] orders the loop over the partitions; each execution comes with the
    order of the worker map when its turn comes. *)
Definition reassignWorkFromWorker (c : Coordinator) (workerID : string)
    (ordP : list (string * list string)) : Coordinator * list coord_event :=
  foldl (reassign_one workerID) (c, [])
    (filter (λ e, coPartitions c !! e.1 = Some workerID) ordP).

(** ** Registration *)

(** [registryErr] is the answer of the registry. *)
Definition RegisterWorker (c : Coordinator) (w : WorkerNode) (now1 now2 : Z)
    (registryErr : option string) : result unit * Coordinator * list coord_event :=
  if bool_decide (wnID w = "") then (Err "worker ID is required", c, [])
  else
    let capacity := if bool_decide (wnCapacity w = 0%Z) then 10%Z else wnCapacity w in
    let w := {| wnID := wnID w; wnAddress := wnAddress w; wnCapacity := capacity;
                wnCurrentLoad := wnCurrentLoad w; wnTags := wnTags w;
                wnCapabilities := wnCapabilities w; wnStatus := WorkerStatusActive;
                wnLastHeartbeat := now1; wnRegisteredAt := now2; wnMetadata := wnMetadata w;
                wnExecutionsCompleted := wnExecutionsCompleted w;
                wnExecutionsFailed := wnExecutionsFailed w;
                wnAverageExecutionTime := wnAverageExecutionTime w |} in
    let c := set_coord c (<[wnID w := w]> (coWorkers c)) (coPartitions c)
               (coTotalExecutions c) (coDistributedWork c) in
    match registryErr with
    | Some e => (Err ("failed to register with registry: " +:+ e), c, [])
    | None => (Ok tt, c, [WorkerRegistered (wnID w) (wnAddress w) capacity])
    end.

Definition UnregisterWorker (c : Coordinator) (workerID : string)
    (ordP : list (string * list string)) : result unit * Coordinator * list coord_event :=
  match coWorkers c !! workerID with
  | None => (Err ("worker not found: " +:+ workerID), c, [])
  | Some w =>
      let c := set_coord c (<[workerID := with_status w WorkerStatusDraining]> (coWorkers c))
                 (coPartitions c) (coTotalExecutions c) (coDistributedWork c) in
      let '(c, evs) := reassignWorkFromWorker c workerID ordP in
      (Ok tt, set_coord c (delete workerID (coWorkers c)) (coPartitions c)
                (coTotalExecutions c) (coDistributedWork c),
       evs ++ [WorkerUnregistered workerID])
  end.

Definition loadWorkers (c : Coordinator) (listed : result (list WorkerNode)) :
    result unit * Coordinator :=
  match listed with
  | Err e => (Err e, c)
  | Ok ws => (Ok tt, set_coord c (foldl (λ m w, <[wnID w := w]> m) (coWorkers c) ws)
                       (coPartitions c) (coTotalExecutions c) (coDistributedWork c))
  end.

(** ** Heartbeats and health *)

Definition UpdateWorkerHeartbeat (c : Coordinator) (workerID : string) (m : WorkerMetrics)
    (now : Z) : result unit * Coordinator :=
  match coWorkers c !! workerID with
  | None => (Err ("worker not found: " +:+ workerID), c)
  | Some w =>
      let status := if bool_decide (wnStatus w = WorkerStatusUnhealthy) && wmtHealthy m
                    then WorkerStatusActive else wnStatus w in
      let w := {| wnID := wnID w; wnAddress := wnAddress w; wnCapacity := wnCapacity w;
                  wnCurrentLoad := wmtCurrentLoad m; wnTags := wnTags w;
                  wnCapabilities := wnCapabilities w; wnStatus := status;
                  wnLastHeartbeat := now; wnRegisteredAt := wnRegisteredAt w;
                  wnMetadata := wnMetadata w;
                  wnExecutionsCompleted := wmtExecutionsCompleted m;
                  wnExecutionsFailed := wmtExecutionsFailed m;
                  wnAverageExecutionTime := wmtAverageExecutionTime m |} in
      (Ok tt, set_coord c (<[workerID := w]> (coWorkers c)) (coPartitions c)
                (coTotalExecutions c) (coDistributedWork c))
  end.

(** [handleWorkerHeartbeat]: the assertions on the metrics have no comma-ok
    form, so a missing or mistyped field panics. *)
Definition handleWorkerHeartbeat (c : Coordinator) (payload : vmap) (now : Z) :
    outcome (result unit * Coordinator) :=
  let workerID := default "" (get_string payload "workerId") in
  let metricsData : vmap :=
    match payload !! "metrics" with Some (VObj kvs) => list_to_map kvs | _ => ∅ end in
  match metricsData !! "currentLoad", metricsData !! "executionsCompleted",
        metricsData !! "executionsFailed", metricsData !! "healthy" with
  | Some (VFloat l), Some (VFloat e), Some (VFloat f), Some (VBool h) =>
      Ret (UpdateWorkerHeartbeat c workerID
        {| wmtCurrentLoad := f64_trunc l; wmtExecutionsCompleted := f64_trunc e;
           wmtExecutionsFailed := f64_trunc f; wmtAverageExecutionTime := 0; wmtHealthy := h |} now)
  | _, _, _, _ => Panic "interface conversion"
  end.

(** The body of the loop of [performHealthCheck] for one worker. *)
Definition check_worker (now : Z) (w : WorkerNode) : WorkerNode :=
  let age := (now - wnLastHeartbeat w)%Z in
  if bool_decide (60 * 1000000000 < age)%Z then
    (if bool_decide (wnStatus w = WorkerStatusOffline) then w else with_status w WorkerStatusOffline)
  else if bool_decide (30 * 1000000000 < age)%Z then
    (if bool_decide (wnStatus w = WorkerStatusActive) then with_status w WorkerStatusUnhealthy else w)
  else
    (if bool_decide (wnStatus w = WorkerStatusUnhealthy) then with_status w WorkerStatusActive else w).

(** [performHealthCheck]; the workers whose reassignment it starts, each a
    [reassignWorkFromWorker] that runs later, on a goroutine of its own. *)
Definition performHealthCheck (c : Coordinator) (now : Z) (ordW : list string) :
    Coordinator * list string :=
  (set_coord c (check_worker now <$> coWorkers c) (coPartitions c)
     (coTotalExecutions c) (coDistributedWork c),
   omap (λ id, w ← coWorkers c !! id;
     if bool_decide (wnStatus w ≠ WorkerStatusOffline)
        && bool_decide (wnStatus (check_worker now w) = WorkerStatusOffline)
     then Some (wnID w) else None) ordW).

(** ** Completion *)

Definition handleWorkCompleted (c : Coordinator) (payload : vmap) : Coordinator :=
  let executionID := default "" (get_string payload "executionId") in
  let workerID := default "" (get_string payload "workerId") in
  let ws := match coWorkers c !! workerID with
            | Some w => <[workerID := with_load w (Z.max 0 (wnCurrentLoad w - 1))]> (coWorkers c)
            | None => coWorkers c
            end in
  set_coord c ws (delete executionID (coPartitions c)) (coTotalExecutions c + 1)
    (coDistributedWork c).

(** ** Rebalancing of the counters *)

Definition load_ratio (load capacity : Z) : spec_float :=
  f64_div (f64_of_Z load) (f64_of_Z capacity).
Definition f64_1_2 : spec_float := f64_div (f64_of_Z 12) (f64_of_Z 10).
Definition f64_0_8 : spec_float := f64_div (f64_of_Z 8) (f64_of_Z 10).

(** The inner loop body: one unit of load from [over] to [under]. *)
Definition move_one (ws : gmap string WorkerNode) (over under : string) : gmap string WorkerNode :=
  match ws !! over, ws !! under with
  | Some o, Some u =>
      if bool_decide (Z.quot (wnCapacity o) 2 < wnCurrentLoad o)%Z
         && bool_decide (wnCurrentLoad u < Z.quot (wnCapacity u) 2)%Z
      then <[under := with_load u (wnCurrentLoad u + 1)]>
             (<[over := with_load o (wnCurrentLoad o - 1)]> ws)
      else ws
  | _, _ => ws
  end.

Definition is_active (ws : gmap string WorkerNode) (id : string) : bool :=
  from_option (λ w, bool_decide (wnStatus w = WorkerStatusActive)) false (ws !! id).

(** [performRebalance]; [ord1] and [ord2] order the two loops over the
    workers. *)
Definition performRebalance (c : Coordinator) (ord1 ord2 : list string) : Coordinator :=
  let ws := coWorkers c in
  let active := omap (λ id, ws !! id) (filter (λ id, is_active ws id = true) ord1) in
  if bool_decide (length active = 0) then c
  else
    let average := load_ratio (foldr (λ w n, wnCurrentLoad w + n)%Z 0%Z active)
                              (foldr (λ w n, wnCapacity w + n)%Z 0%Z active) in
    let ratio id := from_option (λ w, load_ratio (wnCurrentLoad w) (wnCapacity w)) S754_nan (ws !! id) in
    let ids := filter (λ id, is_active ws id = true) ord2 in
    let overloaded := filter (λ id, f64_ltb (f64_mul average f64_1_2) (ratio id) = true) ids in
    let underloaded := filter (λ id, f64_ltb (f64_mul average f64_1_2) (ratio id) = false ∧
                                     f64_ltb (ratio id) (f64_mul average f64_0_8) = true) ids in
    set_coord c (foldl (λ ws over, foldl (λ ws under, move_one ws over under) ws underloaded)
                   ws overloaded)
      (coPartitions c) (coTotalExecutions c) (coDistributedWork c).

(** [GetWorkerStatus] in the order of the worker map. *)
Definition GetWorkerStatus (c : Coordinator) (ordW : list string) : list WorkerNode :=
  omap (λ id, coWorkers c !! id) ordW.

(** ** Selection is sound and complete *)

(** A draw of [rand.Intn]. *)
Definition draws (rand : Z → Z) : Prop := ∀ n, (0 < n)%Z → (0 ≤ rand n < n)%Z.

(** The load percentages of the eligible workers are below the start value of
    the search for the smallest. *)
Definition percents_fit (c : Coordinator) (req : WorkRequirements) : Prop :=
  ∀ id w, coWorkers c !! id = Some w → eligible req w = true → (load_percent w < MaxInt)%Z.

Lemma candidates_elem c req ordW key w :
  (key, w) ∈ candidates c req ordW ↔
  key ∈ ordW ∧ coWorkers c !! key = Some w ∧ eligible req w = true.
Proof.
  unfold candidates. rewrite list_elem_of_omap. split.
  - intros (id & Hid & H). destruct (coWorkers c !! id) as [w'|] eqn:E; [|done].
    destruct (eligible req w') eqn:Ee; simplify_eq. done.
  - intros (Hk & Hw & He). exists key. by rewrite Hw, He.
Qed.

Lemma selectLeastLoaded_spec cs :
  match selectLeastLoaded cs with
  | Some x => x ∈ cs ∧ ∀ y, y ∈ cs → (load_percent x.2 ≤ load_percent y.2)%Z
  | None => ∀ y, y ∈ cs → (MaxInt ≤ load_percent y.2)%Z
  end.
Proof.
  unfold selectLeastLoaded.
  cut (match foldl (λ acc c, if bool_decide (load_percent c.2 < acc.1)%Z
         then (load_percent c.2, Some c) else acc) (MaxInt, @None candidate) cs with
       | (m, Some x) => m = load_percent x.2 ∧ x ∈ cs ∧ ∀ y, y ∈ cs → (load_percent x.2 ≤ load_percent y.2)%Z
       | (m, None) => m = MaxInt ∧ ∀ y, y ∈ cs → (MaxInt ≤ load_percent y.2)%Z
       end).
  { destruct (foldl _ _ cs) as [m [x|]]; simpl; naive_solver. }
  induction cs as [|c cs IH] using rev_ind; [simpl; split; [done|by intros y ?%elem_of_nil]|].
  rewrite foldl_snoc. destruct (foldl _ _ cs) as [m o]. simpl. case_bool_decide as Hlt.
  - split; [done|]. split; [set_solver|]. intros y [Hy| ->%list_elem_of_singleton]%elem_of_app; [|done].
    destruct o as [x|]; [destruct IH as (-> & _ & H)|destruct IH as (-> & H)]; specialize (H y Hy); lia.
  - destruct o as [x|]; [destruct IH as (-> & Hx & H)|destruct IH as (-> & H)].
    + split; [done|]. split; [set_solver|].
      intros y [Hy| ->%list_elem_of_singleton]%elem_of_app; [auto|lia].
    + split; [done|]. intros y [Hy| ->%list_elem_of_singleton]%elem_of_app; [auto|lia].
Qed.

Lemma selectWorker_sound c req ordW rand key w :
  selectWorker c req ordW rand = Some (key, w) →
  coWorkers c !! key = Some w ∧ eligible req w = true.
Proof.
  intros H. cut ((key, w) ∈ candidates c req ordW); [by intros (_ & ? & ?)%candidates_elem|].
  unfold selectWorker in H. case_bool_decide; [done|].
  assert (∀ cs, selectLeastLoaded cs = Some (key, w) → (key, w) ∈ cs) as Hl.
  { intros cs Hs. pose proof (selectLeastLoaded_spec cs) as Hspec. rewrite Hs in Hspec. by destruct Hspec. }
  assert (∀ cs i, (cs : list candidate) !! i = Some (key, w) → (key, w) ∈ cs) as Hi
    by (intros cs i; apply list_elem_of_lookup_2).
  repeat case_bool_decide; [| | |by apply Hl].
  - unfold selectRoundRobin in H. destruct (candidates c req ordW); [done|]. by eapply Hi.
  - unfold selectRandom in H. destruct (candidates c req ordW); [done|]. by eapply Hi.
  - unfold selectWithAffinity in H. destruct (_ || _); [by apply Hl|by eapply Hi].
Qed.

Lemma selectWorker_complete c req ordW rand :
  range_order (coWorkers c) ordW → draws rand → (0 ≤ coDistributedWork c)%Z → percents_fit c req →
  selectWorker c req ordW rand = None →
  ∀ id w, coWorkers c !! id = Some w → eligible req w = false.
Proof.
  intros Hord Hr Hd Hfit H id w Hw. apply not_true_iff_false. intros He.
  assert ((id, w) ∈ candidates c req ordW) as Hin.
  { apply candidates_elem. split_and!; [|done..]. apply (range_order_elem _ _ _ Hord). eauto. }
  revert H. unfold selectWorker. set (cs := candidates c req ordW) in *.
  assert (0 < length cs) as Hlen by (destruct cs; [by apply elem_of_nil in Hin|simpl; lia]).
  assert (is_Some (selectLeastLoaded cs)) as [x Hx].
  { pose proof (selectLeastLoaded_spec cs) as Hs. destruct (selectLeastLoaded cs); [eauto|].
    specialize (Hs _ Hin). specialize (Hfit id w Hw He). simpl in Hs. lia. }
  assert (∀ i, (0 ≤ i < Z.of_nat (length cs))%Z → cs !! Z.to_nat i = None → False) as Hidx.
  { intros i Hi Hnone. apply lookup_ge_None in Hnone. lia. }
  rewrite bool_decide_eq_false_2 by lia. repeat case_bool_decide; intros Hnone.
  - unfold selectRoundRobin in Hnone. destruct cs; [simpl in Hlen; lia|]. eapply Hidx; [|done].
    apply Z.rem_bound_pos; [done|lia].
  - unfold selectRandom in Hnone. destruct cs; [simpl in Hlen; lia|]. eapply Hidx; [|done].
    apply Hr. lia.
  - unfold selectWithAffinity in Hnone. destruct (_ || _); [congruence|]. eapply Hidx; [|done].
    pose proof (Z.rem_bound_abs (affinity_hash (wrAffinityKey req)) (Z.of_nat (length cs)) ltac:(lia)).
    case_bool_decide; lia.
  - congruence.
Qed.

(** ** Invariant *)

(** Workers are stored under their IDs, within their capacity, and every
    execution is assigned to a registered worker. *)
Record coord_inv (c : Coordinator) : Prop := {
  cv_id : ∀ id w, coWorkers c !! id = Some w → wnID w = id;
  cv_load : ∀ id w, coWorkers c !! id = Some w → (0 ≤ wnCurrentLoad w ≤ wnCapacity w)%Z;
  cv_parts : ∀ exec id, coPartitions c !! exec = Some id → is_Some (coWorkers c !! id);
  cv_count : (0 ≤ coDistributedWork c)%Z
}.

Lemma eligible_spec req w :
  eligible req w = true ↔ wnStatus w = WorkerStatusActive ∧ (wnCurrentLoad w < wnCapacity w)%Z ∧
    has_tags (wrRequiresTags req) (wnTags w) = true.
Proof.
  unfold eligible. rewrite !andb_true_iff, negb_true_iff, bool_decide_eq_true, bool_decide_eq_false. 
  split; intros; split_and!; naive_solver lia.
Qed.

Lemma coord_inv_drop c exec :
  coord_inv c → coord_inv (set_coord c (coWorkers c) (delete exec (coPartitions c))
                             (coTotalExecutions c) (coDistributedWork c)).
Proof. intros []. split; simpl; try done. intros e id [_ ?]%lookup_delete_Some. eauto. Qed.

(** Replacing a worker by one with the same ID and a load within capacity. *)
Lemma coord_inv_update c key w w' total :
  coord_inv c → coWorkers c !! key = Some w → wnID w' = wnID w →
  (0 ≤ wnCurrentLoad w' ≤ wnCapacity w')%Z →
  coord_inv (set_coord c (<[key := w']> (coWorkers c)) (coPartitions c) total (coDistributedWork c)).
Proof.
  intros [] Hw Hid Hl. split; simpl; [| | |done].
  - intros id x [[<- <-]|[_ ?]]%lookup_insert_Some; [|eauto]. rewrite Hid. eauto.
  - intros id x [[<- <-]|[_ ?]]%lookup_insert_Some; [done|eauto].
  - intros e id He. apply lookup_insert_is_Some'. right. eauto.
Qed.

Lemma coord_inv_assign c exec key w n :
  coord_inv c → coWorkers c !! key = Some w → (wnCurrentLoad w < wnCapacity w)%Z → (0 ≤ n)%Z →
  coord_inv (assign_to c exec key w n).
Proof.
  intros Hinv Hw Hl Hn. pose proof (cv_load _ Hinv key w Hw) as Hl'.
  assert (coord_inv (set_coord c (<[key := with_load w (wnCurrentLoad w + 1)]> (coWorkers c))
    (coPartitions c) (coTotalExecutions c) (coDistributedWork c))) as []
    by (eapply coord_inv_update; [done|exact Hw|done|simpl; lia]).
  split; simpl in *; [done|done| |lia].
  intros e id [[_ <-]|[_ ?]]%lookup_insert_Some; [|eauto].
  rewrite (cv_id _ Hinv key w Hw). apply lookup_insert_is_Some'. by left.
Qed.

(** [AssignWork] keeps an execution on its worker while that is active, and
    changes nothing then.  Otherwise it picks an active worker with the
    required tags and a free slot, records the assignment, counts the load,
    which stays within the capacity, and publishes it; other assignments do not
    change.  It fails only when no worker is eligible, and then the execution
    has no assignment. *)
Lemma AssignWork_correct c exec workflowID req ordW rand :
  coord_inv c → range_order (coWorkers c) ordW → draws rand → percents_fit c req →
  match AssignWork c exec workflowID req ordW rand with
  | (Ok w', c', evs) =>
      wnStatus w' = WorkerStatusActive ∧ coWorkers c' !! wnID w' = Some w' ∧
      coPartitions c' !! exec = Some (wnID w') ∧
      (∀ e, e ≠ exec → coPartitions c' !! e = coPartitions c !! e) ∧
      (c' = c ∧ evs = [] ∨
       ∃ w, coWorkers c !! wnID w' = Some w ∧ eligible req w = true ∧
         w' = with_load w (wnCurrentLoad w + 1) ∧ (wnCurrentLoad w' ≤ wnCapacity w')%Z ∧
         evs = [WorkAssigned exec (wnID w') workflowID])
  | (Err _, c', evs) =>
      (∀ id w, coWorkers c !! id = Some w → eligible req w = false) ∧
      coWorkers c' = coWorkers c ∧ coPartitions c' = delete exec (coPartitions c) ∧ evs = []
  end.
Proof.
  intros Hinv Hord Hr Hfit. unfold AssignWork.
  set (c1 := set_coord c (coWorkers c) (delete exec (coPartitions c)) (coTotalExecutions c) (coDistributedWork c)).
  assert (match selectWorker c1 req ordW rand with
    | Some (key, w) => coWorkers c !! key = Some w ∧ eligible req w = true ∧ wnID w = key
    | None => ∀ id w, coWorkers c !! id = Some w → eligible req w = false
    end) as Hsel.
  { destruct (selectWorker c1 req ordW rand) as [[key w]|] eqn:Hs.
    - apply selectWorker_sound in Hs as [Hw He]. split_and!; [done..|]. by eapply cv_id.
    - by eapply (selectWorker_complete c1); [| | |exact Hfit|done]; [|done|apply Hinv]. }
  match goal with |- context [match ?a with Some w => (Ok w, c, []) | None => _ end] =>
    destruct a as [w|] eqn:Ha end.
  - destruct (coPartitions c !! exec) as [id|] eqn:Hp; [|done].
    destruct (coWorkers c !! id) as [w0|] eqn:Hw; [|done]. case_bool_decide; [|done].
    injection Ha as ->. rewrite (cv_id _ Hinv id w Hw). split_and!; auto.
  - destruct (selectWorker c1 req ordW rand) as [[key w]|]; [|done].
    destruct Hsel as (Hw & He & Hid). pose proof (proj1 (eligible_spec _ _) He) as (Hst & Hl & _).
    simpl. rewrite Hid. split_and!; [done|by rewrite lookup_insert_eq|by rewrite lookup_insert_eq| |].
    + intros e Hne. by rewrite lookup_insert_ne, lookup_delete_ne by done.
    + right. exists w. split_and!; try done. lia.
Qed.

(** A coordinator with one registered worker and one execution on it. *)
Definition sample_worker (id : string) (load : Z) : WorkerNode :=
  {| wnID := id; wnAddress := "10.0.0.1"; wnCapacity := 4; wnCurrentLoad := load;
     wnTags := ["gpu"]; wnCapabilities := []; wnStatus := WorkerStatusActive;
     wnLastHeartbeat := 0; wnRegisteredAt := 0; wnMetadata := ∅; wnExecutionsCompleted := 0;
     wnExecutionsFailed := 0; wnAverageExecutionTime := 0 |}.
Definition sample_coordinator : Coordinator :=
  {| coWorkers := {["w1" := sample_worker "w1" 1]}; coPartitions := {["e1" := "w1"]};
     coTotalExecutions := 0; coDistributedWork := 1 |}.
Definition sample_requirements : WorkRequirements :=
  {| wrRequiresTags := ["gpu"]; wrRequiredCapacity := 0;
     wrSelectionStrategy := SelectionStrategyLeastLoaded; wrAffinityKey := [] |}.

Lemma sample_coordinator_inv : coord_inv sample_coordinator.
Proof.
  split; simpl; [| | |done].
  - by intros id w [<- <-]%lookup_singleton_Some.
  - by intros id w [<- <-]%lookup_singleton_Some.
  - intros e id [<- <-]%lookup_singleton_Some. by rewrite lookup_singleton_eq.
Qed.

Lemma sample_percents_fit : percents_fit sample_coordinator sample_requirements.
Proof. intros id w Hw _. cbn [coWorkers sample_coordinator] in Hw. apply lookup_singleton_Some in Hw as [<- <-]. by vm_compute. Qed.

Lemma AssignWork_correct_witness :
  ∃ w' c' evs,
    AssignWork sample_coordinator "e2" "wf" sample_requirements ["w1"] (λ _, 0%Z) = (Ok w', c', evs) ∧
    wnStatus w' = WorkerStatusActive ∧ coPartitions c' !! "e2" = Some (wnID w').
Proof.
  pose proof (AssignWork_correct sample_coordinator "e2" "wf" sample_requirements ["w1"] (λ _, 0%Z)
    sample_coordinator_inv (keys_range_order (coWorkers sample_coordinator))
    ltac:(intros n Hn; lia) sample_percents_fit) as H.
  destruct (AssignWork _ _ _ _ _ _) as [[[w'|e] c'] evs].
  - destruct H as (H1 & _ & H2 & _). by exists w', c', evs.
  - destruct H as [H _]. specialize (H "w1" (sample_worker "w1" 1) eq_refl). vm_compute in H. done.
Defined.

(** ** Reassignment *)

(** A step that may move loads and assignments but no worker's status. *)
Definition same_status (c c' : Coordinator) : Prop :=
  ∀ id, wnStatus <$> coWorkers c' !! id = wnStatus <$> coWorkers c !! id.

Lemma assign_to_status c exec key w n :
  coWorkers c !! key = Some w → same_status c (assign_to c exec key w n).
Proof.
  intros Hw id. simpl. rewrite lookup_insert. case_decide as E; [|done]. subst. by rewrite Hw.
Qed.

Lemma reassign_one_spec workerID c evs e ordW :
  coord_inv c →
  let '(c', _) := reassign_one workerID (c, evs) (e, ordW) in
  coord_inv c' ∧ same_status c c' ∧
  ∀ x id, coPartitions c' !! x = Some id →
    (x ≠ e ∧ coPartitions c !! x = Some id) ∨ wnStatus <$> coWorkers c !! id = Some WorkerStatusActive.
Proof.
  intros Hinv. unfold reassign_one. apply (coord_inv_drop _ e) in Hinv as Hinv'.
  set (c1 := set_coord c _ _ _ _) in *.
  destruct (selectWorker c1 _ ordW _) as [[key w]|] eqn:Hs.
  - apply selectWorker_sound in Hs as [Hw He]. apply eligible_spec in He as (Hst & Hl & _).
    split_and!; [by apply coord_inv_assign|by apply (assign_to_status c1)|].
    intros x id. simpl. intros [[_ <-]|[_ [Hne Hx]%lookup_delete_Some]]%lookup_insert_Some; [right|left; auto].
    rewrite (cv_id _ Hinv' _ _ Hw). change (coWorkers c) with (coWorkers c1). rewrite Hw. simpl. by rewrite Hst.
  - split_and!; [done|done|]. intros x id. simpl. intros [Hne Hx]%lookup_delete_Some. left. auto.
Qed.

(** After the loop no execution is left on a worker that is not active, and
    the assignments of the others are unchanged or lead to active workers. *)
Lemma reassign_loop_spec workerID l c evs :
  coord_inv c → wnStatus <$> coWorkers c !! workerID ≠ Some WorkerStatusActive →
  (∀ x, coPartitions c !! x = Some workerID → x ∈ l.*1) →
  let '(c', _) := foldl (reassign_one workerID) (c, evs) l in
  coord_inv c' ∧ same_status c c' ∧ ∀ x, coPartitions c' !! x ≠ Some workerID.
Proof.
  revert c evs. induction l as [|[e ordW] l IH]; intros c evs Hinv Hst Hl; cbn [foldl].
  { split_and!; [done|done|]. intros x Hx. by apply Hl, elem_of_nil in Hx. }
  pose proof (reassign_one_spec workerID c evs e ordW Hinv) as H.
  destruct (reassign_one workerID (c, evs) (e, ordW)) as [c1 evs1]. destruct H as (Hinv1 & Hs1 & Hp1).
  specialize (IH c1 evs1 Hinv1). destruct (foldl _ _ l) as [c2 evs2].
  destruct IH as (Hinv2 & Hs2 & Hp2); [by rewrite Hs1| |].
  - intros x Hx. destruct (Hp1 x workerID Hx) as [[Hne Hx']|?]; [|done].
    apply Hl in Hx'. simpl in Hx'. apply elem_of_cons in Hx' as [->|?]; done.
  - split_and!; [done| |done]. intros id. by rewrite Hs2.
Qed.

(** Without the assumptions on the worker: the loop preserves the invariant. *)
Lemma reassign_inv workerID l c evs :
  coord_inv c →
  let '(c', _) := foldl (reassign_one workerID) (c, evs) l in coord_inv c' ∧ same_status c c'.
Proof.
  revert c evs. induction l as [|[e ordW] l IH]; intros c evs Hinv; cbn [foldl]; [done|].
  pose proof (reassign_one_spec workerID c evs e ordW Hinv) as H.
  destruct (reassign_one workerID (c, evs) (e, ordW)) as [c1 evs1]. destruct H as (Hinv1 & Hs1 & _).
  specialize (IH c1 evs1 Hinv1). destruct (foldl _ _ l) as [c2 evs2]. destruct IH as [? Hs2].
  split; [done|]. intros id. by rewrite Hs2.
Qed.

(** ** Rebalancing *)

Lemma move_one_inv ws over under :
  (∀ id w, ws !! id = Some w → wnID w = id ∧ (0 ≤ wnCurrentLoad w ≤ wnCapacity w)%Z) → over ≠ under →
  (∀ id w, move_one ws over under !! id = Some w →
     wnID w = id ∧ (0 ≤ wnCurrentLoad w ≤ wnCapacity w)%Z) ∧
  (∀ id, wnStatus <$> move_one ws over under !! id = wnStatus <$> ws !! id).
Proof.
  intros Hws Hne. unfold move_one.
  destruct (ws !! over) as [o|] eqn:Ho, (ws !! under) as [u|] eqn:Hu; try done.
  destruct (_ && _) eqn:Hg; [|done]. apply andb_true_iff in Hg as [Hg1%bool_decide_eq_true Hg2%bool_decide_eq_true].
  destruct (Hws over o Ho) as [Hio Hlo], (Hws under u Hu) as [Hiu Hlu].
  assert (0 ≤ Z.quot (wnCapacity o) 2)%Z by (apply Z.quot_pos; lia).
  assert (Z.quot (wnCapacity u) 2 ≤ wnCapacity u)%Z by (apply Z.quot_le_upper_bound; lia).
  split.
  - intros id w [[<- <-]|[_ [[<- <-]|[_ ?]]%lookup_insert_Some]]%lookup_insert_Some; simpl;
      [split; [done|lia]..|by apply Hws].
  - intros id. rewrite !lookup_insert. repeat case_decide; subst; simpl; [by rewrite Hu|by rewrite Ho|done].
Qed.

Lemma rebalance_inv c ord1 ord2 :
  coord_inv c → coord_inv (performRebalance c ord1 ord2) ∧ same_status c (performRebalance c ord1 ord2).
Proof.
  intros Hinv. unfold performRebalance. case_bool_decide; [done|].
  set (under := filter _ (filter _ ord2)). set (over := filter _ (filter _ ord2)).
  assert (∀ x, x ∈ over → x ∉ under) as Hdisj.
  { intros x [Hx _]%list_elem_of_filter [[Hx' _] _]%list_elem_of_filter. congruence. }
  clearbody over under.
  cut ((∀ id w, foldl (λ ws o, foldl (λ ws u, move_one ws o u) ws under) (coWorkers c) over !! id = Some w →
         wnID w = id ∧ (0 ≤ wnCurrentLoad w ≤ wnCapacity w)%Z) ∧
       ∀ id, wnStatus <$> foldl (λ ws o, foldl (λ ws u, move_one ws o u) ws under) (coWorkers c) over !! id
             = wnStatus <$> coWorkers c !! id).
  { intros [H1 H2]. split; [|done]. split; simpl; [by intros id w [? _]%H1|by intros id w [_ ?]%H1| |apply Hinv].
    intros e id He%(cv_parts _ Hinv). specialize (H2 id). destruct He as [w Hw]. rewrite Hw in H2.
    destruct (foldl _ _ over !! id); [eauto|done]. }
  assert (∀ id w, coWorkers c !! id = Some w → wnID w = id ∧ (0 ≤ wnCurrentLoad w ≤ wnCapacity w)%Z) as Hws.
  { intros id w Hw. split; [by eapply cv_id|by eapply cv_load]. }
  revert Hws. generalize (coWorkers c) as ws.
  induction over as [|o over IH]; intros ws Hws; cbn [foldl]; [done|].
  assert (∀ us, (∀ x, x ∈ us → o ≠ x) →
    (∀ id w, foldl (λ ws u, move_one ws o u) ws us !! id = Some w →
       wnID w = id ∧ (0 ≤ wnCurrentLoad w ≤ wnCapacity w)%Z) ∧
    ∀ id, wnStatus <$> foldl (λ ws u, move_one ws o u) ws us !! id = wnStatus <$> ws !! id) as Hin.
  { intros us. revert ws Hws. induction us as [|u us IHu]; intros ws Hws Hne; cbn [foldl]; [done|].
    destruct (move_one_inv ws o u Hws) as [H1 H2]; [apply Hne; left|].
    destruct (IHu _ H1) as [H3 H4]; [intros x Hx; apply Hne; by right|]. split; [done|].
    intros id. by rewrite H4. }
  destruct (Hin under) as [H1 H2]; [intros x Hx ->; by apply (Hdisj x); [left|]|].
  destruct (IH ltac:(intros x Hx; apply Hdisj; by right) _ H1) as [H3 H4]. split; [done|].
  intros id. by rewrite H4.
Qed.

(** ** Runs *)

(** The operations, in any order; [allowed] limits the workers that are
    registered, loaded or unregistered.  Reported loads are within the
    capacity. *)
Inductive coord_step (allowed : string → Prop) : Coordinator → Coordinator → Prop :=
| cs_assign c exec workflowID req ordW rand :
    coord_step allowed c (AssignWork c exec workflowID req ordW rand).1.2
| cs_register c w t1 t2 err :
    allowed (wnID w) →
    (0 ≤ wnCurrentLoad w ≤ if bool_decide (wnCapacity w = 0) then 10 else wnCapacity w)%Z →
    coord_step allowed c (RegisterWorker c w t1 t2 err).1.2
| cs_unregister c id ordP :
    allowed id → (∀ x, coPartitions c !! x = Some id → x ∈ ordP.*1) →
    coord_step allowed c (UnregisterWorker c id ordP).1.2
| cs_load c ws :
    Forall (λ w, allowed (wnID w) ∧ (0 ≤ wnCurrentLoad w ≤ wnCapacity w)%Z) ws →
    coord_step allowed c (loadWorkers c (Ok ws)).2
| cs_heartbeat c id m now :
    (∀ w, coWorkers c !! id = Some w → (0 ≤ wmtCurrentLoad m ≤ wnCapacity w)%Z) →
    coord_step allowed c (UpdateWorkerHeartbeat c id m now).2
| cs_health c now ordW : coord_step allowed c (performHealthCheck c now ordW).1
| cs_reassign c id ordP : coord_step allowed c (reassignWorkFromWorker c id ordP).1
| cs_completed c payload : coord_step allowed c (handleWorkCompleted c payload)
| cs_rebalance c ord1 ord2 : coord_step allowed c (performRebalance c ord1 ord2).

(** [c'] keeps the status of offline workers outside [allowed]. *)
Definition offline_kept (allowed : string → Prop) (c c' : Coordinator) : Prop :=
  ∀ id, ¬ allowed id → wnStatus <$> coWorkers c !! id = Some WorkerStatusOffline →
    wnStatus <$> coWorkers c' !! id = Some WorkerStatusOffline.

Lemma same_status_offline allowed c c' : same_status c c' → offline_kept allowed c c'.
Proof. intros H id _ Hid. by rewrite H. Qed.

Lemma assign_step c exec workflowID req ordW rand :
  coord_inv c →
  let c' := (AssignWork c exec workflowID req ordW rand).1.2 in coord_inv c' ∧ same_status c c'.
Proof.
  intros Hinv. unfold AssignWork. case_match; [done|]. apply (coord_inv_drop _ exec) in Hinv as Hinv'.
  set (c1 := set_coord c _ _ _ _) in *.
  destruct (selectWorker c1 req ordW rand) as [[key w]|] eqn:Hs; [|done].
  apply selectWorker_sound in Hs as [Hw He]. apply eligible_spec in He as (_ & Hl & _). simpl.
  split; [by apply coord_inv_assign|by apply (assign_to_status c1)].
Qed.

(** Adding or overwriting a worker under its ID. *)
Lemma coord_inv_add c w :
  coord_inv c → (0 ≤ wnCurrentLoad w ≤ wnCapacity w)%Z →
  coord_inv (set_coord c (<[wnID w := w]> (coWorkers c)) (coPartitions c)
               (coTotalExecutions c) (coDistributedWork c)).
Proof.
  intros [] Hl. split; simpl; [| | |done].
  - intros id x [[<- <-]|[_ ?]]%lookup_insert_Some; [done|eauto].
  - intros id x [[<- <-]|[_ ?]]%lookup_insert_Some; [done|eauto].
  - intros e id He. apply lookup_insert_is_Some'. right. eauto.
Qed.

Lemma check_worker_facts now w :
  wnID (check_worker now w) = wnID w ∧ wnCurrentLoad (check_worker now w) = wnCurrentLoad w ∧
  wnCapacity (check_worker now w) = wnCapacity w ∧
  (wnStatus w = WorkerStatusOffline → wnStatus (check_worker now w) = WorkerStatusOffline).
Proof.
  unfold check_worker. repeat case_bool_decide; split_and!; simpl; try done; intros Hs;
    exfalso; rewrite Hs in *; done.
Qed.

(** What every operation guarantees. *)
Definition step_ok (allowed : string → Prop) (c c' : Coordinator) : Prop :=
  coord_inv c' ∧ offline_kept allowed c c'.

Lemma step_ok_refl allowed c : coord_inv c → step_ok allowed c c.
Proof. intros. split; [done|]. by intros ?. Qed.

Lemma register_step (allowed : string → Prop) c w t1 t2 err :
  allowed (wnID w) →
  (0 ≤ wnCurrentLoad w ≤ if bool_decide (wnCapacity w = 0) then 10 else wnCapacity w)%Z →
  coord_inv c → step_ok allowed c (RegisterWorker c w t1 t2 err).1.2.
Proof.
  intros Hal Hl Hinv. unfold RegisterWorker.
  destruct (bool_decide (wnID w = "")); [by apply step_ok_refl|]. cbv zeta.
  match goal with |- context [set_coord c (<[_ := ?x]> _)] => set (w' := x) end.
  assert (step_ok allowed c (set_coord c (<[wnID w' := w']> (coWorkers c)) (coPartitions c)
    (coTotalExecutions c) (coDistributedWork c))) as H; [|by destruct err].
  split; [by apply coord_inv_add|]. intros id Hno Hoff. simpl. rewrite lookup_insert_ne; [done|].
  intros E. apply Hno. by rewrite <-E.
Qed.

Lemma unregister_step (allowed : string → Prop) c id ordP :
  allowed id → (∀ x, coPartitions c !! x = Some id → x ∈ ordP.*1) →
  coord_inv c → step_ok allowed c (UnregisterWorker c id ordP).1.2.
Proof.
  intros Hal Hord Hinv. unfold UnregisterWorker.
  destruct (coWorkers c !! id) as [w|] eqn:Hw; [|by apply step_ok_refl].
  set (c1 := set_coord c _ _ _ _).
  assert (coord_inv c1) as Hinv1 by (eapply coord_inv_update; [done|exact Hw|done|exact (cv_load _ Hinv _ _ Hw)]).
  unfold reassignWorkFromWorker. set (l := filter _ ordP).
  pose proof (reassign_loop_spec id l c1 [] Hinv1) as Hr.
  destruct (foldl _ _ l) as [c2 evs]. destruct Hr as (Hinv2 & Hs2 & Hp2).
  - simpl. rewrite lookup_insert_eq. by intros [=].
  - intros x Hx. specialize (Hord x Hx). apply list_elem_of_fmap in Hord as (e & -> & He).
    apply list_elem_of_fmap. exists e. split; [done|]. by apply list_elem_of_filter.
  - simpl. split.
    + destruct Hinv2. split; simpl; [by intros i x [_ ?]%lookup_delete_Some; eauto..| |done].
      intros e i He. apply lookup_delete_is_Some. split; [|eauto]. intros <-. by apply (Hp2 e).
    + intros i Hno Hoff. simpl. assert (id ≠ i) by (by intros ->).
      rewrite lookup_delete_ne by done. rewrite Hs2. simpl. by rewrite lookup_insert_ne by done.
Qed.

Lemma load_step (allowed : string → Prop) c ws :
  Forall (λ w, allowed (wnID w) ∧ (0 ≤ wnCurrentLoad w ≤ wnCapacity w)%Z) ws →
  coord_inv c → step_ok allowed c (loadWorkers c (Ok ws)).2.
Proof.
  cbn [loadWorkers snd]. destruct c as [ws0 ps t n]. unfold set_coord. simpl. intros Hws. revert ws0.
  induction Hws as [|w ws [Hal Hl] Hws IH]; intros ws0 Hinv; cbn [foldl]; [by apply step_ok_refl|].
  destruct (IH (<[wnID w := w]> ws0)) as [H1 H2]; [by apply (coord_inv_add _ w Hinv)|].
  split; [done|]. intros id Hno Hoff. apply H2; [done|]. simpl in *.
  rewrite lookup_insert_ne; [done|]. intros E. apply Hno. by rewrite <-E.
Qed.

Lemma heartbeat_step allowed c id m now :
  (∀ w, coWorkers c !! id = Some w → (0 ≤ wmtCurrentLoad m ≤ wnCapacity w)%Z) →
  coord_inv c → step_ok allowed c (UpdateWorkerHeartbeat c id m now).2.
Proof.
  intros Hm Hinv. unfold UpdateWorkerHeartbeat.
  destruct (coWorkers c !! id) as [w|] eqn:Hw; [|by apply step_ok_refl]. simpl. split.
  - eapply coord_inv_update; [done|exact Hw|done|]. exact (Hm w eq_refl).
  - intros i _ Hoff. simpl. rewrite lookup_insert. case_decide as E; [|done]. subst i.
    rewrite Hw in Hoff. injection Hoff as Hs. simpl. rewrite Hs. done.
Qed.

Lemma health_step allowed c now ordW :
  coord_inv c → step_ok allowed c (performHealthCheck c now ordW).1.
Proof.
  intros Hinv. simpl. split.
  - destruct Hinv. split; simpl; [| | |done].
    + intros id w. rewrite lookup_fmap, fmap_Some. intros (w0 & Hw0 & ->).
      destruct (check_worker_facts now w0) as (-> & _). eauto.
    + intros id w. rewrite lookup_fmap, fmap_Some. intros (w0 & Hw0 & ->).
      destruct (check_worker_facts now w0) as (_ & -> & -> & _). eauto.
    + intros e id He. rewrite lookup_fmap, fmap_is_Some. eauto.
  - intros id _ Hoff. simpl. rewrite lookup_fmap. destruct (coWorkers c !! id) as [w|]; [|done].
    injection Hoff as Hs. simpl. f_equal. by apply check_worker_facts.
Qed.

Lemma completed_step allowed c payload :
  coord_inv c → step_ok allowed c (handleWorkCompleted c payload).
Proof.
  intros Hinv. unfold handleWorkCompleted. generalize (default "" (get_string payload "workerId")) as wid.
  generalize (default "" (get_string payload "executionId")) as exec. intros exec wid.
  apply (coord_inv_drop _ exec) in Hinv as Hinv1.
  destruct (coWorkers c !! wid) as [w|] eqn:Hw.
  - split.
    + eapply (coord_inv_update _ wid w) in Hinv1; [exact Hinv1|done|done|].
      pose proof (cv_load _ Hinv wid w Hw). simpl. lia.
    + apply same_status_offline. intros i. simpl. rewrite lookup_insert. case_decide; [subst|done]. by rewrite Hw.
  - split; [|by apply same_status_offline]. destruct Hinv1. by split.
Qed.

Lemma coord_step_inv allowed c c' :
  coord_step allowed c c' → coord_inv c → step_ok allowed c c'.
Proof.
  intros Hstep Hinv. destruct Hstep as [c exec wf req ordW rand|c w t1 t2 err Hal Hl|c id ordP Hal Hord
    |c ws Hws|c id m now Hm|c now ordW|c id ordP|c payload|c ord1 ord2].
  - destruct (assign_step c exec wf req ordW rand Hinv). split; [done|by apply same_status_offline].
  - by apply register_step.
  - by apply unregister_step.
  - by apply load_step.
  - by apply heartbeat_step.
  - by apply health_step.
  - unfold reassignWorkFromWorker. set (l := filter _ ordP).
    pose proof (reassign_inv id l c [] Hinv) as H.
    destruct (foldl _ _ l) as [c' evs]. destruct H. split; [done|by apply same_status_offline].
  - by apply completed_step.
  - destruct (rebalance_inv c ord1 ord2 Hinv). split; [done|by apply same_status_offline].
Qed.

(** A worker that [AssignWork] answers is an active one. *)
Lemma assign_active c exec workflowID req ordW rand w :
  coord_inv c → (AssignWork c exec workflowID req ordW rand).1.1 = Ok w →
  wnStatus <$> coWorkers c !! wnID w = Some WorkerStatusActive.
Proof.
  intros Hinv. unfold AssignWork.
  match goal with |- context [match ?a with Some w => (Ok w, c, []) | None => _ end] =>
    destruct a as [w0|] eqn:Ha end; simpl.
  - intros [= ->]. destruct (coPartitions c !! exec) as [id|]; [|done].
    destruct (coWorkers c !! id) as [w1|] eqn:Hw; [|done]. case_bool_decide as Hs; [|done].
    injection Ha as ->. rewrite (cv_id _ Hinv _ _ Hw), Hw. simpl. by rewrite Hs.
  - destruct (selectWorker _ req ordW rand) as [[key w1]|] eqn:Hs; [|done]. intros [= <-].
    apply selectWorker_sound in Hs as [Hw [Hs _]%eligible_spec]. simpl in *.
    rewrite (cv_id _ Hinv _ _ Hw), Hw. simpl. by rewrite Hs.
Qed.

(** ** The coordinator's guarantees over runs *)

(** Whatever the order of assignments, registrations, heartbeats, health
    checks, reassignments, completions and rebalancings, a coordinator started
    with no workers keeps every worker under its own ID with a load between 0
    and its capacity, and never leaves an execution assigned to a worker it no
    longer knows. *)
Lemma coordinator_invariant c :
  rtc (coord_step (λ _, True)) NewCoordinator c →
  (∀ id w, coWorkers c !! id = Some w → wnID w = id ∧ (0 ≤ wnCurrentLoad w ≤ wnCapacity w)%Z) ∧
  (∀ exec id, coPartitions c !! exec = Some id → is_Some (coWorkers c !! id)).
Proof.
  intros Hrun. assert (coord_inv c) as [].
  { apply (rtc_preserve _ coord_inv) in Hrun; [done| |].
    - intros c1 c2 Hs Hi. by eapply coord_step_inv.
    - split; simpl; [intros ?? ?%lookup_empty_Some..|]; done. }
  split; [|done]. intros id w Hw. eauto.
Qed.

(** A worker that the health check has marked offline stays offline until
    it is registered again, however many heartbeats it sends, and is given no
    work in between. *)
Lemma offline_absorbing c c' id exec workflowID req ordW rand :
  coord_inv c → wnStatus <$> coWorkers c !! id = Some WorkerStatusOffline →
  rtc (coord_step (λ x, x ≠ id)) c c' →
  wnStatus <$> coWorkers c' !! id = Some WorkerStatusOffline ∧
  ∀ w, (AssignWork c' exec workflowID req ordW rand).1.1 = Ok w → wnID w ≠ id.
Proof.
  intros Hinv Hoff Hrun.
  apply (rtc_preserve _ (λ c, coord_inv c ∧ wnStatus <$> coWorkers c !! id = Some WorkerStatusOffline)) in Hrun
    as [Hinv' Hoff']; [| |done].
  - split; [done|]. intros w Hw Hid. apply assign_active in Hw; [|done].
    rewrite Hid, Hoff' in Hw. done.
  - intros c1 c2 Hs [Hi Ho]. destruct (coord_step_inv _ _ _ Hs Hi) as [Hi2 Hk]. split; [done|].
    apply Hk; [|done]. by intros ?.
Qed.

(** Registering a worker, then giving it work. *)
Definition sample_final : Coordinator :=
  (AssignWork (RegisterWorker NewCoordinator (sample_worker "w1" 0) 0 0 None).1.2 "e1" "wf"
     sample_requirements ["w1"] (λ _, 0%Z)).1.2.

Lemma sample_run : rtc (coord_step (λ _, True)) NewCoordinator sample_final.
Proof.
  eapply rtc_l; [by apply (cs_register _ _ (sample_worker "w1" 0) 0 0 None)|].
  eapply rtc_l; [apply cs_assign|]. apply rtc_refl.
Qed.

Lemma sample_final_facts :
  coWorkers sample_final !! "w1" = Some (sample_worker "w1" 1) ∧
  coPartitions sample_final !! "e1" = Some "w1".
Proof. by vm_compute. Qed.

Lemma coordinator_invariant_witness :
  (0 ≤ wnCurrentLoad (sample_worker "w1" 1) ≤ 4)%Z ∧ is_Some (coWorkers sample_final !! "w1").
Proof.
  destruct sample_final_facts as [Hw He]. destruct (coordinator_invariant _ sample_run) as [H1 H2].
  split; [exact (proj2 (H1 _ _ Hw))|exact (H2 _ _ He)].
Defined.

(** The worker misses its heartbeats, is marked offline and then reports
    itself healthy again. *)
Definition healthy_report : WorkerMetrics :=
  {| wmtCurrentLoad := 0; wmtExecutionsCompleted := 0; wmtExecutionsFailed := 0;
     wmtAverageExecutionTime := 0; wmtHealthy := true |}.
Definition sample_offline : Coordinator :=
  (performHealthCheck sample_coordinator (61 * 1000000000) ["w1"]).1.

Lemma sample_offline_facts :
  coord_inv sample_offline ∧
  wnStatus <$> coWorkers sample_offline !! "w1" = Some WorkerStatusOffline.
Proof.
  split; [|by vm_compute].
  by apply (health_step (λ _, True) sample_coordinator (61 * 1000000000) ["w1"]), sample_coordinator_inv.
Qed.

Lemma sample_recovery :
  rtc (coord_step (λ x, x ≠ "w1")) sample_offline
    (UpdateWorkerHeartbeat sample_offline "w1" healthy_report (62 * 1000000000)).2.
Proof.
  apply rtc_once, cs_heartbeat. intros w Hw.
  destruct sample_offline_facts as [Hinv _]. apply (cv_load _ Hinv) in Hw. simpl. lia.
Qed.

Lemma offline_absorbing_witness :
  wnStatus <$> coWorkers
    (UpdateWorkerHeartbeat sample_offline "w1" healthy_report (62 * 1000000000)).2 !! "w1"
  = Some WorkerStatusOffline.
Proof.
  destruct sample_offline_facts as [H1 H2].
  exact (proj1 (offline_absorbing sample_offline _ "w1" "e" "wf" sample_requirements [] (λ _, 0%Z)
    H1 H2 sample_recovery)).
Defined.
