(* ===== verification/Sharing.v ===== *)
(** internal/workflow/app/sharing/manager.go: who may do what with a workflow:
    shares, share links, and the permission hierarchy. *)

From S2P Require Import Prelude GoValue.

(** ** Data *)

Definition PermissionView := "view".
Definition PermissionEdit := "edit".
Definition PermissionExecute := "execute".
Definition PermissionAdmin := "admin".

Definition ShareTypeUser := "user".
Definition ShareTypePublic := "public".

Definition ErrShareNotFound := "share not found".
Definition ErrInvalidPermission := "invalid permission level".

Record WorkflowShare := {
  wsID : string;
  wsWorkflowID : string;
  wsSharedWithID : string;
  wsSharedWithType : string;
  wsPermission : string;
  wsSharedBy : string;
  wsExpiresAt : option Z;
  wsCreatedAt : Z;
  wsUpdatedAt : Z
}.

Record ShareLink := {
  slID : string;
  slWorkflowID : string;
  slToken : string;
  slPermission : string;
  slPassword : string;
  slMaxUses : Z;
  slUsedCount : Z;
  slExpiresAt : option Z;
  slCreatedBy : string;
  slCreatedAt : Z;
  slLastUsedAt : option Z
}.

(** The two tables of the database. *)
Record SharingManager := {
  shShares : list WorkflowShare;
  shLinks : list ShareLink
}.

Definition NewSharingManager : SharingManager := {| shShares := []; shLinks := [] |}.

(** ** Permissions *)

Definition isValidPermission (permission : string) : bool :=
  bool_decide (permission ∈ [PermissionView; PermissionEdit; PermissionExecute; PermissionAdmin]).

Definition hierarchy : gmap string Z :=
  {[PermissionView := 1; PermissionExecute := 2; PermissionEdit := 3; PermissionAdmin := 4]}%Z.

Definition hasPermission (grantedPermission requiredPermission : string) : bool :=
  bool_decide (get_int hierarchy requiredPermission ≤ get_int hierarchy grantedPermission)%Z.

Definition getPermissionSet (permission : string) : list string :=
  if bool_decide (permission = PermissionAdmin)
  then [PermissionView; PermissionExecute; PermissionEdit; PermissionAdmin]
  else if bool_decide (permission = PermissionEdit)
  then [PermissionView; PermissionExecute; PermissionEdit]
  else if bool_decide (permission = PermissionExecute) then [PermissionView; PermissionExecute]
  else if bool_decide (permission = PermissionView) then [PermissionView]
  else [].

(** ** Queries *)

Definition share_key (workflowID withID withType : string) (s : WorkflowShare) : bool :=
  bool_decide (wsWorkflowID s = workflowID) && bool_decide (wsSharedWithID s = withID)
  && bool_decide (wsSharedWithType s = withType).

(** [expires_at IS NULL OR expires_at > now]. *)
Definition unexpired (now : Z) (e : option Z) : bool :=
  match e with None => true | Some t => bool_decide (now < t)%Z end.
(** [expires_at IS NOT NULL AND expires_at < now]. *)
Definition expired (now : Z) (e : option Z) : bool :=
  match e with None => false | Some t => bool_decide (t < now)%Z end.

Definition public_share (workflowID : string) (s : WorkflowShare) : bool :=
  bool_decide (wsWorkflowID s = workflowID) && bool_decide (wsSharedWithType s = ShareTypePublic).

Section Sharing.
(** The order of the primary keys, by the collation of the database. *)
Context (id_leb : string → string → bool).

(** GORM's [First]: the matching row with the least primary key. *)
Definition first_row {A} (id : A → string) (P : A → bool) (rows : list A) : option A :=
  foldl (λ acc r,
    if P r then
      match acc with
      | None => Some r
      | Some a => if id_leb (id a) (id r) then acc else Some r
      end
    else acc) None rows.

(** One [First] query; [err] is a failure of the database. *)
Definition First {A} (id : A → string) (P : A → bool) (rows : list A) (err : option string) :
    result A :=
  match err with
  | Some e => Err e
  | None => match first_row id P rows with Some r => Ok r | None => Err "record not found" end
  end.

Definition direct_share (sm : SharingManager) (workflowID userID : string) (now : Z)
    (err : option string) : result WorkflowShare :=
  First wsID (λ s, share_key workflowID userID ShareTypeUser s && unexpired now (wsExpiresAt s))
    (shShares sm) err.

(** ** Sharing *)

(** [ShareWorkflow]; [errs] are the failures of its two database calls. *)
Definition ShareWorkflow (sm : SharingManager) (share : WorkflowShare) (errs : option string * option string)
    (uuid : string) (t1 t2 : Z) : result unit * SharingManager :=
  if negb (isValidPermission (wsPermission share)) then (Err ErrInvalidPermission, sm)
  else
    match First wsID (share_key (wsWorkflowID share) (wsSharedWithID share) (wsSharedWithType share))
            (shShares sm) errs.1 with
    | Ok existing =>
        match errs.2 with
        | Some e => (Err ("failed to update share: " +:+ e), sm)
        | None =>
            let updated :=
              {| wsID := wsID existing; wsWorkflowID := wsWorkflowID existing;
                 wsSharedWithID := wsSharedWithID existing;
                 wsSharedWithType := wsSharedWithType existing; wsPermission := wsPermission share;
                 wsSharedBy := wsSharedBy existing; wsExpiresAt := wsExpiresAt share;
                 wsCreatedAt := wsCreatedAt existing; wsUpdatedAt := t1 |} in
            (Ok tt, {| shShares := (λ s, if bool_decide (wsID s = wsID existing) then updated else s)
                                     <$> shShares sm;
                       shLinks := shLinks sm |})
        end
    | Err _ =>
        match errs.2 with
        | Some e => (Err ("failed to create share: " +:+ e), sm)
        | None =>
            if bool_decide (uuid ∈ wsID <$> shShares sm)
            then (Err "failed to create share: duplicate key value", sm)
            else
              (Ok tt, {| shShares := shShares sm ++
                           [{| wsID := uuid; wsWorkflowID := wsWorkflowID share;
                               wsSharedWithID := wsSharedWithID share;
                               wsSharedWithType := wsSharedWithType share;
                               wsPermission := wsPermission share; wsSharedBy := wsSharedBy share;
                               wsExpiresAt := wsExpiresAt share; wsCreatedAt := t1;
                               wsUpdatedAt := t2 |}];
                         shLinks := shLinks sm |})
        end
    end.

(** [Delete] with a condition: the rows left, and how many were removed. *)
Definition delete_rows {A} (P : A → bool) (rows : list A) : list A * nat :=
  (filter (λ r, P r = false) rows, length (filter (λ r, P r = true) rows)).

Definition UnshareWorkflow (sm : SharingManager) (workflowID withID withType : string)
    (err : option string) : result unit * SharingManager :=
  match err with
  | Some e => (Err ("failed to unshare workflow: " +:+ e), sm)
  | None =>
      let '(rows, n) := delete_rows (share_key workflowID withID withType) (shShares sm) in
      (if bool_decide (n = 0) then Err ErrShareNotFound else Ok tt,
       {| shShares := rows; shLinks := shLinks sm |})
  end.

Definition GetWorkflowShares (sm : SharingManager) (workflowID : string) (err : option string) :
    result (list WorkflowShare) :=
  match err with
  | Some e => Err ("failed to get workflow shares: " +:+ e)
  | None => Ok (filter (λ s, wsWorkflowID s = workflowID) (shShares sm))
  end.

Definition GetUserSharedWorkflows (sm : SharingManager) (userID : string) (now : Z)
    (err : option string) : result (list WorkflowShare) :=
  match err with
  | Some e => Err ("failed to get user shared workflows: " +:+ e)
  | None => Ok (filter (λ s, wsSharedWithID s = userID ∧ wsSharedWithType s = ShareTypeUser ∧
                          unexpired now (wsExpiresAt s) = true) (shShares sm))
  end.

(** [TransferOwnership] ignores the outcome of the deletion. *)
Definition TransferOwnership (sm : SharingManager) (workflowID toUserID : string)
    (err : option string) : SharingManager :=
  match err with
  | Some _ => sm
  | None =>
      {| shShares := (delete_rows (λ s, bool_decide (wsWorkflowID s = workflowID)
                         && bool_decide (wsSharedWithID s = toUserID)) (shShares sm)).1;
         shLinks := shLinks sm |}
  end.

(** ** Access *)

(** [CheckPermission]; [errs] are the failures of its two queries. *)
Definition CheckPermission (sm : SharingManager) (workflowID userID permission : string) (now : Z)
    (errs : option string * option string) : bool :=
  match direct_share sm workflowID userID now errs.1 with
  | Ok share => hasPermission (wsPermission share) permission
  | Err _ =>
      match First wsID (public_share workflowID) (shShares sm) errs.2 with
      | Ok share => hasPermission (wsPermission share) permission
      | Err _ => false
      end
  end.

(** The set [GetUserPermissions] turns into a slice, in the order of a map. *)
Definition GetUserPermissions (sm : SharingManager) (workflowID userID : string) (now : Z)
    (errs : option string * option string) : gset string :=
  let granted (r : result WorkflowShare) : gset string :=
    match r with Ok s => list_to_set (getPermissionSet (wsPermission s)) | Err _ => ∅ end in
  granted (direct_share sm workflowID userID now errs.1)
  ∪ granted (First wsID (public_share workflowID) (shShares sm) errs.2).

(** ** Share links *)

Definition CreateShareLink (sm : SharingManager) (link : ShareLink) (uuid token : string) (now : Z)
    (err : option string) : result unit * SharingManager :=
  let link :=
    {| slID := uuid; slWorkflowID := slWorkflowID link; slToken := token;
       slPermission := slPermission link; slPassword := slPassword link;
       slMaxUses := slMaxUses link; slUsedCount := 0; slExpiresAt := slExpiresAt link;
       slCreatedBy := slCreatedBy link; slCreatedAt := now; slLastUsedAt := slLastUsedAt link |} in
  match err with
  | Some e => (Err ("failed to create share link: " +:+ e), sm)
  | None =>
      if bool_decide (uuid ∈ slID <$> shLinks sm) || bool_decide (token ∈ slToken <$> shLinks sm)
      then (Err "failed to create share link: duplicate key value", sm)
      else (Ok tt, {| shShares := shShares sm; shLinks := shLinks sm ++ [link] |})
  end.

Definition GetShareLink (sm : SharingManager) (token : string) (now : Z) (err : option string) :
    result ShareLink :=
  match err with
  | Some e => Err ("failed to get share link: " +:+ e)
  | None =>
      match first_row slID (λ l, bool_decide (slToken l = token)) (shLinks sm) with
      | None => Err ErrShareNotFound
      | Some link =>
          if expired now (slExpiresAt link) then Err "share link expired"
          else if bool_decide (0 < slMaxUses link)%Z && bool_decide (slMaxUses link ≤ slUsedCount link)%Z
          then Err "share link usage limit reached"
          else Ok link
      end
  end.

Definition use_link (now : Z) (l : ShareLink) : ShareLink :=
  {| slID := slID l; slWorkflowID := slWorkflowID l; slToken := slToken l;
     slPermission := slPermission l; slPassword := slPassword l; slMaxUses := slMaxUses l;
     slUsedCount := slUsedCount l + 1; slExpiresAt := slExpiresAt l; slCreatedBy := slCreatedBy l;
     slCreatedAt := slCreatedAt l; slLastUsedAt := Some now |}.

Definition UseShareLink (sm : SharingManager) (token : string) (now : Z) (err : option string) :
    result unit * SharingManager :=
  match err with
  | Some e => (Err ("failed to update share link usage: " +:+ e), sm)
  | None =>
      let matches l := bool_decide (slToken l = token) in
      (if bool_decide (length (filter (λ l, matches l = true) (shLinks sm)) = 0)
       then Err ErrShareNotFound else Ok tt,
       {| shShares := shShares sm;
          shLinks := (λ l, if matches l then use_link now l else l) <$> shLinks sm |})
  end.

Definition DeleteShareLink (sm : SharingManager) (linkID : string) (err : option string) :
    result unit * SharingManager :=
  match err with
  | Some e => (Err ("failed to delete share link: " +:+ e), sm)
  | None =>
      let '(rows, n) := delete_rows (λ l, bool_decide (slID l = linkID)) (shLinks sm) in
      (if bool_decide (n = 0) then Err ErrShareNotFound else Ok tt,
       {| shShares := shShares sm; shLinks := rows |})
  end.

(** [CleanupExpiredShares]: two deletions, the second only after the first. *)
Definition CleanupExpiredShares (sm : SharingManager) (now1 now2 : Z)
    (errs : option string * option string) : result unit * SharingManager :=
  match errs.1 with
  | Some e => (Err ("failed to cleanup expired shares: " +:+ e), sm)
  | None =>
      let sm := {| shShares := (delete_rows (λ s, expired now1 (wsExpiresAt s)) (shShares sm)).1;
                   shLinks := shLinks sm |} in
      match errs.2 with
      | Some e => (Err ("failed to cleanup expired share links: " +:+ e), sm)
      | None =>
          (Ok tt, {| shShares := shShares sm;
                     shLinks := (delete_rows (λ l, expired now2 (slExpiresAt l)) (shLinks sm)).1 |})
      end
  end.

(** ** Queries find what they look for *)

Lemma first_row_filter {A} (id : A → string) (P : A → bool) rows :
  first_row id P rows = first_row id P (filter (λ r, P r = true) rows).
Proof.
  unfold first_row. generalize (@None A). induction rows as [|r rows IH]; intros acc; [done|].
  rewrite filter_cons. cbn [foldl]. case_decide as HP; cbn [foldl]; rewrite ?HP; [by rewrite IH|].
  apply not_true_iff_false in HP. by rewrite HP, IH.
Qed.

Lemma first_row_spec {A} (id : A → string) (P : A → bool) rows :
  match first_row id P rows with
  | Some r => r ∈ rows ∧ P r = true
  | None => ∀ r, r ∈ rows → P r = false
  end.
Proof.
  unfold first_row. induction rows as [|r rows IH] using rev_ind; [by intros r ?%elem_of_nil|].
  rewrite foldl_snoc. destruct (foldl _ _ rows) as [a|], (P r) eqn:HP.
  - destruct IH. destruct (id_leb _ _); (split; [set_solver|done]).
  - destruct IH. split; [set_solver|done].
  - split; [set_solver|done].
  - intros r' [?| ->%list_elem_of_singleton]%elem_of_app; auto.
Qed.

(** A query with one matching row finds it. *)
Lemma First_unique {A} (id : A → string) (P : A → bool) rows r :
  r ∈ rows → P r = true → (∀ r', r' ∈ rows → P r' = true → r' = r) → First id P rows None = Ok r.
Proof.
  intros Hr HP Hu. unfold First. pose proof (first_row_spec id P rows) as Hs.
  destruct (first_row id P rows) as [r'|].
  - destruct Hs as [Hr' HP']. by rewrite (Hu r').
  - by rewrite Hs in HP.
Qed.

Lemma First_none {A} (id : A → string) (P : A → bool) rows :
  (∀ r, r ∈ rows → P r = false) → First id P rows None = Err "record not found".
Proof.
  intros Hn. unfold First. pose proof (first_row_spec id P rows) as Hs.
  destruct (first_row id P rows) as [r|]; [|done]. destruct Hs as [Hr HP]. rewrite Hn in HP; done.
Qed.

(** A query sees only the matching rows. *)
Lemma First_same {A} (id : A → string) (P : A → bool) rows rows' err :
  filter (λ r, P r = true) rows = filter (λ r, P r = true) rows' →
  First id P rows err = First id P rows' err.
Proof.
  intros H. unfold First. by rewrite (first_row_filter _ _ rows), (first_row_filter _ _ rows'), H.
Qed.

Lemma share_key_spec wf u t s :
  share_key wf u t s = true ↔ wsWorkflowID s = wf ∧ wsSharedWithID s = u ∧ wsSharedWithType s = t.
Proof. unfold share_key. rewrite !andb_true_iff, !bool_decide_eq_true. naive_solver. Qed.

(** ** The hierarchy of permissions *)

Lemma permission_cases p : isValidPermission p = true →
  p = PermissionView ∨ p = PermissionEdit ∨ p = PermissionExecute ∨ p = PermissionAdmin.
Proof. intros H%bool_decide_eq_true. set_solver. Qed.

(** The numeric levels and the listed permissions say the same. *)
Lemma hasPermission_set g p :
  isValidPermission g = true → isValidPermission p = true →
  hasPermission g p = true ↔ p ∈ getPermissionSet g.
Proof.
  intros [->|[->|[->| ->]]]%permission_cases [->|[->|[->| ->]]]%permission_cases;
    vm_compute; split; intros; try done; set_solver.
Qed.

Lemma hasPermission_trans g p q :
  hasPermission g p = true → hasPermission p q = true → hasPermission g q = true.
Proof. unfold hasPermission. rewrite !bool_decide_eq_true. lia. Qed.

(** ** Invariant *)

Record sharing_inv (sm : SharingManager) : Prop := {
  si_ids : NoDup (wsID <$> shShares sm);
  si_unique : ∀ s s', s ∈ shShares sm → s' ∈ shShares sm →
    share_key (wsWorkflowID s) (wsSharedWithID s) (wsSharedWithType s) s' = true → s = s';
  si_valid : ∀ s, s ∈ shShares sm → isValidPermission (wsPermission s) = true;
  si_tokens : NoDup (slToken <$> shLinks sm)
}.

Lemma same_id (A : Type) (id : A → string) rows x y :
  NoDup (id <$> rows) → x ∈ rows → y ∈ rows → id x = id y → x = y.
Proof.
  intros Hnd [i Hi]%list_elem_of_lookup [j Hj]%list_elem_of_lookup Hid.
  assert (i = j) as ->; [|congruence]. eapply (NoDup_lookup _ _ _ (id x) Hnd); rewrite list_lookup_fmap.
  - by rewrite Hi.
  - rewrite Hj. simpl. by rewrite Hid.
Qed.

(** The row [ShareWorkflow] writes. *)
Definition written_row (share s : WorkflowShare) : Prop :=
  share_key (wsWorkflowID share) (wsSharedWithID share) (wsSharedWithType share) s = true ∧
  wsPermission s = wsPermission share ∧ wsExpiresAt s = wsExpiresAt share.

(** What a [ShareWorkflow] that succeeds leaves behind. *)
Record shared (sm sm' : SharingManager) (share s : WorkflowShare) : Prop := {
  sd_row : written_row share s;
  sd_elem : ∀ x, x ∈ shShares sm' ↔
    x = s ∨ x ∈ shShares sm ∧ share_key (wsWorkflowID s) (wsSharedWithID s) (wsSharedWithType s) x = false;
  sd_ids : NoDup (wsID <$> shShares sm');
  sd_other : ∀ P : WorkflowShare → bool,
    (∀ x, share_key (wsWorkflowID s) (wsSharedWithID s) (wsSharedWithType s) x = true → P x = false) →
    filter (λ x, P x = true) (shShares sm') = filter (λ x, P x = true) (shShares sm);
  sd_links : shLinks sm' = shLinks sm
}.

Lemma filter_fmap_same {A} (P : A → bool) (f : A → A) (rows : list A) :
  (∀ x, x ∈ rows → f x = x ∨ P x = false ∧ P (f x) = false) →
  filter (λ x, P x = true) (f <$> rows) = filter (λ x, P x = true) rows.
Proof.
  induction rows as [|x rows IH]; intros Hf; [done|]. rewrite fmap_cons, !filter_cons, IH.
  - destruct (Hf x) as [->|[-> ->]]; [left|done|done].
  - intros y Hy. apply Hf. by right.
Qed.

Lemma share_updated sm ex s share :
  sharing_inv sm → ex ∈ shShares sm → wsID s = wsID ex → written_row share s →
  share_key (wsWorkflowID s) (wsSharedWithID s) (wsSharedWithType s) ex = true →
  shared sm {| shShares := (λ x, if bool_decide (wsID x = wsID ex) then s else x) <$> shShares sm;
               shLinks := shLinks sm |} share s.
Proof.
  intros Hinv Hex Hid Hw Hk. set (f := λ x, if bool_decide (wsID x = wsID ex) then s else x).
  assert (∀ x, x ∈ shShares sm → x = ex ∧ f x = s ∨ x ≠ ex ∧ f x = x) as Hf.
  { intros x Hx. unfold f. case_bool_decide as E; [left|right]; split; try done; [|congruence].
    by eapply (same_id _ wsID); [apply Hinv| | |]. }
  assert (∀ x, x ∈ shShares sm → wsID (f x) = wsID x) as Hfid.
  { intros x Hx. by destruct (Hf x Hx) as [[-> ->]|[_ ->]]. }
  split; simpl; [done| | | |done].
  - intros x. rewrite list_elem_of_fmap. split.
    + intros (y & -> & Hy). destruct (Hf y Hy) as [[_ ->]|[Hne ->]]; [by left|]. right. split; [done|].
      apply not_true_iff_false. intros Hky. apply Hne. symmetry. apply (si_unique _ Hinv); [done..|].
      apply share_key_spec in Hk as (-> & -> & ->). done.
    + intros [->|[Hx Hkx]].
      * exists ex. split; [|done]. destruct (Hf ex Hex) as [[_ ->]|[]]; done.
      * exists x. split; [|done]. destruct (Hf x Hx) as [[-> _]|[_ ->]]; [congruence|done].
  - rewrite <- list_fmap_compose. erewrite list_fmap_ext; [apply Hinv|].
    intros i x Hx%list_elem_of_lookup_2. by apply Hfid.
  - intros P HP. apply filter_fmap_same. intros x Hx. destruct (Hf x Hx) as [[-> ->]|[_ ?]]; [right|by left].
    split; apply HP; [done|]. by apply share_key_spec.
Qed.

Lemma share_created sm s share :
  sharing_inv sm → wsID s ∉ wsID <$> shShares sm → written_row share s →
  (∀ x, x ∈ shShares sm → share_key (wsWorkflowID s) (wsSharedWithID s) (wsSharedWithType s) x = false) →
  shared sm {| shShares := shShares sm ++ [s]; shLinks := shLinks sm |} share s.
Proof.
  intros Hinv Hid Hw Hn. split; simpl; [done| | | |done].
  - intros x. rewrite elem_of_app, list_elem_of_singleton. naive_solver.
  - rewrite fmap_app. apply NoDup_app. split_and!; [apply Hinv| |apply NoDup_singleton].
    intros x Hx ->%list_elem_of_singleton. done.
  - intros P HP. rewrite filter_app, (filter_none _ [s]), app_nil_r; [done|].
    intros x ->%list_elem_of_singleton. rewrite HP; [done|]. by apply share_key_spec.
Qed.

Lemma ShareWorkflow_ok sm share e2 uuid t1 t2 sm' :
  sharing_inv sm → ShareWorkflow sm share (None, e2) uuid t1 t2 = (Ok tt, sm') →
  isValidPermission (wsPermission share) = true ∧ ∃ s, shared sm sm' share s.
Proof.
  intros Hinv. unfold ShareWorkflow, First. destruct (isValidPermission _) eqn:Hv; [|done]. cbn [negb fst snd].
  set (key := share_key _ _ _). pose proof (first_row_spec wsID key (shShares sm)) as Hf.
  destruct (first_row wsID key (shShares sm)) as [ex|]; (destruct e2; [done|]).
  - destruct Hf as [Hex Hk]. intros [= <-]. split; [done|].
    pose proof (proj1 (share_key_spec _ _ _ _) Hk) as (E1 & E2 & E3).
    eexists. apply share_updated; try done.
    unfold written_row. rewrite share_key_spec. simpl. auto.
  - case_bool_decide as Hu; [done|]. intros [= <-]. split; [done|]. eexists.
    apply share_created; try done. unfold written_row. rewrite share_key_spec. auto.
Qed.

Lemma shared_inv sm sm' share s :
  sharing_inv sm → isValidPermission (wsPermission share) = true → shared sm sm' share s → sharing_inv sm'.
Proof.
  intros Hinv Hv [Hrow Hel Hids _ Hl]. destruct Hrow as (Hk & Hp & _).
  assert (∀ x y, share_key (wsWorkflowID x) (wsSharedWithID x) (wsSharedWithType x) y = true →
                 share_key (wsWorkflowID y) (wsSharedWithID y) (wsSharedWithType y) x = true) as Hsym.
  { intros x y (-> & -> & ->)%share_key_spec. by apply share_key_spec. }
  split; [done| | |].
  - intros x y [->|[Hx Hxk]]%Hel [->|[Hy Hyk]]%Hel Hxy; [done| | |by apply (si_unique _ Hinv)].
    + congruence.
    + apply Hsym in Hxy. congruence.
  - intros x [->|[Hx _]]%Hel; [by rewrite Hp|by apply Hinv].
  - rewrite Hl. apply Hinv.
Qed.

(** ** Sharing and then asking *)

Lemma direct_share_shared sm sm' share s wf u now :
  shared sm sm' share s → wsSharedWithType share = ShareTypeUser →
  direct_share sm' wf u now None =
  if decide (wf = wsWorkflowID share ∧ u = wsSharedWithID share) then
    if unexpired now (wsExpiresAt share) then Ok s else Err "record not found"
  else direct_share sm wf u now None.
Proof.
  intros [(Hk & Hp & He) Hel _ Hother _] Ht. unfold direct_share.
  apply share_key_spec in Hk as (E1 & E2 & E3). rewrite Ht in E3. rewrite E1, E2, E3 in *.
  case_decide as Hd.
  - destruct Hd as [-> ->]. destruct (unexpired now (wsExpiresAt share)) eqn:Hu.
    + apply First_unique; [by apply Hel; left| |].
      * rewrite He, Hu, andb_true_r. by apply share_key_spec.
      * intros r [->|[_ Hr]]%Hel Hr'; [done|]. by rewrite Hr in Hr'.
    + apply First_none. intros r [->|[_ ->]]%Hel; [|done]. by rewrite He, Hu, andb_false_r.
  - apply First_same, Hother. intros x (E1' & E2' & E3')%share_key_spec. apply andb_false_iff. left.
    apply not_true_iff_false. intros (F1 & F2 & _)%share_key_spec. apply Hd. split; congruence.
Qed.

Lemma public_shared sm sm' share s wf err :
  shared sm sm' share s → wsSharedWithType share = ShareTypeUser →
  First wsID (public_share wf) (shShares sm') err = First wsID (public_share wf) (shShares sm) err.
Proof.
  intros [(Hk & _) _ _ Hother _] Ht. apply First_same, Hother.
  apply share_key_spec in Hk as (_ & _ & E3). rewrite Ht in E3.
  intros x (_ & _ & E)%share_key_spec. unfold public_share. apply andb_false_iff. right.
  rewrite bool_decide_eq_false, E, E3. done.
Qed.

(** Sharing a workflow with a user gives that user, until the share
    expires, exactly the permissions of the granted level, as [CheckPermission]
    answers and as [GetUserPermissions] lists them, whatever the user had
    before; and it changes no other user's access and no access to another
    workflow. *)
Lemma share_then_check sm share uuid t1 t2 sm' :
  sharing_inv sm → wsSharedWithType share = ShareTypeUser →
  ShareWorkflow sm share (None, None) uuid t1 t2 = (Ok tt, sm') →
  let wf := wsWorkflowID share in
  let u := wsSharedWithID share in
  (∀ now p, unexpired now (wsExpiresAt share) = true → isValidPermission p = true →
     (CheckPermission sm' wf u p now (None, None) = true ↔ p ∈ getPermissionSet (wsPermission share)) ∧
     (p ∈ getPermissionSet (wsPermission share) → p ∈ GetUserPermissions sm' wf u now (None, None))) ∧
  ∀ wf' u' p now, (wf', u') ≠ (wf, u) →
    CheckPermission sm' wf' u' p now (None, None) = CheckPermission sm wf' u' p now (None, None) ∧
    GetUserPermissions sm' wf' u' now (None, None) = GetUserPermissions sm wf' u' now (None, None).
Proof.
  intros Hinv Ht Hsh wf u. destruct (ShareWorkflow_ok _ _ _ _ _ _ _ Hinv Hsh) as (Hv & s & Hs).
  pose proof (direct_share_shared sm sm' share s) as Hd. pose proof (sd_row _ _ _ _ Hs) as (_ & Hp & _).
  split.
  - intros now p Hu Hvp. unfold CheckPermission, GetUserPermissions. cbn [fst].
    rewrite (Hd wf u now Hs Ht), decide_True, Hu, Hp by done. split; [by apply hasPermission_set|].
    intros Hin. apply elem_of_union_l, elem_of_list_to_set. done.
  - intros wf' u' p now Hne. unfold CheckPermission, GetUserPermissions. cbn [fst snd].
    rewrite (Hd wf' u' now Hs Ht), decide_False by naive_solver.
    by rewrite (public_shared _ _ _ _ _ _ Hs Ht).
Qed.

(** ** Runs *)

(** The operations, one at a time in any order, with any failures; [lookups]
    says that the look-up of an existing share by [ShareWorkflow] does not fail. *)
Inductive sharing_step (lookups : bool) : SharingManager → SharingManager → Prop :=
| ss_share sm share errs uuid t1 t2 : (lookups = true → errs.1 = None) →
    sharing_step lookups sm (ShareWorkflow sm share errs uuid t1 t2).2
| ss_unshare sm wf u t err : sharing_step lookups sm (UnshareWorkflow sm wf u t err).2
| ss_transfer sm wf u err : sharing_step lookups sm (TransferOwnership sm wf u err)
| ss_create_link sm l uuid token now err : sharing_step lookups sm (CreateShareLink sm l uuid token now err).2
| ss_use sm token now err : sharing_step lookups sm (UseShareLink sm token now err).2
| ss_delete_link sm id err : sharing_step lookups sm (DeleteShareLink sm id err).2
| ss_cleanup sm now1 now2 errs : sharing_step lookups sm (CleanupExpiredShares sm now1 now2 errs).2.

(** What holds whatever fails. *)
Definition rows_valid (sm : SharingManager) : Prop :=
  (∀ s, s ∈ shShares sm → isValidPermission (wsPermission s) = true) ∧ NoDup (slToken <$> shLinks sm).
(** What needs the look-ups. *)
Definition one_share (sm : SharingManager) : Prop :=
  NoDup (wsID <$> shShares sm) ∧ ∀ s s', s ∈ shShares sm → s' ∈ shShares sm →
    share_key (wsWorkflowID s) (wsSharedWithID s) (wsSharedWithType s) s' = true → s = s'.

Lemma sharing_inv_split sm : sharing_inv sm ↔ rows_valid sm ∧ one_share sm.
Proof. clear. split; [intros []; by repeat split|]. by intros [[? ?] [? ?]]. Qed.

Lemma NoDup_deleted {A B} (f : A → B) (P : A → bool) (l : list A) :
  NoDup (f <$> l) → NoDup (f <$> (delete_rows P l).1).
Proof. clear. intros H. eapply sublist_NoDup; [exact H|]. apply fmap_sublist, sublist_filter. Qed.

Lemma delete_rows_valid sm P Q :
  rows_valid sm → rows_valid {| shShares := (delete_rows P (shShares sm)).1; shLinks := (delete_rows Q (shLinks sm)).1 |}.
Proof. clear. intros [Hv Ht]. split; [|by apply NoDup_deleted]. intros s [_ Hs]%list_elem_of_filter. auto. Qed.

Lemma delete_one_share sm P links :
  one_share sm → one_share {| shShares := (delete_rows P (shShares sm)).1; shLinks := links |}.
Proof.
  clear. intros [Hi Hu]. split; [by apply NoDup_deleted|].
  intros s s' [_ Hs]%list_elem_of_filter [_ Hs']%list_elem_of_filter. auto.
Qed.

Lemma delete_nothing {A} (rows : list A) : (delete_rows (λ _, false) rows).1 = rows.
Proof. by apply filter_all. Qed.

Lemma ShareWorkflow_valid sm share errs uuid t1 t2 :
  rows_valid sm → rows_valid (ShareWorkflow sm share errs uuid t1 t2).2.
Proof.
  intros [Hv Ht]. unfold ShareWorkflow. destruct (isValidPermission (wsPermission share)) eqn:Hp; [|done]. simpl.
  destruct (First _ _ _ _) as [ex|]; (destruct errs.2; [done|]).
  - split; [|done]. intros s (y & -> & Hy)%list_elem_of_fmap. case_bool_decide; [done|by apply Hv].
  - case_bool_decide; [done|]. split; [|done].
    intros s [Hs| ->%list_elem_of_singleton]%elem_of_app; [by apply Hv|done].
Qed.

Lemma sharing_step_valid b sm sm' : sharing_step b sm sm' → rows_valid sm → rows_valid sm'.
Proof.
  intros Hstep Hinv. destruct Hstep as [sm share errs uuid t1 t2 _|sm wf u t err|sm wf u err
    |sm l uuid token now err|sm token now err|sm id err|sm now1 now2 errs].
  - by apply ShareWorkflow_valid.
  - destruct err; simpl; [done|]. rewrite <- (delete_nothing (shLinks sm)). by apply delete_rows_valid.
  - destruct err; simpl; [done|]. rewrite <- (delete_nothing (shLinks sm)). by apply delete_rows_valid.
  - unfold CreateShareLink. destruct err; [done|]. destruct (_ || _) eqn:Hd; [done|].
    apply orb_false_iff in Hd as [_ Hd%bool_decide_eq_false]. destruct Hinv as [Hv Ht]. split; [done|]. simpl.
    rewrite fmap_app. apply NoDup_app. split_and!; [done| |apply NoDup_singleton].
    intros x Hx ->%list_elem_of_singleton. done.
  - destruct err; [done|]. destruct Hinv as [Hv Ht]. split; [done|]. simpl.
    rewrite <- list_fmap_compose. erewrite list_fmap_ext; [done|]. intros i x _. simpl.
    by destruct (bool_decide (slToken x = token)).
  - unfold DeleteShareLink. destruct err; simpl; [done|]. rewrite <- (delete_nothing (shShares sm)).
    by apply delete_rows_valid.
  - unfold CleanupExpiredShares. destruct errs as [[e1|] [e2|]]; simpl; [done..| |by apply delete_rows_valid].
    rewrite <- (delete_nothing (shLinks sm)). by apply delete_rows_valid.
Qed.

Lemma sharing_step_one sm sm' :
  sharing_step true sm sm' → rows_valid sm → one_share sm → one_share sm'.
Proof.
  intros Hstep Hval Hone. destruct Hstep as [sm share errs uuid t1 t2 He|sm wf u t err|sm wf u err
    |sm l uuid token now err|sm token now err|sm id err|sm now1 now2 errs].
  - destruct errs as [e1 e2]. simpl in He. rewrite (He eq_refl).
    destruct (ShareWorkflow sm share (None, e2) uuid t1 t2) as [[[]|e] sm'] eqn:E; simpl.
    + assert (sharing_inv sm) as Hinv by (by apply sharing_inv_split).
      destruct (ShareWorkflow_ok _ _ _ _ _ _ _ Hinv E) as (Hv & s & Hs).
      by apply sharing_inv_split, (shared_inv _ _ _ _ Hinv Hv Hs).
    + unfold ShareWorkflow in E. repeat case_match; simplify_eq/=; done.
  - destruct err; simpl; [done|]. by apply delete_one_share.
  - destruct err; simpl; [done|]. by apply delete_one_share.
  - unfold CreateShareLink. destruct err; [done|]. by destruct (_ || _).
  - by destruct err.
  - by destruct err.
  - unfold CleanupExpiredShares. destruct errs as [[e1|] [e2|]]; simpl; [done..| |]; by apply delete_one_share.
Qed.

(** A use of a link that [GetShareLink] would refuse for its number of uses. *)
Definition spent (sm : SharingManager) (token : string) : Prop :=
  ∃ l, l ∈ shLinks sm ∧ slToken l = token ∧ (0 < slMaxUses l ≤ slUsedCount l)%Z.
Definition within_limits (sm : SharingManager) : Prop :=
  ∀ l, l ∈ shLinks sm → (0 < slMaxUses l)%Z → (0 ≤ slUsedCount l ≤ slMaxUses l)%Z.

Lemma step_limits b sm sm' :
  sharing_step b sm sm' → within_limits sm →
  within_limits sm' ∨ ∃ token now, sm' = (UseShareLink sm token now None).2 ∧ spent sm token.
Proof.
  intros Hstep Hlim. destruct Hstep as [sm share errs uuid t1 t2 He|sm wf u t err|sm wf u err
    |sm l uuid token now err|sm token now err|sm id err|sm now1 now2 errs].
  - left. unfold ShareWorkflow. by repeat case_match.
  - left. by destruct err.
  - left. by destruct err.
  - left. unfold CreateShareLink. destruct err; [done|]. destruct (_ || _); [done|].
    intros x [?| ->%list_elem_of_singleton]%elem_of_app; [auto|simpl; lia].
  - destruct err; [by left|].
    destruct (decide (Forall (λ l, ¬ (slToken l = token ∧ 0 < slMaxUses l ≤ slUsedCount l)%Z) (shLinks sm))) as [Hf|Hf].
    + left. rewrite Forall_forall in Hf. intros x (y & -> & Hy)%list_elem_of_fmap. cbv beta.
      case_bool_decide as E; [|by apply Hlim]. simpl. intros Hm. specialize (Hlim y Hy Hm).
      assert (¬ (0 < slMaxUses y ≤ slUsedCount y)%Z) by (intros Hs; by apply (Hf y Hy)). lia.
    + right. exists token, now. split; [done|]. apply not_Forall_Exists in Hf; [|apply _].
      apply Exists_exists in Hf as (l & Hl & Hn). exists l. split; [done|]. by apply dec_stable in Hn.
  - left. unfold DeleteShareLink. destruct err; [done|]. intros l [_ Hl]%list_elem_of_filter. auto.
  - left. unfold CleanupExpiredShares. destruct errs as [[e1|] [e2|]]; simpl; try done.
    intros l [_ Hl]%list_elem_of_filter. auto.
Qed.

Lemma GetShareLink_ok sm token now l :
  NoDup (slToken <$> shLinks sm) → GetShareLink sm token now None = Ok l →
  l ∈ shLinks sm ∧ slToken l = token ∧ (∀ e, slExpiresAt l = Some e → (now ≤ e)%Z) ∧ ¬ spent sm token.
Proof.
  intros Ht. unfold GetShareLink. pose proof (first_row_spec slID (λ l, bool_decide (slToken l = token)) (shLinks sm)) as Hf.
  destruct (first_row slID _ (shLinks sm)) as [l0|]; [|done]. destruct Hf as [Hl0 Htok%bool_decide_eq_true].
  destruct (expired _ _) eqn:He; [done|]. destruct (_ && _) eqn:Hlim; [done|]. intros [= <-]. split_and!; [done..| |].
  - intros e E. unfold expired in He. rewrite E in He. apply bool_decide_eq_false in He. lia.
  - intros (y & Hy & Ey & Hm). assert (y = l0) as -> by (apply (same_id _ slToken (shLinks sm)); [done..|congruence]).
    apply andb_false_iff in Hlim as [H|H]; apply bool_decide_eq_false in H; lia.
Qed.

(** The permissions, each including those before it. *)
Definition permission_order : list string := ["view"; "execute"; "edit"; "admin"].
Definition includes (p q : string) : Prop :=
  ∃ i j, permission_order !! i = Some p ∧ permission_order !! j = Some q ∧ j ≤ i.

Lemma includes_hasPermission p q : includes p q → hasPermission p q = true.
Proof.
  clear. intros (i & j & Hi & Hj & Hle). unfold permission_order in *.
  destruct i as [|[|[|[|i]]]], j as [|[|[|[|j]]]]; simplify_eq/=; try lia; by vm_compute.
Qed.

(** C35. However workflows are shared, unshared, transferred and cleaned up and
    links created, used and deleted, one call at a time and with any failures
    of the database: every share grants view, execute, edit or admin; what
    [CheckPermission] grants of these, [GetUserPermissions] lists, and who is
    granted one of them is granted those it includes; and when no look-up of
    an existing share failed there is at most one share for a workflow and a
    recipient.  [GetShareLink] answers only with a link that has not expired
    and not reached its limit, and, starting within the limits, a call takes a
    link beyond its limit only as a [UseShareLink], which does not look at the
    limit itself, of a link whose uses are spent, as [GetShareLink] would have
    said.  (A failing look-up leaves two shares: [failed_lookup_duplicates].) *)
Theorem sharing_invariant lookups sm :
  rtc (sharing_step lookups) NewSharingManager sm →
  (∀ s, s ∈ shShares sm → wsPermission s ∈ permission_order) ∧
  (lookups = true → ∀ s s', s ∈ shShares sm → s' ∈ shShares sm → wsWorkflowID s = wsWorkflowID s' →
     wsSharedWithID s = wsSharedWithID s' → wsSharedWithType s = wsSharedWithType s' → s = s') ∧
  (∀ wf u p now errs, p ∈ permission_order → CheckPermission sm wf u p now errs = true →
     p ∈ GetUserPermissions sm wf u now errs ∧
     ∀ q, includes p q → CheckPermission sm wf u q now errs = true) ∧
  (∀ token now l, GetShareLink sm token now None = Ok l →
     l ∈ shLinks sm ∧ slToken l = token ∧ (∀ e, slExpiresAt l = Some e → (now ≤ e)%Z) ∧ ¬ spent sm token) ∧
  ∀ sm', sharing_step lookups sm sm' → within_limits sm →
    within_limits sm' ∨ ∃ token now, sm' = (UseShareLink sm token now None).2 ∧ spent sm token.
Proof.
  intros Hrun. assert (rows_valid sm ∧ (lookups = true → one_share sm)) as [[Hv Ht] Hone].
  { apply (rtc_preserve _ (λ sm, rows_valid sm ∧ (lookups = true → one_share sm))) in Hrun; [done| |].
    - intros a b Hab [H1 H2]. split; [by eapply sharing_step_valid|]. intros ->. by eapply sharing_step_one; [| |apply H2].
    - split; [split; [by intros ? ?%elem_of_nil|constructor]|]. intros _. split; [constructor|by intros ?? ?%elem_of_nil]. }
  split_and!.
  - intros s Hs. apply Hv in Hs. destruct (permission_cases _ Hs) as [->|[->|[->| ->]]]; apply (bool_decide_unpack _); by vm_compute.
  - intros Hl s s' Hs Hs' E1 E2 E3. apply (proj2 (Hone Hl)); [done..|]. by apply share_key_spec.
  - intros wf u p now errs Hp. assert (isValidPermission p = true) as Hp' by (apply bool_decide_eq_true; set_solver).
    unfold CheckPermission, GetUserPermissions.
    assert (∀ P err s, First wsID P (shShares sm) err = Ok s → isValidPermission (wsPermission s) = true) as Hval.
    { intros P [e|] s; [done|]. unfold First. pose proof (first_row_spec wsID P (shShares sm)) as Hf.
      destruct (first_row wsID P (shShares sm)); [|done]. intros [= ->]. apply Hv, Hf. }
    destruct (direct_share sm wf u now errs.1) as [s|] eqn:Hd.
    + intros Hhas. split; [|intros q ?%includes_hasPermission; by eapply hasPermission_trans].
      apply elem_of_union_l, elem_of_list_to_set, hasPermission_set; [by eapply Hval|done..].
    + destruct (First wsID (public_share wf) (shShares sm) errs.2) as [s|] eqn:Hpub; [|done].
      intros Hhas. split; [|intros q ?%includes_hasPermission; by eapply hasPermission_trans].
      apply elem_of_union_r, elem_of_list_to_set, hasPermission_set; [by eapply Hval|done..].
  - intros token now l. by apply GetShareLink_ok.
  - intros sm'. apply step_limits.
Qed.

(** ** Where the answers differ from what the hierarchy promises *)

(** A direct share hides a public one that grants more. *)
Lemma direct_share_hides_public sm wf u now s p :
  direct_share sm wf u now None = Ok s → First wsID (public_share wf) (shShares sm) None = Ok p →
  isValidPermission (wsPermission s) = true → wsPermission p = PermissionAdmin →
  wsPermission s ≠ PermissionAdmin →
  CheckPermission sm wf u PermissionAdmin now (None, None) = false ∧
  PermissionAdmin ∈ GetUserPermissions sm wf u now (None, None).
Proof.
  intros Hs Hp Hv Hadm Hne. unfold CheckPermission, GetUserPermissions. cbn [fst snd]. rewrite Hs, Hp. split.
  - by destruct (permission_cases _ Hv) as [->|[->|[->|E]]].
  - apply elem_of_union_r. rewrite Hadm. set_solver.
Qed.

(** A share of any level passes a check for a permission that does not exist. *)
Lemma unknown_permission_granted sm wf u now s p :
  direct_share sm wf u now None = Ok s → hierarchy !! p = None →
  isValidPermission (wsPermission s) = true →
  CheckPermission sm wf u p now (None, None) = true.
Proof.
  intros Hs Hp Hv. unfold CheckPermission, hasPermission. cbn [fst]. rewrite Hs.
  apply bool_decide_eq_true. unfold get_int at 1. rewrite Hp.
  by destruct (permission_cases _ Hv) as [->|[->|[->| ->]]].
Qed.

End Sharing.

(** ** Witnesses *)

Definition demo_share (user permission : string) : WorkflowShare :=
  {| wsID := ""; wsWorkflowID := "wf"; wsSharedWithID := user; wsSharedWithType := ShareTypeUser;
     wsPermission := permission; wsSharedBy := "owner"; wsExpiresAt := None; wsCreatedAt := 0;
     wsUpdatedAt := 0 |}.
Definition demo_sharing : SharingManager :=
  (ShareWorkflow String.leb NewSharingManager (demo_share "ann" PermissionEdit) (None, None) "id1" 1 2).2.

Lemma demo_sharing_run : rtc (sharing_step String.leb true) NewSharingManager demo_sharing.
Proof. by apply rtc_once, ss_share. Qed.

Lemma demo_sharing_inv : sharing_inv demo_sharing.
Proof.
  split; simpl; [apply NoDup_singleton|by intros ? ? ->%list_elem_of_singleton ->%list_elem_of_singleton|
    by intros ? ->%list_elem_of_singleton|constructor].
Qed.

(** A look-up that fails leaves a second share for the same recipient. *)
Lemma failed_lookup_duplicates :
  wsSharedWithID <$> shShares (ShareWorkflow String.leb demo_sharing (demo_share "ann" PermissionView)
                                 (Some "connection lost", None) "id9" 3 4).2 = ["ann"; "ann"].
Proof. reflexivity. Qed.

(** [UseShareLink] counts beyond the limit of a link. *)
Lemma use_beyond_limit :
  let l := {| slID := ""; slWorkflowID := "wf"; slToken := ""; slPermission := PermissionView; slPassword := "";
              slMaxUses := 1; slUsedCount := 0; slExpiresAt := None; slCreatedBy := "ann"; slCreatedAt := 0;
              slLastUsedAt := None |} in
  let sm := (CreateShareLink NewSharingManager l "id1" "t" 0 None).2 in
  slUsedCount <$> shLinks (UseShareLink (UseShareLink sm "t" 1 None).2 "t" 2 None).2 = [2%Z].
Proof. reflexivity. Qed.

Definition demo_sharing2 : SharingManager :=
  (ShareWorkflow String.leb demo_sharing (demo_share "bob" PermissionExecute) (None, None) "id2" 3 4).2.

Lemma share_then_check_witness :
  CheckPermission String.leb demo_sharing2 "wf" "bob" PermissionView 5 (None, None) = true ∧
  CheckPermission String.leb demo_sharing2 "wf" "ann" PermissionEdit 5 (None, None) = true.
Proof.
  destruct (share_then_check String.leb demo_sharing (demo_share "bob" PermissionExecute) "id2" 3 4
    demo_sharing2 demo_sharing_inv eq_refl eq_refl) as [H1 H2]. split.
  - apply (H1 5%Z PermissionView); [done|done|]. vm_compute. left.
  - rewrite (proj1 (H2 "wf" "ann" PermissionEdit 5%Z ltac:(done))). by vm_compute.
Defined.

Lemma sharing_invariant_witness :
  PermissionExecute ∈ GetUserPermissions String.leb demo_sharing "wf" "ann" 5 (None, None).
Proof.
  destruct (sharing_invariant String.leb true demo_sharing demo_sharing_run) as (_ & _ & H & _).
  apply (H "wf" "ann" PermissionExecute 5%Z (None, None)); [apply (bool_decide_unpack _)|]; by vm_compute.
Defined.
