(* ===== verification/Variables.v ===== *)
(** pkg/contracts/workflow/variables.go: workflow variables with their scopes,
    the interpolation of placeholders, type coercion, and the variable manager. *)

From S2P Require Import Prelude GoValue GoLib.
From Stdlib Require Import Ascii.

(** ** Data *)

Definition VarTypeString := "string".
Definition VarTypeNumber := "number".
Definition VarTypeBoolean := "boolean".
Definition VarTypeJSON := "json".
Definition VarTypeArray := "array".
Definition VarTypeObject := "object".

Definition ErrVariableNotFound := "variable not found".
Definition ErrInvalidVariableType := "invalid variable type".
Definition ErrVariableReadOnly := "variable is read-only".
Definition ErrInvalidVariableName := "invalid variable name".

Record WorkflowVariable := {
  varKey : string;
  varWorkflowID : string;
  varName : string;
  varType : string;
  varValue : value;
  varDescription : string;
  varScope : string;
  varEnvironment : string;
  varEncrypted : bool;
  varReadOnly : bool;
  varRequired : bool;
  varCreatedAt : string;
  varUpdatedAt : string
}.

Record Environment := {
  envID : string;
  envWorkflowID : string;
  envName : string;
  envDescription : string;
  envVariables : vmap;
  envIsDefault : bool;
  envCreatedAt : string;
  envUpdatedAt : string
}.

Record VariableContext := {
  vcGlobalVars : vmap;
  vcWorkflowVars : vmap;
  vcExecutionVars : vmap;
  vcNodeVars : gmap string vmap;
  vcEnvironment : option Environment;
  vcReadOnly : gset string;
  vcEncrypted : gset string
}.

Definition NewVariableContext : VariableContext :=
  {| vcGlobalVars := ∅; vcWorkflowVars := ∅; vcExecutionVars := ∅; vcNodeVars := ∅;
     vcEnvironment := None; vcReadOnly := ∅; vcEncrypted := ∅ |}.

(** ** Setting *)

Definition SetGlobalVariable (vc : VariableContext) (key : string) (v : value) :
    option string * VariableContext :=
  if bool_decide (key ∈ vcReadOnly vc) then (Some ErrVariableReadOnly, vc)
  else (None, {| vcGlobalVars := <[key := v]> (vcGlobalVars vc); vcWorkflowVars := vcWorkflowVars vc;
                 vcExecutionVars := vcExecutionVars vc; vcNodeVars := vcNodeVars vc;
                 vcEnvironment := vcEnvironment vc; vcReadOnly := vcReadOnly vc;
                 vcEncrypted := vcEncrypted vc |}).

Definition SetWorkflowVariable (vc : VariableContext) (key : string) (v : value) :
    option string * VariableContext :=
  if bool_decide (key ∈ vcReadOnly vc) then (Some ErrVariableReadOnly, vc)
  else (None, {| vcGlobalVars := vcGlobalVars vc; vcWorkflowVars := <[key := v]> (vcWorkflowVars vc);
                 vcExecutionVars := vcExecutionVars vc; vcNodeVars := vcNodeVars vc;
                 vcEnvironment := vcEnvironment vc; vcReadOnly := vcReadOnly vc;
                 vcEncrypted := vcEncrypted vc |}).

Definition SetExecutionVariable (vc : VariableContext) (key : string) (v : value) :
    option string * VariableContext :=
  if bool_decide (key ∈ vcReadOnly vc) then (Some ErrVariableReadOnly, vc)
  else (None, {| vcGlobalVars := vcGlobalVars vc; vcWorkflowVars := vcWorkflowVars vc;
                 vcExecutionVars := <[key := v]> (vcExecutionVars vc); vcNodeVars := vcNodeVars vc;
                 vcEnvironment := vcEnvironment vc; vcReadOnly := vcReadOnly vc;
                 vcEncrypted := vcEncrypted vc |}).

Definition SetNodeVariable (vc : VariableContext) (nodeID key : string) (v : value) :
    option string * VariableContext :=
  if bool_decide (key ∈ vcReadOnly vc) then (Some ErrVariableReadOnly, vc)
  else (None, {| vcGlobalVars := vcGlobalVars vc; vcWorkflowVars := vcWorkflowVars vc;
                 vcExecutionVars := vcExecutionVars vc;
                 vcNodeVars := <[nodeID := <[key := v]> (default ∅ (vcNodeVars vc !! nodeID))]>
                                 (vcNodeVars vc);
                 vcEnvironment := vcEnvironment vc; vcReadOnly := vcReadOnly vc;
                 vcEncrypted := vcEncrypted vc |}).

Definition SetEnvironment (vc : VariableContext) (env : option Environment) : VariableContext :=
  {| vcGlobalVars := vcGlobalVars vc; vcWorkflowVars := vcWorkflowVars vc;
     vcExecutionVars := vcExecutionVars vc; vcNodeVars := vcNodeVars vc; vcEnvironment := env;
     vcReadOnly := vcReadOnly vc; vcEncrypted := vcEncrypted vc |}.

Definition MarkReadOnly (vc : VariableContext) (key : string) : VariableContext :=
  {| vcGlobalVars := vcGlobalVars vc; vcWorkflowVars := vcWorkflowVars vc;
     vcExecutionVars := vcExecutionVars vc; vcNodeVars := vcNodeVars vc;
     vcEnvironment := vcEnvironment vc; vcReadOnly := {[key]} ∪ vcReadOnly vc;
     vcEncrypted := vcEncrypted vc |}.

Definition MarkEncrypted (vc : VariableContext) (key : string) : VariableContext :=
  {| vcGlobalVars := vcGlobalVars vc; vcWorkflowVars := vcWorkflowVars vc;
     vcExecutionVars := vcExecutionVars vc; vcNodeVars := vcNodeVars vc;
     vcEnvironment := vcEnvironment vc; vcReadOnly := vcReadOnly vc;
     vcEncrypted := {[key]} ∪ vcEncrypted vc |}.

Definition IsEncrypted (vc : VariableContext) (key : string) : bool :=
  bool_decide (key ∈ vcEncrypted vc).

(** A copying loop [for k, v := range m { acc[k] = v }]. *)
Definition copy_into {V} (acc m : gmap string V) (ord : list string) : gmap string V :=
  foldl (λ acc k, match m !! k with Some v => <[k := v]> acc | None => acc end) acc ord.

(** [Clone]: every map is copied entry by entry; the environment is shared. *)
Definition Clone (vc : VariableContext) (ordG ordW ordE ordN : list string)
    (ordNode : string → list string) : VariableContext :=
  {| vcGlobalVars := copy_into ∅ (vcGlobalVars vc) ordG;
     vcWorkflowVars := copy_into ∅ (vcWorkflowVars vc) ordW;
     vcExecutionVars := copy_into ∅ (vcExecutionVars vc) ordE;
     vcNodeVars := foldl (λ acc n, match vcNodeVars vc !! n with
                                   | Some vars => <[n := copy_into ∅ vars (ordNode n)]> acc
                                   | None => acc
                                   end) ∅ ordN;
     vcEnvironment := vcEnvironment vc; vcReadOnly := vcReadOnly vc; vcEncrypted := vcEncrypted vc |}.

(** ** Reading *)

Section Reading.
(** [os.Getenv]: the empty string for a variable that is not set. *)
Context (getenv : string → string).

Definition GetVariable (vc : VariableContext) (key nodeID : string) : result value :=
  let node := if bool_decide (nodeID = "") then None
              else vars ← vcNodeVars vc !! nodeID; vars !! key in
  match node with
  | Some v => Ok v
  | None =>
    match vcExecutionVars vc !! key with
    | Some v => Ok v
    | None =>
      match vcWorkflowVars vc !! key with
      | Some v => Ok v
      | None =>
        match (env ← vcEnvironment vc; envVariables env !! key) with
        | Some v => Ok v
        | None =>
          match vcGlobalVars vc !! key with
          | Some v => Ok v
          | None =>
              if bool_decide (getenv key = "") then Err ErrVariableNotFound
              else Ok (VStr (getenv key))
          end
        end
      end
    end
  end.

Definition ExportVariables (vc : VariableContext) (ordG ordV ordW ordE ordR : list string) : vmap :=
  let result := copy_into ∅ (vcGlobalVars vc) ordG in
  let result := match vcEnvironment vc with
                | None => result
                | Some env => copy_into result (envVariables env) ordV
                end in
  let result := copy_into result (vcWorkflowVars vc) ordW in
  let result := copy_into result (vcExecutionVars vc) ordE in
  foldl (λ acc k, if bool_decide (k ∈ vcEncrypted vc) then <[k := VStr "***ENCRYPTED***"]> acc else acc)
    result ordR.

(** ** Interpolation *)

Definition lbrace : ascii := "{".
Definition rbrace : ascii := "}".
Definition dollar : ascii := "$".

Fixpoint string_drop (n : nat) (s : string) : string :=
  match n, s with
  | O, _ => s
  | S n', String _ s' => string_drop n' s'
  | S _, "" => ""
  end.
Fixpoint string_take (n : nat) (s : string) : string :=
  match n, s with S n', String c s' => String c (string_take n' s') | _, _ => "" end.

(** The length of the longest prefix matched by [[^}]+], 0 when there is none. *)
Fixpoint run_length (s : string) : nat :=
  match s with "" => 0 | String c s' => if bool_decide (c = rbrace) then 0 else S (run_length s') end.

(** The length of the match of {{..}} or ${..} that starts at the head of [s]. *)
Definition placeholder (s : string) : option nat :=
  let body := string_drop 2 s in
  let k := run_length body in
  if bool_decide (k = 0) then None
  else if String.prefix "{{" s && String.prefix "}}" (string_drop k body) then Some (2 + k + 2)
  else if String.prefix "${" s && String.prefix "}" (string_drop k body) then Some (2 + k + 1)
  else None.

(** Variable name of a match. *)
Definition variable_name (match_ : string) : string :=
  trim_space (trim (in_cutset [lbrace; rbrace; dollar]) match_).

Section Interpolate.
Context (fmt_float : spec_float → string) (fmt_time : Z → string).
Context (marshal : value → result string).

(** The replacement for one match, and the error it leaves. *)
Definition replacement (vc : VariableContext) (nodeID match_ : string) : string * option string :=
  match GetVariable vc (variable_name match_) nodeID with
  | Err e => (match_, Some e)
  | Ok (VStr s) => (s, None)
  | Ok ((VInt _ | VFloat _ | VBool _) as v) => (sprint fmt_float fmt_time v, None)
  | Ok v => match marshal v with
            | Ok json => (json, None)
            | Err e => (match_, Some e)
            end
  end.

(** [ReplaceAllStringFunc]: the matches from left to right; [skip] characters
    of the last match are still to be passed over. *)
Fixpoint replace_all (vc : VariableContext) (nodeID : string) (skip : nat) (s : string)
    (lastErr : option string) : string * option string :=
  match s with
  | "" => ("", lastErr)
  | String c s' =>
      match skip with
      | S skip' => replace_all vc nodeID skip' s' lastErr
      | O =>
          match placeholder s with
          | Some n =>
              let '(r, e) := replacement vc nodeID (string_take n s) in
              let lastErr := match e with Some e => Some e | None => lastErr end in
              let '(rest, err) := replace_all vc nodeID (n - 1) s' lastErr in
              (r +:+ rest, err)
          | None =>
              let '(rest, err) := replace_all vc nodeID 0 s' lastErr in
              (String c rest, err)
          end
      end
  end.

Definition InterpolateString (vc : VariableContext) (input nodeID : string) : string * option string :=
  replace_all vc nodeID 0 input None.

(** [InterpolateObject]: maps are visited in the order of their entries; on an
    error inside a map or slice the result is nil. *)
Fixpoint InterpolateObject (vc : VariableContext) (input : value) (nodeID : string) :
    value * option string :=
  match input with
  | VStr s => let '(r, e) := InterpolateString vc s nodeID in (VStr r, e)
  | VObj kvs =>
      let fix entries kvs acc :=
        match kvs with
        | [] => (VObj (rev acc), None)
        | (k, v) :: kvs' =>
            match InterpolateObject vc v nodeID with
            | (_, Some e) => (VNil, Some e)
            | (r, None) => entries kvs' ((k, r) :: acc)
            end
        end in entries kvs []
  | VArr vs =>
      let fix items vs acc :=
        match vs with
        | [] => (VArr (rev acc), None)
        | v :: vs' =>
            match InterpolateObject vc v nodeID with
            | (_, Some e) => (VNil, Some e)
            | (r, None) => items vs' (r :: acc)
            end
        end in items vs []
  | v => (v, None)
  end.
End Interpolate.
End Reading.

(** ** Names and types *)

Definition is_letter (c : ascii) : bool :=
  let n := N_of_ascii c in
  bool_decide (65 ≤ n ≤ 90)%N || bool_decide (97 ≤ n ≤ 122)%N || bool_decide (n = 95)%N.
Definition is_name_char (c : ascii) : bool :=
  is_letter c || (let n := N_of_ascii c in bool_decide (48 ≤ n ≤ 57)%N).

Definition reservedNames : list string := ["true"; "false"; "null"; "undefined"; "this"; "self"].

Definition ValidateVariableName (name : string) : option string :=
  match name with
  | "" => Some ErrInvalidVariableName
  | String c s =>
      if negb (is_letter c && string_forall is_name_char s) then
        Some (ErrInvalidVariableName +:+ ": must start with letter or underscore and contain only alphanumeric characters and underscores")
      else if bool_decide (to_lower name ∈ reservedNames) then
        Some (ErrInvalidVariableName +:+ ": '" +:+ name +:+ "' is a reserved name")
      else None
  end.

Definition ParseVariableType (v : value) : string :=
  match v with
  | VStr _ => VarTypeString
  | VInt _ | VFloat _ => VarTypeNumber
  | VBool _ => VarTypeBoolean
  | VArr _ => VarTypeArray
  | VObj _ => VarTypeObject
  | VNil | VTime _ => VarTypeJSON
  end.

Section Coerce.
Context (fmt_float : spec_float → string) (fmt_time : Z → string).
(** [fmt.Sscanf(s, "%f", &num)]. *)
Context (scan_float : string → option spec_float).

Definition CoerceVariableType (v : value) (targetType : string) : result value :=
  if bool_decide (targetType = VarTypeString) then
    match v with VStr s => Ok (VStr s) | _ => Ok (VStr (sprint fmt_float fmt_time v)) end
  else if bool_decide (targetType = VarTypeNumber) then
    match v with
    | VFloat f => Ok (VFloat f)
    | VInt z => Ok (VFloat (f64_of_Z z))
    | VStr s => match scan_float s with
                | Some f => Ok (VFloat f)
                | None => Err ("cannot convert " +:+ s +:+ " to number")
                end
    | _ => Err ErrInvalidVariableType
    end
  else if bool_decide (targetType = VarTypeBoolean) then
    match v with
    | VBool b => Ok (VBool b)
    | VStr s => Ok (VBool (bool_decide (to_lower s = "true")))
    | VInt z => Ok (VBool (negb (bool_decide (z = 0%Z))))
    | _ => Err ErrInvalidVariableType
    end
  else if bool_decide (targetType = VarTypeJSON) || bool_decide (targetType = VarTypeArray)
          || bool_decide (targetType = VarTypeObject) then Ok v
  else Err ("unknown type: " +:+ targetType).
End Coerce.

(** ** The variable manager *)

Record VariableManager := {
  vmVariables : gmap string (gmap string WorkflowVariable);
  vmEnvironments : gmap string (list Environment)
}.

Definition NewVariableManager : VariableManager := {| vmVariables := ∅; vmEnvironments := ∅ |}.

Definition SetVariable (vm : VariableManager) (workflowID : string) (variable : WorkflowVariable) :
    option string * VariableManager :=
  match ValidateVariableName (varKey variable) with
  | Some e => (Some e, vm)
  | None =>
      (None, {| vmVariables := <[workflowID := <[varKey variable := variable]>
                                   (default ∅ (vmVariables vm !! workflowID))]> (vmVariables vm);
                vmEnvironments := vmEnvironments vm |})
  end.

Definition VM_GetVariable (vm : VariableManager) (workflowID key : string) : result WorkflowVariable :=
  match (vars ← vmVariables vm !! workflowID; vars !! key) with
  | Some v => Ok v
  | None => Err ErrVariableNotFound
  end.

Definition ListVariables (vm : VariableManager) (workflowID : string) (ord : list string) :
    list WorkflowVariable :=
  match vmVariables vm !! workflowID with
  | Some vars => omap (λ k, vars !! k) ord
  | None => []
  end.

Definition DeleteVariable (vm : VariableManager) (workflowID key : string) :
    option string * VariableManager :=
  match vmVariables vm !! workflowID with
  | Some vars => (None, {| vmVariables := <[workflowID := delete key vars]> (vmVariables vm);
                           vmEnvironments := vmEnvironments vm |})
  | None => (Some ErrVariableNotFound, vm)
  end.

(** Update in place, or append. *)
Fixpoint put_environment (env : Environment) (envs : list Environment) : list Environment :=
  match envs with
  | [] => [env]
  | e :: envs' => if bool_decide (envID e = envID env) then env :: envs'
                  else e :: put_environment env envs'
  end.

Definition VM_SetEnvironment (vm : VariableManager) (workflowID : string) (env : Environment) :
    VariableManager :=
  {| vmVariables := vmVariables vm;
     vmEnvironments := <[workflowID := put_environment env (get_slice (vmEnvironments vm) workflowID)]>
                         (vmEnvironments vm) |}.

Definition find_environment (f : Environment → bool) (envs : list Environment) : option Environment :=
  head (filter (λ e, f e = true) envs).

Definition GetEnvironment (vm : VariableManager) (workflowID envid : string) : result Environment :=
  match find_environment (λ e, bool_decide (envID e = envid)) (get_slice (vmEnvironments vm) workflowID) with
  | Some e => Ok e
  | None => Err "environment not found"
  end.

Definition ListEnvironments (vm : VariableManager) (workflowID : string) : list Environment :=
  get_slice (vmEnvironments vm) workflowID.

Definition GetDefaultEnvironment (vm : VariableManager) (workflowID : string) : result Environment :=
  match find_environment envIsDefault (get_slice (vmEnvironments vm) workflowID) with
  | Some e => Ok e
  | None => Err "no default environment found"
  end.

(** ** Templates: what interpolation means *)

(** A text with placeholders, as its author means it. *)
Inductive piece : Type :=
| Lit (s : string)
| Braces (name : string)        (* {{name}} *)
| Dollar (name : string).       (* ${name} *)

Definition print_piece (p : piece) : string :=
  match p with
  | Lit s => s
  | Braces name => "{{" +:+ name +:+ "}}"
  | Dollar name => "${" +:+ name +:+ "}"
  end.
Definition print (t : list piece) : string := foldr (λ p s, print_piece p +:+ s) "" t.

(** Literal text has no brace or dollar that could start a placeholder; names
    have neither braces nor dollars and are not empty. *)
Definition plain (c : ascii) : bool := negb (in_cutset [lbrace; dollar] c).
Definition name_char (c : ascii) : bool := negb (in_cutset [lbrace; rbrace; dollar] c).
Definition well_formed (p : piece) : Prop :=
  match p with
  | Lit s => string_forall plain s = true
  | Braces name | Dollar name => name ≠ "" ∧ string_forall name_char name = true
  end.

Section Templates.
Context (getenv : string → string).
Context (fmt_float : spec_float → string) (fmt_time : Z → string).
Context (marshal : value → result string).

(** The text of a value: strings as they are, numbers and booleans by [%v],
    everything else as JSON. *)
Definition value_text (v : value) : result string :=
  match v with
  | VStr s => Ok s
  | VInt _ | VFloat _ | VBool _ => Ok (sprint fmt_float fmt_time v)
  | _ => marshal v
  end.

(** The text of a piece: a placeholder that cannot be resolved stays. *)
Definition eval_piece (vc : VariableContext) (nodeID : string) (p : piece) : string * option string :=
  match p with
  | Lit s => (s, None)
  | Braces name | Dollar name =>
      match GetVariable getenv vc (trim_space name) nodeID with
      | Err e => (print_piece p, Some e)
      | Ok v => match value_text v with Ok s => (s, None) | Err e => (print_piece p, Some e) end
      end
  end.

Fixpoint eval (vc : VariableContext) (nodeID : string) (t : list piece) (lastErr : option string) :
    string * option string :=
  match t with
  | [] => ("", lastErr)
  | p :: t' =>
      let '(r, e) := eval_piece vc nodeID p in
      let '(rest, err) := eval vc nodeID t' (match e with Some e => Some e | None => lastErr end) in
      (r +:+ rest, err)
  end.

Lemma string_drop_app a b : string_drop (String.length a) (a +:+ b) = b.
Proof. induction a as [|c a IH]; [done|]. by rewrite string_app_cons. Qed.

Lemma string_take_app a b : string_take (String.length a) (a +:+ b) = a.
Proof. induction a as [|c a IH]; [done|]. rewrite string_app_cons. simpl. by rewrite IH. Qed.

Lemma run_length_name name b :
  string_forall name_char name = true → run_length (name +:+ String rbrace b) = String.length name.
Proof.
  induction name as [|c name IH]; [done|]. rewrite string_app_cons. simpl.
  intros [Hc Hn]%andb_true_iff. rewrite IH by done. case_bool_decide as E; [|done]. by subst.
Qed.

Lemma placeholder_plain c s : plain c = true → placeholder (String c s) = None.
Proof.
  intros Hc. unfold placeholder.
  assert (c ≠ lbrace ∧ c ≠ dollar) as [H1 H2].
  { unfold plain, in_cutset in Hc. apply negb_true_iff, bool_decide_eq_false in Hc. set_solver. }
  assert (∀ x p, c ≠ x → String.prefix (String x p) (String c s) = false) as Hp.
  { intros x p Hx. simpl. destruct (ascii_dec x c); congruence. }
  rewrite !Hp by done. by case_bool_decide.
Qed.

(** A printed placeholder at the head of the input is matched whole. *)
Lemma placeholder_print p b :
  well_formed p → (∀ s, p ≠ Lit s) →
  placeholder (print_piece p +:+ b) = Some (String.length (print_piece p)) ∧
  variable_name (print_piece p) = trim_space (match p with Lit s | Braces s | Dollar s => s end).
Proof.
  destruct p as [s|name|name]; intros Hwf Hlit; [by destruct (Hlit s)|..]; destruct Hwf as [Hne Hn]; simpl.
  all: unfold variable_name; rewrite trim_wrapped by done.
  all: split; [|done]; unfold placeholder; rewrite !string_app_assoc.
  - change ("{{" +:+ name +:+ "}}" +:+ b) with (String lbrace (String lbrace (name +:+ String rbrace (String rbrace b)))).
    cbn [string_drop]. rewrite run_length_name, string_drop_app by done.
    rewrite bool_decide_eq_false_2 by (by destruct name). rewrite !string_app_length.
    assert (String.prefix "}}" (String rbrace (String rbrace b)) = true) as -> by apply (prefix_app "}}").
    assert (∀ x, String.prefix "{{" (String lbrace (String lbrace x)) = true) as -> by (intros; apply (prefix_app "{{")).
    f_equal; simpl; lia.
  - change ("${" +:+ name +:+ "}" +:+ b) with (String dollar (String lbrace (name +:+ String rbrace b))).
    cbn [string_drop]. rewrite run_length_name, string_drop_app by done.
    rewrite bool_decide_eq_false_2 by (by destruct name). rewrite !string_app_length.
    assert (String.prefix "}" (String rbrace b) = true) as -> by apply (prefix_app "}").
    assert (∀ x, String.prefix "${" (String dollar (String lbrace x)) = true) as -> by (intros; apply (prefix_app "${")).
    assert (∀ x, String.prefix "{{" (String dollar (String lbrace x)) = false) as -> by done.
    f_equal; simpl; lia.
Qed.

Abbreviation run := (replace_all getenv fmt_float fmt_time marshal).

Lemma replace_all_skip vc nodeID a b e : run vc nodeID (String.length a) (a +:+ b) e = run vc nodeID 0 b e.
Proof. induction a as [|c a IH]; [by destruct b|]. by rewrite string_app_cons. Qed.

Lemma replace_all_lit vc nodeID a b e :
  string_forall plain a = true →
  run vc nodeID 0 (a +:+ b) e = (a +:+ (run vc nodeID 0 b e).1, (run vc nodeID 0 b e).2).
Proof.
  induction a as [|c a IH]; intros Ha; [by destruct (run _ _ _ _ _)|]. simpl in Ha.
  apply andb_true_iff in Ha as [Hc Ha]. rewrite !string_app_cons. cbn [replace_all].
  rewrite placeholder_plain, IH by done. done.
Qed.

Lemma replacement_eval vc nodeID p :
  well_formed p → (∀ s, p ≠ Lit s) →
  replacement getenv fmt_float fmt_time marshal vc nodeID (print_piece p) = eval_piece vc nodeID p.
Proof.
  intros Hwf Hlit. unfold replacement. rewrite (proj2 (placeholder_print p "" Hwf Hlit)).
  destruct p as [s|name|name]; [by destruct (Hlit s)|..]; simpl;
    by destruct (GetVariable _ _ _ _) as [[]|].
Qed.

Lemma replace_all_piece vc nodeID p b e :
  well_formed p → (∀ s, p ≠ Lit s) →
  run vc nodeID 0 (print_piece p +:+ b) e =
  let '(r, e') := eval_piece vc nodeID p in
  let '(rest, err) := run vc nodeID 0 b (match e' with Some e => Some e | None => e end) in
  (r +:+ rest, err).
Proof.
  intros Hwf Hlit. destruct (placeholder_print p b Hwf Hlit) as [Hph _].
  destruct (print_piece p) as [|c s] eqn:Hpr; [destruct p as [s|n|n]; [by destruct (Hlit s)|done|done]|].
  rewrite string_app_cons in *. cbn [replace_all]. rewrite Hph.
  rewrite <- string_app_cons, string_take_app, <- Hpr, replacement_eval by done.
  destruct (eval_piece vc nodeID p) as [r e']. rewrite Hpr. simpl. rewrite Nat.sub_0_r, replace_all_skip. done.
Qed.

(** Interpolation evaluates templates: on the printed form of any template
    of literal text and placeholders of both styles, [InterpolateString] returns
    the literals as they are and each placeholder replaced by the text of its
    variable's value, which is not scanned again; placeholders that cannot be
    resolved stay, and the error is that of the last of them. *)
Lemma interpolation_correct vc nodeID t :
  Forall well_formed t →
  InterpolateString getenv fmt_float fmt_time marshal vc (print t) nodeID = eval vc nodeID t None.
Proof.
  unfold InterpolateString. generalize (@None string). intros e Hwf. revert e.
  induction Hwf as [|p t Hp Hwf IH]; intros e; [done|]. cbn [print foldr eval].
  destruct p as [s|name|name].
  - cbn [print_piece eval_piece]. rewrite replace_all_lit by done. fold (print t). rewrite IH.
    by destruct (eval vc nodeID t e).
  - rewrite replace_all_piece by done. fold (print t). destruct (eval_piece _ _ _). by rewrite IH.
  - rewrite replace_all_piece by done. fold (print t). destruct (eval_piece _ _ _). by rewrite IH.
Qed.

End Templates.

(** ** Copies *)

(** Entries of [m] over those of [acc]. *)
Lemma copy_into_lookup {V} (acc m : gmap string V) ord k :
  range_order m ord → copy_into acc m ord !! k = match m !! k with Some v => Some v | None => acc !! k end.
Proof.
  intros [Hnd Hord]. unfold copy_into.
  assert (∀ l (acc : gmap string V),
    foldl (λ acc k, match m !! k with Some v => <[k := v]> acc | None => acc end) acc l !! k =
    if decide (k ∈ l) then match m !! k with Some v => Some v | None => acc !! k end else acc !! k) as Hl.
  { intros l. induction l as [|x l IH]; intros acc'; [done|]. cbn [foldl]. rewrite IH.
    destruct (decide (k ∈ l)) as [Hin|Hin].
    - rewrite decide_True by set_solver. destruct (m !! k) eqn:E; [done|].
      destruct (m !! x) eqn:Ex; [|done]. rewrite lookup_insert_ne; [done|congruence].
    - destruct (decide (x = k)) as [->|Hne].
      + rewrite decide_True by set_solver. destruct (m !! k); [by rewrite lookup_insert_eq|done].
      + rewrite decide_False by set_solver. destruct (m !! x); [by rewrite lookup_insert_ne|done]. }
  rewrite Hl. case_decide as Hin; [done|]. rewrite Hord in Hin. destruct (m !! k); [|done]. destruct Hin; eauto.
Qed.

Lemma copy_map_same {V} (m : gmap string V) ord : range_order m ord → copy_into ∅ m ord = m.
Proof.
  intros Hord. apply map_eq. intros k. rewrite copy_into_lookup, lookup_empty by done.
  by destruct (m !! k).
Qed.

(** [Clone] gives an equal context, whatever the iteration orders. *)
Lemma Clone_same vc ordG ordW ordE ordN ordNode :
  range_order (vcGlobalVars vc) ordG → range_order (vcWorkflowVars vc) ordW →
  range_order (vcExecutionVars vc) ordE → range_order (vcNodeVars vc) ordN →
  (∀ n vars, vcNodeVars vc !! n = Some vars → range_order vars (ordNode n)) →
  Clone vc ordG ordW ordE ordN ordNode = vc.
Proof.
  intros HG HW HE HN Hnode. destruct vc as [g w e nv env ro enc]; unfold Clone; simpl in *.
  rewrite !copy_map_same by done. f_equal. transitivity (copy_into ∅ nv ordN); [|by apply copy_map_same].
  clear HN. unfold copy_into at 2. generalize (∅ : gmap string vmap).
  induction ordN as [|n ns IH]; intros acc; [done|]. cbn [foldl].
  destruct (nv !! n) as [vars|] eqn:Hn; [rewrite copy_map_same by eauto|]; apply IH.
Qed.

(** ** Export *)

(** The variables visible outside any node, inner scopes over outer ones. *)
Definition visible (vc : VariableContext) : vmap :=
  vcExecutionVars vc ∪ vcWorkflowVars vc ∪ from_option envVariables ∅ (vcEnvironment vc) ∪ vcGlobalVars vc.

Lemma visible_lookup vc k :
  visible vc !! k =
  match vcExecutionVars vc !! k with Some v => Some v | None =>
  match vcWorkflowVars vc !! k with Some v => Some v | None =>
  match (env ← vcEnvironment vc; envVariables env !! k) with Some v => Some v | None =>
  vcGlobalVars vc !! k end end end.
Proof.
  unfold visible. rewrite !lookup_union.
  destruct (vcEnvironment vc) as [env|]; simpl; [destruct (envVariables env !! k)|rewrite lookup_empty];
    by destruct (vcExecutionVars vc !! k), (vcWorkflowVars vc !! k), (vcGlobalVars vc !! k).
Qed.

Lemma GetVariable_visible getenv vc k v : visible vc !! k = Some v → GetVariable getenv vc k "" = Ok v.
Proof. rewrite visible_lookup. unfold GetVariable. simpl. intros H. by repeat case_match; simplify_eq/=. Qed.

Lemma redact_lookup (enc : gset string) l (r : vmap) k :
  foldl (λ acc k, if bool_decide (k ∈ enc) then <[k := VStr "***ENCRYPTED***"]> acc else acc) r l !! k =
  if decide (k ∈ l ∧ k ∈ enc) then Some (VStr "***ENCRYPTED***") else r !! k.
Proof.
  revert r. induction l as [|x l IH]; intros r; cbn [foldl]; [by rewrite decide_False by set_solver|].
  rewrite IH. destruct (decide (k ∈ l ∧ k ∈ enc)); [by rewrite decide_True by set_solver|].
  case_bool_decide as Hx; [|by rewrite decide_False by set_solver].
  destruct (decide (x = k)) as [->|]; [by rewrite lookup_insert_eq, decide_True by set_solver|].
  by rewrite lookup_insert_ne, decide_False by set_solver.
Qed.

Lemma export_lookup vc ordG ordV ordW ordE ordR k :
  range_order (vcGlobalVars vc) ordG →
  (∀ env, vcEnvironment vc = Some env → range_order (envVariables env) ordV) →
  range_order (vcWorkflowVars vc) ordW → range_order (vcExecutionVars vc) ordE →
  range_order (visible vc) ordR →
  ExportVariables vc ordG ordV ordW ordE ordR !! k =
  (λ v, if decide (k ∈ vcEncrypted vc) then VStr "***ENCRYPTED***" else v) <$> visible vc !! k.
Proof.
  intros HG HV HW HE HR. unfold ExportVariables. rewrite redact_lookup, !copy_into_lookup by done.
  assert (k ∈ ordR ↔ is_Some (visible vc !! k)) as Hin by (by apply range_order_elem).
  assert (match vcEnvironment vc with Some env => copy_into (copy_into ∅ (vcGlobalVars vc) ordG) (envVariables env) ordV
    | None => copy_into ∅ (vcGlobalVars vc) ordG end !! k
    = match (env ← vcEnvironment vc; envVariables env !! k) with Some v => Some v | None => vcGlobalVars vc !! k end) as ->.
  { destruct (vcEnvironment vc) as [env|]; simpl; rewrite !copy_into_lookup by auto; rewrite lookup_empty;
      by destruct (vcGlobalVars vc !! k). }
  rewrite <- visible_lookup. destruct (visible vc !! k) as [v|]; simpl.
  - case_decide as Hd; [by rewrite decide_True by tauto|]. rewrite decide_False; [done|]. intros ?. apply Hd. split; [|done]. apply Hin. eauto.
  - rewrite decide_False; [done|]. intros [[? ?]%Hin _]. done.
Qed.

(** [ExportVariables] exports exactly the variables defined in the
    execution, workflow, environment or global scope; the value of a variable
    marked as encrypted never appears in it, and every other value is the one
    [GetVariable] resolves outside any node; whatever the iteration orders. *)
Lemma export_hides_encrypted getenv vc ordG ordV ordW ordE ordR :
  range_order (vcGlobalVars vc) ordG →
  (∀ env, vcEnvironment vc = Some env → range_order (envVariables env) ordV) →
  range_order (vcWorkflowVars vc) ordW → range_order (vcExecutionVars vc) ordE →
  range_order (visible vc) ordR →
  let exported := ExportVariables vc ordG ordV ordW ordE ordR in
  (∀ k, is_Some (exported !! k) ↔ is_Some (vcExecutionVars vc !! k) ∨ is_Some (vcWorkflowVars vc !! k) ∨
     is_Some (env ← vcEnvironment vc; envVariables env !! k) ∨ is_Some (vcGlobalVars vc !! k)) ∧
  ∀ k v, exported !! k = Some v →
    if decide (k ∈ vcEncrypted vc) then v = VStr "***ENCRYPTED***"
    else GetVariable getenv vc k "" = Ok v.
Proof.
  intros HG HV HW HE HR exported. unfold exported. split.
  - intros k. rewrite export_lookup, fmap_is_Some, visible_lookup by done.
    repeat case_match; split; intros; repeat destruct_or?; eauto; naive_solver.
  - intros k v. rewrite export_lookup by done. intros (v' & Hv & ->)%fmap_Some.
    case_decide; [done|]. by apply GetVariable_visible.
Qed.

(** ** Read-only variables *)

(** Everything that can happen to a context but a change of environment. *)
Inductive vc_step : VariableContext → VariableContext → Prop :=
| vs_global vc k v : vc_step vc (SetGlobalVariable vc k v).2
| vs_workflow vc k v : vc_step vc (SetWorkflowVariable vc k v).2
| vs_execution vc k v : vc_step vc (SetExecutionVariable vc k v).2
| vs_node vc n k v : vc_step vc (SetNodeVariable vc n k v).2
| vs_read_only vc k : vc_step vc (MarkReadOnly vc k)
| vs_encrypted vc k : vc_step vc (MarkEncrypted vc k).

Lemma read_only_step getenv vc vc' k :
  vc_step vc vc' → k ∈ vcReadOnly vc →
  k ∈ vcReadOnly vc' ∧ ∀ n, GetVariable getenv vc' k n = GetVariable getenv vc k n.
Proof.
  intros Hstep Hk. destruct Hstep as [vc k' v|vc k' v|vc k' v|vc n' k' v|vc k'|vc k'];
    unfold SetGlobalVariable, SetWorkflowVariable, SetExecutionVariable, SetNodeVariable;
    try (case_bool_decide as Hro; [done|]; assert (k' ≠ k) by congruence); simpl;
    (split; [set_solver|]); intros n; unfold GetVariable; simpl; rewrite ?lookup_insert_ne by done; try done.
  case_bool_decide; [done|]. rewrite lookup_insert. case_decide as E; [subst n'|done]. simpl.
  rewrite lookup_insert_ne by done. by destruct (vcNodeVars vc !! n).
Qed.

(** A read-only variable does not change: once it is marked, every setter
    refuses it, in every scope, and through any sequence of later operations
    [GetVariable] answers the same for it, in every node. *)
Lemma read_only_preserved getenv vc vc' k :
  rtc vc_step (MarkReadOnly vc k) vc' →
  (∀ n, GetVariable getenv vc' k n = GetVariable getenv vc k n) ∧
  (∀ v n, SetGlobalVariable vc' k v = (Some ErrVariableReadOnly, vc') ∧
     SetWorkflowVariable vc' k v = (Some ErrVariableReadOnly, vc') ∧
     SetExecutionVariable vc' k v = (Some ErrVariableReadOnly, vc') ∧
     SetNodeVariable vc' n k v = (Some ErrVariableReadOnly, vc')).
Proof.
  intros Hrun.
  apply (rtc_preserve _ (λ x, k ∈ vcReadOnly x ∧ ∀ n, GetVariable getenv x k n = GetVariable getenv vc k n))
    in Hrun as [Hk Hget].
  - split; [done|]. intros v n.
    unfold SetGlobalVariable, SetWorkflowVariable, SetExecutionVariable, SetNodeVariable.
    by rewrite bool_decide_eq_true_2.
  - intros x y Hs [Hk Hget]. destruct (read_only_step getenv _ _ _ Hs Hk) as [? Hg]. split; [done|].
    intros n. by rewrite Hg.
  - split; [simpl; set_solver|done].
Qed.

(** ** Scopes *)

(** The scopes of a key in a node, innermost first. *)
Definition scopes (getenv : string → string) (vc : VariableContext) (key nodeID : string) : list (option value) :=
  [if bool_decide (nodeID = "") then None else vars ← vcNodeVars vc !! nodeID; vars !! key;
   vcExecutionVars vc !! key; vcWorkflowVars vc !! key;
   env ← vcEnvironment vc; envVariables env !! key; vcGlobalVars vc !! key;
   if bool_decide (getenv key = "") then None else Some (VStr (getenv key))].

Lemma GetVariable_scopes getenv vc key nodeID :
  GetVariable getenv vc key nodeID =
  match omap id (scopes getenv vc key nodeID) with v :: _ => Ok v | [] => Err ErrVariableNotFound end.
Proof. unfold GetVariable, scopes. simpl. by repeat case_match; simplify_eq/=. Qed.

(** A setter that succeeds defines the variable in its scope: it is what
    [GetVariable] answers unless an inner scope defines the key too, in which
    case the answer stays, and no other key changes. *)
Lemma variable_scoping getenv vc key v nodeID :
  key ∉ vcReadOnly vc → nodeID ≠ "" →
  let get vc k n := GetVariable getenv vc k n in
  get (SetNodeVariable vc nodeID key v).2 key nodeID = Ok v ∧
  (∀ n, get (SetExecutionVariable vc key v).2 key n =
     match omap id (take 1 (scopes getenv vc key n)) with w :: _ => Ok w | [] => Ok v end) ∧
  (∀ n, get (SetWorkflowVariable vc key v).2 key n =
     match omap id (take 2 (scopes getenv vc key n)) with w :: _ => Ok w | [] => Ok v end) ∧
  (∀ n, get (SetGlobalVariable vc key v).2 key n =
     match omap id (take 4 (scopes getenv vc key n)) with w :: _ => Ok w | [] => Ok v end) ∧
  ∀ k n, k ≠ key →
    get (SetNodeVariable vc nodeID key v).2 k n = get vc k n ∧
    get (SetExecutionVariable vc key v).2 k n = get vc k n ∧
    get (SetWorkflowVariable vc key v).2 k n = get vc k n ∧
    get (SetGlobalVariable vc key v).2 k n = get vc k n.
Proof.
  intros Hro Hnode get. unfold get, SetGlobalVariable, SetWorkflowVariable, SetExecutionVariable, SetNodeVariable.
  rewrite bool_decide_eq_false_2 by done. unfold GetVariable, scopes. simpl. split_and!.
  - rewrite bool_decide_eq_false_2, lookup_insert_eq by done. simpl. by rewrite lookup_insert_eq.
  - intros n. rewrite lookup_insert_eq. by repeat case_match; simplify_eq/=.
  - intros n. rewrite lookup_insert_eq. by repeat case_match; simplify_eq/=.
  - intros n. rewrite lookup_insert_eq. by repeat case_match; simplify_eq/=.
  - intros k n Hk. rewrite !(lookup_insert_ne _ key k) by done. split; [|done].
    case_bool_decide; [done|]. rewrite lookup_insert. case_decide as E; [subst n|done]. simpl.
    rewrite lookup_insert_ne by done. by destruct (vcNodeVars vc !! nodeID).
Qed.

(** ** Types *)


(** A declared type of array or object is not checked. *)
Lemma coercion_unchecked fmt_float fmt_time scan_float :
  CoerceVariableType fmt_float fmt_time scan_float (VInt 5) VarTypeArray = Ok (VInt 5) ∧
  ParseVariableType (VInt 5) ≠ VarTypeArray.
Proof. done. Qed.

(** ** The manager *)

Inductive vm_step : VariableManager → VariableManager → Prop :=
| vms_set vm wf v : vm_step vm (SetVariable vm wf v).2
| vms_delete vm wf k : vm_step vm (DeleteVariable vm wf k).2
| vms_env vm wf e : vm_step vm (VM_SetEnvironment vm wf e).

(** Variables are stored under their own, valid, names, and the environments
    of a workflow have distinct IDs. *)
Record vm_inv (vm : VariableManager) : Prop := {
  vmi_names : ∀ wf vars k v, vmVariables vm !! wf = Some vars → vars !! k = Some v →
    varKey v = k ∧ ValidateVariableName k = None;
  vmi_envs : ∀ wf, NoDup (envID <$> get_slice (vmEnvironments vm) wf)
}.

Lemma put_environment_ids env envs :
  envID <$> put_environment env envs =
  (envID <$> envs) ++ (if decide (envID env ∈ envID <$> envs) then [] else [envID env]).
Proof.
  induction envs as [|e envs IH]; [done|]. simpl. case_bool_decide as E; rewrite fmap_cons.
  - rewrite decide_True by (rewrite E; left). by rewrite app_nil_r, E.
  - rewrite IH. simpl. f_equal. f_equal. by repeat case_decide; set_solver.
Qed.

Lemma put_environment_find env envs :
  find_environment (λ e, bool_decide (envID e = envID env)) (put_environment env envs) = Some env.
Proof.
  unfold find_environment. induction envs as [|e envs IH]; cbn [put_environment].
  - rewrite filter_cons, decide_True by by apply bool_decide_eq_true. done.
  - case_bool_decide as E; rewrite filter_cons.
    + by rewrite decide_True by by apply bool_decide_eq_true.
    + by rewrite decide_False by (rewrite bool_decide_eq_true; done).
Qed.

Lemma vm_inv_step vm vm' : vm_step vm vm' → vm_inv vm → vm_inv vm'.
Proof.
  intros Hstep [Hn He]. destruct Hstep as [vm wf v|vm wf k|vm wf e].
  - unfold SetVariable. destruct (ValidateVariableName (varKey v)) eqn:Hv; [done|]. split; [|done].
    simpl. intros wf' vars k w [[<- <-]|[_ ?]]%lookup_insert_Some; [|by eapply Hn].
    intros [[<- <-]|[_ Hw]]%lookup_insert_Some; [done|].
    destruct (vmVariables vm !! wf) eqn:E; [by eapply Hn|simpl in Hw; by apply lookup_empty_Some in Hw].
  - unfold DeleteVariable. destruct (vmVariables vm !! wf) as [vars|] eqn:E; [|done]. split; [|done].
    simpl. intros wf' vars' k' w [[<- <-]|[_ ?]]%lookup_insert_Some; [|by eapply Hn].
    intros [_ ?]%lookup_delete_Some. by eapply Hn.
  - split; [done|]. intros wf'. unfold get_slice. simpl. rewrite lookup_insert. case_decide; [|apply He].
    simpl. rewrite put_environment_ids. case_decide; [rewrite app_nil_r; apply He|].
    apply NoDup_app. split_and!; [apply He| |apply NoDup_singleton]. intros x Hx ->%list_elem_of_singleton. done.
Qed.

(** The variable manager stores only variables with valid names, under
    their names, and one environment per ID, through any sequence of calls;
    what was set last is what is read, and a deleted variable is gone. *)
Lemma variable_manager_correct vm wf v e k :
  rtc vm_step NewVariableManager vm →
  (∀ x, VM_GetVariable vm wf k = Ok x → varKey x = k ∧ ValidateVariableName k = None) ∧
  NoDup (envID <$> ListEnvironments vm wf) ∧
  (ValidateVariableName (varKey v) = None →
     VM_GetVariable (SetVariable vm wf v).2 wf (varKey v) = Ok v ∧
     ∀ wf' k', (wf', k') ≠ (wf, varKey v) →
       VM_GetVariable (SetVariable vm wf v).2 wf' k' = VM_GetVariable vm wf' k') ∧
  VM_GetVariable (DeleteVariable vm wf k).2 wf k = Err ErrVariableNotFound ∧
  GetEnvironment (VM_SetEnvironment vm wf e) wf (envID e) = Ok e.
Proof.
  intros Hrun. assert (vm_inv vm) as [Hn He].
  { apply (rtc_preserve _ vm_inv) in Hrun; [done|apply vm_inv_step|].
    split; [simpl; by intros ???? ?%lookup_empty_Some|]. intros x. unfold get_slice. simpl.
    rewrite lookup_empty. constructor. }
  split_and!.
  - intros x. unfold VM_GetVariable. destruct (vmVariables vm !! wf) as [vars|] eqn:E; simpl; [|done].
    destruct (vars !! k) eqn:Ek; [|done]. intros [= <-]. by eapply Hn.
  - apply He.
  - intros Hv. unfold SetVariable, VM_GetVariable. rewrite Hv. simpl. split.
    + rewrite lookup_insert_eq. simpl. by rewrite lookup_insert_eq.
    + intros wf' k' Hne. rewrite lookup_insert. case_decide as E; [subst wf'|done]. simpl.
      rewrite lookup_insert_ne by congruence. by destruct (vmVariables vm !! wf).
  - unfold DeleteVariable, VM_GetVariable. destruct (vmVariables vm !! wf) as [vars|] eqn:E; simpl.
    + rewrite lookup_insert_eq. simpl. by rewrite lookup_delete_eq.
    + by rewrite E.
  - unfold GetEnvironment, VM_SetEnvironment, get_slice. simpl. rewrite lookup_insert_eq. simpl.
    by rewrite put_environment_find.
Qed.

(** ** Witnesses *)

Definition demo_getenv (k : string) : string := if bool_decide (k = "HOME") then "/root" else "".
Definition demo_float (f : spec_float) : string := "0.5".
Definition demo_time (t : Z) : string := pretty t.
Definition demo_marshal (v : value) : result string := match v with VNil => Ok "null" | _ => Err "unsupported" end.
Definition demo_scan (s : string) : option spec_float := if bool_decide (s = "2") then Some (f64_of_Z 2) else None.

Definition demo_context : VariableContext :=
  MarkEncrypted (SetWorkflowVariable (SetGlobalVariable NewVariableContext "host" (VStr "example.org")).2
    "port" (VInt 8080)).2 "host".
Definition demo_template : list piece := [Lit "http://"; Braces " host "; Lit ":"; Dollar "port"; Lit "/"; Braces "x"].

Lemma demo_template_text : print demo_template = "http://{{ host }}:${port}/{{x}}".
Proof. done. Qed.

Lemma interpolation_correct_witness :
  InterpolateString demo_getenv demo_float demo_time demo_marshal demo_context
    "http://{{ host }}:${port}/{{x}}" "" =
  ("http://example.org:8080/{{x}}", Some ErrVariableNotFound).
Proof.
  rewrite <- demo_template_text, interpolation_correct; [by vm_compute|].
  unfold demo_template. repeat (constructor; [vm_compute; done|]). constructor.
Defined.

Lemma read_only_preserved_witness :
  GetVariable demo_getenv (SetNodeVariable (MarkReadOnly demo_context "port") "n1" "port" (VInt 1)).2 "port" "n1"
  = Ok (VInt 8080).
Proof.
  rewrite (proj1 (read_only_preserved demo_getenv demo_context
    (SetNodeVariable (MarkReadOnly demo_context "port") "n1" "port" (VInt 1)).2 "port"
    (rtc_once _ _ (vs_node _ _ _ _)))).
  by vm_compute.
Defined.

Lemma export_hides_encrypted_witness :
  ExportVariables demo_context (keys (vcGlobalVars demo_context)) [] (keys (vcWorkflowVars demo_context)) []
    (keys (visible demo_context)) !! "host" = Some (VStr "***ENCRYPTED***").
Proof.
  destruct (export_hides_encrypted demo_getenv demo_context (keys (vcGlobalVars demo_context)) []
    (keys (vcWorkflowVars demo_context)) [] (keys (visible demo_context))
    (keys_range_order _) ltac:(done) (keys_range_order _) (keys_range_order _) (keys_range_order _)) as [H1 H2].
  destruct (proj2 (H1 "host")) as [v Hv]; [right; right; right; by eexists|].
  specialize (H2 "host" v Hv). rewrite decide_True in H2 by by vm_compute. by rewrite <- H2.
Defined.

Lemma variable_scoping_witness :
  GetVariable demo_getenv (SetGlobalVariable demo_context "port" (VInt 1)).2 "port" "" = Ok (VInt 8080).
Proof.
  destruct (variable_scoping demo_getenv demo_context "port" (VInt 1) "n1") as (_ & _ & _ & H & _);
    [by vm_compute|done|].
  rewrite H. by vm_compute.
Defined.


Definition demo_variable : WorkflowVariable :=
  {| varKey := "api_key"; varWorkflowID := "wf"; varName := "key"; varType := VarTypeString;
     varValue := VStr "s"; varDescription := ""; varScope := "workflow"; varEnvironment := "";
     varEncrypted := true; varReadOnly := false; varRequired := true; varCreatedAt := "";
     varUpdatedAt := "" |}.
Definition demo_environment : Environment :=
  {| envID := "prod"; envWorkflowID := "wf"; envName := "production"; envDescription := "";
     envVariables := ∅; envIsDefault := true; envCreatedAt := ""; envUpdatedAt := "" |}.

Lemma variable_manager_correct_witness :
  VM_GetVariable (SetVariable NewVariableManager "wf" demo_variable).2 "wf" "api_key" = Ok demo_variable.
Proof.
  destruct (variable_manager_correct NewVariableManager "wf" demo_variable demo_environment "k" (rtc_refl _ _))
    as (_ & _ & H & _).
  by apply H.
Defined.
