(* ===== verification/Checkpoint.v ===== *)
(** internal/execution/app/persistence/store.go: execution checkpoints in a
    database table and, for the latest of an execution, in Redis; the queue of
    checkpoints waiting to be saved and the goroutine that saves them. *)

From S2P Require Import Prelude GoValue GoLib.
From Stdlib Require Import Sorted Wf_nat.

(** ** Data *)

Record StateError := {
  seNodeID : string;
  seError : string;
  seTimestamp : Z;
  seRetryable : bool
}.

Record ExecutionState := {
  esExecutionID : string;
  esWorkflowID : string;
  esStatus : string;
  esContext : vmap;
  esNodeOutputs : vmap;
  esCompletedNodes : list string;
  esPendingNodes : list string;
  esVariables : vmap;
  esErrors : list StateError;
  esStartTime : Z;
  esLastCheckpoint : Z
}.

Record Checkpoint := {
  cpID : string;
  cpExecutionID : string;
  cpNodeID : string;
  cpState : ExecutionState;
  cpTimestamp : Z;
  cpVersion : Z;
  cpMetadata : vmap
}.

(** The zero value a failed decoding leaves. *)
Definition zero_state : ExecutionState :=
  {| esExecutionID := ""; esWorkflowID := ""; esStatus := ""; esContext := ∅; esNodeOutputs := ∅;
     esCompletedNodes := []; esPendingNodes := []; esVariables := ∅; esErrors := [];
     esStartTime := 0; esLastCheckpoint := 0 |}.

(** A row of execution_checkpoints. *)
Record Row := {
  rwID : string;
  rwExecutionID : string;
  rwNodeID : string;
  rwState : string;
  rwTimestamp : Z;
  rwVersion : Z;
  rwMetadata : string
}.

Definition minute : Z := 60 * 1000000000.

Record Store := {
  stRows : list Row;
  stRedis : gmap string (string * Z);      (* value and expiry *)
  stPublished : list (string * string * string);  (* checkpoint.saved: execution, checkpoint, node *)
  stCheckpointTTL : Z;
  stMaxCheckpoints : Z
}.

Definition NewStore (checkpointTTL maxCheckpoints : Z) : Store :=
  {| stRows := []; stRedis := ∅; stPublished := [];
     stCheckpointTTL := if bool_decide (checkpointTTL = 0)%Z then 7 * 24 * 60 * minute else checkpointTTL;
     stMaxCheckpoints := if bool_decide (maxCheckpoints = 0)%Z then 100 else maxCheckpoints |}.

Definition latest_key (executionID : string) : string := "checkpoint:" +:+ executionID +:+ ":latest".

Section Checkpoints.
(** JSON of the state, of the metadata and of a whole checkpoint. *)
Context (encode_state : ExecutionState → option string) (decode_state : string → option ExecutionState).
Context (encode_meta : vmap → option string) (decode_meta : string → option vmap).
Context (encode_cp : Checkpoint → option string) (decode_cp : string → option Checkpoint).
(** How the database orders rows with equal timestamps. *)
Context (row_before : Row → Row → bool).

(** ** Saving *)

(** INSERT .. ON CONFLICT (id) DO UPDATE: an existing row keeps its execution
    and node. *)
Definition upsert (r : Row) (rows : list Row) : list Row :=
  if bool_decide (rwID r ∈ rwID <$> rows) then
    (λ x, if bool_decide (rwID x = rwID r)
          then {| rwID := rwID x; rwExecutionID := rwExecutionID x; rwNodeID := rwNodeID x;
                  rwState := rwState r; rwTimestamp := rwTimestamp r; rwVersion := rwVersion r;
                  rwMetadata := rwMetadata r |}
          else x) <$> rows
  else rows ++ [r].

Definition set_rows (st : Store) (rows : list Row) : Store :=
  {| stRows := rows; stRedis := stRedis st; stPublished := stPublished st; stCheckpointTTL := stCheckpointTTL st;
     stMaxCheckpoints := stMaxCheckpoints st |}.
Definition set_redis (st : Store) (m : gmap string (string * Z)) : Store :=
  {| stRows := stRows st; stRedis := m; stPublished := stPublished st; stCheckpointTTL := stCheckpointTTL st;
     stMaxCheckpoints := stMaxCheckpoints st |}.

Definition publish_saved (st : Store) (cp : Checkpoint) : Store :=
  {| stRows := stRows st; stRedis := stRedis st;
     stPublished := stPublished st ++ [(cpExecutionID cp, cpID cp, cpNodeID cp)];
     stCheckpointTTL := stCheckpointTTL st; stMaxCheckpoints := stMaxCheckpoints st |}.

Definition saveToDatabase (st : Store) (cp : Checkpoint) (err : option string) : result Store :=
  match encode_state (cpState cp) with
  | None => Err "failed to marshal state: unsupported"
  | Some stateJSON =>
      match encode_meta (cpMetadata cp) with
      | None => Err "failed to marshal metadata: unsupported"
      | Some metadataJSON =>
          match err with
          | Some e => Err e
          | None =>
              Ok (set_rows st (upsert
                {| rwID := cpID cp; rwExecutionID := cpExecutionID cp; rwNodeID := cpNodeID cp;
                   rwState := stateJSON; rwTimestamp := cpTimestamp cp; rwVersion := cpVersion cp;
                   rwMetadata := metadataJSON |} (stRows st)))
          end
      end
  end.

Definition saveToRedis (st : Store) (cp : Checkpoint) (now : Z) (err : option string) : result Store :=
  match encode_cp cp with
  | None => Err "failed to marshal checkpoint: unsupported"
  | Some data =>
      match err with
      | Some e => Err e
      | None => Ok (set_redis st (<[latest_key (cpExecutionID cp) := (data, now + stCheckpointTTL st)%Z]>
                                    (stRedis st)))
      end
  end.

(** [SaveCheckpointSync]; [errs] are the failures of the database and of Redis.
    A failure of Redis is only logged. *)
Definition SaveCheckpointSync (st : Store) (cp : Checkpoint) (now : Z)
    (errs : option string * option string) : result unit * Store :=
  match saveToDatabase st cp errs.1 with
  | Err e => (Err ("failed to save to database: " +:+ e), st)
  | Ok st =>
      let st := match saveToRedis st cp now errs.2 with Err _ => st | Ok st => st end in
      (Ok tt, publish_saved st cp)
  end.

Definition SaveExecutionState (st : Store) (state : ExecutionState) (uuid : string) (t now : Z)
    (errs : option string * option string) : result unit * Store :=
  SaveCheckpointSync st
    {| cpID := uuid; cpExecutionID := esExecutionID state; cpNodeID := ""; cpState := state;
       cpTimestamp := t; cpVersion := 1; cpMetadata := {["type" := VStr "full_state"]} |} now errs.

(** ** Reading *)

Definition getFromRedis (st : Store) (executionID : string) (now : Z) (err : option string) :
    result Checkpoint :=
  match err with
  | Some e => Err e
  | None =>
      match stRedis st !! latest_key executionID with
      | Some (data, expiry) =>
          if bool_decide (now < expiry)%Z then
            match decode_cp data with
            | Some cp => Ok cp
            | None => Err "failed to unmarshal checkpoint: invalid"
            end
          else Err "redis: nil"
      | None => Err "redis: nil"
      end
  end.

(** ORDER BY timestamp DESC. *)
Definition newer (a b : Row) : bool :=
  bool_decide (rwTimestamp b < rwTimestamp a)%Z
  || bool_decide (rwTimestamp b = rwTimestamp a) && row_before a b.

Definition latest_row (executionID : string) (rows : list Row) : option Row :=
  foldl (λ acc r,
    if bool_decide (rwExecutionID r = executionID) then
      match acc with None => Some r | Some a => if newer a r then acc else Some r end
    else acc) None rows.

Definition row_checkpoint (r : Row) (state : ExecutionState) (meta : vmap) : Checkpoint :=
  {| cpID := rwID r; cpExecutionID := rwExecutionID r; cpNodeID := rwNodeID r; cpState := state;
     cpTimestamp := rwTimestamp r; cpVersion := rwVersion r; cpMetadata := meta |}.

Definition decode_row (r : Row) : result Checkpoint :=
  match decode_state (rwState r) with
  | None => Err "failed to unmarshal state: invalid"
  | Some state =>
      match decode_meta (rwMetadata r) with
      | None => Err "failed to unmarshal metadata: invalid"
      | Some meta => Ok (row_checkpoint r state meta)
      end
  end.

Definition getFromDatabase (st : Store) (executionID : string) (err : option string) :
    result Checkpoint :=
  match err with
  | Some e => Err ("failed to get checkpoint: " +:+ e)
  | None =>
      match latest_row executionID (stRows st) with
      | None => Err ("no checkpoint found for execution: " +:+ executionID)
      | Some r => decode_row r
      end
  end.

Definition GetLatestCheckpoint (st : Store) (executionID : string) (now : Z)
    (errs : option string * option string) : result Checkpoint :=
  match getFromRedis st executionID now errs.1 with
  | Ok cp => Ok cp
  | Err _ => getFromDatabase st executionID errs.2
  end.

Definition GetExecutionState (st : Store) (executionID : string) (now : Z)
    (errs : option string * option string) : result ExecutionState :=
  match GetLatestCheckpoint st executionID now errs with
  | Ok cp => Ok (cpState cp)
  | Err e => Err e
  end.

Definition GetCheckpointByID (st : Store) (checkpointID : string) (err : option string) :
    result Checkpoint :=
  match err with
  | Some e => Err ("failed to get checkpoint: " +:+ e)
  | None =>
      match filter (λ r, rwID r = checkpointID) (stRows st) with
      | [] => Err ("checkpoint not found: " +:+ checkpointID)
      | r :: _ => decode_row r
      end
  end.

(** The rows of an execution, newest first. *)
Definition insert_newest (r : Row) (l : list Row) : list Row :=
  (fix go l := match l with
               | [] => [r]
               | x :: l' => if newer x r then x :: go l' else r :: l
               end) l.

(** [ListCheckpoints]: decoding errors are ignored. *)
Definition ListCheckpoints (st : Store) (executionID : string) (err : option string) :
    result (list Checkpoint) :=
  match err with
  | Some e => Err ("failed to list checkpoints: " +:+ e)
  | None =>
      let rows := foldl (λ l r, insert_newest r l) []
                    (filter (λ r, rwExecutionID r = executionID) (stRows st)) in
      Ok ((λ r, row_checkpoint r (default zero_state (decode_state (rwState r)))
                  (default ∅ (decode_meta (rwMetadata r))))
          <$> take (Z.to_nat (stMaxCheckpoints st)) rows)
  end.

(** ** Deleting *)

(** [deleteFromRedis]: the first scanned key that holds the checkpoint. *)
Fixpoint redis_holder (m : gmap string (string * Z)) (checkpointID : string) (scan : list string) :
    option string :=
  match scan with
  | [] => None
  | k :: scan' =>
      match m !! k with
      | Some (data, _) =>
          match decode_cp data with
          | Some cp => if bool_decide (cpID cp = checkpointID) then Some k
                       else redis_holder m checkpointID scan'
          | None => redis_holder m checkpointID scan'
          end
      | None => redis_holder m checkpointID scan'
      end
  end.

Definition DeleteCheckpoint (st : Store) (checkpointID : string) (scan : list string)
    (err : option string) : result unit * Store :=
  match err with
  | Some e => (Err ("failed to delete checkpoint: " +:+ e), st)
  | None =>
      let st := set_rows st (filter (λ r, rwID r ≠ checkpointID) (stRows st)) in
      (Ok tt, match redis_holder (stRedis st) checkpointID scan with
              | Some k => set_redis st (delete k (stRedis st))
              | None => st
              end)
  end.

Definition performCleanup (st : Store) (now : Z) (err : option string) : Store :=
  match err with
  | Some _ => st
  | None => set_rows st (filter (λ r, now - stCheckpointTTL st ≤ rwTimestamp r)%Z (stRows st))
  end.

(** ** The abstract store

    What the store promises: the checkpoints saved and not deleted, in the order
    of their saving, of which the cleanup may forget those older than a cutoff. *)

Record Spec := { spAll : list Checkpoint; spCutoff : option Z }.

Inductive Op :=
  | OpSave (cp : Checkpoint) (now : Z) (dberr : option string)
  | OpDelete (checkpointID : string) (scan : list string) (dberr : option string)
  | OpCleanup (now : Z) (dberr : option string).

Definition run_op (st : Store) (op : Op) : Store :=
  match op with
  | OpSave cp now e => (SaveCheckpointSync st cp now (e, None)).2
  | OpDelete id scan e => (DeleteCheckpoint st id scan e).2
  | OpCleanup now e => performCleanup st now e
  end.

Definition kept (cutoff : option Z) (cp : Checkpoint) : Prop :=
  match cutoff with None => True | Some c => (c ≤ cpTimestamp cp)%Z end.
#[global] Instance kept_dec cutoff cp : Decision (kept cutoff cp).
Proof. destruct cutoff; simpl; apply _. Defined.

Definition raise_cutoff (cutoff : option Z) (c : Z) : option Z :=
  Some match cutoff with None => c | Some c' => Z.max c' c end.

Definition spec_op (ttl : Z) (sp : Spec) (op : Op) : Spec :=
  match op with
  | OpSave cp _ None => {| spAll := spAll sp ++ [cp]; spCutoff := spCutoff sp |}
  | OpDelete id _ None =>
      {| spAll := filter (λ cp, cpID cp ≠ id) (spAll sp); spCutoff := spCutoff sp |}
  | OpCleanup now None =>
      {| spAll := spAll sp; spCutoff := raise_cutoff (spCutoff sp) (now - ttl) |}
  | _ => sp
  end.

Definition of_execution (e : string) (l : list Checkpoint) : list Checkpoint :=
  filter (λ cp, cpExecutionID cp = e) l.
Definition spec_latest (sp : Spec) (e : string) : option Checkpoint := last (of_execution e (spAll sp)).

(** The JSON of a checkpoint reads back as the checkpoint. *)
Definition json_ok (cp : Checkpoint) : Prop :=
  (∃ s, encode_state (cpState cp) = Some s ∧ decode_state s = Some (cpState cp))
  ∧ (∃ m, encode_meta (cpMetadata cp) = Some m ∧ decode_meta m = Some (cpMetadata cp))
  ∧ (∃ d, encode_cp cp = Some d ∧ decode_cp d = Some cp).

Definition earlier (a b : Checkpoint) : Prop :=
  cpExecutionID a = cpExecutionID b → (cpTimestamp a < cpTimestamp b)%Z.

(** What a caller respects: fresh IDs, a clock that advances, a scan that sees
    every key. *)
Definition op_ok (st : Store) (sp : Spec) (op : Op) : Prop :=
  match op with
  | OpSave cp _ None =>
      json_ok cp ∧ Forall (λ c, cpID c ≠ cpID cp) (spAll sp)
      ∧ Forall (λ c, earlier c cp) (spAll sp) ∧ kept (spCutoff sp) cp
  | OpDelete _ scan None => ∀ k, is_Some (stRedis st !! k) → k ∈ scan
  | _ => True
  end.

Fixpoint run_ok (st : Store) (sp : Spec) (ops : list Op) : Prop :=
  match ops with
  | [] => True
  | op :: ops' => op_ok st sp op ∧ run_ok (run_op st op) (spec_op (stCheckpointTTL st) sp op) ops'
  end.

Definition run (st : Store) (ops : list Op) : Store := foldl run_op st ops.
Definition spec_run (ttl : Z) (sp : Spec) (ops : list Op) : Spec := foldl (spec_op ttl) sp ops.
Definition empty_spec : Spec := {| spAll := []; spCutoff := None |}.

(** ** The simulation *)

Definition row_of (cp : Checkpoint) : Row :=
  {| rwID := cpID cp; rwExecutionID := cpExecutionID cp; rwNodeID := cpNodeID cp;
     rwState := default "" (encode_state (cpState cp)); rwTimestamp := cpTimestamp cp;
     rwVersion := cpVersion cp; rwMetadata := default "" (encode_meta (cpMetadata cp)) |}.

Definition live (sp : Spec) : list Checkpoint := filter (kept (spCutoff sp)) (spAll sp).

Record simulates (st : Store) (sp : Spec) : Prop := {
  sim_rows : stRows st = row_of <$> live sp;
  sim_json : Forall json_ok (spAll sp);
  sim_nodup : NoDup (cpID <$> spAll sp);
  sim_order : StronglySorted earlier (spAll sp);
  sim_redis : ∀ e d t, stRedis st !! latest_key e = Some (d, t) →
                ∃ cp, spec_latest sp e = Some cp ∧ decode_cp d = Some cp;
  sim_keys : ∀ k, is_Some (stRedis st !! k) → ∃ e, k = latest_key e
}.

Lemma decode_row_of cp : json_ok cp → decode_row (row_of cp) = Ok cp.
Proof.
  intros ((s & Es & Ds) & (m & Em & Dm) & _). unfold decode_row, row_of, row_checkpoint. simpl.
  rewrite Es, Em. simpl. rewrite Ds, Dm. by destruct cp.
Qed.

Lemma filter_row_of (P : Row → Prop) `{!∀ r, Decision (P r)} (Q : Checkpoint → Prop)
    `{!∀ c, Decision (Q c)} (l : list Checkpoint) :
  (∀ c, P (row_of c) ↔ Q c) → filter P (row_of <$> l) = row_of <$> filter Q l.
Proof.
  intros HPQ. induction l as [|c l IH]; [done|]. rewrite fmap_cons, !filter_cons, IH.
  destruct (decide (Q c)) as [HQ|HQ].
  - by rewrite decide_True by by apply HPQ.
  - rewrite decide_False; [done|]. by rewrite HPQ.
Qed.

Lemma sorted_filter {A} (R : A → A → Prop) (P : A → Prop) `{!∀ x, Decision (P x)} l :
  StronglySorted R l → StronglySorted R (filter P l).
Proof.
  induction 1 as [|a l _ IH HF]; [constructor|]. rewrite filter_cons.
  case_decide; [|done]. constructor; [done|]. rewrite Forall_forall in *.
  intros x [_ Hx]%list_elem_of_filter. by apply HF.
Qed.

Lemma sorted_snoc {A} (R : A → A → Prop) l x :
  StronglySorted R l → Forall (λ y, R y x) l → StronglySorted R (l ++ [x]).
Proof.
  induction 1 as [|a l _ IH HF]; intros Hx; simpl; [repeat constructor|].
  apply Forall_cons in Hx as [Hax Hx]. constructor; [by apply IH|].
  apply Forall_app; auto.
Qed.

Lemma sorted_last {A} (R : A → A → Prop) l x :
  StronglySorted R (l ++ [x]) → Forall (λ y, R y x) l.
Proof.
  induction l as [|a l IH]; simpl; intros H; [constructor|].
  inversion H as [|? ? Hs HF]; subst. constructor; [|by apply IH].
  rewrite Forall_forall in HF. apply HF, elem_of_app. right. by constructor.
Qed.

Lemma sorted_prefix {A} (R : A → A → Prop) l x : StronglySorted R (l ++ [x]) → StronglySorted R l.
Proof.
  induction l as [|a l IH]; simpl; intros H; [constructor|].
  inversion H as [|? ? Hs HF]; subst. constructor; [by apply IH|]. by apply Forall_app in HF as [].
Qed.

(** The rows of an execution, in the order of their timestamps. *)
Lemma latest_row_snoc e rows r :
  latest_row e (rows ++ [r]) =
    if bool_decide (rwExecutionID r = e) then
      match latest_row e rows with None => Some r | Some a => if newer a r then Some a else Some r end
    else latest_row e rows.
Proof. unfold latest_row. rewrite foldl_app. simpl. destruct (foldl _ _ _); repeat case_match; done. Qed.

Lemma of_execution_snoc e l cp :
  of_execution e (l ++ [cp]) =
    if bool_decide (cpExecutionID cp = e) then of_execution e l ++ [cp] else of_execution e l.
Proof.
  unfold of_execution. rewrite filter_app, filter_cons, filter_nil.
  case_bool_decide; [by rewrite decide_True|by rewrite decide_False, app_nil_r].
Qed.

Lemma of_execution_same e l cp : cp ∈ of_execution e l → cpExecutionID cp = e ∧ cp ∈ l.
Proof. intros H. by apply list_elem_of_filter in H. Qed.

Lemma newer_earlier a b :
  earlier a b → cpExecutionID a = cpExecutionID b → newer (row_of a) (row_of b) = false.
Proof.
  intros H E. specialize (H E). unfold newer. simpl. rewrite !bool_decide_false by lia. done.
Qed.

Lemma latest_row_sorted e l :
  StronglySorted earlier l → latest_row e (row_of <$> l) = row_of <$> last (of_execution e l).
Proof.
  induction l as [|cp l IH] using rev_ind; [done|]. intros H.
  pose proof (sorted_last _ _ _ H) as HF.
  assert (StronglySorted earlier l) as Hl by (by eapply sorted_prefix).
  rewrite fmap_app. simpl. rewrite latest_row_snoc, of_execution_snoc, IH by done. simpl.
  case_bool_decide as He; [|done]. rewrite last_snoc.
  destruct (last (of_execution e l)) as [a|] eqn:E; simpl; [|done].
  apply last_Some_elem_of, of_execution_same in E as [Ea Hin]. rewrite Forall_forall in HF.
  rewrite newer_earlier; [done|by apply HF|congruence].
Qed.

Lemma live_sorted st sp : simulates st sp → StronglySorted earlier (live sp).
Proof. intros H. apply sorted_filter, (sim_order _ _ H). Qed.

Lemma of_execution_live e sp : of_execution e (live sp) = filter (kept (spCutoff sp)) (of_execution e (spAll sp)).
Proof.
  unfold of_execution, live. rewrite !list_filter_filter. apply list_filter_iff. intros x. tauto.
Qed.

(** What the cleanup leaves of an execution: its latest checkpoint unless that
    is older than the cutoff, and then nothing. *)
Lemma latest_live st sp e cp :
  simulates st sp → spec_latest sp e = Some cp →
  last (of_execution e (live sp)) = if bool_decide (kept (spCutoff sp) cp) then Some cp else None.
Proof.
  intros H E. unfold spec_latest in E. rewrite of_execution_live.
  apply last_Some in E as [l E].
  pose proof (sorted_filter _ (λ cp, cpExecutionID cp = e) _ (sim_order _ _ H)) as Hs.
  change (filter _ (spAll sp)) with (of_execution e (spAll sp)) in Hs. rewrite E in Hs |- *.
  apply sorted_last in Hs. rewrite filter_app, filter_cons, filter_nil.
  case_bool_decide as Hk; [by rewrite decide_True, last_snoc|].
  rewrite decide_False by done. rewrite filter_none; [done|].
  assert (∀ c, c ∈ l ++ [cp] → cpExecutionID c = e) as Hex.
  { intros c Hc. rewrite <-E in Hc. by apply of_execution_same in Hc as []. }
  rewrite Forall_forall in Hs. intros c Hc Hkc. apply Hk. specialize (Hs c Hc).
  assert (cpTimestamp c < cpTimestamp cp)%Z.
  { apply Hs. rewrite !Hex; [done|set_solver|set_solver]. }
  unfold kept in *. case_match; [lia|done].
Qed.

Lemma getFromDatabase_spec st sp e :
  simulates st sp →
  getFromDatabase st e None =
    match last (of_execution e (live sp)) with
    | Some cp => Ok cp
    | None => Err ("no checkpoint found for execution: " +:+ e)
    end.
Proof.
  intros H. unfold getFromDatabase. rewrite (sim_rows _ _ H), latest_row_sorted by by eapply live_sorted.
  destruct (last _) as [cp|] eqn:E; simpl; [|done]. apply decode_row_of.
  apply last_Some_elem_of, of_execution_same in E as [_ E].
  pose proof (sim_json _ _ H) as Hj. rewrite Forall_forall in Hj. apply Hj.
  by apply list_elem_of_filter in E as [].
Qed.

Lemma GetLatestCheckpoint_spec st sp e now err :
  simulates st sp →
  match spec_latest sp e with
  | None => GetLatestCheckpoint st e now (err, None) = Err ("no checkpoint found for execution: " +:+ e)
  | Some cp =>
      GetLatestCheckpoint st e now (err, None) = Ok cp
      ∨ ¬ kept (spCutoff sp) cp
        ∧ GetLatestCheckpoint st e now (err, None) = Err ("no checkpoint found for execution: " +:+ e)
  end.
Proof.
  intros H. unfold GetLatestCheckpoint. cbn [fst snd]. rewrite (getFromDatabase_spec _ _ _ H).
  assert (∀ c, getFromRedis st e now err = Ok c → spec_latest sp e = Some c) as Hr.
  { intros c. unfold getFromRedis. destruct err; [done|].
    destruct (stRedis st !! latest_key e) as [[d t]|] eqn:E; [|done].
    destruct (sim_redis _ _ H _ _ _ E) as (cp & Hl & Hd). rewrite Hd. case_bool_decide; congruence. }
  destruct (getFromRedis st e now err) as [c|]; [rewrite (Hr c eq_refl); by left|].
  destruct (spec_latest sp e) as [cp|] eqn:E.
  - rewrite (latest_live _ _ _ _ H E). case_bool_decide; auto.
  - unfold spec_latest in E. apply last_None in E.
    rewrite of_execution_live, E. done.
Qed.

(** *** Listing *)

Lemma insert_newest_sorted l e :
  Forall (λ cp, cpExecutionID cp = e) l → StronglySorted earlier l →
  foldl (λ acc r, insert_newest r acc) [] (row_of <$> l) = row_of <$> reverse l.
Proof.
  induction l as [|cp l IH] using rev_ind; intros He Hs; [done|].
  pose proof (sorted_last _ _ _ Hs) as HF. apply Forall_app in He as [He Hcp].
  assert (StronglySorted earlier l) as Hl by (by eapply sorted_prefix).
  rewrite fmap_app, foldl_app, IH by done. simpl. rewrite reverse_snoc.
  destruct (reverse l) as [|a l'] eqn:E; [done|]. simpl.
  assert (a ∈ l) as Ha by (apply elem_of_reverse; rewrite E; constructor).
  rewrite Forall_forall in HF, He. rewrite Forall_singleton in Hcp.
  rewrite newer_earlier; [done|by apply HF|rewrite He; done].
Qed.

Lemma ListCheckpoints_spec st sp e :
  simulates st sp →
  ListCheckpoints st e None =
    Ok (take (Z.to_nat (stMaxCheckpoints st)) (reverse (of_execution e (live sp)))).
Proof.
  intros H. unfold ListCheckpoints. rewrite (sim_rows _ _ H).
  rewrite (filter_row_of _ (λ cp, cpExecutionID cp = e)) by done.
  change (filter _ (live sp)) with (of_execution e (live sp)).
  rewrite (insert_newest_sorted _ e).
  2:{ apply Forall_forall. intros c Hc. by apply of_execution_same in Hc as []. }
  2:{ apply sorted_filter. by eapply live_sorted. }
  f_equal. rewrite fmap_take, <-list_fmap_compose. f_equal.
  rewrite <-(list_fmap_id (reverse _)) at 2. apply list_fmap_ext. intros i c Hc.
  apply list_elem_of_lookup_2, elem_of_reverse, of_execution_same in Hc as [_ Hc].
  apply list_elem_of_filter in Hc as [_ Hc]. pose proof (sim_json _ _ H) as Hj.
  rewrite Forall_forall in Hj. pose proof (decode_row_of c (Hj c Hc)) as D. simpl.
  unfold decode_row in D. simpl in D |- *. repeat case_match; by simplify_eq/=.
Qed.

Lemma nodup_filter_id l cp :
  NoDup (cpID <$> l) → cp ∈ l → filter (λ c, cpID c = cpID cp) l = [cp].
Proof.
  induction l as [|c l IH]; [by intros _ ?%elem_of_nil|]. rewrite fmap_cons, NoDup_cons, filter_cons.
  intros [Hc Hl] [->|Hin]%elem_of_cons.
  - rewrite decide_True, filter_none; [done| |done].
    intros x Hx E. apply Hc. rewrite <-E. by apply list_elem_of_fmap_2.
  - rewrite decide_False; [by apply IH|]. intros E. apply Hc. rewrite E. by apply list_elem_of_fmap_2.
Qed.

Lemma GetCheckpointByID_spec st sp cp :
  simulates st sp → cp ∈ live sp → GetCheckpointByID st (cpID cp) None = Ok cp.
Proof.
  intros H Hin. unfold GetCheckpointByID. rewrite (sim_rows _ _ H).
  rewrite (filter_row_of _ (λ c, cpID c = cpID cp)) by done.
  rewrite nodup_filter_id; [|eapply sublist_NoDup|done].
  - simpl. apply decode_row_of. pose proof (sim_json _ _ H) as Hj. rewrite Forall_forall in Hj.
    apply Hj. by apply list_elem_of_filter in Hin as [].
  - apply (sim_nodup _ _ H).
  - apply fmap_sublist, sublist_filter.
Qed.

(** *** Every operation preserves the simulation *)

#[global] Instance latest_key_inj : Inj (=) (=) latest_key.
Proof. intros a b E. apply (inj (String.append _)) in E. by apply string_app_inj_r in E. Qed.

Lemma last_filter {A} (P : A → Prop) `{!∀ x, Decision (P x)} (l : list A) x :
  last l = Some x → P x → last (filter P l) = Some x.
Proof.
  intros [l' ->]%last_Some HP. by rewrite filter_app, filter_cons, decide_True, filter_nil, last_snoc.
Qed.

Lemma spec_latest_elem sp e cp :
  spec_latest sp e = Some cp → cpExecutionID cp = e ∧ cp ∈ spAll sp.
Proof. intros H. apply last_Some_elem_of in H. by apply of_execution_same. Qed.

Lemma live_fresh sp cp :
  Forall (λ c, cpID c ≠ cpID cp) (spAll sp) → cpID cp ∉ rwID <$> (row_of <$> live sp).
Proof.
  rewrite Forall_forall. intros H. rewrite <-list_fmap_compose. intros (c & E & Hc)%list_elem_of_fmap.
  apply list_elem_of_filter in Hc as [_ Hc]. by apply (H c Hc).
Qed.

Lemma simulates_save st sp cp now dberr :
  simulates st sp → op_ok st sp (OpSave cp now dberr) →
  simulates (run_op st (OpSave cp now dberr)) (spec_op (stCheckpointTTL st) sp (OpSave cp now dberr)).
Proof.
  intros H. destruct dberr as [e|]; simpl.
  { intros _. unfold SaveCheckpointSync, saveToDatabase. simpl. by repeat case_match. }
  intros (Hj & Hfresh & Hord & Hk). pose proof Hj as ((s & Es & _) & (m & Em & _) & d & Ed & Dd).
  unfold SaveCheckpointSync, saveToDatabase, saveToRedis. simpl. rewrite Es, Em, Ed. simpl.
  constructor; simpl.
  - rewrite (sim_rows _ _ H). unfold upsert. simpl.
    rewrite bool_decide_false by by apply live_fresh.
    unfold live. simpl. rewrite filter_app, filter_cons, decide_True, filter_nil, fmap_app by done.
    f_equal. unfold row_of. simpl. by rewrite Es, Em.
  - apply Forall_app. split; [apply (sim_json _ _ H)|by constructor].
  - rewrite fmap_app. apply NoDup_app. split; [apply (sim_nodup _ _ H)|]. split; [|apply NoDup_singleton].
    intros x (c & -> & Hc)%list_elem_of_fmap. simpl. rewrite list_elem_of_singleton.
    rewrite Forall_forall in Hfresh. by apply Hfresh.
  - apply sorted_snoc; [apply (sim_order _ _ H)|done].
  - intros e d' t. unfold spec_latest. simpl. rewrite of_execution_snoc, lookup_insert_Some.
    intros [[E [= <- <-]]|[Hne Hl]].
    + apply (inj latest_key) in E as <-. rewrite bool_decide_true by done. exists cp. by rewrite last_snoc.
    + rewrite bool_decide_false by congruence. by eapply (sim_redis _ _ H).
  - intros k [<-|[_ Hk']]%lookup_insert_is_Some; [by eexists|by apply (sim_keys _ _ H)].
Qed.

Lemma redis_holder_some m id scan k :
  redis_holder m id scan = Some k → ∃ d t cp, m !! k = Some (d, t) ∧ decode_cp d = Some cp ∧ cpID cp = id.
Proof.
  induction scan as [|k' scan IH]; simpl; [done|].
  destruct (m !! k') as [[d t]|] eqn:E; [|done]. destruct (decode_cp d) as [cp|] eqn:D; [|done].
  case_bool_decide; [|done]. intros [= <-]. by exists d, t, cp.
Qed.

Lemma redis_holder_none m id scan k d t cp :
  redis_holder m id scan = None → k ∈ scan → m !! k = Some (d, t) → decode_cp d = Some cp → cpID cp ≠ id.
Proof.
  induction scan as [|k' scan IH]; simpl; [by intros _ ?%elem_of_nil|].
  intros H [<-|Hin]%elem_of_cons E D.
  - rewrite E, D in H. by case_bool_decide.
  - apply IH; [|done..]. repeat case_match; by simplify_eq.
Qed.

(** Redis holds the latest checkpoint of an execution, so two entries with one
    ID are the same entry. *)
Lemma redis_same_id st sp e1 d1 t1 cp1 e2 d2 t2 cp2 :
  simulates st sp →
  stRedis st !! latest_key e1 = Some (d1, t1) → decode_cp d1 = Some cp1 →
  stRedis st !! latest_key e2 = Some (d2, t2) → decode_cp d2 = Some cp2 →
  cpID cp1 = cpID cp2 → e1 = e2.
Proof.
  intros H E1 D1 E2 D2 Hid.
  destruct (sim_redis _ _ H _ _ _ E1) as (c1 & [<- H1]%spec_latest_elem & D1').
  destruct (sim_redis _ _ H _ _ _ E2) as (c2 & [<- H2]%spec_latest_elem & D2'). simplify_eq.
  pose proof (nodup_filter_id _ _ (sim_nodup _ _ H) H1) as F1.
  pose proof (nodup_filter_id _ _ (sim_nodup _ _ H) H2) as F2. rewrite Hid, F2 in F1. by injection F1 as ->.
Qed.

(** A Redis entry that stays after a deletion is not the deleted checkpoint. *)
Lemma delete_redis_stays st sp id scan e d t cp :
  simulates st sp → (∀ k, is_Some (stRedis st !! k) → k ∈ scan) →
  stRedis (DeleteCheckpoint st id scan None).2 !! latest_key e = Some (d, t) →
  decode_cp d = Some cp → cpID cp ≠ id ∧ stRedis st !! latest_key e = Some (d, t).
Proof.
  intros H Hscan. unfold DeleteCheckpoint. simpl.
  destruct (redis_holder _ _ _) as [k|] eqn:R; simpl.
  - intros [Hne E]%lookup_delete_Some D. split; [|done]. intros Hid.
    apply redis_holder_some in R as (d' & t' & cp' & E' & D' & Hid').
    destruct (sim_keys _ _ H k) as [e' ->]; [by eexists|]. apply Hne. f_equal.
    eapply (redis_same_id _ _ e' d' t' cp' e d t cp); eauto. congruence.
  - intros E D. split; [|done]. eapply redis_holder_none; eauto.
Qed.

Lemma simulates_delete st sp id scan dberr :
  simulates st sp → op_ok st sp (OpDelete id scan dberr) →
  simulates (run_op st (OpDelete id scan dberr)) (spec_op (stCheckpointTTL st) sp (OpDelete id scan dberr)).
Proof.
  intros H. destruct dberr as [e|]; [done|]. unfold op_ok. intros Hscan. cbn [run_op spec_op].
  assert (sublist (filter (λ cp, cpID cp ≠ id) (spAll sp)) (spAll sp)) as Hsub by apply sublist_filter.
  constructor; cbn [spAll spCutoff].
  - assert (stRows (DeleteCheckpoint st id scan None).2 = filter (λ r, rwID r ≠ id) (stRows st)) as ->.
    { unfold DeleteCheckpoint. simpl. by case_match. }
    rewrite (sim_rows _ _ H), (filter_row_of _ (λ c, cpID c ≠ id)) by done. f_equal.
    unfold live. simpl. rewrite !list_filter_filter. apply list_filter_iff. intros x. tauto.
  - pose proof (sim_json _ _ H) as Hj. rewrite Forall_forall in Hj |- *.
    intros c [_ Hc]%list_elem_of_filter. by apply Hj.
  - eapply sublist_NoDup; [apply (sim_nodup _ _ H)|]. by apply fmap_sublist.
  - apply sorted_filter, (sim_order _ _ H).
  - intros e d t E.
    assert (∃ cp, decode_cp d = Some cp ∧ spec_latest sp e = Some cp) as (cp & D & L).
    { assert (stRedis st !! latest_key e = Some (d, t)) as E'.
      { revert E. unfold DeleteCheckpoint. simpl. case_match; simpl; [|done].
        by intros [_ ?]%lookup_delete_Some. }
      destruct (sim_redis _ _ H _ _ _ E') as (cp & ? & ?). eauto. }
    destruct (delete_redis_stays _ _ _ _ _ _ _ _ H Hscan E D) as [Hne _].
    exists cp. split; [|done]. unfold spec_latest, of_execution in L |- *. simpl.
    rewrite list_filter_filter, (list_filter_iff _ (λ c, cpID c ≠ id ∧ cpExecutionID c = e)) by tauto.
    rewrite <-list_filter_filter. by apply last_filter.
  - intros k Hk. apply (sim_keys _ _ H). revert Hk. unfold DeleteCheckpoint. simpl.
    case_match; simpl; [|done]. by intros [_ ?]%lookup_delete_is_Some.
Qed.

Lemma simulates_cleanup st sp now dberr :
  simulates st sp →
  simulates (run_op st (OpCleanup now dberr)) (spec_op (stCheckpointTTL st) sp (OpCleanup now dberr)).
Proof.
  intros H. destruct dberr as [e|]; [done|]. destruct H as [Hr ?? ? ? ?].
  constructor; [|done..]. simpl. rewrite Hr.
  rewrite (filter_row_of _ (λ c, now - stCheckpointTTL st ≤ cpTimestamp c)%Z) by done. f_equal.
  unfold live. simpl. rewrite list_filter_filter. apply list_filter_iff. intros c. simpl.
  unfold kept. destruct (spCutoff sp); lia.
Qed.

Lemma run_op_config st op :
  stCheckpointTTL (run_op st op) = stCheckpointTTL st
  ∧ stMaxCheckpoints (run_op st op) = stMaxCheckpoints st.
Proof.
  destruct op as [cp now [e|]|id scan [e|]|now [e|]]; simpl; try done.
  all: unfold SaveCheckpointSync, saveToDatabase, saveToRedis, DeleteCheckpoint; simpl.
  all: by repeat case_match; simplify_eq/=.
Qed.

Lemma simulates_op st sp op :
  simulates st sp → op_ok st sp op → simulates (run_op st op) (spec_op (stCheckpointTTL st) sp op).
Proof.
  destruct op; eauto using simulates_save, simulates_delete, simulates_cleanup.
Qed.

Lemma simulates_run ops st sp :
  simulates st sp → run_ok st sp ops →
  simulates (run st ops) (spec_run (stCheckpointTTL st) sp ops)
  ∧ stMaxCheckpoints (run st ops) = stMaxCheckpoints st.
Proof.
  revert st sp. induction ops as [|op ops IH]; intros st sp H; simpl; [done|].
  intros [Hop Hrun]. destruct (run_op_config st op) as [E1 E2].
  destruct (IH _ _ (simulates_op _ _ _ H Hop) Hrun) as [IH1 IH2]. rewrite E1 in IH1.
  split; [done|]. by rewrite IH2.
Qed.

Lemma simulates_new ttl max : simulates (NewStore ttl max) empty_spec.
Proof.
  constructor; simpl; [done|done|apply NoDup_nil_2|constructor| |].
  - intros e d t. by rewrite lookup_empty.
  - intros k [? Hk]. by rewrite lookup_empty in Hk.
Qed.

(** C10. The checkpoint store (table and Redis copy) implements the abstract
    store of saved checkpoints: after any run of saves, deletions and cleanups
    in which the database may fail, the latest checkpoint of an execution is
    the one saved last and not deleted, whether Redis answers or not and
    whether or not its entry has expired; it is missing only when none was
    saved or when the cleanup has passed it. The other reads agree: a
    checkpoint is found by its ID, and an execution's list is newest first. *)
Theorem checkpoint_refinement ttl max ops e now redis_err :
  let st0 := NewStore ttl max in
  run_ok st0 empty_spec ops →
  let st := run st0 ops in
  let sp := spec_run (stCheckpointTTL st0) empty_spec ops in
  match spec_latest sp e with
  | None => GetLatestCheckpoint st e now (redis_err, None)
            = Err ("no checkpoint found for execution: " +:+ e)
  | Some cp =>
      GetLatestCheckpoint st e now (redis_err, None) = Ok cp
      ∨ ¬ kept (spCutoff sp) cp
        ∧ GetLatestCheckpoint st e now (redis_err, None)
          = Err ("no checkpoint found for execution: " +:+ e)
  end
  ∧ (∀ cp, cp ∈ live sp → GetCheckpointByID st (cpID cp) None = Ok cp)
  ∧ ListCheckpoints st e None
    = Ok (take (Z.to_nat (stMaxCheckpoints st0)) (reverse (of_execution e (live sp)))).
Proof.
  intros st0 Hrun st sp.
  destruct (simulates_run _ _ _ (simulates_new ttl max) Hrun) as [Hsim Hmax].
  split; [by apply GetLatestCheckpoint_spec|].
  split; [intros cp; by apply GetCheckpointByID_spec|].
  unfold st0. rewrite <-Hmax. by apply ListCheckpoints_spec.
Qed.

(** A Redis write that fails is only logged: the previous checkpoint is then
    still served as the latest. *)
Lemma stale_latest st cp1 cp2 e d now1 now2 now err m s s1 m1 :
  cpExecutionID cp1 = e → cpExecutionID cp2 = e → cpID cp1 ≠ cpID cp2 →
  encode_state (cpState cp1) = Some s1 → encode_meta (cpMetadata cp1) = Some m1 →
  encode_cp cp1 = Some d → decode_cp d = Some cp1 →
  encode_state (cpState cp2) = Some s → encode_meta (cpMetadata cp2) = Some m →
  (now < now1 + stCheckpointTTL st)%Z →
  let st1 := (SaveCheckpointSync st cp1 now1 (None, None)).2 in
  let '(r, st2) := SaveCheckpointSync st1 cp2 now2 (None, Some err) in
  r = Ok tt ∧ GetLatestCheckpoint st2 e now (None, None) = Ok cp1.
Proof.
  intros E1 E2 Hne Es1 Em1 Ed Dd Es Em Hnow st1. subst st1.
  unfold SaveCheckpointSync, saveToDatabase, saveToRedis. cbn [fst snd].
  rewrite Es1, Em1, Ed. cbn [fst snd]. rewrite Es, Em. split; [done|].
  unfold GetLatestCheckpoint, getFromRedis.
  destruct (encode_cp cp2); simpl; rewrite E1, lookup_insert_eq, bool_decide_true, Dd by lia; done.
Qed.

(** ** The queue of checkpoints and the goroutine that saves them

    The callers' checkpoints are shared by pointer: the queue and the batch hold
    handles into [plHeap], and a checkpoint is read when it is saved.
    [plAccepted] and [plHandled] record which were put into the queue and which
    were handed to [SaveCheckpointSync]. *)

Record Pipeline := {
  plStore : Store;
  plHeap : gmap nat Checkpoint;
  plQueue : list nat;
  plBatch : list nat;
  plStopped : bool;          (* stopCh and checkpointQueue are closed *)
  plExited : bool;           (* processCheckpoints has returned *)
  plAccepted : list nat;
  plHandled : list nat
}.

Inductive SaveOutcome := Queued | QueueFull (msg : string) | Panicked.

Definition queue_capacity : nat := 1000.
Definition batch_size : nat := 10.

Definition start_pipeline (st : Store) (heap : gmap nat Checkpoint) : Pipeline :=
  {| plStore := st; plHeap := heap; plQueue := []; plBatch := []; plStopped := false;
     plExited := false; plAccepted := []; plHandled := [] |}.

Definition stamp (cp : Checkpoint) (uuid : string) (now : Z) : Checkpoint :=
  {| cpID := if bool_decide (cpID cp = "") then uuid else cpID cp; cpExecutionID := cpExecutionID cp;
     cpNodeID := cpNodeID cp; cpState := cpState cp; cpTimestamp := now; cpVersion := cpVersion cp;
     cpMetadata := cpMetadata cp |}.

(** [SaveCheckpoint]: the wait for room is over when the queue has room or the
    five seconds have passed; a send on the closed queue panics. *)
Definition SaveCheckpoint (pl : Pipeline) (p : nat) (uuid : string) (now : Z) : SaveOutcome * Pipeline :=
  match plHeap pl !! p with
  | None => (Panicked, pl)
  | Some cp =>
      let heap := <[p := stamp cp uuid now]> (plHeap pl) in
      let upd q acc := {| plStore := plStore pl; plHeap := heap; plQueue := q; plBatch := plBatch pl;
                          plStopped := plStopped pl; plExited := plExited pl; plAccepted := acc;
                          plHandled := plHandled pl |} in
      if plStopped pl then (Panicked, upd (plQueue pl) (plAccepted pl))
      else if bool_decide (length (plQueue pl) < queue_capacity)
      then (Queued, upd (plQueue pl ++ [p]) (plAccepted pl ++ [p]))
      else (QueueFull "checkpoint queue full", upd (plQueue pl) (plAccepted pl))
  end.

(** [saveBatch]: the environment gives the time of each save and its failures. *)
Definition saveBatch (env : nat → Z * (option string * option string)) (heap : gmap nat Checkpoint)
    (st : Store) (batch : list nat) : Store :=
  foldl (λ st p, match heap !! p with
                 | Some cp => (SaveCheckpointSync st cp (env p).1 (env p).2).2
                 | None => st
                 end) st batch.

Definition flush (env : nat → Z * (option string * option string)) (pl : Pipeline) (exited : bool) : Pipeline :=
  {| plStore := if bool_decide (0 < length (plBatch pl))
                then saveBatch env (plHeap pl) (plStore pl) (plBatch pl) else plStore pl;
     plHeap := plHeap pl; plQueue := plQueue pl; plBatch := []; plStopped := plStopped pl;
     plExited := exited; plAccepted := plAccepted pl; plHandled := plHandled pl ++ plBatch pl |}.

Definition set_batch (pl : Pipeline) (queue batch : list nat) : Pipeline :=
  {| plStore := plStore pl; plHeap := plHeap pl; plQueue := queue; plBatch := batch;
     plStopped := plStopped pl; plExited := plExited pl; plAccepted := plAccepted pl;
     plHandled := plHandled pl |}.

(** One turn of [processCheckpoints]: the ready cases of its select. *)
Inductive Ready := QueueReady | TickReady | StopReady.

Definition processCheckpoints (env : nat → Z * (option string * option string)) (r : Ready)
    (pl : Pipeline) : option Pipeline :=
  if plExited pl then None else
  match r with
  | QueueReady =>
      match plQueue pl with
      | [] => if plStopped pl then Some (flush env pl true) else None
      | p :: q =>
          let pl' := set_batch pl q (plBatch pl ++ [p]) in
          Some (if bool_decide (batch_size ≤ length (plBatch pl')) then flush env pl' false else pl')
      end
  | TickReady => Some (flush env pl false)
  | StopReady => if plStopped pl then Some (flush env pl true) else None
  end.

Definition set_store (pl : Pipeline) (st : Store) : Pipeline :=
  {| plStore := st; plHeap := plHeap pl; plQueue := plQueue pl; plBatch := plBatch pl;
     plStopped := plStopped pl; plExited := plExited pl; plAccepted := plAccepted pl;
     plHandled := plHandled pl |}.

(** [Stop] closes both channels; a second call panics. *)
Definition Stop (pl : Pipeline) : option Pipeline :=
  if plStopped pl then None
  else Some {| plStore := plStore pl; plHeap := plHeap pl; plQueue := plQueue pl; plBatch := plBatch pl;
               plStopped := true; plExited := plExited pl; plAccepted := plAccepted pl;
               plHandled := plHandled pl |}.

(** The turns of the saving goroutine alone, and everything that can happen:
    saves by callers, writes of callers to their checkpoints, the hourly
    cleanup, [Stop]. *)
Inductive worker_step : Pipeline → Pipeline → Prop :=
  | ws_turn env r pl pl' : r ≠ TickReady → processCheckpoints env r pl = Some pl' → worker_step pl pl'.

Inductive pipeline_step : Pipeline → Pipeline → Prop :=
  | ps_save pl p uuid now : pipeline_step pl (SaveCheckpoint pl p uuid now).2
  | ps_turn env r pl pl' : processCheckpoints env r pl = Some pl' → pipeline_step pl pl'
  | ps_cleanup pl now err : pipeline_step pl (set_store pl (performCleanup (plStore pl) now err))
  | ps_stop pl pl' : Stop pl = Some pl' → pipeline_step pl pl'.

Record pipeline_inv (pl : Pipeline) : Prop := {
  pi_order : plAccepted pl = plHandled pl ++ plBatch pl ++ plQueue pl;
  pi_queue : length (plQueue pl) ≤ queue_capacity;
  pi_batch : length (plBatch pl) < batch_size;
  pi_exit : plExited pl = true → plStopped pl = true ∧ plBatch pl = []
}.

Lemma flush_inv env pl exited :
  plAccepted pl = plHandled pl ++ plBatch pl ++ plQueue pl → length (plQueue pl) ≤ queue_capacity →
  (exited = true → plStopped pl = true) → pipeline_inv (flush env pl exited).
Proof.
  intros Ho Hq Hx. constructor; simpl; [|done|unfold batch_size; lia|auto].
  by rewrite Ho, app_assoc.
Qed.

Lemma pipeline_turn_inv env r pl pl' :
  pipeline_inv pl → processCheckpoints env r pl = Some pl' → pipeline_inv pl'.
Proof.
  intros [Ho Hq Hb Hx]. unfold processCheckpoints.
  destruct (plExited pl) eqn:X; [done|]. destruct r.
  - destruct (plQueue pl) as [|p q] eqn:Q.
    + destruct (plStopped pl) eqn:S; [|done]. intros [= <-]. apply flush_inv; rewrite ?Q; auto.
    + assert (plAccepted pl = plHandled pl ++ (plBatch pl ++ [p]) ++ q) as Ho'.
      { rewrite Ho. by rewrite <-!app_assoc. }
      intros [= <-]. simpl in Hq. case_bool_decide as Hlen.
      * apply flush_inv; simpl; [done|lia|done].
      * simpl in Hlen. constructor; simpl; [done|lia|lia|by rewrite X].
  - intros [= <-]. by apply flush_inv.
  - destruct (plStopped pl) eqn:S; [|done]. intros [= <-]. by apply flush_inv.
Qed.

Lemma save_inv pl p uuid now : pipeline_inv pl → pipeline_inv (SaveCheckpoint pl p uuid now).2.
Proof.
  intros [Ho Hq Hb Hx]. unfold SaveCheckpoint. destruct (plHeap pl !! p); [|by constructor].
  destruct (plStopped pl) eqn:S; [by constructor|]. case_bool_decide as Hlen; constructor; simpl; try done.
  - rewrite Ho. by rewrite <-!app_assoc.
  - rewrite length_app. simpl. lia.
Qed.

Lemma pipeline_step_inv pl pl' : pipeline_step pl pl' → pipeline_inv pl → pipeline_inv pl'.
Proof.
  destruct 1 as [pl p uuid now|env r pl pl' H|pl now err|pl pl' H]; intros Hi.
  - by apply save_inv.
  - by eapply pipeline_turn_inv.
  - by destruct Hi; constructor.
  - unfold Stop in H. destruct (plStopped pl) eqn:S; [done|]. injection H as <-.
    destruct Hi as [? ? ? Hx]. constructor; simpl; [done..|]. intros E. by apply Hx in E as [??].
Qed.

(** The work left to the saving goroutine. *)
Definition work_left (pl : Pipeline) : nat :=
  length (plQueue pl) + (if plExited pl then 0 else 1).

Lemma worker_step_decreases pl pl' : worker_step pl pl' → work_left pl' < work_left pl.
Proof.
  destruct 1 as [env r pl pl' Hr H]. revert H. unfold processCheckpoints, work_left.
  destruct (plExited pl) eqn:X; [done|]. destruct r; [|done|].
  - destruct (plQueue pl) as [|p q] eqn:Q.
    + destruct (plStopped pl); [|done]. intros [= <-]. simpl. rewrite Q. simpl. lia.
    + intros [= <-]. case_bool_decide; simpl; rewrite ?X; lia.
  - destruct (plStopped pl); [|done]. intros [= <-]. simpl. lia.
Qed.

Lemma drain (env : nat → Z * (option string * option string)) n pl :
  pipeline_inv pl → plStopped pl = true → plExited pl = false → length (plQueue pl) = n →
  ∃ pl', rtc worker_step pl pl' ∧ plExited pl' = true ∧ plHandled pl' = plAccepted pl'
         ∧ plAccepted pl' = plAccepted pl.
Proof.
  revert pl. induction n as [|n IH]; intros pl Hi S X Q.
  - apply nil_length_inv in Q. exists (flush env pl true). split.
    + apply rtc_once. apply (ws_turn env QueueReady); [done|]. unfold processCheckpoints. by rewrite X, Q, S.
    + simpl. pose proof (pi_order _ Hi) as Ho. rewrite Q, app_nil_r in Ho. by rewrite Ho.
  - destruct (plQueue pl) as [|p q] eqn:E; [done|].
    destruct (processCheckpoints env QueueReady pl) as [pl1|] eqn:P.
    2:{ unfold processCheckpoints in P. by rewrite X, E in P. }
    pose proof (pipeline_turn_inv _ _ _ _ Hi P) as Hi1.
    assert (plStopped pl1 = true ∧ plExited pl1 = false ∧ plQueue pl1 = q
            ∧ plAccepted pl1 = plAccepted pl) as (S1 & X1 & Q1 & A1).
    { unfold processCheckpoints in P. rewrite X, E in P. injection P as <-. by case_bool_decide. }
    destruct (IH pl1 Hi1 S1 X1) as (pl' & Hr & ? & ? & ?); [rewrite Q1; simpl in Q; lia|].
    exists pl'. split; [|by rewrite <-A1].
    eapply rtc_l; [|done]. by apply (ws_turn env QueueReady).
Qed.

(** The checkpoint pipeline keeps every accepted checkpoint, in order, in
    exactly one of three places (handed to the database, in the current batch,
    in the queue), within the queue's and the batch's bounds; the goroutine
    exits only after Stop and with an empty batch; its turns without new saves
    terminate; and after Stop there is a run in which everything accepted is
    handed over before it exits. *)
Lemma checkpoint_pipeline st heap pl :
  rtc pipeline_step (start_pipeline st heap) pl →
  pipeline_inv pl
  ∧ well_founded (flip worker_step)
  ∧ (plStopped pl = true → plExited pl = false →
     ∃ pl', rtc worker_step pl pl' ∧ plExited pl' = true ∧ plHandled pl' = plAccepted pl).
Proof.
  intros Hrun. assert (pipeline_inv pl) as Hi.
  { eapply rtc_preserve; [|exact Hrun|]; [apply pipeline_step_inv|].
    constructor; simpl; [done|lia|unfold batch_size; lia|done]. }
  split; [done|]. split.
  - apply (well_founded_lt_compat _ work_left). intros a b H. by apply worker_step_decreases.
  - intros S X. destruct (drain (λ _, (0%Z, (None, None))) _ pl Hi S X eq_refl) as (pl' & ? & ? & H & E).
    exists pl'. by rewrite H, E.
Qed.

(** The stop case of the select can win over a queue that still holds
    checkpoints: those are never saved. *)
Lemma stop_drops_queue env pl :
  plStopped pl = true → plExited pl = false →
  ∃ pl', processCheckpoints env StopReady pl = Some pl' ∧ plQueue pl' = plQueue pl
         ∧ ∀ env' r, processCheckpoints env' r pl' = None.
Proof.
  intros S X. exists (flush env pl true). unfold processCheckpoints at 1. rewrite X, S. done.
Qed.

End Checkpoints.

(** ** Concrete runs *)

(** A codec that keeps the status of a state and the ID and time of a checkpoint. *)
Definition ex_state (status : string) : ExecutionState :=
  {| esExecutionID := "e"; esWorkflowID := "w"; esStatus := status; esContext := ∅; esNodeOutputs := ∅;
     esCompletedNodes := []; esPendingNodes := []; esVariables := ∅; esErrors := [];
     esStartTime := 0; esLastCheckpoint := 0 |}.
Definition ex_cp (status : string) (t : Z) : Checkpoint :=
  {| cpID := status; cpExecutionID := "e"; cpNodeID := ""; cpState := ex_state status;
     cpTimestamp := t; cpVersion := 1; cpMetadata := ∅ |}.
Definition ex_encode_cp (cp : Checkpoint) : option string :=
  if bool_decide (cpID cp = "first") then Some "first" else Some "second".
Definition ex_decode_cp (s : string) : option Checkpoint :=
  Some (ex_cp s (if bool_decide (s = "first") then 10 else 20)).
Definition ex_ops : list Op :=
  [OpSave (ex_cp "first" 10) 10 None; OpSave (ex_cp "second" 20) 20 None;
   OpSave (ex_cp "third" 30) 30 (Some "connection refused"); OpCleanup 115 None].

Lemma ex_ops_ok :
  run_ok (λ s, Some (esStatus s)) (λ s, Some (ex_state s)) (λ _, Some "") (λ _, Some ∅)
    ex_encode_cp ex_decode_cp (NewStore 100 5) empty_spec ex_ops.
Proof.
  assert (∀ s t, (s, t) = ("first", 10%Z) ∨ (s, t) = ("second", 20%Z) →
    json_ok (λ s, Some (esStatus s)) (λ s, Some (ex_state s)) (λ _, Some "") (λ _, Some ∅)
      ex_encode_cp ex_decode_cp (ex_cp s t)) as Hj.
  { intros s t [[= -> ->]|[= -> ->]]; repeat split; by eexists. }
  simpl. split; [split; [apply Hj; by left|repeat constructor]|].
  split; [split; [apply Hj; by right|]|done].
  split; [repeat constructor; done|]. split; [|done]. repeat constructor.
Qed.

Lemma checkpoint_refinement_witness :
  GetLatestCheckpoint (λ s, Some (ex_state s)) (λ _, Some ∅) ex_decode_cp (λ _ _, false)
    (run (λ s, Some (esStatus s)) (λ _, Some "") ex_encode_cp ex_decode_cp (NewStore 100 5) ex_ops)
    "e" 130 (None, None) = Ok (ex_cp "second" 20).
Proof.
  pose proof (checkpoint_refinement _ _ _ _ _ _ (λ _ _, false) 100 5 ex_ops "e" 130 None ex_ops_ok) as [H _].
  destruct H as [H|[H _]]; [exact H|]. exfalso. apply H. simpl. lia.
Defined.

Definition ex_pipeline : Pipeline :=
  (SaveCheckpoint (start_pipeline (NewStore 0 0) {[7 := ex_cp "" 0]}) 7 "u" 3).2.

Lemma checkpoint_pipeline_witness :
  plAccepted ex_pipeline = [7] ∧ pipeline_inv ex_pipeline.
Proof.
  split; [reflexivity|].
  apply (checkpoint_pipeline (λ s, Some (esStatus s)) (λ _, Some "") ex_encode_cp
           (NewStore 0 0) {[7 := ex_cp "" 0]}).
  apply rtc_once, ps_save.
Defined.
