(* ===== verification/Recovery.v ===== *)
(** internal/execution/app/recovery/manager.go: recovery of failed executions
    from their checkpoints.  A recovery is a goroutine that works on a task
    shared by pointer with the manager's map; the model gives every task a
    handle and its goroutine a phase, and interleaves the goroutines between
    their critical sections; the counters of successes and failures are
    incremented outside of the lock, by a read and a write.  The checkpoints are read from the store of
    [Checkpoint]. *)

From S2P Require Import Prelude GoValue GoLib Checkpoint.
From Stdlib Require Import Wf_nat.

(** ** Data *)

Inductive RecoveryStatus :=
  | RecoveryStatusPending | RecoveryStatusInProgress | RecoveryStatusCompleted | RecoveryStatusFailed.
#[global] Instance RecoveryStatus_eq_dec : EqDecision RecoveryStatus.
Proof. solve_decision. Defined.

(** A strategy is a string: callers may pass others than these four. *)
Definition RecoveryStrategyResume : string := "resume".
Definition RecoveryStrategyRestart : string := "restart".
Definition RecoveryStrategyRollback : string := "rollback".
Definition RecoveryStrategySkip : string := "skip".

Record RecoveryTask := {
  rtExecutionID : string;
  rtCheckpoint : Checkpoint;
  rtStrategy : string;
  rtStartedAt : Z;
  rtAttempts : Z;
  rtLastError : option string;
  rtStatus : RecoveryStatus
}.

(** Where the goroutine of a task is in [performRecovery]. *)
Inductive Phase :=
  | AtStart        (* about to mark the task in progress *)
  | Running        (* running the strategy *)
  | Erred          (* LastError and Attempts are set, the status is not *)
  | Sleeping       (* waiting before the next attempt *)
  | Succeeded      (* the strategy returned nil *)
  | Counting (success : bool)             (* the final status is set *)
  | Storing (success : bool) (seen : Z)   (* the counter was read as [seen] *)
  | Publishing (success : bool)           (* the counter is written *)
  | CleaningUp     (* completed and published, the map entry not yet deleted *)
  | Exited.
#[global] Instance Phase_eq_dec : EqDecision Phase.
Proof. solve_decision. Defined.

(** recovery.completed and recovery.failed, with their payload. *)
Record RecoveryEvent := {
  reExecutionID : string;
  reSuccess : bool;
  reStrategy : string;
  reAttempts : Z;
  reError : option string
}.

Record Manager := {
  rmTasks : gmap nat (RecoveryTask * Phase);
  rmNext : nat;
  rmRecovering : gmap string nat;          (* recoveringExecutions *)
  rmMaxAttempts : Z;
  rmTotal : Z;
  rmSuccessful : Z;
  rmFailed : Z;
  rmEvents : list RecoveryEvent
}.

Definition NewManager (maxRecoveryAttempts : Z) : Manager :=
  {| rmTasks := ∅; rmNext := 0; rmRecovering := ∅;
     rmMaxAttempts := if bool_decide (maxRecoveryAttempts = 0)%Z then 3 else maxRecoveryAttempts;
     rmTotal := 0; rmSuccessful := 0; rmFailed := 0; rmEvents := [] |}.

(** The execution context [resumeFromCheckpoint] builds. *)
Record ResumeContext := {
  rcExecutionID : string;
  rcVariables : vmap;
  rcNodeOutputs : vmap;
  rcErrors : list StateError;
  rcStartTime : Z
}.

Definition set_checkpoint (t : RecoveryTask) (cp : Checkpoint) : RecoveryTask :=
  {| rtExecutionID := rtExecutionID t; rtCheckpoint := cp; rtStrategy := rtStrategy t;
     rtStartedAt := rtStartedAt t; rtAttempts := rtAttempts t; rtLastError := rtLastError t;
     rtStatus := rtStatus t |}.
Definition set_status (t : RecoveryTask) (s : RecoveryStatus) : RecoveryTask :=
  {| rtExecutionID := rtExecutionID t; rtCheckpoint := rtCheckpoint t; rtStrategy := rtStrategy t;
     rtStartedAt := rtStartedAt t; rtAttempts := rtAttempts t; rtLastError := rtLastError t;
     rtStatus := s |}.
Definition record_error (t : RecoveryTask) (e : string) : RecoveryTask :=
  {| rtExecutionID := rtExecutionID t; rtCheckpoint := rtCheckpoint t; rtStrategy := rtStrategy t;
     rtStartedAt := rtStartedAt t; rtAttempts := (rtAttempts t + 1)%Z; rtLastError := Some e;
     rtStatus := rtStatus t |}.
Definition set_nodes (cp : Checkpoint) (pending completed : list string) : Checkpoint :=
  let s := cpState cp in
  {| cpID := cpID cp; cpExecutionID := cpExecutionID cp; cpNodeID := cpNodeID cp;
     cpState := {| esExecutionID := esExecutionID s; esWorkflowID := esWorkflowID s;
                   esStatus := esStatus s; esContext := esContext s; esNodeOutputs := esNodeOutputs s;
                   esCompletedNodes := completed; esPendingNodes := pending;
                   esVariables := esVariables s; esErrors := esErrors s;
                   esStartTime := esStartTime s; esLastCheckpoint := esLastCheckpoint s |};
     cpTimestamp := cpTimestamp cp; cpVersion := cpVersion cp; cpMetadata := cpMetadata cp |}.

(** ** The strategies

    A strategy returns its error and the task it leaves. *)

(** [resumeFromCheckpoint]: the context it builds and the nodes it logs; the
    nodes are not executed and it never fails. *)
Definition resumeFromCheckpoint (t : RecoveryTask) : ResumeContext * list string :=
  let s := cpState (rtCheckpoint t) in
  ({| rcExecutionID := esExecutionID s; rcVariables := esVariables s; rcNodeOutputs := esNodeOutputs s;
      rcErrors := foldl (λ acc e, acc ++ [e]) [] (esErrors s); rcStartTime := esStartTime s |},
   esPendingNodes s).

(** [ExecuteWorkflow] of the orchestrator, as the error it returns. *)
Definition restartExecution (execute : string → vmap → option string) (t : RecoveryTask) : option string :=
  execute (esWorkflowID (cpState (rtCheckpoint t))) (esContext (cpState (rtCheckpoint t))).

(** [rollbackToCheckpoint], on the result of ListCheckpoints. *)
Definition rollbackToCheckpoint (checkpoints : result (list Checkpoint)) (t : RecoveryTask) :
    option string * RecoveryTask :=
  match checkpoints with
  | Err e => (Some ("failed to list checkpoints: " +:+ e), t)
  | Ok (_ :: previousCheckpoint :: _) =>
      let t := set_checkpoint t previousCheckpoint in
      let _ := resumeFromCheckpoint t in (None, t)
  | Ok _ => (Some "no previous checkpoint to rollback to", t)
  end.

Definition skipFailedNode (t : RecoveryTask) : option string * RecoveryTask :=
  let s := cpState (rtCheckpoint t) in
  match last (esErrors s) with
  | None => (Some "no failed node to skip", t)
  | Some err =>
      let failedNodeID := seNodeID err in
      let newPending := foldl (λ acc nodeID,
        if bool_decide (nodeID = failedNodeID) then acc else acc ++ [nodeID]) [] (esPendingNodes s) in
      let t := set_checkpoint t (set_nodes (rtCheckpoint t) newPending
                                           (esCompletedNodes s ++ [failedNodeID])) in
      let _ := resumeFromCheckpoint t in (None, t)
  end.

Definition run_strategy (execute : string → vmap → option string)
    (checkpoints : result (list Checkpoint)) (t : RecoveryTask) : option string * RecoveryTask :=
  if bool_decide (rtStrategy t = RecoveryStrategyResume)
  then let _ := resumeFromCheckpoint t in (None, t)
  else if bool_decide (rtStrategy t = RecoveryStrategyRestart) then (restartExecution execute t, t)
  else if bool_decide (rtStrategy t = RecoveryStrategyRollback) then rollbackToCheckpoint checkpoints t
  else if bool_decide (rtStrategy t = RecoveryStrategySkip) then skipFailedNode t
  else (Some ("unknown recovery strategy: " +:+ rtStrategy t), t).

(** ** The goroutine of a task *)

(** The environment of one turn: the checkpoints the store would list and the
    orchestrator's answer. *)
Record TurnEnv := {
  teCheckpoints : string → result (list Checkpoint);
  teExecute : string → vmap → option string
}.

Definition set_task (m : Manager) (p : nat) (t : RecoveryTask) (ph : Phase) : Manager :=
  {| rmTasks := <[p := (t, ph)]> (rmTasks m); rmNext := rmNext m; rmRecovering := rmRecovering m;
     rmMaxAttempts := rmMaxAttempts m; rmTotal := rmTotal m; rmSuccessful := rmSuccessful m;
     rmFailed := rmFailed m; rmEvents := rmEvents m |}.

(** [updateTaskStatus]: it also counts. *)
Definition updateTaskStatus (m : Manager) (p : nat) (t : RecoveryTask) (ph : Phase) (s : RecoveryStatus) :
    Manager :=
  let m := set_task m p (set_status t s) ph in
  {| rmTasks := rmTasks m; rmNext := rmNext m; rmRecovering := rmRecovering m;
     rmMaxAttempts := rmMaxAttempts m; rmTotal := (rmTotal m + 1)%Z; rmSuccessful := rmSuccessful m;
     rmFailed := rmFailed m; rmEvents := rmEvents m |}.

(** [failedRecoveries++] and [successfulRecoveries++], without the lock. *)
Definition counter (m : Manager) (success : bool) : Z := if success then rmSuccessful m else rmFailed m.
Definition store_counter (m : Manager) (success : bool) (n : Z) : Manager :=
  {| rmTasks := rmTasks m; rmNext := rmNext m; rmRecovering := rmRecovering m;
     rmMaxAttempts := rmMaxAttempts m; rmTotal := rmTotal m;
     rmSuccessful := if success then n else rmSuccessful m;
     rmFailed := if success then rmFailed m else n; rmEvents := rmEvents m |}.

Definition recovery_event (t : RecoveryTask) (success : bool) : RecoveryEvent :=
  {| reExecutionID := rtExecutionID t; reSuccess := success; reStrategy := rtStrategy t;
     reAttempts := rtAttempts t; reError := rtLastError t |}.
Definition publishRecoveryEvent (m : Manager) (t : RecoveryTask) (success : bool) : Manager :=
  {| rmTasks := rmTasks m; rmNext := rmNext m; rmRecovering := rmRecovering m;
     rmMaxAttempts := rmMaxAttempts m; rmTotal := rmTotal m; rmSuccessful := rmSuccessful m;
     rmFailed := rmFailed m; rmEvents := rmEvents m ++ [recovery_event t success] |}.

Definition delete_recovering (m : Manager) (executionID : string) : Manager :=
  {| rmTasks := rmTasks m; rmNext := rmNext m; rmRecovering := delete executionID (rmRecovering m);
     rmMaxAttempts := rmMaxAttempts m; rmTotal := rmTotal m; rmSuccessful := rmSuccessful m;
     rmFailed := rmFailed m; rmEvents := rmEvents m |}.

(** [performRecovery], one turn of the goroutine of task [p] at a time. *)
Definition performRecovery (env : TurnEnv) (p : nat) (m : Manager) : option Manager :=
  match rmTasks m !! p with
  | None | Some (_, Exited) => None
  | Some (t, AtStart) => Some (updateTaskStatus m p t Running RecoveryStatusInProgress)
  | Some (t, Running) =>
      match run_strategy (teExecute env) (teCheckpoints env (rtExecutionID t)) t with
      | (Some e, t) => Some (set_task m p (record_error t e) Erred)
      | (None, t) => Some (set_task m p t Succeeded)
      end
  | Some (t, Erred) =>
      if bool_decide (rmMaxAttempts m ≤ rtAttempts t)%Z then
        Some (updateTaskStatus m p t (Counting false) RecoveryStatusFailed)
      else Some (updateTaskStatus m p t Sleeping RecoveryStatusPending)
  | Some (t, Sleeping) => Some (set_task m p t AtStart)
  | Some (t, Succeeded) =>
      Some (updateTaskStatus m p t (Counting true) RecoveryStatusCompleted)
  | Some (t, Counting success) => Some (set_task m p t (Storing success (counter m success)))
  | Some (t, Storing success seen) =>
      Some (store_counter (set_task m p t (Publishing success)) success (seen + 1)%Z)
  | Some (t, Publishing success) =>
      Some (publishRecoveryEvent (set_task m p t (if success then CleaningUp else Exited)) t success)
  | Some (t, CleaningUp) => Some (delete_recovering (set_task m p t Exited) (rtExecutionID t))
  end.

(** ** Starting a recovery *)

(** [RecoverExecution], on the result of GetLatestCheckpoint. *)
Definition RecoverExecution (m : Manager) (executionID strategy : string)
    (latest : result Checkpoint) (now : Z) : result unit * Manager :=
  let busy := match rmRecovering m !! executionID with
              | Some p => match rmTasks m !! p with
                          | Some (t, _) => bool_decide (rtStatus t = RecoveryStatusInProgress)
                          | None => false
                          end
              | None => false
              end in
  if busy then (Err ("execution " +:+ executionID +:+ " is already being recovered"), m)
  else match latest with
       | Err e => (Err ("failed to get checkpoint: " +:+ e), m)
       | Ok checkpoint =>
           let task := {| rtExecutionID := executionID; rtCheckpoint := checkpoint;
                          rtStrategy := strategy; rtStartedAt := now; rtAttempts := 0;
                          rtLastError := None; rtStatus := RecoveryStatusPending |} in
           (Ok tt, {| rmTasks := <[rmNext m := (task, AtStart)]> (rmTasks m); rmNext := S (rmNext m);
                      rmRecovering := <[executionID := rmNext m]> (rmRecovering m);
                      rmMaxAttempts := rmMaxAttempts m; rmTotal := rmTotal m;
                      rmSuccessful := rmSuccessful m; rmFailed := rmFailed m; rmEvents := rmEvents m |})
       end.

Definition handleExecutionFailed (m : Manager) (aggregateID : string) (latest : string → result Checkpoint)
    (now : Z) : result unit * Manager :=
  RecoverExecution m aggregateID RecoveryStrategyResume (latest aggregateID) now.

(** [handleNodeFailed]: an event without an execution ID reads as "". *)
Definition handleNodeFailed (m : Manager) (payload : vmap) (latest : string → result Checkpoint) (now : Z) :
    result unit * Manager :=
  let executionID := default "" (get_string payload "executionId") in
  let strategy := match get_bool payload "retryable" with
                  | Some false => RecoveryStrategySkip
                  | _ => RecoveryStrategyResume
                  end in
  RecoverExecution m executionID strategy (latest executionID) now.

Definition GetRecoveryStatus (m : Manager) (executionID : string) : result RecoveryTask :=
  match rmRecovering m !! executionID ≫= λ p, rmTasks m !! p with
  | Some (t, _) => Ok t
  | None => Err ("no recovery task found for execution: " +:+ executionID)
  end.

(** [ord] is the iteration order of the map. *)
Definition ListRecoveryTasks (m : Manager) (ord : list string) : list RecoveryTask :=
  omap (λ e, rmRecovering m !! e ≫= λ p, fst <$> rmTasks m !! p) ord.

(** [reportMetrics]: total, successful, failed and active recoveries. *)
Definition reportMetrics (m : Manager) : Z * Z * Z * nat :=
  (rmTotal m, rmSuccessful m, rmFailed m, size (rmRecovering m)).

(** ** Runs

    Calls come in any order and the goroutines interleave; what the store and
    the orchestrator answer is arbitrary. *)

Inductive turn : Manager → Manager → Prop :=
  | turn_perform env p m m' : performRecovery env p m = Some m' → turn m m'.

Inductive step : Manager → Manager → Prop :=
  | step_recover m executionID strategy latest now :
      step m (RecoverExecution m executionID strategy latest now).2
  | step_execution_failed m aggregateID latest now :
      step m (handleExecutionFailed m aggregateID latest now).2
  | step_node_failed m payload latest now : step m (handleNodeFailed m payload latest now).2
  | step_turn m m' : turn m m' → step m m'.

Lemma step_cases m m' :
  step m m' →
  (∃ executionID strategy latest now, m' = (RecoverExecution m executionID strategy latest now).2)
  ∨ turn m m'.
Proof.
  destruct 1; [left|left|left|by right]; unfold handleExecutionFailed, handleNodeFailed; eauto.
Qed.

(** ** Termination *)

Definition attempt_bound (m : Manager) : Z := Z.max 1 (rmMaxAttempts m).

Definition weight (max : Z) (x : RecoveryTask * Phase) : nat :=
  let left := 10 * Z.to_nat (Z.max 1 max - rtAttempts x.1) in
  match x.2 with
  | AtStart => left + 8
  | Running => left + 7
  | Erred => if bool_decide (max ≤ rtAttempts x.1)%Z then 5 else left + 10
  | Sleeping => left + 9
  | Succeeded => 5
  | Counting _ => 4
  | Storing _ _ => 3
  | Publishing _ => 2
  | CleaningUp => 1
  | Exited => 0
  end.

Definition work (m : Manager) : nat := total (weight (rmMaxAttempts m)) (rmTasks m).

Lemma run_strategy_keeps execute cps t e t' :
  run_strategy execute cps t = (e, t') →
  rtAttempts t' = rtAttempts t ∧ rtStatus t' = rtStatus t ∧ rtExecutionID t' = rtExecutionID t
  ∧ rtLastError t' = rtLastError t ∧ rtStrategy t' = rtStrategy t.
Proof.
  unfold run_strategy, rollbackToCheckpoint, skipFailedNode. intros H.
  repeat case_match; by simplify_eq/=.
Qed.

(** A turn changes one task; the tasks' limit stays. *)
Lemma turn_changes env p m m' :
  performRecovery env p m = Some m' →
  ∃ x y, rmTasks m !! p = Some x ∧ rmTasks m' = <[p := y]> (rmTasks m)
         ∧ rmMaxAttempts m' = rmMaxAttempts m ∧ weight (rmMaxAttempts m) y < weight (rmMaxAttempts m) x.
Proof.
  unfold performRecovery. destruct (rmTasks m !! p) as [[t ph]|]; [|done]. intros H.
  exists (t, ph). unfold weight.
  destruct ph; try (injection H as <-; eexists; split_and!; [done..|simpl; lia]).
  - destruct (run_strategy _ _ t) as [[e|] t'] eqn:E; injection H as <-;
      apply run_strategy_keeps in E as (Ha & _); eexists; split_and!; [done..| |done|done|done|]; simpl; [|lia].
    rewrite Ha. case_bool_decide; lia.
  - simpl. case_bool_decide; injection H as <-; eexists; split_and!; [done..| |done|done|done|]; simpl; lia.
  - injection H as <-. eexists. split_and!; [done..|]. destruct success; simpl; lia.
  - done.
Qed.

Lemma turn_decreases m m' : turn m m' → work m' < work m.
Proof.
  destruct 1 as [env p m m' H]. apply turn_changes in H as (x & y & Hx & Ht & Hmax & Hw).
  unfold work. rewrite Ht, Hmax. pose proof (total_insert (weight (rmMaxAttempts m)) _ _ _ y Hx). lia.
Qed.

Lemma turn_wf : well_founded (flip turn).
Proof. apply (well_founded_lt_compat _ work). intros a b H. by apply turn_decreases. Qed.

Definition quiescent (m : Manager) : Prop := ∀ p x, rmTasks m !! p = Some x → x.2 = Exited.

Lemma turn_enabled env m p t ph :
  rmTasks m !! p = Some (t, ph) → ph ≠ Exited → ∃ m', performRecovery env p m = Some m'.
Proof.
  intros H Hph. unfold performRecovery. rewrite H. destruct ph; try done; eauto.
  - destruct (run_strategy _ _ t) as [[e|] t']; eauto.
  - case_bool_decide; eauto.
Qed.

Lemma quiescent_or_turn (env : TurnEnv) m : quiescent m ∨ ∃ m', turn m m'.
Proof.
  destruct (decide (map_Forall (λ _ x, x.2 = Exited) (rmTasks m))) as [H|H].
  - left. intros p x. apply H.
  - right. apply map_not_Forall in H as (p & [t ph] & Hp & Hph); [|apply _].
    destruct (turn_enabled env m p t ph Hp Hph) as [m' ?]. exists m'. by econstructor.
Qed.

Lemma turns_to_quiescence (env : TurnEnv) m : ∃ m', rtc turn m m' ∧ quiescent m'.
Proof.
  induction m as [m IH] using (well_founded_induction turn_wf).
  destruct (quiescent_or_turn env m) as [H|[m1 H]]; [by exists m|].
  destruct (IH m1 H) as (m' & Hr & Hq). exists m'. split; [by eapply rtc_l|done].
Qed.

(** ** The invariant *)

Definition ended (success : bool) (t : RecoveryTask) (max : Z) : Prop :=
  if success then rtStatus t = RecoveryStatusCompleted ∧ (rtAttempts t < Z.max 1 max)%Z
  else rtStatus t = RecoveryStatusFailed ∧ rtAttempts t = Z.max 1 max.

(** What the phase of a goroutine says about its task. *)
Definition task_ok (max : Z) (x : RecoveryTask * Phase) : Prop :=
  let '(t, ph) := x in
  (0 ≤ rtAttempts t ≤ Z.max 1 max)%Z
  ∧ (is_Some (rtLastError t) ↔ (0 < rtAttempts t)%Z)
  ∧ match ph with
    | AtStart | Sleeping => rtStatus t = RecoveryStatusPending ∧ (rtAttempts t < Z.max 1 max)%Z
    | Running => rtStatus t = RecoveryStatusInProgress ∧ (rtAttempts t < Z.max 1 max)%Z
    | Erred => rtStatus t = RecoveryStatusInProgress ∧ (0 < rtAttempts t)%Z
    | Succeeded => rtStatus t = RecoveryStatusInProgress ∧ (rtAttempts t < Z.max 1 max)%Z
    | Counting success | Storing success _ | Publishing success => ended success t max
    | CleaningUp => ended true t max
    | Exited => ended true t max ∨ ended false t max
    end.

(** What has been counted and what has been published of the ends of kind [success]. *)
Definition completed (t : RecoveryTask) : bool := bool_decide (rtStatus t = RecoveryStatusCompleted).
Definition has_counted (success : bool) (x : RecoveryTask * Phase) : nat :=
  match x.2 with
  | Publishing b => if bool_decide (b = success) then 1 else 0
  | CleaningUp | Exited => if bool_decide (completed x.1 = success) then 1 else 0
  | _ => 0
  end.
Definition has_published (x : RecoveryTask * Phase) : option RecoveryEvent :=
  match x.2 with CleaningUp | Exited => Some (recovery_event x.1 (completed x.1)) | _ => None end.
Definition counted (success : bool) (m : Manager) : Z := Z.of_nat (total (has_counted success) (rmTasks m)).
Definition published (tasks : gmap nat (RecoveryTask * Phase)) : list RecoveryEvent := gathered has_published tasks.

Record manager_inv (m : Manager) : Prop := {
  mi_tasks : map_Forall (λ _, task_ok (rmMaxAttempts m)) (rmTasks m);
  mi_fresh : ∀ p, is_Some (rmTasks m !! p) → p < rmNext m;
  mi_map : ∀ e p, rmRecovering m !! e = Some p → ∃ t ph, rmTasks m !! p = Some (t, ph) ∧ rtExecutionID t = e;
  mi_counter : ∀ b, (Z.min 1 (counted b m) ≤ counter m b ≤ counted b m)%Z;
  mi_seen : ∀ p t b seen, rmTasks m !! p = Some (t, Storing b seen) → (0 ≤ seen ≤ counted b m)%Z;
  mi_events : rmEvents m ≡ₚ published (rmTasks m)
}.

Lemma published_insert tasks p x y :
  tasks !! p = Some x → has_published x = None →
  published (<[p := y]> tasks) ≡ₚ published tasks ++ option_list (has_published y).
Proof. intros Hp Hx. pose proof (gathered_insert has_published _ _ _ y Hp) as H. by rewrite Hx, app_nil_r in H. Qed.
Lemma published_same tasks p x y : tasks !! p = Some x → has_published x = has_published y → published (<[p := y]> tasks) ≡ₚ published tasks.
Proof. intros Hp Hx. pose proof (gathered_insert has_published _ _ _ y Hp) as H. rewrite Hx in H. by apply Permutation_app_inv_r in H. Qed.

Lemma RecoverExecution_inv m e strategy latest now :
  manager_inv m → manager_inv (RecoverExecution m e strategy latest now).2.
Proof.
  intros H. unfold RecoverExecution. case_match; [done|]. destruct latest as [cp|]; [|done]. simpl.
  destruct H as [Ht Hf Hm Hc Hs He].
  assert (rmTasks m !! rmNext m = None) as Hnew.
  { apply eq_None_not_Some. intros Hx. apply Hf in Hx. lia. }
  constructor; simpl.
  - apply map_Forall_insert_2; [|done]. simpl. split; [lia|]. split; [|split; [done|lia]].
    split; [by intros []|lia].
  - intros p [<-|[_ Hp]]%lookup_insert_is_Some; [lia|]. apply Hf in Hp. lia.
  - intros e' p. rewrite lookup_insert_Some. intros [[<- <-]|[_ Hp]].
    + do 2 eexists. by rewrite lookup_insert_eq.
    + destruct (Hm _ _ Hp) as (t & ph & Hp' & Hid). exists t, ph. split; [|done].
      rewrite lookup_insert_ne; [done|]. intros <-. by rewrite Hnew in Hp'.
  - intros b. unfold counted. simpl. rewrite total_insert_new by done. apply Hc.
  - intros p t b seen [[_ ?]|[_ Hp]]%lookup_insert_Some; [done|]. unfold counted. simpl. rewrite total_insert_new by done. by eapply Hs.
  - unfold published. rewrite gathered_new, app_nil_r by done. done.
Qed.

(** A turn that replaces task [p], keeping its execution. *)
Lemma update_inv m m' p t ph t' ph' :
  manager_inv m → rmTasks m !! p = Some (t, ph) →
  rmTasks m' = <[p := (t', ph')]> (rmTasks m) → rmMaxAttempts m' = rmMaxAttempts m →
  rmNext m' = rmNext m → rmRecovering m' ⊆ rmRecovering m →
  task_ok (rmMaxAttempts m) (t', ph') → rtExecutionID t' = rtExecutionID t →
  (∀ b, counted b m' = counted b m ∧ counter m' b = counter m b
        ∨ counted b m' = counted b m + 1 ∧ 1 ≤ counter m' b ≤ counted b m + 1)%Z →
  (∀ b seen, ph' = Storing b seen → 0 ≤ seen ≤ counted b m)%Z →
  rmEvents m' ≡ₚ published (rmTasks m') →
  manager_inv m'.
Proof.
  intros [Ht Hf Hm Hc Hs He] Hp Et Emax En Hsub Hok Hid Ec Es Ee. constructor; [..|done].
  - rewrite Et, Emax. by apply map_Forall_insert_2.
  - intros q. rewrite Et, En, lookup_insert_is_Some. intros [<-|[_ Hq]]; apply Hf; [by eexists|done].
  - intros e q Hq. eapply lookup_weaken in Hq; [|done]. destruct (Hm _ _ Hq) as (tq & phq & Hq' & Hidq).
    rewrite Et. destruct (decide (p = q)) as [<-|Hne].
    + exists t', ph'. rewrite lookup_insert_eq. split; [done|]. rewrite Hid. congruence.
    + exists tq, phq. by rewrite lookup_insert_ne.
  - intros b. specialize (Hc b). destruct (Ec b) as [[-> ->]|[-> ?]]; lia.
  - intros q tq b seen. rewrite Et. assert (counted b m ≤ counted b m')%Z by (destruct (Ec b) as [[-> _]|[-> _]]; lia).
    intros [[_ [= _ E]]|[_ Hq]]%lookup_insert_Some; [apply Es in E|apply Hs in Hq]; lia.
Qed.
(** What a turn adds to the counts. *)
Lemma counted_insert b m m' p x y :
  rmTasks m !! p = Some x → rmTasks m' = <[p := y]> (rmTasks m) →
  counted b m' = (counted b m + Z.of_nat (has_counted b y) - Z.of_nat (has_counted b x))%Z.
Proof. intros Hp E. unfold counted. rewrite E. pose proof (total_insert (has_counted b) _ _ _ y Hp). lia. Qed.
(** A turn that counts and publishes nothing. *)
Lemma quiet_inv m m' p t ph t' ph' :
  manager_inv m → rmTasks m !! p = Some (t, ph) →
  rmTasks m' = <[p := (t', ph')]> (rmTasks m) → rmMaxAttempts m' = rmMaxAttempts m →
  rmNext m' = rmNext m → rmRecovering m' ⊆ rmRecovering m →
  (∀ b, counter m' b = counter m b) → rmEvents m' = rmEvents m →
  task_ok (rmMaxAttempts m) (t', ph') → rtExecutionID t' = rtExecutionID t →
  (∀ b, has_counted b (t', ph') = has_counted b (t, ph)) → has_published (t, ph) = has_published (t', ph') →
  (∀ b seen, ph' = Storing b seen → 0 ≤ seen ≤ counted b m)%Z → manager_inv m'.
Proof.
  intros Hi Hp Et Emax En Hsub Hc He Hok Hid Hcs Hpub Hs. eapply update_inv; [done..| |done|].
  - intros b. left. rewrite (counted_insert b m m' p _ _ Hp Et), Hcs, Hc. split; [lia|done].
  - rewrite He, Et, published_same by done. apply Hi.
Qed.

Ltac quiet m p t ph :=
  eapply (quiet_inv m _ p t ph); [done|done|done|done|done|done|by intros []|done| |by simpl; eauto|done|done|done].

Lemma turn_inv m m' : turn m m' → manager_inv m → manager_inv m'.
Proof.
  destruct 1 as [env p m m' H]. intros Hi. revert H. unfold performRecovery.
  destruct (rmTasks m !! p) as [[t ph]|] eqn:Hp; [|done].
  pose proof (mi_tasks _ Hi p _ Hp) as Hok. simpl in Hok.
  destruct ph as [| | | | |b|b seen|b| |]; intros H; [| | | | | | | | |done].
  - injection H as <-. destruct Hok as (Ha & Hl & Hst & Hlt). quiet m p t AtStart. simpl. auto.
  - destruct Hok as (Ha & Hl & Hst & Hlt). destruct (run_strategy _ _ t) as [[e|] t'] eqn:E;
      injection H as <-; apply run_strategy_keeps in E as (Ea & Es & Ei & Ee & _).
    + quiet m p t Running. simpl. rewrite Ea, Es. split; [lia|]. split; [split; [lia|by eexists]|]. split; [done|lia].
    + quiet m p t Running. simpl. rewrite Ea, Es, Ee. auto.
  - destruct Hok as (Ha & Hl & Hst & Hpos). case_bool_decide as Hmax; injection H as <-.
    + quiet m p t Erred. simpl. split; [lia|]. split; [done|]. split; [done|lia].
    + quiet m p t Erred. simpl. split; [lia|]. split; [done|]. split; [done|lia].
  - injection H as <-. quiet m p t Sleeping. done.
  - injection H as <-. destruct Hok as (Ha & Hl & Hst & Hlt). quiet m p t Succeeded. simpl. auto.
  - injection H as <-. eapply (quiet_inv m _ p t (Counting b)); try done.
    intros b' seen [= <- <-]. pose proof (mi_counter _ Hi b). unfold counted in *. lia.
  - injection H as <-. eapply (update_inv m _ p t (Storing b seen)); try done.
    + intros b'. erewrite (counted_insert b' m _ p); [|exact Hp|reflexivity]. unfold has_counted. simpl. case_bool_decide as Eb.
      * subst b'. right. pose proof (mi_seen _ Hi _ _ _ _ Hp). destruct b; simpl; lia.
      * left. split; [lia|]. by destruct b, b'.
    + simpl. rewrite published_same by done. apply Hi.
  - injection H as <-. destruct Hok as (Ha & Hl & He).
    assert (completed t = b) as Hb.
    { unfold completed. destruct b; destruct He as [He _]; rewrite He; [by rewrite bool_decide_true|by rewrite bool_decide_false]. }
    eapply (update_inv m _ p t (Publishing b)); try done.
    + simpl. destruct b; simpl; auto.
    + intros b'. left. erewrite (counted_insert b' m _ p); [|exact Hp|reflexivity]. unfold has_counted. simpl. split; [|by destruct b'].
      destruct b; simpl; rewrite Hb; lia.
    + by destruct b.
    + simpl. rewrite (published_insert _ _ _ _ Hp) by done. rewrite (mi_events _ Hi).
      assert (has_published (t, if b then CleaningUp else Exited) = Some (recovery_event t b)) as ->
        by (rewrite <- Hb; unfold has_published; simpl; by destruct (completed t)). done.
  - injection H as <-. destruct Hok as (Ha & Hl & Hst).
    eapply (quiet_inv m _ p t CleaningUp); try done; [simpl; apply delete_subseteq|]. simpl. auto.
Qed.

Lemma step_inv m m' : step m m' → manager_inv m → manager_inv m'.
Proof.
  intros [(e & strategy & latest & now & ->)|H]%step_cases Hi.
  - by apply RecoverExecution_inv.
  - by eapply turn_inv.
Qed.

Lemma new_inv max : manager_inv (NewManager max).
Proof.
  constructor; simpl; [apply map_Forall_empty| | | | |done].
  - intros p [x Hx]. by rewrite lookup_empty in Hx.
  - intros e p Hp. by rewrite lookup_empty in Hp.
  - intros []; by unfold counted.
  - intros p t b seen Hp. by rewrite lookup_empty in Hp.
Qed.

Lemma run_inv max m : rtc step (NewManager max) m → manager_inv m.
Proof. intros H. eapply rtc_preserve; [apply step_inv|exact H|apply new_inv]. Qed.

(** When all goroutines have returned, every recovery has ended in one of two ways. *)
Lemma quiescent_ended m p t ph :
  manager_inv m → quiescent m → rmTasks m !! p = Some (t, ph) →
  ended true t (rmMaxAttempts m) ∨ ended false t (rmMaxAttempts m).
Proof.
  intros Hi Hq Hp. pose proof (mi_tasks _ Hi p _ Hp) as Hok. pose proof (Hq p _ Hp) as E. simpl in E. subst ph. by destruct Hok as (_ & _ & ?).
Qed.
Lemma quiescent_published m : quiescent m → published (rmTasks m) = (λ x, recovery_event x.1 (completed x.1)) <$> (map_to_list (rmTasks m)).*2.
Proof.
  intros Hq. unfold published, gathered. assert (Forall (λ x, x.2 = Exited) (map_to_list (rmTasks m)).*2) as H.
  { apply Forall_fmap, Forall_forall. intros [p x] Hx%elem_of_map_to_list. by apply (Hq p). }
  induction H as [|[t ph] l E _ IH]; [done|]. simpl in E. subst ph. csimpl. f_equal. exact IH.
Qed.
Lemma quiescent_counted b m :
  quiescent m → counted b m = Z.of_nat (total (λ x, if bool_decide (completed x.1 = b) then 1 else 0) (rmTasks m)).
Proof.
  intros Hq. unfold counted. f_equal. pose proof (total_sum (has_counted b) (λ _, 0) (λ x, if bool_decide (completed x.1 = b) then 1 else 0) (rmTasks m)) as H.
  rewrite <- H; [|intros p [t ph] Hp; pose proof (Hq p _ Hp) as E; simpl in E; subst ph; unfold has_counted; simpl; by rewrite Nat.add_0_r].
  assert (total (λ _ : RecoveryTask * Phase, 0) (rmTasks m) = 0) as ->; [|lia].
  pose proof (total_sum (λ _ : RecoveryTask * Phase, 0) (λ _, 0) (λ _, 0) (rmTasks m) ltac:(done)). lia.
Qed.

(** For every interleaving of recovery requests, failure events and the
    goroutines' turns: a recovery makes at most MaxRecoveryAttempts attempts
    (one if the limit is negative), its status fits where its goroutine is, its
    last error is set exactly when an attempt has failed; failed means that
    all attempts were used and completed that one succeeded; every entry of the
    map is a task of that execution; every recovery that has got so far has
    published its event; and the counters are at most the numbers of ends, and
    not zero after the first. *)
Lemma recovery_invariant max m : rtc step (NewManager max) m → manager_inv m.
Proof. apply run_inv. Qed.

(** C11. Recovery terminates: no run of the goroutines goes on for ever
    whatever the store and the orchestrator answer, from any state; and from
    every reachable state the goroutines can run to their end, where every
    recovery started has completed within the limit of attempts or failed after
    all of them, and has published its event once, with its strategy, attempts and
    last error.  The counters of successes and failures are then at most the
    numbers of completed and of failed recoveries, and at least one when there is
    one: the code increments them without the lock, so that increments get lost. *)
Theorem recovery_terminates max m :
  rtc step (NewManager max) m →
  well_founded (flip turn)
  ∧ (∀ m', rtc turn m m' → (∀ m'', ¬ turn m' m'') →
       quiescent m'
       ∧ (∀ p t ph, rmTasks m' !! p = Some (t, ph) → ended true t (rmMaxAttempts m') ∨ ended false t (rmMaxAttempts m'))
       ∧ rmEvents m' ≡ₚ (λ x, recovery_event x.1 (completed x.1)) <$> (map_to_list (rmTasks m')).*2
       ∧ ∀ b, let n := Z.of_nat (total (λ x, if bool_decide (completed x.1 = b) then 1 else 0) (rmTasks m')) in
              (Z.min 1 n ≤ counter m' b ≤ n)%Z)
  ∧ ∃ m', rtc turn m m' ∧ quiescent m'.
Proof.
  intros H. pose (env := {| teCheckpoints := λ _, Ok []; teExecute := λ _ _, None |}).
  split; [apply turn_wf|]. split; [|by apply turns_to_quiescence].
  intros m' Hr Hstuck. assert (quiescent m') as Hq.
  { destruct (quiescent_or_turn env m') as [?|[m'' Ht]]; [done|]. by apply Hstuck in Ht. }
  assert (manager_inv m') as Hi.
  { eapply rtc_preserve; [apply turn_inv|exact Hr|by eapply run_inv]. }
  split_and!; [done|intros; by eapply quiescent_ended| |].
  - rewrite <- quiescent_published by done. apply Hi.
  - intros b. rewrite <- quiescent_counted by done. apply Hi.
Qed.

(** ** What the strategies do to a checkpoint *)

Lemma skip_pending (failed : string) (l acc : list string) :
  foldl (λ acc nodeID, if bool_decide (nodeID = failed) then acc else acc ++ [nodeID]) acc l
  = acc ++ filter (λ nodeID, nodeID ≠ failed) l.
Proof.
  revert acc. induction l as [|x l IH]; intros acc; simpl; [by rewrite app_nil_r|].
  rewrite IH, filter_cons. case_bool_decide as E.
  - by rewrite decide_False by by (intros []).
  - rewrite decide_True by done. by rewrite <-app_assoc.
Qed.

Section Strategies.
Context (encode_state : ExecutionState → option string) (decode_state : string → option ExecutionState).
Context (encode_meta : vmap → option string) (decode_meta : string → option vmap).
Context (encode_cp : Checkpoint → option string) (decode_cp : string → option Checkpoint).
Context (row_before : Row → Row → bool).

Local Abbreviation store_ok :=
  (simulates encode_state decode_state encode_meta decode_meta encode_cp decode_cp).

(** Against a checkpoint store that implements the abstract store, rolling
    back replaces the task's checkpoint by the second newest one of the
    execution that has been saved and neither deleted nor cleaned up, and fails
    exactly when there are fewer than two; skipping moves the node of the last
    error from the pending nodes to the end of the completed ones, and fails
    exactly when there is no error. *)
Lemma strategies_correct st sp t :
  store_ok st sp → (2 ≤ stMaxCheckpoints st)%Z →
  let cps := reverse (of_execution (rtExecutionID t) (live sp)) in
  let s := cpState (rtCheckpoint t) in
  rollbackToCheckpoint (ListCheckpoints decode_state decode_meta row_before st (rtExecutionID t) None) t
  = match cps !! 1 with
    | Some cp => (None, set_checkpoint t cp)
    | None => (Some "no previous checkpoint to rollback to", t)
    end
  ∧ skipFailedNode t
    = match last (esErrors s) with
      | Some e =>
          (None, set_checkpoint t (set_nodes (rtCheckpoint t)
                   (filter (λ n, n ≠ seNodeID e) (esPendingNodes s))
                   (esCompletedNodes s ++ [seNodeID e])))
      | None => (Some "no failed node to skip", t)
      end.
Proof.
  intros Hs Hmax cps s. split.
  - erewrite ListCheckpoints_spec by exact Hs. fold cps. simpl.
    destruct (Z.to_nat (stMaxCheckpoints st)) as [|[|n]] eqn:E; [lia..|].
    by destruct cps as [|a [|b l]].
  - unfold skipFailedNode. fold s. destruct (last (esErrors s)); [|done]. by rewrite skip_pending.
Qed.

End Strategies.

(** ** Overlapping recoveries

    The check for a running recovery looks at the status only, which is
    pending before the first attempt and between attempts. *)

Definition ex_checkpoint : Checkpoint :=
  {| cpID := "c"; cpExecutionID := "e"; cpNodeID := ""; cpState := zero_state; cpTimestamp := 0;
     cpVersion := 1; cpMetadata := ∅ |}.
Definition ex_env : TurnEnv := {| teCheckpoints := λ _, Ok []; teExecute := λ _ _, Some "no workflow" |}.
Definition turns (m : Manager) (ps : list nat) : Manager :=
  foldl (λ m p, default m (performRecovery ex_env p m)) m ps.
Definition ex_request (m : Manager) (strategy : string) : Manager :=
  (RecoverExecution m "e" strategy (Ok ex_checkpoint) 0).2.

(** Two recoveries of one execution run at the same time: one has failed an
    attempt and sleeps when the second is requested. *)
Definition ex_overlap : Manager :=
  turns (ex_request (turns (ex_request (NewManager 0) RecoveryStrategyRestart) [0; 0; 0])
                    RecoveryStrategyResume) [0; 0; 1].

Lemma turns_step m ps : rtc step m (turns m ps).
Proof.
  revert m. induction ps as [|p ps IH]; intros m; [done|]. simpl.
  destruct (performRecovery ex_env p m) eqn:E; simpl; [|apply IH].
  eapply rtc_l; [|apply IH]. by apply step_turn, (turn_perform ex_env p).
Qed.

Lemma overlapping_recoveries :
  rtc step (NewManager 0) ex_overlap
  ∧ ∃ t0 t1, rmTasks ex_overlap !! 0 = Some (t0, Running) ∧ rmTasks ex_overlap !! 1 = Some (t1, Running)
             ∧ rtExecutionID t0 = rtExecutionID t1.
Proof.
  split; [|do 2 eexists; split; [vm_compute; reflexivity|split; [vm_compute; reflexivity|reflexivity]]].
  eapply rtc_l; [apply (step_recover _ "e" RecoveryStrategyRestart (Ok ex_checkpoint) 0)|].
  etrans; [apply (turns_step _ [0; 0; 0])|].
  eapply rtc_l; [apply (step_recover _ "e" RecoveryStrategyResume (Ok ex_checkpoint) 0)|].
  apply turns_step.
Qed.

(** The second recovery then deletes the map entry of the first one's
    execution: a running recovery is not found. *)
Lemma running_recovery_lost :
  let m := turns (ex_request (ex_request (NewManager 0) RecoveryStrategyRestart) RecoveryStrategyResume)
                 [1; 1; 1; 1; 1; 1; 1; 0] in
  rtStatus <$> (fst <$> rmTasks m !! 0) = Some RecoveryStatusInProgress
  ∧ GetRecoveryStatus m "e" = Err "no recovery task found for execution: e".
Proof. split; vm_compute; reflexivity. Qed.

(** One successful recovery counts twice in the total. *)
Lemma total_counts_updates :
  let m := turns (ex_request (NewManager 0) RecoveryStrategyResume) [0; 0; 0; 0; 0; 0; 0] in
  reportMetrics m = (2%Z, 1%Z, 0%Z, 0).
Proof. vm_compute. reflexivity. Qed.

(** Two recoveries of different executions succeed at the same time and count as one. *)
Lemma recovery_count_lost :
  let m := (RecoverExecution (ex_request (NewManager 0) RecoveryStrategyResume) "f" RecoveryStrategyResume (Ok ex_checkpoint) 0).2 in
  let m := turns m [0; 0; 0; 1; 1; 1; 0; 1; 0; 1; 0; 1; 0; 1] in
  quiescent m ∧ size (rmTasks m) = 2 ∧ length (rmEvents m) = 2 ∧ rmSuccessful m = 1%Z.
Proof.
  cbv zeta. split_and!; [|vm_compute; reflexivity..]. intros p x Hp.
  refine (map_Forall_lookup_1 (λ _ x, x.2 = Exited) _ p x _ Hp). apply (bool_decide_unpack _). vm_compute. reflexivity.
Qed.

(** ** Concrete runs *)

Lemma recovery_invariant_witness :
  (rmSuccessful ex_overlap, rmFailed ex_overlap) = (0, 0)%Z ∧ manager_inv ex_overlap.
Proof. split; [vm_compute; reflexivity|]. apply (recovery_invariant 0), overlapping_recoveries. Defined.

Lemma recovery_terminates_witness : ∃ m', rtc turn ex_overlap m' ∧ quiescent m'.
Proof. apply (recovery_terminates 0), overlapping_recoveries. Defined.

(** The store of two checkpoints of [Checkpoint.ex_ops]. *)
Definition ex_store : Store :=
  run (λ s, Some (esStatus s)) (λ _, Some "") ex_encode_cp ex_decode_cp (NewStore 100 5) (take 2 ex_ops).

Lemma ex_store_ok :
  simulates (λ s, Some (esStatus s)) (λ s, Some (ex_state s)) (λ _, Some "") (λ _, Some ∅)
    ex_encode_cp ex_decode_cp ex_store (spec_run 100 empty_spec (take 2 ex_ops)).
Proof.
  apply (simulates_run _ _ _ _ _ _ (take 2 ex_ops) (NewStore 100 5) empty_spec); [apply simulates_new|].
  destruct ex_ops_ok as (H1 & H2 & _). split; [exact H1|]. split; [exact H2|exact I].
Qed.

Definition ex_task : RecoveryTask :=
  {| rtExecutionID := "e"; rtCheckpoint := ex_cp "second" 20; rtStrategy := RecoveryStrategyRollback;
     rtStartedAt := 0; rtAttempts := 0; rtLastError := None; rtStatus := RecoveryStatusInProgress |}.

Lemma strategies_correct_witness :
  rollbackToCheckpoint
    (ListCheckpoints (λ s, Some (ex_state s)) (λ _, Some ∅) (λ _ _, false) ex_store "e" None) ex_task
  = (None, set_checkpoint ex_task (ex_cp "first" 10)).
Proof.
  destruct (strategies_correct _ _ _ _ _ _ (λ _ _, false) _ _ ex_task ex_store_ok) as [H _].
  - vm_compute. discriminate.
  - exact H.
Defined.
