(* ===== verification/Schedule.v ===== *)
(** pkg/contracts/schedule, internal/schedule/adapters/db/repository and
    internal/schedule/app/service: schedules, their table and the service over
    it. *)

From S2P Require Import Prelude GoValue GoLib.

(** ** Data *)

Record Schedule := {
  scID : string;
  scName : string;
  scDescription : string;
  scWorkflowID : string;
  scUserID : string;
  scTeamID : string;
  scCronExpression : string;
  scTimezone : string;
  scData : vmap;
  scIsActive : bool;
  scStartDate : option Z;
  scEndDate : option Z;
  scLastRunAt : option Z;
  scNextRunAt : option Z;
  scRunCount : Z;
  scMisfirePolicy : string;
  scMaxRetries : Z;
  scTags : list string;
  scCreatedAt : option Z;       (* None: the zero time *)
  scUpdatedAt : option Z
}.

Record ScheduleExecution := {
  sxID : string;
  sxScheduleID : string;
  sxExecutionID : string;
  sxScheduledAt : Z;
  sxTriggeredAt : option Z;
  sxStatus : string;
  sxErrorMessage : string
}.

Definition MisfirePolicySkip : string := "skip".
Definition MisfirePolicyRunOnce : string := "run_once".
Definition MisfirePolicyRunAll : string := "run_all".
Definition ExecutionStatusTriggered : string := "triggered".
Definition ExecutionStatusSuccess : string := "success".
Definition ExecutionStatusFailed : string := "failed".

(** Updates of single fields. *)
Definition set_active (b : bool) (s : Schedule) : Schedule :=
  {| scID := scID s; scName := scName s; scDescription := scDescription s; scWorkflowID := scWorkflowID s;
     scUserID := scUserID s; scTeamID := scTeamID s; scCronExpression := scCronExpression s;
     scTimezone := scTimezone s; scData := scData s; scIsActive := b; scStartDate := scStartDate s;
     scEndDate := scEndDate s; scLastRunAt := scLastRunAt s; scNextRunAt := scNextRunAt s;
     scRunCount := scRunCount s; scMisfirePolicy := scMisfirePolicy s; scMaxRetries := scMaxRetries s;
     scTags := scTags s; scCreatedAt := scCreatedAt s; scUpdatedAt := scUpdatedAt s |}.
Definition set_times (created updated : option Z) (s : Schedule) : Schedule :=
  {| scID := scID s; scName := scName s; scDescription := scDescription s; scWorkflowID := scWorkflowID s;
     scUserID := scUserID s; scTeamID := scTeamID s; scCronExpression := scCronExpression s;
     scTimezone := scTimezone s; scData := scData s; scIsActive := scIsActive s; scStartDate := scStartDate s;
     scEndDate := scEndDate s; scLastRunAt := scLastRunAt s; scNextRunAt := scNextRunAt s;
     scRunCount := scRunCount s; scMisfirePolicy := scMisfirePolicy s; scMaxRetries := scMaxRetries s;
     scTags := scTags s; scCreatedAt := created; scUpdatedAt := updated |}.
Definition set_runs (last next : option Z) (s : Schedule) : Schedule :=
  {| scID := scID s; scName := scName s; scDescription := scDescription s; scWorkflowID := scWorkflowID s;
     scUserID := scUserID s; scTeamID := scTeamID s; scCronExpression := scCronExpression s;
     scTimezone := scTimezone s; scData := scData s; scIsActive := scIsActive s; scStartDate := scStartDate s;
     scEndDate := scEndDate s; scLastRunAt := last; scNextRunAt := next;
     scRunCount := scRunCount s; scMisfirePolicy := scMisfirePolicy s; scMaxRetries := scMaxRetries s;
     scTags := scTags s; scCreatedAt := scCreatedAt s; scUpdatedAt := scUpdatedAt s |}.

(** ** Cron expressions by name *)

Definition PredefinedSchedules : list (string * string) :=
  [("every_minute", "0 * * * * *"); ("every_5_minutes", "0 */5 * * * *");
   ("every_15_minutes", "0 */15 * * * *"); ("every_30_minutes", "0 */30 * * * *");
   ("every_hour", "0 0 * * * *"); ("every_day_midnight", "0 0 0 * * *");
   ("every_day_noon", "0 0 12 * * *"); ("every_week_monday", "0 0 0 * * 1");
   ("every_month_first", "0 0 0 1 * *")].

(** The first entry of the map, in its iteration order [ord], with this value. *)
Fixpoint find_expr (ord : list (string * string)) (expr : string) : option string :=
  match ord with
  | [] => None
  | (key, e) :: ord' => if bool_decide (e = expr) then Some key else find_expr ord' expr
  end.

Fixpoint find_key (l : list (string * string)) (key : string) : option string :=
  match l with
  | [] => None
  | (k, e) :: l' => if bool_decide (k = key) then Some e else find_key l' key
  end.

Definition FormatCronExpression (ord : list (string * string)) (s : Schedule) : string :=
  match find_expr ord (scCronExpression s) with
  | Some key => key
  | None => scCronExpression s
  end.

Definition ParseCronExpression (input : string) : result string :=
  match find_key PredefinedSchedules input with
  | Some expr => Ok expr
  | None => if bool_decide (String.length input < 9) then Err "invalid cron expression" else Ok input
  end.

(** ** The schedule's own operations *)

Definition NewSchedule (uuid name workflowID userID cronExpression : string) (now1 now2 : Z) : Schedule :=
  {| scID := uuid; scName := name; scDescription := ""; scWorkflowID := workflowID; scUserID := userID;
     scTeamID := ""; scCronExpression := cronExpression; scTimezone := "UTC"; scData := ∅;
     scIsActive := true; scStartDate := None; scEndDate := None; scLastRunAt := None; scNextRunAt := None;
     scRunCount := 0; scMisfirePolicy := MisfirePolicySkip; scMaxRetries := 0; scTags := [];
     scCreatedAt := Some now1; scUpdatedAt := Some now2 |}.

Definition IsExpired (s : Schedule) (now : Z) : bool :=
  match scEndDate s with
  | None => false
  | Some e => bool_decide (e < now)%Z
  end.

Definition ShouldRun (s : Schedule) (t now : Z) : bool :=
  if negb (scIsActive s) then false
  else if IsExpired s now then false
  else match scStartDate s with
       | Some d => negb (bool_decide (t < d)%Z)
       | None => true
       end.

Definition hour : Z := 3600 * 1000000000.

Definition GetNextRunTime (from : Z) : option Z := Some (from + hour)%Z.

Definition RecordRun (s : Schedule) (t now : Z) : Schedule :=
  set_times (scCreatedAt s) (Some now) (set_runs (Some t) (GetNextRunTime t) s).

Section Schedules.
(** The names time.LoadLocation knows. *)
Context (known_location : string → bool).

Definition GetTimezone (s : Schedule) : string :=
  if known_location (scTimezone s) then scTimezone s else "UTC".

Definition Schedule_Validate (s : Schedule) : option string :=
  if bool_decide (scName s = "") then Some "schedule name is required"
  else if bool_decide (scWorkflowID s = "") then Some "workflow ID is required"
  else if bool_decide (scCronExpression s = "") then Some "cron expression is required"
  else if bool_decide (String.length (scCronExpression s) < 9) then Some "invalid cron expression"
  else if negb (known_location (scTimezone s)) then Some "invalid timezone"
  else if match scStartDate s, scEndDate s with
          | Some a, Some b => bool_decide (b < a)%Z
          | _, _ => false
          end then Some "start date must be before end date"
  else if negb (existsb (λ p, bool_decide (scMisfirePolicy s = p))
                  [MisfirePolicySkip; MisfirePolicyRunOnce; MisfirePolicyRunAll])
       then Some "invalid misfire policy"
  else None.

(** ** The repository

    A table with the ID as primary key.  [err] is a failure of the database. *)

Abbreviation table := (gmap string Schedule).

(** The columns' defaults, which GORM takes for zero values on creation and
    reads back into the schedule. *)
Definition with_defaults (now : Z) (s : Schedule) : Schedule :=
  {| scID := scID s; scName := scName s; scDescription := scDescription s; scWorkflowID := scWorkflowID s;
     scUserID := scUserID s; scTeamID := scTeamID s; scCronExpression := scCronExpression s;
     scTimezone := if bool_decide (scTimezone s = "") then "UTC" else scTimezone s;
     scData := scData s; scIsActive := true; scStartDate := scStartDate s;
     scEndDate := scEndDate s; scLastRunAt := scLastRunAt s; scNextRunAt := scNextRunAt s;
     scRunCount := scRunCount s;
     scMisfirePolicy := if bool_decide (scMisfirePolicy s = "") then "skip" else scMisfirePolicy s;
     scMaxRetries := if bool_decide (scMaxRetries s = 0)%Z then 3 else scMaxRetries s;
     scTags := scTags s;
     scCreatedAt := match scCreatedAt s with None => Some now | t => t end;
     scUpdatedAt := match scUpdatedAt s with None => Some now | t => t end |}.

Definition Repo_Create (tbl : table) (s : Schedule) (now : Z) (err : option string) :
    result (Schedule * table) :=
  match err with
  | Some e => Err e
  | None =>
      match tbl !! scID s with
      | Some _ => Err "duplicate key value violates unique constraint"
      | None => let s := with_defaults now s in Ok (s, <[scID s := s]> tbl)
      end
  end.

(** GORM's Save: all columns, inserting the row if there is none. *)
Definition Repo_Update (tbl : table) (s : Schedule) (now : Z) (err : option string) :
    result (Schedule * table) :=
  match err with
  | Some e => Err e
  | None => let s := set_times (scCreatedAt s) (Some now) s in Ok (s, <[scID s := s]> tbl)
  end.

Definition Repo_Delete (tbl : table) (id : string) (err : option string) : result table :=
  match err with Some e => Err e | None => Ok (delete id tbl) end.

Definition FindByID (tbl : table) (id : string) (err : option string) : result Schedule :=
  match err with
  | Some e => Err e
  | None => match tbl !! id with Some s => Ok s | None => Err "record not found" end
  end.

(** The rows of a condition, in the order [ord] of the database. *)
Definition find_where (tbl : table) (ord : list string) (cond : Schedule → bool) (err : option string) :
    result (list Schedule) :=
  match err with
  | Some e => Err e
  | None => Ok (omap (λ id, match tbl !! id with
                            | Some s => if cond s then Some s else None
                            | None => None
                            end) ord)
  end.

Definition FindByWorkflowID (tbl : table) (ord : list string) (workflowID : string) (err : option string) :=
  find_where tbl ord (λ s, bool_decide (scWorkflowID s = workflowID)) err.
Definition FindByUserID (tbl : table) (ord : list string) (userID : string) (err : option string) :=
  find_where tbl ord (λ s, bool_decide (scUserID s = userID)) err.
Definition FindActive (tbl : table) (ord : list string) (err : option string) :=
  find_where tbl ord scIsActive err.
Definition FindDue (tbl : table) (ord : list string) (now : Z) (err : option string) :=
  find_where tbl ord (λ s, scIsActive s && match scNextRunAt s with
                                           | Some t => bool_decide (t ≤ now)%Z
                                           | None => false
                                           end) err.
Definition Repo_GetAll (tbl : table) (ord : list string) (err : option string) :=
  find_where tbl ord (λ _, true) err.

(** ** The service *)

Record ServiceEvent := { svType : string; svAggregateID : string; svPayload : vmap }.

Record ScheduleService := { ssTable : table; ssEvents : list ServiceEvent }.

Definition svc_event (type id : string) (payload : vmap) : ServiceEvent :=
  {| svType := type; svAggregateID := id; svPayload := payload |}.

Record UpdateScheduleRequest := {
  urName : string;
  urDescription : string;
  urCronExpression : string;
  urTimezone : string;
  urData : option vmap
}.

(** A request's fields replace those of the schedule unless they are empty. *)
Definition or_keep (new old : string) : string := if bool_decide (new = "") then old else new.

Definition apply_request (req : UpdateScheduleRequest) (s : Schedule) : Schedule :=
  {| scID := scID s; scName := or_keep (urName req) (scName s);
     scDescription := or_keep (urDescription req) (scDescription s); scWorkflowID := scWorkflowID s;
     scUserID := scUserID s; scTeamID := scTeamID s;
     scCronExpression := or_keep (urCronExpression req) (scCronExpression s);
     scTimezone := or_keep (urTimezone req) (scTimezone s);
     scData := default (scData s) (urData req); scIsActive := scIsActive s; scStartDate := scStartDate s;
     scEndDate := scEndDate s; scLastRunAt := scLastRunAt s; scNextRunAt := scNextRunAt s;
     scRunCount := scRunCount s; scMisfirePolicy := scMisfirePolicy s; scMaxRetries := scMaxRetries s;
     scTags := scTags s; scCreatedAt := scCreatedAt s; scUpdatedAt := scUpdatedAt s |}.

Definition ListSchedules (svc : ScheduleService) (ord : list string) (userID workflowID : string)
    (err : option string) : result (list Schedule) :=
  if bool_decide (workflowID ≠ "") then FindByWorkflowID (ssTable svc) ord workflowID err
  else FindByUserID (ssTable svc) ord userID err.

Definition GetSchedule (svc : ScheduleService) (id : string) (err : option string) : result Schedule :=
  FindByID (ssTable svc) id err.

Definition CreateSchedule (svc : ScheduleService) (s : Schedule) (now : Z) (err : option string) :
    option string * ScheduleService :=
  match Schedule_Validate s with
  | Some e => (Some e, svc)
  | None =>
      match Repo_Create (ssTable svc) s now err with
      | Err e => (Some e, svc)
      | Ok (s, tbl) =>
          (None, {| ssTable := tbl;
                    ssEvents := ssEvents svc ++ [svc_event "schedule.created" (scID s)
                      (<["scheduleId" := VStr (scID s)]> (<["workflowId" := VStr (scWorkflowID s)]>
                       {["cron" := VStr (scCronExpression s)]}))] |})
      end
  end.

(** [errs] are the failures of the read and of the write. *)
Definition Service_UpdateSchedule (svc : ScheduleService) (id : string) (req : UpdateScheduleRequest)
    (now : Z) (errs : option string * option string) : result Schedule * ScheduleService :=
  match FindByID (ssTable svc) id errs.1 with
  | Err e => (Err e, svc)
  | Ok s =>
      let s := apply_request req s in
      match Schedule_Validate s with
      | Some e => (Err e, svc)
      | None =>
          match Repo_Update (ssTable svc) s now errs.2 with
          | Err e => (Err e, svc)
          | Ok (s, tbl) => (Ok s, {| ssTable := tbl; ssEvents := ssEvents svc |})
          end
      end
  end.

Definition Service_DeleteSchedule (svc : ScheduleService) (id : string) (err : option string) :
    option string * ScheduleService :=
  match Repo_Delete (ssTable svc) id err with
  | Err e => (Some e, svc)
  | Ok tbl => (None, {| ssTable := tbl; ssEvents := ssEvents svc ++ [svc_event "schedule.deleted" id ∅] |})
  end.

(** [PauseSchedule] and [ResumeSchedule] of the service. *)
Definition activate (active : bool) (event : string) (svc : ScheduleService) (id : string)
    (now : Z) (errs : option string * option string) : option string * ScheduleService :=
  match FindByID (ssTable svc) id errs.1 with
  | Err e => (Some e, svc)
  | Ok s =>
      match Repo_Update (ssTable svc) (set_active active s) now errs.2 with
      | Err e => (Some e, svc)
      | Ok (s, tbl) => (None, {| ssTable := tbl; ssEvents := ssEvents svc ++ [svc_event event id ∅] |})
      end
  end.
Definition Service_PauseSchedule := activate false "schedule.paused".
Definition Service_ResumeSchedule := activate true "schedule.resumed".

Definition TriggerSchedule (svc : ScheduleService) (id : string) (err : option string) :
    result string * ScheduleService :=
  match FindByID (ssTable svc) id err with
  | Err e => (Err e, svc)
  | Ok s =>
      if negb (scIsActive s) then (Err "schedule is not active", svc)
      else (Ok "pending",
            {| ssTable := ssTable svc;
               ssEvents := ssEvents svc ++ [svc_event "schedule.triggered" id
                 (<["scheduleId" := VStr (scID s)]> (<["workflowId" := VStr (scWorkflowID s)]>
                  (<["data" := VObj (map_to_list (scData s))]> {["manual" := VBool true]})))] |})
  end.

(** ** Stored schedules are valid *)

Inductive svc_step : ScheduleService → ScheduleService → Prop :=
  | ss_create svc s now err : svc_step svc (CreateSchedule svc s now err).2
  | ss_update svc id req now errs : svc_step svc (Service_UpdateSchedule svc id req now errs).2
  | ss_delete svc id err : svc_step svc (Service_DeleteSchedule svc id err).2
  | ss_pause svc id now errs : svc_step svc (Service_PauseSchedule svc id now errs).2
  | ss_resume svc id now errs : svc_step svc (Service_ResumeSchedule svc id now errs).2
  | ss_trigger svc id err : svc_step svc (TriggerSchedule svc id err).2.

Definition valid_row (id : string) (s : Schedule) : Prop := scID s = id ∧ Schedule_Validate s = None.
Definition empty_service : ScheduleService := {| ssTable := ∅; ssEvents := [] |}.

Hypothesis utc_known : known_location "UTC" = true.

Lemma with_defaults_valid now s : Schedule_Validate s = None → Schedule_Validate (with_defaults now s) = None.
Proof.
  unfold Schedule_Validate. cbn [scName scWorkflowID scCronExpression scTimezone scStartDate scEndDate
    scMisfirePolicy with_defaults].
  intros H. destruct (bool_decide (scName s = "")); [done|]. destruct (bool_decide (scWorkflowID s = "")); [done|].
  destruct (bool_decide (scCronExpression s = "")); [done|].
  destruct (bool_decide (String.length _ < 9)); [done|].
  destruct (known_location (scTimezone s)) eqn:K; [|done]. cbn [negb] in H |- *.
  assert (known_location (if bool_decide (scTimezone s = "") then "UTC" else scTimezone s) = true) as ->.
  { by case_bool_decide. }
  cbn [negb]. destruct (match scStartDate s with Some _ => _ | None => _ end); [done|].
  destruct (bool_decide_reflect (scMisfirePolicy s = "")) as [E|E]; [|done]. by rewrite E in H.
Qed.

Lemma stored_insert (tbl : table) s : map_Forall valid_row tbl → Schedule_Validate s = None →
  map_Forall valid_row (<[scID s := s]> tbl).
Proof. intros H Hs. by apply map_Forall_insert_2. Qed.

Lemma FindByID_valid (tbl : table) id err s :
  map_Forall valid_row tbl → FindByID tbl id err = Ok s → valid_row id s ∧ tbl !! id = Some s.
Proof.
  unfold FindByID. intros H E. destruct err; [done|]. destruct (tbl !! id) as [s'|] eqn:L; [|done].
  injection E as ->. split; [by apply (H id)|done].
Qed.

Lemma activate_valid b event svc id now errs :
  map_Forall valid_row (ssTable svc) → map_Forall valid_row (ssTable (activate b event svc id now errs).2).
Proof.
  intros H. unfold activate. destruct (FindByID _ _ _) as [s|] eqn:E; [|done].
  apply FindByID_valid in E as [[_ Hv] _]; [|done]. unfold Repo_Update. destruct errs.2; [done|].
  by apply (stored_insert _ (set_times (scCreatedAt (set_active b s)) (Some now) (set_active b s))).
Qed.

Lemma svc_step_valid svc svc' :
  svc_step svc svc' → map_Forall valid_row (ssTable svc) → map_Forall valid_row (ssTable svc').
Proof.
  destruct 1 as [svc s now err|svc id req now errs|svc id err|svc id now errs|svc id now errs|svc id err];
    intros H.
  - unfold CreateSchedule, Repo_Create. destruct (Schedule_Validate s) eqn:V; [done|].
    destruct err; [done|]. destruct (ssTable svc !! scID s); [done|].
    by apply (stored_insert _ (with_defaults now s)), with_defaults_valid.
  - unfold Service_UpdateSchedule, Repo_Update. destruct (FindByID _ _ _) as [s|] eqn:E; [|done].
    destruct (Schedule_Validate (apply_request req s)) eqn:V; [done|]. destruct errs.2; [done|].
    by apply (stored_insert _ (set_times (scCreatedAt (apply_request req s)) (Some now) (apply_request req s))).
  - unfold Service_DeleteSchedule, Repo_Delete. destruct err; [done|]. by apply map_Forall_delete.
  - by apply activate_valid.
  - by apply activate_valid.
  - unfold TriggerSchedule. by repeat case_match.
Qed.

(** Whatever sequence of service calls runs and whichever of the database
    accesses fail, every stored schedule is stored under its ID and passes
    Validate: it has a name, a workflow, an expression of at least nine
    characters, a known time zone, an ordered date range and a known misfire
    policy; and a pause or a trigger of it has its effect: a paused schedule
    is inactive and no longer triggered, a resumed one can be. *)
Lemma schedule_service_correct svc :
  rtc svc_step empty_service svc →
  map_Forall valid_row (ssTable svc)
  ∧ ∀ id now err, is_Some (ssTable svc !! id) →
      let paused := Service_PauseSchedule svc id now (None, None) in
      let resumed := Service_ResumeSchedule paused.2 id now (None, None) in
      paused.1 = None ∧ resumed.1 = None
      ∧ (TriggerSchedule paused.2 id None).1 = Err "schedule is not active"
      ∧ (TriggerSchedule resumed.2 id None).1 = Ok "pending"
      ∧ (TriggerSchedule svc id (Some err)).1 = Err err.
Proof.
  intros Hrun. assert (map_Forall valid_row (ssTable svc)) as H.
  { eapply (rtc_preserve svc_step (λ svc, map_Forall valid_row (ssTable svc))); [apply svc_step_valid|exact Hrun|].
    apply map_Forall_empty. }
  split; [done|]. intros id now err [s Hs]. pose proof (H id s Hs) as [Hid _].
  unfold Service_ResumeSchedule, Service_PauseSchedule, activate, TriggerSchedule, FindByID, Repo_Update. simpl.
  rewrite Hs. simpl. rewrite <-Hid. rewrite lookup_insert_eq. simpl. by rewrite lookup_insert_eq.
Qed.

End Schedules.

(** ** Names of cron expressions *)

Lemma find_expr_spec ord expr key :
  find_expr ord expr = Some key → (key, expr) ∈ ord.
Proof.
  induction ord as [|[k e] ord IH]; [done|]. simpl. case_bool_decide as E.
  - intros [= ->]. rewrite E. left.
  - intros H. right. by apply IH.
Qed.

Lemma find_expr_none ord expr key : find_expr ord expr = None → (key, expr) ∉ ord.
Proof.
  induction ord as [|[k e] ord IH]; [by intros _ ?%elem_of_nil|]. simpl. case_bool_decide as E; [done|].
  intros H [[= -> ->]|Hin]%elem_of_cons; [done|by apply IH].
Qed.

Lemma predefined_keys key expr : (key, expr) ∈ PredefinedSchedules → find_key PredefinedSchedules key = Some expr.
Proof.
  unfold PredefinedSchedules. intros H. set_unfold. repeat destruct H as [H|H]; by simplify_eq.
Qed.

Lemma predefined_exprs key key' expr :
  (key, expr) ∈ PredefinedSchedules → (key', expr) ∈ PredefinedSchedules → key = key'.
Proof.
  unfold PredefinedSchedules. intros H H'. set_unfold.
  repeat destruct H as [H|H]; simplify_eq; repeat destruct H' as [H'|H']; by simplify_eq.
Qed.

(** Displaying a cron expression and reading the display back gives the
    expression, for every iteration order of the table of names and for every
    expression of a valid schedule that is not itself one of the names; the
    names are displayed as themselves. *)
Lemma cron_names_round_trip known_location s ord :
  ord ≡ₚ PredefinedSchedules → Schedule_Validate known_location s = None →
  find_key PredefinedSchedules (scCronExpression s) = None →
  ParseCronExpression (FormatCronExpression ord s) = Ok (scCronExpression s)
  ∧ ∀ key, (key, scCronExpression s) ∈ PredefinedSchedules → FormatCronExpression ord s = key.
Proof.
  intros Hord Hv Hk. unfold FormatCronExpression, ParseCronExpression.
  destruct (find_expr ord (scCronExpression s)) as [key|] eqn:E.
  - apply find_expr_spec in E. rewrite Hord in E. split; [by rewrite (predefined_keys _ _ E)|].
    intros key' Hkey. by eapply predefined_exprs.
  - split.
    + rewrite Hk, bool_decide_false; [done|]. revert Hv. unfold Schedule_Validate.
      repeat (case_bool_decide; [done|]). done.
    + intros key Hkey. rewrite <-Hord in Hkey. by apply (find_expr_none _ _ key) in E.
Qed.

(** A schedule created inactive is stored active: the column's default
    replaces the zero value. *)
Lemma created_inactive_stored_active known_location svc s now :
  Schedule_Validate known_location s = None → ssTable svc !! scID s = None →
  let '(e, svc') := CreateSchedule known_location svc s now None in
  e = None ∧ scIsActive <$> ssTable svc' !! scID s = Some true.
Proof.
  intros V L. unfold CreateSchedule, Repo_Create. rewrite V, L. split; [done|].
  simpl. by rewrite lookup_insert_eq.
Qed.

(** ** Concrete runs *)

Definition ex_schedule : Schedule :=
  NewSchedule "s" "nightly" "w" "u" "0 0 0 * * *" 0 0.
Definition ex_service : ScheduleService :=
  (CreateSchedule (λ _, true) empty_service ex_schedule 5 None).2.

Lemma schedule_service_correct_witness :
  (TriggerSchedule (Service_PauseSchedule ex_service "s" 7 (None, None)).2 "s" None).1
  = Err "schedule is not active".
Proof.
  assert (rtc (svc_step (λ _, true)) empty_service ex_service) as H by (apply rtc_once, ss_create).
  apply (schedule_service_correct (λ _, true) eq_refl ex_service H).
  - exact "".
  - eexists. vm_compute. reflexivity.
Defined.

Lemma cron_names_round_trip_witness :
  ParseCronExpression (FormatCronExpression PredefinedSchedules ex_schedule) = Ok "0 0 0 * * *"
  ∧ FormatCronExpression PredefinedSchedules ex_schedule = "every_day_midnight".
Proof.
  destruct (cron_names_round_trip (λ _, true) ex_schedule PredefinedSchedules) as [H1 H2];
    [reflexivity|reflexivity|reflexivity|].
  split; [exact H1|]. apply H2. unfold PredefinedSchedules. set_solver.
Defined.
