(* ===== verification/CronScheduler.v ===== *)
(** internal/schedule/app/scheduler/cron.go: the scheduler that keeps the
    active schedules in a cron runner while it is the leader, and the jobs it
    runs.  The cron library is a typeclass with the laws its documentation
    gives.  Schedules are shared by pointer between a job and the scheduler:
    [csHeap] holds them and a job is a handle.  The mutex is modelled where it
    matters: [csStuck] says that a goroutine that never returns holds it. *)

From S2P Require Import Prelude GoValue GoLib Schedule.

(** ** The cron library *)

(** A parsed expression ([cron.Schedule]) is what the library makes of the
    string. *)
Class CronOps (C CS : Type) := {
  cron_new : C;
  cron_schedule : C → CS → nat → Z * C;          (* a job under a fresh entry ID *)
  cron_remove : C → Z → C;
  cron_entries : C → gmap Z (CS * nat);
  cron_last : C → Z;                             (* the last entry ID given out *)
  cron_next : C → Z → Z;                         (* Next of an entry *)
  parse_standard : string → option CS;           (* five fields *)
  parse_seconds : string → option CS;            (* six fields, with seconds *)
  sched_next : CS → Z → Z
}.

Class CronLaws (C CS : Type) `{!CronOps C CS} := {
  new_entries : cron_entries cron_new = ∅;
  schedule_entries : ∀ c s j,
    cron_entries (cron_schedule c s j).2 = <[(cron_schedule c s j).1 := (s, j)]> (cron_entries c);
  schedule_fresh : ∀ c s j, (cron_last c < (cron_schedule c s j).1)%Z;
  schedule_last : ∀ c s j, cron_last (cron_schedule c s j).2 = (cron_schedule c s j).1;
  remove_entries : ∀ c id, cron_entries (cron_remove c id) = delete id (cron_entries c);
  remove_last : ∀ c id, cron_last (cron_remove c id) = cron_last c;
  entries_issued : ∀ c id, is_Some (cron_entries c !! id) → (id ≤ cron_last c)%Z
}.

(** ** State *)

Inductive SchedEvent :=
  | EvCreated (id workflowID cron : string)
  | EvUpdated (id : string)
  | EvDeleted (id : string)
  | EvTriggered (id workflowID executionID : string) (data : vmap).

Record CronScheduler (C : Type) := {
  csCron : C;
  csTable : gmap string Schedule;
  csExecutions : gmap string ScheduleExecution;
  csLeaderKey : option Z;                (* Redis: when the key scheduler:leader expires *)
  csHeap : gmap nat Schedule;
  csNext : nat;
  csSchedules : gmap string Z;           (* schedule ID to entry ID *)
  csLeader : bool;
  csStuck : bool;
  csEvents : list SchedEvent
}.
Arguments csCron {_}. Arguments csTable {_}. Arguments csExecutions {_}. Arguments csLeaderKey {_}.
Arguments csHeap {_}. Arguments csNext {_}. Arguments csSchedules {_}. Arguments csLeader {_}.
Arguments csStuck {_}. Arguments csEvents {_}.

(** How a call ends: it returns, or it waits for the mutex for ever. *)
Inductive call_end := Returned (err : option string) | Blocked.

Section Cron.
Context {C CS : Type} `{!CronOps C CS}.

Definition NewCronScheduler (tbl : gmap string Schedule) (key : option Z) : CronScheduler C :=
  {| csCron := cron_new; csTable := tbl; csExecutions := ∅; csLeaderKey := key; csHeap := ∅; csNext := 0;
     csSchedules := ∅; csLeader := false; csStuck := false; csEvents := [] |}.

Definition set_cron (st : CronScheduler C) (c : C) (m : gmap string Z) : CronScheduler C :=
  {| csCron := c; csTable := csTable st; csExecutions := csExecutions st; csLeaderKey := csLeaderKey st;
     csHeap := csHeap st; csNext := csNext st; csSchedules := m; csLeader := csLeader st;
     csStuck := csStuck st; csEvents := csEvents st |}.
Definition set_table (st : CronScheduler C) (tbl : gmap string Schedule) : CronScheduler C :=
  {| csCron := csCron st; csTable := tbl; csExecutions := csExecutions st; csLeaderKey := csLeaderKey st;
     csHeap := csHeap st; csNext := csNext st; csSchedules := csSchedules st; csLeader := csLeader st;
     csStuck := csStuck st; csEvents := csEvents st |}.
Definition set_executions (st : CronScheduler C) (xs : gmap string ScheduleExecution) : CronScheduler C :=
  {| csCron := csCron st; csTable := csTable st; csExecutions := xs; csLeaderKey := csLeaderKey st;
     csHeap := csHeap st; csNext := csNext st; csSchedules := csSchedules st; csLeader := csLeader st;
     csStuck := csStuck st; csEvents := csEvents st |}.
Definition set_election (st : CronScheduler C) (key : option Z) (leader stuck : bool) : CronScheduler C :=
  {| csCron := csCron st; csTable := csTable st; csExecutions := csExecutions st; csLeaderKey := key;
     csHeap := csHeap st; csNext := csNext st; csSchedules := csSchedules st; csLeader := leader;
     csStuck := stuck; csEvents := csEvents st |}.
Definition set_heap (st : CronScheduler C) (h : gmap nat Schedule) (n : nat) : CronScheduler C :=
  {| csCron := csCron st; csTable := csTable st; csExecutions := csExecutions st;
     csLeaderKey := csLeaderKey st; csHeap := h; csNext := n; csSchedules := csSchedules st;
     csLeader := csLeader st; csStuck := csStuck st; csEvents := csEvents st |}.
Definition emit_event (st : CronScheduler C) (e : SchedEvent) : CronScheduler C :=
  {| csCron := csCron st; csTable := csTable st; csExecutions := csExecutions st;
     csLeaderKey := csLeaderKey st; csHeap := csHeap st; csNext := csNext st;
     csSchedules := csSchedules st; csLeader := csLeader st; csStuck := csStuck st;
     csEvents := csEvents st ++ [e] |}.

(** A schedule the program holds by pointer. *)
Definition alloc (st : CronScheduler C) (s : Schedule) : nat * CronScheduler C :=
  (csNext st, set_heap st (<[csNext st := s]> (csHeap st)) (S (csNext st))).

(** ** The cron entries *)

(** [addToCron], for the schedule behind [p].  The old entry is removed from
    the cron before the expression is parsed. *)
Definition addToCron (st : CronScheduler C) (p : nat) : call_end * CronScheduler C :=
  if csStuck st then (Blocked, st) else
  match csHeap st !! p with
  | None => (Returned None, st)
  | Some s =>
      let c := match csSchedules st !! scID s with
               | Some entryID => cron_remove (csCron st) entryID
               | None => csCron st
               end in
      match parse_seconds (scCronExpression s) with
      | None => (Returned (Some "failed to parse cron expression: invalid"), set_cron st c (csSchedules st))
      | Some cs =>
          let '(entryID, c) := cron_schedule c cs p in
          (Returned None, set_cron st c (<[scID s := entryID]> (csSchedules st)))
      end
  end.

Definition removeFromCron (st : CronScheduler C) (scheduleID : string) : call_end * CronScheduler C :=
  if csStuck st then (Blocked, st) else
  match csSchedules st !! scheduleID with
  | Some entryID =>
      (Returned None, set_cron st (cron_remove (csCron st) entryID) (delete scheduleID (csSchedules st)))
  | None => (Returned None, st)
  end.

(** The failure of a call that returned one, with a prefix. *)
Definition wrap_end (prefix : string) (e : call_end) : call_end :=
  match e with
  | Returned (Some msg) => Returned (Some (prefix +:+ msg))
  | e => e
  end.

(** ** Calls *)

(** [AddSchedule]; [err] is the failure of the repository. *)
Definition AddSchedule (st : CronScheduler C) (s : Schedule) (now : Z) (err : option string) :
    call_end * CronScheduler C :=
  match parse_standard (scCronExpression s) with
  | None => (Returned (Some "invalid cron expression: invalid"), st)
  | Some _ =>
      match Repo_Create (csTable st) s now err with
      | Err e => (Returned (Some ("failed to save schedule: " +:+ e)), st)
      | Ok (s, tbl) =>
          let '(p, st) := alloc (set_table st tbl) s in
          let '(r, st) := if csLeader st then addToCron st p else (Returned None, st) in
          match r with
          | Returned None =>
              (Returned None, emit_event st (EvCreated (scID s) (scWorkflowID s) (scCronExpression s)))
          | r => (wrap_end "failed to add to cron: " r, st)
          end
      end
  end.

Definition UpdateSchedule (st : CronScheduler C) (s : Schedule) (now : Z) (err : option string) :
    call_end * CronScheduler C :=
  match parse_standard (scCronExpression s) with
  | None => (Returned (Some "invalid cron expression: invalid"), st)
  | Some _ =>
      match Repo_Update (csTable st) s now err with
      | Err e => (Returned (Some ("failed to update schedule: " +:+ e)), st)
      | Ok (s, tbl) =>
          let '(p, st) := alloc (set_table st tbl) s in
          let '(r, st) :=
            if csLeader st then
              match removeFromCron st (scID s) with
              | (Blocked, st) => (Blocked, st)
              | (_, st) => if scIsActive s then addToCron st p else (Returned None, st)
              end
            else (Returned None, st) in
          match r with
          | Returned None => (Returned None, emit_event st (EvUpdated (scID s)))
          | r => (wrap_end "failed to update cron: " r, st)
          end
      end
  end.

Definition DeleteSchedule (st : CronScheduler C) (scheduleID : string) (err : option string) :
    call_end * CronScheduler C :=
  match removeFromCron st scheduleID with
  | (Blocked, st) => (Blocked, st)
  | (_, st) =>
      match Repo_Delete (csTable st) scheduleID err with
      | Err e => (Returned (Some ("failed to delete schedule: " +:+ e)), st)
      | Ok tbl => (Returned None, emit_event (set_table st tbl) (EvDeleted scheduleID))
      end
  end.

(** [errs]: the failures of the read and of the write. *)
Definition PauseSchedule (st : CronScheduler C) (scheduleID : string) (now : Z)
    (errs : option string * option string) : call_end * CronScheduler C :=
  match FindByID (csTable st) scheduleID errs.1 with
  | Err e => (Returned (Some e), st)
  | Ok s =>
      match Repo_Update (csTable st) (set_active false s) now errs.2 with
      | Err e => (Returned (Some e), st)
      | Ok (_, tbl) => removeFromCron (set_table st tbl) scheduleID
      end
  end.

Definition ResumeSchedule (st : CronScheduler C) (scheduleID : string) (now : Z)
    (errs : option string * option string) : call_end * CronScheduler C :=
  match FindByID (csTable st) scheduleID errs.1 with
  | Err e => (Returned (Some e), st)
  | Ok s =>
      match Repo_Update (csTable st) (set_active true s) now errs.2 with
      | Err e => (Returned (Some e), st)
      | Ok (s, tbl) =>
          let '(p, st) := alloc (set_table st tbl) s in
          if csLeader st then addToCron st p else (Returned None, st)
      end
  end.

(** [loadSchedules]: a schedule that cannot be added is only logged. *)
Fixpoint load_loop (st : CronScheduler C) (ss : list Schedule) : call_end * CronScheduler C :=
  match ss with
  | [] => (Returned None, st)
  | s :: ss' =>
      let '(p, st) := alloc st s in
      if csLeader st then
        match addToCron st p with
        | (Blocked, st) => (Blocked, st)
        | (Returned _, st) => load_loop st ss'
        end
      else load_loop st ss'
  end.

Definition loadSchedules (st : CronScheduler C) (ord : list string) (err : option string) :
    call_end * CronScheduler C :=
  match FindActive (csTable st) ord err with
  | Err e => (Returned (Some ("failed to get active schedules: " +:+ e)), st)
  | Ok ss => load_loop st ss
  end.

(** ** The leader election *)

Definition leader_ttl : Z := 10 * 1000000000.

(** [tryBecomeLeader]: SetNX of a fresh value; the loss of leadership takes the
    mutex and, with schedules to remove, calls [removeFromCron], which takes it
    again: the election goroutine then never goes on. *)
Definition tryBecomeLeader (st : CronScheduler C) (now : Z) (redis_err : option string) (ord : list string)
    (db_err : option string) : CronScheduler C :=
  if csStuck st then st else
  match redis_err with
  | Some _ => st
  | None =>
      let free := match csLeaderKey st with Some t => bool_decide (t ≤ now)%Z | None => true end in
      let key := if free then Some (now + leader_ttl)%Z else csLeaderKey st in
      if free && negb (csLeader st) then
        (loadSchedules (set_election st key true false) ord db_err).2
      else if negb free && csLeader st then
        set_election st key false (bool_decide (csSchedules st ≠ ∅))
      else set_election st key (csLeader st) false
  end.

(** ** Jobs *)

(** [RecordExecution]: a creation under the execution's ID. *)
Definition RecordExecution (xs : gmap string ScheduleExecution) (x : ScheduleExecution) (err : option string) :
    result (gmap string ScheduleExecution) :=
  match err with
  | Some e => Err e
  | None => match xs !! sxID x with
            | Some _ => Err "duplicate key value violates unique constraint"
            | None => Ok (<[sxID x := x]> xs)
            end
  end.

Definition getNextRunTime (st : CronScheduler C) (s : Schedule) : option Z :=
  match csSchedules st !! scID s with
  | Some entryID => match cron_entries (csCron st) !! entryID with
                    | Some _ => Some (cron_next (csCron st) entryID)
                    | None => None
                    end
  | None => None
  end.

(** The failures of a run: of the two records, of the event and of the update. *)
Record RunErrs := {
  rxRecord1 : option string;
  rxPublish : option string;
  rxRecord2 : option string;
  rxUpdate : option string
}.

(** [scheduleJob.Run] of the job with the schedule behind [p]. *)
Definition Run (st : CronScheduler C) (p : nat) (uuid : string) (now : Z) (errs : RunErrs) : CronScheduler C :=
  match csHeap st !! p with
  | None => st
  | Some s =>
      let x status msg := {| sxID := uuid; sxScheduleID := scID s; sxExecutionID := ""; sxScheduledAt := now;
                             sxTriggeredAt := Some now; sxStatus := status; sxErrorMessage := msg |} in
      let st := match RecordExecution (csExecutions st) (x ExecutionStatusTriggered "") (rxRecord1 errs) with
                | Ok xs => set_executions st xs
                | Err _ => st
                end in
      let '(status, msg, st) :=
        match rxPublish errs with
        | Some e => (ExecutionStatusFailed, e, st)
        | None => (ExecutionStatusSuccess, "",
                   emit_event st (EvTriggered (scID s) (scWorkflowID s) uuid (scData s)))
        end in
      let st := match RecordExecution (csExecutions st) (x status msg) (rxRecord2 errs) with
                | Ok xs => set_executions st xs
                | Err _ => st
                end in
      let s := set_runs (Some now) (getNextRunTime st s) s in
      match Repo_Update (csTable st) s now (rxUpdate errs) with
      | Ok (s, tbl) => set_table (set_heap st (<[p := s]> (csHeap st)) (csNext st)) tbl
      | Err _ => set_heap st (<[p := s]> (csHeap st)) (csNext st)
      end
  end.

Definition calculateNextRunTime (s : Schedule) (now : Z) : option Z :=
  match parse_seconds (scCronExpression s) with
  | Some cs => Some (sched_next cs now)
  | None => None
  end.

(** [checkMisfires]: the jobs it starts are run by their own goroutines. *)
Fixpoint misfire_loop (st : CronScheduler C) (ss : list Schedule) (now : Z)
    (upd_err : string → option string) : list nat * CronScheduler C :=
  match ss with
  | [] => ([], st)
  | s :: ss' =>
      if match scNextRunAt s with Some t => bool_decide (t < now)%Z | None => false end then
        if bool_decide (scMisfirePolicy s = MisfirePolicyRunOnce) then
          let '(p, st) := alloc st s in
          let '(jobs, st) := misfire_loop st ss' now upd_err in (p :: jobs, st)
        else if bool_decide (scMisfirePolicy s = MisfirePolicySkip) then
          let s := set_runs (scLastRunAt s) (calculateNextRunTime s now) s in
          let st := match Repo_Update (csTable st) s now (upd_err (scID s)) with
                    | Ok (_, tbl) => set_table st tbl
                    | Err _ => st
                    end in
          misfire_loop st ss' now upd_err
        else misfire_loop st ss' now upd_err
      else misfire_loop st ss' now upd_err
  end.

Definition checkMisfires (st : CronScheduler C) (ord : list string) (now : Z) (err : option string)
    (upd_err : string → option string) : list nat * CronScheduler C :=
  if negb (csLeader st) then ([], st)
  else match FindActive (csTable st) ord err with
       | Err _ => ([], st)
       | Ok ss => misfire_loop st ss now upd_err
       end.

(** ** Runs *)

Inductive cron_step : CronScheduler C → CronScheduler C → Prop :=
  | cr_add st s now err : cron_step st (AddSchedule st s now err).2
  | cr_update st s now err : cron_step st (UpdateSchedule st s now err).2
  | cr_delete st id err : cron_step st (DeleteSchedule st id err).2
  | cr_pause st id now errs : cron_step st (PauseSchedule st id now errs).2
  | cr_resume st id now errs : cron_step st (ResumeSchedule st id now errs).2
  | cr_load st ord err : cron_step st (loadSchedules st ord err).2
  | cr_elect st now e1 ord e2 : cron_step st (tryBecomeLeader st now e1 ord e2)
  | cr_run st p uuid now errs : cron_step st (Run st p uuid now errs)
  | cr_misfire st ord now err upd : cron_step st (checkMisfires st ord now err upd).2
  | cr_table st tbl : cron_step st (set_table st tbl)      (* other writers of the table *)
  | cr_key st key : cron_step st (set_election st key (csLeader st) (csStuck st)).  (* and of the key *)

(** ** The invariant *)

Context `{!CronLaws C CS}.

Record cron_inv (st : CronScheduler C) : Prop := {
  ci_entry : ∀ entryID cs p, cron_entries (csCron st) !! entryID = Some (cs, p) →
    ∃ s, csHeap st !! p = Some s ∧ csSchedules st !! scID s = Some entryID
         ∧ parse_seconds (scCronExpression s) = Some cs;
  ci_issued : ∀ id entryID, csSchedules st !! id = Some entryID → (entryID ≤ cron_last (csCron st))%Z;
  ci_inj : ∀ id1 id2 entryID, csSchedules st !! id1 = Some entryID → csSchedules st !! id2 = Some entryID →
    id1 = id2;
  ci_heap : ∀ p, is_Some (csHeap st !! p) → p < csNext st;
  ci_stuck : csStuck st = true → csLeader st = false
}.

(** Steps that leave the cron and the map alone, and keep the identity and the
    expression of the schedules jobs point to. *)
Lemma cron_inv_frame st st' :
  cron_inv st → csCron st' = csCron st → csSchedules st' = csSchedules st →
  (∀ p s, csHeap st !! p = Some s →
     ∃ s', csHeap st' !! p = Some s' ∧ scID s' = scID s ∧ scCronExpression s' = scCronExpression s) →
  (∀ p, is_Some (csHeap st' !! p) → p < csNext st') →
  (csStuck st' = true → csLeader st' = false) → cron_inv st'.
Proof.
  intros [He Hi Hj _ _] Ec Es Hh Hn Hst. constructor; rewrite ?Ec, ?Es; [|done..].
  intros entryID cs p Hp. destruct (He _ _ _ Hp) as (s & Hs & Hm & Hx).
  destruct (Hh _ _ Hs) as (s' & Hs' & Hid & Hex). exists s'. by rewrite Hid, Hex.
Qed.

Lemma table_inv st tbl : cron_inv st → cron_inv (set_table st tbl).
Proof. intros H. apply (cron_inv_frame st); [done..|by eauto|apply (ci_heap _ H)|apply (ci_stuck _ H)]. Qed.

Lemma event_inv st e : cron_inv st → cron_inv (emit_event st e).
Proof. intros H. apply (cron_inv_frame st); [done..|by eauto|apply (ci_heap _ H)|apply (ci_stuck _ H)]. Qed.

Lemma executions_inv st xs : cron_inv st → cron_inv (set_executions st xs).
Proof. intros H. apply (cron_inv_frame st); [done..|by eauto|apply (ci_heap _ H)|apply (ci_stuck _ H)]. Qed.

Lemma election_inv st key leader stuck :
  cron_inv st → (stuck = true → leader = false) → cron_inv (set_election st key leader stuck).
Proof. intros H Hs. apply (cron_inv_frame st); [done..|by eauto|apply (ci_heap _ H)|done]. Qed.

Lemma alloc_inv st s : cron_inv st → cron_inv (alloc st s).2.
Proof.
  intros H. apply (cron_inv_frame st); [done..| | |apply (ci_stuck _ H)]; simpl.
  - intros p s' Hp. exists s'. split; [|done]. rewrite lookup_insert_ne; [done|].
    intros <-. pose proof (ci_heap _ H (csNext st)) as Hn. rewrite Hp in Hn. specialize (Hn (mk_is_Some _ _ eq_refl)). lia.
  - intros p [<-|[_ Hp]]%lookup_insert_is_Some; [lia|]. apply (ci_heap _ H) in Hp. lia.
Qed.

Lemma write_heap_inv st p s s' :
  cron_inv st → csHeap st !! p = Some s → scID s' = scID s → scCronExpression s' = scCronExpression s →
  cron_inv (set_heap st (<[p := s']> (csHeap st)) (csNext st)).
Proof.
  intros H Hp Hid Hex. apply (cron_inv_frame st); [done..| | |apply (ci_stuck _ H)]; simpl.
  - intros q t Hq. destruct (decide (p = q)) as [<-|Hne].
    + exists s'. rewrite lookup_insert_eq. simplify_eq. done.
    + exists t. by rewrite lookup_insert_ne.
  - intros q [<-|[_ Hq]]%lookup_insert_is_Some; apply (ci_heap _ H); [by eexists|done].
Qed.

(** Removing the entry the map records for a schedule leaves the others. *)
Lemma removed_entry st id entryID cs p s :
  cron_inv st → csHeap st !! p = Some s →
  cron_entries (match csSchedules st !! id with
                | Some e => cron_remove (csCron st) e
                | None => csCron st
                end) !! entryID = Some (cs, p) →
  cron_entries (csCron st) !! entryID = Some (cs, p) ∧ csSchedules st !! scID s = Some entryID ∧ scID s ≠ id.
Proof.
  intros H Hs He. assert (cron_entries (csCron st) !! entryID = Some (cs, p)
    ∧ csSchedules st !! id ≠ Some entryID) as [He' Hne].
  { destruct (csSchedules st !! id) as [e|] eqn:E; [|by split].
    rewrite remove_entries in He. apply lookup_delete_Some in He as [Hd He]. split; [done|congruence]. }
  destruct (ci_entry _ H _ _ _ He') as (s' & Hs' & Hm & _). simplify_eq. split_and!; [done..|]. congruence.
Qed.

Lemma removed_last st id :
  cron_last (match csSchedules st !! id with
             | Some e => cron_remove (csCron st) e
             | None => csCron st
             end) = cron_last (csCron st).
Proof. case_match; [apply remove_last|done]. Qed.

Lemma addToCron_inv st p : cron_inv st → cron_inv (addToCron st p).2.
Proof.
  intros H. unfold addToCron. destruct (csStuck st) eqn:S; [done|].
  destruct (csHeap st !! p) as [s|] eqn:Hp; [|done].
  set (c := match csSchedules st !! scID s with Some e => cron_remove (csCron st) e | None => csCron st end).
  assert (∀ e cs q, cron_entries c !! e = Some (cs, q) → ∃ t, csHeap st !! q = Some t
    ∧ csSchedules st !! scID t = Some e ∧ parse_seconds (scCronExpression t) = Some cs ∧ scID t ≠ scID s) as Hc.
  { intros e cs q He. assert (∃ t, csHeap st !! q = Some t ∧ parse_seconds (scCronExpression t) = Some cs) as (t & Ht & Hx).
    { assert (cron_entries (csCron st) !! e = Some (cs, q)) as He'.
      { unfold c in He. case_match; [|done]. rewrite remove_entries in He. by apply lookup_delete_Some in He as []. }
      destruct (ci_entry _ H _ _ _ He') as (t & ? & ? & ?). eauto. }
    destruct (removed_entry _ _ _ _ _ _ H Ht He) as (_ & ? & ?). eauto. }
  assert (cron_last c = cron_last (csCron st)) as Hlast by apply removed_last.
  destruct (parse_seconds (scCronExpression s)) as [cs|] eqn:Hparse.
  - destruct (cron_schedule c cs p) as [entryID c'] eqn:E. simpl.
    pose proof (schedule_entries c cs p) as He. pose proof (schedule_fresh c cs p) as Hf.
    pose proof (schedule_last c cs p) as Hl. rewrite E in He, Hf, Hl. simpl in He, Hf, Hl.
    constructor; simpl; [| | |apply (ci_heap _ H)|by rewrite S].
    + intros e cs' q. rewrite He, lookup_insert_Some. intros [[<- [= <- <-]]|[Hne Hq]].
      * exists s. rewrite lookup_insert_eq. done.
      * destruct (Hc _ _ _ Hq) as (t & ? & ? & ? & ?). exists t. by rewrite lookup_insert_ne by done.
    + intros id e. rewrite Hl, lookup_insert_Some. intros [[_ <-]|[_ Hm]]; [done|].
      apply (ci_issued _ H) in Hm. lia.
    + intros id1 id2 e. rewrite !lookup_insert_Some.
      intros [[<- <-]|[_ H1]] [[<- E2]|[_ H2]]; [done| | |by eapply (ci_inj _ H)].
      * apply (ci_issued _ H) in H2. lia.
      * apply (ci_issued _ H) in H1. lia.
  - constructor; simpl; [| |apply (ci_inj _ H)|apply (ci_heap _ H)|by rewrite S].
    + intros e cs' q Hq. destruct (Hc _ _ _ Hq) as (t & ? & ? & ? & ?). eauto.
    + intros id e Hm. rewrite Hlast. by eapply (ci_issued _ H).
Qed.

Lemma removeFromCron_inv st id : cron_inv st → cron_inv (removeFromCron st id).2.
Proof.
  intros H. unfold removeFromCron. destruct (csStuck st) eqn:S; [done|].
  destruct (csSchedules st !! id) as [e|] eqn:E; [|done]. simpl.
  constructor; simpl; [| | |apply (ci_heap _ H)|by rewrite S].
  - intros e' cs p. rewrite remove_entries, lookup_delete_Some. intros [Hne Hp].
    destruct (ci_entry _ H _ _ _ Hp) as (s & ? & Hs & ?). exists s. split; [done|]. split; [|done].
    rewrite lookup_delete_ne; [done|]. intros Eid. rewrite Eid in E. congruence.
  - intros i e' [_ Hm]%lookup_delete_Some. rewrite remove_last. by eapply (ci_issued _ H).
  - intros i j e' [_ ?]%lookup_delete_Some [_ ?]%lookup_delete_Some. by eapply (ci_inj _ H).
Qed.

Create HintDb cron.
#[local] Hint Resolve table_inv event_inv executions_inv alloc_inv addToCron_inv removeFromCron_inv : cron.

Lemma alloc_add_inv st s : cron_inv st → cron_inv (addToCron (alloc st s).2 (alloc st s).1).2.
Proof. auto with cron. Qed.

Lemma load_loop_inv ss st : cron_inv st → cron_inv (load_loop st ss).2.
Proof.
  revert st. induction ss as [|s ss IH]; intros st H; simpl; [done|].
  pose proof (alloc_inv st s H) as Ha. simpl in Ha. destruct (csLeader st); [|by apply IH].
  pose proof (alloc_add_inv st s H) as Hadd. simpl in Hadd.
  destruct (addToCron _ _) as [[] st']; simpl in Hadd; [by apply IH|done].
Qed.

Lemma Run_inv st p uuid now errs : cron_inv st → cron_inv (Run st p uuid now errs).
Proof.
  intros H. unfold Run. destruct (csHeap st !! p) as [s|] eqn:Hp; [|done]. cbn zeta.
  set (st1 := match RecordExecution _ _ (rxRecord1 errs) with Ok xs => _ | Err _ => _ end).
  assert (cron_inv st1 ∧ csHeap st1 = csHeap st) as [H1 E1].
  { unfold st1. case_match; simpl; auto with cron. }
  set (r := match rxPublish errs with Some e => _ | None => _ end).
  destruct r as [[status msg] st2] eqn:Er.
  assert (cron_inv st2 ∧ csHeap st2 = csHeap st) as [H2 E2].
  { unfold r in Er. destruct (rxPublish errs); injection Er as _ _ <-; simpl; auto with cron. }
  set (st3 := match RecordExecution _ _ (rxRecord2 errs) with Ok xs => _ | Err _ => _ end).
  assert (cron_inv st3 ∧ csHeap st3 = csHeap st) as [H3 E3].
  { unfold st3. case_match; simpl; auto with cron. }
  assert (csHeap st3 !! p = Some s) as Hp3 by by rewrite E3.
  unfold Repo_Update. destruct (rxUpdate errs).
  - by eapply write_heap_inv.
  - apply table_inv. by eapply write_heap_inv.
Qed.

Lemma misfire_loop_inv ss st now upd : cron_inv st → cron_inv (misfire_loop st ss now upd).2.
Proof.
  revert st. induction ss as [|s ss IH]; intros st H; simpl; [done|].
  case_match; [|by apply IH]. case_bool_decide.
  - pose proof (alloc_inv st s H) as Ha. simpl in Ha. apply IH in Ha. by destruct (misfire_loop _ _ _ _).
  - case_bool_decide; apply IH; [|done]. destruct (Repo_Update _ _ _ _) as [[s' tbl]|]; auto with cron.
Qed.

Lemma AddSchedule_inv st s now err : cron_inv st → cron_inv (AddSchedule st s now err).2.
Proof.
  intros H. unfold AddSchedule. case_match; [|done]. destruct (Repo_Create _ _ _ _) as [[s' tbl]|]; [|done].
  pose proof (alloc_add_inv _ s' (table_inv _ tbl H)) as Hadd.
  pose proof (alloc_inv _ s' (table_inv _ tbl H)) as Ha. cbn [alloc fst snd] in *. unfold alloc. simpl.
  simpl in Ha, Hadd. destruct (csLeader st); [|simpl; auto with cron].
  destruct (addToCron _ _) as [[[e|]|] st']; simpl in *; auto with cron.
Qed.

Lemma UpdateSchedule_inv st s now err : cron_inv st → cron_inv (UpdateSchedule st s now err).2.
Proof.
  intros H. unfold UpdateSchedule. case_match; [|done]. destruct (Repo_Update _ _ _ _) as [[s' tbl]|]; [|done].
  pose proof (alloc_inv _ s' (table_inv _ tbl H)) as Ha. unfold alloc in *. simpl in Ha. simpl.
  destruct (csLeader st); [|simpl; auto with cron].
  pose proof (removeFromCron_inv _ (scID s') Ha) as Hr.
  destruct (removeFromCron _ _) as [[e|] st']; simpl in Hr; [|done].
  destruct (scIsActive s'); [|simpl; auto with cron].
  pose proof (addToCron_inv _ (csNext st) Hr) as Hadd. simpl in Hadd.
  destruct (addToCron _ _) as [[[e'|]|] st'']; simpl in *; auto with cron.
Qed.

Lemma other_calls_inv st id now err errs :
  cron_inv st →
  cron_inv (DeleteSchedule st id err).2 ∧ cron_inv (PauseSchedule st id now errs).2
  ∧ cron_inv (ResumeSchedule st id now errs).2.
Proof.
  intros H. split_and!.
  - unfold DeleteSchedule. pose proof (removeFromCron_inv st id H) as Hr.
    destruct (removeFromCron st id) as [[e|] st']; simpl in Hr; [|done]. case_match; simpl; auto with cron.
  - unfold PauseSchedule. case_match; [|done]. destruct (Repo_Update _ _ _ _) as [[s' tbl]|]; simpl; auto with cron.
  - unfold ResumeSchedule. case_match; [|done]. destruct (Repo_Update _ _ _ _) as [[s' tbl]|]; [|done].
    pose proof (alloc_add_inv _ s' (table_inv _ tbl H)) as Hadd.
    pose proof (alloc_inv _ s' (table_inv _ tbl H)) as Ha. unfold alloc in *. simpl in *. by destruct (csLeader st).
Qed.

Lemma loadSchedules_inv st ord err : cron_inv st → cron_inv (loadSchedules st ord err).2.
Proof. intros H. unfold loadSchedules. case_match; [by apply load_loop_inv|done]. Qed.

Lemma tryBecomeLeader_inv st now e1 ord e2 : cron_inv st → cron_inv (tryBecomeLeader st now e1 ord e2).
Proof.
  intros H. unfold tryBecomeLeader. destruct (csStuck st); [done|]. destruct e1; [done|].
  cbn zeta. set (free := match csLeaderKey st with Some t => _ | None => _ end).
  destruct (free && negb (csLeader st)); [by apply loadSchedules_inv, election_inv|].
  destruct (negb free && csLeader st); by apply election_inv.
Qed.

Lemma cron_step_inv st st' : cron_step st st' → cron_inv st → cron_inv st'.
Proof.
  destruct 1; intros H; auto using AddSchedule_inv, UpdateSchedule_inv, loadSchedules_inv,
    tryBecomeLeader_inv, Run_inv, table_inv.
  - by apply (other_calls_inv st id 0 err (None, None)).
  - by apply (other_calls_inv st id now None errs).
  - by apply (other_calls_inv st id now None errs).
  - unfold checkMisfires. destruct (csLeader st); [|done]. simpl.
    destruct (FindActive _ _ _); [by apply misfire_loop_inv|done].
  - apply election_inv; [done|apply (ci_stuck _ H)].
Qed.

Lemma new_cron_inv tbl key : cron_inv (NewCronScheduler tbl key).
Proof.
  constructor; simpl; [| | | |done].
  - intros e cs p. rewrite new_entries. by rewrite lookup_empty.
  - intros id e. by rewrite lookup_empty.
  - intros id1 id2 e. by rewrite lookup_empty.
  - intros p [s Hs]. by rewrite lookup_empty in Hs.
Qed.

Lemma cron_reachable_inv tbl key st : rtc cron_step (NewCronScheduler tbl key) st → cron_inv st.
Proof. intros H. eapply rtc_preserve; [apply cron_step_inv|exact H|apply new_cron_inv]. Qed.

(** C30. For every sequence of calls, elections, runs and misfire checks, with
    any failures of the database and of Redis and any other writer of the
    table: every cron entry is the one the scheduler records for the schedule
    of its job and fires at the times of that schedule's expression; so a
    schedule never has two entries, and entries of different schedules are
    never confused, even where the record of an entry outlived it. *)
Theorem cron_entries_invariant tbl key st :
  rtc cron_step (NewCronScheduler tbl key) st →
  cron_inv st
  ∧ ∀ e1 e2 cs1 cs2 p1 p2 s1 s2,
      cron_entries (csCron st) !! e1 = Some (cs1, p1) → csHeap st !! p1 = Some s1 →
      cron_entries (csCron st) !! e2 = Some (cs2, p2) → csHeap st !! p2 = Some s2 →
      scID s1 = scID s2 → e1 = e2.
Proof.
  intros H%cron_reachable_inv. split; [done|]. intros e1 e2 cs1 cs2 p1 p2 s1 s2 E1 H1 E2 H2 Hid.
  destruct (ci_entry _ H _ _ _ E1) as (? & ? & ? & _). destruct (ci_entry _ H _ _ _ E2) as (? & ? & ? & _).
  simplify_eq. congruence.
Qed.

(** Whether some entry fires for a schedule. *)
Definition fires (st : CronScheduler C) (id : string) : Prop :=
  ∃ e cs p s, cron_entries (csCron st) !! e = Some (cs, p) ∧ csHeap st !! p = Some s ∧ scID s = id.

Lemma removeFromCron_stops st id :
  cron_inv st → csStuck st = false →
  (removeFromCron st id).1 = Returned None ∧ ¬ fires (removeFromCron st id).2 id
  ∧ csTable (removeFromCron st id).2 = csTable st.
Proof.
  intros H S. unfold removeFromCron. rewrite S.
  destruct (csSchedules st !! id) as [e|] eqn:E; simpl; split_and!; try done.
  - intros (e' & cs & p & s & He & Hs & <-). simpl in He. rewrite remove_entries in He.
    apply lookup_delete_Some in He as [Hne He]. destruct (ci_entry _ H _ _ _ He) as (? & ? & ? & _). simpl in Hs. simplify_eq.
  - intros (e' & cs & p & s & He & Hs & <-). destruct (ci_entry _ H _ _ _ He) as (? & ? & ? & _). simplify_eq.
Qed.

Lemma addToCron_fires st p s cs :
  csStuck st = false → csHeap st !! p = Some s → parse_seconds (scCronExpression s) = Some cs →
  (addToCron st p).1 = Returned None
  ∧ ∃ e, cron_entries (csCron (addToCron st p).2) !! e = Some (cs, p)
         ∧ csHeap (addToCron st p).2 !! p = Some s.
Proof.
  intros S Hp Hx. unfold addToCron. rewrite S, Hp, Hx.
  destruct (cron_schedule _ cs p) as [e c] eqn:E. split; [done|]. exists e. simpl. split; [|done].
  pose proof (schedule_entries (match csSchedules st !! scID s with
    | Some e => cron_remove (csCron st) e | None => csCron st end) cs p) as He.
  rewrite E in He. simpl in He. by rewrite He, lookup_insert_eq.
Qed.

(** In every reachable state in which the scheduler's lock is free, pausing
    a stored schedule (on the leader or not) returns nil, stores it inactive
    and leaves no cron entry for it; deleting it also removes the row; and
    resuming it on the leader stores it active and, when the six-field parser
    accepts its expression, adds an entry at the times of the expression. *)
Lemma pause_resume_correct tbl key st id s now :
  rtc cron_step (NewCronScheduler tbl key) st → csStuck st = false →
  csTable st !! id = Some s → scID s = id →
  (let '(r, st') := PauseSchedule st id now (None, None) in
   r = Returned None ∧ ¬ fires st' id ∧ scIsActive <$> csTable st' !! id = Some false)
  ∧ (let '(r, st') := DeleteSchedule st id None in
     r = Returned None ∧ ¬ fires st' id ∧ csTable st' !! id = None)
  ∧ (csLeader st = true → ∀ cs, parse_seconds (scCronExpression s) = Some cs →
     let '(r, st') := ResumeSchedule st id now (None, None) in
     r = Returned None ∧ fires st' id ∧ scIsActive <$> csTable st' !! id = Some true).
Proof.
  intros H%cron_reachable_inv S Hs Hid. split_and!.
  - unfold PauseSchedule, FindByID. rewrite Hs. simpl. rewrite Hid.
    match goal with |- context [removeFromCron ?st' id] =>
      pose proof (removeFromCron_stops st' id (table_inv _ _ H) S) as (H1 & H2 & H3);
      destruct (removeFromCron st' id) as [r st''] end.
    simpl in *. split_and!; [done..|]. rewrite H3. by rewrite lookup_insert_eq.
  - unfold DeleteSchedule. destruct (removeFromCron_stops st id H S) as (H1 & H2 & H3).
    destruct (removeFromCron st id) as [r st']. simpl in *. rewrite H1. simpl.
    split_and!; [done..|]. rewrite H3. apply lookup_delete_eq.
  - intros Hl cs Hx. unfold ResumeSchedule, FindByID. rewrite Hs. simpl. rewrite Hl.
    match goal with |- context [addToCron ?st' ?p] =>
      destruct (addToCron_fires st' p (set_times (scCreatedAt s) (Some now) (set_active true s)) cs S)
        as (H1 & e & H2 & H3); [simpl; apply lookup_insert_eq|done|];
      assert (csTable (addToCron st' p).2 = csTable st') as Ht
        by (unfold addToCron; repeat case_match; done);
      destruct (addToCron st' p) as [r st''] end.
    simpl in *. split; [done|]. split.
    + exists e, cs, (csNext st). eexists. split; [done|]. split; [done|]. done.
    + rewrite Ht, Hid. by rewrite lookup_insert_eq.
Qed.

(** ** What goes wrong *)

(** The leader does not renew its key: its own next election, while the key is
    alive, makes it lose the leadership; and with a schedule in the map it then
    waits for its own lock.  The cron keeps its entries. *)
Lemma leader_deadlocks st t now ord err :
  csStuck st = false → csLeader st = true → csLeaderKey st = Some t → (now < t)%Z → csSchedules st ≠ ∅ →
  let st' := tryBecomeLeader st now None ord err in
  csStuck st' = true ∧ csLeader st' = false ∧ csCron st' = csCron st.
Proof.
  intros S L K Ht Hne. unfold tryBecomeLeader. rewrite S, L, K.
  rewrite bool_decide_false by lia. simpl. by rewrite bool_decide_true.
Qed.

(** From then on pausing and deleting schedules never returns. *)
Lemma stuck_blocks st id now err errs :
  csStuck st = true →
  (DeleteSchedule st id err).1 = Blocked
  ∧ ((PauseSchedule st id now errs).1 = Blocked ∨ ∃ e, (PauseSchedule st id now errs).1 = Returned (Some e)).
Proof.
  intros S. unfold DeleteSchedule, PauseSchedule, removeFromCron. rewrite S. split; [done|].
  destruct (FindByID _ _ _); [|by eauto]. destruct (Repo_Update _ _ _ _) as [[s' tbl]|]; [|by eauto].
  simpl. rewrite S. by left.
Qed.

(** The five-field parser and the six-field parser accept different
    expressions: then the leader stores every schedule it is asked to add and
    reports that it failed. *)
Lemma leader_add_always_fails st s now :
  (∀ e cs, parse_standard e = Some cs → parse_seconds e = None) →
  csStuck st = false → csLeader st = true → is_Some (parse_standard (scCronExpression s)) →
  csTable st !! scID s = None →
  let '(r, st') := AddSchedule st s now None in
  r = Returned (Some "failed to add to cron: failed to parse cron expression: invalid")
  ∧ is_Some (csTable st' !! scID s).
Proof.
  intros Hp S L [cs Hs] Ht. unfold AddSchedule, Repo_Create. rewrite Hs, Ht. simpl. rewrite L.
  unfold addToCron. simpl. rewrite S, lookup_insert_eq. simpl. rewrite (Hp _ _ Hs). simpl.
  split; [done|]. rewrite lookup_insert_eq. by eexists.
Qed.

(** A pause through the service changes the table only; the next run of the
    job stores its own copy, active, again. *)
Lemma run_undoes_pause st p s uuid now errs :
  csHeap st !! p = Some s → scIsActive s = true → rxUpdate errs = None →
  scIsActive <$> csTable (Run st p uuid now errs) !! scID s = Some true.
Proof.
  intros Hp Ha He. unfold Run. rewrite Hp. cbn zeta.
  destruct (match rxPublish errs with Some e => _ | None => _ end) as [[status msg] st2].
  unfold Repo_Update. rewrite He. simpl. rewrite lookup_insert_eq. simpl. by rewrite Ha.
Qed.

(** The second record of an execution is a creation under the same ID: the
    stored status stays at triggered. *)
Lemma status_stays_triggered st p s uuid now errs :
  csHeap st !! p = Some s → csExecutions st !! uuid = None → rxRecord1 errs = None →
  sxStatus <$> csExecutions (Run st p uuid now errs) !! uuid = Some ExecutionStatusTriggered.
Proof.
  intros Hp Hx He. unfold Run. rewrite Hp. cbn zeta. unfold RecordExecution. rewrite He. simpl. rewrite Hx.
  destruct (rxPublish errs); simpl; rewrite lookup_insert_eq; destruct (rxRecord2 errs); simpl;
    unfold Repo_Update; destruct (rxUpdate errs); simpl; by rewrite lookup_insert_eq.
Qed.

End Cron.

(** ** A cron runner, and concrete runs *)

Record ListCron := {
  lcEntries : gmap Z (string * nat);
  lcLast : Z;
  lcBound : bool_decide (map_Forall (λ id _, (id ≤ lcLast)%Z) lcEntries) = true
}.

Lemma lc_bound_add m last cs j :
  bool_decide (map_Forall (λ id _, (id ≤ last)%Z) m) = true →
  bool_decide (map_Forall (λ id (_ : string * nat), (id ≤ last + 1)%Z) (<[(last + 1)%Z := (cs, j)]> m)) = true.
Proof.
  rewrite !bool_decide_eq_true. intros H. apply map_Forall_insert_2; [lia|].
  intros id x Hx. apply H in Hx. simpl in Hx. lia.
Qed.

Lemma lc_bound_remove m last id :
  bool_decide (map_Forall (λ id (_ : string * nat), (id ≤ last)%Z) m) = true →
  bool_decide (map_Forall (λ id (_ : string * nat), (id ≤ last)%Z) (delete id m)) = true.
Proof. rewrite !bool_decide_eq_true. intros H. by apply map_Forall_delete. Qed.

#[global] Instance list_cron : CronOps ListCron string := {
  cron_new := {| lcEntries := ∅; lcLast := 0; lcBound := eq_refl |};
  cron_schedule c cs j :=
    ((lcLast c + 1)%Z, {| lcEntries := <[(lcLast c + 1)%Z := (cs, j)]> (lcEntries c); lcLast := (lcLast c + 1)%Z;
                          lcBound := lc_bound_add _ _ cs j (lcBound c) |});
  cron_remove c id := {| lcEntries := delete id (lcEntries c); lcLast := lcLast c;
                         lcBound := lc_bound_remove _ _ id (lcBound c) |};
  cron_entries := lcEntries;
  cron_last := lcLast;
  cron_next c id := id;
  parse_standard e := if bool_decide (String.length e = 9) then Some e else None;
  parse_seconds e := if bool_decide (String.length e = 11) then Some e else None;
  sched_next cs now := (now + 1)%Z
}.

#[global] Instance list_cron_laws : CronLaws ListCron string.
Proof.
  constructor; try done; simpl.
  - intros c s j. lia.
  - intros c id [x Hx]. pose proof (lcBound c) as Hb. rewrite bool_decide_eq_true in Hb. by apply (Hb id x).
Qed.

Definition ex_row : Schedule := with_defaults 0 ex_schedule.
Definition ex_leader : CronScheduler ListCron :=
  tryBecomeLeader (NewCronScheduler {["s" := ex_row]} None) 100 None ["s"] None.

Lemma ex_leader_reachable : rtc cron_step (NewCronScheduler {["s" := ex_row]} None) ex_leader.
Proof. apply rtc_once, cr_elect. Qed.

Lemma cron_entries_invariant_witness :
  lcEntries (csCron ex_leader) = {[1%Z := ("0 0 0 * * *", 0)]} ∧ cron_inv ex_leader.
Proof.
  split; [vm_compute; reflexivity|].
  apply (cron_entries_invariant {["s" := ex_row]} None), ex_leader_reachable.
Defined.

Lemma pause_resume_correct_witness :
  let '(r, st') := PauseSchedule ex_leader "s" 200 (None, None) in
  r = Returned None ∧ ¬ fires st' "s" ∧ scIsActive <$> csTable st' !! "s" = Some false.
Proof.
  apply (pause_resume_correct {["s" := ex_row]} None ex_leader "s" ex_row 200);
    [apply ex_leader_reachable|reflexivity|reflexivity|reflexivity].
Defined.
