(* ===== verification/Cancellation.v ===== *)
(** internal/execution/app/cancellation/manager.go: cancellations of executions
    and their timeouts.  A cancellation is a goroutine over a context shared by
    pointer with the manager's map; timers call back into the manager.  The
    goroutines interleave between their critical sections; the counters that the
    code increments without the lock are read and written in separate turns. *)

From S2P Require Import Prelude GoValue GoLib.
From Stdlib Require Import Wf_nat.

(** ** Data *)

Inductive CancellationStatus :=
  | CancellationStatusPending | CancellationStatusInProgress
  | CancellationStatusCompleted | CancellationStatusFailed.
#[global] Instance CancellationStatus_eq_dec : EqDecision CancellationStatus.
Proof. solve_decision. Defined.

Record CancellationContext := {
  ccExecutionID : string;
  ccWorkflowID : string;
  ccCancelFunc : bool;            (* not nil *)
  ccReason : string;
  ccRequestedBy : string;
  ccRequestedAt : Z;
  ccGracePeriod : Z;
  ccForceCancel : bool;
  ccStatus : CancellationStatus;
  ccCompletedAt : option Z;
  ccResourcesCleaned : bool
}.

Record CancelConfig := {
  cfWorkflowID : string;
  cfReason : string;
  cfRequestedBy : string;
  cfGracePeriod : Z;
  cfForceCancel : bool
}.

Record TimeoutEscalationPolicy := {
  epWarnThreshold : spec_float;
  epCriticalThreshold : spec_float;
  epAutoCancel : bool;
  epRetryOnTimeout : bool
}.

Record TimeoutConfig := {
  tcGlobalTimeout : Z;
  tcNodeTimeouts : gmap string Z;
  tcEscalationPolicy : TimeoutEscalationPolicy
}.

(** Timers are handles: [toTimer] and [toNodeTimers] are those of the context. *)
Record TimeoutContext := {
  toExecutionID : string;
  toGlobalTimeout : Z;
  toTimer : option nat;
  toNodeTimers : list nat;
  toEscalationPolicy : TimeoutEscalationPolicy;
  toStartedAt : Z
}.

(** What an armed timer calls. *)
Inductive Callback :=
  | HandleTimeout (executionID nodeID : string)
  | HandleTimeoutWarning (executionID : string).

(** Where the goroutine of a cancellation is in [performCancellation]. *)
Inductive Phase :=
  | Requested      (* about to mark it in progress *)
  | Waiting        (* the grace period *)
  | Stopping       (* stopping the nodes and cleaning up *)
  | Finishing      (* published, the status not yet set *)
  | CleanupFailed  (* the clean-up failed, the status not yet set *)
  | Counting (success : bool)             (* the final status is set *)
  | Storing (success : bool) (seen : Z)   (* the counter was read as [seen] *)
  | Finished.
#[global] Instance Phase_eq_dec : EqDecision Phase.
Proof. solve_decision. Defined.

(** Where a call of [handleTimeout] is past its lookup. *)
Inductive HandlingStage :=
  | HandlingCount              (* about to read the number of timeouts *)
  | HandlingStore (seen : Z)   (* read as [seen] *)
  | HandlingCancel             (* counted *)
  | HandlingPublish.           (* cancelled if configured *)
#[global] Instance HandlingStage_eq_dec : EqDecision HandlingStage.
Proof. solve_decision. Defined.

Inductive CancelEvent :=
  | EvNodesStop (executionID : string)
  | EvStateCancelled (executionID reason : string)
  | EvCancelled (executionID reason requestedBy : string)
  | EvTimeout (executionID nodeID : string) (timeout : Z)
  | EvTimeoutWarning (executionID : string)
  | EvTimeoutRetry (executionID nodeID : string)
  | CancelSignal (executionID : string).         (* a call of the CancelFunc *)

Record Manager := {
  cmContexts : gmap nat (CancellationContext * Phase);
  cmNext : nat;
  cmCancellations : gmap string nat;
  cmTimeouts : gmap string TimeoutContext;
  cmTimers : gmap nat (Z * Callback);             (* armed timers: deadline and callback *)
  cmNextTimer : nat;
  cmHandling : list (string * string * TimeoutContext * HandlingStage);   (* handleTimeout past its lookup *)
  cmTotal : Z;
  cmSuccessful : Z;
  cmFailed : Z;
  cmTotalTimeouts : Z;
  cmEvents : list CancelEvent
}.

Definition NewManager : Manager :=
  {| cmContexts := ∅; cmNext := 0; cmCancellations := ∅; cmTimeouts := ∅; cmTimers := ∅; cmNextTimer := 0;
     cmHandling := []; cmTotal := 0; cmSuccessful := 0; cmFailed := 0; cmTotalTimeouts := 0; cmEvents := [] |}.

(** ** Updates of parts of the state *)

Definition set_contexts (m : Manager) (cs : gmap nat (CancellationContext * Phase)) (succ fail : Z)
    (evs : list CancelEvent) : Manager :=
  {| cmContexts := cs; cmNext := cmNext m; cmCancellations := cmCancellations m; cmTimeouts := cmTimeouts m;
     cmTimers := cmTimers m; cmNextTimer := cmNextTimer m; cmHandling := cmHandling m; cmTotal := cmTotal m;
     cmSuccessful := succ; cmFailed := fail; cmTotalTimeouts := cmTotalTimeouts m; cmEvents := evs |}.
Definition set_timers (m : Manager) (tos : gmap string TimeoutContext) (ts : gmap nat (Z * Callback))
    (n : nat) : Manager :=
  {| cmContexts := cmContexts m; cmNext := cmNext m; cmCancellations := cmCancellations m; cmTimeouts := tos;
     cmTimers := ts; cmNextTimer := n; cmHandling := cmHandling m; cmTotal := cmTotal m;
     cmSuccessful := cmSuccessful m; cmFailed := cmFailed m; cmTotalTimeouts := cmTotalTimeouts m;
     cmEvents := cmEvents m |}.
Definition set_handling (m : Manager) (h : list (string * string * TimeoutContext * HandlingStage)) (timeouts : Z)
    (evs : list CancelEvent) : Manager :=
  {| cmContexts := cmContexts m; cmNext := cmNext m; cmCancellations := cmCancellations m;
     cmTimeouts := cmTimeouts m; cmTimers := cmTimers m; cmNextTimer := cmNextTimer m; cmHandling := h;
     cmTotal := cmTotal m; cmSuccessful := cmSuccessful m; cmFailed := cmFailed m; cmTotalTimeouts := timeouts;
     cmEvents := evs |}.
Definition set_cancellations (m : Manager) (cs : gmap string nat) : Manager :=
  {| cmContexts := cmContexts m; cmNext := cmNext m; cmCancellations := cs; cmTimeouts := cmTimeouts m;
     cmTimers := cmTimers m; cmNextTimer := cmNextTimer m; cmHandling := cmHandling m; cmTotal := cmTotal m;
     cmSuccessful := cmSuccessful m; cmFailed := cmFailed m; cmTotalTimeouts := cmTotalTimeouts m;
     cmEvents := cmEvents m |}.

Definition set_status (c : CancellationContext) (s : CancellationStatus) : CancellationContext :=
  {| ccExecutionID := ccExecutionID c; ccWorkflowID := ccWorkflowID c; ccCancelFunc := ccCancelFunc c;
     ccReason := ccReason c; ccRequestedBy := ccRequestedBy c; ccRequestedAt := ccRequestedAt c;
     ccGracePeriod := ccGracePeriod c; ccForceCancel := ccForceCancel c; ccStatus := s;
     ccCompletedAt := ccCompletedAt c; ccResourcesCleaned := ccResourcesCleaned c |}.
Definition set_done (c : CancellationContext) (completed : option Z) (cleaned : bool) : CancellationContext :=
  {| ccExecutionID := ccExecutionID c; ccWorkflowID := ccWorkflowID c; ccCancelFunc := ccCancelFunc c;
     ccReason := ccReason c; ccRequestedBy := ccRequestedBy c; ccRequestedAt := ccRequestedAt c;
     ccGracePeriod := ccGracePeriod c; ccForceCancel := ccForceCancel c; ccStatus := ccStatus c;
     ccCompletedAt := completed; ccResourcesCleaned := cleaned |}.

(** An event published, unless the bus fails. *)
Definition published (evs : list CancelEvent) (e : CancelEvent) (err : option string) : list CancelEvent :=
  match err with None => evs ++ [e] | Some _ => evs end.

(** ** Cancellations *)

Definition CancelExecution (m : Manager) (executionID : string) (config : CancelConfig) (now : Z) :
    option string * Manager :=
  let status := match cmCancellations m !! executionID with
                | Some p => (λ x, ccStatus x.1) <$> cmContexts m !! p
                | None => None
                end in
  if bool_decide (status = Some CancellationStatusCompleted)
  then (Some ("execution " +:+ executionID +:+ " already cancelled"), m)
  else if bool_decide (status = Some CancellationStatusInProgress)
  then (Some ("execution " +:+ executionID +:+ " cancellation in progress"), m)
  else
    let c := {| ccExecutionID := executionID; ccWorkflowID := cfWorkflowID config; ccCancelFunc := false;
                ccReason := cfReason config; ccRequestedBy := cfRequestedBy config; ccRequestedAt := now;
                ccGracePeriod := cfGracePeriod config; ccForceCancel := cfForceCancel config;
                ccStatus := CancellationStatusPending; ccCompletedAt := None; ccResourcesCleaned := false |} in
    (None,
     {| cmContexts := <[cmNext m := (c, Requested)]> (cmContexts m); cmNext := S (cmNext m);
        cmCancellations := <[executionID := cmNext m]> (cmCancellations m); cmTimeouts := cmTimeouts m;
        cmTimers := cmTimers m; cmNextTimer := cmNextTimer m; cmHandling := cmHandling m;
        cmTotal := (cmTotal m + 1)%Z; cmSuccessful := cmSuccessful m; cmFailed := cmFailed m;
        cmTotalTimeouts := cmTotalTimeouts m; cmEvents := cmEvents m |}).

(** [cleanupResources] never fails. *)
Definition cleanupResources (c : CancellationContext) : option string * CancellationContext :=
  (None, set_done c (ccCompletedAt c) true).

(** What the bus does with the stop request, the state change and the
    cancellation event, and the time of completion. *)
Record CancelEnv := {
  ceStop : option string;
  ceState : option string;
  ceCancelled : option string;
  ceNow : Z
}.

Definition put (m : Manager) (p : nat) (c : CancellationContext) (ph : Phase) (evs : list CancelEvent) : Manager :=
  set_contexts m (<[p := (c, ph)]> (cmContexts m)) (cmSuccessful m) (cmFailed m) evs.

Definition counter (m : Manager) (success : bool) : Z := if success then cmSuccessful m else cmFailed m.

(** [performCancellation], one turn of the goroutine of context [p] at a time. *)
Definition performCancellation (env : CancelEnv) (p : nat) (m : Manager) : option Manager :=
  match cmContexts m !! p with
  | None | Some (_, Finished) => None
  | Some (c, Requested) =>
      let c := set_status c CancellationStatusInProgress in
      let evs := if ccCancelFunc c then cmEvents m ++ [CancelSignal (ccExecutionID c)] else cmEvents m in
      let next := if negb (ccForceCancel c) && bool_decide (0 < ccGracePeriod c)%Z then Waiting else Stopping in
      Some (put m p c next evs)
  | Some (c, Waiting) => Some (put m p c Stopping (cmEvents m))
  | Some (c, Stopping) =>
      let evs := published (cmEvents m) (EvNodesStop (ccExecutionID c)) (ceStop env) in
      match cleanupResources c with
      | (Some _, c) => Some (put m p c CleanupFailed evs)
      | (None, c) =>
          let evs := published evs (EvStateCancelled (ccExecutionID c) (ccReason c)) (ceState env) in
          let evs := published evs (EvCancelled (ccExecutionID c) (ccReason c) (ccRequestedBy c)) (ceCancelled env) in
          Some (put m p (set_done c (Some (ceNow env)) (ccResourcesCleaned c)) Finishing evs)
      end
  | Some (c, CleanupFailed) => Some (put m p (set_status c CancellationStatusFailed) (Counting false) (cmEvents m))
  | Some (c, Finishing) => Some (put m p (set_status c CancellationStatusCompleted) (Counting true) (cmEvents m))
  | Some (c, Counting success) => Some (put m p c (Storing success (counter m success)) (cmEvents m))
  | Some (c, Storing success seen) =>
      Some (set_contexts m (<[p := (c, Finished)]> (cmContexts m)) (if success then (seen + 1)%Z else cmSuccessful m)
              (if success then cmFailed m else (seen + 1)%Z) (cmEvents m))
  end.

Definition GetCancellationStatus (m : Manager) (executionID : string) : result CancellationContext :=
  match cmCancellations m !! executionID ≫= λ p, cmContexts m !! p with
  | Some (c, _) => Ok c
  | None => Err ("no cancellation found for execution: " +:+ executionID)
  end.

(** [checkStaleCancellations]: what it warns about, in the map's order [ord]. *)
Definition checkStaleCancellations (m : Manager) (ord : list string) (now : Z) : list string :=
  List.filter (λ e, match cmCancellations m !! e ≫= λ p, cmContexts m !! p with
                    | Some (c, _) => bool_decide (ccStatus c = CancellationStatusInProgress)
                                     && bool_decide (5 * 60 * 1000000000 < now - ccRequestedAt c)%Z
                    | None => false
                    end) ord.

(** ** Timeouts *)

(** A timer armed for [d] from [now]. *)
Definition after_func (m : Manager) (now d : Z) (cb : Callback) : nat * Manager :=
  (cmNextTimer m,
   set_timers m (cmTimeouts m) (<[cmNextTimer m := ((now + d)%Z, cb)]> (cmTimers m)) (S (cmNextTimer m))).

(** The node timers, in the map's order. *)
Fixpoint arm_nodes (m : Manager) (now : Z) (executionID : string) (nodes : list (string * Z)) : list nat * Manager :=
  match nodes with
  | [] => ([], m)
  | (nodeID, timeout) :: nodes' =>
      let '(t, m) := after_func m now timeout (HandleTimeout executionID nodeID) in
      let '(ts, m) := arm_nodes m now executionID nodes' in (t :: ts, m)
  end.

(** [SetTimeout]: a context already there is replaced, its timers are not
    stopped.  The threshold times the timeout is a float, truncated. *)
Definition SetTimeout (m : Manager) (executionID : string) (config : TimeoutConfig) (now : Z) : Manager :=
  let '(timer, m) := if bool_decide (0 < tcGlobalTimeout config)%Z
                     then let '(t, m) := after_func m now (tcGlobalTimeout config) (HandleTimeout executionID "") in
                          (Some t, m)
                     else (None, m) in
  let '(nodeTimers, m) := arm_nodes m now executionID (map_to_list (tcNodeTimeouts config)) in
  let ctx := {| toExecutionID := executionID; toGlobalTimeout := tcGlobalTimeout config; toTimer := timer;
                toNodeTimers := nodeTimers; toEscalationPolicy := tcEscalationPolicy config;
                toStartedAt := now |} in
  let m := set_timers m (<[executionID := ctx]> (cmTimeouts m)) (cmTimers m) (cmNextTimer m) in
  let warn := epWarnThreshold (tcEscalationPolicy config) in
  if f64_ltb (f64_of_Z 0) warn then
    (after_func m now (f64_trunc (f64_mul (f64_of_Z (tcGlobalTimeout config)) warn))
       (HandleTimeoutWarning executionID)).2
  else m.

Definition stop_timers (ts : gmap nat (Z * Callback)) (l : list nat) : gmap nat (Z * Callback) :=
  foldl (λ ts t, delete t ts) ts l.

Definition ClearTimeout (m : Manager) (executionID : string) : Manager :=
  match cmTimeouts m !! executionID with
  | None => m
  | Some ctx =>
      let ts := match toTimer ctx with Some t => delete t (cmTimers m) | None => cmTimers m end in
      set_timers m (delete executionID (cmTimeouts m)) (stop_timers ts (toNodeTimers ctx)) (cmNextTimer m)
  end.

(** A timer that is due fires: [handleTimeout] up to its lookup, or the warning. *)
Definition fire (m : Manager) (t : nat) (now : Z) (err : option string) : option Manager :=
  match cmTimers m !! t with
  | None => None
  | Some (deadline, cb) =>
      if bool_decide (now < deadline)%Z then None else
      let m := set_timers m (cmTimeouts m) (delete t (cmTimers m)) (cmNextTimer m) in
      match cb with
      | HandleTimeoutWarning executionID =>
          Some (set_handling m (cmHandling m) (cmTotalTimeouts m)
                  (published (cmEvents m) (EvTimeoutWarning executionID) err))
      | HandleTimeout executionID nodeID =>
          match cmTimeouts m !! executionID with
          | None => Some m
          | Some ctx => Some (set_handling m (cmHandling m ++ [(executionID, nodeID, ctx, HandlingCount)])
                                (cmTotalTimeouts m) (cmEvents m))
          end
      end
  end.

Definition timeout_config : CancelConfig :=
  {| cfWorkflowID := ""; cfReason := "Execution timeout"; cfRequestedBy := ""; cfGracePeriod := 0;
     cfForceCancel := true |}.

(** The rest of [handleTimeout], one turn of the [i]-th call past its lookup; [errs]
    are the failures of the retry trigger and of the timeout event. *)
Definition handleTimeout (m : Manager) (i : nat) (now : Z) (errs : option string * option string) :
    option Manager :=
  match cmHandling m !! i with
  | None => None
  | Some (executionID, nodeID, ctx, stage) =>
      let goes_on m stage n := set_handling m (<[i := (executionID, nodeID, ctx, stage)]> (cmHandling m)) n (cmEvents m) in
      match stage with
      | HandlingCount => Some (goes_on m (HandlingStore (cmTotalTimeouts m)) (cmTotalTimeouts m))
      | HandlingStore seen => Some (goes_on m HandlingCancel (seen + 1)%Z)
      | HandlingCancel =>
          let m := if epAutoCancel (toEscalationPolicy ctx)
                   then (CancelExecution m executionID timeout_config now).2 else m in
          Some (goes_on m HandlingPublish (cmTotalTimeouts m))
      | HandlingPublish =>
          let evs := if epRetryOnTimeout (toEscalationPolicy ctx)
                     then published (cmEvents m) (EvTimeoutRetry executionID nodeID) errs.1 else cmEvents m in
          let evs := published evs (EvTimeout executionID nodeID (toGlobalTimeout ctx)) errs.2 in
          Some (set_handling m (take i (cmHandling m) ++ drop (S i) (cmHandling m)) (cmTotalTimeouts m) evs)
      end
  end.

(** ** Event handlers *)

(** [handleExecutionCompleted]: two critical sections, which are steps of their own. *)
Definition forget_cancellation (m : Manager) (aggregateID : string) : Manager :=
  set_cancellations m (delete aggregateID (cmCancellations m)).
Definition handleExecutionCompleted (m : Manager) (aggregateID : string) : Manager :=
  forget_cancellation (ClearTimeout m aggregateID) aggregateID.

Definition handleCancelRequest (m : Manager) (payload : vmap) (now : Z) : option string * Manager :=
  let executionID := default "" (get_string payload "executionId") in
  let reason := default "" (get_string payload "reason") in
  CancelExecution m executionID
    {| cfWorkflowID := ""; cfReason := reason; cfRequestedBy := ""; cfGracePeriod := 0; cfForceCancel := false |} now.

(** [Stop] calls the cancel functions of the known cancellations. *)
Definition Stop (m : Manager) (ord : list string) : Manager :=
  let signals := omap (λ e, match cmCancellations m !! e ≫= λ p, cmContexts m !! p with
                            | Some (c, _) => if ccCancelFunc c then Some (CancelSignal (ccExecutionID c)) else None
                            | None => None
                            end) ord in
  set_handling m (cmHandling m) (cmTotalTimeouts m) (cmEvents m ++ signals).

(** [GetMetrics]: total, successful, failed, timeouts, active cancellations and
    active timeouts. *)
Definition GetMetrics (m : Manager) : Z * Z * Z * Z * nat * nat :=
  (cmTotal m, cmSuccessful m, cmFailed m, cmTotalTimeouts m, size (cmCancellations m), size (cmTimeouts m)).

(** ** Runs *)

Inductive turn : Manager → Manager → Prop :=
  | turn_perform env p m m' : performCancellation env p m = Some m' → turn m m'.

(** Everything but arming timers. *)
Inductive other_step : Manager → Manager → Prop :=
  | step_cancel m e config now : other_step m (CancelExecution m e config now).2
  | step_request m payload now : other_step m (handleCancelRequest m payload now).2
  | step_clear m e : other_step m (ClearTimeout m e)
  | step_forget m e : other_step m (forget_cancellation m e)
  | step_fire m m' t now err : fire m t now err = Some m' → other_step m m'
  | step_handle m m' i now errs : handleTimeout m i now errs = Some m' → other_step m m'
  | step_stop m ord : other_step m (Stop m ord)
  | step_turn m m' : turn m m' → other_step m m'.

Inductive step : Manager → Manager → Prop :=
  | step_set m e config now : step m (SetTimeout m e config now)
  | step_other m m' : other_step m m' → step m m'.

Lemma completed_steps m e : rtc other_step m (handleExecutionCompleted m e).
Proof. eapply rtc_l; [apply step_clear|]. apply rtc_once, step_forget. Qed.

(** ** Cancellations run to their end *)

Definition weight (x : CancellationContext * Phase) : nat :=
  match x.2 with
  | Requested => 6 | Waiting => 5 | Stopping => 4 | Finishing | CleanupFailed => 3 | Counting _ => 2 | Storing _ _ => 1 | Finished => 0
  end.

Lemma perform_changes env p m m' :
  performCancellation env p m = Some m' →
  ∃ x y, cmContexts m !! p = Some x ∧ cmContexts m' = <[p := y]> (cmContexts m) ∧ weight y < weight x.
Proof.
  unfold performCancellation. destruct (cmContexts m !! p) as [[c ph]|]; [|done].
  intros H. exists (c, ph). destruct ph; simplify_eq/=; eexists; (split; [done|]); (split; [done|]);
    unfold weight; simpl; try lia.
  destruct (negb _ && _); lia.
Qed.

Lemma cancel_turn_wf : well_founded (flip turn).
Proof.
  apply (well_founded_lt_compat _ (λ m, total weight (cmContexts m))). intros m' m H.
  destruct H as [env p m m' H]. apply perform_changes in H as (x & y & Hx & -> & Hw).
  pose proof (total_insert weight _ _ _ y Hx). lia.
Qed.

Definition all_finished (m : Manager) : Prop := ∀ p x, cmContexts m !! p = Some x → x.2 = Finished.

Lemma perform_enabled env m p c ph :
  cmContexts m !! p = Some (c, ph) → ph ≠ Finished → ∃ m', performCancellation env p m = Some m'.
Proof. intros H Hph. unfold performCancellation. rewrite H. destruct ph; try done; eauto. Qed.

Definition default_env : CancelEnv := {| ceStop := None; ceState := None; ceCancelled := None; ceNow := 0 |}.

Lemma finished_or_turn m : all_finished m ∨ ∃ m', turn m m'.
Proof.
  destruct (decide (map_Forall (λ _ x, x.2 = Finished) (cmContexts m))) as [H|H].
  - left. intros p x. apply H.
  - right. apply map_not_Forall in H as (p & [c ph] & Hp & Hph); [|apply _].
    destruct (perform_enabled default_env m p c ph Hp Hph) as [m' ?]. exists m'. by econstructor.
Qed.

Lemma turns_finish m : ∃ m', rtc turn m m' ∧ all_finished m'.
Proof.
  induction m as [m IH] using (well_founded_induction cancel_turn_wf).
  destruct (finished_or_turn m) as [H|[m1 H]]; [by exists m|].
  destruct (IH m1 H) as (m' & Hr & Hq). exists m'. split; [by eapply rtc_l|done].
Qed.

(** ** The invariant *)

Definition ctx_ok (x : CancellationContext * Phase) : Prop :=
  let '(c, ph) := x in
  ccCancelFunc c = false
  ∧ match ph with
    | Requested => ccStatus c = CancellationStatusPending ∧ ccCompletedAt c = None
    | Waiting | Stopping => ccStatus c = CancellationStatusInProgress ∧ ccCompletedAt c = None
    | Finishing => ccStatus c = CancellationStatusInProgress ∧ is_Some (ccCompletedAt c)
                   ∧ ccResourcesCleaned c = true
    | CleanupFailed | Counting false | Storing false _ => False
    | Counting true | Storing true _ | Finished =>
        ccStatus c = CancellationStatusCompleted ∧ is_Some (ccCompletedAt c) ∧ ccResourcesCleaned c = true
    end.

(** The cancellations that have been counted. *)
Definition has_counted (x : CancellationContext * Phase) : nat := match x.2 with Finished => 1 | _ => 0 end.
Definition counted (m : Manager) : Z := Z.of_nat (total has_counted (cmContexts m)).

Record cancel_inv (m : Manager) : Prop := {
  cn_ctx : map_Forall (λ _, ctx_ok) (cmContexts m);
  cn_fresh : ∀ p, is_Some (cmContexts m !! p) → p < cmNext m;
  cn_map : ∀ e p, cmCancellations m !! e = Some p →
    ∃ c ph, cmContexts m !! p = Some (c, ph) ∧ ccExecutionID c = e;
  cn_total : cmTotal m = Z.of_nat (size (cmContexts m));
  cn_successful : (Z.min 1 (counted m) ≤ cmSuccessful m ≤ counted m)%Z;
  cn_seen : ∀ p c b seen, cmContexts m !! p = Some (c, Storing b seen) → (0 ≤ seen ≤ counted m)%Z;
  cn_failed : cmFailed m = 0%Z;
  cn_signal : ∀ e, CancelSignal e ∉ cmEvents m
}.

(** The parts of the state the invariant reads. *)
Lemma cancel_inv_frame m m' :
  cancel_inv m → cmContexts m' = cmContexts m → cmNext m' = cmNext m →
  cmCancellations m' ⊆ cmCancellations m → cmTotal m' = cmTotal m → cmSuccessful m' = cmSuccessful m →
  cmFailed m' = cmFailed m → (∀ e, CancelSignal e ∉ cmEvents m') → cancel_inv m'.
Proof.
  intros [H1 H2 H3 H4 H5 H5' H6 H7] E1 E2 Hsub E3 E4 E5 E6.
  assert (counted m' = counted m) as Ec by (unfold counted; by rewrite E1).
  constructor; rewrite ?Ec, ?E1, ?E2, ?E3, ?E4, ?E5; try done.
  intros e p He. eapply H3, lookup_weaken; done.
Qed.

Lemma published_signal evs ev err e :
  (∀ e, CancelSignal e ∉ evs) → (∀ e, ev ≠ CancelSignal e) → CancelSignal e ∉ published evs ev err.
Proof.
  intros H Hev. unfold published. destruct err; [done|]. rewrite elem_of_app, list_elem_of_singleton.
  intros [?|?]; [by eapply H|by eapply Hev].
Qed.

Lemma CancelExecution_inv m e config now : cancel_inv m → cancel_inv (CancelExecution m e config now).2.
Proof.
  intros [H1 H2 H3 H4 H5 H5' H6 H7]. unfold CancelExecution.
  case_bool_decide; [done|]. case_bool_decide; [done|]. simpl.
  assert (cmContexts m !! cmNext m = None) as Hnew.
  { apply eq_None_not_Some. intros Hx. apply H2 in Hx. lia. }
  constructor; simpl; [| | | | | |done|done].
  - apply map_Forall_insert_2; [|done]. done.
  - intros p [<-|[_ Hp]]%lookup_insert_is_Some; [lia|]. apply H2 in Hp. lia.
  - intros e' p. rewrite lookup_insert_Some. intros [[<- <-]|[_ Hp]].
    + do 2 eexists. by rewrite lookup_insert_eq.
    + destruct (H3 _ _ Hp) as (c & ph & Hp' & Hid). exists c, ph. split; [|done].
      rewrite lookup_insert_ne; [done|]. intros <-. by rewrite Hnew in Hp'.
  - rewrite map_size_insert_None by done. lia.
  - unfold counted. simpl. by rewrite total_insert_new by done.
  - intros p c b seen [[_ ?]|[_ Hp]]%lookup_insert_Some; [done|]. unfold counted. simpl. rewrite total_insert_new by done.
    by eapply H5'.
Qed.

(** A turn that replaces context [p], keeping its execution. *)
Lemma replace_inv m p c ph c' ph' succ evs :
  cancel_inv m → cmContexts m !! p = Some (c, ph) → ctx_ok (c', ph') → ccExecutionID c' = ccExecutionID c →
  (has_counted (c', ph') = has_counted (c, ph) ∧ succ = cmSuccessful m
   ∨ has_counted (c, ph) = 0 ∧ has_counted (c', ph') = 1 ∧ (1 ≤ succ ≤ counted m + 1)%Z) →
  (∀ b seen, ph' = Storing b seen → 0 ≤ seen ≤ counted m)%Z →
  (∀ e, CancelSignal e ∉ evs) →
  cancel_inv (set_contexts m (<[p := (c', ph')]> (cmContexts m)) succ (cmFailed m) evs).
Proof.
  intros [H1 H2 H3 H4 H5 H5' H6 H7] Hp Hok Hid Hs Hseen Hev.
  pose proof (total_insert has_counted _ _ _ (c', ph') Hp) as Ht. unfold counted in *.
  constructor; unfold counted; simpl; [| | | | | |done|done].
  - by apply map_Forall_insert_2.
  - intros q [<-|[_ Hq]]%lookup_insert_is_Some; apply H2; [by eexists|done].
  - intros e q Hq. destruct (H3 _ _ Hq) as (cq & phq & Hq' & Hidq). destruct (decide (p = q)) as [<-|Hne].
    + exists c', ph'. rewrite lookup_insert_eq. split; [done|]. rewrite Hid. congruence.
    + exists cq, phq. by rewrite lookup_insert_ne.
  - rewrite map_size_insert_Some by by eexists. done.
  - lia.
  - intros q cq b seen [[_ [= _ E]]|[_ Hq]]%lookup_insert_Some; [apply Hseen in E|apply H5' in Hq]; lia.
Qed.

Lemma cancel_turn_inv m m' : turn m m' → cancel_inv m → cancel_inv m'.
Proof.
  destruct 1 as [env p m m' H]. intros Hi. pose proof (cn_signal _ Hi) as Hsig. revert H.
  unfold performCancellation. destruct (cmContexts m !! p) as [[c ph]|] eqn:Hp; [|done].
  pose proof (cn_ctx _ Hi p _ Hp) as [Hf Hok].
  destruct ph as [| | | | |[]|[] seen|]; intros H; [| | | |done| |done| |done|done]; injection H as <-.
  - destruct Hok as [Hst Hc]. eapply replace_inv; [done..| |done| |by destruct (negb _ && _)|].
    + split; [done|]. by destruct (negb _ && _).
    + left. by destruct (negb _ && _).
    + simpl. by rewrite Hf.
  - by eapply replace_inv; [done..|left|done|].
  - destruct Hok as [Hst Hc]. eapply replace_inv; [done..| |done|by left|done|].
    + split; [done|]. split_and!; [done|by eexists|done].
    + intros e. apply published_signal; [|done]. intros e'. apply published_signal; [|done].
      intros e''. by apply published_signal.
  - destruct Hok as (Hst & Hc & Hr). by eapply replace_inv; [done..|left|done|].
  - eapply replace_inv; [done..|by left| |done]. intros b seen [= <- <-]. pose proof (cn_successful _ Hi). unfold counted in *. simpl. lia.
  - eapply replace_inv; [done..| |done|done]. right. pose proof (cn_seen _ Hi _ _ _ _ Hp). split_and!; [done|done|lia|lia].
Qed.

(** Arming timers touches only the timers. *)
Lemma arm_nodes_frame nodes m now e ts m' :
  arm_nodes m now e nodes = (ts, m') →
  ∃ timers n, m' = set_timers m (cmTimeouts m) timers n.
Proof.
  revert m ts m'. induction nodes as [|[n d] nodes IH]; intros m ts m'; simpl.
  - intros [= <- <-]. exists (cmTimers m), (cmNextTimer m). by destruct m.
  - destruct (arm_nodes _ now e nodes) as [ts1 m1] eqn:E. intros [= <- <-].
    apply IH in E as (timers & k & ->). by exists timers, k.
Qed.

Lemma SetTimeout_frame m e config now :
  ∃ ctx timers n, SetTimeout m e config now = set_timers m (<[e := ctx]> (cmTimeouts m)) timers n.
Proof.
  unfold SetTimeout. case_bool_decide; simpl.
  all: destruct (arm_nodes _ now e _) as [ts m1] eqn:E; apply arm_nodes_frame in E as (timers & k & ->).
  all: case_match; simpl; do 3 eexists; reflexivity.
Qed.

Lemma timers_inv m tos ts n : cancel_inv m → cancel_inv (set_timers m tos ts n).
Proof. intros H. by apply (cancel_inv_frame m); [..|apply (cn_signal _ H)]. Qed.

Lemma ClearTimeout_inv m e : cancel_inv m → cancel_inv (ClearTimeout m e).
Proof. intros H. unfold ClearTimeout. case_match; [by apply timers_inv|done]. Qed.

Lemma handling_inv m h n evs :
  cancel_inv m → (∀ e, CancelSignal e ∉ evs) → cancel_inv (set_handling m h n evs).
Proof. intros H He. by apply (cancel_inv_frame m). Qed.

Lemma fire_inv m t now err m' : cancel_inv m → fire m t now err = Some m' → cancel_inv m'.
Proof.
  intros H. unfold fire. destruct (cmTimers m !! t) as [[d [e n|e]]|]; [| |done]; case_bool_decide; try done.
  - simpl. destruct (cmTimeouts m !! e); intros [= <-].
    + apply handling_inv; [by apply timers_inv|apply (cn_signal _ H)].
    + by apply timers_inv.
  - intros [= <-]. apply handling_inv; [by apply timers_inv|].
    intros e'. apply published_signal; [apply (cn_signal _ H)|done].
Qed.

Lemma handleTimeout_inv m i now errs m' : cancel_inv m → handleTimeout m i now errs = Some m' → cancel_inv m'.
Proof.
  intros H. unfold handleTimeout. destruct (cmHandling m !! i) as [[[[e n] ctx] stage]|]; [|done].
  destruct stage; intros [= <-].
  - apply handling_inv; [done|apply (cn_signal _ H)].
  - apply handling_inv; [done|apply (cn_signal _ H)].
  - set (m2 := if epAutoCancel _ then _ else _).
    assert (cancel_inv m2) as H2 by (unfold m2; case_match; [by apply CancelExecution_inv|done]).
    apply handling_inv; [done|apply (cn_signal _ H2)].
  - apply handling_inv; [done|]. intros e'. apply published_signal; [|done].
    intros e''. case_match; [|apply (cn_signal _ H)]. by apply published_signal; [apply (cn_signal _ H)|].
Qed.

Lemma Stop_inv m ord : cancel_inv m → cancel_inv (Stop m ord).
Proof.
  intros H. apply handling_inv; [done|]. intros e [He|He]%elem_of_app; [by eapply (cn_signal _ H)|].
  apply list_elem_of_omap in He as (k & _ & Hk).
  destruct (cmCancellations m !! k) as [p|]; simpl in Hk; [|done].
  destruct (cmContexts m !! p) as [[c ph]|] eqn:Hp; [|done].
  pose proof (cn_ctx _ H p _ Hp) as [Hf _]. by rewrite Hf in Hk.
Qed.

Lemma cancel_step_inv m m' : step m m' → cancel_inv m → cancel_inv m'.
Proof.
  destruct 1 as [m e config now|m m' H]; intros Hi.
  { destruct (SetTimeout_frame m e config now) as (ctx & ts & n & ->). by apply timers_inv. }
  destruct H; eauto using CancelExecution_inv, ClearTimeout_inv, fire_inv, handleTimeout_inv, Stop_inv, cancel_turn_inv.
  apply (cancel_inv_frame m); [done..|apply delete_subseteq|done|done|done|apply (cn_signal _ Hi)].
Qed.

Lemma cancel_reachable_inv m : rtc step NewManager m → cancel_inv m.
Proof.
  intros H. eapply rtc_preserve; [apply cancel_step_inv|exact H|].
  constructor; simpl; [apply map_Forall_empty| | |done|by unfold counted| |done|by intros e ?%elem_of_nil].
  - intros p [x Hx]. by rewrite lookup_empty in Hx.
  - intros e p Hp. by rewrite lookup_empty in Hp.
  - intros p c b seen Hp. by rewrite lookup_empty in Hp.
Qed.

Lemma finished_counts m : cancel_inv m → all_finished m → counted m = cmTotal m.
Proof.
  intros H Hf. rewrite (cn_total _ H), <-total_one. unfold counted. f_equal.
  rewrite <-(total_sum has_counted (λ _, 0) (λ _, 1)).
  - assert (∀ ts : gmap nat (CancellationContext * Phase), total (λ _, 0) ts = 0) as ->; [|lia].
    intros ts. induction ts as [|p x ts Hp IH] using map_ind; [done|]. by rewrite total_insert_new.
  - intros p [c ph] Hp. pose proof (Hf p _ Hp) as E. simpl in E. by subst ph.
Qed.
Lemma turn_total m m' : rtc turn m m' → cmTotal m' = cmTotal m.
Proof.
  induction 1 as [|m m1 m2 Ht _ IH]; [done|]. rewrite IH. destruct Ht as [env p m m1 Ht].
  unfold performCancellation in Ht. repeat case_match; by simplify_eq/=.
Qed.

(** C31. For every interleaving of cancellation requests, timeouts, events and
    goroutines, with any failures of the bus: the status of a cancellation fits
    where its goroutine is, it is completed only with the clean-up done and the
    completion time set, every map entry is a cancellation of that execution, the
    total is the number of contexts created, and none fails.  Its goroutines
    terminate, and whenever they have run to an end every cancellation requested
    has been completed.  The counter of successes is then at least one, if there was
    a cancellation, and at most their number: it is incremented without the lock, so
    that increments can get lost. *)
Theorem cancellation_correct m :
  rtc step NewManager m →
  cancel_inv m ∧ well_founded (flip turn)
  ∧ (∀ m', rtc turn m m' → (∀ m'', ¬ turn m' m'') →
       (∀ p c ph, cmContexts m' !! p = Some (c, ph) →
          ccStatus c = CancellationStatusCompleted ∧ is_Some (ccCompletedAt c) ∧ ccResourcesCleaned c = true)
       ∧ cmTotal m' = cmTotal m ∧ cmTotal m' = Z.of_nat (size (cmContexts m'))
       ∧ (Z.min 1 (cmTotal m') ≤ cmSuccessful m' ≤ cmTotal m')%Z)
  ∧ ∃ m', rtc turn m m' ∧ all_finished m'.
Proof.
  intros H%cancel_reachable_inv. split; [done|]. split; [apply cancel_turn_wf|]. split; [|apply turns_finish].
  intros m' Hr Hstuck. assert (cancel_inv m') as H' by by eapply rtc_preserve; [apply cancel_turn_inv|exact Hr|].
  assert (all_finished m') as Hf by (destruct (finished_or_turn m') as [?|[m'' Ht]]; [done|by apply Hstuck in Ht]).
  split_and!; [|by apply turn_total|apply H'|rewrite <- finished_counts by done; apply H'..].
  intros p c ph Hp. pose proof (Hf p _ Hp) as E. simpl in E. subst ph. by destruct (cn_ctx _ H' p _ Hp).
Qed.

(** ** Timeouts *)

(** Timers already armed stay armed while others are. *)
Lemma arm_nodes_keeps nodes m now e :
  let m' := (arm_nodes m now e nodes).2 in
  cmNextTimer m ≤ cmNextTimer m' ∧ ∀ t, t < cmNextTimer m → cmTimers m' !! t = cmTimers m !! t.
Proof.
  revert m. induction nodes as [|[n d] nodes IH]; intros m; simpl; [done|].
  specialize (IH (after_func m now d (HandleTimeout e n)).2). simpl in IH.
  destruct (arm_nodes _ now e nodes) as [ts m1]. simpl in IH |- *. destruct IH as [IH1 IH2].
  split; [lia|]. intros t Ht. rewrite IH2 by lia. by rewrite lookup_insert_ne by lia.
Qed.

Lemma arm_nodes_arms nodes m now e n d :
  (n, d) ∈ nodes →
  ∃ t, t < cmNextTimer (arm_nodes m now e nodes).2
       ∧ cmTimers (arm_nodes m now e nodes).2 !! t = Some ((now + d)%Z, HandleTimeout e n).
Proof.
  revert m. induction nodes as [|[n' d'] nodes IH]; intros m; [by intros ?%elem_of_nil|].
  intros [[= <- <-]|Hin]%elem_of_cons; simpl.
  - pose proof (arm_nodes_keeps nodes (after_func m now d (HandleTimeout e n)).2 now e) as [H1 H2]. simpl in H1, H2.
    destruct (arm_nodes _ now e nodes) as [ts m1]. simpl in *. exists (cmNextTimer m). split; [lia|].
    rewrite H2 by lia. by rewrite lookup_insert_eq.
  - specialize (IH (after_func m now d' (HandleTimeout e n')).2 Hin). simpl in IH.
    by destruct (arm_nodes _ now e nodes) as [ts m1].
Qed.

(** The timers of [SetTimeout] before the warning's. *)
Lemma SetTimeout_arms m e config now t d cb :
  ((0 < tcGlobalTimeout config)%Z ∧ d = tcGlobalTimeout config ∧ cb = HandleTimeout e "" ∧ t = cmNextTimer m
   ∨ ∃ m0 n, tcNodeTimeouts config !! n = Some d ∧ cb = HandleTimeout e n
             ∧ t < cmNextTimer (arm_nodes m0 now e (map_to_list (tcNodeTimeouts config))).2
             ∧ cmTimers (arm_nodes m0 now e (map_to_list (tcNodeTimeouts config))).2 !! t = Some ((now + d)%Z, cb)
             ∧ m0 = if bool_decide (0 < tcGlobalTimeout config)%Z
                    then (after_func m now (tcGlobalTimeout config) (HandleTimeout e "")).2 else m) →
  cmTimers (SetTimeout m e config now) !! t = Some ((now + d)%Z, cb).
Proof.
  unfold SetTimeout. intros H.
  set (m0 := if bool_decide (0 < tcGlobalTimeout config)%Z
             then (after_func m now (tcGlobalTimeout config) (HandleTimeout e "")).2 else m) in *.
  assert (∃ timer, (if bool_decide (0 < tcGlobalTimeout config)%Z
             then let '(t, m) := after_func m now (tcGlobalTimeout config) (HandleTimeout e "") in (Some t, m)
             else (None, m)) = (timer, m0)) as [timer ->] by (unfold m0; case_bool_decide; by eexists).
  pose proof (arm_nodes_keeps (map_to_list (tcNodeTimeouts config)) m0 now e) as [Hn Hk].
  assert (t < cmNextTimer (arm_nodes m0 now e (map_to_list (tcNodeTimeouts config))).2
    ∧ cmTimers (arm_nodes m0 now e (map_to_list (tcNodeTimeouts config))).2 !! t = Some ((now + d)%Z, cb)) as [Ht Hl].
  { destruct H as [(Hg & -> & -> & ->)|(m1 & n & _ & -> & H1 & H2 & ->)]; [|done].
    unfold m0 in *. rewrite bool_decide_true in * by done. simpl in *. split; [lia|].
    rewrite Hk by lia. by rewrite lookup_insert_eq. }
  destruct (arm_nodes m0 now e _) as [ts m1]. simpl in *. case_match; simpl; [|done].
  by rewrite lookup_insert_ne by lia.
Qed.

Definition about_timeout (e : string) (ev : CancelEvent) : bool :=
  match ev with
  | EvTimeout e' _ _ | EvTimeoutRetry e' _ => bool_decide (e' = e)
  | _ => false
  end.
Definition timeout_events (e : string) (m : Manager) : list CancelEvent :=
  List.filter (about_timeout e) (cmEvents m).

(** No timeout of [e] is set or being handled. *)
Definition quiet (e : string) (m : Manager) : Prop :=
  cmTimeouts m !! e = None ∧ ∀ n ctx st, (e, n, ctx, st) ∉ cmHandling m.

Definition quiet_step (e : string) (m m' : Manager) : Prop :=
  other_step m m' ∨ ∃ e' config now, e' ≠ e ∧ m' = SetTimeout m e' config now.

Lemma published_quiet e evs ev err :
  about_timeout e ev = false → List.filter (about_timeout e) (published evs ev err) = List.filter (about_timeout e) evs.
Proof.
  intros H. unfold published. destruct err; [done|]. rewrite List.filter_app. simpl. rewrite H. apply app_nil_r.
Qed.

Lemma quiet_same e m m' :
  quiet e m → cmTimeouts m' !! e = cmTimeouts m !! e → cmHandling m' = cmHandling m →
  timeout_events e m' = timeout_events e m → quiet e m' ∧ timeout_events e m' = timeout_events e m.
Proof. intros [H1 H2] E1 E2 E3. split; [|done]. split; [by rewrite E1|by rewrite E2]. Qed.

Lemma CancelExecution_same m e config now :
  let m' := (CancelExecution m e config now).2 in
  cmTimeouts m' = cmTimeouts m ∧ cmHandling m' = cmHandling m ∧ cmEvents m' = cmEvents m.
Proof. unfold CancelExecution. by repeat case_match. Qed.

Lemma quiet_cancel e m e' config now :
  quiet e m → quiet e (CancelExecution m e' config now).2
  ∧ timeout_events e (CancelExecution m e' config now).2 = timeout_events e m.
Proof.
  intros H. destruct (CancelExecution_same m e' config now) as (E1 & E2 & E3).
  apply quiet_same; [done|by rewrite E1|done|]. unfold timeout_events. by rewrite E3.
Qed.

Lemma clear_timeouts m e e' :
  cmTimeouts m !! e = None → cmTimeouts (ClearTimeout m e') !! e = None.
Proof.
  intros H. unfold ClearTimeout. case_match; [|done]. simpl. apply lookup_delete_None. by right.
Qed.

Lemma clear_same m e : cmHandling (ClearTimeout m e) = cmHandling m ∧ cmEvents (ClearTimeout m e) = cmEvents m.
Proof. unfold ClearTimeout. by case_match. Qed.

Lemma quiet_clear e m e' :
  quiet e m → quiet e (ClearTimeout m e') ∧ timeout_events e (ClearTimeout m e') = timeout_events e m.
Proof.
  intros H. destruct (clear_same m e') as [E1 E2]. apply quiet_same; [done| |done|].
  - destruct H as [H _]. by rewrite H, clear_timeouts.
  - unfold timeout_events. by rewrite E2.
Qed.

Lemma quiet_fire e m t now err m' :
  quiet e m → fire m t now err = Some m' → quiet e m' ∧ timeout_events e m' = timeout_events e m.
Proof.
  intros Hq. unfold fire. destruct (cmTimers m !! t) as [[d [e' n|e']]|]; [| |done]; case_bool_decide; try done; simpl.
  - destruct (cmTimeouts m !! e') as [ctx|] eqn:E; intros [= <-]; [|by apply quiet_same].
    split; [|done]. destruct Hq as [H1 H2]. split; [done|]. simpl.
    intros n' ctx' st [Hin|[= <- <- <- _]%list_elem_of_singleton]%elem_of_app; [by eapply H2|congruence].
  - intros [= <-]. apply quiet_same; [done..|]. unfold timeout_events. simpl. by apply published_quiet.
Qed.

Lemma quiet_handle e m i now errs m' :
  quiet e m → handleTimeout m i now errs = Some m' → quiet e m' ∧ timeout_events e m' = timeout_events e m.
Proof.
  intros Hq. unfold handleTimeout. destruct (cmHandling m !! i) as [[[[e' n] ctx] stage]|] eqn:E; [|done].
  assert (e' ≠ e) as Hne.
  { intros ->. apply list_elem_of_lookup_2 in E. destruct Hq as [_ Hq]. by apply Hq in E. }
  assert (∀ m1 stage' k, quiet e m1 → quiet e (set_handling m1 (<[i := (e', n, ctx, stage')]> (cmHandling m1)) k (cmEvents m1))) as Hgo.
  { intros m1 stage' k [H1 H2]. split; [done|]. simpl. intros n' ctx' st Hin. apply list_elem_of_lookup in Hin as [j Hj].
    apply list_lookup_insert_Some in Hj as [(_ & [= <- <- <- <-] & _)|[_ Hj]]; [done|]. apply list_elem_of_lookup_2 in Hj. by apply H2 in Hj. }
  destruct stage; intros [= <-].
  - split; [by apply Hgo|done].
  - split; [by apply Hgo|done].
  - destruct (epAutoCancel _); [|split; [by apply Hgo|done]].
    destruct (quiet_cancel e m e' timeout_config now Hq) as [Hq' <-]. split; [by apply Hgo|done].
  - split.
    + destruct Hq as [? Hq]. split; [done|]. simpl. intros n' ctx' st Hin. apply (Hq n' ctx' st).
      rewrite elem_of_app in Hin. destruct Hin as [Hin|Hin]; [by eapply subseteq_take|by eapply subseteq_drop].
    + unfold timeout_events. simpl. rewrite published_quiet by (simpl; by rewrite bool_decide_false).
      case_match; [|done]. by rewrite published_quiet by (simpl; by rewrite bool_decide_false).
Qed.

Lemma quiet_turn e m m' : quiet e m → turn m m' → quiet e m' ∧ timeout_events e m' = timeout_events e m.
Proof.
  intros Hq Ht. revert Hq. destruct Ht as [env p m m' H]. intros Hq. revert H. unfold performCancellation.
  destruct (cmContexts m !! p) as [[c []]|]; intros H; simplify_eq/=; apply quiet_same; try done;
    unfold timeout_events; simpl.
  - destruct (ccCancelFunc c); [|done]. by rewrite List.filter_app, app_nil_r.
  - by rewrite !published_quiet.
Qed.

Lemma filter_signals e l :
  (∀ ev, ev ∈ l → ∃ e', ev = CancelSignal e') → List.filter (about_timeout e) l = [].
Proof.
  induction l as [|ev l IH]; intros H; simpl; [done|].
  destruct (H ev) as [e' ->]; [left|]. apply IH. intros ev Hev. apply H. by right.
Qed.

Lemma quiet_preserved e m m' :
  quiet_step e m m' → quiet e m → quiet e m' ∧ timeout_events e m' = timeout_events e m.
Proof.
  intros [H|(e' & config & now & Hne & ->)].
  - destruct H; intros Hq; eauto using quiet_cancel, quiet_fire, quiet_handle, quiet_turn.
    + by apply quiet_clear.
    + apply quiet_same; [done..|]. unfold timeout_events. simpl. rewrite List.filter_app.
      rewrite (filter_signals e (omap _ _)); [apply app_nil_r|].
      intros ev (k & _ & Hk)%list_elem_of_omap. repeat case_match; simplify_eq/=; eauto.
  - intros Hq. destruct (SetTimeout_frame m e' config now) as (ctx & ts & n & ->).
    apply quiet_same; [done| |done|done]. simpl. by rewrite lookup_insert_ne.
Qed.

Lemma insert_last {A} (l : list A) x y : <[length l := y]> (l ++ [x]) = l ++ [y].
Proof. by rewrite insert_app_r_alt, Nat.sub_diag by lia. Qed.

(** [k] turns of a call, with nothing in between and no failures. *)
Fixpoint handling_turns (m : Manager) (i : nat) (now : Z) (k : nat) : option Manager :=
  match k with O => Some m | S k => handleTimeout m i now (None, None) ≫= λ m, handling_turns m i now k end.

Lemma handling_turn m l e n ctx st now :
  cmHandling m = l ++ [(e, n, ctx, st)] →
  let on m st k := set_handling m (l ++ [(e, n, ctx, st)]) k (cmEvents m) in
  handleTimeout m (length l) now (None, None)
  = Some match st with
         | HandlingCount => on m (HandlingStore (cmTotalTimeouts m)) (cmTotalTimeouts m)
         | HandlingStore seen => on m HandlingCancel (seen + 1)%Z
         | HandlingCancel =>
             let m := if epAutoCancel (toEscalationPolicy ctx) then (CancelExecution m e timeout_config now).2 else m in
             on m HandlingPublish (cmTotalTimeouts m)
         | HandlingPublish =>
             set_handling m l (cmTotalTimeouts m)
               ((if epRetryOnTimeout (toEscalationPolicy ctx) then cmEvents m ++ [EvTimeoutRetry e n] else cmEvents m)
                ++ [EvTimeout e n (toGlobalTimeout ctx)])
         end.
Proof.
  intros E. unfold handleTimeout. rewrite E, list_lookup_middle by done. destruct st; simpl; rewrite ?insert_last; try done.
  - assert (cmHandling (if epAutoCancel (toEscalationPolicy ctx) then (CancelExecution m e timeout_config now).2 else m)
            = l ++ [(e, n, ctx, HandlingCancel)]) as ->; [|by rewrite insert_last].
    destruct (epAutoCancel _); [|done]. by destruct (CancelExecution_same m e timeout_config now) as (_ & -> & _).
  - rewrite take_app_length, drop_ge by (rewrite length_app; simpl; lia). rewrite app_nil_r. done.
Qed.

(** SetTimeout arms the execution's timer and one timer per node at their
    deadlines; when such a timer fires for an execution with the automatic
    cancellation configured and none recorded, a forced cancellation is created
    and recorded and the timeout is counted and published.  After
    ClearTimeout, unless a timeout of the execution is already being handled,
    no run without a new SetTimeout for it handles one of its timers: no
    timeout and no retry of it is published, whatever timers of replaced
    contexts still fire. *)
Lemma timeout_correct m e :
  (∀ config now,
     ((0 < tcGlobalTimeout config)%Z →
      ∃ t, cmTimers (SetTimeout m e config now) !! t
           = Some ((now + tcGlobalTimeout config)%Z, HandleTimeout e ""))
     ∧ ∀ n d, tcNodeTimeouts config !! n = Some d →
       ∃ t, cmTimers (SetTimeout m e config now) !! t = Some ((now + d)%Z, HandleTimeout e n))
  ∧ (∀ t n d ctx now,
       cmTimers m !! t = Some (d, HandleTimeout e n) → (d ≤ now)%Z → cmTimeouts m !! e = Some ctx →
       epAutoCancel (toEscalationPolicy ctx) = true → cmCancellations m !! e = None →
       ∃ m1 m2 c, fire m t now None = Some m1
         ∧ handling_turns m1 (length (cmHandling m)) now 4 = Some m2
         ∧ GetCancellationStatus m2 e = Ok c
         ∧ ccForceCancel c = true ∧ ccStatus c = CancellationStatusPending
         ∧ cmTotalTimeouts m2 = (cmTotalTimeouts m + 1)%Z
         ∧ EvTimeout e n (toGlobalTimeout ctx) ∈ cmEvents m2)
  ∧ ((∀ n ctx st, (e, n, ctx, st) ∉ cmHandling m) →
     ∀ m', rtc (quiet_step e) (ClearTimeout m e) m' →
       cmTimeouts m' !! e = None ∧ timeout_events e m' = timeout_events e m).
Proof.
  split_and!.
  - intros config now. split.
    + intros Hg. exists (cmNextTimer m). apply SetTimeout_arms. left. done.
    + intros n d Hd. apply elem_of_map_to_list in Hd as Hin.
      set (m0 := if bool_decide (0 < tcGlobalTimeout config)%Z
                 then (after_func m now (tcGlobalTimeout config) (HandleTimeout e "")).2 else m).
      destruct (arm_nodes_arms _ m0 now e n d Hin) as (t & Ht & Hl).
      exists t. apply SetTimeout_arms. right. by exists m0, n.
  - intros t n d ctx now Ht Hd Hctx Hauto Hnone. unfold fire. rewrite Ht.
    rewrite bool_decide_false by lia. simpl. rewrite Hctx. do 3 eexists. split; [done|].
    simpl. do 4 (erewrite handling_turn by reflexivity; simpl). rewrite Hauto.
    unfold CancelExecution. simpl. rewrite Hnone, !bool_decide_false by done. simpl. split; [done|].
    unfold GetCancellationStatus. simpl. rewrite lookup_insert_eq. simpl. rewrite lookup_insert_eq.
    split_and!; [done..|]. apply elem_of_app. right. by left.
  - intros Hh m' Hrun. assert (quiet e (ClearTimeout m e)) as Hq.
    { destruct (clear_same m e) as [E _]. split; [|by rewrite E].
      unfold ClearTimeout. case_match; [|done]. apply lookup_delete_eq. }
    destruct (clear_same m e) as [_ Ee].
    assert (timeout_events e m = timeout_events e (ClearTimeout m e)) as -> by (unfold timeout_events; by rewrite Ee).
    clear Ee Hh. revert Hq Hrun. generalize (ClearTimeout m e) as m0. intros m0 Hq Hrun.
    induction Hrun as [m1|m1 m2 m3 Hs _ IH]; [by destruct Hq|].
    destruct (quiet_preserved e m1 m2 Hs Hq) as [Hq2 E2]. rewrite <-E2. by apply IH.
Qed.

(** Setting a timeout again leaves the first timer running: it can cancel the
    execution at the old deadline. *)
Definition ex_policy : TimeoutEscalationPolicy :=
  {| epWarnThreshold := f64_of_Z 0; epCriticalThreshold := f64_of_Z 0; epAutoCancel := true;
     epRetryOnTimeout := false |}.
Definition ex_timeout (global : Z) : TimeoutConfig :=
  {| tcGlobalTimeout := global; tcNodeTimeouts := ∅; tcEscalationPolicy := ex_policy |}.
Definition ex_twice : Manager := SetTimeout (SetTimeout NewManager "e" (ex_timeout 10) 0) "e" (ex_timeout 100) 0.

Lemma replaced_timer_fires :
  toTimer <$> cmTimeouts ex_twice !! "e" = Some (Some 1)
  ∧ option_map cmHandling (fire ex_twice 0 10 None) ≠ Some [].
Proof. split; vm_compute; [reflexivity|discriminate]. Qed.

(** Two cancellations that end at the same time count as one. *)
Definition cancel_turns (m : Manager) (ps : list nat) : Manager :=
  foldl (λ m p, default m (performCancellation default_env p m)) m ps.
Lemma cancellation_count_lost :
  let m := (CancelExecution (CancelExecution NewManager "e" timeout_config 5).2 "f" timeout_config 5).2 in
  let m := cancel_turns m [0; 0; 0; 1; 1; 1; 0; 1; 0; 1] in
  (λ x, (ccStatus x.1, x.2)) <$> cmContexts m = <[0 := (CancellationStatusCompleted, Finished)]> {[1 := (CancellationStatusCompleted, Finished)]}
  ∧ GetMetrics m = (2%Z, 1%Z, 0%Z, 0%Z, 2, 0).
Proof. split; vm_compute; reflexivity. Qed.

(** ** Concrete runs *)

Definition ex_cancelling : Manager :=
  (CancelExecution NewManager "e" timeout_config 5).2.

Lemma cancellation_correct_witness :
  GetMetrics ex_cancelling = (1%Z, 0%Z, 0%Z, 0%Z, 1, 0) ∧ cancel_inv ex_cancelling.
Proof.
  split; [vm_compute; reflexivity|]. apply cancellation_correct. apply rtc_once, step_other, step_cancel.
Defined.

Lemma timeout_correct_witness :
  ∃ m1 m2 c, fire ex_twice 1 100 None = Some m1 ∧ handling_turns m1 0 100 4 = Some m2
             ∧ GetCancellationStatus m2 "e" = Ok c ∧ ccForceCancel c = true.
Proof.
  destruct (timeout_correct ex_twice "e") as (_ & H & _).
  destruct (H 1 "" 100%Z {| toExecutionID := "e"; toGlobalTimeout := 100; toTimer := Some 1;
                            toNodeTimers := []; toEscalationPolicy := ex_policy; toStartedAt := 0 |} 100%Z)
    as (m1 & m2 & c & H1 & H2 & H3 & H4 & _); [vm_compute; reflexivity|lia|vm_compute; reflexivity|reflexivity|reflexivity|].
  exists m1, m2, c. split; [exact H1|]. split; [exact H2|]. split; [exact H3|exact H4].
Defined.
