(* ===== verification/ErrorHandler.v ===== *)
(** internal/execution/app/error/handler.go: classification of execution errors
    and their handling by registered handlers.  An error is its message. *)

From S2P Require Import Prelude GoValue GoLib Retry.

(** ** Codes and severities *)

Definition ErrorCodeTimeout : string := "TIMEOUT".
Definition ErrorCodeNodeFailed : string := "NODE_FAILED".
Definition ErrorCodeInvalidInput : string := "INVALID_INPUT".
Definition ErrorCodeResourceNotFound : string := "RESOURCE_NOT_FOUND".
Definition ErrorCodePermissionDenied : string := "PERMISSION_DENIED".
Definition ErrorCodeRateLimited : string := "RATE_LIMITED".
Definition ErrorCodeServiceUnavailable : string := "SERVICE_UNAVAILABLE".
Definition ErrorCodeNetworkError : string := "NETWORK_ERROR".
Definition ErrorCodeScriptError : string := "SCRIPT_ERROR".
Definition ErrorCodeDatabaseError : string := "DATABASE_ERROR".
Definition ErrorCodeAPIError : string := "API_ERROR".
Definition ErrorCodeUnknown : string := "UNKNOWN".

Definition SeverityLow : string := "low".
Definition SeverityMedium : string := "medium".
Definition SeverityHigh : string := "high".
Definition SeverityCritical : string := "critical".

Record ExecutionError := {
  eeCode : string;
  eeMessage : string;
  eeNodeID : string;
  eeExecutionID : string;
  eeWorkflowID : string;
  eeCause : option string;
  eeDetails : vmap;
  eeRetryable : bool;
  eeSeverity : string
}.

(** ** Classification *)

(** The code of the first pattern the message contains. *)
Fixpoint first_match (msg : string) (cases : list (string * string)) (otherwise : string) : string :=
  match cases with
  | [] => otherwise
  | (pattern, code) :: cases' => if contains msg pattern then code else first_match msg cases' otherwise
  end.

Definition code_patterns : list (string * string) :=
  [("timeout", ErrorCodeTimeout); ("rate limit", ErrorCodeRateLimited);
   ("permission denied", ErrorCodePermissionDenied); ("not found", ErrorCodeResourceNotFound);
   ("invalid", ErrorCodeInvalidInput); ("network", ErrorCodeNetworkError);
   ("database", ErrorCodeDatabaseError); ("api", ErrorCodeAPIError); ("script", ErrorCodeScriptError);
   ("service unavailable", ErrorCodeServiceUnavailable)].

Definition classifyError (err : option string) : string :=
  match err with
  | None => ErrorCodeUnknown
  | Some msg => first_match (to_lower msg) code_patterns ErrorCodeUnknown
  end.

Definition determineSeverity (code : string) : string :=
  if bool_decide (code = ErrorCodeTimeout ∨ code = ErrorCodeRateLimited) then SeverityLow
  else if bool_decide (code = ErrorCodeInvalidInput ∨ code = ErrorCodeResourceNotFound) then SeverityMedium
  else if bool_decide (code = ErrorCodePermissionDenied ∨ code = ErrorCodeScriptError) then SeverityHigh
  else if bool_decide (code = ErrorCodeServiceUnavailable ∨ code = ErrorCodeDatabaseError) then SeverityCritical
  else SeverityMedium.

(** [DefaultErrorClassifier]. *)
Definition retryablePatterns : list string :=
  ["timeout"; "rate limit"; "temporary"; "unavailable"; "connection refused"; "network"; "deadlock"].
Definition nonRetryablePatterns : list string :=
  ["invalid"; "permission denied"; "not found"; "unauthorized"; "bad request"; "syntax error"].

Definition Classifier_IsRetryable (err : option string) : bool :=
  match err with
  | None => false
  | Some msg =>
      let errMsg := to_lower msg in
      if existsb (contains errMsg) retryablePatterns then true
      else if existsb (contains errMsg) nonRetryablePatterns then false
      else true
  end.

Definition Classifier_GetErrorType (err : option string) : string :=
  match err with
  | None => ErrorTypeUnknown
  | Some msg =>
      first_match (to_lower msg)
        [("timeout", ErrorTypeTimeout); ("rate limit", ErrorTypeRateLimit); ("network", ErrorTypeNetworkError);
         ("service", ErrorTypeServiceError); ("temporary", ErrorTypeTransient)] ErrorTypeUnknown
  end.

Definition Classifier_GetRetryStrategy (err : option string) : Strategy :=
  let errorType := Classifier_GetErrorType err in
  if bool_decide (errorType = ErrorTypeRateLimit)
  then NewExponentialBackoffStrategy 5 (sec 1) (sec 60) (f64_of_Z 2)
  else if bool_decide (errorType = ErrorTypeTimeout) then NewLinearBackoffStrategy 3 (sec 5)
  else if bool_decide (errorType = ErrorTypeTransient) then NewRandomJitterStrategy 3 (sec 1) (sec 10)
  else NewFixedDelayStrategy 3 (sec 2).

(** ** The handler *)

(** The interface ErrorHandler. *)
Record ErrorHandler := {
  ehHandle : ExecutionError → option string;
  ehCanHandle : ExecutionError → bool
}.

(** The five handlers of the package: each accepts its code and only logs. *)
Definition code_handler (code : string) : ErrorHandler :=
  {| ehHandle := λ _, None; ehCanHandle := λ err, bool_decide (eeCode err = code) |}.
Definition TimeoutErrorHandler := code_handler ErrorCodeTimeout.
Definition RateLimitErrorHandler := code_handler ErrorCodeRateLimited.
Definition ServiceErrorHandler := code_handler ErrorCodeServiceUnavailable.
Definition ScriptErrorHandler := code_handler ErrorCodeScriptError.
Definition DatabaseErrorHandler := code_handler ErrorCodeDatabaseError.

Inductive ErrorEvent :=
  | EvErrorWorkflow (workflowID : string) (err : ExecutionError)
  | EvExecutionError (err : ExecutionError).

Record Handler := {
  hnErrorHandlers : gmap string ErrorHandler;
  hnErrorWorkflows : gmap string string;
  hnTotal : Z;
  hnHandled : Z;
  hnUnhandled : Z;
  hnEvents : list ErrorEvent
}.

Definition RegisterHandler (h : Handler) (code : string) (handler : ErrorHandler) : Handler :=
  {| hnErrorHandlers := <[code := handler]> (hnErrorHandlers h); hnErrorWorkflows := hnErrorWorkflows h;
     hnTotal := hnTotal h; hnHandled := hnHandled h; hnUnhandled := hnUnhandled h; hnEvents := hnEvents h |}.

Definition RegisterErrorWorkflow (h : Handler) (code workflowID : string) : Handler :=
  {| hnErrorHandlers := hnErrorHandlers h; hnErrorWorkflows := <[code := workflowID]> (hnErrorWorkflows h);
     hnTotal := hnTotal h; hnHandled := hnHandled h; hnUnhandled := hnUnhandled h; hnEvents := hnEvents h |}.

Definition registerDefaultHandlers (h : Handler) : Handler :=
  let h := RegisterHandler h ErrorCodeTimeout TimeoutErrorHandler in
  let h := RegisterHandler h ErrorCodeRateLimited RateLimitErrorHandler in
  let h := RegisterHandler h ErrorCodeServiceUnavailable ServiceErrorHandler in
  let h := RegisterHandler h ErrorCodeScriptError ScriptErrorHandler in
  RegisterHandler h ErrorCodeDatabaseError DatabaseErrorHandler.

Definition NewHandler : Handler :=
  registerDefaultHandlers
    {| hnErrorHandlers := ∅; hnErrorWorkflows := ∅; hnTotal := 0; hnHandled := 0; hnUnhandled := 0;
       hnEvents := [] |}.

Definition set_metrics (h : Handler) (total handled unhandled : Z) : Handler :=
  {| hnErrorHandlers := hnErrorHandlers h; hnErrorWorkflows := hnErrorWorkflows h; hnTotal := total;
     hnHandled := handled; hnUnhandled := unhandled; hnEvents := hnEvents h |}.

(** Publishing: a failure of the bus is logged. *)
Definition publish (h : Handler) (e : ErrorEvent) (err : option string) : Handler :=
  match err with
  | Some _ => h
  | None => {| hnErrorHandlers := hnErrorHandlers h; hnErrorWorkflows := hnErrorWorkflows h;
               hnTotal := hnTotal h; hnHandled := hnHandled h; hnUnhandled := hnUnhandled h;
               hnEvents := hnEvents h ++ [e] |}
  end.

Definition getErrorWorkflow (h : Handler) (code : string) : string :=
  default "" (hnErrorWorkflows h !! code).

Definition classified (err : ExecutionError) : ExecutionError :=
  let code := classifyError (eeCause err) in
  {| eeCode := code; eeMessage := eeMessage err; eeNodeID := eeNodeID err; eeExecutionID := eeExecutionID err;
     eeWorkflowID := eeWorkflowID err; eeCause := eeCause err; eeDetails := eeDetails err;
     eeRetryable := Classifier_IsRetryable (eeCause err); eeSeverity := determineSeverity code |}.

(** [HandleError]; [errs] are the failures of the two events. *)
Definition HandleError (h : Handler) (err : ExecutionError) (errs : option string * option string) :
    option string * Handler :=
  let h := set_metrics h (hnTotal h + 1) (hnHandled h) (hnUnhandled h) in
  let err := classified err in
  let finish h :=
    let workflowID := getErrorWorkflow h (eeCode err) in
    let h := if bool_decide (workflowID ≠ "") then publish h (EvErrorWorkflow workflowID err) errs.1 else h in
    (None, publish h (EvExecutionError err) errs.2) in
  match hnErrorHandlers h !! eeCode err with
  | Some handler =>
      if ehCanHandle handler err then
        let h := set_metrics h (hnTotal h) (hnHandled h + 1) (hnUnhandled h) in
        match ehHandle handler err with
        | Some e => (Some e, h)
        | None => finish h
        end
      else finish (set_metrics h (hnTotal h) (hnHandled h) (hnUnhandled h + 1))
  | None => finish (set_metrics h (hnTotal h) (hnHandled h) (hnUnhandled h + 1))
  end.

Definition handleExecutionFailed (h : Handler) (aggregateID : string) (payload : vmap)
    (errs : option string * option string) : option string * Handler :=
  let errMsg := default "" (get_string payload "error") in
  HandleError h {| eeCode := ""; eeMessage := errMsg; eeNodeID := ""; eeExecutionID := aggregateID;
                   eeWorkflowID := ""; eeCause := Some errMsg; eeDetails := ∅; eeRetryable := false;
                   eeSeverity := "" |} errs.

Definition GetMetrics (h : Handler) : Z * Z * Z := (hnTotal h, hnHandled h, hnUnhandled h).

(** ** Classification is consistent *)

Lemma contains_trans s t u : contains s t = true → contains t u = true → contains s u = true.
Proof.
  rewrite !contains_spec. intros (a & b & ->) (c & d & ->).
  exists (a +:+ c), (d +:+ b). by rewrite !string_app_assoc.
Qed.

Lemma retryable_pattern msg p :
  contains (to_lower msg) p = true → p ∈ retryablePatterns → Classifier_IsRetryable (Some msg) = true.
Proof.
  intros Hc Hp. unfold Classifier_IsRetryable.
  assert (existsb (contains (to_lower msg)) retryablePatterns = true) as ->; [|done].
  apply existsb_exists. exists p. split; [|done]. by apply list_elem_of_In.
Qed.

Lemma first_match_inv msg cases otherwise code :
  first_match msg cases otherwise = code → code ≠ otherwise →
  ∃ pattern, (pattern, code) ∈ cases ∧ contains msg pattern = true.
Proof.
  induction cases as [|[p c] cases IH]; simpl; [congruence|]. destruct (contains msg p) eqn:E.
  - intros -> _. exists p. split; [left|done].
  - intros H Hne. destruct (IH H Hne) as (q & Hq & ?). exists q. split; [by right|done].
Qed.

Lemma code_pattern msg code pattern :
  classifyError (Some msg) = code → code ≠ ErrorCodeUnknown →
  (∀ p, (p, code) ∈ code_patterns → p = pattern) → contains (to_lower msg) pattern = true.
Proof.
  intros H Hne Hu. apply first_match_inv in H as (p & Hp & Hc); [|done]. by rewrite <-(Hu p Hp).
Qed.

Ltac find_pattern := let p := fresh in let H := fresh in
  intros p H; unfold code_patterns in H; set_unfold; naive_solver.

(** The classifier's answers agree with one another: errors coded as
    timeouts, rate limits, network failures or unavailable services are
    retryable; timeouts and rate limits are exactly the errors of those retry
    types, so they are retried with linear and with exponential back-off; the
    two are of low severity; a nil error is unknown and never retried; and an
    error is refused a retry only if its message names a permanent failure. *)
Lemma error_classification msg :
  let code := classifyError (Some msg) in
  let type := Classifier_GetErrorType (Some msg) in
  (code ∈ [ErrorCodeTimeout; ErrorCodeRateLimited; ErrorCodeNetworkError; ErrorCodeServiceUnavailable] →
   Classifier_IsRetryable (Some msg) = true)
  ∧ (code = ErrorCodeTimeout ↔ type = ErrorTypeTimeout)
  ∧ (code = ErrorCodeRateLimited ↔ type = ErrorTypeRateLimit)
  ∧ (determineSeverity code = SeverityLow ↔ code = ErrorCodeTimeout ∨ code = ErrorCodeRateLimited)
  ∧ (Classifier_IsRetryable (Some msg) = false →
     ∃ p, p ∈ nonRetryablePatterns ∧ contains (to_lower msg) p = true)
  ∧ (classifyError None = ErrorCodeUnknown ∧ Classifier_IsRetryable None = false).
Proof.
  intros code type. split_and!; [|split|split|split| |done|done].
  - intros Hin. assert (∃ p, p ∈ retryablePatterns ∧ contains (to_lower msg) p = true) as (p & Hp & Hc).
    { set_unfold in Hin. destruct Hin as [H|[H|[H|[H|[]]]]].
      - exists "timeout". split; [left|]. eapply code_pattern; [exact H|done|find_pattern].
      - exists "rate limit". split; [by repeat constructor|]. eapply code_pattern; [exact H|done|find_pattern].
      - exists "network". split; [by repeat constructor|]. eapply code_pattern; [exact H|done|find_pattern].
      - exists "unavailable". split; [by repeat constructor|].
        apply (contains_trans _ "service unavailable"); [|done].
        eapply code_pattern; [exact H|done|find_pattern]. }
    by eapply retryable_pattern.
  - intros H. unfold type, Classifier_GetErrorType, first_match.
    by rewrite (code_pattern msg _ "timeout" H) by (done || find_pattern).
  - intros H. apply first_match_inv in H as (p & Hp & Hc); [|done]. set_unfold in Hp.
    assert (p = "timeout") as -> by naive_solver. unfold code, classifyError. simpl. by rewrite Hc.
  - intros H. unfold type, Classifier_GetErrorType, first_match.
    rewrite (code_pattern msg _ "rate limit" H) by (done || find_pattern).
    destruct (contains (to_lower msg) "timeout") eqn:E; [|done].
    unfold code, classifyError in H. simpl in H. by rewrite E in H.
  - intros H. unfold code, classifyError. unfold type, Classifier_GetErrorType in H. simpl in H |- *.
    destruct (contains (to_lower msg) "timeout"); [done|].
    destruct (contains (to_lower msg) "rate limit"); [done|]. repeat case_match; done.
  - unfold determineSeverity. repeat case_bool_decide; naive_solver.
  - unfold determineSeverity. intros H. by rewrite bool_decide_true.
  - unfold Classifier_IsRetryable. case_match; [done|]. destruct (existsb _ nonRetryablePatterns) eqn:E; [|done].
    intros _. apply existsb_exists in E as (p & Hp & Hc). exists p. split; [by apply list_elem_of_In|done].
Qed.

(** ** Handling *)

Inductive handler_step : Handler → Handler → Prop :=
  | hs_register h code handler : handler_step h (RegisterHandler h code handler)
  | hs_workflow h code workflowID : handler_step h (RegisterErrorWorkflow h code workflowID)
  | hs_handle h err errs : handler_step h (HandleError h err errs).2
  | hs_failed h id payload errs : handler_step h (handleExecutionFailed h id payload errs).2.

(** The events a handled error publishes. *)
Definition handled_events (h : Handler) (err : ExecutionError) : list ErrorEvent :=
  let w := getErrorWorkflow h (eeCode (classified err)) in
  (if bool_decide (w ≠ "") then [EvErrorWorkflow w (classified err)] else [])
  ++ [EvExecutionError (classified err)].

(** The error of the registered handler, if one accepts the error and fails. *)
Definition handler_failure (h : Handler) (err : ExecutionError) : option string :=
  match hnErrorHandlers h !! eeCode (classified err) with
  | Some handler => if ehCanHandle handler (classified err) then ehHandle handler (classified err) else None
  | None => None
  end.
Definition accepted (h : Handler) (err : ExecutionError) : bool :=
  match hnErrorHandlers h !! eeCode (classified err) with
  | Some handler => ehCanHandle handler (classified err)
  | None => false
  end.

Lemma publish_metrics h e err : GetMetrics (publish h e err) = GetMetrics h.
Proof. by destruct err. Qed.

(** The two events after the handlers. *)
Lemma finish_spec (h : Handler) err (errs : option string * option string) :
  let w := getErrorWorkflow h (eeCode err) in
  let h' := publish (if bool_decide (w ≠ "") then publish h (EvErrorWorkflow w err) errs.1 else h)
                    (EvExecutionError err) errs.2 in
  GetMetrics h' = GetMetrics h
  ∧ (errs = (None, None) →
     hnEvents h' = hnEvents h ++ (if bool_decide (w ≠ "") then [EvErrorWorkflow w err] else [])
                   ++ [EvExecutionError err]).
Proof.
  intros w h'. split.
  - unfold h'. rewrite publish_metrics. case_bool_decide; [apply publish_metrics|done].
  - intros ->. unfold h'. case_bool_decide; simpl; [by rewrite <-app_assoc|done].
Qed.

Lemma HandleError_spec h err errs :
  let '(r, h') := HandleError h err errs in
  r = handler_failure h err
  ∧ GetMetrics h' = (hnTotal h + 1, hnHandled h + (if accepted h err then 1 else 0),
                     hnUnhandled h + (if accepted h err then 0 else 1))%Z
  ∧ (errs = (None, None) →
     hnEvents h' = hnEvents h ++ match r with Some _ => [] | None => handled_events h err end).
Proof.
  unfold HandleError, handler_failure, accepted, handled_events. cbn [hnErrorHandlers set_metrics].
  destruct (hnErrorHandlers h !! eeCode (classified err)) as [handler|].
  1: destruct (ehCanHandle handler (classified err)).
  1: destruct (ehHandle handler (classified err)) as [e|].
  1: { split; [done|]. split; [unfold GetMetrics; simpl; repeat f_equal; lia|]. intros _. by rewrite app_nil_r. }
  all: split; [done|].
  all: match goal with |- context [publish (if _ then publish ?h0 _ _ else _) _ _] =>
         destruct (finish_spec h0 (classified err) errs) as [Hm He] end.
  all: split; [cbn zeta in Hm; rewrite Hm; unfold GetMetrics; simpl; repeat f_equal; lia|exact He].
Qed.

Lemma metrics_step h h' :
  handler_step h h' → hnTotal h = (hnHandled h + hnUnhandled h)%Z → hnTotal h' = (hnHandled h' + hnUnhandled h')%Z.
Proof.
  assert (∀ h err errs, hnTotal h = (hnHandled h + hnUnhandled h)%Z →
    hnTotal (HandleError h err errs).2 = (hnHandled (HandleError h err errs).2 + hnUnhandled (HandleError h err errs).2)%Z) as HH.
  { intros h0 err errs H. pose proof (HandleError_spec h0 err errs) as HS.
    destruct (HandleError h0 err errs) as [r h1]. destruct HS as (_ & Hm & _). simpl.
    injection Hm as -> -> ->. destruct (accepted h0 err); lia. }
  destruct 1; intros E; [done|done|by apply HH|by apply HH].
Qed.

(** C37. For any handlers and error workflows registered: HandleError returns
    the error of the handler registered for the error's code if that accepts
    the error and fails, and then publishes nothing; otherwise it returns nil
    and, when the bus works, publishes the trigger of the workflow registered
    for the code, if any, and then the classified error.  In every run every
    error is counted once, as handled if its handler accepted it and as
    unhandled otherwise; with the default handlers alone none fails, and the
    accepted codes are the five registered ones. *)
Theorem error_handler_correct h :
  rtc handler_step NewHandler h →
  hnTotal h = (hnHandled h + hnUnhandled h)%Z
  ∧ (∀ err errs, let '(r, h') := HandleError h err errs in
       r = handler_failure h err
       ∧ GetMetrics h' = (hnTotal h + 1, hnHandled h + (if accepted h err then 1 else 0),
                          hnUnhandled h + (if accepted h err then 0 else 1))%Z
       ∧ (errs = (None, None) →
          hnEvents h' = hnEvents h ++ match r with Some _ => [] | None => handled_events h err end))
  ∧ (∀ err, handler_failure NewHandler err = None
            ∧ (accepted NewHandler err = true ↔
               classifyError (eeCause err) ∈ [ErrorCodeTimeout; ErrorCodeRateLimited; ErrorCodeServiceUnavailable;
                                              ErrorCodeScriptError; ErrorCodeDatabaseError])).
Proof.
  intros H. split.
  { eapply (rtc_preserve handler_step (λ h, hnTotal h = (hnHandled h + hnUnhandled h)%Z));
      [apply metrics_step|exact H|done]. }
  split; [intros; apply HandleError_spec|].
  intros err. unfold handler_failure, accepted. cbn [eeCode classified].
  assert (∀ code, hnErrorHandlers NewHandler !! code =
    if bool_decide (code ∈ [ErrorCodeTimeout; ErrorCodeRateLimited; ErrorCodeServiceUnavailable;
                            ErrorCodeScriptError; ErrorCodeDatabaseError])
    then Some (code_handler code) else None) as HL.
  { intros code. case_bool_decide as Hin; set_unfold in Hin.
    - destruct Hin as [->|[->|[->|[->|[->|[]]]]]]; reflexivity.
    - unfold NewHandler, registerDefaultHandlers, RegisterHandler. cbn [hnErrorHandlers].
      by rewrite !lookup_insert_ne by naive_solver. }
  rewrite HL. case_bool_decide as Hin; simpl; [|done].
  split; [by case_match|]. rewrite bool_decide_true by done. done.
Qed.

(** An invalid-input code does not mean that the error is permanent: a message
    that also names a transient failure is retried. *)
Lemma invalid_but_retryable :
  classifyError (Some "invalid network address") = ErrorCodeInvalidInput
  ∧ Classifier_IsRetryable (Some "invalid network address") = true.
Proof. split; vm_compute; reflexivity. Qed.

(** The patterns are tried in order: an unavailable service reported by an API
    client is coded as an API error, whose handler is not registered. *)
Lemma unavailable_api :
  classifyError (Some "api: service unavailable") = ErrorCodeAPIError.
Proof. vm_compute. reflexivity. Qed.

Lemma error_handler_correct_witness :
  let h := (handleExecutionFailed NewHandler "e" {["error" := VStr "Timeout while waiting"]} (None, None)).2 in
  GetMetrics h = (1%Z, 1%Z, 0%Z) ∧ hnTotal h = (hnHandled h + hnUnhandled h)%Z.
Proof.
  split; [vm_compute; reflexivity|]. apply error_handler_correct. apply rtc_once, hs_failed.
Defined.
