(* ===== verification/Base64.v ===== *)
(** encoding/base64: the standard encoding with padding.  Bytes are strings. *)

From S2P Require Import Prelude.
From Stdlib Require Import Ascii.

Definition std_alphabet : string := "ABCDEFGHIJKLMNOPQRSTUVWXYZabcdefghijklmnopqrstuvwxyz0123456789+/".
Definition std_digit (n : N) : ascii := default "A"%char (String.get (N.to_nat (n mod 64)) std_alphabet).
Fixpoint EncodeToString (s : string) : string :=
  match s with
  | "" => ""
  | String a "" => let n := (N_of_ascii a * 16)%N in String (std_digit (n / 64)) (String (std_digit n) "==")
  | String a (String b "") =>
      let n := ((N_of_ascii a * 256 + N_of_ascii b) * 4)%N in
      String (std_digit (n / 4096)) (String (std_digit (n / 64)) (String (std_digit n) "="))
  | String a (String b (String c s')) =>
      let n := ((N_of_ascii a * 256 + N_of_ascii b) * 256 + N_of_ascii c)%N in
      String (std_digit (n / 262144)) (String (std_digit (n / 4096)) (String (std_digit (n / 64)) (String (std_digit n) (EncodeToString s'))))
  end.

Fixpoint index_of (a : ascii) (s : string) (k : N) : option N :=
  match s with "" => None | String b s => if Ascii.eqb a b then Some k else index_of a s (k + 1) end.
Definition std_value (a : ascii) : option N := index_of a std_alphabet 0.
(** Line breaks are skipped, padding ends the text. *)
Fixpoint without_breaks (s : string) : string :=
  match s with
  | "" => ""
  | String a s => if Ascii.eqb a "010"%char || Ascii.eqb a "013"%char then without_breaks s else String a (without_breaks s)
  end.
Fixpoint decode_quads (s : string) : option string :=
  match s with
  | "" => Some ""
  | String a (String b (String c (String d s'))) =>
      match std_value a, std_value b, std_value c, std_value d with
      | Some x, Some y, Some z, Some w =>
          let n := (((x * 64 + y) * 64 + z) * 64 + w)%N in
          String (ascii_of_N (n / 65536)) ∘ String (ascii_of_N (n / 256 mod 256)) ∘ String (ascii_of_N (n mod 256)) <$> decode_quads s'
      | Some x, Some y, Some z, None =>
          if Ascii.eqb d "="%char && bool_decide (s' = "")
          then let n := ((x * 64 + y) * 64 + z)%N in Some (String (ascii_of_N (n / 1024)) (String (ascii_of_N (n / 4 mod 256)) ""))
          else None
      | Some x, Some y, None, _ =>
          if Ascii.eqb c "="%char && Ascii.eqb d "="%char && bool_decide (s' = "")
          then Some (String (ascii_of_N ((x * 64 + y) / 16)) "") else None
      | _, _, _, _ => None
      end
  | _ => None
  end.
Definition DecodeString (s : string) : result string :=
  match decode_quads (without_breaks s) with Some d => Ok d | None => Err "illegal base64 data" end.

Lemma std_value_digit n : std_value (std_digit n) = Some (n mod 64)%N ∧ std_digit n ≠ "010"%char ∧ std_digit n ≠ "013"%char ∧ std_digit n ≠ "="%char.
Proof.
  assert (∀ k, k < 64 → let d := default "A"%char (String.get k std_alphabet) in
            std_value d = Some (N.of_nat k) ∧ d ≠ "010"%char ∧ d ≠ "013"%char ∧ d ≠ "="%char) as H.
  { intros k Hk. do 64 (destruct k as [|k]; [by vm_compute|]). lia. }
  specialize (H (N.to_nat (n mod 64))). rewrite N2Nat.id in H. apply H. pose proof (N.mod_upper_bound n 64). lia.
Qed.

Lemma std_digit_keep n s : without_breaks (String (std_digit n) s) = String (std_digit n) (without_breaks s).
Proof.
  simpl. destruct (std_value_digit n) as (_ & H1 & H2 & _). by rewrite (proj2 (Ascii.eqb_neq _ _) H1), (proj2 (Ascii.eqb_neq _ _) H2).
Qed.

(** Three bytes at a time. *)
Lemma string_triples (P : string → Prop) :
  P "" → (∀ a, P (String a "")) → (∀ a b, P (String a (String b ""))) →
  (∀ a b c s, P s → P (String a (String b (String c s)))) → ∀ s, P s.
Proof.
  intros H0 H1 H2 H3 s. remember (String.length s) as n eqn:En. revert s En. induction n as [n IH] using lt_wf_ind. intros s ->.
  destruct s as [|a [|b [|c s]]]; auto. apply H3. apply (IH (String.length s)); simpl; auto with lia.
Qed.

Lemma byte_range a : (N_of_ascii a < 256)%N.
Proof. apply N_ascii_bounded. Qed.

Lemma digits4 n : (n < 16777216)%N → ((((n / 262144) mod 64 * 64 + (n / 4096) mod 64) * 64 + (n / 64) mod 64) * 64 + n mod 64)%N = n.
Proof. intros H. zify. Z.to_euclidean_division_equations. lia. Qed.
Lemma digits3 n : (n < 262144)%N → (((n / 4096) mod 64 * 64 + (n / 64) mod 64) * 64 + n mod 64)%N = n.
Proof. intros H. zify. Z.to_euclidean_division_equations. lia. Qed.
Lemma digits2 n : (n < 4096)%N → ((n / 64) mod 64 * 64 + n mod 64)%N = n.
Proof. intros H. zify. Z.to_euclidean_division_equations. lia. Qed.
Lemma bytes3 x y z : (x < 256 → y < 256 → z < 256 → let n := (x * 256 + y) * 256 + z in
  n < 16777216 ∧ n / 65536 = x ∧ n / 256 mod 256 = y ∧ n mod 256 = z)%N.
Proof. intros H1 H2 H3 n. subst n. zify. Z.to_euclidean_division_equations. lia. Qed.
Lemma bytes2 x y : (x < 256 → y < 256 → let n := (x * 256 + y) * 4 in n < 262144 ∧ n / 1024 = x ∧ n / 4 mod 256 = y)%N.
Proof. intros H1 H2 n. subst n. zify. Z.to_euclidean_division_equations. lia. Qed.
Lemma bytes1 x : (x < 256 → let n := x * 16 in n < 4096 ∧ n / 16 = x)%N.
Proof. intros H n. subst n. zify. Z.to_euclidean_division_equations. lia. Qed.
Lemma std_value_pad : std_value "="%char = None.
Proof. by vm_compute. Qed.

Lemma DecodeString_Encode s : DecodeString (EncodeToString s) = Ok s.
Proof.
  unfold DecodeString. enough (decode_quads (without_breaks (EncodeToString s)) = Some s) as -> by done.
  induction s as [|a|a b|a b c s IH] using string_triples; [done|..]; cbn [EncodeToString]; rewrite !std_digit_keep.
  - destruct (bytes1 (N_of_ascii a) (byte_range a)) as (Hn & E1). set (n := (N_of_ascii a * 16)%N) in *.
    change (without_breaks "==") with "==". cbn [decode_quads]. rewrite !(proj1 (std_value_digit _)), std_value_pad, digits2 by done.
    simpl. by rewrite E1, ascii_N_embedding.
  - destruct (bytes2 (N_of_ascii a) (N_of_ascii b) (byte_range a) (byte_range b)) as (Hn & E1 & E2).
    set (n := ((N_of_ascii a * 256 + N_of_ascii b) * 4)%N) in *. change (without_breaks "=") with "=". cbn [decode_quads].
    rewrite !(proj1 (std_value_digit _)), std_value_pad, digits3 by done. simpl. by rewrite E1, E2, !ascii_N_embedding.
  - destruct (bytes3 (N_of_ascii a) (N_of_ascii b) (N_of_ascii c) (byte_range a) (byte_range b) (byte_range c)) as (Hn & E1 & E2 & E3).
    set (n := ((N_of_ascii a * 256 + N_of_ascii b) * 256 + N_of_ascii c)%N) in *. cbn [decode_quads].
    rewrite !(proj1 (std_value_digit _)), digits4, IH by done. simpl. by rewrite E1, E2, E3, !ascii_N_embedding.
Qed.

Lemma EncodeToString_length s : String.length (EncodeToString s) = 4 * ((String.length s + 2) / 3).
Proof.
  induction s as [|a|a b|a b c s IH] using string_triples; [done..|]. cbn [EncodeToString String.length]. rewrite IH.
  replace (S (S (S (String.length s))) + 2) with (1 * 3 + (String.length s + 2)) by lia. rewrite Nat.div_add_l by lia. lia.
Qed.
