(* ===== verification/Triggers.v ===== *)
(** pkg/contracts/workflow/trigger.go: the kinds of triggers, their validation,
    when they fire, and the factory that builds them from a configuration. *)

From S2P Require Import Prelude GoValue GoLib.

(** ** Configurations

    A configuration is a map[string]interface{}.  Besides the values of decoded
    JSON it can hold a []string, which the type assertions of the factory tell
    from a decoded array. *)

Inductive cvalue :=
  | Dyn (v : value)
  | Strs (l : list string).
Abbreviation config := (gmap string cvalue).

Definition cfg_string (c : config) (k : string) : option string :=
  match c !! k with Some (Dyn (VStr s)) => Some s | _ => None end.
Definition cfg_bool (c : config) (k : string) : option bool :=
  match c !! k with Some (Dyn (VBool b)) => Some b | _ => None end.
Definition cfg_strings (c : config) (k : string) : option (list string) :=
  match c !! k with Some (Strs l) => Some l | _ => None end.
Definition cfg_map (c : config) (k : string) : option vmap :=
  match c !! k with Some (Dyn (VObj kvs)) => Some (list_to_map kvs) | _ => None end.

(** What JSON makes of a configuration: a []string comes back as an array. *)
Definition json_value (v : cvalue) : cvalue :=
  match v with Dyn v => Dyn v | Strs l => Dyn (VArr (VStr <$> l)) end.
Definition json_norm (c : config) : config := json_value <$> c.

(** [a == b] on two values of type interface{}: values of different dynamic
    types differ, two slices or two maps panic. *)
Definition iface_eq (a b : value) : outcome bool :=
  match a, b with
  | VNil, VNil => Ret true
  | VBool x, VBool y => Ret (bool_decide (x = y))
  | VInt x, VInt y => Ret (bool_decide (x = y))
  | VFloat x, VFloat y => Ret (SFeqb x y)
  | VStr x, VStr y => Ret (bool_decide (x = y))
  | VTime x, VTime y => Ret (bool_decide (x = y))
  | VArr _, VArr _ | VObj _, VObj _ => Panic "runtime error: comparing uncomparable type"
  | _, _ => Ret false
  end.

(** An event as a map[string]interface{}. *)
Definition as_map (v : value) : option vmap :=
  match v with VObj kvs => Some (list_to_map kvs) | _ => None end.

(** ** Triggers *)

Definition TriggerTypeWebhook : string := "webhook".
Definition TriggerTypeSchedule : string := "schedule".
Definition TriggerTypeEvent : string := "event".
Definition TriggerTypeManual : string := "manual".
Definition TriggerTypeEmail : string := "email".

Definition TriggerStatusActive : string := "active".
Definition TriggerStatusInactive : string := "inactive".

Record BaseTrigger := {
  btID : string;
  btWorkflowID : string;
  btType : string;
  btName : string;
  btStatus : string;
  btConfig : config
}.

Record WebhookTrigger := { whBase : BaseTrigger; whPath : string; whMethod : string; whSecret : string }.
Record ScheduleTrigger := {
  stBase : BaseTrigger;
  stCronExpression : string;
  stTimezone : string;
  stStartDate : option Z;
  stEndDate : option Z
}.
Record EventTrigger := { evBase : BaseTrigger; evEventType : string; evEventSource : string; evFilters : vmap }.
Record ManualTrigger := { mnBase : BaseTrigger; mnRequireConfirmation : bool; mnAllowedUsers : list string }.
Record EmailTrigger := {
  emBase : BaseTrigger;
  emEmailAddress : string;
  emSubject : string;
  emFromFilter : list string;
  emKeywords : list string
}.

(** The interface Trigger. *)
Inductive Trigger :=
  | Webhook (t : WebhookTrigger)
  | Schedule (t : ScheduleTrigger)
  | Event (t : EventTrigger)
  | Manual (t : ManualTrigger)
  | Email (t : EmailTrigger).

Definition base (t : Trigger) : BaseTrigger :=
  match t with
  | Webhook t => whBase t | Schedule t => stBase t | Event t => evBase t | Manual t => mnBase t | Email t => emBase t
  end.
Definition GetID (t : Trigger) : string := btID (base t).
Definition GetConfig (t : Trigger) : config := btConfig (base t).
Definition IsActive (b : BaseTrigger) : bool := bool_decide (btStatus b = TriggerStatusActive).

Definition set_config (b : BaseTrigger) (c : config) : BaseTrigger :=
  {| btID := btID b; btWorkflowID := btWorkflowID b; btType := btType b; btName := btName b;
     btStatus := btStatus b; btConfig := c |}.

Definition new_base (uuid workflowID name type status : string) : BaseTrigger :=
  {| btID := uuid; btWorkflowID := workflowID; btType := type; btName := name; btStatus := status; btConfig := ∅ |}.

Definition NewWebhookTrigger (uuid workflowID name path : string) : WebhookTrigger :=
  {| whBase := new_base uuid workflowID name TriggerTypeWebhook TriggerStatusInactive; whPath := path;
     whMethod := "POST"; whSecret := "" |}.
Definition NewScheduleTrigger (uuid workflowID name cronExpression : string) : ScheduleTrigger :=
  {| stBase := new_base uuid workflowID name TriggerTypeSchedule TriggerStatusInactive;
     stCronExpression := cronExpression; stTimezone := "UTC"; stStartDate := None; stEndDate := None |}.
Definition NewEventTrigger (uuid workflowID name eventType : string) : EventTrigger :=
  {| evBase := new_base uuid workflowID name TriggerTypeEvent TriggerStatusInactive; evEventType := eventType;
     evEventSource := ""; evFilters := ∅ |}.
Definition NewManualTrigger (uuid workflowID name : string) : ManualTrigger :=
  {| mnBase := new_base uuid workflowID name TriggerTypeManual TriggerStatusActive;
     mnRequireConfirmation := false; mnAllowedUsers := [] |}.
Definition NewEmailTrigger (uuid workflowID name emailAddress : string) : EmailTrigger :=
  {| emBase := new_base uuid workflowID name TriggerTypeEmail TriggerStatusInactive;
     emEmailAddress := emailAddress; emSubject := ""; emFromFilter := []; emKeywords := [] |}.

(** Reads of a configuration built by writes. *)
Ltac json_lookup :=
  rewrite ?lookup_insert_eq;
  repeat (rewrite lookup_insert_ne by done; rewrite ?lookup_insert_eq);
  rewrite ?lookup_insert_ne, ?lookup_empty by done.

Section Triggers.
(** The five-field cron parser, the time zone database, the schedule's next
    time and the text of a time. *)
Context {CS : Type} (parse5 : string → option CS) (next : CS → Z → Z).
Context (known_location : string → bool) (fmt_time : Z → string).

(** *** Validation: it also writes the configuration *)

Definition validMethods : list string := ["GET"; "POST"; "PUT"; "DELETE"; "PATCH"].

Definition Webhook_Validate (t : WebhookTrigger) : result WebhookTrigger :=
  if bool_decide (whPath t = "") then Err "webhook path is required"
  else if negb (bool_decide (whMethod t ∈ validMethods)) then Err ("invalid HTTP method: " +:+ whMethod t)
  else Ok {| whBase := set_config (whBase t)
               (<["secret" := Dyn (VStr (whSecret t))]> (<["method" := Dyn (VStr (whMethod t))]>
                (<["path" := Dyn (VStr (whPath t))]> (btConfig (whBase t)))));
             whPath := whPath t; whMethod := whMethod t; whSecret := whSecret t |}.

Definition Schedule_Validate (t : ScheduleTrigger) : result ScheduleTrigger :=
  if bool_decide (stCronExpression t = "") then Err "cron expression is required"
  else match parse5 (stCronExpression t) with
  | None => Err "invalid cron expression: invalid"
  | Some _ =>
      if negb (known_location (stTimezone t)) then Err "invalid timezone: unknown time zone"
      else if match stStartDate t, stEndDate t with
              | Some a, Some b => bool_decide (b < a)%Z
              | _, _ => false
              end then Err "start date must be before end date"
      else
        let c := <["timezone" := Dyn (VStr (stTimezone t))]>
                   (<["cronExpression" := Dyn (VStr (stCronExpression t))]> (btConfig (stBase t))) in
        let c := match stStartDate t with Some d => <["startDate" := Dyn (VStr (fmt_time d))]> c | None => c end in
        let c := match stEndDate t with Some d => <["endDate" := Dyn (VStr (fmt_time d))]> c | None => c end in
        Ok {| stBase := set_config (stBase t) c; stCronExpression := stCronExpression t;
              stTimezone := stTimezone t; stStartDate := stStartDate t; stEndDate := stEndDate t |}
  end.

Definition Event_Validate (t : EventTrigger) : result EventTrigger :=
  if bool_decide (evEventType t = "") then Err "event type is required"
  else Ok {| evBase := set_config (evBase t)
               (<["filters" := Dyn (VObj (map_to_list (evFilters t)))]>
                (<["eventSource" := Dyn (VStr (evEventSource t))]>
                 (<["eventType" := Dyn (VStr (evEventType t))]> (btConfig (evBase t)))));
             evEventType := evEventType t; evEventSource := evEventSource t; evFilters := evFilters t |}.

Definition Manual_Validate (t : ManualTrigger) : result ManualTrigger :=
  Ok {| mnBase := set_config (mnBase t)
          (<["allowedUsers" := Strs (mnAllowedUsers t)]>
           (<["requireConfirmation" := Dyn (VBool (mnRequireConfirmation t))]> (btConfig (mnBase t))));
        mnRequireConfirmation := mnRequireConfirmation t; mnAllowedUsers := mnAllowedUsers t |}.

Definition Email_Validate (t : EmailTrigger) : result EmailTrigger :=
  if bool_decide (emEmailAddress t = "") then Err "email address is required"
  else if bool_decide (String.length (emEmailAddress t) < 3 ∨ 254 < String.length (emEmailAddress t))
  then Err "invalid email address"
  else Ok {| emBase := set_config (emBase t)
               (<["keywords" := Strs (emKeywords t)]> (<["fromFilter" := Strs (emFromFilter t)]>
                (<["subject" := Dyn (VStr (emSubject t))]>
                 (<["emailAddress" := Dyn (VStr (emEmailAddress t))]> (btConfig (emBase t))))));
             emEmailAddress := emEmailAddress t; emSubject := emSubject t; emFromFilter := emFromFilter t;
             emKeywords := emKeywords t |}.

Definition res_map {A B} (f : A → B) (r : result A) : result B :=
  match r with Ok a => Ok (f a) | Err e => Err e end.

Definition Validate (t : Trigger) : result Trigger :=
  match t with
  | Webhook t => res_map Webhook (Webhook_Validate t)
  | Schedule t => res_map Schedule (Schedule_Validate t)
  | Event t => res_map Event (Event_Validate t)
  | Manual t => res_map Manual (Manual_Validate t)
  | Email t => res_map Email (Email_Validate t)
  end.

(** *** When a trigger fires *)

Definition Webhook_ShouldFire (t : WebhookTrigger) (event : value) : bool :=
  if negb (IsActive (whBase t)) then false
  else match as_map event with
  | None => false
  | Some e =>
      if match get_string e "path" with Some p => bool_decide (p ≠ whPath t) | None => false end then false
      else if match get_string e "method" with Some m => bool_decide (m ≠ whMethod t) | None => false end
      then false
      else if bool_decide (whSecret t ≠ "") then
        match get_string e "secret" with Some s => bool_decide (s = whSecret t) | None => false end
      else true
  end.

Definition Schedule_ShouldFire (t : ScheduleTrigger) (event : value) : bool :=
  if negb (IsActive (stBase t)) then false
  else match event with
  | VTime now =>
      if match stStartDate t with Some d => bool_decide (now < d)%Z | None => false end then false
      else if match stEndDate t with Some d => bool_decide (d < now)%Z | None => false end then false
      else match parse5 (stCronExpression t) with Some _ => true | None => false end
  | _ => false
  end.

(** The filters, in the order [ord] of the map. *)
Fixpoint check_filters (filters eventData : vmap) (ord : list string) : outcome bool :=
  match ord with
  | [] => Ret true
  | key :: ord' =>
      match filters !! key with
      | None => check_filters filters eventData ord'
      | Some expected =>
          match eventData !! key with
          | None => Ret false
          | Some actual =>
              match iface_eq actual expected with
              | Ret true => check_filters filters eventData ord'
              | Ret false => Ret false
              | Panic msg => Panic msg
              | NoFuel => NoFuel
              end
          end
      end
  end.

Definition Event_ShouldFire (t : EventTrigger) (event : value) (ord : list string) : outcome bool :=
  if negb (IsActive (evBase t)) then Ret false
  else match as_map event with
  | None => Ret false
  | Some e =>
      match get_string e "type" with
      | None => Ret false
      | Some type =>
          if bool_decide (type ≠ evEventType t) then Ret false
          else if bool_decide (evEventSource t ≠ "")
                  && match get_string e "source" with
                     | Some s => bool_decide (s ≠ evEventSource t)
                     | None => true
                     end then Ret false
          else check_filters (evFilters t) e ord
      end
  end.

Definition Manual_ShouldFire (t : ManualTrigger) (event : value) : bool :=
  match as_map event with
  | None => false
  | Some e =>
      if bool_decide (mnAllowedUsers t ≠ [])
         && match get_string e "userId" with
            | Some u => negb (existsb (λ a, bool_decide (a = u)) (mnAllowedUsers t))
            | None => true
            end then false
      else if mnRequireConfirmation t
              && match get_bool e "confirmed" with Some b => negb b | None => true end then false
      else true
  end.

(** [containsString] compares the beginning only. *)
Definition containsString (str substr : string) : bool := String.prefix substr str.

Definition Email_ShouldFire (t : EmailTrigger) (event : value) : bool :=
  if negb (IsActive (emBase t)) then false
  else match as_map event with
  | None => false
  | Some e =>
      if match get_string e "to" with Some a => bool_decide (a ≠ emEmailAddress t) | None => true end then false
      else if bool_decide (emSubject t ≠ "")
              && match get_string e "subject" with
                 | Some s => negb (containsString s (emSubject t))
                 | None => false
                 end then false
      else if bool_decide (emFromFilter t ≠ [])
              && match get_string e "from" with
                 | Some f => negb (existsb (λ a, bool_decide (f = a)) (emFromFilter t))
                 | None => true
                 end then false
      else if bool_decide (emKeywords t ≠ [])
              && match get_string e "body" with
                 | Some b => negb (forallb (containsString b) (emKeywords t))
                 | None => true
                 end then false
      else true
  end.

Definition ShouldFire (t : Trigger) (event : value) (ord : list string) : outcome bool :=
  match t with
  | Webhook t => Ret (Webhook_ShouldFire t event)
  | Schedule t => Ret (Schedule_ShouldFire t event)
  | Event t => Event_ShouldFire t event ord
  | Manual t => Ret (Manual_ShouldFire t event)
  | Email t => Ret (Email_ShouldFire t event)
  end.

(** [GetNextRunTime] of a schedule trigger, at [now]. *)
Definition GetNextRunTime (t : ScheduleTrigger) (now : Z) : result Z :=
  match parse5 (stCronExpression t) with
  | None => Err "invalid"
  | Some cs =>
      if negb (known_location (stTimezone t)) then Err "unknown time zone"
      else
        let now := match stStartDate t with Some d => if bool_decide (now < d)%Z then d else now | None => now end in
        let n := next cs now in
        if match stEndDate t with Some d => bool_decide (d < n)%Z | None => false end
        then Err "next run time is after end date" else Ok n
  end.

(** *** The factory *)

Definition CreateTrigger (uuid triggerType : string) (c : config) : result Trigger :=
  let workflowID := default "" (cfg_string c "workflowId") in
  let name := default "" (cfg_string c "name") in
  if bool_decide (triggerType = TriggerTypeWebhook) then
    let t := NewWebhookTrigger uuid workflowID name (default "" (cfg_string c "path")) in
    Ok (Webhook {| whBase := whBase t; whPath := whPath t;
                   whMethod := default (whMethod t) (cfg_string c "method");
                   whSecret := default (whSecret t) (cfg_string c "secret") |})
  else if bool_decide (triggerType = TriggerTypeSchedule) then
    let t := NewScheduleTrigger uuid workflowID name (default "" (cfg_string c "cronExpression")) in
    Ok (Schedule {| stBase := stBase t; stCronExpression := stCronExpression t;
                    stTimezone := default (stTimezone t) (cfg_string c "timezone");
                    stStartDate := stStartDate t; stEndDate := stEndDate t |})
  else if bool_decide (triggerType = TriggerTypeEvent) then
    let t := NewEventTrigger uuid workflowID name (default "" (cfg_string c "eventType")) in
    Ok (Event {| evBase := evBase t; evEventType := evEventType t;
                 evEventSource := default (evEventSource t) (cfg_string c "eventSource");
                 evFilters := default (evFilters t) (cfg_map c "filters") |})
  else if bool_decide (triggerType = TriggerTypeManual) then
    let t := NewManualTrigger uuid workflowID name in
    Ok (Manual {| mnBase := mnBase t;
                  mnRequireConfirmation := default (mnRequireConfirmation t) (cfg_bool c "requireConfirmation");
                  mnAllowedUsers := default (mnAllowedUsers t) (cfg_strings c "allowedUsers") |})
  else if bool_decide (triggerType = TriggerTypeEmail) then
    let t := NewEmailTrigger uuid workflowID name (default "" (cfg_string c "emailAddress")) in
    Ok (Email {| emBase := emBase t; emEmailAddress := emEmailAddress t;
                 emSubject := default (emSubject t) (cfg_string c "subject");
                 emFromFilter := default (emFromFilter t) (cfg_strings c "fromFilter");
                 emKeywords := default (emKeywords t) (cfg_strings c "keywords") |})
  else Err ("unsupported trigger type: " +:+ triggerType).

(** ** When triggers fire *)

Lemma check_filters_spec filters e ord :
  check_filters filters e ord = Ret true ↔
  ∀ k v, k ∈ ord → filters !! k = Some v → ∃ a, e !! k = Some a ∧ iface_eq a v = Ret true.
Proof.
  induction ord as [|k ord IH]; simpl; [split; [by intros _ k v ?%elem_of_nil|done]|].
  destruct (filters !! k) as [expected|] eqn:F.
  2:{ rewrite IH. split; intros H k' v Hk Hv; [|apply H; [by right|done]].
      apply elem_of_cons in Hk as [->|Hk]; [congruence|by apply H]. }
  split.
  - destruct (e !! k) as [actual|] eqn:E; [|done]. destruct (iface_eq actual expected) as [[]| |] eqn:Q; [|done..].
    intros H k' v [->|Hk]%elem_of_cons Hv; [|by apply (proj1 IH H)]. simplify_eq. eauto.
  - intros H. destruct (H k expected) as (a & -> & ->); [left|done|]. apply IH. intros k' v Hk. apply H. by right.
Qed.

Lemma IsActive_spec b : IsActive b = true ↔ btStatus b = TriggerStatusActive.
Proof. unfold IsActive. apply bool_decide_eq_true. Qed.

Lemma event_fires t event ord :
  range_order (evFilters t) ord →
  Event_ShouldFire t event ord = Ret true ↔
  ∃ e, as_map event = Some e ∧ btStatus (evBase t) = TriggerStatusActive
       ∧ get_string e "type" = Some (evEventType t)
       ∧ (evEventSource t = "" ∨ get_string e "source" = Some (evEventSource t))
       ∧ ∀ k v, evFilters t !! k = Some v → ∃ a, e !! k = Some a ∧ iface_eq a v = Ret true.
Proof.
  intros Hord. unfold Event_ShouldFire. pose proof (IsActive_spec (evBase t)) as Ha.
  destruct (IsActive (evBase t)); simpl; [|naive_solver]. destruct (as_map event) as [e|]; [|naive_solver].
  destruct (get_string e "type") as [ty|] eqn:T; [|naive_solver].
  case_bool_decide as Hty; [naive_solver|]. subst ty.
  set (b := bool_decide (evEventSource t ≠ "") && _).
  assert (b = false ↔ evEventSource t = "" ∨ get_string e "source" = Some (evEventSource t)) as Hb.
  { unfold b. destruct (bool_decide_reflect (evEventSource t ≠ "")) as [H|H]; simpl.
    - destruct (get_string e "source") as [s|]; [|naive_solver]. case_bool_decide as Hs; [naive_solver|].
      subst s. naive_solver.
    - apply dec_stable in H. naive_solver. }
  destruct b eqn:Eb.
  + split; [done|]. intros (e' & [= <-] & _ & _ & H & _). by apply Hb in H.
  + rewrite check_filters_spec. split.
    * intros H. exists e. split_and!; [done|by apply Ha|done|by apply Hb|]. intros k v Hk. apply H; [|done].
      destruct Hord as [_ Hord]. apply Hord. by eexists.
    * intros (e' & [= <-] & _ & _ & _ & H) k v _. apply H.
Qed.

Lemma manual_fires t event :
  Manual_ShouldFire t event = true ↔
  ∃ e, as_map event = Some e
       ∧ (mnAllowedUsers t = [] ∨ ∃ u, get_string e "userId" = Some u ∧ u ∈ mnAllowedUsers t)
       ∧ (mnRequireConfirmation t = true → get_bool e "confirmed" = Some true).
Proof.
  unfold Manual_ShouldFire. destruct (as_map event) as [e|]; [|naive_solver].
  set (b := bool_decide (mnAllowedUsers t ≠ []) && _).
  assert (b = false ↔ mnAllowedUsers t = [] ∨ ∃ u, get_string e "userId" = Some u ∧ u ∈ mnAllowedUsers t) as Hb.
  { unfold b. destruct (bool_decide_reflect (mnAllowedUsers t ≠ [])) as [H|H]; simpl.
    - destruct (get_string e "userId") as [u|]; [|naive_solver]. rewrite negb_false_iff, existsb_exists. split.
      + intros (a & Ha & ->%bool_decide_eq_true). right. exists u. split; [done|]. by apply list_elem_of_In.
      + intros [?|(u' & [= <-] & Hin)]; [done|]. exists u.
        split; [by apply list_elem_of_In|by rewrite bool_decide_true].
    - apply dec_stable in H. naive_solver. }
  destruct b eqn:Eb.
  + split; [done|]. intros (e' & [= <-] & H & _). by apply Hb in H.
  + apply proj1 in Hb. specialize (Hb eq_refl). destruct (mnRequireConfirmation t); simpl.
    * destruct (get_bool e "confirmed") as [[]|] eqn:Ec; simpl; split; try done; try (by intros (e' & [= <-] & _ & H); naive_solver).
      intros _. by exists e.
    * split; [|done]. intros _. by exists e.
Qed.

(** An event trigger fires exactly when it is active and the event has its
    type, its source if one is set and, for every filter, an equal value,
    whatever the iteration order of the filters; a webhook with a secret fires
    only for requests that present it; and a manual trigger with a list of
    users only for one of them, confirmed if it requires so. *)
Lemma trigger_firing :
  (∀ t event ord, range_order (evFilters t) ord →
     Event_ShouldFire t event ord = Ret true ↔
     ∃ e, as_map event = Some e ∧ btStatus (evBase t) = TriggerStatusActive
          ∧ get_string e "type" = Some (evEventType t)
          ∧ (evEventSource t = "" ∨ get_string e "source" = Some (evEventSource t))
          ∧ ∀ k v, evFilters t !! k = Some v → ∃ a, e !! k = Some a ∧ iface_eq a v = Ret true)
  ∧ (∀ t event, whSecret t ≠ "" → Webhook_ShouldFire t event = true →
       ∃ e, as_map event = Some e ∧ get_string e "secret" = Some (whSecret t))
  ∧ (∀ t event, Manual_ShouldFire t event = true ↔
       ∃ e, as_map event = Some e
            ∧ (mnAllowedUsers t = [] ∨ ∃ u, get_string e "userId" = Some u ∧ u ∈ mnAllowedUsers t)
            ∧ (mnRequireConfirmation t = true → get_bool e "confirmed" = Some true)).
Proof.
  split_and!; [by intros; apply event_fires| |by intros; apply manual_fires].
  intros t event Hs. unfold Webhook_ShouldFire. case_match; [done|]. destruct (as_map event) as [e|]; [|done].
  destruct (match get_string e "path" with Some _ => _ | None => _ end); [done|].
  destruct (match get_string e "method" with Some _ => _ | None => _ end); [done|].
  rewrite bool_decide_true by done. destruct (get_string e "secret") eqn:E; [|done]. intros ->%bool_decide_eq_true. eauto.
Qed.

(** ** Configurations through JSON *)

(** The trigger a stored configuration describes: the name and the workflow are
    not part of it, and the lists do not survive. *)
Definition reborn (uuid : string) (t : Trigger) : Trigger :=
  match t with
  | Webhook t => Webhook {| whBase := whBase (NewWebhookTrigger uuid "" "" ""); whPath := whPath t;
                            whMethod := whMethod t; whSecret := whSecret t |}
  | Schedule t => Schedule {| stBase := stBase (NewScheduleTrigger uuid "" "" "");
                              stCronExpression := stCronExpression t; stTimezone := stTimezone t;
                              stStartDate := None; stEndDate := None |}
  | Event t => Event {| evBase := evBase (NewEventTrigger uuid "" "" ""); evEventType := evEventType t;
                        evEventSource := evEventSource t; evFilters := evFilters t |}
  | Manual t => Manual {| mnBase := mnBase (NewManualTrigger uuid "" "");
                          mnRequireConfirmation := mnRequireConfirmation t; mnAllowedUsers := [] |}
  | Email t => Email {| emBase := emBase (NewEmailTrigger uuid "" "" ""); emEmailAddress := emEmailAddress t;
                        emSubject := emSubject t; emFromFilter := []; emKeywords := [] |}
  end.

Definition type_of (t : Trigger) : string :=
  match t with
  | Webhook _ => TriggerTypeWebhook | Schedule _ => TriggerTypeSchedule | Event _ => TriggerTypeEvent
  | Manual _ => TriggerTypeManual | Email _ => TriggerTypeEmail
  end.

Lemma CreateTrigger_type uuid ty c t :
  CreateTrigger uuid ty c = Ok t → type_of t = ty ∧ btConfig (base t) = ∅ ∧ btID (base t) = uuid.
Proof.
  unfold CreateTrigger. repeat (case_bool_decide; [intros [= <-]; subst; done|]). done.
Qed.

(** The configuration of a validated trigger describes it: building a
    trigger of the type from the JSON of the configuration gives one with the
    same settings, except that lists of users, senders and keywords, and the
    dates of a schedule, are lost; and that trigger is valid again. *)
Lemma trigger_config_round_trip uuid uuid' ty c t t' :
  CreateTrigger uuid ty c = Ok t → Validate t = Ok t' →
  CreateTrigger uuid' ty (json_norm (GetConfig t')) = Ok (reborn uuid' t')
  ∧ ∃ t'', Validate (reborn uuid' t') = Ok t''.
Proof.
  intros (<- & Hc & _)%CreateTrigger_type Hv. unfold GetConfig, json_norm.
  destruct t as [t|t|t|t|t]; simpl in Hv, Hc |- *.
  - unfold Webhook_Validate in *. destruct (bool_decide (whPath t = "")) eqn:E1; [done|].
    destruct (negb _) eqn:E2 in Hv; [done|]. injection Hv as <-. simpl. rewrite Hc.
    unfold CreateTrigger, cfg_string. simpl. rewrite !lookup_fmap. json_lookup. split; [done|].
    unfold Webhook_Validate. simpl. rewrite E1, E2. by eexists.
  - unfold Schedule_Validate in *. destruct (bool_decide (stCronExpression t = "")) eqn:E1; [done|].
    destruct (parse5 (stCronExpression t)) eqn:E2; [|done]. destruct (known_location (stTimezone t)) eqn:E3; [|done].
    simpl in Hv. destruct (match stStartDate t with Some _ => _ | None => _ end) in Hv; [done|].
    injection Hv as <-. simpl. rewrite Hc. unfold CreateTrigger, cfg_string. simpl. rewrite !lookup_fmap.
    unfold Schedule_Validate. simpl. rewrite E1, E2, E3. simpl. split; [|by eexists].
    destruct (stStartDate t), (stEndDate t); json_lookup; done.
  - unfold Event_Validate in *. destruct (bool_decide (evEventType t = "")) eqn:E1; [done|].
    injection Hv as <-. simpl. rewrite Hc. unfold CreateTrigger, cfg_string, cfg_map. simpl.
    rewrite !lookup_fmap. json_lookup. unfold Event_Validate. simpl. rewrite E1. split; [|by eexists].
    by rewrite list_to_map_to_list.
  - injection Hv as <-. simpl. rewrite Hc. unfold CreateTrigger, cfg_string, cfg_bool, cfg_strings. simpl.
    rewrite !lookup_fmap. json_lookup. split; [done|by eexists].
  - unfold Email_Validate in *. destruct (bool_decide (emEmailAddress t = "")) eqn:E1; [done|].
    destruct (bool_decide (_ ∨ _)) eqn:E2 in Hv; [done|]. injection Hv as <-. simpl. rewrite Hc.
    unfold CreateTrigger, cfg_string, cfg_strings. simpl. rewrite !lookup_fmap. json_lookup. split; [done|].
    unfold Email_Validate. simpl. rewrite E1, E2. by eexists.
Qed.

(** A configuration decoded from JSON never restricts the users of a manual
    trigger: the assertion to []string fails on a decoded array. *)
Lemma decoded_users_ignored uuid c event :
  as_map event = Some ∅ → cfg_bool (json_norm c) "requireConfirmation" = None →
  ∃ t, CreateTrigger uuid TriggerTypeManual (json_norm c) = Ok t ∧ ShouldFire t event [] = Ret true.
Proof.
  intros He Hb. unfold CreateTrigger. simpl. rewrite Hb. eexists. split; [done|]. simpl. f_equal.
  assert (cfg_strings (json_norm c) "allowedUsers" = None) as ->.
  { unfold cfg_strings, json_norm. rewrite lookup_fmap. by destruct (c !! "allowedUsers") as [[]|]. }
  unfold Manual_ShouldFire. simpl. by rewrite He.
Qed.

End Triggers.

(** The keyword of an e-mail trigger is looked for at the beginning only. *)
Lemma containsString_is_prefix : containsString "hello world" "world" = false.
Proof. reflexivity. Qed.

(** Two objects cannot be compared: a filter on an object panics. *)
Lemma filter_on_object_panics :
  check_filters {["o" := VObj []]} {["o" := VObj []]} ["o"] = Panic "runtime error: comparing uncomparable type".
Proof. reflexivity. Qed.

(** ** Concrete runs *)

Lemma trigger_config_round_trip_witness :
  CreateTrigger "b" "webhook" (json_norm (<["secret" := Dyn (VStr "")]> (<["method" := Dyn (VStr "POST")]>
    {["path" := Dyn (VStr "/hook")]})))
  = Ok (Webhook {| whBase := whBase (NewWebhookTrigger "b" "" "" ""); whPath := "/hook"; whMethod := "POST";
                   whSecret := "" |}).
Proof.
  pose (c := {["path" := Dyn (VStr "/hook")]} : config).
  pose (t := Webhook (NewWebhookTrigger "a" "" "" "/hook")).
  assert (CreateTrigger "a" "webhook" c = Ok t) as H1 by reflexivity.
  destruct (Validate (λ e : string, Some e) (λ _, true) (λ _, "") t) as [t'|] eqn:H2; [|discriminate].
  pose proof (trigger_config_round_trip (λ e : string, Some e) (λ _, true) (λ _, "") "a" "b" "webhook" c t t' H1 H2)
    as [H _].
  vm_compute in H2. injection H2 as <-. exact H.
Defined.
