(* ===== verification/TriggerManager.v ===== *)
(** internal/workflow/adapters/triggers/manager.go: the triggers of workflows in
    their table, and the active ones in memory, in the cron runner and in Redis. *)

From S2P Require Import Prelude GoValue GoLib Schedule CronScheduler Triggers.

(** ** State *)

(** A row of the table; the configuration is JSON text. *)
Record WorkflowTrigger := {
  wtID : string;
  wtWorkflowID : string;
  wtType : string;
  wtName : string;
  wtDescription : string;
  wtStatus : string;
  wtConfig : string;
  wtCreatedAt : Z;
  wtUpdatedAt : Z;
  wtLastFired : option Z;
  wtFireCount : Z
}.

Definition ErrTriggerNotFound : string := "trigger not found".
Definition ErrInvalidTriggerType : string := "invalid trigger type".
Definition ErrTriggerAlreadyActive : string := "trigger already active".
Definition ErrTriggerNotActive : string := "trigger not active".
Definition ErrDuplicateTrigger : string := "duplicate trigger exists".

(** Cron jobs are handles into [tmJobs]: the trigger and the workflow the
    closure of a job captures. *)
Record TriggerManager (C : Type) := {
  tmTable : gmap string WorkflowTrigger;
  tmRedis : gmap string string;
  tmCron : C;
  tmJobs : list (string * string);
  tmWebhooks : gmap string WebhookTrigger;
  tmSchedules : gmap string Z;
  tmEvents : list (string * vmap)
}.
Arguments tmTable {_}. Arguments tmRedis {_}. Arguments tmCron {_}. Arguments tmJobs {_}.
Arguments tmWebhooks {_}. Arguments tmSchedules {_}. Arguments tmEvents {_}.

Definition set_wt_status (t : WorkflowTrigger) (status : string) (now : Z) : WorkflowTrigger :=
  {| wtID := wtID t; wtWorkflowID := wtWorkflowID t; wtType := wtType t; wtName := wtName t;
     wtDescription := wtDescription t; wtStatus := status; wtConfig := wtConfig t; wtCreatedAt := wtCreatedAt t;
     wtUpdatedAt := now; wtLastFired := wtLastFired t; wtFireCount := wtFireCount t |}.
Definition set_wt_config (t : WorkflowTrigger) (c : string) (now : Z) : WorkflowTrigger :=
  {| wtID := wtID t; wtWorkflowID := wtWorkflowID t; wtType := wtType t; wtName := wtName t;
     wtDescription := wtDescription t; wtStatus := wtStatus t; wtConfig := c; wtCreatedAt := wtCreatedAt t;
     wtUpdatedAt := now; wtLastFired := wtLastFired t; wtFireCount := wtFireCount t |}.
Definition set_wt_fired (t : WorkflowTrigger) (now : Z) : WorkflowTrigger :=
  {| wtID := wtID t; wtWorkflowID := wtWorkflowID t; wtType := wtType t; wtName := wtName t;
     wtDescription := wtDescription t; wtStatus := wtStatus t; wtConfig := wtConfig t; wtCreatedAt := wtCreatedAt t;
     wtUpdatedAt := wtUpdatedAt t; wtLastFired := Some now; wtFireCount := (wtFireCount t + 1)%Z |}.

Section Manager.
Context {C CS : Type} `{!CronOps C CS}.
(** The parsers and the time zones of [Triggers], and JSON. *)
Context (parse5 : string → option CS) (known_location : string → bool) (fmt_time : Z → string).
Context (encode : config → option string) (decode : string → option config).

Abbreviation TM := (TriggerManager C).

Definition NewTriggerManager (tbl : gmap string WorkflowTrigger) (redis : gmap string string) : TM :=
  {| tmTable := tbl; tmRedis := redis; tmCron := cron_new; tmJobs := []; tmWebhooks := ∅; tmSchedules := ∅;
     tmEvents := [] |}.

Definition put_row (st : TM) (tbl : gmap string WorkflowTrigger) : TM :=
  {| tmTable := tbl; tmRedis := tmRedis st; tmCron := tmCron st; tmJobs := tmJobs st;
     tmWebhooks := tmWebhooks st; tmSchedules := tmSchedules st; tmEvents := tmEvents st |}.
Definition put_redis (st : TM) (r : gmap string string) : TM :=
  {| tmTable := tmTable st; tmRedis := r; tmCron := tmCron st; tmJobs := tmJobs st;
     tmWebhooks := tmWebhooks st; tmSchedules := tmSchedules st; tmEvents := tmEvents st |}.
Definition put_webhooks (st : TM) (w : gmap string WebhookTrigger) : TM :=
  {| tmTable := tmTable st; tmRedis := tmRedis st; tmCron := tmCron st; tmJobs := tmJobs st;
     tmWebhooks := w; tmSchedules := tmSchedules st; tmEvents := tmEvents st |}.
Definition put_cron (st : TM) (c : C) (jobs : list (string * string)) (s : gmap string Z) : TM :=
  {| tmTable := tmTable st; tmRedis := tmRedis st; tmCron := c; tmJobs := jobs;
     tmWebhooks := tmWebhooks st; tmSchedules := s; tmEvents := tmEvents st |}.

(** [publishEvent]: a failure of the bus is logged. *)
Definition publishEvent (st : TM) (eventType : string) (data : vmap) (err : option string) : TM :=
  match err with
  | Some _ => st
  | None => {| tmTable := tmTable st; tmRedis := tmRedis st; tmCron := tmCron st; tmJobs := tmJobs st;
               tmWebhooks := tmWebhooks st; tmSchedules := tmSchedules st;
               tmEvents := tmEvents st ++ [(eventType, data)] |}
  end.
Definition trigger_payload (triggerID workflowID : string) : vmap :=
  <["trigger_id" := VStr triggerID]> {["workflow_id" := VStr workflowID]}.

(** ** Reading *)

Definition GetTrigger (st : TM) (triggerID : string) (err : option string) : result WorkflowTrigger :=
  match err with
  | Some e => Err e
  | None => match tmTable st !! triggerID with Some t => Ok t | None => Err ErrTriggerNotFound end
  end.

(** [ListTriggers], in the order [ord] of the database. *)
Definition ListTriggers (st : TM) (workflowID : string) (ord : list string) (err : option string) :
    result (list WorkflowTrigger) :=
  match err with
  | Some e => Err e
  | None => Ok (omap (λ id, match tmTable st !! id with
                            | Some t => if bool_decide (wtWorkflowID t = workflowID) then Some t else None
                            | None => None
                            end) ord)
  end.

(** ** Activation *)

(** [config["path"].(string)] without comma-ok panics on anything else. *)
Definition activateWebhookTrigger (st : TM) (t : WorkflowTrigger) (c : config) (uuid : string) : outcome TM :=
  match cfg_string c "path" with
  | None => Panic "interface conversion: interface {} is not string"
  | Some path =>
      let w := NewWebhookTrigger uuid (wtWorkflowID t) (wtName t) path in
      let b := whBase w in
      let w := {| whBase := {| btID := wtID t; btWorkflowID := btWorkflowID b; btType := btType b; btName := btName b;
                               btStatus := btStatus b; btConfig := btConfig b |};
                  whPath := path; whMethod := default (whMethod w) (cfg_string c "method");
                  whSecret := default (whSecret w) (cfg_string c "secret") |} in
      Ret (put_webhooks st (<[wtID t := w]> (tmWebhooks st)))
  end.

Definition deactivateWebhookTrigger (st : TM) (triggerID : string) : TM :=
  put_webhooks st (delete triggerID (tmWebhooks st)).

(** AddFunc parses with the cron's standard parser; an entry the trigger
    already has is not removed. *)
Definition activateScheduleTrigger (st : TM) (t : WorkflowTrigger) (c : config) : outcome (option string * TM) :=
  match cfg_string c "cronExpression" with
  | None => Panic "interface conversion: interface {} is not string"
  | Some e =>
      match parse_standard e with
      | None => Ret (Some "failed to add cron job: invalid", st)
      | Some cs =>
          let '(entryID, cron) := cron_schedule (tmCron st) cs (length (tmJobs st)) in
          Ret (None, put_cron st cron (tmJobs st ++ [(wtID t, wtWorkflowID t)])
                       (<[wtID t := entryID]> (tmSchedules st)))
      end
  end.

Definition deactivateScheduleTrigger (st : TM) (triggerID : string) : TM :=
  match tmSchedules st !! triggerID with
  | Some entryID => put_cron st (cron_remove (tmCron st) entryID) (tmJobs st) (delete triggerID (tmSchedules st))
  | None => st
  end.

Definition event_key (eventType triggerID : string) : string :=
  "trigger:event:" +:+ eventType +:+ ":" +:+ triggerID.
Definition email_key (triggerID : string) : string := "trigger:email:" +:+ triggerID.

(** The text stored in Redis. *)
Definition subscription (t : WorkflowTrigger) (c : config) : string :=
  default "" (encode (<["trigger_id" := Dyn (VStr (wtID t))]> (<["workflow_id" := Dyn (VStr (wtWorkflowID t))]>
    {["config" := Dyn (VObj (omap (λ kv, match kv.2 with Dyn v => Some (kv.1, v) | Strs _ => None end)
                               (map_to_list c)))]}))).

Definition redis_set (st : TM) (key data : string) (err : option string) : option string * TM :=
  match err with
  | Some e => (Some e, st)
  | None => (None, put_redis st (<[key := data]> (tmRedis st)))
  end.

Definition activateEventTrigger (st : TM) (t : WorkflowTrigger) (c : config) (err : option string) :
    outcome (option string * TM) :=
  match cfg_string c "eventType" with
  | None => Panic "interface conversion: interface {} is not string"
  | Some e => Ret (redis_set st (event_key e (wtID t)) (subscription t c) err)
  end.

(** The keys that match trigger:event:*:<id>, for an ID without glob characters. *)
Definition matches (triggerID key : string) : bool :=
  String.prefix "trigger:event:" key
  && bool_decide (String.length "trigger:event:" + String.length (":" +:+ triggerID) ≤ String.length key)
  && bool_decide (String.substring (String.length key - String.length (":" +:+ triggerID))
                                   (String.length (":" +:+ triggerID)) key = ":" +:+ triggerID).
(** A failed Keys reads as no keys, and a failed Del is ignored: [fails] tells
    the keys that stay. *)
Definition deactivateEventTrigger (st : TM) (triggerID : string) (err : option string) (fails : string → bool) : TM :=
  match err with
  | Some _ => st
  | None => put_redis st (filter (λ kv, matches triggerID kv.1 = false ∨ fails kv.1 = true) (tmRedis st))
  end.

Definition activateEmailTrigger (st : TM) (t : WorkflowTrigger) (c : config) (err : option string) :
    option string * TM :=
  redis_set st (email_key (wtID t)) (subscription t c) err.

Definition deactivateEmailTrigger (st : TM) (triggerID : string) (err : option string) : option string * TM :=
  match err with
  | Some e => (Some e, st)
  | None => (None, put_redis st (delete (email_key triggerID) (tmRedis st)))
  end.

(** [activateTrigger] (a configuration that is null, which no operation stores,
    reads as the empty one); [err] is a failure of Redis. *)
Definition activateTrigger (st : TM) (t : WorkflowTrigger) (uuid : string) (err : option string) :
    outcome (option string * TM) :=
  match decode (wtConfig t) with
  | None => Ret (Some "invalid character", st)
  | Some c =>
      if bool_decide (wtType t = TriggerTypeWebhook) then
        match activateWebhookTrigger st t c uuid with
        | Ret st => Ret (None, st) | Panic m => Panic m | NoFuel => NoFuel
        end
      else if bool_decide (wtType t = TriggerTypeSchedule) then activateScheduleTrigger st t c
      else if bool_decide (wtType t = TriggerTypeEvent) then activateEventTrigger st t c err
      else if bool_decide (wtType t = TriggerTypeManual) then Ret (None, st)
      else if bool_decide (wtType t = TriggerTypeEmail) then Ret (activateEmailTrigger st t c err)
      else Ret (Some ErrInvalidTriggerType, st)
  end.

Definition deactivateTrigger (st : TM) (t : WorkflowTrigger) (err : option string) (fails : string → bool) :
    option string * TM :=
  if bool_decide (wtType t = TriggerTypeWebhook) then (None, deactivateWebhookTrigger st (wtID t))
  else if bool_decide (wtType t = TriggerTypeSchedule) then (None, deactivateScheduleTrigger st (wtID t))
  else if bool_decide (wtType t = TriggerTypeEvent) then (None, deactivateEventTrigger st (wtID t) err fails)
  else if bool_decide (wtType t = TriggerTypeManual) then (None, st)
  else if bool_decide (wtType t = TriggerTypeEmail) then deactivateEmailTrigger st (wtID t) err
  else (Some ErrInvalidTriggerType, st).

(** ** Operations

    [Errs]: the failures of the read, of Redis, of the deletion of a key, of the
    write and of the bus. *)
Record Errs := {
  erRead : option string;
  erRedis : option string;
  erDel : string → bool;
  erWrite : option string;
  erBus : option string
}.

(** [checkDuplicateTrigger]: the configuration of the request is compared with
    the stored ones; a failed count reads as 0. *)
Definition checkDuplicateTrigger (st : TM) (workflowID triggerType : string) (c : config)
    (err : option string) : option string :=
  if bool_decide (triggerType = TriggerTypeWebhook) then
    let path := default "" (cfg_string c "path") in
    let method := default "" (cfg_string c "method") in
    match err with
    | Some _ => None
    | None =>
        if existsb (λ t, bool_decide (wtWorkflowID t = workflowID) && bool_decide (wtType t = triggerType)
             && match decode (wtConfig t) with
                | Some d => bool_decide (cfg_string d "path" = Some path) && bool_decide (cfg_string d "method" = Some method)
                | None => false
                end) ((map_to_list (tmTable st)).*2)
        then Some ErrDuplicateTrigger else None
    end
  else None.

(** [CreateTrigger] of the manager; [now] is read twice in the code. *)
Definition Manager_CreateTrigger (st : TM) (workflowID : string) (c : config) (uuid : string) (now : Z) (errs : Errs) :
    outcome (result WorkflowTrigger * TM) :=
  let c := <["workflowId" := Dyn (VStr workflowID)]> c in
  match cfg_string c "type" with
  | None => Ret (Err ErrInvalidTriggerType, st)
  | Some triggerType =>
      match CreateTrigger uuid triggerType c with
      | Err e => Ret (Err ("failed to create trigger: " +:+ e), st)
      | Ok trigger =>
          match Validate parse5 known_location fmt_time trigger with
          | Err e => Ret (Err ("trigger validation failed: " +:+ e), st)
          | Ok trigger =>
              match checkDuplicateTrigger st workflowID triggerType c (erRead errs) with
              | Some e => Ret (Err e, st)
              | None =>
                  match encode (GetConfig trigger) with
                  | None => Ret (Err "failed to marshal config: unsupported", st)
                  | Some configJSON =>
                      match cfg_string c "name" with
                      | None => Panic "interface conversion: interface {} is not string"
                      | Some name =>
                          let wt := {| wtID := GetID trigger; wtWorkflowID := workflowID; wtType := triggerType;
                                       wtName := name; wtDescription := default "" (cfg_string c "description");
                                       wtStatus := TriggerStatusInactive; wtConfig := configJSON;
                                       wtCreatedAt := now; wtUpdatedAt := now; wtLastFired := None;
                                       wtFireCount := 0 |} in
                          match erWrite errs, tmTable st !! wtID wt with
                          | Some e, _ => Ret (Err ("failed to save trigger: " +:+ e), st)
                          | None, Some _ => Ret (Err "failed to save trigger: duplicate key", st)
                          | None, None =>
                              let st := put_row st (<[wtID wt := wt]> (tmTable st)) in
                              Ret (Ok wt, publishEvent st "trigger.created"
                                            (<["type" := VStr triggerType]> (trigger_payload (wtID wt) workflowID))
                                            (erBus errs))
                          end
                      end
                  end
              end
          end
      end
  end.

(** The keys an update may not change. *)
Definition fixed_key (k : string) : Prop := k ∈ ["id"; "workflowId"; "type"].
#[global] Instance fixed_key_dec k : Decision (fixed_key k).
Proof. unfold fixed_key. apply _. Defined.
Definition merge_updates (c updates : config) : config :=
  filter (λ kv, ¬ fixed_key kv.1) updates ∪ c.

Definition UpdateTrigger (st : TM) (triggerID : string) (updates : config) (uuid uuid2 : string) (now : Z)
    (errs : Errs) : outcome (result WorkflowTrigger * TM) :=
  match GetTrigger st triggerID (erRead errs) with
  | Err e => Ret (Err e, st)
  | Ok t =>
      match decode (wtConfig t) with
      | None => Ret (Err "failed to parse config: invalid character", st)
      | Some c =>
          match CreateTrigger uuid (wtType t) (merge_updates c updates) with
          | Err e => Ret (Err ("failed to create updated trigger: " +:+ e), st)
          | Ok updated =>
              match Validate parse5 known_location fmt_time updated with
              | Err e => Ret (Err ("trigger validation failed: " +:+ e), st)
              | Ok updated =>
                  match encode (GetConfig updated) with
                  | None => Ret (Err "failed to marshal config: unsupported", st)
                  | Some configJSON =>
                      match erWrite errs with
                      | Some e => Ret (Err ("failed to update trigger: " +:+ e), st)
                      | None =>
                          let t := set_wt_config t configJSON now in
                          let st := put_row st (<[wtID t := t]> (tmTable st)) in
                          let reloaded :=
                            if bool_decide (wtStatus t = TriggerStatusActive) then
                              let '(_, st) := deactivateTrigger st t (erRedis errs) (erDel errs) in
                              activateTrigger st t uuid2 (erRedis errs)
                            else Ret (None, st) in
                          match reloaded with
                          | Ret (_, st) =>
                              Ret (Ok t, publishEvent st "trigger.updated"
                                           (trigger_payload triggerID (wtWorkflowID t)) (erBus errs))
                          | Panic m => Panic m
                          | NoFuel => NoFuel
                          end
                      end
                  end
              end
          end
      end
  end.

Definition ActivateTrigger (st : TM) (triggerID uuid : string) (now : Z) (errs : Errs) :
    outcome (option string * TM) :=
  match GetTrigger st triggerID (erRead errs) with
  | Err e => Ret (Some e, st)
  | Ok t =>
      if bool_decide (wtStatus t = TriggerStatusActive) then Ret (Some ErrTriggerAlreadyActive, st)
      else match activateTrigger st t uuid (erRedis errs) with
      | Panic m => Panic m
      | NoFuel => NoFuel
      | Ret (Some e, st) => Ret (Some ("failed to activate trigger: " +:+ e), st)
      | Ret (None, st) =>
          match erWrite errs with
          | Some e => Ret (Some ("failed to update trigger status: " +:+ e), st)
          | None =>
              let t := set_wt_status t TriggerStatusActive now in
              let st := put_row st (<[wtID t := t]> (tmTable st)) in
              Ret (None, publishEvent st "trigger.activated" (trigger_payload triggerID (wtWorkflowID t)) (erBus errs))
          end
      end
  end.

Definition DeactivateTrigger (st : TM) (triggerID : string) (now : Z) (errs : Errs) : option string * TM :=
  match GetTrigger st triggerID (erRead errs) with
  | Err e => (Some e, st)
  | Ok t =>
      if negb (bool_decide (wtStatus t = TriggerStatusActive)) then (Some ErrTriggerNotActive, st)
      else match deactivateTrigger st t (erRedis errs) (erDel errs) with
      | (Some e, st) => (Some ("failed to deactivate trigger: " +:+ e), st)
      | (None, st) =>
          match erWrite errs with
          | Some e => (Some ("failed to update trigger status: " +:+ e), st)
          | None =>
              let t := set_wt_status t TriggerStatusInactive now in
              let st := put_row st (<[wtID t := t]> (tmTable st)) in
              (None, publishEvent st "trigger.deactivated" (trigger_payload triggerID (wtWorkflowID t)) (erBus errs))
          end
      end
  end.

(** [del_err] is the failure of the deletion. *)
Definition DeleteTrigger (st : TM) (triggerID : string) (now : Z) (errs : Errs) (del_err : option string) :
    option string * TM :=
  match GetTrigger st triggerID (erRead errs) with
  | Err e => (Some e, st)
  | Ok t =>
      let '(r, st) := if bool_decide (wtStatus t = TriggerStatusActive)
                      then DeactivateTrigger st triggerID now errs else (None, st) in
      match r with
      | Some e => (Some ("failed to deactivate trigger: " +:+ e), st)
      | None =>
          match del_err with
          | Some e => (Some ("failed to delete trigger: " +:+ e), st)
          | None =>
              let st := put_row st (delete triggerID (tmTable st)) in
              (None, publishEvent st "trigger.deleted" (trigger_payload triggerID (wtWorkflowID t)) (erBus errs))
          end
      end
  end.

(** [TestTrigger]: whether the trigger would fire, in the filters' order [ord]. *)
Definition TestTrigger (st : TM) (triggerID : string) (testData : vmap) (uuid : string) (ord : list string)
    (err : option string) : outcome (result bool) :=
  match GetTrigger st triggerID err with
  | Err e => Ret (Err e)
  | Ok t =>
      match decode (wtConfig t) with
      | None => Ret (Err "failed to parse config: invalid character")
      | Some c =>
          match CreateTrigger uuid (wtType t) c with
          | Err e => Ret (Err ("failed to create trigger instance: " +:+ e))
          | Ok trigger =>
              match ShouldFire parse5 trigger (VObj (map_to_list testData)) ord with
              | Ret b => Ret (Ok b) | Panic m => Panic m | NoFuel => NoFuel
              end
          end
      end
  end.

(** [fireScheduleTrigger], of the job with handle [h]. *)
Definition fireScheduleTrigger (st : TM) (h : nat) (now : Z) (db_err bus_err : option string) : TM :=
  match tmJobs st !! h with
  | None => st
  | Some (triggerID, workflowID) =>
      let st := match db_err, tmTable st !! triggerID with
                | None, Some t => put_row st (<[triggerID := set_wt_fired t now]> (tmTable st))
                | _, _ => st
                end in
      publishEvent st "trigger.fired"
        (<["type" := VStr TriggerTypeSchedule]> (<["data" := VObj [("scheduled_time", VTime now)]]>
           (trigger_payload triggerID workflowID))) bus_err
  end.

(** [loadActiveTriggers], over the active rows in the order [ord]. *)
Fixpoint load_triggers (st : TM) (ts : list WorkflowTrigger) (err : option string) : outcome TM :=
  match ts with
  | [] => Ret st
  | t :: ts' =>
      match activateTrigger st t "" err with
      | Ret (_, st) => load_triggers st ts' err
      | Panic m => Panic m
      | NoFuel => NoFuel
      end
  end.
Definition loadActiveTriggers (st : TM) (ord : list string) (db_err redis_err : option string) :
    outcome (option string * TM) :=
  match db_err with
  | Some e => Ret (Some e, st)
  | None =>
      let ts := omap (λ id, match tmTable st !! id with
                            | Some t => if bool_decide (wtStatus t = TriggerStatusActive) then Some t else None
                            | None => None
                            end) ord in
      match load_triggers st ts redis_err with
      | Ret st => Ret (None, st) | Panic m => Panic m | NoFuel => NoFuel
      end
  end.

Definition Start (st : TM) (ord : list string) (db_err redis_err : option string) : outcome (option string * TM) :=
  match loadActiveTriggers st ord db_err redis_err with
  | Ret (Some e, st) => Ret (Some ("failed to load active triggers: " +:+ e), st)
  | r => r
  end.

(** [Stop] forgets the active triggers; the cron is stopped and keeps its entries. *)
Definition Stop (st : TM) : TM :=
  {| tmTable := tmTable st; tmRedis := tmRedis st; tmCron := tmCron st; tmJobs := tmJobs st;
     tmWebhooks := ∅; tmSchedules := ∅; tmEvents := tmEvents st |}.

(** ** What should run

    The specification: the webhook and the cron job an active row asks for. *)

Definition hook_of (t : WorkflowTrigger) : option WebhookTrigger :=
  if bool_decide (wtStatus t = TriggerStatusActive ∧ wtType t = TriggerTypeWebhook) then
    c ← decode (wtConfig t);
    path ← cfg_string c "path";
    Some {| whBase := new_base (wtID t) (wtWorkflowID t) (wtName t) TriggerTypeWebhook TriggerStatusInactive;
            whPath := path; whMethod := default "POST" (cfg_string c "method");
            whSecret := default "" (cfg_string c "secret") |}
  else None.

Definition job_of (t : WorkflowTrigger) : option (CS * (string * string)) :=
  if bool_decide (wtStatus t = TriggerStatusActive ∧ wtType t = TriggerTypeSchedule) then
    c ← decode (wtConfig t);
    e ← cfg_string c "cronExpression";
    cs ← parse_standard e;
    Some (cs, (wtID t, wtWorkflowID t))
  else None.

(** The job that runs under a cron entry. *)
Definition live_job (st : TM) (entryID : Z) : option (CS * (string * string)) :=
  p ← cron_entries (tmCron st) !! entryID;
  j ← tmJobs st !! p.2;
  Some (p.1, j).

(** The memory runs what the rows [V] ask for, and nothing else. *)
Record runs (V : gmap string WorkflowTrigger) (st : TM) : Prop := {
  ru_ids : ∀ id t, V !! id = Some t → wtID t = id;
  ru_hooks : ∀ id, tmWebhooks st !! id = V !! id ≫= hook_of;
  ru_jobs : ∀ id, tmSchedules st !! id ≫= live_job st = V !! id ≫= job_of;
  ru_live : ∀ id e, tmSchedules st !! id = Some e → is_Some (live_job st e);
  ru_owned : ∀ e, is_Some (cron_entries (tmCron st) !! e) → ∃ id, tmSchedules st !! id = Some e
}.

(** A configuration the activation of a type can use. *)
Definition cfg_ok (ty : string) (c : config) : Prop :=
  (ty = TriggerTypeWebhook → is_Some (cfg_string c "path"))
  ∧ (ty = TriggerTypeSchedule → ∃ e, cfg_string c "cronExpression" = Some e ∧ is_Some (parse_standard e))
  ∧ (ty = TriggerTypeEvent → is_Some (cfg_string c "eventType")).
Definition row_ok (id : string) (t : WorkflowTrigger) : Prop :=
  wtID t = id ∧ ∃ c, decode (wtConfig t) = Some c ∧ cfg_ok (wtType t) c.

Definition tm_inv (st : TM) : Prop := map_Forall row_ok (tmTable st) ∧ runs (tmTable st) st.

(** Calls and cron jobs; the status a call writes after it changed the memory is
    saved. *)
Inductive tm_step : TM → TM → Prop :=
  | ts_create st wf c uuid now errs r st' :
      Manager_CreateTrigger st wf c uuid now errs = Ret (r, st') → tm_step st st'
  | ts_update st id u uuid uuid2 now errs r st' :
      UpdateTrigger st id u uuid uuid2 now errs = Ret (r, st') → tm_step st st'
  | ts_activate st id uuid now errs r st' :
      erWrite errs = None → ActivateTrigger st id uuid now errs = Ret (r, st') → tm_step st st'
  | ts_deactivate st id now errs :
      erWrite errs = None → tm_step st (DeactivateTrigger st id now errs).2
  | ts_delete st id now errs del :
      erWrite errs = None → tm_step st (DeleteTrigger st id now errs del).2
  | ts_fire st h now e1 e2 : tm_step st (fireScheduleTrigger st h now e1 e2).

(** What the manager relies on: the cron; that JSON keeps strings that are valid
    UTF-8 and the kind of the others; that the cron's parser accepts what the
    five-field parser accepts, which is valid UTF-8. *)
Context `{!CronLaws C CS} (utf8 : string → bool).
Hypothesis json_keeps : ∀ c s, encode c = Some s → ∃ d, decode s = Some d
  ∧ (∀ k, is_Some (cfg_string c k) → is_Some (cfg_string d k))
  ∧ (∀ k v, cfg_string c k = Some v → utf8 v = true → cfg_string d k = Some v).
Hypothesis standard_accepts : ∀ e, is_Some (parse5 e) → is_Some (parse_standard e) ∧ utf8 e = true.

Lemma cfg_ok_json ty c s :
  cfg_ok ty c → (∀ e, cfg_string c "cronExpression" = Some e → ty = TriggerTypeSchedule → utf8 e = true) →
  encode c = Some s → ∃ d, decode s = Some d ∧ cfg_ok ty d.
Proof.
  intros (H1 & H2 & H3) Hu (d & Hd & Hk & Hv)%json_keeps. exists d. split; [done|]. split_and!.
  - intros Ht. by apply Hk, H1.
  - intros Ht. destruct (H2 Ht) as (e & He & Hp). exists e. split; [by apply Hv; [|eapply Hu]|done].
  - intros Ht. by apply Hk, H3.
Qed.

(** A validated trigger has a configuration its type can be activated with. *)
Lemma Validate_cfg uuid ty c t t' s :
  CreateTrigger uuid ty c = Ok t → Validate parse5 known_location fmt_time t = Ok t' → encode (GetConfig t') = Some s →
  GetID t' = uuid ∧ ∃ d, decode s = Some d ∧ cfg_ok ty d.
Proof.
  intros (<- & _ & Hid)%CreateTrigger_type Hv He.
  assert (GetID t' = uuid ∧ cfg_ok (type_of t) (GetConfig t')
    ∧ ∀ e, cfg_string (GetConfig t') "cronExpression" = Some e → type_of t = TriggerTypeSchedule → utf8 e = true)
    as (Hid' & Hok & Hu); [|split; [done|by eapply cfg_ok_json]].
  destruct t as [t|t|t|t|t]; simpl in Hv, Hid.
  - unfold Webhook_Validate in Hv. repeat case_match; simpl in Hv; simplify_eq. split_and!; [done|split_and!; [|done..]|done].
    intros _. unfold cfg_string, GetConfig. simpl. json_lookup. by eexists.
  - unfold Schedule_Validate in Hv. destruct (bool_decide (stCronExpression t = "")); [done|].
    destruct (parse5 (stCronExpression t)) as [cs|] eqn:Hp; [|done].
    destruct (standard_accepts (stCronExpression t)) as [Hs Hu]; [by eexists|].
    destruct (negb _); [done|]. destruct (match stStartDate t with Some _ => _ | None => _ end); [done|].
    simpl in Hv. simplify_eq. unfold GetConfig. simpl.
    set (c' := match stEndDate t with Some _ => _ | None => _ end).
    assert (cfg_string c' "cronExpression" = Some (stCronExpression t)) as Hc.
    { unfold c', cfg_string. destruct (stStartDate t), (stEndDate t); json_lookup; done. }
    split_and!; [done|split_and!; [done|by eauto|done]|]. intros e. rewrite Hc. by intros [= <-].
  - unfold Event_Validate in Hv. repeat case_match; simpl in Hv; simplify_eq. split_and!; [done|split_and!; [done..|]|done].
    intros _. unfold cfg_string, GetConfig. simpl. json_lookup. by eexists.
  - unfold Manual_Validate in Hv. simpl in Hv. simplify_eq. split_and!; [done|by split_and!|done].
  - unfold Email_Validate in Hv. repeat case_match; simpl in Hv; simplify_eq. split_and!; [done|by split_and!|done].
Qed.

(** *** The memory *)

Lemma runs_ext V V' st :
  (∀ id t, V' !! id = Some t → wtID t = id) →
  (∀ id, V' !! id ≫= hook_of = V !! id ≫= hook_of) → (∀ id, V' !! id ≫= job_of = V !! id ≫= job_of) →
  runs V st → runs V' st.
Proof.
  intros Hid H1 H2 [_ Hh Hj Hl Ho]. constructor; [done| | |done|done]; intros id; rewrite ?H1, ?H2; [apply Hh|apply Hj].
Qed.

(** Steps that leave the memory alone. *)
Lemma runs_frame V st st' :
  tmCron st' = tmCron st → tmJobs st' = tmJobs st → tmWebhooks st' = tmWebhooks st → tmSchedules st' = tmSchedules st →
  runs V st → runs V st'.
Proof.
  intros E1 E2 E3 E4 [Hi Hh Hj Hl Ho]. unfold live_job in *.
  by constructor; unfold live_job; rewrite ?E1, ?E2, ?E3, ?E4.
Qed.

(** A row whose triggers are neither webhooks nor schedules, or not active. *)
Lemma runs_insert_silent V st t :
  runs V st → hook_of t = None → job_of t = None →
  V !! wtID t ≫= hook_of = None → V !! wtID t ≫= job_of = None → runs (<[wtID t := t]> V) st.
Proof.
  intros H H1 H2 H3 H4. apply (runs_ext V); [| | |done].
  - intros id t' [[<- <-]|[_ ?]]%lookup_insert_Some; [done|]. by apply (ru_ids _ _ H).
  - intros id. destruct (decide (id = wtID t)) as [->|]; [|by rewrite lookup_insert_ne].
    rewrite lookup_insert_eq. simpl. by rewrite H1, H3.
  - intros id. destruct (decide (id = wtID t)) as [->|]; [|by rewrite lookup_insert_ne].
    rewrite lookup_insert_eq. simpl. by rewrite H2, H4.
Qed.

Lemma runs_delete_silent V st id :
  runs V st → V !! id ≫= hook_of = None → V !! id ≫= job_of = None → runs (delete id V) st.
Proof.
  intros H H3 H4. apply (runs_ext V); [| | |done].
  - intros id' t' [_ ?]%lookup_delete_Some. by apply (ru_ids _ _ H).
  - intros id'. destruct (decide (id' = id)) as [->|]; [|by rewrite lookup_delete_ne].
    rewrite lookup_delete_eq. by rewrite H3.
  - intros id'. destruct (decide (id' = id)) as [->|]; [|by rewrite lookup_delete_ne].
    rewrite lookup_delete_eq. by rewrite H4.
Qed.

(** Two triggers never share an entry. *)
Lemma entry_owner V st id1 id2 e :
  runs V st → tmSchedules st !! id1 = Some e → tmSchedules st !! id2 = Some e → id1 = id2.
Proof.
  intros H H1 H2. destruct (ru_live _ _ H _ _ H1) as [j Hj].
  pose proof (ru_jobs _ _ H id1) as J1. pose proof (ru_jobs _ _ H id2) as J2.
  rewrite H1 in J1. rewrite H2 in J2. simpl in J1, J2. rewrite Hj in J1, J2.
  assert (∀ id, Some j = V !! id ≫= job_of → j.2.1 = id) as Ht.
  { intros id E. destruct (V !! id) as [t|] eqn:Hv; [|done]. simpl in E. unfold job_of in E.
    apply (ru_ids _ _ H) in Hv. case_bool_decide; [|done]. destruct (decode _) as [c|]; [|done]. simpl in E.
    destruct (cfg_string _ _); [|done]. simpl in E. destruct (parse_standard _); [|done]. simpl in E. by simplify_eq. }
  rewrite <- (Ht _ J1). by apply Ht.
Qed.

Lemma no_job_no_schedule V st id : runs V st → V !! id ≫= job_of = None → tmSchedules st !! id = None.
Proof.
  intros H Hn. destruct (tmSchedules st !! id) as [e|] eqn:E; [|done].
  destruct (ru_live _ _ H _ _ E) as [j Hj]. pose proof (ru_jobs _ _ H id) as J. rewrite E, Hn in J. simpl in J. congruence.
Qed.

(** The rows of one trigger that differ in the status only. *)
Record same_trigger (t t' : WorkflowTrigger) : Prop := {
  sm_id : wtID t' = wtID t;
  sm_workflow : wtWorkflowID t' = wtWorkflowID t;
  sm_type : wtType t' = wtType t;
  sm_name : wtName t' = wtName t;
  sm_config : wtConfig t' = wtConfig t
}.

Lemma hook_of_type t : wtType t ≠ TriggerTypeWebhook → hook_of t = None.
Proof. intros H. unfold hook_of. rewrite bool_decide_false; [done|naive_solver]. Qed.
Lemma job_of_type t : wtType t ≠ TriggerTypeSchedule → job_of t = None.
Proof. intros H. unfold job_of. rewrite bool_decide_false; [done|naive_solver]. Qed.
Lemma inactive_silent t : wtStatus t ≠ TriggerStatusActive → hook_of t = None ∧ job_of t = None.
Proof. intros H. unfold hook_of, job_of. rewrite !bool_decide_false by naive_solver. done. Qed.

Lemma webhook_runs V st t t' uuid c :
  runs V st → same_trigger t t' → wtStatus t' = TriggerStatusActive → wtType t = TriggerTypeWebhook →
  decode (wtConfig t) = Some c → is_Some (cfg_string c "path") → V !! wtID t ≫= job_of = None →
  ∃ st', activateWebhookTrigger st t c uuid = Ret st' ∧ tmTable st' = tmTable st ∧ runs (<[wtID t := t']> V) st'.
Proof.
  intros H [Ei Ew Et En Ec] Ha Ht Hc [path Hp] Hj. unfold activateWebhookTrigger. rewrite Hp. eexists.
  split_and!; [done..|]. constructor; simpl; [| | |apply (ru_live _ _ H)|apply (ru_owned _ _ H)].
  - intros id t1 [[<- <-]|[_ ?]]%lookup_insert_Some; [done|]. by apply (ru_ids _ _ H).
  - intros id. destruct (decide (id = wtID t)) as [->|].
    + rewrite !lookup_insert_eq. simpl. unfold hook_of. rewrite Ec, Ei, Ew, En, Hc. simpl.
      rewrite bool_decide_true by (split; [done|congruence]). by rewrite Hp.
    + rewrite !lookup_insert_ne by done. apply (ru_hooks _ _ H).
  - intros id. transitivity (V !! id ≫= job_of); [exact (ru_jobs _ _ H id)|].
    destruct (decide (id = wtID t)) as [->|]; [|by rewrite lookup_insert_ne].
    rewrite lookup_insert_eq. simpl. rewrite Hj, job_of_type; [done|]. by rewrite Et, Ht.
Qed.

Lemma schedule_runs V st t t' c :
  runs V st → same_trigger t t' → wtStatus t' = TriggerStatusActive → wtType t = TriggerTypeSchedule →
  decode (wtConfig t) = Some c → (∃ e, cfg_string c "cronExpression" = Some e ∧ is_Some (parse_standard e)) →
  V !! wtID t ≫= hook_of = None → V !! wtID t ≫= job_of = None →
  ∃ st', activateScheduleTrigger st t c = Ret (None, st') ∧ tmTable st' = tmTable st
         ∧ runs (<[wtID t := t']> V) st'.
Proof.
  intros H [Ei Ew Et En Ec] Ha Ht Hc (x & Hx & cs & Hcs) Hh Hj. unfold activateScheduleTrigger. rewrite Hx, Hcs.
  destruct (cron_schedule (tmCron st) cs (length (tmJobs st))) as [e cron] eqn:E. eexists. split_and!; [done..|].
  pose proof (schedule_entries (tmCron st) cs (length (tmJobs st))) as He.
  pose proof (schedule_fresh (tmCron st) cs (length (tmJobs st))) as Hf. rewrite E in He, Hf. simpl in He, Hf.
  pose proof (no_job_no_schedule _ _ _ H Hj) as Hnone.
  set (st' := put_cron _ _ _ _).
  assert (∀ e', is_Some (live_job st e') → live_job st' e' = live_job st e') as Hold.
  { intros e' [j Hl]. rewrite Hl. unfold live_job in *. simpl. rewrite He.
    destruct (cron_entries (tmCron st) !! e') as [[cs' h]|] eqn:Hc'; [|done]. simpl in Hl.
    assert (e' ≤ cron_last (tmCron st))%Z by (apply entries_issued; by rewrite Hc').
    rewrite lookup_insert_ne by lia. rewrite Hc'. simpl. destruct (tmJobs st !! h) as [w|] eqn:Hw; [|done].
    by rewrite (lookup_app_l_Some _ _ _ _ Hw). }
  assert (live_job st' e = Some (cs, (wtID t, wtWorkflowID t))) as Hnew.
  { unfold live_job. simpl. rewrite He, lookup_insert_eq. simpl. by rewrite list_lookup_middle. }
  constructor.
  - intros id t1 [[<- <-]|[_ ?]]%lookup_insert_Some; [done|]. by apply (ru_ids _ _ H).
  - intros id. simpl. rewrite (ru_hooks _ _ H). destruct (decide (id = wtID t)) as [->|]; [|by rewrite lookup_insert_ne].
    rewrite lookup_insert_eq. simpl. rewrite Hh, hook_of_type; [done|]. by rewrite Et, Ht.
  - intros id. simpl. destruct (decide (id = wtID t)) as [->|].
    + rewrite !lookup_insert_eq. simpl. rewrite Hnew. unfold job_of. rewrite Ec, Ei, Ew, Hc. simpl.
      rewrite bool_decide_true by (split; [done|congruence]). rewrite Hx. simpl. by rewrite Hcs.
    + rewrite !lookup_insert_ne by done. rewrite <- (ru_jobs _ _ H).
      destruct (tmSchedules st !! id) as [e'|] eqn:Hs; [|done]. simpl. apply Hold. by eapply (ru_live _ _ H).
  - intros id e'. simpl. rewrite lookup_insert_Some. intros [[<- <-]|[_ Hs]]; [by rewrite Hnew|].
    apply (ru_live _ _ H) in Hs. by rewrite Hold.
  - intros e'. simpl. rewrite He, lookup_insert_is_Some. intros [<-|[_ (id & Hs)%(ru_owned _ _ H)]].
    + exists (wtID t). by rewrite lookup_insert_eq.
    + exists id. rewrite lookup_insert_ne; [done|]. intros <-. congruence.
Qed.

(** Activating a row whose trigger does not run yet. *)
Lemma activate_runs V st t t' uuid err :
  runs V st → row_ok (wtID t) t → same_trigger t t' → wtStatus t' = TriggerStatusActive →
  V !! wtID t ≫= hook_of = None → V !! wtID t ≫= job_of = None →
  ∃ r st', activateTrigger st t uuid err = Ret (r, st') ∧ tmTable st' = tmTable st
           ∧ runs (<[wtID t := t']> V) st' ∧ (r ≠ None → runs V st').
Proof.
  intros H (_ & c & Hc & Hw & Hs & He) Hsm Ha Hh Hj. unfold activateTrigger. rewrite Hc.
  assert (wtType t ≠ TriggerTypeWebhook → wtType t ≠ TriggerTypeSchedule →
    ∀ st', tmCron st' = tmCron st → tmJobs st' = tmJobs st → tmWebhooks st' = tmWebhooks st →
      tmSchedules st' = tmSchedules st → runs (<[wtID t := t']> V) st' ∧ runs V st') as Hother.
  { intros Hn1 Hn2 st' E1 E2 E3 E4. assert (runs V st') as H' by by apply (runs_frame V st). split; [|done].
    rewrite <- (sm_id _ _ Hsm). apply runs_insert_silent; rewrite ?(sm_id _ _ Hsm); [done| | |done|done].
    - apply hook_of_type. by rewrite (sm_type _ _ Hsm).
    - apply job_of_type. by rewrite (sm_type _ _ Hsm). }
  case_bool_decide as T1.
  { destruct (webhook_runs V st t t' uuid c) as (st' & -> & ? & ?); [by auto..|]. by exists None, st'. }
  case_bool_decide as T2.
  { destruct (schedule_runs V st t t' c) as (st' & -> & ? & ?); [by auto..|]. by exists None, st'. }
  specialize (Hother T1 T2). case_bool_decide as T3.
  { destruct (He T3) as [e Hev]. unfold activateEventTrigger, redis_set. rewrite Hev.
    destruct err; eexists _, _; (split; [reflexivity|]); (split; [done|]); by (split; [|intros _]; apply Hother). }
  case_bool_decide as T4; [|case_bool_decide as T5; [unfold activateEmailTrigger, redis_set; destruct err|]];
    eexists _, _; (split; [reflexivity|]); (split; [done|]); by (split; [|intros _]; apply Hother).
Qed.

(** Removing the cron entry of a trigger. *)
Lemma remove_runs V st id e :
  runs V st → tmSchedules st !! id = Some e → V !! id ≫= hook_of = None →
  runs (delete id V) (put_cron st (cron_remove (tmCron st) e) (tmJobs st) (delete id (tmSchedules st))).
Proof.
  intros H E Hh. set (st' := put_cron _ _ _ _).
  assert (∀ e', e' ≠ e → live_job st' e' = live_job st e') as Hold.
  { intros e' Hne. unfold live_job. simpl. by rewrite remove_entries, lookup_delete_ne. }
  assert (∀ id' e', id' ≠ id → tmSchedules st !! id' = Some e' → e' ≠ e) as Hinj.
  { intros id' e' Hne Hs ->. by apply Hne, (entry_owner V st id' id e). }
  constructor; simpl.
  - intros id' t1 [_ ?]%lookup_delete_Some. by apply (ru_ids _ _ H).
  - intros id'. rewrite (ru_hooks _ _ H), lookup_delete. case_decide; [|done]. by subst.
  - intros id'. rewrite !lookup_delete. case_decide; [done|]. rewrite <- (ru_jobs _ _ H).
    destruct (tmSchedules st !! id') as [e'|] eqn:Hs; [|done]. simpl. apply Hold. by eapply Hinj.
  - intros id' e' [Hne Hs]%lookup_delete_Some. rewrite Hold by by eapply Hinj. by eapply (ru_live _ _ H).
  - intros e'. rewrite remove_entries. intros [p [Hne Hp]%lookup_delete_Some].
    destruct (ru_owned _ _ H e') as [id' Hs]; [by eexists|]. exists id'. rewrite lookup_delete_ne; [done|congruence].
Qed.

(** Stopping the trigger of a row, whatever its type. *)
Lemma deactivate_runs V st t t0 err fails :
  runs V st → V !! wtID t = Some t0 → wtType t0 = wtType t →
  ∃ r st', deactivateTrigger st t err fails = (r, st') ∧ tmTable st' = tmTable st
           ∧ runs (delete (wtID t) V) st' ∧ (r ≠ None → runs V st').
Proof.
  intros H Hv Ht. unfold deactivateTrigger.
  assert (∀ ty, wtType t = ty → ty ≠ TriggerTypeWebhook → V !! wtID t ≫= hook_of = None) as Hh.
  { intros ty T Hne. rewrite Hv. simpl. apply hook_of_type. congruence. }
  assert (∀ ty, wtType t = ty → ty ≠ TriggerTypeSchedule → V !! wtID t ≫= job_of = None) as Hj.
  { intros ty T Hne. rewrite Hv. simpl. apply job_of_type. congruence. }
  assert (∀ id t1, delete (wtID t) V !! id = Some t1 → wtID t1 = id) as Hids.
  { intros id t1 [_ ?]%lookup_delete_Some. by apply (ru_ids _ _ H). }
  case_bool_decide as T1.
  { eexists _, _. split_and!; [done..| |done]. constructor; simpl; [done| | |apply (ru_live _ _ H)|apply (ru_owned _ _ H)].
    - intros id. rewrite (lookup_delete (tmWebhooks st)), lookup_delete. case_decide; [done|]. apply (ru_hooks _ _ H).
    - intros id. transitivity (V !! id ≫= job_of); [exact (ru_jobs _ _ H id)|]. rewrite lookup_delete.
      case_decide; [|done]. subst id. by apply (Hj _ T1). }
  case_bool_decide as T2.
  { eexists _, _. split_and!; [done|by unfold deactivateScheduleTrigger; case_match| |done].
    pose proof (Hh _ T2) as Hn. unfold deactivateScheduleTrigger.
    destruct (tmSchedules st !! wtID t) as [e|] eqn:E.
    2:{ apply runs_delete_silent; [done|by apply Hn|]. rewrite <- (ru_jobs _ _ H), E. done. }
    apply (remove_runs V st (wtID t) e); [done..|by apply Hn]. }
  assert (∀ st', tmCron st' = tmCron st → tmJobs st' = tmJobs st → tmWebhooks st' = tmWebhooks st →
      tmSchedules st' = tmSchedules st → runs (delete (wtID t) V) st' ∧ runs V st') as Hother.
  { intros st' E1 E2 E3 E4. assert (runs V st') as H' by by apply (runs_frame V st). split; [|done].
    apply runs_delete_silent; [done|by apply (Hh _ eq_refl)|by apply (Hj _ eq_refl)]. }
  repeat case_bool_decide; unfold deactivateEventTrigger, deactivateEmailTrigger; try destruct err;
    eexists _, _; (split; [reflexivity|]); (split; [done|]); by (split; [|intros _]; apply Hother).
Qed.

(** *** The operations *)

Lemma publish_inv st ty d err : tm_inv st → tm_inv (publishEvent st ty d err).
Proof. destruct err; [done|]. intros [Hr H]. split; [done|]. by apply (runs_frame _ st). Qed.

(** Writing the row that the memory runs already. *)
Lemma put_row_inv st V : map_Forall row_ok V → runs V st → tm_inv (put_row st V).
Proof. intros Hr H. split; [done|]. by apply (runs_frame _ st). Qed.

Lemma GetTrigger_row st id err t :
  tm_inv st → GetTrigger st id err = Ok t → tmTable st !! id = Some t ∧ wtID t = id ∧ row_ok id t.
Proof.
  intros [Hr _]. unfold GetTrigger. destruct err; [done|]. destruct (tmTable st !! id) as [t'|] eqn:E; [|done].
  intros [= <-]. pose proof (Hr _ _ E) as Hok. split_and!; [done|apply Hok|done].
Qed.

Lemma create_inv st wf c uuid now errs r st' :
  tm_inv st → Manager_CreateTrigger st wf c uuid now errs = Ret (r, st') → tm_inv st'.
Proof.
  intros H. unfold Manager_CreateTrigger. set (c' := <["workflowId" := _]> c).
  destruct (cfg_string c' "type") as [ty|]; [|by intros [= _ <-]].
  destruct (CreateTrigger uuid ty c') as [t|] eqn:E1; [|by intros [= _ <-]].
  destruct (Validate _ _ _ t) as [t'|] eqn:E2; [|by intros [= _ <-]].
  destruct (checkDuplicateTrigger _ _ _ _ _); [by intros [= _ <-]|].
  destruct (encode (GetConfig t')) as [s|] eqn:E3; [|by intros [= _ <-]].
  destruct (cfg_string c' "name") as [name|]; [|done].
  destruct (erWrite errs); [by intros [= _ <-]|]. simpl.
  destruct (tmTable st !! GetID t') eqn:E4; [by intros [= _ <-]|]. intros [= _ <-]. apply publish_inv.
  destruct H as [Hr H]. destruct (Validate_cfg _ _ _ _ _ _ E1 E2 E3) as [_ Hok]. set (wt := {| wtID := _ |}).
  destruct (inactive_silent wt) as [S1 S2]; [done|]. apply put_row_inv.
  - apply map_Forall_insert_2; [|done]. by split.
  - change (GetID t') with (wtID wt). apply runs_insert_silent; [done..| |]; simpl; by rewrite E4.
Qed.

(** A trigger that is active runs, one that is not does not. *)
Lemma row_silent st id t :
  tm_inv st → tmTable st !! id = Some t → wtStatus t ≠ TriggerStatusActive →
  tmTable st !! id ≫= hook_of = None ∧ tmTable st !! id ≫= job_of = None.
Proof. intros _ -> [H1 H2]%inactive_silent. done. Qed.

Lemma activate_inv st id uuid now errs :
  tm_inv st → erWrite errs = None →
  ∃ r st', ActivateTrigger st id uuid now errs = Ret (r, st') ∧ tm_inv st'.
Proof.
  intros H Hw. unfold ActivateTrigger. destruct (GetTrigger st id (erRead errs)) as [t|e] eqn:E; [|by eauto].
  destruct (GetTrigger_row _ _ _ _ H E) as (Ht & <- & Hok). case_bool_decide as Ha; [by eauto|].
  destruct (row_silent _ _ _ H Ht Ha) as [S1 S2]. destruct H as [Hr H].
  destruct (activate_runs _ _ _ (set_wt_status t TriggerStatusActive now) uuid (erRedis errs) H Hok)
    as (r & st' & -> & Et & Hnew & Hold); [done..|].
  destruct r as [e|]; (eexists _, _; split; [rewrite ?Hw; reflexivity|]).
  - split; [by rewrite Et|]. rewrite Et. by apply Hold.
  - apply publish_inv. rewrite Et. apply put_row_inv; [|done]. apply map_Forall_insert_2; [|done]. exact Hok.
Qed.

Lemma runs_reinsert V st t :
  wtStatus t ≠ TriggerStatusActive → runs (delete (wtID t) V) st → runs (<[wtID t := t]> V) st.
Proof.
  intros [S1 S2]%inactive_silent H. rewrite <- insert_delete_eq.
  apply runs_insert_silent; [done..| |]; by rewrite lookup_delete_eq.
Qed.

Lemma deactivate_inv st id now errs :
  tm_inv st → erWrite errs = None → tm_inv (DeactivateTrigger st id now errs).2.
Proof.
  intros H Hw. unfold DeactivateTrigger. destruct (GetTrigger st id (erRead errs)) as [t|e] eqn:E; [|done].
  destruct (GetTrigger_row _ _ _ _ H E) as (Ht & <- & Hok). case_bool_decide as Ha; [|done]. simpl.
  destruct H as [Hr H].
  destruct (deactivate_runs _ _ _ _ (erRedis errs) (erDel errs) H Ht eq_refl) as (r & st' & -> & Et & Hnew & Hold).
  destruct r as [e|].
  - split; simpl; rewrite Et; [done|]. by apply Hold.
  - rewrite Hw. apply publish_inv. rewrite Et. apply put_row_inv.
    + apply map_Forall_insert_2; [|done]. exact Hok.
    + by apply (runs_reinsert _ _ (set_wt_status t TriggerStatusInactive now)).
Qed.

(** A successful deactivation leaves the row inactive. *)
Lemma deactivate_row st id now errs st' :
  tm_inv st → DeactivateTrigger st id now errs = (None, st') →
  ∃ t, tmTable st' !! id = Some t ∧ wtStatus t = TriggerStatusInactive.
Proof.
  intros H. unfold DeactivateTrigger. destruct (GetTrigger st id (erRead errs)) as [t|e] eqn:E; [|done].
  destruct (GetTrigger_row _ _ _ _ H E) as (Ht & <- & Hok). destruct (negb _); [done|].
  destruct (deactivateTrigger st t _ _) as [[e|] st1]; [done|]. destruct (erWrite errs); [done|].
  intros [= <-]. exists (set_wt_status t TriggerStatusInactive now). split; [|done].
  unfold publishEvent. destruct (erBus errs); simpl; by rewrite lookup_insert_eq.
Qed.

Lemma delete_row_inv st id t :
  tm_inv st → tmTable st !! id = Some t → wtStatus t ≠ TriggerStatusActive →
  tm_inv (put_row st (delete id (tmTable st))).
Proof.
  intros H Ht Ha. destruct (row_silent _ _ _ H Ht Ha) as [S1 S2]. destruct H as [Hr H].
  apply put_row_inv; [by apply map_Forall_delete|by apply runs_delete_silent].
Qed.

Lemma delete_inv st id now errs del :
  tm_inv st → erWrite errs = None → tm_inv (DeleteTrigger st id now errs del).2.
Proof.
  intros H Hw. unfold DeleteTrigger. destruct (GetTrigger st id (erRead errs)) as [t|e] eqn:E; [|done].
  destruct (GetTrigger_row _ _ _ _ H E) as (Ht & _ & _). case_bool_decide as Ha.
  - pose proof (deactivate_inv st id now errs H Hw) as H1.
    destruct (DeactivateTrigger st id now errs) as [[e|] st1] eqn:D; [done|].
    destruct del; [done|]. apply publish_inv. simpl in H1.
    destruct (deactivate_row _ _ _ _ _ H D) as (t1 & Ht1 & Hs). apply (delete_row_inv _ _ t1); [done..|]. by rewrite Hs.
  - destruct del; [done|]. by apply publish_inv, (delete_row_inv _ _ t).
Qed.

Lemma tm_update_inv st id u uuid uuid2 now errs :
  tm_inv st → ∃ r st', UpdateTrigger st id u uuid uuid2 now errs = Ret (r, st') ∧ tm_inv st'.
Proof.
  intros H. unfold UpdateTrigger. destruct (GetTrigger st id (erRead errs)) as [t|e] eqn:E; [|by eauto].
  destruct (GetTrigger_row _ _ _ _ H E) as (Ht & <- & Hok). destruct (decode (wtConfig t)) as [c|]; [|by eauto].
  destruct (CreateTrigger uuid (wtType t) (merge_updates c u)) as [n|] eqn:E1; [|by eauto].
  destruct (Validate _ _ _ n) as [n'|] eqn:E2; [|by eauto].
  destruct (encode (GetConfig n')) as [s|] eqn:E3; [|by eauto]. destruct (erWrite errs); [by eauto|].
  destruct (Validate_cfg _ _ _ _ _ _ E1 E2 E3) as [_ Hcfg]. set (t' := set_wt_config t s now).
  assert (row_ok (wtID t) t') as Hok' by by split.
  assert (map_Forall row_ok (<[wtID t := t']> (tmTable st))) as Hrows by (apply map_Forall_insert_2; [done|apply H]).
  change (wtID t') with (wtID t). change (wtStatus t') with (wtStatus t).
  set (st1 := put_row st (<[wtID t := t']> (tmTable st))).
  assert (runs (tmTable st) st1) as H1 by (apply (runs_frame _ st); [done..|apply H]). case_bool_decide as Ha.
  - destruct (deactivate_runs _ _ t' t (erRedis errs) (erDel errs) H1 Ht eq_refl) as (r & st2 & -> & T2 & H2 & _).
    destruct (activate_runs _ _ t' t' uuid2 (erRedis errs) H2 Hok') as (r3 & st3 & -> & T3 & H3 & _); [done..| | |].
    1,2: by rewrite lookup_delete_eq.
    eexists _, _. split; [reflexivity|]. apply publish_inv. rewrite insert_delete_eq in H3.
    split; rewrite T3, T2; done.
  - eexists _, _. split; [reflexivity|]. apply publish_inv. split; [done|].
    destruct (row_silent _ _ _ H Ht Ha) as [S1 S2]. destruct (inactive_silent t' Ha) as [S3 S4].
    by apply (runs_insert_silent _ _ t').
Qed.

Lemma trigger_fire_inv st h now e1 e2 : tm_inv st → tm_inv (fireScheduleTrigger st h now e1 e2).
Proof.
  intros H. unfold fireScheduleTrigger. destruct (tmJobs st !! h) as [[id wf]|]; [|done]. apply publish_inv.
  destruct e1; [done|]. destruct (tmTable st !! id) as [t|] eqn:Ht; [|done]. destruct H as [Hr H].
  apply put_row_inv; [apply map_Forall_insert_2; [exact (Hr _ _ Ht)|done]|]. apply (runs_ext (tmTable st)); [| | |done].
  - intros id' t' [[<- <-]|[_ ?]]%lookup_insert_Some; [exact (ru_ids _ _ H _ _ Ht)|by apply (ru_ids _ _ H)].
  - intros id'. destruct (decide (id' = id)) as [->|]; [|by rewrite lookup_insert_ne]. by rewrite lookup_insert_eq, Ht.
  - intros id'. destruct (decide (id' = id)) as [->|]; [|by rewrite lookup_insert_ne]. by rewrite lookup_insert_eq, Ht.
Qed.

Lemma tm_step_inv st st' : tm_step st st' → tm_inv st → tm_inv st'.
Proof.
  intros Hs H. destruct Hs as [st wf c uuid now errs r st' E|st id u uuid uuid2 now errs r st' E
    |st id uuid now errs r st' Hw E|st id now errs Hw|st id now errs del Hw|st h now e1 e2].
  - by eapply create_inv.
  - destruct (tm_update_inv st id u uuid uuid2 now errs H) as (r' & st1 & E' & H'). rewrite E in E'. by injection E' as _ <-.
  - destruct (activate_inv st id uuid now errs H Hw) as (r' & st1 & E' & H'). rewrite E in E'. by injection E' as _ <-.
  - by apply deactivate_inv.
  - by apply delete_inv.
  - by apply trigger_fire_inv.
Qed.

(** *** Start *)

Lemma load_runs ts st V err :
  runs V st → (∀ t, t ∈ ts → row_ok (wtID t) t ∧ wtStatus t = TriggerStatusActive ∧ V !! wtID t = None) →
  NoDup (wtID <$> ts) →
  ∃ st', load_triggers st ts err = Ret st' ∧ tmTable st' = tmTable st
         ∧ runs (list_to_map ((λ t, (wtID t, t)) <$> ts) ∪ V) st'.
Proof.
  revert st V. induction ts as [|t ts IH]; intros st V H Hts Hnd; simpl.
  { exists st. split_and!; [done..|]. by rewrite (left_id_L ∅ (∪)). }
  destruct (Hts t) as (Hok & Ha & Hv); [left|]. apply NoDup_cons in Hnd as [Hni Hnd].
  destruct (activate_runs V st t t "" err H Hok) as (r & st1 & -> & T1 & H1 & _); [done..| | |]; [by rewrite Hv..|].
  destruct (IH st1 _ H1) as (st' & -> & T2 & H2); [|done|].
  - intros t' Hin. destruct (Hts t') as (? & ? & ?); [by right|]. split_and!; [done..|].
    rewrite lookup_insert_ne; [done|]. intros Heq. apply Hni, list_elem_of_fmap. by exists t'.
  - exists st'. rewrite T2. split_and!; [done..|]. rewrite <- insert_union_r in H2; [by rewrite <- insert_union_l|].
    apply not_elem_of_list_to_map_1. by rewrite <- list_fmap_compose.
Qed.

Lemma active_lookup (tbl : gmap string WorkflowTrigger) ts id :
  map_Forall row_ok tbl → (∀ t, t ∈ ts ↔ tbl !! wtID t = Some t ∧ wtStatus t = TriggerStatusActive) →
  NoDup (wtID <$> ts) →
  let V : gmap string WorkflowTrigger := list_to_map ((λ t, (wtID t, t)) <$> ts) in
  tbl !! id = V !! id ∨ V !! id = None ∧ ∃ t, tbl !! id = Some t ∧ wtStatus t ≠ TriggerStatusActive.
Proof.
  intros Hrows Hts Hids V.
  assert (∀ t, V !! id = Some t ↔ tbl !! id = Some t ∧ wtStatus t = TriggerStatusActive) as HV.
  { intros t. unfold V. rewrite <- elem_of_list_to_map by by rewrite <- list_fmap_compose.
    rewrite list_elem_of_fmap. split.
    - intros (t' & [= -> ->] & Hin). by apply Hts.
    - intros [Ht Ha]. pose proof (proj1 (Hrows _ _ Ht)) as Hid. exists t. rewrite Hid. split; [done|].
      apply Hts. by rewrite Hid. }
  destruct (V !! id) as [t|] eqn:E; [left; by apply HV|]. destruct (tbl !! id) as [t|] eqn:Ht; [|by left].
  right. split; [done|]. exists t. split; [done|]. intros Ha. pose proof (proj2 (HV t) (conj eq_refl Ha)) as Hn. congruence.
Qed.

Lemma load_inv tbl redis ord err :
  map_Forall row_ok tbl → range_order tbl ord →
  ∃ st, loadActiveTriggers (NewTriggerManager tbl redis) ord None err = Ret (None, st) ∧ tm_inv st.
Proof.
  intros Hrows [Hnd Hord]. unfold loadActiveTriggers. simpl. set (ts := omap _ ord).
  assert (∀ t, t ∈ ts ↔ tbl !! wtID t = Some t ∧ wtStatus t = TriggerStatusActive) as Hts.
  { intros t. unfold ts. rewrite list_elem_of_omap. split.
    - intros (id & _ & E). destruct (tbl !! id) as [t'|] eqn:Ht; [|done]. case_bool_decide; [|done].
      simplify_eq. by rewrite (proj1 (Hrows _ _ Ht)).
    - intros [Ht Ha]. exists (wtID t). split; [apply Hord; by eexists|]. rewrite Ht. by rewrite bool_decide_true. }
  assert (NoDup (wtID <$> ts)) as Hids.
  { clear Hts Hord. unfold ts. clear ts. induction Hnd as [|id ord Hni Hnd IH]; simpl; [constructor|].
    destruct (tbl !! id) as [t|] eqn:Ht; [|done]. case_bool_decide; [|done]. simpl. constructor; [|done].
    rewrite (proj1 (Hrows _ _ Ht)). intros (t' & Hid & Hin)%list_elem_of_fmap. apply list_elem_of_omap in Hin as (id' & Hin & E).
    destruct (tbl !! id') as [t1|] eqn:Ht1; [|done]. case_bool_decide; [|done]. simplify_eq.
    apply Hni. by rewrite (proj1 (Hrows _ _ Ht1)) in *. }
  destruct (load_runs ts (NewTriggerManager tbl redis) ∅ err) as (st & -> & T & H).
  - constructor; simpl; [done|by intros; rewrite !lookup_empty..|done|].
    intros e. rewrite new_entries. by intros [? ?%lookup_empty_Some].
  - intros t [Ht Ha]%Hts. split_and!; [by apply Hrows|done|done].
  - done.
  - exists st. split; [done|]. unfold tm_inv. rewrite T. simpl. split; [done|]. rewrite (right_id_L ∅ (∪)) in H.
    apply (runs_ext (list_to_map ((λ t, (wtID t, t)) <$> ts))); [by intros id t [-> _]%Hrows| | |done]; intros id.
    + destruct (active_lookup tbl ts id Hrows Hts Hids) as [->|(-> & t & -> & Ha)]; [done|]. simpl. by apply inactive_silent.
    + destruct (active_lookup tbl ts id Hrows Hts Hids) as [->|(-> & t & -> & Ha)]; [done|]. simpl. by apply inactive_silent.
Qed.

(** C32. The manager runs what the table asks for: after a start on any table
    whose configurations can be used, and after any calls, cron jobs and
    failures of reads, Redis and the bus, the webhooks in memory are exactly
    those of the active webhook rows, each with the path, method and secret of
    its configuration; every active schedule row has one live cron entry, with
    its expression and its own job; no entry is left over; and activations and
    updates never panic. *)
Theorem trigger_manager_refinement tbl redis ord err :
  map_Forall row_ok tbl → range_order tbl ord →
  ∃ st0, Start (NewTriggerManager tbl redis) ord None err = Ret (None, st0)
  ∧ ∀ st, rtc tm_step st0 st →
      runs (tmTable st) st
      ∧ (∀ id1 id2 e, tmSchedules st !! id1 = Some e → tmSchedules st !! id2 = Some e → id1 = id2)
      ∧ (∀ id uuid now errs, erWrite errs = None → ∃ r st', ActivateTrigger st id uuid now errs = Ret (r, st'))
      ∧ (∀ id u uuid uuid2 now errs, ∃ r st', UpdateTrigger st id u uuid uuid2 now errs = Ret (r, st')).
Proof.
  intros Hr Ho. destruct (load_inv tbl redis ord err Hr Ho) as (st0 & E & H0). exists st0.
  split; [unfold Start; by rewrite E|].
  intros st Hs. assert (tm_inv st) as H by (clear E; induction Hs; eauto using tm_step_inv).
  split_and!; [apply H|by intros ??? H1 H2; eapply entry_owner; [apply H|..]| |].
  - intros id uuid now errs Hw. destruct (activate_inv st id uuid now errs H Hw) as (r & st' & ? & _). eauto.
  - intros id u uuid uuid2 now errs. destruct (tm_update_inv st id u uuid uuid2 now errs H) as (r & st' & ? & _). eauto.
Qed.

(** A test says that a trigger would fire for manual ones only: the trigger the
    factory builds is inactive. *)
Lemma test_never_fires st id data uuid ord err t b :
  TestTrigger st id data uuid ord err = Ret (Ok b) → tmTable st !! id = Some t →
  wtType t ≠ TriggerTypeManual → b = false.
Proof.
  unfold TestTrigger, GetTrigger. destruct err; [done|]. intros E Ht Hm. rewrite Ht in E.
  destruct (decode (wtConfig t)) as [c|]; [|done]. unfold CreateTrigger in E.
  do 5 (case_bool_decide; [first [done|injection E as <-; reflexivity]|]). done.
Qed.

End Manager.

(** ** Concrete runs *)

(** A JSON codec of one configuration. *)
Definition demo_strings (c : config) : gmap string string :=
  omap (λ v, match v with Dyn (VStr s) => Some s | _ => None end) c.
Definition demo_config : config := <["timezone" := Dyn (VStr "UTC")]> {["cronExpression" := Dyn (VStr "* * * * *")]}.
Definition demo_encode (c : config) : option string :=
  if bool_decide (demo_strings c = demo_strings demo_config) then Some "json" else None.
Definition demo_decode (s : string) : option config := if bool_decide (s = "json") then Some demo_config else None.
Definition demo_row (status : string) : WorkflowTrigger :=
  {| wtID := "t"; wtWorkflowID := "w"; wtType := TriggerTypeSchedule; wtName := "n"; wtDescription := "";
     wtStatus := status; wtConfig := "json"; wtCreatedAt := 0; wtUpdatedAt := 0; wtLastFired := None;
     wtFireCount := 0 |}.

Lemma demo_cfg_string c k : cfg_string c k = demo_strings c !! k.
Proof. unfold cfg_string, demo_strings. rewrite lookup_omap. by destruct (c !! k) as [[[]|]|]. Qed.

Lemma demo_json c s : demo_encode c = Some s → ∃ d, demo_decode s = Some d
  ∧ (∀ k, is_Some (cfg_string c k) → is_Some (cfg_string d k))
  ∧ (∀ k v, cfg_string c k = Some v → true = true → cfg_string d k = Some v).
Proof.
  unfold demo_encode. case_bool_decide as E; [|done]. intros [= <-]. exists demo_config. split; [done|].
  split; intros k; rewrite !demo_cfg_string, E; done.
Qed.

Lemma trigger_manager_refinement_witness :
  ∃ st0 : TriggerManager ListCron, Start demo_encode demo_decode (NewTriggerManager {["t" := demo_row "active"]} ∅) ["t"] None None
                                   = Ret (None, st0)
    ∧ runs demo_decode {["t" := demo_row "active"]} st0 ∧ tmSchedules st0 !! "t" = Some 1%Z.
Proof.
  destruct (trigger_manager_refinement (C := ListCron) parse_standard (λ _, true) (λ _, "") demo_encode demo_decode
    (λ _, true) demo_json (λ e H, conj H eq_refl) {["t" := demo_row "active"]} ∅ ["t"] None)
    as (st0 & E & H).
  - apply map_Forall_singleton. split; [done|]. exists demo_config. split; [done|]. split_and!; [done| |done].
    intros _. exists "* * * * *". split; [done|by eexists].
  - exact (keys_range_order {["t" := demo_row "active"]}).
  - exists st0. split; [done|]. destruct (H st0 (rtc_refl _ _)) as [Hr _].
    vm_compute in E. injection E as <-. split; [exact Hr|reflexivity].
Defined.

(** When the status cannot be saved, the cron entry stays; the next activation
    adds a second one and the first can no longer be removed. *)
Lemma failed_save_leaks_entry :
  let errs w := {| erRead := None; erRedis := None; erDel := λ _, false; erWrite := w; erBus := None |} in
  match ActivateTrigger demo_encode demo_decode (NewTriggerManager (C := ListCron) {["t" := demo_row "inactive"]} ∅) "t" "u" 0
          (errs (Some "db")) with
  | Ret (_, st) =>
      match ActivateTrigger demo_encode demo_decode st "t" "u" 0 (errs None) with
      | Ret (None, st) => size (cron_entries (tmCron st)) = 2
          ∧ size (cron_entries (tmCron (DeactivateTrigger st "t" 0 (errs None)).2)) = 1
      | _ => False
      end
  | _ => False
  end.
Proof. split; reflexivity. Qed.
