(* ===== verification/WorkerRegistry.v ===== *)
(** internal/executor/app/distributed/worker_registry.go: the registry of
    workers with its cache, over a backend given by an interface, and the two
    backends, on Redis and on etcd.  Registrations expire: every operation that
    depends on it takes the time.  A [net] says which command fails. *)

From S2P Require Import Prelude GoLib Partition Coordinator.

(** The failure of a command on a key, if it fails. *)
Abbreviation net := (string → string → option string).
Definition net_ok : net := λ _ _, None.

(** ** The interface *)

Class RegistryBackend (B : Type) := {
  be_register : B → WorkerNode → Z → Z → net → option string * B;      (* worker, ttl, now *)
  be_unregister : B → string → Z → net → option string * B;
  be_get : B → string → Z → net → result WorkerNode;
  be_list : B → list string → Z → net → result (list WorkerNode) * B;  (* in an order of the backend's *)
  be_refresh : B → string → Z → Z → net → option string * B;
  (* the specification: the registrations alive at a time, the orders in which
     they can be listed, the IDs and the workers that can be stored *)
  be_has : B → Z → string → WorkerNode → Prop;
  be_order : B → Z → list string → Prop;
  be_id : string → Prop;
  be_ok : WorkerNode → Prop;
  be_inv : B → Z → Prop
}.

Definition registry_ttl : Z := 30 * 1000000000.

(** What a backend promises, with the registry's time to live. *)
Class RegistryLaws (B : Type) `{!RegistryBackend B} := {
  law_register : ∀ b w now b', be_inv b now → be_id (wnID w) → be_ok w →
    be_register b w registry_ttl now net_ok = (None, b') →
    be_inv b' now ∧ ∀ t id w', (now ≤ t)%Z →
      be_has b' t id w' ↔ if decide (id = wnID w) then (t < now + registry_ttl)%Z ∧ w' = w else be_has b t id w';
  law_unregister : ∀ b id now b', be_inv b now → be_id id → be_unregister b id now net_ok = (None, b') →
    be_inv b' now ∧ ∀ t id' w', (now ≤ t)%Z → be_has b' t id' w' ↔ id' ≠ id ∧ be_has b t id' w';
  law_get : ∀ b id now w, be_inv b now → be_get b id now net_ok = Ok w ↔ be_has b now id w;
  law_list : ∀ b ord now, be_inv b now → be_order b now ord →
    ∃ ws b', be_list b ord now net_ok = (Ok ws, b') ∧ be_inv b' now
      ∧ (∀ t id w, be_has b' t id w ↔ be_has b t id w)
      ∧ (∀ w, w ∈ ws ↔ be_has b now (wnID w) w) ∧ NoDup (wnID <$> ws);
  law_refresh : ∀ b id now r b', be_inv b now → be_id id → be_refresh b id registry_ttl now net_ok = (r, b') →
    (r = None ↔ ∃ w, be_has b now id w) ∧ be_inv b' now
    ∧ ∀ t id' w', (now ≤ t)%Z →
        be_has b' t id' w' ↔ if decide (id' = id) then (t < now + registry_ttl)%Z ∧ be_has b now id w'
                             else be_has b t id' w';
  law_later : ∀ b now t, be_inv b now → (now ≤ t)%Z → be_inv b t;
  law_keyed : ∀ b t id w, be_inv b t → be_has b t id w → wnID w = id ∧ be_id id ∧ be_ok w
}.

(** ** The registry *)

(** A watched event can lack its worker: the cache can hold nil. *)
Record WorkerRegistry (B : Type) := { wrBackend : B; wrCache : gmap string (option WorkerNode) }.
Arguments wrBackend {_}. Arguments wrCache {_}.

Definition EventTypeWorkerAdded : string := "worker_added".
Definition EventTypeWorkerUpdated : string := "worker_updated".
Definition EventTypeWorkerRemoved : string := "worker_removed".
Record RegistryEvent := { reType : string; reWorkerID : string; reWorker : option WorkerNode }.

Section Registry.
Context {B : Type} `{!RegistryBackend B}.
Abbreviation WR := (WorkerRegistry B).

Definition NewWorkerRegistry (b : B) : WR := {| wrBackend := b; wrCache := ∅ |}.

Definition cache_all (ws : list WorkerNode) (c : gmap string (option WorkerNode)) : gmap string (option WorkerNode) :=
  foldl (λ c w, <[wnID w := Some w]> c) c ws.

Definition Registry_Register (r : WR) (w : WorkerNode) (now : Z) (f : net) : option string * WR :=
  match be_register (wrBackend r) w registry_ttl now f with
  | (Some e, b) => (Some ("failed to register worker: " +:+ e), {| wrBackend := b; wrCache := wrCache r |})
  | (None, b) => (None, {| wrBackend := b; wrCache := <[wnID w := Some w]> (wrCache r) |})
  end.

Definition Registry_Unregister (r : WR) (workerID : string) (now : Z) (f : net) : option string * WR :=
  match be_unregister (wrBackend r) workerID now f with
  | (Some e, b) => (Some ("failed to unregister worker: " +:+ e), {| wrBackend := b; wrCache := wrCache r |})
  | (None, b) => (None, {| wrBackend := b; wrCache := delete workerID (wrCache r) |})
  end.

Definition GetWorker (r : WR) (workerID : string) (now : Z) (f : net) : result (option WorkerNode) * WR :=
  match wrCache r !! workerID with
  | Some w => (Ok w, r)
  | None =>
      match be_get (wrBackend r) workerID now f with
      | Err e => (Err e, r)
      | Ok w => (Ok (Some w), {| wrBackend := wrBackend r; wrCache := <[workerID := Some w]> (wrCache r) |})
      end
  end.

Definition ListWorkers (r : WR) (ord : list string) (now : Z) (f : net) : result (list WorkerNode) * WR :=
  match be_list (wrBackend r) ord now f with
  | (Err e, b) => (Err e, {| wrBackend := b; wrCache := wrCache r |})
  | (Ok ws, b) => (Ok ws, {| wrBackend := b; wrCache := cache_all ws (wrCache r) |})
  end.

Definition RefreshWorker (r : WR) (workerID : string) (now : Z) (f : net) : option string * WR :=
  let '(e, b) := be_refresh (wrBackend r) workerID registry_ttl now f in
  (e, {| wrBackend := b; wrCache := wrCache r |}).

Definition handleRegistryEvent (r : WR) (ev : RegistryEvent) : WR :=
  if bool_decide (reType ev = EventTypeWorkerAdded) || bool_decide (reType ev = EventTypeWorkerUpdated) then
    {| wrBackend := wrBackend r; wrCache := <[reWorkerID ev := reWorker ev]> (wrCache r) |}
  else if bool_decide (reType ev = EventTypeWorkerRemoved) then
    {| wrBackend := wrBackend r; wrCache := delete (reWorkerID ev) (wrCache r) |}
  else r.

(** [refresh]: every refreshInterval, and at the start. *)
Definition refresh (r : WR) (ord : list string) (now : Z) (f : net) : option string * WR :=
  match be_list (wrBackend r) ord now f with
  | (Err e, b) => (Some e, {| wrBackend := b; wrCache := wrCache r |})
  | (Ok ws, b) => (None, {| wrBackend := b; wrCache := cache_all ws ∅ |})
  end.

End Registry.

(** ** The backend on Redis *)

(** The key space: strings with their expiry, and sets. *)
Inductive rval :=
  | RString (data : string) (expires : Z)
  | RSet (members : gset string).
Abbreviation redis := (gmap string rval).

Definition WRONGTYPE : string := "WRONGTYPE Operation against a key holding the wrong kind of value".

(** A key whose time has come is gone. *)
Definition rd_lookup (r : redis) (key : string) (now : Z) : option rval :=
  match r !! key with
  | Some (RString d e) => if bool_decide (now < e)%Z then Some (RString d e) else None
  | v => v
  end.
Definition rd_sadd (r : redis) (key m : string) (now : Z) : result redis :=
  match rd_lookup r key now with
  | Some (RString _ _) => Err WRONGTYPE
  | Some (RSet s) => Ok (<[key := RSet ({[m]} ∪ s)]> r)
  | None => Ok (<[key := RSet {[m]}]> r)
  end.
(** A set without members is not kept. *)
Definition rd_srem (r : redis) (key m : string) (now : Z) : result redis :=
  match rd_lookup r key now with
  | Some (RString _ _) => Err WRONGTYPE
  | Some (RSet s) => if bool_decide (s ∖ {[m]} = ∅) then Ok (delete key r) else Ok (<[key := RSet (s ∖ {[m]})]> r)
  | None => Ok r
  end.

Record RedisBackend := { rbPrefix : string; rbClient : redis }.
Record EtcdBackend := { ebPrefix : string; ebClient : gmap string (string * Z) }.

Section Backends.
(** JSON of a worker. *)
Context (encode : WorkerNode → option string) (decode : string → option WorkerNode).

Definition NewRedisBackend (client : redis) (prefix : string) : RedisBackend :=
  {| rbPrefix := if bool_decide (prefix = "") then "worker:registry:" else prefix; rbClient := client |}.

Definition rb_set (b : RedisBackend) (r : redis) : RedisBackend := {| rbPrefix := rbPrefix b; rbClient := r |}.
Definition rb_key (b : RedisBackend) (id : string) : string := rbPrefix b +:+ id.
Definition rb_members (b : RedisBackend) : string := rbPrefix b +:+ "workers".

Definition Redis_Register (b : RedisBackend) (w : WorkerNode) (ttl now : Z) (f : net) : option string * RedisBackend :=
  match encode w with
  | None => (Some "failed to marshal worker: unsupported", b)
  | Some data =>
      match f "SET" (rb_key b (wnID w)) with
      | Some e => (Some ("failed to set worker in Redis: " +:+ e), b)
      | None =>
          let b := rb_set b (<[rb_key b (wnID w) := RString data (now + ttl)]> (rbClient b)) in
          match f "SADD" (rb_members b), rd_sadd (rbClient b) (rb_members b) (wnID w) now with
          | Some e, _ | None, Err e => (Some ("failed to add worker to set: " +:+ e), b)
          | None, Ok r => (None, rb_set b r)
          end
      end
  end.

Definition Redis_Unregister (b : RedisBackend) (workerID : string) (now : Z) (f : net) : option string * RedisBackend :=
  match f "DEL" (rb_key b workerID) with
  | Some e => (Some ("failed to delete worker: " +:+ e), b)
  | None =>
      let b := rb_set b (delete (rb_key b workerID) (rbClient b)) in
      match f "SREM" (rb_members b), rd_srem (rbClient b) (rb_members b) workerID now with
      | Some e, _ | None, Err e => (Some ("failed to remove worker from set: " +:+ e), b)
      | None, Ok r => (None, rb_set b r)
      end
  end.

Definition Redis_Get (b : RedisBackend) (workerID : string) (now : Z) (f : net) : result WorkerNode :=
  match f "GET" (rb_key b workerID), rd_lookup (rbClient b) (rb_key b workerID) now with
  | Some e, _ => Err ("failed to get worker: " +:+ e)
  | None, None => Err ("worker not found: " +:+ workerID)
  | None, Some (RSet _) => Err ("failed to get worker: " +:+ WRONGTYPE)
  | None, Some (RString data _) =>
      match decode data with
      | None => Err "failed to unmarshal worker: invalid character"
      | Some w => Ok w
      end
  end.

(** The members in the order of the answer; any failure of the read removes the
    member from the set, and the failure of that is ignored. *)
Fixpoint list_loop (b : RedisBackend) (ids : list string) (now : Z) (f : net) : list WorkerNode * RedisBackend :=
  match ids with
  | [] => ([], b)
  | id :: ids' =>
      match Redis_Get b id now f with
      | Err _ =>
          let b := match f "SREM" id, rd_srem (rbClient b) (rb_members b) id now with
                   | None, Ok r => rb_set b r
                   | _, _ => b
                   end in
          list_loop b ids' now f
      | Ok w => let '(ws, b) := list_loop b ids' now f in (w :: ws, b)
      end
  end.
Definition Redis_List (b : RedisBackend) (ord : list string) (now : Z) (f : net) :
    result (list WorkerNode) * RedisBackend :=
  match f "SMEMBERS" (rb_members b), rd_lookup (rbClient b) (rb_members b) now with
  | Some e, _ => (Err ("failed to get worker IDs: " +:+ e), b)
  | None, Some (RString _ _) => (Err ("failed to get worker IDs: " +:+ WRONGTYPE), b)
  | None, _ => let '(ws, b) := list_loop b ord now f in (Ok ws, b)
  end.

Definition Redis_Refresh (b : RedisBackend) (workerID : string) (ttl now : Z) (f : net) : option string * RedisBackend :=
  match f "EXISTS" (rb_key b workerID), rd_lookup (rbClient b) (rb_key b workerID) now with
  | Some e, _ => (Some ("failed to check existence: " +:+ e), b)
  | None, None => (Some ("worker not found: " +:+ workerID), b)
  | None, Some v =>
      match f "EXPIRE" (rb_key b workerID) with
      | Some e => (Some ("failed to update TTL: " +:+ e), b)
      | None =>
          match v with
          | RString data _ => (None, rb_set b (<[rb_key b workerID := RString data (now + ttl)]> (rbClient b)))
          | RSet _ => (None, b)     (* the expiry of a set is not modelled *)
          end
      end
  end.

(** ** The backend on etcd *)

Definition NewEtcdBackend (client : gmap string (string * Z)) (prefix : string) : EtcdBackend :=
  {| ebPrefix := if bool_decide (prefix = "") then "/workers/" else prefix; ebClient := client |}.

Definition eb_set (b : EtcdBackend) (c : gmap string (string * Z)) : EtcdBackend :=
  {| ebPrefix := ebPrefix b; ebClient := c |}.
Definition eb_key (b : EtcdBackend) (id : string) : string := ebPrefix b +:+ id.
Definition et_lookup (c : gmap string (string * Z)) (key : string) (now : Z) : option string :=
  match c !! key with
  | Some (d, e) => if bool_decide (now < e)%Z then Some d else None
  | None => None
  end.

(** The lease is granted in whole seconds. *)
Definition Etcd_Register (b : EtcdBackend) (w : WorkerNode) (ttl now : Z) (f : net) : option string * EtcdBackend :=
  match encode w with
  | None => (Some "failed to marshal worker: unsupported", b)
  | Some data =>
      match f "GRANT" "" with
      | Some e => (Some ("failed to create lease: " +:+ e), b)
      | None =>
          match f "PUT" (eb_key b (wnID w)) with
          | Some e => (Some ("failed to register worker: " +:+ e), b)
          | None => (None, eb_set b (<[eb_key b (wnID w) := (data, now + (ttl `quot` 1000000000) * 1000000000)%Z]>
                                       (ebClient b)))
          end
      end
  end.

Definition Etcd_Unregister (b : EtcdBackend) (workerID : string) (now : Z) (f : net) : option string * EtcdBackend :=
  match f "DELETE" (eb_key b workerID) with
  | Some e => (Some ("failed to unregister worker: " +:+ e), b)
  | None => (None, eb_set b (delete (eb_key b workerID) (ebClient b)))
  end.

Definition Etcd_Get (b : EtcdBackend) (workerID : string) (now : Z) (f : net) : result WorkerNode :=
  match f "GET" (eb_key b workerID), et_lookup (ebClient b) (eb_key b workerID) now with
  | Some e, _ => Err ("failed to get worker: " +:+ e)
  | None, None => Err ("worker not found: " +:+ workerID)
  | None, Some data =>
      match decode data with
      | None => Err "failed to unmarshal worker: invalid character"
      | Some w => Ok w
      end
  end.

(** The keys with the prefix, in the order of the answer. *)
Definition Etcd_List (b : EtcdBackend) (ord : list string) (now : Z) (f : net) :
    result (list WorkerNode) * EtcdBackend :=
  match f "GET" (ebPrefix b) with
  | Some e => (Err ("failed to list workers: " +:+ e), b)
  | None => (Ok (omap (λ key, if String.prefix (ebPrefix b) key
                              then et_lookup (ebClient b) key now ≫= decode else None) ord), b)
  end.

Definition Etcd_Refresh (b : EtcdBackend) (workerID : string) (ttl now : Z) (f : net) : option string * EtcdBackend :=
  match Etcd_Get b workerID now f with
  | Err e => (Some e, b)
  | Ok w => Etcd_Register b w ttl now f
  end.

(** [Watch] on etcd: what becomes of an event of the client. *)
Inductive etcd_event :=
  | EvPut (key value : string) (created : bool)
  | EvDelete (key : string).
Definition Etcd_Watch (b : EtcdBackend) (ev : etcd_event) : option RegistryEvent :=
  let id key := String.substring (String.length (ebPrefix b)) (String.length key - String.length (ebPrefix b)) key in
  match ev with
  | EvPut key value created =>
      match decode value with
      | None => None
      | Some w => Some {| reType := if created then EventTypeWorkerAdded else EventTypeWorkerUpdated;
                          reWorkerID := id key; reWorker := Some w |}
      end
  | EvDelete key => Some {| reType := EventTypeWorkerRemoved; reWorkerID := id key; reWorker := None |}
  end.

(** ** The backends keep the promise *)

(** JSON gives back the workers [valid] accepts (strings that are valid UTF-8). *)
Context (valid : WorkerNode → Prop).
Hypothesis json_round_trip : ∀ w s, valid w → encode w = Some s → decode s = Some w.

Definition members (b : RedisBackend) : gset string :=
  match rbClient b !! rb_members b with Some (RSet s) => s | _ => ∅ end.

Record redis_inv (b : RedisBackend) (now : Z) : Prop := {
  rv_members : ∀ d e, rbClient b !! rb_members b ≠ Some (RString d e);
  rv_live : ∀ id d e, rbClient b !! rb_key b id = Some (RString d e) → (now < e)%Z →
    ∃ w, decode d = Some w ∧ wnID w = id ∧ valid w ∧ id ∈ members b;
  rv_strings : ∀ id s, rbClient b !! rb_key b id = Some (RSet s) → id = "workers";
  rv_workers : "workers" ∉ members b
}.
Definition redis_has (b : RedisBackend) (t : Z) (id : string) (w : WorkerNode) : Prop :=
  ∃ d e, rbClient b !! rb_key b id = Some (RString d e) ∧ (t < e)%Z ∧ decode d = Some w.

#[global] Instance redis_backend : RegistryBackend RedisBackend := {
  be_register := Redis_Register;
  be_unregister := Redis_Unregister;
  be_get := Redis_Get;
  be_list := Redis_List;
  be_refresh := Redis_Refresh;
  be_has := redis_has;
  be_order b _ ord := NoDup ord ∧ ∀ id, id ∈ ord ↔ id ∈ members b;
  be_id id := id ≠ "workers";      (* the key of the set of IDs: [workers_id_collides] *)
  be_ok := valid;
  be_inv := redis_inv
}.

Lemma rb_key_inj b id id' : rb_key b id = rb_key b id' ↔ id = id'.
Proof. unfold rb_key. split; [apply (inj _)|by intros ->]. Qed.

Lemma rb_key_members b id : id ≠ "workers" → rb_key b id ≠ rb_members b.
Proof. intros H E. by apply H, (rb_key_inj b id "workers"). Qed.

(** Reading and writing the set, which is never a string. *)
Lemma sadd_ok b id now :
  (∀ d e, rbClient b !! rb_members b ≠ Some (RString d e)) →
  rd_sadd (rbClient b) (rb_members b) id now = Ok (<[rb_members b := RSet ({[id]} ∪ members b)]> (rbClient b)).
Proof.
  intros H. unfold rd_sadd, rd_lookup, members.
  destruct (rbClient b !! rb_members b) as [[d e|s]|] eqn:E; [by destruct (H d e)|done|].
  by rewrite (right_id_L ∅ (∪)).
Qed.

Lemma srem_ok b id now :
  (∀ d e, rbClient b !! rb_members b ≠ Some (RString d e)) →
  ∃ r, rd_srem (rbClient b) (rb_members b) id now = Ok r
       ∧ (∀ key, key ≠ rb_members b → r !! key = rbClient b !! key)
       ∧ (∀ d e, r !! rb_members b ≠ Some (RString d e)) ∧ members (rb_set b r) = members b ∖ {[id]}.
Proof.
  intros H. unfold rd_srem, rd_lookup, members, rb_set, rb_members in *. simpl.
  destruct (rbClient b !! (rbPrefix b +:+ "workers")) as [[d e|s]|] eqn:E; [by destruct (H d e)| |].
  - case_bool_decide as Hs; eexists; (split; [done|]); rewrite ?lookup_delete_eq, ?lookup_insert_eq.
    + split_and!; [intros; by apply lookup_delete_ne|done|by rewrite Hs].
    + split_and!; [intros; by apply lookup_insert_ne|done|done].
  - exists (rbClient b). rewrite E. split_and!; [done..|set_solver].
Qed.

Lemma members_insert_key b id v : id ≠ "workers" → members (rb_set b (<[rb_key b id := v]> (rbClient b))) = members b.
Proof.
  intros H. unfold members, rb_set, rb_members. simpl. rewrite lookup_insert_ne; [done|]. by apply rb_key_members.
Qed.

Lemma redis_register_ok b w ttl now b' :
  redis_inv b now → wnID w ≠ "workers" → Redis_Register b w ttl now net_ok = (None, b') →
  ∃ data, encode w = Some data
    ∧ b' = rb_set b (<[rb_members b := RSet ({[wnID w]} ∪ members b)]>
                       (<[rb_key b (wnID w) := RString data (now + ttl)]> (rbClient b))).
Proof.
  intros [Hm _ _ _] Hid. unfold Redis_Register. destruct (encode w) as [data|]; [|done].
  change (net_ok _ _) with (@None string).
  set (b1 := rb_set b _). rewrite sadd_ok.
  - intros [= <-]. exists data. split; [done|]. unfold b1. by rewrite members_insert_key.
  - intros d e. change (rb_members b1) with (rb_members b). simpl. rewrite lookup_insert_ne; [apply Hm|].
    by apply rb_key_members.
Qed.

Lemma redis_register_law b w now b' :
  redis_inv b now → wnID w ≠ "workers" → valid w → Redis_Register b w registry_ttl now net_ok = (None, b') →
  redis_inv b' now ∧ ∀ t id w', (now ≤ t)%Z →
    redis_has b' t id w' ↔ if decide (id = wnID w) then (t < now + registry_ttl)%Z ∧ w' = w else redis_has b t id w'.
Proof.
  intros Hinv Hid Hv Hr. destruct (redis_register_ok _ _ _ _ _ Hinv Hid Hr) as (data & Hd & ->).
  pose proof (json_round_trip _ _ Hv Hd) as Hdec. destruct Hinv as [Hm Hl Hst Hw].
  set (b' := rb_set b _). assert (∀ id, rbClient b' !! rb_key b id =
    if decide (id = "workers") then Some (RSet ({[wnID w]} ∪ members b))
    else if decide (id = wnID w) then Some (RString data (now + registry_ttl)) else rbClient b !! rb_key b id) as Hk.
  { intros id. unfold b'. simpl. case_decide as E1; [subst; apply lookup_insert_eq|].
    rewrite lookup_insert_ne by (intros E; by apply (rb_key_members b id)). case_decide as E2.
    - subst id. by rewrite lookup_insert_eq.
    - rewrite lookup_insert_ne; [done|]. intros E%rb_key_inj. congruence. }
  assert (members b' = {[wnID w]} ∪ members b) as Hmem.
  { unfold members at 1, b', rb_set, rb_members. simpl. by rewrite lookup_insert_eq. }
  split.
  - constructor; [|intros id d e|intros id s|rewrite Hmem; set_solver].
    + intros d e. change (rb_members b') with (rb_key b "workers"). by rewrite Hk, decide_True.
    + change (rb_key b' id) with (rb_key b id). rewrite Hk, Hmem. case_decide as E1; [done|]. case_decide as E2.
      * intros [= <- <-] _. exists w. rewrite E2. split_and!; [done..|set_solver].
      * intros H He. destruct (Hl _ _ _ H He) as (w' & ? & ? & ? & ?). exists w'. split_and!; [done..|set_solver].
    + change (rb_key b' id) with (rb_key b id). rewrite Hk. case_decide; [done|]. case_decide; [done|]. apply Hst.
  - intros t id w' Ht. unfold redis_has. change (rb_key b' id) with (rb_key b id). rewrite Hk. case_decide as E1.
    + subst id. rewrite decide_False by done. split; [by intros (? & ? & ? & _)|].
      intros (d & e & H & _). by destruct (Hm d e).
    + case_decide; [|done]. split; [intros (d & e & [= <- <-] & ? & ?); split; [done|congruence]|].
      intros [? ->]. eauto.
Qed.

Lemma redis_unregister_law b id now b' :
  redis_inv b now → id ≠ "workers" → Redis_Unregister b id now net_ok = (None, b') →
  redis_inv b' now ∧ ∀ t id' w', (now ≤ t)%Z → redis_has b' t id' w' ↔ id' ≠ id ∧ redis_has b t id' w'.
Proof.
  intros [Hm Hl Hst Hw] Hid. unfold Redis_Unregister. change (net_ok _ _) with (@None string).
  set (b1 := rb_set b _). assert (∀ d e, rbClient b1 !! rb_members b1 ≠ Some (RString d e)) as Hm1.
  { intros d e. change (rb_members b1) with (rb_members b). simpl. rewrite lookup_delete_ne; [apply Hm|].
    by apply rb_key_members. }
  assert (members b1 = members b) as Hb1.
  { unfold members, b1, rb_set, rb_members. simpl. rewrite lookup_delete_ne; [done|]. by apply rb_key_members. }
  destruct (srem_ok b1 id now Hm1) as (r & -> & Hother & Hm2 & Hmem). intros [= <-]. rewrite Hb1 in Hmem.
  assert (∀ id', id' ≠ "workers" → r !! rb_key b id' = if decide (id' = id) then None else rbClient b !! rb_key b id') as Hk.
  { intros id' H. rewrite Hother by exact (rb_key_members b id' H). simpl. case_decide as E; [subst; apply lookup_delete_eq|].
    apply lookup_delete_ne. intros E'%rb_key_inj. congruence. }
  change (rb_set b1 r) with (rb_set b r) in *. split.
  - constructor; [exact Hm2|intros id' d e|intros id' s|rewrite Hmem; set_solver];
      change (rb_key (rb_set b r) id') with (rb_key b id'); simpl.
    2:{ intros H. destruct (decide (id' = "workers")) as [|Hne]; [done|]. rewrite Hk in H by done.
        case_decide; [done|]. by eapply Hst. }
    intros H He. destruct (decide (id' = "workers")) as [->|Hne]; [by destruct (Hm2 d e)|].
    rewrite Hk in H by done. case_decide as E; [done|]. destruct (Hl _ _ _ H He) as (w & ? & ? & ? & ?).
    exists w. rewrite Hmem. split_and!; [done..|set_solver].
  - intros t id' w' _. unfold redis_has. change (rb_key (rb_set b r) id') with (rb_key b id'). simpl.
    destruct (decide (id' = "workers")) as [->|Hne].
    + split; [|intros [_ (d & e & H & _)]; by destruct (Hm d e)]. intros (d & e & H & _). by destruct (Hm2 d e).
    + rewrite Hk by done. case_decide as E; [split; [by intros (? & ? & ? & _)|by intros []]|]. naive_solver.
Qed.

Lemma redis_get_law b id now w : redis_inv b now → Redis_Get b id now net_ok = Ok w ↔ redis_has b now id w.
Proof.
  intros _. unfold Redis_Get, redis_has, rd_lookup. change (net_ok _ _) with (@None string).
  destruct (rbClient b !! rb_key b id) as [[d e|s]|]; [|split; [done|by intros (? & ? & ? & _)]..].
  case_bool_decide; [|split; [done|by intros (? & ? & [= <- <-] & ? & _)]].
  destruct (decode d) as [w'|] eqn:E; split; try done.
  - intros [= <-]. eauto.
  - intros (? & ? & [= <- <-] & ? & ?). congruence.
  - intros (? & ? & [= <- <-] & ? & ?). congruence.
Qed.

(** Forgetting a member whose registration is gone. *)
Lemma redis_forget b id now :
  redis_inv b now → (∀ w, ¬ redis_has b now id w) →
  ∃ r, rd_srem (rbClient b) (rb_members b) id now = Ok r ∧ redis_inv (rb_set b r) now
       ∧ ∀ t id' w, redis_has (rb_set b r) t id' w ↔ redis_has b t id' w.
Proof.
  intros [Hm Hl Hst Hw] Hgone. destruct (srem_ok b id now Hm) as (r & Hr & Hother & Hm2 & Hmem).
  assert (∀ id' d e, r !! rb_key b id' = Some (RString d e) ↔ rbClient b !! rb_key b id' = Some (RString d e)) as Hk.
  { intros id' d e. destruct (decide (id' = "workers")) as [->|Hne].
    - split; intros H; [by destruct (Hm2 d e)|by destruct (Hm d e)].
    - by rewrite Hother by by apply rb_key_members. }
  exists r. split; [done|]. split.
  - constructor; [exact Hm2|intros id' d e|intros id' s|rewrite Hmem; set_solver];
      change (rb_key (rb_set b r) id') with (rb_key b id'); simpl.
    2:{ intros H. destruct (decide (id' = "workers")) as [|Hne]; [done|].
        rewrite Hother in H by by apply rb_key_members. by eapply Hst. }
    rewrite Hk, Hmem. intros H He.
    destruct (Hl _ _ _ H He) as (w & ? & ? & ? & ?). exists w. split_and!; [done..|].
    apply elem_of_difference. split; [done|]. intros ->%elem_of_singleton. apply (Hgone w). exists d, e. done.
  - intros t id' w. unfold redis_has. simpl. change (rb_key (rb_set b r) id') with (rb_key b id'). by setoid_rewrite Hk.
Qed.

Lemma list_loop_ok b ids now :
  redis_inv b now → NoDup ids →
  ∃ ws b', list_loop b ids now net_ok = (ws, b') ∧ redis_inv b' now
    ∧ (∀ t id w, redis_has b' t id w ↔ redis_has b t id w)
    ∧ (∀ w, w ∈ ws ↔ wnID w ∈ ids ∧ redis_has b now (wnID w) w) ∧ NoDup (wnID <$> ws).
Proof.
  revert b. induction ids as [|id ids IH]; intros b Hb Hnd; simpl.
  { exists [], b. split_and!; [done..| |constructor]. intros w. split; [by intros ?%elem_of_nil|by intros [?%elem_of_nil _]]. }
  apply NoDup_cons in Hnd as [Hni Hnd]. destruct (Redis_Get b id now net_ok) as [w0|e] eqn:E.
  - apply redis_get_law in E; [|done]. assert (wnID w0 = id) as Hid.
    { destruct E as (d & e & H & He & Hd). destruct (rv_live _ _ Hb _ _ _ H He) as (w & ? & ? & _). congruence. }
    destruct (IH b Hb Hnd) as (ws & b' & -> & Hb' & Hhas & Hws & Hn). exists (w0 :: ws), b'. split_and!; [done..| |].
    + intros w. rewrite elem_of_cons, Hws, elem_of_cons. split; [intros [->|[? ?]]; [rewrite Hid; auto|auto]|].
      intros [[Hw|?] Hh]; [left|by right]. rewrite Hw in Hh.
      destruct E as (d & e & H1 & _ & H2), Hh as (d' & e' & H1' & _ & H2'). congruence.
    + simpl. constructor; [|done]. rewrite Hid. intros (w & -> & [? _]%Hws)%list_elem_of_fmap. done.
  - assert (∀ w, ¬ redis_has b now id w) as Hgone.
    { intros w Hh%redis_get_law; [congruence|done]. }
    destruct (redis_forget b id now Hb Hgone) as (r & -> & Hb1 & Hh1). change (net_ok _ _) with (@None string).
    destruct (IH (rb_set b r) Hb1 Hnd) as (ws & b' & -> & Hb' & Hhas & Hws & Hn). exists ws, b'. split_and!; [done..| | |done].
    + intros t id' w. by rewrite Hhas, Hh1.
    + intros w. rewrite Hws, Hh1, elem_of_cons. split; [naive_solver|]. intros [[Hw|?] Hh]; [|done].
      rewrite Hw in Hh. by destruct (Hgone w).
Qed.

Lemma redis_list_law b ord now :
  redis_inv b now → NoDup ord → (∀ id, id ∈ ord ↔ id ∈ members b) →
  ∃ ws b', Redis_List b ord now net_ok = (Ok ws, b') ∧ redis_inv b' now
    ∧ (∀ t id w, redis_has b' t id w ↔ redis_has b t id w)
    ∧ (∀ w, w ∈ ws ↔ redis_has b now (wnID w) w) ∧ NoDup (wnID <$> ws).
Proof.
  intros Hb Hnd Hord. unfold Redis_List, rd_lookup. change (net_ok _ _) with (@None string).
  destruct (list_loop_ok b ord now Hb Hnd) as (ws & b' & -> & ? & ? & Hws & ?).
  exists ws, b'. destruct Hb as [Hm Hl _ _]. split_and!; [|done..| |done].
  - destruct (rbClient b !! rb_members b) as [[d e|s]|] eqn:E; [by destruct (Hm d e)|done..].
  - intros w. rewrite Hws, Hord. split; [by intros []|]. intros Hh. split; [|done].
    destruct Hh as (d & e & Hd & He & _). by destruct (Hl _ _ _ Hd He) as (_ & _ & _ & _ & ?).
Qed.

Lemma redis_refresh_law b id now r b' :
  redis_inv b now → id ≠ "workers" → Redis_Refresh b id registry_ttl now net_ok = (r, b') →
  (r = None ↔ ∃ w, redis_has b now id w) ∧ redis_inv b' now
  ∧ ∀ t id' w', (now ≤ t)%Z →
      redis_has b' t id' w' ↔ if decide (id' = id) then (t < now + registry_ttl)%Z ∧ redis_has b now id w'
                              else redis_has b t id' w'.
Proof.
  intros Hb Hid. pose proof Hb as [Hm Hl Hst Hw]. unfold Redis_Refresh, rd_lookup. change (net_ok _ _) with (@None string).
  assert (∀ t w, (now ≤ t)%Z → redis_has b t id w → redis_has b now id w) as Hmono.
  { intros t w Ht (d & e & ? & ? & ?). exists d, e. split_and!; [done|lia|done]. }
  assert ((∀ w, ¬ redis_has b now id w) → ∀ (r : option string) b', r ≠ None → b' = b →
    (r = None ↔ ∃ w, redis_has b now id w) ∧ redis_inv b' now ∧ ∀ t id' w', (now ≤ t)%Z →
      redis_has b' t id' w' ↔ if decide (id' = id) then (t < now + registry_ttl)%Z ∧ redis_has b now id w'
                              else redis_has b t id' w') as Hnone.
  { intros Hg r1 b1 Hr ->. split_and!; [naive_solver|done|]. intros t id' w' Ht. case_decide; [subst|done].
    split; [intros ?%Hmono; [|done]; by destruct (Hg w')|intros [_ ?]; by destruct (Hg w')]. }
  destruct (rbClient b !! rb_key b id) as [[d e|s]|] eqn:E; [|by destruct (Hst _ _ E)|].
  2:{ intros [= <- <-]. apply Hnone; [|done..]. intros w (? & ? & ? & _). congruence. }
  case_bool_decide as He.
  2:{ intros [= <- <-]. apply Hnone; [|done..]. by intros w (? & ? & ? & ? & _); simplify_eq. }
  change (net_ok _ _) with (@None string). intros [= <- <-]. destruct (Hl _ _ _ E He) as (w & Hd & Hwid & Hv & Hin).
  set (b' := rb_set b _). assert (members b' = members b) as Hmem by by apply members_insert_key.
  assert (∀ id', rbClient b' !! rb_key b id' =
    if decide (id' = id) then Some (RString d (now + registry_ttl)) else rbClient b !! rb_key b id') as Hk.
  { intros id'. simpl. case_decide as D; [subst; apply lookup_insert_eq|].
    apply lookup_insert_ne. intros D'%rb_key_inj. congruence. }
  split_and!; [split; [intros _; exists w, d, e|]; done| |].
  - constructor; [|intros id' d' e'|intros id' s|by rewrite Hmem]; change (rb_key b' ?x) with (rb_key b x).
    + change (rb_members b') with (rb_key b "workers"). intros d' e'. rewrite Hk, decide_False by done. apply Hm.
    + rewrite Hk, Hmem. case_decide as D; [intros [= <- <-] _; subst; eauto|apply Hl].
    + rewrite Hk. case_decide; [done|apply Hst].
  - intros t id' w' Ht. unfold redis_has. change (rb_key b' id') with (rb_key b id'). rewrite Hk.
    case_decide as D; [subst id'|done]. split; [intros (? & ? & [= <- <-] & ? & ?); split; [done|eauto]|].
    intros [? (d1 & e1 & ? & ? & ?)]. simplify_eq. eauto.
Qed.

#[global] Instance redis_laws : RegistryLaws RedisBackend.
Proof.
  constructor; simpl.
  - apply redis_register_law.
  - apply redis_unregister_law.
  - apply redis_get_law.
  - intros b ord now Hb [? ?]. by apply redis_list_law.
  - apply redis_refresh_law.
  - intros b now t [Hm Hl Hst Hw] Ht. constructor; [done| |done..]. intros id d e H He. apply (Hl _ _ _ H). lia.
  - intros b t id w [Hm Hl Hst Hw] (d & e & H & He & Hd). destruct (Hl _ _ _ H He) as (w' & ? & ? & ? & ?).
    simplify_eq. split_and!; [done| |done]. intros E. by rewrite E in *.
Qed.

(** *** etcd *)

Definition etcd_has (b : EtcdBackend) (t : Z) (id : string) (w : WorkerNode) : Prop :=
  et_lookup (ebClient b) (eb_key b id) t ≫= decode = Some w.
Definition etcd_inv (b : EtcdBackend) (now : Z) : Prop :=
  ∀ id d, et_lookup (ebClient b) (eb_key b id) now = Some d → ∃ w, decode d = Some w ∧ wnID w = id ∧ valid w.

#[global] Instance etcd_backend : RegistryBackend EtcdBackend := {
  be_register := Etcd_Register;
  be_unregister := Etcd_Unregister;
  be_get := Etcd_Get;
  be_list := Etcd_List;
  be_refresh := Etcd_Refresh;
  be_has := etcd_has;
  be_order b now ord := NoDup ord ∧ ∀ key, is_Some (et_lookup (ebClient b) key now) → key ∈ ord;
  be_id _ := True;
  be_ok := valid;
  be_inv := etcd_inv
}.

Lemma eb_key_inj b id id' : eb_key b id = eb_key b id' ↔ id = id'.
Proof. unfold eb_key. split; [apply (inj _)|by intros ->]. Qed.

Lemma et_lookup_put b id d e id' t :
  et_lookup (<[eb_key b id := (d, e)]> (ebClient b)) (eb_key b id') t =
  if decide (id' = id) then (if bool_decide (t < e)%Z then Some d else None) else et_lookup (ebClient b) (eb_key b id') t.
Proof.
  unfold et_lookup. case_decide as E; [subst; by rewrite lookup_insert_eq|].
  rewrite lookup_insert_ne; [done|]. intros ?%eb_key_inj. congruence.
Qed.

Lemma et_lookup_delete b id id' t :
  et_lookup (delete (eb_key b id) (ebClient b)) (eb_key b id') t =
  if decide (id' = id) then None else et_lookup (ebClient b) (eb_key b id') t.
Proof.
  unfold et_lookup. case_decide as E; [subst; by rewrite lookup_delete_eq|].
  rewrite lookup_delete_ne; [done|]. intros ?%eb_key_inj. congruence.
Qed.

Lemma et_lookup_earlier c key t now d : et_lookup c key t = Some d → (now ≤ t)%Z → et_lookup c key now = Some d.
Proof.
  unfold et_lookup. destruct (c !! key) as [[d' e]|]; [|done]. case_bool_decide; [|done]. intros [= <-] ?.
  by rewrite bool_decide_true by lia.
Qed.

Lemma etcd_register_law b w now b' :
  etcd_inv b now → valid w → Etcd_Register b w registry_ttl now net_ok = (None, b') →
  etcd_inv b' now ∧ ∀ t id w', (now ≤ t)%Z →
    etcd_has b' t id w' ↔ if decide (id = wnID w) then (t < now + registry_ttl)%Z ∧ w' = w else etcd_has b t id w'.
Proof.
  intros Hb Hv. unfold Etcd_Register. destruct (encode w) as [data|] eqn:Hd; [|done].
  apply json_round_trip in Hd; [|done]. simpl. intros [= <-].
  replace (now + 30 * 1000000000 `quot` 1000000000 * 1000000000)%Z with (now + registry_ttl)%Z by done.
  unfold etcd_inv, etcd_has. simpl. split; [intros id d|intros t id w' Ht]; change (eb_key (eb_set b _) id) with (eb_key b id);
    rewrite et_lookup_put; (case_decide as E; [|try done]).
  - subst id. case_bool_decide; [|done]. intros [= <-]. eauto.
  - apply Hb.
  - case_bool_decide; simpl; [rewrite Hd; naive_solver|naive_solver].
Qed.

Lemma etcd_get_law b id now w : Etcd_Get b id now net_ok = Ok w ↔ etcd_has b now id w.
Proof.
  unfold Etcd_Get, etcd_has. change (net_ok _ _) with (@None string).
  destruct (et_lookup _ _ _) as [d|]; simpl; [|done]. destruct (decode d); naive_solver.
Qed.

Lemma etcd_list_law b ord now :
  etcd_inv b now → NoDup ord → (∀ key, is_Some (et_lookup (ebClient b) key now) → key ∈ ord) →
  ∃ ws b', Etcd_List b ord now net_ok = (Ok ws, b') ∧ etcd_inv b' now
    ∧ (∀ t id w, etcd_has b' t id w ↔ etcd_has b t id w)
    ∧ (∀ w, w ∈ ws ↔ etcd_has b now (wnID w) w) ∧ NoDup (wnID <$> ws).
Proof.
  intros Hb Hnd Hord. eexists _, b. split; [reflexivity|]. split; [done|]. split; [done|].
  set (f := λ key, if String.prefix (ebPrefix b) key then et_lookup (ebClient b) key now ≫= decode else None).
  assert (∀ key w, f key = Some w → key = eb_key b (wnID w) ∧ etcd_has b now (wnID w) w) as Hf.
  { intros key w. unfold f. destruct (String.prefix _ key) eqn:P; [|done]. apply prefix_spec in P as [id ->].
    intros H. destruct (et_lookup _ _ _) as [d|] eqn:L in H; [|done]. simpl in H.
    destruct (Hb id d) as (w' & ? & Hid & _); [exact L|]. simplify_eq. split; [done|]. unfold etcd_has, eb_key. by rewrite L. }
  split.
  - intros w. rewrite list_elem_of_omap. split; [by intros (key & _ & [_ ?]%Hf)|]. intros H. exists (eb_key b (wnID w)).
    split; [apply Hord; unfold etcd_has in H; by destruct (et_lookup _ _ _)|]. unfold f, eb_key. by rewrite prefix_app.
  - clear Hord. induction Hnd as [|key ord Hni Hnd IH]; simpl; [constructor|]. fold f.
    destruct (f key) as [w|] eqn:E; [|done]. simpl. constructor; [|done]. apply Hf in E as [-> _].
    intros (w' & Hw' & (key & Hin & [-> _]%Hf)%list_elem_of_omap)%list_elem_of_fmap. apply Hni. by rewrite Hw'.
Qed.

Lemma etcd_refresh_law b id now r b' :
  etcd_inv b now → (∀ w, valid w → is_Some (encode w)) → Etcd_Refresh b id registry_ttl now net_ok = (r, b') →
  (r = None ↔ ∃ w, etcd_has b now id w) ∧ etcd_inv b' now
  ∧ ∀ t id' w', (now ≤ t)%Z →
      etcd_has b' t id' w' ↔ if decide (id' = id) then (t < now + registry_ttl)%Z ∧ etcd_has b now id w'
                             else etcd_has b t id' w'.
Proof.
  intros Hb Henc. unfold Etcd_Refresh. destruct (Etcd_Get b id now net_ok) as [w|e] eqn:E.
  - apply etcd_get_law in E. assert (wnID w = id ∧ valid w) as [Hid Hv].
    { unfold etcd_has in E. destruct (et_lookup _ _ _) as [d|] eqn:L; [|done]. simpl in E.
      destruct (Hb _ _ L) as (w' & ? & ? & ?). by simplify_eq. }
    intros Hr. assert (r = None) as -> by (destruct (Henc w Hv) as [s Hs]; unfold Etcd_Register in Hr; rewrite Hs in Hr; simpl in Hr; congruence).
    destruct (etcd_register_law b w now b' Hb Hv Hr) as [Hb' Hh]. split_and!; [naive_solver|done|].
    intros t id' w' Ht. rewrite Hh, Hid by done. case_decide; [|done]. unfold etcd_has in *. rewrite E. naive_solver.
  - intros [= <- <-]. assert (∀ w, ¬ etcd_has b now id w) as Hg by (intros w Hw%etcd_get_law; congruence).
    split_and!; [naive_solver|done|]. intros t id' w' Ht. case_decide; [subst|done].
    split; [|intros [_ ?]; by destruct (Hg w')]. unfold etcd_has. intros H. destruct (et_lookup _ _ _) as [d|] eqn:L in H; [|done].
    destruct (Hg w'). unfold etcd_has. by rewrite (et_lookup_earlier _ _ _ _ _ L Ht).
Qed.

(** Workers JSON can write. *)
Hypothesis valid_encodes : ∀ w, valid w → is_Some (encode w).

#[global] Instance etcd_laws : RegistryLaws EtcdBackend.
Proof.
  constructor; simpl.
  - intros b w now b' Hb _. by apply etcd_register_law.
  - intros b id now b' Hb _ [= <-]. unfold etcd_inv, etcd_has. simpl. split; [intros id' d|intros t id' w' _];
      change (eb_key (eb_set b _) id') with (eb_key b id'); rewrite et_lookup_delete; case_decide; subst; naive_solver.
  - intros b id now w _. apply etcd_get_law.
  - intros b ord now Hb [? ?]. by apply etcd_list_law.
  - intros b id now r b' Hb _. by apply etcd_refresh_law.
  - intros b now t Hb Ht id d Hd. by eapply Hb, et_lookup_earlier.
  - intros b t id w Hb Hh. unfold etcd_has in Hh. destruct (et_lookup _ _ _) as [d|] eqn:L; [|done]. simpl in Hh.
    destruct (Hb _ _ L) as (w' & ? & ? & ?). by simplify_eq.
Qed.

End Backends.

(** ** Backends against the specification *)

(** The specification: registrations with the time they expire. *)
Abbreviation spec := (gmap string (WorkerNode * Z)).
Definition spec_has (A : spec) (now : Z) (id : string) (w : WorkerNode) : Prop :=
  ∃ e, A !! id = Some (w, e) ∧ (now < e)%Z.
Definition spec_refresh (A : spec) (id : string) (now : Z) : spec :=
  match A !! id with
  | Some (w, e) => if bool_decide (now < e)%Z then <[id := (w, (now + registry_ttl)%Z)]> A else A
  | None => A
  end.

Section Refinement.
Context {B : Type} `{!RegistryBackend B}.

(** Runs of a backend beside the specification, up to a time. *)
Inductive be_run : B → spec → Z → Prop :=
  | br_start b t : be_inv b t → (∀ t' id w, (t ≤ t')%Z → ¬ be_has b t' id w) → be_run b ∅ t
  | br_register b A t now w b' : be_run b A t → (t ≤ now)%Z → be_id (wnID w) → be_ok w →
      be_register b w registry_ttl now net_ok = (None, b') →
      be_run b' (<[wnID w := (w, (now + registry_ttl)%Z)]> A) now
  | br_unregister b A t now id b' : be_run b A t → (t ≤ now)%Z → be_id id →
      be_unregister b id now net_ok = (None, b') → be_run b' (delete id A) now
  | br_refresh b A t now id r b' : be_run b A t → (t ≤ now)%Z → be_id id →
      be_refresh b id registry_ttl now net_ok = (r, b') → be_run b' (spec_refresh A id now) now
  | br_list b A t now ord r b' : be_run b A t → (t ≤ now)%Z → be_order b now ord →
      be_list b ord now net_ok = (r, b') → be_run b' A now.

(** The backend answers as the specification says. *)
Definition answers (b : B) (A : spec) (now : Z) : Prop :=
  (∀ id w, be_get b id now net_ok = Ok w ↔ spec_has A now id w)
  ∧ (∀ ord, be_order b now ord → ∃ ws b', be_list b ord now net_ok = (Ok ws, b')
       ∧ NoDup (wnID <$> ws) ∧ ∀ w, w ∈ ws ↔ spec_has A now (wnID w) w)
  ∧ (∀ id r b', be_id id → be_refresh b id registry_ttl now net_ok = (r, b') →
       r = None ↔ ∃ w, spec_has A now id w).

Context `{!RegistryLaws B}.

Lemma run_refines b A t :
  be_run b A t → be_inv b t ∧ ∀ t' id w, (t ≤ t')%Z → be_has b t' id w ↔ spec_has A t' id w.
Proof.
  unfold spec_has. induction 1 as [b t Hb Hn|b A t now w b' _ [Hb Hh] Ht Hid Hok E|b A t now id b' _ [Hb Hh] Ht Hid E
    |b A t now id r b' _ [Hb Hh] Ht Hid E|b A t now ord r b' _ [Hb Hh] Ht Ho E].
  - split; [done|]. intros t' id w Ht. split; [by intros ?%Hn|]. rewrite lookup_empty. by intros (? & ? & _).
  - destruct (law_register b w now b') as [Hb' Hh']; [by eapply law_later|done..|]. split; [done|].
    intros t' id w' Ht'. rewrite Hh' by done. case_decide as D.
    + subst id. rewrite lookup_insert_eq. naive_solver.
    + rewrite lookup_insert_ne by done. apply Hh. lia.
  - destruct (law_unregister b id now b') as [Hb' Hh']; [by eapply law_later|done..|]. split; [done|].
    intros t' id' w' Ht'. rewrite Hh', Hh by (done || lia). setoid_rewrite lookup_delete_Some. naive_solver.
  - destruct (law_refresh b id now r b') as (_ & Hb' & Hh'); [by eapply law_later|done..|]. split; [done|].
    intros t' id' w' Ht'. rewrite Hh' by done. unfold spec_refresh. case_decide as D.
    + subst id'. rewrite Hh by lia. destruct (A !! id) as [[w0 e]|] eqn:E0; [|rewrite E0; naive_solver].
      case_bool_decide; [rewrite lookup_insert_eq|rewrite E0]; naive_solver lia.
    + rewrite Hh by lia. destruct (A !! id) as [[w0 e]|]; [|done]. case_bool_decide; [|done].
      by rewrite lookup_insert_ne.
  - destruct (law_list b ord now) as (ws & b1 & E' & Hb' & Hh' & _); [by eapply law_later|done|].
    rewrite E in E'. injection E' as -> ->. split; [done|]. intros t' id w Ht'. rewrite Hh'. apply Hh. lia.
Qed.

Lemma run_answers b A t now : be_run b A t → (t ≤ now)%Z → answers b A now.
Proof.
  intros [Hb Hh]%run_refines Ht. apply (law_later _ _ now) in Hb; [|done]. split_and!.
  - intros id w. rewrite law_get by done. by apply Hh.
  - intros ord Ho. destruct (law_list b ord now Hb Ho) as (ws & b' & E & _ & _ & Hws & Hn). exists ws, b'.
    split_and!; [done..|]. intros w. rewrite Hws. by apply Hh.
  - intros id r b' Hid E. destruct (law_refresh b id now r b') as [Hr _]; [done..|]. rewrite Hr.
    split; intros [w ?]; exists w; by apply Hh.
Qed.

End Refinement.

(** C33. Both backends implement the registry of the specification: along every
    run, from an empty registry, of registrations and removals that succeed and
    of renewals and listings, one after another on a network that works, at any
    later time, a read finds exactly the registrations that have not expired, a
    listing gives exactly those, once each, in every order of the answer, and a
    renewal succeeds exactly for them.  The workers are those JSON keeps.  For
    the Redis backend the IDs registered, removed and renewed are not the ID
    "workers", whose key is that of the set of IDs: removing it empties the
    list, registering it blocks later registrations ([workers_id_collides]).
    For etcd every ID will do. *)
Theorem registry_backends_refine encode decode valid :
  (∀ w s, valid w → encode w = Some s → decode s = Some w) → (∀ w, valid w → is_Some (encode w)) →
  (let _ := redis_backend encode decode valid in
   ∀ (b : RedisBackend) A t now, be_run b A t → (t ≤ now)%Z → answers b A now)
  ∧ (let _ := etcd_backend encode decode valid in
     ∀ (b : EtcdBackend) A t now, be_run b A t → (t ≤ now)%Z → answers b A now).
Proof.
  intros H1 H2. split; intros ops b A t now.
  - pose proof (redis_laws encode decode valid H1) as Hl. apply run_answers.
  - pose proof (etcd_laws encode decode valid H1 H2) as Hl. apply run_answers.
Qed.

(** ** The registry over any backend *)

Lemma cache_all_spec ws c id x :
  NoDup (wnID <$> ws) →
  cache_all ws c !! id = Some x ↔
  (∃ w, w ∈ ws ∧ wnID w = id ∧ x = Some w) ∨ (id ∉ wnID <$> ws ∧ c !! id = Some x).
Proof.
  revert c. induction ws as [|w ws IH]; intros c Hnd; simpl.
  { split; [intros H; right; split; [apply not_elem_of_nil|done]|by intros [(? & ?%elem_of_nil & _)|[_ ?]]]. }
  apply NoDup_cons in Hnd as [Hni Hnd]. rewrite IH by done. setoid_rewrite elem_of_cons. rewrite lookup_insert_Some. split.
  - intros [(w' & ? & ? & ?)|[Hid [[<- <-]|[Hne ?]]]]; [left; eauto|left; eauto|right; naive_solver].
  - intros [(w' & [->|?] & ? & ?)|[Hid ?]]; [right; by subst; auto|left; eauto|right]. split; [naive_solver|]. right. naive_solver.
Qed.

Section Client.
Context {B : Type} `{!RegistryBackend B} `{!RegistryLaws B}.

(** Over any backend that keeps the interface's promise: a refresh makes the
    cache exactly the live registrations; after a registration the registry
    returns the worker, and every other registry on the backend does so until
    the registration expires and not after; after an unregistration the worker
    is not found. *)
Lemma worker_registry_correct (r : WorkerRegistry B) now :
  be_inv (wrBackend r) now →
  (∀ ord, be_order (wrBackend r) now ord →
     ∃ r', refresh r ord now net_ok = (None, r')
           ∧ ∀ id c, wrCache r' !! id = Some c ↔ ∃ w, c = Some w ∧ be_has (wrBackend r) now id w)
  ∧ (∀ w r', be_id (wnID w) → be_ok w → Registry_Register r w now net_ok = (None, r') →
       (∀ t f, GetWorker r' (wnID w) t f = (Ok (Some w), r'))
       ∧ ∀ r2 t, wrBackend r2 = wrBackend r' → wrCache r2 !! wnID w = None → (now ≤ t)%Z →
           (GetWorker r2 (wnID w) t net_ok).1 = Ok (Some w) ↔ (t < now + registry_ttl)%Z)
  ∧ (∀ id r' t, be_id id → Registry_Unregister r id now net_ok = (None, r') → (now ≤ t)%Z →
       ∃ e, GetWorker r' id t net_ok = (Err e, r')).
Proof.
  intros Hb. split_and!.
  - intros ord Ho. destruct (law_list _ ord now Hb Ho) as (ws & b' & E & _ & _ & Hws & Hn). unfold refresh. rewrite E.
    eexists. split; [done|]. intros id c. simpl. rewrite cache_all_spec by done. rewrite lookup_empty. split.
    + intros [(w & Hin & <- & ->)|[_ ?]]; [|done]. exists w. split; [done|]. by apply Hws.
    + intros (w & -> & Hh). destruct (law_keyed _ _ _ _ Hb Hh) as [<- _]. left. exists w. by rewrite Hws.
  - intros w r' Hid Hok. unfold Registry_Register. destruct (be_register _ _ _ _ _) as [[e|] b] eqn:E; [done|].
    intros [= <-]. destruct (law_register _ _ _ _ Hb Hid Hok E) as [Hb' Hh]. simpl. split.
    + intros t f. unfold GetWorker. simpl. by rewrite lookup_insert_eq.
    + intros r2 t Hr2 Hc Ht. unfold GetWorker. rewrite Hc, Hr2. simpl.
      specialize (Hh t (wnID w) w Ht). rewrite decide_True in Hh by done.
      pose proof (law_get b (wnID w) t w (law_later _ _ _ Hb' Ht)) as Hg. rewrite Hh in Hg.
      destruct (be_get b (wnID w) t net_ok) as [w'|e] eqn:G; simpl; [|naive_solver].
      split; [intros [= ->]; naive_solver|]. intros Hlt. f_equal. f_equal. destruct Hg as [_ Hg]. naive_solver.
  - intros id r' t Hid. unfold Registry_Unregister. destruct (be_unregister _ _ _ _) as [[e|] b] eqn:E; [done|].
    intros [= <-] Ht. destruct (law_unregister _ _ _ _ Hb Hid E) as [Hb' Hh]. unfold GetWorker. simpl.
    rewrite lookup_delete_eq. destruct (be_get b id t net_ok) as [w'|e] eqn:G; [|by eauto].
    apply law_get in G; [|by eapply law_later]. apply Hh in G as [? _]; done.
Qed.

End Client.

(** ** The watch on etcd *)

(** A change of the store and the event of the client. *)
Inductive etcd_change (c : gmap string (string * Z)) : gmap string (string * Z) → etcd_event → Prop :=
  | ec_put key d e : etcd_change c (<[key := (d, e)]> c) (EvPut key d (negb (bool_decide (is_Some (c !! key)))))
  | ec_delete key : etcd_change c (delete key c) (EvDelete key).   (* deleted, or the lease expired *)

(** A cache that follows the events is the content of the store. *)
Definition follows (decode : string → option WorkerNode) (prefix : string) (c : gmap string (string * Z))
    (cache : gmap string (option WorkerNode)) : Prop :=
  ∀ id, cache !! id = v ← c !! (prefix +:+ id); w ← decode v.1; Some (Some w).

Lemma watch_follows decode prefix c c' ev (r : WorkerRegistry EtcdBackend) b :
  ebPrefix b = prefix → etcd_change c c' ev → follows decode prefix c (wrCache r) →
  match ev with
  | EvPut key d _ => (∃ id, key = prefix +:+ id) ∧ is_Some (decode d)
  | EvDelete key => ∃ id, key = prefix +:+ id
  end →
  ∃ re, Etcd_Watch decode b ev = Some re ∧ follows decode prefix c' (wrCache (handleRegistryEvent r re)).
Proof.
  intros <- Hc Hf Hev. assert (∀ id id', ebPrefix b +:+ id = ebPrefix b +:+ id' → id = id') as Hinj
    by (intros ?? ?; by apply (inj _) in H).
  destruct Hc as [key d e|key]; simpl in *.
  - destruct Hev as [[id ->] [w Hw]]. rewrite Hw, substring_app. eexists. split; [done|].
    assert (wrCache (handleRegistryEvent r {| reType := if negb (bool_decide (is_Some (c !! (ebPrefix b +:+ id))))
      then EventTypeWorkerAdded else EventTypeWorkerUpdated; reWorkerID := id; reWorker := Some w |})
      = <[id := Some w]> (wrCache r)) as -> by by destruct (negb _).
    intros id'. destruct (decide (id' = id)) as [->|Hne]; [rewrite !lookup_insert_eq; simpl; by rewrite Hw|].
    rewrite !lookup_insert_ne; [apply Hf|intros ?%Hinj|]; congruence.
  - destruct Hev as [id ->]. rewrite substring_app. eexists. split; [done|]. simpl. intros id'.
    destruct (decide (id' = id)) as [->|Hne]; [by rewrite !lookup_delete_eq|].
    rewrite !lookup_delete_ne; [apply Hf|intros ?%Hinj|]; congruence.
Qed.

(** ** Concrete runs *)

Definition demo_worker (id : string) : WorkerNode :=
  {| wnID := id; wnAddress := ""; wnCapacity := 1; wnCurrentLoad := 0; wnTags := []; wnCapabilities := [];
     wnStatus := "active"; wnLastHeartbeat := 0; wnRegisteredAt := 0; wnMetadata := ∅;
     wnExecutionsCompleted := 0; wnExecutionsFailed := 0; wnAverageExecutionTime := 0 |}.
Definition demo_enc (w : WorkerNode) : option string := Some (wnID w).
Definition demo_dec (s : string) : option WorkerNode := Some (demo_worker s).
Definition demo_valid (w : WorkerNode) : Prop := w = demo_worker (wnID w).

Lemma demo_round_trip w s : demo_valid w → demo_enc w = Some s → demo_dec s = Some w.
Proof. intros Hw [= <-]. unfold demo_dec. by rewrite <- Hw. Qed.
Lemma demo_encodes w : demo_valid w → is_Some (demo_enc w).
Proof. by eexists. Qed.

Definition demo_redis : RedisBackend := NewRedisBackend ∅ "".
Definition demo_one : RedisBackend :=
  (Redis_Register demo_enc demo_redis (demo_worker "a") registry_ttl 0 net_ok).2.

Lemma demo_inv t : redis_inv demo_dec demo_valid demo_redis t.
Proof. constructor; simpl; intros; rewrite ?lookup_empty in *; done. Qed.

Lemma registry_backends_refine_witness :
  @answers _ (redis_backend demo_enc demo_dec demo_valid) demo_one {["a" := (demo_worker "a", registry_ttl)]} 10.
Proof.
  destruct (registry_backends_refine demo_enc demo_dec demo_valid demo_round_trip demo_encodes) as [H _].
  apply (H demo_one _ 0%Z); [|done].
  apply (@br_register _ (redis_backend demo_enc demo_dec demo_valid) demo_redis ∅ 0%Z 0%Z (demo_worker "a"));
    [|done..]. apply br_start; [apply demo_inv|]. intros t' id w _ (d & e & H' & _). simpl in H'. by rewrite lookup_empty in H'.
Defined.

Lemma worker_registry_correct_witness :
  ∃ r, @Registry_Register _ (redis_backend demo_enc demo_dec demo_valid) (NewWorkerRegistry demo_redis) (demo_worker "a") 0 net_ok
       = (None, r)
    ∧ (@GetWorker _ (redis_backend demo_enc demo_dec demo_valid) (NewWorkerRegistry (wrBackend r)) "a" 10 net_ok).1
      = Ok (Some (demo_worker "a")).
Proof.
  pose proof (redis_laws demo_enc demo_dec demo_valid demo_round_trip) as Hl.
  destruct (@worker_registry_correct _ (redis_backend demo_enc demo_dec demo_valid) Hl (NewWorkerRegistry demo_redis) 0
    (demo_inv 0)) as (_ & H & _).
  eexists. split; [reflexivity|].
  destruct (H (demo_worker "a") _ ltac:(done) eq_refl eq_refl) as [_ H2]. apply H2; done.
Defined.

(** A read that fails while the workers are listed removes the worker from the
    set: it stays registered and is renewed, but is no longer listed. *)
Lemma list_failure_forgets :
  let down : net := λ cmd key, if bool_decide (cmd = "GET") then Some "timeout" else None in
  let b := (Redis_List demo_dec demo_one ["a"] 1 down).2 in
  Redis_Get demo_dec b "a" 2 net_ok = Ok (demo_worker "a")
  ∧ (Redis_Refresh b "a" registry_ttl 2 net_ok).1 = None ∧ members b = ∅.
Proof. split_and!; reflexivity. Qed.

(** The key of the set is the key of a worker named workers: unregistering it
    empties the list, registering it makes every later registration fail. *)
Lemma workers_id_collides :
  members (Redis_Unregister demo_one "workers" 1 net_ok).2 = ∅
  ∧ let b := (Redis_Register demo_enc demo_one (demo_worker "workers") registry_ttl 1 net_ok).2 in
    (Redis_Register demo_enc b (demo_worker "b") registry_ttl 2 net_ok).1
    = Some ("failed to add worker to set: " +:+ WRONGTYPE).
Proof. split; reflexivity. Qed.

(** The cache is read without a look at the expiry. *)
Lemma cached_after_expiry :
  let ops := redis_backend demo_enc demo_dec demo_valid in
  let r := (Registry_Register (NewWorkerRegistry demo_redis) (demo_worker "a") 0 net_ok).2 in
  be_get (wrBackend r) "a" (registry_ttl + 1) net_ok = Err "worker not found: a"
  ∧ (GetWorker r "a" (registry_ttl + 1) net_ok).1 = Ok (Some (demo_worker "a")).
Proof. split; reflexivity. Qed.
