(* ===== verification/Conditions.v ===== *)
(** internal/executor/domain/types/conditional_node.go: the conditions of if
    and switch nodes, and the reading of a field by its path.  strconv.ParseFloat,
    regexp, the decoding of a JSON array and the texts of floats and times are
    arguments. *)

From S2P Require Import Prelude GoValue GoLib GoText Triggers.
From Stdlib Require Import Ascii.

(** [m[k]] of an object, nil when it is absent. *)
Definition obj_get (kvs : list (string * value)) (k : string) : value :=
  default VNil ((list_to_map kvs : vmap) !! k).

(** ** The value of a field *)

Definition slice_panic : string := "runtime error: slice bounds out of range".
Definition index_panic : string := "runtime error: index out of range".

(** One part of the path. *)
Definition nested_step (current : value) (part : string) : outcome value :=
  match current with
  | VNil => Ret VNil
  | _ =>
      match cut "["%char part with
      | Some (key, rest) =>
          if bool_decide (rest = "") then Panic slice_panic
          else
            let index := atoi (drop_last rest) in
            let current := match current with VObj m => obj_get m key | v => v end in
            match current with
            | VArr arr =>
                if bool_decide (index < Z.of_nat (length arr))%Z then
                  if bool_decide (index < 0)%Z then Panic index_panic
                  else Ret (default VNil (arr !! Z.to_nat index))
                else Ret VNil
            | _ => Ret VNil
            end
      | None => match current with VObj m => Ret (obj_get m part) | _ => Ret VNil end
      end
  end.

Fixpoint nested_loop (current : value) (parts : list string) : outcome value :=
  match parts with
  | [] => Ret current
  | part :: parts' =>
      match nested_step current part with
      | Ret v => nested_loop v parts'
      | Panic msg => Panic msg
      | NoFuel => NoFuel
      end
  end.

Definition getNestedValue (data : vmap) (path : string) : outcome value :=
  nested_loop (VObj (map_to_list data)) (split path ".").

(** ** Conditions *)

Section Conditions.
Context (fmt_float : spec_float → string) (fmt_time : Z → string).
Context (parse_float : string → option spec_float).
Context (regex : string → string → option bool).           (* pattern, text; None: it does not compile *)
Context (decode_array : string → option (list value)).

Abbreviation text := (sprint fmt_float fmt_time).

Definition compareEquals (a b : value) : bool := bool_decide (text a = text b).
Definition compareContains (a b : value) : bool := contains (text a) (text b).
Definition compareStartsWith (a b : value) : bool := String.prefix (text b) (text a).
Definition compareEndsWith (a b : value) : bool := has_suffix (text a) (text b).

Definition toFloat64 (v : value) : option spec_float :=
  match v with
  | VFloat f => Some f
  | VInt z => Some (f64_of_Z z)
  | VStr s => parse_float s
  | _ => None
  end.

Definition compare_num (cmp : spec_float → spec_float → bool) (a b : value) : bool :=
  match toFloat64 a, toFloat64 b with
  | Some x, Some y => cmp x y
  | _, _ => false
  end.
Definition compareGreaterThan : value → value → bool := compare_num (λ x y, f64_ltb y x).
Definition compareLessThan : value → value → bool := compare_num (λ x y, f64_ltb x y).
Definition compareGreaterThanOrEqual : value → value → bool := compare_num (λ x y, f64_leb y x).
Definition compareLessThanOrEqual : value → value → bool := compare_num (λ x y, f64_leb x y).

Definition isEmpty (v : value) : bool :=
  match v with
  | VNil => true
  | VStr s => bool_decide (s = "")
  | VArr l => bool_decide (l = [])
  | VObj l => bool_decide (l = [])
  | _ => false
  end.

Definition compareRegex (a b : value) : bool := default false (regex (text b) (text a)).

Definition compareIn (a b : value) : bool :=
  let among l := existsb (λ item, bool_decide (text item = text a)) l in
  match b with
  | VArr l => among l
  | VStr s =>
      match decode_array s with
      | Some l => among l
      | None => among ((λ p, VStr (trim_space p)) <$> split s ",")
      end
  | _ => false
  end.

Definition is_nil (v : value) : bool := match v with VNil => true | _ => false end.
Definition is_bool (b : bool) (v : value) : bool := match v with VBool b' => Bool.eqb b b' | _ => false end.

(** The operators, with their other names. *)
Definition one_of (op : string) (names : list string) : bool := existsb (String.eqb op) names.

Definition evaluateCondition (input condition : vmap) : outcome (result bool) :=
  let field := default "" (get_string condition "field") in
  let operator := default "" (get_string condition "operator") in
  let value := default VNil (condition !! "value") in
  match getNestedValue input field with
  | Panic msg => Panic msg
  | NoFuel => NoFuel
  | Ret fieldValue =>
      Ret (
        if one_of operator ["equals"; "=="; "eq"] then Ok (compareEquals fieldValue value)
        else if one_of operator ["notEquals"; "!="; "ne"] then Ok (negb (compareEquals fieldValue value))
        else if one_of operator ["contains"] then Ok (compareContains fieldValue value)
        else if one_of operator ["notContains"] then Ok (negb (compareContains fieldValue value))
        else if one_of operator ["startsWith"] then Ok (compareStartsWith fieldValue value)
        else if one_of operator ["endsWith"] then Ok (compareEndsWith fieldValue value)
        else if one_of operator ["greaterThan"; ">"; "gt"] then Ok (compareGreaterThan fieldValue value)
        else if one_of operator ["lessThan"; "<"; "lt"] then Ok (compareLessThan fieldValue value)
        else if one_of operator ["greaterThanOrEqual"; ">="; "gte"] then Ok (compareGreaterThanOrEqual fieldValue value)
        else if one_of operator ["lessThanOrEqual"; "<="; "lte"] then Ok (compareLessThanOrEqual fieldValue value)
        else if one_of operator ["isEmpty"] then Ok (isEmpty fieldValue)
        else if one_of operator ["isNotEmpty"] then Ok (negb (isEmpty fieldValue))
        else if one_of operator ["isNull"] then Ok (is_nil fieldValue)
        else if one_of operator ["isNotNull"] then Ok (negb (is_nil fieldValue))
        else if one_of operator ["regex"; "matches"] then Ok (compareRegex fieldValue value)
        else if one_of operator ["in"] then Ok (compareIn fieldValue value)
        else if one_of operator ["notIn"] then Ok (negb (compareIn fieldValue value))
        else if one_of operator ["isTrue"] then Ok (is_bool true fieldValue)
        else if one_of operator ["isFalse"] then Ok (is_bool false fieldValue)
        else Err ("unknown operator: " +:+ operator))
  end.

(** ** The if node *)

Record ConditionalOutput := { coResult : bool; coBranch : string; coConditions : option (list bool) }.

Definition getBranch (result : bool) : string := if result then "true" else "false".

(** The conditions in order; one that is not an object stays false. *)
Fixpoint eval_all (input : vmap) (conditions : list value) : outcome (result (list bool)) :=
  match conditions with
  | [] => Ret (Ok [])
  | cond :: conditions' =>
      match match cond with
            | VObj c => evaluateCondition input (list_to_map c)
            | _ => Ret (Ok false)
            end with
      | Ret (Ok b) =>
          match eval_all input conditions' with
          | Ret (Ok bs) => Ret (Ok (b :: bs))
          | r => r
          end
      | Ret (Err e) => Ret (Err e)
      | Panic msg => Panic msg
      | NoFuel => NoFuel
      end
  end.

Definition Conditional_Execute (params input : vmap) : outcome (result ConditionalOutput) :=
  match params !! "conditions" with
  | Some (VArr conditions) =>
      let combineMode := default "" (get_string params "combineMode") in
      let combineMode := if bool_decide (combineMode = "") then "and" else combineMode in
      match eval_all input conditions with
      | Ret (Ok results) =>
          let finalResult := if bool_decide (combineMode = "and") then forallb id results else existsb id results in
          Ret (Ok {| coResult := finalResult; coBranch := getBranch finalResult; coConditions := Some results |})
      | Ret (Err e) => Ret (Err e)
      | Panic msg => Panic msg
      | NoFuel => NoFuel
      end
  | _ =>
      let condition := match params !! "condition" with Some (VObj c) => list_to_map c | _ => ∅ end in
      match evaluateCondition input condition with
      | Ret (Ok result) =>
          Ret (Ok {| coResult := result; coBranch := getBranch result; coConditions := None |})
      | Ret (Err e) => Ret (Err ("failed to evaluate condition: " +:+ e))
      | Panic msg => Panic msg
      | NoFuel => NoFuel
      end
  end.

(** ** The switch node *)

Record SwitchOutput := { soMatched : bool; soValue : value; soCase : option string; soBranch : string }.

Fixpoint find_case (fieldValue : value) (cases : list value) (defaultBranch : string) : SwitchOutput :=
  match cases with
  | [] => {| soMatched := false; soValue := fieldValue; soCase := None; soBranch := defaultBranch |}
  | VObj c :: cases' =>
      let caseValue := text (obj_get c "value") in
      if bool_decide (text fieldValue = caseValue)
      then {| soMatched := true; soValue := fieldValue; soCase := Some caseValue;
              soBranch := match obj_get c "branch" with VStr s => s | _ => "" end |}
      else find_case fieldValue cases' defaultBranch
  | _ :: cases' => find_case fieldValue cases' defaultBranch
  end.

Definition Switch_Execute (params input : vmap) : outcome SwitchOutput :=
  let field := default "" (get_string params "field") in
  let cases := match params !! "cases" with Some (VArr l) => l | _ => [] end in
  let defaultBranch := default "" (get_string params "default") in
  let defaultBranch := if bool_decide (defaultBranch = "") then "default" else defaultBranch in
  match getNestedValue input field with
  | Ret fieldValue => Ret (find_case fieldValue cases defaultBranch)
  | Panic msg => Panic msg
  | NoFuel => NoFuel
  end.

End Conditions.

(** ** Paths *)

(** A path as its steps, and the reference reading of a value along it. *)
Inductive path_step := Key (k : string) | At (k : string) (i : N).

Definition print_step (s : path_step) : string :=
  match s with Key k => k | At k i => k +:+ "[" +:+ string_of_N i +:+ "]" end.
Definition print_path (p : list path_step) : string := String.concat "." (print_step <$> p).

Definition step_ok (s : path_step) : Prop :=
  match s with
  | Key k => no_char "."%char k = true ∧ no_char "["%char k = true
  | At k i => no_char "."%char k = true ∧ no_char "["%char k = true ∧ (Z.of_N i < 2 ^ 63)%Z
  end.

Definition walk (v : value) (s : path_step) : value :=
  match s with
  | Key k => match v with VObj m => obj_get m k | _ => VNil end
  | At k i =>
      match match v with VObj m => obj_get m k | v => v end with
      | VArr l => default VNil (l !! N.to_nat i)
      | _ => VNil
      end
  end.

Lemma print_step_ok s : step_ok s → no_char "."%char (print_step s) = true.
Proof.
  destruct s as [k|k i]; simpl; [by intros []|]. intros (H & _ & _). rewrite !no_char_app, H. simpl.
  by rewrite string_of_N_char.
Qed.

Lemma nested_step_walk v s : step_ok s → nested_step v (print_step s) = Ret (walk v s).
Proof.
  destruct s as [k|k i]; simpl.
  - intros [_ H]. unfold nested_step. rewrite (cut_none _ _ H). by destruct v.
  - intros (_ & H & Hi). unfold nested_step.
    change (k +:+ "[" +:+ string_of_N i +:+ "]") with (k +:+ String "["%char (string_of_N i +:+ "]")). rewrite (cut_app _ _ _ H).
    rewrite bool_decide_false by (intros E; apply (f_equal String.length) in E; rewrite string_app_length in E; simpl in E; lia).
    rewrite drop_last_app, atoi_of_N by done.
    assert (∀ u, match u with
      | VArr arr => if bool_decide (Z.of_N i < Z.of_nat (length arr))%Z then
          if bool_decide (Z.of_N i < 0)%Z then Panic index_panic else Ret (default VNil (arr !! Z.to_nat (Z.of_N i)))
          else Ret VNil
      | _ => Ret VNil end = Ret match u with VArr l => default VNil (l !! N.to_nat i) | _ => VNil end) as Hu.
    { intros u. destruct u as [| | | | | |arr|]; try done. rewrite (bool_decide_false (Z.of_N i < 0)%Z) by lia.
      replace (Z.to_nat (Z.of_N i)) with (N.to_nat i) by lia. case_bool_decide; [done|].
      by rewrite lookup_ge_None_2 by lia. }
    destruct v; first [done|exact (Hu (VArr _))|exact (Hu (obj_get _ k))].
Qed.

Lemma nested_loop_walk p v : Forall step_ok p → nested_loop v (print_step <$> p) = Ret (foldl walk v p).
Proof.
  intros Hp. revert v. induction Hp as [|s p Hs Hp IH]; intros v; [done|]. simpl. by rewrite nested_step_walk, IH.
Qed.

Lemma getNestedValue_walk data p :
  p ≠ [] → Forall step_ok p → getNestedValue data (print_path p) = Ret (foldl walk (VObj (map_to_list data)) p).
Proof.
  intros Hne Hp. unfold getNestedValue, print_path. rewrite split_concat; [by apply nested_loop_walk|by destruct p|].
  apply Forall_fmap. eapply Forall_impl; [done|]. apply print_step_ok.
Qed.

(** ** Properties *)

(** Reading a field by its path agrees with walking the value step by step,
    whatever the value: keys are looked up in objects, indices in arrays, and
    anything missing reads as nil; on such paths the read never panics. *)
Lemma getNestedValue_correct data p :
  p ≠ [] → Forall step_ok p →
  getNestedValue data (print_path p) = Ret (foldl walk (VObj (map_to_list data)) p).
Proof. apply getNestedValue_walk. Qed.

Section Properties.
Context (fmt_float : spec_float → string) (fmt_time : Z → string) (parse_float : string → option spec_float).
Context (regex : string → string → option bool) (decode_array : string → option (list value)).

Abbreviation evaluate := (evaluateCondition fmt_float fmt_time parse_float regex decode_array).
Abbreviation all_of := (eval_all fmt_float fmt_time parse_float regex decode_array).
Abbreviation if_node := (Conditional_Execute fmt_float fmt_time parse_float regex decode_array).

(** The result of one element of a list of conditions. *)
Definition holds (input : vmap) (cond : value) : outcome (result bool) :=
  match cond with VObj c => evaluate input (list_to_map c) | _ => Ret (Ok false) end.

Lemma eval_all_spec input conds bs :
  all_of input conds = Ret (Ok bs) ↔ Forall2 (λ c b, holds input c = Ret (Ok b)) conds bs.
Proof.
  revert bs. induction conds as [|c conds IH]; intros bs; simpl.
  { split; [intros [= <-]; constructor|by intros ->%Forall2_nil_inv_l]. }
  fold (holds input c). split.
  - destruct (holds input c) as [[b|]| |] eqn:E; try done.
    destruct (all_of input conds) as [[bs'|]| |] eqn:E'; try done. intros [= <-]. constructor; [done|]. by apply IH.
  - intros (b & bs' & Hb & Hbs & ->)%Forall2_cons_inv_l. rewrite Hb. apply IH in Hbs. by rewrite Hbs.
Qed.

Definition operators : list string :=
  ["equals"; "=="; "eq"; "notEquals"; "!="; "ne"; "contains"; "notContains"; "startsWith"; "endsWith";
   "greaterThan"; ">"; "gt"; "lessThan"; "<"; "lt"; "greaterThanOrEqual"; ">="; "gte"; "lessThanOrEqual"; "<=";
   "lte"; "isEmpty"; "isNotEmpty"; "isNull"; "isNotNull"; "regex"; "matches"; "in"; "notIn"; "isTrue"; "isFalse"].

Lemma one_of_spec op names : one_of op names = true ↔ op ∈ names.
Proof.
  unfold one_of. rewrite existsb_exists. split.
  - intros (x & Hx & ->%String.eqb_eq). by apply list_elem_of_In.
  - intros H. exists op. split; [by apply list_elem_of_In|apply String.eqb_refl].
Qed.

(** An error is an unknown operator. *)
Lemma evaluate_known input cond v :
  getNestedValue input (default "" (get_string cond "field")) = Ret v →
  (∃ b, evaluate input cond = Ret (Ok b)) ↔ default "" (get_string cond "operator") ∈ operators.
Proof.
  intros Hv. unfold evaluateCondition. rewrite Hv. set (op := default "" (get_string cond "operator")).
  rewrite <- one_of_spec. unfold one_of, operators. simpl. 
  repeat match goal with |- context [String.eqb op ?s] => destruct (String.eqb op s); simpl; [by split; eauto|] end.
  by split; [intros [b ?]|].
Qed.

(** The order of floats that are not NaN. *)
Lemma SFcompare_opp x y :
  SFcompare y x = match SFcompare x y with Some c => Some (CompOpp c) | None => None end.
Proof.
  destruct x as [[]|[]| |[] mx ex], y as [[]|[]| |[] my ey]; simpl; try done;
    change (Pos.compare_cont Eq) with Pos.compare; rewrite (Z.compare_antisym ex ey), (Pos.compare_antisym mx my);
    destruct (ex ?= ey)%Z, (mx ?= my)%positive; done.
Qed.
Lemma SFcompare_some x y : x ≠ S754_nan → y ≠ S754_nan → is_Some (SFcompare x y).
Proof.
  intros Hx Hy. destruct x as [[]|[]| |[] mx ex], y as [[]|[]| |[] my ey]; try done; simpl; try by eexists.
  all: destruct (ex ?= ey)%Z; by eexists.
Qed.

Lemma num_order a b x y :
  toFloat64 parse_float a = Some x → toFloat64 parse_float b = Some y → x ≠ S754_nan → y ≠ S754_nan →
  compareLessThanOrEqual parse_float a b = negb (compareGreaterThan parse_float a b)
  ∧ compareGreaterThanOrEqual parse_float a b = negb (compareLessThan parse_float a b)
  ∧ compareLessThan parse_float a b = compareGreaterThan parse_float b a
  ∧ compareLessThan parse_float a b && compareGreaterThan parse_float a b = false.
Proof.
  intros Ha Hb Hx Hy. unfold compareLessThanOrEqual, compareGreaterThanOrEqual, compareLessThan, compareGreaterThan,
    compare_num, f64_ltb, f64_leb, SFltb, SFleb. rewrite Ha, Hb, (SFcompare_opp x y).
  destruct (SFcompare_some x y Hx Hy) as [c ->]. by destruct c.
Qed.

Definition negations : list (string * string) :=
  [("equals", "notEquals"); ("contains", "notContains"); ("isEmpty", "isNotEmpty"); ("isNull", "isNotNull");
   ("in", "notIn")].

Lemma evaluate_op input cond op v :
  getNestedValue input (default "" (get_string cond "field")) = Ret v →
  evaluate input (<["operator" := VStr op]> cond) =
  evaluate {["" := v]} (<["operator" := VStr op]> {["value" := default VNil (cond !! "value")]}).
Proof.
  intros Hv. unfold evaluateCondition.
  assert (get_string (<["operator" := VStr op]> cond) "field" = get_string cond "field") as ->
    by (unfold get_string; by rewrite lookup_insert_ne).
  assert (∀ c, get_string (<["operator" := VStr op]> c) "operator" = Some op) as Hop
    by (intros c; unfold get_string; by rewrite lookup_insert_eq).
  rewrite Hv, !Hop, !lookup_insert_ne, lookup_singleton_eq by done.
  by assert (getNestedValue {["" := v]} (default "" (get_string (<["operator" := VStr op]>
    {["value" := default VNil (cond !! "value")]}) "field")) = Ret v) as -> by reflexivity.
Qed.

(** With a field that can be read, a condition has a result exactly when its
    operator is one of the known ones, and is an error otherwise; the negated
    operators give the opposite result; and on numbers that are not NaN the four
    comparisons are those of one total order. *)
Lemma condition_operators :
  (∀ input cond v, getNestedValue input (default "" (get_string cond "field")) = Ret v →
     (∃ b, evaluate input cond = Ret (Ok b)) ↔ default "" (get_string cond "operator") ∈ operators)
  ∧ (∀ input cond op nop b, (op, nop) ∈ negations →
       evaluate input (<["operator" := VStr op]> cond) = Ret (Ok b) →
       evaluate input (<["operator" := VStr nop]> cond) = Ret (Ok (negb b)))
  ∧ (∀ a b x y, toFloat64 parse_float a = Some x → toFloat64 parse_float b = Some y →
       x ≠ S754_nan → y ≠ S754_nan →
       compareLessThanOrEqual parse_float a b = negb (compareGreaterThan parse_float a b)
       ∧ compareGreaterThanOrEqual parse_float a b = negb (compareLessThan parse_float a b)
       ∧ compareLessThan parse_float a b = compareGreaterThan parse_float b a
       ∧ compareLessThan parse_float a b && compareGreaterThan parse_float a b = false).
Proof.
  split_and!; [intros; by eapply evaluate_known| |intros; by eapply num_order].
  intros input cond op nop b Hin E.
  destruct (getNestedValue input (default "" (get_string cond "field"))) as [v| |] eqn:Hv.
  - rewrite (evaluate_op _ _ op _ Hv) in E. rewrite (evaluate_op _ _ nop _ Hv). unfold negations in Hin. set_unfold in Hin.
    destruct Hin as [Hin|[Hin|[Hin|[Hin|[Hin|[]]]]]]; injection Hin as -> ->; cbn in E |- *; injection E as <-; by rewrite ?negb_involutive.
  - unfold evaluateCondition, get_string in E, Hv. rewrite lookup_insert_ne in E by done. by rewrite Hv in E.
  - unfold evaluateCondition, get_string in E, Hv. rewrite lookup_insert_ne in E by done. by rewrite Hv in E.
Qed.

(** An if node with a list of conditions that all evaluate takes the branch
    true exactly when all of them hold, in the mode and, or, in any other mode,
    when one of them holds, and reports each; a condition that is not an object
    counts as one that does not hold. *)
Lemma conditional_node_correct params input conds bs :
  params !! "conditions" = Some (VArr conds) → Forall2 (λ c b, holds input c = Ret (Ok b)) conds bs →
  let mode := default "" (get_string params "combineMode") in
  ∃ out, if_node params input = Ret (Ok out) ∧ coConditions out = Some bs
    ∧ (coBranch out = "true" ↔ coResult out = true)
    ∧ (coResult out = true ↔ if decide (mode = "" ∨ mode = "and") then ∀ c, c ∈ conds → holds input c = Ret (Ok true)
                             else ∃ c, c ∈ conds ∧ holds input c = Ret (Ok true)).
Proof.
  intros Hp Hbs mode. unfold Conditional_Execute. rewrite Hp. fold mode. pose proof Hbs as Hall. apply eval_all_spec in Hall.
  rewrite Hall. eexists. split; [done|]. split; [done|]. split.
  { simpl. destruct (if bool_decide _ then forallb id bs else existsb id bs); by split. }
  cbn [coResult]. assert (bool_decide ((if bool_decide (mode = "") then "and" else mode) = "and")
    = bool_decide (mode = "" ∨ mode = "and")) as ->.
  { destruct (decide (mode = "")) as [->|Hne]; [done|]. rewrite (bool_decide_false (mode = "")) by done.
    apply bool_decide_ext. naive_solver. }
  clear Hp Hall. case_bool_decide as Hm.
  - rewrite decide_True by done. clear Hm. induction Hbs as [|c b conds bs Hc Hbs IH]; simpl.
    { split; [|done]. intros _ c ?%elem_of_nil. done. }
    rewrite andb_true_iff, IH. setoid_rewrite elem_of_cons. split; [|intros H; split; [destruct b; [done|]; specialize (H c (or_introl eq_refl)); congruence|by auto]].
    intros [? ?] c' [->|?]; [|by auto]. by destruct b.
  - rewrite decide_False by done. clear Hm. induction Hbs as [|c b conds bs Hc Hbs IH]; simpl.
    { split; [done|]. by intros (c & ?%elem_of_nil & _). }
    rewrite orb_true_iff, IH. setoid_rewrite elem_of_cons. split.
    + intros [?|(c' & ? & ?)]; [|by eauto]. exists c. destruct b; [by auto|done].
    + intros (c' & [->|?] & ?); [left; destruct b; [done|congruence]|right; by eauto].
Qed.

End Properties.

(** A path that ends in an opening bracket and a negative index panic. *)
Lemma bad_paths_panic :
  getNestedValue {["a" := VArr [VNil]]} "a[" = Panic slice_panic
  ∧ getNestedValue {["a" := VArr [VNil]]} "a[-1]" = Panic index_panic.
Proof. split; reflexivity. Qed.

(** Equality compares texts: a number equals a string that looks like it. *)
Lemma equality_of_texts : compareEquals (λ _, "") (λ _, "") (VInt 5) (VStr "5") = true.
Proof. reflexivity. Qed.

(** ** Concrete runs *)

Lemma getNestedValue_correct_witness :
  getNestedValue {["a" := VArr [VInt 7; VObj [("b", VStr "x")]]]} "a[1].b" = Ret (VStr "x").
Proof.
  pose proof (getNestedValue_correct {["a" := VArr [VInt 7; VObj [("b", VStr "x")]]]} [At "a" 1; Key "b"]) as H.
  exact (H ltac:(done) ltac:(repeat constructor)).
Defined.

Lemma conditional_node_correct_witness :
  ∃ out, Conditional_Execute (λ _, "") (λ _, "") (λ _, None) (λ _ _, None) (λ _, None)
    {["conditions" := VArr [VObj [("field", VStr "n"); ("operator", VStr "isNotNull")]]]} {["n" := VInt 1]} = Ret (Ok out)
    ∧ coConditions out = Some [true].
Proof.
  destruct (conditional_node_correct (λ _, "") (λ _, "") (λ _, None) (λ _ _, None) (λ _, None)
    {["conditions" := VArr [VObj [("field", VStr "n"); ("operator", VStr "isNotNull")]]]} {["n" := VInt 1]}
    [VObj [("field", VStr "n"); ("operator", VStr "isNotNull")]] [true] (lookup_singleton_eq _ _))
    as (out & H1 & H2 & _); [repeat constructor|]. exists out. split; [exact H1|exact H2].
Defined.
