(* ===== verification/LoopNodes.v ===== *)
(** internal/executor/domain/types/loop_node.go: the loop, forEach, while,
    split, merge and aggregate nodes.  [ctx i] is the error of the context when
    it is done at the check of iteration [i]. *)

From S2P Require Import Prelude GoValue GoLib GoText Triggers Conditions.

Definition make_panic : string := "runtime error: makeslice: len out of range".

(** [params[k].(float64)], zero otherwise. *)
Definition get_float (m : vmap) (k : string) : spec_float :=
  match m !! k with Some (VFloat f) => f | _ => S754_zero false end.
Definition is_zero (f : spec_float) : bool := SFeqb f (S754_zero false).

(** [results[i:end]]. *)
Definition slice {A} (l : list A) (i e : Z) : outcome (list A) :=
  if bool_decide (0 ≤ i ≤ e)%Z && bool_decide (e ≤ Z.of_nat (length l))%Z
  then Ret (take (Z.to_nat (e - i)) (drop (Z.to_nat i) l))
  else Panic slice_panic.

(** ** loop *)

Record LoopOutput := { loItems : list (Z * vmap); loTotalCount : Z }.

Fixpoint loop_items (ctx : nat → option string) (input : vmap) (i n : nat) : result (list (Z * vmap)) :=
  match n with
  | O => Ok []
  | S n' =>
      match ctx i with
      | Some e => Err e
      | None =>
          match loop_items ctx input (S i) n' with
          | Ok l => Ok ((Z.of_nat i, input) :: l)
          | Err e => Err e
          end
      end
  end.

(** [max_len] is the largest length make accepts. *)
Definition Loop_Execute (max_len : Z) (ctx : nat → option string) (params input : vmap) : outcome (result LoopOutput) :=
  let iterations := get_float params "iterations" in
  let n := f64_trunc (if is_zero iterations then f64_of_Z 10 else iterations) in
  if bool_decide (0 ≤ n ≤ max_len)%Z then
    match loop_items ctx input 0 (Z.to_nat n) with
    | Ok items => Ret (Ok {| loItems := items; loTotalCount := n |})
    | Err e => Ret (Err e)
    end
  else Panic make_panic.

(** ** forEach *)

Record ForEachOutput := {
  feItems : list (Z * value);
  feTotalCount : Z;
  feBatches : option (list (list (Z * value)))      (* with their number *)
}.

Fixpoint each_items (ctx : nat → option string) (i : nat) (items : list value) : result (list (Z * value)) :=
  match items with
  | [] => Ok []
  | item :: items' =>
      match ctx i with
      | Some e => Err e
      | None =>
          match each_items ctx (S i) items' with
          | Ok l => Ok ((Z.of_nat i, item) :: l)
          | Err e => Err e
          end
      end
  end.

(** The loop over the batches, with fuel. *)
Fixpoint batch_loop {A} (fuel : nat) (results : list A) (i batchSize : Z) : outcome (list (list A)) :=
  if bool_decide (i < Z.of_nat (length results))%Z then
    match fuel with
    | O => NoFuel
    | S fuel' =>
        let end_ := if bool_decide (Z.of_nat (length results) < i + batchSize)%Z
                    then Z.of_nat (length results) else (i + batchSize)%Z in
        match slice results i end_ with
        | Ret b =>
            match batch_loop fuel' results (i + batchSize) batchSize with
            | Ret bs => Ret (b :: bs)
            | r => r
            end
        | Panic msg => Panic msg
        | NoFuel => NoFuel
        end
    end
  else Ret [].

Definition ForEach_Execute (fuel : nat) (ctx : nat → option string) (params input : vmap) :
    outcome (result ForEachOutput) :=
  let field := default "" (get_string params "field") in
  let batchSize := get_float params "batchSize" in
  match getNestedValue input field with
  | Panic msg => Panic msg
  | NoFuel => NoFuel
  | Ret (VArr items) =>
      match each_items ctx 0 items with
      | Err e => Ret (Err e)
      | Ok results =>
          let out bs := {| feItems := results; feTotalCount := Z.of_nat (length items); feBatches := bs |} in
          if f64_ltb (S754_zero false) batchSize then
            match batch_loop fuel results 0 (f64_trunc batchSize) with
            | Ret bs => Ret (Ok (out (Some bs)))
            | Panic msg => Panic msg
            | NoFuel => NoFuel
            end
          else Ret (Ok (out None))
      end
  | Ret _ => Ret (Err ("field " +:+ field +:+ " is not an array"))
  end.

(** ** split and merge *)

Inductive SplitOutput :=
  | Whole (input : vmap)                      (* one branch: the input *)
  | Branches (bs : list (Z * value)).

Definition Split_Execute (params input : vmap) : outcome SplitOutput :=
  match getNestedValue input (default "" (get_string params "field")) with
  | Panic msg => Panic msg
  | NoFuel => NoFuel
  | Ret (VArr items) => Ret (Branches (zip (Z.of_nat <$> seq 0 (length items)) items))
  | Ret _ => Ret (Whole input)
  end.

Inductive MergeOutput :=
  | Merged (l : list value) (count : Z)
  | Combined (m : vmap)
  | Inputs (l : list value) (count : option Z).

Definition append_input (merged : list value) (inp : value) : list value :=
  match inp with VArr arr => merged ++ arr | _ => merged ++ [inp] end.
(** The keys of one input are distinct: the order of the inner loop does not matter. *)
Definition combine_input (combined : vmap) (inp : value) : vmap :=
  match inp with VObj m => list_to_map m ∪ combined | _ => combined end.

Definition Merge_Execute (params input : vmap) : MergeOutput :=
  let mode := default "" (get_string params "mode") in
  let mode := if bool_decide (mode = "") then "append" else mode in
  let inputs := match input !! "inputs" with Some (VArr l) => l | _ => [VObj (map_to_list input)] end in
  if bool_decide (mode = "append") then
    let merged := foldl append_input [] inputs in Merged merged (Z.of_nat (length merged))
  else if bool_decide (mode = "combine") then Combined (foldl combine_input ∅ inputs)
  else if bool_decide (mode = "wait") then Inputs inputs (Some (Z.of_nat (length inputs)))
  else Inputs inputs None.

Section Nodes.
Context (fmt_float : spec_float → string) (fmt_time : Z → string) (parse_float : string → option spec_float).
Context (regex : string → string → option bool) (decode_array : string → option (list value)).

Abbreviation text := (sprint fmt_float fmt_time).
Abbreviation number := (toFloat64 parse_float).
Abbreviation evaluate := (evaluateCondition fmt_float fmt_time parse_float regex decode_array).

(** ** while *)

Record WhileOutput := { woItems : list (Z * vmap); woIterations : Z; woCompleted : bool }.

(** [left] iterations may still run. *)
Fixpoint while_loop (ctx : nat → option string) (input condition : vmap) (iteration left : nat) :
    outcome (result (list (Z * vmap))) :=
  match left with
  | O => Ret (Ok [])
  | S left' =>
      match ctx iteration with
      | Some e => Ret (Err e)
      | None =>
          match evaluate input condition with
          | Ret (Ok true) =>
              match while_loop ctx input condition (S iteration) left' with
              | Ret (Ok l) => Ret (Ok ((Z.of_nat iteration, input) :: l))
              | r => r
              end
          | Ret (Ok false) => Ret (Ok [])
          | Ret (Err e) => Ret (Err e)
          | Panic msg => Panic msg
          | NoFuel => NoFuel
          end
      end
  end.

Definition While_Execute (ctx : nat → option string) (params input : vmap) : outcome (result WhileOutput) :=
  let condition := match params !! "condition" with Some (VObj c) => list_to_map c | _ => ∅ end in
  let maxIterations := get_float params "maxIterations" in
  let n := f64_trunc (if is_zero maxIterations then f64_of_Z 100 else maxIterations) in
  match while_loop ctx input condition 0 (Z.to_nat n) with
  | Ret (Ok items) =>
      Ret (Ok {| woItems := items; woIterations := Z.of_nat (length items);
                 woCompleted := bool_decide (Z.of_nat (length items) < n)%Z |})
  | Ret (Err e) => Ret (Err e)
  | Panic msg => Panic msg
  | NoFuel => NoFuel
  end.

(** ** aggregate *)

Definition numbers (items : list value) : list spec_float := omap number items.

Definition sum_of (items : list value) : spec_float := foldl f64_add (S754_zero false) (numbers items).
Definition average_of (items : list value) : option spec_float :=
  match numbers items with
  | [] => None
  | l => Some (f64_div (sum_of items) (f64_of_Z (Z.of_nat (length l))))
  end.

(** [first] is the absence of a value so far. *)
Definition best_step (better : spec_float → spec_float → bool) (best : option spec_float) (num : spec_float) :
    option spec_float :=
  match best with
  | None => Some num
  | Some b => if better num b then Some num else best
  end.
Definition min_of (items : list value) : option spec_float :=
  foldl (best_step (λ num min, f64_ltb num min)) None (numbers items).
Definition max_of (items : list value) : option spec_float :=
  foldl (best_step (λ num max, f64_ltb max num)) None (numbers items).

Definition concat_of (separator : string) (items : list value) : string :=
  foldl (λ acc p, let '(i, item) := p in
           acc +:+ (if bool_decide (0 < i)%nat && bool_decide (separator ≠ "") then separator else "") +:+ text item)
    "" (zip (seq 0 (length items)) items).

Fixpoint unique_loop (seen : gset string) (items : list value) : list value :=
  match items with
  | [] => []
  | item :: items' =>
      if bool_decide (text item ∈ seen) then unique_loop seen items'
      else item :: unique_loop ({[text item]} ∪ seen) items'
  end.
Definition unique_of (items : list value) : list value := unique_loop ∅ items.

Definition group_key (groupBy : string) (item : value) : option string :=
  match item with VObj m => Some (text (obj_get m groupBy)) | _ => None end.
Definition group_step (groupBy : string) (groups : gmap string (list value)) (item : value) : gmap string (list value) :=
  match group_key groupBy item with Some key => append_at groups key item | None => groups end.
Definition groups_of (groupBy : string) (items : list value) : gmap string (list value) :=
  foldl (group_step groupBy) ∅ items.

Inductive Aggregate :=
  | Sum (f : spec_float)
  | Average (f : option spec_float)
  | Min (f : option spec_float)
  | Max (f : option spec_float)
  | Concat (s : string)
  | Unique (l : list value) (count : Z)
  | Groups (g : gmap string (list value)) (count : Z)
  | Items (l : list value).
Record AggregateOutput := { agCount : Z; agResult : Aggregate }.

Definition Aggregate_Execute (params input : vmap) : outcome (result AggregateOutput) :=
  let field := default "" (get_string params "field") in
  let operation := default "" (get_string params "operation") in
  match getNestedValue input field with
  | Panic msg => Panic msg
  | NoFuel => NoFuel
  | Ret (VArr items) =>
      Ret (Ok {| agCount := Z.of_nat (length items); agResult :=
        if one_of operation ["sum"] then Sum (sum_of items)
        else if one_of operation ["avg"; "average"] then Average (average_of items)
        else if one_of operation ["min"] then Min (min_of items)
        else if one_of operation ["max"] then Max (max_of items)
        else if one_of operation ["concat"] then
          Concat (concat_of (default "" (get_string params "separator")) items)
        else if one_of operation ["unique"] then
          Unique (unique_of items) (Z.of_nat (length (unique_of items)))
        else if one_of operation ["group"] then
          let g := groups_of (default "" (get_string params "groupBy")) items in
          Groups g (Z.of_nat (size g))
        else Items items |})
  | Ret _ => Ret (Err ("field " +:+ field +:+ " is not an array"))
  end.

End Nodes.

(** ** Batches *)

(** The batches of a list: full ones and the rest. *)
Definition batches_ok {A} (size : Z) (l : list A) (bs : list (list A)) : Prop :=
  concat bs = l ∧ Forall (λ b, 0 < Z.of_nat (length b) ≤ size)%Z bs
  ∧ ∀ bs' b, bs = bs' ++ [b] → Forall (λ b, Z.of_nat (length b) = size) bs'.

Lemma batch_loop_ok {A} fuel (l : list A) i size :
  (1 ≤ size)%Z → (0 ≤ i)%Z → (Z.of_nat (length l) - i ≤ Z.of_nat fuel)%Z →
  ∃ bs, batch_loop fuel l i size = Ret bs ∧ batches_ok size (drop (Z.to_nat i) l) bs.
Proof.
  intros Hs. revert i. induction fuel as [|fuel IH]; intros i Hi Hf; cbn [batch_loop]; case_bool_decide as Hlt; try lia.
  1,3: exists []; split; [done|]; split_and!; [by rewrite drop_ge by lia|constructor|by intros [] ?].
  set (e := if bool_decide _ then _ else _).
  assert (i < e ≤ Z.of_nat (length l) ∧ e - i ≤ size)%Z as He by (unfold e; case_bool_decide; lia).
  unfold slice. rewrite !bool_decide_true by lia. simpl. set (b := take _ _).
  assert (length b = Z.to_nat (e - i)) as Hb by (unfold b; rewrite length_take, length_drop; lia).
  destruct (IH (i + size)%Z) as (bs & -> & Hc & Hall & Hlast); [lia..|]. exists (b :: bs). split; [done|]. split_and!.
  - simpl. rewrite Hc. unfold b, e. case_bool_decide.
    + rewrite (drop_ge l (Z.to_nat (i + size))), app_nil_r by lia. apply take_ge. rewrite length_drop. lia.
    + rewrite <- (take_drop (Z.to_nat (i + size - i)) (drop (Z.to_nat i) l)) at 2. rewrite drop_drop. do 2 f_equal. lia.
  - constructor; [rewrite Hb; lia|done].
  - intros bs' b' E. destruct bs' as [|b0 bs']; [constructor|]. injection E as <- E. constructor; [|by eapply Hlast].
    rewrite Hb. unfold e in *. case_bool_decide; [|lia]. exfalso.
    rewrite (drop_ge l (Z.to_nat (i + size))) in Hc by lia. rewrite E in Hc, Hall.
    apply (f_equal length) in Hc. rewrite concat_app, length_app in Hc. simpl in Hc. rewrite app_nil_r in Hc.
    apply Forall_app in Hall as [_ Hall]. inversion Hall. lia.
Qed.

(** A batch size below one never advances. *)
Lemma batch_loop_stuck {A} fuel (l : list A) i : (0 ≤ i < Z.of_nat (length l))%Z → batch_loop fuel l i 0 = NoFuel.
Proof.
  revert i. induction fuel as [|fuel IH]; intros i Hi; cbn [batch_loop]; rewrite bool_decide_true by lia; [done|].
  rewrite Z.add_0_r, bool_decide_false by lia. unfold slice. rewrite !bool_decide_true by lia. simpl. by rewrite IH.
Qed.

Lemma each_items_ok ctx i items :
  (∀ n, ctx n = None) → each_items ctx i items = Ok (zip (Z.of_nat <$> seq i (length items)) items).
Proof. intros Hc. revert i. induction items as [|x items IH]; intros i; simpl; [done|]. by rewrite Hc, IH. Qed.

(** While the context is not done, a forEach node over an array reports the
    items in order with their indices; with a batch size of at least one its loop
    ends within as many iterations as there are items, the batches are the items
    in order, none is empty or longer than the size, and all but the last have
    exactly the size. *)
Lemma forEach_batches fuel ctx params input p items :
  (∀ n, ctx n = None) → get_string params "field" = Some (print_path p) → p ≠ [] → Forall step_ok p →
  foldl walk (VObj (map_to_list input)) p = VArr items → length items ≤ fuel →
  (1 ≤ f64_trunc (get_float params "batchSize"))%Z → f64_ltb (S754_zero false) (get_float params "batchSize") = true →
  ∃ out bs, ForEach_Execute fuel ctx params input = Ret (Ok out)
    ∧ feItems out = zip (Z.of_nat <$> seq 0 (length items)) items ∧ feTotalCount out = Z.of_nat (length items)
    ∧ feBatches out = Some bs ∧ batches_ok (f64_trunc (get_float params "batchSize")) (feItems out) bs.
Proof.
  intros Hctx Hf Hne Hp Hw Hfuel Hsize Hpos. unfold ForEach_Execute. rewrite Hf.
  change (default "" (Some (print_path p))) with (print_path p). rewrite getNestedValue_walk, Hw by done.
  rewrite each_items_ok, Hpos by done. set (results := zip _ _).
  assert (length results = length items) as Hl
    by (unfold results; rewrite length_zip, length_fmap, length_seq; lia).
  destruct (batch_loop_ok fuel results 0 (f64_trunc (get_float params "batchSize"))) as (bs & -> & Hbs); [done|done|lia|].
  eexists _, bs. split_and!; [done..|]. simpl. exact Hbs.
Qed.

(** ** while *)

Section Properties.
Context (fmt_float : spec_float → string) (fmt_time : Z → string) (parse_float : string → option spec_float).
Context (regex : string → string → option bool) (decode_array : string → option (list value)).

Abbreviation text := (sprint fmt_float fmt_time).
Abbreviation evaluate := (evaluateCondition fmt_float fmt_time parse_float regex decode_array).
Abbreviation while_node := (While_Execute fmt_float fmt_time parse_float regex decode_array).

Lemma while_loop_const ctx input cond i n b :
  (∀ k, ctx k = None) → evaluate input cond = Ret (Ok b) →
  while_loop fmt_float fmt_time parse_float regex decode_array ctx input cond i n =
  Ret (Ok (if b then (λ k, (Z.of_nat k, input)) <$> seq i n else [])).
Proof.
  intros Hc He. revert i. induction n as [|n IH]; intros i; simpl; [by destruct b|]. rewrite Hc, He.
  destruct b; [|done]. by rewrite IH.
Qed.

(** A while node always ends: its condition is evaluated on an input the
    node never changes, so it runs either no iteration, and reports completion
    exactly then if an iteration was allowed, or as many as the maximum, which is
    100 unless the parameters give one. *)
Lemma while_node_correct ctx params input cond b :
  (∀ k, ctx k = None) → params !! "condition" = Some (VObj cond) →
  evaluate input (list_to_map cond) = Ret (Ok b) →
  let n := if is_zero (get_float params "maxIterations") then 100%Z else f64_trunc (get_float params "maxIterations") in
  ∃ out, while_node ctx params input = Ret (Ok out)
    ∧ woIterations out = (if b then Z.max 0 n else 0)%Z
    ∧ woItems out = (λ k, (Z.of_nat k, input)) <$> seq 0 (Z.to_nat (woIterations out))
    ∧ (woCompleted out = true ↔ b = false ∧ (0 < n)%Z).
Proof.
  intros Hc Hp He n. unfold While_Execute. rewrite Hp. cbn zeta.
  assert (f64_trunc (if is_zero (get_float params "maxIterations") then f64_of_Z 100 else get_float params "maxIterations") = n)
    as -> by (unfold n; by destruct (is_zero _)).
  rewrite (while_loop_const _ _ _ _ _ b) by done. eexists. split; [done|]. cbn [woIterations woItems woCompleted].
  destruct b; rewrite ?length_fmap, ?length_seq; simpl.
  - split_and!; [lia|f_equal; f_equal; lia|]. rewrite bool_decide_eq_true. split; [lia|by intros [? _]].
  - split_and!; [done..|]. rewrite bool_decide_eq_true. naive_solver lia.
Qed.

(** ** aggregate *)

(** The order of floats as a lexicographic order of integers. *)
Definition float_key (f : spec_float) : Z * (Z * Z) :=
  match f with
  | S754_infinity true => (-2, (0, 0))
  | S754_finite true m e => (-1, (- e, Zneg m))
  | S754_zero _ => (0, (0, 0))
  | S754_finite false m e => (1, (e, Zpos m))
  | S754_infinity false => (2, (0, 0))
  | S754_nan => (3, (0, 0))
  end%Z.
Definition key_lt (a b : Z * (Z * Z)) : Prop :=
  (a.1 < b.1 ∨ (a.1 = b.1 ∧ (a.2.1 < b.2.1 ∨ (a.2.1 = b.2.1 ∧ a.2.2 < b.2.2))))%Z.

Lemma ltb_key x y : x ≠ S754_nan → y ≠ S754_nan → f64_ltb x y = true ↔ key_lt (float_key x) (float_key y).
Proof.
  intros Hx Hy. unfold f64_ltb, SFltb, key_lt.
  destruct x as [[]|[]| |[] mx ex], y as [[]|[]| |[] my ey]; simpl; try done; try (split; [done|lia]); try (split; [lia|done]).
  all: change (Pos.compare_cont Eq) with Pos.compare; destruct (Z.compare_spec ex ey) as [->|?|?];
    try (destruct (Pos.compare_spec mx my) as [->|?|?]; simpl); split; try done; lia.
Qed.

Definition not_nan (f : spec_float) : Prop := f ≠ S754_nan.

(** The loop keeps a value than which none is better. *)
Lemma best_fold (R : spec_float → spec_float → bool) l b :
  (∀ x y, not_nan x → not_nan y → R x y = true → R y x = false) →
  (∀ x y z, not_nan x → not_nan y → not_nan z → R x y = false → R y z = false → R x z = false) →
  not_nan b → Forall not_nan l →
  ∃ r, foldl (best_step R) (Some b) l = Some r ∧ (r = b ∨ r ∈ l) ∧ R b r = false ∧ ∀ x, x ∈ l → R x r = false.
Proof.
  intros Ha Ht. revert b. induction l as [|x l IH]; intros b Hb Hl; simpl.
  { exists b. split_and!; [done|by left| |by intros x ?%elem_of_nil]. destruct (R b b) eqn:E; [by rewrite (Ha b b) in E|done]. }
  inversion Hl as [|?? Hx Hl']; subst. assert (∀ b' r, not_nan b' → r = b' ∨ r ∈ l → not_nan r) as Hn.
  { intros b' r ? [->|Hr]; [done|]. rewrite Forall_forall in Hl'. by apply Hl'. }
  destruct (R x b) eqn:E.
  - destruct (IH x Hx Hl') as (r & -> & Hr & H1 & H2). exists r.
    split_and!; [done|right; rewrite elem_of_cons; naive_solver|by eauto|].
    by intros y [->|?]%elem_of_cons; [|apply H2].
  - destruct (IH b Hb Hl') as (r & -> & Hr & H1 & H2). exists r.
    split_and!; [done|rewrite elem_of_cons; naive_solver|done|].
    by intros y [->|?]%elem_of_cons; [eauto|apply H2].
Qed.

Lemma ltb_asym x y : not_nan x → not_nan y → f64_ltb x y = true → f64_ltb y x = false.
Proof.
  intros Hx Hy H. apply not_true_iff_false. intros H'. apply ltb_key in H, H'; [|done..]. unfold key_lt in *. lia.
Qed.
Lemma ltb_neg_trans x y z :
  not_nan x → not_nan y → not_nan z → f64_ltb x y = false → f64_ltb y z = false → f64_ltb x z = false.
Proof.
  intros Hx Hy Hz H1 H2. apply not_true_iff_false. intros H3. apply ltb_key in H3; [|done..].
  apply not_true_iff_false in H1, H2. rewrite ltb_key in H1, H2 by done. unfold key_lt in *. lia.
Qed.

Lemma min_of_ok items :
  Forall not_nan (numbers parse_float items) → numbers parse_float items ≠ [] →
  ∃ m, min_of parse_float items = Some m ∧ m ∈ numbers parse_float items
       ∧ ∀ x, x ∈ numbers parse_float items → f64_ltb x m = false.
Proof.
  unfold min_of. destruct (numbers parse_float items) as [|b l]; [done|]. intros Hn _. inversion Hn as [|?? Hb Hl]; subst. simpl.
  destruct (best_fold (λ num min, f64_ltb num min) l b) as (r & -> & Hr & H1 & H2);
    [apply ltb_asym|apply ltb_neg_trans|done..|].
  exists r. split_and!; [done|rewrite elem_of_cons; naive_solver|]. by intros x [->|?]%elem_of_cons; [|apply H2].
Qed.

Lemma max_of_ok items :
  Forall not_nan (numbers parse_float items) → numbers parse_float items ≠ [] →
  ∃ m, max_of parse_float items = Some m ∧ m ∈ numbers parse_float items
       ∧ ∀ x, x ∈ numbers parse_float items → f64_ltb m x = false.
Proof.
  unfold max_of. destruct (numbers parse_float items) as [|b l]; [done|]. intros Hn _. inversion Hn as [|?? Hb Hl]; subst. simpl.
  destruct (best_fold (λ num max, f64_ltb max num) l b) as (r & -> & Hr & H1 & H2);
    [intros; by apply ltb_asym|intros x y z ?????; by apply (ltb_neg_trans z y x)|done..|].
  exists r. split_and!; [done|rewrite elem_of_cons; naive_solver|]. by intros x [->|?]%elem_of_cons; [|apply H2].
Qed.

Lemma unique_loop_ok seen items :
  let u := unique_loop fmt_float fmt_time seen items in
  u `sublist_of` items ∧ NoDup (text <$> u)
  ∧ ∀ s, s ∈ (text <$> u) ↔ s ∈ (text <$> items) ∧ s ∉ seen.
Proof.
  revert seen. induction items as [|x items IH]; intros seen u; subst u; simpl.
  { split_and!; [done|constructor|]. intros s. rewrite !elem_of_nil. naive_solver. }
  case_bool_decide as Hin.
  - destruct (IH seen) as (H1 & H2 & H3). split_and!; [by constructor|done|].
    intros s. rewrite H3, elem_of_cons. set_solver.
  - destruct (IH ({[text x]} ∪ seen)) as (H1 & H2 & H3). split_and!; [by constructor| |].
    + simpl. constructor; [|done]. rewrite H3. set_solver.
    + intros s. simpl. rewrite !elem_of_cons, H3. destruct (decide (s = text x)); set_solver.
Qed.

Lemma groups_ok groupBy items groups key :
  get_slice (foldl (group_step fmt_float fmt_time groupBy) groups items) key =
  get_slice groups key ++ filter (λ v, group_key fmt_float fmt_time groupBy v = Some key) items.
Proof.
  revert groups. induction items as [|x items IH]; intros groups; simpl; [by rewrite app_nil_r|].
  rewrite IH, filter_cons. unfold group_step at 1. destruct (group_key _ _ groupBy x) as [k|] eqn:E; [|done].
  rewrite get_slice_append_at. case_decide as D; [subst; rewrite decide_True by done; by rewrite <- app_assoc|].
  by rewrite decide_False by congruence.
Qed.

Lemma groups_keys groupBy items groups key l :
  map_Forall (λ _ l, l ≠ []) groups →
  foldl (group_step fmt_float fmt_time groupBy) groups items !! key = Some l → l ≠ [].
Proof.
  revert groups. induction items as [|x items IH]; intros groups Hg; simpl; [apply Hg|]. apply IH.
  unfold group_step. destruct (group_key _ _ groupBy x); [|done]. unfold append_at. apply map_Forall_insert_2; [|done].
  by destruct (get_slice groups _).
Qed.

(** The aggregate operations: min and max are one of the numbers and no
    number is below or above it (as long as none is NaN); unique keeps, in order,
    one item of every text; and the groups are exactly the items with each key,
    in order, with no empty group. *)
Lemma aggregate_correct items :
  (Forall not_nan (numbers parse_float items) → numbers parse_float items ≠ [] →
   (∃ m, min_of parse_float items = Some m ∧ m ∈ numbers parse_float items
         ∧ ∀ x, x ∈ numbers parse_float items → f64_ltb x m = false)
   ∧ ∃ m, max_of parse_float items = Some m ∧ m ∈ numbers parse_float items
          ∧ ∀ x, x ∈ numbers parse_float items → f64_ltb m x = false)
  ∧ (let u := unique_of fmt_float fmt_time items in
     u `sublist_of` items ∧ NoDup (text <$> u) ∧ ∀ s, s ∈ (text <$> u) ↔ s ∈ (text <$> items))
  ∧ (∀ groupBy key l, groups_of fmt_float fmt_time groupBy items !! key = Some l ↔
       l = filter (λ v, group_key fmt_float fmt_time groupBy v = Some key) items ∧ l ≠ []).
Proof.
  split_and!.
  - intros H1 H2. split; [by apply min_of_ok|by apply max_of_ok].
  - destruct (unique_loop_ok ∅ items) as (H1 & H2 & H3). split_and!; [done..|]. intros s. rewrite H3. set_solver.
  - intros groupBy key l. unfold groups_of. pose proof (groups_ok groupBy items ∅ key) as Hg.
    pose proof (groups_keys groupBy items ∅ key) as Hk. unfold get_slice in Hg at 1 2. rewrite lookup_empty in Hg. simpl in Hg.
    destruct (foldl _ ∅ items !! key) as [l'|]; simpl in Hg; subst; split.
    + intros [= <-]. split; [done|]. apply Hk; [apply map_Forall_empty|done].
    + by intros [-> _].
    + done.
    + intros [-> H]. by rewrite <- Hg in H.
Qed.

End Properties.

(** ** Concrete runs *)

(** A batch size between zero and one makes the loop run for ever; a negative
    number of iterations panics. *)
Lemma fractional_batch_diverges fuel :
  ForEach_Execute fuel (λ _, None) (<["field" := VStr "a"]> {["batchSize" := VFloat f64_half]}) {["a" := VArr [VNil]]}
  = NoFuel.
Proof.
  unfold ForEach_Execute. assert (getNestedValue {["a" := VArr [VNil]]} "a" = Ret (VArr [VNil])) as H by reflexivity.
  unfold get_string, get_float. rewrite lookup_insert_eq, lookup_insert_ne, lookup_singleton_eq by done.
  change (default "" (Some "a")) with "a". rewrite H.
  change (each_items (λ _, None) 0 [VNil]) with (@Ok (list (Z * value)) [(0%Z, VNil)]).
  change (f64_ltb (S754_zero false) f64_half) with true. change (f64_trunc f64_half) with 0%Z.
  cbv iota. by rewrite (batch_loop_stuck fuel [(0%Z, VNil)] 0).
Qed.

Lemma negative_loop_panics ctx input :
  Loop_Execute 1000 ctx {["iterations" := VFloat (f64_of_Z (-1))]} input = Panic make_panic.
Proof. reflexivity. Qed.

Lemma forEach_batches_witness :
  ∃ out bs, ForEach_Execute 3 (λ _, None) (<["field" := VStr "a"]> {["batchSize" := VFloat (f64_of_Z 2)]})
              {["a" := VArr [VInt 1; VInt 2; VInt 3]]} = Ret (Ok out)
    ∧ feBatches out = Some bs ∧ batches_ok 2 (feItems out) bs.
Proof.
  destruct (forEach_batches 3 (λ _, None) (<["field" := VStr "a"]> {["batchSize" := VFloat (f64_of_Z 2)]})
    {["a" := VArr [VInt 1; VInt 2; VInt 3]]} [Key "a"] [VInt 1; VInt 2; VInt 3])
    as (out & bs & H1 & _ & _ & H2 & H3); [done|reflexivity|done|repeat constructor|reflexivity|simpl; lia|by vm_compute|reflexivity|].
  exists out, bs. split_and!; [exact H1|exact H2|exact H3].
Defined.

Lemma while_node_correct_witness :
  ∃ out, While_Execute (λ _, "") (λ _, "") (λ _, None) (λ _ _, None) (λ _, None) (λ _, None)
           {["condition" := VObj [("field", VStr "n"); ("operator", VStr "isNotNull")]]} {["n" := VInt 1]} = Ret (Ok out)
    ∧ woIterations out = 100%Z.
Proof.
  destruct (while_node_correct (λ _, "") (λ _, "") (λ _, None) (λ _ _, None) (λ _, None) (λ _, None)
    {["condition" := VObj [("field", VStr "n"); ("operator", VStr "isNotNull")]]} {["n" := VInt 1]}
    [("field", VStr "n"); ("operator", VStr "isNotNull")] true) as (out & H1 & H2 & _);
    [done|exact (lookup_singleton_eq _ _)|reflexivity|].
  exists out. split; [exact H1|exact H2].
Defined.
