(* ===== verification/TransformNodes.v ===== *)
(** internal/executor/domain/types/transform_node.go: the transform node.  Its
    data is a map that can hold slices of strings, which the assertions to
    []interface{} do not accept ([cvalue] of Triggers).  Copies of a map whose
    result depends on the order of iteration take it as an argument. *)

From S2P Require Import Prelude GoValue GoLib GoText Triggers Conditions LoopNodes.

Record TransformOperation := {
  toType : string;
  toField : string;
  toTargetField : string;
  toExpression : string;
  toParameters : vmap
}.
Record TransformNodeConfig := { tcOperations : list TransformOperation; tcOutputFormat : string }.

(** [for k, v := range data { f }] into a new map. *)
Definition range_copy (f : config → string → cvalue → config) (data : config) (ord : list string) : config :=
  foldl (λ r k, match data !! k with Some v => f r k v | None => r end) ∅ ord.

Section Transform.
Context (fmt_float : spec_float → string) (fmt_time : Z → string) (parse_float : string → option spec_float).
Context (submatch : string → string → option (list string)).   (* pattern, text; None: it does not compile *)
Context (decode_value : string → option value).

Definition ctext (v : cvalue) : string :=
  match v with Dyn v => sprint fmt_float fmt_time v | Strs l => fmt_slice l end.

(** ** Helpers *)

Definition evaluateExpression (expression : string) (value : cvalue) : cvalue :=
  match value with
  | Dyn (VStr s) =>
      if bool_decide (expression = "uppercase") then Dyn (VStr (to_upper s))
      else if bool_decide (expression = "lowercase") then Dyn (VStr (to_lower s))
      else if bool_decide (expression = "trim") then Dyn (VStr (trim_space s))
      else value
  | _ => value
  end.

Definition toNumber (value : cvalue) : option spec_float :=
  match value with Dyn v => toFloat64 parse_float v | Strs _ => None end.

Definition Transform_evaluateCondition (condition : string) (value : cvalue) : bool :=
  if bool_decide (condition = "") then true
  else if contains condition ">" then
    match split condition ">" with
    | [_; p] =>
        match toNumber value, parse_float (trim_space p) with
        | Some num, Some threshold => f64_ltb threshold num
        | _, _ => true
        end
    | _ => true
    end
  else true.

Definition toBool (value : cvalue) : bool :=
  match value with
  | Dyn (VBool b) => b
  | Dyn (VStr s) => one_of (to_lower s) ["true"; "yes"; "1"]
  | Dyn (VInt z) => negb (bool_decide (z = 0%Z))
  | Dyn (VFloat f) => negb (is_zero f)
  | _ => false
  end.

(** ** Operations *)

Definition transformMap (op : TransformOperation) (data : config) : config :=
  if bool_decide (toField op ≠ "") && bool_decide (toTargetField op ≠ "") then
    match data !! toField op with
    | Some value =>
        <[toTargetField op := if bool_decide (toExpression op ≠ "") then evaluateExpression (toExpression op) value
                              else value]> data
    | None => data
    end
  else data.

(** The copy writes every key once. *)
Definition transformFilter (op : TransformOperation) (data : config) : config :=
  if bool_decide (toField op = "") then data
  else match data !! toField op with
  | None => data
  | Some (Dyn (VArr arr)) =>
      <[toField op := Dyn (VArr (filter (λ item, Transform_evaluateCondition (toExpression op) (Dyn item) = true) arr))]> data
  | Some value =>
      if Transform_evaluateCondition (toExpression op) value then data else delete (toField op) data
  end.

(** [min] and [max] start with the first item, zero if it is not a number. *)
Definition extremum (better : spec_float → spec_float → bool) (arr : list value) : value :=
  match arr with
  | [] => VNil
  | v :: arr' =>
      VFloat (foldl (λ best item, match toFloat64 parse_float item with
                                  | Some num => if better num best then num else best
                                  | None => best
                                  end) (default (S754_zero false) (toFloat64 parse_float v)) arr')
  end.

Definition reduce_value (op : TransformOperation) (arr : list value) : value :=
  let reduceType := toExpression op in
  if one_of reduceType ["sum"] then VFloat (sum_of parse_float arr)
  else if one_of reduceType ["avg"; "average"] then
    match average_of parse_float arr with Some f => VFloat f | None => VInt 0 end
  else if one_of reduceType ["min"] then extremum (λ num min, f64_ltb num min) arr
  else if one_of reduceType ["max"] then extremum (λ num max, f64_ltb max num) arr
  else if one_of reduceType ["count"] then VInt (Z.of_nat (length arr))
  else if one_of reduceType ["join"] then
    VStr (String.concat (default ", " (get_string (toParameters op) "separator"))
                        (sprint fmt_float fmt_time <$> arr))
  else VArr arr.

Definition transformReduce (op : TransformOperation) (data : config) (ord : list string) : config :=
  if bool_decide (toField op = "") then data
  else match data !! toField op with
  | Some (Dyn (VArr arr)) =>
      let result := Dyn (reduce_value op arr) in
      range_copy (λ out k v,
        if bool_decide (k = toField op) then
          if bool_decide (toTargetField op ≠ "") then <[k := v]> (<[toTargetField op := result]> out)
          else <[k := result]> out
        else <[k := v]> out) data ord
  | _ => data
  end.

Definition transformSplit (op : TransformOperation) (data : config) (ord : list string) : config :=
  if bool_decide (toField op = "") then data
  else match data !! toField op with
  | Some (Dyn (VStr str)) =>
      let parts := Strs (split str (default "," (get_string (toParameters op) "separator"))) in
      range_copy (λ out k v,
        if bool_decide (k = toField op) then
          let targetField := if bool_decide (toTargetField op = "") then k else toTargetField op in
          let out := <[targetField := parts]> out in
          if bool_decide (targetField ≠ k) then <[k := v]> out else out
        else <[k := v]> out) data ord
  | _ => data
  end.

Definition extract_target (op : TransformOperation) : string :=
  if bool_decide (toTargetField op = "") then toField op +:+ "_extracted" else toTargetField op.

Definition transformExtract (op : TransformOperation) (data : config) : result config :=
  if bool_decide (toField op = "") || bool_decide (toExpression op = "") then Ok data
  else match data !! toField op with
  | Some (Dyn (VStr str)) =>
      match submatch (toExpression op) str with
      | None => Err "invalid regex: error parsing regexp"
      | Some [] => Ok data
      | Some [m] => Ok (<[extract_target op := Dyn (VStr m)]> data)
      | Some (_ :: ms) => Ok (<[extract_target op := Strs ms]> data)
      end
  | _ => Ok data
  end.

Definition transformRename (op : TransformOperation) (data : config) (ord : list string) : config :=
  if bool_decide (toField op = "") || bool_decide (toTargetField op = "") then data
  else range_copy (λ out k v, if bool_decide (k = toField op) then <[toTargetField op := v]> out
                              else <[k := v]> out) data ord.

Definition target_type (op : TransformOperation) : string :=
  if bool_decide (toExpression op = "") then default "" (get_string (toParameters op) "type") else toExpression op.

Definition convert_value (targetType : string) (value : cvalue) : result cvalue :=
  if one_of targetType ["string"] then Ok (Dyn (VStr (ctext value)))
  else if one_of targetType ["number"; "float"] then
    match toNumber value with
    | Some f => Ok (Dyn (VFloat f))
    | None => Err "conversion failed: cannot convert to number"
    end
  else if one_of targetType ["int"; "integer"] then
    Ok (Dyn (match toNumber value with Some f => VInt (f64_trunc f) | None => VNil end))
  else if one_of targetType ["bool"; "boolean"] then Ok (Dyn (VBool (toBool value)))
  else if one_of targetType ["json"] then
    match value with
    | Dyn (VStr s) => Ok (Dyn (default VNil (decode_value s)))
    | _ => Ok value
    end
  else Ok value.

Definition transformConvert (op : TransformOperation) (data : config) : result config :=
  if bool_decide (toField op = "") then Ok data
  else match data !! toField op with
  | None => Ok data
  | Some value =>
      match convert_value (target_type op) value with
      | Ok converted => Ok (<[toField op := converted]> data)
      | Err e => Err e
      end
  end.

(** sort, group and merge return the data unchanged. *)
Definition applyTransformation (op : TransformOperation) (data : config) (ord : list string) : result config :=
  if bool_decide (toType op = "map") then Ok (transformMap op data)
  else if bool_decide (toType op = "filter") then Ok (transformFilter op data)
  else if bool_decide (toType op = "reduce") then Ok (transformReduce op data ord)
  else if one_of (toType op) ["sort"; "group"] then Ok data
  else if bool_decide (toType op = "split") then Ok (transformSplit op data ord)
  else if bool_decide (toType op = "merge") then Ok data
  else if bool_decide (toType op = "extract") then transformExtract op data
  else if bool_decide (toType op = "rename") then Ok (transformRename op data ord)
  else if bool_decide (toType op = "convert") then transformConvert op data
  else Err ("unsupported transformation type: " +:+ toType op).

(** [ords] gives the order of iteration of each map. *)
Fixpoint apply_all (ops : list TransformOperation) (data : config) (ords : config → list string) : result config :=
  match ops with
  | [] => Ok data
  | op :: ops' =>
      match applyTransformation op data (ords data) with
      | Err e => Err ("transformation failed at operation " +:+ toType op +:+ ": " +:+ e)
      | Ok data => apply_all ops' data ords
      end
  end.

Definition formatOutput (data : config) (format : string) : config := data.

(** [parse] is the decoding of the parameters, before the default format. *)
Definition parseConfig (parse : vmap → result TransformNodeConfig) (params : vmap) : result TransformNodeConfig :=
  match parse params with
  | Err e => Err e
  | Ok c => Ok {| tcOperations := tcOperations c;
                  tcOutputFormat := if bool_decide (tcOutputFormat c = "") then "json" else tcOutputFormat c |}
  end.

Definition Transform_Execute (parse : vmap → result TransformNodeConfig) (params : vmap) (input : config)
    (ords : config → list string) : result config :=
  match parseConfig parse params with
  | Err e => Err ("invalid configuration: " +:+ e)
  | Ok c =>
      match apply_all (tcOperations c) input ords with
      | Err e => Err e
      | Ok r => Ok (if bool_decide (tcOutputFormat c ≠ "") && bool_decide (tcOutputFormat c ≠ "json")
                    then formatOutput r (tcOutputFormat c) else r)
      end
  end.

Definition validTypes : list string :=
  ["map"; "filter"; "reduce"; "sort"; "group"; "join"; "split"; "merge"; "extract"; "rename"; "convert"].

Fixpoint validate_ops (ops : list TransformOperation) : option string :=
  match ops with
  | [] => None
  | op :: ops' =>
      if bool_decide (toType op = "") then Some "operation type is required"
      else if negb (one_of (toType op) validTypes) then Some ("invalid operation type: " +:+ toType op)
      else validate_ops ops'
  end.
Definition Transform_ValidateInput (parse : vmap → result TransformNodeConfig) (params : vmap) : option string :=
  match parseConfig parse params with
  | Err e => Some e
  | Ok c =>
      if bool_decide (tcOperations c = []) then Some "at least one transformation operation is required"
      else validate_ops (tcOperations c)
  end.

(** ** Copies *)

(** A copy in which every key contributes a map. *)
Lemma union_copy (G : string → cvalue → config) data ord x y :
  NoDup ord →
  (∀ k1 k2 v1 v2, k1 ≠ k2 → data !! k1 = Some v1 → data !! k2 = Some v2 →
     is_Some (G k1 v1 !! x) → G k2 v2 !! x = None) →
  range_copy (λ r k v, G k v ∪ r) data ord !! x = Some y ↔
  ∃ k v, k ∈ ord ∧ data !! k = Some v ∧ G k v !! x = Some y.
Proof.
  intros Hnd Hg. unfold range_copy.
  assert (∀ r, foldl (λ r k, match data !! k with Some v => G k v ∪ r | None => r end) r ord !! x = Some y ↔
    (∃ k v, k ∈ ord ∧ data !! k = Some v ∧ G k v !! x = Some y)
    ∨ (∀ k v, k ∈ ord → data !! k = Some v → G k v !! x = None) ∧ r !! x = Some y) as H.
  { induction Hnd as [|k ord Hni Hnd IH]; intros r; simpl.
    { setoid_rewrite elem_of_nil. naive_solver. }
    rewrite IH. setoid_rewrite elem_of_cons. destruct (data !! k) as [v|] eqn:E; [|naive_solver].
    rewrite lookup_union_Some_raw. split.
    - intros [(k' & v' & ? & ? & ?)|[Hn [?|[Hgn ?]]]]; [left; eauto 10|left; eauto 10|right].
      split; [|done]. intros k' v' [->|?] ?; [congruence|by eapply Hn].
    - intros [(k' & v' & [->|Hin] & Hv & Hy)|[Hn Hr]]; [| |].
      + right. simplify_eq. split; [|by left]. intros k2 v2 Hin2 Hv2. eapply (Hg k k2); [congruence|done..|]. by eexists.
      + left. eauto.
      + right. split; [naive_solver|]. right. split; [by eapply Hn; [left|]|done]. }
  rewrite H, lookup_empty. naive_solver.
Qed.

Lemma range_copy_ext f g data ord : (∀ r k v, f r k v = g r k v) → range_copy f data ord = range_copy g data ord.
Proof.
  intros H. unfold range_copy. generalize (∅ : config). induction ord as [|k ord IH]; intros r; simpl; [done|].
  destruct (data !! k); rewrite ?H; apply IH.
Qed.

(** Copies that treat one field specially, writing [W v] for it. *)
Definition special (field : string) (W : cvalue → config) (k : string) (v : cvalue) : config :=
  if bool_decide (k = field) then W v else {[k := v]}.

Lemma special_frame field W data ord x :
  range_order data ord → x ≠ field → (∀ v, data !! field = Some v → W v !! x = None) →
  range_copy (λ r k v, special field W k v ∪ r) data ord !! x = data !! x.
Proof.
  intros [Hnd Hord] Hx Hw. apply option_eq. intros y. unfold special. rewrite union_copy; [|done|].
  - split.
    + intros (k & v & _ & Hk & Hy). case_bool_decide; [subst; by rewrite Hw in Hy|]. by apply lookup_singleton_Some in Hy as [-> ->].
    + intros Hy. exists x, y. rewrite bool_decide_false by done. split_and!; [apply Hord; by eexists|done|apply lookup_singleton_eq].
  - intros k1 k2 v1 v2 Hne H1 H2. case_bool_decide; [subst; rewrite Hw by done; by intros []|].
    intros [z [-> ->]%lookup_singleton_Some]. case_bool_decide; [subst; by apply Hw|]. by apply lookup_singleton_ne.
Qed.

Lemma special_order field W data ord1 ord2 :
  range_order data ord1 → range_order data ord2 →
  (∀ x v k v', data !! field = Some v → is_Some (W v !! x) → data !! k = Some v' → k ≠ field → k ≠ x) →
  range_copy (λ r k v, special field W k v ∪ r) data ord1 = range_copy (λ r k v, special field W k v ∪ r) data ord2.
Proof.
  intros [Hn1 H1] [Hn2 H2] Hw. apply map_eq. intros x. apply option_eq. intros y.
  assert (∀ k1 k2 v1 v2, k1 ≠ k2 → data !! k1 = Some v1 → data !! k2 = Some v2 →
    is_Some (special field W k1 v1 !! x) → special field W k2 v2 !! x = None) as Hd.
  { unfold special. intros k1 k2 v1 v2 Hne D1 D2.
    destruct (bool_decide_reflect (k1 = field)) as [->|B1], (bool_decide_reflect (k2 = field)) as [->|B2]; [done|..].
    - intros Hs. apply lookup_singleton_ne. by eapply Hw.
    - intros [z [-> ->]%lookup_singleton_Some]. apply eq_None_not_Some. intros Hs. by eapply (Hw x v2 x z).
    - intros [z [-> ->]%lookup_singleton_Some]. by apply lookup_singleton_ne. }
  rewrite !union_copy by done. setoid_rewrite H1. by setoid_rewrite H2.
Qed.

(** The three operations that copy this way. *)
Definition reduce_writes (op : TransformOperation) (arr : list value) (v : cvalue) : config :=
  if bool_decide (toTargetField op ≠ "") then <[toField op := v]> {[toTargetField op := Dyn (reduce_value op arr)]}
  else {[toField op := Dyn (reduce_value op arr)]}.
Definition split_writes (op : TransformOperation) (parts : cvalue) (v : cvalue) : config :=
  let target := if bool_decide (toTargetField op = "") then toField op else toTargetField op in
  if bool_decide (target ≠ toField op) then <[toField op := v]> {[target := parts]} else {[target := parts]}.

Lemma reduce_copy op data ord arr :
  toField op ≠ "" → data !! toField op = Some (Dyn (VArr arr)) →
  transformReduce op data ord = range_copy (λ r k v, special (toField op) (reduce_writes op arr) k v ∪ r) data ord.
Proof.
  intros Hf Hd. unfold transformReduce. rewrite bool_decide_false, Hd by done. apply range_copy_ext. intros r k v.
  unfold special, reduce_writes. repeat case_bool_decide; subst; by rewrite <- ?insert_union_l, <- insert_union_singleton_l.
Qed.

Lemma split_copy op data ord str :
  toField op ≠ "" → data !! toField op = Some (Dyn (VStr str)) →
  transformSplit op data ord = range_copy (λ r k v, special (toField op)
    (split_writes op (Strs (split str (default "," (get_string (toParameters op) "separator"))))) k v ∪ r) data ord.
Proof.
  intros Hf Hd. unfold transformSplit. rewrite bool_decide_false, Hd by done. apply range_copy_ext. intros r k v.
  unfold special, split_writes. destruct (bool_decide_reflect (k = toField op)) as [->|]; [|by rewrite <- insert_union_singleton_l].
  repeat case_bool_decide; by rewrite <- ?insert_union_l, <- insert_union_singleton_l.
Qed.

Lemma rename_copy op data ord :
  toField op ≠ "" → toTargetField op ≠ "" →
  transformRename op data ord = range_copy (λ r k v, special (toField op) (λ v, {[toTargetField op := v]}) k v ∪ r) data ord.
Proof.
  intros H1 H2. unfold transformRename. rewrite !bool_decide_false by done. apply range_copy_ext. intros r k v.
  unfold special. case_bool_decide; by rewrite <- insert_union_singleton_l.
Qed.

(** ** Properties *)

Lemma reduce_writes_other op arr v x :
  x ≠ toField op → x ≠ toTargetField op → reduce_writes op arr v !! x = None.
Proof. intros. unfold reduce_writes. case_bool_decide; rewrite ?lookup_insert_ne, lookup_singleton_ne by done; done. Qed.

Lemma split_writes_other op parts v x :
  x ≠ toField op → x ≠ toTargetField op → split_writes op parts v !! x = None.
Proof.
  intros. unfold split_writes. case_bool_decide; case_bool_decide; rewrite ?lookup_insert_ne, lookup_singleton_ne by done; done.
Qed.

Lemma transformReduce_frame op data ord x :
  range_order data ord → x ≠ toField op → x ≠ toTargetField op → transformReduce op data ord !! x = data !! x.
Proof.
  intros Ho H1 H2. destruct (decide (toField op = "")) as [E|E]; [unfold transformReduce; by rewrite bool_decide_true|].
  destruct (data !! toField op) as [[[| | | | | |arr|]|]|] eqn:D;
    try (unfold transformReduce; by rewrite bool_decide_false, D by done).
  rewrite (reduce_copy _ _ _ arr) by done. apply special_frame; [done..|]. intros. by apply reduce_writes_other.
Qed.

Lemma transformSplit_frame op data ord x :
  range_order data ord → x ≠ toField op → x ≠ toTargetField op → transformSplit op data ord !! x = data !! x.
Proof.
  intros Ho H1 H2. destruct (decide (toField op = "")) as [E|E]; [unfold transformSplit; by rewrite bool_decide_true|].
  destruct (data !! toField op) as [[[| | | |str| | |]|]|] eqn:D;
    try (unfold transformSplit; by rewrite bool_decide_false, D by done).
  rewrite (split_copy _ _ _ str) by done. apply special_frame; [done..|]. intros. by apply split_writes_other.
Qed.

Lemma transformRename_frame op data ord x :
  range_order data ord → x ≠ toField op → x ≠ toTargetField op → transformRename op data ord !! x = data !! x.
Proof.
  intros Ho H1 H2. destruct (decide (toField op = "")) as [E|E]; [unfold transformRename; by rewrite bool_decide_true|].
  destruct (decide (toTargetField op = "")) as [E'|E'].
  { unfold transformRename. by rewrite (bool_decide_true (toTargetField op = "")), orb_true_r. }
  rewrite rename_copy by done. apply special_frame; [done..|]. intros. by apply lookup_singleton_ne.
Qed.

Lemma apply_frame op data ord res x :
  applyTransformation op data ord = Ok res → range_order data ord →
  x ∉ [toField op; toTargetField op; extract_target op] → res !! x = data !! x.
Proof.
  intros Happ Ho Hx. assert (x ≠ toField op ∧ x ≠ toTargetField op ∧ x ≠ extract_target op) as (H1 & H2 & H3) by set_solver.
  unfold applyTransformation in Happ. repeat case_bool_decide.
  - simplify_eq. unfold transformMap. repeat case_match; rewrite ?lookup_insert_ne by done; done.
  - simplify_eq. unfold transformFilter. repeat case_match; rewrite ?lookup_insert_ne, ?lookup_delete_ne by done; done.
  - simplify_eq. by apply transformReduce_frame.
  - destruct (one_of _ _); simplify_eq; [done|by apply transformSplit_frame].
  - destruct (one_of _ _); by simplify_eq.
  - destruct (one_of _ _); [by simplify_eq|]. unfold transformExtract in Happ.
    repeat case_match; simplify_eq; rewrite ?lookup_insert_ne by done; done.
  - destruct (one_of _ _); simplify_eq; [done|by apply transformRename_frame].
  - destruct (one_of _ _); [by simplify_eq|]. unfold transformConvert in Happ.
    repeat case_match; simplify_eq; rewrite ?lookup_insert_ne by done; done.
  - destruct (one_of _ _); by simplify_eq.
Qed.

(** The order of iteration does not matter as long as no other field has the
    name of the target. *)
Definition target_free (op : TransformOperation) (data : config) : Prop :=
  toTargetField op = "" ∨ toTargetField op = toField op ∨ data !! toTargetField op = None.

Lemma reduce_order op data ord1 ord2 :
  range_order data ord1 → range_order data ord2 → target_free op data →
  transformReduce op data ord1 = transformReduce op data ord2.
Proof.
  intros H1 H2 Ht. destruct (decide (toField op = "")) as [E|E]; [unfold transformReduce; by rewrite bool_decide_true|].
  destruct (data !! toField op) as [[[| | | | | |arr|]|]|] eqn:D;
    try (unfold transformReduce; by rewrite bool_decide_false, D by done).
  rewrite !(reduce_copy _ _ _ arr) by done. apply special_order; [done..|]. intros x v k v' _ Hs Hk Hne <-.
  unfold reduce_writes in Hs. case_bool_decide.
  - apply lookup_insert_is_Some in Hs as [?|[_ [? [? _]%lookup_singleton_Some]]]; [done|]. subst k.
    destruct Ht as [?|[?|?]]; congruence.
  - destruct Hs as [? [? _]%lookup_singleton_Some]. congruence.
Qed.

Lemma split_order op data ord1 ord2 :
  range_order data ord1 → range_order data ord2 → target_free op data →
  transformSplit op data ord1 = transformSplit op data ord2.
Proof.
  intros H1 H2 Ht. destruct (decide (toField op = "")) as [E|E]; [unfold transformSplit; by rewrite bool_decide_true|].
  destruct (data !! toField op) as [[[| | | |str| | |]|]|] eqn:D;
    try (unfold transformSplit; by rewrite bool_decide_false, D by done).
  rewrite !(split_copy _ _ _ str) by done. apply special_order; [done..|]. intros x v k v' _ Hs Hk Hne <-.
  unfold split_writes in Hs. repeat case_bool_decide; try done.
  all: try apply lookup_insert_is_Some in Hs as [?|[_ Hs]]; try done; destruct Hs as [? [? _]%lookup_singleton_Some]; subst k;
    destruct Ht as [?|[?|?]]; congruence.
Qed.

Lemma rename_order op data ord1 ord2 :
  range_order data ord1 → range_order data ord2 → target_free op data →
  transformRename op data ord1 = transformRename op data ord2.
Proof.
  intros H1 H2 Ht. destruct (decide (toField op = "")) as [E|E]; [unfold transformRename; by rewrite bool_decide_true|].
  destruct (decide (toTargetField op = "")) as [E'|E'].
  { unfold transformRename. by rewrite (bool_decide_true (toTargetField op = "")), orb_true_r. }
  rewrite !rename_copy by done. apply special_order; [done..|].
  intros x v k v' _ [? [<- _]%lookup_singleton_Some] Hk Hne ->. destruct Ht as [?|[?|?]]; congruence.
Qed.

Lemma apply_order op data ord1 ord2 :
  range_order data ord1 → range_order data ord2 → target_free op data →
  applyTransformation op data ord1 = applyTransformation op data ord2.
Proof.
  intros. unfold applyTransformation. rewrite (reduce_order op data ord1 ord2), (split_order op data ord1 ord2),
    (rename_order op data ord1 ord2) by done. done.
Qed.

Lemma filter_idempotent op data : transformFilter op (transformFilter op data) = transformFilter op data.
Proof.
  unfold transformFilter. case_bool_decide; [done|]. destruct (data !! toField op) as [v|] eqn:D; [|by rewrite D].
  destruct v as [[| | | | | |arr|]|l];
    try (destruct (Transform_evaluateCondition _ _) eqn:C; [by rewrite D, C|by rewrite lookup_delete_eq]).
  rewrite lookup_insert_eq, insert_insert_eq. do 3 f_equal. apply filter_all.
  intros x Hx. by apply list_elem_of_filter in Hx as [? _].
Qed.

(** A transformation changes no field but its field and its target, whatever
    the iteration order; the order does not matter at all unless another field
    already has the target's name; and filtering twice is filtering once. *)
Lemma transform_fields op data ord1 ord2 :
  range_order data ord1 → range_order data ord2 →
  (∀ res x, applyTransformation op data ord1 = Ok res → x ∉ [toField op; toTargetField op; extract_target op] →
     res !! x = data !! x)
  ∧ (target_free op data → applyTransformation op data ord1 = applyTransformation op data ord2)
  ∧ transformFilter op (transformFilter op data) = transformFilter op data.
Proof.
  intros H1 H2. split_and!; [intros; by eapply apply_frame|by apply apply_order|apply filter_idempotent].
Qed.

(** What can go wrong in one operation. *)
Inductive op_error (op : TransformOperation) (data : config) : Prop :=
  | oe_join : toType op = "join" → op_error op data
  | oe_regex str : toType op = "extract" → data !! toField op = Some (Dyn (VStr str)) →
      submatch (toExpression op) str = None → op_error op data
  | oe_number v : toType op = "convert" → data !! toField op = Some v → toNumber v = None →
      one_of (target_type op) ["number"; "float"] = true → op_error op data.

Lemma apply_error op data ord e :
  one_of (toType op) validTypes = true → applyTransformation op data ord = Err e → op_error op data.
Proof.
  intros Hv. unfold applyTransformation. repeat case_bool_decide; try done.
  all: destruct (one_of (toType op) ["sort"; "group"]) eqn:S; try done.
  - unfold transformExtract. destruct (_ || _); [done|]. destruct (data !! toField op) as [[[]|]|] eqn:D; try done.
    destruct (submatch _ _) as [[|? []]|] eqn:M; try done. intros _. by eapply oe_regex.
  - unfold transformConvert. case_bool_decide; [done|]. destruct (data !! toField op) as [v|] eqn:D; [|done].
    unfold convert_value. destruct (one_of _ ["string"]); [done|]. destruct (one_of _ ["number"; "float"]) eqn:N.
    + destruct (toNumber v) eqn:M; [done|]. intros _. by eapply oe_number.
    + repeat case_match; done.
  - intros _. apply oe_join. apply one_of_spec in Hv. rewrite <- not_true_iff_false, one_of_spec in S.
    unfold validTypes in Hv. set_solver.
Qed.

(** Where the execution of a list of operations fails. *)
Lemma apply_all_error ops data ords e :
  apply_all ops data ords = Err e →
  ∃ pre op post data', ops = pre ++ op :: post ∧ apply_all pre data ords = Ok data'
    ∧ ∃ e', applyTransformation op data' (ords data') = Err e'.
Proof.
  revert data. induction ops as [|op ops IH]; intros data; simpl; [done|].
  destruct (applyTransformation op data (ords data)) as [d|e'] eqn:E.
  - intros (pre & op' & post & data' & -> & Hp & He)%IH. exists (op :: pre), op', post, data'. simpl. by rewrite E.
  - intros _. exists [], op, ops, data. eauto.
Qed.

Lemma validate_ops_spec ops : validate_ops ops = None ↔ ∀ op, op ∈ ops → one_of (toType op) validTypes = true.
Proof.
  induction ops as [|op ops IH]; cbn [validate_ops]; [split; [by intros _ op ?%elem_of_nil|done]|].
  setoid_rewrite elem_of_cons. case_bool_decide as E.
  { split; [done|]. intros H. specialize (H op (or_introl eq_refl)). by rewrite E in H. }
  destruct (one_of (toType op) validTypes) eqn:V; cbn [negb]; [rewrite IH; naive_solver|].
  split; [done|]. intros H. specialize (H op (or_introl eq_refl)). congruence.
Qed.

(** A validated transform node fails only where an operation cannot do its
    work: join, which validation accepts and execution does not know, a regular
    expression that does not compile, or a number that is none; up to there the
    operations succeed. *)
Lemma transform_errors parse params input ords e :
  Transform_ValidateInput parse params = None → Transform_Execute parse params input ords = Err e →
  ∃ c pre op post data, parseConfig parse params = Ok c ∧ tcOperations c = pre ++ op :: post
    ∧ apply_all pre input ords = Ok data ∧ op_error op data.
Proof.
  unfold Transform_ValidateInput, Transform_Execute. destruct (parseConfig parse params) as [c|]; [|done].
  case_bool_decide; [done|]. intros Hv. destruct (apply_all (tcOperations c) input ords) as [d|e'] eqn:E; [done|].
  intros _. destruct (apply_all_error _ _ _ _ E) as (pre & op & post & data & Hops & Hpre & e1 & He).
  exists c, pre, op, post, data. split_and!; [done..|]. eapply apply_error; [|done].
  apply (proj1 (validate_ops_spec _) Hv). rewrite Hops. set_solver.
Qed.

End Transform.

(** ** Concrete runs *)

Definition demo_op (ty field target expr : string) : TransformOperation :=
  {| toType := ty; toField := field; toTargetField := target; toExpression := expr; toParameters := ∅ |}.
Abbreviation demo_apply := (applyTransformation (λ _, "") (λ _, "") (λ _, None) (λ _ _, None) (λ _, None)).

(** Renaming onto another field gives either value, with the order of the map. *)
Lemma rename_nondeterministic :
  let data := <["a" := Dyn (VInt 1)]> {["b" := Dyn (VInt 2)]} in
  (demo_apply (demo_op "rename" "a" "b" "") data ["a"; "b"] = Ok {["b" := Dyn (VInt 2)]})
  ∧ demo_apply (demo_op "rename" "a" "b" "") data ["b"; "a"] = Ok {["b" := Dyn (VInt 1)]}.
Proof. split; reflexivity. Qed.

(** The pieces of a split are not an array to the later operations. *)
Lemma split_then_count :
  apply_all (λ _, "") (λ _, "") (λ _, None) (λ _ _, None) (λ _, None)
    [demo_op "split" "a" "" ""; demo_op "reduce" "a" "" "count"] {["a" := Dyn (VStr "x,y")]} keys
  = Ok {["a" := Strs ["x"; "y"]]}.
Proof. reflexivity. Qed.

(** A condition with >= keeps everything. *)
Lemma ge_condition_ignored v :
  Transform_evaluateCondition (λ s, if bool_decide (s = "5") then Some (f64_of_Z 5) else None) "x >= 5" v = true.
Proof.
  unfold Transform_evaluateCondition. change (contains "x >= 5" ">") with true. change (split "x >= 5" ">") with ["x "; "= 5"].
  simpl. by destruct (toNumber _ v).
Qed.

Lemma transform_fields_witness :
  demo_apply (demo_op "rename" "a" "c" "") (<["a" := Dyn (VInt 1)]> {["b" := Dyn (VInt 2)]}) ["a"; "b"]
  = demo_apply (demo_op "rename" "a" "c" "") (<["a" := Dyn (VInt 1)]> {["b" := Dyn (VInt 2)]}) ["b"; "a"].
Proof.
  assert (∀ ord, NoDup ord → (∀ k, k ∈ ord ↔ k ∈ ["a"; "b"]) →
    range_order (<["a" := Dyn (VInt 1)]> {["b" := Dyn (VInt 2)]} : config) ord) as H.
  { intros ord Hn Ho. split; [done|]. intros k. rewrite Ho, lookup_insert_is_Some', lookup_singleton_is_Some. set_solver. }
  apply (transform_fields (λ _, "") (λ _, "") (λ _, None) (λ _ _, None) (λ _, None)); [apply H|apply H|].
  - by apply (bool_decide_unpack _).
  - set_solver.
  - by apply (bool_decide_unpack _).
  - set_solver.
  - right. right. reflexivity.
Defined.

Lemma transform_errors_witness :
  ∃ c pre op post data, parseConfig (λ _, Ok {| tcOperations := [demo_op "join" "a" "" ""]; tcOutputFormat := "" |}) ∅ = Ok c
    ∧ tcOperations c = pre ++ op :: post
    ∧ apply_all (λ _, "") (λ _, "") (λ _, None) (λ _ _, None) (λ _, None) pre ∅ keys = Ok data
    ∧ op_error (λ _, None) (λ _ _, None) op data.
Proof.
  apply (transform_errors (λ _, "") (λ _, "") (λ _, None) (λ _ _, None) (λ _, None)
    (λ _, Ok {| tcOperations := [demo_op "join" "a" "" ""]; tcOutputFormat := "" |}) ∅ ∅ keys
    "transformation failed at operation join: unsupported transformation type: join"); reflexivity.
Defined.
