(* ===== verification/Transfer.v ===== *)
(** internal/workflow/app/transfer/exporter.go and importer.go: the export of a
    workflow and its import, in the formats json and yaml, n8n and zapier.  The
    encoders are arguments; a document of n8n or Zapier is the map that is
    encoded.  The parameters of a node are shared between the workflow and its
    export, so an export returns the workflow as it leaves it. *)

From S2P Require Import Prelude GoValue GoLib GoText Graph Workflow Triggers Conditions.

(** ** Data *)

Definition FormatJSON : string := "json".
Definition FormatYAML : string := "yaml".
Definition FormatN8N : string := "n8n".
Definition FormatZapier : string := "zapier".
Definition ExportVersion : string := "1.0.0".

Definition ErrInvalidFormat : string := "invalid export format".
Definition ErrInvalidImportFormat : string := "invalid import format".
Definition ErrVersionMismatch : string := "incompatible export version".
Definition ErrImportValidation : string := "import validation failed".

Record WorkflowData := {
  wdID : string;
  wdName : string;
  wdDescription : string;
  wdVersion : Z;
  wdTags : list string;
  wdSettings : option vmap
}.
Record NodeExport := {
  neID : string;
  neName : string;
  neType : string;
  nePosition : gmap string spec_float;
  neParameters : option vmap;
  neDisabled : bool;
  neRetryCount : Z;
  neTimeout : Z
}.
Record ConnectionExport := {
  ceID : string;
  ceSource : string;
  ceTarget : string;
  ceSourcePort : string;
  ceTargetPort : string;
  ceData : option vmap
}.
Record CredentialReference := { crID : string; crType : string; crName : string; crRequired : bool }.
Record WorkflowExport := {
  weVersion : string;
  weExportedAt : Z;
  weWorkflow : WorkflowData;
  weNodes : list NodeExport;
  weConnections : list ConnectionExport;
  weCredentials : list CredentialReference;
  weMetadata : vmap
}.
Record ExportOptions := { eoIncludeMetadata : bool; eoSanitize : bool; eoExportedBy : string }.
Record ImportOptions := {
  ioUserID : string;
  ioNewName : string;
  ioRemapIDs : bool;
  ioValidateOnImport : bool;
  ioCredentialMapping : option (gmap string string)
}.

(** ** Export *)

(** [structToMap] of the settings: JSON numbers are float64. *)
Definition structToMap (s : Settings) : vmap :=
  let num z := VFloat (f64_of_Z z) in
  list_to_map [
    ("errorHandling", VObj [("continueOnFail", VBool (ehContinueOnFail (sErrorHandling s)));
                            ("retryInterval", num (ehRetryInterval (sErrorHandling s)));
                            ("maxRetries", num (ehMaxRetries (sErrorHandling s)));
                            ("errorWorkflow", VStr (ehErrorWorkflow (sErrorHandling s)))]);
    ("timeout", num (sTimeout s)); ("retryOnFailure", VBool (sRetryOnFailure s)); ("maxRetries", num (sMaxRetries s));
    ("saveDataOnError", VBool (sSaveDataOnError s)); ("timezone", VStr (sTimezone s))].

Definition export_node (n : Node) : NodeExport :=
  {| neID := nID n; neName := nName n; neType := nType n;
     nePosition := <["x" := posX (nPosition n)]> {["y" := posY (nPosition n)]};
     neParameters := nParameters n; neDisabled := nDisabled n; neRetryCount := nRetryCount n;
     neTimeout := nTimeout n |}.
Definition export_connection (c : Connection) : ConnectionExport :=
  {| ceID := cID c; ceSource := cSource c; ceTarget := cTarget c; ceSourcePort := cSourcePort c;
     ceTargetPort := cTargetPort c; ceData := cData c |}.

Definition extractCredentials (n : Node) : list CredentialReference :=
  match get_string (default ∅ (nParameters n)) "credentialId" with
  | Some credID => [{| crID := credID; crType := nType n; crName := nName n +:+ " Credential"; crRequired := true |}]
  | None => []
  end.

Definition sensitiveKeys : list string :=
  ["password"; "apiKey"; "secret"; "token"; "credential"; "auth"; "privateKey"].
Definition sanitize (p : option vmap) : option vmap :=
  match p with Some m => Some (foldl (λ m k, delete k m) m sensitiveKeys) | None => None end.
Definition sanitizeNodeParameters (n : NodeExport) : NodeExport :=
  {| neID := neID n; neName := neName n; neType := neType n; nePosition := nePosition n;
     neParameters := sanitize (neParameters n); neDisabled := neDisabled n; neRetryCount := neRetryCount n;
     neTimeout := neTimeout n |}.
Definition sanitizeExport (e : WorkflowExport) : WorkflowExport :=
  {| weVersion := weVersion e; weExportedAt := weExportedAt e; weWorkflow := weWorkflow e;
     weNodes := sanitizeNodeParameters <$> weNodes e; weConnections := weConnections e;
     weCredentials := (λ c, {| crID := ""; crType := crType c; crName := crName c; crRequired := crRequired c |})
                        <$> weCredentials e;
     weMetadata := delete "secrets" (delete "apiKeys" (weMetadata e)) |}.

(** The nodes of the workflow share their parameters with the export. *)
Definition sanitize_node (n : Node) : Node :=
  {| nID := nID n; nName := nName n; nType := nType n; nPosition := nPosition n;
     nParameters := sanitize (nParameters n); nDisabled := nDisabled n; nRetryCount := nRetryCount n;
     nTimeout := nTimeout n |}.

Definition createExportStructure (wf : Workflow) (o : ExportOptions) (now : Z) : WorkflowExport * Workflow :=
  let e :=
    {| weVersion := ExportVersion; weExportedAt := now;
       weWorkflow := {| wdID := wID wf; wdName := wName wf; wdDescription := wDescription wf;
                        wdVersion := wVersion wf; wdTags := wTags wf; wdSettings := Some (structToMap (wSettings wf)) |};
       weNodes := export_node <$> wNodes wf; weConnections := export_connection <$> wConnections wf;
       weCredentials := wNodes wf ≫= extractCredentials;
       weMetadata := if eoIncludeMetadata o then
                       <["exportedBy" := VStr (eoExportedBy o)]> (<["originalID" := VStr (wID wf)]>
                        (<["createdAt" := VTime (wCreatedAt wf)]> {["updatedAt" := VTime (wUpdatedAt wf)]}))
                     else ∅ |} in
  if eoSanitize o then (sanitizeExport e, with_graph wf (sanitize_node <$> wNodes wf) (wConnections wf)) else (e, wf).

(** *** n8n and Zapier *)

Definition n8n_types : list (string * string) :=
  [(NodeTypeWebhook, "n8n-nodes-base.webhook"); (NodeTypeHTTPRequest, "n8n-nodes-base.httpRequest");
   (NodeTypeDatabase, "n8n-nodes-base.postgres"); (NodeTypeEmail, "n8n-nodes-base.emailSend");
   (NodeTypeSlack, "n8n-nodes-base.slack"); (NodeTypeCode, "n8n-nodes-base.code");
   (NodeTypeMerge, "n8n-nodes-base.merge"); (NodeTypeSplit, "n8n-nodes-base.splitInBatches");
   (NodeTypeCondition, "n8n-nodes-base.if")].
Definition zapier_apps : list (string * string) :=
  [(NodeTypeWebhook, "webhook"); (NodeTypeHTTPRequest, "webhooks"); (NodeTypeDatabase, "postgresql");
   (NodeTypeEmail, "email"); (NodeTypeSlack, "slack"); (NodeTypeCode, "code")].
Definition swap_pairs (l : list (string * string)) : list (string * string) := (λ p, (p.2, p.1)) <$> l.

Definition mapToN8NNodeType (nodeType : string) : string :=
  default nodeType ((list_to_map n8n_types : gmap string string) !! nodeType).
Definition mapToZapierApp (nodeType : string) : string :=
  default "custom" ((list_to_map zapier_apps : gmap string string) !! nodeType).
Definition mapFromN8NNodeType (n8nType : string) : string :=
  default NodeTypeAction ((list_to_map (swap_pairs n8n_types) : gmap string string) !! n8nType).
Definition mapFromZapierApp (app : string) : string :=
  default NodeTypeAction ((list_to_map (swap_pairs zapier_apps) : gmap string string) !! app).

(** A map as a value: nil is null. *)
Definition map_value (m : option vmap) : value := match m with Some m => VObj (map_to_list m) | None => VNil end.

Definition n8n_node (n : Node) : value :=
  VObj [("id", VStr (nID n)); ("name", VStr (nName n)); ("type", VStr (mapToN8NNodeType (nType n)));
        ("position", VArr [VFloat (posX (nPosition n)); VFloat (posY (nPosition n))]);
        ("parameters", map_value (nParameters n))].
Definition n8n_port (c : Connection) : string := if bool_decide (cSourcePort c = "") then "main" else cSourcePort c.
Definition n8n_connections (conns : list Connection) : gmap string (gmap string (list value)) :=
  foldl (λ m c, <[cSource c := append_at (default ∅ (m !! cSource c)) (n8n_port c)
                                 (VArr [VObj [("node", VStr (cTarget c)); ("type", VStr "main"); ("index", VInt 0)]])]> m)
    ∅ conns.
Definition n8n_value (conns : gmap string (gmap string (list value))) : vmap :=
  (λ ports : gmap string (list value), VObj (map_to_list (VArr <$> ports))) <$> conns.
Definition exportN8N (wf : Workflow) : vmap :=
  list_to_map [("name", VStr (wName wf)); ("nodes", VArr (map n8n_node (wNodes wf)));
    ("connections", VObj (map_to_list (n8n_value (n8n_connections (wConnections wf)))));
    ("active", VBool (wIsActive wf)); ("settings", VObj (map_to_list (structToMap (wSettings wf)))); ("id", VStr (wID wf))].

Definition zapier_step (p : nat * Node) : value :=
  let '(i, n) := p in
  VObj [("id", VStr (nID n)); ("position", VInt (Z.of_nat i + 1)); ("app", VStr (mapToZapierApp (nType n)));
        ("action", VStr (nName n)); ("config", map_value (nParameters n))].
Definition exportZapier (wf : Workflow) : vmap :=
  list_to_map [("name", VStr (wName wf)); ("description", VStr (wDescription wf));
               ("steps", VArr (zapier_step <$> zip (seq 0 (length (wNodes wf))) (wNodes wf)))].

(** ** Import *)

Definition isVersionCompatible (version : string) : bool :=
  bool_decide (version = ExportVersion) || bool_decide (version = "1.0.0").

Definition get_num (m : vmap) (k : string) : option Z :=
  match m !! k with Some (VFloat f) => Some (f64_trunc f) | _ => None end.
Definition mapToSettings (m : vmap) : Settings :=
  let eh := match m !! "errorHandling" with Some (VObj l) => list_to_map l | _ => ∅ end in
  {| sErrorHandling := {| ehContinueOnFail := default false (get_bool eh "continueOnFail");
                          ehRetryInterval := default 0%Z (get_num eh "retryInterval");
                          ehMaxRetries := default 0%Z (get_num eh "maxRetries"); ehErrorWorkflow := "" |};
     sTimeout := default 0%Z (get_num m "timeout"); sRetryOnFailure := default false (get_bool m "retryOnFailure");
     sMaxRetries := default 0%Z (get_num m "maxRetries"); sSaveDataOnError := false;
     sTimezone := default "" (get_string m "timezone") |}.
Definition zero_settings : Settings := mapToSettings ∅.

Definition mapCredentials (n : Node) (mapping : gmap string string) : Node :=
  match get_string (default ∅ (nParameters n)) "credentialId" with
  | Some credID =>
      let p := default ∅ (nParameters n) in
      let p := match mapping !! credID with
               | Some newID => <["credentialId" := VStr newID]> p
               | None => delete "credentialId" p
               end in
      {| nID := nID n; nName := nName n; nType := nType n; nPosition := nPosition n; nParameters := Some p;
         nDisabled := nDisabled n; nRetryCount := nRetryCount n; nTimeout := nTimeout n |}
  | None => n
  end.

(** The new IDs of the nodes, in order; an ID that is absent reads as "". *)
Definition nodeIDMap (nodes : list NodeExport) (remap : bool) (uuids : list string) : gmap string string :=
  foldl (λ m p, <[p.1 := p.2]> m) ∅ (zip (neID <$> nodes) (if remap then uuids else neID <$> nodes)).

Definition import_node (ids : gmap string string) (mapping : option (gmap string string)) (e : NodeExport) : Node :=
  let n := {| nID := default "" (ids !! neID e); nName := neName e; nType := neType e;
              nPosition := {| posX := default (S754_zero false) (nePosition e !! "x");
                              posY := default (S754_zero false) (nePosition e !! "y") |};
              nParameters := neParameters e; nDisabled := neDisabled e; nRetryCount := neRetryCount e;
              nTimeout := neTimeout e |} in
  match mapping with Some m => mapCredentials n m | None => n end.
Definition import_connection (ids : gmap string string) (e : ConnectionExport) (id : string) : Connection :=
  {| cID := id; cSource := default "" (ids !! ceSource e);
     cTarget := default "" (ids !! ceTarget e); cSourcePort := ceSourcePort e; cTargetPort := ceTargetPort e;
     cData := ceData e |}.

(** [uuid], [uuids] and [uuids'] are the fresh IDs of the workflow, the nodes
    and the connections. *)
Definition createWorkflowFromExport (e : WorkflowExport) (o : ImportOptions) (uuid : string) (uuids uuids' : list string)
    (now : Z) : option (result Workflow) :=
  let ids := nodeIDMap (weNodes e) (ioRemapIDs o) uuids in
  let wf :=
    {| wID := uuid; wName := if bool_decide (ioNewName o = "") then wdName (weWorkflow e) else ioNewName o;
       wDescription := wdDescription (weWorkflow e); wUserID := ioUserID o; wTeamID := "";
       wNodes := import_node ids (ioCredentialMapping o) <$> weNodes e;
       wConnections := zip_with (import_connection ids) (weConnections e)
                         (if ioRemapIDs o then uuids' else ceID <$> weConnections e);
       wSettings := match wdSettings (weWorkflow e) with Some m => mapToSettings m | None => zero_settings end;
       wStatus := StatusInactive; wIsActive := false; wVersion := 1; wTags := wdTags (weWorkflow e);
       wCreatedAt := now; wUpdatedAt := now; wDeletedAt := None |} in
  if ioValidateOnImport o then
    match Workflow_Validate wf with
    | None => None
    | Some (Err err) => Some (Err (ErrImportValidation +:+ ": " +:+ err))
    | Some (Ok _) => Some (Ok wf)
    end
  else Some (Ok wf).

(** *** n8n and Zapier: assertions without comma-ok panic *)

Definition assert_panic : string := "interface conversion: interface {} is not of the asserted type".
Definition as_string (v : value) : outcome string := match v with VStr s => Ret s | _ => Panic assert_panic end.
Definition as_float (v : value) : outcome spec_float := match v with VFloat f => Ret f | _ => Panic assert_panic end.
Definition as_obj (v : value) : outcome (list (string * value)) :=
  match v with VObj l => Ret l | _ => Panic assert_panic end.
Definition as_arr (v : value) : outcome (list value) := match v with VArr l => Ret l | _ => Panic assert_panic end.
Definition bind {A B} (x : outcome A) (f : A → outcome B) : outcome B :=
  match x with Ret a => f a | Panic m => Panic m | NoFuel => NoFuel end.
Fixpoint map_out {A B} (f : A → outcome B) (l : list A) : outcome (list B) :=
  match l with
  | [] => Ret []
  | x :: l' => bind (f x) (λ y, bind (map_out f l') (λ ys, Ret (y :: ys)))
  end.

Definition empty_workflow (uuid name description userID : string) (now : Z) : Workflow :=
  {| wID := uuid; wName := name; wDescription := description; wUserID := userID; wTeamID := ""; wNodes := [];
     wConnections := []; wSettings := zero_settings; wStatus := StatusInactive; wIsActive := false; wVersion := 1;
     wTags := []; wCreatedAt := now; wUpdatedAt := now; wDeletedAt := None |}.
Definition new_name (o : ImportOptions) (name : string) : string :=
  if bool_decide (ioNewName o = "") then name else ioNewName o.

Definition import_n8n_node (v : value) : outcome Node :=
  bind (as_obj v) (λ node,
  bind (as_arr (obj_get node "position")) (λ position,
  bind (as_string (obj_get node "id")) (λ id,
  bind (as_string (obj_get node "name")) (λ name,
  bind (as_string (obj_get node "type")) (λ ty,
  match position with
  | x :: y :: _ =>
      bind (as_float x) (λ x, bind (as_float y) (λ y,
      Ret {| nID := id; nName := name; nType := mapFromN8NNodeType ty; nPosition := {| posX := x; posY := y |};
             nParameters := match obj_get node "parameters" with VObj m => Some (list_to_map m) | _ => None end;
             nDisabled := false; nRetryCount := 0; nTimeout := 0 |}))
  | _ => Panic index_panic
  end))))).

(** The connections of one port, of one source, of all: (source, port, target). *)
Definition n8n_group (source port : string) (v : value) : outcome (list (string * string * string)) :=
  bind (as_arr v) (map_out (λ conn,
    bind (as_obj conn) (λ c, bind (as_string (obj_get c "node")) (λ target, Ret (source, port, target))))).
Definition n8n_ports (ordP : string → list string) (source : string) (v : value) :
    outcome (list (string * string * string)) :=
  bind (as_obj v) (λ ports,
  bind (map_out (λ port, bind (as_arr (obj_get ports port)) (λ groups,
                         bind (map_out (n8n_group source port) groups) (λ l, Ret (concat l)))) (ordP source))
       (λ l, Ret (concat l))).
Definition number_connections (l : list (string * string * string)) : list Connection :=
  (λ p, let '(i, (source, port, target)) := p in
     {| cID := "conn_" +:+ string_of_N (N.of_nat i); cSource := source; cTarget := target; cSourcePort := port;
        cTargetPort := ""; cData := None |}) <$> zip (seq 1 (length l)) l.

(** [ordS] and [ordP] are the orders of the sources and of the ports of each. *)
Definition importN8N (doc : vmap) (o : ImportOptions) (uuid : string) (now : Z) (ordS : list string)
    (ordP : string → list string) : outcome Workflow :=
  bind (as_string (default VNil (doc !! "name"))) (λ name,
  let wf := empty_workflow uuid (new_name o name) "" (ioUserID o) now in
  bind (match doc !! "nodes" with Some (VArr nodes) => map_out import_n8n_node nodes | _ => Ret [] end) (λ nodes,
  bind (match doc !! "connections" with
        | Some (VObj conns) =>
            bind (map_out (λ source, n8n_ports ordP source (obj_get conns source)) ordS) (λ l, Ret (concat l))
        | _ => Ret []
        end) (λ conns, Ret (with_graph wf nodes (number_connections conns))))).

Definition import_zapier_step (p : nat * value) : outcome Node :=
  let '(idx, v) := p in
  bind (as_obj v) (λ step,
  bind (as_string (obj_get step "id")) (λ id,
  bind (as_string (obj_get step "action")) (λ action,
  bind (as_string (obj_get step "app")) (λ app,
  Ret {| nID := if bool_decide (id = "") then "step_" +:+ string_of_N (N.of_nat (S idx)) else id;
         nName := action; nType := mapFromZapierApp app;
         nPosition := {| posX := f64_of_Z (100 + Z.of_nat idx * 200); posY := f64_of_Z 100 |};
         nParameters := match obj_get step "config" with VObj m => Some (list_to_map m) | _ => None end;
         nDisabled := false; nRetryCount := 0; nTimeout := 0 |})))).

(** The steps are connected in a line; [idx] is the index of the second node. *)
Fixpoint linear (idx : nat) (ids : list string) : list Connection :=
  match ids with
  | source :: ((target :: _) as rest) =>
      {| cID := "conn_" +:+ string_of_N (N.of_nat idx); cSource := source; cTarget := target; cSourcePort := "";
         cTargetPort := ""; cData := None |} :: linear (S idx) rest
  | _ => []
  end.

Definition importZapier (doc : vmap) (o : ImportOptions) (uuid : string) (now : Z) : outcome Workflow :=
  bind (as_string (default VNil (doc !! "name"))) (λ name,
  bind (as_string (default VNil (doc !! "description"))) (λ description,
  let wf := empty_workflow uuid (new_name o name) description (ioUserID o) now in
  bind (match doc !! "steps" with
        | Some (VArr steps) => map_out import_zapier_step (zip (seq 0 (length steps)) steps)
        | _ => Ret []
        end) (λ nodes, Ret (with_graph wf nodes (linear 1 (nID <$> nodes)))))).

(** ** The two entry points *)

Section Formats.
(** The encoders of an export, by format, and of a document. *)
Context (marshal : string → WorkflowExport → option string) (unmarshal : string → string → option WorkflowExport).
Context (marshal_doc : vmap → option string) (unmarshal_doc : string → option vmap).

Definition ExportWorkflow (wf : Workflow) (format : string) (o : ExportOptions) (now : Z) : result string * Workflow :=
  let '(e, wf) := createExportStructure wf o now in
  let res err r := match r with Some d => Ok d | None => Err err end in
  (if bool_decide (format = FormatJSON) then res "failed to marshal JSON: unsupported" (marshal format e)
   else if bool_decide (format = FormatYAML) then res "failed to marshal YAML: unsupported" (marshal format e)
   else if bool_decide (format = FormatN8N) then res "unsupported" (marshal_doc (exportN8N wf))
   else if bool_decide (format = FormatZapier) then res "unsupported" (marshal_doc (exportZapier wf))
   else Err ErrInvalidFormat, wf).

Definition ImportWorkflow (data format : string) (o : ImportOptions) (uuid : string) (uuids uuids' : list string) (now : Z)
    (ordS : list string) (ordP : string → list string) : outcome (result Workflow) :=
  if bool_decide (format = FormatJSON) || bool_decide (format = FormatYAML) then
    match unmarshal format data with
    | None => Ret (Err ("failed to parse " +:+ format))
    | Some e =>
        if negb (isVersionCompatible (weVersion e)) then Ret (Err ErrVersionMismatch)
        else match createWorkflowFromExport e o uuid uuids uuids' now with
             | Some r => Ret r
             | None => NoFuel
             end
    end
  else if bool_decide (format = FormatN8N) then
    match unmarshal_doc data with
    | None => Ret (Err "failed to parse n8n export")
    | Some doc => bind (importN8N doc o uuid now ordS ordP) (λ wf, Ret (Ok wf))
    end
  else if bool_decide (format = FormatZapier) then
    match unmarshal_doc data with
    | None => Ret (Err "failed to parse Zapier export")
    | Some doc => bind (importZapier doc o uuid now) (λ wf, Ret (Ok wf))
    end
  else Ret (Err ErrInvalidImportFormat).

End Formats.

(** ** The map of the node IDs *)

Lemma foldl_insert_elem (ps : list (string * string)) (m : gmap string string) a u :
  foldl (λ m p, <[p.1 := p.2]> m) m ps !! a = Some u → (a, u) ∈ ps ∨ m !! a = Some u.
Proof.
  revert m. induction ps as [|[k v] ps IH]; intros m; simpl; [by right|]. intros [?|H]%IH; [left; by right|].
  apply lookup_insert_Some in H as [[<- <-]|[_ ?]]; [left; left|by right].
Qed.
Lemma foldl_insert_dom (ps : list (string * string)) (m : gmap string string) a :
  is_Some (foldl (λ m p, <[p.1 := p.2]> m) m ps !! a) ↔ a ∈ ps.*1 ∨ is_Some (m !! a).
Proof.
  revert m. induction ps as [|[k v] ps IH]; intros m; simpl; [split; [by right|intros [?%elem_of_nil|?]; done]|].
  rewrite IH, lookup_insert_is_Some', elem_of_cons. naive_solver.
Qed.

Lemma zip_snd_unique {A} (l : list A) (us : list string) a b u :
  NoDup us → (a, u) ∈ zip l us → (b, u) ∈ zip l us → a = b.
Proof.
  intros Hnd (i & Hi)%list_elem_of_lookup (j & Hj)%list_elem_of_lookup.
  apply lookup_zip_Some in Hi as [Ha Hu], Hj as [Hb Hv]. assert (i = j) as -> by by eapply NoDup_lookup. congruence.
Qed.

(** A renaming of the IDs [ids] of nodes to fresh ones. *)
Record renaming (ids : list string) (m : gmap string string) : Prop := {
  rn_dom : ∀ a, is_Some (m !! a) ↔ a ∈ ids;
  rn_inj : ∀ a b u, m !! a = Some u → m !! b = Some u → a = b;
  rn_ne : ∀ a, m !! a ≠ Some ""
}.
Definition renamed (m : gmap string string) (a : string) : string := default "" (m !! a).

Lemma nodeIDMap_renaming nodes uuids :
  length uuids = length nodes → NoDup uuids → "" ∉ uuids → renaming (neID <$> nodes) (nodeIDMap nodes true uuids).
Proof.
  intros Hl Hnd Hne. unfold nodeIDMap. constructor.
  - intros a. rewrite foldl_insert_dom, lookup_empty, fst_zip by (rewrite length_fmap; lia).
    split; [intros [?|[? ?]]; done|by left].
  - intros a b u [Ha|?]%foldl_insert_elem [Hb|?]%foldl_insert_elem; [|done..]. by eapply zip_snd_unique.
  - intros a [(i & Hi)%list_elem_of_lookup|?]%foldl_insert_elem; [|done].
    apply lookup_zip_Some in Hi as [_ Hi]. by eapply Hne, list_elem_of_lookup_2.
Qed.

Lemma nodeIDMap_same nodes uuids a : a ∈ neID <$> nodes → nodeIDMap nodes false uuids !! a = Some a.
Proof.
  intros Ha. unfold nodeIDMap.
  assert (is_Some (foldl (λ (m : gmap string string) p, <[p.1 := p.2]> m) ∅ (zip (neID <$> nodes) (neID <$> nodes)) !! a)) as [u Hu].
  { apply foldl_insert_dom. left. by rewrite fst_zip by lia. }
  rewrite Hu. apply foldl_insert_elem in Hu as [(i & Hi)%list_elem_of_lookup|?]; [|done].
  apply lookup_zip_Some in Hi as [H1 H2]. congruence.
Qed.

Lemma renamed_inj ids m a b : renaming ids m → b ∈ ids → renamed m a = renamed m b → a = b.
Proof.
  intros [Hd Hi Hn] Hb H. apply Hd in Hb as [u Hu]. unfold renamed in H. rewrite Hu in H. simpl in H.
  destruct (m !! a) as [v|] eqn:Ha; simpl in H; [subst; by eapply Hi|]. subst u. by destruct (Hn b).
Qed.

(** ** Renaming keeps workflows well-formed *)

Section Renaming.
Context (wf wf' : Workflow) (m : gmap string string).
Hypothesis Hm : renaming (node_ids wf) m.
Hypothesis Hids : node_ids wf' = renamed m <$> node_ids wf.
Hypothesis Htypes : nType <$> wNodes wf' = nType <$> wNodes wf.
Hypothesis Hconns : (λ c, (cSource c, cTarget c)) <$> wConnections wf'
                    = (λ c, (renamed m (cSource c), renamed m (cTarget c))) <$> wConnections wf.

Lemma renamed_edge a b :
  conn_edge (wConnections wf') a b ↔ ∃ x y, a = renamed m x ∧ b = renamed m y ∧ conn_edge (wConnections wf) x y.
Proof.
  unfold conn_edge. assert (∀ p, p ∈ ((λ c, (cSource c, cTarget c)) <$> wConnections wf') ↔
    p ∈ ((λ c, (renamed m (cSource c), renamed m (cTarget c))) <$> wConnections wf)) as H by by rewrite Hconns.
  setoid_rewrite list_elem_of_fmap in H. specialize (H (a, b)). split.
  - intros (c & Hc & <- & <-). destruct (proj1 H) as (c' & [= E1 E2] & Hc'); [by eauto|]. rewrite E1, E2. eauto 10.
  - intros (x & y & -> & -> & c & Hc & <- & <-). destruct (proj2 H) as (c' & [= E1 E2] & Hc'); [by eauto|]. eauto.
Qed.

Lemma renamed_mem x : renamed m x ∈ node_ids wf' ↔ x ∈ node_ids wf.
Proof.
  rewrite Hids, list_elem_of_fmap. split; [|by eauto]. intros (y & E & Hy).
  by rewrite (renamed_inj _ _ x y Hm Hy E).
Qed.

Definition endpoints (w : Workflow) : Prop :=
  ∀ x y, conn_edge (wConnections w) x y → x ∈ node_ids w ∧ y ∈ node_ids w.

Lemma renamed_endpoints : endpoints wf' ↔ endpoints wf.
Proof.
  unfold endpoints. split.
  - intros H x y Hxy. rewrite <- !(renamed_mem _). apply H, renamed_edge. eauto.
  - intros H a b (x & y & -> & -> & Hxy)%renamed_edge. rewrite !renamed_mem. by apply H.
Qed.

Lemma renamed_tc x y : tc (conn_edge (wConnections wf)) x y → tc (conn_edge (wConnections wf')) (renamed m x) (renamed m y).
Proof. apply (tc_congruence (renamed m)). intros a b Hab. apply renamed_edge. eauto. Qed.

Lemma renamed_tc_inv a b :
  endpoints wf → tc (conn_edge (wConnections wf')) a b →
  ∃ x y, a = renamed m x ∧ b = renamed m y ∧ tc (conn_edge (wConnections wf)) x y.
Proof.
  intros He. induction 1 as [a b (x & y & -> & -> & H)%renamed_edge|a b c (x & y & -> & -> & H)%renamed_edge _ IH].
  - exists x, y. split_and!; [done..|]. by apply tc_once.
  - destruct IH as (y' & z & E & -> & Hyz). exists x, z. split_and!; [done..|].
    assert (y' = y) as -> by (eapply renamed_inj; [done|apply (He x y H)|by rewrite E]). by eapply tc_l.
Qed.

Lemma renamed_well_formed : well_formed wf' ↔ well_formed wf.
Proof.
  assert (∀ w, (∀ c, c ∈ wConnections w → cSource c ∈ node_ids w ∧ cTarget c ∈ node_ids w) ↔ endpoints w) as Hend.
  { intros w. unfold endpoints, conn_edge. split; [intros H x y (c & Hc & <- & <-); by apply H|].
    intros H c Hc. apply H. eauto. }
  unfold well_formed. rewrite !Hend, renamed_endpoints.
  assert ((∃ n, n ∈ wNodes wf' ∧ nType n = NodeTypeTrigger) ↔ ∃ n, n ∈ wNodes wf ∧ nType n = NodeTypeTrigger) as ->.
  { assert (NodeTypeTrigger ∈ nType <$> wNodes wf' ↔ NodeTypeTrigger ∈ nType <$> wNodes wf) as H by by rewrite Htypes.
    rewrite !list_elem_of_fmap in H. split; intros (n & Hn & En).
    - destruct (proj1 H) as (n' & E' & Hn'); [by eauto|]. by exists n'.
    - destruct (proj2 H) as (n' & E' & Hn'); [by eauto|]. by exists n'. }
  split; intros (Ht & He & Hc); (split_and!; [done..|]).
  - intros x Hx. by apply (Hc (renamed m x)), renamed_tc.
  - intros a (x & y & E1 & E2 & Hxy)%renamed_tc_inv; [|done].
    assert (x ∈ node_ids wf) as Hx by (apply tc_iff_edge_rtc in Hxy as (z & Hz & _); by apply (He x z)).
    assert (y = x) as -> by (apply (renamed_inj (node_ids wf) m); [done..|by rewrite <- E1, <- E2]). by eapply Hc.
Qed.

End Renaming.

(** ** Exports read back *)

(** An int that float64 represents. *)
Definition exact (z : Z) : Prop := f64_trunc (f64_of_Z z) = z.
Definition exact_settings (s : Settings) : Prop :=
  exact (sTimeout s) ∧ exact (sMaxRetries s) ∧ exact (ehRetryInterval (sErrorHandling s))
  ∧ exact (ehMaxRetries (sErrorHandling s)).

(** The settings that are read: not the error workflow nor the saving of data. *)
Definition kept_settings (s : Settings) : Settings :=
  {| sErrorHandling := {| ehContinueOnFail := ehContinueOnFail (sErrorHandling s);
                          ehRetryInterval := ehRetryInterval (sErrorHandling s);
                          ehMaxRetries := ehMaxRetries (sErrorHandling s); ehErrorWorkflow := "" |};
     sTimeout := sTimeout s; sRetryOnFailure := sRetryOnFailure s; sMaxRetries := sMaxRetries s;
     sSaveDataOnError := false; sTimezone := sTimezone s |}.

Lemma settings_round_trip s : exact_settings s → mapToSettings (structToMap s) = kept_settings s.
Proof.
  intros (H1 & H2 & H3 & H4). unfold exact in *. unfold mapToSettings, structToMap, get_num, get_bool, get_string. simpl.
  json_lookup. simpl. json_lookup. simpl. rewrite H1, H2, H3, H4. done.
Qed.

Lemma import_export_node ids n : ids !! nID n = Some (nID n) → import_node ids None (export_node n) = n.
Proof.
  intros H. unfold import_node, export_node. simpl. rewrite H. json_lookup. rewrite lookup_singleton_eq.
  by destruct n as [? ? ? [] ? ? ? ?].
Qed.

Lemma import_export_connection ids c :
  ids !! cSource c = Some (cSource c) → ids !! cTarget c = Some (cTarget c) →
  import_connection ids (export_connection c) (cID c) = c.
Proof. intros H1 H2. unfold import_connection. simpl. rewrite H1, H2. by destruct c. Qed.

Lemma import_connections ids cs :
  (∀ c, c ∈ cs → ids !! cSource c = Some (cSource c) ∧ ids !! cTarget c = Some (cTarget c)) →
  zip_with (import_connection ids) (export_connection <$> cs) (ceID <$> (export_connection <$> cs)) = cs.
Proof.
  induction cs as [|c cs IH]; intros Hc; simpl; [done|]. f_equal; [|apply IH; intros; apply Hc; by right].
  destruct (Hc c) as [H1 H2]; [left|]. by apply import_export_connection.
Qed.

(** Two exports that an import reads alike. *)
Definition read_alike (e e' : WorkflowExport) : Prop :=
  weVersion e' = weVersion e ∧ wdName (weWorkflow e') = wdName (weWorkflow e)
  ∧ wdDescription (weWorkflow e') = wdDescription (weWorkflow e) ∧ wdTags (weWorkflow e') = wdTags (weWorkflow e)
  ∧ wdSettings (weWorkflow e') = wdSettings (weWorkflow e) ∧ weNodes e' = weNodes e ∧ weConnections e' = weConnections e.

Lemma import_alike e e' io uuid uuids uuids' now :
  read_alike e e' →
  createWorkflowFromExport e' io uuid uuids uuids' now = createWorkflowFromExport e io uuid uuids uuids' now.
Proof. intros (_ & E1 & E2 & E3 & E4 & E5 & E6). unfold createWorkflowFromExport. by rewrite E1, E2, E3, E4, E5, E6. Qed.

(** C34. An export in the format json that is not sanitized leaves the workflow
    alone, and its import, without remapping of IDs, validation or a mapping of
    credentials, is a new inactive workflow of the importing user with the new
    name, if one is given, or the old one, and the same description, tags,
    nodes and connections, and the settings except the error workflow and the
    saving of data, which are not read.  Conditions: JSON reads back what it
    wrote in the parts that an import reads, the numbers of the settings are
    represented by float64, and the connections join nodes of the workflow.
    (A sanitized export deletes parameters of the workflow itself:
    [sanitize_side_effects]; an export in yaml loses settings:
    [yaml_loses_settings].) *)
Theorem export_import_round_trip marshal unmarshal marshal_doc unmarshal_doc wf eo io uuid uuids uuids' now now'
    ordS ordP data wf' :
  eoSanitize eo = false → ioRemapIDs io = false → ioValidateOnImport io = false → ioCredentialMapping io = None →
  (let e := (createExportStructure wf eo now).1 in
   ∀ s, marshal FormatJSON e = Some s → ∃ e', unmarshal FormatJSON s = Some e' ∧ read_alike e e') →
  exact_settings (wSettings wf) →
  (∀ c, c ∈ wConnections wf → cSource c ∈ node_ids wf ∧ cTarget c ∈ node_ids wf) →
  ExportWorkflow marshal marshal_doc wf FormatJSON eo now = (Ok data, wf') →
  wf' = wf ∧ ImportWorkflow unmarshal unmarshal_doc data FormatJSON io uuid uuids uuids' now' ordS ordP
  = Ret (Ok {| wID := uuid; wName := if bool_decide (ioNewName io = "") then wName wf else ioNewName io;
               wDescription := wDescription wf; wUserID := ioUserID io; wTeamID := "";
               wNodes := wNodes wf; wConnections := wConnections wf; wSettings := kept_settings (wSettings wf);
               wStatus := StatusInactive; wIsActive := false; wVersion := 1; wTags := wTags wf; wCreatedAt := now';
               wUpdatedAt := now'; wDeletedAt := None |}).
Proof.
  intros Hs Hremap Hval Hmap Hm Hset Hend. unfold ExportWorkflow. unfold createExportStructure in *. rewrite Hs in *.
  cbn zeta in *. cbn [fst] in Hm. set (e := {| weVersion := _ |}) in *. intros Hx.
  assert (wf' = wf ∧ marshal FormatJSON e = Some data) as [-> Hd].
  { injection Hx as Hx <-. simpl in Hx. destruct (marshal _ e); naive_solver. }
  split; [done|]. unfold ImportWorkflow. apply Hm in Hd as (e' & Hu & Ha). rewrite Hu. simpl.
  rewrite (proj1 Ha), (import_alike e e') by done. simpl.
  unfold createWorkflowFromExport. rewrite Hremap, Hval, Hmap. simpl. rewrite settings_round_trip by done. do 3 f_equal.
  - rewrite <- list_fmap_compose. etransitivity; [|apply list_fmap_id]. apply list_fmap_ext. intros i n Hn.
    apply import_export_node, nodeIDMap_same. rewrite <- list_fmap_compose.
    change (neID ∘ export_node) with nID. by eapply list_elem_of_fmap_2, list_elem_of_lookup_2.
  - apply import_connections. intros c Hc. destruct (Hend c Hc) as [H1 H2].
    split; apply nodeIDMap_same; rewrite <- list_fmap_compose; by change (neID ∘ export_node) with nID.
Qed.

(** YAML writes a float64 without fraction, below a million, as an integer and
    reads an int back.  The settings that are numbers are then not recognized:
    they are read as 0. *)
Definition yaml_number (v : value) : value :=
  match v with
  | VFloat f => let z := f64_trunc f in
                if bool_decide (f = f64_of_Z z) && bool_decide (Z.abs z < 1000000)%Z then VInt z else v
  | _ => v
  end.

Lemma yaml_loses_settings s :
  exact (sTimeout s) → exact (sMaxRetries s) → (Z.abs (sTimeout s) < 1000000)%Z → (Z.abs (sMaxRetries s) < 1000000)%Z →
  let s' := mapToSettings (yaml_number <$> structToMap s) in
  sTimeout s' = 0%Z ∧ sMaxRetries s' = 0%Z ∧ sTimezone s' = sTimezone s.
Proof.
  unfold exact. intros H1 H2 H3 H4. unfold mapToSettings, structToMap, get_num, get_bool, get_string. simpl.
  rewrite !lookup_fmap. json_lookup. simpl. rewrite H1, H2.
  rewrite !(bool_decide_true (_ = f64_of_Z _)), !bool_decide_true by done. done.
Qed.

Lemma export_ids wf eo now e wf' :
  createExportStructure wf eo now = (e, wf') →
  neID <$> weNodes e = node_ids wf ∧ neType <$> weNodes e = nType <$> wNodes wf
  ∧ weConnections e = export_connection <$> wConnections wf.
Proof.
  unfold createExportStructure. destruct (eoSanitize eo); intros [= <- _]; simpl; rewrite <- ?list_fmap_compose; done.
Qed.

(** Importing an exported workflow with new IDs, distinct and not empty,
    succeeds with validation exactly when the workflow itself is valid:
    remapping neither hides nor creates cycles, missing nodes or triggers. *)
Lemma import_preserves_validity wf eo now now' e wf' io uuid uuids uuids' :
  createExportStructure wf eo now = (e, wf') → ioRemapIDs io = true → ioValidateOnImport io = true →
  length uuids = length (wNodes wf) → length uuids' = length (wConnections wf) → NoDup uuids → "" ∉ uuids →
  (∃ w, createWorkflowFromExport e io uuid uuids uuids' now' = Some (Ok w)) ↔ Workflow_Validate wf = Some (Ok tt).
Proof.
  intros He Hr Hv Hl Hl' Hnd Hne. destruct (export_ids _ _ _ _ _ He) as (E1 & E2 & E3).
  unfold createWorkflowFromExport. rewrite Hr, Hv. set (w := {| wID := uuid |}).
  assert (well_formed w ↔ well_formed wf) as Hwf.
  { apply (renamed_well_formed _ _ (nodeIDMap (weNodes e) true uuids)).
    - rewrite <- E1. apply nodeIDMap_renaming; [|done..]. rewrite Hl. apply (f_equal length) in E1.
      unfold node_ids in E1. by rewrite !length_fmap in E1.
    - unfold node_ids at 1. rewrite <- E1. simpl. rewrite <- !list_fmap_compose. apply list_fmap_ext.
      intros i n _. simpl. unfold import_node. destruct (ioCredentialMapping io); [|done]. unfold mapCredentials. by case_match.
    - rewrite <- E2. simpl. rewrite <- list_fmap_compose. apply list_fmap_ext. intros i n _. simpl. unfold import_node.
      destruct (ioCredentialMapping io); [|done]. unfold mapCredentials. by case_match.
    - simpl. rewrite E3. generalize (nodeIDMap (weNodes e) true uuids) as ids. intros ids. clear -Hl'. revert uuids' Hl'.
      induction (wConnections wf) as [|c cs IH]; intros [|u us] Hl'; simpl; try done. f_equal. apply IH. simpl in Hl'. lia. }
  destruct (Workflow_Validate_spec w) as (r & -> & H1), (Workflow_Validate_spec wf) as (r' & -> & H2).
  rewrite Hwf, <- H2 in H1. destruct r as [[]|err].
  - rewrite (proj1 H1 eq_refl). split; [done|by eauto].
  - split; [by intros [? ?]|]. intros [= E]. by apply H1 in E.
Qed.

(** ** Exchange with n8n and Zapier *)

Lemma map_out_elem {A B} (f : A → outcome B) l r y : map_out f l = Ret r → y ∈ r → ∃ x, x ∈ l ∧ f x = Ret y.
Proof.
  revert r. induction l as [|x l IH]; intros r; simpl; [intros [= <-]; by intros ?%elem_of_nil|].
  destruct (f x) as [z| |] eqn:E; simpl; try done. destruct (map_out f l) as [zs| |]; simpl; try done.
  intros [= <-] [->|Hy]%elem_of_cons; [exists x; split; [left|done]|].
  destruct (IH zs eq_refl Hy) as (x' & ? & ?). exists x'. split; [by right|done].
Qed.

Lemma mapFromN8N_not_trigger t : mapFromN8NNodeType t ≠ NodeTypeTrigger.
Proof.
  unfold mapFromN8NNodeType. destruct (_ !! t) as [v|] eqn:E; simpl; [|done].
  apply elem_of_list_to_map_2 in E. unfold swap_pairs in E. simpl in E. set_unfold. naive_solver.
Qed.
Lemma mapFromZapier_not_trigger t : mapFromZapierApp t ≠ NodeTypeTrigger.
Proof.
  unfold mapFromZapierApp. destruct (_ !! t) as [v|] eqn:E; simpl; [|done].
  apply elem_of_list_to_map_2 in E. unfold swap_pairs in E. simpl in E. set_unfold. naive_solver.
Qed.

Lemma no_trigger_invalid w :
  (∀ n, n ∈ wNodes w → nType n ≠ NodeTypeTrigger) →
  Workflow_Validate w = Some (Err "workflow must have at least one trigger node").
Proof.
  intros H. unfold Workflow_Validate. destruct (existsb _ _) eqn:E; [|done].
  apply existsb_exists in E as (n & Hn%list_elem_of_In & Ht%bool_decide_eq_true). by destruct (H n).
Qed.

Lemma n8n_node_type v n : import_n8n_node v = Ret n → nType n ≠ NodeTypeTrigger.
Proof.
  unfold import_n8n_node, bind. intros H. repeat case_match; simplify_eq; apply mapFromN8N_not_trigger.
Qed.
Lemma zapier_step_type p n : import_zapier_step p = Ret n → nType n ≠ NodeTypeTrigger.
Proof.
  unfold import_zapier_step, bind. destruct p as [i v]. intros H. repeat case_match; simplify_eq;
    apply mapFromZapier_not_trigger.
Qed.

Definition stripped (n : Node) : Node :=
  {| nID := nID n; nName := nName n; nType := nType n; nPosition := nPosition n; nParameters := nParameters n;
     nDisabled := false; nRetryCount := 0; nTimeout := 0 |}.

Lemma mapN8N_round_trip t : t ∈ n8n_types.*1 → mapFromN8NNodeType (mapToN8NNodeType t) = t.
Proof. unfold n8n_types. simpl. intros Ht. set_unfold in Ht. naive_solver. Qed.

Lemma n8n_node_round_trip n : nType n ∈ n8n_types.*1 → import_n8n_node (n8n_node n) = Ret (stripped n).
Proof.
  intros Hn. unfold import_n8n_node, n8n_node, bind, as_obj, obj_get. simpl. json_lookup. simpl. json_lookup. simpl.
  rewrite mapN8N_round_trip by done. unfold stripped. do 2 f_equal; [by destruct (nPosition n)|].
  destruct (nParameters n); simpl; [|done]. by rewrite list_to_map_to_list.
Qed.

(** Nodes of the types n8n knows survive the exchange with it, except for
    whether they are disabled, their retries and their timeout; but no workflow
    imported from n8n or Zapier has a trigger node, so none of them is valid. *)
Lemma foreign_exchange :
  (∀ nodes, Forall (λ n, nType n ∈ n8n_types.*1) nodes →
     map_out import_n8n_node (map n8n_node nodes) = Ret (stripped <$> nodes))
  ∧ (∀ doc o uuid now ordS ordP wf, importN8N doc o uuid now ordS ordP = Ret wf →
       Workflow_Validate wf = Some (Err "workflow must have at least one trigger node"))
  ∧ (∀ doc o uuid now wf, importZapier doc o uuid now = Ret wf →
       Workflow_Validate wf = Some (Err "workflow must have at least one trigger node")).
Proof.
  split_and!.
  - intros nodes H. induction H as [|n nodes Hn _ IH]; simpl; [done|]. by rewrite n8n_node_round_trip, IH.
  - intros doc o uuid now ordS ordP wf H. unfold importN8N in H. destruct (as_string _) as [name| |]; try done. simpl in H.
    destruct (match doc !! "nodes" with Some _ => _ | None => _ end) as [nodes| |] eqn:E; try done. simpl in H.
    destruct (match doc !! "connections" with Some _ => _ | None => _ end) as [conns| |]; try done. simpl in H. injection H as <-.
    apply no_trigger_invalid. simpl. intros n Hn. repeat case_match; simplify_eq; try by apply elem_of_nil in Hn.
    destruct (map_out_elem _ _ _ _ E Hn) as (v & _ & Hv). by eapply n8n_node_type.
  - intros doc o uuid now wf H. unfold importZapier in H. destruct (as_string _) as [name| |]; try done. simpl in H.
    destruct (as_string _) as [d| |]; try done. simpl in H.
    destruct (match doc !! "steps" with Some _ => _ | None => _ end) as [nodes| |] eqn:E; try done. simpl in H. injection H as <-.
    apply no_trigger_invalid. simpl. intros n Hn. repeat case_match; simplify_eq; try by apply elem_of_nil in Hn.
    destruct (map_out_elem _ _ _ _ E Hn) as (v & _ & Hv). by eapply zapier_step_type.
Qed.

(** ** Sanitizing *)

Lemma sanitize_lookup p k : k ∈ sensitiveKeys → sanitize p ≫= (λ m, m !! k) = None.
Proof.
  intros Hk. destruct p as [m|]; [|done]. unfold sanitize. change (foldl (λ m k, delete k m) m sensitiveKeys !! k = None).
  assert (∀ l (m : vmap), k ∈ l ∨ m !! k = None → foldl (λ m k, delete k m) m l !! k = None) as H; [|by apply H; left].
  induction l as [|x l IH]; intros m' [Hin|Hn]; simpl; [by apply elem_of_nil in Hin|done|..]; apply IH.
  - apply elem_of_cons in Hin as [->|?]; [right; apply lookup_delete_eq|by left].
  - right. rewrite lookup_delete. by case_decide.
Qed.

(** In a sanitized export no node has a parameter under one of the sensitive
    keys, no credential reference carries an ID, and nothing else of the nodes
    changes. *)
Lemma sanitized_export wf eo now e wf' :
  eoSanitize eo = true → createExportStructure wf eo now = (e, wf') →
  (∀ n k, n ∈ weNodes e → k ∈ sensitiveKeys → neParameters n ≫= (λ m, m !! k) = None)
  ∧ Forall (λ c, crID c = "") (weCredentials e)
  ∧ weNodes e = sanitizeNodeParameters ∘ export_node <$> wNodes wf
  ∧ wNodes wf' = sanitize_node <$> wNodes wf.
Proof.
  intros Hs. unfold createExportStructure. rewrite Hs. intros [= <- <-]. simpl. split_and!.
  - intros n k (n' & -> & _)%list_elem_of_fmap Hk. by apply sanitize_lookup.
  - apply Forall_fmap, Forall_true. done.
  - by rewrite <- list_fmap_compose.
  - done.
Qed.

(** The ID of a credential stays in the parameters of the node, and the workflow
    that was exported loses its secrets. *)
Lemma sanitize_side_effects :
  let p : vmap := <["credentialId" := VStr "c1"]> {["password" := VStr "x"]} in
  let n := {| nID := "a"; nName := "a"; nType := "email"; nPosition := nPosition (demo_node "a" "b");
              nParameters := Some p; nDisabled := false; nRetryCount := 0; nTimeout := 0 |} in
  let '(e, wf) := createExportStructure (with_graph demo_workflow [n] [])
                    {| eoIncludeMetadata := false; eoSanitize := true; eoExportedBy := "" |} 0 in
  neParameters <$> weNodes e = [Some {["credentialId" := VStr "c1"]}]
  ∧ nParameters <$> wNodes wf = [Some {["credentialId" := VStr "c1"]}].
Proof. split; reflexivity. Qed.

(** ** Concrete runs *)

Definition plain_export : ExportOptions := {| eoIncludeMetadata := false; eoSanitize := false; eoExportedBy := "" |}.
Definition plain_import : ImportOptions :=
  {| ioUserID := "u2"; ioNewName := ""; ioRemapIDs := false; ioValidateOnImport := false; ioCredentialMapping := None |}.

Lemma export_import_round_trip_witness :
  ∃ w, ImportWorkflow (λ _ _, Some (createExportStructure demo_workflow plain_export 7).1)
         (λ _, None) "doc" FormatJSON plain_import "w2" [] [] 9 [] (λ _, []) = Ret (Ok w)
       ∧ wNodes w = wNodes demo_workflow ∧ wConnections w = wConnections demo_workflow ∧ sTimeout (wSettings w) = 300%Z.
Proof.
  destruct (export_import_round_trip (λ _ _, Some "doc")
    (λ _ _, Some (createExportStructure demo_workflow plain_export 7).1) (λ _, Some "doc") (λ _, None)
    demo_workflow plain_export plain_import "w2" [] [] 7 9 [] (λ _, []) "doc" demo_workflow) as [_ H];
    [done|done|done|done|by intros e s _; eexists|by repeat split| |done|].
  - intros c Hc. apply list_elem_of_singleton in Hc as ->. split; [left|right; left].
  - eexists. split; [exact H|]. split_and!; reflexivity.
Defined.

Lemma import_preserves_validity_witness :
  ∃ w, createWorkflowFromExport (createExportStructure demo_workflow plain_export 7).1
         {| ioUserID := "u2"; ioNewName := ""; ioRemapIDs := true; ioValidateOnImport := true; ioCredentialMapping := None |}
         "w2" ["n1"; "n2"] ["c1"] 9 = Some (Ok w).
Proof.
  apply (import_preserves_validity demo_workflow plain_export 7 9 _ demo_workflow
    {| ioUserID := "u2"; ioNewName := ""; ioRemapIDs := true; ioValidateOnImport := true; ioCredentialMapping := None |}
    "w2" ["n1"; "n2"] ["c1"] eq_refl eq_refl eq_refl eq_refl eq_refl).
  - by apply (bool_decide_unpack _).
  - by apply (bool_decide_unpack _).
  - vm_compute. reflexivity.
Defined.

Lemma sanitized_export_witness :
  let e := (createExportStructure demo_workflow {| eoIncludeMetadata := true; eoSanitize := true; eoExportedBy := "u" |} 7).1 in
  Forall (λ c, crID c = "") (weCredentials e) ∧ length (weNodes e) = 2.
Proof.
  intros e. destruct (sanitized_export demo_workflow {| eoIncludeMetadata := true; eoSanitize := true; eoExportedBy := "u" |} 7
    e (createExportStructure demo_workflow {| eoIncludeMetadata := true; eoSanitize := true; eoExportedBy := "u" |} 7).2
    eq_refl eq_refl) as (_ & H & _). split; [exact H|reflexivity].
Defined.
