(* ===== verification/Debugger.v ===== *)
(** internal/workflow/app/debug/debugger.go: debug sessions, their breakpoints,
    watches and mock data, their copies in Redis, and the listeners of their
    events.  Sessions are shared by pointer with the goroutine a step starts:
    [dgHeap] holds them and a pointer is a handle. *)

From S2P Require Import Prelude GoValue GoLib.

(** ** Data *)

Definition StateIdle : string := "idle".
Definition StateRunning : string := "running".
Definition StatePaused : string := "paused".
Definition StateCompleted : string := "completed".

Definition ErrSessionNotFound : string := "debug session not found".
Definition ErrSessionAlreadyExists : string := "debug session already exists".
Definition ErrInvalidBreakpoint : string := "invalid breakpoint".
Definition ErrNotPaused : string := "session not paused".

Record Breakpoint := {
  bpID : string;
  bpNodeID : string;
  bpCondition : string;
  bpHitCount : Z;
  bpMaxHits : Z;
  bpEnabled : bool;
  bpCreatedAt : Z
}.
Record LogEntry := { leID : string; leTimestamp : Z; leLevel : string; leNodeID : string; leMessage : string; leData : vmap }.
Record StackFrame := { sfNodeID : string; sfNodeName : string; sfStartTime : Z; sfVariables : vmap }.
Record WatchExpression := { weID : string; weExpression : string; weValue : value; weError : string }.
Record DebugSession := {
  dsID : string;
  dsWorkflowID : string;
  dsMode : string;
  dsState : string;
  dsCurrentNode : string;
  dsBreakpoints : list Breakpoint;
  dsStepMode : bool;
  dsVariables : vmap;
  dsNodeOutputs : vmap;
  dsLogs : list LogEntry;
  dsCallStack : list StackFrame;
  dsWatchExpressions : list WatchExpression;
  dsMockData : option vmap;
  dsStartedAt : Z;
  dsUpdatedAt : Z
}.
Record DebugEvent := { deType : string; deSessionID : string; deNodeID : string; deData : vmap; deTimestamp : Z }.
Record DebugOptions := {
  doMode : string;
  doStepMode : bool;
  doInitialBreakpoints : list string;
  doMockData : option vmap
}.
Record LogFilter := { lfLevel : string; lfNodeID : string; lfStartTime : option Z; lfEndTime : option Z }.

(** Listeners by key, with the events in their channel; [dgClosed] are the keys
    of the channels that have been closed. *)
Record Debugger := {
  dgHeap : gmap nat DebugSession;
  dgNext : nat;
  dgSessions : gmap string nat;
  dgRedis : gmap string string;
  dgListeners : gmap string (list DebugEvent);
  dgClosed : gset string
}.

Definition channel_size : nat := 100.

Definition set_state (s : DebugSession) (state : string) (now : Z) : DebugSession :=
  {| dsID := dsID s; dsWorkflowID := dsWorkflowID s; dsMode := dsMode s; dsState := state;
     dsCurrentNode := dsCurrentNode s; dsBreakpoints := dsBreakpoints s; dsStepMode := dsStepMode s;
     dsVariables := dsVariables s; dsNodeOutputs := dsNodeOutputs s; dsLogs := dsLogs s; dsCallStack := dsCallStack s;
     dsWatchExpressions := dsWatchExpressions s; dsMockData := dsMockData s; dsStartedAt := dsStartedAt s;
     dsUpdatedAt := now |}.
Definition set_breakpoints (s : DebugSession) (l : list Breakpoint) (now : Z) : DebugSession :=
  {| dsID := dsID s; dsWorkflowID := dsWorkflowID s; dsMode := dsMode s; dsState := dsState s;
     dsCurrentNode := dsCurrentNode s; dsBreakpoints := l; dsStepMode := dsStepMode s;
     dsVariables := dsVariables s; dsNodeOutputs := dsNodeOutputs s; dsLogs := dsLogs s; dsCallStack := dsCallStack s;
     dsWatchExpressions := dsWatchExpressions s; dsMockData := dsMockData s; dsStartedAt := dsStartedAt s;
     dsUpdatedAt := now |}.
Definition set_watches (s : DebugSession) (l : list WatchExpression) (now : Z) : DebugSession :=
  {| dsID := dsID s; dsWorkflowID := dsWorkflowID s; dsMode := dsMode s; dsState := dsState s;
     dsCurrentNode := dsCurrentNode s; dsBreakpoints := dsBreakpoints s; dsStepMode := dsStepMode s;
     dsVariables := dsVariables s; dsNodeOutputs := dsNodeOutputs s; dsLogs := dsLogs s; dsCallStack := dsCallStack s;
     dsWatchExpressions := l; dsMockData := dsMockData s; dsStartedAt := dsStartedAt s; dsUpdatedAt := now |}.
Definition set_mock (s : DebugSession) (m : vmap) (now : Z) : DebugSession :=
  {| dsID := dsID s; dsWorkflowID := dsWorkflowID s; dsMode := dsMode s; dsState := dsState s;
     dsCurrentNode := dsCurrentNode s; dsBreakpoints := dsBreakpoints s; dsStepMode := dsStepMode s;
     dsVariables := dsVariables s; dsNodeOutputs := dsNodeOutputs s; dsLogs := dsLogs s; dsCallStack := dsCallStack s;
     dsWatchExpressions := dsWatchExpressions s; dsMockData := Some m; dsStartedAt := dsStartedAt s; dsUpdatedAt := now |}.

Definition NewDebugger (redis : gmap string string) : Debugger :=
  {| dgHeap := ∅; dgNext := 0; dgSessions := ∅; dgRedis := redis; dgListeners := ∅; dgClosed := ∅ |}.

Definition put_session (d : Debugger) (p : nat) (s : DebugSession) : Debugger :=
  {| dgHeap := <[p := s]> (dgHeap d); dgNext := dgNext d; dgSessions := dgSessions d; dgRedis := dgRedis d;
     dgListeners := dgListeners d; dgClosed := dgClosed d |}.
Definition set_redis (d : Debugger) (r : gmap string string) : Debugger :=
  {| dgHeap := dgHeap d; dgNext := dgNext d; dgSessions := dgSessions d; dgRedis := r;
     dgListeners := dgListeners d; dgClosed := dgClosed d |}.
Definition set_listeners (d : Debugger) (l : gmap string (list DebugEvent)) (c : gset string) : Debugger :=
  {| dgHeap := dgHeap d; dgNext := dgNext d; dgSessions := dgSessions d; dgRedis := dgRedis d;
     dgListeners := l; dgClosed := c |}.
Definition set_sessions (d : Debugger) (m : gmap string nat) : Debugger :=
  {| dgHeap := dgHeap d; dgNext := dgNext d; dgSessions := m; dgRedis := dgRedis d;
     dgListeners := dgListeners d; dgClosed := dgClosed d |}.
(** A session behind a new pointer, stored under [id]. *)
Definition add_session (d : Debugger) (id : string) (s : DebugSession) : Debugger :=
  {| dgHeap := <[dgNext d := s]> (dgHeap d); dgNext := S (dgNext d); dgSessions := <[id := dgNext d]> (dgSessions d);
     dgRedis := dgRedis d; dgListeners := dgListeners d; dgClosed := dgClosed d |}.

(** [d.sessions[sessionID]] and the session it points to. *)
Definition lookup_session (d : Debugger) (sessionID : string) : option (nat * DebugSession) :=
  p ← dgSessions d !! sessionID;
  s ← dgHeap d !! p;
  Some (p, s).

(** ** Events *)

(** [key[:len(event.SessionID)] == event.SessionID]; a shorter key panics. *)
Definition listens (key sessionID : string) : outcome bool :=
  if bool_decide (sessionID = "") then Ret true
  else if bool_decide (String.length key < String.length sessionID)
  then Panic "runtime error: slice bounds out of range"
  else Ret (String.prefix sessionID key).
(** A send to a full channel is skipped. *)
Definition push (e : DebugEvent) (ch : list DebugEvent) : list DebugEvent :=
  if bool_decide (length ch < channel_size) then ch ++ [e] else ch.

(** [sendEvent], over the listeners in the order [ord]. *)
Fixpoint send_loop (l : gmap string (list DebugEvent)) (e : DebugEvent) (ord : list string) :
    outcome (gmap string (list DebugEvent)) :=
  match ord with
  | [] => Ret l
  | key :: ord' =>
      match l !! key with
      | None => send_loop l e ord'
      | Some ch =>
          match listens key (deSessionID e) with
          | Ret true => send_loop (<[key := push e ch]> l) e ord'
          | Ret false => send_loop l e ord'
          | Panic m => Panic m
          | NoFuel => NoFuel
          end
      end
  end.
Definition sendEvent (d : Debugger) (e : DebugEvent) (ord : list string) : outcome Debugger :=
  match send_loop (dgListeners d) e ord with
  | Ret l => Ret (set_listeners d l (dgClosed d))
  | Panic m => Panic m
  | NoFuel => NoFuel
  end.
Definition event (type sessionID nodeID : string) (now : Z) : DebugEvent :=
  {| deType := type; deSessionID := sessionID; deNodeID := nodeID; deData := ∅; deTimestamp := now |}.

Definition Subscribe (d : Debugger) (sessionID listenerID : string) : string * Debugger :=
  let key := sessionID +:+ ":" +:+ listenerID in
  (key, set_listeners d (<[key := []]> (dgListeners d)) (dgClosed d)).

(** The function [Subscribe] returns; closing a channel twice panics. *)
Definition unsubscribe (d : Debugger) (key : string) : outcome Debugger :=
  if bool_decide (key ∈ dgClosed d) then Panic "close of closed channel"
  else Ret (set_listeners d (delete key (dgListeners d)) ({[key]} ∪ dgClosed d)).

Section Debugger.
(** JSON of a session: what cannot be decoded is left at its zero value. *)
Context (encode : DebugSession → option string) (decode : string → DebugSession).

Definition session_key (id : string) : string := "debug:session:" +:+ id.

(** [err] is a failure of Redis, which is ignored. *)
Definition storeSession (d : Debugger) (s : DebugSession) (err : bool) : Debugger :=
  if err then d else set_redis d (<[session_key (dsID s) := default "" (encode s)]> (dgRedis d)).
Definition loadSession (d : Debugger) (sessionID : string) (err : bool) : option DebugSession :=
  if err then None else decode <$> dgRedis d !! session_key sessionID.
Definition deleteSession (d : Debugger) (sessionID : string) (err : bool) : Debugger :=
  if err then d else set_redis d (delete (session_key sessionID) (dgRedis d)).

(** ** Operations *)

Definition new_breakpoint (id nodeID condition : string) (now : Z) : Breakpoint :=
  {| bpID := id; bpNodeID := nodeID; bpCondition := condition; bpHitCount := 0; bpMaxHits := 0; bpEnabled := true;
     bpCreatedAt := now |}.

(** [uuids] are the IDs of the initial breakpoints. *)
Definition StartSession (d : Debugger) (workflowID : string) (o : DebugOptions) (uuid : string) (uuids : list string)
    (now : Z) (err : bool) (ord : list string) : outcome (result nat * Debugger) :=
  if existsb (λ kp, match dgHeap d !! kp.2 with
                    | Some s => bool_decide (dsWorkflowID s = workflowID) && negb (bool_decide (dsState s = StateCompleted))
                    | None => false
                    end) (map_to_list (dgSessions d))
  then Ret (Err ErrSessionAlreadyExists, d)
  else
    let s := {| dsID := uuid; dsWorkflowID := workflowID; dsMode := doMode o; dsState := StateIdle; dsCurrentNode := "";
                dsBreakpoints := zip_with (λ nodeID id, new_breakpoint id nodeID "" now) (doInitialBreakpoints o) uuids;
                dsStepMode := doStepMode o; dsVariables := ∅; dsNodeOutputs := ∅; dsLogs := []; dsCallStack := [];
                dsWatchExpressions := []; dsMockData := doMockData o; dsStartedAt := now; dsUpdatedAt := now |} in
    let p := dgNext d in
    let d := storeSession (add_session d uuid s) s err in
    match sendEvent d (event "session.started" uuid "" now) ord with
    | Ret d => Ret (Ok p, d)
    | Panic m => Panic m
    | NoFuel => NoFuel
    end.

(** [GetSession] stores a loaded session while it holds the read lock only. *)
Definition GetSession (d : Debugger) (sessionID : string) (err : bool) : result nat * Debugger :=
  match dgSessions d !! sessionID with
  | Some p => (Ok p, d)
  | None =>
      match loadSession d sessionID err with
      | None => (Err ErrSessionNotFound, d)
      | Some s => (Ok (dgNext d), add_session d sessionID s)
      end
  end.

Fixpoint update_breakpoint (l : list Breakpoint) (nodeID condition : string) : option (list Breakpoint) :=
  match l with
  | [] => None
  | bp :: l' =>
      if bool_decide (bpNodeID bp = nodeID) then
        Some ({| bpID := bpID bp; bpNodeID := bpNodeID bp; bpCondition := condition; bpHitCount := bpHitCount bp;
                 bpMaxHits := bpMaxHits bp; bpEnabled := true; bpCreatedAt := bpCreatedAt bp |} :: l')
      else match update_breakpoint l' nodeID condition with Some l'' => Some (bp :: l'') | None => None end
  end.

Definition SetBreakpoint (d : Debugger) (sessionID nodeID condition uuid : string) (now : Z) (err : bool)
    (ord : list string) : outcome (option string * Debugger) :=
  match lookup_session d sessionID with
  | None => Ret (Some ErrSessionNotFound, d)
  | Some (p, s) =>
      match update_breakpoint (dsBreakpoints s) nodeID condition with
      | Some l =>
          let s := set_breakpoints s l (dsUpdatedAt s) in
          Ret (None, storeSession (put_session d p s) s err)
      | None =>
          let s := set_breakpoints s (dsBreakpoints s ++ [new_breakpoint uuid nodeID condition now]) now in
          match sendEvent (storeSession (put_session d p s) s err) (event "breakpoint.set" sessionID nodeID now) ord with
          | Ret d => Ret (None, d)
          | Panic m => Panic m
          | NoFuel => NoFuel
          end
      end
  end.

Fixpoint remove_first (l : list Breakpoint) (id : string) : option (list Breakpoint) :=
  match l with
  | [] => None
  | bp :: l' =>
      if bool_decide (bpID bp = id) then Some l'
      else match remove_first l' id with Some l'' => Some (bp :: l'') | None => None end
  end.

Definition RemoveBreakpoint (d : Debugger) (sessionID breakpointID : string) (now : Z) (err : bool) (ord : list string) :
    outcome (option string * Debugger) :=
  match lookup_session d sessionID with
  | None => Ret (Some ErrSessionNotFound, d)
  | Some (p, s) =>
      match remove_first (dsBreakpoints s) breakpointID with
      | None => Ret (Some ErrInvalidBreakpoint, d)
      | Some l =>
          let s := set_breakpoints s l now in
          match sendEvent (storeSession (put_session d p s) s err)
                  {| deType := "breakpoint.removed"; deSessionID := sessionID; deNodeID := "";
                     deData := {["breakpointId" := VStr breakpointID]}; deTimestamp := now |} ord with
          | Ret d => Ret (None, d)
          | Panic m => Panic m
          | NoFuel => NoFuel
          end
      end
  end.

(** A change of state that is announced; [Step], [Continue] and [Pause]. *)
Definition move (d : Debugger) (sessionID from error to type : string) (node : bool) (now : Z) (ord : list string) :
    outcome (option string * Debugger) :=
  match lookup_session d sessionID with
  | None => Ret (Some ErrSessionNotFound, d)
  | Some (p, s) =>
      if bool_decide (dsState s = from) then
        match sendEvent (put_session d p (set_state s to now))
                (event type sessionID (if node then dsCurrentNode s else "") now) ord with
        | Ret d => Ret (None, d)
        | Panic m => Panic m
        | NoFuel => NoFuel
        end
      else Ret (Some error, d)
  end.
Definition Step (d : Debugger) (sessionID : string) (now : Z) (ord : list string) :=
  move d sessionID StatePaused ErrNotPaused StateRunning "execution.step" true now ord.
Definition Continue (d : Debugger) (sessionID : string) (now : Z) (ord : list string) :=
  move d sessionID StatePaused ErrNotPaused StateRunning "execution.continued" false now ord.
Definition Pause (d : Debugger) (sessionID : string) (now : Z) (ord : list string) :=
  move d sessionID StateRunning "session not running" StatePaused "execution.paused" true now ord.

(** The goroutine of a step, a tenth of a second later: it has the pointer. *)
Definition step_done (d : Debugger) (p : nat) (sessionID : string) (now : Z) (ord : list string) : outcome Debugger :=
  match dgHeap d !! p with
  | None => Ret d
  | Some s =>
      sendEvent (put_session d p (set_state s StatePaused (dsUpdatedAt s)))
        (event "execution.paused" sessionID (dsCurrentNode s) now) ord
  end.

Definition InspectVariable (d : Debugger) (sessionID variableName : string) : result value :=
  match lookup_session d sessionID with
  | None => Err ErrSessionNotFound
  | Some (_, s) =>
      match last (dsCallStack s) ≫= (λ f, sfVariables f !! variableName), dsVariables s !! variableName with
      | Some v, _ => Ok v
      | None, Some v => Ok v
      | None, None => Err ("variable '" +:+ variableName +:+ "' not found")
      end
  end.

Definition evaluateWatch (s : DebugSession) (expression : string) : result value :=
  match dsVariables s !! expression, dsNodeOutputs s !! expression with
  | Some v, _ => Ok v
  | None, Some v => Ok v
  | None, None => Err ("cannot evaluate expression: " +:+ expression)
  end.

Definition AddWatchExpression (d : Debugger) (sessionID expression uuid : string) (now : Z) (err : bool) :
    option string * Debugger :=
  match lookup_session d sessionID with
  | None => (Some ErrSessionNotFound, d)
  | Some (p, s) =>
      let w := match evaluateWatch s expression with
               | Ok v => {| weID := uuid; weExpression := expression; weValue := v; weError := "" |}
               | Err e => {| weID := uuid; weExpression := expression; weValue := VNil; weError := e |}
               end in
      let s := set_watches s (dsWatchExpressions s ++ [w]) now in
      (None, storeSession (put_session d p s) s err)
  end.

Definition SetMockData (d : Debugger) (sessionID nodeID : string) (data : value) (now : Z) (err : bool) (ord : list string) :
    outcome (option string * Debugger) :=
  match lookup_session d sessionID with
  | None => Ret (Some ErrSessionNotFound, d)
  | Some (p, s) =>
      let s := set_mock s (<[nodeID := data]> (default ∅ (dsMockData s))) now in
      match sendEvent (storeSession (put_session d p s) s err) (event "mock.updated" sessionID nodeID now) ord with
      | Ret d => Ret (None, d)
      | Panic m => Panic m
      | NoFuel => NoFuel
      end
  end.

Definition log_matches (f : LogFilter) (l : LogEntry) : bool :=
  negb (bool_decide (lfLevel f ≠ "") && bool_decide (leLevel l ≠ lfLevel f))
  && negb (bool_decide (lfNodeID f ≠ "") && bool_decide (leNodeID l ≠ lfNodeID f))
  && match lfStartTime f with Some t => negb (bool_decide (leTimestamp l < t)%Z) | None => true end
  && match lfEndTime f with Some t => negb (bool_decide (t < leTimestamp l)%Z) | None => true end.
Definition GetLogs (d : Debugger) (sessionID : string) (f : LogFilter) : result (list LogEntry) :=
  match lookup_session d sessionID with
  | None => Err ErrSessionNotFound
  | Some (_, s) => Ok (filter (λ l, log_matches f l = true) (dsLogs s))
  end.

(** [StopSession] starts the clean-up and does not store the session. *)
Definition StopSession (d : Debugger) (sessionID : string) (now : Z) (ord : list string) :
    outcome (option string * Debugger) :=
  match lookup_session d sessionID with
  | None => Ret (Some ErrSessionNotFound, d)
  | Some (p, s) =>
      match sendEvent (put_session d p (set_state s StateCompleted now)) (event "session.stopped" sessionID "" now) ord with
      | Ret d => Ret (None, d)
      | Panic m => Panic m
      | NoFuel => NoFuel
      end
  end.

(** The clean-up five minutes later: from memory, then from Redis. *)
Definition cleanup_memory (d : Debugger) (sessionID : string) : Debugger :=
  set_sessions d (delete sessionID (dgSessions d)).
Definition cleanup_redis (d : Debugger) (sessionID : string) (err : bool) : Debugger := deleteSession d sessionID err.

(** ** Runs *)

Inductive dbg_step : Debugger → Debugger → Prop :=
  | db_start d wf o uuid uuids now err ord r d' :
      StartSession d wf o uuid uuids now err ord = Ret (r, d') → dbg_step d d'
  | db_get d id err : dbg_step d (GetSession d id err).2
  | db_set d id node cond uuid now err ord r d' :
      SetBreakpoint d id node cond uuid now err ord = Ret (r, d') → dbg_step d d'
  | db_remove d id bp now err ord r d' : RemoveBreakpoint d id bp now err ord = Ret (r, d') → dbg_step d d'
  | db_step d id now ord r d' : Step d id now ord = Ret (r, d') → dbg_step d d'
  | db_continue d id now ord r d' : Continue d id now ord = Ret (r, d') → dbg_step d d'
  | db_pause d id now ord r d' : Pause d id now ord = Ret (r, d') → dbg_step d d'
  | db_watch d id e uuid now err : dbg_step d (AddWatchExpression d id e uuid now err).2
  | db_mock d id node v now err ord r d' : SetMockData d id node v now err ord = Ret (r, d') → dbg_step d d'
  | db_stop d id now ord r d' : StopSession d id now ord = Ret (r, d') → dbg_step d d'
  | db_clean d id : dbg_step d (cleanup_memory d id)
  | db_clean_redis d id err : dbg_step d (cleanup_redis d id err)
  | db_expire d key : dbg_step d (set_redis d (delete key (dgRedis d)))
  | db_subscribe d id l : dbg_step d (Subscribe d id l).2
  | db_unsubscribe d key d' : unsubscribe d key = Ret d' → dbg_step d d'.

(** JSON keeps the state; nothing is read from the empty text. *)
Hypothesis state_kept : ∀ s t, encode s = Some t → dsState (decode t) = dsState s.
Hypothesis empty_state : dsState (decode "") = "".

Definition still (s : DebugSession) : Prop := dsState s ≠ StateRunning ∧ dsState s ≠ StatePaused.

Record dbg_inv (d : Debugger) : Prop := {
  di_still : map_Forall (λ _ s, still s) (dgHeap d);
  di_stored : map_Forall (λ _ t, still (decode t)) (dgRedis d);
  di_bounded : map_Forall (λ _ ch, length ch ≤ channel_size) (dgListeners d)
}.

Lemma push_bounded e ch : length ch ≤ channel_size → length (push e ch) ≤ channel_size.
Proof. unfold push. case_bool_decide; [rewrite length_app; simpl; lia|done]. Qed.

Lemma send_bounded l e ord l' :
  map_Forall (λ _ ch, length ch ≤ channel_size) l → send_loop l e ord = Ret l' →
  map_Forall (λ _ ch, length ch ≤ channel_size) l'.
Proof.
  revert l. induction ord as [|key ord IH]; intros l Hl; simpl; [by intros [= <-]|].
  destruct (l !! key) as [ch|] eqn:E; [|by apply IH]. destruct (listens _ _) as [[]| |]; try done; [|by apply IH].
  apply IH. apply map_Forall_insert_2; [|done]. apply push_bounded, (Hl _ _ E).
Qed.

Lemma send_inv d e ord d' : dbg_inv d → sendEvent d e ord = Ret d' → dbg_inv d'.
Proof.
  intros [H1 H2 H3]. unfold sendEvent. destruct (send_loop _ _ _) as [l| |] eqn:E; try done. intros [= <-].
  constructor; [done..|]. by eapply send_bounded.
Qed.

Lemma put_inv d p s : dbg_inv d → still s → dbg_inv (put_session d p s).
Proof. intros [H1 H2 H3] Hs. constructor; [|done..]. by apply map_Forall_insert_2. Qed.

Lemma store_inv d s err : dbg_inv d → still s → dbg_inv (storeSession d s err).
Proof.
  intros [H1 H2 H3] Hs. unfold storeSession. destruct err; [by constructor|]. constructor; [done| |done].
  apply map_Forall_insert_2; [|done]. unfold still in *. destruct (encode s) as [t|] eqn:E; simpl.
  - by rewrite (state_kept _ _ E).
  - by rewrite empty_state.
Qed.

Lemma add_inv d id s : dbg_inv d → still s → dbg_inv (add_session d id s).
Proof. intros [H1 H2 H3] Hs. constructor; [|done..]. by apply map_Forall_insert_2. Qed.

Lemma lookup_still d id p s : dbg_inv d → lookup_session d id = Some (p, s) → still s.
Proof.
  intros H. unfold lookup_session. destruct (dgSessions d !! id) as [q|]; [|done]. simpl.
  destruct (dgHeap d !! q) as [s'|] eqn:E; [|done]. simpl. intros [= <- <-]. by apply (di_still _ H q).
Qed.

(** Nothing can be resumed or paused. *)
Lemma move_refused d id from error to type node now ord :
  dbg_inv d → from = StateRunning ∨ from = StatePaused →
  ∃ e, move d id from error to type node now ord = Ret (Some e, d).
Proof.
  intros H Hf. unfold move. destruct (lookup_session d id) as [[p s]|] eqn:E; [|by eauto].
  apply lookup_still in E as [H1 H2]; [|done]. rewrite bool_decide_false; [by eauto|]. destruct Hf as [-> | ->]; done.
Qed.

Lemma step_dbg_inv d d' : dbg_step d d' → dbg_inv d → dbg_inv d'.
Proof.
  intros Hs H.
  assert (∀ p s1 s2 err ord e d2, sendEvent (storeSession (put_session d p s1) s2 err) e ord = Ret d2 →
    still s1 → still s2 → dbg_inv d2) as Hput.
  { intros p s1 s2 err ord e d2 E Hs1 Hs2. eapply send_inv; [|done]. by apply store_inv; [apply put_inv|]. }
  destruct Hs as [d wf o uuid uuids now err ord r d' E|d id err|d id node cond uuid now err ord r d' E
    |d id bp now err ord r d' E|d id now ord r d' E|d id now ord r d' E|d id now ord r d' E|d id e uuid now err
    |d id node v now err ord r d' E|d id now ord r d' E|d id|d id err|d key|d id l|d key d' E].
  - unfold StartSession in E. destruct (existsb _ _); [by injection E as _ <-|]. cbn zeta in E.
    destruct (sendEvent _ _ _) as [d2| |] eqn:S; try done. injection E as _ <-. eapply send_inv; [|done].
    apply store_inv; [apply add_inv; [done|]|]; by split.
  - unfold GetSession. destruct (dgSessions d !! id); [done|]. unfold loadSession. destruct err; [done|].
    destruct (dgRedis d !! session_key id) as [t|] eqn:E; simpl; [|done]. apply add_inv; [done|]. by apply (di_stored _ H _ _ E).
  - unfold SetBreakpoint in E. destruct (lookup_session d id) as [[p s]|] eqn:L; [|by injection E as _ <-].
    apply lookup_still in L; [|done]. destruct (update_breakpoint _ _ _).
    + injection E as _ <-. by apply store_inv; [apply put_inv|].
    + cbn zeta in E. destruct (sendEvent _ _ _) eqn:S; try done. injection E as _ <-. exact (Hput _ _ _ _ _ _ _ S L L).
  - unfold RemoveBreakpoint in E. destruct (lookup_session d id) as [[p s]|] eqn:L; [|by injection E as _ <-].
    apply lookup_still in L; [|done]. destruct (remove_first _ _); [|by injection E as _ <-].
    cbn zeta in E. destruct (sendEvent _ _ _) eqn:S; try done. injection E as _ <-. exact (Hput _ _ _ _ _ _ _ S L L).
  - destruct (move_refused d id StatePaused ErrNotPaused StateRunning "execution.step" true now ord) as [e Hm]; [done|by right|].
    unfold Step in E. rewrite Hm in E. by injection E as _ <-.
  - destruct (move_refused d id StatePaused ErrNotPaused StateRunning "execution.continued" false now ord) as [e Hm]; [done|by right|].
    unfold Continue in E. rewrite Hm in E. by injection E as _ <-.
  - destruct (move_refused d id StateRunning "session not running" StatePaused "execution.paused" true now ord) as [e Hm]; [done|by left|].
    unfold Pause in E. rewrite Hm in E. by injection E as _ <-.
  - unfold AddWatchExpression. destruct (lookup_session d id) as [[p s]|] eqn:L; [|done]. apply lookup_still in L; [|done].
    by apply store_inv; [apply put_inv|].
  - unfold SetMockData in E. destruct (lookup_session d id) as [[p s]|] eqn:L; [|by injection E as _ <-].
    apply lookup_still in L; [|done]. cbn zeta in E. destruct (sendEvent _ _ _) eqn:S; try done. injection E as _ <-. exact (Hput _ _ _ _ _ _ _ S L L).
  - unfold StopSession in E. destruct (lookup_session d id) as [[p s]|] eqn:L; [|by injection E as _ <-].
    destruct (sendEvent _ _ _) eqn:S; try done. injection E as _ <-. eapply send_inv; [|done]. by apply put_inv; [|split].
  - destruct H. by constructor.
  - destruct H. unfold cleanup_redis, deleteSession. destruct err; constructor; try done. by apply map_Forall_delete.
  - destruct H. constructor; try done. by apply map_Forall_delete.
  - destruct H. constructor; try done. apply map_Forall_insert_2; [simpl; lia|done].
  - unfold unsubscribe in E. case_bool_decide; [done|]. injection E as <-. destruct H. constructor; try done. by apply map_Forall_delete.
Qed.

(** From a debugger whose Redis holds no running or paused session, whatever
    operations, clean-ups, expiries and failures of Redis follow, no session is
    ever running or paused, so Step, Continue and Pause always return an error
    and change nothing; and no listener has more than a hundred events waiting. *)
Lemma debug_sessions_never_run redis d :
  map_Forall (λ _ t, still (decode t)) redis → rtc dbg_step (NewDebugger redis) d →
  map_Forall (λ _ s, still s) (dgHeap d) ∧ map_Forall (λ _ ch, length ch ≤ channel_size) (dgListeners d)
  ∧ ∀ id now ord, (∃ e, Step d id now ord = Ret (Some e, d)) ∧ (∃ e, Continue d id now ord = Ret (Some e, d))
                  ∧ ∃ e, Pause d id now ord = Ret (Some e, d).
Proof.
  intros Hr Hs. assert (dbg_inv d) as H.
  { eapply rtc_preserve; [apply step_dbg_inv|done|]. by constructor. }
  split_and!; [apply H|apply H|]. intros id now ord. split_and!; apply move_refused; auto.
Qed.

End Debugger.

(** ** Events reach their listeners *)

Lemma send_loop_ok l e ord :
  NoDup ord → (∀ key, is_Some (l !! key) → String.length (deSessionID e) ≤ String.length key) →
  ∃ l', send_loop l e ord = Ret l' ∧ ∀ key, l' !! key =
    if bool_decide (key ∈ ord) && (bool_decide (deSessionID e = "") || String.prefix (deSessionID e) key)
    then push e <$> l !! key else l !! key.
Proof.
  intros Hnd. revert l. induction Hnd as [|key ord Hni Hnd IH]; intros l Hlen; simpl.
  { exists l. split; [done|]. intros key. done. }
  destruct (l !! key) as [ch|] eqn:E.
  2:{ destruct (IH l Hlen) as (l' & -> & Hl'). exists l'. split; [done|]. intros k. rewrite Hl'.
      destruct (decide (k = key)) as [->|Hne]; [by rewrite E; repeat case_match|].
      by rewrite (bool_decide_ext (k ∈ key :: ord) (k ∈ ord)) by set_solver. }
  assert (listens key (deSessionID e) = Ret (bool_decide (deSessionID e = "") || String.prefix (deSessionID e) key)) as ->.
  { unfold listens. destruct (bool_decide (deSessionID e = "")); [done|].
    rewrite bool_decide_false; [done|]. pose proof (Hlen key). rewrite E in *. specialize (H (mk_is_Some _ _ eq_refl)). lia. }
  destruct (bool_decide (deSessionID e = "") || String.prefix (deSessionID e) key) eqn:B.
  - destruct (IH (<[key := push e ch]> l)) as (l' & -> & Hl').
    { intros k [<-|[_ ?]]%lookup_insert_is_Some; apply Hlen; [by eexists|done]. }
    exists l'. split; [done|]. intros k. rewrite Hl'. destruct (decide (k = key)) as [->|Hne].
    + rewrite lookup_insert_eq, B, E, andb_true_r, (bool_decide_false (key ∈ ord)), (bool_decide_true (key ∈ key :: ord)) by set_solver.
      done.
    + rewrite lookup_insert_ne by done. by rewrite (bool_decide_ext (k ∈ key :: ord) (k ∈ ord)) by set_solver.
  - destruct (IH l Hlen) as (l' & -> & Hl'). exists l'. split; [done|]. intros k. rewrite Hl'.
    destruct (decide (k = key)) as [->|Hne]; [by rewrite B, !andb_false_r|].
    by rewrite (bool_decide_ext (k ∈ key :: ord) (k ∈ ord)) by set_solver.
Qed.

Lemma prefix_key sid sub l :
  String.length sub = String.length sid → String.prefix sid (sub +:+ l) = true ↔ sid = sub.
Proof.
  intros Hl. split; [|intros ->; apply prefix_app]. rewrite prefix_spec. intros [b E].
  revert sub Hl E. induction sid as [|c sid IH]; intros [|c' sub] Hl E; try done. rewrite !string_app_cons in E.
  injection E as -> E. f_equal. apply (IH sub); [by injection Hl|done].
Qed.

(** An event of a session is delivered, once and whatever the iteration
    order, to every listener of that session with room in its channel and to no
    other one, as long as session IDs have the same length, as those of sessions
    do; sending never panics. *)
Lemma debug_events_delivered d e ord :
  range_order (dgListeners d) ord → deSessionID e ≠ "" →
  (∀ key, is_Some (dgListeners d !! key) →
     ∃ sub l, key = sub +:+ ":" +:+ l ∧ String.length sub = String.length (deSessionID e)) →
  ∃ d', sendEvent d e ord = Ret d' ∧ dgHeap d' = dgHeap d
    ∧ ∀ sub l, String.length sub = String.length (deSessionID e) →
        dgListeners d' !! (sub +:+ ":" +:+ l) =
        if decide (sub = deSessionID e) then push e <$> dgListeners d !! (sub +:+ ":" +:+ l)
        else dgListeners d !! (sub +:+ ":" +:+ l).
Proof.
  intros [Hnd Hord] Hne Hkeys. destruct (send_loop_ok (dgListeners d) e ord Hnd) as (l' & E & Hl').
  { intros key (sub & l & -> & Hlen)%Hkeys. rewrite string_app_length. lia. }
  unfold sendEvent. rewrite E. eexists. split_and!; [done..|]. intros sub l Hlen. simpl. rewrite Hl'.
  rewrite (bool_decide_false (deSessionID e = "")) by done. simpl. pose proof (prefix_key (deSessionID e) sub (":" +:+ l) Hlen) as Hp.
  destruct (dgListeners d !! (sub +:+ ":" +:+ l)) as [ch|] eqn:L.
  - rewrite (bool_decide_true (_ ∈ ord)) by (apply Hord; by eexists). simpl.
    destruct (String.prefix _ _).
    + rewrite decide_True; [done|]. symmetry. by apply Hp.
    + rewrite decide_False; [done|]. intros D. by apply symmetry, Hp in D.
  - by repeat case_match.
Qed.

(** ** Concrete runs *)

Definition demo_options : DebugOptions :=
  {| doMode := "step"; doStepMode := true; doInitialBreakpoints := ["n1"]; doMockData := None |}.
Definition demo_session (state : string) : DebugSession :=
  {| dsID := "s1"; dsWorkflowID := "w"; dsMode := ""; dsState := state; dsCurrentNode := ""; dsBreakpoints := [];
     dsStepMode := false; dsVariables := ∅; dsNodeOutputs := ∅; dsLogs := []; dsCallStack := [];
     dsWatchExpressions := []; dsMockData := None; dsStartedAt := 0; dsUpdatedAt := 0 |}.
(** A codec of the state alone. *)
Definition demo_encode (s : DebugSession) : option string := Some (dsState s).
Definition demo_decode (t : string) : DebugSession := demo_session t.

Lemma debug_sessions_never_run_witness :
  ∃ d, StartSession demo_encode (NewDebugger ∅) "w" demo_options "s1" ["b1"] 5 false [] = Ret (Ok 0, d)
    ∧ map_Forall (λ _ s, still s) (dgHeap d) ∧ ∃ e, Step d "s1" 6 [] = Ret (Some e, d).
Proof.
  eexists. split; [reflexivity|].
  destruct (debug_sessions_never_run demo_encode demo_decode (λ s t E, f_equal (default "") (eq_sym E)) eq_refl ∅ _
    (map_Forall_empty _) (rtc_once _ _ (db_start _ _ (NewDebugger ∅) "w" demo_options "s1" ["b1"] 5 false [] _ _ eq_refl)))
    as (H1 & _ & H3). split; [exact H1|]. apply (H3 "s1" 6%Z []).
Defined.

Lemma debug_events_delivered_witness :
  ∃ d', sendEvent (Subscribe (NewDebugger ∅) "s1" "l").2 (event "x" "s1" "" 0) ["s1:l"] = Ret d'
    ∧ dgListeners d' !! "s1:l" = Some [event "x" "s1" "" 0].
Proof.
  destruct (debug_events_delivered (Subscribe (NewDebugger ∅) "s1" "l").2 (event "x" "s1" "" 0) ["s1:l"])
    as (d' & H1 & _ & H3).
  - exact (keys_range_order (V := list DebugEvent) {["s1:l" := []]}).
  - done.
  - intros key Hk. simpl in Hk. apply lookup_insert_is_Some in Hk as [<-|[_ Hk]]; [by exists "s1", "l"|].
    rewrite lookup_empty in Hk. by destruct Hk.
  - exists d'. split; [exact H1|]. exact (H3 "s1" "l" eq_refl).
Defined.

(** A stopped session is not stored: between the two halves of the clean-up it
    can be loaded again, as it was before. *)
Lemma stopped_session_returns :
  match StartSession demo_encode (NewDebugger ∅) "w" demo_options "s1" ["b1"] 5 false [] with
  | Ret (_, d) =>
      match StopSession d "s1" 6 [] with
      | Ret (None, d) => let d := (GetSession demo_decode (cleanup_memory d "s1") "s1" false).2 in
                         dsState <$> dgHeap d !! 1 = Some StateIdle
      | _ => False
      end
  | _ => False
  end.
Proof. reflexivity. Qed.
