(* ===== verification/WorkflowRepo.v ===== *)
(** internal/workflow/adapters/db/repository: workflows and their versions,
    permissions, variables and environments as tables, over GORM.

    A transaction is applied whole or not at all.  [fail] gives, for each
    statement, the error the database answers, if any; [ord] is the order in
    which the database visits the rows.  [encode] and [decode] stand for the JSON
    of a workflow. *)

From S2P Require Import Prelude GoValue GoLib GoText Graph Workflow Variables.
From stdpp Require Import sorting.

(** ** The tables *)

Record WorkflowVersion := {
  wvID : string;
  wvWorkflowID : string;
  wvVersion : Z;
  wvData : string;
  wvChangedBy : string;
  wvChangeNote : string;
  wvCreatedAt : Z
}.

Record WorkflowDB := {
  dbWorkflows : gmap string Workflow;
  dbVersions : gmap string WorkflowVersion;
  dbPermissions : list vmap;
  dbCategories : list vmap;
  dbVariables : gmap (string * string) WorkflowVariable;     (* by workflow and key *)
  dbEnvironments : gmap string Environment
}.

Definition put_workflows (db : WorkflowDB) (t : gmap string Workflow) : WorkflowDB :=
  {| dbWorkflows := t; dbVersions := dbVersions db; dbPermissions := dbPermissions db;
     dbCategories := dbCategories db; dbVariables := dbVariables db; dbEnvironments := dbEnvironments db |}.
Definition put_versions (db : WorkflowDB) (t : gmap string WorkflowVersion) : WorkflowDB :=
  {| dbWorkflows := dbWorkflows db; dbVersions := t; dbPermissions := dbPermissions db;
     dbCategories := dbCategories db; dbVariables := dbVariables db; dbEnvironments := dbEnvironments db |}.
Definition put_permissions (db : WorkflowDB) (t : list vmap) : WorkflowDB :=
  {| dbWorkflows := dbWorkflows db; dbVersions := dbVersions db; dbPermissions := t;
     dbCategories := dbCategories db; dbVariables := dbVariables db; dbEnvironments := dbEnvironments db |}.
Definition put_categories (db : WorkflowDB) (t : list vmap) : WorkflowDB :=
  {| dbWorkflows := dbWorkflows db; dbVersions := dbVersions db; dbPermissions := dbPermissions db;
     dbCategories := t; dbVariables := dbVariables db; dbEnvironments := dbEnvironments db |}.
Definition put_variables (db : WorkflowDB) (t : gmap (string * string) WorkflowVariable) : WorkflowDB :=
  {| dbWorkflows := dbWorkflows db; dbVersions := dbVersions db; dbPermissions := dbPermissions db;
     dbCategories := dbCategories db; dbVariables := t; dbEnvironments := dbEnvironments db |}.
Definition put_environments (db : WorkflowDB) (t : gmap string Environment) : WorkflowDB :=
  {| dbWorkflows := dbWorkflows db; dbVersions := dbVersions db; dbPermissions := dbPermissions db;
     dbCategories := dbCategories db; dbVariables := dbVariables db; dbEnvironments := t |}.

Definition empty_db : WorkflowDB :=
  {| dbWorkflows := ∅; dbVersions := ∅; dbPermissions := []; dbCategories := []; dbVariables := ∅;
     dbEnvironments := ∅ |}.

(** The database's answers: the error of a statement, if it fails. *)
Abbreviation db_fail := (string → option string).
Definition db_ok : db_fail := λ _, None.
Definition duplicate_key := "duplicate key value violates unique constraint".
Definition record_not_found := "record not found".

(** [try fail stmt k]: the statement fails, or the rest runs. *)
Definition try {A} (fail : db_fail) (stmt : string) (k : result A) : result A :=
  match fail stmt with Some e => Err e | None => k end.

(** ** Fields of a workflow *)

Definition set_row (w : Workflow) (status : string) (active : bool) (version updated : Z) (deleted : option Z) :
    Workflow :=
  {| wID := wID w; wName := wName w; wDescription := wDescription w; wUserID := wUserID w; wTeamID := wTeamID w;
     wNodes := wNodes w; wConnections := wConnections w; wSettings := wSettings w; wStatus := status;
     wIsActive := active; wVersion := version; wTags := wTags w; wCreatedAt := wCreatedAt w; wUpdatedAt := updated;
     wDeletedAt := deleted |}.

(** The columns' defaults for zero values, read back into the workflow. *)
Definition with_column_defaults (w : Workflow) : Workflow :=
  set_row w (if bool_decide (wStatus w = "") then StatusInactive else wStatus w) (wIsActive w)
    (if bool_decide (wVersion w = 0)%Z then 1 else wVersion w) (wUpdatedAt w) (wDeletedAt w).

(** [w.Version = v; w.UpdatedAt = now]. *)
Definition set_version (w : Workflow) (v now : Z) : Workflow :=
  set_row w (wStatus w) (wIsActive w) v now (wDeletedAt w).

Definition set_user (w : Workflow) (userID : string) : Workflow :=
  {| wID := wID w; wName := wName w; wDescription := wDescription w; wUserID := userID; wTeamID := wTeamID w;
     wNodes := wNodes w; wConnections := wConnections w; wSettings := wSettings w; wStatus := wStatus w;
     wIsActive := wIsActive w; wVersion := wVersion w; wTags := wTags w; wCreatedAt := wCreatedAt w;
     wUpdatedAt := wUpdatedAt w; wDeletedAt := wDeletedAt w |}.

(** ** Versions *)

Definition is_version_of (id : string) (v : WorkflowVersion) : bool := bool_decide (wvWorkflowID v = id).

(** The rows of a condition, in the order [ord] of the database. *)
Definition rows_where {A} (tbl : gmap string A) (ord : list string) (cond : A → bool) : list A :=
  omap (λ id, match tbl !! id with Some r => if cond r then Some r else None | None => None end) ord.

(** [SELECT MAX(version)]: without rows the database answers NULL, which does
    not scan into an int. *)
Definition max_version (db : WorkflowDB) (id : string) : result Z :=
  match omap (λ p, if is_version_of id p.2 then Some (wvVersion p.2) else None) (map_to_list (dbVersions db)) with
  | [] => Err "converting NULL to int is unsupported"
  | v :: vs => Ok (foldr Z.max v vs)
  end.

Definition insert_version (db : WorkflowDB) (v : WorkflowVersion) (fail : db_fail) : result WorkflowDB :=
  try fail "INSERT workflow_versions"
    match dbVersions db !! wvID v with
    | Some _ => Err duplicate_key
    | None => Ok (put_versions db (<[wvID v := v]> (dbVersions db)))
    end.

Section repository.
Context (encode : Workflow → option string) (decode : string → option Workflow).

Definition marshal_error := "json: unsupported value".
Definition unmarshal_error := "invalid JSON".

Definition CreateWithVersion (db : WorkflowDB) (w : Workflow) (uuid : string) (now : Z) (fail : db_fail) :
    result (Workflow * WorkflowDB) :=
  try fail "INSERT workflows"
    match dbWorkflows db !! wID w with
    | Some _ => Err duplicate_key
    | None =>
        let w := with_column_defaults w in
        match encode w with
        | None => Err marshal_error
        | Some data =>
            match insert_version (put_workflows db (<[wID w := w]> (dbWorkflows db)))
                    {| wvID := uuid; wvWorkflowID := wID w; wvVersion := 1; wvData := data; wvChangedBy := wUserID w;
                       wvChangeNote := "Initial version"; wvCreatedAt := now |} fail with
            | Err e => Err e
            | Ok db' => Ok (w, db')
            end
        end
    end.

(** The row of an ID, not deleted, that meets the condition. *)
Definition get_where (db : WorkflowDB) (id : string) (cond : Workflow → bool) (fail : db_fail) : result Workflow :=
  try fail "SELECT workflows"
    match dbWorkflows db !! id with
    | Some w => if cond w && bool_decide (wDeletedAt w = None) then Ok w else Err "workflow not found"
    | None => Err "workflow not found"
    end.
Definition GetWithNodes (db : WorkflowDB) (id : string) (fail : db_fail) : result Workflow :=
  get_where db id (λ _, true) fail.
Definition GetByIDAndUser (db : WorkflowDB) (workflowID userID : string) (fail : db_fail) : result Workflow :=
  get_where db workflowID (λ w, bool_decide (wUserID w = userID)) fail.
Definition GetByIDAndTeam (db : WorkflowDB) (workflowID teamID : string) (fail : db_fail) : result Workflow :=
  get_where db workflowID (λ w, bool_decide (wTeamID w = teamID)) fail.

Definition UpdateWithVersion (db : WorkflowDB) (w : Workflow) (changeNote uuid : string) (now : Z) (fail : db_fail) :
    result (Workflow * WorkflowDB) :=
  try fail "SELECT MAX(version)"
    match max_version db (wID w) with
    | Err e => Err e
    | Ok currentVersion =>
        let w := set_version w (currentVersion + 1) now in
        try fail "UPDATE workflows"
          match encode w with
          | None => Err marshal_error
          | Some data =>
              match insert_version (put_workflows db (<[wID w := w]> (dbWorkflows db)))
                      {| wvID := uuid; wvWorkflowID := wID w; wvVersion := wVersion w; wvData := data;
                         wvChangedBy := wUserID w; wvChangeNote := changeNote; wvCreatedAt := now |} fail with
              | Err e => Err e
              | Ok db' => Ok (w, db')
              end
          end
    end.

(** The first row of a workflow's version. *)
Definition find_version (db : WorkflowDB) (ord : list string) (workflowID : string) (version : Z) :
    option WorkflowVersion :=
  head (rows_where (dbVersions db) ord (λ v, is_version_of workflowID v && bool_decide (wvVersion v = version))).

Definition GetVersion (db : WorkflowDB) (ord : list string) (workflowID : string) (version : Z) (fail : db_fail) :
    result WorkflowVersion :=
  try fail "SELECT workflow_versions"
    match find_version db ord workflowID version with
    | Some v => Ok v
    | None => Err "workflow version not found"
    end.

(** [ORDER BY version DESC]. *)
Definition later (a b : WorkflowVersion) : Prop := (wvVersion b ≤ wvVersion a)%Z.
#[global] Instance later_dec a b : Decision (later a b).
Proof. unfold later. apply _. Defined.

Definition versions_desc (db : WorkflowDB) (ord : list string) (workflowID : string) : list WorkflowVersion :=
  merge_sort later (rows_where (dbVersions db) ord (is_version_of workflowID)).

Definition ListVersions (db : WorkflowDB) (ord : list string) (workflowID : string) (fail : db_fail) :
    result (list WorkflowVersion) :=
  try fail "SELECT workflow_versions" (Ok (versions_desc db ord workflowID)).

Definition RestoreVersion (db : WorkflowDB) (ord : list string) (workflowID : string) (version : Z)
    (userID uuid : string) (now : Z) (fail : db_fail) : result WorkflowDB :=
  try fail "SELECT workflow_versions"
    match find_version db ord workflowID version with
    | None => Err record_not_found
    | Some wv =>
        match decode (wvData wv) with
        | None => Err unmarshal_error
        | Some restored =>
            try fail "SELECT MAX(version)"
              match max_version db workflowID with
              | Err e => Err e
              | Ok currentVersion =>
                  let restored := set_version restored (currentVersion + 1) now in
                  try fail "UPDATE workflows"
                    (insert_version (put_workflows db (<[wID restored := restored]> (dbWorkflows db)))
                       {| wvID := uuid; wvWorkflowID := workflowID; wvVersion := wVersion restored;
                          wvData := wvData wv; wvChangedBy := userID;
                          wvChangeNote := "Restored from version " +:+ pretty version;
                          wvCreatedAt := now |} fail)
              end
        end
    end.

Definition CreateWorkflow := CreateWithVersion.
Definition GetWorkflow := GetByIDAndUser.
Definition UpdateWorkflow (db : WorkflowDB) (w : Workflow) := UpdateWithVersion db w "Updated".

(** The deletion is soft, and touches the row's time of update. *)
Definition DeleteWorkflow (db : WorkflowDB) (workflowID userID : string) (now : Z) (fail : db_fail) : result WorkflowDB :=
  try fail "UPDATE workflows"
    match dbWorkflows db !! workflowID with
    | Some w =>
        if bool_decide (wUserID w = userID) then
          Ok (put_workflows db (<[workflowID := set_row w (wStatus w) (wIsActive w) (wVersion w) now (Some now)]>
                                  (dbWorkflows db)))
        else Ok db
    | None => Ok db
    end.

(** [Clone] of the repository finds deleted workflows too. *)
Definition Repo_Clone (db : WorkflowDB) (workflowID userID newName uuid uuid2 : string) (now now2 : Z) (fail : db_fail) :
    result (Workflow * WorkflowDB) :=
  try fail "SELECT workflows"
    match dbWorkflows db !! workflowID with
    | None => Err record_not_found
    | Some original => CreateWithVersion db (set_user (Workflow_Clone original uuid newName now now) userID) uuid2 now2 fail
    end.

Definition update_rows (db : WorkflowDB) (ids : list string) (f : Workflow → Workflow) : WorkflowDB :=
  put_workflows db (map_imap (λ id w, Some (if bool_decide (id ∈ ids) then f w else w)) (dbWorkflows db)).

Definition BulkUpdateStatus (db : WorkflowDB) (workflowIDs : list string) (status : string) (now : Z) (fail : db_fail) :
    result WorkflowDB :=
  try fail "UPDATE workflows"
    (Ok (update_rows db workflowIDs (λ w, set_row w status (bool_decide (status = StatusActive)) (wVersion w) now
                                            (wDeletedAt w)))).

Definition set_graph (w : Workflow) (nodes : list Node) (conns : list Connection) (now : Z) : Workflow :=
  {| wID := wID w; wName := wName w; wDescription := wDescription w; wUserID := wUserID w; wTeamID := wTeamID w;
     wNodes := nodes; wConnections := conns; wSettings := wSettings w; wStatus := wStatus w;
     wIsActive := wIsActive w; wVersion := wVersion w; wTags := wTags w; wCreatedAt := wCreatedAt w;
     wUpdatedAt := now; wDeletedAt := wDeletedAt w |}.

(** [marshal] is the failure of the JSON encoder. *)
Definition UpdateNodes (db : WorkflowDB) (workflowID : string) (nodes : list Node) (now : Z) (marshal : option string)
    (fail : db_fail) : result WorkflowDB :=
  match marshal with
  | Some e => Err e
  | None => try fail "UPDATE workflows" (Ok (update_rows db [workflowID] (λ w, set_graph w nodes (wConnections w) now)))
  end.
Definition UpdateConnections (db : WorkflowDB) (workflowID : string) (conns : list Connection) (now : Z)
    (marshal : option string) (fail : db_fail) : result WorkflowDB :=
  match marshal with
  | Some e => Err e
  | None => try fail "UPDATE workflows" (Ok (update_rows db [workflowID] (λ w, set_graph w (wNodes w) conns now)))
  end.

(** ** Listing workflows *)

Record ListWorkflowsOptions := {
  loUserID : string;
  loTeamID : string;
  loStatus : string;
  loIsActive : option bool;
  loTags : list string;
  loSearch : string;
  loPage : Z;
  loLimit : Z;
  loSortBy : string;
  loSortDesc : bool
}.

(** [ilike s pattern] is the operator of the database, and [column_le c] the
    order of the values of column [c]. *)
Section listing.
Context (ilike : string → string → bool) (column_le : string → Workflow → Workflow → bool).

Definition or_any (s t : string) : bool := bool_decide (s = "") || bool_decide (t = s).

Definition list_matches (o : ListWorkflowsOptions) (w : Workflow) : bool :=
  or_any (loUserID o) (wUserID w) && or_any (loTeamID o) (wTeamID w) && or_any (loStatus o) (wStatus w)
  && match loIsActive o with Some b => bool_decide (wIsActive w = b) | None => true end
  && (bool_decide (loTags o = []) || existsb (λ t, bool_decide (t ∈ loTags o)) (wTags w))
  && (bool_decide (loSearch o = "")
      || let term := "%" +:+ loSearch o +:+ "%" in ilike (wName w) term || ilike (wDescription w) term)
  && bool_decide (wDeletedAt w = None).

(** The order of the answer. *)
Definition list_before (o : ListWorkflowsOptions) (a b : Workflow) : Prop :=
  if bool_decide (loSortBy o = "") then (wUpdatedAt b ≤ wUpdatedAt a)%Z
  else if loSortDesc o then column_le (loSortBy o) b a = true else column_le (loSortBy o) a b = true.
#[global] Instance list_before_dec o a b : Decision (list_before o a b).
Proof. unfold list_before. repeat case_match; apply _. Defined.

Definition page_of {A} (page limit : Z) (l : list A) : list A :=
  if bool_decide (0 < page)%Z && bool_decide (0 < limit)%Z
  then take (Z.to_nat limit) (drop (Z.to_nat ((page - 1) * limit)) l) else l.

Definition ListWorkflows (db : WorkflowDB) (ord : list string) (o : ListWorkflowsOptions) (fail : db_fail) :
    result (list Workflow * Z) :=
  let found := rows_where (dbWorkflows db) ord (list_matches o) in
  try fail "SELECT count" (try fail "SELECT workflows"
    (Ok (page_of (loPage o) (loLimit o) (merge_sort (list_before o) found), Z.of_nat (length found)))).
End listing.

Definition GetActiveWorkflows (db : WorkflowDB) (ord : list string) (fail : db_fail) : result (list Workflow) :=
  try fail "SELECT workflows"
    (Ok (rows_where (dbWorkflows db) ord (λ w, wIsActive w && bool_decide (wDeletedAt w = None)))).

Definition CountWorkflowsByStatus (db : WorkflowDB) (ord : list string) (userID : string) (fail : db_fail) :
    result (gmap string Z) :=
  try fail "SELECT workflows"
    (Ok (foldl (λ m w, <[wStatus w := (default 0 (m !! wStatus w) + 1)%Z]> m) ∅
           (rows_where (dbWorkflows db) ord (λ w, bool_decide (wDeletedAt w = None) && or_any userID (wUserID w))))).

Definition newest_first (a b : Workflow) : Prop := (wUpdatedAt b ≤ wUpdatedAt a)%Z.
#[global] Instance newest_first_dec a b : Decision (newest_first a b).
Proof. unfold newest_first. apply _. Defined.

(** [Limit(n)] with a negative number is no limit. *)
Definition limit_to {A} (n : Z) (l : list A) : list A := if bool_decide (0 ≤ n)%Z then take (Z.to_nat n) l else l.

Definition GetRecentlyModified (db : WorkflowDB) (ord : list string) (userID : string) (limit : Z) (fail : db_fail) :
    result (list Workflow) :=
  try fail "SELECT workflows"
    (Ok (limit_to limit (merge_sort newest_first
           (rows_where (dbWorkflows db) ord (λ w, bool_decide (wDeletedAt w = None) && or_any userID (wUserID w)))))).

(** ** The version repository *)

Definition Versions_Create (db : WorkflowDB) (wv : WorkflowVersion) (fail : db_fail) : result WorkflowDB :=
  insert_version db wv fail.

Definition CreateFromWorkflow (db : WorkflowDB) (w : Workflow) (changeNote uuid : string) (now : Z) (fail : db_fail) :
    result WorkflowDB :=
  match encode w with
  | None => Err marshal_error
  | Some data =>
      Versions_Create db {| wvID := uuid; wvWorkflowID := wID w; wvVersion := wVersion w; wvData := data;
                            wvChangedBy := wUserID w; wvChangeNote := changeNote; wvCreatedAt := now |} fail
  end.

Definition Versions_Get := GetVersion.

Definition GetLatest (db : WorkflowDB) (ord : list string) (workflowID : string) (fail : db_fail) :
    result WorkflowVersion :=
  try fail "SELECT workflow_versions"
    match versions_desc db ord workflowID with
    | v :: _ => Ok v
    | [] => Err "no versions found for workflow"
    end.

Definition Versions_List (db : WorkflowDB) (ord : list string) (workflowID : string) (limit : Z) (fail : db_fail) :
    result (list WorkflowVersion) :=
  try fail "SELECT workflow_versions"
    (Ok (if bool_decide (0 < limit)%Z then limit_to limit (versions_desc db ord workflowID)
         else versions_desc db ord workflowID)).

(** [Restore] creates the version first and saves the workflow after it. *)
Definition Versions_Restore (db : WorkflowDB) (ord : list string) (workflowID : string) (versionToRestore : Z)
    (userID uuid : string) (now : Z) (fail : db_fail) : result WorkflowDB :=
  try fail "SELECT workflow_versions"
    match find_version db ord workflowID versionToRestore with
    | None => Err record_not_found
    | Some wv =>
        match decode (wvData wv) with
        | None => Err unmarshal_error
        | Some restored =>
            try fail "SELECT MAX(version)"
              match max_version db workflowID with
              | Err e => Err e
              | Ok latestVersion =>
                  match insert_version db
                          {| wvID := uuid; wvWorkflowID := workflowID; wvVersion := latestVersion + 1;
                             wvData := wvData wv; wvChangedBy := userID;
                             wvChangeNote := "Restored from version " +:+ pretty versionToRestore;
                             wvCreatedAt := now |} fail with
                  | Err e => Err e
                  | Ok db' =>
                      let restored := set_version restored (latestVersion + 1) now in
                      try fail "UPDATE workflows"
                        (Ok (put_workflows db' (<[wID restored := restored]> (dbWorkflows db'))))
                  end
              end
        end
    end.

(** Two statements, without a transaction around them. *)
Definition DeleteOldVersions (db : WorkflowDB) (ord : list string) (workflowID : string) (keepLast olderThan : Z)
    (fail : db_fail) : result WorkflowDB :=
  try fail "SELECT workflow_versions"
    (let versionsToKeep := wvVersion <$> limit_to keepLast (versions_desc db ord workflowID) in
     try fail "DELETE workflow_versions"
       (Ok (put_versions db
              (filter (λ p : string * WorkflowVersion,
                         ¬ (is_version_of workflowID p.2 = true ∧ (wvCreatedAt p.2 < olderThan)%Z
                            ∧ (versionsToKeep = [] ∨ wvVersion p.2 ∉ versionsToKeep))) (dbVersions db))))).

Definition GetVersionCount (db : WorkflowDB) (ord : list string) (workflowID : string) (fail : db_fail) : result Z :=
  try fail "SELECT count" (Ok (Z.of_nat (length (rows_where (dbVersions db) ord (is_version_of workflowID))))).

(** *** Comparing two versions *)

Record VersionComparison := {
  vcVersion1 : Z;
  vcVersion2 : Z;
  vcChangedBy1 : string;
  vcChangedBy2 : string;
  vcCreatedAt1 : Z;
  vcCreatedAt2 : Z;
  vcChangeNote1 : string;
  vcChangeNote2 : string;
  vcNameChanged : bool;
  vcOldName : string;
  vcNewName : string;
  vcDescriptionChanged : bool;
  vcOldDescription : string;
  vcNewDescription : string;
  vcNodesAdded : nat;
  vcNodesRemoved : nat;
  vcNodesModified : nat;
  vcConnectionsAdded : nat;
  vcConnectionsRemoved : nat
}.

(** The set of IDs and the count of the elements that are not in it. *)
Definition id_set (ids : list string) : gset string := foldl (λ m id, {[id]} ∪ m) ∅ ids.
Definition count_not_in (m : gset string) (ids : list string) : nat :=
  foldl (λ count id, if bool_decide (id ∈ m) then count else S count) 0 ids.

Definition countAddedNodes (old new : list Node) : nat := count_not_in (id_set (nID <$> old)) (nID <$> new).
Definition countRemovedNodes (old new : list Node) : nat := count_not_in (id_set (nID <$> new)) (nID <$> old).

Definition node_modified (a b : Node) : bool :=
  negb (bool_decide (nName a = nName b)) || negb (bool_decide (nType a = nType b))
  || negb (eqb (nDisabled a) (nDisabled b)) || negb (bool_decide (nRetryCount a = nRetryCount b))
  || negb (bool_decide (nTimeout a = nTimeout b)).

Definition countModifiedNodes (old new : list Node) : nat :=
  let oldMap := node_map old in
  foldl (λ count n, match oldMap !! nID n with
                    | Some o => if node_modified o n then S count else count
                    | None => count
                    end) 0 new.

Definition countAddedConnections (old new : list Connection) : nat :=
  count_not_in (id_set (cID <$> old)) (cID <$> new).
Definition countRemovedConnections (old new : list Connection) : nat :=
  count_not_in (id_set (cID <$> new)) (cID <$> old).

Definition changed (a b s : string) : string := if bool_decide (a = b) then "" else s.

Definition compare_versions (n1 n2 : Z) (v1 v2 : WorkflowVersion) (w1 w2 : Workflow) : VersionComparison :=
  {| vcVersion1 := n1; vcVersion2 := n2; vcChangedBy1 := wvChangedBy v1; vcChangedBy2 := wvChangedBy v2;
     vcCreatedAt1 := wvCreatedAt v1; vcCreatedAt2 := wvCreatedAt v2; vcChangeNote1 := wvChangeNote v1;
     vcChangeNote2 := wvChangeNote v2;
     vcNameChanged := negb (bool_decide (wName w1 = wName w2));
     vcOldName := changed (wName w1) (wName w2) (wName w1); vcNewName := changed (wName w1) (wName w2) (wName w2);
     vcDescriptionChanged := negb (bool_decide (wDescription w1 = wDescription w2));
     vcOldDescription := changed (wDescription w1) (wDescription w2) (wDescription w1);
     vcNewDescription := changed (wDescription w1) (wDescription w2) (wDescription w2);
     vcNodesAdded := countAddedNodes (wNodes w1) (wNodes w2);
     vcNodesRemoved := countRemovedNodes (wNodes w1) (wNodes w2);
     vcNodesModified := countModifiedNodes (wNodes w1) (wNodes w2);
     vcConnectionsAdded := countAddedConnections (wConnections w1) (wConnections w2);
     vcConnectionsRemoved := countRemovedConnections (wConnections w1) (wConnections w2) |}.

Definition Compare (db : WorkflowDB) (ord1 ord2 : list string) (workflowID : string) (version1 version2 : Z)
    (fail1 fail2 : db_fail) : result VersionComparison :=
  match Versions_Get db ord1 workflowID version1 fail1 with
  | Err e => Err e
  | Ok v1 =>
      match Versions_Get db ord2 workflowID version2 fail2 with
      | Err e => Err e
      | Ok v2 =>
          match decode (wvData v1), decode (wvData v2) with
          | Some w1, Some w2 => Ok (compare_versions version1 version2 v1 v2 w1 w2)
          | _, _ => Err unmarshal_error
          end
      end
  end.

(** ** Permissions and categories *)

Definition has_column (k s : string) (row : vmap) : bool := bool_decide (get_string row k = Some s).

Definition ListWorkflowPermissions (db : WorkflowDB) (workflowID : string) (fail : db_fail) : result (list vmap) :=
  try fail "SELECT permissions" (Ok (filter (λ p, has_column "workflow_id" workflowID p = true) (dbPermissions db))).

Definition CreateWorkflowPermission (db : WorkflowDB) (permission : vmap) (fail : db_fail) : result WorkflowDB :=
  try fail "INSERT permissions" (Ok (put_permissions db (dbPermissions db ++ [permission]))).

Definition DeleteWorkflowPermission (db : WorkflowDB) (workflowID userID : string) (fail : db_fail) :
    result (Z * WorkflowDB) :=
  try fail "DELETE permissions"
    (let gone p := has_column "workflow_id" workflowID p && has_column "user_id" userID p in
     Ok (Z.of_nat (length (filter (λ p, gone p = true) (dbPermissions db))),
         put_permissions db (filter (λ p, gone p = false) (dbPermissions db)))).

Definition CreateCategory (db : WorkflowDB) (category : vmap) (fail : db_fail) : result WorkflowDB :=
  try fail "INSERT categories" (Ok (put_categories db (dbCategories db ++ [category]))).

(** ** Variables *)

(** [Save]: the row of the workflow and the key is written or created. *)
Definition SaveWorkflowVariable (db : WorkflowDB) (v : WorkflowVariable) (fail : db_fail) : result WorkflowDB :=
  try fail "UPSERT variables" (Ok (put_variables db (<[(varWorkflowID v, varKey v) := v]> (dbVariables db)))).

Definition Repo_GetWorkflowVariable (db : WorkflowDB) (workflowID key : string) (fail : db_fail) :
    result WorkflowVariable :=
  try fail "SELECT variables"
    match dbVariables db !! (workflowID, key) with Some v => Ok v | None => Err record_not_found end.

(** [ord] is the order of the rows. *)
Definition Repo_ListWorkflowVariables (db : WorkflowDB) (ord : list (string * string)) (workflowID : string)
    (fail : db_fail) : result (list WorkflowVariable) :=
  try fail "SELECT variables"
    (Ok (omap (λ k, if bool_decide (k.1 = workflowID) then dbVariables db !! k else None) ord)).

Definition Repo_DeleteWorkflowVariable (db : WorkflowDB) (workflowID key : string) (fail : db_fail) :
    result (Z * WorkflowDB) :=
  try fail "DELETE variables"
    (Ok (match dbVariables db !! (workflowID, key) with Some _ => 1%Z | None => 0%Z end,
         put_variables db (delete (workflowID, key) (dbVariables db)))).

(** ** Environments *)

Definition is_env_of (workflowID : string) (e : Environment) : bool := bool_decide (envWorkflowID e = workflowID).

Definition CountEnvironments (db : WorkflowDB) (ord : list string) (workflowID : string) (fail : db_fail) : result Z :=
  try fail "SELECT count" (Ok (Z.of_nat (length (rows_where (dbEnvironments db) ord (is_env_of workflowID))))).

Definition Repo_CreateEnvironment (db : WorkflowDB) (env : Environment) (fail : db_fail) : result WorkflowDB :=
  try fail "INSERT environments"
    match dbEnvironments db !! envID env with
    | Some _ => Err duplicate_key
    | None => Ok (put_environments db (<[envID env := env]> (dbEnvironments db)))
    end.

Definition Repo_GetEnvironment (db : WorkflowDB) (workflowID id : string) (fail : db_fail) : result Environment :=
  try fail "SELECT environments"
    match dbEnvironments db !! id with
    | Some e => if is_env_of workflowID e then Ok e else Err record_not_found
    | None => Err record_not_found
    end.

Definition Repo_ListEnvironments (db : WorkflowDB) (ord : list string) (workflowID : string) (fail : db_fail) :
    result (list Environment) :=
  try fail "SELECT environments" (Ok (rows_where (dbEnvironments db) ord (is_env_of workflowID))).

Definition set_env (e : Environment) (id workflowID name description : string) (vars : vmap) (dflt : bool)
    (updated : string) : Environment :=
  {| envID := id; envWorkflowID := workflowID; envName := name; envDescription := description;
     envVariables := vars; envIsDefault := dflt; envCreatedAt := envCreatedAt e; envUpdatedAt := updated |}.
Definition set_default (b : bool) (e : Environment) : Environment :=
  set_env e (envID e) (envWorkflowID e) (envName e) (envDescription e) (envVariables e) b (envUpdatedAt e).

(** One column of [Updates(map)]; the database refuses a column it does not
    have and a value of the wrong type. *)
Definition update_column (kv : string * value) (e : option Environment) : option Environment :=
  e ← e;
  let '(id, wf, name, desc) := (envID e, envWorkflowID e, envName e, envDescription e) in
  let '(vars, dflt, upd) := (envVariables e, envIsDefault e, envUpdatedAt e) in
  match kv with
  | ("id", VStr s) => Some (set_env e s wf name desc vars dflt upd)
  | ("workflow_id", VStr s) => Some (set_env e id s name desc vars dflt upd)
  | ("name", VStr s) => Some (set_env e id wf s desc vars dflt upd)
  | ("description", VStr s) => Some (set_env e id wf name s vars dflt upd)
  | ("variables", VObj m) => Some (set_env e id wf name desc (list_to_map m) dflt upd)
  | ("is_default", VBool b) => Some (set_env e id wf name desc vars b upd)
  | ("updated_at", VStr s) => Some (set_env e id wf name desc vars dflt s)
  | _ => None
  end.

(** [stamp] is the formatted time. *)
Definition Repo_UpdateEnvironment (db : WorkflowDB) (workflowID id : string) (updates : vmap) (stamp : string)
    (fail : db_fail) : result (Z * WorkflowDB) :=
  let updates := <["updated_at" := VStr stamp]> updates in
  try fail "UPDATE environments"
    match dbEnvironments db !! id with
    | Some e =>
        if is_env_of workflowID e then
          match foldr update_column (Some e) (map_to_list updates) with
          | Some e' =>
              match delete id (dbEnvironments db) !! envID e' with
              | Some _ => Err duplicate_key
              | None => Ok (1%Z, put_environments db (<[envID e' := e']> (delete id (dbEnvironments db))))
              end
          | None => Err "invalid update"
          end
        else Ok (0%Z, db)
    | None => Ok (0%Z, db)
    end.

Definition Repo_DeleteEnvironment (db : WorkflowDB) (env : Environment) (fail : db_fail) : result WorkflowDB :=
  try fail "DELETE environments" (Ok (put_environments db (delete (envID env) (dbEnvironments db)))).

(** All environments of the workflow lose the flag, then the one gets it. *)
Definition Repo_SetDefaultEnvironment (db : WorkflowDB) (workflowID id : string) (fail : db_fail) :
    result (Z * WorkflowDB) :=
  try fail "UPDATE environments"
    (let cleared := (λ e, if is_env_of workflowID e then set_default false e else e) <$> dbEnvironments db in
     try fail "UPDATE default environment"
       match cleared !! id with
       | Some e => if is_env_of workflowID e
                   then Ok (1%Z, put_environments db (<[id := set_default true e]> cleared))
                   else Ok (0%Z, put_environments db cleared)
       | None => Ok (0%Z, put_environments db cleared)
       end).

(** ** Specification: histories

    The history of a workflow is the list of the contents it was saved with,
    oldest first: everything but the version number and the time of update. *)

Definition content (w : Workflow) : Workflow := set_version w 0 0.
Abbreviation hist := (gmap string (list Workflow)).

(** [valid]: contents that survive their JSON. *)
Context (valid : Workflow → Prop).
Context (json_ok : ∀ w s, valid (content w) → encode w = Some s → ∃ w', decode s = Some w' ∧ content w' = content w).

(** A step of the repository, with what it does to the histories.  Workflows
    are created with the version 1, as [NewWorkflow], [Clone] and the imports
    give them. *)
Inductive vstep : WorkflowDB * hist → WorkflowDB * hist → Prop :=
| vs_create db h w uuid now fail w' db' :
    valid (content w') → wVersion w' = 1%Z → CreateWithVersion db w uuid now fail = Ok (w', db') →
    vstep (db, h) (db', <[wID w := [content w']]> h)
| vs_update db h w note uuid now fail w' db' :
    valid (content w) → UpdateWithVersion db w note uuid now fail = Ok (w', db') →
    vstep (db, h) (db', <[wID w := get_slice h (wID w) ++ [content w]]> h)
| vs_restore db h ord id k user uuid now fail db' c :
    range_order (dbVersions db) ord → RestoreVersion db ord id k user uuid now fail = Ok db' →
    get_slice h id !! Z.to_nat (k - 1) = Some c →
    vstep (db, h) (db', <[id := get_slice h id ++ [c]]> h)
| vs_restore2 db h ord id k user uuid now fail db' c :
    range_order (dbVersions db) ord → Versions_Restore db ord id k user uuid now fail = Ok db' →
    get_slice h id !! Z.to_nat (k - 1) = Some c →
    vstep (db, h) (db', <[id := get_slice h id ++ [c]]> h)
| vs_delete db h id user now fail db' :
    DeleteWorkflow db id user now fail = Ok db' → vstep (db, h) (db', h)
| vs_other db h db' :
    dbWorkflows db' = dbWorkflows db → dbVersions db' = dbVersions db → vstep (db, h) (db', h).

(** The tables hold the histories. *)
Record holds (db : WorkflowDB) (h : hist) : Prop := {
  ho_rows id : is_Some (h !! id) ↔ is_Some (dbWorkflows db !! id);
  ho_row id w l : dbWorkflows db !! id = Some w → h !! id = Some l →
    wID w = id ∧ wVersion w = Z.of_nat (length l) ∧ (last l = Some (content w) ∨ wDeletedAt w ≠ None);
  ho_full id l : h !! id = Some l → l ≠ [] ∧ Forall (λ c, wID c = id ∧ valid c) l;
  ho_version vid v : dbVersions db !! vid = Some v →
    wvID v = vid ∧ (1 ≤ wvVersion v)%Z ∧ ∃ l w, h !! wvWorkflowID v = Some l ∧ decode (wvData v) = Some w
      ∧ l !! Z.to_nat (wvVersion v - 1) = Some (content w);
  ho_all id l k : h !! id = Some l → k < length l →
    ∃ vid v, dbVersions db !! vid = Some v ∧ wvWorkflowID v = id ∧ wvVersion v = Z.of_nat (S k);
  ho_unique i j v v' : dbVersions db !! i = Some v → dbVersions db !! j = Some v' →
    wvWorkflowID v = wvWorkflowID v' → wvVersion v = wvVersion v' → i = j
}.

(** ** Lemmas *)

Lemma try_ok {A} fail stmt (k : result A) a : try fail stmt k = Ok a → k = Ok a.
Proof. unfold try. by destruct (fail stmt). Qed.

Lemma content_set_version w v t : content (set_version w v t) = content w.
Proof. done. Qed.

Lemma rows_where_elem {A} (tbl : gmap string A) ord cond r :
  r ∈ rows_where tbl ord cond ↔ ∃ id, id ∈ ord ∧ tbl !! id = Some r ∧ cond r = true.
Proof.
  unfold rows_where. rewrite list_elem_of_omap. split; intros (id & Hid & H); exists id; (split; [done|]).
  - destruct (tbl !! id) as [r'|]; [|done]. destruct (cond r') eqn:E; naive_solver.
  - destruct H as [-> ->]. done.
Qed.

(** With the order of the whole table, those are all rows of the condition. *)
Lemma rows_where_all {A} (tbl : gmap string A) ord cond r :
  range_order tbl ord → r ∈ rows_where tbl ord cond ↔ ∃ id, tbl !! id = Some r ∧ cond r = true.
Proof.
  intros [_ Ho]. rewrite rows_where_elem. split; [naive_solver|]. intros (id & H & Hc). exists id. rewrite Ho. eauto.
Qed.

Lemma fold_max x l m : m ∈ x :: l → Forall (λ y, y ≤ m)%Z (x :: l) → foldr Z.max x l = m.
Proof.
  intros Hm [Hx Hl]%Forall_cons. apply Z.le_antisymm.
  - clear Hm. induction Hl; simpl; lia.
  - clear Hx Hl. rewrite elem_of_cons in Hm. induction l as [|y l IH]; simpl.
    + destruct Hm as [->|Hm]; [done|by apply elem_of_nil in Hm].
    + rewrite elem_of_cons in Hm. destruct Hm as [->|[->|Hm]]; [|lia|].
      * specialize (IH (or_introl eq_refl)). lia.
      * specialize (IH (or_intror Hm)). lia.
Qed.

Lemma StronglySorted_fmap {A B} (f : A → B) (R1 : relation A) (R2 : relation B) l :
  (∀ x y, R1 x y → R2 (f x) (f y)) → StronglySorted R1 l → StronglySorted R2 (f <$> l).
Proof.
  intros HR. induction 1 as [|x l Hs IH Hx]; simpl; constructor; [done|]. apply Forall_fmap.
  eapply Forall_impl; [apply Hx|]. intros y. apply HR.
Qed.

Lemma seq_descending n : StronglySorted (λ a b, b ≤ a)%Z (reverse (Z.of_nat <$> seq 1 n)).
Proof.
  induction n as [|n IH]; [constructor|]. rewrite seq_S, fmap_app, reverse_app. simpl. constructor; [done|].
  apply Forall_forall. intros z. rewrite elem_of_reverse, list_elem_of_fmap. setoid_rewrite elem_of_seq. intros (k & -> & ?). lia.
Qed.

(** Rows told apart by a number give distinct numbers. *)
Lemma rows_versions_nodup (tbl : gmap string WorkflowVersion) ord cond :
  NoDup ord → (∀ i j v v', tbl !! i = Some v → tbl !! j = Some v' → cond v = true → cond v' = true →
    wvVersion v = wvVersion v' → i = j) →
  NoDup (wvVersion <$> rows_where tbl ord cond).
Proof.
  intros Hn Hu. unfold rows_where. induction Hn as [|id ord Hid Hn IH]; simpl; [constructor|].
  destruct (tbl !! id) as [v|] eqn:Ev; [|done]. destruct (cond v) eqn:Ec; [|done]. simpl. constructor; [|done].
  rewrite list_elem_of_fmap. intros (v' & E & (j & Hj & Hv')%list_elem_of_omap).
  destruct (tbl !! j) as [v''|] eqn:Ej; [|done]. destruct (cond v'') eqn:Ec'; simplify_eq.
  assert (id = j) as -> by eauto. done.
Qed.

(** The versions of a workflow are numbered from one, without gaps. *)
Lemma holds_bounds db h vid v l :
  holds db h → dbVersions db !! vid = Some v → h !! wvWorkflowID v = Some l →
  (1 ≤ wvVersion v ≤ Z.of_nat (length l))%Z.
Proof.
  intros H Hv Hl. destruct (ho_version _ _ H _ _ Hv) as (_ & H1 & l' & w & Hl' & _ & E). simplify_eq.
  apply lookup_lt_Some in E. lia.
Qed.

Lemma max_version_max db id m :
  (∃ vid v, dbVersions db !! vid = Some v ∧ wvWorkflowID v = id ∧ wvVersion v = m) →
  (∀ vid v, dbVersions db !! vid = Some v → wvWorkflowID v = id → (wvVersion v ≤ m)%Z) → max_version db id = Ok m.
Proof.
  intros Hm Hall. unfold max_version. set (L := omap _ _).
  assert (∀ z, z ∈ L ↔ ∃ vid v, dbVersions db !! vid = Some v ∧ wvWorkflowID v = id ∧ wvVersion v = z) as HL.
  { intros z. unfold L. rewrite list_elem_of_omap. split.
    - intros ([vid v] & Hv%elem_of_map_to_list & Hz). simpl in Hz. unfold is_version_of in Hz.
      case_bool_decide; [|done]. simplify_eq. eauto.
    - intros (vid & v & Hv & Hid & Hz). exists (vid, v). rewrite elem_of_map_to_list. split; [done|].
      simpl. unfold is_version_of. rewrite bool_decide_true by done. by rewrite Hz. }
  apply HL in Hm. destruct L as [|x L'] eqn:EL; [by apply elem_of_nil in Hm|]. f_equal. apply fold_max; [done|].
  apply Forall_forall. intros z Hz. apply HL in Hz as (vid & v & Hv & Hid & <-). eauto.
Qed.

Lemma max_version_correct db h id l :
  holds db h → h !! id = Some l → max_version db id = Ok (Z.of_nat (length l)).
Proof.
  intros H Hl. apply max_version_max.
  - destruct (ho_full _ _ H _ _ Hl) as [Hne _]. destruct l as [|c l]; [done|].
    apply (ho_all _ _ H id (c :: l) (length l) Hl). simpl. lia.
  - intros vid v Hv Hid. eapply holds_bounds; [done..|]. by rewrite Hid.
Qed.

Lemma max_version_known db h id z : holds db h → max_version db id = Ok z → is_Some (h !! id).
Proof.
  intros H. unfold max_version. destruct (omap _ _) as [|x L] eqn:E; [done|]. intros _.
  assert (x ∈ x :: L) as Hx by set_solver. rewrite <- E, list_elem_of_omap in Hx.
  destruct Hx as ([vid v] & Hv%elem_of_map_to_list & Hz). simpl in Hz. unfold is_version_of in Hz.
  case_bool_decide; [|done]. destruct (ho_version _ _ H _ _ Hv) as (_ & _ & l & w & Hl & _). subst. eauto.
Qed.

Lemma find_version_correct db h ord id k v :
  holds db h → range_order (dbVersions db) ord →
  find_version db ord id k = Some v ↔ ∃ vid, dbVersions db !! vid = Some v ∧ wvWorkflowID v = id ∧ wvVersion v = k.
Proof.
  intros H Ho. unfold find_version. set (L := rows_where _ _ _).
  assert (∀ r, r ∈ L ↔ ∃ vid, dbVersions db !! vid = Some r ∧ wvWorkflowID r = id ∧ wvVersion r = k) as HL.
  { intros r. unfold L. rewrite rows_where_all by done. unfold is_version_of.
    setoid_rewrite andb_true_iff. by setoid_rewrite bool_decide_eq_true. }
  split.
  - intros E. apply HL. destruct L; [done|]. simpl in E. simplify_eq. set_solver.
  - intros Hv. pose proof (proj2 (HL v) Hv) as Hin. destruct L as [|r L'] eqn:EL; [by apply elem_of_nil in Hin|].
    simpl. f_equal. assert (r ∈ r :: L') as (j & Hj & Hid & Hk)%HL by set_solver. destruct Hv as (i & Hi & Hid' & Hk').
    assert (i = j) as -> by (eapply ho_unique; [done..|congruence|congruence]). congruence.
Qed.

(** Saving: a row and a version are added to the end of the history, which is
    empty for a new workflow. *)
Section append.
Context (db : WorkflowDB) (h : hist) (id : string) (l : list Workflow) (c w w' : Workflow) (v : WorkflowVersion).
Context (H : holds db h) (Hl : get_slice h id = l) (Hc : content w = c) (Hid : wID w = id) (Hvalid : valid c)
  (Hver : wVersion w = (Z.of_nat (length l) + 1)%Z) (Hfresh : dbVersions db !! wvID v = None)
  (Hvid : wvWorkflowID v = id) (Hvver : wvVersion v = (Z.of_nat (length l) + 1)%Z)
  (Hdec : decode (wvData v) = Some w') (Hc' : content w' = c).

Lemma slice_some l0 : h !! id = Some l0 → l0 = l.
Proof. unfold get_slice in Hl. intros E. by rewrite E in Hl. Qed.

Lemma append_version vid v0 :
  <[wvID v := v]> (dbVersions db) !! vid = Some v0 →
  wvID v0 = vid ∧ (1 ≤ wvVersion v0)%Z ∧ ∃ l' w0, <[id := l ++ [c]]> h !! wvWorkflowID v0 = Some l'
    ∧ decode (wvData v0) = Some w0 ∧ l' !! Z.to_nat (wvVersion v0 - 1) = Some (content w0).
Proof.
  destruct (decide (wvID v = vid)) as [<-|Hn]; [rewrite lookup_insert_eq|rewrite lookup_insert_ne by done].
  - intros [= <-]. split_and!; [done|lia|]. exists (l ++ [c]), w'. rewrite Hvid, lookup_insert_eq. split_and!; [done..|].
    rewrite Hvver, Hc'. replace (Z.to_nat _) with (length l) by lia. by rewrite list_lookup_middle.
  - intros Hv. destruct (ho_version _ _ H _ _ Hv) as (? & ? & l0 & w0 & Hl0 & ? & Hk). split_and!; [done..|].
    destruct (decide (id = wvWorkflowID v0)) as [E|E]; [|exists l0, w0; by rewrite lookup_insert_ne].
    rewrite <- E in Hl0 |- *. apply slice_some in Hl0 as ->. exists (l ++ [c]), w0. rewrite lookup_insert_eq.
    split_and!; [done..|]. by apply lookup_app_l_Some.
Qed.

Lemma append_all id' l0 k :
  <[id := l ++ [c]]> h !! id' = Some l0 → k < length l0 →
  ∃ vid v0, <[wvID v := v]> (dbVersions db) !! vid = Some v0 ∧ wvWorkflowID v0 = id' ∧ wvVersion v0 = Z.of_nat (S k).
Proof.
  assert (∀ id' l0, h !! id' = Some l0 → k < length l0 →
    ∃ vid v0, <[wvID v := v]> (dbVersions db) !! vid = Some v0 ∧ wvWorkflowID v0 = id' ∧ wvVersion v0 = Z.of_nat (S k)) as Hold.
  { intros i li Hli Hk. destruct (ho_all _ _ H _ _ k Hli Hk) as (vid & v0 & Hv0 & ? & ?). exists vid, v0.
    rewrite lookup_insert_ne by (intros E; congruence). done. }
  destruct (decide (id = id')) as [<-|Hn]; [rewrite lookup_insert_eq|rewrite lookup_insert_ne by done; apply Hold].
  intros [= <-]. rewrite length_app. simpl. intros Hk. destruct (decide (k = length l)) as [->|Hne].
  - exists (wvID v), v. rewrite lookup_insert_eq. split_and!; [done..|lia].
  - destruct (h !! id) as [l1|] eqn:E; [|unfold get_slice in Hl; rewrite E in Hl; simpl in Hl; subst l; simpl in *; lia].
    pose proof (slice_some _ E) as ->. apply (Hold id l E). lia.
Qed.

Lemma append_fresh vid v0 :
  dbVersions db !! vid = Some v0 → wvWorkflowID v0 = id → wvVersion v0 ≠ wvVersion v.
Proof.
  intros Hv Hw. destruct (ho_version _ _ H _ _ Hv) as (_ & _ & l0 & _ & Hl0 & _).
  pose proof (holds_bounds _ _ _ _ _ H Hv Hl0). rewrite Hw in Hl0. apply slice_some in Hl0 as ->. lia.
Qed.

Lemma holds_append :
  holds (put_versions (put_workflows db (<[id := w]> (dbWorkflows db))) (<[wvID v := v]> (dbVersions db)))
        (<[id := l ++ [c]]> h).
Proof.
  split; simpl; [| | |apply append_version|apply append_all|].
  - intros id'. rewrite !lookup_insert_is_Some', (ho_rows _ _ H). done.
  - intros id' w0 l0. destruct (decide (id = id')) as [<-|Hn]; [rewrite !lookup_insert_eq|rewrite !lookup_insert_ne by done].
    + intros [= <-] [= <-]. rewrite length_app, last_snoc, Hc. simpl. split_and!; [done|lia|by left].
    + apply (ho_row _ _ H).
  - intros id' l0. destruct (decide (id = id')) as [<-|Hn]; [rewrite lookup_insert_eq|rewrite lookup_insert_ne by done].
    + intros [= <-]. split; [by destruct l|]. apply Forall_app. rewrite Forall_singleton. split; [|split; [by rewrite <- Hc|done]].
      destruct (h !! id) as [l1|] eqn:E; [by rewrite <- (slice_some _ E); apply (ho_full _ _ H)|].
      unfold get_slice in Hl. rewrite E in Hl. simpl in Hl. by subst l.
    + apply (ho_full _ _ H).
  - intros i j v1 v2. rewrite !lookup_insert_Some. intros [[<- <-]|[Hi H1]] [[<- <-]|[Hj H2]] E1 E2; [done| | |].
    + destruct (append_fresh _ _ H2); congruence.
    + destruct (append_fresh _ _ H1); congruence.
    + by eapply (ho_unique _ _ H).
Qed.
End append.

Lemma insert_version_ok db v fail db' :
  insert_version db v fail = Ok db' → dbVersions db !! wvID v = None ∧ db' = put_versions db (<[wvID v := v]> (dbVersions db)).
Proof. unfold insert_version. intros E%try_ok. destruct (dbVersions db !! wvID v); naive_solver. Qed.

Lemma create_holds db h w uuid now fail w' db' :
  holds db h → CreateWithVersion db w uuid now fail = Ok (w', db') → valid (content w') → wVersion w' = 1%Z →
  holds db' (<[wID w := [content w']]> h).
Proof.
  intros H E Hv Hver. unfold CreateWithVersion in E. apply try_ok in E.
  destruct (dbWorkflows db !! wID w) eqn:Ew; [done|]. destruct (encode _) as [data|] eqn:Ed; [|done].
  destruct (insert_version _ _ _) as [db1|] eqn:Ei; [|done]. apply insert_version_ok in Ei as [Hf ->]. simplify_eq.
  destruct (json_ok _ _ Hv Ed) as (w1 & Hd & Hc).
  assert (h !! wID w = None) as Hn.
  { rewrite eq_None_not_Some, (ho_rows _ _ H), Ew. apply is_Some_None. }
  change [content ?x] with ([] ++ [content x]).
  eapply (holds_append db h _ [] _ _ w1); [done| |done|done|done|done|done|done|done|done|done].
  unfold get_slice. by rewrite Hn.
Qed.

Lemma update_holds db h w note uuid now fail w' db' :
  holds db h → UpdateWithVersion db w note uuid now fail = Ok (w', db') → valid (content w) →
  holds db' (<[wID w := get_slice h (wID w) ++ [content w]]> h)
  ∧ w' = set_version w (Z.of_nat (length (get_slice h (wID w))) + 1) now ∧ dbWorkflows db' !! wID w = Some w'.
Proof.
  intros H E Hv. unfold UpdateWithVersion in E. apply try_ok in E.
  destruct (max_version _ _) as [z|] eqn:Em; [|done]. apply try_ok in E.
  destruct (encode _) as [data|] eqn:Ed; [|done].
  destruct (insert_version _ _ _) as [db1|] eqn:Ei; [|done]. apply insert_version_ok in Ei as [Hf ->]. simplify_eq.
  destruct (json_ok _ _ (Hv : valid (content (set_version w (z + 1) now))) Ed) as (w1 & Hd & Hc).
  destruct (max_version_known _ _ _ _ H Em) as [l Hl]. rewrite (max_version_correct _ _ _ _ H Hl) in Em. injection Em as <-.
  assert (get_slice h (wID w) = l) as Hs by (unfold get_slice; by rewrite Hl).
  split; [|by rewrite Hs; simpl; rewrite lookup_insert_eq].
  eapply (holds_append db h _ _ _ _ w1); [done|done|done|done|done|by rewrite Hs|done|done|by rewrite Hs|done|done].
Qed.

(** Both ways to restore a version find it in the history. *)
Lemma find_restored db h ord id k wv w z :
  holds db h → range_order (dbVersions db) ord → find_version db ord id k = Some wv → decode (wvData wv) = Some w →
  max_version db id = Ok z →
  let l := get_slice h id in
  z = Z.of_nat (length l) ∧ l !! Z.to_nat (k - 1) = Some (content w) ∧ wID w = id ∧ valid (content w).
Proof.
  intros H Ho Hf Hd Hm. apply (find_version_correct _ _ _ _ _ _ H Ho) in Hf as (vid & Hv & <- & <-).
  destruct (ho_version _ _ H _ _ Hv) as (_ & _ & l & w0 & Hl & Hd' & Hk).
  assert (w0 = w) as -> by congruence. rewrite (max_version_correct _ _ _ _ H Hl) in Hm. injection Hm as <-.
  unfold get_slice. rewrite Hl. simpl. destruct (ho_full _ _ H _ _ Hl) as [_ Hall].
  rewrite Forall_lookup in Hall. destruct (Hall _ _ Hk). done.
Qed.

Lemma restore_holds db h ord id k user uuid now fail db' :
  holds db h → range_order (dbVersions db) ord → RestoreVersion db ord id k user uuid now fail = Ok db' →
  let l := get_slice h id in
  ∃ c w, l !! Z.to_nat (k - 1) = Some c ∧ holds db' (<[id := l ++ [c]]> h)
    ∧ dbWorkflows db' !! id = Some w ∧ content w = c ∧ wVersion w = (Z.of_nat (length l) + 1)%Z.
Proof.
  intros H Ho E l. unfold RestoreVersion in E. apply try_ok in E.
  destruct (find_version _ _ _ _) as [wv|] eqn:Ef; [|done]. destruct (decode _) as [w|] eqn:Ed; [|done].
  apply try_ok in E. destruct (max_version _ _) as [z|] eqn:Em; [|done]. apply try_ok in E.
  destruct (find_restored _ _ _ _ _ _ _ _ H Ho Ef Ed Em) as (-> & Hk & Hid & Hv).
  apply insert_version_ok in E as [Hf ->]. simpl in Hf. exists (content w), (set_version w (Z.of_nat (length l) + 1) now).
  split_and!; [done| |simpl; by rewrite Hid, lookup_insert_eq|done|done]. simpl. rewrite Hid.
  eapply (holds_append db h id l _ _ w); done.
Qed.

Lemma restore2_holds db h ord id k user uuid now fail db' :
  holds db h → range_order (dbVersions db) ord → Versions_Restore db ord id k user uuid now fail = Ok db' →
  let l := get_slice h id in
  ∃ c, l !! Z.to_nat (k - 1) = Some c ∧ holds db' (<[id := l ++ [c]]> h).
Proof.
  intros H Ho E l. unfold Versions_Restore in E. apply try_ok in E.
  destruct (find_version _ _ _ _) as [wv|] eqn:Ef; [|done]. destruct (decode _) as [w|] eqn:Ed; [|done].
  apply try_ok in E. destruct (max_version _ _) as [z|] eqn:Em; [|done].
  destruct (find_restored _ _ _ _ _ _ _ _ H Ho Ef Ed Em) as (-> & Hk & Hid & Hv).
  destruct (insert_version _ _ _) as [db1|] eqn:Ei; [|done]. apply insert_version_ok in Ei as [Hf ->]. apply try_ok in E.
  injection E as <-. simpl in *. exists (content w). split; [done|]. rewrite Hid.
  set (v := Build_WorkflowVersion _ _ _ _ _ _ _) in *.
  apply (holds_append db h id l _ (set_version w (Z.of_nat (length l) + 1) now) w v); done.
Qed.

Lemma delete_holds db h id user now fail db' :
  holds db h → DeleteWorkflow db id user now fail = Ok db' → holds db' h.
Proof.
  intros H E. unfold DeleteWorkflow in E. apply try_ok in E.
  destruct (dbWorkflows db !! id) as [w|] eqn:Ew; [|by simplify_eq]. case_bool_decide; simplify_eq; [|done].
  destruct H as [H1 H2 H3 H4 H5 H6]. split; simpl; [| |done..].
  - intros id'. rewrite H1, lookup_insert_is_Some'. split; [by right|]. intros [<-|?]; [by rewrite Ew|done].
  - intros id' w0 l. destruct (decide (id = id')) as [<-|Hn]; [rewrite lookup_insert_eq|rewrite lookup_insert_ne by done; apply H2].
    intros [= <-] Hl. destruct (H2 _ _ _ Ew Hl) as (? & ? & ?). simpl. split_and!; [done..|by right].
Qed.

Lemma vstep_holds s s' : vstep s s' → holds s.1 s.2 → holds s'.1 s'.2.
Proof.
  intros Hs Hold. destruct Hs as [| |db h ord id k user uuid now fail db' c Ho E Hc
    |db h ord id k user uuid now fail db' c Ho E Hc| |db h db' Hw Hv]; simpl in *.
  - by eapply create_holds.
  - by eapply update_holds.
  - destruct (restore_holds _ _ _ _ _ _ _ _ _ _ Hold Ho E) as (c' & w & Hc' & Hh & _). by simplify_eq.
  - destruct (restore2_holds _ _ _ _ _ _ _ _ _ _ Hold Ho E) as (c' & Hc' & Hh). by simplify_eq.
  - by eapply delete_holds.
  - destruct Hold as [H1 H2 H3 H4 H5 H6]. split; rewrite ?Hw, ?Hv; done.
Qed.

Lemma holds_empty : holds empty_db ∅.
Proof. split; simpl; intros *; rewrite ?lookup_empty; done. Qed.

Lemma vsteps_holds db h : rtc vstep (empty_db, ∅) (db, h) → holds db h.
Proof.
  intros Hs. change (holds (db, h).1 (db, h).2). revert Hs. generalize (db, h). intros s Hs.
  eapply (rtc_preserve _ (λ s, holds s.1 s.2)); [apply vstep_holds|apply Hs|apply holds_empty].
Qed.

(** The listing is the whole history, newest first. *)
Lemma versions_listed db h ord id l :
  holds db h → range_order (dbVersions db) ord → h !! id = Some l →
  wvVersion <$> versions_desc db ord id = reverse (Z.of_nat <$> seq 1 (length l)).
Proof.
  intros H Ho Hl. unfold versions_desc. set (L := rows_where _ _ _).
  assert (∀ v, v ∈ L ↔ ∃ vid, dbVersions db !! vid = Some v ∧ wvWorkflowID v = id) as HL.
  { intros v. unfold L. rewrite rows_where_all by done. unfold is_version_of. by setoid_rewrite bool_decide_eq_true. }
  assert (AntiSymm (=) (λ a b : Z, b ≤ a)%Z) by (intros ????; lia).
  apply (StronglySorted_unique (λ a b, b ≤ a)%Z).
  - apply StronglySorted_fmap with (R1 := later); [done|]. apply StronglySorted_merge_sort; [|intros a b; unfold later; lia].
    intros a b c. unfold later. lia.
  - apply seq_descending.
  - rewrite merge_sort_Permutation, reverse_Permutation. apply NoDup_Permutation.
    + apply rows_versions_nodup; [by apply Ho|]. intros i j v v' Hi Hj Hv Hv'. apply (ho_unique _ _ H); [done..|].
      unfold is_version_of in *. by rewrite bool_decide_eq_true in Hv, Hv'; congruence.
    + apply NoDup_fmap_2; [apply _|apply NoDup_seq].
    + intros z. rewrite list_elem_of_fmap. setoid_rewrite HL. rewrite list_elem_of_fmap. setoid_rewrite elem_of_seq. split.
      * intros (v & -> & vid & Hv & <-). pose proof (holds_bounds _ _ _ _ _ H Hv Hl).
        exists (Z.to_nat (wvVersion v)). lia.
      * intros (n & -> & Hn). destruct (ho_all _ _ H _ _ (n - 1) Hl) as (vid & v & ? & ? & Hz); [lia|].
        exists v. split; [rewrite Hz; lia|eauto].
Qed.

(** C9. The repository implements histories: after any run of creations,
    updates, restorations, deletions and failures of the database, a workflow's
    version is the length of its history and, unless it is deleted, its row is
    the last entry; each version can be read, exactly from 1 to that length, and
    decodes to its entry; the listing has all of them, newest first; a save
    appends its entry under the next number; and restoring a version gives the
    workflow that version's content again, under the next number. *)
Theorem version_history_refinement db h ord id l :
  rtc vstep (empty_db, ∅) (db, h) → range_order (dbVersions db) ord → h !! id = Some l →
  (∃ w, dbWorkflows db !! id = Some w ∧ wVersion w = Z.of_nat (length l)
        ∧ (last l = Some (content w) ∨ wDeletedAt w ≠ None))
  ∧ (∀ k, (∃ v, GetVersion db ord id k db_ok = Ok v) ↔ (1 ≤ k ≤ Z.of_nat (length l))%Z)
  ∧ (∀ k v, GetVersion db ord id k db_ok = Ok v →
       ∃ w, decode (wvData v) = Some w ∧ l !! Z.to_nat (k - 1) = Some (content w))
  ∧ (∃ vs, ListVersions db ord id db_ok = Ok vs ∧ wvVersion <$> vs = reverse (Z.of_nat <$> seq 1 (length l)))
  ∧ (∀ w note uuid now, wID w = id → dbVersions db !! uuid = None →
       let w' := set_version w (Z.of_nat (length l) + 1) now in
       is_Some (encode w') → ∃ db', UpdateWithVersion db w note uuid now db_ok = Ok (w', db')
                                    ∧ dbWorkflows db' !! id = Some w')
  ∧ (∀ k user uuid now fail db', RestoreVersion db ord id k user uuid now fail = Ok db' →
       ∃ w, dbWorkflows db' !! id = Some w ∧ l !! Z.to_nat (k - 1) = Some (content w)
            ∧ wVersion w = (Z.of_nat (length l) + 1)%Z).
Proof.
  intros Hs Ho Hl. pose proof (vsteps_holds _ _ Hs) as H.
  assert (get_slice h id = l) as Hsl by (unfold get_slice; by rewrite Hl).
  assert (∀ k v, GetVersion db ord id k db_ok = Ok v ↔ find_version db ord id k = Some v) as Hget.
  { intros k v. unfold GetVersion, try, db_ok. destruct (find_version db ord id k); naive_solver. }
  split_and!.
  - destruct (proj1 (ho_rows _ _ H id)) as [w Hw]; [by rewrite Hl|]. destruct (ho_row _ _ H _ _ _ Hw Hl) as (? & ? & ?). eauto.
  - intros k. setoid_rewrite Hget. setoid_rewrite (find_version_correct _ _ _ _ _ _ H Ho). split.
    + intros (v & vid & Hv & <- & <-). by eapply holds_bounds.
    + intros Hk. destruct (ho_all _ _ H _ _ (Z.to_nat (k - 1)) Hl) as (vid & v & ? & ? & ?); [lia|]. exists v, vid.
      split_and!; [done..|lia].
  - intros k v (vid & Hv & <- & <-)%Hget%(find_version_correct _ _ _ _ _ _ H Ho).
    destruct (ho_version _ _ H _ _ Hv) as (_ & _ & l' & w & Hl' & Hd & Hk). exists w. split; [done|].
    by assert (l = l') as -> by congruence.
  - eexists. split; [reflexivity|]. by eapply versions_listed.
  - intros w note uuid now <- Hf w' [data Hd]. subst w'. unfold UpdateWithVersion, insert_version, try, db_ok.
    rewrite (max_version_correct _ _ _ _ H Hl), Hd. simpl. rewrite Hf. eexists. split; [done|]. simpl. apply lookup_insert_eq.
  - intros k user uuid now fail db' E. destruct (restore_holds _ _ _ _ _ _ _ _ _ _ H Ho E) as (c & w & Hk & _ & Hw & <- & Hv).
    rewrite Hsl in Hk, Hv. eauto.
Qed.

(** ** Pages, environments, comparisons *)

Lemma page_length {A} page limit (l : list A) :
  (0 < page)%Z → (0 < limit)%Z →
  page_of page limit l = take (Z.to_nat limit) (drop (Z.to_nat (page - 1) * Z.to_nat limit) l).
Proof.
  intros Hp Hl. unfold page_of. rewrite !bool_decide_true by done. simpl. do 2 f_equal. nia.
Qed.

(** The first pages are the first elements. *)
Lemma pages_take {A} limit (l : list A) n :
  (0 < limit)%Z → concat ((λ p, page_of (Z.of_nat p) limit l) <$> seq 1 n) = take (n * Z.to_nat limit) l.
Proof.
  intros Hl. induction n as [|n IH]; [done|]. rewrite seq_S, fmap_app, concat_app, IH. simpl. rewrite app_nil_r.
  rewrite page_length by lia. replace (Z.to_nat (Z.of_nat (S n) - 1)) with n by lia.
  rewrite take_take_drop. f_equal. lia.
Qed.

Definition with_page (o : ListWorkflowsOptions) (page limit : Z) : ListWorkflowsOptions :=
  {| loUserID := loUserID o; loTeamID := loTeamID o; loStatus := loStatus o; loIsActive := loIsActive o;
     loTags := loTags o; loSearch := loSearch o; loPage := page; loLimit := limit; loSortBy := loSortBy o;
     loSortDesc := loSortDesc o |}.

(** The pages of a listing partition its matches: each match is on one page,
    newest first unless a column is named, and every page reports their number. *)
Lemma listing_pages ilike column_le db ord o limit :
  range_order (dbWorkflows db) ord → (0 < limit)%Z →
  let ask p := ListWorkflows ilike column_le db ord (with_page o (Z.of_nat p) limit) db_ok in
  ∃ all, (∀ w, w ∈ all ↔ ∃ id, dbWorkflows db !! id = Some w ∧ list_matches ilike o w = true)
    ∧ (∀ p, ∃ items, ask p = Ok (items, Z.of_nat (length all)))
    ∧ (loSortBy o = "" → StronglySorted newest_first all)
    ∧ ∀ n, (Z.of_nat (length all) ≤ Z.of_nat n * limit)%Z →
        concat ((λ p, match ask p with Ok r => r.1 | Err _ => [] end) <$> seq 1 n) = all.
Proof.
  intros Ho Hl ask. set (found := rows_where (dbWorkflows db) ord (list_matches ilike o)).
  exists (merge_sort (list_before column_le o) found).
  assert (length (merge_sort (list_before column_le o) found) = length found) as Hlen
    by (apply Permutation_length, merge_sort_Permutation).
  split_and!.
  - intros w. rewrite merge_sort_Permutation. unfold found. by rewrite rows_where_all.
  - intros p. eexists. unfold ask, ListWorkflows, try, db_ok. rewrite Hlen. done.
  - intros Hs. rewrite <- (list_fmap_id (merge_sort _ _)).
    eapply (StronglySorted_fmap id (list_before column_le o)); [|apply StronglySorted_merge_sort].
    + intros a b. simpl. unfold list_before, newest_first. by rewrite bool_decide_true.
    + intros a b c. unfold list_before. rewrite bool_decide_true by done. lia.
    + intros a b. unfold list_before. rewrite bool_decide_true by done. lia.
  - intros n Hn. rewrite <- (take_ge (merge_sort _ _) (n * Z.to_nat limit)) by nia.
    rewrite <- pages_take by done. done.
Qed.

(** Setting the default leaves one default environment of the workflow; when
    the environment is not found it leaves none. *)
Lemma default_environment db id eid fail n db' :
  Repo_SetDefaultEnvironment db id eid fail = Ok (n, db') →
  ∀ i e, dbEnvironments db' !! i = Some e → envWorkflowID e = id → (envIsDefault e = true ↔ n = 1%Z ∧ i = eid).
Proof.
  unfold Repo_SetDefaultEnvironment. intros E%try_ok%try_ok i e.
  set (cleared := (λ e, if is_env_of id e then set_default false e else e) <$> dbEnvironments db) in E.
  assert (∀ i e, cleared !! i = Some e → envWorkflowID e = id → envIsDefault e = false) as Hc.
  { intros j f. unfold cleared. rewrite lookup_fmap_Some. intros (f' & <- & _). unfold is_env_of. case_bool_decide; [done|].
    intros ?. congruence. }
  destruct (cleared !! eid) as [e0|] eqn:E0.
  - unfold is_env_of in E. case_bool_decide; simplify_eq; simpl.
    + rewrite lookup_insert_Some. intros [[<- <-]|[Hn Hi]] He; simpl; [naive_solver|].
      rewrite (Hc _ _ Hi He). naive_solver.
    + intros Hi He. rewrite (Hc _ _ Hi He). naive_solver.
  - simplify_eq. simpl. intros Hi He. rewrite (Hc _ _ Hi He). naive_solver.
Qed.

Lemma elem_of_id_set id ids : id ∈ id_set ids ↔ id ∈ ids.
Proof.
  unfold id_set. assert (∀ m : gset string, id ∈ foldl (λ m id, {[id]} ∪ m) m ids ↔ id ∈ ids ∨ id ∈ m) as H; [|rewrite H; set_solver].
  induction ids as [|x ids IH]; intros m; simpl; [set_solver|]. rewrite IH. set_solver.
Qed.

Lemma count_not_in_filter (m : gset string) ids n :
  foldl (λ count id, if bool_decide (id ∈ m) then count else S count) n ids = n + length (filter (λ id, id ∉ m) ids).
Proof.
  revert n. induction ids as [|id ids IH]; intros n; simpl; [lia|]. rewrite IH, filter_cons.
  case_bool_decide; [by rewrite decide_False by naive_solver|rewrite decide_True by done; simpl; lia].
Qed.

Lemma count_not_in_spec old new :
  count_not_in (id_set old) new = length (filter (λ id, id ∉ old) new).
Proof.
  unfold count_not_in. rewrite count_not_in_filter. simpl. f_equal. apply list_filter_iff. intros id. by rewrite elem_of_id_set.
Qed.

Lemma added_removed (old new : list string) :
  NoDup old → NoDup new →
  length new + length (filter (λ id, id ∉ new) old) = length old + length (filter (λ id, id ∉ old) new).
Proof.
  intros Ho Hn.
  rewrite <- (Permutation_length (filter_app_complement (λ id, id ∈ new) old)).
  rewrite <- (Permutation_length (filter_app_complement (λ id, id ∈ old) new)). rewrite !length_app.
  assert (length (filter (λ id, id ∈ new) old) = length (filter (λ id, id ∈ old) new)) as ->; [|lia].
  apply Permutation_length, NoDup_Permutation; [by apply NoDup_filter..|]. intros x. rewrite !list_elem_of_filter. naive_solver.
Qed.

(** The comparison of two versions counts the IDs that only one of them has:
    with distinct IDs, what was added and removed accounts for the sizes, and a
    version compared with itself shows no change. *)
Lemma comparison_counts n1 n2 v1 v2 w1 w2 :
  let c := compare_versions n1 n2 v1 v2 w1 w2 in
  (NoDup (nID <$> wNodes w1) → NoDup (nID <$> wNodes w2) →
   length (wNodes w2) + vcNodesRemoved c = length (wNodes w1) + vcNodesAdded c)
  ∧ (NoDup (cID <$> wConnections w1) → NoDup (cID <$> wConnections w2) →
     length (wConnections w2) + vcConnectionsRemoved c = length (wConnections w1) + vcConnectionsAdded c)
  ∧ (w1 = w2 → vcNodesAdded c = 0 ∧ vcNodesRemoved c = 0 ∧ vcConnectionsAdded c = 0 ∧ vcConnectionsRemoved c = 0
               ∧ vcNameChanged c = false ∧ vcDescriptionChanged c = false).
Proof.
  simpl. unfold countAddedNodes, countRemovedNodes, countAddedConnections, countRemovedConnections.
  rewrite !count_not_in_spec. split_and!.
  - intros H1 H2. pose proof (added_removed _ _ H1 H2) as H. by rewrite !length_fmap in H.
  - intros H1 H2. pose proof (added_removed _ _ H1 H2) as H. by rewrite !length_fmap in H.
  - intros ->. rewrite !bool_decide_true by done.
    assert (∀ l : list string, length (filter (λ id, id ∉ l) l) = 0) as Hz; [|by rewrite !Hz].
    intros l. destruct (filter _ l) as [|x l'] eqn:E; [done|]. assert (x ∈ filter (λ id, id ∉ l) l) as Hx by (rewrite E; set_solver).
    apply list_elem_of_filter in Hx. naive_solver.
Qed.

(** Cleaning up old versions keeps the numbering as long as it keeps one
    version; keeping none can remove all of them, and then no update succeeds. *)
Lemma cleanup_keeps_numbering db h ord id l keepLast olderThan fail db' :
  holds db h → range_order (dbVersions db) ord → h !! id = Some l → (1 ≤ keepLast)%Z →
  DeleteOldVersions db ord id keepLast olderThan fail = Ok db' → max_version db' id = Ok (Z.of_nat (length l)).
Proof.
  intros H Ho Hl Hk E. unfold DeleteOldVersions in E. apply try_ok, try_ok in E. injection E as <-. apply max_version_max; simpl.
  - destruct (ho_full _ _ H _ _ Hl) as [Hne _]. destruct l as [|c l _] using rev_ind; [done|].
    destruct (ho_all _ _ H _ _ (length l) Hl) as (vid & v & Hv & Hid & Hver); [rewrite length_app; simpl; lia|].
    exists vid, v. split_and!; [|done|rewrite Hver, length_app; simpl; lia].
    apply map_lookup_filter_Some. split; [done|]. simpl. intros (_ & _ & Hn).
    pose proof (versions_listed _ _ _ _ _ H Ho Hl) as Hd. rewrite length_app, Nat.add_comm in Hd. cbn [length Nat.add] in Hd.
    rewrite seq_S, fmap_app, reverse_app in Hd. simpl in Hd. unfold limit_to in Hn. rewrite bool_decide_true in Hn by lia.
    rewrite fmap_take, Hd in Hn. destruct (Z.to_nat keepLast) eqn:Ek; [lia|]. simpl in Hn.
    destruct Hn as [Hn|Hn]; [done|]. apply Hn. rewrite Hver. set_solver.
  - intros vid v [Hv _]%map_lookup_filter_Some Hid. eapply holds_bounds; [done..|]. by rewrite Hid.
Qed.
End repository.

(** ** Concrete runs *)

Definition demo_flow : Workflow := NewWorkflow "w" "demo" "" "u" 5 5.
Definition demo_json (w : Workflow) : option string := if bool_decide (wName w = "demo") then Some "demo" else None.
Definition demo_parse (s : string) : option Workflow := if bool_decide (s = "demo") then Some (content demo_flow) else None.
Definition db_of (r : result (Workflow * WorkflowDB)) : WorkflowDB := match r with Ok p => p.2 | Err _ => empty_db end.
Definition demo_created : WorkflowDB := db_of (CreateWithVersion demo_json empty_db demo_flow "v1" 5 db_ok).
Definition demo_updated : WorkflowDB := db_of (UpdateWithVersion demo_json demo_created demo_flow "note" "v2" 6 db_ok).

Lemma demo_order : range_order (dbVersions demo_updated) ["v1"; "v2"].
Proof.
  split; [by apply (bool_decide_unpack _)|]. intros k. unfold demo_updated, demo_created.
  change (dbVersions _) with (<["v2" := {| wvID := "v2"; wvWorkflowID := "w"; wvVersion := 2; wvData := "demo";
    wvChangedBy := "u"; wvChangeNote := "note"; wvCreatedAt := 6 |}]> {["v1" := {| wvID := "v1"; wvWorkflowID := "w";
    wvVersion := 1; wvData := "demo"; wvChangedBy := "u"; wvChangeNote := "Initial version"; wvCreatedAt := 5 |}]}
    : gmap string WorkflowVersion).
  rewrite lookup_insert_is_Some', lookup_singleton_is_Some. set_solver.
Qed.

Lemma version_history_refinement_witness :
  ∃ w, dbWorkflows demo_updated !! "w" = Some w ∧ wVersion w = 2%Z
       ∧ (last [content demo_flow; content demo_flow] = Some (content w) ∨ wDeletedAt w ≠ None).
Proof.
  refine (proj1 (version_history_refinement demo_json demo_parse (λ c, c = content demo_flow) _ demo_updated
    {["w" := [content demo_flow; content demo_flow]]} ["v1"; "v2"] "w" [content demo_flow; content demo_flow] _ demo_order _)).
  - intros w s Hc Es. unfold demo_json in Es. destruct (bool_decide _); [|done]. injection Es as <-. exists (content demo_flow). split; [done|by rewrite Hc].
  - eapply rtc_l; [by apply (vs_create _ _ _ empty_db ∅ demo_flow "v1" 5 db_ok demo_flow demo_created)|].
    eapply rtc_l; [eapply (vs_update _ _ _ demo_created _ demo_flow "note" "v2" 6 db_ok _ demo_updated); reflexivity|].
    unfold get_slice. rewrite lookup_insert_eq, insert_insert_eq. constructor.
  - apply lookup_singleton_eq.
Defined.

(** Keeping no version: the workflow cannot be saved any more. *)
Lemma cleanup_blocks_updates :
  match DeleteOldVersions demo_updated ["v1"; "v2"] "w" 0 100 db_ok with
  | Ok db => UpdateWithVersion demo_json db demo_flow "note" "v3" 7 db_ok
  | Err e => Err e
  end = Err "converting NULL to int is unsupported".
Proof. vm_compute. reflexivity. Qed.

(** The snapshot of a restored version keeps the version number it was saved
    with: version 3 says that it is version 1. *)
Lemma restored_snapshot_is_stale :
  let enc w := if bool_decide (wVersion w = 1)%Z then Some "1" else Some "2" in
  let dec s := Some (set_version demo_flow (if bool_decide (s = "1") then 1 else 2) 0) in
  let db := db_of (UpdateWithVersion enc (db_of (CreateWithVersion enc empty_db demo_flow "v1" 5 db_ok))
                     demo_flow "note" "v2" 6 db_ok) in
  match RestoreVersion dec db ["v1"; "v2"] "w" 1 "u" "v3" 7 db_ok with
  | Ok db' => wVersion <$> (dbWorkflows db' !! "w") = Some 3%Z
              ∧ (find_version db' ["v1"; "v2"; "v3"] "w" 3 ≫= λ v, wVersion <$> dec (wvData v)) = Some 1%Z
  | Err _ => False
  end.
Proof. vm_compute. split; reflexivity. Qed.

(** An update can move an environment to another workflow. *)
Lemma update_moves_environment :
  let e := {| envID := "e"; envWorkflowID := "w"; envName := ""; envDescription := ""; envVariables := ∅;
              envIsDefault := false; envCreatedAt := ""; envUpdatedAt := "" |} in
  match Repo_UpdateEnvironment (put_environments empty_db {["e" := e]}) "w" "e" {["workflow_id" := VStr "x"]} "t" db_ok with
  | Ok (_, db) => envWorkflowID <$> dbEnvironments db !! "e" = Some "x"
  | Err _ => False
  end.
Proof. vm_compute. reflexivity. Qed.
