(* ===== verification/Templates.v ===== *)
(** internal/workflow/adapters/templates/manager.go: workflow templates with
    variables, the built-in ones and the stored ones, and their instantiation.

    [encode] and [decode] stand for the JSON of a workflow, [decode_into] for
    reading JSON into an existing one, [marshal] for the JSON of a value. *)

From S2P Require Import Prelude GoValue GoLib GoText Graph Workflow WorkflowRepo.
From Stdlib Require Import Ascii.
From stdpp Require Import sorting.

Definition ErrTemplateNotFound := "template not found".
Definition ErrDuplicateTemplate := "template already exists".
Definition ErrVariableRequired := "required variable not provided".
Definition ErrInvalidVariableType := "invalid variable type".

Definition VariableTypeString := "string".
Definition VariableTypeNumber := "number".
Definition VariableTypeBoolean := "boolean".
Definition VariableTypeJSON := "json".
Definition VariableTypeSecret := "secret".

Definition CategoryDataPipeline := "data-pipeline".
Definition CategoryIntegration := "integration".
Definition CategoryAutomation := "automation".
Definition CategoryNotification := "notification".
Definition CategoryAnalytics := "analytics".
Definition CategoryDevOps := "devops".
Definition CategoryCustom := "custom".

(** ** Data *)

Record Option_ := { opLabel : string; opValue : value }.

Record Validation := {
  vaMin : option spec_float;
  vaMax : option spec_float;
  vaMinLength : option Z;
  vaMaxLength : option Z;
  vaPattern : string
}.

Record Variable_ := {
  tvKey : string;
  tvName : string;
  tvType : string;
  tvDescription : string;
  tvRequired : bool;
  tvDefaultValue : value;           (* [VNil] for nil *)
  tvOptions : list Option_;
  tvValidation : Validation
}.

Record Template := {
  tpID : string;
  tpName : string;
  tpDescription : string;
  tpCategory : string;
  tpIcon : string;
  tpWorkflow : string;
  tpVariables : list Variable_;
  tpTags : list string;
  tpIsPublic : bool;
  tpIsBuiltIn : bool;
  tpCreatorID : string;
  tpUsageCount : Z;
  tpRating : spec_float;
  tpConfig : option vmap;
  tpCreatedAt : Z;
  tpUpdatedAt : Z
}.

Record TemplateManager := {
  tmBuiltInTemplates : gmap string Template;
  tmTemplates : gmap string Template          (* the table *)
}.

Definition set_template (t : Template) (id category : string) (usage created updated : Z) : Template :=
  {| tpID := id; tpName := tpName t; tpDescription := tpDescription t; tpCategory := category; tpIcon := tpIcon t;
     tpWorkflow := tpWorkflow t; tpVariables := tpVariables t; tpTags := tpTags t; tpIsPublic := tpIsPublic t;
     tpIsBuiltIn := tpIsBuiltIn t; tpCreatorID := tpCreatorID t; tpUsageCount := usage; tpRating := tpRating t;
     tpConfig := tpConfig t; tpCreatedAt := created; tpUpdatedAt := updated |}.

(** ** The built-in templates *)

Definition no_validation : Validation :=
  {| vaMin := None; vaMax := None; vaMinLength := None; vaMaxLength := None; vaPattern := "" |}.
Definition variable (key name type description : string) (required : bool) (dflt : value)
    (options : list (string * string)) (v : Validation) : Variable_ :=
  {| tvKey := key; tvName := name; tvType := type; tvDescription := description; tvRequired := required;
     tvDefaultValue := dflt; tvOptions := (λ p, {| opLabel := p.1; opValue := VStr p.2 |}) <$> options; tvValidation := v |}.
Definition built_in (id name description category icon : string) (tags : list string) (vars : list Variable_) : Template :=
  {| tpID := id; tpName := name; tpDescription := description; tpCategory := category; tpIcon := icon; tpWorkflow := "";
     tpVariables := vars; tpTags := tags; tpIsPublic := true; tpIsBuiltIn := true; tpCreatorID := ""; tpUsageCount := 0;
     tpRating := S754_zero false; tpConfig := None; tpCreatedAt := 0; tpUpdatedAt := 0 |}.

Definition etl_pipeline : Template :=
  built_in "template-etl-pipeline" "Data ETL Pipeline" "Extract, Transform, and Load data between systems"
    CategoryDataPipeline "database" ["etl"; "data"; "pipeline"; "database"]
    [variable "source_type" "Source Type" VariableTypeString "Type of data source" true VNil
       [("PostgreSQL", "postgres"); ("MySQL", "mysql"); ("MongoDB", "mongodb"); ("API", "api"); ("CSV File", "csv")]
       no_validation;
     variable "source_connection" "Source Connection String" VariableTypeSecret "Connection string for the data source"
       true VNil [] no_validation;
     variable "target_type" "Target Type" VariableTypeString "Type of target system" true VNil
       [("PostgreSQL", "postgres"); ("MySQL", "mysql"); ("Data Warehouse", "warehouse"); ("S3", "s3")] no_validation;
     variable "schedule" "Schedule" VariableTypeString "Cron expression for scheduling" false (VStr "0 0 * * *") []
       no_validation].

Definition webhook_db : Template :=
  built_in "template-webhook-db" "Webhook to Database" "Receive webhook data and store in database"
    CategoryIntegration "webhook" ["webhook"; "database"; "integration"]
    [variable "webhook_path" "Webhook Path" VariableTypeString "URL path for the webhook endpoint" true
       (VStr "/webhook/data") [] no_validation;
     variable "database_table" "Database Table" VariableTypeString "Target database table name" true VNil [] no_validation;
     variable "validation_schema" "Validation Schema" VariableTypeJSON "JSON schema for webhook data validation" false
       VNil [] no_validation].

Definition scheduled_report : Template :=
  built_in "template-scheduled-report" "Scheduled Report Generator" "Generate and send reports on a schedule"
    CategoryAnalytics "chart" ["report"; "schedule"; "email"; "analytics"]
    [variable "report_type" "Report Type" VariableTypeString "Type of report to generate" true VNil
       [("Daily Summary", "daily"); ("Weekly Analytics", "weekly"); ("Monthly KPIs", "monthly"); ("Custom Query", "custom")]
       no_validation;
     variable "recipients" "Email Recipients" VariableTypeString "Comma-separated list of email addresses" true VNil []
       no_validation;
     variable "schedule" "Schedule" VariableTypeString "Cron expression for report schedule" true (VStr "0 8 * * 1") []
       no_validation].

Definition api_integration : Template :=
  built_in "template-api-integration" "API Integration Pipeline" "Integrate with external APIs for data synchronization"
    CategoryIntegration "api" ["api"; "integration"; "sync"; "rest"]
    [variable "api_url" "API Base URL" VariableTypeString "Base URL of the API to integrate" true VNil [] no_validation;
     variable "api_key" "API Key" VariableTypeSecret "API authentication key" true VNil [] no_validation;
     variable "sync_interval" "Sync Interval" VariableTypeNumber "Sync interval in minutes" true (VInt 60) []
       {| vaMin := Some (f64_of_Z 1); vaMax := Some (f64_of_Z 1440); vaMinLength := None; vaMaxLength := None;
          vaPattern := "" |}].

Definition error_notification : Template :=
  built_in "template-error-notification" "Error Notification System" "Monitor errors and send notifications"
    CategoryNotification "alert" ["error"; "monitoring"; "notification"; "alert"]
    [variable "error_source" "Error Source" VariableTypeString "System or service to monitor" true VNil [] no_validation;
     variable "notification_channels" "Notification Channels" VariableTypeString "Channels for notifications" true VNil
       [("Email", "email"); ("Slack", "slack"); ("SMS", "sms"); ("PagerDuty", "pagerduty")] no_validation;
     variable "severity_threshold" "Severity Threshold" VariableTypeString
       "Minimum error severity to trigger notification" false (VStr "error")
       [("Debug", "debug"); ("Info", "info"); ("Warning", "warning"); ("Error", "error"); ("Critical", "critical")]
       no_validation].

Definition registerBuiltInTemplate (now : Z) (m : gmap string Template) (t : Template) : gmap string Template :=
  <[tpID t := set_template t (tpID t) (tpCategory t) (tpUsageCount t) now now]> m.
Definition initBuiltInTemplates (now : Z) : gmap string Template :=
  foldl (registerBuiltInTemplate now) ∅ [etl_pipeline; webhook_db; scheduled_report; api_integration; error_notification].
Definition NewTemplateManager (tbl : gmap string Template) (now : Z) : TemplateManager :=
  {| tmBuiltInTemplates := initBuiltInTemplates now; tmTemplates := tbl |}.

Definition put_templates (tm : TemplateManager) (tbl : gmap string Template) : TemplateManager :=
  {| tmBuiltInTemplates := tmBuiltInTemplates tm; tmTemplates := tbl |}.

(** ** Variables *)

(** [strings.ReplaceAll] with a text that is not empty; [skip] characters of a
    match are passed over. *)
Fixpoint replace_skip (old new : string) (skip : nat) (s : string) : string :=
  match s with
  | "" => ""
  | String c s' =>
      match skip with
      | S k => replace_skip old new k s'
      | O => if String.prefix old s then new +:+ replace_skip old new (String.length old - 1) s'
             else String c (replace_skip old new 0 s')
      end
  end.
Definition replace_all (s old new : string) : string := replace_skip old new 0 s.

Section templates.
Context (encode : Workflow → option string) (decode : string → option Workflow)
  (decode_into : string → Workflow → option Workflow) (marshal : value → option string)
  (fmt_float : spec_float → string) (fmt_time : Z → string) (fmt_f : spec_float → string).

Definition validVariableTypes : list string :=
  [VariableTypeString; VariableTypeNumber; VariableTypeBoolean; VariableTypeJSON; VariableTypeSecret].
Definition is_text_type (t : string) : bool := bool_decide (t = VariableTypeString) || bool_decide (t = VariableTypeSecret).

Definition validateVariable (v : Variable_) : option string :=
  if bool_decide (tvKey v = "") then Some "variable key is required"
  else if negb (bool_decide (tvType v ∈ validVariableTypes)) then Some ErrInvalidVariableType
  else match tvDefaultValue v with
       | VNil => None
       | d =>
           if is_text_type (tvType v) then
             match d with VStr _ => None | _ => Some "default value must be a string" end
           else if bool_decide (tvType v = VariableTypeNumber) then
             match d with VInt _ | VFloat _ => None | _ => Some "default value must be a number" end
           else if bool_decide (tvType v = VariableTypeBoolean) then
             match d with VBool _ => None | _ => Some "default value must be a boolean" end
           else None
       end.

Definition below (bound : option spec_float) (num : spec_float) : option string :=
  match bound with
  | Some m => if f64_ltb num m then Some ("number too small (min: " +:+ fmt_f m +:+ ")") else None
  | None => None
  end.
Definition above (bound : option spec_float) (num : spec_float) : option string :=
  match bound with
  | Some m => if f64_ltb m num then Some ("number too large (max: " +:+ fmt_f m +:+ ")") else None
  | None => None
  end.
Definition or_else {A} (a b : option A) : option A := match a with Some x => Some x | None => b end.

Definition validateVariableValue (v : Variable_) (val : value) : option string :=
  let rules := tvValidation v in
  if is_text_type (tvType v) then
    match val with
    | VStr s =>
        or_else (match vaMinLength rules with
                 | Some m => if bool_decide (Z.of_nat (String.length s) < m)%Z
                             then Some ("string too short (min: " +:+ pretty m +:+ ")") else None
                 | None => None
                 end)
                (match vaMaxLength rules with
                 | Some m => if bool_decide (m < Z.of_nat (String.length s))%Z
                             then Some ("string too long (max: " +:+ pretty m +:+ ")") else None
                 | None => None
                 end)
    | _ => Some ErrInvalidVariableType
    end
  else if bool_decide (tvType v = VariableTypeNumber) then
    match (match val with VInt z => Some (f64_of_Z z) | VFloat f => Some f | _ => None end) with
    | Some num => or_else (below (vaMin rules) num) (above (vaMax rules) num)
    | None => Some ErrInvalidVariableType
    end
  else if bool_decide (tvType v = VariableTypeBoolean) then
    match val with VBool _ => None | _ => Some ErrInvalidVariableType end
  else if bool_decide (tvType v = VariableTypeJSON) then
    match marshal val with Some _ => None | None => Some "invalid JSON: unsupported value" end
  else None.

(** The value a variable gets: the given one, or its default; [Err] when it is
    required and there is neither, [Ok None] when it is left out. *)
Definition chosen (tv : Variable_) (provided : vmap) : result (option value) :=
  match provided !! tvKey tv with
  | Some val => Ok (Some val)
  | None =>
      match tvDefaultValue tv with
      | VNil => if tvRequired tv then Err (ErrVariableRequired +:+ ": " +:+ tvKey tv) else Ok None
      | d => Ok (Some d)
      end
  end.

Fixpoint process_loop (vars : list Variable_) (provided processed : vmap) : result vmap :=
  match vars with
  | [] => Ok processed
  | tv :: vars' =>
      match chosen tv provided with
      | Err e => Err e
      | Ok None => process_loop vars' provided processed
      | Ok (Some val) =>
          match validateVariableValue tv val with
          | Some e => Err ("variable " +:+ tvKey tv +:+ ": " +:+ e)
          | None => process_loop vars' provided (<[tvKey tv := val]> processed)
          end
      end
  end.
Definition processVariables (vars : list Variable_) (provided : vmap) : result vmap := process_loop vars provided ∅.

(** The text put in the place of a variable. *)
Definition value_text (v : value) : string :=
  match v with
  | VStr s => s
  | VInt _ | VFloat _ | VBool _ => sprint fmt_float fmt_time v
  | _ => default "" (marshal v)
  end.

Definition substitute (vars : vmap) (s key : string) : string :=
  match vars !! key with
  | Some v => replace_all s ("{{" +:+ key +:+ "}}") (value_text v)
  | None => s
  end.

(** [ord] is the iteration order of the variables. *)
Definition applyVariables (w : Workflow) (vars : vmap) (ord : list string) : result Workflow :=
  match encode w with
  | None => Err marshal_error
  | Some s => match decode_into (foldl (substitute vars) s ord) w with
              | Some w' => Ok w'
              | None => Err unmarshal_error
              end
  end.

(** ** Templates *)

Definition validCategories : list string :=
  [CategoryDataPipeline; CategoryIntegration; CategoryAutomation; CategoryNotification; CategoryAnalytics;
   CategoryDevOps; CategoryCustom].

Fixpoint validate_variables (vars : list Variable_) : option string :=
  match vars with
  | [] => None
  | v :: vars' => match validateVariable v with
                  | Some e => Some ("invalid variable " +:+ tvKey v +:+ ": " +:+ e)
                  | None => validate_variables vars'
                  end
  end.

(** [validateTemplate] also sets the default category. *)
Definition validateTemplate (t : Template) : result Template :=
  if bool_decide (tpName t = "") then Err "template name is required"
  else
    let t := if bool_decide (tpCategory t = "")
             then set_template t (tpID t) CategoryCustom (tpUsageCount t) (tpCreatedAt t) (tpUpdatedAt t) else t in
    if negb (bool_decide (tpCategory t ∈ validCategories)) then Err ("invalid category: " +:+ tpCategory t)
    else if negb (bool_decide (tpWorkflow t = "")) && bool_decide (decode (tpWorkflow t) = None)
    then Err ("invalid workflow JSON: " +:+ unmarshal_error)
    else match validate_variables (tpVariables t) with Some e => Err e | None => Ok t end.

(** The ID is the primary key, and names are unique. *)
Definition insert_template (tbl : gmap string Template) (t : Template) (fail : db_fail) : result (gmap string Template) :=
  try fail "INSERT templates"
    (if bool_decide (is_Some (tbl !! tpID t)) || bool_decide (tpName t ∈ (λ p, tpName p.2) <$> map_to_list tbl)
     then Err duplicate_key else Ok (<[tpID t := t]> tbl)).

Definition CreateTemplate (tm : TemplateManager) (t : Template) (uuid : string) (now : Z) (fail : db_fail) :
    result (Template * TemplateManager) :=
  match validateTemplate t with
  | Err e => Err e
  | Ok t =>
      let id := if bool_decide (tpID t = "") then "template-" +:+ uuid else tpID t in
      let t := set_template t id (tpCategory t) (tpUsageCount t) now now in
      match insert_template (tmTemplates tm) t fail with
      | Err e => if contains e "duplicate" then Err ErrDuplicateTemplate else Err ("failed to create template: " +:+ e)
      | Ok tbl => Ok (t, put_templates tm tbl)
      end
  end.

Definition GetTemplate (tm : TemplateManager) (templateID : string) (fail : db_fail) : result Template :=
  match tmBuiltInTemplates tm !! templateID with
  | Some t => Ok t
  | None => try fail "SELECT templates"
              match tmTemplates tm !! templateID with Some t => Ok t | None => Err ErrTemplateNotFound end
  end.

Definition template_matches (category : string) (isPublic : option bool) (t : Template) : bool :=
  or_any category (tpCategory t) && match isPublic with Some b => eqb (tpIsPublic t) b | None => true end.

Definition most_used (a b : Template) : Prop := (tpUsageCount b ≤ tpUsageCount a)%Z.
#[global] Instance most_used_dec a b : Decision (most_used a b).
Proof. unfold most_used. apply _. Defined.

Definition ListTemplates (tm : TemplateManager) (category : string) (isPublic : option bool) (ordB ord : list string)
    (fail : db_fail) : result (list Template) :=
  match try fail "SELECT templates"
          (Ok (merge_sort most_used (rows_where (tmTemplates tm) ord (template_matches category isPublic)))) with
  | Err e => Err ("failed to list templates: " +:+ e)
  | Ok rows => Ok (rows_where (tmBuiltInTemplates tm) ordB (template_matches category isPublic) ++ rows)
  end.

Definition count_use (tm : TemplateManager) (templateID : string) (fail : db_fail) : TemplateManager :=
  match fail "UPDATE templates" with
  | Some _ => tm
  | None => put_templates tm (alter (λ t, set_template t (tpID t) (tpCategory t) (tpUsageCount t + 1) (tpCreatedAt t)
                                            (tpUpdatedAt t)) templateID (tmTemplates tm))
  end.

(** The parts of a template's workflow that an instance takes over. *)
Definition instance_of (t : Template) (body : Workflow) (uuid name userID : string) (now1 now2 : Z) : Workflow :=
  {| wID := uuid; wName := name; wDescription := tpDescription t; wUserID := userID; wTeamID := "";
     wNodes := wNodes body; wConnections := wConnections body; wSettings := wSettings body; wStatus := StatusInactive;
     wIsActive := false; wVersion := 1; wTags := tpTags t; wCreatedAt := now1; wUpdatedAt := now2; wDeletedAt := None |}.

Definition InstantiateTemplate (tm : TemplateManager) (templateID userID name : string) (variables : vmap)
    (uuid : string) (now1 now2 : Z) (ord : list string) (fail : db_fail) : result (Workflow * TemplateManager) :=
  match GetTemplate tm templateID fail with
  | Err e => Err e
  | Ok t =>
      match processVariables (tpVariables t) variables with
      | Err e => Err ("variable processing failed: " +:+ e)
      | Ok vars =>
          match decode (tpWorkflow t) with
          | None => Err ("failed to parse template workflow: " +:+ unmarshal_error)
          | Some body =>
              match applyVariables (instance_of t body uuid name userID now1 now2) vars ord with
              | Err e => Err ("failed to apply variables: " +:+ e)
              | Ok w => Ok (w, if tpIsBuiltIn t then tm else count_use tm templateID fail)
              end
          end
      end
  end.

(** [set_columns updates t] is the database's write of the columns, [None] when
    it refuses them. *)
Definition UpdateTemplate (set_columns : vmap → Template → option Template) (tm : TemplateManager) (templateID : string)
    (updates : vmap) (fail : db_fail) : result TemplateManager :=
  match tmBuiltInTemplates tm !! templateID with
  | Some _ => Err "built-in templates cannot be modified"
  | None =>
      match try fail "UPDATE templates"
              match tmTemplates tm !! templateID with
              | None => Ok None
              | Some t => match set_columns updates t with
                          | Some t' => match insert_template (delete templateID (tmTemplates tm)) t' db_ok with
                                       | Ok tbl => Ok (Some tbl)
                                       | Err e => Err e
                                       end
                          | None => Err "invalid update"
                          end
              end with
      | Err e => Err ("failed to update template: " +:+ e)
      | Ok None => Err ErrTemplateNotFound
      | Ok (Some tbl) => Ok (put_templates tm tbl)
      end
  end.

Definition DeleteTemplate (tm : TemplateManager) (templateID : string) (fail : db_fail) : result TemplateManager :=
  match tmBuiltInTemplates tm !! templateID with
  | Some _ => Err "built-in templates cannot be deleted"
  | None =>
      match fail "DELETE templates" with
      | Some e => Err ("failed to delete template: " +:+ e)
      | None => match tmTemplates tm !! templateID with
                | Some _ => Ok (put_templates tm (delete templateID (tmTemplates tm)))
                | None => Err ErrTemplateNotFound
                end
      end
  end.

Definition GetCategories : list (string * string * string) :=
  [(CategoryDataPipeline, "Data Pipeline", "database"); (CategoryIntegration, "Integration", "link");
   (CategoryAutomation, "Automation", "robot"); (CategoryNotification, "Notification", "bell");
   (CategoryAnalytics, "Analytics", "chart"); (CategoryDevOps, "DevOps", "server"); (CategoryCustom, "Custom", "code")].

(** ** Specification *)

(** A variable can be processed with the values given. *)
Definition acceptable (provided : vmap) (tv : Variable_) : Prop :=
  match chosen tv provided with
  | Err _ => False
  | Ok None => True
  | Ok (Some val) => validateVariableValue tv val = None
  end.

(** The values of a type. *)
Definition has_type (t : string) (v : value) : Prop :=
  if is_text_type t then ∃ s, v = VStr s
  else if bool_decide (t = VariableTypeNumber) then (∃ z, v = VInt z) ∨ ∃ f, v = VFloat f
  else if bool_decide (t = VariableTypeBoolean) then ∃ b, v = VBool b
  else if bool_decide (t = VariableTypeJSON) then is_Some (marshal v) else True.

(** A text with placeholders, and its evaluation. *)
Inductive piece := Text (s : string) | Hole (key : string).
Definition print_piece (p : piece) : string := match p with Text s => s | Hole k => "{{" +:+ k +:+ "}}" end.
Definition print_pieces (ps : list piece) : string := foldr (λ p s, print_piece p +:+ s) "" ps.
Definition fill (vars : vmap) (p : piece) : piece :=
  match p with
  | Hole k => match vars !! k with Some v => Text (value_text v) | None => p end
  | Text _ => p
  end.

(** Texts in which no placeholder can begin: no two braces in a row, and none at
    the end. *)
Fixpoint inert (s : string) : bool :=
  match s with
  | "" => true
  | String c s' =>
      (negb (Ascii.eqb c "{"%char) || match s' with "" => false | String c' _ => negb (Ascii.eqb c' "{"%char) end) && inert s'
  end.
Definition brace_free (s : string) : bool := no_char "{"%char s && no_char "}"%char s.
Definition piece_ok (p : piece) : bool := match p with Text s => inert s | Hole k => brace_free k end.

(** ** Lemmas on substitution *)

Lemma inert_replace x new lit rest :
  inert lit = true → replace_skip ("{{" +:+ x) new 0 (lit +:+ rest) = lit +:+ replace_skip ("{{" +:+ x) new 0 rest.
Proof.
  change ("{{" +:+ x) with (String "{" (String "{" x)).
  induction lit as [|c lit IH]; [done|]. cbn [inert]. intros [Hc Hi]%andb_true_iff. specialize (IH Hi).
  rewrite !string_app_cons. cbn [replace_skip String.prefix].
  destruct (ascii_dec "{"%char c) as [<-|Hn]; [|by rewrite IH].
  destruct lit as [|c' lit]; [done|]. rewrite !string_app_cons in IH |- *. cbn [String.prefix].
  destruct (ascii_dec "{"%char c') as [<-|Hn']; [done|]. by rewrite <- IH.
Qed.

Lemma skip_replace old new a rest : replace_skip old new (String.length a) (a +:+ rest) = replace_skip old new 0 rest.
Proof. by induction a. Qed.

Lemma prefix_text (s t : string) : String.prefix s (s +:+ t) = true.
Proof. induction s as [|c s IH]; simpl; [by destruct t|]. by destruct (ascii_dec c c). Qed.

Lemma prefix_braces k k' a b :
  no_char "}"%char k = true → no_char "}"%char k' = true → String.prefix (k +:+ String "}"%char a) (k' +:+ String "}"%char b) = true → k = k'.
Proof.
  revert k'. induction k as [|c k IH]; intros [|c' k']; rewrite ?string_app_cons; cbn [no_char String.prefix];
    intros H1 H2 H; [done| | |].
  - change ("" +:+ ?s) with s in H. cbn [String.prefix] in H. apply andb_true_iff in H2 as [H2 _].
    destruct (ascii_dec "}"%char c') as [<-|]; [|done]. by rewrite bool_decide_true in H2.
  - change ("" +:+ ?s) with s in H. cbn [String.prefix] in H. apply andb_true_iff in H1 as [H1 _].
    destruct (ascii_dec c "}"%char) as [->|]; [|done]. by rewrite bool_decide_true in H1.
  - apply andb_true_iff in H1 as [_ H1], H2 as [_ H2]. destruct (ascii_dec c c') as [->|]; [|done]. f_equal. by apply IH.
Qed.

Lemma hole_rest_inert k : brace_free k = true → inert (String "{"%char (k +:+ "}}")) = true.
Proof.
  intros [Hk _]%andb_true_iff. assert (inert (k +:+ "}}") = true) as Hi.
  { induction k as [|c k IH]; [done|]. cbn [no_char] in Hk. apply andb_true_iff in Hk as [Hc Hk]. rewrite string_app_cons.
    cbn [inert]. rewrite IH by done. destruct (Ascii.eqb_spec c "{"%char) as [->|]; [by rewrite bool_decide_true in Hc|done]. }
  cbn [inert]. rewrite Hi. destruct k as [|c k]; [done|]. cbn [no_char] in Hk. apply andb_true_iff in Hk as [Hc _].
  rewrite string_app_cons. destruct (Ascii.eqb_spec c "{"%char) as [->|]; [by rewrite bool_decide_true in Hc|done].
Qed.

(** Replacing one placeholder fills exactly its holes. *)
Lemma replace_pieces k new ps :
  brace_free k = true → forallb piece_ok ps = true →
  replace_all (print_pieces ps) ("{{" +:+ k +:+ "}}") new
  = print_pieces ((λ p, match p with Hole k' => if bool_decide (k' = k) then Text new else p | Text _ => p end) <$> ps).
Proof.
  clear encode decode decode_into fmt_f.
  intros Hk. unfold replace_all. induction ps as [|p ps IH]; [done|]. cbn [forallb]. intros [Hp Hps]%andb_true_iff.
  specialize (IH Hps). rewrite fmap_cons. cbn [print_pieces foldr]. change (foldr _ "" ps) with (print_pieces ps).
  destruct p as [s|k']; cbn [print_piece piece_ok] in *; [by rewrite inert_replace, IH|].
  case_bool_decide as E.
  - subst k'. cbn [print_piece]. change (foldr _ "" ?l) with (print_pieces l). rewrite <- IH.
    change (("{{" +:+ k +:+ "}}") +:+ ?t) with (String "{" (("{" +:+ k +:+ "}}") +:+ t)). cbn [replace_skip].
    change (String "{" (("{" +:+ k +:+ "}}") +:+ ?t)) with (("{{" +:+ k +:+ "}}") +:+ t) at 1. rewrite prefix_text.
    f_equal. replace (String.length ("{{" +:+ k +:+ "}}") - 1) with (String.length ("{" +:+ k +:+ "}}"))
      by (simpl; lia). apply skip_replace.
  - cbn [print_piece]. change (foldr _ "" ?l) with (print_pieces l). rewrite <- IH.
    change (("{{" +:+ k' +:+ "}}") +:+ ?t) with (String "{" (String "{" (k' +:+ "}}") +:+ t)). cbn [replace_skip].
    destruct (String.prefix _ _) eqn:Epre.
    + exfalso. apply E. symmetry. apply andb_true_iff in Hk as [_ Hk], Hp as [_ Hp].
      apply (prefix_braces k k' "}" ("}" +:+ print_pieces ps)); [done..|].
      change ("{{" +:+ k +:+ "}}") with (String "{" (String "{" (k +:+ "}}"))) in Epre.
      rewrite string_app_cons, string_app_assoc in Epre. cbn [String.prefix] in Epre.
      destruct (ascii_dec "{"%char "{"%char); [|done]. exact Epre.
    + rewrite inert_replace by by apply hole_rest_inert. by rewrite !string_app_cons.
Qed.

(** Filling the holes of some keys. *)
Definition fill_on (vars : vmap) (keys : list string) (p : piece) : piece :=
  match p with Hole k => if bool_decide (k ∈ keys) then fill vars p else p | Text _ => p end.

Lemma substitute_pieces vars key ps :
  (∀ k v, vars !! k = Some v → brace_free k = true) → forallb piece_ok ps = true →
  substitute vars (print_pieces ps) key = print_pieces (fill_on vars [key] <$> ps).
Proof.
  clear encode decode decode_into fmt_f.
  intros Hv Hps. unfold substitute. destruct (vars !! key) as [v|] eqn:E.
  - rewrite replace_pieces by eauto. f_equal. apply list_fmap_ext. intros _ [s|k] _; [done|]. unfold fill_on, fill.
    case_bool_decide as Ek; [subst; rewrite bool_decide_true, E by set_solver; done|].
    by rewrite bool_decide_false by set_solver.
  - f_equal. rewrite <- (list_fmap_id ps) at 1. apply list_fmap_ext. intros _ [s|k] _; [done|]. unfold fill_on, fill.
    case_bool_decide as Ek; [|done]. assert (k = key) as -> by set_solver. by rewrite E.
Qed.

Lemma fill_on_ok vars keys ps :
  (∀ k v, vars !! k = Some v → inert (value_text v) = true) → forallb piece_ok ps = true →
  forallb piece_ok (fill_on vars keys <$> ps) = true.
Proof.
  intros Hv. rewrite !forallb_forall. setoid_rewrite <- list_elem_of_In. intros Hps p (q & -> & Hq)%list_elem_of_fmap.
  specialize (Hps _ Hq). destruct q as [s|k]; [done|]. unfold fill_on, fill. case_bool_decide; [|done].
  destruct (vars !! k) eqn:E; [|done]. by eapply Hv.
Qed.

Lemma substitute_all vars keys ps :
  (∀ k v, vars !! k = Some v → brace_free k = true ∧ inert (value_text v) = true) → forallb piece_ok ps = true →
  foldl (substitute vars) (print_pieces ps) keys = print_pieces (fill_on vars keys <$> ps).
Proof.
  clear encode decode decode_into fmt_f.
  intros Hv. revert ps. induction keys as [|key keys IH]; intros ps Hps; simpl.
  - f_equal. rewrite <- (list_fmap_id ps) at 1. apply list_fmap_ext. by intros _ [s|k] _.
  - rewrite substitute_pieces, IH by (try apply fill_on_ok; naive_solver). rewrite <- list_fmap_compose. f_equal.
    apply list_fmap_ext. intros _ [s|k] _; [done|]. cbn [compose fill_on]. destruct (decide (k = key)) as [->|Hn].
    + rewrite !bool_decide_true by set_solver. unfold fill at 1 2. destruct (vars !! key) as [v|] eqn:E; [done|].
      cbn [fill_on fill]. rewrite E. by case_bool_decide.
    + rewrite (bool_decide_false (k ∈ [key])) by set_solver. cbn [fill_on].
      assert (k ∈ key :: keys ↔ k ∈ keys) as Hk by (rewrite elem_of_cons; naive_solver). by rewrite (bool_decide_ext _ _ Hk).
Qed.

(** Putting variables into a template's text is filling its placeholders:
    in a text whose literal parts cannot begin a placeholder, with keys without
    braces and values that cannot begin one, every placeholder of a variable is
    replaced by the variable's text, all others stay, and the iteration order of
    the variables does not matter. *)
Lemma substitution_correct vars ord ps :
  range_order vars ord → (∀ k v, vars !! k = Some v → brace_free k = true ∧ inert (value_text v) = true) →
  forallb piece_ok ps = true →
  foldl (substitute vars) (print_pieces ps) ord = print_pieces (fill vars <$> ps).
Proof.
  clear encode decode decode_into fmt_f.
  intros [_ Ho] Hv Hps. rewrite substitute_all by done. f_equal. apply list_fmap_ext. intros _ [s|k] _; [done|].
  unfold fill_on. case_bool_decide as E; [done|]. unfold fill. rewrite Ho in E.
  destruct (vars !! k) eqn:Ek; [|done]. destruct E. eauto.
Qed.

(** ** Lemmas on variables *)

Lemma NoDup_key {A B} (f : A → B) l x y : NoDup (f <$> l) → x ∈ l → y ∈ l → f x = f y → x = y.
Proof.
  intros Hn (i & Hi)%list_elem_of_lookup (j & Hj)%list_elem_of_lookup E.
  assert (i = j) as -> by (eapply NoDup_lookup; [done|by rewrite list_lookup_fmap, Hi|by rewrite list_lookup_fmap, Hj, E]).
  congruence.
Qed.

Lemma process_loop_spec vars provided m0 :
  (∃ m, process_loop vars provided m0 = Ok m) ↔ Forall (acceptable provided) vars.
Proof.
  revert m0. induction vars as [|tv vars IH]; intros m0; simpl; [split; [constructor|eauto]|].
  rewrite Forall_cons. unfold acceptable at 1. destruct (chosen tv provided) as [[val|]|e].
  - destruct (validateVariableValue tv val) as [e|]; [|rewrite IH; naive_solver]. split; [intros [m [=]]|intros [[=] _]].
  - rewrite IH. naive_solver.
  - split; [intros [m [=]]|intros [[] _]].
Qed.

Lemma process_loop_lookup vars provided m0 m k v :
  NoDup (tvKey <$> vars) → process_loop vars provided m0 = Ok m →
  m !! k = Some v ↔ (∃ tv, tv ∈ vars ∧ tvKey tv = k ∧ chosen tv provided = Ok (Some v))
                    ∨ (m0 !! k = Some v ∧ ∀ tv, tv ∈ vars → tvKey tv = k → chosen tv provided = Ok None).
Proof.
  revert m0. induction vars as [|tv vars IH]; intros m0; simpl.
  - intros _ [= <-]. split; [intros H; right; split; [done|intros ? []%elem_of_nil]|intros [(? & []%elem_of_nil & _)|[? _]]; done].
  - intros [Hn Hnd]%NoDup_cons E. assert (∀ tv', tv' ∈ vars → tvKey tv' ≠ tvKey tv) as Hne.
    { intros tv' Hin Hk. apply Hn. rewrite <- Hk. by apply list_elem_of_fmap_2. }
    setoid_rewrite elem_of_cons. destruct (chosen tv provided) as [[val|]|e] eqn:Ec; [| |done].
    + destruct (validateVariableValue tv val) as [e|]; [done|]. rewrite (IH _ Hnd E), lookup_insert_Some. split.
      * intros [(tv' & H1 & H2 & H3)|[[[H1 H2]|[H1 H2]] H3]]; [left; eauto|left; exists tv; subst; eauto|].
        right. split; [done|]. intros tv' [->|Hin] Hk; [done|auto].
      * intros [(tv' & [->|Hin] & H2 & H3)|[H1 H2]]; [right|left; eauto|right].
        -- split; [left; split; congruence|]. intros tv' Hin Hk. destruct (Hne _ Hin). congruence.
        -- split; [|auto]. destruct (decide (tvKey tv = k)) as [Hk|Hk]; [|auto].
           specialize (H2 tv (or_introl eq_refl) Hk). congruence.
    + rewrite (IH _ Hnd E). split.
      * intros [(tv' & H1 & H2 & H3)|[H1 H2]]; [left; eauto|right]. split; [done|]. intros tv' [->|Hin] Hk; auto.
      * intros [(tv' & [->|Hin] & H2 & H3)|[H1 H2]]; [congruence|left; eauto|right; auto].
Qed.

Lemma validated_type tv v : validateVariableValue tv v = None → has_type (tvType tv) v.
Proof.
  unfold validateVariableValue, has_type. destruct (is_text_type _); [destruct v; naive_solver|].
  case_bool_decide; [destruct v; naive_solver|]. case_bool_decide; [destruct v; naive_solver|]. case_bool_decide; [|done].
  by destruct (marshal v).
Qed.

(** Processing the variables of a template succeeds exactly when every
    variable has a valid value, given or by default, or is optional; the result
    then holds exactly the chosen value of each variable, of the variable's type,
    and none that is not declared. *)
Lemma template_variables vars provided :
  ((∃ m, processVariables vars provided = Ok m) ↔ Forall (acceptable provided) vars)
  ∧ (NoDup (tvKey <$> vars) → ∀ m, processVariables vars provided = Ok m →
       (∀ k v, m !! k = Some v ↔ ∃ tv, tv ∈ vars ∧ tvKey tv = k ∧ chosen tv provided = Ok (Some v))
       ∧ ∀ tv v, tv ∈ vars → m !! tvKey tv = Some v → has_type (tvType tv) v).
Proof.
  split; [apply process_loop_spec|]. intros Hn m E.
  assert (∀ k v, m !! k = Some v ↔ ∃ tv, tv ∈ vars ∧ tvKey tv = k ∧ chosen tv provided = Ok (Some v)) as Hm.
  { intros k v. rewrite (process_loop_lookup _ _ _ _ _ _ Hn E), lookup_empty. naive_solver. }
  split; [done|]. intros tv v Hin Hv. apply Hm in Hv as (tv' & Hin' & Hk & Hc).
  assert (tv' = tv) as -> by (by eapply (NoDup_key tvKey)). apply validated_type.
  assert (Forall (acceptable provided) vars) as Ha by (apply (process_loop_spec _ _ ∅); eauto).
  rewrite Forall_forall in Ha. specialize (Ha _ Hin). unfold acceptable in Ha. by rewrite Hc in Ha.
Qed.

(** ** Instances *)

Lemma replace_absent old new s : contains s old = false → replace_all s old new = s.
Proof.
  unfold replace_all. induction s as [|c s IH]; [done|]. cbn [replace_skip contains]. intros [Hp Hs]%orb_false_iff.
  rewrite Hp. by rewrite IH.
Qed.

Lemma substitute_absent vars s keys :
  (∀ k, k ∈ keys → contains s ("{{" +:+ k +:+ "}}") = false) → foldl (substitute vars) s keys = s.
Proof.
  induction keys as [|k keys IH]; intros H; [done|]. simpl. unfold substitute at 2.
  assert ((match vars !! k with Some v => replace_all s ("{{" +:+ k +:+ "}}") (value_text v) | None => s end) = s) as ->.
  { destruct (vars !! k); [|done]. apply replace_absent, H. set_solver. }
  apply IH. intros k' Hk. apply H. set_solver.
Qed.

(** A workflow made into a template can be made again: an instance of a
    template created from a workflow, whose text names none of the variables, is
    a new inactive workflow of the user, in its first version, with the nodes,
    connections and settings of that workflow and the description and tags of
    the template; and it is counted as a use. *)
Lemma template_round_trip tm t0 t tm' body uuid0 now0 userID name provided vars uuid now1 now2 ord s :
  (∀ w s, encode w = Some s → decode_into s w = Some w) → decode (tpWorkflow t0) = Some body →
  CreateTemplate tm t0 uuid0 now0 db_ok = Ok (t, tm') → tpIsBuiltIn t0 = false → tmBuiltInTemplates tm !! tpID t = None →
  processVariables (tpVariables t0) provided = Ok vars → encode (instance_of t body uuid name userID now1 now2) = Some s →
  (∀ k, k ∈ ord → contains s ("{{" +:+ k +:+ "}}") = false) →
  ∃ tm'', InstantiateTemplate tm' (tpID t) userID name provided uuid now1 now2 ord db_ok
          = Ok (instance_of t body uuid name userID now1 now2, tm'')
    ∧ tpUsageCount <$> tmTemplates tm'' !! tpID t = Some (tpUsageCount t0 + 1)%Z.
Proof.
  intros Hjson Hd Hc Hb Hn Hp Hs Hord.
  assert (tpWorkflow t = tpWorkflow t0 ∧ tpVariables t = tpVariables t0 ∧ tpIsBuiltIn t = false
    ∧ tpUsageCount t = tpUsageCount t0 ∧ tmTemplates tm' !! tpID t = Some t
    ∧ tmBuiltInTemplates tm' = tmBuiltInTemplates tm) as (Hw & Hv & Hbt & Hu & Ht & Hbi).
  { unfold CreateTemplate, validateTemplate in Hc. repeat (case_match; simplify_eq);
      unfold insert_template, try, db_ok in *; repeat (case_match; simplify_eq); simpl; by rewrite lookup_insert_eq. }
  unfold InstantiateTemplate, GetTemplate. rewrite Hbi, Hn. unfold try, db_ok at 1. rewrite Ht, Hv, Hp, Hw, Hd.
  unfold applyVariables. rewrite Hs, substitute_absent, (Hjson _ _ Hs), Hbt by done. eexists. split; [done|].
  unfold count_use. simpl. rewrite lookup_alter_eq, Ht. simpl. by rewrite Hu.
Qed.

(** The built-in templates have no workflow, so none of them can be
    instantiated. *)
Lemma built_in_not_instantiable tbl now id userID name provided uuid now1 now2 ord fail :
  decode "" = None → is_Some (initBuiltInTemplates now !! id) →
  ∃ e, InstantiateTemplate (NewTemplateManager tbl now) id userID name provided uuid now1 now2 ord fail = Err e.
Proof.
  intros Hd [t Ht]. unfold InstantiateTemplate, GetTemplate. simpl. rewrite Ht.
  assert (tpWorkflow t = "") as Hw.
  { unfold initBuiltInTemplates in Ht. cbn [foldl registerBuiltInTemplate] in Ht. unfold registerBuiltInTemplate in Ht.
    repeat (apply lookup_insert_Some in Ht as [[_ <-]|[_ Ht]]; [done|]). by rewrite lookup_empty in Ht. }
  destruct (processVariables _ _); [|eauto]. rewrite Hw, Hd. eauto.
Qed.

(** The stored templates: under their IDs, with names of their own and valid
    categories, as long as they are created, used and deleted only. *)
Definition templates_ok (tbl : gmap string Template) : Prop :=
  (∀ id t, tbl !! id = Some t → tpID t = id ∧ tpName t ≠ "" ∧ tpCategory t ∈ validCategories
                                 ∧ validate_variables (tpVariables t) = None)
  ∧ ∀ i j t t', tbl !! i = Some t → tbl !! j = Some t' → tpName t = tpName t' → i = j.

Lemma validateTemplate_ok t t' :
  validateTemplate t = Ok t' → tpName t' = tpName t ∧ tpName t' ≠ "" ∧ tpCategory t' ∈ validCategories
                                ∧ validate_variables (tpVariables t') = None.
Proof.
  unfold validateTemplate. case_bool_decide; [done|]. set (t1 := if bool_decide _ then _ else t).
  assert (tpName t1 = tpName t) as Hn by (unfold t1; by case_bool_decide).
  destruct (decide (tpCategory t1 ∈ validCategories)) as [Hc|Hc]; [rewrite bool_decide_true by done|by rewrite bool_decide_false].
  simpl. destruct (_ && _); [done|]. destruct (validate_variables _) eqn:E; [done|].
  intros [= <-]. split_and!; [done|congruence|done|done].
Qed.

Lemma create_templates_ok tm t uuid now fail t' tm' :
  CreateTemplate tm t uuid now fail = Ok (t', tm') → templates_ok (tmTemplates tm) → templates_ok (tmTemplates tm').
Proof.
  unfold CreateTemplate. destruct (validateTemplate t) as [t1|] eqn:Ev; [|done].
  apply validateTemplate_ok in Ev as (_ & Hn & Hc & Hv). set (t2 := set_template _ _ _ _ _ _).
  assert (tpName t2 ≠ "" ∧ tpCategory t2 ∈ validCategories ∧ validate_variables (tpVariables t2) = None) as Ht2 by done.
  clearbody t2. destruct (insert_template _ _ _) as [tbl|] eqn:Ei; [|by case_match]. intros [= <- <-] [H1 H2]. simpl.
  unfold insert_template in Ei. apply try_ok in Ei. destruct (bool_decide _) eqn:E1; [done|]. simpl in Ei.
  case_bool_decide as E2; [done|]. injection Ei as <-.
  assert (∀ i ti, tmTemplates tm !! i = Some ti → tpName ti ≠ tpName t2) as Hfresh.
  { intros i ti Hi E. apply E2. rewrite <- E. apply list_elem_of_fmap. exists (i, ti). by rewrite elem_of_map_to_list. }
  split; intros *; rewrite !lookup_insert_Some.
  - intros [[<- <-]|[_ Hi]]; [done|by apply H1].
  - intros [[<- <-]|[_ Hi]] [[<- <-]|[_ Hj]] E; [done| | |by eapply H2].
    + by destruct (Hfresh _ _ Hj).
    + by destruct (Hfresh _ _ Hi).
Qed.

Inductive template_step : TemplateManager → TemplateManager → Prop :=
| ts_create tm t uuid now fail t' tm' :
    CreateTemplate tm t uuid now fail = Ok (t', tm') → template_step tm tm'
| ts_use tm id userID name provided uuid now1 now2 ord fail w tm' :
    InstantiateTemplate tm id userID name provided uuid now1 now2 ord fail = Ok (w, tm') → template_step tm tm'
| ts_delete tm id fail tm' : DeleteTemplate tm id fail = Ok tm' → template_step tm tm'.

Lemma templates_step tm tm' : template_step tm tm' → templates_ok (tmTemplates tm) → templates_ok (tmTemplates tm').
Proof.
  intros Hs Hok. destruct Hs as [|tm id userID name provided uuid now1 now2 ord fail w tm' E|tm id fail tm' E].
  - by eapply create_templates_ok.
  - unfold InstantiateTemplate in E. repeat (case_match; simplify_eq); [done|]. unfold count_use. case_match; [done|].
    destruct Hok as [Ha Hb]. split; simpl; intros *; rewrite !lookup_alter_Some.
    + intros [(<- & t' & Ht & ->)|[_ Ht]]; destruct (Ha _ _ Ht) as (? & ? & ? & ?); done.
    + intros [(<- & t1 & Ht & ->)|[_ Ht]] [(<- & t2 & Ht' & ->)|[_ Ht']] E; simpl in *; eauto.
  - unfold DeleteTemplate in E. repeat (case_match; simplify_eq). destruct Hok as [Ha Hb].
    split; simpl; intros *; rewrite !lookup_delete_Some; naive_solver.
Qed.

(** Any run keeps the stored templates in order. *)
Lemma templates_invariant tm tm' :
  rtc template_step tm tm' → templates_ok (tmTemplates tm) → templates_ok (tmTemplates tm').
Proof. apply (rtc_preserve _ (λ tm, templates_ok (tmTemplates tm))), templates_step. Qed.
End templates.

(** ** Concrete runs *)

Lemma substitution_correct_witness :
  foldl (substitute (λ _, None) (λ _, "") (λ _, "") {["n" := VInt 5]})
    (print_pieces [Text "{ a"; Hole "n"; Text "}"; Hole "m"]) ["n"] = "{ a5}{{m}}".
Proof.
  refine (eq_trans (substitution_correct (λ _, None) (λ _, "") (λ _, "") {["n" := VInt 5]} ["n"]
    [Text "{ a"; Hole "n"; Text "}"; Hole "m"] _ _ eq_refl) _).
  - split; [apply NoDup_singleton|]. intros k. rewrite lookup_singleton_is_Some. set_solver.
  - intros k v [<- <-]%lookup_singleton_Some. done.
  - reflexivity.
Defined.

Definition demo_template : Template :=
  {| tpID := "t"; tpName := "demo"; tpDescription := ""; tpCategory := ""; tpIcon := ""; tpWorkflow := "w"; tpVariables := [];
     tpTags := []; tpIsPublic := true; tpIsBuiltIn := false; tpCreatorID := "u"; tpUsageCount := 0;
     tpRating := S754_zero false; tpConfig := None; tpCreatedAt := 0; tpUpdatedAt := 0 |}.
Definition demo_manager : TemplateManager := NewTemplateManager ∅ 0.
Definition demo_stored : Template := set_template demo_template "t" CategoryCustom 0 1 1.

Lemma template_round_trip_witness :
  ∃ tm'', InstantiateTemplate (λ _, Some "x") (λ _, Some demo_flow) (λ _ w, Some w) (λ _, None) (λ _, "") (λ _, "") (λ _, "")
            (put_templates demo_manager {["t" := demo_stored]}) "t" "u" "copy" ∅ "id" 2 3 [] db_ok
          = Ok (instance_of demo_stored demo_flow "id" "copy" "u" 2 3, tm'')
    ∧ tpUsageCount <$> tmTemplates tm'' !! "t" = Some 1%Z.
Proof.
  by apply (template_round_trip (λ _, Some "x") (λ _, Some demo_flow) (λ _ w, Some w) (λ _, None) (λ _, "") (λ _, "") (λ _, "")
    demo_manager demo_template demo_stored (put_templates demo_manager {["t" := demo_stored]}) demo_flow "uuid" 1 "u" "copy"
    ∅ ∅ "id" 2 3 [] "x").
Defined.

(** A value that holds a placeholder is filled again or not, with the order. *)
Lemma nested_placeholder_order :
  let vars := <["a" := VStr "{{b}}"]> {["b" := VStr "x"]} in
  let apply ord := foldl (substitute (λ _, None) (λ _, "") (λ _, "") vars) "{{a}}" ord in
  apply ["a"; "b"] = "x" ∧ apply ["b"; "a"] = "{{b}}".
Proof. split; reflexivity. Qed.
