(* ===== verification/ValidationService.v ===== *)
(** internal/workflow/app/service/validation_service.go: the validation the
    workflow service offers, on top of the validator and the DAG.

    The orders of the map iterations of one call are collected in a record; a
    loop takes the order of its number. *)

From S2P Require Import Prelude GoValue GoLib GoText Graph Workflow Dag DagPaths Validator.

Record Orders := {
  ordNodes : nat → list string;
  ordEdges : nat → list string;
  ordDegrees : nat → list string;
  ordLevels : list string
}.

(** What an iteration over the maps of a workflow can be. *)
Definition orders_ok (w : Workflow) (o : Orders) : Prop :=
  (∀ i, range_order (node_map (wNodes w)) (ordNodes o i)) ∧
  (∀ i, range_order (connection_graph (wConnections w)) (ordEdges o i)) ∧
  (∀ i, range_order (in_degrees (NewDAG w (ordNodes o 0) (ordNodes o 1)) (ordNodes o 6) (ordEdges o 2)) (ordDegrees o i)).

Definition dag_of (w : Workflow) (o : Orders) : DAG := NewDAG w (ordNodes o 0) (ordNodes o 1).

(** ** Whole workflows *)

(** [getValidationCache] answers an error, so every call validates. *)
Definition getValidationCache (key : string) : result (list string * list string) := Err "cache not implemented".

(** The errors, the warnings and the error; [None] would be a loop. *)
Definition ValidateWorkflow (w : Workflow) (o : Orders) : option (list string * list string * option string) :=
  match getValidationCache ("validation:" +:+ wID w +:+ ":v" +:+ pretty (wVersion w)) with
  | Ok (errors, warnings) => Some (errors, warnings, None)
  | Err _ =>
      match Validator_Validate (NewValidator w) (ordNodes o 2) (ordNodes o 3) (ordNodes o 4) with
      | None => None
      | Some (v, err) => Some (vErrors v, vWarnings v, err)
      end
  end.

(** After a successful validation the order and the critical path are computed
    for the log. *)
Definition ValidateDAG (w : Workflow) (o : Orders) : option (option string) :=
  let dag := dag_of w o in
  match DAG_Validate dag (ordNodes o 2) (ordEdges o 0) (ordNodes o 3) (ordEdges o 1) (ordNodes o 4) with
  | None => None
  | Some (Err e) => Some (Some e)
  | Some (Ok _) =>
      match GetTopologicalOrder dag (ordNodes o 6) (ordEdges o 2) (ordDegrees o 0),
            GetCriticalPath dag (ordNodes o 6) (ordEdges o 2) (ordDegrees o 1) with
      | Some _, Some _ => Some None
      | _, _ => None
      end
  end.

Definition GetExecutionOrder (w : Workflow) (o : Orders) : option (result (list string)) :=
  let dag := dag_of w o in
  match HasCycle dag (ordNodes o 2) with
  | None => None
  | Some true => Some (Err ErrWorkflowHasCycle)
  | Some false => GetTopologicalOrder dag (ordNodes o 6) (ordEdges o 2) (ordDegrees o 0)
  end.

(** ** Nodes *)

Definition missing (params : vmap) (what field : string) : list string :=
  match params !! field with
  | None => [what +:+ " node missing '" +:+ field +:+ "' parameter"]
  | Some _ => []
  end.
(** A parameter that is a string has to be one of those listed. *)
Definition listed (params : vmap) (field : string) (valid : list string) (msg : string) : list string :=
  match params !! field with
  | Some (VStr s) => if bool_decide (s ∈ valid) then [] else [msg +:+ s]
  | _ => []
  end.

Definition VS_validateHTTPNode (n : Node) : list string :=
  match nParameters n with
  | None => ["HTTP node missing parameters"]
  | Some params =>
      missing params "HTTP" "url" ++ missing params "HTTP" "method"
      ++ listed params "method" ["GET"; "POST"; "PUT"; "DELETE"; "PATCH"; "HEAD"] "Invalid HTTP method: "
      ++ match params !! "timeout" with
         | Some (VInt t) => if bool_decide (t ≤ 0)%Z || bool_decide (300 < t)%Z
                            then ["Invalid timeout: " +:+ pretty t +:+ " (must be 1-300 seconds)"] else []
         | _ => []
         end
  end.

Definition VS_validateDatabaseNode (n : Node) : list string :=
  match nParameters n with
  | None => ["Database node missing parameters"]
  | Some params =>
      missing params "Database" "operation" ++ missing params "Database" "table"
      ++ listed params "operation" ["select"; "insert"; "update"; "delete"; "upsert"] "Invalid database operation: "
  end.

Definition VS_validateEmailNode (n : Node) : list string :=
  match nParameters n with
  | None => ["Email node missing parameters"]
  | Some params =>
      missing params "Email" "to" ++ missing params "Email" "subject"
      ++ match params !! "to" with
         | Some (VStr s) => if (String.length s <? 3)%nat || (254 <? String.length s)%nat
                            then ["Invalid email address length"] else []
         | _ => []
         end
  end.

Definition VS_validateSlackNode (n : Node) : list string :=
  match nParameters n with
  | None => ["Slack node missing parameters"]
  | Some params => missing params "Slack" "channel" ++ missing params "Slack" "message"
  end.

Definition VS_validateCodeNode (n : Node) : list string :=
  match nParameters n with
  | None => ["Code node missing parameters"]
  | Some params =>
      missing params "Code" "code" ++ listed params "language" ["javascript"; "python"; "go"] "Unsupported language: "
  end.

Definition ValidateNode (n : Node) : list string :=
  (if bool_decide (nType n ∈ validTypes) then [] else ["Invalid node type: " +:+ nType n])
  ++ (if bool_decide (nType n = NodeTypeHTTPRequest) then VS_validateHTTPNode n
      else if bool_decide (nType n = NodeTypeDatabase) then VS_validateDatabaseNode n
      else if bool_decide (nType n = NodeTypeEmail) then VS_validateEmailNode n
      else if bool_decide (nType n = NodeTypeSlack) then VS_validateSlackNode n
      else if bool_decide (nType n = NodeTypeCode) then VS_validateCodeNode n
      else []).

(** ** Connections *)

Definition ValidateConnection (source target : Node) (conn : Connection) : option string :=
  if bool_decide (nType source = NodeTypeMerge) && negb (bool_decide (cSourcePort conn ∈ [""; "output"]))
  then Some "merge node can only use 'output' port"
  else if bool_decide (nType target = NodeTypeTrigger) then Some "trigger nodes cannot have incoming connections"
  else if bool_decide (nType source = NodeTypeSplit) && negb (bool_decide (cSourcePort conn ∈ ["true"; "false"; "output"]))
  then Some ("split node has invalid output port: " +:+ cSourcePort conn)
  else if bool_decide (nType source = NodeTypeCondition) && negb (bool_decide (cSourcePort conn ∈ ["true"; "false"]))
  then Some ("condition node has invalid output port: " +:+ cSourcePort conn)
  else None.

(** ** Complexity *)

Record Complexity := {
  cxTotalNodes : nat;
  cxTotalConnections : nat;
  cxMaxDepth : Z;
  cxCriticalPathLength : nat;
  cxExecutionPaths : nat;
  cxBranchingFactor : nat;
  cxStartNodes : nat;
  cxEndNodes : nat;
  cxNodeTypes : gmap string Z;
  cxHasLoops : bool;
  cxHasConditions : bool;
  cxScore : Z
}.

Definition calculateComplexityScore (nodes connections depth : Z) : Z := (nodes + connections * 2 + depth * 3)%Z.

Definition count_types (nodes : list Node) : gmap string Z :=
  foldl (λ m n, <[nType n := (get_int m (nType n) + 1)%Z]> m) ∅ nodes.

Definition AnalyzeComplexity (w : Workflow) (o : Orders) : option Complexity :=
  let dag := dag_of w o in
  match GetTopologicalOrder dag (ordNodes o 6) (ordEdges o 2) (ordDegrees o 0),
        GetCriticalPath dag (ordNodes o 6) (ordEdges o 2) (ordDegrees o 1),
        GetExecutionPaths dag, CalculateLevels dag (ordNodes o 5) with
  | Some _, Some path, Some paths, Some levels =>
      let maxDepth := foldl (λ m id, match levels !! id with
                                     | Some l => if bool_decide (m < l)%Z then l else m
                                     | None => m
                                     end) 0%Z (ordLevels o) in
      let branching := foldl (λ m id, if (m <? length (succs (dEdges dag) id))%nat then length (succs (dEdges dag) id) else m)
                         0 (ordEdges o 3) in
      let types := count_types (wNodes w) in
      Some {| cxTotalNodes := length (wNodes w); cxTotalConnections := length (wConnections w); cxMaxDepth := maxDepth;
              cxCriticalPathLength := length path; cxExecutionPaths := length paths; cxBranchingFactor := branching;
              cxStartNodes := length (dStartNodes dag); cxEndNodes := length (dEndNodes dag); cxNodeTypes := types;
              cxHasLoops := bool_decide (0 < get_int types NodeTypeLoop)%Z;
              cxHasConditions := bool_decide (0 < get_int types NodeTypeCondition)%Z;
              cxScore := calculateComplexityScore (Z.of_nat (length (wNodes w))) (Z.of_nat (length (wConnections w))) maxDepth |}
  | _, _, _, _ => None
  end.

(** ** The critical path always ends

    Also where a trigger with incoming edges has its distance reset. *)

Lemma relax_parents (g : graph) c ns s (P : gmap string string → Prop) :
  (∀ parent n, n ∈ ns → P parent → P (<[n := c]> parent)) → P s.2 → P (foldl (relax c) s ns).2.
Proof.
  revert s. induction ns as [|n ns IH]; intros [dist parent] Hstep Hp; [done|]. cbn [foldl]. apply IH.
  - intros q m Hm. apply Hstep. by right.
  - unfold relax. case_bool_decide; [|done]. simpl. apply Hstep; [by left|done].
Qed.

Lemma critical_parents d order s :
  (∀ v u, s.2 !! v = Some u → edge (dEdges d) u v) →
  ∀ v u, (foldl (critical_step d) s order).2 !! v = Some u → edge (dEdges d) u v.
Proof.
  revert s. induction order as [|c order IH]; intros [dist parent] Hs; [done|]. cbn [foldl]. apply IH.
  unfold critical_step. apply (relax_parents (dEdges d) c _ _ (λ p, ∀ v u, p !! v = Some u → edge (dEdges d) u v)); [|done].
  intros p n Hn Hp v u. rewrite lookup_insert_Some. intros [[<- <-]|[_ ?]]; [done|by apply Hp].
Qed.

Lemma follow_ends g order parent n l1 x l2 path :
  topo_sorted g order → (∀ v u, parent !! v = Some u → edge g u v) → order = l1 ++ x :: l2 → length l1 < n →
  ∃ p, follow n parent x path = Some p.
Proof.
  intros Ht Hp. revert l1 x l2 path. induction n as [|n IH]; intros l1 x l2 path Ho Hl; [lia|]. cbn [follow].
  case_bool_decide as Hx; [eauto|]. destruct (parent !! x) as [u|] eqn:Eu; simpl; [|destruct n; simpl; by eauto].
  pose proof (Ht _ _ _ Ho _ (Hp _ _ Eu)) as Hin. apply list_elem_of_split in Hin as (m1 & m2 & ->).
  apply (IH m1 u (m2 ++ x :: l2)); [by rewrite Ho, <- app_assoc|]. rewrite length_app in Hl. simpl in Hl. lia.
Qed.

Lemma best_end_in d dist : (best_end d dist).2 = "" ∨ (best_end d dist).2 ∈ dEndNodes d.
Proof.
  unfold best_end. assert (∀ l acc, (acc.2 = "" ∨ acc.2 ∈ dEndNodes d) → (∀ x, x ∈ l → x ∈ dEndNodes d) →
    (foldl (λ acc nodeID, if bool_decide (acc.1 < get_int dist nodeID)%Z then (get_int dist nodeID, nodeID) else acc) acc l).2 = ""
    ∨ (foldl (λ acc nodeID, if bool_decide (acc.1 < get_int dist nodeID)%Z then (get_int dist nodeID, nodeID) else acc) acc l).2
      ∈ dEndNodes d) as H; [|apply H; [by left|done]].
  induction l as [|x l IH]; intros acc Ha Hl; [done|]. cbn [foldl]. apply IH; [|set_solver].
  case_bool_decide; [right; set_solver|done].
Qed.

Lemma GetCriticalPath_total d ordN ordE ordI :
  range_order (dNodes d) ordN → range_order (dEdges d) ordE → range_order (in_degrees d ordN ordE) ordI →
  endpoints_exist d → (∀ v, v ∈ dEndNodes d → v ∈ dom (dNodes d)) →
  ∃ path, GetCriticalPath d ordN ordE ordI = Some path.
Proof.
  intros HN HE HI Hend Hends. unfold GetCriticalPath.
  destruct (GetTopologicalOrder_spec d ordN ordE ordI HN HE HI Hend) as ([order|e] & -> & Hr); [|eauto].
  destruct Hr as (_ & Hperm & Htopo). pose proof (critical_parents d order (∅, ∅)) as Hp.
  destruct (foldl (critical_step d) (∅, ∅) order) as [dist parent]. pose proof (best_end_in d dist) as He.
  destruct (best_end d dist) as [maxDist endNode]. simpl in *. destruct (decide (endNode = "")) as [->|Hne].
  { exists []. by destruct (Z.to_nat maxDist + length order). }
  destruct He as [He|He]; [done|]. assert (endNode ∈ order) as Hin.
  { rewrite Hperm, (range_order_elem _ _ _ HN). apply elem_of_dom. by apply Hends. }
  apply list_elem_of_split in Hin as (l1 & l2 & Ho). eapply (follow_ends (dEdges d) order); [done| |done|].
  - apply Hp. intros v u. by rewrite lookup_empty.
  - rewrite Ho, length_app. simpl. lia.
Qed.

(** ** The DAG of a workflow *)

Lemma dag_of_ends w o v : orders_ok w o → v ∈ dEndNodes (dag_of w o) → v ∈ dom (dNodes (dag_of w o)).
Proof.
  intros [HN _] [_ Hv]%list_elem_of_filter. apply elem_of_dom. by apply (range_order_elem _ _ _ (HN 1)).
Qed.

Lemma valid_workflow_dag w o :
  valid_workflow w → endpoints_exist (dag_of w o) ∧ acyclic (dEdges (dag_of w o)).
Proof.
  intros [_ _ He Hac _]. split.
  - intros x y (c & Hc & <- & <-)%connection_graph_edge. simpl. rewrite !elem_of_dom, !node_map_lookup. by apply He.
  - intros x Hx. apply (Hac x). by apply tc_edge_conn.
Qed.

Lemma critical_path_returns w o i :
  orders_ok w o → endpoints_exist (dag_of w o) →
  ∃ path, GetCriticalPath (dag_of w o) (ordNodes o 6) (ordEdges o 2) (ordDegrees o i) = Some path.
Proof.
  intros Ho Hend. pose proof Ho as (HN & HE & HI).
  apply GetCriticalPath_total; [apply HN|apply HE|apply HI|done|]. intros v. by apply dag_of_ends.
Qed.

Lemma ValidateDAG_spec w o : orders_ok w o → ∃ r, ValidateDAG w o = Some r ∧ (r = None ↔ valid_dag (dag_of w o)).
Proof.
  intros Ho. pose proof Ho as (HN & HE & HI). unfold ValidateDAG.
  destruct (DAG_Validate_spec (dag_of w o) (ordNodes o 2) (ordEdges o 0) (ordNodes o 3) (ordEdges o 1) (ordNodes o 4))
    as ([[]|e] & -> & Hv); [apply HN|apply HE|apply HN|apply HE|apply HN| |].
  - assert (valid_dag (dag_of w o)) as Hd by by apply Hv.
    assert (endpoints_exist (dag_of w o)) as Hend.
    { intros x y Hxy. split; [|by eapply vd_targets]. eapply vd_sources; [done|]. by eapply edge_dom. }
    destruct (GetTopologicalOrder_spec (dag_of w o) (ordNodes o 6) (ordEdges o 2) (ordDegrees o 0)) as (r & -> & _);
      [apply HN|apply HE|apply HI|done|].
    destruct (critical_path_returns w o 1 Ho Hend) as [path ->]. exists None. split; [done|]. by split.
  - eexists. split; [done|]. split; [done|]. intros Hd. by apply Hv in Hd.
Qed.

Lemma ValidateWorkflow_spec w o :
  orders_ok w o → ∃ errors warnings err, ValidateWorkflow w o = Some (errors, warnings, err)
    ∧ (err = None ↔ valid_workflow w) ∧ (err = None ↔ errors = []).
Proof.
  intros (HN & _ & _). unfold ValidateWorkflow. simpl.
  destruct (Validator_Validate_spec (NewValidator w) (ordNodes o 2) (ordNodes o 3) (ordNodes o 4) (HN 2) eq_refl)
    as (v & err & -> & _ & Hok & He & _). eauto 10.
Qed.

Lemma GetExecutionOrder_spec w o :
  orders_ok w o → valid_workflow w →
  ∃ l, GetExecutionOrder w o = Some (Ok l) ∧ l ≡ₚ ordNodes o 6
       ∧ ∀ l1 x l2 u, l = l1 ++ x :: l2 → conn_edge (wConnections w) u x → u ∈ l1.
Proof.
  intros (HN & HE & HI) Hw. destruct (valid_workflow_dag w o Hw) as [Hend Hac]. unfold GetExecutionOrder.
  destruct (HasCycle_spec (dag_of w o) (ordNodes o 2) (HN 2)) as (b & Hb & _). rewrite Hb.
  pose proof (HasCycle_acyclic (dag_of w o) _ b (HN 2) Hend Hb) as Hcyc.
  destruct b; [destruct (proj1 Hcyc eq_refl) as (x & Hx); by destruct (Hac x)|].
  destruct (GetTopologicalOrder_spec (dag_of w o) (ordNodes o 6) (ordEdges o 2) (ordDegrees o 0) (HN 6) (HE 2) (HI 0) Hend)
    as ([l|e] & -> & Hr); [|destruct Hr as (_ & x & Hx); by destruct (Hac x)].
  destruct Hr as (_ & Hp & Ht). exists l. split_and!; [done..|]. intros l1 x l2 u Hl Hu. eapply Ht; [done|].
  by apply connection_graph_edge.
Qed.

Lemma AnalyzeComplexity_total w o :
  orders_ok w o → valid_workflow w → ∃ c, AnalyzeComplexity w o = Some c.
Proof.
  intros Ho Hw. pose proof Ho as (HN & HE & HI). destruct (valid_workflow_dag w o Hw) as [Hend Hac]. unfold AnalyzeComplexity.
  destruct (GetTopologicalOrder_spec (dag_of w o) (ordNodes o 6) (ordEdges o 2) (ordDegrees o 0) (HN 6) (HE 2) (HI 0) Hend)
    as (r & -> & _).
  destruct (critical_path_returns w o 1 Ho Hend) as [path ->].
  destruct (proj1 (GetExecutionPaths_correct (dag_of w o)) Hac) as (ps & -> & _).
  destruct (CalculateLevels_correct (dag_of w o) (ordNodes o 5) Hac (HN 5)) as (levels & -> & _). eauto.
Qed.

(** The service's validation always returns: [ValidateWorkflow] succeeds
    exactly on the valid workflows and [ValidateDAG] exactly on the valid DAGs,
    the log's topological order and critical path included; and for a valid
    workflow the execution order is found, contains every node once with every
    connection pointing forward, and the complexity analysis returns. *)
Lemma validation_service_correct w o :
  orders_ok w o →
  (∃ errors warnings err, ValidateWorkflow w o = Some (errors, warnings, err)
     ∧ (err = None ↔ valid_workflow w) ∧ (err = None ↔ errors = []))
  ∧ (∃ r, ValidateDAG w o = Some r ∧ (r = None ↔ valid_dag (dag_of w o)))
  ∧ (valid_workflow w →
       (∃ l, GetExecutionOrder w o = Some (Ok l) ∧ l ≡ₚ ordNodes o 6
             ∧ ∀ l1 x l2 u, l = l1 ++ x :: l2 → conn_edge (wConnections w) u x → u ∈ l1)
       ∧ ∃ c, AnalyzeComplexity w o = Some c).
Proof.
  intros Ho. split_and!; [by apply ValidateWorkflow_spec|by apply ValidateDAG_spec|]. intros Hw.
  split; [by apply GetExecutionOrder_spec|by apply AnalyzeComplexity_total].
Qed.

Definition demo_orders : Orders :=
  {| ordNodes := λ _, demo_order; ordEdges := λ _, keys (dEdges demo_dag);
     ordDegrees := λ _, keys (in_degrees demo_dag demo_order (keys (dEdges demo_dag))); ordLevels := demo_order |}.

Lemma validation_service_correct_witness :
  ∃ r, ValidateDAG demo_diamond demo_orders = Some r ∧ (r = None ↔ valid_dag (dag_of demo_diamond demo_orders)).
Proof.
  apply (validation_service_correct demo_diamond demo_orders). split_and!; intros i; apply keys_range_order.
Defined.

(** A timeout that comes from JSON is a float, and is not checked. *)
Lemma json_timeout_unchecked f n params :
  nType n = NodeTypeHTTPRequest → nParameters n = Some params → is_Some (params !! "url") →
  params !! "method" = Some (VStr "GET") → params !! "timeout" = Some (VFloat f) → ValidateNode n = [].
Proof.
  intros Ht Hp [u Hu] Hm Hto. unfold ValidateNode, VS_validateHTTPNode, missing, listed.
  rewrite Ht, Hp, Hu, Hm, Hto. reflexivity.
Qed.
