(* ===== verification/WorkflowService.v ===== *)
(** internal/workflow/app/service/service.go: the workflow service, which
    composes the repository, the validation, the triggers, the templates and the
    variables.

    The trigger manager is the interface of ports/trigger_manager.go, here the
    class [TriggerPort] with its promise [TriggerLaws]; the manager of
    [TriggerManager] is an instance.  What a call reads from outside (the clock,
    fresh IDs, the answers of the database and of the event bus) is its [Call]. *)

From S2P Require Import Prelude GoValue GoLib GoText Graph Workflow Dag DagPaths Validator Variables.
From S2P Require Import Schedule CronScheduler Triggers TriggerManager WorkflowRepo Templates ValidationService.

Definition ErrWorkflowNotFound := "workflow not found".
Definition ErrInvalidWorkflow := "invalid workflow".
Definition ErrUnauthorized := "unauthorized".
Definition ErrWorkflowInactive := "workflow is inactive".
Definition ErrServiceTemplateNotFound := "template not found".

(** ** The interface of the trigger manager

    [T] is its state and [A] what a call of it reads from outside. *)

Class TriggerPort (T A : Type) := {
  tp_get : T → string → A → result WorkflowTrigger;
  tp_list : T → string → A → result (list WorkflowTrigger);
  tp_create : T → string → config → A → outcome (result WorkflowTrigger * T);
  tp_update : T → string → config → A → outcome (result WorkflowTrigger * T);
  tp_delete : T → string → A → option string * T;
  tp_activate : T → string → A → outcome (option string * T);
  tp_deactivate : T → string → A → option string * T;
  tp_test : T → string → vmap → A → outcome (result bool);
  tp_start : T → A → outcome (option string * T);
  tp_stop : T → T
}.

(** What the manager promises: it has a table, reads answer from it, and
    activating and deactivating change one row's status and nothing else of it. *)
Definition same_but_status (t t' : WorkflowTrigger) : Prop :=
  wtID t' = wtID t ∧ wtWorkflowID t' = wtWorkflowID t ∧ wtType t' = wtType t ∧ wtConfig t' = wtConfig t.

(** A call that gives one row the status, or answers an error. *)
Definition changes_status {T A} (table : T → gmap string WorkflowTrigger) (ok : T → Prop)
    (call : T → string → A → outcome (option string * T)) (status : string) : Prop :=
  ∀ t id a e t', ok t → call t id a = Ret (e, t') →
    ok t' ∧ (∀ i, i ≠ id → table t' !! i = table t !! i)
    ∧ match e with
      | Some _ => table t' !! id = table t !! id
      | None => ∃ r r', table t !! id = Some r ∧ table t' !! id = Some r' ∧ same_but_status r r' ∧ wtStatus r' = status
      end.

Class TriggerLaws (T A : Type) `{!TriggerPort T A} := {
  tl_table : T → gmap string WorkflowTrigger;
  tl_ok : T → Prop;
  tl_get t id a r : tl_ok t → tp_get t id a = Ok r → tl_table t !! id = Some r ∧ wtID r = id;
  tl_list t wf a l : tl_ok t → tp_list t wf a = Ok l →
    ∀ r, r ∈ l → tl_table t !! wtID r = Some r ∧ wtWorkflowID r = wf;
  tl_activate : changes_status tl_table tl_ok tp_activate TriggerStatusActive;
  tl_deactivate : changes_status tl_table tl_ok (λ t id a, Ret (tp_deactivate t id a)) TriggerStatusInactive
}.

(** ** State *)

Record WorkflowService (T : Type) := {
  wsDB : WorkflowDB;
  wsTriggers : T;
  wsTemplates : TemplateManager;
  wsVariables : VariableManager;
  wsEvents : list (string * vmap)
}.
Arguments wsDB {_}. Arguments wsTriggers {_}. Arguments wsTemplates {_}. Arguments wsVariables {_}. Arguments wsEvents {_}.

(** What one call reads from outside. *)
Record Call (A : Type) := {
  caUuid : nat → string;
  caNow : nat → Z;
  caStamp : string;                     (* the clock in RFC 3339 *)
  caFail : nat → db_fail;               (* for each access to the repository *)
  caBus : option string;
  caOrd : list string;                  (* the order of the rows *)
  caTrigger : nat → A
}.
Arguments caUuid {_}. Arguments caNow {_}. Arguments caStamp {_}. Arguments caFail {_}. Arguments caBus {_}.
Arguments caOrd {_}. Arguments caTrigger {_}.

(** ** Requests *)

Record CreateWorkflowRequest := {
  crUserID : string;
  crName : string;
  crDescription : string;
  crNodes : option (list Node);
  crConnections : option (list Connection);
  crTags : option (list string)
}.

Record UpdateWorkflowRequest := {
  urWorkflowID : string;
  urUserID : string;
  urName : string;
  urDescription : string;
  urNodes : option (list Node);
  urConnections : option (list Connection);
  urTags : option (list string);
  urVersion : Z
}.

Record CreateTemplateRequest := {
  ctCreatorID : string;
  ctName : string;
  ctDescription : string;
  ctCategory : string;
  ctIcon : string;
  ctWorkflow : Workflow;
  ctTags : list string
}.

(** The fields a request sets: a nil slice and an empty text set nothing. *)
Definition set_fields (w : Workflow) (name description : string) (nodes : list Node) (conns : list Connection)
    (tags : list string) : Workflow :=
  {| wID := wID w; wName := name; wDescription := description; wUserID := wUserID w; wTeamID := wTeamID w;
     wNodes := nodes; wConnections := conns; wSettings := wSettings w; wStatus := wStatus w; wIsActive := wIsActive w;
     wVersion := wVersion w; wTags := tags; wCreatedAt := wCreatedAt w; wUpdatedAt := wUpdatedAt w;
     wDeletedAt := wDeletedAt w |}.
Definition or_old (new old : string) : string := if bool_decide (new = "") then old else new.

Definition apply_update (w : Workflow) (req : UpdateWorkflowRequest) : Workflow :=
  set_fields w (or_old (urName req) (wName w)) (or_old (urDescription req) (wDescription w))
    (default (wNodes w) (urNodes req)) (default (wConnections w) (urConnections req)) (default (wTags w) (urTags req)).

(** The check before a workflow is stored: one without nodes is not validated. *)
Definition check_graph (w : Workflow) : outcome (option string) :=
  if bool_decide (wNodes w = []) then Ret None
  else match Workflow_Validate w with
       | None => NoFuel
       | Some (Ok _) => Ret None
       | Some (Err _) => Ret (Some ErrInvalidWorkflow)
       end.


(** ** Calls

    A method changes the state step by step: an error returns, and what was
    done before it stays done. *)
Definition svc (T R : Type) : Type := WorkflowService T → outcome (result R * WorkflowService T).

#[global] Instance svc_ret T : MRet (svc T) := λ R r s, Ret (Ok r, s).
#[global] Instance svc_bind T : MBind (svc T) := λ R R' k m s,
  match m s with
  | Ret (Ok r, s') => k r s'
  | Ret (Err e, s') => Ret (Err e, s')
  | Panic msg => Panic msg
  | NoFuel => NoFuel
  end.

Section steps.
Context {T : Type}.

Definition throw {R} (e : string) : svc T R := λ s, Ret (Err e, s).
Definition of_result {R} (r : result R) : svc T R := λ s, Ret (r, s).

(** [if err != nil { return e }]. *)
Definition answering {R} (e : string) (m : svc T R) : svc T R := λ s,
  match m s with
  | Ret (Err _, s') => Ret (Err e, s')
  | r => r
  end.

Definition set_db (s : WorkflowService T) (db : WorkflowDB) : WorkflowService T :=
  {| wsDB := db; wsTriggers := wsTriggers s; wsTemplates := wsTemplates s; wsVariables := wsVariables s;
     wsEvents := wsEvents s |}.
Definition set_triggers (s : WorkflowService T) (t : T) : WorkflowService T :=
  {| wsDB := wsDB s; wsTriggers := t; wsTemplates := wsTemplates s; wsVariables := wsVariables s;
     wsEvents := wsEvents s |}.
Definition set_templates (s : WorkflowService T) (tm : TemplateManager) : WorkflowService T :=
  {| wsDB := wsDB s; wsTriggers := wsTriggers s; wsTemplates := tm; wsVariables := wsVariables s;
     wsEvents := wsEvents s |}.
Definition set_variables (s : WorkflowService T) (vm : VariableManager) : WorkflowService T :=
  {| wsDB := wsDB s; wsTriggers := wsTriggers s; wsTemplates := wsTemplates s; wsVariables := vm;
     wsEvents := wsEvents s |}.
Definition set_events (s : WorkflowService T) (ev : list (string * vmap)) : WorkflowService T :=
  {| wsDB := wsDB s; wsTriggers := wsTriggers s; wsTemplates := wsTemplates s; wsVariables := wsVariables s;
     wsEvents := ev |}.

(** Calls of the repository. *)
Definition reading {R} (f : WorkflowDB → result R) : svc T R := λ s, Ret (f (wsDB s), s).
Definition writing {R} (f : WorkflowDB → result (R * WorkflowDB)) : svc T R := λ s,
  match f (wsDB s) with
  | Ok (r, db) => Ret (Ok r, set_db s db)
  | Err e => Ret (Err e, s)
  end.
Definition saving (f : WorkflowDB → result WorkflowDB) : svc T unit :=
  writing (λ db, match f db with Ok db' => Ok (tt, db') | Err e => Err e end).

(** Calls of the managers. *)
Definition on_templates {R} (f : TemplateManager → result (R * TemplateManager)) : svc T R := λ s,
  match f (wsTemplates s) with
  | Ok (r, tm) => Ret (Ok r, set_templates s tm)
  | Err e => Ret (Err e, s)
  end.
Definition on_variables (f : VariableManager → VariableManager) : svc T unit := λ s,
  Ret (Ok tt, set_variables s (f (wsVariables s))).
Definition on_triggers {R} (f : T → outcome (result R * T)) : svc T R := λ s,
  match f (wsTriggers s) with
  | Ret (r, t) => Ret (r, set_triggers s t)
  | Panic msg => Panic msg
  | NoFuel => NoFuel
  end.
Definition asking {R} (f : T → result R) : svc T R := λ s, Ret (f (wsTriggers s), s).
(** A call that answers only an error. *)
Definition as_result {B} (p : option string * B) : result unit * B :=
  (match p.1 with Some e => Err e | None => Ok tt end, p.2).

(** The failure to publish is logged. *)
Definition publish (bus : option string) (type : string) (payload : list (string * value)) : svc T unit := λ s,
  Ret (Ok tt, match bus with
              | Some _ => s
              | None => set_events s (wsEvents s ++ [(type, list_to_map payload)])
              end).

(** A computation that needs fuel. *)
Definition fueled {R} (m : option R) : svc T R := λ s,
  match m with Some r => Ret (Ok r, s) | None => NoFuel end.
Definition checked (m : outcome (option string)) : svc T unit := λ s,
  match m with
  | Ret (Some e) => Ret (Err e, s)
  | Ret None => Ret (Ok tt, s)
  | Panic msg => Panic msg
  | NoFuel => NoFuel
  end.
Definition guard_ (b : bool) (e : string) : svc T unit := if b then mret tt else throw e.
End steps.

(** ** The service

    JSON, the formats of values, the operators of the database. *)
Section service.
Context {T A : Type} `{!TriggerPort T A}.
Context (encode : Workflow → option string) (decode : string → option Workflow)
  (decode_into : string → Workflow → option Workflow) (marshal : value → option string)
  (fmt_float : spec_float → string) (fmt_time : Z → string) (fmt_f : spec_float → string)
  (ilike : string → string → bool) (column_le : string → Workflow → Workflow → bool).

Abbreviation M := (svc T).

(** The workflow of the user, or the error [e] of the caller. *)
Definition owned (c : Call A) (e workflowID userID : string) : M Workflow :=
  answering e (reading (λ db, WorkflowRepo.GetWorkflow db workflowID userID (caFail c 0))).
Abbreviation found c := (owned c ErrWorkflowNotFound).

(** *** Reading workflows *)

Definition list_options (userID status search : string) (tags : list string) (page limit : Z) : ListWorkflowsOptions :=
  {| loUserID := userID; loTeamID := ""; loStatus := status; loIsActive := None; loTags := tags; loSearch := search;
     loPage := page; loLimit := limit; loSortBy := ""; loSortDesc := false |}.

Definition ListWorkflows (c : Call A) (userID : string) (page limit : Z) (status : string) : M (list Workflow * Z) :=
  reading (λ db, WorkflowRepo.ListWorkflows ilike column_le db (caOrd c)
                   (list_options userID status "" [] page limit) (caFail c 0)).

(** The category is not used. *)
Definition SearchWorkflows (c : Call A) (userID query category : string) (tags : list string) (page limit : Z) :
    M (list Workflow * Z) :=
  reading (λ db, WorkflowRepo.ListWorkflows ilike column_le db (caOrd c)
                   (list_options userID "" query tags page limit) (caFail c 0)).

Definition GetWorkflow (c : Call A) (workflowID userID : string) : M Workflow :=
  reading (λ db, WorkflowRepo.GetWorkflow db workflowID userID (caFail c 0)).

(** *** Creating, updating, deleting *)

Definition CreateWorkflow (c : Call A) (req : CreateWorkflowRequest) : M Workflow :=
  _ ← guard_ (negb (bool_decide (crName req = ""))) ErrInvalidWorkflow;
  let wf := NewWorkflow (caUuid c 0) (crName req) (crDescription req) (crUserID req) (caNow c 0) (caNow c 1) in
  let wf := set_fields wf (wName wf) (wDescription wf) (default (wNodes wf) (crNodes req))
              (default (wConnections wf) (crConnections req)) (default (wTags wf) (crTags req)) in
  _ ← checked (check_graph wf);
  wf ← writing (λ db, WorkflowRepo.CreateWorkflow encode db wf (caUuid c 1) (caNow c 2) (caFail c 0));
  _ ← publish (caBus c) "workflow.created"
        [("workflow_id", VStr (wID wf)); ("user_id", VStr (wUserID wf)); ("name", VStr (wName wf))];
  mret wf.

(** The repository numbers the version again. *)
Definition UpdateWorkflow (c : Call A) (req : UpdateWorkflowRequest) : M Workflow :=
  wf ← found c (urWorkflowID req) (urUserID req);
  _ ← guard_ (negb (bool_decide (0 < urVersion req)%Z && negb (bool_decide (wVersion wf = urVersion req))))
        "version mismatch - workflow was modified by another user";
  let previousVersion := wVersion wf in
  let wf := set_version (apply_update wf req) (wVersion wf + 1) (caNow c 0) in
  _ ← checked (check_graph wf);
  wf ← writing (λ db, WorkflowRepo.UpdateWorkflow encode db wf (caUuid c 0) (caNow c 1) (caFail c 1));
  _ ← publish (caBus c) "workflow.updated"
        [("workflow_id", VStr (wID wf)); ("user_id", VStr (wUserID wf)); ("version", VInt (wVersion wf));
         ("previous_version", VInt previousVersion)];
  mret wf.

Definition DeleteWorkflow (c : Call A) (workflowID userID : string) : M unit :=
  wf ← found c workflowID userID;
  _ ← saving (λ db, WorkflowRepo.DeleteWorkflow db workflowID userID (caNow c 0) (caFail c 1));
  publish (caBus c) "workflow.deleted"
    [("workflow_id", VStr workflowID); ("user_id", VStr userID); ("name", VStr (wName wf))].

(** *** Versions *)

Definition GetWorkflowVersions (c : Call A) (workflowID userID : string) : M (list WorkflowVersion) :=
  _ ← found c workflowID userID;
  reading (λ db, WorkflowRepo.ListVersions db (caOrd c) workflowID (caFail c 1)).

Definition GetWorkflowVersion (c : Call A) (workflowID : string) (version : Z) (userID : string) : M Workflow :=
  _ ← found c workflowID userID;
  wv ← reading (λ db, WorkflowRepo.GetVersion db (caOrd c) workflowID version (caFail c 1));
  match decode (wvData wv) with
  | Some wf => mret wf
  | None => throw unmarshal_error
  end.

Definition CreateWorkflowVersion (c : Call A) (workflowID userID message : string) : M Z :=
  wf ← found c workflowID userID;
  let changeNote := if bool_decide (message = "") then "Manual version created" else message in
  wf ← writing (λ db, UpdateWithVersion encode db wf changeNote (caUuid c 0) (caNow c 0) (caFail c 1));
  mret (wVersion wf).

Definition RollbackWorkflowVersion (c : Call A) (workflowID : string) (version : Z) (userID : string) : M unit :=
  _ ← found c workflowID userID;
  _ ← saving (λ db, RestoreVersion decode db (caOrd c) workflowID version userID (caUuid c 0) (caNow c 0) (caFail c 1));
  publish (caBus c) "workflow.version.rollback"
    [("workflow_id", VStr workflowID); ("version", VInt version); ("user_id", VStr userID)].

(** *** Activation *)

(** The triggers of the workflow; a failure to list them reads as none. *)
Definition list_triggers (c : Call A) (workflowID : string) : M (list WorkflowTrigger) :=
  asking (λ t, Ok match tp_list t workflowID (caTrigger c 0) with Ok ts => ts | Err _ => [] end).

(** One call per trigger of the status, its failure logged; [k] numbers them. *)
Fixpoint each_trigger (call : T → string → A → outcome (option string * T)) (c : Call A) (status : string)
    (ts : list WorkflowTrigger) (k : nat) : M unit :=
  match ts with
  | [] => mret tt
  | t :: ts' =>
      _ ← (if bool_decide (wtStatus t = status)
           then on_triggers (λ st, match call st (wtID t) (caTrigger c k) with
                                   | Ret (_, st) => Ret (Ok tt, st)
                                   | Panic msg => Panic msg
                                   | NoFuel => NoFuel
                                   end)
           else mret tt);
      each_trigger call c status ts' (S k)
  end.

Definition ActivateWorkflow (c : Call A) (workflowID userID : string) : M unit :=
  wf ← found c workflowID userID;
  _ ← checked (check_graph wf);
  activated ← fueled (Workflow_Activate wf (caNow c 0));
  _ ← of_result activated.2;
  _ ← writing (λ db, WorkflowRepo.UpdateWorkflow encode db activated.1 (caUuid c 0) (caNow c 1) (caFail c 1));
  triggers ← list_triggers c workflowID;
  _ ← each_trigger tp_activate c TriggerStatusInactive triggers 1;
  publish (caBus c) "workflow.activated" [("workflow_id", VStr workflowID); ("user_id", VStr userID)].

Definition DeactivateWorkflow (c : Call A) (workflowID userID : string) : M unit :=
  wf ← found c workflowID userID;
  _ ← writing (λ db, WorkflowRepo.UpdateWorkflow encode db (Workflow_Deactivate wf (caNow c 0)) (caUuid c 0) (caNow c 1)
                       (caFail c 1));
  triggers ← list_triggers c workflowID;
  _ ← each_trigger (λ t id a, Ret (tp_deactivate t id a)) c TriggerStatusActive triggers 1;
  publish (caBus c) "workflow.deactivated" [("workflow_id", VStr workflowID); ("user_id", VStr userID)].

Definition DuplicateWorkflow (c : Call A) (workflowID userID name : string) : M Workflow :=
  original ← found c workflowID userID;
  let clone := set_user (Workflow_Clone original (caUuid c 0) name (caNow c 0) (caNow c 1)) userID in
  clone ← writing (λ db, WorkflowRepo.CreateWorkflow encode db clone (caUuid c 1) (caNow c 2) (caFail c 1));
  _ ← publish (caBus c) "workflow.duplicated"
        [("original_id", VStr workflowID); ("clone_id", VStr (wID clone)); ("user_id", VStr userID)];
  mret clone.

(** *** Validation and execution *)

(** The errors, the warnings and the error; [o] are the orders of the maps. *)
Definition ValidateWorkflow (c : Call A) (o : Orders) (workflowID userID : string) :
    M (list string * list string * option string) :=
  wf ← found c workflowID userID;
  report ← fueled (ValidationService.ValidateWorkflow wf o);
  let '(errors, warnings, err) := report in
  dagErr ← match err with
           | None => fueled (ValidateDAG wf o)
           | Some _ => mret None
           end;
  let '(errors, err) := match dagErr with Some e => (errors ++ [e], Some e) | None => (errors, err) end in
  _ ← publish (caBus c) "workflow.validated"
        [("workflow_id", VStr workflowID); ("valid", VBool (bool_decide (err = None)));
         ("errors", VInt (Z.of_nat (length errors))); ("warnings", VInt (Z.of_nat (length warnings)))];
  mret (errors, warnings, err).

(** The only event whose loss is an error. *)
Definition ExecuteWorkflow (c : Call A) (workflowID userID : string) (data : vmap) : M string :=
  wf ← found c workflowID userID;
  _ ← guard_ (wIsActive wf) ErrWorkflowInactive;
  let executionID := caUuid c 0 in
  _ ← match caBus c with Some e => throw e | None => mret tt end;
  _ ← publish (caBus c) "execution.requested"
        [("execution_id", VStr executionID); ("workflow_id", VStr workflowID); ("user_id", VStr userID);
         ("input_data", VObj (map_to_list data)); ("version", VInt (wVersion wf))];
  mret executionID.

(** The keys of the map [TestWorkflow] answers; the last two only when valid. *)
Record TestResult := {
  trWorkflowID : string;
  trValid : bool;
  trErrors : list string;
  trWarnings : list string;
  trNodeCount : nat;
  trInputData : vmap;
  trTestMode : bool;
  trExecutionOrder : option (list string);
  trComplexity : option Complexity
}.

Definition TestWorkflow (c : Call A) (o : Orders) (workflowID userID : string) (data : vmap) : M TestResult :=
  wf ← found c workflowID userID;
  report ← fueled (ValidationService.ValidateWorkflow wf o);
  let '(errors, warnings, err) := report in
  let answer order complexity :=
    {| trWorkflowID := workflowID; trValid := bool_decide (err = None); trErrors := errors; trWarnings := warnings;
       trNodeCount := length (wNodes wf); trInputData := data; trTestMode := true; trExecutionOrder := order;
       trComplexity := complexity |} in
  match err with
  | Some _ => mret (answer None None)
  | None =>
      order ← fueled (GetExecutionOrder wf o);
      complexity ← fueled (AnalyzeComplexity wf o);
      mret (answer (Some match order with Ok l => l | Err _ => [] end) (Some complexity))
  end.

(** *** Permissions and categories *)

Definition GetWorkflowPermissions (c : Call A) (workflowID userID : string) : M (list vmap) :=
  _ ← found c workflowID userID;
  reading (λ db, ListWorkflowPermissions db workflowID (caFail c 1)).

Definition ShareWorkflow (c : Call A) (workflowID userID targetUserID permission : string) : M unit :=
  wf ← found c workflowID userID;
  _ ← guard_ (bool_decide (wUserID wf = userID)) ErrUnauthorized;
  saving (λ db, CreateWorkflowPermission db
    (list_to_map [("id", VStr (caUuid c 0)); ("workflow_id", VStr workflowID); ("user_id", VStr targetUserID);
                  ("permission", VStr permission); ("granted_by", VStr userID); ("created_at", VTime (caNow c 0))])
    (caFail c 1)).

Definition UnshareWorkflow (c : Call A) (workflowID userID targetUserID : string) : M unit :=
  wf ← found c workflowID userID;
  _ ← guard_ (bool_decide (wUserID wf = userID)) ErrUnauthorized;
  _ ← writing (λ db, DeleteWorkflowPermission db workflowID targetUserID (caFail c 1));
  mret tt.

Definition ListCategories : M (list (string * string * string)) := mret GetCategories.

Definition CreateCategory (c : Call A) (name description icon : string) : M vmap :=
  let category := list_to_map [("id", VStr (caUuid c 0)); ("name", VStr name); ("description", VStr description);
                               ("icon", VStr icon); ("created_at", VTime (caNow c 0))] in
  _ ← saving (λ db, WorkflowRepo.CreateCategory db category (caFail c 0));
  mret category.

(** *** Import and export *)

Definition convertN8NWorkflow (c : Call A) (data : value) : Workflow :=
  let wf := NewWorkflow (caUuid c 2) "Imported Workflow" "Imported from n8n" "" (caNow c 3) (caNow c 4) in
  match data with
  | VObj kvs =>
      match get_string (list_to_map kvs) "name" with
      | Some name => set_fields wf name (wDescription wf) (wNodes wf) (wConnections wf) (wTags wf)
      | None => wf
      end
  | _ => wf
  end.

(** What the import overwrites. *)
Definition imported (wf : Workflow) (id userID : string) (now1 now2 : Z) : Workflow :=
  {| wID := id; wName := wName wf; wDescription := wDescription wf; wUserID := userID; wTeamID := wTeamID wf;
     wNodes := wNodes wf; wConnections := wConnections wf; wSettings := wSettings wf; wStatus := StatusInactive;
     wIsActive := false; wVersion := 1; wTags := wTags wf; wCreatedAt := now1; wUpdatedAt := now2;
     wDeletedAt := wDeletedAt wf |}.

Definition parse_import (c : Call A) (data : value) (format : string) : result Workflow :=
  if bool_decide (format = "json") then
    match marshal data with
    | None => Err marshal_error
    | Some jsonData => match decode jsonData with Some wf => Ok wf | None => Err unmarshal_error end
    end
  else if bool_decide (format = "n8n") then Ok (convertN8NWorkflow c data)
  else Err "unsupported import format".

Definition ImportWorkflow (c : Call A) (userID : string) (data : value) (format : string) : M Workflow :=
  wf ← of_result (parse_import c data format);
  let wf := imported wf (caUuid c 0) userID (caNow c 0) (caNow c 1) in
  writing (λ db, WorkflowRepo.CreateWorkflow encode db wf (caUuid c 1) (caNow c 2) (caFail c 0)).

(** What [ExportWorkflow] answers: the workflow or the map for n8n. *)
Inductive Exported :=
| ExWorkflow (w : Workflow)
| ExN8N (name : string) (nodes : list Node) (connections : list Connection) (settings : Settings).

Definition convertToN8NFormat (wf : Workflow) : Exported :=
  ExN8N (wName wf) (wNodes wf) (wConnections wf) (wSettings wf).

Definition ExportWorkflow (c : Call A) (workflowID userID format : string) : M Exported :=
  wf ← found c workflowID userID;
  mret (if bool_decide (format = "n8n") then convertToN8NFormat wf else ExWorkflow wf).

(** *** Triggers *)

Definition CreateTrigger (c : Call A) (workflowID userID : string) (cfg : config) : M WorkflowTrigger :=
  _ ← found c workflowID userID;
  on_triggers (λ t, tp_create t workflowID cfg (caTrigger c 0)).

(** The trigger, of a workflow of the user. *)
Definition owned_trigger (c : Call A) (triggerID userID : string) : M (WorkflowTrigger * Workflow) :=
  trigger ← asking (λ t, tp_get t triggerID (caTrigger c 0));
  wf ← owned c ErrUnauthorized (wtWorkflowID trigger) userID;
  mret (trigger, wf).

Definition GetTrigger (c : Call A) (triggerID userID : string) : M WorkflowTrigger :=
  p ← owned_trigger c triggerID userID;
  mret p.1.

Definition ListTriggers (c : Call A) (workflowID userID : string) : M (list WorkflowTrigger) :=
  _ ← found c workflowID userID;
  asking (λ t, tp_list t workflowID (caTrigger c 0)).

Definition UpdateTrigger (c : Call A) (triggerID userID : string) (updates : config) : M WorkflowTrigger :=
  _ ← owned_trigger c triggerID userID;
  on_triggers (λ t, tp_update t triggerID updates (caTrigger c 1)).

Definition DeleteTrigger (c : Call A) (triggerID userID : string) : M unit :=
  _ ← owned_trigger c triggerID userID;
  on_triggers (λ t, Ret (as_result (tp_delete t triggerID (caTrigger c 1)))).

(** A trigger is activated only while its workflow is active. *)
Definition ActivateTrigger (c : Call A) (triggerID userID : string) : M unit :=
  p ← owned_trigger c triggerID userID;
  _ ← guard_ (wIsActive p.2) ErrWorkflowInactive;
  on_triggers (λ t, match tp_activate t triggerID (caTrigger c 1) with
                    | Ret r => Ret (as_result r)
                    | Panic msg => Panic msg
                    | NoFuel => NoFuel
                    end).

Definition DeactivateTrigger (c : Call A) (triggerID userID : string) : M unit :=
  _ ← owned_trigger c triggerID userID;
  on_triggers (λ t, Ret (as_result (tp_deactivate t triggerID (caTrigger c 1)))).

Definition TestTrigger (c : Call A) (triggerID userID : string) (testData : vmap) : M bool :=
  _ ← owned_trigger c triggerID userID;
  on_triggers (λ t, match tp_test t triggerID testData (caTrigger c 1) with
                    | Ret r => Ret (r, t)
                    | Panic msg => Panic msg
                    | NoFuel => NoFuel
                    end).

Definition StartTriggerManager (c : Call A) : M unit :=
  on_triggers (λ t, match tp_start t (caTrigger c 0) with
                    | Ret r => Ret (as_result r)
                    | Panic msg => Panic msg
                    | NoFuel => NoFuel
                    end).
Definition StopTriggerManager : M unit := on_triggers (λ t, Ret (Ok tt, tp_stop t)).

(** *** Templates *)

Definition new_template (name description category icon workflow : string) (tags : list string) (creatorID : string)
    (public : bool) : Template :=
  {| tpID := ""; tpName := name; tpDescription := description; tpCategory := category; tpIcon := icon;
     tpWorkflow := workflow; tpVariables := []; tpTags := tags; tpIsPublic := public; tpIsBuiltIn := false;
     tpCreatorID := creatorID; tpUsageCount := 0; tpRating := S754_zero false; tpConfig := None; tpCreatedAt := 0;
     tpUpdatedAt := 0 |}.

(** The failure of the JSON is ignored here: the template has no workflow then. *)
Definition PublishWorkflow (c : Call A) (workflowID userID description : string) (tags : list string) : M unit :=
  wf ← found c workflowID userID;
  let template := new_template (wName wf) description "custom" "" (default "" (encode wf)) tags userID true in
  _ ← on_templates (λ tm, Templates.CreateTemplate decode tm template (caUuid c 0) (caNow c 0) (caFail c 1));
  mret tt.

Definition CreateTemplate (c : Call A) (req : CreateTemplateRequest) : M Template :=
  wfJSON ← of_result (match encode (ctWorkflow req) with Some s => Ok s | None => Err marshal_error end);
  on_templates (λ tm, Templates.CreateTemplate decode tm
    (new_template (ctName req) (ctDescription req) (ctCategory req) (ctIcon req) wfJSON (ctTags req) (ctCreatorID req) false)
    (caUuid c 0) (caNow c 0) (caFail c 0)).

Definition ListTemplates (c : Call A) (category : string) (ordB : list string) : M (list Template) := λ s,
  Ret (Templates.ListTemplates (wsTemplates s) category None ordB (caOrd c) (caFail c 0), s).

Definition GetTemplate (c : Call A) (templateID : string) : M Template := λ s,
  Ret (match Templates.GetTemplate (wsTemplates s) templateID (caFail c 0) with
       | Err e => if bool_decide (e = ErrTemplateNotFound) then Err ErrServiceTemplateNotFound else Err e
       | r => r
       end, s).

(** The use of the template is counted even when the workflow is not saved. *)
Definition CreateFromTemplate (c : Call A) (templateID userID name : string) (variables : vmap) : M Workflow :=
  wf ← on_templates (λ tm, InstantiateTemplate encode decode decode_into marshal fmt_float fmt_time fmt_f tm templateID userID
         name variables (caUuid c 0) (caNow c 0) (caNow c 1) (caOrd c) (caFail c 0));
  wf ← writing (λ db, WorkflowRepo.CreateWorkflow encode db wf (caUuid c 1) (caNow c 2) (caFail c 1));
  _ ← publish (caBus c) "workflow.created_from_template"
        [("workflow_id", VStr (wID wf)); ("template_id", VStr templateID); ("user_id", VStr userID)];
  mret wf.

(** *** Variables *)

Definition stamped (v : WorkflowVariable) (workflowID stamp : string) : WorkflowVariable :=
  {| varKey := varKey v; varWorkflowID := workflowID; varName := varName v; varType := varType v; varValue := varValue v;
     varDescription := varDescription v; varScope := varScope v; varEnvironment := varEnvironment v;
     varEncrypted := varEncrypted v; varReadOnly := varReadOnly v; varRequired := varRequired v; varCreatedAt := stamp;
     varUpdatedAt := stamp |}.

Definition SetWorkflowVariable (c : Call A) (workflowID userID : string) (variable : WorkflowVariable) : M unit :=
  _ ← found c workflowID userID;
  _ ← checked (Ret (ValidateVariableName (varKey variable)));
  let variable := stamped variable workflowID (caStamp c) in
  _ ← saving (λ db, SaveWorkflowVariable db variable (caFail c 1));
  on_variables (λ vm, (SetVariable vm workflowID variable).2).

Definition GetWorkflowVariable (c : Call A) (workflowID userID key : string) : M WorkflowVariable :=
  _ ← found c workflowID userID;
  answering ErrVariableNotFound (reading (λ db, Repo_GetWorkflowVariable db workflowID key (caFail c 1))).

(** [ord] is the order of the rows. *)
Definition ListWorkflowVariables (c : Call A) (ord : list (string * string)) (workflowID userID : string) :
    M (list WorkflowVariable) :=
  _ ← found c workflowID userID;
  reading (λ db, Repo_ListWorkflowVariables db ord workflowID (caFail c 1)).

Definition DeleteWorkflowVariable (c : Call A) (workflowID userID key : string) : M unit :=
  _ ← found c workflowID userID;
  rows ← writing (λ db, Repo_DeleteWorkflowVariable db workflowID key (caFail c 1));
  _ ← guard_ (negb (bool_decide (rows = 0%Z))) ErrVariableNotFound;
  on_variables (λ vm, (DeleteVariable vm workflowID key).2).

(** *** Environments *)

Definition new_environment (env : Environment) (id workflowID stamp : string) (dflt : bool) : Environment :=
  {| envID := id; envWorkflowID := workflowID; envName := envName env; envDescription := envDescription env;
     envVariables := envVariables env; envIsDefault := dflt; envCreatedAt := stamp; envUpdatedAt := stamp |}.

Definition CreateEnvironment (c : Call A) (workflowID userID : string) (env : Environment) : M unit :=
  _ ← found c workflowID userID;
  count ← reading (λ db, CountEnvironments db (caOrd c) workflowID (caFail c 1));
  let env := new_environment env (caUuid c 0) workflowID (caStamp c) (bool_decide (count = 0%Z) || envIsDefault env) in
  _ ← saving (λ db, Repo_CreateEnvironment db env (caFail c 2));
  on_variables (λ vm, VM_SetEnvironment vm workflowID env).

Definition GetEnvironment (c : Call A) (workflowID userID envID : string) : M Environment :=
  _ ← found c workflowID userID;
  reading (λ db, Repo_GetEnvironment db workflowID envID (caFail c 1)).

Definition ListEnvironments (c : Call A) (workflowID userID : string) : M (list Environment) :=
  _ ← found c workflowID userID;
  reading (λ db, Repo_ListEnvironments db (caOrd c) workflowID (caFail c 1)).

Definition UpdateEnvironment (c : Call A) (workflowID userID envID : string) (updates : vmap) : M unit :=
  _ ← found c workflowID userID;
  rows ← writing (λ db, Repo_UpdateEnvironment db workflowID envID updates (caStamp c) (caFail c 1));
  guard_ (negb (bool_decide (rows = 0%Z))) "environment not found".

Definition DeleteEnvironment (c : Call A) (workflowID userID envID : string) : M unit :=
  _ ← found c workflowID userID;
  env ← reading (λ db, Repo_GetEnvironment db workflowID envID (caFail c 1));
  _ ← guard_ (negb (envIsDefault env)) "cannot delete default environment";
  saving (λ db, Repo_DeleteEnvironment db env (caFail c 2)).

Definition SetDefaultEnvironment (c : Call A) (workflowID userID envID : string) : M unit :=
  _ ← found c workflowID userID;
  rows ← writing (λ db, Repo_SetDefaultEnvironment db workflowID envID (caFail c 1));
  guard_ (negb (bool_decide (rows = 0%Z))) "environment not found".

(** *** Reports: the owner is checked; the answer is that of the repository's query *)

Definition report {R} (c : Call A) (workflowID userID : string) (answer : result R) : M R :=
  _ ← owned c ErrWorkflowNotFound workflowID userID;
  of_result answer.
Definition GetWorkflowStats (c : Call A) (workflowID userID : string) (answer : result value) : M value := report c workflowID userID answer.
(** [query offset limit] is the page the repository gives. *)
Definition GetWorkflowExecutions (c : Call A) (workflowID userID : string) (page limit : Z) (query : Z → Z → result (list value * Z)) :
    M (list value * Z) :=
  report c workflowID userID (query (wrap64 (wrap64 (page - 1) * limit)) limit).
Definition GetLatestRun (c : Call A) (workflowID userID : string) (answer : result value) : M value := report c workflowID userID answer.

(** *** The service as a machine *)

Inductive Op :=
| OpList (userID : string) (page limit : Z) (status : string)
| OpSearch (userID query category : string) (tags : list string) (page limit : Z)
| OpGet (workflowID userID : string)
| OpCreate (req : CreateWorkflowRequest)
| OpUpdate (req : UpdateWorkflowRequest)
| OpDelete (workflowID userID : string)
| OpVersions (workflowID userID : string)
| OpGetVersion (workflowID : string) (version : Z) (userID : string)
| OpCreateVersion (workflowID userID message : string)
| OpRollback (workflowID : string) (version : Z) (userID : string)
| OpActivate (workflowID userID : string)
| OpDeactivate (workflowID userID : string)
| OpDuplicate (workflowID userID name : string)
| OpValidate (o : Orders) (workflowID userID : string)
| OpExecute (workflowID userID : string) (data : vmap)
| OpTest (o : Orders) (workflowID userID : string) (data : vmap)
| OpPermissions (workflowID userID : string)
| OpShare (workflowID userID targetUserID permission : string)
| OpUnshare (workflowID userID targetUserID : string)
| OpPublish (workflowID userID description : string) (tags : list string)
| OpImport (userID : string) (data : value) (format : string)
| OpExport (workflowID userID format : string)
| OpCreateCategory (name description icon : string)
| OpCreateTrigger (workflowID userID : string) (cfg : config)
| OpGetTrigger (triggerID userID : string)
| OpListTriggers (workflowID userID : string)
| OpUpdateTrigger (triggerID userID : string) (updates : config)
| OpDeleteTrigger (triggerID userID : string)
| OpActivateTrigger (triggerID userID : string)
| OpDeactivateTrigger (triggerID userID : string)
| OpTestTrigger (triggerID userID : string) (data : vmap)
| OpStart
| OpStop
| OpCreateTemplate (req : CreateTemplateRequest)
| OpGetTemplate (templateID : string)
| OpFromTemplate (templateID userID name : string) (variables : vmap)
| OpSetVariable (workflowID userID : string) (variable : WorkflowVariable)
| OpGetVariable (workflowID userID key : string)
| OpListVariables (ord : list (string * string)) (workflowID userID : string)
| OpDeleteVariable (workflowID userID key : string)
| OpCreateEnvironment (workflowID userID : string) (env : Environment)
| OpGetEnvironment (workflowID userID envID : string)
| OpListEnvironments (workflowID userID : string)
| OpUpdateEnvironment (workflowID userID envID : string) (updates : vmap)
| OpDeleteEnvironment (workflowID userID envID : string)
| OpSetDefaultEnvironment (workflowID userID envID : string)
| OpStats (workflowID userID : string) (answer : result value)
| OpExecutions (workflowID userID : string) (page limit : Z) (query : Z → Z → result (list value * Z))
| OpLatestRun (workflowID userID : string) (answer : result value).

(** The answer itself is left out here. *)
Definition ignoring {R} (m : M R) : M unit := _ ← m; mret tt.

Definition run_op (op : Op) (c : Call A) : M unit :=
  match op with
  | OpList u p l st => ignoring (ListWorkflows c u p l st)
  | OpSearch u q cat tags p l => ignoring (SearchWorkflows c u q cat tags p l)
  | OpGet id u => ignoring (GetWorkflow c id u)
  | OpCreate req => ignoring (CreateWorkflow c req)
  | OpUpdate req => ignoring (UpdateWorkflow c req)
  | OpDelete id u => ignoring (DeleteWorkflow c id u)
  | OpVersions id u => ignoring (GetWorkflowVersions c id u)
  | OpGetVersion id k u => ignoring (GetWorkflowVersion c id k u)
  | OpCreateVersion id u m => ignoring (CreateWorkflowVersion c id u m)
  | OpRollback id k u => ignoring (RollbackWorkflowVersion c id k u)
  | OpActivate id u => ignoring (ActivateWorkflow c id u)
  | OpDeactivate id u => ignoring (DeactivateWorkflow c id u)
  | OpDuplicate id u n => ignoring (DuplicateWorkflow c id u n)
  | OpValidate o id u => ignoring (ValidateWorkflow c o id u)
  | OpExecute id u d => ignoring (ExecuteWorkflow c id u d)
  | OpTest o id u d => ignoring (TestWorkflow c o id u d)
  | OpPermissions id u => ignoring (GetWorkflowPermissions c id u)
  | OpShare id u t p => ignoring (ShareWorkflow c id u t p)
  | OpUnshare id u t => ignoring (UnshareWorkflow c id u t)
  | OpPublish id u d tags => ignoring (PublishWorkflow c id u d tags)
  | OpImport u d f => ignoring (ImportWorkflow c u d f)
  | OpExport id u f => ignoring (ExportWorkflow c id u f)
  | OpCreateCategory n d i => ignoring (CreateCategory c n d i)
  | OpCreateTrigger id u cfg => ignoring (CreateTrigger c id u cfg)
  | OpGetTrigger tid u => ignoring (GetTrigger c tid u)
  | OpListTriggers id u => ignoring (ListTriggers c id u)
  | OpUpdateTrigger tid u cfg => ignoring (UpdateTrigger c tid u cfg)
  | OpDeleteTrigger tid u => ignoring (DeleteTrigger c tid u)
  | OpActivateTrigger tid u => ignoring (ActivateTrigger c tid u)
  | OpDeactivateTrigger tid u => ignoring (DeactivateTrigger c tid u)
  | OpTestTrigger tid u d => ignoring (TestTrigger c tid u d)
  | OpStart => ignoring (StartTriggerManager c)
  | OpStop => ignoring StopTriggerManager
  | OpCreateTemplate req => ignoring (CreateTemplate c req)
  | OpGetTemplate tid => ignoring (GetTemplate c tid)
  | OpFromTemplate tid u n vars => ignoring (CreateFromTemplate c tid u n vars)
  | OpSetVariable id u v => ignoring (SetWorkflowVariable c id u v)
  | OpGetVariable id u k => ignoring (GetWorkflowVariable c id u k)
  | OpListVariables ord id u => ignoring (ListWorkflowVariables c ord id u)
  | OpDeleteVariable id u k => ignoring (DeleteWorkflowVariable c id u k)
  | OpCreateEnvironment id u e => ignoring (CreateEnvironment c id u e)
  | OpGetEnvironment id u e => ignoring (GetEnvironment c id u e)
  | OpListEnvironments id u => ignoring (ListEnvironments c id u)
  | OpUpdateEnvironment id u e upd => ignoring (UpdateEnvironment c id u e upd)
  | OpDeleteEnvironment id u e => ignoring (DeleteEnvironment c id u e)
  | OpSetDefaultEnvironment id u e => ignoring (SetDefaultEnvironment c id u e)
  | OpStats id u answer => ignoring (GetWorkflowStats c id u answer)
  | OpExecutions id u page limit query => ignoring (GetWorkflowExecutions c id u page limit query)
  | OpLatestRun id u answer => ignoring (GetLatestRun c id u answer)
  end.

(** The user of a call. *)
Definition op_user (op : Op) : option string :=
  match op with
  | OpCreate req => Some (crUserID req)
  | OpUpdate req => Some (urUserID req)
  | OpList u _ _ _ | OpSearch u _ _ _ _ _ | OpGet _ u | OpDelete _ u | OpVersions _ u | OpGetVersion _ _ u
  | OpCreateVersion _ u _ | OpRollback _ _ u | OpActivate _ u | OpDeactivate _ u | OpDuplicate _ u _ | OpValidate _ _ u
  | OpExecute _ u _ | OpTest _ _ u _ | OpPermissions _ u | OpShare _ u _ _ | OpUnshare _ u _ | OpPublish _ u _ _
  | OpImport u _ _ | OpExport _ u _ | OpCreateTrigger _ u _ | OpGetTrigger _ u | OpListTriggers _ u
  | OpUpdateTrigger _ u _ | OpDeleteTrigger _ u | OpActivateTrigger _ u | OpDeactivateTrigger _ u
  | OpTestTrigger _ u _ | OpFromTemplate _ u _ _ | OpSetVariable _ u _ | OpGetVariable _ u _ | OpListVariables _ _ u
  | OpDeleteVariable _ u _ | OpCreateEnvironment _ u _ | OpGetEnvironment _ u _ | OpListEnvironments _ u
  | OpUpdateEnvironment _ u _ _ | OpDeleteEnvironment _ u _ | OpSetDefaultEnvironment _ u _
  | OpStats _ u _ | OpExecutions _ u _ _ _ | OpLatestRun _ u _ => Some u
  | OpCreateCategory _ _ _ | OpStart | OpStop | OpCreateTemplate _ | OpGetTemplate _ => None
  end.

(** The workflow a call is about: a call about a trigger is about its workflow. *)
Definition op_workflow (op : Op) (c : Call A) (s : WorkflowService T) : option string :=
  match op with
  | OpUpdate req => Some (urWorkflowID req)
  | OpGet id _ | OpDelete id _ | OpVersions id _ | OpGetVersion id _ _
  | OpCreateVersion id _ _ | OpRollback id _ _ | OpActivate id _ | OpDeactivate id _ | OpDuplicate id _ _
  | OpValidate _ id _ | OpExecute id _ _ | OpTest _ id _ _ | OpPermissions id _ | OpShare id _ _ _ | OpUnshare id _ _
  | OpPublish id _ _ _ | OpExport id _ _ | OpCreateTrigger id _ _ | OpListTriggers id _
  | OpSetVariable id _ _ | OpGetVariable id _ _ | OpListVariables _ id _ | OpDeleteVariable id _ _
  | OpCreateEnvironment id _ _ | OpGetEnvironment id _ _ | OpListEnvironments id _ | OpUpdateEnvironment id _ _ _
  | OpDeleteEnvironment id _ _ | OpSetDefaultEnvironment id _ _
  | OpStats id _ _ | OpExecutions id _ _ _ _ | OpLatestRun id _ _ => Some id
  | OpGetTrigger tid _ | OpUpdateTrigger tid _ _ | OpDeleteTrigger tid _ | OpActivateTrigger tid _
  | OpDeactivateTrigger tid _ | OpTestTrigger tid _ _ =>
      match tp_get (wsTriggers s) tid (caTrigger c 0) with Ok t => Some (wtWorkflowID t) | Err _ => None end
  | OpList _ _ _ _ | OpSearch _ _ _ _ _ _ | OpCreate _ | OpImport _ _ _ | OpFromTemplate _ _ _ _
  | OpCreateCategory _ _ _ | OpStart | OpStop | OpCreateTemplate _ | OpGetTemplate _ => None
  end.

Definition owns (s : WorkflowService T) (userID workflowID : string) : Prop :=
  ∃ w, dbWorkflows (wsDB s) !! workflowID = Some w ∧ wUserID w = userID ∧ wDeletedAt w = None.

Lemma owned_read c e id u s :
  owned c e id u s = match WorkflowRepo.GetWorkflow (wsDB s) id u (caFail c 0) with
                     | Ok w => Ret (Ok w, s)
                     | Err _ => Ret (Err e, s)
                     end.
Proof. unfold owned, answering, reading. by destruct (WorkflowRepo.GetWorkflow _ _ _ _). Qed.

Lemma GetWorkflow_ok db id u fail w :
  WorkflowRepo.GetWorkflow db id u fail = Ok w →
  dbWorkflows db !! id = Some w ∧ wUserID w = u ∧ wDeletedAt w = None.
Proof. clear.
  unfold WorkflowRepo.GetWorkflow, GetByIDAndUser, get_where. intros E%try_ok.
  destruct (dbWorkflows db !! id) as [w'|]; [|done]. repeat case_bool_decide; naive_solver.
Qed.

Lemma owned_refused c e id u s : ¬ owns s u id → owned c e id u s = Ret (Err e, s).
Proof. clear.
  intros Hn. rewrite owned_read. destruct (WorkflowRepo.GetWorkflow _ _ _ _) as [w|] eqn:E; [|done].
  apply GetWorkflow_ok in E. destruct Hn. by exists w.
Qed.

Lemma owned_trigger_refused c tid u s t :
  tp_get (wsTriggers s) tid (caTrigger c 0) = Ok t → ¬ owns s u (wtWorkflowID t) →
  owned_trigger c tid u s = Ret (Err ErrUnauthorized, s).
Proof.
  intros E Hn. unfold owned_trigger, asking, mbind, svc_bind. rewrite E. by rewrite owned_refused.
Qed.

(** The methods of the service, one step at a time. *)
Ltac unfold_call :=
  unfold run_op, ignoring, ListWorkflows, SearchWorkflows, GetWorkflow, CreateWorkflow, UpdateWorkflow, DeleteWorkflow,
    GetWorkflowVersions, GetWorkflowVersion, CreateWorkflowVersion, RollbackWorkflowVersion, ActivateWorkflow,
    DeactivateWorkflow, DuplicateWorkflow, ValidateWorkflow, ExecuteWorkflow, TestWorkflow, GetWorkflowPermissions,
    ShareWorkflow, UnshareWorkflow, PublishWorkflow, ImportWorkflow, ExportWorkflow, CreateCategory, CreateTrigger,
    GetTrigger, ListTriggers, UpdateTrigger, DeleteTrigger, ActivateTrigger, DeactivateTrigger, TestTrigger,
    StartTriggerManager, StopTriggerManager, CreateTemplate, GetTemplate, CreateFromTemplate, SetWorkflowVariable,
    GetWorkflowVariable, ListWorkflowVariables, DeleteWorkflowVariable, CreateEnvironment, GetEnvironment,
    ListEnvironments, UpdateEnvironment, DeleteEnvironment, SetDefaultEnvironment, GetWorkflowStats, GetWorkflowExecutions,
    GetLatestRun, report in *.

Lemma foreign_refused op c s u id :
  op_user op = Some u → op_workflow op c s = Some id → ¬ owns s u id →
  ∃ e, run_op op c s = Ret (Err e, s).
Proof.
  intros Hu Hw Hn. pose proof (λ c e, owned_refused c e _ _ _ Hn) as Ho.
  destruct op; try discriminate Hu; try discriminate Hw; simpl in Hu, Hw; simplify_eq;
    try (eexists; unfold_call; unfold mbind, svc_bind; rewrite Ho; reflexivity);
    try (destruct (tp_get _ _ _) as [t|] eqn:Et; [|discriminate Hw]; injection Hw as <-; eexists;
         unfold_call; unfold mbind, svc_bind; rewrite (owned_trigger_refused _ _ _ _ _ Et Hn); reflexivity).
  specialize (Ho c ""). rewrite owned_read in Ho. unfold_call. unfold reading, mbind, svc_bind.
  destruct (WorkflowRepo.GetWorkflow _ _ _ _) as [w|e]; [discriminate Ho|]. by eauto.
Qed.

(** C6. Every call about a workflow the user does not own, or about a trigger of
    one, or about a deleted workflow, returns an error and changes nothing. *)
Theorem owner_only op c s u id :
  op_user op = Some u → op_workflow op c s = Some id → ¬ owns s u id →
  ∃ e, run_op op c s = Ret (Err e, s).
Proof. apply foreign_refused. Qed.

(** ** What calls do

    The effect of a call on the tables of workflows, versions and variables and
    on the variables in memory. *)

(** An active workflow has the status and, unless it has no nodes, a graph that
    validates. *)
Definition sound (w : Workflow) : Prop :=
  wIsActive w = bool_decide (wStatus w = StatusActive)
  ∧ (wIsActive w = true → wNodes w = [] ∨ Workflow_Validate w = Some (Ok tt)).

(** The new row is of the same workflow and owner. *)
Definition revises (w w' : Workflow) : Prop :=
  wID w' = wID w ∧ wUserID w' = wUserID w ∧ (sound w → sound w').

Definition same_tables (db db' : WorkflowDB) : Prop :=
  dbWorkflows db' = dbWorkflows db ∧ dbVersions db' = dbVersions db.

Inductive effect (u : option string) (s s' : WorkflowService T) : Prop :=
| ef_none :
    same_tables (wsDB s) (wsDB s') → dbVariables (wsDB s') = dbVariables (wsDB s) →
    vmVariables (wsVariables s') = vmVariables (wsVariables s) → effect u s s'
| ef_create w uuid now fail w' :
    u = Some (wUserID w) → sound w → wVersion w = 1%Z →
    CreateWithVersion encode (wsDB s) w uuid now fail = Ok (w', wsDB s') →
    wsVariables s' = wsVariables s → effect u s s'
| ef_update id w w' note uuid now fail w'' :
    u = Some (wUserID w) → dbWorkflows (wsDB s) !! id = Some w → wDeletedAt w = None → revises w w' →
    UpdateWithVersion encode (wsDB s) w' note uuid now fail = Ok (w'', wsDB s') →
    wsVariables s' = wsVariables s → effect u s s'
| ef_restore id w ord k uuid now fail :
    u = Some (wUserID w) → dbWorkflows (wsDB s) !! id = Some w → wDeletedAt w = None →
    range_order (dbVersions (wsDB s)) ord →
    RestoreVersion decode (wsDB s) ord id k (wUserID w) uuid now fail = Ok (wsDB s') →
    wsVariables s' = wsVariables s → effect u s s'
| ef_delete id w now fail :
    u = Some (wUserID w) → dbWorkflows (wsDB s) !! id = Some w →
    WorkflowRepo.DeleteWorkflow (wsDB s) id (wUserID w) now fail = Ok (wsDB s') →
    wsVariables s' = wsVariables s → effect u s s'
| ef_set_variable w v :
    u = Some (wUserID w) → dbWorkflows (wsDB s) !! varWorkflowID v = Some w → ValidateVariableName (varKey v) = None →
    wsDB s' = put_variables (wsDB s) (<[(varWorkflowID v, varKey v) := v]> (dbVariables (wsDB s))) →
    wsVariables s' = (SetVariable (wsVariables s) (varWorkflowID v) v).2 → effect u s s'
| ef_delete_variable id w k :
    u = Some (wUserID w) → dbWorkflows (wsDB s) !! id = Some w →
    wsDB s' = put_variables (wsDB s) (delete (id, k) (dbVariables (wsDB s))) →
    wsVariables s' = match dbVariables (wsDB s) !! (id, k) with
                     | Some _ => (DeleteVariable (wsVariables s) id k).2
                     | None => wsVariables s
                     end → effect u s s'.

Lemma bind_inv {R R'} (m : M R) (k : R → M R') s r s' :
  (m ≫= k) s = Ret (r, s') →
  (∃ a s1, m s = Ret (Ok a, s1) ∧ k a s1 = Ret (r, s')) ∨ (∃ e, m s = Ret (Err e, s') ∧ r = Err e).
Proof. clear. unfold mbind, svc_bind. destruct (m s) as [[[a|e] s1]|msg|]; naive_solver. Qed.

Lemma owned_inv c e id u s r s' :
  owned c e id u s = Ret (r, s') →
  s' = s ∧ ∀ w, r = Ok w → dbWorkflows (wsDB s) !! id = Some w ∧ wUserID w = u ∧ wDeletedAt w = None.
Proof. clear.
  rewrite owned_read. destruct (WorkflowRepo.GetWorkflow _ _ _ _) as [w|] eqn:E; intros [= <- <-]; [|done].
  split; [done|]. intros ? [= <-]. by eapply GetWorkflow_ok.
Qed.

(** Steps that leave the tables and the variables alone. *)
Definition leaves {R} (m : M R) : Prop :=
  ∀ s r s', m s = Ret (r, s') → wsDB s' = wsDB s ∧ wsVariables s' = wsVariables s.

Lemma leaves_ret {R} (r : R) : leaves (mret r).
Proof. by intros s r' s' [= <- <-]. Qed.
Lemma leaves_throw {R} e : leaves (throw (R := R) e).
Proof. by intros s r' s' [= <- <-]. Qed.
Lemma leaves_of_result {R} (r : result R) : leaves (of_result r).
Proof. by intros s r' s' [= <- <-]. Qed.
Lemma leaves_bind {R R'} (m : M R) (k : R → M R') : leaves m → (∀ r, leaves (k r)) → leaves (m ≫= k).
Proof.
  intros Hm Hk s r s' [(a & s1 & E1 & E2)|(e & E & _)]%bind_inv; [|by eapply Hm].
  apply Hm in E1 as [<- <-]. by eapply Hk.
Qed.
Lemma leaves_answering {R} e (m : M R) : leaves m → leaves (answering e m).
Proof.
  intros Hm s r s'. unfold answering. destruct (m s) as [[[a|e'] s1]|msg|] eqn:E; intros [= <- <-]; by eapply Hm.
Qed.
Lemma leaves_reading {R} (f : WorkflowDB → result R) : leaves (reading f).
Proof. by intros s r' s' [= <- <-]. Qed.
Lemma leaves_asking {R} (f : T → result R) : leaves (asking f).
Proof. by intros s r' s' [= <- <-]. Qed.
Lemma leaves_on_triggers {R} (f : T → outcome (result R * T)) : leaves (on_triggers f).
Proof. intros s r s'. unfold on_triggers. by destruct (f _) as [[? ?]|?|]; intros [= <- <-]. Qed.
Lemma leaves_on_templates {R} (f : TemplateManager → result (R * TemplateManager)) : leaves (on_templates f).
Proof. intros s r s'. unfold on_templates. by destruct (f _) as [[? ?]|?]; intros [= <- <-]. Qed.
Lemma leaves_publish bus type payload : leaves (publish bus type payload).
Proof. intros s r s'. unfold publish. by destruct bus; intros [= <- <-]. Qed.
Lemma leaves_fueled {R} (m : option R) : leaves (fueled m).
Proof. intros s r s'. unfold fueled. by destruct m; intros [= <- <-]. Qed.
Lemma leaves_checked m : leaves (checked m).
Proof. intros s r s'. unfold checked. by destruct m as [[e|]|?|]; intros [= <- <-]. Qed.
Lemma leaves_guard b e : leaves (guard_ b e).
Proof. unfold guard_. destruct b; [apply leaves_ret|apply leaves_throw]. Qed.
Lemma leaves_owned c e id u : leaves (owned c e id u).
Proof. apply leaves_answering, leaves_reading. Qed.
Lemma leaves_each call c status ts k : leaves (each_trigger call c status ts k).
Proof.
  revert k. induction ts as [|t ts IH]; intros k; [apply leaves_ret|]. cbn [each_trigger].
  apply leaves_bind; [|by intros _]. case_bool_decide; [apply leaves_on_triggers|apply leaves_ret].
Qed.
Lemma leaves_read {R} (f : WorkflowService T → result R) : leaves (λ s, Ret (f s, s)).
Proof. by intros s r' s' [= <- <-]. Qed.
Lemma leaves_list_triggers c id : leaves (list_triggers c id).
Proof. apply leaves_asking. Qed.
Lemma leaves_owned_trigger c id u : leaves (owned_trigger c id u).
Proof. apply leaves_bind; [apply leaves_asking|]. intros t. apply leaves_bind; [apply leaves_owned|]. intros w. apply leaves_ret. Qed.
#[local] Hint Resolve leaves_ret leaves_throw leaves_of_result leaves_bind leaves_answering leaves_reading leaves_asking
  leaves_on_triggers leaves_on_templates leaves_publish leaves_fueled leaves_checked leaves_guard leaves_owned
  leaves_each leaves_read leaves_list_triggers leaves_owned_trigger : leaves.

(** What a call does from a state. *)
Definition does {R} (u : option string) (s : WorkflowService T) (m : M R) : Prop :=
  ∀ r s', m s = Ret (r, s') → effect u s s'.

Lemma effect_ext u s s1 s2 s3 :
  wsDB s1 = wsDB s → wsVariables s1 = wsVariables s → wsDB s3 = wsDB s2 → wsVariables s3 = wsVariables s2 →
  effect u s1 s2 → effect u s s3.
Proof.
  intros E1 E2 E3 E4 H. destruct s as [db t tm vm ev], s1 as [db1 t1 tm1 vm1 ev1], s2, s3. simpl in *. subst.
  destruct H; simpl in *; [by eapply ef_none|by eapply ef_create|by eapply ef_update|by eapply ef_restore|by eapply ef_delete
    |by eapply ef_set_variable|by eapply ef_delete_variable].
Qed.

Lemma effect_refl u s : effect u s s.
Proof. by apply ef_none. Qed.

Lemma does_leaves {R} u s (m : M R) : leaves m → does u s m.
Proof. intros Hm r s' [E1 E2]%Hm. by apply (effect_ext u s s s s'), effect_refl. Qed.

Lemma does_first {R R'} u s (m : M R) (k : R → M R') :
  leaves m → (∀ a s1, m s = Ret (Ok a, s1) → wsDB s1 = wsDB s → does u s1 (k a)) → does u s (m ≫= k).
Proof.
  intros Hm Hk r s' [(a & s1 & E1 & E2)|(e & E & _)]%bind_inv; [|by eapply does_leaves].
  destruct (Hm _ _ _ E1) as [H1 H2]. apply (effect_ext u s s1 s' s'); [done..|]. by eapply Hk.
Qed.

Lemma does_last {R R'} u s (m : M R) (k : R → M R') : does u s m → (∀ a, leaves (k a)) → does u s (m ≫= k).
Proof.
  intros Hm Hk r s' [(a & s1 & E1 & E2)|(e & E & _)]%bind_inv; [|by eapply Hm].
  destruct (Hk _ _ _ _ E2) as [H1 H2]. apply (effect_ext u s s s1 s'); [done..|]. by eapply Hm.
Qed.

Lemma does_owned {R} u s c e id uid (k : Workflow → M R) :
  (∀ w, dbWorkflows (wsDB s) !! id = Some w → wUserID w = uid → wDeletedAt w = None → does u s (k w)) →
  does u s (owned c e id uid ≫= k).
Proof.
  intros Hk. intros r s' [(a & s1 & E1 & E2)|(e' & E & _)]%bind_inv.
  - apply owned_inv in E1 as [-> Hw]. destruct (Hw a eq_refl) as (? & ? & ?). by eapply Hk.
  - apply owned_inv in E as [-> _]. apply effect_refl.
Qed.

Lemma does_writing {R} u s (f : WorkflowDB → result (R * WorkflowDB)) :
  (∀ r db, f (wsDB s) = Ok (r, db) → effect u s (set_db s db)) → does u s (writing f).
Proof.
  intros Hf r s'. unfold writing. destruct (f (wsDB s)) as [[r' db]|e] eqn:E; intros [= <- <-]; [by eapply Hf|apply effect_refl].
Qed.

Lemma does_saving u s (f : WorkflowDB → result WorkflowDB) :
  (∀ db, f (wsDB s) = Ok db → effect u s (set_db s db)) → does u s (saving f).
Proof.
  intros Hf. apply does_writing. intros r db E. destruct (f (wsDB s)) eqn:E'; [|done]. injection E as _ <-. by apply Hf.
Qed.

(** Writes to the other tables. *)
Lemma effect_other u s db :
  same_tables (wsDB s) db → dbVariables db = dbVariables (wsDB s) → effect u s (set_db s db).
Proof. intros. by apply ef_none. Qed.

(** The graph check is what a sound workflow needs. *)
Lemma check_graph_ok w : check_graph w = Ret None → wNodes w = [] ∨ Workflow_Validate w = Some (Ok tt).
Proof.
  unfold check_graph. case_bool_decide; [by left|]. right. by destruct (Workflow_Validate w) as [[[]|]|].
Qed.
Lemma checked_ok m (s s' : WorkflowService T) a : checked m s = Ret (Ok a, s') → m = Ret None.
Proof. unfold checked. by destruct m as [[e|]|?|]. Qed.

Lemma update_revises w req v now :
  check_graph (set_version (apply_update w req) v now) = Ret None → revises w (set_version (apply_update w req) v now).
Proof. intros H%check_graph_ok. split_and!; [done..|]. intros [Hs _]. split; [done|]. intros _. exact H. Qed.

Lemma activate_revises w now w' :
  Workflow_Activate w now = Some (w', Ok tt) → revises w w' ∧ wIsActive w' = true ∧ Workflow_Validate w' = Some (Ok tt).
Proof.
  unfold Workflow_Activate. destruct (Workflow_Validate w) as [[[]|]|] eqn:E; intros [= <-].
  split; [|done]. split_and!; [done..|]. intros _. split; [by rewrite bool_decide_true|by right].
Qed.

Lemma deactivate_revises w now : revises w (Workflow_Deactivate w now).
Proof. split_and!; [done..|]. intros _. split; [by rewrite bool_decide_false|done]. Qed.

Lemma inactive_sound w : wIsActive w = false → wStatus w = StatusInactive → sound w.
Proof. intros Ha Hs. unfold sound. rewrite Ha, Hs. done. Qed.

Ltac leave := solve [repeat first [progress intros | progress case_match | solve [eauto with leaves] | apply leaves_bind]].

(** *** The effect of each call that writes *)

Lemma CreateWorkflow_does c req s : does (Some (crUserID req)) s (CreateWorkflow c req).
Proof.
  unfold_call. apply does_first; [leave|]. intros _ s1 _ _. apply does_first; [leave|]. intros _ s2 _ _.
  apply does_last; [|leave]. apply does_writing. intros w db E. eapply ef_create; [| | |exact E|];
    try done; by apply inactive_sound.
Qed.

Lemma UpdateWorkflow_does c req s : does (Some (urUserID req)) s (UpdateWorkflow c req).
Proof.
  unfold_call. apply does_owned. intros w Hw <- Hd. apply does_first; [leave|]. intros _ s1 _ E1.
  apply does_first; [leave|]. intros [] s2 Hc%checked_ok E2. apply does_last; [|leave].
  apply does_writing. intros w' db E. eapply ef_update; [done| |done| |exact E|done]; [by rewrite E2, E1|].
  by apply update_revises.
Qed.

Lemma DeleteWorkflow_does c id u s : does (Some u) s (DeleteWorkflow c id u).
Proof.
  unfold_call. apply does_owned. intros w Hw <- Hd. apply does_last; [|leave].
  apply does_saving. intros db E. by eapply ef_delete.
Qed.

Lemma CreateWorkflowVersion_does c id u note s : does (Some u) s (CreateWorkflowVersion c id u note).
Proof.
  unfold_call. apply does_owned. intros w Hw <- Hd. apply does_last; [|leave].
  apply does_writing. intros w' db E. by eapply ef_update.
Qed.

Lemma ActivateWorkflow_does c id u s : does (Some u) s (ActivateWorkflow c id u).
Proof.
  unfold_call. apply does_owned. intros w Hw <- Hd. apply does_first; [leave|]. intros _ s1 _ E1.
  apply does_first; [leave|]. intros [w' r] s2 Hf E2. apply does_first; [leave|]. intros [] s3 [= Hr _] E3.
  unfold fueled in Hf. destruct (Workflow_Activate w _) as [p|] eqn:Ea; [|done]. injection Hf as -> _. simpl in Hr. subst r.
  apply does_last; [|leave]. apply does_writing. intros w2 db E.
  eapply ef_update; [done| |done| |exact E|done]; [by rewrite E3, E2, E1|]. by eapply activate_revises.
Qed.

Lemma DeactivateWorkflow_does c id u s : does (Some u) s (DeactivateWorkflow c id u).
Proof.
  unfold_call. apply does_owned. intros w Hw <- Hd. apply does_last; [|leave].
  apply does_writing. intros w2 db E. eapply ef_update; [done..| |exact E|done]. apply deactivate_revises.
Qed.

Lemma DuplicateWorkflow_does c id u name s : does (Some u) s (DuplicateWorkflow c id u name).
Proof.
  unfold_call. apply does_owned. intros w Hw Hu Hd. apply does_last; [|leave].
  apply does_writing. intros w2 db E. eapply ef_create; [| | |exact E|]; try done; by apply inactive_sound.
Qed.

Lemma ImportWorkflow_does c u data format s : does (Some u) s (ImportWorkflow c u data format).
Proof.
  unfold_call. apply does_first; [leave|]. intros w s1 _ _. apply does_writing. intros w2 db E.
  eapply ef_create; [| | |exact E|]; try done; by apply inactive_sound.
Qed.

Lemma ShareWorkflow_does c id u t p s : does (Some u) s (ShareWorkflow c id u t p).
Proof.
  unfold_call. apply does_owned. intros w Hw _ _. apply does_first; [leave|]. intros _ s1 _ _.
  apply does_saving. intros db [= <-]%try_ok. by apply effect_other.
Qed.

Lemma UnshareWorkflow_does c id u t s : does (Some u) s (UnshareWorkflow c id u t).
Proof.
  unfold_call. apply does_owned. intros w Hw _ _. apply does_first; [leave|]. intros _ s1 _ _.
  apply does_last; [|leave]. apply does_writing. intros n db [= <- <-]%try_ok. by apply effect_other.
Qed.

Lemma CreateCategory_does c u n d i s : does u s (CreateCategory c n d i).
Proof.
  unfold_call. apply does_last; [|leave]. apply does_saving. intros db [= <-]%try_ok. by apply effect_other.
Qed.

Lemma SetWorkflowVariable_does c id u v s : does (Some u) s (SetWorkflowVariable c id u v).
Proof.
  unfold_call. apply does_owned. intros w Hw <- _. apply does_first; [leave|]. intros [] s1 [= Hv]%checked_ok E1.
  intros r s' [(a & s2 & E & [= <- <-])|(e & E & _)]%bind_inv.
  - unfold saving, writing, SaveWorkflowVariable, try in E. destruct (caFail c 1 _); [done|]. simplify_eq.
    eapply (ef_set_variable _ _ _ w (stamped v id (caStamp c))); simpl; try done. by rewrite E1.
  - unfold saving, writing, SaveWorkflowVariable, try in E. destruct (caFail c 1 _); [|done]. simplify_eq. apply effect_refl.
Qed.

Lemma DeleteWorkflowVariable_does c id u k s : does (Some u) s (DeleteWorkflowVariable c id u k).
Proof.
  unfold_call. apply does_owned. intros w Hw <- _. intros r s' [(a & s2 & E & E2)|(e & E & _)]%bind_inv.
  - unfold writing, Repo_DeleteWorkflowVariable, try in E. destruct (caFail c 1 _); [done|]. simplify_eq.
    apply (ef_delete_variable _ _ _ id w k); [done..| |];
      destruct (dbVariables (wsDB s) !! (id, k)); cbn in E2; by injection E2 as <- <-.
  - unfold writing, Repo_DeleteWorkflowVariable, try in E. destruct (caFail c 1 _); [|done]. simplify_eq. apply effect_refl.
Qed.

Lemma CreateEnvironment_does c id u e s : does (Some u) s (CreateEnvironment c id u e).
Proof.
  unfold_call. apply does_owned. intros w Hw _ _. apply does_first; [leave|]. intros n s1 _ _.
  intros r s' [(a & s2 & E & [= <- <-])|(e' & E & _)]%bind_inv; unfold saving, writing, Repo_CreateEnvironment, try in E.
  - destruct (caFail c 2 _); [done|]. destruct (dbEnvironments _ !! _); [done|]. simplify_eq. by apply ef_none.
  - destruct (caFail c 2 _); [simplify_eq; apply effect_refl|]. destruct (dbEnvironments _ !! _); [simplify_eq; apply effect_refl|done].
Qed.

Lemma UpdateEnvironment_does c id u e upd s : does (Some u) s (UpdateEnvironment c id u e upd).
Proof.
  unfold_call. apply does_owned. intros w Hw _ _. apply does_last; [|leave].
  apply does_writing. intros n db E%try_ok. apply effect_other; repeat case_match; simplify_eq; done.
Qed.

Lemma DeleteEnvironment_does c id u e s : does (Some u) s (DeleteEnvironment c id u e).
Proof.
  unfold_call. apply does_owned. intros w Hw _ _. apply does_first; [leave|]. intros env s1 _ _.
  apply does_first; [leave|]. intros _ s2 _ _. apply does_saving. intros db [= <-]%try_ok. by apply effect_other.
Qed.

Lemma SetDefaultEnvironment_does c id u e s : does (Some u) s (SetDefaultEnvironment c id u e).
Proof.
  unfold_call. apply does_owned. intros w Hw _ _. apply does_last; [|leave].
  apply does_writing. intros n db E%try_ok%try_ok. apply effect_other; repeat case_match; simplify_eq; done.
Qed.

(** What the environment of a call has to give: the query of a rollback sees every row. *)
Definition op_ok (op : Op) (c : Call A) (s : WorkflowService T) : Prop :=
  match op with OpRollback _ _ _ => range_order (dbVersions (wsDB s)) (caOrd c) | _ => True end.

(** The instance of a template is created with whatever the substitution of its
    variables made of it. *)
Definition instance_effect (s s' : WorkflowService T) : Prop :=
  ∃ w uuid now fail w', CreateWithVersion encode (wsDB s) w uuid now fail = Ok (w', wsDB s') ∧ wsVariables s' = wsVariables s.
Definition plain (op : Op) : bool := match op with OpFromTemplate _ _ _ _ => false | _ => true end.

Lemma RollbackWorkflowVersion_does c id k u s :
  op_ok (OpRollback id k u) c s → does (Some u) s (RollbackWorkflowVersion c id k u).
Proof.
  intros Hok. unfold_call. apply does_owned. intros w Hw <- Hd. apply does_last; [|leave].
  apply does_saving. intros db E. by eapply ef_restore.
Qed.

Lemma CreateFromTemplate_effect c tid u name vars s r s' :
  CreateFromTemplate c tid u name vars s = Ret (r, s') → effect (Some u) s s' ∨ instance_effect s s'.
Proof.
  unfold_call. intros [(w & s1 & E & E')|(e & E & _)]%bind_inv; unfold on_templates in E;
    destruct (InstantiateTemplate _ _ _ _ _ _ _ _ _ _ _ _ _ _ _ _ _) as [[w0 tm]|]; simplify_eq; [|left; apply effect_refl].
  apply bind_inv in E' as [(w2 & s2 & E2 & E3)|(e & E2 & _)]; unfold writing, WorkflowRepo.CreateWorkflow in E2; simpl in E2;
    destruct (CreateWithVersion _ _ _ _ _ _) as [[w3 db]|] eqn:Ec; simplify_eq; [|left; by apply ef_none].
  assert (wsDB s' = db ∧ wsVariables s' = wsVariables s) as [Ed Ev].
  { assert (leaves (_ ← publish (caBus c) "workflow.created_from_template"
        [("workflow_id", VStr (wID w2)); ("template_id", VStr tid); ("user_id", VStr u)]; mret w2)) as Hl by leave.
    by destruct (Hl _ _ _ E3). }
  right. exists w, (caUuid c 1), (caNow c 2), (caFail c 1), w2. by rewrite Ed.
Qed.

(** Every call has one of the effects, for its user. *)
Lemma run_effect op c s r s' :
  op_ok op c s → run_op op c s = Ret (r, s') → effect (op_user op) s s' ∨ (plain op = false ∧ instance_effect s s').
Proof.
  intros Hok E. destruct (plain op) eqn:Hp; [left|].
  - revert r s' E. change (does (op_user op) s (run_op op c)).
    destruct op; try discriminate Hp; cbn [op_user run_op] in *; unfold ignoring;
      (apply does_last; [|leave]);
      try solve [apply does_leaves; unfold_call; leave];
      first [apply CreateWorkflow_does | apply UpdateWorkflow_does | apply DeleteWorkflow_does | apply CreateWorkflowVersion_does
        | by apply RollbackWorkflowVersion_does | apply ActivateWorkflow_does | apply DeactivateWorkflow_does
        | apply DuplicateWorkflow_does | apply ImportWorkflow_does | apply ShareWorkflow_does | apply UnshareWorkflow_does
        | apply CreateCategory_does | apply SetWorkflowVariable_does | apply DeleteWorkflowVariable_does
        | apply CreateEnvironment_does | apply UpdateEnvironment_does | apply DeleteEnvironment_does
        | apply SetDefaultEnvironment_does].
  - destruct op; try discriminate Hp. cbn [op_user run_op] in *. unfold ignoring in E.
    apply bind_inv in E as [(w & s1 & E & [= _ <-])|(e & E & _)]; apply CreateFromTemplate_effect in E as [?|?]; auto.
Qed.

(** ** The invariant *)

(** What an insert of a version does to the tables. *)
Record saved (db db' : WorkflowDB) (id : string) (w : Workflow) : Prop := {
  sv_rows : dbWorkflows db' = <[id := w]> (dbWorkflows db);
  sv_versions : ∃ vid v, dbVersions db !! vid = None ∧ wvWorkflowID v = id
                         ∧ dbVersions db' = <[vid := v]> (dbVersions db);
  sv_variables : dbVariables db' = dbVariables db
}.

Lemma insert_version_saved db id w v fail db' :
  insert_version (put_workflows db (<[id := w]> (dbWorkflows db))) v fail = Ok db' → wvWorkflowID v = id → saved db db' id w.
Proof. intros [Hn ->]%insert_version_ok <-. split; [done| |done]. by exists (wvID v), v. Qed.

Lemma create_saved db w uuid now fail w' db' :
  CreateWithVersion encode db w uuid now fail = Ok (w', db') →
  dbWorkflows db !! wID w = None ∧ w' = with_column_defaults w ∧ saved db db' (wID w) w'.
Proof.
  unfold CreateWithVersion. intros E%try_ok. destruct (dbWorkflows db !! wID w) eqn:Ew; [done|].
  destruct (encode _) as [data|]; [|done]. destruct (insert_version _ _ _) eqn:Ei; [|done]. simplify_eq.
  split_and!; [done..|]. by apply insert_version_saved in Ei.
Qed.

Lemma update_saved db w note uuid now fail w' db' :
  UpdateWithVersion encode db w note uuid now fail = Ok (w', db') →
  (∃ v, w' = set_version w v now) ∧ saved db db' (wID w) w'.
Proof.
  unfold UpdateWithVersion. intros E%try_ok. destruct (max_version db (wID w)) as [v|]; [|done]. apply try_ok in E.
  destruct (encode _) as [data|]; [|done]. destruct (insert_version _ _ _) eqn:Ei; [|done]. simplify_eq.
  split; [by eexists|]. by apply insert_version_saved in Ei.
Qed.

Lemma restore_saved db ord id k u uuid now fail db' w :
  RestoreVersion decode db ord id k u uuid now fail = Ok db' → dbWorkflows db' !! id = Some w → dbWorkflows db !! id ≠ Some w →
  saved db db' id w.
Proof.
  unfold RestoreVersion. intros E%try_ok. destruct (find_version _ _ _ _) as [wv|]; [|done].
  destruct (decode _) as [r|]; [|done]. apply try_ok in E. destruct (max_version _ _) as [v|]; [|done]. apply try_ok in E.
  intros Hw Hn. pose proof E as E'. apply insert_version_ok in E' as [_ ->]. simpl in Hw.
  apply lookup_insert_Some in Hw as [[<- <-]|[_ Hw]]; [|done]. by apply insert_version_saved in E.
Qed.

(** [valid]: contents that survive their JSON, as in [WorkflowRepo]. *)
Context (valid : Workflow → Prop).
Context (json_ok : ∀ w s, valid (content w) → encode w = Some s → ∃ w', decode s = Some w' ∧ content w' = content w).

Definition rows_valid (s : WorkflowService T) : Prop :=
  ∀ id w, dbWorkflows (wsDB s) !! id = Some w → valid (content w).

(** [h] are the histories of the workflows. *)
Record inv (s : WorkflowService T) (h : gmap string (list Workflow)) : Prop := {
  in_holds : holds decode valid (wsDB s) h;
  in_rows id w : dbWorkflows (wsDB s) !! id = Some w → sound w;
  in_hist id l : h !! id = Some l → Forall sound l;
  in_owner id w l : dbWorkflows (wsDB s) !! id = Some w → h !! id = Some l → Forall (λ c, wUserID c = wUserID w) l;
  in_variables wf vars k v : vmVariables (wsVariables s) !! wf = Some vars → vars !! k = Some v →
    dbVariables (wsDB s) !! (wf, k) = Some v;
  in_variable_rows wf k v : dbVariables (wsDB s) !! (wf, k) = Some v →
    varWorkflowID v = wf ∧ varKey v = k ∧ ValidateVariableName k = None
}.

(** A version appended to the history of [id]. *)
Lemma inv_append s s' h id w l :
  inv s h → holds decode valid (wsDB s') (<[id := l ++ [content w]]> h) → saved (wsDB s) (wsDB s') id w →
  wsVariables s' = wsVariables s → l = get_slice h id → sound w →
  (∀ w0, dbWorkflows (wsDB s) !! id = Some w0 → wUserID w = wUserID w0) → inv s' (<[id := l ++ [content w]]> h).
Proof.
  intros [H1 H2 H3 H4 H5 H6] Hh [Hr _ Hv] Hm Hl Hs Hu. split; rewrite ?Hm, ?Hv; [done| | | |done|done].
  - intros id' w'. rewrite Hr. intros [[<- <-]|[_ ?]]%lookup_insert_Some; [done|by eapply H2].
  - intros id' l'. intros [[<- <-]|[_ ?]]%lookup_insert_Some; [|by eapply H3]. apply Forall_app. split; [|by constructor].
    subst l. unfold get_slice. destruct (h !! id) as [l|] eqn:El; [by eapply H3|constructor].
  - intros id' w' l'. rewrite Hr. destruct (decide (id = id')) as [<-|Hn]; [rewrite !lookup_insert_eq|rewrite !lookup_insert_ne by done; apply H4].
    intros [= <-] [= <-]. apply Forall_app. split; [|by constructor]. subst l. unfold get_slice.
    destruct (h !! id) as [l|] eqn:El; [|constructor]. destruct (proj1 (ho_rows _ _ _ _ H1 id)) as [w0 Hw0]; [by rewrite El|].
    rewrite (Hu _ Hw0). by eapply H4.
Qed.

Lemma with_column_defaults_sound w : sound w → sound (with_column_defaults w).
Proof.
  intros [Ha Hv]. split; [|exact Hv]. simpl. rewrite Ha. destruct (decide (wStatus w = "")) as [E|E].
  - by rewrite E.
  - by rewrite (bool_decide_false (wStatus w = "")).
Qed.

Lemma inv_variables s s' h :
  inv s h → same_tables (wsDB s) (wsDB s') →
  (∀ wf vars k v, vmVariables (wsVariables s') !! wf = Some vars → vars !! k = Some v →
     dbVariables (wsDB s') !! (wf, k) = Some v) →
  (∀ wf k v, dbVariables (wsDB s') !! (wf, k) = Some v →
     varWorkflowID v = wf ∧ varKey v = k ∧ ValidateVariableName k = None) →
  inv s' h.
Proof.
  intros [H1 H2 H3 H4 H5 H6] [Et Ev] Hm Hr. split; rewrite ?Et; [|by eauto..].
  destruct H1 as [A1 A2 A3 A4 A5 A6]. split; rewrite ?Et, ?Ev; done.
Qed.

Lemma create_service_inv s s' h w uuid now fail w' :
  inv s h → rows_valid s' → sound w → wVersion w = 1%Z → CreateWithVersion encode (wsDB s) w uuid now fail = Ok (w', wsDB s') →
  wsVariables s' = wsVariables s → ∃ h', inv s' h'.
Proof.
  intros H Hv Hs H1 E Em. destruct (create_saved _ _ _ _ _ _ _ E) as (Hn & Hw & Hsv).
  assert (dbWorkflows (wsDB s') !! wID w = Some w') as Hrow by (rewrite (sv_rows _ _ _ _ Hsv); apply lookup_insert_eq).
  assert (h !! wID w = None) as Hh.
  { apply eq_None_not_Some. rewrite (ho_rows _ _ _ _ (in_holds _ _ H)), Hn. by intros []. }
  exists (<[wID w := [content w']]> h).
  apply (inv_append s s' h (wID w) w' []); try done.
  - eapply create_holds; [done|apply H|exact E|by eapply Hv|]. rewrite Hw. simpl. rewrite bool_decide_false by lia. done.
  - unfold get_slice. by rewrite Hh.
  - rewrite Hw. by apply with_column_defaults_sound.
  - by rewrite Hn.
Qed.

Lemma update_service_inv s s' h id w w' note uuid now fail w'' :
  inv s h → rows_valid s' → dbWorkflows (wsDB s) !! id = Some w → revises w w' →
  UpdateWithVersion encode (wsDB s) w' note uuid now fail = Ok (w'', wsDB s') →
  wsVariables s' = wsVariables s → ∃ h', inv s' h'.
Proof.
  intros H Hv Hw (Hid & Hu & Hs) E Em. destruct (update_saved _ _ _ _ _ _ _ _ E) as [[v Ev] Hsv].
  destruct (proj2 (ho_rows _ _ _ _ (in_holds _ _ H) id)) as [l Hl]; [by rewrite Hw|].
  destruct (ho_row _ _ _ _ (in_holds _ _ H) _ _ _ Hw Hl) as (Ei & _ & _). assert (wID w' = id) as Ei' by congruence.
  rewrite Ei' in Hsv.
  assert (dbWorkflows (wsDB s') !! id = Some w'') as Hrow by (rewrite (sv_rows _ _ _ _ Hsv); apply lookup_insert_eq).
  assert (content w'' = content w') as Hc by by rewrite Ev.
  exists (<[id := get_slice h id ++ [content w'']]> h). apply (inv_append s s' h id w''); try done.
  - rewrite Hc, <- Ei'. eapply update_holds; [done|apply H|exact E|]. rewrite <- Hc. by eapply Hv.
  - rewrite Ev. apply Hs. by eapply in_rows.
  - intros w0 Hw0. rewrite Ev. simpl. congruence.
Qed.

Lemma restore_inv s s' h id w ord k uuid now fail :
  inv s h → dbWorkflows (wsDB s) !! id = Some w → range_order (dbVersions (wsDB s)) ord →
  RestoreVersion decode (wsDB s) ord id k (wUserID w) uuid now fail = Ok (wsDB s') →
  wsVariables s' = wsVariables s → ∃ h', inv s' h'.
Proof.
  intros H Hw Ho E Em.
  destruct (restore_holds encode _ _ json_ok _ _ _ _ _ _ _ _ _ _ (in_holds _ _ H) Ho E) as (c & w' & Hk & Hh & Hw' & <- & Hver).
  destruct (proj2 (ho_rows _ _ _ _ (in_holds _ _ H) id)) as [l Hl]; [by rewrite Hw|].
  destruct (ho_row _ _ _ _ (in_holds _ _ H) _ _ _ Hw Hl) as (Ei & Hv & _).
  assert (get_slice h id = l) as El by (unfold get_slice; by rewrite Hl). rewrite El in *.
  exists (<[id := l ++ [content w']]> h). apply (inv_append s s' h id w'); try done.
  - eapply restore_saved; [done..|]. rewrite Hw. intros [= ->]. lia.
  - pose proof (in_hist _ _ H _ _ Hl) as Hf. rewrite Forall_lookup in Hf. by apply Hf in Hk.
  - intros w0 Hw0. assert (w0 = w) as -> by congruence. pose proof (in_owner _ _ H _ _ _ Hw Hl) as Hf.
    rewrite Forall_lookup in Hf. by apply Hf in Hk.
Qed.

Lemma delete_workflow_inv s s' h id w now fail :
  inv s h → dbWorkflows (wsDB s) !! id = Some w →
  WorkflowRepo.DeleteWorkflow (wsDB s) id (wUserID w) now fail = Ok (wsDB s') →
  wsVariables s' = wsVariables s → inv s' h.
Proof.
  intros H Hw E Em. pose proof (delete_holds _ _ _ _ _ _ _ _ _ (in_holds _ _ H) E) as Hh.
  unfold WorkflowRepo.DeleteWorkflow in E. apply try_ok in E. rewrite Hw, bool_decide_true in E by done. injection E as Ed.
  destruct H as [H1 H2 H3 H4 H5 H6]. split; rewrite ?Em; rewrite <- Ed in *; simpl; [done| |done| |done..].
  - intros id' w'. intros [[<- <-]|[_ ?]]%lookup_insert_Some; [|by eapply H2]. apply H2 in Hw. exact Hw.
  - intros id' w' l. intros [[<- <-]|[_ ?]]%lookup_insert_Some; [|by eapply H4]. intros Hl. by eapply (H4 _ w).
Qed.

Lemma effect_inv u s s' h : inv s h → rows_valid s' → effect u s s' → ∃ h', inv s' h'.
Proof.
  intros H Hv [Ht Ed Em|w uuid now fail w' _ Hs H1 E Em|id w w' note uuid now fail w'' _ Hw _ Hr E Em
    |id w ord k uuid now fail _ Hw _ Ho E Em|id w now fail _ Hw E Em|w v _ Hw Hn Ed Em|id w k _ Hw Ed Em].
  - exists h. apply (inv_variables s); [done..| |]; rewrite ?Em, ?Ed; [apply H|apply H].
  - by eapply create_service_inv.
  - by eapply update_service_inv.
  - by eapply restore_inv.
  - exists h. by eapply delete_workflow_inv.
  - exists h. apply (inv_variables s); [done|by rewrite Ed| |]; rewrite ?Em, Ed; simpl.
    + unfold SetVariable. rewrite Hn. simpl. intros wf vars k x. intros [[<- <-]|[Hne Hx]]%lookup_insert_Some.
      * intros [[<- <-]|[Hk Hx]]%lookup_insert_Some; [apply lookup_insert_eq|]. rewrite lookup_insert_ne by congruence.
        destruct (vmVariables _ !! _) as [vars|] eqn:Ev; simpl in Hx; [|by rewrite lookup_empty in Hx]. by eapply in_variables.
      * intros Hk. rewrite lookup_insert_ne by congruence. by eapply in_variables.
    + intros wf k x [[[= <- <-] <-]|[_ Hx]]%lookup_insert_Some; [done|by eapply in_variable_rows].
  - exists h. apply (inv_variables s); [done|by rewrite Ed| |]; rewrite ?Em, Ed; simpl.
    + intros wf vars k' v. destruct (dbVariables (wsDB s) !! (id, k)) as [x|] eqn:Ex.
      * unfold DeleteVariable. destruct (vmVariables (wsVariables s) !! id) as [m|] eqn:Em'; simpl.
        -- intros [[<- <-]|[Hne Hx]]%lookup_insert_Some.
           ++ intros [Hk Hx]%lookup_delete_Some. rewrite lookup_delete_ne by congruence. by eapply in_variables.
           ++ intros Hk. rewrite lookup_delete_ne by congruence. by eapply in_variables.
        -- intros Hx Hk. rewrite lookup_delete_ne by congruence. by eapply in_variables.
      * intros Hx Hk. rewrite delete_id by done. by eapply in_variables.
    + intros wf k' v [_ Hx]%lookup_delete_Some. by eapply in_variable_rows.
Qed.

(** A call, after which every row survives its JSON. *)
Definition sstep (s s' : WorkflowService T) : Prop :=
  ∃ op c r, op_ok op c s ∧ run_op op c s = Ret (r, s') ∧ rows_valid s'.

Definition initial (s : WorkflowService T) : Prop := wsDB s = empty_db ∧ wsVariables s = NewVariableManager.

Lemma initial_inv s : initial s → inv s ∅.
Proof.
  intros [E1 E2]. split; rewrite ?E1, ?E2; simpl; try by (intros *; rewrite ?lookup_empty; done). apply holds_empty.
Qed.

(** One that does not instantiate a template. *)
Definition plain_step (s s' : WorkflowService T) : Prop :=
  ∃ op c r, plain op = true ∧ op_ok op c s ∧ run_op op c s = Ret (r, s') ∧ rows_valid s'.

Lemma plain_is_step s s' : rtc plain_step s s' → rtc sstep s s'.
Proof. apply rtc_subrel. intros x y (op & c & r & _ & ?). by exists op, c, r. Qed.

Lemma reachable_inv s0 s : initial s0 → rtc plain_step s0 s → ∃ h, inv s h.
Proof.
  intros H0 Hs. apply (rtc_preserve plain_step (λ s, ∃ h, inv s h)) with (x := s0); [|done|by exists ∅; apply initial_inv].
  intros s1 s2 (op & c & r & Hp & Hok & E & Hv) [h Hh]. destruct (run_effect _ _ _ _ _ Hok E) as [?|[? _]]; [|congruence].
  by eapply effect_inv.
Qed.

(** C8. Through any sequence of calls from the empty tables, other than the
    instantiation of templates, whose substituted text can set every field of the
    instance ([instance_effect]), with any failures and as long as the rows survive
    their JSON: an active workflow carries the active status and has a graph that
    validates, or no nodes; the versions of every workflow are its saved contents, all
    of one owner; and the variables in memory are those of the table, under their
    workflow and a valid name. *)
Theorem service_invariant s0 s :
  initial s0 → rtc plain_step s0 s →
  (∀ id w, dbWorkflows (wsDB s) !! id = Some w →
     wID w = id ∧ (wIsActive w = true ↔ wStatus w = StatusActive)
     ∧ (wIsActive w = true → wNodes w = [] ∨ Workflow_Validate w = Some (Ok tt)))
  ∧ (∃ h, holds decode valid (wsDB s) h ∧ ∀ id w l c, dbWorkflows (wsDB s) !! id = Some w → h !! id = Some l → c ∈ l →
       wUserID c = wUserID w)
  ∧ (∀ wf k v, VM_GetVariable (wsVariables s) wf k = Ok v →
       dbVariables (wsDB s) !! (wf, k) = Some v ∧ varWorkflowID v = wf ∧ varKey v = k ∧ ValidateVariableName k = None).
Proof.
  intros H0 Hs. destruct (reachable_inv _ _ H0 Hs) as [h H]. split_and!.
  - intros id w Hw. destruct (in_rows _ _ H _ _ Hw) as [Ha Hg]. rewrite Ha in Hg |- *. rewrite bool_decide_eq_true in Hg |- *.
    destruct (proj2 (ho_rows _ _ _ _ (in_holds _ _ H) id)) as [l Hl]; [by rewrite Hw|].
    destruct (ho_row _ _ _ _ (in_holds _ _ H) _ _ _ Hw Hl) as (Ei & _). done.
  - exists h. split; [apply H|]. intros id w l c Hw Hl Hc. pose proof (in_owner _ _ H _ _ _ Hw Hl) as Hf.
    rewrite Forall_forall in Hf. by apply Hf.
  - intros wf k v. unfold VM_GetVariable. destruct (vmVariables _ !! wf) as [vars|] eqn:E; simpl; [|done].
    destruct (vars !! k) eqn:Ek; [|done]. intros [= ->]. pose proof (in_variables _ _ H _ _ _ _ E Ek) as Hd.
    split; [done|]. by eapply in_variable_rows.
Qed.

(** *** Isolation *)

(** What the tables hold of a workflow. *)
Definition same_workflow (db db' : WorkflowDB) (id : string) : Prop :=
  dbWorkflows db' !! id = dbWorkflows db !! id
  ∧ (∀ vid v, wvWorkflowID v = id → dbVersions db' !! vid = Some v ↔ dbVersions db !! vid = Some v)
  ∧ ∀ k, dbVariables db' !! (id, k) = dbVariables db !! (id, k).

Lemma saved_same db db' id w id' : saved db db' id w → id ≠ id' → same_workflow db db' id'.
Proof. clear.
  intros [Hr (vid & v & Hn & Hv & Hvs) Hva] Hne. split_and!.
  - rewrite Hr. by rewrite lookup_insert_ne.
  - intros vid' v' Hv'. rewrite Hvs, lookup_insert_Some. split; [naive_solver|]. intros Hx.
    destruct (decide (vid = vid')) as [->|]; [congruence|by right].
  - intros k. by rewrite Hva.
Qed.

(** What isolation rests on, instances of templates included: rows and saved contents
    are under the ID they carry. *)
Record under_ids (db : WorkflowDB) : Prop := {
  ke_rows id w : dbWorkflows db !! id = Some w → wID w = id;
  ke_versions vid v c : dbVersions db !! vid = Some v → decode (wvData v) = Some c → wID c = wvWorkflowID v
}.
Lemma content_id w w' : content w = content w' → wID w = wID w'.
Proof. clear. intros E. apply (f_equal wID) in E. done. Qed.
Lemma keyed_saved db db' w v :
  under_ids db → dbWorkflows db' = <[wID w := w]> (dbWorkflows db) → dbVersions db' = <[wvID v := v]> (dbVersions db) →
  (∀ c, decode (wvData v) = Some c → wID c = wvWorkflowID v) → under_ids db'.
Proof. clear.
  intros [Hr Hv] E1 E2 Hd. split; [intros id x|intros vid x c]; rewrite ?E1, ?E2; intros [[<- <-]|[_ Hx]]%lookup_insert_Some; eauto.
Qed.
(** The text of a row that survives its JSON. *)
Lemma encoded_keyed w data c : valid (content w) → encode w = Some data → decode data = Some c → wID c = wID w.
Proof. clear -json_ok. intros Hv E D. destruct (json_ok _ _ Hv E) as (w' & D' & Hc). apply content_id. congruence. Qed.
Lemma create_keyed db w uuid now fail w' db' :
  under_ids db → CreateWithVersion encode db w uuid now fail = Ok (w', db') → (∀ id x, dbWorkflows db' !! id = Some x → valid (content x)) → under_ids db'.
Proof. clear -json_ok.
  intros Hk E Hv. pose proof E as E0. apply create_saved in E0 as (_ & -> & [Hr _ _]). unfold CreateWithVersion in E. apply try_ok in E.
  destruct (dbWorkflows db !! wID w); [done|]. destruct (encode _) as [data|] eqn:Ee; [|done].
  destruct (insert_version _ _ _) as [db1|] eqn:Ei; [|done]. simplify_eq. apply insert_version_ok in Ei as [_ ->].
  eapply keyed_saved; [done..|]. simpl. intros c. apply (encoded_keyed (with_column_defaults w)); [|done]. eapply Hv. rewrite Hr. apply lookup_insert_eq.
Qed.
Lemma update_keyed db w note uuid now fail w' db' :
  under_ids db → UpdateWithVersion encode db w note uuid now fail = Ok (w', db') → (∀ id x, dbWorkflows db' !! id = Some x → valid (content x)) → under_ids db'.
Proof. clear -json_ok.
  intros Hk E Hv. pose proof E as E0. apply update_saved in E0 as (_ & [Hr _ _]). unfold UpdateWithVersion in E. apply try_ok in E.
  destruct (max_version db (wID w)) as [n|]; [|done]. apply try_ok in E. destruct (encode _) as [data|] eqn:Ee; [|done].
  destruct (insert_version _ _ _) as [db1|] eqn:Ei; [|done]. simplify_eq. apply insert_version_ok in Ei as [_ ->].
  eapply keyed_saved; [done..|]. simpl. intros c. apply (encoded_keyed (set_version w (n + 1) now)); [|done]. eapply Hv. rewrite Hr. apply lookup_insert_eq.
Qed.
Lemma restore_keyed db ord id k u uuid now fail db' :
  under_ids db → RestoreVersion decode db ord id k u uuid now fail = Ok db' → under_ids db' ∧ ∃ w, saved db db' id w.
Proof. clear.
  intros Hk. unfold RestoreVersion. intros E%try_ok. destruct (find_version _ _ _ _) as [wv|] eqn:Ef; [|done].
  destruct (decode _) as [r|] eqn:Ed; [|done]. apply try_ok in E. destruct (max_version _ _) as [n|]; [|done]. apply try_ok in E.
  assert (wID r = id) as Hid.
  { apply head_Some_elem_of in Ef. unfold rows_where in Ef. apply list_elem_of_omap in Ef as (vid & _ & Hin).
    destruct (dbVersions db !! vid) as [v0|] eqn:Ev; [|done]. destruct (is_version_of id v0) eqn:Ei; [|done]. simpl in Hin.
    case_bool_decide; [|done]. injection Hin as ->. rewrite (ke_versions _ Hk _ _ _ Ev Ed). unfold is_version_of in Ei. by case_bool_decide. }
  pose proof E as E'. apply insert_version_ok in E' as [_ ->]. split.
  - eapply keyed_saved; [done..|]. simpl. intros c Hc. congruence.
  - eexists. rewrite <- Hid at 1 3. eapply insert_version_saved; [exact E|done].
Qed.

Lemma effect_keyed u s s' : under_ids (wsDB s) → rows_valid s' → effect u s s' ∨ instance_effect s s' → under_ids (wsDB s').
Proof. clear -json_ok.
  intros Hk Hv [[[Ht Hvs] Ed Em|w uuid now fail w' _ Hs H1 E Em|id w w' note uuid now fail w'' _ Hw _ Hr E Em
    |id w ord k uuid now fail _ Hw _ Ho E Em|id w now fail _ Hw E Em|w v _ Hw Hn Ed Em|id w k _ Hw Ed Em]|(w & uuid & now & fail & w' & E & Em)].
  - destruct Hk. split; [by rewrite Ht|by rewrite Hvs].
  - by eapply create_keyed.
  - by eapply update_keyed.
  - by eapply restore_keyed.
  - unfold WorkflowRepo.DeleteWorkflow in E. apply try_ok in E. rewrite Hw, bool_decide_true in E by done. injection E as <-.
    destruct Hk as [H1 H2]. split; [|done]. simpl. intros id' x [[<- <-]|[_ Hx]]%lookup_insert_Some; [by apply (H1 _ w)|by apply H1].
  - rewrite Ed. by destruct Hk.
  - rewrite Ed. by destruct Hk.
  - by eapply create_keyed.
Qed.
Lemma reachable_keyed s0 s : initial s0 → rtc sstep s0 s → under_ids (wsDB s).
Proof.
  intros [E0 _] Hs. apply (rtc_preserve sstep (λ s, under_ids (wsDB s))) with (x := s0); [|done|by rewrite E0].
  intros s1 s2 (op & c & r & Hok & E & Hv) Hk. eapply effect_keyed; [done..|]. destruct (run_effect _ _ _ _ _ Hok E) as [?|[_ ?]]; eauto.
Qed.

Lemma effect_isolated u s s' id w :
  under_ids (wsDB s) → effect u s s' ∨ instance_effect s s' → dbWorkflows (wsDB s) !! id = Some w → u ≠ Some (wUserID w) →
  same_workflow (wsDB s) (wsDB s') id.
Proof.
  intros Hk [[[Ht Hv] Ed Em|w1 uuid now fail w' -> Hs H1 E Em|id1 w1 w' note uuid now fail w'' -> Hw1 _ (Hid & _) E Em
    |id1 w1 ord k uuid now fail -> Hw1 _ Ho E Em|id1 w1 now fail -> Hw1 E Em|w1 v -> Hw1 Hn Ed Em|id1 w1 k -> Hw1 Ed Em]
    |(w1 & uuid & now & fail & w' & E & Em)] Hw Hu.
  - split_and!; [by rewrite Ht|by rewrite Hv|by rewrite Ed].
  - destruct (create_saved _ _ _ _ _ _ _ E) as (Hn & _ & Hsv). eapply saved_same; [done|]. congruence.
  - destruct (update_saved _ _ _ _ _ _ _ _ E) as [_ Hsv]. eapply saved_same; [done|].
    rewrite Hid, (ke_rows _ Hk _ _ Hw1). congruence.
  - destruct (restore_keyed _ _ _ _ _ _ _ _ _ Hk E) as [_ [w2 Hsv]]. eapply saved_same; [done|]. congruence.
  - unfold WorkflowRepo.DeleteWorkflow in E. apply try_ok in E. rewrite Hw1, bool_decide_true in E by done.
    injection E as <-. split_and!; [|done..]. simpl. rewrite lookup_insert_ne by congruence. done.
  - rewrite Ed. split_and!; [done..|]. intros k. simpl. rewrite lookup_insert_ne by congruence. done.
  - rewrite Ed. split_and!; [done..|]. intros k'. simpl. rewrite lookup_delete_ne by congruence. done.
  - destruct (create_saved _ _ _ _ _ _ _ E) as (Hn & _ & Hsv). eapply saved_same; [done|]. congruence.
Qed.

(** No call changes anything of a workflow of another user: its row, its
    versions and its variables stay. *)
Lemma tenant_isolation s0 s op c r s' id w :
  initial s0 → rtc sstep s0 s → op_ok op c s → run_op op c s = Ret (r, s') →
  dbWorkflows (wsDB s) !! id = Some w → op_user op ≠ Some (wUserID w) → same_workflow (wsDB s) (wsDB s') id.
Proof.
  intros H0 Hs Hok E Hw Hu. eapply effect_isolated; [by eapply reachable_keyed| |done..].
  destruct (run_effect _ _ _ _ _ Hok E) as [?|[_ ?]]; eauto.
Qed.

(** ** Activation *)

Section activation.
Context `{!TriggerLaws T A}.

(** The rows keep all but the status, which is the old one or [status]. *)
Definition moved_to (status : string) (t t' : gmap string WorkflowTrigger) : Prop :=
  ∀ i r, t !! i = Some r → ∃ r', t' !! i = Some r' ∧ (r' = r ∨ same_but_status r r' ∧ wtStatus r' = status).

Lemma moved_to_trans status t1 t2 t3 : moved_to status t1 t2 → moved_to status t2 t3 → moved_to status t1 t3.
Proof. clear.
  intros H1 H2 i r Hr. destruct (H1 _ _ Hr) as (r1 & Hr1 & C1). destruct (H2 _ _ Hr1) as (r2 & Hr2 & C2). exists r2.
  split; [done|]. destruct C1 as [->|[S1 E1]], C2 as [->|[S2 E2]]; [by left|by right|by right|]. right. split; [|done].
  unfold same_but_status in *. naive_solver congruence.
Qed.

Lemma call_moves (call : T → string → A → outcome (option string * T)) status t id a e t' :
  changes_status tl_table tl_ok call status → tl_ok t → call t id a = Ret (e, t') → moved_to status (tl_table t) (tl_table t').
Proof. clear.
  intros Hc Ho E i r Hr. destruct (Hc _ _ _ _ _ Ho E) as (_ & Hn & Hi). destruct (decide (i = id)) as [->|Hne].
  - destruct e as [e|]; [exists r; by rewrite Hi; auto|]. destruct Hi as (r0 & r' & H1 & H2 & H3 & H4). simplify_eq. eauto.
  - exists r. rewrite Hn by done. auto.
Qed.

(** The call on the trigger was answered with an error. *)
Definition refused (call : T → string → A → outcome (option string * T)) (c : Call A) (id : string) : Prop :=
  ∃ st k e st', call st id (caTrigger c k) = Ret (Some e, st').

Lemma each_trigger_spec (call : T → string → A → outcome (option string * T)) status from c ts k (s : WorkflowService T) r s' :
  changes_status tl_table tl_ok call status → tl_ok (wsTriggers s) →
  each_trigger call c from ts k s = Ret (r, s') →
  tl_ok (wsTriggers s') ∧ moved_to status (tl_table (wsTriggers s)) (tl_table (wsTriggers s'))
  ∧ (∀ i, i ∉ wtID <$> ts → tl_table (wsTriggers s') !! i = tl_table (wsTriggers s) !! i)
  ∧ ∀ t, t ∈ ts → wtStatus t = from →
      (∃ r', tl_table (wsTriggers s') !! wtID t = Some r' ∧ wtStatus r' = status) ∨ refused call c (wtID t).
Proof. clear.
  intros Hc. revert k s. induction ts as [|t ts IH]; intros k s Ho E; cbn [each_trigger] in E.
  { injection E as <- <-. split_and!; [done| |done|set_solver]. intros i x Hx. eauto. }
  apply bind_inv in E as [(a & s1 & E1 & E2)|(e & E1 & _)].
  2: { case_bool_decide; [|done]. unfold on_triggers in E1. destruct (call _ _ _) as [[? ?]|?|]; done. }
  case_bool_decide as Hf.
  - unfold on_triggers in E1. destruct (call _ _ _) as [[e st]|?|] eqn:Ec; [|done..]. injection E1 as _ <-.
    destruct (Hc _ _ _ _ _ Ho Ec) as (Ho1 & Hn & Hi). destruct (IH _ (set_triggers s st) Ho1 E2) as (G1 & G2 & G3 & G4). cbn [wsTriggers set_triggers] in *.
    split_and!; [done|eapply moved_to_trans; [by eapply call_moves|done]| |].
    + intros i Hx. rewrite fmap_cons in Hx. rewrite G3 by set_solver. apply Hn. set_solver.
    + intros t' [->|Ht]%elem_of_cons Hs; [|by apply G4]. destruct e as [e|]; [right; by exists (wsTriggers s), k, e, st|].
      left. destruct Hi as (r0 & r1 & _ & H2 & _ & H4). destruct (G2 _ _ H2) as (r2 & Hr2 & Hx). exists r2. split; [done|].
      destruct Hx as [->|[_ ?]]; done.
  - injection E1 as _ <-. destruct (IH _ _ Ho E2) as (G1 & G2 & G3 & G4). split_and!; [done..| |].
    + intros i Hx. rewrite fmap_cons in Hx. apply G3. set_solver.
    + intros t' [->|Ht]%elem_of_cons Hs; [done|by apply G4].
Qed.

Lemma each_events call c from ts k (s : WorkflowService T) r s' :
  each_trigger call c from ts k s = Ret (r, s') → wsEvents s' = wsEvents s.
Proof.
  revert k s. induction ts as [|t ts IH]; intros k s E; cbn [each_trigger] in E; [by injection E as <- <-|].
  apply bind_inv in E as [(a & s1 & E1 & E2)|(e & E1 & _)].
  - rewrite (IH _ _ E2). case_bool_decide; [|by injection E1 as _ <-]. unfold on_triggers in E1.
    destruct (call _ _ _) as [[? ?]|?|]; [by injection E1 as _ <-|done..].
  - case_bool_decide; [|done]. unfold on_triggers in E1. destruct (call _ _ _) as [[? ?]|?|]; done.
Qed.

(** The triggers a call lists are those of the workflow. *)
Lemma listed_triggers_of (s : WorkflowService T) c id i r :
  tl_ok (wsTriggers s) → tl_table (wsTriggers s) !! i = Some r → wtWorkflowID r ≠ id →
  i ∉ wtID <$> match tp_list (wsTriggers s) id (caTrigger c 0) with Ok ts => ts | Err _ => [] end.
Proof. clear.
  intros Ho Hr Hne [t [-> Ht]]%list_elem_of_fmap. destruct (tp_list _ _ _) as [ts|] eqn:E; [|by apply not_elem_of_nil in Ht].
  destruct (tl_list _ _ _ _ Ho E _ Ht) as [H1 H2]. congruence.
Qed.

(** What switching a workflow does to its triggers. *)
Record switched (call : T → string → A → outcome (option string * T)) (from to : string) (c : Call A) (id : string)
    (s s' : WorkflowService T) : Prop := {
  sw_ok : tl_ok (wsTriggers s');
  sw_moved : moved_to to (tl_table (wsTriggers s)) (tl_table (wsTriggers s'));
  sw_others i r : tl_table (wsTriggers s) !! i = Some r → wtWorkflowID r ≠ id →
    tl_table (wsTriggers s') !! i = Some r;
  sw_listed ts t : tp_list (wsTriggers s) id (caTrigger c 0) = Ok ts → t ∈ ts → wtStatus t = from →
    (∃ r, tl_table (wsTriggers s') !! wtID t = Some r ∧ wtStatus r = to) ∨ refused call c (wtID t)
}.

Lemma switch_triggers call from to c id (s s1 s' : WorkflowService T) payload type :
  changes_status tl_table tl_ok call to → tl_ok (wsTriggers s) → wsTriggers s1 = wsTriggers s →
  (list_triggers c id ≫= λ ts, each_trigger call c from ts 1 ≫= λ _, publish (caBus c) type payload) s1 = Ret (Ok tt, s') →
  switched call from to c id s s' ∧ wsDB s' = wsDB s1
  ∧ wsEvents s' = wsEvents s1 ++ match caBus c with Some _ => [] | None => [(type, list_to_map payload)] end.
Proof.
  intros Hc Ho Et [(ts & s2 & [= Ets <-] & E2)|(e & _ & He)]%bind_inv; [|done].
  apply bind_inv in E2 as [([] & s3 & E3 & E4)|(e & _ & He)]; [|done]. rewrite Et in Ets.
  rewrite <- Et in Ho. destruct (each_trigger_spec _ _ _ _ _ _ _ _ _ Hc Ho E3) as (G1 & G2 & G3 & G4).
  destruct (leaves_each _ _ _ _ _ _ _ _ E3) as [Ed _]. pose proof (each_events _ _ _ _ _ _ _ _ E3) as Eev.
  unfold publish in E4. injection E4 as E4. rewrite Et in *.
  assert (wsTriggers s' = wsTriggers s3) as Es by (subst s'; by destruct (caBus c)).
  split_and!; [|subst s'; by destruct (caBus c)|subst s'; destruct (caBus c); simpl; by rewrite Eev, ?app_nil_r].
  split; rewrite ?Es; [done..| |].
  - intros i r Hr Hne. rewrite G3; [done|]. subst ts. by eapply listed_triggers_of.
  - intros ts' t E Ht Hs. apply G4; [|done]. rewrite <- Ets, E. done.
Qed.

(** The workflow's row before and after, in a table of rows under their IDs. *)
Definition row_change (s s' : WorkflowService T) (id u : string) (P : Workflow → Workflow → Prop) : Prop :=
  ∃ w w', dbWorkflows (wsDB s) !! id = Some w ∧ wUserID w = u ∧ wDeletedAt w = None
    ∧ dbWorkflows (wsDB s') = <[id := w']> (dbWorkflows (wsDB s))
    ∧ wNodes w' = wNodes w ∧ wConnections w' = wConnections w ∧ wUserID w' = wUserID w ∧ P w w'.

Definition keyed (s : WorkflowService T) : Prop := map_Forall (λ id w, wID w = id) (dbWorkflows (wsDB s)).

Lemma saving_row (s s' : WorkflowService T) w w' note uuid now fail w'' :
  writing (λ db, UpdateWithVersion encode db w' note uuid now fail) s = Ret (Ok w'', s') → wID w' = wID w →
  (∃ v, w'' = set_version w' v now) ∧ dbWorkflows (wsDB s') = <[wID w := w'']> (dbWorkflows (wsDB s))
  ∧ wsTriggers s' = wsTriggers s ∧ wsEvents s' = wsEvents s.
Proof.
  unfold writing. destruct (UpdateWithVersion _ _ _ _ _ _ _) as [[w1 db]|] eqn:E; [|done]. intros [= <- <-] Hid.
  destruct (update_saved _ _ _ _ _ _ _ _ E) as [Hv [Hr _ _]]. rewrite Hid in Hr. done.
Qed.

Definition published (c : Call A) (s s' : WorkflowService T) (type : string) (payload : list (string * value)) : Prop :=
  wsEvents s' = wsEvents s ++ match caBus c with Some _ => [] | None => [(type, list_to_map payload)] end.

Lemma ActivateWorkflow_spec c id u (s s' : WorkflowService T) :
  tl_ok (wsTriggers s) → keyed s → ActivateWorkflow c id u s = Ret (Ok tt, s') →
  row_change s s' id u (λ w w', Workflow_Validate w = Some (Ok tt) ∧ wIsActive w' = true ∧ wStatus w' = StatusActive)
  ∧ switched tp_activate TriggerStatusInactive TriggerStatusActive c id s s'
  ∧ published c s s' "workflow.activated" [("workflow_id", VStr id); ("user_id", VStr u)].
Proof.
  intros Ho Hk. unfold_call. intros [(w & s1 & E1 & E)|(e & _ & He)]%bind_inv; [|done].
  apply owned_inv in E1 as [-> Hw]. destruct (Hw w eq_refl) as (Hrow & Hu & Hd).
  apply bind_inv in E as [([] & s2 & E2 & E)|(e & _ & He)]; [|done]. unfold checked in E2.
  destruct (check_graph w) as [[e|]|?|]; [done| |done..]. injection E2 as <-.
  apply bind_inv in E as [([wa ra] & s3 & E3 & E)|(e & _ & He)]; [|done]. unfold fueled in E3.
  destruct (Workflow_Activate w (caNow c 0)) as [p|] eqn:Ea; [|done]. injection E3 as -> <-.
  apply bind_inv in E as [([] & s4 & E4 & E)|(e & _ & He)]; [|done]. injection E4 as E4 <-. simpl in E4. subst ra.
  unfold Workflow_Activate in Ea. destruct (Workflow_Validate w) as [[[]|]|] eqn:Ev; try done. injection Ea as <-.
  apply bind_inv in E as [(w2 & s5 & E5 & E)|(e & _ & He)]; [|done]. simpl in E5.
  destruct (saving_row _ _ w _ _ _ _ _ _ E5 eq_refl) as ([v ->] & Hr & Et & Eev). rewrite (Hk _ _ Hrow) in Hr.
  destruct (switch_triggers _ _ _ _ _ s _ _ _ _ tl_activate Ho Et E) as (Hsw & Hdb & Hev).
  split_and!; [|done|unfold published; by rewrite Hev, Eev].
  exists w. eexists. rewrite Hdb, Hr. done.
Qed.

Lemma DeactivateWorkflow_spec c id u (s s' : WorkflowService T) :
  tl_ok (wsTriggers s) → keyed s → DeactivateWorkflow c id u s = Ret (Ok tt, s') →
  row_change s s' id u (λ _ w', wIsActive w' = false ∧ wStatus w' = StatusInactive)
  ∧ switched (λ t i a, Ret (tp_deactivate t i a)) TriggerStatusActive TriggerStatusInactive c id s s'
  ∧ published c s s' "workflow.deactivated" [("workflow_id", VStr id); ("user_id", VStr u)].
Proof.
  intros Ho Hk. unfold_call. intros [(w & s1 & E1 & E)|(e & _ & He)]%bind_inv; [|done].
  apply owned_inv in E1 as [-> Hw]. destruct (Hw w eq_refl) as (Hrow & Hu & Hd).
  apply bind_inv in E as [(w2 & s5 & E5 & E)|(e & _ & He)]; [|done].
  destruct (saving_row _ _ w _ _ _ _ _ _ E5 eq_refl) as ([v ->] & Hr & Et & Eev). rewrite (Hk _ _ Hrow) in Hr.
  destruct (switch_triggers _ _ _ _ _ s _ _ _ _ tl_deactivate Ho Et E) as (Hsw & Hdb & Hev).
  split_and!; [|done|unfold published; by rewrite Hev, Eev].
  exists w. eexists. rewrite Hdb, Hr. done.
Qed.

Lemma ExecuteWorkflow_spec c id u data (s s' : WorkflowService T) e :
  ExecuteWorkflow c id u data s = Ret (Ok e, s') →
  ∃ w, dbWorkflows (wsDB s) !! id = Some w ∧ wUserID w = u ∧ wIsActive w = true ∧ e = caUuid c 0
    ∧ s' = set_events s (wsEvents s ++ [("execution.requested", list_to_map
         [("execution_id", VStr e); ("workflow_id", VStr id); ("user_id", VStr u);
          ("input_data", VObj (map_to_list data)); ("version", VInt (wVersion w))])]).
Proof.
  unfold_call. intros [(w & s1 & E1 & E)|(e' & _ & He)]%bind_inv; [|done].
  apply owned_inv in E1 as [-> Hw]. destruct (Hw w eq_refl) as (Hrow & Hu & Hd).
  apply bind_inv in E as [([] & s2 & E2 & E)|(e' & _ & He)]; [|done].
  unfold guard_ in E2. destruct (wIsActive w) eqn:Ha; [|done]. injection E2 as <-.
  apply bind_inv in E as [([] & s3 & E3 & E)|(e' & _ & He)]; [|done]. destruct (caBus c) eqn:Eb; [done|]. injection E3 as <-.
  apply bind_inv in E as [([] & s4 & E4 & E)|(e' & _ & He)]; [|done].
  unfold publish in E4. injection E4 as <-. injection E as <- <-. exists w. done.
Qed.

(** Activating a workflow succeeds only for its owner and a graph that
    validates; it makes the row active and leaves the graph, and of the triggers
    it changes only the status of those of the workflow: each inactive one it
    lists becomes active, or the manager refused it.  Deactivating undoes this.
    An execution is requested only of an active workflow, with its version. *)
Lemma activation_correct c id u (s s' : WorkflowService T) :
  tl_ok (wsTriggers s) → keyed s →
  (ActivateWorkflow c id u s = Ret (Ok tt, s') →
     row_change s s' id u (λ w w', Workflow_Validate w = Some (Ok tt) ∧ wIsActive w' = true ∧ wStatus w' = StatusActive)
     ∧ switched tp_activate TriggerStatusInactive TriggerStatusActive c id s s'
     ∧ published c s s' "workflow.activated" [("workflow_id", VStr id); ("user_id", VStr u)])
  ∧ (DeactivateWorkflow c id u s = Ret (Ok tt, s') →
     row_change s s' id u (λ _ w', wIsActive w' = false ∧ wStatus w' = StatusInactive)
     ∧ switched (λ t i a, Ret (tp_deactivate t i a)) TriggerStatusActive TriggerStatusInactive c id s s'
     ∧ published c s s' "workflow.deactivated" [("workflow_id", VStr id); ("user_id", VStr u)])
  ∧ (∀ data e, ExecuteWorkflow c id u data s = Ret (Ok e, s') →
     ∃ w, dbWorkflows (wsDB s) !! id = Some w ∧ wUserID w = u ∧ wIsActive w = true ∧ e = caUuid c 0
       ∧ s' = set_events s (wsEvents s ++ [("execution.requested", list_to_map
            [("execution_id", VStr e); ("workflow_id", VStr id); ("user_id", VStr u);
             ("input_data", VObj (map_to_list data)); ("version", VInt (wVersion w))])])).
Proof.
  intros Ho Hk. split_and!.
  - by apply ActivateWorkflow_spec.
  - by apply DeactivateWorkflow_spec.
  - intros data e. apply ExecuteWorkflow_spec.
Qed.
End activation.
End service.

(** ** The trigger manager behind the interface *)

(** What a call of the manager reads from outside. *)
Record TriggerCall := {
  tcUuid : string;
  tcUuid2 : string;
  tcNow : Z;
  tcErrs : Errs;
  tcDelete : option string;
  tcOrd : list string
}.

Section manager.
Context {C CS : Type} `{!CronOps C CS}.
Context (parse5 : string → option CS) (known_location : string → bool) (fmt_time : Z → string).
Context (encode : config → option string) (decode : string → option config).

#[local] Instance manager_port : TriggerPort (TriggerManager C) TriggerCall := {
  tp_get t id a := TriggerManager.GetTrigger t id (erRead (tcErrs a));
  tp_list t wf a := TriggerManager.ListTriggers t wf (tcOrd a) (erRead (tcErrs a));
  tp_create t wf c a := Manager_CreateTrigger parse5 known_location fmt_time encode decode t wf c (tcUuid a) (tcNow a) (tcErrs a);
  tp_update t id c a := TriggerManager.UpdateTrigger parse5 known_location fmt_time encode decode t id c (tcUuid a) (tcUuid2 a)
                          (tcNow a) (tcErrs a);
  tp_delete t id a := TriggerManager.DeleteTrigger t id (tcNow a) (tcErrs a) (tcDelete a);
  tp_activate t id a := TriggerManager.ActivateTrigger encode decode t id (tcUuid a) (tcNow a) (tcErrs a);
  tp_deactivate t id a := TriggerManager.DeactivateTrigger t id (tcNow a) (tcErrs a);
  tp_test t id d a := TriggerManager.TestTrigger parse5 decode t id d (tcUuid a) (tcOrd a) (erRead (tcErrs a));
  tp_start t a := Start encode decode t (tcOrd a) (erRead (tcErrs a)) (erRedis (tcErrs a));
  tp_stop := Stop
}.

Definition keyed_table (t : TriggerManager C) : Prop := map_Forall (λ id r, wtID r = id) (tmTable t).

Lemma activate_table t r uuid err e t' :
  activateTrigger encode decode t r uuid err = Ret (e, t') → tmTable t' = tmTable t.
Proof.
  unfold activateTrigger, activateWebhookTrigger, activateScheduleTrigger, activateEventTrigger, activateEmailTrigger, redis_set.
  intros E. repeat (case_match; simplify_eq; try done).
Qed.

Lemma deactivate_table (t : TriggerManager C) r err fails e t' :
  deactivateTrigger t r err fails = (e, t') → tmTable t' = tmTable t.
Proof.
  unfold deactivateTrigger, deactivateWebhookTrigger, deactivateScheduleTrigger, deactivateEventTrigger, deactivateEmailTrigger.
  intros E. repeat (case_match; simplify_eq; try done).
Qed.

Lemma publish_table (t : TriggerManager C) type data err : tmTable (publishEvent t type data err) = tmTable t.
Proof. by destruct err. Qed.

(** The row of the trigger with its new status. *)
Lemma status_written (t : TriggerManager C) id r status now :
  keyed_table t → tmTable t !! id = Some r →
  map_Forall (λ i r, wtID r = i) (<[id := set_wt_status r status now]> (tmTable t))
  ∧ (∀ i, i ≠ id → <[id := set_wt_status r status now]> (tmTable t) !! i = tmTable t !! i)
  ∧ ∃ r0 r', tmTable t !! id = Some r0 ∧ <[id := set_wt_status r status now]> (tmTable t) !! id = Some r'
             ∧ same_but_status r0 r' ∧ wtStatus r' = status.
Proof.
  intros Hk Hr. split_and!.
  - apply map_Forall_insert_2; [by apply Hk in Hr|done].
  - intros i Hne. by rewrite lookup_insert_ne.
  - exists r. eexists. rewrite lookup_insert_eq. done.
Qed.

Lemma read_row (t : TriggerManager C) id err r :
  keyed_table t → TriggerManager.GetTrigger t id err = Ok r → tmTable t !! id = Some r ∧ wtID r = id.
Proof.
  intros Hk. unfold TriggerManager.GetTrigger. destruct err; [done|]. destruct (tmTable t !! id) eqn:E; [|done]. intros [= ->].
  split; [done|]. by apply Hk in E.
Qed.

Lemma manager_activates : changes_status tmTable keyed_table tp_activate TriggerStatusActive.
Proof.
  intros t id a e t' Hk. cbn [tp_activate manager_port]. unfold TriggerManager.ActivateTrigger.
  destruct (TriggerManager.GetTrigger t id _) as [r|] eqn:Er; [|by intros [= <- <-]].
  destruct (read_row _ _ _ _ Hk Er) as [Hr Hid]. case_bool_decide; [by intros [= <- <-]|].
  destruct (activateTrigger _ _ _ _ _ _) as [[[e1|] t1]|?|] eqn:Ea; [| |done..]; apply activate_table in Ea.
  - intros [= <- <-]. unfold keyed_table. by rewrite Ea.
  - destruct (erWrite _); [intros [= <- <-]; unfold keyed_table; by rewrite Ea|].
    intros [= <- <-]. unfold keyed_table. rewrite publish_table. simpl. rewrite Ea, Hid. by apply status_written.
Qed.

Lemma manager_deactivates :
  changes_status tmTable keyed_table (λ t id a, Ret (tp_deactivate t id a)) TriggerStatusInactive.
Proof.
  intros t id a e t' Hk. cbn [tp_deactivate manager_port]. unfold TriggerManager.DeactivateTrigger.
  destruct (TriggerManager.GetTrigger t id _) as [r|] eqn:Er; [|by intros [= <- <-]].
  destruct (read_row _ _ _ _ Hk Er) as [Hr Hid]. case_bool_decide; simpl; [|by intros [= <- <-]].
  destruct (deactivateTrigger _ _ _ _) as [[e1|] t1] eqn:Ea; apply deactivate_table in Ea.
  - intros [= <- <-]. unfold keyed_table. by rewrite Ea.
  - destruct (erWrite _); [intros [= <- <-]; unfold keyed_table; by rewrite Ea|].
    intros [= <- <-]. unfold keyed_table. rewrite publish_table. simpl. rewrite Ea, Hid. by apply status_written.
Qed.

#[local] Instance manager_laws : TriggerLaws (TriggerManager C) TriggerCall.
Proof.
  refine {| tl_table := tmTable; tl_ok := keyed_table |}.
  - intros t id a r. by apply read_row.
  - intros t wf a l Hk E r Hr. cbn [tp_list manager_port] in E. unfold TriggerManager.ListTriggers in E.
    destruct (erRead _); [done|]. injection E as <-. apply list_elem_of_omap in Hr as (id & _ & Hid).
    destruct (tmTable t !! id) as [x|] eqn:Ex; [|done]. case_bool_decide; [|done]. injection Hid as ->.
    pose proof (Hk _ _ Ex) as Hx. simpl in Hx. by rewrite Hx.
  - apply manager_activates.
  - apply manager_deactivates.
Defined.
End manager.

(** ** Concrete runs *)

Definition demo_errs : Errs := {| erRead := None; erRedis := None; erDel := λ _, false; erWrite := None; erBus := None |}.
Definition demo_call (uuids : list string) (ord tord : list string) : Call TriggerCall :=
  {| caUuid := λ k, default "" (uuids !! k); caNow := λ _, 5%Z; caStamp := "t"; caFail := λ _, db_ok; caBus := None;
     caOrd := ord;
     caTrigger := λ _, {| tcUuid := "u1"; tcUuid2 := "u2"; tcNow := 5; tcErrs := demo_errs; tcDelete := None; tcOrd := tord |} |}.

Definition demo_port : TriggerPort (TriggerManager ListCron) TriggerCall :=
  manager_port parse_standard (λ _, true) (λ _, "") TriggerManager.demo_encode TriggerManager.demo_decode.

Definition demo_service (db : WorkflowDB) (table : gmap string WorkflowTrigger) : WorkflowService (TriggerManager ListCron) :=
  {| wsDB := db; wsTriggers := NewTriggerManager table ∅; wsTemplates := NewTemplateManager ∅ 0;
     wsVariables := NewVariableManager; wsEvents := [] |}.

Definition demo_op (encode : Workflow → option string) (decode : string → option Workflow) (op : Op) (c : Call TriggerCall) :
    svc (TriggerManager ListCron) unit :=
  run_op (TriggerPort0 := demo_port) encode decode (λ _ _, None) (λ _, None) (λ _, "") (λ _, "") (λ _, "") (λ _ _, false)
    (λ _ _ _, false) op c.
(** Runs the calls in turn, stopping at an error. *)
Fixpoint demo_run (encode : Workflow → option string) (decode : string → option Workflow)
    (ops : list (Op * Call TriggerCall)) (s : WorkflowService (TriggerManager ListCron)) :
    option (WorkflowService (TriggerManager ListCron)) :=
  match ops with
  | [] => Some s
  | (op, c) :: ops' =>
      match demo_op encode decode op c s with
      | Ret (Ok _, s') => demo_run encode decode ops' s'
      | _ => None
      end
  end.

Definition demo_request : CreateWorkflowRequest :=
  {| crUserID := "u"; crName := "demo"; crDescription := ""; crNodes := None; crConnections := None; crTags := None |}.
Definition demo_started : WorkflowService (TriggerManager ListCron) := demo_service empty_db ∅.
Definition state_of {R T} (r : outcome (R * WorkflowService T)) (s : WorkflowService T) : WorkflowService T :=
  match r with Ret (_, s') => s' | _ => s end.
Definition demo_one : WorkflowService (TriggerManager ListCron) :=
  state_of (demo_op demo_json demo_parse (OpCreate demo_request) (demo_call ["w"; "v1"] [] []) demo_started) demo_started.

Lemma demo_one_rows : dbWorkflows (wsDB demo_one) = {["w" := demo_flow]}.
Proof. reflexivity. Qed.

Lemma demo_codec w s :
  content w = content demo_flow → demo_json w = Some s → ∃ w', demo_parse s = Some w' ∧ content w' = content w.
Proof.
  intros Hc. unfold demo_json. case_bool_decide; [|done]. intros [= <-]. exists (content demo_flow). by rewrite Hc.
Qed.

Lemma demo_one_step :
  rtc (plain_step (TriggerPort0 := demo_port) demo_json demo_parse (λ _ _, None) (λ _, None) (λ _, "") (λ _, "") (λ _, "")
         (λ _ _, false) (λ _ _ _, false) (λ c, c = content demo_flow)) demo_started demo_one.
Proof.
  apply rtc_once. exists (OpCreate demo_request), (demo_call ["w"; "v1"] [] []), (Ok tt). split_and!; [done|done|reflexivity|].
  intros id w. rewrite demo_one_rows. intros [<- <-]%lookup_singleton_Some. done.
Qed.

Lemma service_invariant_witness :
  wID demo_flow = "w" ∧ (wIsActive demo_flow = true ↔ wStatus demo_flow = StatusActive)
  ∧ (wIsActive demo_flow = true → wNodes demo_flow = [] ∨ Workflow_Validate demo_flow = Some (Ok tt)).
Proof.
  refine (proj1 (service_invariant (TriggerPort0 := demo_port) demo_json demo_parse (λ _ _, None) (λ _, None) (λ _, "") (λ _, "")
    (λ _, "") (λ _ _, false) (λ _ _ _, false) (λ c, c = content demo_flow) demo_codec demo_started demo_one _ demo_one_step)
    "w" demo_flow _); [split; reflexivity|reflexivity].
Defined.

(** The import by another user. *)
Lemma tenant_isolation_witness :
  same_workflow (wsDB demo_one)
    (wsDB (state_of (demo_op demo_json demo_parse (OpImport "v" (VObj [("name", VStr "demo")]) "n8n")
                       (demo_call ["x"; "v2"; "y"] [] []) demo_one) demo_one)) "w".
Proof.
  refine (tenant_isolation (TriggerPort0 := demo_port) demo_json demo_parse (λ _ _, None) (λ _, None) (λ _, "") (λ _, "")
    (λ _, "") (λ _ _, false) (λ _ _ _, false) (λ c, c = content demo_flow) demo_codec demo_started demo_one
    (OpImport "v" (VObj [("name", VStr "demo")]) "n8n") (demo_call ["x"; "v2"; "y"] [] []) (Ok tt) _ "w" demo_flow
    _ (plain_is_step _ _ _ _ _ _ _ _ _ _ _ _ demo_one_step) _ _ _ _); [split; reflexivity|exact I|reflexivity|reflexivity|discriminate].
Defined.

Lemma owner_only_witness :
  ∃ e, demo_op demo_json demo_parse (OpDelete "w" "v") (demo_call ["x"] [] []) demo_one = Ret (Err e, demo_one).
Proof.
  apply (owner_only (TriggerPort0 := demo_port) demo_json demo_parse (λ _ _, None) (λ _, None) (λ _, "") (λ _, "")
    (λ _, "") (λ _ _, false) (λ _ _ _, false) _ _ _ "v" "w"); [reflexivity..|].
  intros (w & Hw & Hu & _). rewrite demo_one_rows, lookup_singleton_eq in Hw. injection Hw as <-. discriminate Hu.
Defined.

(** A codec that keeps whether the workflow is active. *)
Definition flag_json (w : Workflow) : option string := Some (if wIsActive w then "on" else "off").
Definition with_nodes (nodes : list Node) : Workflow :=
  set_fields demo_flow "demo" "" nodes [] [].
Definition flag_parse (s : string) : option Workflow :=
  let w := with_nodes [demo_node "n" NodeTypeTrigger] in
  Some (if bool_decide (s = "on") then set_status w StatusActive true 0 else w).

Definition graph_request : CreateWorkflowRequest :=
  {| crUserID := "u"; crName := "demo"; crDescription := ""; crNodes := Some [demo_node "n" NodeTypeTrigger];
     crConnections := None; crTags := None |}.
Definition demo_graph : WorkflowService (TriggerManager ListCron) :=
  let s := demo_service empty_db {["t" := demo_row TriggerStatusInactive]} in
  state_of (demo_op flag_json flag_parse (OpCreate graph_request) (demo_call ["w"; "v1"] [] []) s) s.
Definition demo_active : WorkflowService (TriggerManager ListCron) :=
  state_of (demo_op flag_json flag_parse (OpActivate "w" "u") (demo_call ["v2"] [] ["t"]) demo_graph) demo_graph.

Definition trigger_status (s : WorkflowService (TriggerManager ListCron)) : option string :=
  wtStatus <$> tmTable (wsTriggers s) !! "t".
Definition active_flag (s : WorkflowService (TriggerManager ListCron)) : option bool :=
  wIsActive <$> dbWorkflows (wsDB s) !! "w".

Lemma activation_correct_witness :
  trigger_status demo_active = Some TriggerStatusActive
  ∧ row_change demo_graph demo_active "w" "u"
      (λ w w', Workflow_Validate w = Some (Ok tt) ∧ wIsActive w' = true ∧ wStatus w' = StatusActive).
Proof.
  split; [reflexivity|].
  refine (proj1 (proj1 (activation_correct (TriggerPort0 := demo_port)
    (TriggerLaws0 := manager_laws parse_standard (λ _, true) (λ _, "") TriggerManager.demo_encode TriggerManager.demo_decode)
    flag_json (demo_call ["v2"] [] ["t"]) "w" "u" demo_graph demo_active _ _) _)); [| |reflexivity].
  - intros id r. change (tmTable _) with ({["t" := demo_row TriggerStatusInactive]} : gmap string WorkflowTrigger).
    by intros [<- <-]%lookup_singleton_Some.
  - intros id w. change (dbWorkflows _) with ({["w" := with_nodes [demo_node "n" NodeTypeTrigger]]} : gmap string Workflow).
    by intros [<- <-]%lookup_singleton_Some.
Defined.

(** An update with an empty, not a nil, list of nodes leaves an active workflow
    without a graph: it is not validated. *)
Lemma emptied_workflow_stays_active :
  let req := {| urWorkflowID := "w"; urUserID := "u"; urName := ""; urDescription := ""; urNodes := Some [];
                urConnections := None; urTags := None; urVersion := 0 |} in
  let s := state_of (demo_op flag_json flag_parse (OpUpdate req) (demo_call ["v3"] [] []) demo_active) demo_active in
  active_flag s = Some true ∧ wNodes <$> dbWorkflows (wsDB s) !! "w" = Some [].
Proof. vm_compute. split; reflexivity. Qed.

(** Deleting a workflow leaves its triggers active. *)
Lemma deleted_workflow_keeps_triggers :
  let s := state_of (demo_op flag_json flag_parse (OpDelete "w" "u") (demo_call [] [] []) demo_active) demo_active in
  wDeletedAt <$> dbWorkflows (wsDB s) !! "w" = Some (Some 5%Z) ∧ trigger_status s = Some TriggerStatusActive.
Proof. vm_compute. split; reflexivity. Qed.

(** Rolling back to a version that was active makes the workflow active again;
    its triggers stay inactive. *)
Lemma rollback_reactivates :
  let run op c s := state_of (demo_op flag_json flag_parse op c s) s in
  let s := run (OpDeactivate "w" "u") (demo_call ["v3"] [] ["t"]) demo_active in
  let s := run (OpRollback "w" 2 "u") (demo_call ["v4"] ["v1"; "v2"; "v3"] []) s in
  active_flag s = Some true ∧ trigger_status s = Some TriggerStatusInactive.
Proof. vm_compute. split; reflexivity. Qed.

(** The check of the version and the write are two accesses: of two updates that
    read the same version both succeed, and the first is lost. *)
Lemma lost_update :
  let db := db_of (CreateWithVersion flag_json empty_db (with_nodes []) "v1" 5 db_ok) in
  match dbWorkflows db !! "w" with
  | Some read =>
      let first := set_fields read "first" "" [] [] [] in
      let second := set_fields read (wName read) "second" [] [] [] in
      let db := db_of (WorkflowRepo.UpdateWorkflow flag_json db first "v2" 6 db_ok) in
      let db := db_of (WorkflowRepo.UpdateWorkflow flag_json db second "v3" 7 db_ok) in
      (λ w, (wName w, wDescription w, wVersion w)) <$> dbWorkflows db !! "w" = Some ("demo", "second", 3%Z)
  | None => False
  end.
Proof. vm_compute. reflexivity. Qed.

(** The import of an n8n workflow keeps its name only. *)
Lemma n8n_import_drops_nodes c name nodes rest :
  convertN8NWorkflow (A := TriggerCall) c (VObj (("name", VStr name) :: ("nodes", VArr nodes) :: rest))
  = NewWorkflow (caUuid c 2) name "Imported from n8n" "" (caNow c 3) (caNow c 4).
Proof. unfold convertN8NWorkflow, get_string. cbn [list_to_map foldr]. simpl. by rewrite lookup_insert_eq. Qed.

(** A read-only variable is overwritten by the next one. *)
Lemma read_only_is_overwritten :
  let v x := {| varKey := "k"; varWorkflowID := ""; varName := ""; varType := VarTypeString; varValue := VStr x;
                varDescription := ""; varScope := ""; varEnvironment := ""; varEncrypted := false; varReadOnly := true;
                varRequired := false; varCreatedAt := ""; varUpdatedAt := "" |} in
  match demo_run demo_json demo_parse [(OpSetVariable "w" "u" (v "a"), demo_call [] [] []);
                                       (OpSetVariable "w" "u" (v "b"), demo_call [] [] [])] demo_one with
  | Some s => varValue <$> dbVariables (wsDB s) !! ("w", "k") = Some (VStr "b")
  | None => False
  end.
Proof. vm_compute. reflexivity. Qed.

(** A second environment marked as the default leaves two of them. *)
Lemma two_default_environments :
  let e := {| envID := ""; envWorkflowID := ""; envName := ""; envDescription := ""; envVariables := ∅;
              envIsDefault := true; envCreatedAt := ""; envUpdatedAt := "" |} in
  match demo_run demo_json demo_parse [(OpCreateEnvironment "w" "u" e, demo_call ["e1"] [] []);
                                       (OpCreateEnvironment "w" "u" e, demo_call ["e2"] ["e1"] [])] demo_one with
  | Some s => envIsDefault <$> dbEnvironments (wsDB s) !! "e1" = Some true
              ∧ envIsDefault <$> dbEnvironments (wsDB s) !! "e2" = Some true
  | None => False
  end.
Proof. vm_compute. split; reflexivity. Qed.
