(* ===== verification/Http.v ===== *)
(** What the HTTP interfaces share: requests, responses, the search for a route
    of gin, the tags of its validator. *)

From S2P Require Import Prelude GoValue.

(** ** Requests and responses *)

Record Request := {
  rqMethod : string;
  rqPath : list string;                 (* the segments of the path *)
  rqHeader : gmap string string;
  rqQuery : gmap string (list string);
  rqBody : string
}.
Definition GetHeader (rq : Request) (k : string) : string := default "" (rqHeader rq !! k).
Definition DefaultQuery (rq : Request) (k dflt : string) : string :=
  match rqQuery rq !! k with Some (v :: _) => v | Some [] | None => dflt end.
Definition Query (rq : Request) (k : string) : string := DefaultQuery rq k "".
Definition QueryArray (rq : Request) (k : string) : list string := default [] (rqQuery rq !! k).

Record Response (B : Type) := { rsStatus : Z; rsBody : B }.
Arguments rsStatus {_}. Arguments rsBody {_}.
Definition JSON {B} (status : Z) (body : B) : Response B := {| rsStatus := status; rsBody := body |}.
Definition StatusOK : Z := 200.
Definition StatusCreated : Z := 201.
Definition StatusAccepted : Z := 202.
Definition StatusNoContent : Z := 204.
Definition StatusBadRequest : Z := 400.
Definition StatusUnauthorized : Z := 401.
Definition StatusForbidden : Z := 403.
Definition StatusNotFound : Z := 404.
Definition StatusInternalServerError : Z := 500.
Definition StatusServiceUnavailable : Z := 503.
Definition StatusConflict : Z := 409.
Definition StatusTooManyRequests : Z := 429.
Definition StatusTemporaryRedirect : Z := 307.
Definition succeeded {B} (r : Response B) : Prop := (200 ≤ rsStatus r < 300)%Z.

(** ** Routes *)

Inductive Seg := Lit (s : string) | Par (name : string).
Record Route (E : Type) := { rtParams : gmap string string; rtSegs : list Seg; rtEndpoint : E }.
Arguments rtParams {_}. Arguments rtSegs {_}. Arguments rtEndpoint {_}.
Definition route {E} (method : string) (segs : list Seg) (e : E) : string * Route E :=
  (method, {| rtParams := ∅; rtSegs := segs; rtEndpoint := e |}).

(** The router's search: at every segment a fixed one before a parameter, which
    takes any segment but the empty one. *)
Definition take_lit {E} (seg : string) (r : Route E) : option (Route E) :=
  match rtSegs r with
  | Lit s :: rest => if bool_decide (s = seg) then Some {| rtParams := rtParams r; rtSegs := rest; rtEndpoint := rtEndpoint r |} else None
  | _ => None
  end.
Definition take_par {E} (seg : string) (r : Route E) : option (Route E) :=
  match rtSegs r with
  | Par name :: rest => Some {| rtParams := <[name := seg]> (rtParams r); rtSegs := rest; rtEndpoint := rtEndpoint r |}
  | _ => None
  end.
Definition ended {E} (r : Route E) : bool := match rtSegs r with [] => true | _ => false end.
Fixpoint search {E} (path : list string) (rs : list (Route E)) : option (Route E) :=
  match path with
  | [] => List.find ended rs
  | seg :: path =>
      match search path (omap (take_lit seg) rs) with
      | Some r => Some r
      | None => if bool_decide (seg = "") then None else search path (omap (take_par seg) rs)
      end
  end.
Definition find_route {E} (table : list (string * Route E)) (rq : Request) : option (Route E) :=
  search (rqPath rq) (omap (λ mr : string * Route E, if bool_decide (mr.1 = rqMethod rq) then Some mr.2 else None) table).
Definition Param {E} (r : Route E) (name : string) : string := default "" (rtParams r !! name).

(** A route that is found is one of the table, with the parameters of the path. *)
Lemma search_endpoint {E} path (rs : list (Route E)) r :
  search path rs = Some r → ∃ r0, r0 ∈ rs ∧ rtEndpoint r0 = rtEndpoint r.
Proof.
  revert rs. induction path as [|seg path IH]; intros rs; simpl.
  - intros [Hr _]%find_some. exists r. split; [by apply list_elem_of_In|done].
  - assert (∀ take, (∀ x y : Route E, take x = Some y → rtEndpoint y = rtEndpoint x) → search path (omap take rs) = Some r →
      ∃ r0, r0 ∈ rs ∧ rtEndpoint r0 = rtEndpoint r) as Hs.
    { intros take Ht (x & (y & Hy & Hx)%list_elem_of_omap & <-)%IH. exists y. split; [done|]. by rewrite (Ht y x Hx). }
    destruct (search path (omap (take_lit seg) rs)) as [x|] eqn:E1.
    + intros [= ->]. apply (Hs (take_lit seg)); [|done]. intros x y. unfold take_lit. destruct (rtSegs x) as [|[] ?]; try done.
      case_bool_decide; by intros [= <-].
    + case_bool_decide; [done|]. apply Hs. intros x y. unfold take_par. destruct (rtSegs x) as [|[] ?]; try done. by intros [= <-].
Qed.
Lemma find_route_endpoint {E} (table : list (string * Route E)) rq r :
  find_route table rq = Some r → ∃ r0, (rqMethod rq, r0) ∈ table ∧ rtEndpoint r0 = rtEndpoint r.
Proof.
  intros (r0 & ([m r1] & Hin & Hm)%list_elem_of_omap & He)%search_endpoint. simpl in Hm. case_bool_decide; [|done].
  simplify_eq. by exists r0.
Qed.

(** ** Bodies *)

(** The fields a validator complains of, in the order of the struct, each with its
    first tag that fails: [required], and [oneof] after it. *)
Abbreviation complaints := (list (string * string)).
Definition required (field s : string) : complaints := if bool_decide (s = "") then [(field, "required")] else [].
Definition oneof (field : string) (l : list string) (s : string) : complaints :=
  if bool_decide (s = "") then [(field, "required")] else if bool_decide (s ∈ l) then [] else [(field, "oneof")].

(** A text of an error, for the examples. *)
Definition complain (l : complaints) : string := String.concat ", " (l.*1).

(** ** Handlers over a state *)

Section handlers.
Context {S B : Type}.

Definition handler : Type := S → Response B * S.
Definition tell (r : Response B) : handler := λ s, (r, s).
(** [ShouldBindJSON]: the decoder, then the tags; [bad] is the answer to an error. *)
Definition read_body {R} (tag_error : complaints → string) (d : string → result R) (check : R → complaints)
    (bad : string → Response B) (rq : Request) (k : R → handler) : handler :=
  match d (rqBody rq) with
  | Err e => tell (bad e)
  | Ok r => match check r with [] => k r | l => tell (bad (tag_error l)) end
  end.
(** A call that answers an error, one that answers a value, one that reads. *)
Definition after (call : S → option string * S) (err : string → Response B) (ok : Response B) : handler := λ s,
  let '(e, s') := call s in (match e with Some e => err e | None => ok end, s').
Definition after_ {R} (call : S → result R * S) (err : string → Response B) (ok : R → Response B) : handler := λ s,
  let '(r, s') := call s in (match r with Err e => err e | Ok x => ok x end, s').
Definition asks {R} (call : S → result R) (err : string → Response B) (ok : R → Response B) : handler :=
  after_ (λ s, (call s, s)) err ok.

(** What a handler does to the state: a function of it, or nothing. *)
Lemma after_state call err ok s : (after call err ok s).2 = (call s).2.
Proof. unfold after. by destruct (call s). Qed.
Lemma after__state {R} (call : S → result R * S) err ok s : (after_ call err ok s).2 = (call s).2.
Proof. unfold after_. by destruct (call s). Qed.
Lemma asks_state {R} (call : S → result R) err ok s : (asks call err ok s).2 = s.
Proof. unfold asks. by rewrite after__state. Qed.
Lemma read_body_state {R} tag_error (d : string → result R) check bad rq (k : R → handler) s :
  (read_body tag_error d check bad rq k s).2
  = match d (rqBody rq) with
    | Ok r => match check r with [] => (k r s).2 | _ => s end
    | Err _ => s
    end.
Proof. unfold read_body. by destruct (d _) as [r|]; [destruct (check r)|]. Qed.
Lemma read_body_silent {R} tag_error (d : string → result R) check bad rq (k : R → handler) s :
  (∀ r, (k r s).2 = s) → (read_body tag_error d check bad rq k s).2 = s.
Proof. intros Hk. rewrite read_body_state. by repeat case_match. Qed.
End handlers.
Arguments handler : clear implicits.
