(* ===== verification/WorkflowApi.v ===== *)
(** internal/workflow/adapters/http/handlers/handlers.go and the router of
    internal/workflow/server/server.go: the HTTP interface of the workflow service.

    A request is routed, its user taken from its headers, and its handler calls the
    service of [WorkflowService] and turns the answer into a status and a body.  The
    decoders of bodies and the messages of the validator are parameters.  A panic of
    a handler is kept as one; gin's recovery answers it with status 500. *)

From S2P Require Import Prelude GoLib GoText GoValue Workflow Templates Triggers Variables ValidationService CronScheduler TriggerManager WorkflowRepo WorkflowService Http.

(** ** Answers *)

Inductive Body :=
| BEmpty
| BError (msg : string)
| BMessage (msg : string)
| BHealth (status : string)
| BWorkflow (w : Workflow)
| BWorkflows (ws : list Workflow) (total page limit : Z)
| BVersions (vs : list WorkflowVersion)
| BVersion (version : Z)
| BReport (valid : bool) (errors warnings : list string)
| BStarted (executionID : string) (force : bool)
| BTest (r : TestResult)
| BPermissions (ps : list vmap)
| BTemplates (ts : list Template)
| BTemplate (t : Template)
| BExported (e : Exported)
| BValue (v : value)
| BExecutions (es : list value) (total page limit : Z)
| BCategories (cs : list (string * string * string))
| BCategory (category : vmap)
| BTags (tags : list string)
| BTriggers (ts : list WorkflowTrigger)
| BTrigger (t : WorkflowTrigger)
| BFires (would_fire : bool)
| BNumbers (ns : list (string * Z)).

Abbreviation Response := (Http.Response Body).

(** ** Routes *)

Inductive Endpoint :=
| Health | Ready
| EListWorkflows | EGetWorkflow | ECreateWorkflow | EUpdateWorkflow | EDeleteWorkflow
| EGetWorkflowVersions | EGetWorkflowVersion | ECreateWorkflowVersion | ERollbackWorkflowVersion
| EActivateWorkflow | EDeactivateWorkflow | EDuplicateWorkflow | EValidateWorkflow | EExecuteWorkflow | ETestWorkflow
| EGetWorkflowPermissions | EShareWorkflow | EUnshareWorkflow | EPublishWorkflow
| EListTemplates | EGetTemplate | ECreateTemplate | ECreateFromTemplate
| EImportWorkflow | EExportWorkflow
| EGetWorkflowStats | EGetWorkflowExecutions | EGetLatestRun
| EListCategories | ECreateCategory | ESearchWorkflows | EGetPopularTags
| ECreateTrigger | EListTriggers | EGetTrigger | EUpdateTrigger | EDeleteTrigger
| EActivateTrigger | EDeactivateTrigger | ETestTrigger.

Abbreviation Route := (Http.Route Endpoint).
Definition idp : Seg := Par "id".
(** A route of the group of workflows, behind the authentication. *)
Definition v1 (method : string) (segs : list Seg) (e : Endpoint) : string * Route :=
  route method ([Lit "api"; Lit "v1"; Lit "workflows"] ++ segs) e.

Definition setupRouter : list (string * Route) := [
  route "GET" [Lit "health"; Lit "live"] Health;
  route "GET" [Lit "health"; Lit "ready"] Ready;
  v1 "GET" [] EListWorkflows;
  v1 "GET" [idp] EGetWorkflow;
  v1 "POST" [] ECreateWorkflow;
  v1 "PUT" [idp] EUpdateWorkflow;
  v1 "DELETE" [idp] EDeleteWorkflow;
  v1 "GET" [idp; Lit "versions"] EGetWorkflowVersions;
  v1 "GET" [idp; Lit "versions"; Par "version"] EGetWorkflowVersion;
  v1 "POST" [idp; Lit "versions"] ECreateWorkflowVersion;
  v1 "POST" [idp; Lit "rollback"; Par "version"] ERollbackWorkflowVersion;
  v1 "POST" [idp; Lit "activate"] EActivateWorkflow;
  v1 "POST" [idp; Lit "deactivate"] EDeactivateWorkflow;
  v1 "POST" [idp; Lit "duplicate"] EDuplicateWorkflow;
  v1 "POST" [idp; Lit "validate"] EValidateWorkflow;
  v1 "POST" [idp; Lit "execute"] EExecuteWorkflow;
  v1 "POST" [idp; Lit "test"] ETestWorkflow;
  v1 "GET" [idp; Lit "permissions"] EGetWorkflowPermissions;
  v1 "POST" [idp; Lit "share"] EShareWorkflow;
  v1 "DELETE" [idp; Lit "share"; Par "userId"] EUnshareWorkflow;
  v1 "POST" [idp; Lit "publish"] EPublishWorkflow;
  v1 "GET" [Lit "templates"] EListTemplates;
  v1 "GET" [Lit "templates"; idp] EGetTemplate;
  v1 "POST" [Lit "templates"] ECreateTemplate;
  v1 "POST" [Lit "from-template"; Par "templateId"] ECreateFromTemplate;
  v1 "POST" [Lit "import"] EImportWorkflow;
  v1 "GET" [idp; Lit "export"] EExportWorkflow;
  v1 "GET" [idp; Lit "stats"] EGetWorkflowStats;
  v1 "GET" [idp; Lit "executions"] EGetWorkflowExecutions;
  v1 "GET" [idp; Lit "runs"; Lit "latest"] EGetLatestRun;
  v1 "GET" [Lit "categories"] EListCategories;
  v1 "POST" [Lit "categories"] ECreateCategory;
  v1 "GET" [Lit "search"] ESearchWorkflows;
  v1 "GET" [Lit "tags"] EGetPopularTags;
  v1 "POST" [idp; Lit "triggers"] ECreateTrigger;
  v1 "GET" [idp; Lit "triggers"] EListTriggers;
  v1 "GET" [idp; Lit "triggers"; Par "triggerId"] EGetTrigger;
  v1 "PUT" [idp; Lit "triggers"; Par "triggerId"] EUpdateTrigger;
  v1 "DELETE" [idp; Lit "triggers"; Par "triggerId"] EDeleteTrigger;
  v1 "POST" [idp; Lit "triggers"; Par "triggerId"; Lit "activate"] EActivateTrigger;
  v1 "POST" [idp; Lit "triggers"; Par "triggerId"; Lit "deactivate"] EDeactivateTrigger;
  v1 "POST" [idp; Lit "triggers"; Par "triggerId"; Lit "test"] ETestTrigger].

(** ** The user of a request *)

Definition extractUserIDFromToken (authHeader : string) : string :=
  let token := if bool_decide (7 < String.length authHeader) && bool_decide (String.substring 0 7 authHeader = "Bearer ")
               then String.substring 7 (String.length authHeader - 7) authHeader else authHeader in
  if negb (bool_decide (token = "")) then "" else "".
(** [None]: answered with status 401. *)
Definition authMiddleware (release : bool) (rq : Request) : option string :=
  let userID := GetHeader rq "X-User-ID" in
  let userID := if bool_decide (userID = "") then
                  let authHeader := GetHeader rq "Authorization" in
                  if negb (bool_decide (authHeader = "")) then extractUserIDFromToken authHeader else userID
                else userID in
  if bool_decide (userID = "") then
    if negb release then Some "00000000-0000-0000-0000-000000000001" else None
  else Some userID.
(** [Some]: the request ends there. *)
Definition corsMiddleware (rq : Request) : option Response :=
  if bool_decide (rqMethod rq = "OPTIONS") then Some (JSON 204 BEmpty) else None.

(** ** Bodies *)

Record DuplicateRequest := { dqName : string }.
Record ShareRequest := { sqUserID : string; sqPermission : string }.
Record PublishRequest := { pqDescription : string; pqTags : list string }.
Record FromTemplateRequest := { fqName : string; fqVariables : vmap }.
Record ImportRequest := { iqData : value; iqFormat : string }.
Record CategoryRequest := { gqName : string; gqDescription : string; gqIcon : string }.
Record Decoders := {
  dcCreate : string → result CreateWorkflowRequest;
  dcUpdate : string → result UpdateWorkflowRequest;
  dcVersion : string → result string;
  dcDuplicate : string → result DuplicateRequest;
  dcData : string → result vmap;
  dcShare : string → result ShareRequest;
  dcPublish : string → result PublishRequest;
  dcTemplate : string → result CreateTemplateRequest;
  dcFromTemplate : string → result FromTemplateRequest;
  dcImport : string → result ImportRequest;
  dcCategory : string → result CategoryRequest;
  dcConfig : string → result config
}.

(** ** Handlers *)

Section api.
Context {T A : Type} `{!TriggerPort T A}.
Context (encode : Workflow → option string) (decode : string → option Workflow)
  (decode_into : string → Workflow → option Workflow) (marshal : value → option string)
  (fmt_float : spec_float → string) (fmt_time : Z → string) (fmt_f : spec_float → string)
  (ilike : string → string → bool) (column_le : string → Workflow → Workflow → bool).
Context (dc : Decoders) (tag_error : complaints → string).

(** What a request reads from outside: what its call of the service reads, the
    orders of maps, and what the reports on executions answer. *)
Record ApiCall := {
  acCall : Call A;
  acOrders : Orders;
  acBuiltins : list string;
  acReady : option string;
  acStats : result value;
  acExecutions : Z → Z → result (list value * Z);
  acLatest : result value;
  acTags : result (list string)
}.

Definition api : Type := WorkflowService T → outcome (Response * WorkflowService T).
Definition reply (r : Response) : api := λ s, Ret (r, s).
Definition with_body {R} (d : string → result R) (check : R → complaints) (rq : Request) (k : R → api) : api :=
  match d (rqBody rq) with
  | Err e => reply (JSON StatusBadRequest (BError e))
  | Ok r => match check r with [] => k r | l => reply (JSON StatusBadRequest (BError (tag_error l))) end
  end.
Definition no_check {R} (_ : R) : complaints := [].

(** The handlers compare errors by identity.  [known] gives the answer to the
    sentinel error the method returned, if it did: a function of the state the
    method started in, since an error of the repository with the same text is
    another error. *)
Definition answer {R} (m : svc T R) (known : WorkflowService T → option (Z * string)) (failed : string) (ok : R → Response) : api := λ s,
  match m s with
  | Ret (Ok r, s') => Ret (ok r, s')
  | Ret (Err _, s') => Ret (match known s with
                            | Some (status, msg) => JSON status (BError msg)
                            | None => JSON StatusInternalServerError (BError failed)
                            end, s')
  | Panic msg => Panic msg
  | NoFuel => NoFuel
  end.
Definition none_known (_ : WorkflowService T) : option (Z * string) := None.
(** [ErrWorkflowNotFound]: the read of the workflow failed. *)
Definition not_found (a : ApiCall) (workflowID userID msg : string) (s : WorkflowService T) : option (Z * string) :=
  match WorkflowRepo.GetWorkflow (wsDB s) workflowID userID (caFail (acCall a) 0) with
  | Err _ => Some (StatusNotFound, msg)
  | Ok _ => None
  end.
(** [ErrUnauthorized]: the trigger is there and the read of its workflow failed. *)
Definition unauthorized (a : ApiCall) (triggerID userID : string) (s : WorkflowService T) : option (Z * string) :=
  match tp_get (wsTriggers s) triggerID (caTrigger (acCall a) 0) with
  | Ok t => match WorkflowRepo.GetWorkflow (wsDB s) (wtWorkflowID t) userID (caFail (acCall a) 0) with
            | Err _ => Some (StatusForbidden, "Unauthorized")
            | Ok _ => None
            end
  | Err _ => None
  end.
Definition or_else (f g : WorkflowService T → option (Z * string)) (s : WorkflowService T) : option (Z * string) :=
  match f s with Some x => Some x | None => g s end.
(** [ErrWorkflowInactive]. *)
Definition inactive (a : ApiCall) (workflowID userID msg : string) (s : WorkflowService T) : option (Z * string) :=
  match WorkflowRepo.GetWorkflow (wsDB s) workflowID userID (caFail (acCall a) 0) with
  | Ok w => if wIsActive w then None else Some (StatusBadRequest, msg)
  | Err _ => None
  end.
Definition inactive_of_trigger (a : ApiCall) (triggerID userID msg : string) (s : WorkflowService T) : option (Z * string) :=
  match tp_get (wsTriggers s) triggerID (caTrigger (acCall a) 0) with
  | Ok t => inactive a (wtWorkflowID t) userID msg s
  | Err _ => None
  end.
(** [ErrInvalidWorkflow] of a creation: no name, or a graph that does not validate. *)
Definition created_from (a : ApiCall) (req : CreateWorkflowRequest) : Workflow :=
  let c := acCall a in
  let wf := NewWorkflow (caUuid c 0) (crName req) (crDescription req) (crUserID req) (caNow c 0) (caNow c 1) in
  set_fields wf (wName wf) (wDescription wf) (default (wNodes wf) (crNodes req))
    (default (wConnections wf) (crConnections req)) (default (wTags wf) (crTags req)).
Definition invalid (a : ApiCall) (req : CreateWorkflowRequest) (s : WorkflowService T) : option (Z * string) :=
  if bool_decide (crName req = "") then Some (StatusBadRequest, ErrInvalidWorkflow)
  else match check_graph (created_from a req) with Ret (Some _) => Some (StatusBadRequest, ErrInvalidWorkflow) | _ => None end.
(** The service's [ErrTemplateNotFound]; an instantiation answers the one of the
    template manager, which is another. *)
Definition template_not_found (a : ApiCall) (templateID : string) (s : WorkflowService T) : option (Z * string) :=
  match Templates.GetTemplate (wsTemplates s) templateID (caFail (acCall a) 0) with
  | Err e => if bool_decide (e = ErrTemplateNotFound) then Some (StatusNotFound, "Template not found") else None
  | Ok _ => None
  end.

(** *** Workflows *)

Definition handle_Ready (a : ApiCall) : api :=
  reply match acReady a with Some e => JSON StatusServiceUnavailable (BError e) | None => JSON StatusOK (BHealth "ready") end.
Definition handle_ListWorkflows (a : ApiCall) (rq : Request) (userID : string) : api :=
  let page := atoi (DefaultQuery rq "page" "1") in
  let limit := atoi (DefaultQuery rq "limit" "20") in
  answer (ListWorkflows ilike column_le (acCall a) userID page limit (Query rq "status")) none_known "Failed to list workflows"
    (λ r, JSON StatusOK (BWorkflows r.1 r.2 page limit)).
(** The service hands on the error of the repository, which is not the sentinel. *)
Definition handle_GetWorkflow (a : ApiCall) (r : Route) (userID : string) : api :=
  answer (GetWorkflow (acCall a) (Param r "id") userID) none_known "Failed to get workflow" (λ w, JSON StatusOK (BWorkflow w)).
Definition for_user (req : CreateWorkflowRequest) (userID : string) : CreateWorkflowRequest :=
  {| crUserID := userID; crName := crName req; crDescription := crDescription req; crNodes := crNodes req;
     crConnections := crConnections req; crTags := crTags req |}.
Definition handle_CreateWorkflow (a : ApiCall) (rq : Request) (userID : string) : api :=
  with_body (dcCreate dc) (λ req, required "Name" (crName req)) rq (λ req,
    let req := for_user req userID in
    answer (CreateWorkflow encode (acCall a) req) (invalid a req) "Failed to create workflow"
      (λ w, JSON StatusCreated (BWorkflow w))).
Definition of_workflow (req : UpdateWorkflowRequest) (workflowID userID : string) : UpdateWorkflowRequest :=
  {| urWorkflowID := workflowID; urUserID := userID; urName := urName req; urDescription := urDescription req; urNodes := urNodes req;
     urConnections := urConnections req; urTags := urTags req; urVersion := urVersion req |}.
(** The methods never answer [ErrUnauthorized], which the handlers of an update
    and of a deletion compare too. *)
Definition handle_UpdateWorkflow (a : ApiCall) (r : Route) (rq : Request) (userID : string) : api :=
  with_body (dcUpdate dc) no_check rq (λ req,
    answer (UpdateWorkflow encode (acCall a) (of_workflow req (Param r "id") userID)) (not_found a (Param r "id") userID "Workflow not found")
      "Failed to update workflow" (λ w, JSON StatusOK (BWorkflow w))).
Definition handle_DeleteWorkflow (a : ApiCall) (r : Route) (userID : string) : api :=
  answer (DeleteWorkflow (acCall a) (Param r "id") userID) (not_found a (Param r "id") userID "Workflow not found")
    "Failed to delete workflow" (λ _, JSON StatusNoContent BEmpty).

(** *** Versions *)

Definition handle_GetWorkflowVersions (a : ApiCall) (r : Route) (userID : string) : api :=
  answer (GetWorkflowVersions (acCall a) (Param r "id") userID) (not_found a (Param r "id") userID "Workflow not found")
    "Failed to get workflow versions" (λ vs, JSON StatusOK (BVersions vs)).
Definition handle_GetWorkflowVersion (a : ApiCall) (r : Route) (userID : string) : api :=
  answer (GetWorkflowVersion decode (acCall a) (Param r "id") (atoi (Param r "version")) userID)
    (not_found a (Param r "id") userID "Workflow version not found") "Failed to get workflow version" (λ w, JSON StatusOK (BWorkflow w)).
Definition handle_CreateWorkflowVersion (a : ApiCall) (r : Route) (rq : Request) (userID : string) : api :=
  with_body (dcVersion dc) no_check rq (λ message,
    answer (CreateWorkflowVersion encode (acCall a) (Param r "id") userID message) (not_found a (Param r "id") userID "Workflow not found")
      "Failed to create workflow version" (λ v, JSON StatusCreated (BVersion v))).
Definition handle_RollbackWorkflowVersion (a : ApiCall) (r : Route) (userID : string) : api :=
  answer (RollbackWorkflowVersion decode (acCall a) (Param r "id") (atoi (Param r "version")) userID)
    (not_found a (Param r "id") userID "Workflow version not found") "Failed to rollback workflow version"
    (λ _, JSON StatusOK (BMessage "Workflow rolled back successfully")).

(** *** Operations *)

Definition handle_ActivateWorkflow (a : ApiCall) (r : Route) (userID : string) : api :=
  answer (ActivateWorkflow encode (acCall a) (Param r "id") userID) (not_found a (Param r "id") userID "Workflow not found")
    "Failed to activate workflow" (λ _, JSON StatusOK (BMessage "Workflow activated")).
Definition handle_DeactivateWorkflow (a : ApiCall) (r : Route) (userID : string) : api :=
  answer (DeactivateWorkflow encode (acCall a) (Param r "id") userID) (not_found a (Param r "id") userID "Workflow not found")
    "Failed to deactivate workflow" (λ _, JSON StatusOK (BMessage "Workflow deactivated")).
Definition handle_DuplicateWorkflow (a : ApiCall) (r : Route) (rq : Request) (userID : string) : api :=
  with_body (dcDuplicate dc) (λ req, required "Name" (dqName req)) rq (λ req,
    answer (DuplicateWorkflow encode (acCall a) (Param r "id") userID (dqName req)) (not_found a (Param r "id") userID "Workflow not found")
      "Failed to duplicate workflow" (λ w, JSON StatusCreated (BWorkflow w))).
(** The third answer of the service is an error too. *)
Definition handle_ValidateWorkflow (a : ApiCall) (r : Route) (userID : string) : api :=
  answer (WorkflowService.ValidateWorkflow (acCall a) (acOrders a) (Param r "id") userID)
    (not_found a (Param r "id") userID "Workflow not found") "Failed to validate workflow"
    (λ r, let '(errors, warnings, err) := r in
          match err with
          | Some _ => JSON StatusInternalServerError (BError "Failed to validate workflow")
          | None => JSON StatusOK (BReport (bool_decide (errors = [])) errors warnings)
          end).
Definition handle_ExecuteWorkflow (a : ApiCall) (r : Route) (rq : Request) (userID : string) : api :=
  with_body (dcData dc) no_check rq (λ data,
    answer (ExecuteWorkflow (acCall a) (Param r "id") userID data)
      (or_else (not_found a (Param r "id") userID "Workflow not found") (inactive a (Param r "id") userID "Workflow is inactive"))
      "Failed to execute workflow" (λ executionID, JSON StatusAccepted (BStarted executionID false))).
Definition handle_TestWorkflow (a : ApiCall) (r : Route) (rq : Request) (userID : string) : api :=
  with_body (dcData dc) no_check rq (λ data,
    answer (TestWorkflow (acCall a) (acOrders a) (Param r "id") userID data) (not_found a (Param r "id") userID "Workflow not found")
      "Failed to test workflow" (λ t, JSON StatusOK (BTest t))).

(** *** Sharing *)

Definition handle_GetWorkflowPermissions (a : ApiCall) (r : Route) (userID : string) : api :=
  answer (GetWorkflowPermissions (acCall a) (Param r "id") userID) (not_found a (Param r "id") userID "Workflow not found")
    "Failed to get workflow permissions" (λ ps, JSON StatusOK (BPermissions ps)).
Definition handle_ShareWorkflow (a : ApiCall) (r : Route) (rq : Request) (userID : string) : api :=
  with_body (dcShare dc) (λ req, oneof "Permission" ["view"; "edit"; "admin"] (sqPermission req)) rq (λ req,
    answer (ShareWorkflow (acCall a) (Param r "id") userID (sqUserID req) (sqPermission req))
      (not_found a (Param r "id") userID "Workflow not found") "Failed to share workflow"
      (λ _, JSON StatusOK (BMessage "Workflow shared successfully"))).
Definition handle_UnshareWorkflow (a : ApiCall) (r : Route) (userID : string) : api :=
  answer (UnshareWorkflow (acCall a) (Param r "id") userID (Param r "userId")) (not_found a (Param r "id") userID "Workflow not found")
    "Failed to unshare workflow" (λ _, JSON StatusOK (BMessage "Workflow unshared successfully")).
Definition handle_PublishWorkflow (a : ApiCall) (r : Route) (rq : Request) (userID : string) : api :=
  with_body (dcPublish dc) no_check rq (λ req,
    answer (PublishWorkflow encode decode (acCall a) (Param r "id") userID (pqDescription req) (pqTags req))
      (not_found a (Param r "id") userID "Workflow not found") "Failed to publish workflow"
      (λ _, JSON StatusOK (BMessage "Workflow published successfully"))).

(** *** Templates, import and export *)

Definition handle_ListTemplates (a : ApiCall) (rq : Request) : api :=
  answer (ListTemplates (acCall a) (Query rq "category") (acBuiltins a)) none_known "Failed to list templates"
    (λ ts, JSON StatusOK (BTemplates ts)).
Definition handle_GetTemplate (a : ApiCall) (r : Route) : api :=
  answer (GetTemplate (acCall a) (Param r "id")) (template_not_found a (Param r "id")) "Failed to get template"
    (λ t, JSON StatusOK (BTemplate t)).
Definition by_creator (req : CreateTemplateRequest) (userID : string) : CreateTemplateRequest :=
  {| ctCreatorID := userID; ctName := ctName req; ctDescription := ctDescription req; ctCategory := ctCategory req; ctIcon := ctIcon req;
     ctWorkflow := ctWorkflow req; ctTags := ctTags req |}.
Definition handle_CreateTemplate (a : ApiCall) (rq : Request) (userID : string) : api :=
  with_body (dcTemplate dc) (λ req, required "Name" (ctName req)) rq (λ req,
    answer (CreateTemplate encode decode (acCall a) (by_creator req userID)) none_known "Failed to create template"
      (λ t, JSON StatusCreated (BTemplate t))).
Definition handle_CreateFromTemplate (a : ApiCall) (r : Route) (rq : Request) (userID : string) : api :=
  with_body (dcFromTemplate dc) (λ req, required "Name" (fqName req)) rq (λ req,
    answer (CreateFromTemplate encode decode decode_into marshal fmt_float fmt_time fmt_f (acCall a) (Param r "templateId") userID
              (fqName req) (fqVariables req)) none_known "Failed to create from template" (λ w, JSON StatusCreated (BWorkflow w))).
Definition handle_ImportWorkflow (a : ApiCall) (rq : Request) (userID : string) : api :=
  with_body (dcImport dc)
    (λ req, (match iqData req with VNil => [("Data", "required")] | _ => [] end) ++ oneof "Format" ["json"; "yaml"; "n8n"] (iqFormat req)) rq
    (λ req, answer (ImportWorkflow encode decode marshal (acCall a) userID (iqData req) (iqFormat req)) none_known
              "Failed to import workflow" (λ w, JSON StatusCreated (BWorkflow w))).
Definition handle_ExportWorkflow (a : ApiCall) (r : Route) (rq : Request) (userID : string) : api :=
  answer (ExportWorkflow (acCall a) (Param r "id") userID (DefaultQuery rq "format" "json"))
    (not_found a (Param r "id") userID "Workflow not found") "Failed to export workflow" (λ e, JSON StatusOK (BExported e)).

(** *** Reports *)

(** A failure reads as no tags. *)
Definition GetPopularTags (a : ApiCall) : svc T (list string) := mret match acTags a with Ok tags => tags | Err _ => [] end.

Definition handle_GetWorkflowStats (a : ApiCall) (r : Route) (userID : string) : api :=
  answer (GetWorkflowStats (acCall a) (Param r "id") userID (acStats a)) (not_found a (Param r "id") userID "Workflow not found")
    "Failed to get workflow stats" (λ v, JSON StatusOK (BValue v)).
Definition handle_GetWorkflowExecutions (a : ApiCall) (r : Route) (rq : Request) (userID : string) : api :=
  let page := atoi (DefaultQuery rq "page" "1") in
  let limit := atoi (DefaultQuery rq "limit" "20") in
  answer (GetWorkflowExecutions (acCall a) (Param r "id") userID page limit (acExecutions a)) (not_found a (Param r "id") userID "Workflow not found")
    "Failed to get workflow executions" (λ r, JSON StatusOK (BExecutions r.1 r.2 page limit)).
Definition handle_GetLatestRun (a : ApiCall) (r : Route) (userID : string) : api :=
  answer (GetLatestRun (acCall a) (Param r "id") userID (acLatest a)) (not_found a (Param r "id") userID "Workflow not found")
    "Failed to get latest run" (λ v, JSON StatusOK (BValue v)).

(** *** Categories, search, tags *)

Definition handle_ListCategories : api :=
  answer ListCategories none_known "Failed to list categories" (λ cs, JSON StatusOK (BCategories cs)).
Definition handle_CreateCategory (a : ApiCall) (rq : Request) : api :=
  with_body (dcCategory dc) (λ req, required "Name" (gqName req)) rq (λ req,
    answer (CreateCategory (acCall a) (gqName req) (gqDescription req) (gqIcon req)) none_known "Failed to create category"
      (λ c, JSON StatusCreated (BCategory c))).
Definition handle_SearchWorkflows (a : ApiCall) (rq : Request) (userID : string) : api :=
  let page := atoi (DefaultQuery rq "page" "1") in
  let limit := atoi (DefaultQuery rq "limit" "20") in
  answer (SearchWorkflows ilike column_le (acCall a) userID (Query rq "q") (Query rq "category") (QueryArray rq "tags") page limit)
    none_known "Failed to search workflows" (λ r, JSON StatusOK (BWorkflows r.1 r.2 page limit)).
Definition handle_GetPopularTags (a : ApiCall) : api :=
  answer (GetPopularTags a) none_known "Failed to get popular tags" (λ tags, JSON StatusOK (BTags tags)).

(** *** Triggers: the workflow of the path is not looked at *)

Definition handle_CreateTrigger (a : ApiCall) (r : Route) (rq : Request) (userID : string) : api :=
  with_body (dcConfig dc) no_check rq (λ cfg,
    answer (CreateTrigger (acCall a) (Param r "id") userID cfg) (not_found a (Param r "id") userID "Workflow not found")
      "Failed to create trigger" (λ t, JSON StatusCreated (BTrigger t))).
Definition handle_ListTriggers (a : ApiCall) (r : Route) (userID : string) : api :=
  answer (WorkflowService.ListTriggers (acCall a) (Param r "id") userID) (not_found a (Param r "id") userID "Workflow not found")
    "Failed to list triggers" (λ ts, JSON StatusOK (BTriggers ts)).
Definition handle_GetTrigger (a : ApiCall) (r : Route) (userID : string) : api :=
  answer (WorkflowService.GetTrigger (acCall a) (Param r "triggerId") userID) (unauthorized a (Param r "triggerId") userID)
    "Failed to get trigger" (λ t, JSON StatusOK (BTrigger t)).
Definition handle_UpdateTrigger (a : ApiCall) (r : Route) (rq : Request) (userID : string) : api :=
  with_body (dcConfig dc) no_check rq (λ updates,
    answer (WorkflowService.UpdateTrigger (acCall a) (Param r "triggerId") userID updates) (unauthorized a (Param r "triggerId") userID)
      "Failed to update trigger" (λ t, JSON StatusOK (BTrigger t))).
Definition handle_DeleteTrigger (a : ApiCall) (r : Route) (userID : string) : api :=
  answer (WorkflowService.DeleteTrigger (acCall a) (Param r "triggerId") userID) (unauthorized a (Param r "triggerId") userID)
    "Failed to delete trigger" (λ _, JSON StatusNoContent BEmpty).
Definition handle_ActivateTrigger (a : ApiCall) (r : Route) (userID : string) : api :=
  answer (WorkflowService.ActivateTrigger (acCall a) (Param r "triggerId") userID)
    (or_else (unauthorized a (Param r "triggerId") userID) (inactive_of_trigger a (Param r "triggerId") userID "Workflow is not active"))
    "Failed to activate trigger" (λ _, JSON StatusOK (BMessage "Trigger activated")).
Definition handle_DeactivateTrigger (a : ApiCall) (r : Route) (userID : string) : api :=
  answer (WorkflowService.DeactivateTrigger (acCall a) (Param r "triggerId") userID) (unauthorized a (Param r "triggerId") userID)
    "Failed to deactivate trigger" (λ _, JSON StatusOK (BMessage "Trigger deactivated")).
Definition handle_TestTrigger (a : ApiCall) (r : Route) (rq : Request) (userID : string) : api :=
  with_body (dcData dc) no_check rq (λ data,
    answer (WorkflowService.TestTrigger (acCall a) (Param r "triggerId") userID data) (unauthorized a (Param r "triggerId") userID)
      "Failed to test trigger" (λ fires, JSON StatusOK (BFires fires))).

(** *** For administrators; the router above has no route to these *)

Definition handle_ListAllWorkflows (a : ApiCall) (rq : Request) : api :=
  let page := atoi (DefaultQuery rq "page" "1") in
  let limit := atoi (DefaultQuery rq "limit" "20") in
  answer (ListWorkflows ilike column_le (acCall a) "" page limit "") none_known "Failed to list workflows"
    (λ r, JSON StatusOK (BWorkflows r.1 r.2 page limit)).
Definition handle_ForceExecuteWorkflow (a : ApiCall) (r : Route) (rq : Request) : api :=
  with_body (dcData dc) no_check rq (λ data,
    answer (ExecuteWorkflow (acCall a) (Param r "id") "admin" data) none_known "Failed to execute workflow"
      (λ executionID, JSON StatusAccepted (BStarted executionID true))).
Definition handle_GetWorkflowAnalytics : api :=
  reply (JSON StatusOK (BNumbers [("total_workflows", 0%Z); ("active_workflows", 0%Z); ("total_executions", 0%Z); ("success_rate", 0%Z);
                                  ("avg_execution_time", 0%Z)])).
Definition handle_GetExecutionAnalytics : api :=
  reply (JSON StatusOK (BNumbers [("total_executions", 0%Z); ("completed", 0%Z); ("failed", 0%Z); ("running", 0%Z); ("avg_duration_ms", 0%Z)])).

(** ** The server *)

Definition handle (r : Route) (a : ApiCall) (rq : Request) (u : string) : api :=
  match rtEndpoint r with
  | Health => reply (JSON StatusOK (BHealth "healthy"))
  | Ready => handle_Ready a
  | EListWorkflows => handle_ListWorkflows a rq u
  | EGetWorkflow => handle_GetWorkflow a r u
  | ECreateWorkflow => handle_CreateWorkflow a rq u
  | EUpdateWorkflow => handle_UpdateWorkflow a r rq u
  | EDeleteWorkflow => handle_DeleteWorkflow a r u
  | EGetWorkflowVersions => handle_GetWorkflowVersions a r u
  | EGetWorkflowVersion => handle_GetWorkflowVersion a r u
  | ECreateWorkflowVersion => handle_CreateWorkflowVersion a r rq u
  | ERollbackWorkflowVersion => handle_RollbackWorkflowVersion a r u
  | EActivateWorkflow => handle_ActivateWorkflow a r u
  | EDeactivateWorkflow => handle_DeactivateWorkflow a r u
  | EDuplicateWorkflow => handle_DuplicateWorkflow a r rq u
  | EValidateWorkflow => handle_ValidateWorkflow a r u
  | EExecuteWorkflow => handle_ExecuteWorkflow a r rq u
  | ETestWorkflow => handle_TestWorkflow a r rq u
  | EGetWorkflowPermissions => handle_GetWorkflowPermissions a r u
  | EShareWorkflow => handle_ShareWorkflow a r rq u
  | EUnshareWorkflow => handle_UnshareWorkflow a r u
  | EPublishWorkflow => handle_PublishWorkflow a r rq u
  | EListTemplates => handle_ListTemplates a rq
  | EGetTemplate => handle_GetTemplate a r
  | ECreateTemplate => handle_CreateTemplate a rq u
  | ECreateFromTemplate => handle_CreateFromTemplate a r rq u
  | EImportWorkflow => handle_ImportWorkflow a rq u
  | EExportWorkflow => handle_ExportWorkflow a r rq u
  | EGetWorkflowStats => handle_GetWorkflowStats a r u
  | EGetWorkflowExecutions => handle_GetWorkflowExecutions a r rq u
  | EGetLatestRun => handle_GetLatestRun a r u
  | EListCategories => handle_ListCategories
  | ECreateCategory => handle_CreateCategory a rq
  | ESearchWorkflows => handle_SearchWorkflows a rq u
  | EGetPopularTags => handle_GetPopularTags a
  | ECreateTrigger => handle_CreateTrigger a r rq u
  | EListTriggers => handle_ListTriggers a r u
  | EGetTrigger => handle_GetTrigger a r u
  | EUpdateTrigger => handle_UpdateTrigger a r rq u
  | EDeleteTrigger => handle_DeleteTrigger a r u
  | EActivateTrigger => handle_ActivateTrigger a r u
  | EDeactivateTrigger => handle_DeactivateTrigger a r u
  | ETestTrigger => handle_TestTrigger a r rq u
  end.
Definition public (e : Endpoint) : bool := match e with Health | Ready => true | _ => false end.
(** A request from the first middleware to its answer. *)
Definition serve (release : bool) (a : ApiCall) (rq : Request) : api :=
  match corsMiddleware rq with
  | Some r => reply r
  | None =>
      match find_route setupRouter rq with
      | None => reply (JSON StatusNotFound BEmpty)
      | Some r =>
          if public (rtEndpoint r) then handle r a rq ""
          else match authMiddleware release rq with
               | None => reply (JSON StatusUnauthorized (BError "unauthorized"))
               | Some u => handle r a rq u
               end
      end
  end.

(** ** The operation of the service a request performs *)

Definition from_body {R} (d : string → result R) (check : R → complaints) (rq : Request) (k : R → Op) : option Op :=
  match d (rqBody rq) with
  | Err _ => None
  | Ok r => match check r with [] => Some (k r) | _ => None end
  end.
Definition request_op (r : Route) (a : ApiCall) (rq : Request) (u : string) : option Op :=
  let wf := Param r "id" in
  let tr := Param r "triggerId" in
  let page := atoi (DefaultQuery rq "page" "1") in
  let limit := atoi (DefaultQuery rq "limit" "20") in
  match rtEndpoint r with
  | Health | Ready | EListTemplates | EListCategories | EGetPopularTags => None
  | EGetWorkflowStats => Some (OpStats wf u (acStats a))
  | EGetWorkflowExecutions => Some (OpExecutions wf u page limit (acExecutions a))
  | EGetLatestRun => Some (OpLatestRun wf u (acLatest a))
  | EListWorkflows => Some (OpList u page limit (Query rq "status"))
  | EGetWorkflow => Some (OpGet wf u)
  | ECreateWorkflow => from_body (dcCreate dc) (λ req, required "Name" (crName req)) rq (λ req, OpCreate (for_user req u))
  | EUpdateWorkflow => from_body (dcUpdate dc) no_check rq (λ req, OpUpdate (of_workflow req wf u))
  | EDeleteWorkflow => Some (OpDelete wf u)
  | EGetWorkflowVersions => Some (OpVersions wf u)
  | EGetWorkflowVersion => Some (OpGetVersion wf (atoi (Param r "version")) u)
  | ECreateWorkflowVersion => from_body (dcVersion dc) no_check rq (OpCreateVersion wf u)
  | ERollbackWorkflowVersion => Some (OpRollback wf (atoi (Param r "version")) u)
  | EActivateWorkflow => Some (OpActivate wf u)
  | EDeactivateWorkflow => Some (OpDeactivate wf u)
  | EDuplicateWorkflow => from_body (dcDuplicate dc) (λ req, required "Name" (dqName req)) rq (λ req, OpDuplicate wf u (dqName req))
  | EValidateWorkflow => Some (OpValidate (acOrders a) wf u)
  | EExecuteWorkflow => from_body (dcData dc) no_check rq (OpExecute wf u)
  | ETestWorkflow => from_body (dcData dc) no_check rq (OpTest (acOrders a) wf u)
  | EGetWorkflowPermissions => Some (OpPermissions wf u)
  | EShareWorkflow => from_body (dcShare dc) (λ req, oneof "Permission" ["view"; "edit"; "admin"] (sqPermission req)) rq
                        (λ req, OpShare wf u (sqUserID req) (sqPermission req))
  | EUnshareWorkflow => Some (OpUnshare wf u (Param r "userId"))
  | EPublishWorkflow => from_body (dcPublish dc) no_check rq (λ req, OpPublish wf u (pqDescription req) (pqTags req))
  | EGetTemplate => Some (OpGetTemplate wf)
  | ECreateTemplate => from_body (dcTemplate dc) (λ req, required "Name" (ctName req)) rq (λ req, OpCreateTemplate (by_creator req u))
  | ECreateFromTemplate => from_body (dcFromTemplate dc) (λ req, required "Name" (fqName req)) rq
                             (λ req, OpFromTemplate (Param r "templateId") u (fqName req) (fqVariables req))
  | EImportWorkflow => from_body (dcImport dc)
      (λ req, (match iqData req with VNil => [("Data", "required")] | _ => [] end) ++ oneof "Format" ["json"; "yaml"; "n8n"] (iqFormat req)) rq
      (λ req, OpImport u (iqData req) (iqFormat req))
  | EExportWorkflow => Some (OpExport wf u (DefaultQuery rq "format" "json"))
  | ECreateCategory => from_body (dcCategory dc) (λ req, required "Name" (gqName req)) rq
                         (λ req, OpCreateCategory (gqName req) (gqDescription req) (gqIcon req))
  | ESearchWorkflows => Some (OpSearch u (Query rq "q") (Query rq "category") (QueryArray rq "tags") page limit)
  | ECreateTrigger => from_body (dcConfig dc) no_check rq (OpCreateTrigger wf u)
  | EListTriggers => Some (OpListTriggers wf u)
  | EGetTrigger => Some (OpGetTrigger tr u)
  | EUpdateTrigger => from_body (dcConfig dc) no_check rq (OpUpdateTrigger tr u)
  | EDeleteTrigger => Some (OpDeleteTrigger tr u)
  | EActivateTrigger => Some (OpActivateTrigger tr u)
  | EDeactivateTrigger => Some (OpDeactivateTrigger tr u)
  | ETestTrigger => from_body (dcData dc) no_check rq (OpTestTrigger tr u)
  end.

Abbreviation run op c := (run_op encode decode decode_into marshal fmt_float fmt_time fmt_f ilike column_le op c).

(** A handler performs its operation once and answers success only if it did; a
    handler without one changes nothing. *)
Definition performs (m : api) (o : option Op) (a : ApiCall) : Prop := ∀ s resp s', m s = Ret (resp, s') →
  match o with
  | None => s' = s
  | Some op => ∃ r, run op (acCall a) s = Ret (r, s') ∧ (succeeded resp → r = Ok tt)
  end.
(** The answers to sentinel errors are no successes. *)
Definition refuses (known : WorkflowService T → option (Z * string)) : Prop := ∀ s st msg, known s = Some (st, msg) → (300 ≤ st)%Z.

Lemma refuses_none : refuses none_known.
Proof. done. Qed.
Lemma refuses_not_found a wf u msg : refuses (not_found a wf u msg).
Proof. clear. intros s st m. unfold not_found. case_match; intros; by simplify_eq. Qed.
Lemma refuses_unauthorized a tid u : refuses (unauthorized a tid u).
Proof. clear -TriggerPort0. intros s st m. unfold unauthorized. repeat case_match; intros; by simplify_eq. Qed.
Lemma refuses_inactive a wf u msg : refuses (inactive a wf u msg).
Proof. clear. intros s st m. unfold inactive. repeat case_match; intros; by simplify_eq. Qed.
Lemma refuses_inactive_of a tid u msg : refuses (inactive_of_trigger a tid u msg).
Proof. clear -TriggerPort0. intros s st m. unfold inactive_of_trigger. case_match; [apply refuses_inactive|done]. Qed.
Lemma refuses_or f g : refuses f → refuses g → refuses (or_else f g).
Proof. clear. intros Hf Hg s st m. unfold or_else. case_match eqn:E; intros; simplify_eq; [by eapply Hf|by eapply Hg]. Qed.
Lemma refuses_invalid a req : refuses (invalid a req).
Proof. clear. intros s st m. unfold invalid. repeat case_match; intros; by simplify_eq. Qed.
Lemma refuses_template a tid : refuses (template_not_found a tid).
Proof. clear. intros s st m. unfold template_not_found. repeat case_match; intros; by simplify_eq. Qed.
#[local] Hint Resolve refuses_none refuses_not_found refuses_unauthorized refuses_inactive refuses_inactive_of refuses_or refuses_invalid
  refuses_template : refuses.

Lemma answer_error {R} (m : svc T R) known failed ok s e s1 resp s' :
  refuses known → m s = Ret (Err e, s1) → answer m known failed ok s = Ret (resp, s') → s' = s1 ∧ ¬ succeeded resp.
Proof.
  clear. intros Hk E. unfold answer. rewrite E. intros [= <- <-]. split; [done|]. unfold succeeded.
  destruct (known s) as [[st msg]|] eqn:Ek; simpl; [apply Hk in Ek; lia|unfold StatusInternalServerError; lia].
Qed.
Lemma answer_performs {R} (m : svc T R) known failed ok op a :
  refuses known → run op (acCall a) = ignoring m → performs (answer m known failed ok) (Some op) a.
Proof.
  intros Hk Er s resp s' H. rewrite Er. unfold ignoring, mbind, svc_bind. unfold answer in H.
  destruct (m s) as [[[x|e] s1]|msg|] eqn:E; [| |done..].
  - injection H as <- <-. exists (Ok tt). done.
  - exists (Err e). assert (answer m known failed ok s = Ret (resp, s')) as H' by (unfold answer; by rewrite E).
    destruct (answer_error _ _ _ _ _ _ _ _ _ Hk E H') as [-> Hn]. split; [done|]. by intros.
Qed.
Lemma with_body_performs {R} (d : string → result R) check rq (k : R → api) (f : R → Op) a :
  (∀ r, performs (k r) (Some (f r)) a) → performs (with_body d check rq k) (from_body d check rq f) a.
Proof.
  intros Hk. unfold with_body, from_body. destruct (d (rqBody rq)) as [r|e]; [destruct (check r)|]; [apply Hk|..];
    intros s resp s'; unfold reply; by intros [= _ <-].
Qed.
Lemma answer_reads {R} (m : svc T R) known failed ok a :
  (∀ s r s', m s = Ret (r, s') → s' = s) → performs (answer m known failed ok) None a.
Proof.
  intros Hm s resp s'. unfold answer. destruct (m s) as [[[x|e] s1]|msg|] eqn:E; intros [= _ <-]; by eapply Hm.
Qed.
Lemma handle_performs r a rq u : performs (handle r a rq u) (request_op r a rq u) a.
Proof.
  unfold handle, request_op. destruct (rtEndpoint r);
    try (by intros s resp s' [= _ <-]);
    try (apply answer_reads; intros s x s'; by intros [= _ <-]);
    try (apply answer_performs; [eauto with refuses|done]);
    (apply with_body_performs; intros req; apply answer_performs; [eauto with refuses|done]).
Qed.

(** ** Requests as a whole *)

(** The route and the user of a request that reaches a handler. *)
Definition reaches (release : bool) (rq : Request) : option (Route * string) :=
  match corsMiddleware rq with
  | Some _ => None
  | None =>
      match find_route setupRouter rq with
      | None => None
      | Some r => if public (rtEndpoint r) then None else (λ u, (r, u)) <$> authMiddleware release rq
      end
  end.
Definition request_user (release : bool) (rq : Request) : option string := snd <$> reaches release rq.
Definition served_op (release : bool) (a : ApiCall) (rq : Request) : option Op :=
  match reaches release rq with Some (r, u) => request_op r a rq u | None => None end.

Lemma serve_reached release a rq r u : reaches release rq = Some (r, u) → serve release a rq = handle r a rq u.
Proof.
  clear. unfold reaches, serve. destruct (corsMiddleware rq); [done|]. destruct (find_route setupRouter rq) as [r'|]; [|done].
  destruct (public _); [done|]. destruct (authMiddleware _ _) as [u'|]; [|done]. by intros [= -> ->].
Qed.
Lemma serve_unreached release a rq s resp s' : reaches release rq = None → serve release a rq s = Ret (resp, s') → s' = s.
Proof.
  clear. unfold reaches, serve. destruct (corsMiddleware rq); [by intros _ [= _ <-]|]. destruct (find_route setupRouter rq) as [r'|]; [|by intros _ [= _ <-]].
  destruct (public (rtEndpoint r')) eqn:Ep.
  - intros _. unfold handle. destruct (rtEndpoint r'); try done; by intros [= _ <-].
  - destruct (authMiddleware _ _); [done|]. by intros _ [= _ <-].
Qed.
Lemma serve_performs release a rq : performs (serve release a rq) (served_op release a rq) a.
Proof.
  unfold served_op. destruct (reaches release rq) as [[r u]|] eqn:E.
  - rewrite (serve_reached _ _ _ _ _ E). apply handle_performs.
  - intros s resp s' H. by eapply serve_unreached.
Qed.

(** An operation is performed for the user of the request, or for nobody. *)
Lemma from_body_some {R} (d : string → result R) check rq f op : from_body d check rq f = Some op → ∃ r, op = f r.
Proof. clear. unfold from_body. intros H. repeat case_match; simplify_eq; eauto. Qed.
Lemma request_op_user r a rq u op : request_op r a rq u = Some op → op_user op = Some u ∨ op_user op = None.
Proof.
  clear. unfold request_op. destruct (rtEndpoint r); intros H;
    first [done | apply from_body_some in H as [req ->] | injection H as <-]; simpl; auto.
Qed.
Lemma served_op_user release a rq op u :
  served_op release a rq = Some op → op_user op = Some u → request_user release rq = Some u.
Proof.
  clear. unfold served_op, request_user. destruct (reaches release rq) as [[r u']|]; [|done].
  intros [-> | ->]%request_op_user; [by intros [= ->]|done].
Qed.

(** The workflow a request is about; a request about a trigger is about its workflow. *)
Definition about_workflow (release : bool) (a : ApiCall) (rq : Request) (s : WorkflowService T) : option string :=
  match reaches release rq with
  | None => None
  | Some (r, _) =>
      match rtEndpoint r with
      | EGetWorkflow | EUpdateWorkflow | EDeleteWorkflow | EGetWorkflowVersions | EGetWorkflowVersion | ECreateWorkflowVersion
      | ERollbackWorkflowVersion | EActivateWorkflow | EDeactivateWorkflow | EDuplicateWorkflow | EValidateWorkflow
      | EExecuteWorkflow | ETestWorkflow | EGetWorkflowPermissions | EShareWorkflow | EUnshareWorkflow | EPublishWorkflow
      | EExportWorkflow | EGetWorkflowStats | EGetWorkflowExecutions | EGetLatestRun | ECreateTrigger | EListTriggers => Some (Param r "id")
      | EGetTrigger | EUpdateTrigger | EDeleteTrigger | EActivateTrigger | EDeactivateTrigger | ETestTrigger =>
          match tp_get (wsTriggers s) (Param r "triggerId") (caTrigger (acCall a) 0) with Ok t => Some (wtWorkflowID t) | Err _ => None end
      | _ => None
      end
  end.

Definition denied (m : api) (s : WorkflowService T) : Prop := ∀ resp s', m s = Ret (resp, s') → s' = s ∧ ¬ succeeded resp.
Lemma denied_answer {R} (m : svc T R) known failed ok s e : refuses known → m s = Ret (Err e, s) → denied (answer m known failed ok) s.
Proof. clear. intros Hk E resp s' H. by eapply answer_error. Qed.
Lemma performed_denied (m : api) op a u wf s :
  performs m (Some op) a → op_user op = Some u → op_workflow op (acCall a) s = Some wf → ¬ owns s u wf → denied m s.
Proof.
  intros Hm Hu Hw Hn resp s' H. destruct (Hm _ _ _ H) as (r & E & Hs).
  destruct (foreign_refused encode decode decode_into marshal fmt_float fmt_time fmt_f ilike column_le op (acCall a) s u wf Hu Hw Hn) as [e E'].
  rewrite E' in E. injection E as <- <-. split; [done|]. by intros Hx%Hs.
Qed.

Lemma body_denied {R} (d : string → result R) check rq (k : R → api) f a u wf s :
  performs (with_body d check rq k) (from_body d check rq f) a →
  (∀ r, op_user (f r) = Some u) → (∀ r, op_workflow (f r) (acCall a) s = Some wf) → ¬ owns s u wf → denied (with_body d check rq k) s.
Proof.
  intros Hp Hu Hw Hn. unfold with_body, from_body in *. destruct (d _) as [r|e]; [destruct (check r)|].
  1: by apply (performed_denied _ (f r) a u wf).
  all: intros resp s' [= <- <-]; (split; [done|]); unfold succeeded; simpl; unfold StatusBadRequest; lia.
Qed.
Lemma foreign_denied release a rq s u wf :
  request_user release rq = Some u → about_workflow release a rq s = Some wf → ¬ owns s u wf → denied (serve release a rq) s.
Proof.
  unfold request_user, about_workflow. destruct (reaches release rq) as [[r u']|] eqn:E; [|done]. intros [= ->].
  rewrite (serve_reached _ _ _ _ _ E). pose proof (handle_performs r a rq u) as Hp. unfold handle, request_op in *. intros Hw Hn.
  destruct (rtEndpoint r); try discriminate Hw;
    try (eapply performed_denied; [exact Hp|reflexivity|exact Hw|exact Hn]);
    (eapply (body_denied _ _ _ _ _ _ u wf); [exact Hp|intros req; reflexivity|intros req; exact Hw|exact Hn]).
Qed.

(** *** Isolation *)

Context (valid : Workflow → Prop).
Context (json_ok : ∀ w s, valid (content w) → encode w = Some s → ∃ w', decode s = Some w' ∧ content w' = content w).

(** The query of a rollback sees every row. *)
Definition request_ok (release : bool) (a : ApiCall) (rq : Request) (s : WorkflowService T) : Prop :=
  ∀ op, served_op release a rq = Some op → op_ok op (acCall a) s.
(** A request, after which every row survives its JSON. *)
Definition request_step (release : bool) (s s' : WorkflowService T) : Prop :=
  ∃ a rq resp, request_ok release a rq s ∧ serve release a rq s = Ret (resp, s') ∧ rows_valid valid s'.

Abbreviation service_step := (sstep encode decode decode_into marshal fmt_float fmt_time fmt_f ilike column_le valid).
Lemma requests_are_calls release s s' : rtc (request_step release) s s' → rtc service_step s s'.
Proof.
  intros H. induction H as [s|s s1 s2 (a & rq & resp & Hok & E & Hv) _ IH]; [done|].
  pose proof (serve_performs release a rq _ _ _ E) as Hp. unfold request_ok in Hok.
  destruct (served_op release a rq) as [op|] eqn:Eo; [|by subst s1].
  destruct Hp as (r & Er & _). eapply rtc_l; [|exact IH]. exists op, (acCall a), r. by auto.
Qed.

(** C7. The HTTP interface isolates its users.  After any requests from the
    empty tables, instantiations of templates included, take one more, with any
    failures of the database, of the trigger manager and of the bus; rows survive
    their JSON, and the query of a rollback sees every row.  If its user is not the
    owner of a workflow, or it has none, the row of that workflow, its versions and
    its variables stay as they are.  And if it is about a workflow its user does not
    own, by the path or through a trigger, it changes nothing at all and is not
    answered with success. *)
Theorem api_isolation release s0 s a rq resp s' :
  initial s0 → rtc (request_step release) s0 s → request_ok release a rq s → serve release a rq s = Ret (resp, s') →
  (∀ wf w, dbWorkflows (wsDB s) !! wf = Some w → request_user release rq ≠ Some (wUserID w) → same_workflow (wsDB s) (wsDB s') wf)
  ∧ (∀ u wf, request_user release rq = Some u → about_workflow release a rq s = Some wf → ¬ owns s u wf →
       s' = s ∧ ¬ succeeded resp).
Proof.
  intros H0 Hs Hok E. split.
  - intros wf w Hw Hu. pose proof (serve_performs release a rq _ _ _ E) as Hp. unfold request_ok in Hok.
    destruct (served_op release a rq) as [op|] eqn:Eo; [|by subst s'].
    destruct Hp as (r & Er & _). eapply (tenant_isolation encode decode); [exact json_ok|exact H0|by apply (requests_are_calls release)|by apply Hok|exact Er|done|].
    intros Hx. apply Hu. by eapply served_op_user.
  - intros u wf Hu Hw Hn. by eapply foreign_denied.
Qed.

(** ** The sentinels are what the methods answer *)

Lemma not_found_sentinel {R} a wf u msg s (k : Workflow → svc T R) :
  is_Some (not_found a wf u msg s) → (owned (acCall a) ErrWorkflowNotFound wf u ≫= k) s = Ret (Err ErrWorkflowNotFound, s).
Proof. clear. unfold not_found, mbind, svc_bind. rewrite owned_read. by case_match; intros [? ?]. Qed.
Lemma unauthorized_sentinel {R} a tid u s (k : WorkflowTrigger * Workflow → svc T R) :
  is_Some (unauthorized a tid u s) → (owned_trigger (acCall a) tid u ≫= k) s = Ret (Err ErrUnauthorized, s).
Proof.
  clear -TriggerPort0. unfold unauthorized, owned_trigger, asking, mbind, svc_bind. destruct (tp_get _ _ _) as [t|]; [|by intros [? ?]].
  rewrite owned_read. by case_match; intros [? ?].
Qed.
Lemma inactive_sentinel a wf u msg data s :
  is_Some (inactive a wf u msg s) → ExecuteWorkflow (acCall a) wf u data s = Ret (Err ErrWorkflowInactive, s).
Proof.
  clear. unfold inactive, ExecuteWorkflow, mbind, svc_bind. rewrite owned_read. destruct (WorkflowRepo.GetWorkflow _ _ _ _) as [w|]; [|by intros [? ?]].
  unfold guard_. by destruct (wIsActive w); [intros [? ?]|].
Qed.
Lemma invalid_sentinel a req s :
  is_Some (invalid a req s) → CreateWorkflow encode (acCall a) req s = Ret (Err ErrInvalidWorkflow, s).
Proof.
  clear. unfold invalid, CreateWorkflow, guard_. case_bool_decide as En; [by intros _|]. fold (created_from a req). unfold mbind, svc_bind.
  simpl. unfold check_graph, checked. intros [? H]. repeat (case_match; simplify_eq); done.
Qed.

(** ** Where the statuses mislead *)

(** A workflow that is not there, or not the user's, answers 500 to a read. *)
Lemma missing_workflow_is_500 a r u s :
  ¬ owns s u (Param r "id") → handle_GetWorkflow a r u s = Ret (JSON StatusInternalServerError (BError "Failed to get workflow"), s).
Proof.
  clear. intros Hn. unfold handle_GetWorkflow, answer, GetWorkflow, reading, none_known.
  destruct (WorkflowRepo.GetWorkflow _ _ _ _) as [w|] eqn:E; [|done]. apply GetWorkflow_ok in E. destruct Hn. by exists w.
Qed.
(** The report of a workflow that does not validate is never answered. *)
Lemma report_only_when_valid a r u s resp s' valid_ errors warnings :
  handle_ValidateWorkflow a r u s = Ret (resp, s') → rsBody resp = BReport valid_ errors warnings →
  ∃ s1, WorkflowService.ValidateWorkflow (acCall a) (acOrders a) (Param r "id") u s = Ret (Ok (errors, warnings, None), s1).
Proof.
  clear. unfold handle_ValidateWorkflow, answer. destruct (WorkflowService.ValidateWorkflow _ _ _ _ s) as [[[[[es ws] err]|e] s1]|msg|]; [| |done..].
  - intros [= <- <-]. destruct err; [done|]. simpl. intros [= _ -> ->]. by eexists.
  - intros [= <- <-]. by destruct (not_found _ _ _ _ _) as [[? ?]|].
Qed.
(** A template that is not there answers 500 to its instantiation. *)
Lemma from_missing_template_not_404 a r rq u s resp s' :
  handle_CreateFromTemplate a r rq u s = Ret (resp, s') → rsStatus resp ≠ StatusNotFound.
Proof.
  unfold handle_CreateFromTemplate, with_body, answer, reply, none_known. intros H. repeat (case_match; simplify_eq); by simplify_eq.
Qed.
(** In release mode a token alone is refused: nothing reads it. *)
Lemma token_alone_refused rq : GetHeader rq "X-User-ID" = "" → authMiddleware true rq = None.
Proof.
  clear. intros E. unfold authMiddleware. rewrite E. assert (extractUserIDFromToken (GetHeader rq "Authorization") = "") as ->
    by (unfold extractUserIDFromToken; by destruct (negb _)).
  by destruct (negb _).
Qed.
(** Who sends the header is its user. *)
Lemma header_trusted release rq u : u ≠ "" → GetHeader rq "X-User-ID" = u → authMiddleware release rq = Some u.
Proof. clear. intros Hu E. unfold authMiddleware. rewrite E. by rewrite !(bool_decide_false (u = "")). Qed.
(** The workflow in the path of a trigger is not compared with the trigger's. *)
Lemma trigger_path_ignored a r r' u :
  Param r "triggerId" = Param r' "triggerId" → handle_DeleteTrigger a r u = handle_DeleteTrigger a r' u.
Proof. clear. intros E. unfold handle_DeleteTrigger. by rewrite E. Qed.
(** The forced execution is one by the user admin, of an active workflow. *)
Lemma forced_execution_checks a r rq s resp s' :
  handle_ForceExecuteWorkflow a r rq s = Ret (resp, s') → rsStatus resp = StatusAccepted →
  ∃ w, dbWorkflows (wsDB s) !! Param r "id" = Some w ∧ wUserID w = "admin" ∧ wIsActive w = true.
Proof.
  clear. unfold handle_ForceExecuteWorkflow, with_body, answer, reply, none_known. destruct (dcData dc _) as [data|]; simpl; [|by intros [= <- _]].
  destruct (ExecuteWorkflow _ _ _ _ s) as [[[x|e] s1]|msg|] eqn:E; [|by intros [= <- _]|done..]. intros _ _.
  unfold ExecuteWorkflow, mbind, svc_bind in E. rewrite owned_read in E.
  destruct (WorkflowRepo.GetWorkflow _ _ _ _) as [w|] eqn:Ew; [|done]. apply GetWorkflow_ok in Ew as (? & ? & _). exists w.
  unfold guard_ in E. by destruct (wIsActive w).
Qed.
End api.

(** ** Concrete requests *)

Definition demo_decoders : Decoders :=
  {| dcCreate := λ _, Ok demo_request; dcUpdate := λ _, Err "bad"; dcVersion := λ _, Err "bad"; dcDuplicate := λ _, Err "bad";
     dcData := λ _, Ok ∅; dcShare := λ _, Err "bad"; dcPublish := λ _, Err "bad"; dcTemplate := λ _, Err "bad";
     dcFromTemplate := λ _, Err "bad"; dcImport := λ _, Err "bad"; dcCategory := λ _, Err "bad"; dcConfig := λ _, Err "bad" |}.
Definition demo_http (method : string) (path : list string) (user : string) : Request :=
  {| rqMethod := method; rqPath := ["api"; "v1"; "workflows"] ++ path; rqHeader := {["X-User-ID" := user]}; rqQuery := ∅; rqBody := "" |}.
Definition demo_api (uuids : list string) : ApiCall (A := TriggerCall) :=
  {| acCall := demo_call uuids [] []; acOrders := {| ordNodes := λ _, []; ordEdges := λ _, []; ordDegrees := λ _, []; ordLevels := [] |};
     acBuiltins := []; acReady := None; acStats := Err ""; acExecutions := λ _ _, Err ""; acLatest := Err ""; acTags := Err "" |}.
Definition demo_serve (a : ApiCall) (rq : Request) : api (T := TriggerManager ListCron) :=
  serve (TriggerPort0 := demo_port) demo_json demo_parse (λ _ _, None) (λ _, None) (λ _, "") (λ _, "") (λ _, "") (λ _ _, false)
    (λ _ _ _, false) demo_decoders complain true a rq.

Lemma demo_created :
  rtc (request_step (TriggerPort0 := demo_port) demo_json demo_parse (λ _ _, None) (λ _, None) (λ _, "") (λ _, "") (λ _, "")
         (λ _ _, false) (λ _ _ _, false) demo_decoders complain (λ c, c = content demo_flow) true) demo_started demo_one.
Proof.
  apply rtc_once. exists (demo_api ["w"; "v1"]), (demo_http "POST" [] "u"), (JSON 201 (BWorkflow demo_flow)). split_and!.
  - intros op [= <-]. exact I.
  - reflexivity.
  - intros wf w. rewrite demo_one_rows. intros [<- <-]%lookup_singleton_Some. done.
Qed.

(** A deletion by another user. *)
Lemma api_isolation_witness :
  ∃ resp s', demo_serve (demo_api ["x"]) (demo_http "DELETE" ["w"] "v") demo_one = Ret (resp, s')
    ∧ same_workflow (wsDB demo_one) (wsDB s') "w" ∧ s' = demo_one ∧ ¬ succeeded resp.
Proof.
  eexists _, demo_one. split; [reflexivity|].
  edestruct (api_isolation (TriggerPort0 := demo_port) demo_json demo_parse (λ _ _, None) (λ _, None) (λ _, "") (λ _, "") (λ _, "")
    (λ _ _, false) (λ _ _ _, false) demo_decoders complain (λ c, c = content demo_flow) demo_codec true demo_started demo_one (demo_api ["x"])
    (demo_http "DELETE" ["w"] "v")) as [H1 H2].
  - split; reflexivity.
  - exact demo_created.
  - intros op [= <-]. exact I.
  - reflexivity.
  - split; [|apply (H2 "v" "w"); [reflexivity|reflexivity|]].
    + apply (H1 "w" demo_flow); [reflexivity|discriminate].
    + intros (w & Hw & Hu & _). rewrite demo_one_rows, lookup_singleton_eq in Hw. injection Hw as <-. discriminate Hu.
Defined.

(** Routes: a fixed segment goes before the ID of a workflow. *)
Example routes_resolve :
  (rtEndpoint <$> find_route setupRouter (demo_http "GET" ["templates"] "u")) = Some EListTemplates
  ∧ (rtEndpoint <$> find_route setupRouter (demo_http "GET" ["wf1"] "u")) = Some EGetWorkflow
  ∧ (rtEndpoint <$> find_route setupRouter (demo_http "GET" ["templates"; "versions"] "u")) = Some EGetTemplate
  ∧ (rtEndpoint <$> find_route setupRouter (demo_http "GET" ["templates"; "runs"; "latest"] "u")) = Some EGetLatestRun
  ∧ (rtEndpoint <$> find_route setupRouter (demo_http "PATCH" ["wf1"] "u")) = None.
Proof. by vm_compute. Qed.
