(* ===== verification/Redis.v ===== *)
(** The Redis commands the authentication uses (SET with an expiry, GET, EXISTS,
    DEL, INCR, EXPIRE), on keys with the time at which they expire. *)

From S2P Require Import Prelude.

(** Values are texts or, after INCR, numbers. *)
Inductive rvalue := RText (s : string) | RNumber (z : Z).

Abbreviation redis := (gmap string (rvalue * option Z)).

(** A key without an expiry stays; one with an expiry is there before it. *)
Definition lives (now : Z) (e : option Z) : bool :=
  match e with Some t => bool_decide (now < t)%Z | None => true end.

Definition redis_get (r : redis) (now : Z) (k : string) : option rvalue :=
  match r !! k with
  | Some (v, e) => if lives now e then Some v else None
  | None => None
  end.
Definition redis_exists (r : redis) (now : Z) (k : string) : bool :=
  match redis_get r now k with Some _ => true | None => false end.
Definition redis_setex (r : redis) (now : Z) (k : string) (v : rvalue) (ttl : Z) : redis :=
  <[k := (v, Some (now + ttl)%Z)]> r.
Definition redis_del (r : redis) (k : string) : redis := delete k r.

(** INCR: the new number, or an error on a text that is not a number. *)
Definition redis_incr (r : redis) (now : Z) (k : string) : option (Z * redis) :=
  match r !! k with
  | Some (v, e) =>
      if lives now e then
        match v with
        | RNumber z => Some ((z + 1)%Z, <[k := (RNumber (z + 1), e)]> r)
        | RText _ => None
        end
      else Some (1%Z, <[k := (RNumber 1, None)]> r)
  | None => Some (1%Z, <[k := (RNumber 1, None)]> r)
  end.
Definition redis_expire (r : redis) (now : Z) (k : string) (ttl : Z) : redis :=
  match r !! k with
  | Some (v, e) => if lives now e then <[k := (v, Some (now + ttl)%Z)]> r else r
  | None => r
  end.

(** ** Lemmas *)

Lemma redis_get_ext r r' now k : r' !! k = r !! k → redis_get r' now k = redis_get r now k.
Proof. unfold redis_get. by intros ->. Qed.

Lemma redis_exists_ext r r' now k : r' !! k = r !! k → redis_exists r' now k = redis_exists r now k.
Proof. unfold redis_exists. by intros ->%(redis_get_ext r r' now). Qed.

Lemma redis_setex_get r now k v ttl t : (t < now + ttl)%Z → redis_get (redis_setex r now k v ttl) t k = Some v.
Proof. intros H. unfold redis_get, redis_setex, lives. rewrite lookup_insert_eq, bool_decide_true by done. done. Qed.

Lemma redis_setex_expired r now k v ttl t : (now + ttl ≤ t)%Z → redis_get (redis_setex r now k v ttl) t k = None.
Proof. intros H. unfold redis_get, redis_setex, lives. rewrite lookup_insert_eq, bool_decide_false by lia. done. Qed.

Lemma redis_setex_ne r now k v ttl k' : k ≠ k' → redis_setex r now k v ttl !! k' = r !! k'.
Proof. intros. unfold redis_setex. by rewrite lookup_insert_ne. Qed.

Lemma redis_del_ne r k k' : k ≠ k' → redis_del r k !! k' = r !! k'.
Proof. intros. unfold redis_del. by rewrite lookup_delete_ne. Qed.

Lemma redis_incr_ne r now k z r' k' : redis_incr r now k = Some (z, r') → k ≠ k' → r' !! k' = r !! k'.
Proof. unfold redis_incr. intros E Hne. repeat case_match; simplify_eq; by rewrite lookup_insert_ne. Qed.

Lemma redis_expire_ne r now k ttl k' : k ≠ k' → redis_expire r now k ttl !! k' = r !! k'.
Proof. intros. unfold redis_expire. repeat case_match; simplify_eq; by rewrite ?lookup_insert_ne. Qed.

(** ** Counters with a window

    A counter that starts at its first increment in [t0] or later and is given
    the expiry [ttl] by it: what INCR and, after the first, EXPIRE make of it. *)

Definition counter_at (r : redis) (key : string) (t0 ttl : Z) (k : nat) : Prop :=
  match k with
  | O => ∀ t, (t0 ≤ t)%Z → redis_get r t key = None
  | S _ => ∃ e, r !! key = Some (RNumber (Z.of_nat k), Some e) ∧ (t0 + ttl ≤ e)%Z
  end.

Lemma counter_at_ext r r' key t0 ttl k : r' !! key = r !! key → counter_at r key t0 ttl k → counter_at r' key t0 ttl k.
Proof. unfold counter_at. destruct k; [|by intros ->]. intros E H t Ht. rewrite <- (H t Ht). by apply redis_get_ext. Qed.

Lemma counter_step r key t0 ttl k now :
  counter_at r key t0 ttl k → (t0 ≤ now < t0 + ttl)%Z →
  ∃ r1, redis_incr r now key = Some (Z.of_nat (S k), r1)
    ∧ let r2 := if bool_decide (Z.of_nat (S k) = 1%Z) then redis_expire r1 now key ttl else r1 in
      counter_at r2 key t0 ttl (S k) ∧ ∀ key', key' ≠ key → r2 !! key' = r !! key'.
Proof.
  intros Hk Ht. unfold redis_incr. destruct k as [|k].
  - specialize (Hk now ltac:(lia)). unfold redis_get in Hk.
    assert (∃ r1, r1 = <[key := (RNumber 1, None)]> r ∧
      match r !! key with
      | Some (v, e) => if lives now e then match v with RNumber z => Some ((z + 1)%Z, <[key := (RNumber (z + 1), e)]> r) | RText _ => None end
                       else Some (1%Z, <[key := (RNumber 1, None)]> r)
      | None => Some (1%Z, <[key := (RNumber 1, None)]> r)
      end = Some (1%Z, r1)) as (r1 & -> & ->)
      by (destruct (r !! key) as [[v e]|]; [destruct (lives now e); [done|]|]; eauto).
    eexists. split; [done|]. rewrite bool_decide_true by done. unfold redis_expire. rewrite lookup_insert_eq. simpl. split.
    + eexists. rewrite lookup_insert_eq. split; [done|lia].
    + intros key' Hne. by rewrite !lookup_insert_ne.
  - destruct Hk as (e & -> & He). unfold lives. rewrite bool_decide_true by lia. eexists. split; [f_equal; f_equal; lia|].
    rewrite bool_decide_false by lia. split.
    + exists e. rewrite lookup_insert_eq. split; [do 2 f_equal; f_equal; lia|done].
    + intros key' Hne. by rewrite lookup_insert_ne.
Qed.
