(* ===== verification/Tokens.v ===== *)
(** pkg/auth/jwt/manager.go and pkg/middleware/auth/jwt_middleware.go: signed
    tokens and the middleware that admits requests with one.

    golang-jwt is a parameter: [sign] signs claims, [parse] reads a text without
    checking it, [verify] checks its signature under a key. *)

From S2P Require Import Prelude GoValue GoLib Redis.

(** ** Tokens *)

(** Claims of both kinds of token: a refresh token leaves the last three empty. *)
Record Claims := {
  clIssuer : string;
  clSubject : string;
  clIssuedAt : Z;                (* in seconds *)
  clExpiresAt : option Z;        (* a nil expiry is not checked *)
  clID : string;
  clUserID : string;
  clEmail : string;
  clRoles : list string;
  clPermissions : list string
}.

Record Manager := {
  mgPrivateKey : option string;
  mgPublicKey : option string;
  mgSecretKey : string;
  mgIssuer : string;
  mgExpiry : Z;                  (* in nanoseconds *)
  mgRefreshExpiry : Z;
  mgAlgorithm : string
}.

Record AuthConfig := {
  acIssuer : string;
  acExpiryHours : Z;
  acRefreshDays : Z;
  acAlgorithm : string;
  acSecretKey : string;
  acPrivateKeyPath : string;
  acPublicKeyPath : string
}.

Definition Second : Z := 1000000000.
Definition Minute : Z := 60 * Second.
Definition Hour : Z := 60 * Minute.

(** [jwt.NewNumericDate] truncates to seconds. *)
Definition NewNumericDate (t : Z) : Z := (t / Second)%Z.

(** What reading a token gives: nothing, a token without claims, one whose
    claims do not decode (what was decoded stays), or its method and claims. *)
Inductive Parsed :=
| PNil
| PNoClaims
| PBadClaims (c : Claims)
| PToken (alg : string) (c : Claims).

Section tokens.
Context (sign : string → string → Claims → result string) (parse : string → Parsed) (verify : string → string → string → bool).
(** The key files. *)
Context (loadPrivateKey loadPublicKey : string → result string).

Definition is_rsa (alg : string) : bool := bool_decide (alg ∈ ["RS256"; "RS384"; "RS512"]).
Definition is_hmac (alg : string) : bool := bool_decide (alg ∈ ["HS256"; "HS384"; "HS512"]).

Definition load (path what : string) (f : string → result string) : result (option string) :=
  if bool_decide (path = "") then Ok None
  else match f path with
       | Ok k => Ok (Some k)
       | Err e => Err ("failed to load " +:+ what +:+ " key: " +:+ e)
       end.

Definition NewManager (cfg : AuthConfig) : result Manager :=
  let m private public secret :=
    {| mgPrivateKey := private; mgPublicKey := public; mgSecretKey := secret; mgIssuer := acIssuer cfg;
       mgExpiry := acExpiryHours cfg * Hour; mgRefreshExpiry := acRefreshDays cfg * (24 * Hour);
       mgAlgorithm := acAlgorithm cfg |} in
  if bool_decide (acAlgorithm cfg = "RS256") then
    match load (acPrivateKeyPath cfg) "private" loadPrivateKey with
    | Err e => Err e
    | Ok private =>
        match load (acPublicKeyPath cfg) "public" loadPublicKey with
        | Err e => Err e
        | Ok public =>
            match private, public with
            | Some _, Some _ => Ok (m private public "")
            | _, _ => Err "RS256 algorithm requires both private and public keys"
            end
        end
    end
  else if bool_decide (acSecretKey cfg = "") then Err "HS256 algorithm requires a secret key"
  else Ok (m None None (acSecretKey cfg)).

Definition signed (m : Manager) (c : Claims) : result string :=
  if bool_decide (mgAlgorithm m = "RS256") then sign "RS256" (default "" (mgPrivateKey m)) c
  else sign "HS256" (mgSecretKey m) c.

(** [now1] and [now2] are the two readings of the clock. *)
Definition access_claims (m : Manager) (userID email : string) (roles permissions : list string) (now1 now2 : Z)
    (uuid : string) : Claims :=
  {| clIssuer := mgIssuer m; clSubject := userID; clIssuedAt := NewNumericDate now1;
     clExpiresAt := Some (NewNumericDate (now2 + mgExpiry m)); clID := uuid; clUserID := userID; clEmail := email;
     clRoles := roles; clPermissions := permissions |}.
Definition GenerateToken (m : Manager) (userID email : string) (roles permissions : list string) (now1 now2 : Z)
    (uuid : string) : result string :=
  signed m (access_claims m userID email roles permissions now1 now2 uuid).

Definition refresh_claims (m : Manager) (userID : string) (now1 now2 : Z) (uuid : string) : Claims :=
  {| clIssuer := mgIssuer m; clSubject := userID; clIssuedAt := NewNumericDate now1;
     clExpiresAt := Some (NewNumericDate (now2 + mgRefreshExpiry m)); clID := uuid; clUserID := userID; clEmail := "";
     clRoles := []; clPermissions := [] |}.
Definition GenerateRefreshToken (m : Manager) (userID : string) (now1 now2 : Z) (uuid : string) : result string :=
  signed m (refresh_claims m userID now1 now2 uuid).

(** The key for a token's method, if it is of the configured kind. *)
Definition key_for (m : Manager) (alg : string) : result string :=
  if bool_decide (mgAlgorithm m = "RS256") then
    if is_rsa alg then Ok (default "" (mgPublicKey m)) else Err ("unexpected signing method: " +:+ alg)
  else if is_hmac alg then Ok (mgSecretKey m) else Err ("unexpected signing method: " +:+ alg).

(** [ParseWithClaims]: the claims of the token, if it has any, and the error. *)
Definition ParseWithClaims (key : string → result string) (tok : string) (now : Z) : option (option Claims) * option string :=
  match parse tok with
  | PNil => (None, Some "token is malformed")
  | PNoClaims => (Some None, Some "token is malformed")
  | PBadClaims c => (Some (Some c), Some "token is malformed")
  | PToken alg c =>
      (Some (Some c),
       match key alg with
       | Err e => Some ("token is unverifiable: " +:+ e)
       | Ok k => if negb (verify tok alg k) then Some "token signature is invalid"
                 else if lives now ((λ t, (t * Second)%Z) <$> clExpiresAt c) then None
                 else Some "token has invalid claims: token is expired"
       end)
  end.

Definition ValidateToken (m : Manager) (tok : string) (now : Z) : result Claims :=
  match ParseWithClaims (key_for m) tok now with
  | (_, Some e) => Err e
  | (Some (Some c), None) => Ok c
  | (_, None) => Err "invalid token"
  end.

Definition ValidateRefreshToken (m : Manager) (tok : string) (now : Z) : result string :=
  match ParseWithClaims (key_for m) tok now with
  | (_, Some e) => Err e
  | (Some (Some c), None) => Ok (clUserID c)
  | (_, None) => Err "invalid refresh token"
  end.

(** [RefreshToken] of the manager: the error of the parser is dropped. *)
Definition Manager_RefreshToken (m : Manager) (tok : string) (now now1 now2 : Z) (uuid : string) : result string :=
  let key := λ _ : string, Ok (if bool_decide (mgAlgorithm m = "RS256") then default "" (mgPublicKey m) else mgSecretKey m) in
  match (ParseWithClaims key tok now).1 with
  | None => Err "invalid token format"
  | Some None => Err "invalid token claims"
  | Some (Some c) => GenerateToken m (clUserID c) (clEmail c) (clRoles c) (clPermissions c) now1 now2 uuid
  end.

(** ** The middleware *)

(** Values in the context of a request. *)
Inductive cval := CText (s : string) | CList (l : list string) | CBool (b : bool).
Abbreviation gctx := (gmap string cval).

(** The request goes on with its context, or is answered with a status. *)
Inductive verdict :=
| Next (c : gctx)
| Reply (code : Z) (msg : string).

Definition skipPaths : list string :=
  ["/health"; "/ready"; "/metrics"; "/api/v1/auth/login"; "/api/v1/auth/register"; "/api/v1/auth/refresh";
   "/api/v1/auth/verify-email"; "/api/v1/auth/forgot-password"; "/api/v1/auth/reset-password"; "/api/v1/auth/oauth"].

Definition bearerScheme := "Bearer ".
Definition blacklist_key (tok : string) : string := "blacklist:" +:+ tok.

(** [r] is the store, if the middleware has one; [broken] a failure of it, which
    reads as not blacklisted.  [header] is empty when it is missing. *)
Definition Handle (m : Manager) (r : option redis) (broken : bool) (path header : string) (now : Z) (ctx : gctx) : verdict :=
  if existsb (λ p, String.prefix p path) skipPaths then Next ctx
  else if bool_decide (header = "") then Reply 401 "authorization header required"
  else if negb (String.prefix bearerScheme header) then Reply 401 "invalid authorization header format"
  else
    let tok := String.substring (String.length bearerScheme) (String.length header - String.length bearerScheme) header in
    if match r with Some r => negb broken && redis_exists r now (blacklist_key tok) | None => false end
    then Reply 401 "token has been revoked"
    else match ValidateToken m tok now with
         | Err _ => Reply 401 "invalid or expired token"
         | Ok c => Next (<["token" := CText tok]> (<["permissions" := CList (clPermissions c)]> (<["roles" := CList (clRoles c)]>
                          (<["email" := CText (clEmail c)]> (<["userId" := CText (clUserID c)]> ctx)))))
         end.

Definition context_list (c : gctx) (key : string) : option (result (list string)) :=
  match c !! key with
  | None => None
  | Some (CList l) => Some (Ok l)
  | Some _ => Some (Err "format")
  end.

Definition RequireRoles (roles : list string) (c : gctx) : verdict :=
  match context_list c "roles" with
  | None => Reply 403 "no roles found in context"
  | Some (Err _) => Reply 500 "invalid roles format"
  | Some (Ok have) =>
      if existsb (λ r, existsb (λ u, bool_decide (u = r)) have) roles then Next c else Reply 403 "insufficient permissions"
  end.

Definition RequirePermissions (permissions : list string) (c : gctx) : verdict :=
  match context_list c "permissions" with
  | None => Reply 403 "no permissions found in context"
  | Some (Err _) => Reply 500 "invalid permissions format"
  | Some (Ok have) =>
      if forallb (λ p, existsb (λ u, bool_decide (u = p)) have) permissions then Next c
      else Reply 403 "insufficient permissions"
  end.

Definition get_text (c : gctx) (key : string) : string * bool :=
  match c !! key with Some (CText s) => (s, true) | _ => ("", false) end.
Definition get_list (c : gctx) (key : string) : list string * bool :=
  match c !! key with Some (CList l) => (l, true) | _ => ([], false) end.
Definition GetUserID (c : gctx) := get_text c "userId".
Definition GetUserEmail (c : gctx) := get_text c "email".
Definition GetUserRoles (c : gctx) := get_list c "roles".
Definition GetUserPermissions (c : gctx) := get_list c "permissions".

(** ** What the library promises

    A signed text reads back as its claims, with the method it was signed with,
    and verifies under the key that belongs to the one it was signed with. *)
Context (public : string → string) (clean : Claims → Prop).
Class JwtLaws := {
  jwt_parse alg key c s : clean c → sign alg key c = Ok s → parse s = PToken alg c;
  jwt_verify_hmac alg key c s : sign alg key c = Ok s → is_hmac alg = true → verify s alg key = true;
  jwt_verify_rsa alg key c s : sign alg key c = Ok s → is_rsa alg = true → verify s alg (public key) = true
}.

(** A manager that can check what it signs. *)
Definition key_pair (m : Manager) : Prop :=
  mgAlgorithm m = "RS256" → ∃ k, mgPrivateKey m = Some k ∧ mgPublicKey m = Some (public k).

Section laws.
Context `{!JwtLaws}.

Lemma signed_parses m c s now :
  clean c → key_pair m → signed m c = Ok s →
  ParseWithClaims (key_for m) s now
  = (Some (Some c), if lives now ((λ t, (t * Second)%Z) <$> clExpiresAt c) then None
                    else Some "token has invalid claims: token is expired").
Proof.
  intros Hc Hk. unfold signed, ParseWithClaims, key_for. case_bool_decide as Ha; intros Hs.
  - destruct (Hk Ha) as (k & Hp & Hpub). rewrite Hp in Hs. simpl in Hs. rewrite (jwt_parse _ _ _ _ Hc Hs), Hpub. simpl.
    change (is_rsa "RS256") with true. cbn [default]. rewrite (jwt_verify_rsa _ _ _ _ Hs) by done. done.
  - rewrite (jwt_parse _ _ _ _ Hc Hs). change (is_hmac "HS256") with true. cbv iota. rewrite (jwt_verify_hmac _ _ _ _ Hs) by done. done.
Qed.

Lemma lives_truncated now t : lives now (Some (NewNumericDate t * Second)%Z) = true ↔ (now < t / Second * Second)%Z.
Proof. unfold lives, NewNumericDate. by rewrite bool_decide_eq_true. Qed.

Lemma ValidateToken_signed m c s now :
  clean c → key_pair m → signed m c = Ok s →
  ValidateToken m s now = if lives now ((λ t, (t * Second)%Z) <$> clExpiresAt c) then Ok c
                          else Err "token has invalid claims: token is expired".
Proof. intros Hc Hk Hs. unfold ValidateToken. rewrite (signed_parses m c) by done. by destruct (lives _ _). Qed.

Lemma ValidateRefreshToken_signed m c s now :
  clean c → key_pair m → signed m c = Ok s →
  ValidateRefreshToken m s now = if lives now ((λ t, (t * Second)%Z) <$> clExpiresAt c) then Ok (clUserID c)
                                 else Err "token has invalid claims: token is expired".
Proof. intros Hc Hk Hs. unfold ValidateRefreshToken. rewrite (signed_parses m c) by done. by destruct (lives _ _). Qed.

(** A refresh token need not be one: an access token refreshes as well. *)
Lemma access_token_refreshes m u e roles perms now1 now2 uuid s now :
  clean (access_claims m u e roles perms now1 now2 uuid) → key_pair m →
  GenerateToken m u e roles perms now1 now2 uuid = Ok s → (now < (now2 + mgExpiry m) / Second * Second)%Z →
  ValidateRefreshToken m s now = Ok u.
Proof.
  intros Hc Hk Hs Hn. rewrite (ValidateRefreshToken_signed m _ s now Hc Hk Hs). cbn [clExpiresAt access_claims fmap option_fmap option_map].
  by rewrite (proj2 (lives_truncated now (now2 + mgExpiry m))).
Qed.
End laws.

(** [RefreshToken] of the manager signs the claims of a token nobody signed. *)
Lemma refresh_signs_forged_claims m tok alg c now now1 now2 uuid :
  parse tok = PToken alg c →
  Manager_RefreshToken m tok now now1 now2 uuid
  = GenerateToken m (clUserID c) (clEmail c) (clRoles c) (clPermissions c) now1 now2 uuid.
Proof. intros E. unfold Manager_RefreshToken, ParseWithClaims. by rewrite E. Qed.

(** ** The middleware *)

Lemma substring_bearer tok :
  String.substring (String.length bearerScheme) (String.length (bearerScheme +:+ tok) - String.length bearerScheme)
    (bearerScheme +:+ tok) = tok.
Proof.
  change (bearerScheme +:+ tok) with ("Bearer " +:+ tok). simpl.
  induction tok as [|c tok IH]; simpl; [done|]. f_equal. by destruct tok.
Qed.

Lemma Handle_bearer m r broken path tok now ctx :
  existsb (λ p, String.prefix p path) skipPaths = false →
  Handle m r broken path (bearerScheme +:+ tok) now ctx =
  if match r with Some r => negb broken && redis_exists r now (blacklist_key tok) | None => false end
  then Reply 401 "token has been revoked"
  else match ValidateToken m tok now with
       | Err _ => Reply 401 "invalid or expired token"
       | Ok c => Next (<["token" := CText tok]> (<["permissions" := CList (clPermissions c)]> (<["roles" := CList (clRoles c)]>
                        (<["email" := CText (clEmail c)]> (<["userId" := CText (clUserID c)]> ctx)))))
       end.
Proof.
  intros Hp. unfold Handle. rewrite Hp, substring_bearer. by rewrite bool_decide_false by done; rewrite prefix_app.
Qed.

Lemma existsb_elem (x : string) l : existsb (λ u, bool_decide (u = x)) l = true ↔ x ∈ l.
Proof.
  rewrite existsb_exists. split.
  - intros (y & Hy & ->%bool_decide_eq_true). by apply list_elem_of_In.
  - intros Hx. exists x. split; [by apply list_elem_of_In|by apply bool_decide_eq_true].
Qed.

(** A token is admitted exactly until it expires or is revoked: a request
    with an access token the manager generated goes on, outside the open paths,
    if and only if the token is not on the blacklist and its expiry, in whole
    seconds, has not come; it carries the user, the roles and the permissions the
    token was generated for, so that the guards after it admit exactly users with
    one of the roles, or all of the permissions, they require. *)
Lemma token_admission {L : JwtLaws} m u e roles perms now1 now2 uuid tok r path now ctx :
  clean (access_claims m u e roles perms now1 now2 uuid) → key_pair m →
  GenerateToken m u e roles perms now1 now2 uuid = Ok tok →
  existsb (λ p, String.prefix p path) skipPaths = false →
  let v := Handle m (Some r) false path (bearerScheme +:+ tok) now ctx in
  ((∃ c, v = Next c) ↔
     redis_exists r now (blacklist_key tok) = false ∧ (now < (now2 + mgExpiry m) / Second * Second)%Z)
  ∧ ∀ c, v = Next c →
      GetUserID c = (u, true) ∧ GetUserEmail c = (e, true) ∧ GetUserRoles c = (roles, true)
      ∧ GetUserPermissions c = (perms, true)
      ∧ (∀ required, RequireRoles required c = Next c ↔ ∃ x, x ∈ required ∧ x ∈ roles)
      ∧ (∀ required, RequirePermissions required c = Next c ↔ ∀ x, x ∈ required → x ∈ perms).
Proof.
  intros Hc Hk Hs Hp v. subst v. rewrite Handle_bearer by done.
  rewrite (ValidateToken_signed m _ tok now Hc Hk Hs). cbn [negb andb clExpiresAt access_claims fmap option_fmap option_map].
  pose proof (lives_truncated now (now2 + mgExpiry m)) as Hl.
  destruct (redis_exists r now (blacklist_key tok)); [split; [split; [by intros []|by intros []]|done]|].
  destruct (lives now _); [|split; [split; [by intros []|intros [_ Hb%Hl]; done]|done]].
  split; [split; [intros _; split; [done|by apply Hl]|by eauto]|]. intros c [= <-].
  unfold GetUserID, GetUserEmail, GetUserRoles, GetUserPermissions, get_text, get_list. split_and!; [by simplify_map_eq..| |].
  - intros required. unfold RequireRoles, context_list. simplify_map_eq. cbn [clRoles access_claims].
    destruct (existsb _ required) eqn:E; split; [intros _|done|done|].
    + apply existsb_exists in E as (x & Hx & Hy). exists x. rewrite list_elem_of_In. by rewrite existsb_elem in Hy.
    + intros (x & Hx & Hy). assert (existsb (λ r0, existsb (λ u0, bool_decide (u0 = r0)) roles) required = true) as Ht; [|congruence].
      apply existsb_exists. exists x. rewrite existsb_elem. by rewrite <- list_elem_of_In.
  - intros required. unfold RequirePermissions, context_list. simplify_map_eq. cbn [clPermissions access_claims].
    destruct (forallb _ required) eqn:E; split; [intros _|done|done|].
    + intros x Hx. rewrite forallb_forall in E. apply existsb_elem, E. by apply list_elem_of_In.
    + intros Hr. assert (forallb (λ p, existsb (λ u0, bool_decide (u0 = p)) perms) required = true) as Ht; [|congruence].
      apply forallb_forall. intros x Hx. apply existsb_elem, Hr. by apply list_elem_of_In.
Qed.
End tokens.

(** ** A concrete run *)

Definition demo_token_manager : Manager :=
  {| mgPrivateKey := None; mgPublicKey := None; mgSecretKey := "key"; mgIssuer := "linkflow"; mgExpiry := Hour;
     mgRefreshExpiry := 7 * (24 * Hour); mgAlgorithm := "HS256" |}.
Definition demo_claims : Claims := access_claims demo_token_manager "u" "e" ["user"] ["workflow:read"] 0 0 "id".
Definition demo_sign (alg key : string) (c : Claims) : result string :=
  if bool_decide (alg = "HS256") then Ok "tok" else Err "no key".
Definition demo_read (s : string) : Parsed := if bool_decide (s = "tok") then PToken "HS256" demo_claims else PNil.

Lemma demo_jwt_laws : JwtLaws demo_sign demo_read (λ _ _ _, true) id (λ c, c = demo_claims).
Proof.
  split; unfold demo_sign; intros alg key c s; [intros Hc Es; simpl in Hc; subst|done..]. case_bool_decide; [|done]. injection Es as <-.
  subst. unfold demo_read. by rewrite bool_decide_true.
Qed.

Lemma token_admission_witness :
  (∃ c, Handle demo_read (λ _ _ _, true) demo_token_manager (Some ∅) false "/api/v1/workflows" (bearerScheme +:+ "tok")
          (30 * Minute) ∅ = Next c) ↔
  redis_exists ∅ (30 * Minute) (blacklist_key "tok") = false ∧ (30 * Minute < (0 + Hour) / Second * Second)%Z.
Proof.
  refine (proj1 (token_admission demo_sign demo_read (λ _ _ _, true) id (λ c, c = demo_claims) (L := demo_jwt_laws)
    demo_token_manager "u" "e" ["user"] ["workflow:read"] 0 0 "id" "tok" ∅ "/api/v1/workflows" (30 * Minute) ∅ _ _ _ _));
    [reflexivity|discriminate|reflexivity|reflexivity].
Defined.
