(* ===== verification/Auth.v ===== *)
(** internal/auth: the authentication service, with its repository and the users
    of pkg/contracts/user.

    bcrypt and the tokens of [Tokens] are parameters, Casbin is behind the
    interface of ports/rbac_enforcer.go.  A [Call] is what a method reads from
    outside: clocks, IDs, failures of the database, of Redis and of the bus. *)

From S2P Require Import Prelude GoValue GoLib Workflow WorkflowRepo Redis Tokens.
From stdpp Require Import sorting.
From Stdlib Require Import Ascii.

(** ** Users *)

Record Permission := {
  pmID : string;
  pmName : string;
  pmResource : string;
  pmAction : string;
  pmDescription : string;
  pmCreatedAt : Z
}.
Record Role := {
  roID : string;
  roName : string;
  roDescription : string;
  roIsSystem : bool;
  roPermissions : list Permission;
  roCreatedAt : Z;
  roUpdatedAt : Z
}.
Record User := {
  usID : string;
  usEmail : string;
  usUsername : string;
  usPassword : string;
  usFirstName : string;
  usLastName : string;
  usAvatar : string;
  usEmailVerified : bool;
  usEmailVerifyToken : string;
  usTwoFactorEnabled : bool;
  usTwoFactorSecret : string;
  usStatus : string;
  usRoles : list Role;
  usLastLoginAt : option Z;
  usCreatedAt : Z;
  usUpdatedAt : Z
}.
Record Session := {
  seID : string;
  seUserID : string;
  seToken : string;
  seRefreshToken : string;
  seIPAddress : string;
  seUserAgent : string;
  seExpiresAt : Z;
  seRevokedAt : option Z;
  seCreatedAt : Z
}.

Definition UserActive := "active".
Definition UserInactive := "inactive".
Definition UserSuspended := "suspended".
Definition UserDeleted := "deleted".

(** The fields the code assigns. *)
Definition set_login (u : User) (password first last avatar : string) (verified : bool) (token : string)
    (login : option Z) (updated : Z) : User :=
  {| usID := usID u; usEmail := usEmail u; usUsername := usUsername u; usPassword := password; usFirstName := first;
     usLastName := last; usAvatar := avatar; usEmailVerified := verified; usEmailVerifyToken := token;
     usTwoFactorEnabled := usTwoFactorEnabled u; usTwoFactorSecret := usTwoFactorSecret u; usStatus := usStatus u;
     usRoles := usRoles u; usLastLoginAt := login; usCreatedAt := usCreatedAt u; usUpdatedAt := updated |}.
Definition set_roles (u : User) (roles : list Role) : User :=
  {| usID := usID u; usEmail := usEmail u; usUsername := usUsername u; usPassword := usPassword u; usFirstName := usFirstName u;
     usLastName := usLastName u; usAvatar := usAvatar u; usEmailVerified := usEmailVerified u;
     usEmailVerifyToken := usEmailVerifyToken u; usTwoFactorEnabled := usTwoFactorEnabled u;
     usTwoFactorSecret := usTwoFactorSecret u; usStatus := usStatus u; usRoles := roles; usLastLoginAt := usLastLoginAt u;
     usCreatedAt := usCreatedAt u; usUpdatedAt := usUpdatedAt u |}.

Definition zero_user : User :=
  {| usID := ""; usEmail := ""; usUsername := ""; usPassword := ""; usFirstName := ""; usLastName := ""; usAvatar := "";
     usEmailVerified := false; usEmailVerifyToken := ""; usTwoFactorEnabled := false; usTwoFactorSecret := "";
     usStatus := ""; usRoles := []; usLastLoginAt := None; usCreatedAt := 0; usUpdatedAt := 0 |}.

(** The text before the first [@]. *)
Definition at_sign : ascii := "@"%char.
Fixpoint before_at (s : string) : string :=
  match s with
  | "" => ""
  | String c s' => if Ascii.eqb c at_sign then "" else String c (before_at s')
  end.

Definition FullName (u : User) : string :=
  if bool_decide (usFirstName u = "") && bool_decide (usLastName u = "") then usUsername u
  else usFirstName u +:+ " " +:+ usLastName u.
Definition HasRole (u : User) (name : string) : bool := existsb (λ r, bool_decide (roName r = name)) (usRoles u).
Definition HasPermission (u : User) (resource action : string) : bool :=
  existsb (λ r, existsb (λ p, bool_decide (pmResource p = resource) && bool_decide (pmAction p = action))
                  (roPermissions r)) (usRoles u).
Definition perm_name (p : Permission) : string := pmResource p +:+ ":" +:+ pmAction p.
(** The set of names, in the order [ord] of the map. *)
Definition permission_set (u : User) : gset string :=
  list_to_set (usRoles u ≫= λ r, perm_name <$> roPermissions r).
Definition GetPermissions (u : User) (ord : list string) : list string :=
  filter (λ p, p ∈ permission_set u) ord.
Definition GetRoleNames (u : User) : list string := roName <$> usRoles u.

(** ** The repository *)

Record AuthDB := {
  adUsers : gmap string User;
  adSessions : gmap string Session
}.
Definition put_users (db : AuthDB) (t : gmap string User) : AuthDB := {| adUsers := t; adSessions := adSessions db |}.
Definition put_sessions (db : AuthDB) (t : gmap string Session) : AuthDB := {| adUsers := adUsers db; adSessions := t |}.

(** The columns of auth.sessions; a condition on another one is an error. *)
Definition session_columns : list string :=
  ["id"; "user_id"; "token_hash"; "refresh_token_hash"; "ip_address"; "user_agent"; "device_info"; "expires_at";
   "revoked_at"; "created_at"].
Definition on_column {R} (col : string) (k : result R) : result R :=
  if bool_decide (col ∈ session_columns) then k else Err ("column " +:+ col +:+ " does not exist").

(** Emails and user names are unique. *)
Definition CreateUser (db : AuthDB) (u : User) (fail : db_fail) : result AuthDB :=
  try fail "INSERT users"
    (if bool_decide (is_Some (adUsers db !! usID u))
        || existsb (λ p, bool_decide (usEmail p.2 = usEmail u) || bool_decide (usUsername p.2 = usUsername u))
             (map_to_list (adUsers db))
     then Err duplicate_key else Ok (put_users db (<[usID u := u]> (adUsers db)))).

(** A pointer and an error: a failed query gives an empty user with it. *)
Definition first_user (db : AuthDB) (ord : list string) (cond : User → bool) (fail : db_fail) : option User * option string :=
  match fail "SELECT users" with
  | Some e => (Some zero_user, Some e)
  | None => match head (rows_where (adUsers db) ord cond) with
            | Some u => (Some u, None)
            | None => (None, Some "user not found")
            end
  end.
Definition GetUserByEmail (db : AuthDB) (ord : list string) (email : string) (fail : db_fail) :=
  first_user db ord (λ u, bool_decide (usEmail u = email)) fail.
Definition GetUserByID (db : AuthDB) (ord : list string) (id : string) (fail : db_fail) :=
  first_user db ord (λ u, bool_decide (usID u = id)) fail.
(** Without the roles. *)
Definition GetUserByEmailVerifyToken (db : AuthDB) (ord : list string) (token : string) (fail : db_fail) :
    option User * option string :=
  let '(u, e) := first_user db ord (λ u, bool_decide (usEmailVerifyToken u = token)) fail in
  ((λ u, set_roles u []) <$> u, e).

(** [Save]: an upsert that sets the time of update, and adds associations but
    removes none. *)
Definition UpdateUser (db : AuthDB) (u : User) (now : Z) (fail : db_fail) : result AuthDB :=
  try fail "UPDATE users"
    (let roles := match adUsers db !! usID u with Some old => usRoles old | None => usRoles u end in
     let u := set_login u (usPassword u) (usFirstName u) (usLastName u) (usAvatar u) (usEmailVerified u)
                (usEmailVerifyToken u) (usLastLoginAt u) now in
     Ok (put_users db (<[usID u := set_roles u roles]> (adUsers db)))).
Definition DeleteUser (db : AuthDB) (id : string) (fail : db_fail) : result AuthDB :=
  try fail "DELETE users" (Ok (put_users db (delete id (adUsers db)))).

(** Tokens and refresh tokens are unique. *)
Definition CreateSession (db : AuthDB) (s : Session) (fail : db_fail) : result AuthDB :=
  try fail "INSERT sessions"
    (if bool_decide (is_Some (adSessions db !! seID s))
        || existsb (λ p, bool_decide (seToken p.2 = seToken s) || bool_decide (seRefreshToken p.2 = seRefreshToken s))
             (map_to_list (adSessions db))
     then Err duplicate_key else Ok (put_sessions db (<[seID s := s]> (adSessions db)))).

Definition drop_sessions (db : AuthDB) (gone : Session → bool) : AuthDB :=
  put_sessions db (filter (λ p : string * Session, gone p.2 = false) (adSessions db)).
Definition first_session (db : AuthDB) (ord : list string) (cond : Session → bool) : result Session :=
  match head (rows_where (adSessions db) ord cond) with Some s => Ok s | None => Err "session not found" end.

(** The condition of these two names a column [token]. *)
Definition GetSession (db : AuthDB) (ord : list string) (token : string) (fail : db_fail) : result Session :=
  try fail "SELECT sessions" (on_column "token" (first_session db ord (λ s, bool_decide (seToken s = token)))).
Definition DeleteSession (db : AuthDB) (token : string) (fail : db_fail) : result AuthDB :=
  try fail "DELETE sessions" (on_column "token" (Ok (drop_sessions db (λ s, bool_decide (seToken s = token))))).

Definition DeleteUserSessions (db : AuthDB) (userID : string) (fail : db_fail) : result AuthDB :=
  try fail "DELETE sessions" (on_column "user_id" (Ok (drop_sessions db (λ s, bool_decide (seUserID s = userID))))).

Definition newest_session (a b : Session) : Prop := (seCreatedAt b ≤ seCreatedAt a)%Z.
#[global] Instance newest_session_dec a b : Decision (newest_session a b).
Proof. unfold newest_session. apply _. Defined.
Definition GetUserSessions (db : AuthDB) (ord : list string) (userID : string) (now : Z) (fail : db_fail) : result (list Session) :=
  try fail "SELECT sessions"
    (Ok (merge_sort newest_session
           (rows_where (adSessions db) ord (λ s, bool_decide (seUserID s = userID) && bool_decide (now < seExpiresAt s)%Z)))).

Definition GetSessionByID (db : AuthDB) (ord : list string) (sessionID : string) (fail : db_fail) : result Session :=
  try fail "SELECT sessions" (first_session db ord (λ s, bool_decide (seID s = sessionID))).
Definition DeleteSessionByID (db : AuthDB) (sessionID : string) (fail : db_fail) : result AuthDB :=
  try fail "DELETE sessions" (Ok (drop_sessions db (λ s, bool_decide (seID s = sessionID)))).

(** ** The service *)

(** The interface of the role enforcer. *)
Class RBACEnforcer (B : Type) := {
  rb_add : B → string → string → result B;
  rb_remove : B → string → string → result B;
  rb_roles : B → string → result (list string);
  rb_users : B → string → result (list string);
  rb_permissions : B → string → result (list (list string));
  rb_all : B → list string;
  rb_check : B → string → string → string → result bool
}.

Definition RoleSuperAdmin := "super_admin".
Definition RoleAdmin := "admin".
Definition RoleUser := "user".
Definition RoleViewer := "viewer".

Record Tokens := {
  tkAccessToken : string;
  tkRefreshToken : string;
  tkExpiresIn : Z
}.

(** An event: its type, the aggregate and the payload. *)
Definition event : Type := string * string * vmap.

Record AuthService (B : Type) := {
  asDB : AuthDB;
  asRedis : redis;
  asRbac : option B;
  asEvents : list event
}.
Arguments asDB {_}. Arguments asRedis {_}. Arguments asRbac {_}. Arguments asEvents {_}.

Record AuthCall := {
  auNow : Z;
  auUuid : nat → string;
  auSalt : string;
  auOrd : list string;
  auFail : nat → db_fail;
  auRedisFails : nat → bool;
  auBusFails : bool
}.

Section service.
Context {B : Type} `{!RBACEnforcer B}.
(** bcrypt, with the salt of the generator; the manager of the tokens and its
    library. *)
Context (bcrypt : string → string → result string) (compare : string → string → bool).
Context (sign : string → string → Claims → result string) (parse : string → Parsed) (verify : string → string → string → bool)
  (mgr : Manager).
(** The format of times in events. *)
Context (rfc3339 : Z → string).

Abbreviation AS := (AuthService B).

Definition with_db (s : AS) (db : AuthDB) : AS :=
  {| asDB := db; asRedis := asRedis s; asRbac := asRbac s; asEvents := asEvents s |}.
Definition with_redis (s : AS) (r : redis) : AS :=
  {| asDB := asDB s; asRedis := r; asRbac := asRbac s; asEvents := asEvents s |}.
Definition with_rbac (s : AS) (b : option B) : AS :=
  {| asDB := asDB s; asRedis := asRedis s; asRbac := b; asEvents := asEvents s |}.
Definition emit (c : AuthCall) (s : AS) (type id : string) (payload : list (string * value)) : AS :=
  if auBusFails c then s
  else {| asDB := asDB s; asRedis := asRedis s; asRbac := asRbac s;
          asEvents := asEvents s ++ [(type, id, list_to_map payload)] |}.

(** Commands of Redis number [k]; a failure is ignored. *)
Definition r_set (c : AuthCall) (k : nat) (s : AS) (key val : string) (ttl : Z) : AS :=
  if auRedisFails c k then s else with_redis s (redis_setex (asRedis s) (auNow c) key (RText val) ttl).
Definition r_del (c : AuthCall) (k : nat) (s : AS) (key : string) : AS :=
  if auRedisFails c k then s else with_redis s (redis_del (asRedis s) key).
Definition r_exists (c : AuthCall) (k : nat) (s : AS) (key : string) : bool :=
  negb (auRedisFails c k) && redis_exists (asRedis s) (auNow c) key.

(** *** Users *)

Definition NewUser (email password firstName lastName : string) (c : AuthCall) : result User :=
  match bcrypt password (auSalt c) with
  | Err e => Err e
  | Ok hashedPassword =>
      Ok {| usID := auUuid c 1; usEmail := email;
            usUsername := before_at email +:+ "-" +:+ String.substring 0 8 (auUuid c 0);
            usPassword := hashedPassword; usFirstName := firstName; usLastName := lastName; usAvatar := "";
            usEmailVerified := false; usEmailVerifyToken := auUuid c 2; usTwoFactorEnabled := false;
            usTwoFactorSecret := ""; usStatus := UserActive; usRoles := []; usLastLoginAt := None;
            usCreatedAt := auNow c; usUpdatedAt := auNow c |}
  end.
Definition CheckPassword (u : User) (password : string) : bool := compare (usPassword u) password.
Definition SetPassword (u : User) (password : string) (c : AuthCall) : result User :=
  match bcrypt password (auSalt c) with
  | Err e => Err e
  | Ok h => Ok (set_login u h (usFirstName u) (usLastName u) (usAvatar u) (usEmailVerified u) (usEmailVerifyToken u)
                  (usLastLoginAt u) (auNow c))
  end.

(** A failed query reads as an existing user here. *)
Definition Register (s : AS) (email password firstName lastName : string) (c : AuthCall) : result User * AS :=
  match (GetUserByEmail (asDB s) (auOrd c) email (auFail c 0)).1 with
  | Some _ => (Err "user already exists", s)
  | None =>
      match NewUser email password firstName lastName c with
      | Err e => (Err ("failed to create user: " +:+ e), s)
      | Ok u =>
          match CreateUser (asDB s) u (auFail c 1) with
          | Err e => (Err ("failed to save user: " +:+ e), s)
          | Ok db =>
              let s := emit c (with_db s db) "user.registered" (usID u)
                         [("email", VStr email); ("firstName", VStr firstName); ("lastName", VStr lastName)] in
              (Ok u, match asRbac s with
                     | Some b => match rb_add b (usID u) RoleUser with
                                 | Ok b' => with_rbac s (Some b')
                                 | Err _ => s
                                 end
                     | None => s
                     end)
          end
      end
  end.

(** *** Login *)

Definition maxAttempts : Z := 5.
Definition attempt_key (email : string) : string := "failed_attempts:" +:+ email.
Definition lock_key (email : string) : string := "lockout:" +:+ email.

(** The commands are numbered from 1; a failed count reads as 0. *)
Definition trackFailedLogin (s : AS) (email ipAddress : string) (c : AuthCall) : AS :=
  let '(attempts, r) := if auRedisFails c 1 then (0%Z, asRedis s)
                        else default (0%Z, asRedis s) (redis_incr (asRedis s) (auNow c) (attempt_key email)) in
  let r := if bool_decide (attempts = 1%Z) && negb (auRedisFails c 2)
           then redis_expire r (auNow c) (attempt_key email) (15 * Minute) else r in
  let s := with_redis s r in
  let s := if bool_decide (maxAttempts ≤ attempts)%Z then
             emit c (r_set c 3 s (lock_key email) "1" (15 * Minute)) "auth.account.locked" ""
               [("email", VStr email); ("ipAddress", VStr ipAddress); ("attempts", VInt attempts);
                ("lockedUntil", VStr (rfc3339 (auNow c + 15 * Minute)))]
           else s in
  emit c s "auth.login.failed" "" [("email", VStr email); ("ipAddress", VStr ipAddress); ("attempts", VInt attempts)].

Definition login_roles (s : AS) (u : User) : list string :=
  match asRbac s with
  | Some b => match rb_roles b (usID u) with
              | Ok (r :: rs) => r :: rs
              | _ => GetRoleNames u
              end
  | None => GetRoleNames u
  end.
Definition role_permissions (b : B) (role : string) : list string :=
  match rb_permissions b role with
  | Ok perms => omap (λ p, match p with _ :: res :: act :: _ => Some (res +:+ ":" +:+ act) | _ => None end) perms
  | Err _ => []
  end.
Definition login_permissions (s : AS) (u : User) (roles : list string) (ord : list string) : list string :=
  match asRbac s with
  | Some b => match roles ≫= role_permissions b with
              | [] => GetPermissions u ord
              | perms => perms
              end
  | None => GetPermissions u ord
  end.

Definition ErrLocked := "account is temporarily locked due to too many failed login attempts".
Definition ErrCredentials := "invalid credentials".

(** [pord] is the order of the user's permissions. *)
Definition Login (s : AS) (email password ipAddress userAgent : string) (pord : list string) (c : AuthCall) :
    result (Tokens * User) * AS :=
  if r_exists c 0 s (lock_key email) then (Err ErrLocked, s)
  else
    match GetUserByEmail (asDB s) (auOrd c) email (auFail c 0) with
    | (Some u, None) =>
        if negb (CheckPassword u password) then (Err ErrCredentials, trackFailedLogin s email ipAddress c)
        else
          let s := r_del c 1 s (attempt_key email) in
          if negb (usEmailVerified u) then (Err "email not verified", s)
          else if negb (bool_decide (usStatus u = UserActive)) then (Err "account is not active", s)
          else
            let roles := login_roles s u in
            let permissions := login_permissions s u roles pord in
            match GenerateToken sign mgr (usID u) (usEmail u) roles permissions (auNow c) (auNow c) (auUuid c 0) with
            | Err e => (Err ("failed to generate access token: " +:+ e), s)
            | Ok accessToken =>
                match GenerateRefreshToken sign mgr (usID u) (auNow c) (auNow c) (auUuid c 1) with
                | Err e => (Err ("failed to generate refresh token: " +:+ e), s)
                | Ok refreshToken =>
                    let session := {| seID := auUuid c 2; seUserID := usID u; seToken := accessToken;
                                      seRefreshToken := refreshToken; seIPAddress := ipAddress; seUserAgent := userAgent;
                                      seExpiresAt := (auNow c + 7 * (24 * Hour))%Z; seRevokedAt := None;
                                      seCreatedAt := auNow c |} in
                    match CreateSession (asDB s) session (auFail c 1) with
                    | Err e => (Err ("failed to create session: " +:+ e), s)
                    | Ok db =>
                        let u := set_login u (usPassword u) (usFirstName u) (usLastName u) (usAvatar u) (usEmailVerified u)
                                   (usEmailVerifyToken u) (Some (auNow c)) (usUpdatedAt u) in
                        let s := with_db s (match UpdateUser db u (auNow c) (auFail c 2) with Ok db' => db' | Err _ => db end) in
                        let s := emit c s "user.logged_in" (usID u) [("ipAddress", VStr ipAddress); ("userAgent", VStr userAgent)] in
                        (Ok ({| tkAccessToken := accessToken; tkRefreshToken := refreshToken; tkExpiresIn := 900 |}, u), s)
                    end
                end
            end
    | _ => (Err ErrCredentials, trackFailedLogin s email ipAddress c)
    end.

(** *** Tokens and sessions *)

Definition refresh_key (tok : string) : string := "blacklist:refresh:" +:+ tok.
Definition user_of (p : option User * option string) : result User :=
  match p with
  | (Some u, None) => Ok u
  | (_, Some e) => Err e
  | (None, None) => Ok zero_user
  end.

Definition RefreshToken (s : AS) (refreshToken : string) (pord : list string) (c : AuthCall) : result Tokens * AS :=
  if r_exists c 0 s (refresh_key refreshToken) then (Err "refresh token has already been used", s)
  else
    match ValidateRefreshToken parse verify mgr refreshToken (auNow c) with
    | Err _ => (Err "invalid refresh token", s)
    | Ok userID =>
        match user_of (GetUserByID (asDB s) (auOrd c) userID (auFail c 0)) with
        | Err _ => (Err "user not found", s)
        | Ok u =>
            if negb (bool_decide (usStatus u = UserActive)) then (Err "account is not active", s)
            else
              match GenerateToken sign mgr (usID u) (usEmail u) (login_roles s u) (GetPermissions u pord) (auNow c) (auNow c)
                      (auUuid c 0) with
              | Err e => (Err ("failed to generate access token: " +:+ e), s)
              | Ok accessToken =>
                  match GenerateRefreshToken sign mgr (usID u) (auNow c) (auNow c) (auUuid c 1) with
                  | Err e => (Err ("failed to generate refresh token: " +:+ e), s)
                  | Ok newRefreshToken =>
                      let s := r_set c 1 s (refresh_key refreshToken) "1" (7 * (24 * Hour)) in
                      let s := emit c s "auth.token.refreshed" (usID u) [] in
                      (Ok {| tkAccessToken := accessToken; tkRefreshToken := newRefreshToken; tkExpiresIn := 900 |}, s)
                  end
              end
        end
    end.

Definition Logout (s : AS) (userID token : string) (c : AuthCall) : option string * AS :=
  match DeleteSession (asDB s) token (auFail c 0) with
  | Err e => (Some ("failed to delete session: " +:+ e), s)
  | Ok db =>
      let s := r_set c 0 (with_db s db) (blacklist_key token) "1" (24 * Hour) in
      (None, emit c s "user.logged_out" userID [])
  end.

Definition Service_GetUserSessions (s : AS) (userID : string) (c : AuthCall) : result (list Session) :=
  match GetUserSessions (asDB s) (auOrd c) userID (auNow c) (auFail c 0) with
  | Err e => Err ("failed to get user sessions: " +:+ e)
  | Ok sessions => Ok (filter (λ x, (auNow c < seExpiresAt x)%Z) sessions)
  end.

Definition revoke_token (c : AuthCall) (s : AS) (kx : nat * Session) : AS :=
  if bool_decide (seToken kx.2 = "") then s else r_set c kx.1 s (blacklist_key (seToken kx.2)) "1" (24 * Hour).

Definition RevokeSession (s : AS) (userID sessionID : string) (c : AuthCall) : option string * AS :=
  match GetSessionByID (asDB s) (auOrd c) sessionID (auFail c 0) with
  | Err _ => (Some "session not found", s)
  | Ok session =>
      if negb (bool_decide (seUserID session = userID)) then (Some "unauthorized: session does not belong to user", s)
      else
        let s := revoke_token c s (0, session) in
        match DeleteSessionByID (asDB s) sessionID (auFail c 1) with
        | Err e => (Some ("failed to revoke session: " +:+ e), s)
        | Ok db => (None, emit c (with_db s db) "user.session.revoked" userID [("sessionId", VStr sessionID)])
        end
  end.

(** The tokens of the sessions that have not expired are blacklisted; a failure
    to list them is logged. *)
Definition RevokeAllSessions (s : AS) (userID : string) (c : AuthCall) : option string * AS :=
  let s := match GetUserSessions (asDB s) (auOrd c) userID (auNow c) (auFail c 0) with
           | Err _ => s
           | Ok sessions => foldl (revoke_token c) s (imap pair sessions)
           end in
  match DeleteUserSessions (asDB s) userID (auFail c 1) with
  | Err e => (Some ("failed to revoke all sessions: " +:+ e), s)
  | Ok db => (None, emit c (with_db s db) "user.sessions.all.revoked" userID [])
  end.

Definition ValidateSession (s : AS) (token : string) (c : AuthCall) : result Session * AS :=
  if r_exists c 0 s (blacklist_key token) then (Err "session has been revoked", s)
  else
    match GetSession (asDB s) (auOrd c) token (auFail c 0) with
    | Err _ => (Err "invalid session", s)
    | Ok session =>
        if bool_decide (seExpiresAt session < auNow c)%Z then
          (Err "session expired",
           with_db s (match DeleteSession (asDB s) token (auFail c 1) with Ok db => db | Err _ => asDB s end))
        else (Ok session, s)
    end.

(** *** Profiles, passwords, verification *)

Definition UpdateProfile (s : AS) (userID : string) (updates : vmap) (c : AuthCall) : result User * AS :=
  match user_of (GetUserByID (asDB s) (auOrd c) userID (auFail c 0)) with
  | Err e => (Err e, s)
  | Ok u =>
      let u := set_login u (usPassword u) (default (usFirstName u) (get_string updates "firstName"))
                 (default (usLastName u) (get_string updates "lastName")) (default (usAvatar u) (get_string updates "avatar"))
                 (usEmailVerified u) (usEmailVerifyToken u) (usLastLoginAt u) (auNow c) in
      match UpdateUser (asDB s) u (auNow c) (auFail c 1) with
      | Err e => (Err ("failed to update user: " +:+ e), s)
      | Ok db => (Ok u, emit c (with_db s db) "user.updated" (usID u) [("updates", VObj (map_to_list updates))])
      end
  end.

(** The part of a password change after the user is found. *)
Definition store_password (s : AS) (u : User) (newPassword : string) (c : AuthCall) : result AS :=
  match SetPassword u newPassword c with
  | Err e => Err ("failed to set password: " +:+ e)
  | Ok u => match UpdateUser (asDB s) u (auNow c) (auFail c 1) with
            | Err e => Err ("failed to update user: " +:+ e)
            | Ok db => Ok (with_db s db)
            end
  end.

Definition ChangePassword (s : AS) (userID oldPassword newPassword : string) (c : AuthCall) : option string * AS :=
  match user_of (GetUserByID (asDB s) (auOrd c) userID (auFail c 0)) with
  | Err e => (Some e, s)
  | Ok u =>
      if negb (CheckPassword u oldPassword) then (Some "incorrect old password", s)
      else match store_password s u newPassword c with Err e => (Some e, s) | Ok s' => (None, s') end
  end.

Definition VerifyEmail (s : AS) (token : string) (c : AuthCall) : option string * AS :=
  match user_of (GetUserByEmailVerifyToken (asDB s) (auOrd c) token (auFail c 0)) with
  | Err _ => (Some "invalid or expired verification token", s)
  | Ok u =>
      if usEmailVerified u then (Some "email already verified", s)
      else
        let u := set_login u (usPassword u) (usFirstName u) (usLastName u) (usAvatar u) true "" (usLastLoginAt u) (auNow c) in
        match UpdateUser (asDB s) u (auNow c) (auFail c 1) with
        | Err e => (Some ("failed to update user: " +:+ e), s)
        | Ok db => (None, emit c (with_db s db) "user.email.verified" (usID u) [("email", VStr (usEmail u))])
        end
  end.

Definition reset_key (tok : string) : string := "reset:" +:+ tok.

(** The token goes to the mail, which only logs. *)
Definition ForgotPassword (s : AS) (email : string) (c : AuthCall) : AS :=
  match user_of (GetUserByEmail (asDB s) (auOrd c) email (auFail c 0)) with
  | Err _ => s
  | Ok u => r_set c 0 s (reset_key (auUuid c 0)) (usID u) Hour
  end.

Definition rvalue_text (v : rvalue) : string := match v with RText s => s | RNumber z => pretty z end.

Definition ResetPassword (s : AS) (token newPassword : string) (c : AuthCall) : option string * AS :=
  match (if auRedisFails c 0 then None else redis_get (asRedis s) (auNow c) (reset_key token)) with
  | None => (Some "invalid or expired reset token", s)
  | Some v =>
      match user_of (GetUserByID (asDB s) (auOrd c) (rvalue_text v) (auFail c 0)) with
      | Err e => (Some e, s)
      | Ok u =>
          match store_password s u newPassword c with
          | Err e => (Some e, s)
          | Ok s' => (None, r_del c 1 s' (reset_key token))
          end
      end
  end.

(** *** Placeholders of the code *)

Definition GetOAuthURL (provider : string) : string :=
  "https://oauth.provider.com/authorize?client_id=xxx&provider=" +:+ provider.
Definition HandleOAuthCallback (provider code : string) : result (Tokens * option User) :=
  Ok ({| tkAccessToken := "mock-oauth-token"; tkRefreshToken := "mock-oauth-refresh"; tkExpiresIn := 3600 |}, None).
Definition Setup2FA (userID : string) : result (string * string) :=
  Ok ("mock-2fa-secret", "data:image/png;base64,mock-qr-code").
Definition Verify2FA (userID code : string) : option string := None.
Definition Disable2FA (userID password : string) : option string := None.

(** *** Roles *)

(** The change of a role, once the user is found. *)
Definition change_role (s : AS) (userID role : string) (change : B → result B) (what type : string) (c : AuthCall) :
    option string * AS :=
  match user_of (GetUserByID (asDB s) (auOrd c) userID (auFail c 0)) with
  | Err _ => (Some "user not found", s)
  | Ok _ =>
      match asRbac s with
      | None => (None, s)
      | Some b => match change b with
                  | Err e => (Some ("failed to " +:+ what +:+ " role: " +:+ e), s)
                  | Ok b' => (None, emit c (with_rbac s (Some b')) type userID [("role", VStr role)])
                  end
      end
  end.
Definition AssignRole (s : AS) (userID role : string) (c : AuthCall) : option string * AS :=
  change_role s userID role (λ b, rb_add b userID role) "assign" "user.role.assigned" c.
Definition RemoveRole (s : AS) (userID role : string) (c : AuthCall) : option string * AS :=
  change_role s userID role (λ b, rb_remove b userID role) "remove" "user.role.removed" c.

Definition GetUserRoles (s : AS) (userID : string) (c : AuthCall) : result (list string) :=
  match user_of (GetUserByID (asDB s) (auOrd c) userID (auFail c 0)) with
  | Err _ => Err "user not found"
  | Ok _ =>
      match asRbac s with
      | Some b => rb_roles b userID
      | None => Ok match (GetUserByID (asDB s) (auOrd c) userID (auFail c 1)).1 with
                   | Some u => GetRoleNames u
                   | None => []
                   end
      end
  end.
Definition GetAllRoles (s : AS) : list string :=
  match asRbac s with
  | Some b => rb_all b
  | None => [RoleSuperAdmin; RoleAdmin; RoleUser; RoleViewer]
  end.
Definition GetUsersForRole (s : AS) (role : string) : result (list string) :=
  match asRbac s with Some b => rb_users b role | None => Ok [] end.

Definition CheckPermission (s : AS) (userID resource action : string) (c : AuthCall) : result bool :=
  match asRbac s with
  | Some b => rb_check b userID resource action
  | None =>
      match user_of (GetUserByID (asDB s) (auOrd c) userID (auFail c 0)) with
      | Err e => Err e
      | Ok u => if HasRole u "super_admin" || HasRole u "admin" then Ok true else Ok (HasPermission u resource action)
      end
  end.

(** *** The service as a machine *)

Inductive AuthOp :=
| AoRegister (email password firstName lastName : string)
| AoLogin (email password ipAddress userAgent : string) (pord : list string)
| AoRefresh (refreshToken : string) (pord : list string)
| AoLogout (userID token : string)
| AoRevoke (userID sessionID : string)
| AoRevokeAll (userID : string)
| AoValidate (token : string)
| AoProfile (userID : string) (updates : vmap)
| AoPassword (userID oldPassword newPassword : string)
| AoVerify (token : string)
| AoForgot (email : string)
| AoReset (token newPassword : string)
| AoAssign (userID role : string)
| AoRemove (userID role : string).

Definition auth_run (op : AuthOp) (c : AuthCall) (s : AS) : AS :=
  match op with
  | AoRegister e p f l => (Register s e p f l c).2
  | AoLogin e p i ua o => (Login s e p i ua o c).2
  | AoRefresh t o => (RefreshToken s t o c).2
  | AoLogout u t => (Logout s u t c).2
  | AoRevoke u i => (RevokeSession s u i c).2
  | AoRevokeAll u => (RevokeAllSessions s u c).2
  | AoValidate t => (ValidateSession s t c).2
  | AoProfile u m => (UpdateProfile s u m c).2
  | AoPassword u o n => (ChangePassword s u o n c).2
  | AoVerify t => (VerifyEmail s t c).2
  | AoForgot e => ForgotPassword s e c
  | AoReset t n => (ResetPassword s t n c).2
  | AoAssign u r => (AssignRole s u r c).2
  | AoRemove u r => (RemoveRole s u r c).2
  end.

(** ** Lemmas on the keys *)

Lemma emit_db c s type id p : asDB (emit c s type id p) = asDB s.
Proof. unfold emit. by destruct (auBusFails c). Qed.
Lemma emit_redis c s type id p : asRedis (emit c s type id p) = asRedis s.
Proof. unfold emit. by destruct (auBusFails c). Qed.
Lemma r_set_db c k s key val ttl : asDB (r_set c k s key val ttl) = asDB s.
Proof. unfold r_set. by destruct (auRedisFails c k). Qed.
Lemma r_set_ne c k s key val ttl key' : key ≠ key' → asRedis (r_set c k s key val ttl) !! key' = asRedis s !! key'.
Proof. intros. unfold r_set. destruct (auRedisFails c k); [done|]. simpl. by apply redis_setex_ne. Qed.
Lemma r_del_db c k s key : asDB (r_del c k s key) = asDB s.
Proof. unfold r_del. by destruct (auRedisFails c k). Qed.
Lemma r_del_ne c k s key key' : key ≠ key' → asRedis (r_del c k s key) !! key' = asRedis s !! key'.
Proof. intros. unfold r_del. destruct (auRedisFails c k); [done|]. simpl. by apply redis_del_ne. Qed.
Lemma track_db s email ip c : asDB (trackFailedLogin s email ip c) = asDB s.
Proof.
  unfold trackFailedLogin. destruct (if auRedisFails c 1 then _ else _) as [n r]. rewrite emit_db.
  case_bool_decide; by rewrite ?emit_db, ?r_set_db.
Qed.
Lemma track_ne s email ip c key :
  attempt_key email ≠ key → lock_key email ≠ key → asRedis (trackFailedLogin s email ip c) !! key = asRedis s !! key.
Proof.
  intros Ha Hl. unfold trackFailedLogin.
  assert (∀ n r, (if auRedisFails c 1 then (0%Z, asRedis s)
             else default (0%Z, asRedis s) (redis_incr (asRedis s) (auNow c) (attempt_key email))) = (n, r) → r !! key = asRedis s !! key) as Hr.
  { intros n r. destruct (auRedisFails c 1); [by intros [= <- <-]|].
    destruct (redis_incr _ _ _) as [[n' r']|] eqn:E; simpl; intros [= <- <-]; [by eapply redis_incr_ne|done]. }
  destruct (if auRedisFails c 1 then _ else _) as [n r]. specialize (Hr n r eq_refl). rewrite emit_redis.
  assert ((if bool_decide (n = 1%Z) && negb (auRedisFails c 2) then redis_expire r (auNow c) (attempt_key email) (15 * Minute) else r) !! key
          = asRedis s !! key) as Hx.
  { rewrite <- Hr. destruct (_ && _); [by apply redis_expire_ne|done]. }
  destruct (bool_decide (maxAttempts ≤ n)%Z); [rewrite emit_redis, r_set_ne by done|]; exact Hx.
Qed.

(** Keys of the different kinds differ by their first letters. *)
Lemma attempt_not_blacklist email t : attempt_key email ≠ blacklist_key t.
Proof. done. Qed.
Lemma lock_not_blacklist email t : lock_key email ≠ blacklist_key t.
Proof. done. Qed.
Lemma reset_not_blacklist x t : reset_key x ≠ blacklist_key t.
Proof. done. Qed.
Lemma refresh_key_blacklist t : refresh_key t = blacklist_key ("refresh:" +:+ t).
Proof. done. Qed.

(** Logging out never succeeds: the condition names a column that the table
    does not have. *)
Lemma Logout_fails s userID token c : (Logout s userID token c).2 = s ∧ is_Some (Logout s userID token c).1.
Proof. unfold Logout, DeleteSession, try. destruct (auFail c 0 _); simpl; split; by eauto. Qed.

(** Neither does validating a session. *)
Lemma ValidateSession_fails s token c : (ValidateSession s token c).2 = s ∧ ∃ e, (ValidateSession s token c).1 = Err e.
Proof.
  unfold ValidateSession, GetSession, try. destruct (r_exists _ _ _ _); [by eauto|]. destruct (auFail c 0 _); simpl; split; by eauto.
Qed.

(** What a call can do to a key of the blacklist: nothing, or write it again. *)
Definition rewrites (now : Z) (r r' : redis) (t : string) : Prop :=
  r' !! blacklist_key t = r !! blacklist_key t
  ∨ ∃ ttl, (ttl = 24 * Hour ∨ ttl = 7 * (24 * Hour))%Z ∧ r' !! blacklist_key t = Some (RText "1", Some (now + ttl)%Z).

Lemma rewrites_refl now r t : rewrites now r r t.
Proof. by left. Qed.
Lemma rewrites_trans now r1 r2 r3 t : rewrites now r1 r2 t → rewrites now r2 r3 t → rewrites now r1 r3 t.
Proof. intros [H1|H1] [H2|H2]; [left; congruence|by right|right|by right]. destruct H1 as (ttl & Ht & E). exists ttl. by rewrite H2. Qed.
Lemma r_set_rewrites c k s t' ttl t :
  (ttl = 24 * Hour ∨ ttl = 7 * (24 * Hour))%Z → rewrites (auNow c) (asRedis s) (asRedis (r_set c k s (blacklist_key t') "1" ttl)) t.
Proof.
  intros Ht. unfold r_set. destruct (auRedisFails c k); [by left|]. destruct (decide (t' = t)) as [->|Hne].
  - right. exists ttl. split; [done|]. simpl. unfold redis_setex. by rewrite lookup_insert_eq.
  - left. apply redis_setex_ne. intros H. apply Hne. by injection H.
Qed.
Lemma revoke_rewrites c s kx t : rewrites (auNow c) (asRedis s) (asRedis (revoke_token c s kx)) t.
Proof. unfold revoke_token. case_bool_decide; [by left|]. apply r_set_rewrites. by left. Qed.
Lemma revoke_all_rewrites c l s t : rewrites (auNow c) (asRedis s) (asRedis (foldl (revoke_token c) s l)) t.
Proof.
  revert s. induction l as [|kx l IH]; intros s; simpl; [by left|].
  eapply rewrites_trans; [apply revoke_rewrites|apply IH].
Qed.

(** Calls that leave Redis alone. *)
Lemma store_password_redis s u p c s' : store_password s u p c = Ok s' → asRedis s' = asRedis s.
Proof. unfold store_password. destruct (SetPassword _ _ _); [|done]. by destruct (UpdateUser _ _ _ _); intros [= <-]. Qed.
Lemma Register_redis s e p f l c : asRedis (Register s e p f l c).2 = asRedis s.
Proof.
  unfold Register. destruct (_.1); [done|]. destruct (NewUser _ _ _ _ _); [|done]. destruct (CreateUser _ _ _); [|done]. simpl.
  destruct (asRbac _); [|by rewrite emit_redis]. destruct (rb_add _ _ _); simpl; by rewrite emit_redis.
Qed.
Lemma change_role_redis s u r f w t c : asRedis (change_role s u r f w t c).2 = asRedis s.
Proof.
  unfold change_role. destruct (user_of _); [|done]. destruct (asRbac s); [|done]. destruct (f _); [|done]. simpl. by rewrite emit_redis.
Qed.
Lemma UpdateProfile_redis s u m c : asRedis (UpdateProfile s u m c).2 = asRedis s.
Proof. unfold UpdateProfile. destruct (user_of _); [|done]. destruct (UpdateUser _ _ _ _); [|done]. simpl. by rewrite emit_redis. Qed.
Lemma VerifyEmail_redis s t c : asRedis (VerifyEmail s t c).2 = asRedis s.
Proof.
  unfold VerifyEmail. destruct (user_of _); [|done]. destruct (usEmailVerified _); [done|].
  destruct (UpdateUser _ _ _ _); [|done]. simpl. by rewrite emit_redis.
Qed.
Lemma ChangePassword_redis s u o n c : asRedis (ChangePassword s u o n c).2 = asRedis s.
Proof.
  unfold ChangePassword. destruct (user_of _); [|done]. destruct (negb _); [done|].
  destruct (store_password _ _ _ _) eqn:E; [|done]. by apply store_password_redis in E.
Qed.

(** A login writes its two keys only. *)
Lemma Login_ne s e p i ua o c key :
  attempt_key e ≠ key → lock_key e ≠ key → asRedis (Login s e p i ua o c).2 !! key = asRedis s !! key.
Proof.
  intros Ha Hl. unfold Login. destruct (r_exists _ _ _ _); [done|].
  destruct (GetUserByEmail _ _ _ _) as [[u|] [err|]]; try by apply track_ne.
  destruct (negb (CheckPassword _ _)); [by apply track_ne|].
  destruct (negb (usEmailVerified u)); [by apply r_del_ne|]. destruct (negb _); [by apply r_del_ne|].
  destruct (GenerateToken _ _ _ _ _ _ _ _ _); [|by apply r_del_ne].
  destruct (GenerateRefreshToken _ _ _ _ _ _); [|by apply r_del_ne].
  destruct (CreateSession _ _ _); [|by apply r_del_ne]. simpl. rewrite emit_redis. simpl. by apply r_del_ne.
Qed.

(** A refresh writes nothing, or the key of its token. *)
Lemma RefreshToken_redis s t o c :
  asRedis (RefreshToken s t o c).2 = asRedis s
  ∨ asRedis (RefreshToken s t o c).2 = asRedis (r_set c 1 s (refresh_key t) "1" (7 * (24 * Hour))).
Proof.
  unfold RefreshToken. destruct (r_exists _ _ _ _); [by left|]. destruct (ValidateRefreshToken _ _ _ _ _); [|by left].
  destruct (user_of _); [|by left]. destruct (negb _); [by left|]. destruct (GenerateToken _ _ _ _ _ _ _ _ _); [|by left].
  destruct (GenerateRefreshToken _ _ _ _ _ _); [|by left]. simpl. rewrite emit_redis. by right.
Qed.

Lemma RefreshToken_rewrites s t' o c t : rewrites (auNow c) (asRedis s) (asRedis (RefreshToken s t' o c).2) t.
Proof. destruct (RefreshToken_redis s t' o c) as [->| ->]; [by left|]. apply r_set_rewrites. by right. Qed.

Lemma RevokeSession_rewrites s u i c t : rewrites (auNow c) (asRedis s) (asRedis (RevokeSession s u i c).2) t.
Proof.
  unfold RevokeSession. destruct (GetSessionByID _ _ _ _); [|by left]. destruct (negb _); [by left|].
  destruct (DeleteSessionByID _ _ _); simpl; rewrite ?emit_redis; apply revoke_rewrites.
Qed.
Lemma RevokeAllSessions_rewrites s u c t : rewrites (auNow c) (asRedis s) (asRedis (RevokeAllSessions s u c).2) t.
Proof.
  unfold RevokeAllSessions. destruct (DeleteUserSessions _ _ _); simpl; rewrite ?emit_redis; simpl;
    (destruct (GetUserSessions _ _ _ _ _); [apply revoke_all_rewrites|by left]).
Qed.
Lemma ResetPassword_ne s tok n c key : reset_key tok ≠ key → asRedis (ResetPassword s tok n c).2 !! key = asRedis s !! key.
Proof.
  intros Hne. unfold ResetPassword. destruct (if auRedisFails c 0 then _ else _); [|done]. destruct (user_of _); [|done].
  destruct (store_password _ _ _ _) eqn:E; [|done]. simpl. rewrite r_del_ne by done. by rewrite (store_password_redis _ _ _ _ _ E).
Qed.

(** No call shortens the life of a blacklisted token below a day from now. *)
Lemma run_rewrites op c s t : rewrites (auNow c) (asRedis s) (asRedis (auth_run op c s)) t.
Proof.
  destruct op; cbn [auth_run].
  - left. by rewrite Register_redis.
  - left. by apply Login_ne.
  - apply RefreshToken_rewrites.
  - left. by rewrite (proj1 (Logout_fails _ _ _ _)).
  - apply RevokeSession_rewrites.
  - apply RevokeAllSessions_rewrites.
  - left. by rewrite (proj1 (ValidateSession_fails _ _ _)).
  - left. by rewrite UpdateProfile_redis.
  - left. by rewrite ChangePassword_redis.
  - left. by rewrite VerifyEmail_redis.
  - left. unfold ForgotPassword. destruct (user_of _); [|done]. by apply r_set_ne.
  - left. by apply ResetPassword_ne.
  - left. by unfold AssignRole; rewrite change_role_redis.
  - left. by unfold RemoveRole; rewrite change_role_redis.
Qed.

(** Calls in the order of time. *)
Inductive later_calls (t : Z) : AS → AS → Prop :=
| lc_done s : later_calls t s s
| lc_call s op c s' : (t ≤ auNow c)%Z → later_calls (auNow c) (auth_run op c s) s' → later_calls t s s'.

(** The token is on the blacklist until [e] at least. *)
Definition blacklisted_until (s : AS) (tok : string) (e : Z) : Prop :=
  ∃ v e', asRedis s !! blacklist_key tok = Some (v, Some e') ∧ (e ≤ e')%Z.

Lemma blacklist_stays t s s' tok e :
  later_calls t s s' → blacklisted_until s tok e → (e ≤ t + 24 * Hour)%Z → blacklisted_until s' tok e.
Proof.
  intros Hl. induction Hl as [t s|t s op c s' Ht Hl IH]; intros Hb He; [done|]. apply IH; [|lia].
  destruct (run_rewrites op c s tok) as [Hr|(ttl & Httl & Hr)].
  - unfold blacklisted_until. by rewrite Hr.
  - exists (RText "1"), (auNow c + ttl)%Z. split; [done|]. unfold Hour, Minute, Second in *. lia.
Qed.

Lemma blacklisted_exists s tok e now :
  blacklisted_until s tok e → (now < e)%Z → redis_exists (asRedis s) now (blacklist_key tok) = true.
Proof.
  intros (v & e' & E & He) Hn. unfold redis_exists, redis_get, lives. rewrite E, bool_decide_true by lia. done.
Qed.

(** ** Login *)

(** An attempt that does not know the password. *)
Definition wrong (s : AS) (email password : string) (c : AuthCall) : Prop :=
  match GetUserByEmail (asDB s) (auOrd c) email (auFail c 0) with
  | (Some u, None) => CheckPassword u password = false
  | _ => True
  end.

Lemma wrong_login s email password ip ua o c :
  wrong s email password c →
  Login s email password ip ua o c =
  if r_exists c 0 s (lock_key email) then (Err ErrLocked, s) else (Err ErrCredentials, trackFailedLogin s email ip c).
Proof.
  unfold wrong, Login. destruct (r_exists _ _ _ _); [done|].
  destruct (GetUserByEmail _ _ _ _) as [[u|] [err|]]; [done| |done..]. by intros ->.
Qed.

Record attempt := {
  atPassword : string;
  atIP : string;
  atAgent : string;
  atOrd : list string;
  atCall : AuthCall
}.
(** The answers to a sequence of attempts, and the state after them. *)
Fixpoint login_attempts (s : AS) (email : string) (l : list attempt) : list (result (Tokens * User)) * AS :=
  match l with
  | [] => ([], s)
  | a :: l' =>
      let '(r, s') := Login s email (atPassword a) (atIP a) (atAgent a) (atOrd a) (atCall a) in
      let '(rs, s'') := login_attempts s' email l' in (r :: rs, s'')
  end.

(** Within the window from [t0] the counter stands at [k] and no lock is live. *)
Definition counted (email : string) (t0 : Z) (k : nat) (s : AS) : Prop :=
  (∀ t, (t0 ≤ t)%Z → redis_get (asRedis s) t (lock_key email) = None)
  ∧ counter_at (asRedis s) (attempt_key email) t0 (15 * Minute) k.

Lemma attempt_not_lock email : attempt_key email ≠ lock_key email.
Proof. done. Qed.

(** A failed attempt with Redis working: the new count. *)
Lemma track_counts s email ip c t0 k :
  (∀ i, auRedisFails c i = false) → (t0 ≤ auNow c < t0 + 15 * Minute)%Z → counted email t0 k s →
  let s' := trackFailedLogin s email ip c in
  counter_at (asRedis s') (attempt_key email) t0 (15 * Minute) (S k)
  ∧ asRedis s' !! lock_key email = if bool_decide (5 ≤ S k) then Some (RText "1", Some (auNow c + 15 * Minute)%Z)
                                   else asRedis s !! lock_key email.
Proof.
  intros Hr Ht [Hl Hk]. unfold trackFailedLogin. rewrite !Hr. cbn [negb].
  destruct (counter_step _ _ _ _ _ _ Hk Ht) as (r1 & -> & HR & Hne). cbn [default from_option id]. rewrite andb_true_r, emit_redis.
  set (R := if bool_decide (Z.of_nat (S k) = 1%Z) then _ else r1) in *.
  assert (R !! lock_key email = asRedis s !! lock_key email) as HRl by by apply Hne.
  unfold maxAttempts. destruct (decide (5 ≤ S k)) as [H5|H5].
  - rewrite (bool_decide_true (5 ≤ Z.of_nat (S k))%Z), (bool_decide_true (5 ≤ S k)) by lia. rewrite emit_redis. unfold r_set. rewrite Hr.
    cbn [asRedis with_redis]. split.
    + eapply counter_at_ext; [|exact HR]. by rewrite redis_setex_ne.
    + unfold redis_setex. by rewrite lookup_insert_eq.
  - rewrite (bool_decide_false (5 ≤ Z.of_nat (S k))%Z), (bool_decide_false (5 ≤ S k)) by lia. done.
Qed.

(** One more attempt in the window. *)
Lemma attempt_step s email t0 k a :
  counted email t0 k s → k < 5 → (∀ i, auRedisFails (atCall a) i = false) →
  (t0 ≤ auNow (atCall a) < t0 + 15 * Minute)%Z → wrong s email (atPassword a) (atCall a) →
  ∃ s', Login s email (atPassword a) (atIP a) (atAgent a) (atOrd a) (atCall a) = (Err ErrCredentials, s')
    ∧ asDB s' = asDB s
    ∧ if decide (k = 4) then asRedis s' !! lock_key email = Some (RText "1", Some (auNow (atCall a) + 15 * Minute)%Z)
      else counted email t0 (S k) s'.
Proof.
  intros Hc Hk Hr Ht Hw. destruct (track_counts s email (atIP a) (atCall a) t0 k Hr Ht Hc) as [Ha Hl].
  exists (trackFailedLogin s email (atIP a) (atCall a)). rewrite wrong_login by done. unfold r_exists, redis_exists.
  rewrite (proj1 Hc) by lia. rewrite andb_false_r. split_and!; [done|apply track_db|].
  destruct (decide (k = 4)) as [->|Hne]; [by rewrite bool_decide_true in Hl by lia|].
  rewrite bool_decide_false in Hl by lia. split; [|done].
  intros t Ht'. rewrite <- (proj1 Hc t Ht'). by apply redis_get_ext.
Qed.

(** A locked account, until [e]. *)
Definition locked_until (s : AS) (email : string) (e : Z) : Prop :=
  ∃ v, asRedis s !! lock_key email = Some (v, Some e).

Lemma locked_login s email e password ip ua o c :
  locked_until s email e → (auNow c < e)%Z → auRedisFails c 0 = false →
  Login s email password ip ua o c = (Err ErrLocked, s).
Proof.
  intros [v E] Hn Hr. unfold Login, r_exists, redis_exists, redis_get, lives. rewrite E, Hr, bool_decide_true by done. done.
Qed.

Lemma locked_attempts s email e l :
  locked_until s email e → Forall (λ a, (auNow (atCall a) < e)%Z ∧ auRedisFails (atCall a) 0 = false) l →
  login_attempts s email l = (replicate (length l) (Err ErrLocked), s).
Proof.
  intros Hl H. induction H as [|a l [Hn Hr] _ IH]; [done|]. simpl. rewrite (locked_login _ _ e) by done. by rewrite IH.
Qed.

(** The attempts of someone who does not know the password, in a window. *)
Definition guessing (s : AS) (email : string) (t0 : Z) (a : attempt) : Prop :=
  (∀ i, auRedisFails (atCall a) i = false) ∧ (t0 ≤ auNow (atCall a) < t0 + 15 * Minute)%Z
  ∧ wrong s email (atPassword a) (atCall a).

Lemma wrong_ext s s' email password c : asDB s' = asDB s → wrong s email password c → wrong s' email password c.
Proof. unfold wrong. by intros ->. Qed.

Lemma attempts_from s email t0 k l :
  counted email t0 k s → k < 5 → Forall (guessing s email t0) l →
  ∃ s', login_attempts s email l
        = (replicate (length l `min` (5 - k)) (Err ErrCredentials) ++ replicate (length l - (5 - k)) (Err ErrLocked), s')
    ∧ asDB s' = asDB s
    ∧ ∀ a, l !! (4 - k) = Some a → locked_until s' email (auNow (atCall a) + 15 * Minute).
Proof.
  revert s k. induction l as [|a l IH]; intros s k Hc Hk Hf.
  { exists s. simpl. done. }
  apply Forall_cons in Hf as [(Hr & Ht & Hw) Hf]. destruct (attempt_step s email t0 k a Hc Hk Hr Ht Hw) as (s1 & E & Ed & Hs).
  assert (Forall (guessing s1 email t0) l) as Hf1.
  { eapply Forall_impl; [done|]. intros b (B1 & B2 & B3). split; [done|]. split; [done|by eapply wrong_ext]. }
  cbn [login_attempts]. rewrite E. destruct (decide (k = 4)) as [->|Hne].
  - rewrite (locked_attempts s1 email (auNow (atCall a) + 15 * Minute)).
    + exists s1. split_and!; [|done|].
      * simpl. rewrite Nat.sub_0_r. by destruct (length l).
      * intros b [= <-]. by eexists.
    + by eexists.
    + eapply Forall_impl; [exact Hf|]. intros b (B1 & B2 & _). split; [lia|done].
  - destruct (IH s1 (S k) Hs ltac:(lia) Hf1) as (s2 & E2 & Ed2 & Hlk). rewrite E2. exists s2. split_and!; [|congruence|].
    + replace (5 - k) with (S (5 - S k)) by lia. simpl length. rewrite <- Nat.succ_min_distr. done.
    + intros b Hb. apply Hlk. replace (4 - k) with (S (4 - S k)) in Hb by lia. exact Hb.
Qed.

(** C19. Guessing is bounded: of any number of attempts with a wrong password on
    an account, one after another, exactly the first five reach the password
    check and all others are refused; after the fifth, every login of the
    account, with the right password too, is refused and changes nothing until
    fifteen minutes later, and no user or session is touched.  Conditions: the
    attempts begin with no lock and no failure counted for the account, they
    fall within fifteen minutes of that, and Redis answers: the counter
    expires fifteen minutes after its first failure, so attempts spread over
    two windows are counted anew, and a failing Redis counts nothing. *)
Theorem login_lockout s email t0 l :
  counted email t0 0 s → Forall (guessing s email t0) l →
  ∃ s', login_attempts s email l
        = (replicate (length l `min` 5) (Err ErrCredentials) ++ replicate (length l - 5) (Err ErrLocked), s')
    ∧ asDB s' = asDB s
    ∧ ∀ a password ip ua o c, l !! 4 = Some a → (auNow c < auNow (atCall a) + 15 * Minute)%Z → auRedisFails c 0 = false →
        Login s' email password ip ua o c = (Err ErrLocked, s').
Proof.
  intros Hc Hf. destruct (attempts_from s email t0 0 l Hc ltac:(lia) Hf) as (s' & E & Ed & Hl).
  exists s'. split; [done|]. split; [done|]. intros a password ip ua o c Ha Hn Hr. eapply locked_login; [by apply Hl|done..].
Qed.

(** ** Refreshing *)

Lemma RefreshToken_ok s tok o c tokens s' :
  RefreshToken s tok o c = (Ok tokens, s') →
  r_exists c 0 s (refresh_key tok) = false
  ∧ (∃ uid u, ValidateRefreshToken parse verify mgr tok (auNow c) = Ok uid
       ∧ user_of (GetUserByID (asDB s) (auOrd c) uid (auFail c 0)) = Ok u ∧ usStatus u = UserActive
       ∧ GenerateToken sign mgr (usID u) (usEmail u) (login_roles s u) (GetPermissions u o) (auNow c) (auNow c) (auUuid c 0)
         = Ok (tkAccessToken tokens)
       ∧ GenerateRefreshToken sign mgr (usID u) (auNow c) (auNow c) (auUuid c 1) = Ok (tkRefreshToken tokens))
  ∧ (auRedisFails c 1 = false → asRedis s' !! refresh_key tok = Some (RText "1", Some (auNow c + 7 * (24 * Hour))%Z))
  ∧ asDB s' = asDB s.
Proof.
  unfold RefreshToken. destruct (r_exists _ _ _ _) eqn:Ex; [done|].
  destruct (ValidateRefreshToken _ _ _ _ _) as [uid|] eqn:Ev; [|done].
  destruct (user_of _) as [u|] eqn:Eu; [|done]. case_bool_decide as Hs; [|done]. simpl.
  destruct (GenerateToken _ _ _ _ _ _ _ _ _) as [at_|] eqn:Ea; [|done].
  destruct (GenerateRefreshToken _ _ _ _ _ _) as [rt|] eqn:Er; [|done]. intros [= <- <-]. simpl.
  rewrite emit_redis, emit_db, r_set_db. split_and!; [done| | |done]; [by exists uid, u|].
  intros Hr. unfold r_set. rewrite Hr. simpl. unfold redis_setex. by rewrite lookup_insert_eq.
Qed.

(** The tokens on the blacklist of refresh tokens: only refreshing writes them,
    as long as no session's own token looks like one. *)
Definition no_refresh_session (s : AS) : Prop :=
  ∀ i x t, adSessions (asDB s) !! i = Some x → seToken x ≠ "refresh:" +:+ t.

Definition keeps_refresh (now : Z) (r r' : redis) (t : string) : Prop :=
  r' !! refresh_key t = r !! refresh_key t ∨ r' !! refresh_key t = Some (RText "1", Some (now + 7 * (24 * Hour))%Z).

Lemma revoke_token_other c s kx t :
  seToken kx.2 ≠ t → asRedis (revoke_token c s kx) !! blacklist_key t = asRedis s !! blacklist_key t.
Proof.
  intros Hne. unfold revoke_token. case_bool_decide; [done|]. apply r_set_ne. intros Hk. apply Hne. by injection Hk.
Qed.

Lemma revoke_tokens_other c l s t :
  (∀ kx, kx ∈ l → seToken kx.2 ≠ t) →
  asRedis (foldl (revoke_token c) s l) !! blacklist_key t = asRedis s !! blacklist_key t.
Proof.
  revert s. induction l as [|kx l IH]; intros s H; simpl; [done|]. rewrite IH by set_solver. apply revoke_token_other. set_solver.
Qed.

Lemma listed_session db ord u now fail l x :
  GetUserSessions db ord u now fail = Ok l → x ∈ l → ∃ i, adSessions db !! i = Some x ∧ seUserID x = u ∧ (now < seExpiresAt x)%Z.
Proof.
  intros [= <-]%try_ok Hx. rewrite merge_sort_Permutation in Hx. apply rows_where_elem in Hx as (i & _ & Hi & Hc).
  exists i. split; [done|]. repeat case_bool_decide; naive_solver.
Qed.

Lemma imap_pair_elem {X} (l : list X) kx : kx ∈ imap pair l → kx.2 ∈ l.
Proof. intros (k & x & -> & H)%elem_of_lookup_imap. simpl. by eapply list_elem_of_lookup_2. Qed.

Lemma run_keeps_refresh op c s t :
  no_refresh_session s → keeps_refresh (auNow c) (asRedis s) (asRedis (auth_run op c s)) t.
Proof.
  intros Hn. destruct op; cbn [auth_run]; try (left; (by rewrite ?Register_redis, ?UpdateProfile_redis, ?ChangePassword_redis,
    ?VerifyEmail_redis) || by apply Login_ne || by apply ResetPassword_ne || by unfold AssignRole, RemoveRole; rewrite change_role_redis).
  - unfold keeps_refresh. destruct (RefreshToken_redis s refreshToken pord c) as [->| ->]; [by left|].
    destruct (decide (refreshToken = t)) as [->|Hne]; [|left; apply r_set_ne; intros Hk; apply Hne; by injection Hk].
    unfold r_set. destruct (auRedisFails c 1); [by left|]. right. simpl. unfold redis_setex. by rewrite lookup_insert_eq.
  - left. by rewrite (proj1 (Logout_fails _ _ _ _)).
  - left. unfold RevokeSession. destruct (GetSessionByID _ _ _ _) as [x|] eqn:E; [|done]. destruct (negb _); [done|].
    assert (seToken x ≠ "refresh:" +:+ t) as Hx.
    { unfold GetSessionByID in E. apply try_ok in E. unfold first_session in E. destruct (head _) as [y|] eqn:Eh; [|done].
      injection E as ->. apply head_Some_elem_of, rows_where_elem in Eh as (i & _ & Hi & _). by eapply Hn. }
    destruct (DeleteSessionByID _ _ _); simpl; rewrite ?emit_redis, refresh_key_blacklist;
      by apply (revoke_token_other c s (0, x)).
  - left. unfold RevokeAllSessions. destruct (DeleteUserSessions _ _ _); simpl; rewrite ?emit_redis; simpl;
      (destruct (GetUserSessions _ _ _ _ _) as [l|] eqn:E; [|done]); rewrite refresh_key_blacklist;
      apply revoke_tokens_other;
      intros kx Hx%imap_pair_elem; destruct (listed_session _ _ _ _ _ _ _ E Hx) as (i & Hi & _); by eapply Hn.
  - left. by rewrite (proj1 (ValidateSession_fails _ _ _)).
  - left. unfold ForgotPassword. destruct (user_of _); [|done]. by apply r_set_ne.
Qed.

(** Sessions are created by logins only, with a signed token. *)
Lemma UpdateUser_sessions db u now fail db' : UpdateUser db u now fail = Ok db' → adSessions db' = adSessions db.
Proof. by intros [= <-]%try_ok. Qed.
Lemma store_password_sessions s u p c s' : store_password s u p c = Ok s' → adSessions (asDB s') = adSessions (asDB s).
Proof.
  unfold store_password. destruct (SetPassword _ _ _); [|done]. destruct (UpdateUser _ _ _ _) eqn:E; [|done].
  intros [= <-]. by apply UpdateUser_sessions in E.
Qed.

(** The sessions after a call are sessions from before, or the one of a login. *)
Definition new_session (x : Session) (now : Z) : Prop :=
  seCreatedAt x = now ∧ seExpiresAt x = (now + 7 * (24 * Hour))%Z
  ∧ ∃ u e roles perms uuid, seUserID x = u ∧ GenerateToken sign mgr u e roles perms now now uuid = Ok (seToken x).

Lemma Login_sessions s e p i ua o c id x :
  adSessions (asDB (Login s e p i ua o c).2) !! id = Some x →
  adSessions (asDB s) !! id = Some x ∨ new_session x (auNow c).
Proof.
  unfold Login. destruct (r_exists _ _ _ _); [by left|].
  destruct (GetUserByEmail _ _ _ _) as [[u|] [err|]]; try (cbn [snd]; rewrite track_db; by left).
  destruct (negb (CheckPassword _ _)); [cbn [snd]; rewrite track_db; by left|].
  destruct (negb (usEmailVerified u)); [cbn [snd]; rewrite r_del_db; by left|]. destruct (negb _); [cbn [snd]; rewrite r_del_db; by left|].
  destruct (GenerateToken _ _ _ _ _ _ _ _ _) as [at_|] eqn:Ea; [|cbn [snd]; rewrite r_del_db; by left].
  destruct (GenerateRefreshToken _ _ _ _ _ _); [|cbn [snd]; rewrite r_del_db; by left].
  destruct (CreateSession _ _ _) as [db|] eqn:Ec; [|cbn [snd]; rewrite r_del_db; by left]. simpl. rewrite emit_db. simpl.
  unfold CreateSession in Ec. apply try_ok in Ec. rewrite r_del_db in Ec. destruct (_ || _); [done|]. injection Ec as <-.
  intros Hx. assert (∀ db u' r, UpdateUser db u' (auNow c) (auFail c 2) = r →
    adSessions (match r with Ok db' => db' | Err _ => db end) = adSessions db) as Hs.
  { intros db u' [db'|] Eu; [by apply UpdateUser_sessions in Eu|done]. }
  rewrite (Hs _ _ _ eq_refl) in Hx. simpl in Hx. revert Hx. intros [[_ <-]|[_ Hx]]%lookup_insert_Some; [right|by left]. split_and!; [done..|]. simpl. by eauto 10.
Qed.

Lemma drop_sessions_sub db f id x : adSessions (drop_sessions db f) !! id = Some x → adSessions db !! id = Some x ∧ f x = false.
Proof. simpl. rewrite map_lookup_filter_Some. done. Qed.

Lemma revoke_token_db c s kx : asDB (revoke_token c s kx) = asDB s.
Proof. unfold revoke_token. case_bool_decide; [done|]. apply r_set_db. Qed.
Lemma revoke_tokens_db c l s : asDB (foldl (revoke_token c) s l) = asDB s.
Proof. revert s. induction l as [|kx l IH]; intros s; simpl; [done|]. by rewrite IH, revoke_token_db. Qed.

Lemma run_sessions op c s id x :
  adSessions (asDB (auth_run op c s)) !! id = Some x → adSessions (asDB s) !! id = Some x ∨ new_session x (auNow c).
Proof.
  destruct op; cbn [auth_run]; try by apply Login_sessions.
  - unfold Register. destruct (_.1); [by left|]. destruct (NewUser _ _ _ _ _); [|by left].
    destruct (CreateUser _ _ _) as [db|] eqn:E; [|by left]. unfold CreateUser in E. apply try_ok in E.
    destruct (_ || _); [done|]. injection E as <-. simpl.
    destruct (asRbac _); [destruct (rb_add _ _ _)|]; simpl; rewrite emit_db; by left.
  - unfold RefreshToken. destruct (r_exists _ _ _ _); [by left|]. destruct (ValidateRefreshToken _ _ _ _ _); [|by left].
    destruct (user_of _); [|by left]. destruct (negb _); [by left|]. destruct (GenerateToken _ _ _ _ _ _ _ _ _); [|by left].
    destruct (GenerateRefreshToken _ _ _ _ _ _); [|by left]. simpl. rewrite emit_db, r_set_db. by left.
  - rewrite (proj1 (Logout_fails _ _ _ _)). by left.
  - unfold RevokeSession. destruct (GetSessionByID _ _ _ _); [|by left]. destruct (negb _); [by left|].
    destruct (DeleteSessionByID _ _ _) as [db|] eqn:E; simpl; rewrite ?emit_db, ?revoke_token_db; [|by left].
    unfold DeleteSessionByID in E. apply try_ok in E. injection E as <-. simpl. rewrite revoke_token_db.
    intros [Hx _]%map_lookup_filter_Some. by left.
  - unfold RevokeAllSessions. set (s1 := match GetUserSessions _ _ _ _ _ with Ok _ => _ | Err _ => _ end).
    assert (asDB s1 = asDB s) as Hs1 by (subst s1; destruct (GetUserSessions _ _ _ _ _); [apply revoke_tokens_db|done]).
    destruct (DeleteUserSessions _ _ _) as [db|] eqn:E; simpl; [rewrite emit_db; simpl|rewrite Hs1; by left].
    unfold DeleteUserSessions in E. apply try_ok in E. injection E as <-. intros [Hx _]%map_lookup_filter_Some. rewrite Hs1 in Hx. by left.
  - rewrite (proj1 (ValidateSession_fails _ _ _)). by left.
  - unfold UpdateProfile. destruct (user_of _); [|by left]. destruct (UpdateUser _ _ _ _) eqn:E; [|by left]. simpl.
    rewrite emit_db. simpl. rewrite (UpdateUser_sessions _ _ _ _ _ E). by left.
  - unfold ChangePassword. destruct (user_of _); [|by left]. destruct (negb _); [by left|].
    destruct (store_password _ _ _ _) eqn:E; [|by left]. simpl. rewrite (store_password_sessions _ _ _ _ _ E). by left.
  - unfold VerifyEmail. destruct (user_of _); [|by left]. destruct (usEmailVerified _); [by left|].
    destruct (UpdateUser _ _ _ _) eqn:E; [|by left]. simpl. rewrite emit_db. simpl. rewrite (UpdateUser_sessions _ _ _ _ _ E). by left.
  - unfold ForgotPassword. destruct (user_of _); [|by left]. rewrite r_set_db. by left.
  - unfold ResetPassword. destruct (if auRedisFails c 0 then _ else _); [|by left]. destruct (user_of _); [|by left].
    destruct (store_password _ _ _ _) eqn:E; [|by left]. simpl. rewrite r_del_db, (store_password_sessions _ _ _ _ _ E). by left.
  - unfold AssignRole, change_role. destruct (user_of _); [|by left]. destruct (asRbac s); [|by left].
    destruct (rb_add _ _ _); [|by left]. simpl. rewrite emit_db. by left.
  - unfold RemoveRole, change_role. destruct (user_of _); [|by left]. destruct (asRbac s); [|by left].
    destruct (rb_remove _ _ _); [|by left]. simpl. rewrite emit_db. by left.
Qed.

(** The texts of the library are no refresh keys: they are encoded without
    colons. *)
Context (sign_text : ∀ alg key c s t, sign alg key c = Ok s → s ≠ "refresh:" +:+ t).

Lemma run_no_refresh_session op c s : no_refresh_session s → no_refresh_session (auth_run op c s).
Proof.
  intros Hn i x t Hx. destruct (run_sessions op c s i x Hx) as [H|(_ & _ & u & e & ro & pe & id & _ & Hg)]; [by eapply Hn|].
  unfold GenerateToken, signed in Hg. case_bool_decide; by eapply sign_text.
Qed.

Lemma used_refresh_stays t s s' tok e :
  later_calls t s s' → no_refresh_session s → (∃ v e', asRedis s !! refresh_key tok = Some (v, Some e') ∧ (e ≤ e')%Z) →
  (e ≤ t + 7 * (24 * Hour))%Z → ∃ v e', asRedis s' !! refresh_key tok = Some (v, Some e') ∧ (e ≤ e')%Z.
Proof.
  intros Hl. induction Hl as [t s|t s op c s' Ht Hl IH]; intros Hn Hb He; [done|].
  apply IH; [by apply run_no_refresh_session| |lia]. destruct (run_keeps_refresh op c s tok Hn) as [->| ->]; [done|].
  exists (RText "1"), (auNow c + 7 * (24 * Hour))%Z. split; [done|lia].
Qed.

(** C18. Refresh tokens rotate: a refresh succeeds only with a token that
    validates, for its user, who is active, and gives tokens of that user; and
    for seven days after it, whatever calls follow, the same token is refused
    by every call that reaches Redis, when the refresh itself did.  (A failing
    Redis reads as a token not used before, and a used token whose blacklisting
    failed is not refused.)  No session's access token starts with "refresh:",
    as no signed token does. *)
Theorem refresh_rotation s tok o c tokens s1 s2 :
  no_refresh_session s → RefreshToken s tok o c = (Ok tokens, s1) → later_calls (auNow c) s1 s2 →
  (∃ uid u, ValidateRefreshToken parse verify mgr tok (auNow c) = Ok uid
     ∧ user_of (GetUserByID (asDB s) (auOrd c) uid (auFail c 0)) = Ok u ∧ usStatus u = UserActive
     ∧ GenerateToken sign mgr (usID u) (usEmail u) (login_roles s u) (GetPermissions u o) (auNow c) (auNow c) (auUuid c 0)
       = Ok (tkAccessToken tokens)
     ∧ GenerateRefreshToken sign mgr (usID u) (auNow c) (auNow c) (auUuid c 1) = Ok (tkRefreshToken tokens))
  ∧ (auRedisFails c 1 = false → ∀ o' c', (auNow c' < auNow c + 7 * (24 * Hour))%Z → auRedisFails c' 0 = false →
      RefreshToken s2 tok o' c' = (Err "refresh token has already been used", s2)).
Proof.
  intros Hn E Hl. destruct (RefreshToken_ok _ _ _ _ _ _ E) as (_ & Hu & Hk & Hd). split; [done|]. intros Hr.
  assert (no_refresh_session s1) as Hn1 by (unfold no_refresh_session; by rewrite Hd).
  destruct (used_refresh_stays _ _ _ tok (auNow c + 7 * (24 * Hour)) Hl Hn1) as (v & e & Ek & He);
    [eexists _, _; split; [by apply Hk|done]|lia|].
  intros o' c' Ht Hr'. unfold RefreshToken, r_exists, redis_exists, redis_get, lives. rewrite Ek, Hr', bool_decide_true by lia. done.
Qed.

(** While Redis fails, a used refresh token is read as a new one. *)
Lemma broken_redis_forgets_use s r tok o c :
  (∀ k, auRedisFails c k = true) →
  (RefreshToken s tok o c).1 = (RefreshToken (with_redis s r) tok o c).1.
Proof.
  intros Hr. unfold RefreshToken, r_exists. rewrite Hr. simpl.
  destruct (ValidateRefreshToken _ _ _ _ _); [|done]. destruct (user_of _); [|done].
  destruct (negb _); [done|]. change (login_roles (with_redis s r)) with (login_roles s).
  destruct (GenerateToken _ _ _ _ _ _ _ _ _); [|done]. by destruct (GenerateRefreshToken _ _ _ _ _ _).
Qed.

(** ** Revocation *)

Lemma revoke_tokens_in c l s x :
  (∀ k, auRedisFails c k = false) → x ∈ l.*2 → seToken x ≠ "" →
  asRedis (foldl (revoke_token c) s l) !! blacklist_key (seToken x) = Some (RText "1", Some (auNow c + 24 * Hour)%Z).
Proof.
  intros Hr Hx Hne. assert (∀ l s, asRedis s !! blacklist_key (seToken x) = Some (RText "1", Some (auNow c + 24 * Hour)%Z) →
    asRedis (foldl (revoke_token c) s l) !! blacklist_key (seToken x) = Some (RText "1", Some (auNow c + 24 * Hour)%Z)) as Hkeep.
  { clear l s Hx. intros l. induction l as [|[k y] l IH]; intros s Hs; simpl; [done|]. apply IH. unfold revoke_token. simpl.
    case_bool_decide; [done|]. unfold r_set. rewrite Hr. simpl. unfold redis_setex.
    destruct (decide (seToken y = seToken x)) as [->|Hn]; [by rewrite lookup_insert_eq|].
    rewrite lookup_insert_ne; [done|]. intros E. apply Hn. by injection E. }
  revert s. induction l as [|[k y] l IH]; intros s; [by apply not_elem_of_nil in Hx|]. simpl.
  apply elem_of_cons in Hx as [E|Hx]; [|by apply IH]. simpl in E. subst y.
  apply Hkeep. unfold revoke_token. simpl. rewrite bool_decide_false by done. unfold r_set. rewrite Hr. simpl.
  unfold redis_setex. by rewrite lookup_insert_eq.
Qed.

Lemma RevokeAllSessions_ok s u c s' :
  RevokeAllSessions s u c = (None, s') → (∀ k, auRedisFails c k = false) → auFail c 0 "SELECT sessions" = None →
  range_order (adSessions (asDB s)) (auOrd c) →
  (∀ i x, adSessions (asDB s') !! i = Some x ↔ adSessions (asDB s) !! i = Some x ∧ seUserID x ≠ u)
  ∧ ∀ i x, adSessions (asDB s) !! i = Some x → seUserID x = u → (auNow c < seExpiresAt x)%Z → seToken x ≠ "" →
      blacklisted_until s' (seToken x) (auNow c + 24 * Hour).
Proof.
  intros E Hr Hf Ho. unfold RevokeAllSessions in E. unfold GetUserSessions, try in E. rewrite Hf in E.
  destruct (DeleteUserSessions _ _ _) as [db|] eqn:Ed; [|done]. injection E as <-.
  unfold DeleteUserSessions in Ed. apply try_ok in Ed. injection Ed as <-. rewrite revoke_tokens_db. split.
  - intros i x. rewrite emit_db. simpl. rewrite map_lookup_filter_Some. simpl. by rewrite bool_decide_eq_false.
  - intros i x Hx Hu He Hne. unfold blacklisted_until. rewrite emit_redis. simpl. eexists _, _. split; [|done].
    apply revoke_tokens_in; [done| |done]. rewrite imap_pair_snd.
    rewrite merge_sort_Permutation. apply rows_where_all; [done|]. exists i. split; [done|].
    by rewrite !bool_decide_true.
Qed.

(** The session's token was generated for its user when it was created. *)
Definition issued (clean : Claims → Prop) (x : Session) : Prop :=
  ∃ e roles perms uuid, clean (access_claims mgr (seUserID x) e roles perms (seCreatedAt x) (seCreatedAt x) uuid)
    ∧ GenerateToken sign mgr (seUserID x) e roles perms (seCreatedAt x) (seCreatedAt x) uuid = Ok (seToken x)
    ∧ seExpiresAt x = (seCreatedAt x + 7 * (24 * Hour))%Z.

(** The token of a revoked session is on the blacklist as long as it validates. *)
Lemma revoked_dead (public : string → string) (clean : Claims → Prop) {L : JwtLaws sign parse verify public clean}
    s u c s1 s2 i x t :
  RevokeAllSessions s u c = (None, s1) → (∀ k, auRedisFails c k = false) → auFail c 0 "SELECT sessions" = None →
  range_order (adSessions (asDB s)) (auOrd c) → later_calls (auNow c) s1 s2 →
  key_pair public mgr → (mgExpiry mgr ≤ 24 * Hour)%Z →
  adSessions (asDB s) !! i = Some x → seUserID x = u → issued clean x → seToken x ≠ "" → (seCreatedAt x ≤ auNow c)%Z → (auNow c ≤ t)%Z →
  redis_exists (asRedis s2) t (blacklist_key (seToken x)) = true ∨ ∃ e, ValidateToken parse verify mgr (seToken x) t = Err e.
Proof.
  intros E Hr Hf Ho Hl Hk Hexp Hx Hu (e & roles & perms & uuid & Hc & Hg & Hs) Hne Hcr Ht.
  destruct (RevokeAllSessions_ok _ _ _ _ E Hr Hf Ho) as [_ Hblk].
  destruct (redis_exists (asRedis s2) t (blacklist_key (seToken x))) eqn:Eb; [by left|right].
  rewrite (ValidateToken_signed sign parse verify public clean mgr _ _ t Hc Hk Hg). cbn [clExpiresAt access_claims fmap option_fmap option_map].
  destruct (lives t _) eqn:El; [|by eauto]. exfalso. apply lives_truncated in El.
  assert (((seCreatedAt x + mgExpiry mgr) / Second * Second ≤ seCreatedAt x + mgExpiry mgr)%Z) as Hd
    by (rewrite Z.mul_comm; apply Z.mul_div_le; done).
  assert (auNow c < seExpiresAt x)%Z as Hlive by (rewrite Hs; unfold Hour, Minute, Second in *; lia).
  pose proof (blacklist_stays _ _ _ _ _ Hl (Hblk _ _ Hx Hu Hlive Hne) ltac:(lia)) as Hb.
  rewrite (blacklisted_exists _ _ _ t Hb) in Eb; [done|]. lia.
Qed.

(** Revocation does not reach the refresh token of a session: unless it is
    itself the access token of one, the middleware goes on to admit requests
    that carry it, as the user. *)
Lemma refresh_token_survives_revocation (public : string → string) (clean : Claims → Prop)
    {L : JwtLaws sign parse verify public clean} s u c s1 tok now1 now2 uuid path t ctx :
  RevokeAllSessions s u c = (None, s1) →
  (∀ i x, adSessions (asDB s) !! i = Some x → seToken x ≠ tok) →
  redis_exists (asRedis s) t (blacklist_key tok) = false →
  key_pair public mgr → clean (refresh_claims mgr u now1 now2 uuid) →
  GenerateRefreshToken sign mgr u now1 now2 uuid = Ok tok → (t < (now2 + mgRefreshExpiry mgr) / Second * Second)%Z →
  existsb (λ p, String.prefix p path) skipPaths = false →
  ∃ ctx', Handle parse verify mgr (Some (asRedis s1)) false path (bearerScheme +:+ tok) t ctx = Next ctx'
    ∧ Tokens.GetUserID ctx' = (u, true).
Proof.
  intros E Hn Hb Hk Hc Hg Ht Hp. rewrite Handle_bearer by done. simpl.
  assert (asRedis s1 !! blacklist_key tok = asRedis s !! blacklist_key tok) as Er.
  { unfold RevokeAllSessions in E. destruct (GetUserSessions _ _ _ _ _) as [l|] eqn:El;
      (destruct (DeleteUserSessions _ _ _); [|done]; injection E as <-); rewrite emit_redis; simpl; [|done].
    apply revoke_tokens_other. intros kx Hkx%imap_pair_elem.
    destruct (listed_session _ _ _ _ _ _ _ El Hkx) as (i & Hi & _). by eapply Hn. }
  unfold redis_exists, redis_get in *. rewrite Er, Hb.
  rewrite (ValidateToken_signed sign parse verify public clean mgr _ _ t Hc Hk Hg).
  cbn [clExpiresAt refresh_claims fmap option_fmap option_map]. rewrite (proj2 (lives_truncated t (now2 + mgRefreshExpiry mgr))) by done.
  eexists. split; [done|]. unfold Tokens.GetUserID, get_text.
  repeat (rewrite lookup_insert_ne by done). by rewrite lookup_insert_eq.
Qed.

(** C17. Revoked access tokens are dead: once [RevokeAllSessions] has deleted
    the sessions of a user none of them is left and the others are untouched,
    and no request with the access token of one of them is admitted again,
    whatever calls follow.  Conditions: access tokens live for a day at most
    and were generated at the login that made the session; the query for the
    sessions and every write to Redis succeed during the revocation, whose
    failures the code does not report, and so does the middleware's read.
    The refresh token of such a session stays valid. *)
Theorem revocation_final (public : string → string) (clean : Claims → Prop) {L : JwtLaws sign parse verify public clean}
    s u c s1 s2 i x path t ctx :
  RevokeAllSessions s u c = (None, s1) → (∀ k, auRedisFails c k = false) → auFail c 0 "SELECT sessions" = None →
  range_order (adSessions (asDB s)) (auOrd c) → later_calls (auNow c) s1 s2 →
  key_pair public mgr → (mgExpiry mgr ≤ 24 * Hour)%Z →
  adSessions (asDB s) !! i = Some x → seUserID x = u → issued clean x → seToken x ≠ "" → (seCreatedAt x ≤ auNow c)%Z →
  existsb (λ p, String.prefix p path) skipPaths = false → (auNow c ≤ t)%Z →
  (∀ j y, adSessions (asDB s1) !! j = Some y ↔ adSessions (asDB s) !! j = Some y ∧ seUserID y ≠ u)
  ∧ ∃ msg, Handle parse verify mgr (Some (asRedis s2)) false path (bearerScheme +:+ seToken x) t ctx = Reply 401 msg.
Proof.
  intros E Hr Hf Ho Hl Hk Hexp Hx Hu Hi Hne Hcr Hp Ht. split; [by apply (RevokeAllSessions_ok _ _ _ _ E Hr Hf Ho)|].
  rewrite Handle_bearer by done. simpl.
  destruct (revoked_dead public clean s u c s1 s2 i x t E Hr Hf Ho Hl Hk Hexp Hx Hu Hi Hne Hcr Ht) as [->|[e ->]]; [by eauto|].
  destruct (redis_exists _ _ _); by eauto.
Qed.

(** ** Logging in and resetting a password *)

(** A login succeeds only for a verified, active user with the right password on
    an account that is not locked; it adds one session, whose token validates as
    the user's until it expires.  A failed one adds no session and changes no
    user. *)
Lemma login_correct (public : string → string) (clean : Claims → Prop) {L : JwtLaws sign parse verify public clean}
    s e p ip ua o c r s' :
  (∀ k, clean k) → key_pair public mgr → Login s e p ip ua o c = (r, s') →
  match r with
  | Ok (tk, u') =>
      ∃ u session, GetUserByEmail (asDB s) (auOrd c) e (auFail c 0) = (Some u, None) ∧ CheckPassword u p = true
        ∧ usEmailVerified u = true ∧ usStatus u = UserActive ∧ r_exists c 0 s (lock_key e) = false ∧ usID u' = usID u
        ∧ adSessions (asDB s') = <[seID session := session]> (adSessions (asDB s))
        ∧ seUserID session = usID u ∧ seToken session = tkAccessToken tk
        ∧ ∀ now, (now < (auNow c + mgExpiry mgr) / Second * Second)%Z →
            ∃ k, ValidateToken parse verify mgr (tkAccessToken tk) now = Ok k ∧ clUserID k = usID u
                 ∧ clRoles k = login_roles s u
  | Err _ => asDB s' = asDB s
  end.
Proof.
  intros Hc Hk. unfold Login. destruct (r_exists _ _ _ _) eqn:El; [by intros [= <- <-]|].
  destruct (GetUserByEmail _ _ _ _) as [[u|] [err|]] eqn:Eu; try (intros [= <- <-]; apply track_db).
  destruct (CheckPassword u p) eqn:Ep; simpl; [|intros [= <- <-]; apply track_db].
  destruct (usEmailVerified u) eqn:Ev; simpl; [|intros [= <- <-]; apply r_del_db].
  case_bool_decide as Ha; simpl; [|intros [= <- <-]; apply r_del_db].
  set (s0 := r_del c 1 s (attempt_key e)). assert (login_roles s0 u = login_roles s u) as Hro
    by (unfold s0, login_roles, r_del; by destruct (auRedisFails c 1)).
  destruct (GenerateToken _ _ _ _ _ _ _ _ _) as [at_|] eqn:Ea; [|intros [= <- <-]; apply r_del_db].
  destruct (GenerateRefreshToken _ _ _ _ _ _) as [rt|]; [|intros [= <- <-]; apply r_del_db].
  destruct (CreateSession _ _ _) as [db|] eqn:Ec; [|intros [= <- <-]; apply r_del_db]. intros [= <- <-].
  unfold CreateSession in Ec. apply try_ok in Ec. destruct (_ || _); [done|]. injection Ec as Ec.
  exists u, {| seID := auUuid c 2; seUserID := usID u; seToken := at_; seRefreshToken := rt; seIPAddress := ip; seUserAgent := ua;
               seExpiresAt := (auNow c + 7 * (24 * Hour))%Z; seRevokedAt := None; seCreatedAt := auNow c |}.
  split_and!; [done..| | | |].
  - rewrite emit_db. simpl. destruct (UpdateUser _ _ _ _) as [db'|] eqn:Eup;
      [rewrite (UpdateUser_sessions _ _ _ _ _ Eup)|]; rewrite <- Ec; unfold s0; rewrite r_del_db; reflexivity.
  - done.
  - done.
  - intros now Hn. simpl. rewrite (ValidateToken_signed sign parse verify public clean mgr _ _ now (Hc _) Hk Ea).
    cbn [clExpiresAt access_claims fmap option_fmap option_map]. rewrite (proj2 (lives_truncated now (auNow c + mgExpiry mgr))) by done.
    eexists. split; [done|]. by rewrite <- Hro.
Qed.

(** The user found under an ID has it. *)
Lemma user_of_id db ord id fail u : user_of (GetUserByID db ord id fail) = Ok u → usID u = id.
Proof.
  clear. unfold GetUserByID, first_user. destruct (fail _); [done|]. destruct (head _) eqn:E; [|done]. intros [= ->].
  apply head_Some_elem_of, rows_where_elem in E as (i & _ & _ & H). by apply bool_decide_eq_true in H.
Qed.

(** A reset token is good for one hour and one use, and changes its user's
    password only. *)
Lemma reset_once s email c u tok new c' s' :
  (∀ p salt h, bcrypt p salt = Ok h → compare h p = true) →
  user_of (GetUserByEmail (asDB s) (auOrd c) email (auFail c 0)) = Ok u → (∀ k, auRedisFails c k = false) →
  tok = auUuid c 0 → (∀ k, auRedisFails c' k = false) → ResetPassword (ForgotPassword s email c) tok new c' = (None, s') →
  (auNow c' < auNow c + Hour)%Z
  ∧ (∃ u', usID u' = usID u ∧ adUsers (asDB s') = <[usID u := u']> (adUsers (asDB s)) ∧ CheckPassword u' new = true)
  ∧ ∀ new2 c2, (∀ k, auRedisFails c2 k = false) →
      ResetPassword s' tok new2 c2 = (Some "invalid or expired reset token", s').
Proof.
  intros Hb Hu Hr -> Hr' E. unfold ForgotPassword in E. rewrite Hu in E. unfold r_set in E. rewrite Hr in E.
  unfold ResetPassword in E. rewrite Hr' in E. simpl in E.
  destruct (decide (auNow c' < auNow c + Hour)%Z) as [Hn|Hn]; [|rewrite redis_setex_expired in E by lia; done].
  rewrite redis_setex_get in E by done. cbn [rvalue_text] in E. clear Hu.
  destruct (user_of _) as [u1|] eqn:E1; [|done]. apply user_of_id in E1.
  unfold store_password, SetPassword in E. destruct (bcrypt new (auSalt c')) as [h|] eqn:Eh; [|done].
  destruct (UpdateUser _ _ _ _) as [db|] eqn:Eup; [|done]. injection E as <-. split; [done|]. split.
  - rewrite r_del_db. simpl. unfold UpdateUser in Eup. apply try_ok in Eup. injection Eup as <-. rewrite <- E1. eexists.
    split_and!; [|reflexivity|]; [done|]. unfold CheckPassword. simpl. by eapply Hb.
  - intros new2 c2 Hr2. unfold ResetPassword. rewrite Hr2. unfold r_del. rewrite Hr'. simpl. unfold redis_get, redis_del.
    by rewrite lookup_delete_eq.
Qed.
End service.


(** ** Concrete runs *)

#[local] Instance no_rbac : RBACEnforcer unit := {|
  rb_add b _ _ := Ok b; rb_remove b _ _ := Ok b; rb_roles _ _ := Ok []; rb_users _ _ := Ok []; rb_permissions _ _ := Ok [];
  rb_all _ := []; rb_check _ _ _ _ := Ok false
|}.

Definition demo_member : User :=
  {| usID := "u"; usEmail := "e"; usUsername := "e"; usPassword := "secret"; usFirstName := "F"; usLastName := "L"; usAvatar := "";
     usEmailVerified := true; usEmailVerifyToken := ""; usTwoFactorEnabled := false; usTwoFactorSecret := "";
     usStatus := UserActive; usRoles := []; usLastLoginAt := None; usCreatedAt := 0; usUpdatedAt := 0 |}.
Definition demo_login_session : Session :=
  {| seID := "s"; seUserID := "u"; seToken := "tok"; seRefreshToken := "ref"; seIPAddress := ""; seUserAgent := "";
     seExpiresAt := 0 + 7 * (24 * Hour); seRevokedAt := None; seCreatedAt := 0 |}.
Definition demo_auth (sessions : gmap string Session) : AuthService unit :=
  {| asDB := {| adUsers := {["u" := demo_member]}; adSessions := sessions |}; asRedis := ∅; asRbac := None; asEvents := [] |}.
Definition demo_call (now : Z) (ord : list string) : AuthCall :=
  {| auNow := now; auUuid := λ k, "id" +:+ pretty k; auSalt := ""; auOrd := ord; auFail := λ _ _, None;
     auRedisFails := λ _, false; auBusFails := false |}.
Definition demo_attempt : attempt :=
  {| atPassword := "guess"; atIP := ""; atAgent := ""; atOrd := []; atCall := demo_call Minute ["u"] |}.
Definition demo_login (s : AuthService unit) (password : string) (c : AuthCall) :=
  Login String.eqb demo_sign demo_token_manager (λ _, "") s "e" password "" "" [] c.

(** A right password logs in at once; six guesses lock the account. *)
Example demo_login_run :
  match demo_login (demo_auth ∅) "secret" (demo_call 5 ["u"]) with
  | (Ok (tk, u), s) => tkAccessToken tk = "tok" ∧ usLastLoginAt u = Some 5%Z ∧ map_size (adSessions (asDB s)) = 1
  | (Err _, _) => False
  end.
Proof. vm_compute. done. Qed.

Lemma login_lockout_witness :
  ∃ s', login_attempts String.eqb demo_sign demo_token_manager (λ _, "") (demo_auth ∅) "e" (replicate 6 demo_attempt)
        = (replicate 5 (Err ErrCredentials) ++ [Err ErrLocked], s')
    ∧ asDB s' = asDB (demo_auth ∅)
    ∧ ∀ a password ip ua o c, replicate 6 demo_attempt !! 4 = Some a → (auNow c < auNow (atCall a) + 15 * Minute)%Z →
        auRedisFails c 0 = false → Login String.eqb demo_sign demo_token_manager (λ _, "") s' "e" password ip ua o c = (Err ErrLocked, s').
Proof.
  refine (login_lockout String.eqb demo_sign demo_token_manager (λ _, "") (demo_auth ∅) "e" 0 (replicate 6 demo_attempt) _ _).
  - split; intros t _; reflexivity.
  - repeat (apply Forall_cons; split; [split; [done|]; split; [vm_compute; split; [intros H; discriminate|reflexivity]|reflexivity]|]).
    apply Forall_nil; done.
Defined.

Lemma demo_sign_text alg key c s t : demo_sign alg key c = Ok s → s ≠ "refresh:" +:+ t.
Proof. unfold demo_sign. case_bool_decide; [|done]. by intros [= <-]. Qed.

(** The token of the last section, refreshed once. *)
Definition demo_refreshed : AuthService unit :=
  snd (RefreshToken demo_sign demo_read (λ _ _ _, true) demo_token_manager (demo_auth ∅) "tok" [] (demo_call 5 ["u"])).

Lemma refresh_rotation_witness :
  RefreshToken demo_sign demo_read (λ _ _ _, true) demo_token_manager demo_refreshed "tok" [] (demo_call (30 * Minute) ["u"])
  = (Err "refresh token has already been used", demo_refreshed).
Proof.
  refine (proj2 (refresh_rotation (λ p _, Ok p) String.eqb demo_sign demo_read (λ _ _ _, true) demo_token_manager (λ _, "")
    demo_sign_text (demo_auth ∅) "tok" [] (demo_call 5 ["u"]) {| tkAccessToken := "tok"; tkRefreshToken := "tok"; tkExpiresIn := 900 |}
    demo_refreshed demo_refreshed _ _ _) _ [] (demo_call (30 * Minute) ["u"]) _ _).
  - intros i x t Hx. simpl in Hx. by rewrite lookup_empty in Hx.
  - vm_compute. reflexivity.
  - apply lc_done.
  - reflexivity.
  - reflexivity.
  - reflexivity.
Defined.

Definition demo_revoked : AuthService unit :=
  snd (RevokeAllSessions (demo_auth {["s" := demo_login_session]}) "u" (demo_call 5 ["s"])).

Lemma revocation_final_witness :
  (∀ j y, adSessions (asDB demo_revoked) !! j = Some y ↔
          ({["s" := demo_login_session]} : gmap string Session) !! j = Some y ∧ seUserID y ≠ "u")
  ∧ ∃ msg, Handle demo_read (λ _ _ _, true) demo_token_manager (Some (asRedis demo_revoked)) false "/api/v1/workflows"
             (bearerScheme +:+ "tok") (30 * Minute) ∅ = Reply 401 msg.
Proof.
  refine (revocation_final (λ p _, Ok p) String.eqb demo_sign demo_read (λ _ _ _, true) demo_token_manager (λ _, "") id
    (λ c, c = demo_claims) (L := demo_jwt_laws) (demo_auth {["s" := demo_login_session]}) "u" (demo_call 5 ["s"]) demo_revoked
    demo_revoked "s" demo_login_session "/api/v1/workflows" (30 * Minute) ∅ _ _ _ _ _ _ _ _ _ _ _ _ _ _).
  - vm_compute. reflexivity.
  - reflexivity.
  - reflexivity.
  - split; [apply NoDup_singleton|]. intros j.
    change (j ∈ ["s"] ↔ is_Some (({["s" := demo_login_session]} : gmap string Session) !! j)).
    rewrite lookup_singleton_is_Some, list_elem_of_singleton. split; intros H; symmetry; exact H.
  - apply lc_done.
  - discriminate.
  - vm_compute. discriminate.
  - reflexivity.
  - reflexivity.
  - exists "e", ["user"], ["workflow:read"], "id". split; [reflexivity|]. split; reflexivity.
  - discriminate.
  - vm_compute. discriminate.
  - reflexivity.
  - vm_compute. discriminate.
Defined.
