(* ===== verification/AuthApi.v ===== *)
(** internal/auth/adapters/http/handlers/handlers.go and the router of
    internal/auth/server/server.go: the HTTP interface of the authentication
    service.

    A request passes the rate limiter of logins or the check of its token, and its
    handler calls the service of [Auth].  The decoders of bodies, the check of an
    e-mail address and the count of runes are parameters.  The routes of API keys,
    of the metrics and of the documentation are left out. *)

From S2P Require Import Prelude GoLib GoText GoValue WorkflowRepo Redis RateLimit Tokens Auth Http.

(** ** Answers *)

Inductive AuthBody :=
| ABEmpty
| ABError (msg : string)
| ABErrorDetails (msg details : string)
| ABMessage (msg : string)
| ABRegistered (u : User) (msg : string)
| ABTokens (t : Tokens) (u : option User)
| ABRefreshed (t : Tokens)
| ABUser (u : User)
| ABSecret (secret qrCode : string)
| ABSessions (l : list Session)
| ABValid (x : Session)
| ABNames (what : string) (l : list string)
| ABAllowed (allowed : bool) (userID resource action : string)
| ABLocation (url : string)
| ABHealth (status : string).
Abbreviation Response := (Http.Response AuthBody).
Definition fails (status : Z) (msg : string) : Response := JSON status (ABError msg).

(** ** Routes *)

Inductive AuthEndpoint :=
| AHealth | AReady
| ARegister | ALogin | ARefresh | AVerifyEmail | AForgotPassword | AResetPassword | AOAuthLogin | AOAuthCallback
| ALogout | AMe | AUpdateProfile | AChangePassword | ASetup2FA | AVerify2FA | ADisable2FA
| ASessions | ARevokeSession | ARevokeAllSessions | AValidateToken
| AAssignRole | ARemoveRole | AGetUserRoles | AGetAllRoles | AGetUsersForRole | ACheckPermission.
Abbreviation Route := (Http.Route AuthEndpoint).
Definition auth_v1 (method : string) (segs : list Seg) (e : AuthEndpoint) : string * Route :=
  route method ([Lit "api"; Lit "v1"; Lit "auth"] ++ segs) e.

Definition Auth_setupRouter : list (string * Route) := [
  route "GET" [Lit "health"; Lit "live"] AHealth;
  route "GET" [Lit "health"; Lit "ready"] AReady;
  auth_v1 "POST" [Lit "register"] ARegister;
  auth_v1 "POST" [Lit "login"] ALogin;
  auth_v1 "POST" [Lit "refresh"] ARefresh;
  auth_v1 "POST" [Lit "verify-email"] AVerifyEmail;
  auth_v1 "POST" [Lit "forgot-password"] AForgotPassword;
  auth_v1 "POST" [Lit "reset-password"] AResetPassword;
  auth_v1 "GET" [Lit "oauth"; Par "provider"] AOAuthLogin;
  auth_v1 "GET" [Lit "oauth"; Par "provider"; Lit "callback"] AOAuthCallback;
  auth_v1 "POST" [Lit "logout"] ALogout;
  auth_v1 "GET" [Lit "me"] AMe;
  auth_v1 "PUT" [Lit "me"] AUpdateProfile;
  auth_v1 "PUT" [Lit "change-password"] AChangePassword;
  auth_v1 "POST" [Lit "2fa"; Lit "setup"] ASetup2FA;
  auth_v1 "POST" [Lit "2fa"; Lit "verify"] AVerify2FA;
  auth_v1 "DELETE" [Lit "2fa"] ADisable2FA;
  auth_v1 "GET" [Lit "sessions"] ASessions;
  auth_v1 "DELETE" [Lit "sessions"; Par "sessionId"] ARevokeSession;
  auth_v1 "DELETE" [Lit "sessions"] ARevokeAllSessions;
  auth_v1 "POST" [Lit "validate"] AValidateToken;
  auth_v1 "POST" [Lit "rbac"; Lit "users"; Par "userId"; Lit "roles"] AAssignRole;
  auth_v1 "DELETE" [Lit "rbac"; Lit "users"; Par "userId"; Lit "roles"; Par "role"] ARemoveRole;
  auth_v1 "GET" [Lit "rbac"; Lit "users"; Par "userId"; Lit "roles"] AGetUserRoles;
  auth_v1 "GET" [Lit "rbac"; Lit "roles"] AGetAllRoles;
  auth_v1 "GET" [Lit "rbac"; Lit "roles"; Par "role"; Lit "users"] AGetUsersForRole;
  auth_v1 "POST" [Lit "rbac"; Lit "check-permission"] ACheckPermission].

(** The group of a route. *)
Inductive Guard := Open | Protected | Admins.
Definition guard_of (e : AuthEndpoint) : Guard :=
  match e with
  | AHealth | AReady | ARegister | ALogin | ARefresh | AVerifyEmail | AForgotPassword | AResetPassword | AOAuthLogin | AOAuthCallback => Open
  | AAssignRole | ARemoveRole | AGetUserRoles | AGetAllRoles | AGetUsersForRole | ACheckPermission => Admins
  | _ => Protected
  end.

(** ** Bodies *)

Record RegisterRequest := { rgEmail : string; rgPassword : string; rgFirstName : string; rgLastName : string }.
Record LoginRequest := { lgEmail : string; lgPassword : string }.
Record ChangePasswordRequest := { cqOldPassword : string; cqNewPassword : string }.
Record ResetRequest := { rqToken : string; rqPassword : string }.
Record PermissionRequest := { pqUserID : string; pqResource : string; pqAction : string }.
Record AuthDecoders := {
  adRegister : string → result RegisterRequest;
  adLogin : string → result LoginRequest;
  adText : string → string → result string;       (* the field of a body with one *)
  adChange : string → result ChangePasswordRequest;
  adReset : string → result ResetRequest;
  adCheck : string → result PermissionRequest;
  adUpdates : string → result vmap
}.

Section api.
Context {B : Type} `{!RBACEnforcer B}.
Context (bcrypt : string → string → result string) (compare : string → string → bool).
Context (sign : string → string → Claims → result string) (parse : string → Parsed) (verify : string → string → string → bool)
  (mgr : Manager) (rfc3339 : Z → string).
Context (dc : AuthDecoders) (tag_error : complaints → string) (is_email : string → bool) (runes : string → nat).

Record ApiState := { apAuth : AuthService B; apLimiter : InMemoryRateLimiter }.
Definition NewApi (s : AuthService B) : ApiState :=
  {| apAuth := s; apLimiter := NewInMemoryRateLimiter 5 (15 * Minute) |}.
Record AuthApiCall := {
  aaCall : AuthCall;
  aaOrd : list string;                  (* the order of a user's permissions *)
  aaClientIP : string;
  aaReady : option string;
  aaBroken : bool                       (* Redis fails for the middleware *)
}.
Definition email_tag (field s : string) : complaints :=
  if bool_decide (s = "") then [(field, "required")] else if is_email s then [] else [(field, "email")].
Definition min8 (field s : string) : complaints :=
  if bool_decide (s = "") then [(field, "required")] else if bool_decide (runes s < 8) then [(field, "min")] else [].

Abbreviation AS := (AuthService B).
Abbreviation auth_api := (handler AS AuthBody).
Abbreviation auth_body := (read_body tag_error).
Abbreviation bad_request := (fails StatusBadRequest).

(** ** Handlers *)

Definition handle_Register (a : AuthApiCall) (rq : Request) : auth_api :=
  auth_body (adRegister dc) (λ r, email_tag "Email" (rgEmail r) ++ min8 "Password" (rgPassword r)) bad_request rq (λ r,
    after_ (λ s, Register bcrypt s (rgEmail r) (rgPassword r) (rgFirstName r) (rgLastName r) (aaCall a))
      (λ e, if contains e "already exists" then fails StatusConflict "User already exists"
            else fails StatusInternalServerError "Failed to register user")
      (λ u, JSON StatusCreated (ABRegistered u "Registration successful. Please verify your email."))).
Definition login_error (e : string) : Response :=
  if contains e "invalid credentials" then
    JSON StatusUnauthorized (ABErrorDetails "Invalid credentials" "The email or password you entered is incorrect")
  else if contains e "email not verified" then
    JSON StatusForbidden (ABErrorDetails "Email not verified" "Please verify your email address before logging in")
  else if contains e "temporarily locked" then
    JSON StatusTooManyRequests (ABErrorDetails "Account locked"
      "Your account has been temporarily locked due to too many failed login attempts. Please try again in 15 minutes.")
  else if contains e "account is not active" then
    JSON StatusForbidden (ABErrorDetails "Account inactive" "Your account is not active. Please contact support.")
  else JSON StatusInternalServerError (ABErrorDetails "Login failed" "An unexpected error occurred. Please try again later.").
Definition handle_Login (a : AuthApiCall) (rq : Request) : auth_api :=
  auth_body (adLogin dc) (λ r, email_tag "Email" (lgEmail r) ++ required "Password" (lgPassword r))
    (λ e, JSON StatusBadRequest (ABErrorDetails "Invalid request format" e)) rq (λ r,
    after_ (λ s, Login compare sign mgr rfc3339 s (lgEmail r) (lgPassword r) (aaClientIP a) (GetHeader rq "User-Agent") (aaOrd a) (aaCall a))
      login_error (λ tu, JSON StatusOK (ABTokens tu.1 (Some tu.2)))).
Definition handle_RefreshToken (a : AuthApiCall) (rq : Request) : auth_api :=
  auth_body (adText dc "refreshToken") (required "RefreshToken") bad_request rq (λ t,
    after_ (λ s, RefreshToken sign parse verify mgr s t (aaOrd a) (aaCall a))
      (λ _, fails StatusUnauthorized "Invalid or expired refresh token") (λ t, JSON StatusOK (ABRefreshed t))).
Definition TrimPrefix (s p : string) : string :=
  if String.prefix p s then String.substring (String.length p) (String.length s - String.length p) s else s.
Definition handle_Logout (a : AuthApiCall) (rq : Request) (userID : string) : auth_api :=
  after (λ s, Logout s userID (TrimPrefix (GetHeader rq "Authorization") "Bearer ") (aaCall a))
    (λ _, fails StatusInternalServerError "Failed to logout") (JSON StatusOK (ABMessage "Logged out successfully")).
Definition handle_GetCurrentUser (a : AuthApiCall) (userID : string) : auth_api :=
  asks (λ s, user_of (GetUserByID (asDB s) (auOrd (aaCall a)) userID (auFail (aaCall a) 0)))
    (λ _, fails StatusNotFound "User not found") (λ u, JSON StatusOK (ABUser u)).
Definition handle_UpdateProfile (a : AuthApiCall) (rq : Request) (userID : string) : auth_api :=
  auth_body (adUpdates dc) (λ _, []) bad_request rq (λ updates,
    after_ (λ s, UpdateProfile s userID updates (aaCall a)) (λ _, fails StatusInternalServerError "Failed to update profile")
      (λ u, JSON StatusOK (ABUser u))).
Definition handle_ChangePassword (a : AuthApiCall) (rq : Request) (userID : string) : auth_api :=
  auth_body (adChange dc) (λ r, required "OldPassword" (cqOldPassword r) ++ min8 "NewPassword" (cqNewPassword r)) bad_request rq (λ r,
    after (λ s, ChangePassword bcrypt compare s userID (cqOldPassword r) (cqNewPassword r) (aaCall a))
      (λ e, if contains e "incorrect" then fails StatusBadRequest "Incorrect old password"
            else fails StatusInternalServerError "Failed to change password")
      (JSON StatusOK (ABMessage "Password changed successfully"))).
Definition handle_VerifyEmail (a : AuthApiCall) (rq : Request) : auth_api :=
  let token := Query rq "token" in
  if bool_decide (token = "") then tell (fails StatusBadRequest "Verification token required")
  else after (λ s, VerifyEmail s token (aaCall a)) (λ _, fails StatusBadRequest "Invalid or expired verification token")
         (JSON StatusOK (ABMessage "Email verified successfully")).
Definition handle_ForgotPassword (a : AuthApiCall) (rq : Request) : auth_api :=
  auth_body (adText dc "email") (email_tag "Email") bad_request rq (λ email s,
    (JSON StatusOK (ABMessage "If the email exists, a password reset link has been sent"), ForgotPassword s email (aaCall a))).
Definition handle_ResetPassword (a : AuthApiCall) (rq : Request) : auth_api :=
  auth_body (adReset dc) (λ r, required "Token" (rqToken r) ++ min8 "Password" (rqPassword r)) bad_request rq (λ r,
    after (λ s, ResetPassword bcrypt s (rqToken r) (rqPassword r) (aaCall a))
      (λ _, fails StatusBadRequest "Invalid or expired reset token") (JSON StatusOK (ABMessage "Password reset successfully"))).
Definition handle_OAuthLogin (r : Route) : auth_api :=
  tell (JSON StatusTemporaryRedirect (ABLocation (GetOAuthURL (Param r "provider")))).
Definition handle_OAuthCallback (r : Route) (rq : Request) : auth_api :=
  let code := Query rq "code" in
  if bool_decide (code = "") then tell (fails StatusBadRequest "Authorization code required")
  else asks (λ _, HandleOAuthCallback (Param r "provider") code)
         (λ _, fails StatusInternalServerError "OAuth authentication failed") (λ tu, JSON StatusOK (ABTokens tu.1 tu.2)).
Definition handle_Setup2FA (userID : string) : auth_api :=
  asks (λ _, Setup2FA userID) (λ _, fails StatusInternalServerError "Failed to setup 2FA") (λ x, JSON StatusOK (ABSecret x.1 x.2)).
Definition handle_Verify2FA (rq : Request) (userID : string) : auth_api :=
  auth_body (adText dc "code") (required "Code") bad_request rq (λ code,
    after (λ s, (Verify2FA userID code, s)) (λ _, fails StatusBadRequest "Invalid verification code")
      (JSON StatusOK (ABMessage "2FA enabled successfully"))).
Definition handle_Disable2FA (rq : Request) (userID : string) : auth_api :=
  auth_body (adText dc "password") (required "Password") bad_request rq (λ password,
    after (λ s, (Disable2FA userID password, s))
      (λ e, if contains e "incorrect" then fails StatusBadRequest "Incorrect password"
            else fails StatusInternalServerError "Failed to disable 2FA")
      (JSON StatusOK (ABMessage "2FA disabled successfully"))).

(** *** Sessions *)

Definition handle_GetSessions (a : AuthApiCall) (userID : string) : auth_api :=
  asks (λ s, Service_GetUserSessions s userID (aaCall a)) (λ _, fails StatusInternalServerError "Failed to get sessions")
    (λ l, JSON StatusOK (ABSessions l)).
Definition handle_RevokeSession (a : AuthApiCall) (r : Route) (userID : string) : auth_api :=
  after (λ s, RevokeSession s userID (Param r "sessionId") (aaCall a))
    (λ e, if contains e "not found" then fails StatusNotFound "Session not found"
          else if contains e "unauthorized" then fails StatusForbidden "Cannot revoke this session"
          else fails StatusInternalServerError "Failed to revoke session")
    (JSON StatusOK (ABMessage "Session revoked successfully")).
Definition handle_RevokeAllSessions (a : AuthApiCall) (userID : string) : auth_api :=
  after (λ s, RevokeAllSessions s userID (aaCall a)) (λ _, fails StatusInternalServerError "Failed to revoke sessions")
    (JSON StatusOK (ABMessage "All sessions revoked successfully")).
Definition handle_ValidateToken (a : AuthApiCall) (rq : Request) : auth_api :=
  let token := TrimPrefix (GetHeader rq "Authorization") "Bearer " in
  if bool_decide (token = "") then tell (fails StatusBadRequest "Token required")
  else after_ (λ s, ValidateSession s token (aaCall a)) (λ _, fails StatusUnauthorized "Invalid or expired token")
         (λ x, JSON StatusOK (ABValid x)).

(** *** Roles *)

Definition role_error (failed : string) (e : string) : Response :=
  if contains e "not found" then fails StatusNotFound "User not found" else fails StatusInternalServerError failed.
Definition handle_AssignRole (a : AuthApiCall) (r : Route) (rq : Request) : auth_api :=
  auth_body (adText dc "role") (required "Role") bad_request rq (λ role,
    after (λ s, AssignRole s (Param r "userId") role (aaCall a)) (role_error "Failed to assign role")
      (JSON StatusOK (ABMessage "Role assigned successfully"))).
Definition handle_RemoveRole (a : AuthApiCall) (r : Route) : auth_api :=
  after (λ s, RemoveRole s (Param r "userId") (Param r "role") (aaCall a)) (role_error "Failed to remove role")
    (JSON StatusOK (ABMessage "Role removed successfully")).
Definition handle_GetUserRoles (a : AuthApiCall) (r : Route) : auth_api :=
  asks (λ s, GetUserRoles s (Param r "userId") (aaCall a)) (role_error "Failed to get user roles") (λ l, JSON StatusOK (ABNames "roles" l)).
Definition handle_GetAllRoles : auth_api := λ s, (JSON StatusOK (ABNames "roles" (GetAllRoles s)), s).
Definition handle_GetUsersForRole (r : Route) : auth_api :=
  asks (λ s, GetUsersForRole s (Param r "role")) (λ _, fails StatusInternalServerError "Failed to get users")
    (λ l, JSON StatusOK (ABNames "users" l)).
Definition handle_CheckPermission (a : AuthApiCall) (rq : Request) : auth_api :=
  auth_body (adCheck dc) (λ r, required "UserID" (pqUserID r) ++ required "Resource" (pqResource r) ++ required "Action" (pqAction r))
    bad_request rq (λ r,
    asks (λ s, CheckPermission s (pqUserID r) (pqResource r) (pqAction r) (aaCall a))
      (λ _, fails StatusInternalServerError "Failed to check permission")
      (λ b, JSON StatusOK (ABAllowed b (pqUserID r) (pqResource r) (pqAction r)))).
Definition Auth_Ready (a : AuthApiCall) : auth_api :=
  tell match aaReady a with Some e => JSON StatusServiceUnavailable (ABErrorDetails "not ready" e) | None => JSON StatusOK (ABHealth "ready") end.

(** ** The server *)

Definition Auth_corsMiddleware (rq : Request) : option Response :=
  if bool_decide (rqMethod rq = "OPTIONS") then Some (JSON 204 ABEmpty) else None.
(** The claims of the request, or its answer. *)
Definition Auth_authMiddleware (a : AuthApiCall) (rq : Request) (s : AS) : Claims + Response :=
  let authHeader := GetHeader rq "Authorization" in
  if bool_decide (authHeader = "") then inr (fails StatusUnauthorized "authorization header required")
  else if negb (String.prefix bearerScheme authHeader) then inr (fails StatusUnauthorized "invalid authorization header format")
  else
    let token := String.substring (String.length bearerScheme) (String.length authHeader - String.length bearerScheme) authHeader in
    if negb (aaBroken a) && redis_exists (asRedis s) (auNow (aaCall a)) (blacklist_key token)
    then inr (fails StatusUnauthorized "token has been revoked")
    else match ValidateToken parse verify mgr token (auNow (aaCall a)) with
         | Err _ => inr (fails StatusUnauthorized "invalid or expired token")
         | Ok c => inl c
         end.
Definition RequireRole (roles : list string) (c : Claims) : option Response :=
  if existsb (λ requiredRole, existsb (λ userRole, bool_decide (userRole = requiredRole)) (clRoles c)) roles then None
  else Some (fails StatusForbidden "insufficient permissions").

(** [u] is the user of the claims. *)
Definition auth_handle (r : Route) (a : AuthApiCall) (rq : Request) (u : string) : auth_api :=
  match rtEndpoint r with
  | AHealth => tell (JSON StatusOK (ABHealth "healthy"))
  | AReady => Auth_Ready a
  | ARegister => handle_Register a rq
  | ALogin => handle_Login a rq
  | ARefresh => handle_RefreshToken a rq
  | AVerifyEmail => handle_VerifyEmail a rq
  | AForgotPassword => handle_ForgotPassword a rq
  | AResetPassword => handle_ResetPassword a rq
  | AOAuthLogin => handle_OAuthLogin r
  | AOAuthCallback => handle_OAuthCallback r rq
  | ALogout => handle_Logout a rq u
  | AMe => handle_GetCurrentUser a u
  | AUpdateProfile => handle_UpdateProfile a rq u
  | AChangePassword => handle_ChangePassword a rq u
  | ASetup2FA => handle_Setup2FA u
  | AVerify2FA => handle_Verify2FA rq u
  | ADisable2FA => handle_Disable2FA rq u
  | ASessions => handle_GetSessions a u
  | ARevokeSession => handle_RevokeSession a r u
  | ARevokeAllSessions => handle_RevokeAllSessions a u
  | AValidateToken => handle_ValidateToken a rq
  | AAssignRole => handle_AssignRole a r rq
  | ARemoveRole => handle_RemoveRole a r
  | AGetUserRoles => handle_GetUserRoles a r
  | AGetAllRoles => handle_GetAllRoles
  | AGetUsersForRole => handle_GetUsersForRole r
  | ACheckPermission => handle_CheckPermission a rq
  end.
(** Behind the middleware of its group. *)
Definition guarded (r : Route) (a : AuthApiCall) (rq : Request) : auth_api := λ s,
  match guard_of (rtEndpoint r) with
  | Open => auth_handle r a rq "" s
  | Protected => match Auth_authMiddleware a rq s with inr resp => (resp, s) | inl c => auth_handle r a rq (clUserID c) s end
  | Admins => match Auth_authMiddleware a rq s with
              | inr resp => (resp, s)
              | inl c => match RequireRole ["admin"; "super_admin"] c with
                         | Some resp => (resp, s)
                         | None => auth_handle r a rq (clUserID c) s
                         end
              end
  end.
Definition with_limiter (h : auth_api) (a : AuthApiCall) (x : ApiState) : Response * ApiState :=
  let ip := aaClientIP a in
  let now := auNow (aaCall a) in
  if (InMemory_Allow (apLimiter x) ip now).1 then
    let '(resp, s') := h (apAuth x) in
    (resp, {| apAuth := s'; apLimiter := (LoginRateLimitMiddleware (apLimiter x) ip now (rsStatus resp)).2 |})
  else (fails StatusTooManyRequests "Too many failed login attempts. Please try again later.",
        {| apAuth := apAuth x; apLimiter := (InMemory_Allow (apLimiter x) ip now).2 |}).
Definition auth_serve (a : AuthApiCall) (rq : Request) (x : ApiState) : Response * ApiState :=
  let unlimited (h : auth_api) := let '(resp, s') := h (apAuth x) in (resp, {| apAuth := s'; apLimiter := apLimiter x |}) in
  match Auth_corsMiddleware rq with
  | Some resp => unlimited (tell resp)
  | None =>
      match find_route Auth_setupRouter rq with
      | None => unlimited (tell (JSON StatusNotFound ABEmpty))
      | Some r => match rtEndpoint r with
                  | ALogin => with_limiter (guarded r a rq) a x
                  | _ => unlimited (guarded r a rq)
                  end
      end
  end.

(** ** The operation of the service a request performs *)

Definition op_of_body {R} (d : string → result R) (check : R → complaints) (rq : Request) (k : R → AuthOp) : option AuthOp :=
  match d (rqBody rq) with
  | Err _ => None
  | Ok r => match check r with [] => Some (k r) | _ => None end
  end.
Definition auth_op (r : Route) (a : AuthApiCall) (rq : Request) (u : string) : option AuthOp :=
  let bearer := TrimPrefix (GetHeader rq "Authorization") "Bearer " in
  match rtEndpoint r with
  | ARegister => op_of_body (adRegister dc) (λ r, email_tag "Email" (rgEmail r) ++ min8 "Password" (rgPassword r)) rq
                   (λ r, AoRegister (rgEmail r) (rgPassword r) (rgFirstName r) (rgLastName r))
  | ALogin => op_of_body (adLogin dc) (λ r, email_tag "Email" (lgEmail r) ++ required "Password" (lgPassword r)) rq
                (λ r, AoLogin (lgEmail r) (lgPassword r) (aaClientIP a) (GetHeader rq "User-Agent") (aaOrd a))
  | ARefresh => op_of_body (adText dc "refreshToken") (required "RefreshToken") rq (λ t, AoRefresh t (aaOrd a))
  | AVerifyEmail => if bool_decide (Query rq "token" = "") then None else Some (AoVerify (Query rq "token"))
  | AForgotPassword => op_of_body (adText dc "email") (email_tag "Email") rq AoForgot
  | AResetPassword => op_of_body (adReset dc) (λ r, required "Token" (rqToken r) ++ min8 "Password" (rqPassword r)) rq
                        (λ r, AoReset (rqToken r) (rqPassword r))
  | ALogout => Some (AoLogout u bearer)
  | AUpdateProfile => op_of_body (adUpdates dc) (λ _, []) rq (AoProfile u)
  | AChangePassword => op_of_body (adChange dc) (λ r, required "OldPassword" (cqOldPassword r) ++ min8 "NewPassword" (cqNewPassword r)) rq
                         (λ r, AoPassword u (cqOldPassword r) (cqNewPassword r))
  | ARevokeSession => Some (AoRevoke u (Param r "sessionId"))
  | ARevokeAllSessions => Some (AoRevokeAll u)
  | AValidateToken => if bool_decide (bearer = "") then None else Some (AoValidate bearer)
  | AAssignRole => op_of_body (adText dc "role") (required "Role") rq (AoAssign (Param r "userId"))
  | ARemoveRole => Some (AoRemove (Param r "userId") (Param r "role"))
  | _ => None
  end.
Abbreviation run op c s := (auth_run bcrypt compare sign parse verify mgr rfc3339 op c s).
Definition runs (o : option AuthOp) (a : AuthApiCall) (s : AS) : AS := match o with Some op => run op (aaCall a) s | None => s end.

Lemma body_runs {R} (d : string → result R) check bad rq (k : R → auth_api) (f : R → AuthOp) a s :
  (∀ r, (k r s).2 = run (f r) (aaCall a) s) → (auth_body d check bad rq k s).2 = runs (op_of_body d check rq f) a s.
Proof. intros Hk. rewrite read_body_state. unfold op_of_body, runs. by destruct (d _) as [r|]; [destruct (check r)|]. Qed.
Lemma handle_runs r a rq u s : (auth_handle r a rq u s).2 = runs (auth_op r a rq u) a s.
Proof.
  unfold auth_handle, auth_op. destruct (rtEndpoint r); try reflexivity;
    try (apply body_runs; intros x; rewrite ?after_state, ?after__state; reflexivity);
    try (apply read_body_silent; intros x; rewrite ?after_state, ?asks_state; reflexivity);
    try exact (asks_state _ _ _ _); try exact (after_state _ _ _ _).
  - unfold handle_VerifyEmail. destruct (bool_decide (Query rq "token" = "")); [done|]. by rewrite after_state.
  - unfold handle_OAuthCallback. destruct (bool_decide (Query rq "code" = "")); [done|]. by rewrite asks_state.
  - unfold handle_ValidateToken. destruct (bool_decide (TrimPrefix (GetHeader rq "Authorization") "Bearer " = "")); [done|].
    by rewrite after__state.
Qed.

(** The request carries a token: signed, not expired and, when Redis answers,
    not revoked. *)
Definition bears (a : AuthApiCall) (rq : Request) (s : AS) (c : Claims) : Prop :=
  ∃ token, GetHeader rq "Authorization" = bearerScheme +:+ token
    ∧ ValidateToken parse verify mgr token (auNow (aaCall a)) = Ok c
    ∧ (aaBroken a = false → redis_exists (asRedis s) (auNow (aaCall a)) (blacklist_key token) = false).

(** When Redis fails, a revoked token is admitted as if it were not. *)
Lemma broken_redis_admits_revoked a rq s c token :
  aaBroken a = true → GetHeader rq "Authorization" = bearerScheme +:+ token →
  ValidateToken parse verify mgr token (auNow (aaCall a)) = Ok c → Auth_authMiddleware a rq s = inl c.
Proof.
  intros Hb Hh Hv. unfold Auth_authMiddleware. rewrite Hh, bool_decide_false by done.
  rewrite prefix_app, substring_bearer, Hb. cbn [negb andb]. by rewrite Hv.
Qed.

Lemma middleware_bears a rq s c : Auth_authMiddleware a rq s = inl c → bears a rq s c.
Proof.
  unfold Auth_authMiddleware. case_bool_decide; [done|]. destruct (String.prefix bearerScheme _) eqn:Ep; [|done]. cbn [negb].
  apply prefix_spec in Ep as [token Et]. rewrite Et, substring_bearer.
  destruct (negb (aaBroken a) && _) eqn:Eb; [done|]. destruct (ValidateToken _ _ _ _ _) as [c'|] eqn:Ev; [|done]. intros [= ->].
  exists token. split; [done|]. split; [exact Ev|]. intros Hb. rewrite Hb in Eb. exact Eb.
Qed.
Lemma RequireRole_ok roles c : RequireRole roles c = None → ∃ r, r ∈ roles ∧ r ∈ clRoles c.
Proof.
  clear. unfold RequireRole. destruct (existsb _ _) eqn:E; [|done]. intros _. apply existsb_exists in E as (r & Hr & Hx). exists r.
  split; [by apply list_elem_of_In|by apply existsb_elem in Hx].
Qed.

(** ** What the operations change *)

Definition keyed_auth (s : AS) : Prop :=
  map_Forall (λ id u, usID u = id) (adUsers (asDB s)) ∧ map_Forall (λ id y, seID y = id) (adSessions (asDB s)).
(** The users of a table stay and keep their passwords, but for [who]. *)
Definition passwords_kept (who : User → Prop) (t t' : gmap string User) : Prop :=
  ∀ i u, t !! i = Some u → ∃ u', t' !! i = Some u' ∧ (usPassword u' ≠ usPassword u → who u).
Definition nobody (u : User) : Prop := False.

Lemma passwords_refl who t : passwords_kept who t t.
Proof. clear. intros i u Hu. by exists u. Qed.
Lemma update_row db u now fail db' u0 (who : User → Prop) :
  map_Forall (λ id u, usID u = id) (adUsers db) → UpdateUser db u now fail = Ok db' →
  adUsers db !! usID u = Some u0 → (usPassword u ≠ usPassword u0 → who u0) →
  map_Forall (λ id u, usID u = id) (adUsers db') ∧ adSessions db' = adSessions db ∧ passwords_kept who (adUsers db) (adUsers db').
Proof.
  clear. intros Hk E Hu Hw. unfold UpdateUser in E. apply try_ok in E. injection E as <-. simpl. split_and!; [|done|].
  - by apply map_Forall_insert_2.
  - intros i v Hv. destruct (decide (usID u = i)) as [<-|Hne].
    + rewrite lookup_insert_eq. eexists. split; [done|]. simpl. replace v with u0 by congruence. done.
    + rewrite lookup_insert_ne by done. by exists v.
Qed.
Lemma first_user_row db ord cond fail u :
  map_Forall (λ id u, usID u = id) (adUsers db) → user_of (first_user db ord cond fail) = Ok u →
  adUsers db !! usID u = Some u ∧ cond u = true.
Proof.
  clear. unfold first_user. destruct (fail _); [done|]. destruct (head _) eqn:E; [|done]. intros Hk [= ->].
  apply head_Some_elem_of, rows_where_elem in E as (i & _ & Hi & Hc). by rewrite (Hk i u Hi).
Qed.
Lemma store_password_row s u p c s' :
  keyed_auth s → store_password bcrypt s u p c = Ok s' → adUsers (asDB s) !! usID u = Some u →
  keyed_auth s' ∧ asRbac s' = asRbac s ∧ adSessions (asDB s') = adSessions (asDB s)
  ∧ passwords_kept (λ v, v = u) (adUsers (asDB s)) (adUsers (asDB s')).
Proof.
  clear. intros [Hk Hs] E Hu. unfold store_password, SetPassword in E. destruct (bcrypt _ _); [|done].
  destruct (UpdateUser _ _ _ _) as [db|] eqn:Eu; [|done]. injection E as <-.
  edestruct (update_row _ _ _ _ _ u (λ v, v = u) Hk Eu) as (H1 & H2 & H3); [done|done|].
  unfold keyed_auth. simpl. rewrite H2. by split_and!.
Qed.

(** What an operation may do. *)
Record auth_effect (op : AuthOp) (c : AuthCall) (s s' : AS) : Prop := {
  ae_keyed : keyed_auth s';
  ae_roles : asRbac s' = asRbac s ∨ match op with AoRegister _ _ _ _ | AoAssign _ _ | AoRemove _ _ => True | _ => False end;
  ae_sessions i y : adSessions (asDB s) !! i = Some y →
    adSessions (asDB s') !! i = Some y ∨ match op with AoRevoke u _ | AoRevokeAll u => u = seUserID y | _ => False end;
  ae_passwords : passwords_kept
    (λ u, match op with
          | AoPassword w old _ => usID u = w ∧ CheckPassword compare u old = true
          | AoReset token _ => ∃ v, redis_get (asRedis s) (auNow c) (reset_key token) = Some v ∧ rvalue_text v = usID u
          | _ => False
          end) (adUsers (asDB s)) (adUsers (asDB s'))
}.
Lemma effect_same_db op c s s' : keyed_auth s → asDB s' = asDB s → asRbac s' = asRbac s → auth_effect op c s s'.
Proof.
  intros Hk E1 E2. split; [unfold keyed_auth; by rewrite E1|by left|rewrite E1; by left|rewrite E1; apply passwords_refl].
Qed.

Lemma emit_rbac (c : AuthCall) (s : AS) type id p : asRbac (emit c s type id p) = asRbac s.
Proof. clear. unfold emit. by destruct (auBusFails c). Qed.
Lemma r_set_rbac (c : AuthCall) k (s : AS) key val ttl : asRbac (r_set c k s key val ttl) = asRbac s.
Proof. clear. unfold r_set. by destruct (auRedisFails c k). Qed.
Lemma r_del_rbac (c : AuthCall) k (s : AS) key : asRbac (r_del c k s key) = asRbac s.
Proof. clear. unfold r_del. by destruct (auRedisFails c k). Qed.
Lemma track_rbac (s : AS) email ip c : asRbac (trackFailedLogin rfc3339 s email ip c) = asRbac s.
Proof. clear. unfold trackFailedLogin. destruct (if auRedisFails c 1 then _ else _). rewrite emit_rbac. case_bool_decide; by rewrite ?emit_rbac, ?r_set_rbac. Qed.
Lemma revoke_rbac c (s : AS) kx : asRbac (revoke_token c s kx) = asRbac s.
Proof. clear. unfold revoke_token. case_bool_decide; [done|]. apply r_set_rbac. Qed.
Lemma revoke_db c (s : AS) kx : asDB (revoke_token c s kx) = asDB s.
Proof. clear. unfold revoke_token. case_bool_decide; [done|]. apply r_set_db. Qed.
Lemma revoke_all_same c l (s : AS) : asRbac (foldl (revoke_token c) s l) = asRbac s ∧ asDB (foldl (revoke_token c) s l) = asDB s.
Proof.
  clear. revert s. induction l as [|kx l IH]; intros s; simpl; [done|]. destruct (IH (revoke_token c s kx)) as [-> ->].
  by rewrite revoke_rbac, revoke_db.
Qed.

Lemma Register_effect s e p f l c : keyed_auth s → auth_effect (AoRegister e p f l) c s (run (AoRegister e p f l) c s).
Proof.
  intros Hk. cbn [auth_run]. unfold Register. destruct (_.1); [by apply effect_same_db|]. unfold NewUser.
  destruct (bcrypt _ _) as [h|]; [|by apply effect_same_db]. set (u := {| usID := _ |}). destruct (CreateUser _ _ _) as [db|] eqn:Ec; [|by apply effect_same_db].
  unfold CreateUser in Ec. apply try_ok in Ec. destruct (bool_decide (is_Some _)) eqn:Eb; [done|]. destruct (_ || _); [done|]. injection Ec as <-.
  apply bool_decide_eq_false in Eb. apply eq_None_not_Some in Eb. destruct Hk as [Hu Hs].
  set (s1 := emit _ _ _ _ _). assert (∀ x : AS, asDB x = asDB s1 → auth_effect (AoRegister e p f l) c s x) as Hx.
  { intros x E. subst s1. rewrite emit_db in E. split; [|by right|rewrite E; by left|].
    - unfold keyed_auth. rewrite E. split; [|done]. by apply map_Forall_insert_2.
    - rewrite E. intros i v Hv. exists v. split; [|done]. rewrite <- Hv. apply lookup_insert_ne. intros <-. change (adUsers (asDB s) !! usID u = Some v) in Hv. congruence. }
  simpl. destruct (asRbac s1); [destruct (rb_add _ _ _)|]; by apply Hx.
Qed.

Lemma Login_effect s e p i ua o c : keyed_auth s → auth_effect (AoLogin e p i ua o) c s (run (AoLogin e p i ua o) c s).
Proof.
  intros Hk. cbn [auth_run]. unfold Login. destruct (r_exists _ _ _ _); [by apply effect_same_db|].
  assert (auth_effect (AoLogin e p i ua o) c s (trackFailedLogin rfc3339 s e i c)) as Htrack
    by (apply effect_same_db; [done|apply track_db|apply track_rbac]).
  destruct (GetUserByEmail _ _ _ _) as [[u|] [err|]] eqn:Eu; [done| |done..].
  assert (user_of (GetUserByEmail (asDB s) (auOrd c) e (auFail c 0)) = Ok u) as Hu%first_user_row by (by rewrite Eu); [|apply Hk].
  destruct (negb (CheckPassword compare u p)); [done|]. set (s0 := r_del _ _ _ _).
  assert (asDB s0 = asDB s) as Ed by apply r_del_db. assert (asRbac s0 = asRbac s) as Er by apply r_del_rbac.
  assert (auth_effect (AoLogin e p i ua o) c s s0) as H0 by (by apply effect_same_db).
  destruct (negb _); [done|]. destruct (negb _); [done|]. destruct (GenerateToken _ _ _ _ _ _ _ _ _); [|done].
  destruct (GenerateRefreshToken _ _ _ _ _ _); [|done]. destruct (CreateSession _ _ _) as [db|] eqn:Ec; [|done]. simpl.
  unfold CreateSession in Ec. apply try_ok in Ec. rewrite Ed in Ec. destruct (bool_decide (is_Some _)) eqn:Eb; [done|]. destruct (_ || _); [done|].
  injection Ec as Ec. apply bool_decide_eq_false, eq_None_not_Some in Eb. set (y := {| seID := _ |}) in *. set (u1 := set_login _ _ _ _ _ _ _ _ _).
  assert (map_Forall (λ id y, seID y = id) (adSessions db)) as Hs by (rewrite <- Ec; apply map_Forall_insert_2; [done|apply Hk]).
  assert (∀ i0 y0, adSessions (asDB s) !! i0 = Some y0 → adSessions db !! i0 = Some y0) as Hkeep
    by (intros i0 y0 Hy; rewrite <- Ec, <- Hy; apply lookup_insert_ne; intros <-; change (adSessions (asDB s) !! seID y = Some y0) in Hy; congruence).
  assert (adUsers db = adUsers (asDB s)) as Eus by (by rewrite <- Ec).
  destruct (UpdateUser _ _ _ _) as [db'|] eqn:Eup.
  - destruct (update_row _ _ _ _ _ u nobody ltac:(rewrite Eus; apply Hk) Eup) as (H1 & H2 & H3); [by rewrite Eus; apply Hu|done|].
    split; unfold keyed_auth; rewrite ?emit_rbac, ?emit_db; simpl; rewrite ?H2; [done|by left|intros; left; by apply Hkeep|by rewrite Eus in H3].
  - split; unfold keyed_auth; rewrite ?emit_rbac, ?emit_db; simpl; [split; [rewrite Eus; apply Hk|done]|by left|intros; left; by apply Hkeep|rewrite Eus; apply passwords_refl].
Qed.

Lemma Profile_effect s w m c : keyed_auth s → auth_effect (AoProfile w m) c s (run (AoProfile w m) c s).
Proof.
  intros Hk. cbn [auth_run]. unfold UpdateProfile. destruct (user_of _) as [u|] eqn:Eu; [|by apply effect_same_db].
  apply first_user_row in Eu as [Hu _]; [|apply Hk]. destruct (UpdateUser _ _ _ _) as [db|] eqn:Eup; [|by apply effect_same_db].
  destruct (update_row _ _ _ _ _ u nobody (proj1 Hk) Eup) as (H1 & H2 & H3); [done|done|].
  split; unfold keyed_auth; simpl; rewrite ?emit_rbac, ?emit_db; simpl; rewrite ?H2; [by split; [|apply Hk]|by left|by left|done].
Qed.
Lemma Verify_effect s token c : keyed_auth s → auth_effect (AoVerify token) c s (run (AoVerify token) c s).
Proof.
  intros Hk. cbn [auth_run]. unfold VerifyEmail. destruct (user_of _) as [u|] eqn:Eu; [|by apply effect_same_db].
  unfold GetUserByEmailVerifyToken in Eu.
  destruct (first_user _ _ _ _) as [[u0|] [err|]] eqn:Ef; try discriminate Eu; simpl in Eu; injection Eu as <-;
    [|exfalso; unfold first_user in Ef; repeat case_match; by simplify_eq].
  assert (adUsers (asDB s) !! usID u0 = Some u0) as Hu
    by (eapply first_user_row; [apply Hk|by erewrite Ef]).
  destruct (usEmailVerified _); [by apply effect_same_db|]. destruct (UpdateUser _ _ _ _) as [db|] eqn:Eup; [|by apply effect_same_db].
  destruct (update_row _ _ _ _ _ u0 nobody (proj1 Hk) Eup) as (H1 & H2 & H3); [done|done|].
  split; unfold keyed_auth; simpl; rewrite ?emit_rbac, ?emit_db; simpl; rewrite ?H2; [by split; [|apply Hk]|by left|by left|done].
Qed.
Lemma Password_effect s w old new c : keyed_auth s → auth_effect (AoPassword w old new) c s (run (AoPassword w old new) c s).
Proof.
  intros Hk. cbn [auth_run]. unfold ChangePassword. destruct (user_of _) as [u|] eqn:Eu; [|by apply effect_same_db].
  apply first_user_row in Eu as [Hu Hw%bool_decide_eq_true]; [|apply Hk]. destruct (CheckPassword compare u old) eqn:Ec; [|by apply effect_same_db].
  simpl. destruct (store_password _ _ _ _ _) as [s'|] eqn:Es; [|by apply effect_same_db].
  destruct (store_password_row _ _ _ _ _ Hk Es Hu) as (H1 & H2 & H3 & H4). split; simpl; rewrite ?H3; [done|by left|by left|].
  intros i v Hv. destruct (H4 i v Hv) as (v' & Hv' & Hp). exists v'. split; [done|]. by intros ->%Hp.
Qed.
Lemma Reset_effect s token new c : keyed_auth s → auth_effect (AoReset token new) c s (run (AoReset token new) c s).
Proof.
  intros Hk. cbn [auth_run]. unfold ResetPassword. destruct (auRedisFails c 0); [by apply effect_same_db|].
  destruct (redis_get _ _ _) as [x|] eqn:Er; [|by apply effect_same_db]. destruct (user_of _) as [u|] eqn:Eu; [|by apply effect_same_db].
  apply first_user_row in Eu as [Hu Hw%bool_decide_eq_true]; [|apply Hk].
  destruct (store_password _ _ _ _ _) as [s'|] eqn:Es; [|by apply effect_same_db].
  destruct (store_password_row _ _ _ _ _ Hk Es Hu) as (H1 & H2 & H3 & H4).
  split; unfold keyed_auth; simpl; rewrite ?r_del_db, ?r_del_rbac, ?H3; [rewrite <- H3; apply H1|by left|by left|].
  intros i v Hv. destruct (H4 i v Hv) as (v' & Hv' & Hp). exists v'. split; [done|]. intros ->%Hp. by exists x.
Qed.
Lemma Revoke_effect s w sid c : keyed_auth s → auth_effect (AoRevoke w sid) c s (run (AoRevoke w sid) c s).
Proof.
  intros Hk. cbn [auth_run]. unfold RevokeSession. destruct (GetSessionByID _ _ _ _) as [y|] eqn:Eg; [|by apply effect_same_db].
  case_bool_decide as Ew; simpl; [|by apply effect_same_db].
  unfold GetSessionByID, first_session in Eg. apply try_ok in Eg. destruct (head _) as [y'|] eqn:Eh; [|done]. injection Eg as ->.
  apply head_Some_elem_of, rows_where_elem in Eh as (i & _ & Hi & Hc%bool_decide_eq_true).
  destruct (DeleteSessionByID _ _ _) as [db|] eqn:Ed; simpl.
  2: apply effect_same_db; [done|apply revoke_db|apply revoke_rbac].
  unfold DeleteSessionByID in Ed. apply try_ok in Ed. injection Ed as <-.
  split; unfold keyed_auth; rewrite ?emit_rbac, ?emit_db; simpl; rewrite ?revoke_rbac, ?revoke_db.
  - split; [apply Hk|]. intros j z [Hz _]%map_lookup_filter_Some. by apply Hk.
  - by left.
  - intros j z Hz. destruct (decide (seID z = sid)) as [E|E].
    + right. destruct Hk as [_ Hs]. replace z with y; [done|]. pose proof (Hs _ _ Hi) as E1. pose proof (Hs _ _ Hz) as E2. simpl in *. congruence.
    + left. apply map_lookup_filter_Some. split; [done|]. by apply bool_decide_eq_false.
  - apply passwords_refl.
Qed.
Lemma RevokeAll_effect s w c : keyed_auth s → auth_effect (AoRevokeAll w) c s (run (AoRevokeAll w) c s).
Proof.
  intros Hk. cbn [auth_run]. unfold RevokeAllSessions. set (s1 := match GetUserSessions _ _ _ _ _ with Ok l => _ | Err _ => _ end).
  assert (asRbac s1 = asRbac s ∧ asDB s1 = asDB s) as [Er Ed] by (unfold s1; destruct (GetUserSessions _ _ _ _ _); [apply revoke_all_same|done]).
  destruct (DeleteUserSessions _ _ _) as [db|] eqn:E; simpl; [|by apply effect_same_db].
  unfold DeleteUserSessions in E. apply try_ok in E. injection E as <-.
  split; unfold keyed_auth; rewrite ?emit_rbac, ?emit_db; simpl; rewrite ?Ed, ?Er.
  - split; [apply Hk|]. intros j z [Hz _]%map_lookup_filter_Some. by apply Hk.
  - by left.
  - intros j z Hz. destruct (decide (seUserID z = w)) as [E|E]; [by right|left]. apply map_lookup_filter_Some. split; [done|]. by apply bool_decide_eq_false.
  - apply passwords_refl.
Qed.
Lemma role_effect op s w r f what type c :
  keyed_auth s → match op with AoAssign _ _ | AoRemove _ _ => True | _ => False end → auth_effect op c s (change_role s w r f what type c).2.
Proof.
  intros Hk Hop. unfold change_role. destruct (user_of _); [|by apply effect_same_db]. destruct (asRbac s); [|by apply effect_same_db].
  destruct (f _); [|by apply effect_same_db]. split; unfold keyed_auth; simpl; rewrite ?emit_db; [done|right; by destruct op|by left|apply passwords_refl].
Qed.

Lemma operation_effect op c s : keyed_auth s → auth_effect op c s (run op c s).
Proof.
  intros Hk. destruct op; [by apply Register_effect|by apply Login_effect| | |by apply Revoke_effect|by apply RevokeAll_effect| |by apply Profile_effect
    |by apply Password_effect|by apply Verify_effect| |by apply Reset_effect|by apply role_effect|by apply role_effect]; cbn [auth_run].
  - unfold RefreshToken. repeat case_match; try (by apply effect_same_db). apply effect_same_db; simpl; rewrite ?emit_db, ?emit_rbac; [done|apply r_set_db|apply r_set_rbac].
  - rewrite (proj1 (Logout_fails _ _ _ _)). by apply effect_same_db.
  - rewrite (proj1 (ValidateSession_fails _ _ _)). by apply effect_same_db.
  - unfold ForgotPassword. destruct (user_of _); [|by apply effect_same_db]. apply effect_same_db; [done|apply r_set_db|apply r_set_rbac].
Qed.

(** ** Who may do what *)

Definition reached_op (r : Route) (a : AuthApiCall) (rq : Request) (s : AS) : option AuthOp :=
  match guard_of (rtEndpoint r) with
  | Open => auth_op r a rq ""
  | Protected => match Auth_authMiddleware a rq s with inr _ => None | inl c => auth_op r a rq (clUserID c) end
  | Admins => match Auth_authMiddleware a rq s with
              | inr _ => None
              | inl c => match RequireRole ["admin"; "super_admin"] c with Some _ => None | None => auth_op r a rq (clUserID c) end
              end
  end.
Lemma guarded_runs r a rq s : (guarded r a rq s).2 = runs (reached_op r a rq s) a s.
Proof.
  unfold guarded, reached_op. destruct (guard_of _); [apply handle_runs| |]; (destruct (Auth_authMiddleware _ _ _) as [c|]; [|done]).
  - apply handle_runs.
  - destruct (RequireRole _ c); [done|]. apply handle_runs.
Qed.
(** A request runs the operation of its route once, or nothing. *)
Lemma serve_runs a rq x :
  apAuth (auth_serve a rq x).2 = apAuth x
  ∨ ∃ r, find_route Auth_setupRouter rq = Some r ∧ apAuth (auth_serve a rq x).2 = runs (reached_op r a rq (apAuth x)) a (apAuth x).
Proof.
  unfold auth_serve. destruct (Auth_corsMiddleware rq); [by left|]. destruct (find_route _ rq) as [r|]; [|by left].
  assert (apAuth (let '(resp, s') := guarded r a rq (apAuth x) in (resp, {| apAuth := s'; apLimiter := apLimiter x |})).2
          = runs (reached_op r a rq (apAuth x)) a (apAuth x)) as Hu
    by (rewrite <- guarded_runs; by destruct (guarded r a rq (apAuth x))).
  destruct (rtEndpoint r); try (right; by exists r).
  unfold with_limiter. destruct (InMemory_Allow _ _ _).1; [|by left]. right. exists r. split; [done|].
  rewrite <- guarded_runs. by destruct (guarded r a rq (apAuth x)).
Qed.

Definition by_admin (a : AuthApiCall) (rq : Request) (s : AS) : Prop :=
  ∃ c, bears a rq s c ∧ ("admin" ∈ clRoles c ∨ "super_admin" ∈ clRoles c).
Definition by_user (a : AuthApiCall) (rq : Request) (s : AS) (u : string) : Prop := ∃ c, bears a rq s c ∧ clUserID c = u.

Lemma op_of_body_some {R} (d : string → result R) check rq f op : op_of_body d check rq f = Some op → ∃ r, op = f r ∧ d (rqBody rq) = Ok r.
Proof. clear. unfold op_of_body. intros H. repeat case_match; simplify_eq; eauto. Qed.
(** The operations of sessions, passwords and roles need a token. *)
Lemma reached_authority r a rq s op :
  reached_op r a rq s = Some op →
  match op with
  | AoRegister _ _ _ _ => rtEndpoint r = ARegister
  | AoAssign _ _ | AoRemove _ _ => by_admin a rq s
  | AoRevoke u _ | AoRevokeAll u => by_user a rq s u
  | AoPassword u old _ => by_user a rq s u ∧ ∃ r, adChange dc (rqBody rq) = Ok r ∧ cqOldPassword r = old
  | AoReset token _ => ∃ r, adReset dc (rqBody rq) = Ok r ∧ rqToken r = token
  | _ => True
  end.
Proof.
  unfold reached_op, auth_op. destruct (rtEndpoint r) eqn:Er; cbn [guard_of]; intros H;
    try (destruct (Auth_authMiddleware _ _ _) as [c|] eqn:Em; [|discriminate H]; apply middleware_bears in Em);
    try (destruct (RequireRole _ c) eqn:Ero; [discriminate H|]; apply RequireRole_ok in Ero as (ro & Hro & Hin));
    try discriminate H;
    first [apply op_of_body_some in H as (req & -> & Hreq) | case_bool_decide; [discriminate H|injection H as <-] | injection H as <-]; try done;
    try (by exists c); try (by exists req); try (split; [by exists c|by exists req]);
    (exists c; split; [done|]; rewrite !elem_of_cons in Hro; destruct Hro as [->|[->|[]%not_elem_of_nil]]; auto).
Qed.

(** C16. Who may do what.  Call a token good when it is signed, not expired and,
    if the middleware's read of Redis succeeds, not revoked: a failing read
    counts as not revoked ([broken_redis_admits_revoked]).  A request, whatever
    it is, changes the assignment of roles only if it is a registration or
    bears a good token with the role admin or super_admin.  It ends a session
    only if it bears a good token of the session's user.  And no user loses
    their row, and one whose password changes is the user of a good token, and
    the request gives the old password, or it gives a reset token that stands
    for the user in Redis. *)
Theorem auth_api_authority a rq x resp x' :
  keyed_auth (apAuth x) → auth_serve a rq x = (resp, x') →
  let s := apAuth x in let s' := apAuth x' in
  keyed_auth s'
  ∧ (asRbac s' = asRbac s ∨ (rtEndpoint <$> find_route Auth_setupRouter rq) = Some ARegister ∨ by_admin a rq s)
  ∧ (∀ i y, adSessions (asDB s) !! i = Some y → adSessions (asDB s') !! i = Some y ∨ by_user a rq s (seUserID y))
  ∧ passwords_kept (λ u, (by_user a rq s (usID u) ∧ ∃ r, adChange dc (rqBody rq) = Ok r ∧ CheckPassword compare u (cqOldPassword r) = true)
                         ∨ ∃ r v, adReset dc (rqBody rq) = Ok r ∧ rvalue_text v = usID u
                             ∧ redis_get (asRedis s) (auNow (aaCall a)) (reset_key (rqToken r)) = Some v)
      (adUsers (asDB s)) (adUsers (asDB s')).
Proof.
  intros Hk E s s'. subst s s'. pose proof (serve_runs a rq x) as H. rewrite E in H. simpl in H.
  destruct H as [->|(r & Hr & ->)]; [split_and!; [done|by left|by left|apply passwords_refl]|].
  destruct (reached_op r a rq (apAuth x)) as [op|] eqn:Eo; simpl; [|split_and!; [done|by left|by left|apply passwords_refl]].
  destruct (operation_effect op (aaCall a) _ Hk) as [H1 H2 H3 H4]. apply reached_authority in Eo. rewrite Hr. split_and!.
  - done.
  - destruct H2 as [H2|H2]; [by left|right]. destruct op; try done; [left; simpl; by rewrite Eo|by right|by right].
  - intros i y Hy. destruct (H3 i y Hy) as [H|H]; [by left|right]. by destruct op; try done; subst.
  - intros i u Hu. destruct (H4 i u Hu) as (u' & Hu' & Hp). exists u'. split; [done|]. intros Hne%Hp.
    destruct op; try done; [left|right]; simpl in Eo.
    + destruct Hne as [<- Hc], Eo as [Hby (req & Hreq & <-)]. split; [done|]. by exists req.
    + destruct Hne as (v & Hv & Hw), Eo as (req & Hreq & <-). by exists req, v.
Qed.

(** *** Revocation over HTTP *)

(** Requests in the order of time. *)
Inductive later_requests (t : Z) : ApiState → ApiState → Prop :=
| lr_done x : later_requests t x x
| lr_request x a rq x' : (t ≤ auNow (aaCall a))%Z → later_requests (auNow (aaCall a)) (auth_serve a rq x).2 x' → later_requests t x x'.
Lemma later_mono t t' s s' :
  (t' ≤ t)%Z → later_calls bcrypt compare sign parse verify mgr rfc3339 t s s' → later_calls bcrypt compare sign parse verify mgr rfc3339 t' s s'.
Proof. intros Ht H. destruct H; [constructor|]. econstructor; [|done]. lia. Qed.
Lemma requests_are_operations t x x' :
  later_requests t x x' → later_calls bcrypt compare sign parse verify mgr rfc3339 t (apAuth x) (apAuth x').
Proof.
  intros H. induction H as [t x|t x a rq x' Ht _ IH]; [constructor|].
  destruct (serve_runs a rq x) as [E|(r & _ & E)]; rewrite E in IH; [by apply (later_mono (auNow (aaCall a)))|].
  destruct (reached_op r a rq (apAuth x)) as [op|]; [|by apply (later_mono (auNow (aaCall a)))]. by econstructor.
Qed.
(** A request that does not get past the check of its token. *)
Lemma middleware_refuses r a rq x token :
  find_route Auth_setupRouter rq = Some r → Auth_corsMiddleware rq = None → guard_of (rtEndpoint r) ≠ Open →
  GetHeader rq "Authorization" = bearerScheme +:+ token → aaBroken a = false →
  redis_exists (asRedis (apAuth x)) (auNow (aaCall a)) (blacklist_key token) = true
    ∨ (∃ e, ValidateToken parse verify mgr token (auNow (aaCall a)) = Err e) →
  ∃ msg, auth_serve a rq x = (fails StatusUnauthorized msg, x).
Proof.
  intros Hr Hc Hg Hh Hb Hd. unfold auth_serve. rewrite Hc, Hr.
  assert (∃ msg, Auth_authMiddleware a rq (apAuth x) = inr (fails StatusUnauthorized msg)) as [msg Em].
  { unfold Auth_authMiddleware. rewrite Hh, bool_decide_false, prefix_app, substring_bearer, Hb by done. simpl.
    destruct Hd as [->|[e ->]]; [by eauto|]. destruct (redis_exists _ _ _); by eauto. }
  assert (guarded r a rq (apAuth x) = (fails StatusUnauthorized msg, apAuth x)) as Eg
    by (unfold guarded; rewrite Em; by destruct (guard_of _)).
  exists msg. rewrite Eg. destruct x as [s l]. by destruct (rtEndpoint r).
Qed.

(** Once a user has ended all their sessions over HTTP, no token of one of them
    passes a protected route again, whatever requests follow. *)
Lemma revoked_everywhere (public : string → string) (clean : Claims → Prop) {L : JwtLaws sign parse verify public clean}
    x a rq x1 x2 r c i y a' rq' r' :
  auth_serve a rq x = (JSON StatusOK (ABMessage "All sessions revoked successfully"), x1) →
  find_route Auth_setupRouter rq = Some r → Auth_corsMiddleware rq = None → rtEndpoint r = ARevokeAllSessions →
  Auth_authMiddleware a rq (apAuth x) = inl c →
  (∀ k, auRedisFails (aaCall a) k = false) → auFail (aaCall a) 0 "SELECT sessions" = None →
  range_order (adSessions (asDB (apAuth x))) (auOrd (aaCall a)) → later_requests (auNow (aaCall a)) x1 x2 →
  key_pair public mgr → (mgExpiry mgr ≤ 24 * Hour)%Z →
  adSessions (asDB (apAuth x)) !! i = Some y → seUserID y = clUserID c → issued sign mgr clean y → seToken y ≠ "" →
  (seCreatedAt y ≤ auNow (aaCall a))%Z →
  find_route Auth_setupRouter rq' = Some r' → Auth_corsMiddleware rq' = None → guard_of (rtEndpoint r') ≠ Open →
  GetHeader rq' "Authorization" = bearerScheme +:+ seToken y → aaBroken a' = false → (auNow (aaCall a) ≤ auNow (aaCall a'))%Z →
  ∃ msg, auth_serve a' rq' x2 = (fails StatusUnauthorized msg, x2).
Proof.
  intros E Hr Hco He Hm Hrf Hf Ho Hl Hk Hexp Hy Hu Hi Hne Hcr Hr' Hco' Hg Hh Hb Ht.
  apply (middleware_refuses r' a' rq' x2 (seToken y)); [done..|].
  unfold auth_serve in E. rewrite Hco, Hr, He in E. unfold guarded in E. rewrite He in E. cbn [guard_of] in E. rewrite Hm in E.
  unfold auth_handle in E. rewrite He in E. unfold handle_RevokeAllSessions, after in E.
  destruct (RevokeAllSessions (apAuth x) (clUserID c) (aaCall a)) as [[e|] s1] eqn:Ea; [discriminate E|]. injection E as <-.
  apply (revoked_dead bcrypt compare sign parse verify mgr rfc3339 public clean (apAuth x) (clUserID c) (aaCall a) s1 (apAuth x2) i y); try done.
  by apply requests_are_operations in Hl.
Qed.

(** ** What the routes cannot do *)

(** Logging out is always answered with 500 and leaves the token valid. *)
Lemma logout_answers_500 a rq u s :
  handle_Logout a rq u s = (fails StatusInternalServerError "Failed to logout", s).
Proof.
  clear. unfold handle_Logout, after. destruct (Logout_fails s u (TrimPrefix (GetHeader rq "Authorization") "Bearer ") (aaCall a)) as [H1 [e H2]].
  destruct (Logout _ _ _ _) as [e' s']. simpl in *. by subst.
Qed.
(** No token is found valid. *)
Lemma validation_never_succeeds a rq s : ¬ succeeded (handle_ValidateToken a rq s).1.
Proof.
  clear. unfold handle_ValidateToken. set (t := TrimPrefix _ _). case_bool_decide; [unfold succeeded; simpl; unfold StatusBadRequest; lia|].
  unfold after_. destruct (ValidateSession_fails s t (aaCall a)) as [_ [e He]]. destruct (ValidateSession _ _ _) as [x s']. simpl in *. subst x.
  unfold succeeded. simpl. unfold StatusUnauthorized. lia.
Qed.
(** Any code of any provider logs in, with a token that is no token. *)
Lemma oauth_logs_anybody_in r rq s :
  Query rq "code" ≠ "" → ∃ t, (handle_OAuthCallback r rq s) = (JSON StatusOK (ABTokens t None), s) ∧ tkAccessToken t = "mock-oauth-token".
Proof. clear. intros H. unfold handle_OAuthCallback. rewrite bool_decide_false by done. by eexists. Qed.
(** The second factor goes without the password. *)
Lemma second_factor_unchecked rq u s :
  (∃ p, adText dc "password" (rqBody rq) = Ok p ∧ p ≠ "") → (handle_Disable2FA rq u s).1 = JSON StatusOK (ABMessage "2FA disabled successfully").
Proof.
  clear. intros (p & E & Hp). unfold handle_Disable2FA, read_body. rewrite E. unfold required. by rewrite bool_decide_false.
Qed.
End api.

(** ** Concrete requests *)

#[local] Instance no_roles : RBACEnforcer unit := {|
  rb_add b _ _ := Ok b; rb_remove b _ _ := Ok b; rb_roles _ _ := Ok []; rb_users _ _ := Ok []; rb_permissions _ _ := Ok [];
  rb_all _ := []; rb_check _ _ _ _ := Ok false
|}.
Definition sample_decoders : AuthDecoders :=
  {| adRegister := λ _, Err "bad"; adLogin := λ b, Ok {| lgEmail := "e"; lgPassword := b |}; adText := λ _ b, Ok b;
     adChange := λ b, Ok {| cqOldPassword := b; cqNewPassword := "longenough" |}; adReset := λ _, Err "bad"; adCheck := λ _, Err "bad";
     adUpdates := λ _, Ok ∅ |}.
Definition sample_request (method : string) (path : list string) (token body : string) : Request :=
  {| rqMethod := method; rqPath := ["api"; "v1"; "auth"] ++ path; rqHeader := {["Authorization" := bearerScheme +:+ token]}; rqQuery := ∅;
     rqBody := body |}.
Definition sample_call (now : Z) : AuthApiCall :=
  {| aaCall := Auth.demo_call now ["s"; "u"]; aaOrd := []; aaClientIP := "ip"; aaReady := None; aaBroken := false |}.
Definition sample_serve : AuthApiCall → Request → ApiState → Http.Response AuthBody * ApiState :=
  auth_serve (λ p _, Ok p) String.eqb demo_sign demo_read (λ _ _ _, true) demo_token_manager (λ _, "") sample_decoders complain (λ _, true) String.length.
Definition sample_state : ApiState := NewApi (demo_auth {["s" := demo_login_session]}).

(** The owner changes their password; somebody without the role adds no role. *)
Lemma auth_api_authority_witness :
  ∃ resp x', sample_serve (sample_call 5) (sample_request "PUT" ["change-password"] "tok" "secret") sample_state = (resp, x')
    ∧ succeeded resp ∧ (usPassword <$> adUsers (asDB (apAuth x')) !! "u") = Some "longenough"
    ∧ keyed_auth (apAuth x') ∧ asRbac (apAuth x') = None.
Proof.
  eexists _, _. split; [reflexivity|]. split; [vm_compute; split; [discriminate|reflexivity]|]. split; [reflexivity|].
  split; [|reflexivity].
  refine (proj1 (auth_api_authority (λ p _, Ok p) String.eqb demo_sign demo_read (λ _ _ _, true) demo_token_manager (λ _, "") sample_decoders
    complain (λ _, true) String.length (sample_call 5) (sample_request "PUT" ["change-password"] "tok" "secret") sample_state _ _ _ _)).
  - split; intros i y; simpl; intros [<- <-]%lookup_singleton_Some; reflexivity.
  - reflexivity.
Defined.
Example role_needs_admin :
  (sample_serve (sample_call 5) (sample_request "POST" ["rbac"; "users"; "u"; "roles"] "tok" "admin") sample_state).1
  = fails StatusForbidden "insufficient permissions".
Proof. by vm_compute. Qed.
