(* ===== verification/ApiKeys.v ===== *)
(** internal/auth/adapters/apikey: keys for programmatic access, their repository
    and their service.

    A key is the text lf_ and 32 random bytes in unpadded URL-safe base64; the
    database has its SHA-256 in hexadecimal, which is a parameter.  [Validate]
    records the use of a key in a goroutine: the call [UpdateLastUsed] is a step of
    its own, at any later time. *)

From S2P Require Import Prelude GoLib GoText WorkflowRepo Tokens.
From stdpp Require Import sorting.
From Stdlib Require Import Ascii.

(** ** base64.RawURLEncoding *)

Definition alphabet : string := "ABCDEFGHIJKLMNOPQRSTUVWXYZabcdefghijklmnopqrstuvwxyz0123456789-_".
Definition sextet (n : N) : ascii := default "A"%char (String.get (N.to_nat (n mod 64)) alphabet).
Fixpoint RawURLEncode (s : string) : string :=
  match s with
  | "" => ""
  | String a "" => let n := (N_of_ascii a * 16)%N in String (sextet (n / 64)) (String (sextet n) "")
  | String a (String b "") =>
      let n := ((N_of_ascii a * 256 + N_of_ascii b) * 4)%N in
      String (sextet (n / 4096)) (String (sextet (n / 64)) (String (sextet n) ""))
  | String a (String b (String c s')) =>
      let n := ((N_of_ascii a * 256 + N_of_ascii b) * 256 + N_of_ascii c)%N in
      String (sextet (n / 262144)) (String (sextet (n / 4096)) (String (sextet (n / 64)) (String (sextet n) (RawURLEncode s'))))
  end.

(** ** Keys *)

Record APIKey := {
  akID : string;
  akUserID : string;
  akName : string;
  akKeyPrefix : string;
  akKeyHash : string;
  akPermissions : list string;
  akPermJSON : string;
  akLastUsedAt : option Z;
  akExpiresAt : option Z;
  akCreatedAt : Z;
  akRevokedAt : option Z
}.
Definition set_key (k : APIKey) (permissions : list string) (lastUsed revoked : option Z) : APIKey :=
  {| akID := akID k; akUserID := akUserID k; akName := akName k; akKeyPrefix := akKeyPrefix k; akKeyHash := akKeyHash k;
     akPermissions := permissions; akPermJSON := akPermJSON k; akLastUsedAt := lastUsed; akExpiresAt := akExpiresAt k;
     akCreatedAt := akCreatedAt k; akRevokedAt := revoked |}.

Definition APIKey_IsExpired (k : APIKey) (now : Z) : bool :=
  match akExpiresAt k with None => false | Some t => bool_decide (t < now)%Z end.
Definition APIKey_IsRevoked (k : APIKey) : bool := bool_decide (akRevokedAt k ≠ None).
Definition APIKey_HasPermission (k : APIKey) (resource action : string) : bool :=
  existsb (λ p, bool_decide (p = resource +:+ ":" +:+ action) || bool_decide (p = resource +:+ ":*") || bool_decide (p = "*"))
    (akPermissions k).

(** ** The repository

    The permissions are no column: a row is read without them. *)

Abbreviation keytable := (gmap string APIKey).
Definition stored (k : APIKey) : APIKey := set_key k [] (akLastUsedAt k) (akRevokedAt k).

Definition Keys_Create (t : keytable) (k : APIKey) (fail : db_fail) : result keytable :=
  try fail "INSERT api_keys"
    (if bool_decide (is_Some (t !! akID k)) || existsb (λ p, bool_decide (akKeyHash p.2 = akKeyHash k)) (map_to_list t)
     then Err duplicate_key else Ok (<[akID k := stored k]> t)).
Definition first_key (t : keytable) (ord : list string) (cond : APIKey → bool) : result APIKey :=
  match head (rows_where t ord cond) with Some k => Ok k | None => Err "record not found" end.
Definition GetByKeyHash (t : keytable) (ord : list string) (hash : string) (fail : db_fail) : result APIKey :=
  try fail "SELECT api_keys" (first_key t ord (λ k, bool_decide (akKeyHash k = hash) && bool_decide (akRevokedAt k = None))).
Definition Keys_GetByID (t : keytable) (ord : list string) (id : string) (fail : db_fail) : result APIKey :=
  try fail "SELECT api_keys" (first_key t ord (λ k, bool_decide (akID k = id))).
Definition newest_key (a b : APIKey) : Prop := (akCreatedAt b ≤ akCreatedAt a)%Z.
#[global] Instance newest_key_dec : RelDecision newest_key.
Proof. intros a b. unfold newest_key. apply _. Defined.
Definition GetByUserID (t : keytable) (ord : list string) (userID : string) (fail : db_fail) : result (list APIKey) :=
  try fail "SELECT api_keys" (Ok (merge_sort newest_key (rows_where t ord (λ k, bool_decide (akUserID k = userID))))).
Definition UpdateLastUsed (t : keytable) (id : string) (now : Z) (fail : db_fail) : result keytable :=
  try fail "UPDATE api_keys" (Ok (alter (λ k, set_key k (akPermissions k) (Some now) (akRevokedAt k)) id t)).
Definition Keys_Revoke (t : keytable) (id : string) (now : Z) (fail : db_fail) : result keytable :=
  try fail "UPDATE api_keys" (Ok (alter (λ k, set_key k (akPermissions k) (akLastUsedAt k) (Some now)) id t)).
Definition Keys_Delete (t : keytable) (id : string) (fail : db_fail) : result keytable :=
  try fail "DELETE api_keys" (Ok (delete id t)).

(** ** The service *)

Record CreateAPIKeyRequest := {
  ckUserID : string;
  ckName : string;
  ckPermissions : list string;
  ckExpiresIn : option Z
}.
Record CreateAPIKeyResponse := {
  crAPIKey : APIKey;
  crRawKey : string
}.
(** What a call reads from outside: the clock, an ID, the random bytes or the
    error of reading them, the order and the failures of the database. *)
Record KeyCall := {
  kcNow : nat → Z;
  kcUuid : string;
  kcRandom : result string;
  kcOrd : list string;
  kcFail : nat → db_fail
}.

Section service.
Context (sha256_hex : string → string).

Definition new_key (req : CreateAPIKeyRequest) (rawKey : string) (c : KeyCall) : APIKey :=
  {| akID := kcUuid c; akUserID := ckUserID req; akName := ckName req; akKeyPrefix := String.substring 0 12 rawKey;
     akKeyHash := sha256_hex rawKey; akPermissions := ckPermissions req; akPermJSON := String.concat "," (ckPermissions req);
     akLastUsedAt := None; akExpiresAt := (λ d, (kcNow c 0 + d)%Z) <$> ckExpiresIn req; akCreatedAt := kcNow c 1;
     akRevokedAt := None |}.

Definition APIKey_Create (t : keytable) (req : CreateAPIKeyRequest) (c : KeyCall) : result CreateAPIKeyResponse * keytable :=
  match kcRandom c with
  | Err e => (Err ("failed to generate key: " +:+ e), t)
  | Ok keyBytes =>
      let rawKey := "lf_" +:+ RawURLEncode keyBytes in
      let apiKey := new_key req rawKey c in
      match Keys_Create t apiKey (kcFail c 0) with
      | Err e => (Err ("failed to save API key: " +:+ e), t)
      | Ok t' => (Ok {| crAPIKey := apiKey; crRawKey := rawKey |}, t')
      end
  end.

Definition with_permissions (k : APIKey) : APIKey :=
  if bool_decide (akPermJSON k = "") then k
  else set_key k (GoText.split (akPermJSON k) ",") (akLastUsedAt k) (akRevokedAt k).

(** The use of the key is recorded by [UpdateLastUsed], later. *)
Definition APIKey_Validate (t : keytable) (rawKey : string) (c : KeyCall) : result APIKey :=
  match GetByKeyHash t (kcOrd c) (sha256_hex rawKey) (kcFail c 0) with
  | Err _ => Err "invalid API key"
  | Ok k =>
      if APIKey_IsRevoked k then Err "API key has been revoked"
      else if APIKey_IsExpired k (kcNow c 0) then Err "API key has expired"
      else Ok (with_permissions k)
  end.

Definition APIKey_List (t : keytable) (userID : string) (c : KeyCall) : result (list APIKey) :=
  match GetByUserID t (kcOrd c) userID (kcFail c 0) with
  | Err e => Err ("failed to list API keys: " +:+ e)
  | Ok l => Ok (with_permissions <$> l)
  end.

(** The check that the key is the user's. *)
Definition own_key (t : keytable) (userID keyID : string) (c : KeyCall) : option string :=
  match Keys_GetByID t (kcOrd c) keyID (kcFail c 0) with
  | Err _ => Some "API key not found"
  | Ok k => if negb (bool_decide (akUserID k = userID)) then Some "unauthorized: API key does not belong to user" else None
  end.
Definition written (r : result keytable) (t : keytable) : option string * keytable :=
  match r with Ok t' => (None, t') | Err e => (Some e, t) end.
Definition APIKey_Revoke (t : keytable) (userID keyID : string) (c : KeyCall) : option string * keytable :=
  match own_key t userID keyID c with
  | Some e => (Some e, t)
  | None => written (Keys_Revoke t keyID (kcNow c 0) (kcFail c 1)) t
  end.
Definition APIKey_Delete (t : keytable) (userID keyID : string) (c : KeyCall) : option string * keytable :=
  match own_key t userID keyID c with
  | Some e => (Some e, t)
  | None => written (Keys_Delete t keyID (kcFail c 1)) t
  end.

(** *** The service as a machine *)

Inductive KeyOp :=
| KoCreate (req : CreateAPIKeyRequest)
| KoUsed (id : string) (now : Z)
| KoRevoke (userID keyID : string)
| KoDelete (userID keyID : string).

Definition key_run (op : KeyOp) (c : KeyCall) (t : keytable) : keytable :=
  match op with
  | KoCreate req => snd (APIKey_Create t req c)
  | KoUsed id now => match UpdateLastUsed t id now (kcFail c 0) with Ok t' => t' | Err _ => t end
  | KoRevoke u id => snd (APIKey_Revoke t u id c)
  | KoDelete u id => snd (APIKey_Delete t u id c)
  end.

(** Calls one after the other, each of which satisfies [allowed]. *)
Inductive key_calls (allowed : KeyOp → KeyCall → Prop) : keytable → keytable → Prop :=
| kc_done t : key_calls allowed t t
| kc_call t op c t' : allowed op c → key_calls allowed (key_run op c t) t' → key_calls allowed t t'.

(** ** Lemmas *)

(** A key has 46 characters, so its prefix is there. *)
Lemma raw_key_length s : String.length s = 32 → String.length ("lf_" +:+ RawURLEncode s) = 46.
Proof. clear. intros H. do 32 (destruct s as [|? s]; [done|]). by destruct s. Qed.

Definition keys_ok (t : keytable) : Prop :=
  (∀ id k, t !! id = Some k → akID k = id)
  ∧ ∀ i j k k', t !! i = Some k → t !! j = Some k' → akKeyHash k = akKeyHash k' → i = j.

(** A row is kept but for the times of use and revocation. *)
Definition same_key (k k' : APIKey) : Prop :=
  akID k' = akID k ∧ akUserID k' = akUserID k ∧ akKeyHash k' = akKeyHash k ∧ akPermissions k' = akPermissions k
  ∧ akPermJSON k' = akPermJSON k ∧ akExpiresAt k' = akExpiresAt k.

Lemma same_key_trans k1 k2 k3 : same_key k1 k2 → same_key k2 k3 → same_key k1 k3.
Proof. clear. unfold same_key. intuition congruence. Qed.

(** What a call does to the table: a new row with a new hash, a row altered, or a
    row deleted. *)
Inductive row_change (t : keytable) : keytable → Prop :=
| rc_none : row_change t t
| rc_new k : t !! akID k = None → (∀ j k', t !! j = Some k' → akKeyHash k' ≠ akKeyHash k) → row_change t (<[akID k := k]> t)
| rc_alter id f : (∀ k, same_key k (f k)) → row_change t (alter f id t)
| rc_delete id : row_change t (delete id t).

Lemma Keys_Create_ok t k fail t' :
  Keys_Create t k fail = Ok t' → t !! akID k = None ∧ (∀ j k', t !! j = Some k' → akKeyHash k' ≠ akKeyHash k) ∧ t' = <[akID k := stored k]> t.
Proof.
  clear. unfold Keys_Create. intros E%try_ok. destruct (_ || _) eqn:Eo; [done|]. injection E as <-.
  apply orb_false_iff in Eo as [Ei Eh]. apply bool_decide_eq_false in Ei. split_and!; [by apply eq_None_not_Some| |done].
  intros j k' Hj E. apply not_true_iff_false in Eh. apply Eh. apply existsb_exists. exists (j, k').
  rewrite <- list_elem_of_In, elem_of_map_to_list. by rewrite bool_decide_true.
Qed.

Lemma key_run_change op c t : row_change t (key_run op c t).
Proof.
  destruct op as [req|id now|u id|u id]; simpl.
  - unfold APIKey_Create. destruct (kcRandom c); [|apply rc_none]. destruct (Keys_Create _ _ _) as [t'|] eqn:E; [|apply rc_none].
    apply Keys_Create_ok in E as (H1 & H2 & ->). exact (rc_new t (stored _) H1 H2).
  - unfold UpdateLastUsed, try. destruct (kcFail c 0 _); [apply rc_none|]. by apply rc_alter.
  - unfold APIKey_Revoke. destruct (own_key _ _ _ _); [apply rc_none|]. unfold Keys_Revoke, try.
    destruct (kcFail c 1 _); [apply rc_none|]. by apply rc_alter.
  - unfold APIKey_Delete. destruct (own_key _ _ _ _); [apply rc_none|]. unfold Keys_Delete, try.
    destruct (kcFail c 1 _); [apply rc_none|]. apply rc_delete.
Qed.

Lemma keys_ok_change t t' : keys_ok t → row_change t t' → keys_ok t'.
Proof.
  clear. intros [Hi Hu] [|k Hn Hh|id f Hf|id]; [done| | |].
  - split.
    + intros i k' E. apply lookup_insert_Some in E as [[<- <-]|[_ E]]; [done|]. by apply Hi.
    + intros i j k1 k2 E1 E2 Eh. apply lookup_insert_Some in E1 as [[<- <-]|[_ E1]];
        apply lookup_insert_Some in E2 as [[<- <-]|[_ E2]]; [done| | |by eapply Hu].
      * by destruct (Hh _ _ E2).
      * by destruct (Hh _ _ E1).
  - assert (∀ i k', alter f id t !! i = Some k' → ∃ k, t !! i = Some k ∧ same_key k k') as Ha.
    { intros i k' E. destruct (decide (i = id)) as [->|Hne].
      - rewrite lookup_alter_eq in E. destruct (t !! id) as [k|]; [|done]. injection E as <-. eauto.
      - rewrite lookup_alter_ne in E by done. exists k'. by repeat split. }
    split.
    + intros i k' (k & E & Es)%Ha. rewrite (proj1 Es). by apply Hi.
    + intros i j k1 k2 (k1' & E1 & S1)%Ha (k2' & E2 & S2)%Ha Eh. destruct S1 as (_ & _ & S1 & _), S2 as (_ & _ & S2 & _).
      eapply (Hu i j k1' k2'); congruence.
  - split.
    + intros i k E. apply lookup_delete_Some in E as [_ E]. by apply Hi.
    + intros i j k1 k2 E1 E2. apply lookup_delete_Some in E1 as [_ E1]. apply lookup_delete_Some in E2 as [_ E2]. by apply Hu.
Qed.

Lemma key_calls_ok allowed t t' : keys_ok t → key_calls allowed t t' → keys_ok t'.
Proof. intros H Hc. induction Hc as [|t op c t' _ _ IH]; [done|]. apply IH. eapply keys_ok_change; [done|apply key_run_change]. Qed.

(** A key is found by its hash while it is not revoked. *)
Lemma GetByKeyHash_row t ord k fail id :
  keys_ok t → range_order t ord → fail "SELECT api_keys" = None → t !! id = Some k → akRevokedAt k = None →
  GetByKeyHash t ord (akKeyHash k) fail = Ok k.
Proof.
  clear. intros [_ Hu] Ho Hf Hk Hr. unfold GetByKeyHash, try, first_key. rewrite Hf.
  set (cond := λ k0 : APIKey, _). assert (k ∈ rows_where t ord cond) as Hin.
  { apply rows_where_all; [done|]. exists id. split; [done|]. unfold cond. rewrite !bool_decide_true; done. }
  destruct (rows_where _ _ _) as [|k' l] eqn:E; [set_solver|]. simpl. f_equal.
  assert (k' ∈ rows_where t ord cond) as H' by (rewrite E; left). apply rows_where_elem in H' as (j & _ & Hj & Hc).
  apply andb_true_iff in Hc as [Hc _]. apply bool_decide_eq_true in Hc. assert (j = id) as -> by (by eapply (Hu j id k' k)). congruence.
Qed.

(** No key is found by a hash no live row has. *)
Lemma GetByKeyHash_none t ord hash fail :
  (∀ id k, t !! id = Some k → akKeyHash k = hash → akRevokedAt k ≠ None) → ∃ e, GetByKeyHash t ord hash fail = Err e.
Proof.
  clear. intros H. unfold GetByKeyHash, try, first_key. destruct (fail _); [by eauto|].
  destruct (head _) as [k|] eqn:E; [|by eauto]. apply head_Some_elem_of, rows_where_elem in E as (id & _ & Hk & Hc).
  apply andb_true_iff in Hc as [Hh Hr]. apply bool_decide_eq_true in Hh, Hr. by destruct (H _ _ Hk Hh).
Qed.

(** *** A key from its creation on *)

(** The calls that leave the key [id] of [u] alone. *)
Definition spares (u id : string) (op : KeyOp) (c : KeyCall) : Prop :=
  match op with
  | KoRevoke u' id' | KoDelete u' id' => ¬ (u' = u ∧ id' = id)
  | _ => True
  end.

Lemma own_key_spec t u id c k :
  keys_ok t → t !! id = Some k → akUserID k ≠ u → own_key t u id c ≠ None.
Proof.
  clear. intros [Hi _] Hk Hu. unfold own_key, Keys_GetByID, try, first_key. destruct (kcFail c 0 _); [done|].
  destruct (head _) as [k'|] eqn:E; [|done]. apply head_Some_elem_of, rows_where_elem in E as (j & _ & Hj & Hc).
  apply bool_decide_eq_true in Hc. assert (j = id) as -> by (by rewrite <- (Hi _ _ Hj)). rewrite Hk in Hj. injection Hj as <-.
  by rewrite bool_decide_false.
Qed.

Lemma spared_row t op c id k :
  keys_ok t → spares (akUserID k) id op c → t !! id = Some k → akRevokedAt k = None →
  ∃ k', key_run op c t !! id = Some k' ∧ same_key k k' ∧ akRevokedAt k' = None.
Proof.
  intros Hok Hs Hk Hr. assert (∃ k', t !! id = Some k' ∧ same_key k k' ∧ akRevokedAt k' = None) as Hsame by (exists k; by repeat split).
  destruct op as [req|id' now|u id'|u id']; simpl in *.
  - unfold APIKey_Create. destruct (kcRandom c); [|done]. destruct (Keys_Create _ _ _) as [t'|] eqn:E; [|done].
    apply Keys_Create_ok in E as (H1 & _ & ->). simpl. rewrite lookup_insert_ne; [done|]. intros <-. simpl in H1. congruence.
  - unfold UpdateLastUsed, try. destruct (kcFail c 0 _); [done|]. destruct (decide (id' = id)) as [->|Hne].
    + rewrite lookup_alter_eq, Hk. eexists. split; [done|]. by repeat split.
    + by rewrite lookup_alter_ne.
  - unfold APIKey_Revoke. destruct (own_key t u id' c) eqn:Eo; [done|]. unfold Keys_Revoke, try. destruct (kcFail c 1 _); [done|]. simpl.
    destruct (decide (id' = id)) as [->|Hne]; [|by rewrite lookup_alter_ne]. exfalso. eapply own_key_spec; [done|done| |done]. naive_solver.
  - unfold APIKey_Delete. destruct (own_key t u id' c) eqn:Eo; [done|]. unfold Keys_Delete, try. destruct (kcFail c 1 _); [done|]. simpl.
    destruct (decide (id' = id)) as [->|Hne]; [|by rewrite lookup_delete_ne]. exfalso. eapply own_key_spec; [done|done| |done]. naive_solver.
Qed.

Lemma spared_calls t t' id k :
  keys_ok t → key_calls (spares (akUserID k) id) t t' → t !! id = Some k → akRevokedAt k = None →
  ∃ k', t' !! id = Some k' ∧ same_key k k' ∧ akRevokedAt k' = None.
Proof.
  intros Hok Hc Hk Hr. remember (akUserID k) as u eqn:Eu. revert k Eu Hok Hk Hr.
  induction Hc as [t|t op c t' Ha Hc IH]; intros k -> Hok Hk Hr; [exists k; by repeat split|].
  destruct (spared_row t op c id k Hok Ha Hk Hr) as (k1 & Hk1 & Hs1 & Hr1).
  destruct (IH k1) as (k2 & Hk2 & Hs2 & Hr2); [symmetry; apply Hs1|eapply keys_ok_change; [done|apply key_run_change]|done|done|].
  exists k2. split; [done|]. split; [by eapply same_key_trans|done].
Qed.

(** The creations that do not use the hash again. *)
Definition other_hash (hash : string) (op : KeyOp) (c : KeyCall) : Prop :=
  match op with
  | KoCreate _ => ∀ b, kcRandom c = Ok b → sha256_hex ("lf_" +:+ RawURLEncode b) ≠ hash
  | _ => True
  end.
Definition no_live (t : keytable) (hash : string) : Prop :=
  ∀ id k, t !! id = Some k → akKeyHash k = hash → akRevokedAt k ≠ None.

Lemma no_live_calls t t' hash : key_calls (other_hash hash) t t' → no_live t hash → no_live t' hash.
Proof.
  induction 1 as [|t op c t' Ha _ IH]; [done|]. intros H. apply IH. clear IH t'. intros id k E Eh.
  destruct op as [req|id' now|u id'|u id']; simpl in *.
  - unfold APIKey_Create in E. destruct (kcRandom c) as [b|]; [|by eapply H]. destruct (Keys_Create _ _ _) as [t'|] eqn:Ec; [|by eapply H].
    apply Keys_Create_ok in Ec as (_ & _ & ->). simpl in E. apply lookup_insert_Some in E as [[_ <-]|[_ E]]; [|by eapply H].
    simpl in Eh. by destruct (Ha b).
  - unfold UpdateLastUsed, try in E. destruct (kcFail c 0 _); [by eapply H|]. destruct (decide (id' = id)) as [->|Hne].
    + rewrite lookup_alter_eq in E. destruct (t !! id) as [k0|] eqn:E0; [|done]. injection E as <-. simpl in *. by eapply (H id k0).
    + rewrite lookup_alter_ne in E by done. by eapply H.
  - unfold APIKey_Revoke in E. destruct (own_key _ _ _ _); [by eapply H|]. unfold Keys_Revoke, try in E.
    destruct (kcFail c 1 _); [by eapply H|]. simpl in E. destruct (decide (id' = id)) as [->|Hne].
    + rewrite lookup_alter_eq in E. destruct (t !! id) as [k0|]; [|done]. by injection E as <-.
    + rewrite lookup_alter_ne in E by done. by eapply H.
  - unfold APIKey_Delete in E. destruct (own_key _ _ _ _); [by eapply H|]. unfold Keys_Delete, try in E.
    destruct (kcFail c 1 _); [by eapply H|]. simpl in E. apply lookup_delete_Some in E as [_ E]. by eapply H.
Qed.

(** The owner's revocation or deletion leaves no live row of the key. *)
Lemma withdrawn t u id c t' k :
  keys_ok t → t !! id = Some k → APIKey_Revoke t u id c = (None, t') ∨ APIKey_Delete t u id c = (None, t') → no_live t' (akKeyHash k).
Proof.
  clear. intros [Hi Hu] Hk H i k' E Eh. destruct H as [H|H]; unfold APIKey_Revoke, APIKey_Delete in H; destruct (own_key _ _ _ _); try done.
  - unfold Keys_Revoke, try in H. destruct (kcFail c 1 _); [done|]. injection H as <-. destruct (decide (i = id)) as [->|Hne].
    + rewrite lookup_alter_eq, Hk in E. by injection E as <-.
    + rewrite lookup_alter_ne in E by done. by destruct (Hu i id k' k E Hk Eh).
  - unfold Keys_Delete, try in H. destruct (kcFail c 1 _); [done|]. injection H as <-. apply lookup_delete_Some in E as [Hne E].
    by destruct (Hu i id k' k E Hk Eh).
Qed.

(** The permissions come back, unless one has a comma or there is only an empty
    one. *)
Lemma permissions_round_trip k ps :
  akPermissions k = [] → akPermJSON k = String.concat "," ps → Forall (λ p, no_char ","%char p = true) ps → ps ≠ [""] →
  akPermissions (with_permissions k) = ps.
Proof.
  clear. intros Hk Hj Hf Hne. unfold with_permissions. rewrite Hj. case_bool_decide as E.
  - destruct ps as [|p [|q ps]]; [done| |].
    + simpl in E. by subst p.
    + simpl in E. by destruct p.
  - apply split_concat; [|done]. by intros ->.
Qed.

(** What the permissions of a key come back as: the pieces, at the commas, of the
    permissions joined with commas. *)
Definition returned_permissions (ps : list string) : list string :=
  let joined := String.concat "," ps in if bool_decide (joined = "") then [] else GoText.split joined ",".

Lemma permissions_returned k ps :
  akPermissions k = [] → akPermJSON k = String.concat "," ps → akPermissions (with_permissions k) = returned_permissions ps.
Proof. clear. intros Hk Hj. unfold with_permissions, returned_permissions. rewrite Hj. by case_bool_decide. Qed.

(** C28. The life of an API key: from its creation on the key validates, as its
    user's, whatever calls are made other than its owner's revocation or
    deletion of it, until it expires, when the select succeeds; its permissions
    are the pieces at the commas of the requested ones, which are the requested
    ones when none of these contains a comma and they are not the single empty
    one; with a comma they can be more ([comma_permission_escalates]).  After
    the owner withdraws it, it is refused for ever, unless a later key hashes
    to the same text. *)
Theorem api_key_life t req c resp t1 :
  keys_ok t → APIKey_Create t req c = (Ok resp, t1) →
  (∀ t2 c', key_calls (spares (ckUserID req) (kcUuid c)) t1 t2 → range_order t2 (kcOrd c') → kcFail c' 0 "SELECT api_keys" = None →
     if APIKey_IsExpired (crAPIKey resp) (kcNow c' 0) then APIKey_Validate t2 (crRawKey resp) c' = Err "API key has expired"
     else ∃ k, APIKey_Validate t2 (crRawKey resp) c' = Ok k ∧ akID k = kcUuid c ∧ akUserID k = ckUserID req
            ∧ akPermissions k = returned_permissions (ckPermissions req)
            ∧ (Forall (λ p, no_char ","%char p = true) (ckPermissions req) → ckPermissions req ≠ [""] →
               akPermissions k = ckPermissions req))
  ∧ ∀ t2 t3 t4 c2 c', key_calls (spares (ckUserID req) (kcUuid c)) t1 t2 →
      APIKey_Revoke t2 (ckUserID req) (kcUuid c) c2 = (None, t3) ∨ APIKey_Delete t2 (ckUserID req) (kcUuid c) c2 = (None, t3) →
      key_calls (other_hash (sha256_hex (crRawKey resp))) t3 t4 → APIKey_Validate t4 (crRawKey resp) c' = Err "invalid API key".
Proof.
  intros Hok. unfold APIKey_Create. destruct (kcRandom c) as [b|]; [|done]. set (raw := "lf_" +:+ RawURLEncode b).
  destruct (Keys_Create _ _ _) as [t'|] eqn:Ec; [|done]. intros [= <- <-]. cbn [crAPIKey crRawKey]. set (k0 := new_key req raw c) in *.
  apply Keys_Create_ok in Ec as (H1 & H2 & ->). assert (keys_ok (<[akID k0 := stored k0]> t)) as Hok1
    by (eapply keys_ok_change; [done|exact (rc_new t (stored k0) H1 H2)]).
  assert (∀ t2, key_calls (spares (ckUserID req) (kcUuid c)) (<[akID k0 := stored k0]> t) t2 →
    keys_ok t2 ∧ ∃ k, t2 !! kcUuid c = Some k ∧ same_key (stored k0) k ∧ akRevokedAt k = None) as Hkey.
  { intros t2 Hc. split; [by eapply key_calls_ok|]. eapply spared_calls; [exact Hok1|exact Hc| |done]. by rewrite lookup_insert_eq. }
  split.
  - intros t2 c' Hc Ho Hf. destruct (Hkey _ Hc) as (Hok2 & k & Hk & (Ei & Eu & Eh & Ep & Ej & Ee) & Hr).
    unfold APIKey_Validate. change (sha256_hex raw) with (akKeyHash (stored k0)). rewrite <- Eh.
    rewrite (GetByKeyHash_row t2 _ k _ (kcUuid c)) by done. unfold APIKey_IsRevoked, APIKey_IsExpired. rewrite Hr, bool_decide_false, Ee by naive_solver.
    change (akExpiresAt (stored k0)) with (akExpiresAt k0). destruct (match akExpiresAt k0 with Some _ => _ | None => _ end); [done|].
    exists (with_permissions k). split; [done|]. split_and!; [by unfold with_permissions; case_bool_decide..| |].
    + by apply permissions_returned.
    + by apply permissions_round_trip.
  - intros t2 t3 t4 c2 c' Hc Hw Hl. destruct (Hkey _ Hc) as (Hok2 & k & Hk & Hs & _).
    pose proof (withdrawn _ _ _ _ _ _ Hok2 Hk Hw) as Hn. destruct Hs as (_ & _ & Eh & _). rewrite Eh in Hn.
    pose proof (no_live_calls _ _ _ Hl Hn) as Hn4. unfold APIKey_Validate.
    destruct (GetByKeyHash_none t4 (kcOrd c') (sha256_hex raw) (kcFail c' 0) Hn4) as [e ->]. done.
Qed.

(** Only the owner withdraws a key. *)
Lemma foreign_key_untouched t u id c k :
  keys_ok t → t !! id = Some k → akUserID k ≠ u →
  snd (APIKey_Revoke t u id c) = t ∧ snd (APIKey_Delete t u id c) = t
  ∧ fst (APIKey_Revoke t u id c) ≠ None ∧ fst (APIKey_Delete t u id c) ≠ None.
Proof.
  clear. intros Hok Hk Hu. pose proof (own_key_spec t u id c k Hok Hk Hu). unfold APIKey_Revoke, APIKey_Delete.
  by destruct (own_key t u id c).
Qed.

(** A revoked key is answered as an unknown one. *)
Lemma revoked_key_unknown t raw c : APIKey_Validate t raw c ≠ Err "API key has been revoked".
Proof.
  unfold APIKey_Validate. destruct (GetByKeyHash _ _ _ _) as [k|] eqn:E; [|done]. unfold GetByKeyHash, first_key in E. apply try_ok in E.
  destruct (head _) as [k'|] eqn:Eh; [|done]. injection E as ->. apply head_Some_elem_of, rows_where_elem in Eh as (id & _ & _ & Hc).
  apply andb_true_iff in Hc as [_ Hr]. apply bool_decide_eq_true in Hr. unfold APIKey_IsRevoked. rewrite Hr, bool_decide_false by naive_solver.
  by destruct (APIKey_IsExpired _ _).
Qed.
End service.

(** ** Concrete runs *)

Definition demo_key_request (ps : list string) : CreateAPIKeyRequest :=
  {| ckUserID := "u"; ckName := "ci"; ckPermissions := ps; ckExpiresIn := Some Hour |}.
Definition demo_key_call (now : Z) (ord : list string) : KeyCall :=
  {| kcNow := λ _, now; kcUuid := "k1"; kcRandom := Ok "0123456789abcdef0123456789abcdef"; kcOrd := ord; kcFail := λ _ _, None |}.
Definition demo_key_table (ps : list string) : keytable := snd (APIKey_Create id ∅ (demo_key_request ps) (demo_key_call 0 [])).

Example demo_raw_key : RawURLEncode "0123456789abcdef0123456789abcdef" = "MDEyMzQ1Njc4OWFiY2RlZjAxMjM0NTY3ODlhYmNkZWY".
Proof. vm_compute. done. Qed.

(** A permission with a comma comes back as several: with one of them a wildcard
    the key may do everything. *)
Example comma_permission_escalates :
  match APIKey_Validate id (demo_key_table ["tag:a,*"]) ("lf_" +:+ RawURLEncode "0123456789abcdef0123456789abcdef") (demo_key_call 5 ["k1"]) with
  | Ok k => APIKey_HasPermission k "users" "delete" = true
  | Err _ => False
  end.
Proof. vm_compute. done. Qed.

Lemma api_key_life_witness :
  APIKey_Validate id (snd (APIKey_Revoke (demo_key_table ["a:b"]) "u" "k1" (demo_key_call 1 ["k1"])))
    ("lf_" +:+ RawURLEncode "0123456789abcdef0123456789abcdef") (demo_key_call 5 ["k1"])
  = Err "invalid API key".
Proof.
  refine (proj2 (api_key_life id ∅ (demo_key_request ["a:b"]) (demo_key_call 0 [])
    {| crAPIKey := new_key id (demo_key_request ["a:b"]) ("lf_" +:+ RawURLEncode "0123456789abcdef0123456789abcdef") (demo_key_call 0 []);
       crRawKey := "lf_" +:+ RawURLEncode "0123456789abcdef0123456789abcdef" |}
    (demo_key_table ["a:b"]) _ _) (demo_key_table ["a:b"]) _ _ (demo_key_call 1 ["k1"]) (demo_key_call 5 ["k1"]) _ (or_introl _) _).
  - split; [intros i k H|intros i j k k' H]; by rewrite lookup_empty in H.
  - vm_compute. reflexivity.
  - apply kc_done.
  - vm_compute. reflexivity.
  - apply kc_done.
Defined.
