(* ===== verification/Webhooks.v ===== *)
(** pkg/contracts/webhook and internal/webhook: the webhook endpoints, their
    repository and the service with its cache, its rate limit and the handling of
    requests.

    HMAC-SHA256 (in hexadecimal) and encoding/json are parameters.  The cache holds
    pointers, each under one path only, which the service alone changes: a request
    that finds its webhook in the cache changes it there. *)

From S2P Require Import Prelude GoValue GoLib GoText WorkflowRepo Redis Tokens.
From stdpp Require Import sorting.
From Stdlib Require Import Ascii.

(** ** The contract *)

Definition ErrWebhookNotFound := "webhook not found".
Definition ErrWebhookDisabled := "webhook is disabled".
Definition ErrInvalidSignature := "invalid webhook signature".
Definition ErrWebhookExpired := "webhook has expired".
Definition ErrRateLimitExceeded := "rate limit exceeded".

(** [map[string]string], possibly nil. *)
Abbreviation smap := (gmap string string).

Record Webhook := {
  whID : string;
  whWorkflowID : string;
  whNodeID : string;
  whUserID : string;
  whName : string;
  whPath : string;
  whMethod : string;
  whSecret : string;
  whIsActive : bool;
  whRequireAuth : bool;
  whAuthType : string;
  whAuthConfig : option smap;
  whHeaders : option smap;
  whRateLimit : Z;
  whExpiresAt : option Z;
  whLastCalledAt : option Z;
  whCallCount : Z;
  whCreatedAt : Z;
  whUpdatedAt : Z
}.

Record WebhookExecution := {
  weID : string;
  weWebhookID : string;
  weWorkflowID : string;
  weMethod : string;
  wePath : string;
  weHeaders : smap;
  weQueryParams : smap;
  weBody : string;
  weContentType : string;
  weIPAddress : string;
  weUserAgent : string;
  weStatus : string;
  weError : string;
  weProcessedAt : option Z;
  weDuration : Z;
  weCreatedAt : Z
}.

(** Updates of the fields the code assigns. *)
Definition set_webhook (w : Webhook) (name method : string) (active requireAuth : bool) (authType : string)
    (authConfig headers : option smap) (rateLimit : Z) (last : option Z) (count updated : Z) : Webhook :=
  {| whID := whID w; whWorkflowID := whWorkflowID w; whNodeID := whNodeID w; whUserID := whUserID w; whName := name;
     whPath := whPath w; whMethod := method; whSecret := whSecret w; whIsActive := active; whRequireAuth := requireAuth;
     whAuthType := authType; whAuthConfig := authConfig; whHeaders := headers; whRateLimit := rateLimit;
     whExpiresAt := whExpiresAt w; whLastCalledAt := last; whCallCount := count; whCreatedAt := whCreatedAt w;
     whUpdatedAt := updated |}.
Definition set_stats (w : Webhook) (active : bool) (last : option Z) (count updated : Z) : Webhook :=
  set_webhook w (whName w) (whMethod w) active (whRequireAuth w) (whAuthType w) (whAuthConfig w) (whHeaders w) (whRateLimit w)
    last count updated.
Definition touch (w : Webhook) (now : Z) : Webhook := set_stats w (whIsActive w) (whLastCalledAt w) (whCallCount w) now.
Definition set_active (w : Webhook) (b : bool) : Webhook := set_stats w b (whLastCalledAt w) (whCallCount w) (whUpdatedAt w).

Definition NewWebhook (workflowID nodeID userID path id secret : string) (now1 now2 : Z) : Webhook :=
  {| whID := id; whWorkflowID := workflowID; whNodeID := nodeID; whUserID := userID; whName := ""; whPath := path;
     whMethod := "POST"; whSecret := secret; whIsActive := true; whRequireAuth := false; whAuthType := "";
     whAuthConfig := Some ∅; whHeaders := Some ∅; whRateLimit := 100; whExpiresAt := None; whLastCalledAt := None;
     whCallCount := 0; whCreatedAt := now1; whUpdatedAt := now2 |}.

Definition validMethods : list string := ["GET"; "POST"; "PUT"; "DELETE"; "PATCH"].

(** [Validate] also fills in an empty method. *)
Definition Webhook_Validate (w : Webhook) : Webhook * option string :=
  if bool_decide (whWorkflowID w = "") then (w, Some "workflow ID is required")
  else if bool_decide (whPath w = "") then (w, Some "webhook path is required")
  else
    let w := if bool_decide (whMethod w = "")
             then set_webhook w (whName w) "POST" (whIsActive w) (whRequireAuth w) (whAuthType w) (whAuthConfig w) (whHeaders w)
                    (whRateLimit w) (whLastCalledAt w) (whCallCount w) (whUpdatedAt w)
             else w in
    (w, if bool_decide (whMethod w ∈ validMethods) then None else Some "invalid HTTP method").

Definition Webhook_IsExpired (w : Webhook) (now : Z) : bool :=
  match whExpiresAt w with Some e => bool_decide (e < now)%Z | None => false end.
Definition CanAccept (w : Webhook) (now : Z) : option string :=
  if negb (whIsActive w) then Some ErrWebhookDisabled
  else if Webhook_IsExpired w now then Some ErrWebhookExpired
  else None.
Definition RecordCall (w : Webhook) (now : Z) : Webhook := set_stats w (whIsActive w) (Some now) (wrap64 (whCallCount w + 1)) now.
Definition GetURL (w : Webhook) (baseURL : string) : string := baseURL +:+ "/webhooks/" +:+ whPath w.

(** ** Requests of net/http *)

(** The bytes of a header field name. *)
Definition valid_header_byte (c : ascii) : bool :=
  let n := N_of_ascii c in
  ((48 <=? n) && (n <=? 57))%N || ((65 <=? n) && (n <=? 90))%N || ((97 <=? n) && (n <=? 122))%N
  || bool_decide (c ∈ ["!"; "#"; "$"; "%"; "&"; "'"; "*"; "+"; "-"; "."; "^"; "_"; "`"; "|"; "~"]%char).
Fixpoint canonical (upper : bool) (s : string) : string :=
  match s with
  | "" => ""
  | String c s' => String (if upper then upper_ascii c else lower_ascii c) (canonical (bool_decide (c = "-"%char)) s')
  end.
(** [textproto.CanonicalMIMEHeaderKey]. *)
Definition CanonicalHeaderKey (s : string) : string := if string_forall valid_header_byte s then canonical true s else s.

Abbreviation header := (gmap string (list string)).
Definition Header_Get (h : header) (k : string) : string :=
  match h !! CanonicalHeaderKey k with Some (v :: _) => v | _ => "" end.

(** A request; its body or the error of reading it, and the credentials
    [BasicAuth] reads from its header. *)
Record Request := {
  hrMethod : string;
  hrHeader : header;
  hrQuery : header;
  hrBody : result string;
  hrRemoteAddr : string;
  hrBasicAuth : option (string * string)
}.

Definition headerToMap (h : header) : smap := omap head h.
Definition queryToMap (q : header) : smap := omap head q.

(** ** The repository *)

Abbreviation webhooks := (gmap string Webhook).
Definition on_path (path : string) (w : Webhook) : bool := bool_decide (whPath w = path).
(** The unique index on the path, for the row of [id]. *)
Definition path_taken (t : webhooks) (id path : string) : bool :=
  existsb (λ p, negb (bool_decide (p.1 = id)) && on_path path p.2) (map_to_list t).

Definition Webhook_Create (t : webhooks) (w : Webhook) (fail : db_fail) : result webhooks :=
  try fail "INSERT webhooks"
    (if bool_decide (is_Some (t !! whID w)) || path_taken t (whID w) (whPath w) then Err duplicate_key
     else Ok (<[whID w := w]> t)).
Definition Webhook_GetByID (t : webhooks) (id : string) (fail : db_fail) : result Webhook :=
  match try fail "SELECT webhooks" (match t !! id with Some w => Ok w | None => Err "record not found" end) with
  | Ok w => Ok w
  | Err _ => Err ErrWebhookNotFound
  end.
Definition Webhook_GetByPath (t : webhooks) (ord : list string) (path : string) (fail : db_fail) : result Webhook :=
  match try fail "SELECT webhooks" (match head (rows_where t ord (on_path path)) with Some w => Ok w | None => Err "record not found" end) with
  | Ok w => Ok w
  | Err _ => Err ErrWebhookNotFound
  end.
Definition ListActive (t : webhooks) (ord : list string) (fail : db_fail) : result (list Webhook) :=
  try fail "SELECT webhooks" (Ok (rows_where t ord whIsActive)).
Definition ListByUser (t : webhooks) (ord : list string) (userID : string) (fail : db_fail) : result (list Webhook) :=
  try fail "SELECT webhooks" (Ok (rows_where t ord (λ w, bool_decide (whUserID w = userID)))).
Definition ListByWorkflow (t : webhooks) (ord : list string) (workflowID : string) (fail : db_fail) : result (list Webhook) :=
  try fail "SELECT webhooks" (Ok (rows_where t ord (λ w, bool_decide (whWorkflowID w = workflowID)))).
(** [Save]: an upsert of the whole row, with the time of update set on the
    pointer as well. *)
Definition Webhook_Update (t : webhooks) (w : Webhook) (now : Z) (fail : db_fail) : Webhook * result webhooks :=
  let w := touch w now in
  (w, try fail "UPDATE webhooks" (if path_taken t (whID w) (whPath w) then Err duplicate_key else Ok (<[whID w := w]> t))).
Definition Webhook_Delete (t : webhooks) (id : string) (fail : db_fail) : result webhooks :=
  try fail "DELETE webhooks" (Ok (delete id t)).

Abbreviation executions := (gmap string WebhookExecution).
Definition RecordExecution (t : executions) (e : WebhookExecution) (fail : db_fail) : result executions :=
  try fail "INSERT webhook_logs" (if bool_decide (is_Some (t !! weID e)) then Err duplicate_key else Ok (<[weID e := e]> t)).
Definition UpdateExecution (t : executions) (e : WebhookExecution) (fail : db_fail) : result executions :=
  try fail "UPDATE webhook_logs" (Ok (<[weID e := e]> t)).
Definition GetExecution (t : executions) (id : string) (fail : db_fail) : result WebhookExecution :=
  try fail "SELECT webhook_logs" (match t !! id with Some e => Ok e | None => Err "record not found" end).
Definition newest_call (a b : WebhookExecution) : Prop := (weCreatedAt b ≤ weCreatedAt a)%Z.
#[global] Instance newest_call_dec : RelDecision newest_call.
Proof. intros a b. unfold newest_call. apply _. Defined.
Definition executions_of (t : executions) (ord : list string) (webhookID : string) : list WebhookExecution :=
  rows_where t ord (λ e, bool_decide (weWebhookID e = webhookID)).
Definition ListExecutions (t : executions) (ord : list string) (webhookID : string) (limit : Z) (fail : db_fail) :
    result (list WebhookExecution) :=
  try fail "SELECT webhook_logs"
    (let l := merge_sort newest_call (executions_of t ord webhookID) in
     Ok (if bool_decide (0 < limit)%Z then take (Z.to_nat limit) l else l)).
Definition GetExecutionStats (t : executions) (ord : list string) (webhookID : string) (fail : db_fail) : result (gmap string Z) :=
  try fail "SELECT webhook_logs"
    (Ok (foldl (λ m e, <[weStatus e := (get_int m (weStatus e) + 1)%Z]> m) ∅ (executions_of t ord webhookID))).

(** ** The service *)

Record WebhookService := {
  wsTable : webhooks;
  wsExecutions : executions;
  wsRedis : redis;
  wsWebhooks : webhooks;
  wsEvents : list (string * string * vmap)
}.
(** What a call reads from outside; [wcBus] is the error of publishing. *)
Record WebhookCall := {
  wcNow : nat → Z;
  wcUuid : nat → string;
  wcOrd : list string;
  wcFail : nat → db_fail;
  wcRedisFails : nat → bool;
  wcBus : option string
}.

Definition put_table (s : WebhookService) (t : webhooks) : WebhookService :=
  {| wsTable := t; wsExecutions := wsExecutions s; wsRedis := wsRedis s; wsWebhooks := wsWebhooks s; wsEvents := wsEvents s |}.
Definition put_executions (s : WebhookService) (t : executions) : WebhookService :=
  {| wsTable := wsTable s; wsExecutions := t; wsRedis := wsRedis s; wsWebhooks := wsWebhooks s; wsEvents := wsEvents s |}.
Definition put_redis (s : WebhookService) (r : redis) : WebhookService :=
  {| wsTable := wsTable s; wsExecutions := wsExecutions s; wsRedis := r; wsWebhooks := wsWebhooks s; wsEvents := wsEvents s |}.
Definition put_cache (s : WebhookService) (m : webhooks) : WebhookService :=
  {| wsTable := wsTable s; wsExecutions := wsExecutions s; wsRedis := wsRedis s; wsWebhooks := m; wsEvents := wsEvents s |}.
Definition published (s : WebhookService) (c : WebhookCall) (e : string * string * vmap) : WebhookService :=
  match wcBus c with
  | Some _ => s
  | None => {| wsTable := wsTable s; wsExecutions := wsExecutions s; wsRedis := wsRedis s; wsWebhooks := wsWebhooks s;
               wsEvents := wsEvents s ++ [e] |}
  end.
(** A write whose error is dropped. *)
Definition try_table (s : WebhookService) (r : result webhooks) : WebhookService :=
  match r with Ok t => put_table s t | Err _ => s end.
Definition try_executions (s : WebhookService) (r : result executions) : WebhookService :=
  match r with Ok t => put_executions s t | Err _ => s end.

Definition NewWebhookService (t : webhooks) (x : executions) (r : redis) : WebhookService :=
  {| wsTable := t; wsExecutions := x; wsRedis := r; wsWebhooks := ∅; wsEvents := [] |}.

Definition cache_put (m : webhooks) (w : Webhook) : webhooks := <[whPath w := w]> m.

Definition loadWebhooks (s : WebhookService) (c : WebhookCall) : result WebhookService :=
  match ListActive (wsTable s) (wcOrd c) (wcFail c 0) with
  | Err e => Err e
  | Ok l => Ok (put_cache s (foldl cache_put (wsWebhooks s) l))
  end.
Definition Webhook_Start (s : WebhookService) (c : WebhookCall) : option string * WebhookService :=
  match loadWebhooks s c with
  | Err e => (Some ("failed to load webhooks: " +:+ e), s)
  | Ok s' => (None, s')
  end.

Record CreateWebhookRequest := {
  cwWorkflowID : string;
  cwNodeID : string;
  cwUserID : string;
  cwName : string;
  cwPath : string;
  cwMethod : string;
  cwRequireAuth : bool;
  cwAuthType : string;
  cwAuthConfig : option smap;
  cwHeaders : option smap;
  cwRateLimit : Z
}.

Definition trim_prefix (pre s : string) : string :=
  if String.prefix pre s then String.substring (String.length pre) (String.length s - String.length pre) s else s.

(** The webhook of a request, before its validation. *)
Definition webhook_of (req : CreateWebhookRequest) (path : string) (c : WebhookCall) : Webhook :=
  set_webhook (NewWebhook (cwWorkflowID req) (cwNodeID req) (cwUserID req) path (wcUuid c 1) (wcUuid c 2) (wcNow c 0) (wcNow c 1))
    (cwName req) (if bool_decide (cwMethod req = "") then "POST" else cwMethod req) true (cwRequireAuth req) (cwAuthType req)
    (cwAuthConfig req) (cwHeaders req) (if bool_decide (cwRateLimit req = 0%Z) then 100 else cwRateLimit req) None 0 (wcNow c 1).

Definition CreateWebhook (s : WebhookService) (req : CreateWebhookRequest) (c : WebhookCall) : result Webhook * WebhookService :=
  let path := if bool_decide (cwPath req = "") then wcUuid c 0 else cwPath req in
  let path := trim_prefix "/" path in
  match Webhook_GetByPath (wsTable s) (wcOrd c) path (wcFail c 0) with
  | Ok _ => (Err "webhook path already exists", s)
  | Err _ =>
      match Webhook_Validate (webhook_of req path c) with
      | (_, Some e) => (Err e, s)
      | (wh, None) =>
          match Webhook_Create (wsTable s) wh (wcFail c 1) with
          | Err e => (Err ("failed to create webhook: " +:+ e), s)
          | Ok t =>
              let s := put_cache (put_table s t) (cache_put (wsWebhooks s) wh) in
              (Ok wh, published s c ("webhook.created", whID wh,
                 <["path" := VStr (whPath wh)]> {["workflowId" := VStr (whWorkflowID wh)]}))
          end
      end
  end.

Definition Webhook_Get (s : WebhookService) (id : string) (c : WebhookCall) : result Webhook :=
  Webhook_GetByID (wsTable s) id (wcFail c 0).
Definition GetWebhookByPath (s : WebhookService) (path : string) (c : WebhookCall) : result Webhook :=
  match wsWebhooks s !! path with
  | Some wh => Ok wh
  | None => Webhook_GetByPath (wsTable s) (wcOrd c) path (wcFail c 0)
  end.
Definition ListWebhooks (s : WebhookService) (userID : string) (c : WebhookCall) : result (list Webhook) :=
  ListByUser (wsTable s) (wcOrd c) userID (wcFail c 0).
Definition ListWebhooksByWorkflow (s : WebhookService) (workflowID : string) (c : WebhookCall) : result (list Webhook) :=
  ListByWorkflow (wsTable s) (wcOrd c) workflowID (wcFail c 0).

Record UpdateWebhookRequest := {
  uwName : string;
  uwMethod : string;
  uwIsActive : option bool;
  uwRequireAuth : option bool;
  uwAuthType : string;
  uwAuthConfig : option smap;
  uwRateLimit : Z
}.
Definition or_old (new old : string) : string := if bool_decide (new = "") then old else new.
Definition updated_webhook (wh : Webhook) (req : UpdateWebhookRequest) (now : Z) : Webhook :=
  set_webhook wh (or_old (uwName req) (whName wh)) (or_old (uwMethod req) (whMethod wh)) (default (whIsActive wh) (uwIsActive req))
    (default (whRequireAuth wh) (uwRequireAuth req)) (or_old (uwAuthType req) (whAuthType wh))
    (match uwAuthConfig req with Some m => Some m | None => whAuthConfig wh end) (whHeaders wh)
    (if bool_decide (0 < uwRateLimit req)%Z then uwRateLimit req else whRateLimit wh) (whLastCalledAt wh) (whCallCount wh) now.

Definition UpdateWebhook (s : WebhookService) (id : string) (req : UpdateWebhookRequest) (c : WebhookCall) :
    result Webhook * WebhookService :=
  match Webhook_GetByID (wsTable s) id (wcFail c 0) with
  | Err e => (Err e, s)
  | Ok wh =>
      match Webhook_Update (wsTable s) (updated_webhook wh req (wcNow c 0)) (wcNow c 1) (wcFail c 1) with
      | (_, Err e) => (Err ("failed to update webhook: " +:+ e), s)
      | (wh, Ok t) => (Ok wh, put_cache (put_table s t) (cache_put (wsWebhooks s) wh))
      end
  end.

Definition DeleteWebhook (s : WebhookService) (id : string) (c : WebhookCall) : option string * WebhookService :=
  match Webhook_GetByID (wsTable s) id (wcFail c 0) with
  | Err e => (Some e, s)
  | Ok wh =>
      match Webhook_Delete (wsTable s) id (wcFail c 1) with
      | Err e => (Some ("failed to delete webhook: " +:+ e), s)
      | Ok t =>
          let s := put_cache (put_table s t) (delete (whPath wh) (wsWebhooks s)) in
          (None, published s c ("webhook.deleted", id, {["path" := VStr (whPath wh)]}))
      end
  end.

(** *** Incoming requests *)

Definition rate_key (id : string) : string := "webhook:ratelimit:" +:+ id.

Definition checkRateLimit (s : WebhookService) (wh : Webhook) (c : WebhookCall) : option string * WebhookService :=
  if wcRedisFails c 0 then (None, s)
  else
    match redis_incr (wsRedis s) (wcNow c 0) (rate_key (whID wh)) with
    | None => (None, s)
    | Some (count, r) =>
        let r := if bool_decide (count = 1%Z) && negb (wcRedisFails c 1)
                 then redis_expire r (wcNow c 0) (rate_key (whID wh)) Minute else r in
        (if bool_decide (whRateLimit wh < count)%Z then Some ErrRateLimitExceeded else None, put_redis s r)
    end.

Definition config (wh : Webhook) (k : string) : string := default "" (default ∅ (whAuthConfig wh) !! k).

Definition verifyAuth (wh : Webhook) (r : Request) : option string :=
  if bool_decide (whAuthType wh = "header") then
    if bool_decide (Header_Get (hrHeader r) (config wh "headerName") = config wh "headerValue") then None
    else Some "invalid auth header"
  else if bool_decide (whAuthType wh = "basic") then
    match hrBasicAuth r with
    | None => Some "basic auth required"
    | Some (username, password) =>
        if bool_decide (username = config wh "username") && bool_decide (password = config wh "password") then None
        else Some "invalid credentials"
    end
  else if bool_decide (whAuthType wh = "bearer") then
    if bool_decide (trim_prefix "Bearer " (Header_Get (hrHeader r) "Authorization") = config wh "token") then None
    else Some "invalid bearer token"
  else None.

Record WebhookResponse := {
  wrSuccess : bool;
  wrExecutionID : string;
  wrMessage : string
}.
(** The response, the status and the error. *)
Abbreviation reply := (option WebhookResponse * Z * option string)%type.
Definition refuse (status : Z) (err : string) : outcome reply := Ret (None, status, Some err).

Section handling.
(** The signature of a body under a secret; the object of a text, or null, or an
    error. *)
Context (hmac_hex : string → string → string) (unmarshal : string → option (option vmap)).

Definition VerifySignature (wh : Webhook) (payload signature : string) : bool :=
  if bool_decide (whSecret wh = "") then true else bool_decide (signature = hmac_hex (whSecret wh) payload).

(** The payload, nil when the body is empty or null. *)
Definition parse_body (contentType body : string) : option vmap :=
  if contains contentType "application/json" then
    if bool_decide (body = "") then None
    else match unmarshal body with
         | Some p => p
         | None => Some {["raw" := VStr body]}
         end
  else Some {["raw" := VStr body]}.

Definition text_map (m : smap) : value := VObj (prod_map id VStr <$> map_to_list m).
Definition request_metadata (path : string) (r : Request) (now : Z) : value :=
  VObj [("path", VStr path); ("method", VStr (hrMethod r)); ("headers", text_map (headerToMap (hrHeader r)));
        ("queryParams", text_map (queryToMap (hrQuery r))); ("remoteAddr", VStr (hrRemoteAddr r));
        ("timestamp", VInt (now / Second))].

Definition new_execution (wh : Webhook) (path : string) (r : Request) (body : string) (c : WebhookCall) : WebhookExecution :=
  {| weID := wcUuid c 0; weWebhookID := whID wh; weWorkflowID := whWorkflowID wh; weMethod := hrMethod r; wePath := path;
     weHeaders := headerToMap (hrHeader r); weQueryParams := queryToMap (hrQuery r); weBody := body;
     weContentType := Header_Get (hrHeader r) "Content-Type"; weIPAddress := hrRemoteAddr r;
     weUserAgent := Header_Get (hrHeader r) "User-Agent"; weStatus := "received"; weError := ""; weProcessedAt := None;
     weDuration := 0; weCreatedAt := wcNow c 2 |}.
Definition set_outcome (e : WebhookExecution) (status err : string) (processed : option Z) (duration : Z) : WebhookExecution :=
  {| weID := weID e; weWebhookID := weWebhookID e; weWorkflowID := weWorkflowID e; weMethod := weMethod e; wePath := wePath e;
     weHeaders := weHeaders e; weQueryParams := weQueryParams e; weBody := weBody e; weContentType := weContentType e;
     weIPAddress := weIPAddress e; weUserAgent := weUserAgent e; weStatus := status; weError := err;
     weProcessedAt := processed; weDuration := duration; weCreatedAt := weCreatedAt e |}.

Definition received_event (wh : Webhook) (e : WebhookExecution) (data : vmap) : string * string * vmap :=
  ("webhook.received", whID wh,
   <["webhookId" := VStr (whID wh)]> (<["workflowId" := VStr (whWorkflowID wh)]> (<["nodeId" := VStr (whNodeID wh)]>
   (<["executionId" := VStr (weID e)]> {["data" := VObj (map_to_list data)]})))).

(** From the check of the signature on. *)
Definition trigger (s : WebhookService) (wh : Webhook) (path : string) (r : Request) (body : string) (c : WebhookCall) :
    outcome reply * WebhookService :=
  match parse_body (Header_Get (hrHeader r) "Content-Type") body with
  | None => (Panic "assignment to entry in nil map", s)
  | Some payload =>
      let payload := <["_webhook" := request_metadata path r (wcNow c 1)]> payload in
      let execution := new_execution wh path r body c in
      let s := try_executions s (RecordExecution (wsExecutions s) execution (wcFail c 1)) in
      match wcBus c with
      | Some err =>
          let execution := set_outcome execution "failed" err None 0 in
          (refuse 500 err, try_executions s (UpdateExecution (wsExecutions s) execution (wcFail c 2)))
      | None =>
          let s := published s c (received_event wh execution payload) in
          let '(wh', t) := Webhook_Update (wsTable s) (RecordCall wh (wcNow c 3)) (wcNow c 4) (wcFail c 2) in
          let s := try_table s t in
          let s := match wsWebhooks s !! path with
                   | Some _ => put_cache s (<[path := wh']> (wsWebhooks s))
                   | None => s
                   end in
          let execution := set_outcome execution "processed" "" (Some (wcNow c 5))
                             ((wcNow c 5 - weCreatedAt execution) `quot` 1000000)%Z in
          let s := try_executions s (UpdateExecution (wsExecutions s) execution (wcFail c 3)) in
          (Ret (Some {| wrSuccess := true; wrExecutionID := weID execution;
                        wrMessage := "Webhook received and workflow triggered" |}, 200%Z, None), s)
      end
  end.

Definition HandleWebhook (s : WebhookService) (path : string) (r : Request) (c : WebhookCall) :
    outcome reply * WebhookService :=
  match GetWebhookByPath s path c with
  | Err _ => (refuse 404 ErrWebhookNotFound, s)
  | Ok wh =>
      match CanAccept wh (wcNow c 0) with
      | Some e => (refuse 403 e, s)
      | None =>
          if negb (bool_decide (whMethod wh = hrMethod r)) && negb (bool_decide (whMethod wh = "ANY"))
          then (refuse 405 "method not allowed", s)
          else
            match checkRateLimit s wh c with
            | (Some e, s) => (refuse 429 e, s)
            | (None, s) =>
                match (if whRequireAuth wh then verifyAuth wh r else None) with
                | Some e => (refuse 401 e, s)
                | None =>
                    match hrBody r with
                    | Err e => (refuse 400 ("failed to read body: " +:+ e), s)
                    | Ok body =>
                        let signature := Header_Get (hrHeader r) "X-Webhook-Signature" in
                        if negb (bool_decide (whSecret wh = "")) && negb (bool_decide (signature = ""))
                           && negb (VerifySignature wh body signature)
                        then (refuse 401 ErrInvalidSignature, s)
                        else trigger s wh path r body c
                    end
                end
            end
      end
  end.

(** *** Events about workflows *)

Definition activate_webhook (active : bool) (c : WebhookCall) (s : WebhookService) (kw : nat * Webhook) : WebhookService :=
  let '(wh, t) := Webhook_Update (wsTable s) (set_active kw.2 active) (wcNow c kw.1) (wcFail c (S kw.1)) in
  let s := try_table s t in
  put_cache s (if active then cache_put (wsWebhooks s) wh else delete (whPath wh) (wsWebhooks s)).

Definition workflow_webhooks (s : WebhookService) (payload : vmap) (c : WebhookCall) : list Webhook :=
  let workflowID := default "" (get_string payload "workflowId") in
  match ListByWorkflow (wsTable s) (wcOrd c) workflowID (wcFail c 0) with Ok l => l | Err _ => [] end.

Definition handleWorkflowActivated (s : WebhookService) (payload : vmap) (c : WebhookCall) : WebhookService :=
  foldl (activate_webhook true c) s (imap pair (workflow_webhooks s payload c)).
Definition handleWorkflowDeactivated (s : WebhookService) (payload : vmap) (c : WebhookCall) : WebhookService :=
  foldl (activate_webhook false c) s (imap pair (workflow_webhooks s payload c)).

(** *** The service as a machine *)

Inductive WebhookOp :=
| WoStart
| WoCreate (req : CreateWebhookRequest)
| WoUpdate (id : string) (req : UpdateWebhookRequest)
| WoDelete (id : string)
| WoHandle (path : string) (r : Request)
| WoActivated (payload : vmap)
| WoDeactivated (payload : vmap).

Definition webhook_run (op : WebhookOp) (c : WebhookCall) (s : WebhookService) : WebhookService :=
  match op with
  | WoStart => snd (Webhook_Start s c)
  | WoCreate req => snd (CreateWebhook s req c)
  | WoUpdate id req => snd (UpdateWebhook s id req c)
  | WoDelete id => snd (DeleteWebhook s id c)
  | WoHandle path r => snd (HandleWebhook s path r c)
  | WoActivated p => handleWorkflowActivated s p c
  | WoDeactivated p => handleWorkflowDeactivated s p c
  end.

(** ** The table and the cache *)

(** Rows under their IDs, with different paths. *)
Definition table_ok (t : webhooks) : Prop :=
  (∀ id w, t !! id = Some w → whID w = id)
  ∧ ∀ i j w w', t !! i = Some w → t !! j = Some w' → whPath w = whPath w' → i = j.
(** What is cached is the row, under its path. *)
Definition cache_ok (t m : webhooks) : Prop := ∀ p w, m !! p = Some w → whPath w = p ∧ t !! whID w = Some w.
(** The active rows are cached. *)
Definition warm (t m : webhooks) : Prop := ∀ id w, t !! id = Some w → whIsActive w = true → m !! whPath w = Some w.

Lemma path_taken_spec t id path :
  path_taken t id path = false ↔ ∀ j w, t !! j = Some w → whPath w = path → j = id.
Proof.
  clear. unfold path_taken. rewrite <- not_true_iff_false, existsb_exists. split.
  - intros H j w Hj Hp. destruct (decide (j = id)); [done|]. exfalso. apply H. exists (j, w).
    rewrite <- list_elem_of_In, elem_of_map_to_list. split; [done|]. simpl. rewrite bool_decide_false by done.
    unfold on_path. by rewrite bool_decide_true.
  - intros H ([j w] & Hin & Hb). rewrite <- list_elem_of_In, elem_of_map_to_list in Hin. simpl in Hb.
    apply andb_true_iff in Hb as [Hn Hp]. apply bool_decide_eq_true in Hp. specialize (H j w Hin Hp).
    by rewrite bool_decide_true in Hn.
Qed.

Lemma own_path_free t id w : table_ok t → t !! id = Some w → path_taken t id (whPath w) = false.
Proof. clear. intros [_ Hu] Hw. apply path_taken_spec. intros j w' Hj Hp. by eapply Hu. Qed.

(** A row written under a path of its own: new, or with the path it had. *)
Definition writable (t : webhooks) (w : Webhook) : Prop :=
  path_taken t (whID w) (whPath w) = false ∧ ∀ w0, t !! whID w = Some w0 → whPath w0 = whPath w.

Lemma table_ok_write t w : table_ok t → writable t w → table_ok (<[whID w := w]> t).
Proof.
  clear. intros [Hi Hu] [Hp _]. rewrite path_taken_spec in Hp. split.
  - intros id w' H. apply lookup_insert_Some in H as [[<- <-]|[_ H]]; [done|]. by apply Hi.
  - intros i j w1 w2 H1 H2 E.
    apply lookup_insert_Some in H1 as [[<- <-]|[N1 H1]]; apply lookup_insert_Some in H2 as [[<- <-]|[N2 H2]]; [done|..].
    + by eapply eq_sym, Hp.
    + by eapply Hp.
    + by eapply Hu.
Qed.

(** No other cached webhook has its ID. *)
Lemma cache_ok_other t m w p w' :
  table_ok t → cache_ok t m → writable t w → m !! p = Some w' → p ≠ whPath w → <[whID w := w]> t !! whID w' = Some w'.
Proof.
  clear. intros [Hi _] Hc [_ Hw] Hm Hp. destruct (Hc _ _ Hm) as [Hpath Ht].
  destruct (decide (whID w' = whID w)) as [E|E].
  - rewrite E in Ht. apply Hw in Ht. congruence.
  - by rewrite lookup_insert_ne.
Qed.

Lemma cache_ok_put t m w :
  table_ok t → cache_ok t m → writable t w → cache_ok (<[whID w := w]> t) (cache_put m w).
Proof.
  clear. intros Ht Hc Hw p w' H. unfold cache_put in H. apply lookup_insert_Some in H as [[<- <-]|[Hp H]].
  - by rewrite lookup_insert_eq.
  - split; [by apply Hc|]. by eapply (cache_ok_other t m w p).
Qed.
Lemma cache_ok_drop t m w :
  table_ok t → cache_ok t m → writable t w → cache_ok (<[whID w := w]> t) (delete (whPath w) m).
Proof.
  clear. intros Ht Hc Hw p w' H. apply lookup_delete_Some in H as [Hp H]. split; [by apply Hc|]. by eapply (cache_ok_other t m w p).
Qed.

Lemma warm_write t m w :
  table_ok t → writable t w → warm t m → warm (<[whID w := w]> t) (cache_put m w).
Proof.
  clear. intros Ht [Hp Hw] Hm id w' H Ha. unfold cache_put. apply lookup_insert_Some in H as [[<- <-]|[N H]].
  - by rewrite lookup_insert_eq.
  - rewrite lookup_insert_ne; [by eapply Hm|]. intros E. rewrite path_taken_spec in Hp. by specialize (Hp id w' H (eq_sym E)).
Qed.
Lemma warm_write_inactive t m w :
  whIsActive w = false → table_ok t → writable t w → warm t m → warm (<[whID w := w]> t) (delete (whPath w) m).
Proof.
  clear. intros Hi Ht [Hp Hw] Hm id w' H Ha. apply lookup_insert_Some in H as [[<- <-]|[N H]]; [congruence|].
  rewrite lookup_delete_ne; [by eapply Hm|]. intros E. rewrite path_taken_spec in Hp. by specialize (Hp id w' H (eq_sym E)).
Qed.

Definition coherent (s : WebhookService) : Prop := table_ok (wsTable s) ∧ cache_ok (wsTable s) (wsWebhooks s).

(** A webhook that came from the table, its ID and path kept, is writable. *)
Lemma known_writable t w w' :
  table_ok t → t !! whID w = Some w → whID w' = whID w → whPath w' = whPath w → writable t w'.
Proof.
  clear. intros Ht Hw Ei Ep. split; rewrite Ei, Ep; [by apply own_path_free|]. intros w0 H. congruence.
Qed.
Lemma Webhook_Update_ok t w now fail :
  writable t w → fail "UPDATE webhooks" = None →
  Webhook_Update t w now fail = (touch w now, Ok (<[whID w := touch w now]> t)).
Proof. clear. intros [Hp _] Hf. unfold Webhook_Update, try. rewrite Hf. simpl. by rewrite Hp. Qed.

Lemma GetByID_Some t id fail w : Webhook_GetByID t id fail = Ok w → t !! id = Some w.
Proof. clear. unfold Webhook_GetByID, try. destruct (fail _); [done|]. destruct (t !! id); [|done]. by intros [= ->]. Qed.
Lemma GetByPath_Some t ord path fail w :
  Webhook_GetByPath t ord path fail = Ok w → ∃ id, t !! id = Some w ∧ whPath w = path.
Proof.
  clear. unfold Webhook_GetByPath, try. destruct (fail _); [done|]. destruct (head _) eqn:E; [|done]. intros [= ->].
  apply head_Some_elem_of, rows_where_elem in E as (id & _ & Hw & Hp). apply bool_decide_eq_true in Hp. eauto.
Qed.

(** The webhook of a request is the row of its path. *)
Lemma found_row s path c w :
  coherent s → GetWebhookByPath s path c = Ok w → wsTable s !! whID w = Some w ∧ whPath w = path.
Proof.
  clear. intros [[Hi _] Hc]. unfold GetWebhookByPath. destruct (_ !! path) as [w'|] eqn:E.
  - intros [= ->]. destruct (Hc _ _ E). done.
  - intros (id & Hw & Hp)%GetByPath_Some. split; [|done]. by rewrite (Hi _ _ Hw).
Qed.

(** What writing executions and events leaves alone. *)
Lemma published_table s c e : wsTable (published s c e) = wsTable s.
Proof. clear. unfold published. by destruct (wcBus c). Qed.
Lemma published_cache s c e : wsWebhooks (published s c e) = wsWebhooks s.
Proof. clear. unfold published. by destruct (wcBus c). Qed.
Lemma executions_table s r : wsTable (try_executions s r) = wsTable s.
Proof. clear. by destruct r. Qed.
Lemma executions_cache s r : wsWebhooks (try_executions s r) = wsWebhooks s.
Proof. clear. by destruct r. Qed.
Lemma executions_events s r : wsEvents (try_executions s r) = wsEvents s.
Proof. clear. by destruct r. Qed.
Lemma executions_redis s r : wsRedis (try_executions s r) = wsRedis s.
Proof. clear. by destruct r. Qed.
Lemma table_cache s r : wsWebhooks (try_table s r) = wsWebhooks s.
Proof. clear. by destruct r. Qed.
#[local] Hint Rewrite published_table published_cache executions_table executions_cache executions_events executions_redis
  table_cache : webhook.

Lemma checkRateLimit_keeps s wh c e s' :
  checkRateLimit s wh c = (e, s') →
  wsTable s' = wsTable s ∧ wsWebhooks s' = wsWebhooks s ∧ wsExecutions s' = wsExecutions s ∧ wsEvents s' = wsEvents s.
Proof. clear. unfold checkRateLimit. intros E. repeat case_match; by simplify_eq. Qed.

(** The table and the cache after an accepted request. *)
Definition called (wh : Webhook) (c : WebhookCall) : Webhook := touch (RecordCall wh (wcNow c 3)) (wcNow c 4).

Lemma trigger_effect s wh path r body c :
  writable (wsTable s) wh → wcFail c 2 "UPDATE webhooks" = None →
  let s' := snd (trigger s wh path r body c) in
  wsTable s' = wsTable s ∧ wsWebhooks s' = wsWebhooks s
  ∨ wsTable s' = <[whID wh := called wh c]> (wsTable s)
    ∧ wsWebhooks s' = match wsWebhooks s !! path with
                      | Some _ => <[path := called wh c]> (wsWebhooks s)
                      | None => wsWebhooks s
                      end.
Proof.
  clear. intros Hw Hf s'. subst s'. unfold trigger. destruct (parse_body _ _) as [p|]; [|by left].
  destruct (wcBus c) as [err|] eqn:Eb.
  { left. simpl. by autorewrite with webhook. }
  right. rewrite Webhook_Update_ok; [|by autorewrite with webhook|done]. simpl. autorewrite with webhook. simpl.
  unfold called, RecordCall. autorewrite with webhook. destruct (wsWebhooks s !! path); simpl; by autorewrite with webhook.
Qed.

(** Updates of webhooks succeed. *)
Definition updates_ok (c : WebhookCall) : Prop := ∀ k, wcFail c k "UPDATE webhooks" = None.

Definition keeps (s s' : WebhookService) : Prop :=
  coherent s' ∧ (warm (wsTable s) (wsWebhooks s) → warm (wsTable s') (wsWebhooks s')).

Lemma keeps_same s s' : coherent s → wsTable s' = wsTable s → wsWebhooks s' = wsWebhooks s → keeps s s'.
Proof. clear. unfold keeps, coherent. by intros H -> ->. Qed.
Lemma keeps_put s s' w :
  coherent s → writable (wsTable s) w → wsTable s' = <[whID w := w]> (wsTable s) → wsWebhooks s' = cache_put (wsWebhooks s) w →
  keeps s s'.
Proof.
  clear. intros [Ht Hc] Hw E1 E2. unfold keeps, coherent. rewrite E1, E2. split_and!.
  - by apply table_ok_write.
  - by apply cache_ok_put.
  - by apply warm_write.
Qed.
Lemma keeps_drop s s' w :
  coherent s → writable (wsTable s) w → whIsActive w = false → wsTable s' = <[whID w := w]> (wsTable s) →
  wsWebhooks s' = delete (whPath w) (wsWebhooks s) → keeps s s'.
Proof.
  clear. intros [Ht Hc] Hw Hi E1 E2. unfold keeps, coherent. rewrite E1, E2. split_and!.
  - by apply table_ok_write.
  - by apply cache_ok_drop.
  - by apply warm_write_inactive.
Qed.
Lemma keeps_trans s1 s2 s3 : keeps s1 s2 → (coherent s2 → keeps s2 s3) → keeps s1 s3.
Proof. clear. intros [H1 W1] H2. destruct (H2 H1) as [H3 W2]. split; auto. Qed.

Lemma CreateWebhook_keeps s req c : coherent s → keeps s (snd (CreateWebhook s req c)).
Proof.
  clear. intros H. unfold CreateWebhook. destruct (Webhook_GetByPath _ _ _ _) as [?|?]; [by apply keeps_same|].
  destruct (Webhook_Validate _) as [wh [?|]]; [by apply keeps_same|]. destruct (Webhook_Create _ _ _) as [t|] eqn:Ec; [|by apply keeps_same].
  unfold Webhook_Create in Ec. apply try_ok in Ec. destruct (_ || _) eqn:Eo; [done|]. injection Ec as <-.
  apply orb_false_iff in Eo as [Ei Ep]. apply bool_decide_eq_false in Ei.
  eapply (keeps_put _ _ wh); [done| |by simpl; autorewrite with webhook..]. split; [done|]. intros w0 E. by destruct Ei.
Qed.

Lemma UpdateWebhook_keeps s id req c : coherent s → updates_ok c → keeps s (snd (UpdateWebhook s id req c)).
Proof.
  clear. intros H Hf. unfold UpdateWebhook. destruct (Webhook_GetByID _ _ _) as [w|] eqn:Eg; [|by apply keeps_same].
  apply GetByID_Some in Eg. pose proof (proj1 (proj1 H) _ _ Eg) as Ei. subst id.
  assert (∀ n, writable (wsTable s) (touch (updated_webhook w req (wcNow c 0)) n)) as Hw
    by (intros n; by eapply known_writable; [apply H| | |]).
  rewrite Webhook_Update_ok; [|by apply (Hw 0%Z)|done]. eapply keeps_put; [done|apply (Hw (wcNow c 1))|reflexivity..].
Qed.

Lemma DeleteWebhook_keeps s id c : coherent s → keeps s (snd (DeleteWebhook s id c)).
Proof.
  clear. intros H. unfold DeleteWebhook. destruct (Webhook_GetByID _ _ _) as [w|] eqn:Eg; [|by apply keeps_same].
  destruct (Webhook_Delete _ _ _) as [t|] eqn:Ed; [|by apply keeps_same]. apply try_ok in Ed. injection Ed as <-.
  apply GetByID_Some in Eg. destruct H as [[Hi Hu] Hc]. unfold keeps, coherent. simpl. autorewrite with webhook. simpl. split_and!.
  - split.
    + intros i w' E. apply lookup_delete_Some in E as [_ E]. by apply Hi.
    + intros i j w1 w2 H1 H2. apply lookup_delete_Some in H1 as [_ H1]. apply lookup_delete_Some in H2 as [_ H2]. by apply Hu.
  - intros p w' E. apply lookup_delete_Some in E as [Hp E]. destruct (Hc _ _ E) as [Ep Et]. split; [done|].
    rewrite lookup_delete_ne; [done|]. intros ->. congruence.
  - intros Hm i w' E Ha. apply lookup_delete_Some in E as [Hne E]. rewrite lookup_delete_ne; [by eapply Hm|].
    intros Ep. by specialize (Hu _ _ _ _ Eg E Ep).
Qed.

(** ** Requests *)

(** What the rate limit asks for: the calls counted in the current window, with
    this one, are at most the limit.  Without an answer of Redis there is none. *)
Definition counted_calls (s : WebhookService) (wh : Webhook) (now : Z) : option Z :=
  match redis_get (wsRedis s) now (rate_key (whID wh)) with
  | None => Some 0%Z
  | Some (RNumber n) => Some n
  | Some (RText _) => None
  end.
Definition under_limit (s : WebhookService) (wh : Webhook) (c : WebhookCall) : Prop :=
  wcRedisFails c 0 = true ∨
  match counted_calls s wh (wcNow c 0) with Some n => (n + 1 ≤ whRateLimit wh)%Z | None => True end.

(** What the kind of authentication asks for; a missing setting is the empty
    text, and an unknown kind asks for nothing. *)
Definition authentic (wh : Webhook) (r : Request) : Prop :=
  (whAuthType wh = "header" → Header_Get (hrHeader r) (config wh "headerName") = config wh "headerValue")
  ∧ (whAuthType wh = "basic" → hrBasicAuth r = Some (config wh "username", config wh "password"))
  ∧ (whAuthType wh = "bearer" →
       Header_Get (hrHeader r) "Authorization" = "Bearer " +:+ config wh "token"
       ∨ Header_Get (hrHeader r) "Authorization" = config wh "token" ∧ String.prefix "Bearer " (config wh "token") = false).

(** A request is admitted: its webhook is found, active and not expired, its
    method and the rate are right, it is authenticated when it has to be, its body
    can be read and its signature, if it has one and the webhook a secret, is
    that of the body. *)
Definition admits (s : WebhookService) (path : string) (r : Request) (c : WebhookCall) (wh : Webhook) (body : string) : Prop :=
  GetWebhookByPath s path c = Ok wh
  ∧ whIsActive wh = true ∧ (∀ e, whExpiresAt wh = Some e → (wcNow c 0 ≤ e)%Z)
  ∧ (whMethod wh = hrMethod r ∨ whMethod wh = "ANY")
  ∧ under_limit s wh c
  ∧ (whRequireAuth wh = true → authentic wh r)
  ∧ hrBody r = Ok body
  ∧ let signature := Header_Get (hrHeader r) "X-Webhook-Signature" in
    whSecret wh = "" ∨ signature = "" ∨ signature = hmac_hex (whSecret wh) body.

Lemma checkRateLimit_None s wh c : fst (checkRateLimit s wh c) = None ↔ under_limit s wh c.
Proof.
  clear. unfold checkRateLimit, under_limit, counted_calls, redis_get, redis_incr.
  destruct (wcRedisFails c 0); [naive_solver|]. destruct (_ !! _) as [[v e]|]; simpl.
  - destruct (lives _ e); [destruct v; simpl; [naive_solver|]|simpl]; case_bool_decide; split; intros; try done; try lia;
      try (right; lia); destruct H0; (done || lia).
  - case_bool_decide; split; intros; try done; try (right; lia); destruct H0; (done || lia).
Qed.

Lemma trim_prefix_spec pre s t :
  trim_prefix pre s = t ↔ s = pre +:+ t ∨ s = t ∧ String.prefix pre t = false.
Proof.
  clear. unfold trim_prefix. destruct (String.prefix pre s) eqn:E.
  - apply prefix_spec in E as [u ->]. rewrite substring_app. split; [intros ->; by left|].
    intros [H|[<- H]]; [by apply string_app_inj_l in H|]. by rewrite GoLib.prefix_app in H.
  - split; [intros <-; by right|]. intros [->|[-> _]]; [by rewrite GoLib.prefix_app in E|done].
Qed.

Lemma verifyAuth_None wh r : verifyAuth wh r = None ↔ authentic wh r.
Proof.
  clear. unfold verifyAuth, authentic.
  destruct (decide (whAuthType wh = "header")) as [E|E]; [rewrite E|].
  { rewrite bool_decide_true by done. case_bool_decide; split; naive_solver. }
  rewrite bool_decide_false by done. destruct (decide (whAuthType wh = "basic")) as [E2|E2]; [rewrite E2|].
  { rewrite bool_decide_true by done. destruct (hrBasicAuth r) as [[u p]|]; [|naive_solver].
    repeat case_bool_decide; naive_solver. }
  rewrite (bool_decide_false (whAuthType wh = "basic")) by done.
  destruct (decide (whAuthType wh = "bearer")) as [E3|E3]; [rewrite E3|rewrite bool_decide_false by done; naive_solver].
  rewrite bool_decide_true by done. rewrite <- trim_prefix_spec. case_bool_decide; naive_solver.
Qed.

Definition refusals : list Z := [404; 403; 405; 429; 401; 400]%Z.

Definition same_store (s s' : WebhookService) : Prop :=
  wsTable s' = wsTable s ∧ wsWebhooks s' = wsWebhooks s ∧ wsExecutions s' = wsExecutions s ∧ wsEvents s' = wsEvents s.

Lemma CanAccept_None w now :
  CanAccept w now = None ↔ whIsActive w = true ∧ ∀ e, whExpiresAt w = Some e → (now ≤ e)%Z.
Proof.
  clear. unfold CanAccept, Webhook_IsExpired. destruct (whIsActive w); [|naive_solver]. simpl.
  destruct (whExpiresAt w) as [e|]; [|naive_solver]. case_bool_decide; split; try naive_solver lia.
  intros [_ H']. specialize (H' _ eq_refl). lia.
Qed.

Lemma bad_method w r :
  negb (bool_decide (whMethod w = hrMethod r)) && negb (bool_decide (whMethod w = "ANY")) = false
  ↔ whMethod w = hrMethod r ∨ whMethod w = "ANY".
Proof. clear. repeat case_bool_decide; naive_solver. Qed.

Lemma bad_signature w body sig :
  negb (bool_decide (whSecret w = "")) && negb (bool_decide (sig = "")) && negb (VerifySignature w body sig) = false
  ↔ whSecret w = "" ∨ sig = "" ∨ sig = hmac_hex (whSecret w) body.
Proof. clear unmarshal. unfold VerifySignature. repeat case_bool_decide; naive_solver. Qed.

Lemma HandleWebhook_cases s path r c :
  (∃ wh body, admits s path r c wh body
     ∧ HandleWebhook s path r c = trigger (snd (checkRateLimit s wh c)) wh path r body c)
  ∨ (∀ wh body, ¬ admits s path r c wh body)
    ∧ ∃ status e s', HandleWebhook s path r c = (refuse status e, s') ∧ status ∈ refusals ∧ same_store s s'.
Proof.
  unfold HandleWebhook, admits. destruct (GetWebhookByPath s path c) as [wh|e] eqn:Eg.
  2:{ right. split; [intros wh body (H & _); done|]. do 3 eexists. split; [done|]. split; [set_solver|done]. }
  destruct (CanAccept wh _) as [e|] eqn:Ea.
  { right. split; [|do 3 eexists; split; [done|]; split; [set_solver|done]].
    intros wh' body ([= <-] & H1 & H2 & _). by rewrite (proj2 (CanAccept_None wh (wcNow c 0))) in Ea. }
  apply CanAccept_None in Ea as [Ea Ex]. destruct (_ && _) eqn:Em.
  { right. split; [|do 3 eexists; split; [done|]; split; [set_solver|done]].
    intros wh' body ([= <-] & _ & _ & H & _). apply bad_method in H. congruence. }
  apply bad_method in Em. destruct (checkRateLimit s wh c) as [[e|] s0] eqn:El; pose proof (checkRateLimit_keeps _ _ _ _ _ El) as Hs.
  { right. split; [|do 3 eexists; split; [done|]; split; [set_solver|done]].
    intros wh' body ([= <-] & _ & _ & _ & H & _). apply checkRateLimit_None in H. by rewrite El in H. }
  assert (under_limit s wh c) as Hlim by (apply checkRateLimit_None; by rewrite El).
  destruct (if whRequireAuth wh then verifyAuth wh r else None) as [e|] eqn:Ev.
  { right. split; [|do 3 eexists; split; [done|]; split; [set_solver|done]].
    intros wh' body ([= <-] & _ & _ & _ & _ & H & _). destruct (whRequireAuth wh); [|done].
    rewrite (proj2 (verifyAuth_None wh r)) in Ev; [done|by apply H]. }
  destruct (hrBody r) as [body|e] eqn:Eb.
  2:{ right. split; [|do 3 eexists; split; [done|]; split; [set_solver|done]].
    intros wh' body (_ & _ & _ & _ & _ & _ & H & _). done. }
  cbv zeta. destruct (_ && negb (VerifySignature _ _ _)) eqn:Es.
  { right. split; [|do 3 eexists; split; [done|]; split; [set_solver|done]].
    intros wh' body' ([= <-] & _ & _ & _ & _ & _ & [= <-] & H). apply bad_signature in H. congruence. }
  left. exists wh, body. rewrite El. apply bad_signature in Es. split; [|done]. split_and!; try done.
  intros Hr. rewrite Hr in Ev. by apply verifyAuth_None.
Qed.

Lemma admits_found s path r c wh body :
  admits s path r c wh body → GetWebhookByPath s path c = Ok wh ∧ whIsActive wh = true.
Proof. intros (H1 & H2 & _). done. Qed.

Lemma HandleWebhook_keeps s path r c : coherent s → updates_ok c → keeps s (snd (HandleWebhook s path r c)).
Proof.
  intros H Hf. destruct (HandleWebhook_cases s path r c) as [(wh & body & Ha & ->)|(_ & status & e & s' & -> & _ & Ht & Hm & _)];
    [|by apply keeps_same].
  destruct (admits_found _ _ _ _ _ _ Ha) as [Hg Hact]. destruct (found_row s path c wh H Hg) as [Hrow Hp].
  destruct (checkRateLimit s wh c) as [e s0] eqn:El. destruct (checkRateLimit_keeps _ _ _ _ _ El) as (Et & Em & _).
  assert (∀ w, whID w = whID wh → whPath w = whPath wh → writable (wsTable s) w) as Hw
    by (intros w Ei Ep; by eapply known_writable; [apply H|exact Hrow| |]).
  destruct (trigger_effect s0 wh path r body c) as [[Et' Em']|[Et' Em']]; [rewrite Et; by apply Hw|apply Hf|..]; simpl.
  { apply keeps_same; [done|..]; congruence. }
  rewrite Et in Et'. rewrite Em in Em'. destruct (wsWebhooks s !! path) as [w0|] eqn:Ec.
  - eapply (keeps_put _ _ (called wh c)); [done|by apply Hw|by rewrite Et'|]. rewrite Em'. unfold cache_put. by rewrite <- Hp.
  - destruct H as [Hto Hco]. unfold keeps, coherent. rewrite Et', Em'. assert (writable (wsTable s) (called wh c)) as Hwc by by apply Hw.
    rewrite <- (delete_id (wsWebhooks s) path) by done. subst path. split_and!.
    + by apply (table_ok_write _ (called wh c)).
    + by apply (cache_ok_drop _ _ (called wh c)).
    + rewrite delete_id by done. intros Hm. exfalso. pose proof (Hm _ _ Hrow Hact). congruence.
Qed.

Lemma Webhook_Start_keeps s c : coherent s → keeps s (snd (Webhook_Start s c)).
Proof.
  clear. intros H. unfold Webhook_Start, loadWebhooks. destruct (ListActive _ _ _) as [l|] eqn:El; [|by apply keeps_same].
  apply try_ok in El. injection El as <-. simpl.
  assert (∀ w, w ∈ rows_where (wsTable s) (wcOrd c) whIsActive → wsTable s !! whID w = Some w) as Hl.
  { intros w (id & _ & Hw & _)%rows_where_elem. by rewrite (proj1 (proj1 H) _ _ Hw). }
  destruct H as [Ht Hc]. unfold keeps, coherent. simpl. generalize dependent (wsWebhooks s).
  induction (rows_where _ _ _) as [|w l IH]; intros m Hm; [done|]. simpl.
  assert (wsTable s !! whID w = Some w) as Hw by (apply Hl; left).
  assert (writable (wsTable s) w) as Hwr by (by eapply known_writable).
  pose proof (cache_ok_put _ m w Ht Hm Hwr) as Hp. rewrite insert_id in Hp by done.
  destruct (IH ltac:(set_solver) (cache_put m w) Hp) as [Hk Hwm]. split; [done|]. intros Hwarm. apply Hwm.
  pose proof (warm_write _ _ _ Ht Hwr Hwarm) as Hq. by rewrite insert_id in Hq.
Qed.

Lemma activate_webhook_keeps b c s kw :
  coherent s → updates_ok c → wsTable s !! whID kw.2 = Some kw.2 →
  keeps s (activate_webhook b c s kw)
  ∧ wsTable (activate_webhook b c s kw) = <[whID kw.2 := touch (set_active kw.2 b) (wcNow c kw.1)]> (wsTable s).
Proof.
  clear. intros H Hf Hrow. unfold activate_webhook.
  assert (∀ w, whID w = whID kw.2 → whPath w = whPath kw.2 → writable (wsTable s) w) as Hw
    by (intros w Ei Ep; by eapply known_writable; [apply H|exact Hrow| |]).
  rewrite Webhook_Update_ok; [|by apply Hw|apply Hf]. simpl. split; [|done]. destruct b.
  - eapply (keeps_put _ _ (touch (set_active kw.2 true) (wcNow c kw.1))); [done|by apply Hw|done..].
  - eapply (keeps_drop _ _ (touch (set_active kw.2 false) (wcNow c kw.1))); [done|by apply Hw|done..].
Qed.

Lemma activate_all_keeps b c s l :
  coherent s → updates_ok c → (∀ kw, kw ∈ l → wsTable s !! whID kw.2 = Some kw.2) → NoDup (whID ∘ snd <$> l) →
  keeps s (foldl (activate_webhook b c) s l)
  ∧ ∀ id, wsTable (foldl (activate_webhook b c) s l) !! id =
          match list_find (λ kw, whID kw.2 = id) l with
          | Some (_, kw) => Some (touch (set_active kw.2 b) (wcNow c kw.1))
          | None => wsTable s !! id
          end.
Proof.
  clear. intros H Hf. revert s H. induction l as [|kw l IH]; intros s H Hl Hn; [split; [by apply keeps_same|done]|]. simpl.
  apply NoDup_cons in Hn as [Hx Hn]. destruct (activate_webhook_keeps b c s kw H Hf (Hl _ ltac:(left))) as [Hk Et].
  assert (∀ kw', kw' ∈ l → wsTable (activate_webhook b c s kw) !! whID kw'.2 = Some kw'.2) as Hl'.
  { intros kw' Hin. rewrite Et, lookup_insert_ne; [by apply Hl; right|]. intros E. apply Hx. simpl. rewrite E.
    by apply (list_elem_of_fmap_2 (whID ∘ snd)). }
  destruct (IH (activate_webhook b c s kw) (proj1 Hk) Hl' Hn) as [Hk2 Hrows]. split.
  { eapply keeps_trans; [exact Hk|done]. }
  intros id. rewrite Hrows, Et. case_decide as E.
  - subst id. rewrite lookup_insert_eq. rewrite (proj2 (list_find_None _ _)); [done|]. apply Forall_forall.
    intros kw' Hin E. apply Hx. simpl. rewrite <- E. by apply (list_elem_of_fmap_2 (whID ∘ snd)).
  - rewrite lookup_insert_ne by done. destruct (list_find _ l) as [[i kw']|]; done.
Qed.

(** The rows of a query are rows, once each. *)
Lemma rows_where_ids t ord cond :
  table_ok t → NoDup ord →
  (∀ w, w ∈ rows_where t ord cond → t !! whID w = Some w ∧ cond w = true) ∧ NoDup (whID <$> rows_where t ord cond).
Proof.
  clear. intros [Hi _] Hn. split.
  { intros w (id & _ & Hw & Hc)%rows_where_elem. by rewrite (Hi _ _ Hw). }
  unfold rows_where. induction Hn as [|id ord Hid Hn IH]; simpl; [constructor|].
  destruct (t !! id) as [w|] eqn:E; [|done]. destruct (cond w); [|done]. simpl. constructor; [|done].
  rewrite list_elem_of_fmap. intros (w' & Ew & Hw'). apply list_elem_of_omap in Hw' as (id' & Hin & E').
  destruct (t !! id') as [w2|] eqn:E2; [|done]. destruct (cond w2); [|done]. injection E' as ->. apply Hid.
  by rewrite <- (Hi _ _ E), Ew, (Hi _ _ E2).
Qed.

Lemma workflow_webhooks_keeps b s payload c :
  coherent s → updates_ok c → NoDup (wcOrd c) →
  let l := imap pair (workflow_webhooks s payload c) in
  keeps s (foldl (activate_webhook b c) s l)
  ∧ ∀ id, wsTable (foldl (activate_webhook b c) s l) !! id =
          match list_find (λ kw, whID kw.2 = id) l with
          | Some (_, kw) => Some (touch (set_active kw.2 b) (wcNow c kw.1))
          | None => wsTable s !! id
          end.
Proof.
  clear. intros H Hf Hn l.
  assert ((∀ w, w ∈ workflow_webhooks s payload c → wsTable s !! whID w = Some w) ∧ NoDup (whID <$> workflow_webhooks s payload c)) as [H1 H2].
  { unfold workflow_webhooks, ListByWorkflow, try. destruct (wcFail c 0 _); [by split; [set_solver|constructor]|].
    edestruct (rows_where_ids (wsTable s) (wcOrd c)) as [Hr Hd]; [apply H|done|]. split; [|exact Hd]. intros w Hw. by apply Hr. }
  apply activate_all_keeps; [done..| |].
  - intros kw Hin. apply H1. subst l. rewrite <- (imap_pair_snd (workflow_webhooks s payload c)). by apply list_elem_of_fmap_2.
  - subst l. by rewrite list_fmap_compose, imap_pair_snd.
Qed.

Lemma webhook_run_keeps op c s : coherent s → updates_ok c → NoDup (wcOrd c) → keeps s (webhook_run op c s).
Proof.
  intros H Hf Hn. destruct op; simpl.
  - by apply Webhook_Start_keeps.
  - by apply CreateWebhook_keeps.
  - by apply UpdateWebhook_keeps.
  - by apply DeleteWebhook_keeps.
  - by apply HandleWebhook_keeps.
  - by apply (workflow_webhooks_keeps true).
  - by apply (workflow_webhooks_keeps false).
Qed.

(** The states of the service: from a table with different paths, any calls
    whose updates succeed; [true] once a start has loaded the active webhooks. *)
Inductive webhook_state : bool → WebhookService → Prop :=
| ws_new t x r : table_ok t → webhook_state false (NewWebhookService t x r)
| ws_start b s s' c : webhook_state b s → NoDup (wcOrd c) → range_order (wsTable s) (wcOrd c) →
    Webhook_Start s c = (None, s') → webhook_state true s'
| ws_call b s op c : webhook_state b s → updates_ok c → NoDup (wcOrd c) → webhook_state b (webhook_run op c s).

Lemma start_warms s c s' :
  coherent s → range_order (wsTable s) (wcOrd c) → Webhook_Start s c = (None, s') → warm (wsTable s') (wsWebhooks s').
Proof.
  clear. intros H Ho. unfold Webhook_Start, loadWebhooks. destruct (ListActive _ _ _) as [l|] eqn:El; [|done]. intros [= <-]. simpl.
  apply try_ok in El. injection El as <-. intros id w Hw Ha.
  assert (w ∈ rows_where (wsTable s) (wcOrd c) whIsActive) as Hin by (apply rows_where_all; eauto).
  pose proof (proj1 (proj1 H)) as Hid. pose proof (proj2 (proj1 H)) as Hu.
  assert (∀ w', w' ∈ rows_where (wsTable s) (wcOrd c) whIsActive → wsTable s !! whID w' = Some w') as Hl.
  { intros w' (i & _ & Hw' & _)%rows_where_elem. by rewrite (Hid _ _ Hw'). }
  generalize (wsWebhooks s). clear Ho. revert Hin Hl. induction (rows_where _ _ _) as [|w1 l IH] using rev_ind; [set_solver|].
  intros Hin Hl m. rewrite foldl_app. simpl. unfold cache_put at 1. destruct (decide (whPath w1 = whPath w)) as [E|E].
  - rewrite E, lookup_insert_eq. f_equal. assert (whID w1 = id) as <- by (eapply (Hu _ _ w1 w); [apply Hl; set_solver|done..]).
    assert (wsTable s !! whID w1 = Some w1) by (apply Hl; set_solver). congruence.
  - rewrite lookup_insert_ne by done. apply IH; set_solver.
Qed.

Lemma webhook_state_ok b s :
  webhook_state b s → coherent s ∧ (b = true → warm (wsTable s) (wsWebhooks s)).
Proof.
  induction 1 as [t x r Ht|b s s' c _ [IH _] Hn Ho Es|b s op c _ [IH Hw] Hf Hn].
  - split; [|done]. split; [done|]. intros p w Hp. simpl in Hp. by rewrite lookup_empty in Hp.
  - split; [|intros _; by eapply start_warms]. pose proof (Webhook_Start_keeps s c IH) as [Hk _]. by rewrite Es in Hk.
  - destruct (webhook_run_keeps op c s IH Hf Hn) as [Hk Hk2]. split; [done|]. intros Hb. by apply Hk2, Hw.
Qed.

Lemma GetByPath_row t ord w fail :
  table_ok t → range_order t ord → fail "SELECT webhooks" = None → t !! whID w = Some w →
  Webhook_GetByPath t ord (whPath w) fail = Ok w.
Proof.
  clear. intros [Hi Hu] Ho Hf Hw. unfold Webhook_GetByPath, try. rewrite Hf.
  assert (w ∈ rows_where t ord (on_path (whPath w))) as Hin.
  { apply rows_where_all; [done|]. exists (whID w). split; [done|]. unfold on_path. by rewrite bool_decide_true. }
  destruct (rows_where _ _ _) as [|w' l] eqn:E; [set_solver|]. simpl. f_equal.
  assert (w' ∈ rows_where t ord (on_path (whPath w))) as H' by (rewrite E; left).
  apply rows_where_elem in H' as (id & _ & Hw' & Hp). apply bool_decide_eq_true in Hp.
  assert (id = whID w) as -> by (by eapply (Hu _ _ w' w)). congruence.
Qed.

Lemma trigger_forget s m wh path r body c :
  fst (trigger (put_cache s m) wh path r body c) = fst (trigger s wh path r body c)
  ∧ put_cache (snd (trigger (put_cache s m) wh path r body c)) ∅ = put_cache (snd (trigger s wh path r body c)) ∅.
Proof.
  clear hmac_hex. unfold trigger. destruct (parse_body _ _); [|done]. simpl.
  destruct (RecordExecution _ _ _), (wcBus c) as [?|] eqn:Eb; simpl; [by destruct (UpdateExecution _ _ _)| |by destruct (UpdateExecution _ _ _)|].
  all: unfold published; rewrite Eb; simpl; destruct (try _ "UPDATE webhooks" _); simpl; destruct (m !! path), (wsWebhooks s !! path); simpl;
    by destruct (UpdateExecution _ _ _).
Qed.

Lemma checkRateLimit_forget s m wh c :
  checkRateLimit (put_cache s m) wh c = (fst (checkRateLimit s wh c), put_cache (snd (checkRateLimit s wh c)) m).
Proof. clear. unfold checkRateLimit. simpl. destruct (wcRedisFails c 0); [done|]. by destruct (redis_incr _ _ _) as [[? ?]|]. Qed.

Lemma HandleWebhook_forget s path r c :
  GetWebhookByPath s path c = GetWebhookByPath (put_cache s ∅) path c →
  fst (HandleWebhook s path r c) = fst (HandleWebhook (put_cache s ∅) path r c)
  ∧ put_cache (snd (HandleWebhook s path r c)) ∅ = put_cache (snd (HandleWebhook (put_cache s ∅) path r c)) ∅.
Proof.
  intros E. unfold HandleWebhook. rewrite <- E. destruct (GetWebhookByPath s path c) as [wh|]; [|done].
  destruct (CanAccept _ _); [done|]. destruct (_ && _); [done|]. rewrite checkRateLimit_forget.
  destruct (checkRateLimit s wh c) as [[e|] s0]; [done|]. simpl. destruct (if whRequireAuth wh then _ else _); [done|].
  destruct (hrBody r); [|done]. destruct (_ && _); [done|]. pose proof (trigger_forget s0 ∅ wh path r a c) as [H1 H2]. by rewrite H1, H2.
Qed.

(** C22. The cache is transparent while the updates of webhook rows succeed: in
    every state reached from a table with different paths by calls, one at a
    time, none of whose UPDATEs of webhooks fails, a request whose look-up of
    the row succeeds is answered and changes the tables, Redis and the events as
    it would without the cache, by the row of its path; and once the service has
    started, the webhook of every active row is found without the database.
    The code drops the error of an UPDATE and then the cache and the row
    differ ([failed_update_splits_cache]). *)
Theorem webhook_cache_transparent b s path r c :
  webhook_state b s → wcFail c 0 "SELECT webhooks" = None → range_order (wsTable s) (wcOrd c) →
  fst (HandleWebhook s path r c) = fst (HandleWebhook (put_cache s ∅) path r c)
  ∧ put_cache (snd (HandleWebhook s path r c)) ∅ = put_cache (snd (HandleWebhook (put_cache s ∅) path r c)) ∅
  ∧ (∀ w, GetWebhookByPath s path c = Ok w ↔ whPath w = path ∧ wsTable s !! whID w = Some w)
  ∧ (b = true → ∀ id w c', wsTable s !! id = Some w → whIsActive w = true → GetWebhookByPath s (whPath w) c' = Ok w).
Proof.
  intros Hs Hf Ho. destruct (webhook_state_ok _ _ Hs) as [Hc Hw].
  assert (∀ w, whPath w = path → wsTable s !! whID w = Some w → Webhook_GetByPath (wsTable s) (wcOrd c) path (wcFail c 0) = Ok w) as Hp
    by (intros w <- Hr; apply GetByPath_row; [apply Hc|done..]).
  assert (GetWebhookByPath s path c = GetWebhookByPath (put_cache s ∅) path c) as E.
  { unfold GetWebhookByPath at 2. simpl. rewrite lookup_empty. unfold GetWebhookByPath. destruct (_ !! path) as [w|] eqn:Em; [|done].
    symmetry. destruct (proj2 Hc _ _ Em) as [Hpw Hrow]. by apply Hp. }
  destruct (HandleWebhook_forget s path r c E) as [H1 H2]. split_and!; [done..| |].
  - intros w. split; [intros H; by destruct (found_row _ _ _ _ Hc H)|]. intros [H3 H4]. rewrite E. unfold GetWebhookByPath. simpl.
    rewrite lookup_empty. by apply Hp.
  - intros Hb id w c' Hr Ha. unfold GetWebhookByPath. by rewrite (Hw Hb _ _ Hr Ha).
Qed.

Lemma received_fields (a b d e f : value) :
  let p := <["webhookId" := a]> (<["workflowId" := b]> (<["nodeId" := d]> (<["executionId" := e]> {["data" := f]} : vmap))) in
  p !! "workflowId" = Some b ∧ p !! "nodeId" = Some d ∧ p !! "executionId" = Some e ∧ p !! "data" = Some f.
Proof.
  clear. intros p. subst p.
  split_and!; repeat (rewrite lookup_insert_eq || rewrite lookup_singleton_eq || rewrite lookup_insert_ne by done); done.
Qed.

(** The three ends of an admitted request. *)
Lemma trigger_cases s wh path r body c :
  let e := new_execution wh path r body c in
  match parse_body (Header_Get (hrHeader r) "Content-Type") body, wcBus c with
  | None, _ => trigger s wh path r body c = (Panic "assignment to entry in nil map", s)
  | Some payload, Some err =>
      fst (trigger s wh path r body c) = refuse 500 err
      ∧ let s' := snd (trigger s wh path r body c) in
        wsTable s' = wsTable s ∧ wsWebhooks s' = wsWebhooks s ∧ wsEvents s' = wsEvents s
  | Some payload, None =>
      fst (trigger s wh path r body c)
      = Ret (Some {| wrSuccess := true; wrExecutionID := weID e; wrMessage := "Webhook received and workflow triggered" |}, 200%Z, None)
      ∧ let s' := snd (trigger s wh path r body c) in
        wsEvents s' = wsEvents s ++ [received_event wh e (<["_webhook" := request_metadata path r (wcNow c 1)]> payload)]
        ∧ (wcFail c 3 "UPDATE webhook_logs" = None → ∃ x, wsExecutions s' !! weID e = Some x ∧ weStatus x = "processed" ∧ weBody x = body)
  end.
Proof.
  clear hmac_hex. intros e. unfold trigger. destruct (parse_body _ _) as [p|]; [|done]. destruct (wcBus c) as [err|] eqn:Eb.
  - simpl. by autorewrite with webhook.
  - simpl. split; [done|]. unfold published. rewrite Eb. autorewrite with webhook. split.
    + by destruct (try _ "UPDATE webhooks" _); simpl; autorewrite with webhook; destruct (wsWebhooks s !! path); simpl; autorewrite with webhook.
    + intros Hf. unfold UpdateExecution, try. rewrite Hf. simpl. eexists. by rewrite lookup_insert_eq.
Qed.

(** C21. A request triggers its workflow exactly when it is admitted ([admits],
    stated without the code's checks): a webhook is found at its path that is
    active and not past its expiry and has its method; the calls counted in the
    window, with this one, are within the rate limit, or Redis fails; it carries
    the header, the basic credentials or the bearer token of the settings when
    authentication is required; and its signature, if it sends one and the
    webhook has a secret, is that of the body: an unsigned request is accepted
    ([unsigned_request_accepted]) although the webhook has a secret; and the
    event can be published.  Then one event asks for the execution of the
    webhook's workflow at its node with the data of the request, and the answer
    is 200 with the ID of the recorded call.  Every other request publishes
    nothing and leaves the webhooks alone: it is refused, or panics when it is
    admitted with a JSON body that is empty or null. *)
Theorem webhook_admission s path r c :
  let o := fst (HandleWebhook s path r c) in
  let s' := snd (HandleWebhook s path r c) in
  let payload_of body := parse_body (Header_Get (hrHeader r) "Content-Type") body in
  (∀ wh body payload, admits s path r c wh body → payload_of body = Some payload → wcBus c = None →
     o = Ret (Some {| wrSuccess := true; wrExecutionID := wcUuid c 0; wrMessage := "Webhook received and workflow triggered" |}, 200%Z, None)
     ∧ (∃ p, wsEvents s' = wsEvents s ++ [("webhook.received", whID wh, p)]
          ∧ p !! "workflowId" = Some (VStr (whWorkflowID wh)) ∧ p !! "nodeId" = Some (VStr (whNodeID wh))
          ∧ p !! "executionId" = Some (VStr (wcUuid c 0))
          ∧ p !! "data" = Some (VObj (map_to_list (<["_webhook" := request_metadata path r (wcNow c 1)]> payload))))
     ∧ (wcFail c 3 "UPDATE webhook_logs" = None → ∃ x, wsExecutions s' !! wcUuid c 0 = Some x ∧ weStatus x = "processed" ∧ weBody x = body))
  ∧ (wsEvents s' ≠ wsEvents s ↔ ∃ wh body payload, admits s path r c wh body ∧ payload_of body = Some payload ∧ wcBus c = None)
  ∧ (wsEvents s' = wsEvents s → wsTable s' = wsTable s ∧ wsWebhooks s' = wsWebhooks s)
  ∧ ((∃ msg, o = Panic msg) ↔
     ∃ wh body, admits s path r c wh body ∧ contains (Header_Get (hrHeader r) "Content-Type") "application/json" = true
                ∧ (body = "" ∨ unmarshal body = Some None)).
Proof.
  intros o s' payload_of. subst o s'.
  assert (∀ body, payload_of body = None ↔ contains (Header_Get (hrHeader r) "Content-Type") "application/json" = true
            ∧ (body = "" ∨ unmarshal body = Some None)) as Hnil.
  { intros body. unfold payload_of, parse_body. destruct (contains _ _); [|naive_solver]. case_bool_decide; [naive_solver|].
    destruct (unmarshal body) as [[?|]|]; naive_solver. }
  destruct (HandleWebhook_cases s path r c) as [(wh & body & Ha & ->)|(Hno & status & e & s1 & -> & _ & Ht & Hm & _ & He)].
  2:{ simpl. rewrite He. split_and!; [naive_solver..|done|naive_solver]. }
  assert (∀ wh' body', admits s path r c wh' body' → wh' = wh ∧ body' = body) as Hu.
  { intros wh' body' (E1 & _ & _ & _ & _ & _ & E2 & _). destruct Ha as (E3 & _ & _ & _ & _ & _ & E4 & _). split; congruence. }
  destruct (checkRateLimit s wh c) as [e0 s0] eqn:El. destruct (checkRateLimit_keeps _ _ _ _ _ El) as (Et & Em & _ & Ee). simpl.
  pose proof (trigger_cases s0 wh path r body c) as Htr. fold (payload_of body) in Htr. simpl in Htr.
  specialize (Hnil body). destruct (payload_of body) as [p|] eqn:Ep.
  - destruct (wcBus c) as [err|] eqn:Eb; destruct Htr as [-> Htr].
    + rewrite <- Ee, <- Et, <- Em. split_and!; [done|naive_solver|naive_solver|]. split; [naive_solver|].
      intros (wh' & body' & H & H'). apply Hu in H as [-> ->]. apply Hnil in H'. done.
    + destruct Htr as [Hev Hx]. rewrite Hev, Ee. split_and!.
      * intros wh' body' payload H E _. apply Hu in H as [-> ->]. rewrite Ep in E. injection E as ->.
        split; [done|]. split; [|done]. eexists. split; [unfold received_event; reflexivity|].
        apply received_fields.
      * split; [by eauto 7|]. intros _ E. apply (f_equal length) in E. rewrite length_app in E. simpl in E. lia.
      * intros E. apply (f_equal length) in E. rewrite length_app in E. simpl in E. lia.
      * split; [naive_solver|]. intros (wh' & body' & H & H'). apply Hu in H as [-> ->]. apply Hnil in H'. done.
  - rewrite Htr. simpl. rewrite Ee, Et, Em. split_and!; [| |done|].
    + intros wh' body' payload H E. apply Hu in H as [-> ->]. congruence.
    + split; [done|]. intros (wh' & body' & payload & H & E & _). apply Hu in H as [-> ->]. congruence.
    + split; [|by eauto]. intros _. exists wh, body. by rewrite <- Hnil.
Qed.

(** ** The rate limit *)

(** Requests one after the other. *)
Fixpoint handle_all (s : WebhookService) (path : string) (l : list (Request * WebhookCall)) :
    list (outcome reply) * WebhookService :=
  match l with
  | [] => ([], s)
  | (r, c) :: l' => let '(o, s') := HandleWebhook s path r c in
                    let '(os, s'') := handle_all s' path l' in (o :: os, s'')
  end.

(** A request to a webhook that accepts requests with its method, Redis working,
    in the minute from [t0]. *)
Definition knocking (w : Webhook) (t0 : Z) (rc : Request * WebhookCall) : Prop :=
  (∀ k, wcRedisFails rc.2 k = false) ∧ (t0 ≤ wcNow rc.2 0 < t0 + Minute)%Z
  ∧ CanAccept w (wcNow rc.2 0) = None ∧ (whMethod w = hrMethod rc.1 ∨ whMethod w = "ANY").

Definition same_settings (w w' : Webhook) : Prop :=
  whID w' = whID w ∧ whRateLimit w' = whRateLimit w ∧ whMethod w' = whMethod w ∧ whIsActive w' = whIsActive w
  ∧ whExpiresAt w' = whExpiresAt w.

Definition too_many : outcome reply := refuse 429 ErrRateLimitExceeded.

Lemma trigger_cached s wh path r body c w :
  wsWebhooks s !! path = Some w → same_settings w wh →
  let s' := snd (trigger s wh path r body c) in
  (∃ w', wsWebhooks s' !! path = Some w' ∧ same_settings w w') ∧ wsRedis s' = wsRedis s ∧ fst (trigger s wh path r body c) ≠ too_many.
Proof.
  clear hmac_hex. intros Hm Hw s'. subst s'. unfold trigger. assert (same_settings w w) as Hr by done.
  destruct (parse_body _ _) as [p|]; [|split_and!; [by exists w|done|done]]. destruct (wcBus c) as [err|] eqn:Eb.
  - simpl. autorewrite with webhook. split_and!; [by exists w|done|done].
  - simpl. unfold published. rewrite Eb. autorewrite with webhook. simpl.
    destruct (try _ "UPDATE webhooks" _); simpl; autorewrite with webhook; simpl; rewrite Hm; simpl; rewrite lookup_insert_eq;
      split_and!; try done; eexists; split; try done; destruct Hw; done.
Qed.

Lemma knock s path r c w w0 t0 k :
  wsWebhooks s !! path = Some w → same_settings w0 w → knocking w0 t0 (r, c) →
  counter_at (wsRedis s) (rate_key (whID w0)) t0 Minute k →
  let '(o, s') := HandleWebhook s path r c in
  (o = too_many ↔ (whRateLimit w0 ≤ Z.of_nat k)%Z)
  ∧ (∃ w', wsWebhooks s' !! path = Some w' ∧ same_settings w0 w')
  ∧ counter_at (wsRedis s') (rate_key (whID w0)) t0 Minute (S k).
Proof.
  intros Hm Hw (Hr & Ht & Ha & Hme) Hk. simpl in *. destruct Hw as (Hi & Hl & Hwm & Hact & Hexp).
  unfold HandleWebhook, GetWebhookByPath. rewrite Hm. unfold CanAccept, Webhook_IsExpired. rewrite Hact, Hexp.
  fold (Webhook_IsExpired w0 (wcNow c 0)). fold (CanAccept w0 (wcNow c 0)). rewrite Ha.
  rewrite (proj2 (bad_method w r)) by (by rewrite Hwm). unfold checkRateLimit. rewrite !Hr, Hi, Hl.
  destruct (counter_step _ _ _ _ _ _ Hk Ht) as (r1 & -> & HR & _). rewrite andb_true_r. cbn [negb].
  set (R := if bool_decide (Z.of_nat (S k) = 1%Z) then _ else r1) in *. set (s0 := put_redis s R).
  destruct (decide (whRateLimit w0 < Z.of_nat (S k))%Z) as [Hlt|Hge].
  { rewrite bool_decide_true by done. split_and!; [split; [lia|done]| |done]. exists w. done. }
  rewrite bool_decide_false by done.
  assert (∀ status e, status ≠ 429%Z → refuse status e ≠ too_many) as Hne by (intros status e H [= E]; done).
  assert (∀ o, o ≠ too_many → (o = too_many ↔ (whRateLimit w0 ≤ Z.of_nat k)%Z)) as Hno by (intros o Ho; split; [done|lia]).
  assert (∃ w', wsWebhooks s0 !! path = Some w' ∧ same_settings w0 w') as Hs by (exists w; done).
  destruct (if whRequireAuth w then _ else _) as [e|]; [split_and!; [apply Hno; by apply Hne|done..]|].
  destruct (hrBody r) as [body|e]; [|split_and!; [apply Hno; by apply Hne|done..]].
  destruct (_ && _); [split_and!; [apply Hno; by apply Hne|done..]|].
  destruct (trigger_cached s0 w path r body c w) as (Hc & Hred & Ho); [done|done|].
  destruct (trigger s0 w path r body c) as [o s']. simpl in *. rewrite Hred. split_and!; [by apply Hno| |done].
  destruct Hc as (w' & E & H1 & H2 & H3 & H4 & H5). exists w'. split; [done|]. by repeat split; etrans.
Qed.

Lemma knock_all s path w w0 t0 k l :
  wsWebhooks s !! path = Some w → same_settings w0 w → Forall (knocking w0 t0) l →
  counter_at (wsRedis s) (rate_key (whID w0)) t0 Minute k →
  length (fst (handle_all s path l)) = length l
  ∧ ∀ i o, fst (handle_all s path l) !! i = Some o → (o = too_many ↔ (whRateLimit w0 ≤ Z.of_nat (k + i))%Z).
Proof.
  intros Hm Hw Hf Hk. revert s w k Hm Hw Hk. induction Hf as [|[r c] l Hx Hf IH]; intros s w k Hm Hw Hk; [done|]. simpl.
  pose proof (knock s path r c w w0 t0 k Hm Hw Hx Hk) as Hkn. destruct (HandleWebhook s path r c) as [o s'].
  destruct Hkn as (Ho & (w' & Hm' & Hw') & Hk'). destruct (IH s' w' (S k) Hm' Hw' Hk') as [Hlen Hall].
  destruct (handle_all s' path l) as [os s'']. simpl in *. split; [by f_equal|]. intros [|i] o' E; simpl in E.
  - injection E as <-. by rewrite Nat.add_0_r.
  - rewrite Nat.add_succ_r. by apply Hall.
Qed.

(** The rate limit is exact: from a fresh counter, of any number of requests to
    a cached webhook within one minute exactly the first ones, as many as its
    limit, get past it, and every later one is answered 429. *)
Lemma webhook_rate_exact s path w t0 l :
  wsWebhooks s !! path = Some w → Forall (knocking w t0) l →
  (∀ t, (t0 ≤ t)%Z → redis_get (wsRedis s) t (rate_key (whID w)) = None) →
  length (fst (handle_all s path l)) = length l
  ∧ ∀ i o, fst (handle_all s path l) !! i = Some o → (o = too_many ↔ (whRateLimit w ≤ Z.of_nat i)%Z).
Proof. intros Hm Hf Hk. by apply (knock_all s path w w t0 0 l). Qed.

(** ** Activation *)

(** After the deactivation of a workflow its webhooks are inactive, the others as
    they were, and requests to them are refused. *)
Lemma deactivation_refuses b s payload c id w r c' :
  webhook_state b s → updates_ok c → range_order (wsTable s) (wcOrd c) → wcFail c 0 "SELECT webhooks" = None →
  wsTable s !! id = Some w →
  let s' := handleWorkflowDeactivated s payload c in
  if bool_decide (whWorkflowID w = default "" (get_string payload "workflowId"))
  then (∃ now, wsTable s' !! id = Some (touch (set_active w false) now))
       ∧ (wcFail c' 0 "SELECT webhooks" = None → range_order (wsTable s') (wcOrd c') →
          HandleWebhook s' (whPath w) r c' = (refuse 403 ErrWebhookDisabled, s'))
  else wsTable s' !! id = Some w.
Proof.
  intros Hs Hf Ho Hsel Hw s'. destruct (webhook_state_ok _ _ Hs) as [Hc _]. pose proof (proj1 (proj1 Hc) _ _ Hw) as Hid.
  destruct (workflow_webhooks_keeps false s payload c Hc Hf (proj1 Ho)) as [[Hc' _] Hrows]. fold (handleWorkflowDeactivated s payload c) in *.
  fold s' in Hc', Hrows. specialize (Hrows id). set (l := workflow_webhooks s payload c) in *.
  assert (∀ w', w' ∈ l ↔ ∃ i, wsTable s !! i = Some w' ∧ whWorkflowID w' = default "" (get_string payload "workflowId")) as Hl.
  { intros w'. unfold l, workflow_webhooks, ListByWorkflow, try. rewrite Hsel, rows_where_all by done. by setoid_rewrite bool_decide_eq_true. }
  case_bool_decide as Hwf.
  - assert (∃ now, wsTable s' !! id = Some (touch (set_active w false) now)) as [now Hrow].
    { destruct (list_find _ (imap pair l)) as [[i kw]|] eqn:Ef.
      - apply list_find_Some in Ef as (Ei & Eid & _). rewrite Hrows. eexists. do 3 f_equal.
        assert (kw.2 ∈ l) as Hin by (rewrite <- (imap_pair_snd l); apply list_elem_of_fmap_2; by eapply list_elem_of_lookup_2).
        apply Hl in Hin as (j & Hj & _). pose proof (proj1 (proj1 Hc) _ _ Hj). congruence.
      - exfalso. apply list_find_None in Ef. rewrite Forall_forall in Ef. assert (w ∈ snd <$> imap pair l) as Hin
          by (rewrite imap_pair_snd; apply Hl; eauto).
        apply list_elem_of_fmap in Hin as (kw & -> & Hin). by eapply Ef. }
    split; [by eauto|]. intros Hsel' Ho'. assert (GetWebhookByPath s' (whPath w) c' = Ok (touch (set_active w false) now)) as Hg.
    { assert (wsTable s' !! whID (touch (set_active w false) now) = Some (touch (set_active w false) now)) as Hr by (simpl; by rewrite Hid).
      unfold GetWebhookByPath. destruct (_ !! whPath w) as [w2|] eqn:E.
      - destruct (proj2 Hc' _ _ E) as [Hp2 Hr2]. f_equal. assert (whID w2 = id) as E2 by (by eapply (proj2 (proj1 Hc') _ _ w2 _ Hr2 Hrow)).
        rewrite E2 in Hr2. congruence.
      - change (whPath w) with (whPath (touch (set_active w false) now)). apply GetByPath_row; [apply Hc'|done..]. }
    unfold HandleWebhook. by rewrite Hg.
  - destruct (list_find _ (imap pair l)) as [[i kw]|] eqn:Ef; [|by rewrite Hrows]. exfalso. apply Hwf.
    apply list_find_Some in Ef as (Ei & Eid & _).
    assert (kw.2 ∈ l) as Hin by (rewrite <- (imap_pair_snd l); apply list_elem_of_fmap_2; by eapply list_elem_of_lookup_2).
    apply Hl in Hin as (j & Hj & Hwj). pose proof (proj1 (proj1 Hc) _ _ Hj). congruence.
Qed.

(** The statistics count the calls of the webhook by status. *)
Lemma GetExecutionStats_counts t ord id fail m :
  GetExecutionStats t ord id fail = Ok m →
  ∀ status, get_int m status = Z.of_nat (length (filter (λ e, weStatus e = status) (executions_of t ord id))).
Proof.
  clear. intros [= <-]%try_ok status. induction (executions_of t ord id) as [|e l IH] using rev_ind; [done|].
  rewrite foldl_app, filter_app, length_app. simpl. unfold get_int in *. rewrite filter_cons, filter_nil.
  case_decide as E.
  - subst status. rewrite lookup_insert_eq. simpl. rewrite IH. simpl. lia.
  - rewrite lookup_insert_ne by done. rewrite IH. simpl. lia.
Qed.
End handling.

(** ** Concrete runs *)

Definition demo_hook : Webhook :=
  {| whID := "h"; whWorkflowID := "wf"; whNodeID := "n"; whUserID := "u"; whName := "hook"; whPath := "in"; whMethod := "POST";
     whSecret := "secret"; whIsActive := true; whRequireAuth := false; whAuthType := ""; whAuthConfig := None; whHeaders := None;
     whRateLimit := 2; whExpiresAt := None; whLastCalledAt := None; whCallCount := 0; whCreatedAt := 0; whUpdatedAt := 0 |}.
Definition demo_hooks : WebhookService := NewWebhookService {["h" := demo_hook]} ∅ ∅.
Definition demo_hook_call (now : Z) : WebhookCall :=
  {| wcNow := λ k, (now + Z.of_nat k)%Z; wcUuid := λ k, "id" +:+ pretty k +:+ "-" +:+ pretty now; wcOrd := ["h"]; wcFail := λ _ _, None;
     wcRedisFails := λ _, false; wcBus := None |}.
Definition demo_request (body : string) (json : bool) : Request :=
  {| hrMethod := "POST"; hrHeader := if json then {["Content-Type" := ["application/json"]]} else ∅; hrQuery := ∅; hrBody := Ok body;
     hrRemoteAddr := "127.0.0.1"; hrBasicAuth := None |}.
Definition demo_started : WebhookService := snd (Webhook_Start demo_hooks (demo_hook_call 0)).
Definition demo_mac (k b : string) : string := k +:+ b.
Definition demo_json (s : string) : option (option vmap) :=
  if bool_decide (s = "null") then Some None else if bool_decide (s = "{}") then Some (Some ∅) else None.

(** A call counts once; without a signature it is accepted although the webhook
    has a secret, with a wrong one it is not. *)
Example unsigned_request_accepted :
  match HandleWebhook demo_mac demo_json demo_started "in" (demo_request "{}" true) (demo_hook_call 5) with
  | (Ret (Some _, 200%Z, None), s) => whCallCount <$> wsTable s !! "h" = Some 1%Z ∧ whCallCount <$> wsWebhooks s !! "in" = Some 1%Z
  | _ => False
  end.
Proof. vm_compute. done. Qed.

(** A JSON request with an empty body panics. *)
Example empty_json_body_panics :
  fst (HandleWebhook demo_mac demo_json demo_started "in" (demo_request "" true) (demo_hook_call 5))
  = Panic "assignment to entry in nil map".
Proof. vm_compute. done. Qed.

(** Required authentication without a configuration accepts a request without
    credentials. *)
Lemma unconfigured_auth_accepts w r :
  whAuthConfig w = None → whAuthType w = "header" ∨ whAuthType w = "bearer" →
  hrHeader r = ∅ → verifyAuth w r = None.
Proof.
  intros Hc Ht Hh. unfold verifyAuth, config. rewrite Hc, Hh. unfold Header_Get. simpl. rewrite !lookup_empty. simpl.
  by destruct Ht as [-> | ->].
Qed.

(** The method ANY, which requests are compared with, is not a valid one. *)
Lemma any_method_invalid w : whMethod w = "ANY" → snd (Webhook_Validate w) ≠ None.
Proof.
  intros Hm. unfold Webhook_Validate. rewrite Hm. destruct (bool_decide (whWorkflowID w = "")), (bool_decide (whPath w = "")); try done.
  rewrite bool_decide_false by done. simpl. rewrite Hm. by vm_compute.
Qed.

Lemma demo_hooks_ok : table_ok {["h" := demo_hook]}.
Proof.
  split.
  - intros id w H. apply lookup_singleton_Some in H as [<- <-]. done.
  - intros i j w w' H1 H2 _. apply lookup_singleton_Some in H1 as [<- _]. apply lookup_singleton_Some in H2 as [<- _]. done.
Qed.

(** When the UPDATE of an activation fails, the cache serves an active webhook
    whose row is inactive. *)
Lemma failed_update_splits_cache :
  let s0 := NewWebhookService {["h" := set_active demo_hook false]} ∅ ∅ in
  let c := {| wcNow := wcNow (demo_hook_call 5); wcUuid := wcUuid (demo_hook_call 5); wcOrd := ["h"];
              wcFail := λ _ stmt, if bool_decide (stmt = "UPDATE webhooks") then Some "down" else None;
              wcRedisFails := λ _, false; wcBus := None |} in
  let s := handleWorkflowActivated s0 {["workflowId" := VStr (whWorkflowID demo_hook)]} c in
  whIsActive <$> wsWebhooks s !! "in" = Some true ∧ whIsActive <$> wsTable s !! "h" = Some false.
Proof. vm_compute. done. Qed.

Lemma webhook_cache_transparent_witness :
  fst (HandleWebhook demo_mac demo_json demo_hooks "in" (demo_request "{}" true) (demo_hook_call 5))
  = fst (HandleWebhook demo_mac demo_json (put_cache demo_hooks ∅) "in" (demo_request "{}" true) (demo_hook_call 5)).
Proof.
  refine (proj1 (webhook_cache_transparent demo_mac demo_json false demo_hooks "in" (demo_request "{}" true) (demo_hook_call 5) _ _ _)).
  - apply ws_new, demo_hooks_ok.
  - reflexivity.
  - split; [apply NoDup_singleton|]. intros j.
    change (j ∈ ["h"] ↔ is_Some (({["h" := demo_hook]} : webhooks) !! j)).
    rewrite lookup_singleton_is_Some, list_elem_of_singleton. split; intros H; symmetry; exact H.
Defined.

Definition demo_requests : list (Request * WebhookCall) :=
  [(demo_request "a" false, demo_hook_call 1); (demo_request "b" false, demo_hook_call 2); (demo_request "c" false, demo_hook_call 3)].

Lemma webhook_rate_exact_witness :
  length (fst (handle_all demo_mac demo_json demo_started "in" demo_requests)) = length demo_requests
  ∧ ∀ i o, fst (handle_all demo_mac demo_json demo_started "in" demo_requests) !! i = Some o →
      (o = too_many ↔ (whRateLimit demo_hook ≤ Z.of_nat i)%Z).
Proof.
  refine (webhook_rate_exact demo_mac demo_json demo_started "in" demo_hook 0 demo_requests _ _ _).
  - vm_compute. reflexivity.
  - repeat (apply Forall_cons; split;
      [split; [done|]; split; [vm_compute; split; [intros H; discriminate|reflexivity]|]; split; [reflexivity|by left]|]).
    apply Forall_nil; done.
  - intros t _. reflexivity.
Defined.
