(* ===== verification/Users.v ===== *)
(** internal/user/adapters/db/repository: users with their roles as tables, and
    the repository that keeps users in the cache of pkg/cache.

    Rows are stored without their roles, which a join table gives.  The ORDER BY
    and LIKE of the database are parameters.  A cached value is what its JSON
    gives back: a user without the fields that JSON leaves out. *)

From S2P Require Import Prelude GoValue GoLib WorkflowRepo Redis Tokens Auth.

(** ** The repository *)

Record UserDB := {
  udUsers : gmap string User;
  udRoles : gmap string Role;
  udUserRoles : gset (string * string);
  udTeamMembers : gset (string * string)
}.
(** What a call reads from outside: the clock, the order of the rows, the failures
    of the database by statement and of the cache by key. *)
Record UserCall := {
  ucNow : Z;
  ucOrd : list string;
  ucFail : nat → db_fail;
  ucGetFails : string → bool;
  ucPutFails : string → bool
}.

Definition put_user (db : UserDB) (u : User) : UserDB :=
  {| udUsers := <[usID u := set_roles u []]> (udUsers db); udRoles := udRoles db; udUserRoles := udUserRoles db;
     udTeamMembers := udTeamMembers db |}.
Definition alter_users (db : UserDB) (f : User → User) : UserDB :=
  {| udUsers := f <$> udUsers db; udRoles := udRoles db; udUserRoles := udUserRoles db; udTeamMembers := udTeamMembers db |}.
Definition put_user_roles (db : UserDB) (s : gset (string * string)) : UserDB :=
  {| udUsers := udUsers db; udRoles := udRoles db; udUserRoles := s; udTeamMembers := udTeamMembers db |}.

(** Preload("Roles.Permissions"). *)
Definition roles_of (db : UserDB) (id : string) : list Role :=
  omap (λ p : string * Role, if bool_decide ((id, p.1) ∈ udUserRoles db) then Some p.2 else None) (map_to_list (udRoles db)).
Definition preload (db : UserDB) (u : User) : User := set_roles u (roles_of db (usID u)).

(** The pointer and the error of a query for one user: a failed query gives an
    empty user with its error. *)
Definition find_user (db : UserDB) (ord : list string) (cond : User → bool) (fail : db_fail) : option User * option string :=
  match fail "SELECT users" with
  | Some e => (Some zero_user, Some e)
  | None => match head (rows_where (udUsers db) ord cond) with
            | Some u => (Some (preload db u), None)
            | None => (None, Some "user not found")
            end
  end.
Definition Users_GetByID (db : UserDB) (ord : list string) (id : string) (fail : db_fail) :=
  find_user db ord (λ u, bool_decide (usID u = id)) fail.
Definition Users_GetByEmail (db : UserDB) (ord : list string) (email : string) (fail : db_fail) :=
  find_user db ord (λ u, bool_decide (usEmail u = email)) fail.
Definition GetByUsername (db : UserDB) (ord : list string) (username : string) (fail : db_fail) :=
  find_user db ord (λ u, bool_decide (usUsername u = username)) fail.

(** The unique indexes, for the row of [id]. *)
Definition user_taken (db : UserDB) (id email username : string) : bool :=
  existsb (λ p, negb (bool_decide (p.1 = id)) && (bool_decide (usEmail p.2 = email) || bool_decide (usUsername p.2 = username)))
    (map_to_list (udUsers db)).

(** The associations of a user, and their roles where they are new. *)
Definition save_roles (db : UserDB) (u : User) : UserDB :=
  {| udUsers := udUsers db; udRoles := udRoles db ∪ list_to_map ((λ r, (roID r, r)) <$> usRoles u);
     udUserRoles := udUserRoles db ∪ list_to_set ((λ r, (usID u, roID r)) <$> usRoles u); udTeamMembers := udTeamMembers db |}.

(** A new user gets its times and, by the default of the column, its status; the
    pointer gets them as well. *)
Definition complete_user (u : User) (now : Z) : User :=
  {| usID := usID u; usEmail := usEmail u; usUsername := usUsername u; usPassword := usPassword u; usFirstName := usFirstName u;
     usLastName := usLastName u; usAvatar := usAvatar u; usEmailVerified := usEmailVerified u;
     usEmailVerifyToken := usEmailVerifyToken u; usTwoFactorEnabled := usTwoFactorEnabled u;
     usTwoFactorSecret := usTwoFactorSecret u; usStatus := (if bool_decide (usStatus u = "") then UserActive else usStatus u);
     usRoles := usRoles u; usLastLoginAt := usLastLoginAt u;
     usCreatedAt := (if bool_decide (usCreatedAt u = 0%Z) then now else usCreatedAt u);
     usUpdatedAt := (if bool_decide (usUpdatedAt u = 0%Z) then now else usUpdatedAt u) |}.
Definition Users_Create (db : UserDB) (u : User) (now : Z) (fail : db_fail) : User * result UserDB :=
  let u := complete_user u now in
  (u, try fail "INSERT users"
        (if bool_decide (is_Some (udUsers db !! usID u)) || user_taken db (usID u) (usEmail u) (usUsername u) then Err duplicate_key
         else Ok (put_user (save_roles db u) u))).

Definition nonzero (new old : string) : string := if bool_decide (new = "") then old else new.
Definition user_row (id email username password first last avatar : string) (verified : bool) (token : string) (two : bool)
    (secret status : string) (login : option Z) (created updated : Z) : User :=
  {| usID := id; usEmail := email; usUsername := username; usPassword := password; usFirstName := first; usLastName := last;
     usAvatar := avatar; usEmailVerified := verified; usEmailVerifyToken := token; usTwoFactorEnabled := two;
     usTwoFactorSecret := secret; usStatus := status; usRoles := []; usLastLoginAt := login; usCreatedAt := created;
     usUpdatedAt := updated |}.
(** Updates(u) with a struct: its zero fields are left alone. *)
Definition merge_user (old u : User) : User :=
  user_row (usID old) (nonzero (usEmail u) (usEmail old)) (nonzero (usUsername u) (usUsername old))
    (nonzero (usPassword u) (usPassword old)) (nonzero (usFirstName u) (usFirstName old)) (nonzero (usLastName u) (usLastName old))
    (nonzero (usAvatar u) (usAvatar old)) (usEmailVerified u || usEmailVerified old)
    (nonzero (usEmailVerifyToken u) (usEmailVerifyToken old)) (usTwoFactorEnabled u || usTwoFactorEnabled old)
    (nonzero (usTwoFactorSecret u) (usTwoFactorSecret old)) (nonzero (usStatus u) (usStatus old))
    (match usLastLoginAt u with Some t => Some t | None => usLastLoginAt old end)
    (if bool_decide (usCreatedAt u = 0%Z) then usCreatedAt old else usCreatedAt u) (usUpdatedAt u).
Definition touch_user (u : User) (now : Z) : User :=
  set_login u (usPassword u) (usFirstName u) (usLastName u) (usAvatar u) (usEmailVerified u) (usEmailVerifyToken u) (usLastLoginAt u) now.

(** The time of update is set on the pointer as well; without a row nothing is
    updated, and without an ID the update is refused. *)
Definition Users_Update (db : UserDB) (u : User) (now : Z) (fail : db_fail) : User * result UserDB :=
  let u := touch_user u now in
  (u, if bool_decide (usID u = "") then Err "WHERE conditions required"
      else try fail "UPDATE users"
             (match udUsers db !! usID u with
              | None => if bool_decide (usRoles u = []) then Ok db else Err "violates foreign key constraint"
              | Some old =>
                  let row := merge_user old u in
                  if user_taken db (usID row) (usEmail row) (usUsername row) then Err duplicate_key
                  else Ok (put_user (save_roles db u) row)
              end)).

(** A column of the rows of a condition, with the time of update. *)
Definition update_where (db : UserDB) (cond : User → bool) (f : User → User) (fail : db_fail) : result UserDB :=
  try fail "UPDATE users" (Ok (alter_users db (λ u, if cond u then f u else u))).
Definition set_status (status : string) (now : Z) (u : User) : User :=
  user_row (usID u) (usEmail u) (usUsername u) (usPassword u) (usFirstName u) (usLastName u) (usAvatar u) (usEmailVerified u)
    (usEmailVerifyToken u) (usTwoFactorEnabled u) (usTwoFactorSecret u) status (usLastLoginAt u) (usCreatedAt u) now.
Definition UpdateLastLogin (db : UserDB) (id : string) (now : Z) (fail : db_fail) : result UserDB :=
  update_where db (λ u, bool_decide (usID u = id))
    (λ u, set_login u (usPassword u) (usFirstName u) (usLastName u) (usAvatar u) (usEmailVerified u) (usEmailVerifyToken u) (Some now) now) fail.
Definition Users_Delete (db : UserDB) (id : string) (now : Z) (fail : db_fail) : result UserDB :=
  update_where db (λ u, bool_decide (usID u = id)) (set_status UserDeleted now) fail.
Definition Users_HardDelete (db : UserDB) (id : string) (fail : db_fail) : result UserDB :=
  try fail "DELETE users" (Ok {| udUsers := delete id (udUsers db); udRoles := udRoles db; udUserRoles := udUserRoles db;
                                 udTeamMembers := udTeamMembers db |}).
Definition BulkDelete (db : UserDB) (ids : list string) (now : Z) (fail : db_fail) : result UserDB :=
  update_where db (λ u, bool_decide (usID u ∈ ids)) (set_status UserDeleted now) fail.

Definition role_exists (db : UserDB) (fail : db_fail) (roleID : string) : option string :=
  match fail "SELECT roles" with
  | Some e => Some e
  | None => match udRoles db !! roleID with Some _ => None | None => Some "record not found" end
  end.
(** The transaction around an association. *)
Definition change_user_role (db : UserDB) (userID roleID : string) (f : gset (string * string) → gset (string * string)) (fail : db_fail) :
    result UserDB :=
  match fail "SELECT users" with
  | Some e => Err e
  | None =>
      match udUsers db !! userID with
      | None => Err "record not found"
      | Some _ => match role_exists db fail roleID with
                  | Some e => Err e
                  | None => try fail "UPDATE user_roles" (Ok (put_user_roles db (f (udUserRoles db))))
                  end
      end
  end.
Definition Users_AssignRole (db : UserDB) (userID roleID : string) (fail : db_fail) : result UserDB :=
  change_user_role db userID roleID (λ s, {[(userID, roleID)]} ∪ s) fail.
Definition Users_RemoveRole (db : UserDB) (userID roleID : string) (fail : db_fail) : result UserDB :=
  change_user_role db userID roleID (λ s, s ∖ {[(userID, roleID)]}) fail.

Definition count_where (db : UserDB) (ord : list string) (cond : User → bool) (fail : db_fail) : result Z :=
  try fail "SELECT count" (Ok (Z.of_nat (length (rows_where (udUsers db) ord cond)))).
Definition ExistsByEmail (db : UserDB) (ord : list string) (email : string) (fail : db_fail) : result bool :=
  match count_where db ord (λ u, bool_decide (usEmail u = email)) fail with Ok n => Ok (bool_decide (0 < n)%Z) | Err e => Err e end.
Definition ExistsByUsername (db : UserDB) (ord : list string) (username : string) (fail : db_fail) : result bool :=
  match count_where db ord (λ u, bool_decide (usUsername u = username)) fail with Ok n => Ok (bool_decide (0 < n)%Z) | Err e => Err e end.
Definition GetActiveUsersCount (db : UserDB) (ord : list string) (fail : db_fail) : result Z :=
  count_where db ord (λ u, bool_decide (usStatus u = UserActive)) fail.
(** Preload("Roles"), without the permissions of the roles. *)
Definition bare_role (r : Role) : Role :=
  {| roID := roID r; roName := roName r; roDescription := roDescription r; roIsSystem := roIsSystem r; roPermissions := [];
     roCreatedAt := roCreatedAt r; roUpdatedAt := roUpdatedAt r |}.
Definition GetUsersByRole (db : UserDB) (ord : list string) (roleID : string) (fail : db_fail) : result (list User) :=
  try fail "SELECT users"
    (Ok ((λ u, set_roles u (bare_role <$> roles_of db (usID u)))
           <$> rows_where (udUsers db) ord (λ u, bool_decide ((usID u, roleID) ∈ udUserRoles db)))).
Definition GetUsersByTeam (db : UserDB) (ord : list string) (teamID : string) (fail : db_fail) : result (list User) :=
  try fail "SELECT users" (Ok (rows_where (udUsers db) ord (λ u, bool_decide ((usID u, teamID) ∈ udTeamMembers db)))).

Record ListUsersOptions := {
  loPage : Z;
  loLimit : Z;
  loStatus : string;
  loRoleID : string;
  loTeamID : string;
  loSortBy : string;
  loSortDesc : bool;
  loIncludeRoles : bool
}.

Section users.
Context (order_by : string → list User → list User) (like : string → string → bool).

Definition list_condition (db : UserDB) (o : ListUsersOptions) (u : User) : bool :=
  (bool_decide (loStatus o = "") || bool_decide (usStatus u = loStatus o))
  && (bool_decide (loRoleID o = "") || bool_decide ((usID u, loRoleID o) ∈ udUserRoles db))
  && (bool_decide (loTeamID o = "") || bool_decide ((usID u, loTeamID o) ∈ udTeamMembers db)).
Definition order_clause (o : ListUsersOptions) : string :=
  if bool_decide (loSortBy o = "") then "created_at DESC" else loSortBy o +:+ " " +:+ (if loSortDesc o then "DESC" else "ASC").
Definition Users_ListUsers (db : UserDB) (ord : list string) (o : ListUsersOptions) (fail : db_fail) : result (list User * Z) :=
  let rows := rows_where (udUsers db) ord (list_condition db o) in
  match try fail "SELECT count" (Ok (Z.of_nat (length rows))) with
  | Err e => Err e
  | Ok total =>
      let page := page_of (loPage o) (loLimit o) (order_by (order_clause o) rows) in
      try fail "SELECT users" (Ok ((if loIncludeRoles o then preload db <$> page else page), total))
  end.
Definition Users_Search (db : UserDB) (ord : list string) (query : string) (limit : Z) (fail : db_fail) : result (list User) :=
  let term := "%" +:+ to_lower query +:+ "%" in
  let matches u := like (to_lower (usEmail u)) term || like (to_lower (usUsername u)) term || like (to_lower (usFirstName u)) term
                   || like (to_lower (usLastName u)) term in
  try fail "SELECT users" (Ok (take (Z.to_nat limit) (rows_where (udUsers db) ord matches))).

(** BulkUpdate: the columns of the map; one that is not a column, or of another
    type, is refused by the database.  The map also gets the time of update. *)
Definition text_column (updates : vmap) (col old : string) : string :=
  match updates !! col with Some (VStr s) => s | _ => old end.
Definition bulk_column_ok (col : string) (v : value) : bool :=
  match v with
  | VStr _ => bool_decide (col ∈ ["email"; "username"; "first_name"; "last_name"; "avatar_url"; "status"])
  | VBool _ => bool_decide (col = "email_verified")
  | VTime _ => bool_decide (col = "updated_at")
  | _ => false
  end.
Definition bulk_row (updates : vmap) (now : Z) (u : User) : User :=
  user_row (usID u) (text_column updates "email" (usEmail u)) (text_column updates "username" (usUsername u)) (usPassword u)
    (text_column updates "first_name" (usFirstName u)) (text_column updates "last_name" (usLastName u))
    (text_column updates "avatar_url" (usAvatar u))
    (match updates !! "email_verified" with Some (VBool b) => b | _ => usEmailVerified u end) (usEmailVerifyToken u)
    (usTwoFactorEnabled u) (usTwoFactorSecret u) (text_column updates "status" (usStatus u)) (usLastLoginAt u) (usCreatedAt u) now.
(** The unique indexes after an update of many rows. *)
Definition unique_users (db : UserDB) : bool :=
  bool_decide (NoDup (usEmail ∘ snd <$> map_to_list (udUsers db))) && bool_decide (NoDup (usUsername ∘ snd <$> map_to_list (udUsers db))).
Definition BulkUpdate (db : UserDB) (ids : list string) (updates : vmap) (now : Z) (fail : db_fail) : result UserDB :=
  if bool_decide (map_Forall (λ col v, bulk_column_ok col v = true) (<["updated_at" := VTime now]> updates))
  then match update_where db (λ u, bool_decide (usID u ∈ ids)) (bulk_row updates now) fail with
       | Ok db' => if unique_users db' then Ok db' else Err duplicate_key
       | Err e => Err e
       end
  else Err "invalid column".

(** ** The cache *)

Inductive cached :=
| CUser (u : User)
| CUsers (l : list User)
| CList (l : list User) (total : Z)
| CCount (n : Z).
Abbreviation cache := (gmap string (cached * Z)).

(** What is left of a user after JSON: without its secrets. *)
Definition public (u : User) : User :=
  {| usID := usID u; usEmail := usEmail u; usUsername := usUsername u; usPassword := ""; usFirstName := usFirstName u;
     usLastName := usLastName u; usAvatar := usAvatar u; usEmailVerified := usEmailVerified u; usEmailVerifyToken := "";
     usTwoFactorEnabled := usTwoFactorEnabled u; usTwoFactorSecret := ""; usStatus := usStatus u; usRoles := usRoles u;
     usLastLoginAt := usLastLoginAt u; usCreatedAt := usCreatedAt u; usUpdatedAt := usUpdatedAt u |}.
Definition encoded (v : cached) : cached :=
  match v with
  | CUser u => CUser (public u)
  | CUsers l => CUsers (public <$> l)
  | CList l n => CList (public <$> l) n
  | CCount n => CCount n
  end.

Definition DefaultTTL : Z := 5 * Minute.
(** A hit gives the entry the default lifetime again. *)
Definition cache_get (m : cache) (key : string) (c : UserCall) : option cached * cache :=
  if ucGetFails c key then (None, m)
  else match m !! key with
       | Some (v, e) => if bool_decide (ucNow c < e)%Z then (Some v, <[key := (v, (ucNow c + DefaultTTL)%Z)]> m) else (None, m)
       | None => (None, m)
       end.
Definition cache_set (m : cache) (key : string) (v : cached) (ttl : Z) (c : UserCall) : cache :=
  if ucPutFails c key then m else <[key := (encoded v, (ucNow c + ttl)%Z)]> m.
Definition cache_delete (m : cache) (key : string) (c : UserCall) : cache := if ucPutFails c key then m else delete key m.
(** The keys with a prefix. *)
Definition cache_invalidate (m : cache) (prefix : string) (c : UserCall) : cache :=
  if ucPutFails c prefix then m else filter (λ p : string * (cached * Z), String.prefix prefix p.1 = false) m.

(** ** The cached repository *)

Record CachedUserRepository := {
  cuDB : UserDB;
  cuCache : cache
}.
Definition with_cache (s : CachedUserRepository) (m : cache) : CachedUserRepository := {| cuDB := cuDB s; cuCache := m |}.
Definition user_ttl : Z := 5 * Minute.
Definition id_key (id : string) : string := "id:" +:+ id.
Definition email_key (email : string) : string := "email:" +:+ email.
Definition username_key (name : string) : string := "username:" +:+ name.

(** A read through the cache: the entry under the key, or the answer of the
    database, which [keep] puts into the cache. *)
Definition read_user (s : CachedUserRepository) (key : string) (answer : option User * option string) (keep : cache → User → cache)
    (c : UserCall) : result User * CachedUserRepository :=
  match cache_get (cuCache s) key c with
  | (Some (CUser u), m) => (Ok u, with_cache s m)
  | (_, m) =>
      match answer with
      | (_, Some e) => (Err e, with_cache s m)
      | (None, None) => (Err "", with_cache s m)
      | (Some u, None) => (Ok u, with_cache s (keep m u))
      end
  end.
Definition Cached_GetByID (s : CachedUserRepository) (id : string) (c : UserCall) : result User * CachedUserRepository :=
  read_user s (id_key id) (Users_GetByID (cuDB s) (ucOrd c) id (ucFail c 0)) (λ m u, cache_set m (id_key id) (CUser u) user_ttl c) c.
Definition Cached_GetByEmail (s : CachedUserRepository) (email : string) (c : UserCall) : result User * CachedUserRepository :=
  read_user s (email_key email) (Users_GetByEmail (cuDB s) (ucOrd c) email (ucFail c 0))
    (λ m u, cache_set (cache_set m (email_key email) (CUser u) user_ttl c) (id_key (usID u)) (CUser u) user_ttl c) c.
Definition Cached_GetByUsername (s : CachedUserRepository) (name : string) (c : UserCall) : result User * CachedUserRepository :=
  read_user s (username_key name) (GetByUsername (cuDB s) (ucOrd c) name (ucFail c 0))
    (λ m u, cache_set m (username_key name) (CUser u) user_ttl c) c.

Definition Cached_Create (s : CachedUserRepository) (u : User) (c : UserCall) : option string * CachedUserRepository :=
  match Users_Create (cuDB s) u (ucNow c) (ucFail c 0) with
  | (_, Err e) => (Some e, s)
  | (u, Ok db) =>
      let m := cache_set (cuCache s) (id_key (usID u)) (CUser u) user_ttl c in
      let m := cache_set m (email_key (usEmail u)) (CUser u) user_ttl c in
      let m := cache_invalidate (cache_invalidate m "list:" c) "count:" c in
      (None, {| cuDB := db; cuCache := m |})
  end.

Definition Cached_Update (s : CachedUserRepository) (u : User) (c : UserCall) : option string * CachedUserRepository :=
  let oldUser := fst (Users_GetByID (cuDB s) (ucOrd c) (usID u) (ucFail c 0)) in
  match Users_Update (cuDB s) u (ucNow c) (ucFail c 1) with
  | (_, Err e) => (Some e, s)
  | (u, Ok db) =>
      let m := cuCache s in
      let m := match oldUser with
               | Some old => if bool_decide (usEmail old = usEmail u) then m else cache_delete m (email_key (usEmail old)) c
               | None => m
               end in
      let m := cache_set m (id_key (usID u)) (CUser u) user_ttl c in
      let m := cache_set m (email_key (usEmail u)) (CUser u) user_ttl c in
      let m := if bool_decide (usUsername u = "") then m else cache_set m (username_key (usUsername u)) (CUser u) user_ttl c in
      (None, {| cuDB := db; cuCache := cache_invalidate m "list:" c |})
  end.

(** The keys of a user. *)
Definition forget_user (m : cache) (id : string) (u : option User) (c : UserCall) : cache :=
  let m := cache_delete m (id_key id) c in
  match u with
  | None => m
  | Some u => let m := cache_delete m (email_key (usEmail u)) c in
              if bool_decide (usUsername u = "") then m else cache_delete m (username_key (usUsername u)) c
  end.

Definition Cached_Delete (s : CachedUserRepository) (id : string) (c : UserCall) : option string * CachedUserRepository :=
  let u := fst (Users_GetByID (cuDB s) (ucOrd c) id (ucFail c 0)) in
  match Users_Delete (cuDB s) id (ucNow c) (ucFail c 1) with
  | Err e => (Some e, s)
  | Ok db => (None, {| cuDB := db; cuCache := cache_invalidate (cache_invalidate (forget_user (cuCache s) id u c) "list:" c) "count:" c |})
  end.
Definition Cached_HardDelete := Cached_Delete.

Definition InvalidateUserCache (s : CachedUserRepository) (id : string) (fail : db_fail) (c : UserCall) : CachedUserRepository :=
  match Users_GetByID (cuDB s) (ucOrd c) id fail with
  | (_, Some _) | (None, None) => s
  | (Some u, None) =>
      with_cache s (cache_invalidate (cache_invalidate (forget_user (cuCache s) id (Some u) c) "list:" c) "search:" c)
  end.

(** A write to the database, and the cached users it concerns. *)
Definition write_users (s : CachedUserRepository) (r : result UserDB) (ids : list string) (c : UserCall) : option string * CachedUserRepository :=
  match r with
  | Err e => (Some e, s)
  | Ok db => (None, foldl (λ s kid, InvalidateUserCache s kid.2 (ucFail c (S kid.1)) c) {| cuDB := db; cuCache := cuCache s |} (imap pair ids))
  end.
Definition Cached_UpdateLastLogin (s : CachedUserRepository) (id : string) (c : UserCall) :=
  write_users s (UpdateLastLogin (cuDB s) id (ucNow c) (ucFail c 0)) [id] c.
Definition Cached_BulkUpdate (s : CachedUserRepository) (ids : list string) (updates : vmap) (c : UserCall) :=
  write_users s (BulkUpdate (cuDB s) ids updates (ucNow c) (ucFail c 0)) ids c.
Definition Cached_BulkDelete (s : CachedUserRepository) (ids : list string) (c : UserCall) :=
  write_users s (BulkDelete (cuDB s) ids (ucNow c) (ucFail c 0)) ids c.
Definition Cached_AssignRole (s : CachedUserRepository) (userID roleID : string) (c : UserCall) :=
  write_users s (Users_AssignRole (cuDB s) userID roleID (ucFail c 0)) [userID] c.
Definition Cached_RemoveRole (s : CachedUserRepository) (userID roleID : string) (c : UserCall) :=
  write_users s (Users_RemoveRole (cuDB s) userID roleID (ucFail c 0)) [userID] c.

Definition list_key (o : ListUsersOptions) : string :=
  "list:" +:+ pretty (loPage o) +:+ ":" +:+ pretty (loLimit o) +:+ ":" +:+ loStatus o +:+ ":" +:+ loRoleID o +:+ ":" +:+ loTeamID o
  +:+ ":" +:+ loSortBy o +:+ ":" +:+ (if loSortDesc o then "true" else "false").
Definition cache_users (m : cache) (l : list User) (c : UserCall) : cache :=
  foldl (λ m u, cache_set m (id_key (usID u)) (CUser u) user_ttl c) m l.
Definition Cached_ListUsers (s : CachedUserRepository) (o : ListUsersOptions) (c : UserCall) : result (list User * Z) * CachedUserRepository :=
  match cache_get (cuCache s) (list_key o) c with
  | (Some (CList l n), m) => (Ok (l, n), with_cache s m)
  | (_, m) =>
      match Users_ListUsers (cuDB s) (ucOrd c) o (ucFail c 0) with
      | Err e => (Err e, with_cache s m)
      | Ok (l, n) => (Ok (l, n), with_cache s (cache_users (cache_set m (list_key o) (CList l n) Minute c) l c))
      end
  end.
Definition Cached_GetActiveUsersCount (s : CachedUserRepository) (c : UserCall) : result Z * CachedUserRepository :=
  match cache_get (cuCache s) "count:active" c with
  | (Some (CCount n), m) => (Ok n, with_cache s m)
  | (_, m) =>
      match GetActiveUsersCount (cuDB s) (ucOrd c) (ucFail c 0) with
      | Err e => (Err e, with_cache s m)
      | Ok n => (Ok n, with_cache s (cache_set m "count:active" (CCount n) (30 * Second) c))
      end
  end.
(** A list of users under a key. *)
Definition read_users (s : CachedUserRepository) (key : string) (answer : result (list User)) (ttl : Z) (c : UserCall) :
    result (list User) * CachedUserRepository :=
  match cache_get (cuCache s) key c with
  | (Some (CUsers l), m) => (Ok l, with_cache s m)
  | (_, m) =>
      match answer with
      | Err e => (Err e, with_cache s m)
      | Ok l => (Ok l, with_cache s (cache_set m key (CUsers l) ttl c))
      end
  end.
Definition Cached_Search (s : CachedUserRepository) (query : string) (limit : Z) (c : UserCall) :=
  read_users s ("search:" +:+ query +:+ ":" +:+ pretty limit) (Users_Search (cuDB s) (ucOrd c) query limit (ucFail c 0)) (30 * Second) c.
Definition Cached_GetUsersByRole (s : CachedUserRepository) (roleID : string) (c : UserCall) :=
  read_users s ("role:" +:+ roleID) (GetUsersByRole (cuDB s) (ucOrd c) roleID (ucFail c 0)) Minute c.
Definition Cached_GetUsersByTeam (s : CachedUserRepository) (teamID : string) (c : UserCall) :=
  read_users s ("team:" +:+ teamID) (GetUsersByTeam (cuDB s) (ucOrd c) teamID (ucFail c 0)) Minute c.

Definition warm_up_options : ListUsersOptions :=
  {| loPage := 1; loLimit := 100; loStatus := UserActive; loRoleID := ""; loTeamID := ""; loSortBy := "last_login_at";
     loSortDesc := false; loIncludeRoles := false |}.
Definition WarmUpCache (s : CachedUserRepository) (c : UserCall) : option string * CachedUserRepository :=
  match Users_ListUsers (cuDB s) (ucOrd c) warm_up_options (ucFail c 0) with
  | Err e => (Some e, s)
  | Ok (l, _) =>
      (None, with_cache s (foldl (λ m u, cache_set (cache_set m (id_key (usID u)) (CUser u) user_ttl c) (email_key (usEmail u)) (CUser u) user_ttl c)
                             (cuCache s) l))
  end.

(** *** As a machine *)

Inductive UserOp :=
| UoByID (id : string)
| UoByEmail (email : string)
| UoByUsername (name : string)
| UoCreate (u : User)
| UoUpdate (u : User)
| UoDelete (id : string)
| UoList (o : ListUsersOptions)
| UoCount
| UoSearch (query : string) (limit : Z)
| UoLogin (id : string)
| UoBulkUpdate (ids : list string) (updates : vmap)
| UoBulkDelete (ids : list string)
| UoAssign (userID roleID : string)
| UoRemove (userID roleID : string)
| UoRole (roleID : string)
| UoTeam (teamID : string).

Definition user_run (op : UserOp) (c : UserCall) (s : CachedUserRepository) : CachedUserRepository :=
  match op with
  | UoByID id => snd (Cached_GetByID s id c)
  | UoByEmail e => snd (Cached_GetByEmail s e c)
  | UoByUsername n => snd (Cached_GetByUsername s n c)
  | UoCreate u => snd (Cached_Create s u c)
  | UoUpdate u => snd (Cached_Update s u c)
  | UoDelete id => snd (Cached_Delete s id c)
  | UoList o => snd (Cached_ListUsers s o c)
  | UoCount => snd (Cached_GetActiveUsersCount s c)
  | UoSearch q n => snd (Cached_Search s q n c)
  | UoLogin id => snd (Cached_UpdateLastLogin s id c)
  | UoBulkUpdate ids u => snd (Cached_BulkUpdate s ids u c)
  | UoBulkDelete ids => snd (Cached_BulkDelete s ids c)
  | UoAssign u r => snd (Cached_AssignRole s u r c)
  | UoRemove u r => snd (Cached_RemoveRole s u r c)
  | UoRole r => snd (Cached_GetUsersByRole s r c)
  | UoTeam t => snd (Cached_GetUsersByTeam s t c)
  end.

(** ** The cache agrees with the table *)

Definition users_ok (db : UserDB) : Prop :=
  (∀ id u, udUsers db !! id = Some u → usID u = id ∧ usRoles u = [] ∧ usUsername u ≠ "")
  ∧ (∀ i j u v, udUsers db !! i = Some u → udUsers db !! j = Some v → usEmail u = usEmail v ∨ usUsername u = usUsername v → i = j)
  ∧ (∀ id r, (id, r) ∈ udUserRoles db → is_Some (udUsers db !! id))
  ∧ (∀ k r, udRoles db !! k = Some r → roID r = k).

(** The keys of users. *)
Inductive ukey := KId (id : string) | KEmail (email : string) | KName (name : string).
Definition key_text (k : ukey) : string :=
  match k with KId id => id_key id | KEmail e => email_key e | KName n => username_key n end.
Definition names (k : ukey) (u : User) : Prop :=
  match k with KId id => usID u = id | KEmail e => usEmail u = e | KName n => usUsername u = n end.

Lemma key_text_inj k k' : key_text k = key_text k' → k = k'.
Proof.
  clear. destruct k, k'; simpl; unfold id_key, email_key, username_key; intros E; try done; f_equal; by apply (inj (String.append _)) in E.
Qed.

(** The row of a key. *)
Definition row_of (db : UserDB) (k : ukey) (row : User) : Prop := udUsers db !! usID row = Some row ∧ names k row.
Lemma row_of_unique db k r r' : users_ok db → row_of db k r → row_of db k r' → r = r'.
Proof.
  clear. intros (Hi & Hu & _) [H1 N1] [H2 N2]. assert (usID r = usID r') as E.
  { destruct k; simpl in *; [congruence|eapply Hu; [done..|left; congruence]|eapply Hu; [done..|right; congruence]]. }
  rewrite E in H1. congruence.
Qed.

Definition seen (db : UserDB) (row : User) : User := public (preload db row).
Definition fresh (db : UserDB) (m : cache) : Prop :=
  ∀ k v e, m !! key_text k = Some (v, e) → ∃ row, row_of db k row ∧ v = CUser (seen db row).

Lemma public_idem u : public (public u) = public u.
Proof. clear. done. Qed.

(** Steps of the cache. *)
Lemma fresh_mono db m m' :
  (∀ k v e, m' !! key_text k = Some (v, e) → ∃ e', m !! key_text k = Some (v, e')) → fresh db m → fresh db m'.
Proof. clear. intros Hs H k v e E. destruct (Hs _ _ _ E) as [e' E']. by eapply H. Qed.
Lemma fresh_get db m key c v m' : cache_get m key c = (v, m') → fresh db m → fresh db m'.
Proof.
  clear. intros E. apply fresh_mono. intros k v' e E'. unfold cache_get in E. destruct (ucGetFails c key); [injection E as <- <-; eauto|].
  destruct (m !! key) as [[v0 e0]|] eqn:Ek; [|injection E as <- <-; eauto]. case_bool_decide; injection E as <- <-; [|eauto].
  destruct (decide (key = key_text k)) as [->|Hne].
  - rewrite lookup_insert_eq in E'. injection E' as <- <-. eauto.
  - rewrite lookup_insert_ne in E' by done. eauto.
Qed.
Lemma fresh_set db m k u row ttl c :
  row_of db k row → public u = seen db row → fresh db m → fresh db (cache_set m (key_text k) (CUser u) ttl c).
Proof.
  clear. intros Hr Hu H k' v e E. unfold cache_set in E. destruct (ucPutFails c _); [by eapply H|].
  destruct (decide (key_text k = key_text k')) as [Ek|Hne].
  - rewrite Ek, lookup_insert_eq in E. injection E as <- <-. apply key_text_inj in Ek as <-. exists row. split; [done|]. simpl. by rewrite Hu.
  - rewrite lookup_insert_ne in E by done. by eapply H.
Qed.
Lemma fresh_set_other db m key v ttl c : (∀ k, key ≠ key_text k) → fresh db m → fresh db (cache_set m key v ttl c).
Proof.
  clear. intros Hk. apply fresh_mono. intros k v' e E. unfold cache_set in E. destruct (ucPutFails c _); [eauto|].
  rewrite lookup_insert_ne in E by done. eauto.
Qed.
Lemma fresh_delete db m key c : fresh db m → fresh db (cache_delete m key c).
Proof.
  clear. apply fresh_mono. intros k v e E. unfold cache_delete in E. destruct (ucPutFails c _); [eauto|].
  apply lookup_delete_Some in E as [_ E]. eauto.
Qed.
Lemma fresh_invalidate db m p c : fresh db m → fresh db (cache_invalidate m p c).
Proof.
  clear. apply fresh_mono. intros k v e E. unfold cache_invalidate in E. destruct (ucPutFails c _); [eauto|].
  apply map_lookup_filter_Some in E as [E _]. eauto.
Qed.

(** Queries find the row of a key. *)
Lemma find_user_row db ord k (cond : User → bool) fail :
  users_ok db → range_order (udUsers db) ord → (∀ u, cond u = true ↔ names k u) → fail "SELECT users" = None →
  match find_user db ord cond fail with
  | (Some u, None) => ∃ row, row_of db k row ∧ u = preload db row
  | (_, Some e) => e = "user not found" ∧ ∀ row, ¬ row_of db k row
  | (None, None) => False
  end.
Proof.
  clear. intros Hok Ho Hc Hf. unfold find_user. rewrite Hf. destruct (head _) as [u|] eqn:E.
  - apply head_Some_elem_of, rows_where_elem in E as (id & _ & Hu & Hcu). exists u. split; [|done]. split; [|by apply Hc].
    by rewrite (proj1 (proj1 Hok _ _ Hu)).
  - split; [done|]. intros row [Hr Hn]. assert (row ∈ rows_where (udUsers db) ord cond) as Hin
      by (apply rows_where_all; [done|]; exists (usID row); by rewrite Hc).
    destruct (rows_where _ _ _); [set_solver|done].
Qed.

(** The answer of a query as a result. *)
Definition answer_result (a : option User * option string) : result User :=
  match a with (_, Some e) => Err e | (Some u, None) => Ok u | (None, None) => Err "" end.
Definition map_result {A B} (f : A → B) (r : result A) : result B := match r with Ok a => Ok (f a) | Err e => Err e end.

(** A read through a fresh cache gives what the database gives, without the
    secrets, and leaves the cache fresh. *)
Lemma read_user_spec s k ord cond fail keep c :
  users_ok (cuDB s) → fresh (cuDB s) (cuCache s) → range_order (udUsers (cuDB s)) ord → (∀ u, cond u = true ↔ names k u) →
  fail "SELECT users" = None →
  (∀ m row, row_of (cuDB s) k row → fresh (cuDB s) m → fresh (cuDB s) (keep m (preload (cuDB s) row))) →
  let '(r, s') := read_user s (key_text k) (find_user (cuDB s) ord cond fail) keep c in
  map_result public r = map_result public (answer_result (find_user (cuDB s) ord cond fail))
  ∧ cuDB s' = cuDB s ∧ fresh (cuDB s) (cuCache s').
Proof.
  clear. intros Hok Hfr Ho Hc Hf Hkeep. pose proof (find_user_row (cuDB s) ord k cond fail Hok Ho Hc Hf) as Hfind. unfold read_user.
  destruct (cache_get (cuCache s) (key_text k) c) as [v m] eqn:Eg. pose proof (fresh_get _ _ _ _ _ _ Eg Hfr) as Hm.
  assert (match v with Some (CUser u) => ∃ row, row_of (cuDB s) k row ∧ u = seen (cuDB s) row | _ => True end) as Hv.
  { unfold cache_get in Eg. destruct (ucGetFails c _); [by injection Eg as <- <-|].
    destruct (cuCache s !! key_text k) as [[v0 e0]|] eqn:Ek; [|by injection Eg as <- <-]. case_bool_decide; injection Eg as <- <-; [|done].
    destruct (Hfr _ _ _ Ek) as (row & Hr & ->). eauto. }
  assert (let '(r, s') := match find_user (cuDB s) ord cond fail with
                          | (_, Some e) => (Err e, with_cache s m)
                          | (None, None) => (Err "", with_cache s m)
                          | (Some u, None) => (Ok u, with_cache s (keep m u))
                          end in
          map_result public r = map_result public (answer_result (find_user (cuDB s) ord cond fail))
          ∧ cuDB s' = cuDB s ∧ fresh (cuDB s) (cuCache s')) as Hmiss.
  { destruct (find_user _ _ _ _) as [[u|] [e|]]; simpl; try done. destruct Hfind as (row & Hr & ->). split_and!; [done..|]. by apply Hkeep. }
  destruct v as [[u| | |]|]; try exact Hmiss. destruct Hv as (row & Hr & ->). split_and!; [|done..].
  destruct (find_user _ _ _ _) as [[u|] [e|]]; [|destruct Hfind as (row' & Hr' & ->)|..|done].
  - by destruct (proj2 Hfind row).
  - simpl. unfold seen. by rewrite (row_of_unique _ _ _ _ Hok Hr Hr').
  - by destruct (proj2 Hfind row).
Qed.

(** Reads of the database and writes to the cache succeed. *)
Definition calm (c : UserCall) : Prop :=
  (∀ k, ucFail c k "SELECT users" = None) ∧ (∀ key, ucPutFails c key = false).

Lemma forget_user_keys m row c k v e :
  calm c → usUsername row ≠ "" → forget_user m (usID row) (Some row) c !! key_text k = Some (v, e) →
  m !! key_text k = Some (v, e) ∧ ¬ names k row.
Proof.
  clear. intros [_ Hp] Hn. unfold forget_user, cache_delete. rewrite !Hp, bool_decide_false by done. intros E.
  apply lookup_delete_Some in E as [N3 E]. apply lookup_delete_Some in E as [N2 E]. apply lookup_delete_Some in E as [N1 E].
  split; [done|]. intros Hk. destruct k; simpl in *; congruence.
Qed.

Lemma invalidate_lookup m p c (k : ukey) v e : cache_invalidate m p c !! key_text k = Some (v, e) → m !! key_text k = Some (v, e).
Proof.
  clear. unfold cache_invalidate. destruct (ucPutFails c p); [done|]. intros E. by apply map_lookup_filter_Some in E as [E _].
Qed.

Lemma InvalidateUserCache_spec s id fail c :
  users_ok (cuDB s) → range_order (udUsers (cuDB s)) (ucOrd c) → calm c → fail "SELECT users" = None →
  let s' := InvalidateUserCache s id fail c in
  cuDB s' = cuDB s
  ∧ ∀ k v e, cuCache s' !! key_text k = Some (v, e) →
      cuCache s !! key_text k = Some (v, e) ∧ ∀ row, row_of (cuDB s) k row → usID row ≠ id.
Proof.
  clear. intros Hok Ho Hc Hf s'. subst s'. unfold InvalidateUserCache, Users_GetByID.
  pose proof (find_user_row (cuDB s) (ucOrd c) (KId id) (λ u, bool_decide (usID u = id)) fail Hok Ho
    ltac:(intros u; apply bool_decide_eq_true) Hf) as Hfind.
  destruct (find_user _ _ _ _) as [[u|] [e|]]; simpl in *.
  2:{ destruct Hfind as (row & [Hr Hid] & ->). simpl in Hid. split; [done|]. intros k v e E. do 2 apply invalidate_lookup in E.
      change (usEmail (preload (cuDB s) row)) with (usEmail row) in E. subst id.
      destruct (forget_user_keys (cuCache s) row c k v e Hc) as [E' Hn]; [by apply (proj1 Hok _ _ Hr)|exact E|].
      split; [done|]. intros row' [Hr' Hk'] Eid. apply Hn. rewrite Eid in Hr'. by simplify_eq. }
  all: first [done|split; [done|]; intros k v e' E; split; [done|]; intros row [Hr _] Eid; by apply (proj2 Hfind row)].
Qed.

Lemma invalidate_all_spec s (l : list (nat * string)) c :
  users_ok (cuDB s) → range_order (udUsers (cuDB s)) (ucOrd c) → calm c →
  let s' := foldl (λ s kid, InvalidateUserCache s kid.2 (ucFail c (S kid.1)) c) s l in
  cuDB s' = cuDB s
  ∧ ∀ k v e, cuCache s' !! key_text k = Some (v, e) →
      cuCache s !! key_text k = Some (v, e) ∧ ∀ row, row_of (cuDB s) k row → usID row ∉ l.*2.
Proof.
  clear. intros Hok Ho Hc. revert s Hok Ho. induction l as [|kid l IH]; intros s Hok Ho; simpl; [set_solver|].
  destruct (InvalidateUserCache_spec s kid.2 (ucFail c (S kid.1)) c Hok Ho Hc (proj1 Hc _)) as [E1 H1].
  destruct (IH (InvalidateUserCache s kid.2 (ucFail c (S kid.1)) c)) as [E2 H2]; [by rewrite E1..|]. split; [congruence|].
  intros k v e E. destruct (H2 _ _ _ E) as [E' Hl]. destruct (H1 _ _ _ E') as [E'' Hn]. split; [done|].
  intros row Hr. rewrite E1 in Hl. specialize (Hl row Hr). specialize (Hn row Hr). set_solver.
Qed.

(** A write that keeps the IDs, emails and user names, and the rows outside
    [ids]. *)
Definition changes_only (db db' : UserDB) (ids : list string) : Prop :=
  (∀ id u, udUsers db !! id = Some u → ∃ u', udUsers db' !! id = Some u' ∧ usEmail u' = usEmail u ∧ usUsername u' = usUsername u)
  ∧ (∀ id, is_Some (udUsers db' !! id) → is_Some (udUsers db !! id))
  ∧ ∀ row, udUsers db !! usID row = Some row → usID row ∉ ids → udUsers db' !! usID row = Some row ∧ seen db' row = seen db row.

Lemma changes_only_names db db' ids id u' :
  changes_only db db' ids → udUsers db' !! id = Some u' →
  ∃ u, udUsers db !! id = Some u ∧ usEmail u' = usEmail u ∧ usUsername u' = usUsername u.
Proof.
  clear. intros (H1 & H2 & _) Hu'. destruct (H2 id) as [u Hu]; [eauto|]. exists u. split; [done|].
  destruct (H1 _ _ Hu) as (u2 & E & ? & ?). by simplify_eq.
Qed.

Lemma changes_only_order db db' ids ord : changes_only db db' ids → range_order (udUsers db) ord → range_order (udUsers db') ord.
Proof.
  clear. intros (H1 & H2 & _) [Hn Ho]. split; [done|]. intros id. rewrite Ho. split; [|apply H2]. intros [u Hu].
  destruct (H1 _ _ Hu) as (u' & ? & _). eauto.
Qed.

Lemma write_users_fresh s r db' ids c :
  users_ok db' → fresh (cuDB s) (cuCache s) → users_ok (cuDB s) → range_order (udUsers (cuDB s)) (ucOrd c) → calm c →
  (∀ db'', r = Ok db'' → db'' = db') → changes_only (cuDB s) db' ids →
  let s' := snd (write_users s r ids c) in
  (cuDB s' = cuDB s ∨ cuDB s' = db') ∧ fresh (cuDB s') (cuCache s').
Proof.
  clear. intros Hok' Hfr Hok Ho Hc Hr Hch s'. subst s'. unfold write_users. destruct r as [db''|e]; [|by auto]. rewrite (Hr db'' eq_refl). simpl.
  destruct (invalidate_all_spec {| cuDB := db'; cuCache := cuCache s |} (imap pair ids) c Hok') as [E H];
    [by eapply changes_only_order|done|]. simpl in E. split; [by right|]. rewrite E. intros k v e El. destruct (H _ _ _ El) as [El' Hn].
  destruct (Hfr _ _ _ El') as (row & [Hrow Hk] & ->). rewrite imap_pair_snd in Hn. simpl in Hn.
  destruct (decide (usID row ∈ ids)) as [Hin|Hout].
  - exfalso. destruct (proj1 Hch _ _ Hrow) as (u' & Hu' & Ee & En). destruct (proj1 Hok' _ _ Hu') as (Eid & _).
    apply (Hn u'); [|by rewrite Eid]. split; [by rewrite Eid|]. destruct k; simpl in *; congruence.
  - destruct (proj2 (proj2 Hch) row Hrow Hout) as [Hrow' Es]. exists row. split; [done|]. by rewrite Es.
Qed.

Lemma changes_only_ok db db' ids :
  users_ok db → changes_only db db' ids → (∀ id u, udUsers db' !! id = Some u → usID u = id ∧ usRoles u = []) →
  (∀ id r, (id, r) ∈ udUserRoles db' → (id, r) ∈ udUserRoles db ∨ is_Some (udUsers db !! id)) → udRoles db' = udRoles db → users_ok db'.
Proof.
  clear. intros (Hi & Hu & Hj & Hro) Hch Hid Hur Ero. split_and!; [| |intros id r H|by rewrite Ero].
  - intros id u' H'. destruct (changes_only_names _ _ _ _ _ Hch H') as (u & H & _ & En). destruct (Hid _ _ H'). split_and!; [done..|].
    rewrite En. by apply (Hi _ _ H).
  - intros i j u' v' H1 H2 E. destruct (changes_only_names _ _ _ _ _ Hch H1) as (u & G1 & E1 & E2).
    destruct (changes_only_names _ _ _ _ _ Hch H2) as (v & G2 & E3 & E4). eapply (Hu i j u v); [done..|]. destruct E; [left|right]; congruence.
  - assert (is_Some (udUsers db !! id)) as [u Hid'] by (destruct (Hur _ _ H); eauto). destruct (proj1 Hch _ _ Hid') as (u' & -> & _). eauto.
Qed.

Lemma alter_users_ok db cond f ids :
  users_ok db → (∀ u, cond u = true → usID u ∈ ids) →
  (∀ u, usRoles u = [] → usID (f u) = usID u ∧ usEmail (f u) = usEmail u ∧ usUsername (f u) = usUsername u ∧ usRoles (f u) = []) →
  let db' := alter_users db (λ u, if cond u then f u else u) in changes_only db db' ids ∧ users_ok db'.
Proof.
  clear. intros Hok Hc Hf db'. assert (changes_only db db' ids) as Hch.
  { split_and!.
    - intros id u Hu. unfold db'. simpl. rewrite lookup_fmap, Hu. eexists. split; [done|]. destruct (proj1 Hok _ _ Hu) as (_ & Hr & _).
      destruct (cond u); [|done]. by destruct (Hf u Hr) as (_ & ? & ? & _).
    - intros id. unfold db'. simpl. rewrite lookup_fmap. by destruct (udUsers db !! id).
    - intros row Hr Hn. unfold db'. simpl. rewrite lookup_fmap, Hr. simpl. destruct (cond row) eqn:E; [by apply Hc in E|done]. }
  split; [done|]. eapply changes_only_ok; [done..| |by left|done]. intros id u' H'. unfold db' in H'. simpl in H'. rewrite lookup_fmap in H'.
  destruct (udUsers db !! id) as [u|] eqn:E; [|done]. injection H' as <-. destruct (proj1 Hok _ _ E) as (Hi & Hr & _).
  destruct (cond u); [|done]. destruct (Hf u Hr) as (? & _ & _ & ?). split; [congruence|done].
Qed.

(** The roles of a user depend on its part of the join table only. *)
Lemma roles_of_ext db db' id :
  udRoles db' = udRoles db → (∀ r, (id, r) ∈ udUserRoles db' ↔ (id, r) ∈ udUserRoles db) → roles_of db' id = roles_of db id.
Proof.
  clear. intros E H. unfold roles_of. rewrite E. apply list_omap_ext, Forall_Forall2_diag, Forall_forall. intros [r ro] _. simpl.
  specialize (H r). repeat case_bool_decide; naive_solver.
Qed.

Lemma change_user_role_ok db userID roleID f fail db' :
  users_ok db → change_user_role db userID roleID f fail = Ok db' → (∀ s p, p.1 ≠ userID → p ∈ f s ↔ p ∈ s) →
  changes_only db db' [userID] ∧ users_ok db'.
Proof.
  clear. intros Hok E Hf. unfold change_user_role in E. destruct (fail "SELECT users"); [done|]. destruct (udUsers db !! userID) as [u0|] eqn:Eu; [|done].
  destruct (role_exists _ _ _); [done|]. apply try_ok in E. injection E as <-.
  assert (changes_only db (put_user_roles db (f (udUserRoles db))) [userID]) as Hch.
  { split_and!; simpl; [eauto|done|]. intros row Hr Hn. split; [done|]. unfold seen, preload. f_equal. f_equal. apply roles_of_ext; [done|].
    intros r. simpl. apply Hf. set_solver. }
  split; [done|]. eapply changes_only_ok; [done..| | |done].
  - intros id u H. simpl in H. by destruct (proj1 Hok _ _ H) as (? & ? & _).
  - intros id r H. simpl in H. destruct (decide (id = userID)) as [->|Hne]; [eauto|]. left. by apply (Hf _ (id, r)).
Qed.

(** ** Calls *)

(** The conditions under which a call keeps the cache in step: an update is of an
    existing user, changes no user name and sets no field to its zero value; a list
    includes the roles; a new user has a name and no roles yet; a bulk update
    changes neither emails nor user names. *)
Definition tidy (s : CachedUserRepository) (op : UserOp) (c : UserCall) : Prop :=
  match op with
  | UoCreate u => usUsername u ≠ "" ∧ usRoles u = []
  | UoUpdate u => ∃ row, udUsers (cuDB s) !! usID u = Some row ∧ usUsername u = usUsername row
      ∧ seen (cuDB s) (merge_user row (touch_user u (ucNow c))) = public (touch_user u (ucNow c))
  | UoList o => loIncludeRoles o = true
  | UoBulkUpdate ids updates => updates !! "email" = None ∧ updates !! "username" = None
  | _ => True
  end.

Context (order_by_rows : ∀ clause l u, u ∈ order_by clause l → u ∈ l).

Definition in_step (s : CachedUserRepository) : Prop := users_ok (cuDB s) ∧ fresh (cuDB s) (cuCache s).

Lemma write_in_step s r ids c :
  in_step s → range_order (udUsers (cuDB s)) (ucOrd c) → calm c →
  (∀ db', r = Ok db' → changes_only (cuDB s) db' ids ∧ users_ok db') → in_step (snd (write_users s r ids c)).
Proof.
  clear. intros [Hok Hfr] Ho Hc Hr. destruct r as [db'|e]; [|done]. destruct (Hr db' eq_refl) as [Hch Hok'].
  destruct (write_users_fresh s (Ok db') db' ids c) as [Hdb Hf]; try done; [by intros ? [= ->]|]. split; [|done].
  destruct Hdb as [-> | ->]; done.
Qed.

Definition key_other (key : string) : bool :=
  negb (String.prefix "id:" key || String.prefix "email:" key || String.prefix "username:" key).
Lemma other_key (key : string) :
  key_other key = true → ∀ k, key ≠ key_text k.
Proof. clear. intros H k ->. destruct k as [[]|[]|[]]; done. Qed.

Lemma cache_users_fresh db m l c :
  (∀ u, u ∈ l → ∃ row, row_of db (KId (usID u)) row ∧ public u = seen db row) → fresh db m → fresh db (cache_users m l c).
Proof.
  clear. revert m. induction l as [|u l IH]; intros m Hl Hm; [done|]. simpl. apply IH; [set_solver|].
  destruct (Hl u ltac:(left)) as (row & Hr & Hp). by apply (fresh_set db m (KId (usID u)) u row).
Qed.

Lemma list_users_seen db ord o fail l n :
  users_ok db → loIncludeRoles o = true → Users_ListUsers db ord o fail = Ok (l, n) →
  ∀ u, u ∈ l → ∃ row, row_of db (KId (usID u)) row ∧ public u = seen db row.
Proof.
  intros Hok Hi E. unfold Users_ListUsers in E. rewrite Hi in E. destruct (try fail "SELECT count" _); [|done]. apply try_ok in E.
  injection E as <- _. intros u (row & -> & Hr)%list_elem_of_fmap. exists row. split; [|done].
  assert (row ∈ rows_where (udUsers db) ord (list_condition db o)) as Hin.
  { apply (order_by_rows (order_clause o)). unfold page_of in Hr. destruct (_ && _); [|done].
      apply elem_of_take in Hr as (i & Hr & _). rewrite lookup_drop in Hr. by eapply list_elem_of_lookup_2. }
  apply rows_where_elem in Hin as (id & _ & Hu & _). split; [|done]. by rewrite (proj1 (proj1 Hok _ _ Hu)).
Qed.

(** Rows that stay keep what the cache knows of them. *)
Lemma fresh_keep db db' m m' :
  fresh db m →
  (∀ k v e row, m' !! key_text k = Some (v, e) → row_of db k row →
     m !! key_text k = Some (v, e) → row_of db' k row ∧ seen db' row = seen db row) →
  (∀ k v e, m' !! key_text k = Some (v, e) → m !! key_text k = Some (v, e)) → fresh db' m'.
Proof.
  clear. intros Hf Hk Hs k v e E. destruct (Hf _ _ _ (Hs _ _ _ E)) as (row & Hr & ->). exists row.
  destruct (Hk _ _ _ _ E Hr (Hs _ _ _ E)) as [? ->]. done.
Qed.

Lemma changes_only_fresh db db' ids m m' :
  changes_only db db' ids → fresh db m →
  (∀ k v e, m' !! key_text k = Some (v, e) → m !! key_text k = Some (v, e) ∧ ∀ row, row_of db k row → usID row ∉ ids) → fresh db' m'.
Proof.
  clear. intros Hch Hf Hs. eapply (fresh_keep db db' m m'); [done| |by intros ??? [? _]%Hs].
  intros k v e row E [Hr Hn] _. destruct (proj2 (proj2 Hch) row Hr) as [Hr' Es]; [by apply (proj2 (Hs _ _ _ E))|]. done.
Qed.

Lemma forget_user_lookup m id u c k v e : forget_user m id u c !! key_text k = Some (v, e) → m !! key_text k = Some (v, e).
Proof.
  clear. assert (∀ m key, cache_delete m key c !! key_text k = Some (v, e) → m !! key_text k = Some (v, e)) as H.
  { intros m' key. unfold cache_delete. destruct (ucPutFails c key); [done|]. by intros [_ ?]%lookup_delete_Some. }
  unfold forget_user. destruct u as [u|]; [case_bool_decide|]; eauto.
Qed.

Lemma delete_in_step s id c :
  in_step s → range_order (udUsers (cuDB s)) (ucOrd c) → calm c → in_step (snd (Cached_Delete s id c)).
Proof.
  clear. intros [Hok Hfr] Ho Hc. unfold Cached_Delete, Users_Delete, update_where. destruct (try _ _ _) as [db'|] eqn:Et; [|done].
  apply try_ok in Et. injection Et as <-.
  destruct (alter_users_ok (cuDB s) (λ u, bool_decide (usID u = id)) (set_status UserDeleted (ucNow c)) [id] Hok) as [Hch Hok'];
    [intros u ->%bool_decide_eq_true; set_solver|by intros u ?|]. split; [done|]. simpl. eapply changes_only_fresh; [done..|].
  intros k v e E. do 2 apply invalidate_lookup in E. unfold Users_GetByID in E.
  pose proof (find_user_row (cuDB s) (ucOrd c) (KId id) (λ u, bool_decide (usID u = id)) (ucFail c 0) Hok Ho
    ltac:(intros u; apply bool_decide_eq_true) (proj1 Hc 0)) as Hfind.
  destruct (find_user _ _ _ _) as [[u|] [e'|]]; simpl fst in E; simpl in Hfind;
    [|destruct Hfind as (row & [Hr Hid] & ->)|..|done].
  1,3: split; [eapply forget_user_lookup; exact E|]; intros row [Hr _] Eid%list_elem_of_singleton; by destruct (proj2 Hfind row).
  simpl in Hid. subst id. destruct (forget_user_keys (cuCache s) row c k v e Hc) as [E' Hn]; [by apply (proj1 Hok _ _ Hr)|exact E|].
  split; [done|]. intros row' [Hr' Hk'] Eid%list_elem_of_singleton. apply Hn. rewrite Eid in Hr'. by simplify_eq.
Qed.

Lemma save_no_roles db u : usRoles u = [] → save_roles db u = db.
Proof. clear. intros E. destruct db. unfold save_roles. rewrite E. simpl. f_equal; [by rewrite map_union_empty|set_solver]. Qed.

Lemma user_taken_false db id email name :
  user_taken db id email name = false → ∀ j v, udUsers db !! j = Some v → usEmail v = email ∨ usUsername v = name → j = id.
Proof.
  clear. intros H j v Hv E. unfold user_taken in H. destruct (decide (j = id)) as [|Hne]; [done|].
  rewrite <- not_true_iff_false in H. exfalso. apply H, existsb_exists. exists (j, v). split; [by apply list_elem_of_In, elem_of_map_to_list|]. simpl.
  rewrite bool_decide_false by done. simpl. destruct E; [rewrite bool_decide_true by done|rewrite (bool_decide_true (usUsername v = name)), orb_true_r by done]; done.
Qed.

(** A row whose email and user name nobody else has. *)
Lemma put_user_ok db u :
  users_ok db → usUsername u ≠ "" → user_taken db (usID u) (usEmail u) (usUsername u) = false → users_ok (put_user db u).
Proof.
  clear. intros (Hi & Hu & Hj & Hro) Hn Ht. pose proof (user_taken_false _ _ _ _ Ht) as Hfree. split_and!; simpl; [| | |done].
  - intros id v [[<- <-]|[_ ?]]%lookup_insert_Some; eauto.
  - intros i j v w [[<- <-]|[N1 H1]]%lookup_insert_Some [[<- <-]|[N2 H2]]%lookup_insert_Some E; simpl in *; [done|..|by eapply Hu].
    + symmetry. eapply Hfree; [done|]. naive_solver.
    + eapply Hfree; [done|]. naive_solver.
  - intros id r H. destruct (Hj _ _ H) as [v Hv]. rewrite lookup_insert_is_Some. destruct (decide (usID u = id)); eauto.
Qed.

Lemma put_user_rows db u k row : row_of db k row → usID row ≠ usID u → row_of (put_user db u) k row ∧ seen (put_user db u) row = seen db row.
Proof. clear. intros [Hr Hn] Hne. split; [|done]. split; [|done]. simpl. by rewrite lookup_insert_ne by done. Qed.
Lemma put_user_row db u k : names k u → row_of (put_user db u) k (set_roles u []).
Proof. clear. intros Hn. split; [by apply lookup_insert_eq|]. by destruct k. Qed.

Lemma roles_of_elem db id r :
  users_ok db → r ∈ roles_of db id ↔ udRoles db !! roID r = Some r ∧ (id, roID r) ∈ udUserRoles db.
Proof.
  clear. intros (_ & _ & _ & Hro). unfold roles_of. rewrite list_elem_of_omap. split.
  - intros ([k ro] & Hin & E). simpl in E. case_bool_decide; [|done]. injection E as ->. apply elem_of_map_to_list in Hin. by rewrite (Hro _ _ Hin).
  - intros [H1 H2]. exists (roID r, r). split; [by apply elem_of_map_to_list|]. simpl. by rewrite bool_decide_true.
Qed.

Lemma save_same_roles db u : users_ok db → usRoles u = roles_of db (usID u) → save_roles db u = db.
Proof.
  clear. intros Hok E. pose proof (λ r, roles_of_elem db (usID u) r Hok) as Hel. destruct db as [us ros urs tms]. unfold save_roles. rewrite E.
  simpl in *. f_equal.
  - apply map_eq. intros k. apply option_eq. intros r. rewrite lookup_union_Some_raw. split; [|by left].
    intros [?|[Hno H]]; [done|]. apply elem_of_list_to_map_2 in H.
    apply list_elem_of_fmap in H as (r' & [= -> ->] & H). apply Hel in H as [? _]. congruence.
  - apply leibniz_equiv. intros [a b]. rewrite elem_of_union, elem_of_list_to_set, list_elem_of_fmap. split; [|by left].
    intros [?|(r & [= -> ->] & H)]; [done|]. by apply Hel in H as [_ ?].
Qed.

Lemma roles_of_new db id : users_ok db → udUsers db !! id = None → roles_of db id = [].
Proof.
  clear. intros Hok Hn. apply elem_of_nil_inv. intros r [_ H]%(roles_of_elem _ _ _ Hok). destruct (proj1 (proj2 (proj2 Hok)) _ _ H) as [u E].
  congruence.
Qed.

Lemma create_in_step s u c : in_step s → tidy s (UoCreate u) c → in_step (snd (Cached_Create s u c)).
Proof.
  clear. intros [Hok Hfr] [Hn Hr]. unfold Cached_Create, Users_Create. destruct (try _ _ _) as [db'|] eqn:Et; [|done]. apply try_ok in Et.
  set (u' := complete_user u (ucNow c)) in *. destruct (bool_decide _ || _) eqn:Eo; [done|]. apply orb_false_iff in Eo as [Hnew Ht].
  apply bool_decide_eq_false, eq_None_not_Some in Hnew. injection Et as <-. rewrite save_no_roles by done. split; simpl.
  - by apply put_user_ok.
  - do 2 apply fresh_invalidate.
    assert (fresh (put_user (cuDB s) u') (cuCache s)) as Hf.
    { eapply fresh_keep; [exact Hfr| |done]. intros k v e row _ Hk _. apply put_user_rows; [done|]. intros E. destruct Hk as [Hk _].
      rewrite E in Hk. change (usID u) with (usID u') in *. congruence. }
    assert (public u' = seen (put_user (cuDB s) u') (set_roles u' [])) as Hs.
    { unfold seen, preload. simpl. change (roles_of (put_user (cuDB s) u') (usID u)) with (roles_of (cuDB s) (usID u')).
      rewrite (roles_of_new _ _ Hok Hnew). unfold public. simpl. by rewrite Hr. }
    apply (fresh_set _ _ (KEmail (usEmail u')) u' (set_roles u' [])); [by apply put_user_row|done|].
    by apply (fresh_set _ _ (KId (usID u')) u' (set_roles u' [])); [by apply put_user_row|..].
Qed.

Lemma set_lookup m k u ttl c k' v e :
  calm c → cache_set m (key_text k) (CUser u) ttl c !! key_text k' = Some (v, e) →
  (k' = k ∧ v = CUser (public u)) ∨ (k' ≠ k ∧ m !! key_text k' = Some (v, e)).
Proof.
  clear. intros [_ Hp] E. unfold cache_set in E. rewrite Hp in E. apply lookup_insert_Some in E as [[Ek Ev]|[Hne E]].
  - apply key_text_inj in Ek as ->. left. by injection Ev as <- _.
  - right. split; [congruence|done].
Qed.

(** The keys of a user after they have all been set. *)
Lemma sets_lookup m u c k v e :
  calm c → usUsername u ≠ "" →
  (let m := cache_set m (id_key (usID u)) (CUser u) user_ttl c in
   let m := cache_set m (email_key (usEmail u)) (CUser u) user_ttl c in
   if bool_decide (usUsername u = "") then m else cache_set m (username_key (usUsername u)) (CUser u) user_ttl c) !! key_text k = Some (v, e) →
  (names k u ∧ v = CUser (public u)) ∨ (¬ names k u ∧ m !! key_text k = Some (v, e)).
Proof.
  clear. intros Hc Hn E. cbv zeta in E. rewrite bool_decide_false in E by done.
  apply (set_lookup _ (KName (usUsername u))) in E as [[-> ->]|[N3 E]]; [by left|..|done].
  apply (set_lookup _ (KEmail (usEmail u))) in E as [[-> ->]|[N2 E]]; [by left|..|done].
  apply (set_lookup _ (KId (usID u))) in E as [[-> ->]|[N1 E]]; [by left|..|done].
  right. split; [|done]. destruct k; simpl; congruence.
Qed.

Lemma delete_lookup m key c k v e :
  calm c → cache_delete m key c !! key_text k = Some (v, e) → key ≠ key_text k ∧ m !! key_text k = Some (v, e).
Proof. clear. intros [_ Hp]. unfold cache_delete. rewrite Hp. by intros [??]%lookup_delete_Some. Qed.

Lemma GetByID_found db ord id row fail :
  users_ok db → range_order (udUsers db) ord → udUsers db !! id = Some row → fail "SELECT users" = None →
  Users_GetByID db ord id fail = (Some (preload db row), None).
Proof.
  clear. intros Hok Ho Hr Hf. pose proof (find_user_row db ord (KId id) (λ u, bool_decide (usID u = id)) fail Hok Ho
    ltac:(intros u; apply bool_decide_eq_true) Hf) as H. assert (row_of db (KId id) row) as Hro.
  { destruct (proj1 Hok _ _ Hr) as (E & _). split; [by rewrite E|done]. }
  unfold Users_GetByID. destruct (find_user _ _ _ _) as [[u|] [e|]]; try done; [by destruct (proj2 H row)| |by destruct (proj2 H row)].
  destruct H as (r & Hr' & ->). by rewrite (row_of_unique _ _ _ _ Hok Hro Hr').
Qed.

Lemma update_in_step s u c :
  in_step s → range_order (udUsers (cuDB s)) (ucOrd c) → calm c → tidy s (UoUpdate u) c → in_step (snd (Cached_Update s u c)).
Proof.
  clear. intros [Hok Hfr] Ho Hc (row & Hrow & Hname & Hseen). unfold Cached_Update, Users_Update.
  set (u' := touch_user u (ucNow c)) in *. case_bool_decide as Hid; [done|]. destruct (try _ _ _) as [db'|] eqn:Et; [|done]. apply try_ok in Et.
  change (usID u') with (usID u) in Et. rewrite Hrow in Et. destruct (user_taken _ _ _ _) eqn:Ht; [done|]. injection Et as <-.
  destruct (proj1 Hok _ _ Hrow) as (Eid & Hrr & Hne). set (row' := merge_user row u') in *.
  assert (usID row' = usID u) as Eid' by exact Eid.
  assert (usEmail row' = usEmail u') as Ee by exact (f_equal usEmail Hseen).
  assert (usUsername row' = usUsername u') as En by exact (f_equal usUsername Hseen).
  assert (roles_of (cuDB s) (usID row') = usRoles u') as Er by exact (f_equal usRoles Hseen).
  rewrite save_same_roles by (rewrite <- ?Er, ?Eid'; done). split; simpl; [apply put_user_ok; [done| |exact Ht]; rewrite En; change (usUsername u') with (usUsername u); congruence|]. apply fresh_invalidate.
  intros k v e E. apply (sets_lookup _ u' c) in E; [|done|change (usUsername u') with (usUsername u); congruence].
  destruct E as [[Hk ->]|[Hk E]].
  { exists (set_roles row' []). split; [apply put_user_row; destruct k; simpl in *; congruence|]. by rewrite <- Hseen. }
  rewrite (GetByID_found _ _ _ row) in E by (done || apply Hc). simpl in E.
  assert (cuCache s !! key_text k = Some (v, e) ∧ ¬ names k row) as [E' Hk'].
  { change (usEmail u) with (usEmail u') in *. change (usID u') with (usID u) in *. case_bool_decide as Hem.
    - split; [done|]. intros Hn. apply Hk. destruct k; simpl in *; congruence.
    - apply delete_lookup in E as [Hkey E]; [|done]. split; [done|]. intros Hn.
      destruct k; simpl in *; [apply Hk; congruence|congruence|apply Hk; congruence]. }
  destruct (Hfr _ _ _ E') as (r & Hr & ->). exists r. destruct (put_user_rows (cuDB s) row' k r Hr) as [H1 H2].
  { intros Er'. apply Hk'. destruct Hr as [Hr Hn]. rewrite Er', Eid' in Hr. by simplify_eq. }
  by rewrite H2.
Qed.

Definition cached_read (k : ukey) (c : UserCall) (s : CachedUserRepository) : result User * CachedUserRepository :=
  match k with KId id => Cached_GetByID s id c | KEmail e => Cached_GetByEmail s e c | KName n => Cached_GetByUsername s n c end.
Definition table_read (k : ukey) (c : UserCall) (db : UserDB) : option User * option string :=
  match k with
  | KId id => Users_GetByID db (ucOrd c) id (ucFail c 0)
  | KEmail e => Users_GetByEmail db (ucOrd c) e (ucFail c 0)
  | KName n => GetByUsername db (ucOrd c) n (ucFail c 0)
  end.

Lemma cached_read_spec s k c :
  in_step s → range_order (udUsers (cuDB s)) (ucOrd c) → calm c →
  let '(r, s') := cached_read k c s in
  map_result public r = map_result public (answer_result (table_read k c (cuDB s))) ∧ cuDB s' = cuDB s ∧ fresh (cuDB s) (cuCache s').
Proof.
  clear. intros [Hok Hfr] Ho Hc. destruct k as [id|em|n]; [apply (read_user_spec s (KId id))|apply (read_user_spec s (KEmail em))|apply (read_user_spec s (KName n))];
    try done; try apply Hc; try (intros u; apply bool_decide_eq_true); intros m row Hr Hm.
  - by apply (fresh_set _ _ (KId id) _ row).
  - apply (fresh_set _ _ (KId (usID row)) _ row); [split; [apply Hr|done]|done|]. by apply (fresh_set _ _ (KEmail em) _ row).
  - by apply (fresh_set _ _ (KName n) _ row).
Qed.

Lemma read_users_in_step s key answer ttl c : in_step s → key_other key = true → in_step (snd (read_users s key answer ttl c)).
Proof.
  clear. intros [Hok Hfr] Hk. unfold read_users. destruct (cache_get _ _ _) as [v m] eqn:E. pose proof (fresh_get _ _ _ _ _ _ E Hfr) as Hm.
  destruct v as [[| | |]|]; try done; destruct answer; try done; split; simpl; try done; by apply fresh_set_other; [apply other_key|].
Qed.

Lemma count_in_step s c : in_step s → in_step (snd (Cached_GetActiveUsersCount s c)).
Proof.
  clear. intros [Hok Hfr]. unfold Cached_GetActiveUsersCount. destruct (cache_get _ _ _) as [v m] eqn:E. pose proof (fresh_get _ _ _ _ _ _ E Hfr) as Hm.
  destruct v as [[| | |]|]; try done; destruct (GetActiveUsersCount _ _ _); try done; split; simpl; try done; by apply fresh_set_other; [apply other_key|].
Qed.

Lemma list_in_step s o c : in_step s → loIncludeRoles o = true → in_step (snd (Cached_ListUsers s o c)).
Proof.
  intros [Hok Hfr] Hi. unfold Cached_ListUsers. destruct (cache_get _ _ _) as [v m] eqn:E. pose proof (fresh_get _ _ _ _ _ _ E Hfr) as Hm.
  pose proof (list_users_seen (cuDB s) (ucOrd c) o (ucFail c 0)) as Hl.
  assert (∀ l n, fresh (cuDB s) (cache_set m (list_key o) (CList l n) Minute c)) as Hset by (intros l n; by apply fresh_set_other; [apply other_key|]).
  destruct v as [[?|?|? ?|?]|]; try done; destruct (Users_ListUsers _ _ _ _) as [[l' n']|]; try done; (split; [done|]); simpl;
    (apply cache_users_fresh; [by eapply Hl|done]).
Qed.

(** The writes that only change rows of given IDs. *)
Lemma update_where_ok db cond f fail db' ids :
  users_ok db → update_where db cond f fail = Ok db' → (∀ u, cond u = true → usID u ∈ ids) →
  (∀ u, usRoles u = [] → usID (f u) = usID u ∧ usEmail (f u) = usEmail u ∧ usUsername (f u) = usUsername u ∧ usRoles (f u) = []) →
  changes_only db db' ids ∧ users_ok db'.
Proof. clear. intros Hok E Hc Hf. unfold update_where in E. apply try_ok in E. injection E as <-. by apply alter_users_ok. Qed.

Lemma run_in_step s op c :
  in_step s → range_order (udUsers (cuDB s)) (ucOrd c) → calm c → tidy s op c → in_step (user_run op c s).
Proof.
  intros Hs Ho Hc Ht. assert (∀ k, in_step (snd (cached_read k c s))) as Hread.
  { intros k. pose proof (cached_read_spec s k c Hs Ho Hc) as H. destruct (cached_read k c s) as [r s']. destruct H as (_ & E & H).
    split; simpl; rewrite E; [apply Hs|done]. }
  destruct op; simpl in *.
  - apply (Hread (KId id)).
  - apply (Hread (KEmail email)).
  - apply (Hread (KName name)).
  - by apply create_in_step.
  - by apply update_in_step.
  - by apply delete_in_step.
  - by apply list_in_step.
  - by apply count_in_step.
  - by apply read_users_in_step.
  - apply write_in_step; [done..|]. intros db' E. eapply update_where_ok; [apply Hs|exact E| |by intros u ?].
    intros u ->%bool_decide_eq_true. set_solver.
  - apply write_in_step; [done..|]. intros db' E. unfold BulkUpdate in E. case_bool_decide; [|done].
    destruct (update_where _ _ _ _) as [db''|] eqn:Eu; [|done]. destruct (unique_users db''); [|done]. injection E as ->.
    eapply update_where_ok; [apply Hs|exact Eu|by intros u ?%bool_decide_eq_true|]. intros u Hu. destruct Ht as [H1 H2].
    unfold bulk_row, text_column. simpl. by rewrite H1, H2.
  - apply write_in_step; [done..|]. intros db' E. eapply update_where_ok; [apply Hs|exact E| |by intros u ?].
    by intros u ?%bool_decide_eq_true.
  - apply write_in_step; [done..|]. intros db' E. eapply change_user_role_ok; [apply Hs|exact E|]. intros p q Hq. destruct q; set_solver.
  - apply write_in_step; [done..|]. intros db' E. eapply change_user_role_ok; [apply Hs|exact E|]. intros p q Hq. destruct q; set_solver.
  - by apply read_users_in_step.
  - by apply read_users_in_step.
Qed.

(** *** Against the repository without a cache *)

Definition table_write (db : UserDB) (r : result UserDB) : UserDB := match r with Ok db' => db' | Err _ => db end.
Definition table_run (op : UserOp) (c : UserCall) (db : UserDB) : UserDB :=
  match op with
  | UoCreate u => table_write db (snd (Users_Create db u (ucNow c) (ucFail c 0)))
  | UoUpdate u => table_write db (snd (Users_Update db u (ucNow c) (ucFail c 1)))
  | UoDelete id => table_write db (Users_Delete db id (ucNow c) (ucFail c 1))
  | UoLogin id => table_write db (UpdateLastLogin db id (ucNow c) (ucFail c 0))
  | UoBulkUpdate ids u => table_write db (BulkUpdate db ids u (ucNow c) (ucFail c 0))
  | UoBulkDelete ids => table_write db (BulkDelete db ids (ucNow c) (ucFail c 0))
  | UoAssign u r => table_write db (Users_AssignRole db u r (ucFail c 0))
  | UoRemove u r => table_write db (Users_RemoveRole db u r (ucFail c 0))
  | _ => db
  end.

Lemma write_users_table s r ids c : cuDB (snd (write_users s r ids c)) = table_write (cuDB s) r.
Proof.
  clear. destruct r as [db|]; [|done]. simpl.
  assert (∀ (l : list (nat * string)) s, cuDB (foldl (λ s kid, InvalidateUserCache s kid.2 (ucFail c (S kid.1)) c) s l) = cuDB s) as H.
  { induction l as [|kid l IH]; intros s'; [done|]. simpl. rewrite IH. unfold InvalidateUserCache.
    by destruct (Users_GetByID _ _ _ _) as [[?|] [?|]]. }
  apply H.
Qed.
Lemma read_users_table s key answer ttl c : cuDB (snd (read_users s key answer ttl c)) = cuDB s.
Proof. clear. unfold read_users. destruct (cache_get _ _ _) as [[[]|] m], answer; done. Qed.
Lemma read_user_table s key answer keep c : cuDB (snd (read_user s key answer keep c)) = cuDB s.
Proof. clear. unfold read_user. destruct (cache_get _ _ _) as [[[]|] m], answer as [[?|] [?|]]; done. Qed.

Lemma user_run_table op c s : cuDB (user_run op c s) = table_run op c (cuDB s).
Proof.
  clear. destruct op; unfold user_run, table_run; try first [apply read_user_table|apply read_users_table|apply write_users_table].
  - unfold Cached_Create. destruct (Users_Create _ _ _ _) as [u' [db|]]; done.
  - unfold Cached_Update. destruct (Users_Update _ _ _ _) as [u' [db|]]; done.
  - unfold Cached_Delete. destruct (Users_Delete _ _ _ _) as [db|]; done.
  - unfold Cached_ListUsers. destruct (cache_get _ _ _) as [[[]|] m]; try done; by destruct (Users_ListUsers _ _ _ _) as [[]|].
  - unfold Cached_GetActiveUsersCount. destruct (cache_get _ _ _) as [[[]|] m]; try done; by destruct (GetActiveUsersCount _ _ _).
Qed.

(** Calls one after another, with the order of the rows at each. *)
Inductive user_calls : list (UserOp * UserCall) → CachedUserRepository → CachedUserRepository → Prop :=
| user_calls_nil s : user_calls [] s s
| user_calls_cons op c cs s s' :
    range_order (udUsers (cuDB s)) (ucOrd c) → calm c → tidy s op c → user_calls cs (user_run op c s) s' → user_calls ((op, c) :: cs) s s'.

Lemma calls_in_step cs s s' : user_calls cs s s' → in_step s → in_step s'.
Proof. induction 1 as [|op c cs s s' Ho Hc Ht _ IH]; [done|]. intros Hs. by apply IH, run_in_step. Qed.
Lemma calls_table cs s s' : user_calls cs s s' → cuDB s' = foldl (λ db oc, table_run oc.1 oc.2 db) (cuDB s) cs.
Proof. clear. induction 1 as [|op c cs s s' Ho Hc Ht _ IH]; [done|]. simpl. by rewrite IH, user_run_table. Qed.

(** The cached repository refines the repository: after any calls on an empty
    cache, with the cache and the reads of the database working and no call that
    leaves a user the table does not have, the table is what the same calls make of
    it without a cache, and a read by ID, email or user name answers what the table
    answers, up to the fields that are never cached. *)
Lemma user_cache_refinement cs db s k c :
  users_ok db → user_calls cs {| cuDB := db; cuCache := ∅ |} s → range_order (udUsers (cuDB s)) (ucOrd c) → calm c →
  cuDB s = foldl (λ db oc, table_run oc.1 oc.2 db) db cs
  ∧ map_result public (fst (cached_read k c s)) = map_result public (answer_result (table_read k c (cuDB s))).
Proof.
  intros Hok Hcs Ho Hc. split; [by apply calls_table in Hcs|].
  assert (in_step s) as Hs. { eapply calls_in_step; [done|]. split; [done|]. intros k' v e E. simpl in E. by rewrite lookup_empty in E. }
  pose proof (cached_read_spec s k c Hs Ho Hc) as H. by destruct (cached_read k c s) as [r s'], H.
Qed.

End users.

(** ** An example *)

Definition demo_row (id name : string) : User :=
  user_row id (name +:+ "@x") name "hash" "Ann" "Lee" "" true "" false "" UserActive None 1 1.
Definition demo_admin : Role :=
  {| roID := "r"; roName := "admin"; roDescription := ""; roIsSystem := true; roPermissions := []; roCreatedAt := 1; roUpdatedAt := 1 |}.
Definition demo_table : UserDB :=
  {| udUsers := {["1" := demo_row "1" "ann"]}; udRoles := {["r" := demo_admin]}; udUserRoles := {[("1", "r")]}; udTeamMembers := ∅ |}.
Definition demo_user_call (now : Z) : UserCall :=
  {| ucNow := now; ucOrd := ["1"]; ucFail := λ _ _, None; ucGetFails := λ _, false; ucPutFails := λ _, false |}.
Definition as_given (clause : string) (l : list User) : list User := l.
Definition never_like (s pattern : string) : bool := false.
Definition demo_cold : CachedUserRepository := {| cuDB := demo_table; cuCache := ∅ |}.
(** The user as the table gives it, with another email. *)
Definition demo_edited : User :=
  set_roles (user_row "1" "lee@x" "ann" "hash" "Ann" "Lee" "" true "" false "" UserActive None 1 1) [demo_admin].
Definition demo_user_calls : list (UserOp * UserCall) :=
  [(UoByEmail "ann@x", demo_user_call 2); (UoUpdate demo_edited, demo_user_call 3); (UoRemove "1" "r", demo_user_call 4);
   (UoByID "1", demo_user_call 5)].
Definition demo_warm : CachedUserRepository :=
  foldl (λ s oc, user_run as_given never_like oc.1 oc.2 s) demo_cold demo_user_calls.

Lemma demo_table_ok : users_ok demo_table.
Proof.
  split_and!; simpl.
  - intros id u [<- <-]%lookup_singleton_Some. done.
  - by intros i j u v [<- _]%lookup_singleton_Some [<- _]%lookup_singleton_Some _.
  - intros id r [= -> ->]%elem_of_singleton. by eexists.
  - by intros k r [<- <-]%lookup_singleton_Some.
Qed.
Lemma demo_user_order (tbl : gmap string User) : dom tbl = {["1"]} → range_order tbl ["1"].
Proof. intros E. split; [apply NoDup_singleton|]. intros id. rewrite list_elem_of_singleton, <- elem_of_dom, E. set_solver. Qed.

Lemma demo_calls : user_calls as_given never_like demo_user_calls demo_cold demo_warm.
Proof.
  apply user_calls_cons; [apply demo_user_order; by vm_compute|done..|].
  apply user_calls_cons; [apply demo_user_order; by vm_compute|done| |].
  { exists (demo_row "1" "ann"). split_and!; by vm_compute. }
  do 2 (apply user_calls_cons; [apply demo_user_order; by vm_compute|done..|]). apply user_calls_nil.
Qed.

Lemma user_cache_refinement_witness :
  cuDB demo_warm = foldl (λ db oc, table_run oc.1 oc.2 db) demo_table demo_user_calls
  ∧ map_result public (fst (cached_read (KEmail "lee@x") (demo_user_call 6) demo_warm))
    = map_result public (answer_result (table_read (KEmail "lee@x") (demo_user_call 6) (cuDB demo_warm))).
Proof.
  refine (user_cache_refinement as_given never_like _ demo_user_calls demo_table demo_warm (KEmail "lee@x") (demo_user_call 6) _ _ _ _).
  - intros clause l u H. exact H.
  - exact demo_table_ok.
  - exact demo_calls.
  - apply demo_user_order. vm_compute. reflexivity.
  - split; intros; reflexivity.
Defined.

(** ** Where the cache leaves the table *)

Definition ok_user (r : result User) : option User := match r with Ok u => Some u | Err _ => None end.
Definition table_user (k : ukey) (c : UserCall) (db : UserDB) : option User := ok_user (answer_result (table_read k c db)).
Definition cached_user (k : ukey) (c : UserCall) (s : CachedUserRepository) : option User := ok_user (fst (cached_read k c s)).

(** A user from the cache has no password hash, one from the table has. *)
Lemma cached_password_gone :
  let s := snd (Cached_GetByEmail demo_cold "ann@x" (demo_user_call 2)) in
  usPassword <$> cached_user (KEmail "ann@x") (demo_user_call 3) s = Some ""
  ∧ usPassword <$> table_user (KEmail "ann@x") (demo_user_call 3) (cuDB s) = Some "hash".
Proof. by vm_compute. Qed.

(** Warming up the cache, or a list without roles, leaves users without roles. *)
Lemma warm_up_drops_roles :
  let s := snd (WarmUpCache as_given demo_cold (demo_user_call 2)) in
  usRoles <$> cached_user (KId "1") (demo_user_call 3) s = Some []
  ∧ usRoles <$> table_user (KId "1") (demo_user_call 3) (cuDB s) = Some [demo_admin].
Proof. by vm_compute. Qed.

(** After a new user name, the old one still finds the user. *)
Lemma renamed_user_stale :
  let s := snd (Cached_GetByUsername demo_cold "ann" (demo_user_call 2)) in
  let s := snd (Cached_Update s (set_roles (demo_row "1" "bea") [demo_admin]) (demo_user_call 3)) in
  usUsername <$> cached_user (KName "ann") (demo_user_call 4) s = Some "ann"
  ∧ table_user (KName "ann") (demo_user_call 4) (cuDB s) = None.
Proof. by vm_compute. Qed.

(** After a bulk update of the email, so does the old email. *)
Lemma bulk_email_stale :
  let s := snd (Cached_GetByEmail demo_cold "ann@x" (demo_user_call 2)) in
  let s := snd (Cached_BulkUpdate s ["1"] {["email" := VStr "new@x"]} (demo_user_call 3)) in
  usEmail <$> cached_user (KEmail "ann@x") (demo_user_call 4) s = Some "ann@x"
  ∧ table_user (KEmail "ann@x") (demo_user_call 4) (cuDB s) = None.
Proof. by vm_compute. Qed.

(** An update that empties a field changes the cache and not the table, and an
    update of a user that does not exist leaves one in the cache. *)
Lemma update_leaves_ghosts :
  let blank := set_roles (user_row "1" "ann@x" "ann" "hash" "" "Lee" "" true "" false "" UserActive None 1 1) [demo_admin] in
  let s := snd (Cached_Update demo_cold blank (demo_user_call 2)) in
  let t := snd (Cached_Update demo_cold (demo_row "9" "bob") (demo_user_call 2)) in
  usFirstName <$> cached_user (KId "1") (demo_user_call 3) s = Some ""
  ∧ usFirstName <$> table_user (KId "1") (demo_user_call 3) (cuDB s) = Some "Ann"
  ∧ usUsername <$> cached_user (KId "9") (demo_user_call 3) t = Some "bob"
  ∧ table_user (KId "9") (demo_user_call 3) (cuDB t) = None.
Proof. by vm_compute. Qed.

(** Permanent deletion keeps the row. *)
Lemma hard_delete_keeps_row s id c s' :
  Cached_HardDelete s id c = (None, s') → dom (udUsers (cuDB s')) = dom (udUsers (cuDB s)).
Proof.
  unfold Cached_HardDelete, Cached_Delete, Users_Delete, update_where. destruct (try _ _ _) as [db|] eqn:E; [|done]. apply try_ok in E.
  injection E as <-. intros [= <-]. simpl. apply dom_fmap_L.
Qed.

(** A hit gives an entry five minutes again, whatever its lifetime was. *)
Lemma hit_extends m key v e c :
  m !! key = Some (v, e) → (ucNow c < e)%Z → ucGetFails c key = false →
  snd (cache_get m key c) !! key = Some (v, (ucNow c + DefaultTTL)%Z).
Proof. intros Hm He Hf. unfold cache_get. rewrite Hf, Hm, bool_decide_true by done. apply lookup_insert_eq. Qed.

(** Lists with and without roles share their entry. *)
Definition demo_list (roles : bool) : ListUsersOptions :=
  {| loPage := 1; loLimit := 10; loStatus := ""; loRoleID := ""; loTeamID := ""; loSortBy := ""; loSortDesc := false; loIncludeRoles := roles |}.
Lemma list_ignores_roles :
  let s := snd (Cached_ListUsers as_given demo_cold (demo_list false) (demo_user_call 2)) in
  fst (Cached_ListUsers as_given s (demo_list true) (demo_user_call 3)) = Ok ([public (demo_row "1" "ann")], 1%Z)
  ∧ Users_ListUsers as_given (cuDB s) ["1"] (demo_list true) (λ _, None) = Ok ([set_roles (demo_row "1" "ann") [demo_admin]], 1%Z).
Proof. by vm_compute. Qed.

(** The count of active users survives an update that suspends one. *)
Lemma count_stale :
  let s := snd (Cached_GetActiveUsersCount demo_cold (demo_user_call 2)) in
  let u := set_roles (user_row "1" "ann@x" "ann" "hash" "Ann" "Lee" "" true "" false "" "suspended" None 1 1) [demo_admin] in
  let s := snd (Cached_Update s u (demo_user_call 3)) in
  fst (Cached_GetActiveUsersCount s (demo_user_call 4)) = Ok 1%Z ∧ GetActiveUsersCount (cuDB s) ["1"] (λ _, None) = Ok 0%Z.
Proof. by vm_compute. Qed.
