(* ===== verification/UserService.v ===== *)
(** internal/user/app/service: the operations on users over their repository, and
    the teams, which Redis keeps as a hash, a set of members and an index.

    The times of teams are stored as RFC 3339 texts, whose printer and parser are
    parameters.  Redis answers members in an order given with each call. *)

From S2P Require Import Prelude GoLib WorkflowRepo Tokens Auth Users.

(** ** The keys of Redis *)

Inductive team_value := THash (fields : gmap string string) | TSet (members : gset string).
Abbreviation team_keys := (gmap string team_value).

(** A command on a key that holds another type fails. *)
Definition hset (m : team_keys) (key : string) (fields : gmap string string) : option team_keys :=
  match m !! key with
  | Some (TSet _) => None
  | Some (THash old) => Some (<[key := THash (fields ∪ old)]> m)
  | None => Some (<[key := THash fields]> m)
  end.
Definition hgetall (m : team_keys) (key : string) : option (gmap string string) :=
  match m !! key with Some (TSet _) => None | Some (THash f) => Some f | None => Some ∅ end.
Definition sadd (m : team_keys) (key x : string) : option team_keys :=
  match m !! key with
  | Some (THash _) => None
  | Some (TSet s) => Some (<[key := TSet ({[x]} ∪ s)]> m)
  | None => Some (<[key := TSet {[x]}]> m)
  end.
(** An empty set is no key. *)
Definition srem (m : team_keys) (key x : string) : option team_keys :=
  match m !! key with
  | Some (THash _) => None
  | Some (TSet s) => let s := s ∖ {[x]} in Some (if bool_decide (s = ∅) then delete key m else <[key := TSet s]> m)
  | None => Some m
  end.
Definition smembers (m : team_keys) (key : string) (ord : list string) : option (list string) :=
  match m !! key with
  | Some (THash _) => None
  | Some (TSet s) => Some (filter (λ x, x ∈ s) ord)
  | None => Some []
  end.

(** ** The service *)

Record UserService := {
  svUsers : UserDB;
  svTeams : team_keys;
  svEvents : list (string * string)
}.
(** What a call reads from outside: the clock, an ID, the orders of rows, of
    permissions and of set members, and which statements and commands fail. *)
Record ServiceCall := {
  vcNow : Z;
  vcUuid : string;
  vcOrd : list string;
  vcPerms : list string;
  vcMembers : list string;
  vcFail : nat → db_fail;
  vcDown : nat → bool;
  vcBusDown : bool
}.
Definition put_users_of (s : UserService) (db : UserDB) : UserService :=
  {| svUsers := db; svTeams := svTeams s; svEvents := svEvents s |}.
Definition put_teams (s : UserService) (m : team_keys) : UserService :=
  {| svUsers := svUsers s; svTeams := m; svEvents := svEvents s |}.
(** Publish: an error is ignored. *)
Definition publish_user (s : UserService) (type id : string) (c : ServiceCall) : UserService :=
  if vcBusDown c then s else {| svUsers := svUsers s; svTeams := svTeams s; svEvents := svEvents s ++ [(type, id)] |}.
(** A command whose error is ignored. *)
Definition ignoring (c : ServiceCall) (k : nat) (f : team_keys → option team_keys) (m : team_keys) : team_keys :=
  if vcDown c k then m else default m (f m).

(** *** Users *)

Definition Service_GetUser (s : UserService) (id : string) (c : ServiceCall) : result User :=
  match answer_result (Users_GetByID (svUsers s) (vcOrd c) id (vcFail c 0)) with
  | Ok u => Ok u
  | Err e => Err ("user not found: " +:+ e)
  end.

Record ListUsersRequest := {
  lrPage : Z;
  lrLimit : Z;
  lrStatus : string;
  lrRoleID : string;
  lrSortBy : string;
  lrSortDesc : bool
}.
Record ListUsersResponse := {
  lpUsers : list User;
  lpTotal : Z;
  lpPage : Z;
  lpLimit : Z
}.
Record UpdateUserRequest := {
  urFirstName : option string;
  urLastName : option string;
  urAvatar : option string;
  urStatus : option string
}.
Definition request_options (r : ListUsersRequest) : ListUsersOptions :=
  {| loPage := (if bool_decide (lrPage r < 1)%Z then 1 else lrPage r);
     loLimit := (if bool_decide (lrLimit r < 1)%Z || bool_decide (100 < lrLimit r)%Z then 20 else lrLimit r);
     loStatus := lrStatus r; loRoleID := lrRoleID r; loTeamID := ""; loSortBy := lrSortBy r; loSortDesc := lrSortDesc r;
     loIncludeRoles := true |}.
Definition apply_user_request (u : User) (r : UpdateUserRequest) (now : Z) : User :=
  {| usID := usID u; usEmail := usEmail u; usUsername := usUsername u; usPassword := usPassword u;
     usFirstName := default (usFirstName u) (urFirstName r); usLastName := default (usLastName u) (urLastName r);
     usAvatar := default (usAvatar u) (urAvatar r); usEmailVerified := usEmailVerified u; usEmailVerifyToken := usEmailVerifyToken u;
     usTwoFactorEnabled := usTwoFactorEnabled u; usTwoFactorSecret := usTwoFactorSecret u;
     usStatus := default (usStatus u) (urStatus r); usRoles := usRoles u; usLastLoginAt := usLastLoginAt u;
     usCreatedAt := usCreatedAt u; usUpdatedAt := now |}.

Section service.
Context (order_by : string → list User → list User) (like : string → string → bool).
Context (rfc3339 : Z → string) (parse_rfc3339 : string → option Z).

Definition Service_ListUsers (s : UserService) (r : ListUsersRequest) (c : ServiceCall) : result ListUsersResponse :=
  let o := request_options r in
  match Users_ListUsers order_by (svUsers s) (vcOrd c) o (vcFail c 0) with
  | Err e => Err ("failed to list users: " +:+ e)
  | Ok (l, n) => Ok {| lpUsers := l; lpTotal := n; lpPage := loPage o; lpLimit := loLimit o |}
  end.

Definition Service_UpdateUser (s : UserService) (id : string) (r : UpdateUserRequest) (c : ServiceCall) : result User * UserService :=
  match answer_result (Users_GetByID (svUsers s) (vcOrd c) id (vcFail c 0)) with
  | Err _ => (Err "user not found", s)
  | Ok u =>
      match Users_Update (svUsers s) (apply_user_request u r (vcNow c)) (vcNow c) (vcFail c 1) with
      | (_, Err e) => (Err ("failed to update user: " +:+ e), s)
      | (u, Ok db) => (Ok u, publish_user (put_users_of s db) "user.updated" (usID u) c)
      end
  end.

Definition Service_DeleteUser (s : UserService) (id : string) (c : ServiceCall) : option string * UserService :=
  match Users_Delete (svUsers s) id (vcNow c) (vcFail c 0) with
  | Err e => (Some ("failed to delete user: " +:+ e), s)
  | Ok db => (None, publish_user (put_users_of s db) "user.deleted" id c)
  end.

Definition SearchUsers (s : UserService) (query : string) (limit : Z) (c : ServiceCall) : result (list User) :=
  let limit := if bool_decide (limit ≤ 0)%Z || bool_decide (50 < limit)%Z then 20%Z else limit in
  Users_Search like (svUsers s) (vcOrd c) query limit (vcFail c 0).

Definition Service_GetUserPermissions (s : UserService) (userID : string) (c : ServiceCall) : result (list string) :=
  match answer_result (Users_GetByID (svUsers s) (vcOrd c) userID (vcFail c 0)) with
  | Ok u => Ok (GetPermissions u (vcPerms c))
  | Err _ => Err "user not found"
  end.

Definition keep_users (s : UserService) (r : result UserDB) : option string * UserService :=
  match r with Ok db => (None, put_users_of s db) | Err e => (Some e, s) end.
Definition Service_AssignRole (s : UserService) (userID roleID : string) (c : ServiceCall) : option string * UserService :=
  keep_users s (Users_AssignRole (svUsers s) userID roleID (vcFail c 0)).
Definition RevokeRole (s : UserService) (userID roleID : string) (c : ServiceCall) : option string * UserService :=
  keep_users s (Users_RemoveRole (svUsers s) userID roleID (vcFail c 0)).

(** *** Teams *)

Record Team := {
  tmID : string;
  tmName : string;
  tmDescription : string;
  tmOwnerID : string;
  tmCreatedAt : Z;
  tmUpdatedAt : Z
}.
Record CreateTeamRequest := {
  crName : string;
  crDescription : string;
  crOwnerID : string
}.
Record UpdateTeamRequest := {
  utName : option string;
  utDescription : option string
}.
Definition team_key (id : string) : string := "team:" +:+ id.
Definition members_key (id : string) : string := "team:" +:+ id +:+ ":members".
Definition index_key : string := "teams:index".

Definition CreateTeam (s : UserService) (r : CreateTeamRequest) (c : ServiceCall) : result Team * UserService :=
  let t := {| tmID := vcUuid c; tmName := crName r; tmDescription := crDescription r; tmOwnerID := crOwnerID r;
              tmCreatedAt := vcNow c; tmUpdatedAt := vcNow c |} in
  let fields := list_to_map [("id", tmID t); ("name", tmName t); ("description", tmDescription t); ("owner_id", tmOwnerID t);
                             ("created_at", rfc3339 (tmCreatedAt t))] in
  if vcDown c 0 then (Err "failed to create team: connection refused", s)
  else match hset (svTeams s) (team_key (tmID t)) fields with
       | None => (Err "failed to create team: WRONGTYPE", s)
       | Some m =>
           let m := ignoring c 1 (λ m, sadd m index_key (tmID t)) m in
           let m := ignoring c 2 (λ m, sadd m (members_key (tmID t)) (tmOwnerID t)) m in
           (Ok t, put_teams s m)
       end.

Definition field (data : gmap string string) (k : string) : string := default "" (data !! k).
Definition team_of (data : gmap string string) : Team :=
  {| tmID := field data "id"; tmName := field data "name"; tmDescription := field data "description";
     tmOwnerID := field data "owner_id"; tmCreatedAt := default 0%Z (parse_rfc3339 (field data "created_at")); tmUpdatedAt := 0 |}.
Definition GetTeam (s : UserService) (id : string) (down : bool) : result Team :=
  if down then Err "team not found"
  else match hgetall (svTeams s) (team_key id) with
       | None => Err "team not found"
       | Some data => if bool_decide (data = ∅) then Err "team not found" else Ok (team_of data)
       end.

Definition ok_of {A} (r : result A) : option A := match r with Ok a => Some a | Err _ => None end.
Definition ListTeams (s : UserService) (c : ServiceCall) : result (list Team) :=
  if vcDown c 0 then Err "failed to list teams: connection refused"
  else match smembers (svTeams s) index_key (vcMembers c) with
       | None => Err "failed to list teams: WRONGTYPE"
       | Some ids => Ok (omap id (imap (λ k tid, ok_of (GetTeam s tid (vcDown c (S k)))) ids))
       end.

Definition UpdateTeam (s : UserService) (id : string) (r : UpdateTeamRequest) (c : ServiceCall) : result Team * UserService :=
  match GetTeam s id (vcDown c 0) with
  | Err e => (Err e, s)
  | Ok t =>
      let t := {| tmID := tmID t; tmName := default (tmName t) (utName r); tmDescription := default (tmDescription t) (utDescription r);
                  tmOwnerID := tmOwnerID t; tmCreatedAt := tmCreatedAt t; tmUpdatedAt := vcNow c |} in
      let fields := list_to_map [("name", tmName t); ("description", tmDescription t)] in
      (Ok t, put_teams s (ignoring c 1 (λ m, hset m (team_key id) fields) (svTeams s)))
  end.

Definition DeleteTeam (s : UserService) (id : string) (c : ServiceCall) : UserService :=
  let m := ignoring c 0 (λ m, Some (delete (team_key id) m)) (svTeams s) in
  let m := ignoring c 1 (λ m, Some (delete (members_key id) m)) m in
  put_teams s (ignoring c 2 (λ m, srem m index_key id) m).

Definition AddTeamMember (s : UserService) (teamID userID : string) (c : ServiceCall) : option string * UserService :=
  match GetTeam s teamID (vcDown c 0) with
  | Err e => (Some e, s)
  | Ok _ =>
      match answer_result (Users_GetByID (svUsers s) (vcOrd c) userID (vcFail c 0)) with
      | Err _ => (Some "user not found", s)
      | Ok _ => (None, put_teams s (ignoring c 1 (λ m, sadd m (members_key teamID) userID) (svTeams s)))
      end
  end.
Definition RemoveTeamMember (s : UserService) (teamID userID : string) (c : ServiceCall) : UserService :=
  put_teams s (ignoring c 0 (λ m, srem m (members_key teamID) userID) (svTeams s)).
Definition GetTeamMembers (s : UserService) (teamID : string) (c : ServiceCall) : result (list User) :=
  if vcDown c 0 then Err "connection refused"
  else match smembers (svTeams s) (members_key teamID) (vcMembers c) with
       | None => Err "WRONGTYPE"
       | Some ids =>
           Ok (omap id (imap (λ k uid, ok_of (answer_result (Users_GetByID (svUsers s) (vcOrd c) uid (vcFail c k)))) ids))
       end.

(** *** The calls on teams *)

Inductive TeamOp :=
| ToCreate (r : CreateTeamRequest)
| ToGet (id : string)
| ToList
| ToUpdate (id : string) (r : UpdateTeamRequest)
| ToDelete (id : string)
| ToAdd (teamID userID : string)
| ToRemove (teamID userID : string)
| ToMembers (teamID : string).
Inductive TeamAnswer :=
| TaTeam (r : result Team)
| TaTeams (r : result (list Team))
| TaDone (e : option string)
| TaUsers (r : result (list User)).

Definition team_run (op : TeamOp) (c : ServiceCall) (s : UserService) : TeamAnswer * UserService :=
  match op with
  | ToCreate r => let '(a, s) := CreateTeam s r c in (TaTeam a, s)
  | ToGet id => (TaTeam (GetTeam s id (vcDown c 0)), s)
  | ToList => (TaTeams (ListTeams s c), s)
  | ToUpdate id r => let '(a, s) := UpdateTeam s id r c in (TaTeam a, s)
  | ToDelete id => (TaDone None, DeleteTeam s id c)
  | ToAdd t u => let '(e, s) := AddTeamMember s t u c in (TaDone e, s)
  | ToRemove t u => (TaDone None, RemoveTeamMember s t u c)
  | ToMembers t => (TaUsers (GetTeamMembers s t c), s)
  end.

(** ** What the teams should be: a map from IDs to teams and their members *)

Abbreviation teams := (gmap string (Team * gset string)).
Definition whole_seconds (t : Z) : Z := (t / Second * Second)%Z.
Definition with_times (t : Team) (created updated : Z) : Team :=
  {| tmID := tmID t; tmName := tmName t; tmDescription := tmDescription t; tmOwnerID := tmOwnerID t; tmCreatedAt := created;
     tmUpdatedAt := updated |}.
Definition renamed (t : Team) (r : UpdateTeamRequest) : Team :=
  {| tmID := tmID t; tmName := default (tmName t) (utName r); tmDescription := default (tmDescription t) (utDescription r);
     tmOwnerID := tmOwnerID t; tmCreatedAt := tmCreatedAt t; tmUpdatedAt := tmUpdatedAt t |}.
Definition new_team (r : CreateTeamRequest) (c : ServiceCall) : Team :=
  {| tmID := vcUuid c; tmName := crName r; tmDescription := crDescription r; tmOwnerID := crOwnerID r; tmCreatedAt := vcNow c;
     tmUpdatedAt := vcNow c |}.
Definition user_at (db : UserDB) (c : ServiceCall) (k : nat) (id : string) : option User :=
  ok_of (answer_result (Users_GetByID db (vcOrd c) id (vcFail c k))).

Definition spec_run (db : UserDB) (op : TeamOp) (c : ServiceCall) (t : teams) : TeamAnswer * teams :=
  match op with
  | ToCreate r =>
      (TaTeam (Ok (new_team r c)),
       <[vcUuid c := (with_times (new_team r c) (whole_seconds (vcNow c)) 0, {[crOwnerID r]})]> t)
  | ToGet id => (TaTeam (match t !! id with Some p => Ok p.1 | None => Err "team not found" end), t)
  | ToList => (TaTeams (Ok (omap (λ id, fst <$> t !! id) (vcMembers c))), t)
  | ToUpdate id r =>
      match t !! id with
      | None => (TaTeam (Err "team not found"), t)
      | Some (tm, ms) => (TaTeam (Ok (with_times (renamed tm r) (tmCreatedAt tm) (vcNow c))), <[id := (renamed tm r, ms)]> t)
      end
  | ToDelete id => (TaDone None, delete id t)
  | ToAdd id u =>
      match t !! id with
      | None => (TaDone (Some "team not found"), t)
      | Some (tm, ms) => match user_at db c 0 u with
                         | None => (TaDone (Some "user not found"), t)
                         | Some _ => (TaDone None, <[id := (tm, {[u]} ∪ ms)]> t)
                         end
      end
  | ToRemove id u => (TaDone None, alter (λ p, (p.1, p.2 ∖ {[u]})) id t)
  | ToMembers tid =>
      (TaUsers (Ok (match t !! tid with
                    | Some (_, ms) => omap id (imap (user_at db c) (filter (λ u, u ∈ ms) (vcMembers c)))
                    | None => []
                    end)), t)
  end.

(** No ID of a team looks like the key of another team's members. *)
Definition plain (id : string) : Prop := ∀ id', id ≠ id' +:+ ":members".

Definition set_value (s : gset string) : option team_value := if bool_decide (s = ∅) then None else Some (TSet s).
Record refines (m : team_keys) (t : teams) : Prop := {
  re_team : ∀ id, plain id → match t !! id with
                             | Some (tm, _) => ∃ f, m !! team_key id = Some (THash f) ∧ f ≠ ∅ ∧ team_of f = tm
                             | None => m !! team_key id = None
                             end;
  re_members : ∀ id, plain id → m !! members_key id = match t !! id with Some (_, ms) => set_value ms | None => None end;
  re_index : m !! index_key = set_value (dom t);
  re_plain : ∀ id, is_Some (t !! id) → plain id
}.

(** Redis works, the ID of a new team is new, and IDs are plain. *)
Definition op_ok (op : TeamOp) (c : ServiceCall) (t : teams) : Prop :=
  (∀ k, vcDown c k = false)
  ∧ match op with
    | ToCreate _ => plain (vcUuid c) ∧ t !! vcUuid c = None
    | ToGet id | ToUpdate id _ | ToDelete id | ToAdd id _ | ToRemove id _ | ToMembers id => plain id
    | ToList => True
    end.

(** ** Lemmas on keys and commands *)

Lemma team_key_inj i j : team_key i = team_key j → i = j.
Proof. clear. unfold team_key. apply (inj (String.append _)). Qed.
Lemma members_key_team i : members_key i = team_key (i +:+ ":members").
Proof. clear. done. Qed.
Lemma members_key_inj i j : members_key i = members_key j → i = j.
Proof. clear. rewrite !members_key_team. intros H%team_key_inj. by apply string_app_inj_r in H. Qed.
Lemma team_not_members i j : plain i → team_key i ≠ members_key j.
Proof. clear. intros H. rewrite members_key_team. intros E%team_key_inj. by apply (H j). Qed.
Lemma index_not_team i : index_key ≠ team_key i.
Proof. clear. done. Qed.
Lemma index_not_members i : index_key ≠ members_key i.
Proof. clear. done. Qed.

Lemma sadd_spec m key x s : m !! key = set_value s → sadd m key x = Some (<[key := TSet ({[x]} ∪ s)]> m).
Proof. clear. intros E. unfold sadd. rewrite E. unfold set_value. case_bool_decide as Hs; [|done]. by rewrite Hs, union_empty_r_L. Qed.
Lemma srem_spec m key x s :
  m !! key = set_value s →
  ∃ m', srem m key x = Some m' ∧ m' !! key = set_value (s ∖ {[x]}) ∧ ∀ k, k ≠ key → m' !! k = m !! k.
Proof.
  clear. intros E. unfold srem. rewrite E. unfold set_value. case_bool_decide as Hs.
  - exists m. rewrite E, Hs. unfold set_value. by rewrite bool_decide_true, bool_decide_true by set_solver.
  - eexists. split; [done|]. case_bool_decide as Hd; split.
    + apply lookup_delete_eq.
    + intros k Hk. by rewrite lookup_delete_ne.
    + apply lookup_insert_eq.
    + intros k Hk. by rewrite lookup_insert_ne.
Qed.
Lemma smembers_spec m key ord s : m !! key = set_value s → smembers m key ord = Some (filter (λ x, x ∈ s) ord).
Proof.
  clear. intros E. unfold smembers. rewrite E. unfold set_value. case_bool_decide as Hs; [|done]. f_equal. symmetry.
  apply elem_of_nil_inv. intros x [Hx _]%list_elem_of_filter. set_solver.
Qed.

Lemma refines_get m t id : refines m t → plain id → ∀ s, svTeams s = m →
  GetTeam s id false = match t !! id with Some p => Ok p.1 | None => Err "team not found" end.
Proof.
  clear. intros H Hp s <-. unfold GetTeam, hgetall. pose proof (re_team _ _ H id Hp) as Hr. destruct (t !! id) as [[tm ms]|].
  - destruct Hr as (f & -> & Hne & <-). by rewrite bool_decide_false.
  - by rewrite Hr.
Qed.

(** A call that concerns one team. *)
Lemma refines_step m m' t t' id :
  refines m t → plain id → (∀ j, j ≠ id → t' !! j = t !! j) →
  (∀ key, key ≠ team_key id → key ≠ members_key id → key ≠ index_key → m' !! key = m !! key) →
  match t' !! id with
  | Some (tm, ms) => (∃ f, m' !! team_key id = Some (THash f) ∧ f ≠ ∅ ∧ team_of f = tm) ∧ m' !! members_key id = set_value ms
  | None => m' !! team_key id = None ∧ m' !! members_key id = None
  end → m' !! index_key = set_value (dom t') → refines m' t'.
Proof.
  clear. intros H Hp Ht Hm Hid Hix. split; [| |done|].
  - intros j Hj. destruct (decide (j = id)) as [->|Hne]; [by destruct (t' !! id) as [[]|], Hid|].
    rewrite Ht, (Hm (team_key j)); [by apply (re_team _ _ H)|intros E%team_key_inj; congruence|by apply team_not_members|done|done].
  - intros j Hj. destruct (decide (j = id)) as [->|Hne]; [by destruct (t' !! id) as [[]|], Hid|].
    rewrite Ht, (Hm (members_key j)); [by apply (re_members _ _ H)|..|done|done].
    + intros E. symmetry in E. by apply team_not_members in E.
    + intros E%members_key_inj. congruence.
  - intros j Hj. destruct (decide (j = id)) as [->|Hne]; [done|]. rewrite Ht in Hj by done. by apply (re_plain _ _ H).
Qed.

Context (rfc3339_parses : ∀ t, parse_rfc3339 (rfc3339 t) = Some (whole_seconds t)).

Lemma team_of_fields id name desc owner t :
  team_of (list_to_map [("id", id); ("name", name); ("description", desc); ("owner_id", owner); ("created_at", rfc3339 t)])
  = {| tmID := id; tmName := name; tmDescription := desc; tmOwnerID := owner; tmCreatedAt := whole_seconds t; tmUpdatedAt := 0 |}.
Proof.
  unfold team_of, field. cbn [list_to_map foldr fst snd]. rewrite !lookup_insert. repeat (case_decide; try done). simpl. by rewrite rfc3339_parses.
Qed.

Lemma create_refines s r c t :
  refines (svTeams s) t → op_ok (ToCreate r) c t →
  let '(a, t') := spec_run (svUsers s) (ToCreate r) c t in
  fst (team_run (ToCreate r) c s) = a ∧ refines (svTeams (snd (team_run (ToCreate r) c s))) t'.
Proof.
  intros H (Hup & Hp & Hnew). unfold spec_run, team_run, CreateTeam, ignoring. rewrite !Hup. unfold hset. simpl.
  pose proof (re_team _ _ H _ Hp) as Ht. pose proof (re_members _ _ H _ Hp) as Hms. rewrite Hnew in Ht, Hms. rewrite Ht. simpl.
  set (m1 := <[team_key (vcUuid c) := _]> (svTeams s)).
  assert (m1 !! index_key = set_value (dom t)) as Hi1 by (unfold m1; rewrite lookup_insert_ne by done; apply (re_index _ _ H)).
  rewrite (sadd_spec _ _ _ _ Hi1). simpl. set (m2 := <[index_key := _]> m1).
  assert (m2 !! members_key (vcUuid c) = set_value ∅) as Hm2.
  { unfold m2, m1. rewrite lookup_insert_ne by done. rewrite lookup_insert_ne by (by apply team_not_members). by rewrite Hms. }
  rewrite (sadd_spec _ _ _ _ Hm2). simpl. split; [done|]. eapply (refines_step _ _ _ _ (vcUuid c) H Hp).
  - intros j Hj. by rewrite lookup_insert_ne.
  - intros key H1 H2 H3. unfold m2, m1. by rewrite !lookup_insert_ne by done.
  - rewrite lookup_insert_eq. split.
    + eexists. unfold m2, m1. rewrite lookup_insert_ne by (intros E; symmetry in E; by apply team_not_members in E).
      rewrite lookup_insert_ne by done. rewrite lookup_insert_eq. split_and!; [done| |].
      * simpl. apply insert_non_empty.
      * apply team_of_fields.
    + rewrite lookup_insert_eq. unfold set_value. rewrite bool_decide_false by set_solver. by rewrite union_empty_r_L.
  - rewrite lookup_insert_ne by (intros E; symmetry in E; done). unfold m2. rewrite lookup_insert_eq. unfold set_value.
    rewrite bool_decide_false by set_solver. by rewrite dom_insert_L.
Qed.

Lemma update_fields f name desc :
  team_of (list_to_map [("name", name); ("description", desc)] ∪ f)
  = {| tmID := tmID (team_of f); tmName := name; tmDescription := desc; tmOwnerID := tmOwnerID (team_of f);
       tmCreatedAt := tmCreatedAt (team_of f); tmUpdatedAt := 0 |}.
Proof.
  unfold team_of, field. cbn [list_to_map foldr fst snd tmID tmOwnerID tmCreatedAt]. rewrite !lookup_union, !lookup_insert. repeat (case_decide; try done).
  simpl. by rewrite !lookup_empty, !(left_id_L None (∪)), !union_Some_l.
Qed.

Lemma update_refines s id r c t :
  refines (svTeams s) t → op_ok (ToUpdate id r) c t →
  let '(a, t') := spec_run (svUsers s) (ToUpdate id r) c t in
  fst (team_run (ToUpdate id r) c s) = a ∧ refines (svTeams (snd (team_run (ToUpdate id r) c s))) t'.
Proof.
  intros H (Hup & Hp). unfold spec_run, team_run, UpdateTeam, ignoring. rewrite !Hup, (refines_get _ _ _ H Hp s eq_refl).
  pose proof (re_team _ _ H _ Hp) as Ht. pose proof (re_members _ _ H _ Hp) as Hms. destruct (t !! id) as [[tm ms]|] eqn:Et; [|done]. simpl.
  destruct Ht as (f & Hf & Hne & <-). unfold hset. rewrite Hf. simpl. split; [done|]. eapply (refines_step _ _ _ _ id H Hp).
  - intros j Hj. by rewrite lookup_insert_ne.
  - intros key H1 H2 H3. by rewrite lookup_insert_ne.
  - rewrite lookup_insert_eq. split.
    + eexists. rewrite lookup_insert_eq. split_and!; [done| |apply update_fields].
      intros E%map_positive_l. by apply insert_non_empty in E.
    + rewrite lookup_insert_ne by (by apply team_not_members). done.
  - rewrite lookup_insert_ne by done. rewrite (re_index _ _ H). f_equal. rewrite dom_insert_lookup_L by eauto. done.
Qed.

(** The simulation of one call. *)
Definition simulates (op : TeamOp) (c : ServiceCall) (s : UserService) (t : teams) : Prop :=
  fst (team_run op c s) = fst (spec_run (svUsers s) op c t)
  ∧ refines (svTeams (snd (team_run op c s))) (snd (spec_run (svUsers s) op c t)).

Lemma delete_refines s id c t : refines (svTeams s) t → op_ok (ToDelete id) c t → simulates (ToDelete id) c s t.
Proof.
  clear. intros H (Hup & Hp). unfold simulates, team_run, spec_run, DeleteTeam, ignoring. rewrite !Hup. simpl. split; [done|].
  set (m2 := delete (members_key id) _).
  assert (m2 !! index_key = set_value (dom t)) as Hi by (unfold m2; rewrite !lookup_delete_ne by done; apply (re_index _ _ H)).
  destruct (srem_spec m2 index_key id _ Hi) as (m3 & -> & Hi3 & Hk3). simpl. eapply (refines_step _ _ _ _ id H Hp).
  - intros j Hj. by rewrite lookup_delete_ne.
  - intros key H1 H2 H3. rewrite Hk3 by done. unfold m2. by rewrite !lookup_delete_ne by done.
  - rewrite lookup_delete_eq, !Hk3 by done. unfold m2. rewrite lookup_delete_eq, lookup_delete_ne, lookup_delete_eq; [done|].
    intros E. symmetry in E. by apply team_not_members in E.
  - by rewrite Hi3, dom_delete_L.
Qed.

(** A change to the members of a team. *)
Lemma members_refines m m' t id tm ms ms' :
  refines m t → plain id → t !! id = Some (tm, ms) → m' !! members_key id = set_value ms' →
  (∀ k, k ≠ members_key id → m' !! k = m !! k) → refines m' (<[id := (tm, ms')]> t).
Proof.
  clear. intros H Hp Et Hm Hk. eapply (refines_step _ _ _ _ id H Hp).
  - intros j Hj. by rewrite lookup_insert_ne.
  - intros key _ H2 _. by apply Hk.
  - rewrite lookup_insert_eq. split; [|done]. rewrite Hk by (by apply team_not_members). pose proof (re_team _ _ H id Hp) as Ht. by rewrite Et in Ht.
  - rewrite Hk by done. rewrite (re_index _ _ H), dom_insert_lookup_L by eauto. done.
Qed.

Lemma add_refines s id u c t : refines (svTeams s) t → op_ok (ToAdd id u) c t → simulates (ToAdd id u) c s t.
Proof.
  clear. intros H (Hup & Hp). unfold simulates, team_run, spec_run, AddTeamMember, ignoring, user_at.
  rewrite !Hup, (refines_get _ _ _ H Hp s eq_refl). pose proof (re_members _ _ H id Hp) as Hms. destruct (t !! id) as [[tm ms]|] eqn:Et; [|done]. simpl.
  destruct (answer_result _) as [x|]; [|done]. simpl. rewrite (sadd_spec _ _ _ _ Hms). simpl. split; [done|].
  eapply members_refines; [done..| |].
  - rewrite lookup_insert_eq. unfold set_value. by rewrite bool_decide_false by set_solver.
  - intros k Hk. by rewrite lookup_insert_ne.
Qed.

Lemma remove_refines s id u c t : refines (svTeams s) t → op_ok (ToRemove id u) c t → simulates (ToRemove id u) c s t.
Proof.
  clear. intros H (Hup & Hp). unfold simulates, team_run, spec_run, RemoveTeamMember, ignoring. rewrite !Hup. simpl. split; [done|].
  pose proof (re_members _ _ H id Hp) as Hms. destruct (t !! id) as [[tm ms]|] eqn:Et.
  - destruct (srem_spec _ _ u _ Hms) as (m' & -> & Hm & Hk). simpl.
    replace (alter (λ p : Team * gset string, (p.1, p.2 ∖ {[u]})) id t) with (<[id := (tm, ms ∖ {[u]})]> t);
      [by eapply members_refines|]. apply map_eq. intros j. destruct (decide (j = id)) as [->|Hne].
    + by rewrite lookup_insert_eq, lookup_alter_eq, Et.
    + by rewrite lookup_insert_ne, lookup_alter_ne.
  - unfold srem. rewrite Hms. simpl. replace (alter _ id t) with t; [done|]. symmetry. apply alter_id. by rewrite Et.
Qed.

Lemma omap_cons {A B} (h : A → option B) x l : omap h (x :: l) = match h x with Some y => y :: omap h l | None => omap h l end.
Proof. clear. done. Qed.
Lemma omap_imap {A B} (g : nat → A → option B) (h : A → option B) l : (∀ k x, g k x = h x) → omap id (imap g l) = omap h l.
Proof.
  clear. intros H. revert g H. induction l as [|x l IH]; intros g H; [done|].
  rewrite imap_cons, !omap_cons, (IH (g ∘ S)) by (intros; apply H). by rewrite H.
Qed.
Lemma omap_filter {A B} (P : A → Prop) `{∀ x, Decision (P x)} (g h : A → option B) (l : list A) :
  (∀ x, x ∈ l → P x → g x = h x) → (∀ x, x ∈ l → ¬ P x → h x = None) → omap g (filter P l) = omap h l.
Proof.
  clear. intros H1 H2. induction l as [|x l IH]; [done|]. rewrite filter_cons. assert (omap g (filter P l) = omap h l) as E by (apply IH; set_solver).
  case_decide as Hx; rewrite !omap_cons, ?E; [by rewrite H1 by (done || left)|by rewrite H2 by (done || left)].
Qed.

Lemma list_refines s c t : refines (svTeams s) t → op_ok ToList c t → simulates ToList c s t.
Proof.
  clear. intros H (Hup & _). unfold simulates, team_run, spec_run, ListTeams. rewrite Hup, (smembers_spec _ _ _ _ (re_index _ _ H)). simpl.
  split; [|done]. do 2 f_equal. rewrite (omap_imap _ (λ tid, ok_of (GetTeam s tid false))) by (intros; by rewrite Hup).
  apply omap_filter; intros x _; rewrite elem_of_dom.
  - intros Hx. rewrite (refines_get _ _ _ H (re_plain _ _ H x Hx) s eq_refl). by destruct (t !! x).
  - intros ->%eq_None_not_Some. done.
Qed.

Lemma members_answer s id c t : refines (svTeams s) t → op_ok (ToMembers id) c t → simulates (ToMembers id) c s t.
Proof.
  clear. intros H (Hup & Hp). unfold simulates, team_run, spec_run, GetTeamMembers. rewrite Hup. simpl. split; [|done].
  pose proof (re_members _ _ H id Hp) as Hms. destruct (t !! id) as [[tm ms]|] eqn:Et.
  - by rewrite (smembers_spec _ _ _ _ Hms).
  - unfold smembers. by rewrite Hms.
Qed.

Lemma team_run_refines op s c t : refines (svTeams s) t → op_ok op c t → simulates op c s t.
Proof.
  intros H Hok. destruct op.
  - pose proof (create_refines s r c t H Hok) as E. unfold simulates. by destruct (spec_run _ _ _ _).
  - destruct Hok as [Hup Hp]. split; [|done]. unfold team_run, spec_run. by rewrite Hup, (refines_get _ _ _ H Hp s eq_refl).
  - by apply list_refines.
  - pose proof (update_refines s id r c t H Hok) as E. unfold simulates. by destruct (spec_run _ _ _ _).
  - by apply delete_refines.
  - by apply add_refines.
  - by apply remove_refines.
  - by apply members_answer.
Qed.

Lemma team_run_users op c s : svUsers (snd (team_run op c s)) = svUsers s.
Proof.
  clear. destruct op; simpl; try done.
  - unfold CreateTeam. destruct (vcDown c 0); [done|]. by destruct (hset _ _ _).
  - unfold UpdateTeam. by destruct (GetTeam s id (vcDown c 0)).
  - unfold AddTeamMember. destruct (GetTeam s teamID (vcDown c 0)); [|done]. by destruct (answer_result _).
Qed.

(** Calls one after another. *)
Fixpoint team_runs (cs : list (TeamOp * ServiceCall)) (s : UserService) : list TeamAnswer * UserService :=
  match cs with
  | [] => ([], s)
  | (op, c) :: cs => let '(a, s) := team_run op c s in let '(l, s) := team_runs cs s in (a :: l, s)
  end.
Fixpoint spec_runs (db : UserDB) (cs : list (TeamOp * ServiceCall)) (t : teams) : list TeamAnswer * teams :=
  match cs with
  | [] => ([], t)
  | (op, c) :: cs => let '(a, t) := spec_run db op c t in let '(l, t) := spec_runs db cs t in (a :: l, t)
  end.
Fixpoint calls_ok (db : UserDB) (cs : list (TeamOp * ServiceCall)) (t : teams) : Prop :=
  match cs with
  | [] => True
  | (op, c) :: cs => op_ok op c t ∧ calls_ok db cs (snd (spec_run db op c t))
  end.

Lemma runs_refine cs s t :
  refines (svTeams s) t → calls_ok (svUsers s) cs t →
  fst (team_runs cs s) = fst (spec_runs (svUsers s) cs t)
  ∧ refines (svTeams (snd (team_runs cs s))) (snd (spec_runs (svUsers s) cs t)).
Proof.
  revert s t. induction cs as [|[op c] cs IH]; intros s t H; [done|]. intros [Hop Hcs]. destruct (team_run_refines op s c t H Hop) as [Ha Hr].
  pose proof (team_run_users op c s) as Eu. simpl. destruct (team_run op c s) as [a s'], (spec_run (svUsers s) op c t) as [a' t']. simpl in *.
  rewrite <- Eu in Hcs |- *. destruct (IH s' t' Hr Hcs) as [Hl Hr']. destruct (team_runs cs s'), (spec_runs _ cs t'). simpl in *.
  split; [congruence|done].
Qed.

Lemma runs_users cs s : svUsers (snd (team_runs cs s)) = svUsers s.
Proof.
  clear. revert s. induction cs as [|[op c] cs IH]; intros s; [done|]. simpl. pose proof (team_run_users op c s) as E.
  destruct (team_run op c s) as [a s']. specialize (IH s'). destruct (team_runs cs s') as [l s'']. simpl in *. congruence.
Qed.

(** A listing in any order of the members gives every team once. *)
Lemma listing_all (t : teams) ord :
  range_order t ord → omap (λ id, fst <$> t !! id) ord ≡ₚ (λ p, p.2.1) <$> map_to_list t.
Proof.
  clear. intros [Hnd Ho]. assert (ord ≡ₚ (map_to_list t).*1) as ->.
  { apply NoDup_Permutation; [done|apply NoDup_fst_map_to_list|]. intros id. rewrite Ho, list_elem_of_fmap. split.
    - intros [p Hp]. exists (id, p). split; [done|]. by apply elem_of_map_to_list.
    - intros ([i p] & -> & Hp%elem_of_map_to_list). eauto. }
  assert (∀ l : list (string * (Team * gset string)), (∀ i p, (i, p) ∈ l → t !! i = Some p) → omap (λ id, fst <$> t !! id) l.*1 = (λ p, p.2.1) <$> l) as Hl.
  { induction l as [|[i p] l IH]; intros Hl; [done|]. rewrite fmap_cons, omap_cons. cbn [fst]. rewrite (Hl i p) by left. simpl. f_equal. apply IH. set_solver. }
  rewrite Hl; [done|]. intros i p. by rewrite elem_of_map_to_list.
Qed.

(** C25. The teams in Redis refine a map from IDs to teams and their members: while
    Redis works and IDs are plain, any calls answer what the map answers and leave
    the keys that represent it; a team created is found with its time in whole
    seconds, a listing gives every team once, and the users are not touched. *)
Theorem team_store_refinement cs s t :
  refines (svTeams s) t → calls_ok (svUsers s) cs t →
  let '(answers, s') := team_runs cs s in
  let '(answers', t') := spec_runs (svUsers s) cs t in
  answers = answers' ∧ refines (svTeams s') t' ∧ svUsers s' = svUsers s
  ∧ ∀ c, (∀ k, vcDown c k = false) → range_order t' (vcMembers c) →
      ∃ l, ListTeams s' c = Ok l ∧ l ≡ₚ (λ p, p.2.1) <$> map_to_list t'.
Proof.
  intros H Hok. destruct (runs_refine cs s t H Hok) as [Ha Hr]. pose proof (runs_users cs s) as Hu.
  destruct (team_runs cs s) as [a s'], (spec_runs (svUsers s) cs t) as [a' t']. simpl in *. split_and!; [done..|].
  intros c Hup Ho. destruct (list_refines s' c t' Hr (conj Hup I)) as [E _]. exists (omap (λ id, fst <$> t' !! id) (vcMembers c)).
  split; [by injection E|]. by apply listing_all.
Qed.

End service.

(** ** Profiles *)

Lemma UpdateUser_spec s id r c u s' :
  users_ok (svUsers s) → range_order (udUsers (svUsers s)) (vcOrd c) → vcFail c 0 "SELECT users" = None →
  Service_UpdateUser s id r c = (Ok u, s') →
  ∃ row row', udUsers (svUsers s) !! id = Some row ∧ udUsers (svUsers s') !! id = Some row'
    ∧ usEmail row' = usEmail row ∧ usUsername row' = usUsername row ∧ usPassword row' = usPassword row
    ∧ usFirstName row' = nonzero (default (usFirstName row) (urFirstName r)) (usFirstName row)
    ∧ usStatus row' = nonzero (default (usStatus row) (urStatus r)) (usStatus row)
    ∧ usFirstName u = default (usFirstName row) (urFirstName r)
    ∧ (∀ j, j ≠ id → udUsers (svUsers s') !! j = udUsers (svUsers s) !! j)
    ∧ udUserRoles (svUsers s') = udUserRoles (svUsers s) ∧ udRoles (svUsers s') = udRoles (svUsers s).
Proof.
  intros Hok Ho Hf E. unfold Service_UpdateUser in E.
  pose proof (find_user_row (svUsers s) (vcOrd c) (KId id) (λ u, bool_decide (usID u = id)) (vcFail c 0) Hok Ho
    ltac:(intros x; apply bool_decide_eq_true) Hf) as Hfind. unfold Users_GetByID in E.
  destruct (find_user _ _ _ _) as [[x|] [e|]]; try done. destruct Hfind as (row & [Hr Hn] & ->). simpl in Hn. subst id.
  cbn [answer_result] in E. unfold Users_Update in E. cbv zeta in E.
  set (u1 := touch_user (apply_user_request (preload (svUsers s) row) r (vcNow c)) (vcNow c)) in E. change (usID u1) with (usID row) in E. rewrite Hr in E. case_bool_decide; [done|].
  destruct (try _ _ _) as [db|] eqn:Et; [|done]. apply try_ok in Et. destruct (user_taken _ _ _ _); [done|]. injection Et as <-.
  injection E as <- <-. rewrite (save_same_roles _ u1 Hok) by done. destruct (proj1 Hok _ _ Hr) as (_ & Hrr & Hne).
  exists row, (set_roles (merge_user row u1) []). unfold publish_user.
  assert (nonzero_same : ∀ x, nonzero x x = x) by (intros x; unfold nonzero; by case_bool_decide).
  destruct (vcBusDown c); simpl; split_and!; try done; try apply lookup_insert_eq; try apply nonzero_same;
    (intros j Hj; by rewrite lookup_insert_ne by done).
Qed.

(** A page of a listing through the service has between one and a hundred users. *)
Lemma request_options_bounds r : (1 ≤ loPage (request_options r))%Z ∧ (1 ≤ loLimit (request_options r) ≤ 100)%Z.
Proof. unfold request_options. simpl. repeat case_bool_decide; simpl; lia. Qed.
Lemma Service_ListUsers_bound order_by s r c p :
  Service_ListUsers order_by s r c = Ok p → (Z.of_nat (length (lpUsers p)) ≤ lpLimit p ≤ 100)%Z.
Proof.
  unfold Service_ListUsers, Users_ListUsers. pose proof (request_options_bounds r) as [Hp Hl]. destruct (try _ "SELECT count" _); [|done].
  change (loIncludeRoles (request_options r)) with true. set (o := request_options r) in *. clearbody o.
  destruct (try _ "SELECT users" _) as [[l n]|] eqn:E; [|done]. intros [= <-]. cbn [lpUsers lpLimit]. split; [|lia].
  apply try_ok in E. injection E as <- _. rewrite length_fmap. unfold page_of. rewrite !bool_decide_true by lia. simpl.
  rewrite length_take. lia.
Qed.

(** ** An example *)

(** Times as their seconds in unary. *)
Fixpoint ticks (n : nat) : string := match n with O => "" | S n => "x" +:+ ticks n end.
Lemma ticks_length n : String.length (ticks n) = n.
Proof. induction n as [|n IH]; [done|]. cbn [ticks]. by rewrite string_app_length, IH. Qed.
Definition unary_time (t : Z) : string :=
  if bool_decide (t < 0)%Z then "-" +:+ ticks (Z.to_nat (- (t / Second))) else "+" +:+ ticks (Z.to_nat (t / Second)).
Definition parse_unary (s : string) : option Z :=
  match s with
  | String a s => Some ((if bool_decide (String a "" = "-") then - Z.of_nat (String.length s) else Z.of_nat (String.length s)) * Second)%Z
  | EmptyString => None
  end.
Lemma unary_time_parses t : parse_unary (unary_time t) = Some (whole_seconds t).
Proof.
  assert (∀ n, parse_unary ("-" +:+ ticks n) = Some (- Z.of_nat (String.length (ticks n)) * Second)%Z
               ∧ parse_unary ("+" +:+ ticks n) = Some (Z.of_nat (String.length (ticks n)) * Second)%Z) as H by done.
  unfold unary_time, whole_seconds. case_bool_decide; [rewrite (proj1 (H _))|rewrite (proj2 (H _))]; rewrite ticks_length, Z2Nat.id.
  - f_equal. lia.
  - assert (t / Second < 0)%Z by (apply Z.div_lt_upper_bound; unfold Second; lia). lia.
  - done.
  - apply Z.div_pos; unfold Second; lia.
Qed.

Lemma short_plain id : String.length id < 8 → plain id.
Proof. intros H x ->. rewrite string_app_length in H. simpl in H. lia. Qed.

Definition demo_service : UserService := {| svUsers := demo_table; svTeams := ∅; svEvents := [] |}.
Definition demo_service_call (now : Z) (uuid : string) : ServiceCall :=
  {| vcNow := now; vcUuid := uuid; vcOrd := ["1"]; vcPerms := []; vcMembers := ["t"; "1"; "2"]; vcFail := λ _ _, None;
     vcDown := λ _, false; vcBusDown := false |}.
Definition demo_team : CreateTeamRequest := {| crName := "ops"; crDescription := "on call"; crOwnerID := "2" |}.
Definition demo_team_calls : list (TeamOp * ServiceCall) :=
  [(ToCreate demo_team, demo_service_call (3 * Second + 7) "t"); (ToAdd "t" "1", demo_service_call 0 "");
   (ToRemove "t" "2", demo_service_call 0 ""); (ToUpdate "t" {| utName := Some "sre"; utDescription := None |}, demo_service_call 9 "");
   (ToGet "t", demo_service_call 0 ""); (ToMembers "t", demo_service_call 0 "")].

Lemma empty_refines parse : refines parse ∅ ∅.
Proof. split; try done. intros id [x Hx]. by rewrite lookup_empty in Hx. Qed.

Lemma team_store_refinement_witness :
  fst (team_runs unary_time parse_unary demo_team_calls demo_service) = fst (spec_runs demo_table demo_team_calls ∅).
Proof.
  pose proof (team_store_refinement unary_time parse_unary unary_time_parses demo_team_calls demo_service ∅ (empty_refines _)) as H.
  assert (calls_ok demo_table demo_team_calls ∅) as Hok.
  { split; [split; [reflexivity|split; [apply short_plain; simpl; lia|reflexivity]]|].
    repeat (split; [split; [reflexivity|apply short_plain; simpl; lia]|]). exact I. }
  specialize (H Hok). destruct (team_runs _ _ demo_team_calls demo_service) as [a s'].
  change (svUsers demo_service) with demo_table in H. destruct (spec_runs demo_table demo_team_calls ∅) as [a' t']. exact (proj1 H).
Defined.

(** ** Where the service does not do what it says *)

(** The cleared name is returned, the table keeps the old one. *)
Lemma cleared_name_kept :
  let r := {| urFirstName := Some ""; urLastName := None; urAvatar := None; urStatus := None |} in
  let '(a, s) := Service_UpdateUser demo_service "1" r (demo_service_call 5 "") in
  usFirstName <$> ok_of a = Some "" ∧ usFirstName <$> udUsers (svUsers s) !! "1" = Some "Ann".
Proof. by vm_compute. Qed.

(** A deleted user is still found, and can join a team. *)
Lemma deleted_user_joins :
  let s := snd (CreateTeam unary_time demo_service demo_team (demo_service_call 1 "t")) in
  let s := snd (Service_DeleteUser s "1" (demo_service_call 2 "")) in
  (usStatus <$> ok_of (Service_GetUser s "1" (demo_service_call 3 ""))) = Some UserDeleted
  ∧ fst (AddTeamMember parse_unary s "t" "1" (demo_service_call 4 "")) = None.
Proof. by vm_compute. Qed.

(** Deleting a team of another ID removes the members of this one. *)
Lemma delete_foreign_members :
  let s := snd (CreateTeam unary_time demo_service demo_team (demo_service_call 1 "t")) in
  let s := snd (AddTeamMember parse_unary s "t" "1" (demo_service_call 2 "")) in
  let s' := DeleteTeam s "t:members" (demo_service_call 3 "") in
  length <$> ok_of (GetTeamMembers s "t" (demo_service_call 4 "")) = Some 1
  ∧ length <$> ok_of (GetTeamMembers s' "t" (demo_service_call 4 "")) = Some 0
  ∧ tmName <$> ok_of (GetTeam parse_unary s' "t" false) = Some "ops".
Proof. by vm_compute. Qed.

(** A team whose index command fails is created and never listed. *)
Lemma unlisted_team :
  let c := {| vcNow := 1; vcUuid := "t"; vcOrd := ["1"]; vcPerms := []; vcMembers := ["t"]; vcFail := λ _ _, None;
              vcDown := λ k, bool_decide (k = 1); vcBusDown := false |} in
  let '(a, s) := CreateTeam unary_time demo_service demo_team c in
  tmID <$> ok_of a = Some "t" ∧ ListTeams parse_unary s (demo_service_call 2 "") = Ok []
  ∧ tmName <$> ok_of (GetTeam parse_unary s "t" false) = Some "ops".
Proof. by vm_compute. Qed.
