(* ===== verification/Cost.v ===== *)
(** internal/execution/app/cost: the tracker of the resources executions use, and
    the calculator of their cost.

    Amounts are float64, without fused operations.  The readings of the system monitors, the clock and the
    hour of the day are arguments, and so is what an integer conversion gives for a
    float64 outside the range of int64. *)

From S2P Require Import Prelude GoValue Tokens.

(** The decimal constants of the code, rounded as the compiler does. *)
Definition f64_ratio (p q : Z) : spec_float := f64_div (f64_of_Z p) (f64_of_Z q).
Definition f64_zero : spec_float := S754_zero false.
(** Duration.Seconds. *)
Definition seconds_of (d : Z) : spec_float :=
  f64_add (f64_of_Z (Z.quot d Second)) (f64_ratio (Z.rem d Second) 1000000000).

(** ** The tracker *)

Record ResourceUsage := {
  ruExecutionID : string;
  ruComputeTime : Z;
  ruMemoryBytes : Z;
  ruStorageBytes : Z;
  ruNetworkBytes : Z;
  ruAPICallCount : Z;
  ruDatabaseQueries : Z
}.
Record UsageUpdate := {
  uuAPICallCount : Z;
  uuDatabaseQueries : Z;
  uuStorageBytes : Z
}.
Record TrackingSession := {
  tsExecutionID : string;
  tsStartTime : Z;
  tsLastUpdate : Z;
  tsCPUSeconds : spec_float;
  tsMemoryByteSeconds : spec_float;
  tsNetworkBytes : Z;
  tsStorageBytes : Z;
  tsAPICallCount : Z;
  tsDatabaseQueries : Z;
  tsInitialCPU : spec_float;
  tsInitialMemory : Z;
  tsInitialNetwork : Z
}.
Record UsageTracker := {
  utUsage : gmap string ResourceUsage;
  utActive : gmap string TrackingSession
}.
Definition NewUsageTracker : UsageTracker := {| utUsage := ∅; utActive := ∅ |}.

(** What the monitors and the clock give; a monitor that fails gives 0. *)
Record Reading := {
  rdNow : Z;
  rdAfter : Z;
  rdCPU : spec_float;
  rdMemory : Z;
  rdNetwork : Z
}.

Definition StartTracking (t : UsageTracker) (id : string) (r : Reading) : option string * UsageTracker :=
  match utActive t !! id with
  | Some _ => (Some ("already tracking execution: " +:+ id), t)
  | None =>
      let session := {| tsExecutionID := id; tsStartTime := rdNow r; tsLastUpdate := rdAfter r; tsCPUSeconds := f64_zero;
                        tsMemoryByteSeconds := f64_zero; tsNetworkBytes := 0; tsStorageBytes := 0; tsAPICallCount := 0;
                        tsDatabaseQueries := 0; tsInitialCPU := rdCPU r; tsInitialMemory := rdMemory r;
                        tsInitialNetwork := rdNetwork r |} in
      (None, {| utUsage := utUsage t; utActive := <[id := session]> (utActive t) |})
  end.

Definition add_positive (old d : Z) : Z := if bool_decide (0 < d)%Z then (old + d)%Z else old.
Definition UpdateUsage (t : UsageTracker) (id : string) (u : UsageUpdate) (now : Z) : option string * UsageTracker :=
  match utActive t !! id with
  | None => (Some ("not tracking execution: " +:+ id), t)
  | Some s =>
      let s := {| tsExecutionID := tsExecutionID s; tsStartTime := tsStartTime s; tsLastUpdate := now; tsCPUSeconds := tsCPUSeconds s;
                  tsMemoryByteSeconds := tsMemoryByteSeconds s; tsNetworkBytes := tsNetworkBytes s;
                  tsStorageBytes := add_positive (tsStorageBytes s) (uuStorageBytes u);
                  tsAPICallCount := add_positive (tsAPICallCount s) (uuAPICallCount u);
                  tsDatabaseQueries := add_positive (tsDatabaseQueries s) (uuDatabaseQueries u);
                  tsInitialCPU := tsInitialCPU s; tsInitialMemory := tsInitialMemory s; tsInitialNetwork := tsInitialNetwork s |} in
      (None, {| utUsage := utUsage t; utActive := <[id := s]> (utActive t) |})
  end.

Definition TrackUsage (t : UsageTracker) (id : string) (u : ResourceUsage) : UsageTracker :=
  {| utUsage := <[id := u]> (utUsage t); utActive := utActive t |}.

Definition tick_session (r : Reading) (s : TrackingSession) : TrackingSession :=
  let delta := seconds_of (rdNow r - tsLastUpdate s) in
  {| tsExecutionID := tsExecutionID s; tsStartTime := tsStartTime s; tsLastUpdate := rdAfter r;
     tsCPUSeconds := f64_add (tsCPUSeconds s) (f64_div (f64_mul (rdCPU r) delta) (f64_of_Z 100));
     tsMemoryByteSeconds := f64_add (tsMemoryByteSeconds s) (f64_mul (f64_of_Z (rdMemory r)) delta);
     tsNetworkBytes := tsNetworkBytes s; tsStorageBytes := tsStorageBytes s; tsAPICallCount := tsAPICallCount s;
     tsDatabaseQueries := tsDatabaseQueries s; tsInitialCPU := tsInitialCPU s; tsInitialMemory := tsInitialMemory s;
     tsInitialNetwork := tsInitialNetwork s |}.
(** Every session has readings of its own. *)
Definition updateActiveTracking (t : UsageTracker) (readings : string → Reading) : UsageTracker :=
  {| utUsage := utUsage t; utActive := map_imap (λ id s, Some (tick_session (readings id) s)) (utActive t) |}.
Definition GetActiveTrackingSessions (t : UsageTracker) (ord : list string) : list string :=
  filter (λ id, is_Some (utActive t !! id)) ord.

Section tracker.
Context (outside : spec_float → Z).

Definition session_usage (id : string) (s : TrackingSession) (now network : Z) : ResourceUsage :=
  {| ruExecutionID := id; ruComputeTime := now - tsStartTime s;
     ruMemoryBytes := to_int64 outside (f64_div (tsMemoryByteSeconds s) (seconds_of (now - tsStartTime s)));
     ruNetworkBytes := network; ruStorageBytes := tsStorageBytes s; ruAPICallCount := tsAPICallCount s;
     ruDatabaseQueries := tsDatabaseQueries s |}.
Definition StopTracking (t : UsageTracker) (id : string) (r : Reading) : result ResourceUsage * UsageTracker :=
  match utActive t !! id with
  | None => (Err ("not tracking execution: " +:+ id), t)
  | Some s =>
      let usage := session_usage id s (rdNow r) (wrap64 (wrap64 (rdNetwork r) - wrap64 (tsInitialNetwork s))) in
      (Ok usage, {| utUsage := <[id := usage]> (utUsage t); utActive := delete id (utActive t) |})
  end.
Definition GetUsage (t : UsageTracker) (id : string) (now : Z) : result ResourceUsage :=
  match utUsage t !! id with
  | Some u => Ok u
  | None => match utActive t !! id with
            | Some s => Ok (session_usage id s now (tsNetworkBytes s))
            | None => Err ("usage data not found for execution: " +:+ id)
            end
  end.

Record UsageReport := {
  rpExecutionID : string;
  rpPeriod : string;
  rpTotalComputeTime : Z;
  rpPeakMemoryBytes : Z;
  rpTotalNetworkBytes : Z;
  rpTotalStorageBytes : Z;
  rpTotalAPICalls : Z;
  rpTotalDBQueries : Z
}.
Definition GenerateReport (t : UsageTracker) (id period : string) (now : Z) : result UsageReport :=
  match GetUsage t id now with
  | Err e => Err e
  | Ok u => Ok {| rpExecutionID := id; rpPeriod := period; rpTotalComputeTime := ruComputeTime u; rpPeakMemoryBytes := ruMemoryBytes u;
                  rpTotalNetworkBytes := ruNetworkBytes u; rpTotalStorageBytes := ruStorageBytes u; rpTotalAPICalls := ruAPICallCount u;
                  rpTotalDBQueries := ruDatabaseQueries u |}
  end.
End tracker.

(** ** The calculator *)

Record TierDiscount := {
  tdMinUsage : spec_float;
  tdMaxUsage : spec_float;
  tdDiscount : spec_float
}.
Record CostModel := {
  cmComputeCostPerSecond : spec_float;
  cmMemoryCostPerGB : spec_float;
  cmStorageCostPerGB : spec_float;
  cmNetworkCostPerGB : spec_float;
  cmAPICallCost : spec_float;
  cmDatabaseQueryCost : spec_float;
  cmNodeTypeCosts : gmap string spec_float;
  cmTierDiscounts : list TierDiscount;
  cmCurrency : string
}.
(** A pricing rule; its amount may depend on the hour of the day. *)
Record PricingRule := {
  prName : string;
  prApply : Z → ResourceUsage → spec_float → spec_float
}.
Record ExecutionCost := {
  ecExecutionID : string;
  ecWorkflowID : string;
  ecUserID : string;
  ecTeamID : string;
  ecComputeTime : Z;
  ecMemoryUsageGB : spec_float;
  ecStorageUsageGB : spec_float;
  ecNetworkUsageGB : spec_float;
  ecAPICallCount : Z;
  ecDatabaseQueries : Z;
  ecNodeCosts : gmap string spec_float;
  ecComputeCost : spec_float;
  ecMemoryCost : spec_float;
  ecStorageCost : spec_float;
  ecNetworkCost : spec_float;
  ecAPICallCost : spec_float;
  ecDatabaseCost : spec_float;
  ecSubTotal : spec_float;
  ecDiscount : spec_float;
  ecTotalCost : spec_float;
  ecStartTime : Z;
  ecEndTime : option Z;
  ecCalculatedAt : Z
}.
Record UserCost := {
  ucoUserID : string;
  ucoPeriod : string;
  ucoTotalExecutions : Z;
  ucoTotalCost : spec_float;
  ucoAverageCost : spec_float;
  ucoWorkflowCosts : gmap string spec_float;
  ucoTotalComputeTime : Z;
  ucoTotalMemoryGB : spec_float;
  ucoTotalStorageGB : spec_float;
  ucoTotalNetworkGB : spec_float
}.
Record WorkflowCostInfo := {
  wcWorkflowID : string;
  wcWorkflowName : string;
  wcExecutionCount : Z;
  wcTotalCost : spec_float;
  wcAverageCost : spec_float
}.
Record TeamCost := {
  tcTeamID : string;
  tcPeriod : string;
  tcTotalUsers : Z;
  tcTotalExecutions : Z;
  tcTotalCost : spec_float;
  tcUserCosts : gmap string spec_float;
  tcTopWorkflows : list WorkflowCostInfo
}.
Record Calculator := {
  caModel : CostModel;
  caRules : gmap string PricingRule;
  caTracker : UsageTracker;
  caExecutions : gmap string ExecutionCost;
  caUsers : gmap string UserCost;
  caTeams : gmap string TeamCost;
  caTotalCost : spec_float;
  caTotalExecutions : Z
}.
Definition with_tracker (c : Calculator) (t : UsageTracker) : Calculator :=
  {| caModel := caModel c; caRules := caRules c; caTracker := t; caExecutions := caExecutions c; caUsers := caUsers c;
     caTeams := caTeams c; caTotalCost := caTotalCost c; caTotalExecutions := caTotalExecutions c |}.

(** *** The rules *)

Definition VolumDiscountRule : PricingRule :=
  {| prName := "volume_discount";
     prApply := λ _ usage base, if bool_decide (Hour < ruComputeTime usage)%Z then f64_mul base (f64_ratio 9 10) else base |}.
Definition TimeOfDayRule : PricingRule :=
  {| prName := "time_of_day";
     prApply := λ hour _ base,
       if bool_decide (0 ≤ hour < 6)%Z then f64_mul base (f64_ratio 8 10)
       else if bool_decide (9 ≤ hour < 17)%Z then f64_mul base (f64_ratio 11 10) else base |}.
Definition ResourceOptimizationRule : PricingRule :=
  {| prName := "resource_optimization";
     prApply := λ _ usage base,
       let efficiency := f64_div (f64_of_Z (ruMemoryBytes usage)) (f64_add (seconds_of (ruComputeTime usage)) (f64_of_Z 1)) in
       if f64_ltb efficiency (f64_of_Z (1024 * 1024)) then f64_mul base (f64_ratio 95 100) else base |}.

Definition RegisterPricingRule (c : Calculator) (rule : PricingRule) : Calculator :=
  {| caModel := caModel c; caRules := <[prName rule := rule]> (caRules c); caTracker := caTracker c; caExecutions := caExecutions c;
     caUsers := caUsers c; caTeams := caTeams c; caTotalCost := caTotalCost c; caTotalExecutions := caTotalExecutions c |}.
Definition registerDefaultRules (c : Calculator) : Calculator :=
  RegisterPricingRule (RegisterPricingRule (RegisterPricingRule c VolumDiscountRule) TimeOfDayRule) ResourceOptimizationRule.

Definition default_currency (m : CostModel) : CostModel :=
  {| cmComputeCostPerSecond := cmComputeCostPerSecond m; cmMemoryCostPerGB := cmMemoryCostPerGB m;
     cmStorageCostPerGB := cmStorageCostPerGB m; cmNetworkCostPerGB := cmNetworkCostPerGB m; cmAPICallCost := cmAPICallCost m;
     cmDatabaseQueryCost := cmDatabaseQueryCost m; cmNodeTypeCosts := cmNodeTypeCosts m; cmTierDiscounts := cmTierDiscounts m;
     cmCurrency := if bool_decide (cmCurrency m = "") then "USD" else cmCurrency m |}.
Definition NewCalculator (m : CostModel) : Calculator :=
  registerDefaultRules
    {| caModel := default_currency m; caRules := ∅; caTracker := NewUsageTracker; caExecutions := ∅; caUsers := ∅; caTeams := ∅;
       caTotalCost := f64_zero; caTotalExecutions := 0 |}.

(** *** The cost of an execution *)

Fixpoint calculateTierDiscount (tiers : list TierDiscount) (cost : spec_float) : spec_float :=
  match tiers with
  | [] => f64_zero
  | tier :: tiers =>
      if f64_leb (tdMinUsage tier) cost && (SFeqb (tdMaxUsage tier) f64_zero || f64_ltb cost (tdMaxUsage tier))
      then f64_div (tdDiscount tier) (f64_of_Z 100) else calculateTierDiscount tiers cost
  end.

Definition gigabytes (bytes : Z) : spec_float := f64_div (f64_of_Z bytes) (f64_of_Z (1024 * 1024 * 1024)).
(** The rules in the order of the range over their map, each with the hour it sees. *)
Definition apply_rules (rules : gmap string PricingRule) (ord : list (string * Z)) (usage : ResourceUsage) (cost : spec_float) : spec_float :=
  foldl (λ cost nh, match rules !! nh.1 with Some rule => prApply rule nh.2 usage cost | None => cost end) cost ord.

Definition compute_cost (m : CostModel) (rules : gmap string PricingRule) (id : string) (usage : ResourceUsage) (ord : list (string * Z))
    (start now : Z) : ExecutionCost :=
  let compute := f64_mul (seconds_of (ruComputeTime usage)) (cmComputeCostPerSecond m) in
  let memGB := gigabytes (ruMemoryBytes usage) in
  let storGB := gigabytes (ruStorageBytes usage) in
  let netGB := gigabytes (ruNetworkBytes usage) in
  let memory := f64_mul memGB (cmMemoryCostPerGB m) in
  let storage := f64_mul storGB (cmStorageCostPerGB m) in
  let network := f64_mul netGB (cmNetworkCostPerGB m) in
  let api := f64_mul (f64_of_Z (ruAPICallCount usage)) (cmAPICallCost m) in
  let database := f64_mul (f64_of_Z (ruDatabaseQueries usage)) (cmDatabaseQueryCost m) in
  let subtotal := f64_add (f64_add (f64_add (f64_add (f64_add compute memory) storage) network) api) database in
  let final := apply_rules rules ord usage subtotal in
  let discount := calculateTierDiscount (cmTierDiscounts m) final in
  {| ecExecutionID := id; ecWorkflowID := ""; ecUserID := ""; ecTeamID := ""; ecComputeTime := ruComputeTime usage;
     ecMemoryUsageGB := memGB; ecStorageUsageGB := storGB; ecNetworkUsageGB := netGB; ecAPICallCount := ruAPICallCount usage;
     ecDatabaseQueries := ruDatabaseQueries usage; ecNodeCosts := ∅; ecComputeCost := compute; ecMemoryCost := memory;
     ecStorageCost := storage; ecNetworkCost := network; ecAPICallCost := api; ecDatabaseCost := database; ecSubTotal := subtotal;
     ecDiscount := discount; ecTotalCost := f64_mul final (f64_sub (f64_of_Z 1) discount); ecStartTime := start; ecEndTime := None;
     ecCalculatedAt := now |}.
(** The cost is also published. *)
Definition CalculateExecutionCost (c : Calculator) (id : string) (usage : ResourceUsage) (ord : list (string * Z)) (start now : Z) :
    ExecutionCost * Calculator :=
  let cost := compute_cost (caModel c) (caRules c) id usage ord start now in
  (cost, {| caModel := caModel c; caRules := caRules c; caTracker := caTracker c; caExecutions := <[id := cost]> (caExecutions c);
            caUsers := caUsers c; caTeams := caTeams c; caTotalCost := f64_add (caTotalCost c) (ecTotalCost cost);
            caTotalExecutions := caTotalExecutions c + 1 |}).

Definition GetExecutionCost (c : Calculator) (id : string) : result ExecutionCost :=
  match caExecutions c !! id with Some cost => Ok cost | None => Err ("cost not found for execution: " +:+ id) end.

(** *** Totals *)

Definition add_to (m : gmap string spec_float) (k : string) (x : spec_float) : gmap string spec_float :=
  <[k := f64_add (default f64_zero (m !! k)) x]> m.
Definition add_user_cost (u : UserCost) (cost : ExecutionCost) : UserCost :=
  {| ucoUserID := ucoUserID u; ucoPeriod := ucoPeriod u; ucoTotalExecutions := ucoTotalExecutions u + 1;
     ucoTotalCost := f64_add (ucoTotalCost u) (ecTotalCost cost); ucoAverageCost := ucoAverageCost u;
     ucoWorkflowCosts := add_to (ucoWorkflowCosts u) (ecWorkflowID cost) (ecTotalCost cost);
     ucoTotalComputeTime := ucoTotalComputeTime u + ecComputeTime cost;
     ucoTotalMemoryGB := f64_add (ucoTotalMemoryGB u) (ecMemoryUsageGB cost);
     ucoTotalStorageGB := f64_add (ucoTotalStorageGB u) (ecStorageUsageGB cost);
     ucoTotalNetworkGB := f64_add (ucoTotalNetworkGB u) (ecNetworkUsageGB cost) |}.
Definition costs_in (c : Calculator) (ord : list string) : list ExecutionCost := omap (λ id, caExecutions c !! id) ord.
Definition GetUserCost (c : Calculator) (userID period : string) (ord : list string) : UserCost * Calculator :=
  let u := {| ucoUserID := userID; ucoPeriod := period; ucoTotalExecutions := 0; ucoTotalCost := f64_zero; ucoAverageCost := f64_zero;
              ucoWorkflowCosts := ∅; ucoTotalComputeTime := 0; ucoTotalMemoryGB := f64_zero; ucoTotalStorageGB := f64_zero;
              ucoTotalNetworkGB := f64_zero |} in
  let u := foldl (λ u cost, if bool_decide (ecUserID cost = userID) then add_user_cost u cost else u) u (costs_in c ord) in
  let u := if bool_decide (0 < ucoTotalExecutions u)%Z
           then {| ucoUserID := ucoUserID u; ucoPeriod := ucoPeriod u; ucoTotalExecutions := ucoTotalExecutions u;
                   ucoTotalCost := ucoTotalCost u; ucoAverageCost := f64_div (ucoTotalCost u) (f64_of_Z (ucoTotalExecutions u));
                   ucoWorkflowCosts := ucoWorkflowCosts u; ucoTotalComputeTime := ucoTotalComputeTime u;
                   ucoTotalMemoryGB := ucoTotalMemoryGB u; ucoTotalStorageGB := ucoTotalStorageGB u;
                   ucoTotalNetworkGB := ucoTotalNetworkGB u |} else u in
  (u, {| caModel := caModel c; caRules := caRules c; caTracker := caTracker c; caExecutions := caExecutions c;
         caUsers := <[userID := u]> (caUsers c); caTeams := caTeams c; caTotalCost := caTotalCost c;
         caTotalExecutions := caTotalExecutions c |}).

(** The sums of a team: executions, cost, users and workflows. *)
Record TeamSums := {
  teExecutions : Z;
  teCost : spec_float;
  teUsers : gmap string spec_float;
  teWorkflows : gmap string WorkflowCostInfo
}.
Definition add_team_cost (t : TeamSums) (cost : ExecutionCost) : TeamSums :=
  {| teExecutions := teExecutions t + 1; teCost := f64_add (teCost t) (ecTotalCost cost);
     teUsers := add_to (teUsers t) (ecUserID cost) (ecTotalCost cost);
     teWorkflows :=
       <[ecWorkflowID cost :=
           match teWorkflows t !! ecWorkflowID cost with
           | Some i => {| wcWorkflowID := wcWorkflowID i; wcWorkflowName := wcWorkflowName i; wcExecutionCount := wcExecutionCount i + 1;
                          wcTotalCost := f64_add (wcTotalCost i) (ecTotalCost cost); wcAverageCost := wcAverageCost i |}
           | None => {| wcWorkflowID := ecWorkflowID cost; wcWorkflowName := ""; wcExecutionCount := 1; wcTotalCost := ecTotalCost cost;
                        wcAverageCost := f64_zero |}
           end]> (teWorkflows t) |}.
Definition with_average (i : WorkflowCostInfo) : WorkflowCostInfo :=
  {| wcWorkflowID := wcWorkflowID i; wcWorkflowName := wcWorkflowName i; wcExecutionCount := wcExecutionCount i;
     wcTotalCost := wcTotalCost i; wcAverageCost := f64_div (wcTotalCost i) (f64_of_Z (wcExecutionCount i)) |}.
(** [ord] and [word] are the orders of the executions and of the workflows. *)
Definition GetTeamCost (c : Calculator) (teamID period : string) (ord word : list string) : TeamCost * Calculator :=
  let t := foldl (λ t cost, if bool_decide (ecTeamID cost = teamID) then add_team_cost t cost else t)
             {| teExecutions := 0; teCost := f64_zero; teUsers := ∅; teWorkflows := ∅ |} (costs_in c ord) in
  let t := {| tcTeamID := teamID; tcPeriod := period; tcTotalUsers := Z.of_nat (size (teUsers t)); tcTotalExecutions := teExecutions t;
              tcTotalCost := teCost t; tcUserCosts := teUsers t;
              tcTopWorkflows := omap (λ w, with_average <$> teWorkflows t !! w) word |} in
  (t, {| caModel := caModel c; caRules := caRules c; caTracker := caTracker c; caExecutions := caExecutions c; caUsers := caUsers c;
         caTeams := <[teamID := t]> (caTeams c); caTotalCost := caTotalCost c; caTotalExecutions := caTotalExecutions c |}).

Record CostMetrics := {
  meTotalCostCalculated : spec_float;
  meTotalExecutions : Z;
  meAverageCost : spec_float;
  meCurrency : string
}.
Definition Calculator_GetMetrics (c : Calculator) : CostMetrics :=
  {| meTotalCostCalculated := caTotalCost c; meTotalExecutions := caTotalExecutions c;
     meAverageCost := (if bool_decide (0 < caTotalExecutions c)%Z then f64_div (caTotalCost c) (f64_of_Z (caTotalExecutions c)) else f64_zero);
     meCurrency := cmCurrency (caModel c) |}.

Record OptimizationSuggestion := {
  osType : string;
  osDescription : string;
  osSuggestion : string;
  osSavings : spec_float
}.
Definition GenerateOptimizationSuggestions (c : Calculator) (id : string) : list OptimizationSuggestion :=
  match caExecutions c !! id with
  | None => []
  | Some cost =>
      (if f64_ltb (f64_mul (ecTotalCost cost) (f64_ratio 5 10)) (ecComputeCost cost)
       then [{| osType := "compute"; osDescription := "High compute costs detected";
                osSuggestion := "Consider optimizing algorithms or using more efficient node types";
                osSavings := f64_mul (ecComputeCost cost) (f64_ratio 2 10) |}] else [])
      ++ (if f64_ltb (f64_mul (ecTotalCost cost) (f64_ratio 3 10)) (ecMemoryCost cost)
          then [{| osType := "memory"; osDescription := "High memory usage detected";
                   osSuggestion := "Optimize data structures and reduce memory footprint";
                   osSavings := f64_mul (ecMemoryCost cost) (f64_ratio 25 100) |}] else [])
      ++ (if bool_decide (1000 < ecAPICallCount cost)%Z
          then [{| osType := "api"; osDescription := "High number of API calls"; osSuggestion := "Batch API calls where possible";
                   osSavings := f64_mul (ecAPICallCost cost) (f64_ratio 3 10) |}] else [])
  end.

(** *** Events *)

Definition empty_usage (id : string) : ResourceUsage :=
  {| ruExecutionID := id; ruComputeTime := 0; ruMemoryBytes := 0; ruStorageBytes := 0; ruNetworkBytes := 0; ruAPICallCount := 0;
     ruDatabaseQueries := 0 |}.
Definition handleResourceUsage (c : Calculator) (payload : vmap) : Calculator :=
  let id := default "" (get_string payload "executionId") in with_tracker c (TrackUsage (caTracker c) id (empty_usage id)).
Definition Cost_handleExecutionCompleted (outside : spec_float → Z) (c : Calculator) (id : string) (ord : list (string * Z))
    (seen start now : Z) : option string * Calculator :=
  match GetUsage outside (caTracker c) id seen with
  | Err e => (Some e, c)
  | Ok usage => (None, snd (CalculateExecutionCost c id usage ord start now))
  end.

(** ** Tracking counts exactly what is reported *)

Inductive TrackerOp :=
| TkStart (id : string) (r : Reading)
| TkUpdate (id : string) (u : UsageUpdate) (now : Z)
| TkTick (readings : string → Reading)
| TkStop (id : string) (r : Reading)
| TkTrack (id : string) (u : ResourceUsage).

Section tracking.
Context (outside : spec_float → Z).

Definition tracker_run (op : TrackerOp) (t : UsageTracker) : UsageTracker :=
  match op with
  | TkStart id r => snd (StartTracking t id r)
  | TkUpdate id u now => snd (UpdateUsage t id u now)
  | TkTick rs => updateActiveTracking t rs
  | TkStop id r => snd (StopTracking outside t id r)
  | TkTrack id u => TrackUsage t id u
  end.
Definition tracker_runs (ops : list TrackerOp) (t : UsageTracker) : UsageTracker := foldl (λ t op, tracker_run op t) t ops.

(** The updates of an execution, and the sum of their positive amounts. *)
Definition update_of (id : string) (op : TrackerOp) : option UsageUpdate :=
  match op with TkUpdate id' u _ => if bool_decide (id' = id) then Some u else None | _ => None end.
Fixpoint reported (f : UsageUpdate → Z) (id : string) (ops : list TrackerOp) : Z :=
  match ops with
  | [] => 0
  | op :: ops => match update_of id op with Some u => Z.max 0 (f u) | None => 0 end + reported f id ops
  end.
Definition stops (id : string) (op : TrackerOp) : bool :=
  match op with TkStop id' _ => bool_decide (id' = id) | _ => false end.

(** What a session keeps and what it counts. *)
Definition counts (s s' : TrackingSession) (api db storage : Z) : Prop :=
  tsStartTime s' = tsStartTime s ∧ tsInitialNetwork s' = tsInitialNetwork s
  ∧ tsAPICallCount s' = (tsAPICallCount s + api)%Z ∧ tsDatabaseQueries s' = (tsDatabaseQueries s + db)%Z
  ∧ tsStorageBytes s' = (tsStorageBytes s + storage)%Z.

Lemma add_positive_max old d : add_positive old d = (old + Z.max 0 d)%Z.
Proof. unfold add_positive. case_bool_decide; lia. Qed.

Lemma tracker_run_session op t id s :
  utActive t !! id = Some s → stops id op = false →
  ∃ s', utActive (tracker_run op t) !! id = Some s'
    ∧ counts s s' (reported uuAPICallCount id [op]) (reported uuDatabaseQueries id [op]) (reported uuStorageBytes id [op]).
Proof.
  intros Hs Hst. unfold reported. destruct op as [i r|i u now|rs|i r|i u]; simpl.
  - exists s. unfold StartTracking. destruct (utActive t !! i) eqn:E; simpl; [split; [done|]; unfold counts; split_and!; lia|].
    rewrite lookup_insert_ne by congruence. split; [done|]. unfold counts. split_and!; lia.
  - unfold UpdateUsage. case_bool_decide as Ei; simpl.
    + subst i. rewrite Hs. simpl. rewrite lookup_insert_eq. eexists. split; [done|]. unfold counts. simpl. rewrite !add_positive_max.
      split_and!; lia.
    + exists s. destruct (utActive t !! i); simpl; [rewrite lookup_insert_ne by done|]; (split; [done|]); unfold counts; split_and!; lia.
  - rewrite map_lookup_imap, Hs. simpl. eexists. split; [done|]. unfold counts. simpl. split_and!; lia.
  - apply bool_decide_eq_false in Hst. exists s. unfold StopTracking. destruct (utActive t !! i); simpl; [rewrite lookup_delete_ne by done|];
      (split; [done|]); unfold counts; split_and!; lia.
  - exists s. split; [done|]. unfold counts. split_and!; lia.
Qed.

Lemma reported_cons f id op ops : reported f id (op :: ops) = (reported f id [op] + reported f id ops)%Z.
Proof. simpl. lia. Qed.

Lemma tracker_runs_session ops t id s :
  utActive t !! id = Some s → Forall (λ op, stops id op = false) ops →
  ∃ s', utActive (tracker_runs ops t) !! id = Some s'
    ∧ counts s s' (reported uuAPICallCount id ops) (reported uuDatabaseQueries id ops) (reported uuStorageBytes id ops).
Proof.
  revert t s. induction ops as [|op ops IH]; intros t s Hs Hst.
  - exists s. split; [done|]. unfold counts, reported. simpl. split_and!; lia.
  - apply Forall_cons in Hst as [H1 H2]. destruct (tracker_run_session op t id s Hs H1) as (s1 & Hs1 & C1).
    destruct (IH _ _ Hs1 H2) as (s2 & Hs2 & C2). exists s2. split; [done|]. rewrite !(reported_cons _ _ op ops).
    destruct C1 as (A1 & A2 & A3 & A4 & A5), C2 as (B1 & B2 & B3 & B4 & B5). unfold counts. rewrite B1, B2, B3, B4, B5, A1, A2, A3, A4, A5.
    split_and!; lia.
Qed.

(** From its start to its stop an execution is tracked exactly: whatever else
    happens, a stop succeeds and gives the time between them, the bytes the network
    counted and the sums of the positive amounts reported, which are then the usage
    of the execution, and the session is over. *)
Lemma tracking_exact t id r0 ops r t0 :
  StartTracking t id r0 = (None, t0) → Forall (λ op, stops id op = false) ops →
  ∃ u t', StopTracking outside (tracker_runs ops t0) id r = (Ok u, t')
    ∧ ruComputeTime u = (rdNow r - rdNow r0)%Z ∧ ruNetworkBytes u = wrap64 (wrap64 (rdNetwork r) - wrap64 (rdNetwork r0))
    ∧ ruAPICallCount u = reported uuAPICallCount id ops ∧ ruDatabaseQueries u = reported uuDatabaseQueries id ops
    ∧ ruStorageBytes u = reported uuStorageBytes id ops
    ∧ (∀ now, GetUsage outside t' id now = Ok u) ∧ utActive t' !! id = None.
Proof.
  intros Hst Hops. unfold StartTracking in Hst. destruct (utActive t !! id) eqn:E; [done|]. injection Hst as Et.
  destruct (tracker_runs_session ops t0 id _ ltac:(rewrite <- Et; apply lookup_insert_eq) Hops) as (s & Hs & H1 & H2 & H3 & H4 & H5).
  unfold StopTracking. rewrite Hs. simpl in *. eexists _, _. split; [done|]. simpl. rewrite H1, H2, H3, H4, H5.
  split_and!; try done; try lia; [|by apply lookup_delete_eq]. intros now. unfold GetUsage. simpl. by rewrite lookup_insert_eq.
Qed.
End tracking.

(** ** The books *)

Inductive CalcOp :=
| CoCalculate (id : string) (usage : ResourceUsage) (ord : list (string * Z)) (start now : Z)
| CoUser (userID period : string) (ord : list string)
| CoTeam (teamID period : string) (ord word : list string)
| CoRule (rule : PricingRule)
| CoReported (payload : vmap)
| CoCompleted (id : string) (ord : list (string * Z)) (seen start now : Z)
| CoTracker (op : TrackerOp).

Section books.
Context (outside : spec_float → Z).

Definition calc_run (op : CalcOp) (c : Calculator) : list ExecutionCost * Calculator :=
  match op with
  | CoCalculate id usage ord start now => let '(cost, c) := CalculateExecutionCost c id usage ord start now in ([cost], c)
  | CoUser u p ord => ([], snd (GetUserCost c u p ord))
  | CoTeam t p ord word => ([], snd (GetTeamCost c t p ord word))
  | CoRule rule => ([], RegisterPricingRule c rule)
  | CoReported payload => ([], handleResourceUsage c payload)
  | CoCompleted id ord seen start now =>
      match GetUsage outside (caTracker c) id seen with
      | Err _ => ([], snd (Cost_handleExecutionCompleted outside c id ord seen start now))
      | Ok usage => ([fst (CalculateExecutionCost c id usage ord start now)],
                     snd (Cost_handleExecutionCompleted outside c id ord seen start now))
      end
  | CoTracker op => ([], with_tracker c (tracker_run outside op (caTracker c)))
  end.

(** The costs calculated so far, in order. *)
Fixpoint calc_runs (ops : list CalcOp) (c : Calculator) : list ExecutionCost * Calculator :=
  match ops with
  | [] => ([], c)
  | op :: ops => let '(l, c) := calc_run op c in let '(l', c) := calc_runs ops c in (l ++ l', c)
  end.

Definition nobody (cost : ExecutionCost) : Prop := ecUserID cost = "" ∧ ecTeamID cost = "" ∧ ecWorkflowID cost = "".
Record books (h : list ExecutionCost) (c : Calculator) : Prop := {
  bk_count : caTotalExecutions c = Z.of_nat (length h);
  bk_total : caTotalCost c = foldl f64_add f64_zero (ecTotalCost <$> h);
  bk_stored : caExecutions c = foldl (λ m cost, <[ecExecutionID cost := cost]> m) ∅ h;
  bk_nobody : Forall nobody h
}.

Lemma books_calculate h c id usage ord start now :
  books h c → let '(cost, c') := CalculateExecutionCost c id usage ord start now in books (h ++ [cost]) c'.
Proof.
  clear. intros [H1 H2 H3 H4]. simpl. split; simpl.
  - rewrite length_app. simpl. lia.
  - by rewrite fmap_app, foldl_app, <- H2.
  - by rewrite foldl_app, <- H3.
  - apply Forall_app. split; [done|]. by apply Forall_singleton.
Qed.

Lemma books_run h c op : books h c → let '(l, c') := calc_run op c in books (h ++ l) c'.
Proof.
  intros H. assert (∀ c', caTotalExecutions c' = caTotalExecutions c → caTotalCost c' = caTotalCost c → caExecutions c' = caExecutions c → books (h ++ []) c') as Hsame.
  { intros c' E1 E2 E3. rewrite app_nil_r. destruct H. split; congruence. }
  destruct op; simpl; try (by apply Hsame).
  - by apply (books_calculate h c).
  - unfold Cost_handleExecutionCompleted. destruct (GetUsage _ _ _ _) as [usage|]; simpl; [by apply (books_calculate h c)|by apply Hsame].
Qed.

Lemma books_runs ops h c : books h c → let '(l, c') := calc_runs ops c in books (h ++ l) c'.
Proof.
  revert h c. induction ops as [|op ops IH]; intros h c H; simpl; [by rewrite app_nil_r|]. pose proof (books_run h c op H) as H1.
  destruct (calc_run op c) as [l c1]. specialize (IH _ _ H1). destruct (calc_runs ops c1) as [l' c2]. by rewrite app_assoc.
Qed.

Lemma stored_last h cost id :
  foldl (λ m cost, <[ecExecutionID cost := cost]> m) (∅ : gmap string ExecutionCost) h !! id = Some cost → ecExecutionID cost = id ∧ cost ∈ h.
Proof.
  clear. revert cost. induction h as [|x h IH] using rev_ind; intros cost; simpl; [by rewrite lookup_empty|]. rewrite foldl_app. simpl.
  intros [[<- <-]|[_ H]]%lookup_insert_Some; [split; [done|]; set_solver|]. destruct (IH _ H). set_solver.
Qed.

(** The costs of users and teams: whatever was calculated, nobody but the user
    without an ID has any. *)
Lemma no_user_cost h c userID period ord :
  books h c → userID ≠ "" → ucoTotalExecutions (fst (GetUserCost c userID period ord)) = 0%Z.
Proof.
  clear. intros H Hu. unfold GetUserCost.
  assert (∀ u l, (∀ cost, cost ∈ l → ecUserID cost = "") →
            foldl (λ u cost, if bool_decide (ecUserID cost = userID) then add_user_cost u cost else u) u l = u) as Hf.
  { intros u l. induction l as [|x l IH]; intros Hl; [done|]. simpl. rewrite bool_decide_false; [|rewrite Hl by left; congruence].
    apply IH. set_solver. }
  rewrite Hf; [done|]. intros cost (id & _ & Hc)%list_elem_of_omap. rewrite (bk_stored _ _ H) in Hc. apply stored_last in Hc as [_ Hc].
  by apply (proj1 (Forall_forall _ _) (bk_nobody _ _ H)) in Hc as (? & _).
Qed.

(** The calculator keeps its books: through any calls and events the counter is the
    number of costs calculated, the total their sum in order and a stored cost the
    last one of its execution; but no cost names its user, so that the costs of
    every user are zero. *)
Lemma cost_books m ops :
  let '(h, c) := calc_runs ops (NewCalculator m) in
  caTotalExecutions c = Z.of_nat (length h) ∧ caTotalCost c = foldl f64_add f64_zero (ecTotalCost <$> h)
  ∧ (∀ id cost, GetExecutionCost c id = Ok cost → ecExecutionID cost = id ∧ cost ∈ h)
  ∧ (∀ cost, cost ∈ h → is_Some (caExecutions c !! ecExecutionID cost))
  ∧ ∀ userID period ord, userID ≠ "" → ucoTotalExecutions (fst (GetUserCost c userID period ord)) = 0%Z.
Proof.
  assert (books [] (NewCalculator m)) as H0 by (by split). pose proof (books_runs ops [] _ H0) as H. simpl in H.
  destruct (calc_runs ops (NewCalculator m)) as [h c]. split_and!; [apply H|apply H|..].
  - intros id cost E. unfold GetExecutionCost in E. destruct (caExecutions c !! id) eqn:Ec; [|done]. injection E as ->.
    rewrite (bk_stored _ _ H) in Ec. by apply stored_last.
  - rewrite (bk_stored _ _ H). clear. intros cost. induction h as [|x h IH] using rev_ind; [by intros ?%not_elem_of_nil|].
    rewrite foldl_app. simpl. rewrite lookup_insert_is_Some. intros [Hc| ->%list_elem_of_singleton]%elem_of_app; [|by left].
    destruct (decide (ecExecutionID x = ecExecutionID cost)); [by left|right; auto].
  - intros userID period ord. by apply no_user_cost with h.
Qed.
End books.

(** ** An example *)

Definition no_outside (f : spec_float) : Z := (- 2 ^ 63)%Z.
Definition demo_reading (now memory network : Z) : Reading :=
  {| rdNow := now; rdAfter := now; rdCPU := f64_of_Z 50; rdMemory := memory; rdNetwork := network |}.
Definition demo_prices : CostModel :=
  {| cmComputeCostPerSecond := f64_of_Z 1; cmMemoryCostPerGB := f64_of_Z 1; cmStorageCostPerGB := f64_of_Z 1;
     cmNetworkCostPerGB := f64_of_Z 1; cmAPICallCost := f64_of_Z 1; cmDatabaseQueryCost := f64_of_Z 1; cmNodeTypeCosts := ∅;
     cmTierDiscounts := []; cmCurrency := "" |}.
Definition demo_usage : ResourceUsage :=
  {| ruExecutionID := "e"; ruComputeTime := 2 * Hour; ruMemoryBytes := 0; ruStorageBytes := 0; ruNetworkBytes := 0; ruAPICallCount := 0;
     ruDatabaseQueries := 0 |}.

Lemma tracking_exact_witness :
  ∃ u t', StopTracking no_outside
            (tracker_runs no_outside [TkUpdate "e" {| uuAPICallCount := 3; uuDatabaseQueries := -1; uuStorageBytes := 0 |} (2 * Second);
                                      TkTick (λ _, demo_reading (5 * Second) 100 0)]
               (snd (StartTracking NewUsageTracker "e" (demo_reading 0 0 10)))) "e" (demo_reading (10 * Second) 0 25) = (Ok u, t')
    ∧ ruComputeTime u = (10 * Second)%Z ∧ ruNetworkBytes u = 15%Z ∧ ruAPICallCount u = 3%Z.
Proof.
  destruct (tracking_exact no_outside NewUsageTracker "e" (demo_reading 0 0 10)
    [TkUpdate "e" {| uuAPICallCount := 3; uuDatabaseQueries := -1; uuStorageBytes := 0 |} (2 * Second);
     TkTick (λ _, demo_reading (5 * Second) 100 0)] (demo_reading (10 * Second) 0 25)
    (snd (StartTracking NewUsageTracker "e" (demo_reading 0 0 10)))) as (u & t' & H & H1 & H2 & H3 & _).
  - reflexivity.
  - repeat constructor.
  - exists u, t'. split; [exact H|]. rewrite H1, H2, H3. split; [reflexivity|]. split; reflexivity.
Defined.

(** ** Where the calculator does not do what it means to *)

(** The cost depends on the order in which the map of rules is visited. *)
Lemma rule_order_matters :
  let c := NewCalculator demo_prices in
  let cost ord := ecTotalCost (fst (CalculateExecutionCost c "e" demo_usage ord 0 0)) in
  cost [("volume_discount", 10%Z); ("time_of_day", 10%Z); ("resource_optimization", 10%Z)]
  ≠ cost [("resource_optimization", 10%Z); ("time_of_day", 10%Z); ("volume_discount", 10%Z)].
Proof. by vm_compute. Qed.

(** A report of usage replaces what was tracked by nothing, and the execution is
    then free. *)
Lemma report_erases_usage :
  let c := with_tracker (NewCalculator demo_prices) (TrackUsage NewUsageTracker "e" demo_usage) in
  let c := handleResourceUsage c {["executionId" := VStr "e"]} in
  let '(e, c) := Cost_handleExecutionCompleted no_outside c "e" [("time_of_day", 3%Z)] 0 0 0 in
  e = None ∧ (ecTotalCost <$> caExecutions c !! "e") = Some f64_zero.
Proof. by vm_compute. Qed.

(** Without a report an execution that was never tracked has no cost at all. *)
Lemma completed_without_usage m id ord seen start now :
  Cost_handleExecutionCompleted no_outside (NewCalculator m) id ord seen start now
  = (Some ("usage data not found for execution: " +:+ id), NewCalculator m).
Proof. done. Qed.

(** An update moves the time of the last measurement, so the memory used before it
    is not counted. *)
Lemma update_loses_memory :
  let t := snd (StartTracking NewUsageTracker "e" (demo_reading 0 0 0)) in
  let u := {| uuAPICallCount := 1; uuDatabaseQueries := 0; uuStorageBytes := 0 |} in
  let tick := λ t, updateActiveTracking t (λ _, demo_reading (5 * Second) 100 0) in
  tsMemoryByteSeconds <$> utActive (tick t) !! "e" = Some (f64_of_Z 500)
  ∧ tsMemoryByteSeconds <$> utActive (tick (snd (UpdateUsage t "e" u (4 * Second)))) !! "e" = Some (f64_of_Z 100).
Proof. by vm_compute. Qed.

(** The usage of a running execution never has network bytes. *)
Lemma running_network_zero outside t ops id now u :
  utUsage (tracker_runs outside ops t) !! id = None →
  map_Forall (λ _ s, tsNetworkBytes s = 0%Z) (utActive t) →
  GetUsage outside (tracker_runs outside ops t) id now = Ok u → ruNetworkBytes u = 0%Z.
Proof.
  intros Hu H E. assert (∀ ops t, map_Forall (λ _ s, tsNetworkBytes s = 0%Z) (utActive t) →
    map_Forall (λ _ s, tsNetworkBytes s = 0%Z) (utActive (tracker_runs outside ops t))) as Hrun.
  { clear. induction ops as [|op ops IH]; intros t Ht; [done|]. apply IH. destruct op; simpl.
    - unfold StartTracking. destruct (utActive t !! id); [done|]. by apply map_Forall_insert_2.
    - unfold UpdateUsage. destruct (utActive t !! id) eqn:E; [|done]. apply map_Forall_insert_2; [|done]. by apply (Ht _ _ E).
    - intros i s Hs. rewrite map_lookup_imap in Hs. destruct (utActive t !! i) eqn:E; [|done]. injection Hs as <-. by apply (Ht _ _ E).
    - unfold StopTracking. destruct (utActive t !! id); [|done]. by apply map_Forall_delete.
    - done. }
  unfold GetUsage in E. rewrite Hu in E. destruct (utActive _ !! id) as [s|] eqn:Es; [|done]. injection E as <-. by apply (Hrun ops t H _ _ Es).
Qed.
