(* ===== verification/UtilityNodes.v ===== *)
(** internal/executor/domain/types/utility_nodes.go: the set, function, wait, date,
    crypto, JSON, math and text nodes.

    The JSON node writes into maps it shares with its input, so its maps are cells
    of a store.  Times with their zones, digests, JSON, regular expressions,
    math.Pow and the texts of floats are parameters. *)

From S2P Require Import Prelude GoValue GoLib GoText Base64 Triggers Conditions LoopNodes Templates Tokens.
From Stdlib Require Import Ascii.

Definition text_param (params : vmap) (k : string) : string := default "" (get_string params k).
Definition fields (l : list (string * value)) : vmap := list_to_map l.

(** ** Set *)

Definition Set_Execute (params input : vmap) : vmap :=
  let values : vmap := match params !! "values" with Some (VObj kvs) => list_to_map kvs | _ => ∅ end in
  values ∪ (if default false (get_bool params "keepExisting") then input else ∅).

Lemma Set_Execute_lookup params input k :
  Set_Execute params input !! k
  = match params !! "values" with
    | Some (VObj kvs) => match (list_to_map kvs : vmap) !! k with
                         | Some v => Some v
                         | None => if default false (get_bool params "keepExisting") then input !! k else None
                         end
    | _ => if default false (get_bool params "keepExisting") then input !! k else None
    end.
Proof.
  unfold Set_Execute. rewrite lookup_union. destruct (params !! "values") as [[]|]; destruct (default false _);
    rewrite ?lookup_empty, ?(left_id_L _ _); try done; by destruct (list_to_map _ !! k), (input !! k).
Qed.

(** ** Function *)

Section function.
Context (fmt_float : spec_float → string) (fmt_time : Z → string).

Definition field_placeholder (k : string) : string := "{{" +:+ k +:+ "}}".
(** [ord] is the order of the iteration over the data. *)
Definition Function_evaluateExpression (expr : string) (data : vmap) (ord : list string) : string :=
  foldl (λ result k, match data !! k with
                     | Some v => replace_all result (field_placeholder k) (sprint fmt_float fmt_time v)
                     | None => result
                     end) expr ord.
(** The returned map: its fields, and its input under "input", which wins over a
    field of that name. *)
Definition Function_Execute (params input : vmap) (ord : list string) : vmap * vmap :=
  let returnField := text_param params "returnField" in
  let returnField := if bool_decide (returnField = "") then "result" else returnField in
  let result := Function_evaluateExpression (text_param params "expression") input ord in
  (if bool_decide (returnField = "input") then ∅ else {[returnField := VStr result]}, input).
End function.

(** ** Wait *)

Definition Millisecond : Z := 1000000.
Definition wait_unit (unit : string) : Z :=
  if bool_decide (unit ∈ ["milliseconds"; "ms"]) then Millisecond
  else if bool_decide (unit ∈ ["seconds"; "s"]) then Second
  else if bool_decide (unit ∈ ["minutes"; "m"]) then Minute
  else if bool_decide (unit ∈ ["hours"; "h"]) then Hour
  else Second.
Definition waitDuration (outside : spec_float → Z) (params : vmap) : Z :=
  let unit := text_param params "unit" in
  wrap64 (to_int64 outside (get_float params "duration") * wait_unit (if bool_decide (unit = "") then "seconds" else unit)).
(** [cancelled] is the error of the context when that is done first. *)
Definition Wait_Execute (outside : spec_float → Z) (fmt_duration : Z → string) (params input : vmap) (cancelled : option string) :
    result (vmap * vmap) :=
  match cancelled with
  | Some e => Err e
  | None => Ok (fields [("waited", VBool true); ("duration", VStr (fmt_duration (waitDuration outside params)))], input)
  end.

(** ** Dates *)

Record Calendar := { caYear : Z; caMonth : Z; caDay : Z; caHour : Z; caMinute : Z; caSecond : Z; caWeekday : string }.

Section dates.
(** A time is an instant, in nanoseconds since 1970, and a zone. *)
Context {zone : Type} (UTC : zone) (LoadLocation : string → option zone).
Context (format : zone → Z → string → string) (calendar : zone → Z → Calendar).
Context (parse : string → string → result (zone * Z)).       (* layout, text *)
Context (outside : spec_float → Z).

Definition RFC3339 : string := "2006-01-02T15:04:05Z07:00".
Definition zero_time : zone * Z := (UTC, (-62135596800 * Second)%Z).
Definition Unix (t : Z) : Z := (t / Second)%Z.
Definition UnixMilli (t : Z) : Z := (t / Millisecond)%Z.
(** [Time.Sub] saturates; [Seconds], [Minutes] and [Hours] add two floats. *)
Definition time_sub (t2 t1 : Z) : Z := clamp64 (t2 - t1).
Definition in_units (d unit : Z) : spec_float :=
  f64_add (f64_of_Z (Z.quot d unit)) (f64_div (f64_of_Z (Z.rem d unit)) (f64_of_Z unit)).
Definition date_or_zero (text : string) : zone * Z := match parse RFC3339 text with Ok t => t | Err _ => zero_time end.
Definition stamps (t : zone * Z) : vmap := fields [("iso", VStr (format t.1 t.2 RFC3339)); ("unix", VInt (Unix t.2))].
Definition add_duration (params : vmap) : Z :=
  let n := to_int64 outside (get_float params "amount") in
  let unit := text_param params "unit" in
  if bool_decide (unit = "seconds") then wrap64 (n * Second)
  else if bool_decide (unit = "minutes") then wrap64 (n * Minute)
  else if bool_decide (unit = "hours") then wrap64 (n * Hour)
  else if bool_decide (unit = "days") then wrap64 (wrap64 (n * 24) * Hour)
  else 0.
Definition DateTime_Execute (params : vmap) (now : Z) : result vmap :=
  let operation := text_param params "operation" in
  let timezone := text_param params "timezone" in
  let loc := if bool_decide (timezone = "") then UTC else default UTC (LoadLocation timezone) in
  if bool_decide (operation = "now") then
    let c := calendar loc now in
    Ok (stamps (loc, now) ∪ fields [("unixMilli", VInt (UnixMilli now)); ("year", VInt (caYear c)); ("month", VInt (caMonth c));
      ("day", VInt (caDay c)); ("hour", VInt (caHour c)); ("minute", VInt (caMinute c)); ("second", VInt (caSecond c));
      ("weekday", VStr (caWeekday c))])
  else if bool_decide (operation = "format") then
    let dateStr := text_param params "date" in
    let t := if bool_decide (dateStr = "") then (loc, now) else date_or_zero dateStr in
    Ok (fields [("formatted", VStr (format t.1 t.2 (text_param params "format")))])
  else if bool_decide (operation = "parse") then
    match parse (text_param params "format") (text_param params "date") with
    | Err e => Err ("failed to parse date: " +:+ e)
    | Ok t => Ok (stamps t)
    end
  else if bool_decide (operation = "add") then Ok (stamps (loc, now + add_duration params)%Z)
  else if bool_decide (operation = "diff") then
    let diff := time_sub (date_or_zero (text_param params "date2")).2 (date_or_zero (text_param params "date1")).2 in
    Ok (fields [("seconds", VFloat (in_units diff Second)); ("minutes", VFloat (in_units diff Minute));
      ("hours", VFloat (in_units diff Hour)); ("days", VFloat (f64_div (in_units diff Hour) (f64_of_Z 24)))])
  else Ok (stamps (loc, now)).
End dates.

(** ** Digests and base64 *)

Section crypto.
Context (hash_hex : string → string → string) (mac_hex : string → string → string → string).

Definition hash_of (algorithm : string) : string := if bool_decide (algorithm ∈ ["md5"; "sha1"; "sha256"; "sha512"]) then algorithm else "sha256".
Definition mac_of (algorithm : string) : string := if bool_decide (algorithm ∈ ["sha1"; "sha256"; "sha512"]) then algorithm else "sha256".
Definition Crypto_Execute (params : vmap) : result vmap :=
  let operation := text_param params "operation" in
  let data := text_param params "data" in
  let algorithm := text_param params "algorithm" in
  if bool_decide (operation = "hash") then
    Ok (fields [("hash", VStr (hash_hex (hash_of algorithm) data)); ("algorithm", VStr algorithm)])
  else if bool_decide (operation = "hmac") then
    Ok (fields [("hmac", VStr (mac_hex (mac_of algorithm) (text_param params "secret") data)); ("algorithm", VStr algorithm)])
  else if bool_decide (operation = "base64Encode") then Ok (fields [("encoded", VStr (EncodeToString data))])
  else if bool_decide (operation = "base64Decode") then
    match DecodeString data with
    | Err e => Err ("failed to decode base64: " +:+ e)
    | Ok decoded => Ok (fields [("decoded", VStr decoded)])
    end
  else Err ("unknown crypto operation: " +:+ operation).

(** What one node encodes another decodes. *)
Lemma base64_nodes_inverse d out :
  Crypto_Execute (fields [("operation", VStr "base64Encode"); ("data", VStr d)]) = Ok out →
  Crypto_Execute (fields [("operation", VStr "base64Decode"); ("data", default VNil (out !! "encoded"))]) = Ok (fields [("decoded", VStr d)]).
Proof.
  intros [= <-]. set (p := fields [("operation", VStr "base64Decode"); _]).
  assert (text_param p "operation" = "base64Decode") as Ho by done. assert (text_param p "data" = EncodeToString d) as Hd by done.
  unfold Crypto_Execute. rewrite Ho, Hd. cbn -[DecodeString EncodeToString fields]. by rewrite DecodeString_Encode.
Qed.
(** The HMAC of an algorithm it does not know, md5 among them, is that of SHA-256
    under the name that was asked for. *)
Lemma hmac_md5_is_sha256 params out :
  text_param params "operation" = "hmac" → text_param params "algorithm" = "md5" → Crypto_Execute params = Ok out →
  out !! "algorithm" = Some (VStr "md5") ∧ out !! "hmac" = Some (VStr (mac_hex "sha256" (text_param params "secret") (text_param params "data"))).
Proof. unfold Crypto_Execute. intros -> ->. cbn. by intros [= <-]. Qed.
End crypto.

(** ** JSON *)

(** Values that refer to maps of the store, and the store: the next location and the
    maps at those before it. *)
Abbreviation loc := nat.
Inductive hval := HVal (v : value) | HMap (l : loc) | HArr (vs : list hval).
Abbreviation hmap := (gmap string hval).
Record heap := { hpNext : loc; hpCells : gmap loc hmap }.
Definition cell (h : heap) (l : loc) : hmap := default ∅ (hpCells h !! l).
Definition alloc (h : heap) (m : hmap) : loc * heap := (hpNext h, {| hpNext := S (hpNext h); hpCells := <[hpNext h := m]> (hpCells h) |}).
Definition store (h : heap) (l : loc) (k : string) (v : hval) : heap :=
  {| hpNext := hpNext h; hpCells := <[l := <[k := v]> (cell h l)]> (hpCells h) |}.
Definition hnil : hval := HVal VNil.

(** [getNestedValue] over the store. *)
Definition heap_step (h : heap) (current : hval) (part : string) : outcome hval :=
  match current with
  | HVal VNil => Ret hnil
  | _ =>
      match cut "["%char part with
      | Some (key, rest) =>
          if bool_decide (rest = "") then Panic slice_panic
          else
            let index := atoi (drop_last rest) in
            match (match current with HMap l => default hnil (cell h l !! key) | v => v end) with
            | HArr arr =>
                if bool_decide (index < Z.of_nat (length arr))%Z then
                  if bool_decide (index < 0)%Z then Panic index_panic else Ret (default hnil (arr !! Z.to_nat index))
                else Ret hnil
            | _ => Ret hnil
            end
      | None => match current with HMap l => Ret (default hnil (cell h l !! part)) | _ => Ret hnil end
      end
  end.
Fixpoint heap_loop (h : heap) (current : hval) (parts : list string) : outcome hval :=
  match parts with
  | [] => Ret current
  | part :: parts' =>
      match heap_step h current part with
      | Ret v => heap_loop h v parts'
      | Panic msg => Panic msg
      | NoFuel => NoFuel
      end
  end.
Definition heap_getNestedValue (h : heap) (data : loc) (path : string) : outcome hval := heap_loop h (HMap data) (split path ".").

(** A part that has no map stays where it is when it has another value. *)
Fixpoint set_loop (h : heap) (current : loc) (parts : list string) (v : hval) : heap :=
  match parts with
  | [] => h
  | [part] => store h current part v
  | part :: rest =>
      match cell h current !! part with
      | None => let '(m, h) := alloc h ∅ in set_loop (store h current part (HMap m)) m rest v
      | Some (HMap m) => set_loop h m rest v
      | Some _ => set_loop h current rest v
      end
  end.
Definition setNestedValue (h : heap) (data : loc) (path : string) (v : hval) : loc * heap :=
  let '(result, h) := alloc h (cell h data) in (result, set_loop h result (split path ".") v).

Inductive JSONOutput := JOFields (m : vmap) | JOValue (v : hval) | JOMap (l : loc).

Section json.
Context (unmarshal : string → result value) (marshal : bool → heap → hval → result string).

Definition hparam (params : hmap) (k : string) : string := match params !! k with Some (HVal (VStr s)) => s | _ => "" end.
Definition JSON_Execute (h : heap) (params : hmap) (input : loc) : outcome (result JSONOutput) * heap :=
  let operation := hparam params "operation" in
  if bool_decide (operation = "parse") then
    (Ret match unmarshal (hparam params "json") with
         | Err e => Err ("failed to parse JSON: " +:+ e)
         | Ok v => Ok (JOFields (fields [("parsed", v)]))
         end, h)
  else if bool_decide (operation = "stringify") then
    let pretty := match params !! "pretty" with Some (HVal (VBool b)) => b | _ => false end in
    (Ret match marshal pretty h (default hnil (params !! "data")) with
         | Err e => Err ("failed to stringify: " +:+ e)
         | Ok s => Ok (JOFields (fields [("json", VStr s)]))
         end, h)
  else if bool_decide (operation = "get") then
    (match heap_getNestedValue h input (hparam params "path") with
     | Ret v => Ret (Ok (JOValue v))
     | Panic m => Panic m
     | NoFuel => NoFuel
     end, h)
  else if bool_decide (operation = "set") then
    let '(l, h) := setNestedValue h input (hparam params "path") (default hnil (params !! "value")) in (Ret (Ok (JOMap l)), h)
  else (Ret (Ok (JOMap input)), h).
End json.

(** *** Setting and getting a field *)

(** The store has its maps below the next location. *)
Definition heap_ok (h : heap) : Prop :=
  ∀ l m, hpCells h !! l = Some m → l < hpNext h ∧ ∀ k l', m !! k = Some (HMap l') → l' < hpNext h.
(** The maps a path leads through, as far as they exist. *)
Fixpoint visited (h : heap) (cur : loc) (parts : list string) : list loc :=
  cur :: match parts with
         | [] | [_] => []
         | p :: rest => match cell h cur !! p with Some (HMap m) => visited h m rest | _ => [] end
         end.
(** What is on the path before its end is a map or nothing. *)
Fixpoint passable (h : heap) (cur : loc) (parts : list string) : Prop :=
  match parts with
  | [] | [_] => True
  | p :: rest => match cell h cur !! p with Some (HMap m) => passable h m rest | Some _ => False | None => True end
  end.

Lemma cell_store_eq h l k v : cell (store h l k v) l = <[k := v]> (cell h l).
Proof. unfold cell at 1. simpl. by rewrite lookup_insert_eq. Qed.
Lemma cell_store_ne h l l' k v : l' ≠ l → cell (store h l k v) l' = cell h l'.
Proof. intros Hne. unfold cell. simpl. by rewrite lookup_insert_ne. Qed.
Lemma cell_alloc_eq h m : cell (alloc h m).2 (hpNext h) = m.
Proof. unfold cell. simpl. by rewrite lookup_insert_eq. Qed.
Lemma cell_alloc_ne h m l : l ≠ hpNext h → cell (alloc h m).2 l = cell h l.
Proof. intros Hne. unfold cell. simpl. by rewrite lookup_insert_ne. Qed.

Lemma heap_ok_ref h l k l' : heap_ok h → cell h l !! k = Some (HMap l') → l' < hpNext h.
Proof. unfold cell. intros Hok. destruct (hpCells h !! l) as [m|] eqn:E; simpl; [|by rewrite lookup_empty]. by apply Hok in E as [_ H]; apply H. Qed.
Lemma heap_ok_alloc h m : heap_ok h → (∀ k l', m !! k = Some (HMap l') → l' < hpNext h) → heap_ok (alloc h m).2.
Proof.
  intros Hok Hm l m' H. simpl in *. apply lookup_insert_Some in H as [[<- <-]|[_ H]].
  - split; [lia|]. intros k l' Hk. apply Hm in Hk. lia.
  - apply Hok in H as [H1 H2]. split; [lia|]. intros k l' Hk. apply H2 in Hk. lia.
Qed.
Lemma heap_ok_store h l k v : heap_ok h → l < hpNext h → (∀ l', v = HMap l' → l' < hpNext h) → heap_ok (store h l k v).
Proof.
  intros Hok Hl Hv i m H. simpl in *. apply lookup_insert_Some in H as [[<- <-]|[_ H]]; [|by apply Hok in H].
  split; [done|]. intros k' l' Hk. apply lookup_insert_Some in Hk as [[_ Hk]|[_ Hk]]; [by apply Hv|by apply (heap_ok_ref h l k')].
Qed.

(** Where the path has no map yet: a new one in its place. *)
Definition descend (h : heap) (cur : loc) (p : string) : heap := store (alloc h ∅).2 cur p (HMap (hpNext h)).
Lemma descend_ok h cur p : heap_ok h → cur < hpNext h → heap_ok (descend h cur p).
Proof.
  intros Hok Hc. apply heap_ok_store; [|simpl; lia|intros l' [= <-]; simpl; lia]. apply heap_ok_alloc; [done|]. intros k l'. by rewrite lookup_empty.
Qed.
Lemma descend_new h cur p : cur < hpNext h → cell (descend h cur p) (hpNext h) = ∅.
Proof. intros Hc. unfold descend. rewrite cell_store_ne by lia. apply cell_alloc_eq. Qed.
Lemma descend_at h cur p : cur < hpNext h → cell (descend h cur p) cur !! p = Some (HMap (hpNext h)).
Proof. intros Hc. unfold descend. by rewrite cell_store_eq, lookup_insert_eq. Qed.
Lemma visited_empty h l parts : cell h l = ∅ → visited h l parts = [l].
Proof. intros E. destruct parts as [|p [|q parts]]; simpl; [done..|]. by rewrite E, lookup_empty. Qed.
Lemma passable_empty h l parts : cell h l = ∅ → passable h l parts.
Proof. intros E. destruct parts as [|p [|q parts]]; simpl; [done..|]. by rewrite E, lookup_empty. Qed.

Lemma visited_cons h cur p q parts :
  visited h cur (p :: q :: parts) = cur :: match cell h cur !! p with Some (HMap m) => visited h m (q :: parts) | _ => [] end.
Proof. done. Qed.
Lemma passable_cons h cur p q parts :
  passable h cur (p :: q :: parts) = match cell h cur !! p with Some (HMap m) => passable h m (q :: parts) | Some _ => False | None => True end.
Proof. done. Qed.
Lemma set_loop_cons h cur p q parts v :
  set_loop h cur (p :: q :: parts) v
  = match cell h cur !! p with
    | None => set_loop (descend h cur p) (hpNext h) (q :: parts) v
    | Some (HMap m) => set_loop h m (q :: parts) v
    | Some _ => set_loop h cur (q :: parts) v
    end.
Proof. done. Qed.

(** The maps off the path stay as they are. *)
Lemma set_loop_frame parts h cur v l :
  heap_ok h → cur < hpNext h → passable h cur parts → l < hpNext h → l ∉ visited h cur parts → cell (set_loop h cur parts v) l = cell h l.
Proof.
  revert h cur. induction parts as [|p [|q parts] IH]; intros h cur Hok Hc Hp Hl Hv; [done|..].
  - cbn in *. rewrite cell_store_ne by set_solver. done.
  - rewrite visited_cons in Hv. rewrite passable_cons in Hp. rewrite set_loop_cons. destruct (cell h cur !! p) as [[x|m|a]|] eqn:E; [done| |done|].
    + apply IH; [done|by eapply heap_ok_ref|done|done|set_solver].
    + rewrite IH.
      * unfold descend. rewrite cell_store_ne by set_solver. apply cell_alloc_ne. lia.
      * by apply descend_ok.
      * simpl. lia.
      * by apply passable_empty, descend_new.
      * simpl. lia.
      * rewrite visited_empty by by apply descend_new. rewrite list_elem_of_singleton. lia.
Qed.

Lemma heap_step_map h l p : cut "["%char p = None → heap_step h (HMap l) p = Ret (default hnil (cell h l !! p)).
Proof. intros E. unfold heap_step. by rewrite E. Qed.
(** Reading the path gives what was written there. *)
Lemma set_loop_get parts h cur v :
  parts ≠ [] → Forall (λ p, cut "["%char p = None) parts → heap_ok h → cur < hpNext h → passable h cur parts → NoDup (visited h cur parts) →
  heap_loop (set_loop h cur parts v) (HMap cur) parts = Ret v.
Proof.
  revert h cur. induction parts as [|p [|q parts] IH]; intros h cur Hne Hcut Hok Hc Hp Hv; [done|..].
  - apply Forall_cons in Hcut as [Hcut _]. cbn [heap_loop set_loop]. rewrite heap_step_map by done. by rewrite cell_store_eq, lookup_insert_eq.
  - apply Forall_cons in Hcut as [Hcut Hcuts]. rewrite visited_cons in Hv. rewrite passable_cons in Hp. rewrite set_loop_cons.
    change (heap_loop ?h ?c (p :: ?r)) with (match heap_step h c p with Ret v => heap_loop h v r | Panic msg => Panic msg | NoFuel => NoFuel end).
    rewrite heap_step_map by done. destruct (cell h cur !! p) as [[x|m|a]|] eqn:E; [done| |done|].
    + apply NoDup_cons in Hv as [Hn Hv]. rewrite set_loop_frame, E; [|done|by eapply heap_ok_ref|done|done|done].
      apply IH; [done|done|done|by eapply heap_ok_ref|done|done].
    + pose proof (descend_new h cur p Hc) as Hn. rewrite set_loop_frame, descend_at;
        [|done|by apply descend_ok|simpl; lia|by apply passable_empty|simpl; lia|rewrite visited_empty, list_elem_of_singleton by done; lia].
      apply IH; [done|done|by apply descend_ok|simpl; lia|by apply passable_empty|]. rewrite visited_empty by done. apply NoDup_singleton.
Qed.

(** A copy at a new location changes no path through the old ones. *)
Lemma alloc_paths parts h m l :
  heap_ok h → l < hpNext h →
  visited (alloc h m).2 l parts = visited h l parts ∧ passable (alloc h m).2 l parts = passable h l parts ∧ Forall (λ i, i < hpNext h) (visited h l parts).
Proof.
  intros Hok. revert l. induction parts as [|p [|q parts] IH]; intros l Hl; [split_and!; [done..|by apply Forall_singleton]..|].
  rewrite !visited_cons, !passable_cons, cell_alloc_ne by lia.
  destruct (cell h l !! p) as [[x|m'|a]|] eqn:E; try (split_and!; [done..|by apply Forall_singleton]).
  destruct (IH m') as (-> & -> & H); [by eapply heap_ok_ref|]. split_and!; [done..|by apply Forall_cons].
Qed.
Lemma copy_paths parts h data :
  heap_ok h → data < hpNext h →
  let h1 := (alloc h (cell h data)).2 in
  visited h1 (hpNext h) parts = hpNext h :: tail (visited h data parts) ∧ passable h1 (hpNext h) parts = passable h data parts.
Proof.
  intros Hok Hd h1. destruct parts as [|p [|q parts]]; [done..|]. subst h1. rewrite !visited_cons, !passable_cons, cell_alloc_eq.
  destruct (cell h data !! p) as [[x|m|a]|] eqn:E; [done| |done..].
  destruct (alloc_paths (q :: parts) h (cell h data) m) as (-> & -> & _); [done|by eapply heap_ok_ref|done].
Qed.
(** The other fields of the first map. *)
Lemma set_loop_first p parts h cur v k :
  heap_ok h → cur < hpNext h → passable h cur (p :: parts) → NoDup (visited h cur (p :: parts)) → k ≠ p →
  cell (set_loop h cur (p :: parts) v) cur !! k = cell h cur !! k.
Proof.
  intros Hok Hc Hp Hv Hk. destruct parts as [|q parts].
  - cbn [set_loop]. by rewrite cell_store_eq, lookup_insert_ne.
  - rewrite passable_cons in Hp. rewrite visited_cons in Hv. rewrite set_loop_cons. destruct (cell h cur !! p) as [[x|m|a]|] eqn:E; [done| |done|].
    + apply NoDup_cons in Hv as [Hn _]. by rewrite set_loop_frame by (done || by eapply heap_ok_ref).
    + pose proof (descend_new h cur p Hc) as Hn. rewrite set_loop_frame;
        [|by apply descend_ok|simpl; lia|by apply passable_empty|simpl; lia|rewrite visited_empty, list_elem_of_singleton by done; lia].
      unfold descend. rewrite cell_store_eq, lookup_insert_ne by done. by rewrite cell_alloc_ne by lia.
Qed.

(** A map on the path stays in its place. *)
Lemma set_loop_through p q parts h cur v m :
  heap_ok h → cur < hpNext h → passable h cur (p :: q :: parts) → NoDup (visited h cur (p :: q :: parts)) → cell h cur !! p = Some (HMap m) →
  cell (set_loop h cur (p :: q :: parts) v) cur !! p = Some (HMap m).
Proof.
  intros Hok Hc Hp Hv E. rewrite passable_cons, E in Hp. rewrite visited_cons, E in Hv. rewrite set_loop_cons, E.
  apply NoDup_cons in Hv as [Hn _]. by rewrite set_loop_frame by (done || by eapply heap_ok_ref).
Qed.
Lemma split_nonempty s : split s "." ≠ [].
Proof. unfold split. rewrite bool_decide_false by done. by destruct (split_at _ _ _). Qed.

(** The JSON node sets a field: in data without cycles, along a path that meets
    maps or nothing before its end, the returned map has the value at the path and
    the other fields of the input, and the input's own map and every map off the path
    are unchanged.  The maps inside the input that the path leads through are not
    copied but changed in place: when there is one, the input has the value at the
    path too. *)
Lemma setNestedValue_correct h data path v result h' :
  heap_ok h → data < hpNext h → Forall (λ p, cut "["%char p = None) (split path ".") →
  passable h data (split path ".") → NoDup (visited h data (split path ".")) → setNestedValue h data path v = (result, h') →
  heap_getNestedValue h' result path = Ret v
  ∧ (∀ k, head (split path ".") ≠ Some k → cell h' result !! k = cell h data !! k)
  ∧ (∀ l, l < hpNext h → l ∉ tail (visited h data (split path ".")) → cell h' l = cell h l)
  ∧ (1 < length (split path ".") → (∃ p m, head (split path ".") = Some p ∧ cell h data !! p = Some (HMap m)) →
     heap_getNestedValue h' data path = Ret v).
Proof.
  intros Hok Hd Hcut Hp Hv E. unfold heap_getNestedValue. assert (split path "." ≠ []) as Hne by apply split_nonempty.
  unfold setNestedValue in E. simpl in E. injection E as <- <-. set (h1 := (alloc h (cell h data)).2). set (parts := split path ".") in *.
  change {| hpNext := _; hpCells := _ |} with h1.
  destruct (copy_paths parts h data Hok Hd) as [Ev Ep]. fold h1 in Ev, Ep. destruct (alloc_paths parts h (cell h data) data Hok Hd) as (_ & _ & Hlt).
  assert (heap_ok h1) as Hok1 by (apply heap_ok_alloc; [done|]; intros k l'; by apply heap_ok_ref).
  assert (NoDup (visited h1 (hpNext h) parts)) as Hv1.
  { rewrite Ev. destruct parts as [|p parts]; [done|]. assert (visited h data (p :: parts) = data :: tail (visited h data (p :: parts))) as Ed by done.
    rewrite Ed in Hv, Hlt. apply NoDup_cons in Hv as [_ Hv]. apply Forall_cons in Hlt as [_ Hlt]. apply NoDup_cons. split; [|done].
    intros Hin. apply (proj1 (Forall_forall _ _) Hlt) in Hin. lia. }
  assert (∀ l, l < hpNext h → l ∉ tail (visited h data parts) → cell (set_loop h1 (hpNext h) parts v) l = cell h l) as Hframe.
  { intros l Hl Hn. rewrite set_loop_frame; [|done|simpl; lia|by rewrite Ep|simpl; lia|rewrite Ev; apply not_elem_of_cons; split; [lia|done]].
    apply cell_alloc_ne. lia. }
  assert (heap_loop (set_loop h1 (hpNext h) parts v) (HMap (hpNext h)) parts = Ret v) as Hget
    by (apply set_loop_get; [done|done|done|simpl; lia|by rewrite Ep|done]).
  split_and!; [done| |done|].
  - intros k Hk. destruct parts as [|p parts]; [done|]. rewrite set_loop_first; [unfold h1; by rewrite cell_alloc_eq|done|simpl; lia|by rewrite Ep|done|by intros ->].
  - intros Hlen (p & m & Hh & Hm). destruct parts as [|p' [|q parts]]; [done|simpl in Hlen; lia|]. injection Hh as ->.
    apply Forall_cons in Hcut as [Hcut _].
    assert (cell (set_loop h1 (hpNext h) (p :: q :: parts) v) data !! p = Some (HMap m)) as E1
      by (rewrite Hframe; [done|done|rewrite visited_cons in Hv; by apply NoDup_cons in Hv as [Hv _]]).
    cbn [heap_loop] in Hget |- *. rewrite heap_step_map, E1 by done. rewrite heap_step_map in Hget by done.
    rewrite (set_loop_through p q parts h1 (hpNext h) v m) in Hget; [done|done|simpl; lia|by rewrite Ep|done|].
    unfold h1. by rewrite cell_alloc_eq.
Qed.

(** ** Math *)

(** The rounding of a float to an integral one: [mag] gives the magnitude from the
    integer part, the rest and its unit.  The sign stays, also that of a zero. *)
Definition f64_integral (mag : bool → Z → Z → Z → Z) (f : spec_float) : spec_float :=
  match f with
  | S754_finite s m (Zneg p) =>
      let d := (2 ^ Zpos p)%Z in
      let z := mag s (Zpos m / d)%Z (Zpos m mod d)%Z d in
      if bool_decide (z = 0)%Z then S754_zero s else binary_normalize 53 1024 (if s then - z else z)%Z 0 false
  | _ => f
  end.
Definition f64_floor : spec_float → spec_float := f64_integral (λ s q r _, if s && negb (bool_decide (r = 0)%Z) then q + 1 else q)%Z.
Definition f64_ceil : spec_float → spec_float := f64_integral (λ s q r _, if negb s && negb (bool_decide (r = 0)%Z) then q + 1 else q)%Z.
Definition f64_round : spec_float → spec_float := f64_integral (λ _ q r d, if bool_decide (d ≤ 2 * r)%Z then q + 1 else q)%Z.
(** [math.Mod] is exact, with the sign of its first argument. *)
Definition f64_mod (x y : spec_float) : spec_float :=
  match x, y with
  | S754_nan, _ | _, S754_nan | S754_infinity _, _ | _, S754_zero _ => S754_nan
  | S754_zero _, _ | _, S754_infinity _ => x
  | S754_finite s mx ex, S754_finite _ my ey =>
      let e := Z.min ex ey in
      let r := ((Zpos mx * 2 ^ (ex - e)) mod (Zpos my * 2 ^ (ey - e)))%Z in
      if bool_decide (r = 0)%Z then S754_zero s else binary_normalize 53 1024 (if s then - r else r)%Z e false
  end.
Definition signbit (f : spec_float) : bool :=
  match f with S754_zero s | S754_infinity s | S754_finite s _ _ => s | S754_nan => false end.
Definition is_nan (f : spec_float) : bool := match f with S754_nan => true | _ => false end.
Definition is_inf (s : bool) (f : spec_float) : bool := match f with S754_infinity s' => Bool.eqb s s' | _ => false end.
Definition f64_min (x y : spec_float) : spec_float :=
  if is_inf true x || is_inf true y then S754_infinity true
  else if is_nan x || is_nan y then S754_nan
  else if is_zero x && SFeqb x y then (if signbit x then x else y)
  else if f64_ltb x y then x else y.
Definition f64_max (x y : spec_float) : spec_float :=
  if is_inf false x || is_inf false y then S754_infinity false
  else if is_nan x || is_nan y then S754_nan
  else if is_zero x && SFeqb x y then (if signbit x then y else x)
  else if f64_ltb y x then x else y.

Section math.
(** [parse_value s] is the number strconv.ParseFloat returns, with an error or
    without. *)
Context (pow : spec_float → spec_float → spec_float) (parse_value : string → spec_float).

Definition operand (params : vmap) (k : string) : spec_float :=
  match params !! k with
  | Some (VFloat f) => f
  | Some (VInt z) => f64_of_Z z
  | Some (VStr s) => parse_value s
  | _ => S754_zero false
  end.
Definition Math_Execute (params : vmap) (nanos : Z) : result vmap :=
  let operation := text_param params "operation" in
  let a := operand params "a" in
  let b := operand params "b" in
  let answer (f : spec_float) := Ok (fields [("result", VFloat f)]) in
  if bool_decide (operation ∈ ["add"; "+"]) then answer (f64_add a b)
  else if bool_decide (operation ∈ ["subtract"; "-"]) then answer (f64_sub a b)
  else if bool_decide (operation ∈ ["multiply"; "*"]) then answer (f64_mul a b)
  else if bool_decide (operation ∈ ["divide"; "/"]) then if is_zero b then Err "division by zero" else answer (f64_div a b)
  else if bool_decide (operation ∈ ["modulo"; "%"]) then answer (f64_mod a b)
  else if bool_decide (operation ∈ ["power"; "^"]) then answer (pow a b)
  else if bool_decide (operation = "sqrt") then answer (SFsqrt 53 1024 a)
  else if bool_decide (operation = "abs") then answer (SFabs a)
  else if bool_decide (operation = "ceil") then answer (f64_ceil a)
  else if bool_decide (operation = "floor") then answer (f64_floor a)
  else if bool_decide (operation = "round") then answer (f64_round a)
  else if bool_decide (operation = "min") then answer (f64_min a b)
  else if bool_decide (operation = "max") then answer (f64_max a b)
  else if bool_decide (operation = "random") then
    answer (f64_floor (f64_add a (f64_div (f64_mul (f64_add (f64_sub b a) (f64_of_Z 1)) (f64_of_Z (Z.rem nanos 1000))) (f64_of_Z 1000))))
  else Err ("unknown math operation: " +:+ operation).
End math.

(** ** Text *)

(** strings.ReplaceAll: an empty text is found before every rune and at the end. *)
Definition ReplaceAll (s old new : string) : string :=
  if bool_decide (old = "") then String.concat "" ((λ r, new +:+ r) <$> split s "") +:+ new else replace_all s old new.

Section text.
Context (fmt_float : spec_float → string) (fmt_time : Z → string) (outside : spec_float → Z).
Context (find_all : string → string → result (list string)).      (* pattern, text *)

(** [text[i:j]]. *)
Definition slice_text (s : string) (i j : Z) : outcome string :=
  if bool_decide (0 ≤ i ≤ j)%Z && bool_decide (j ≤ Z.of_nat (String.length s))%Z
  then Ret (String.substring (Z.to_nat i) (Z.to_nat (j - i)) s) else Panic slice_panic.
Definition Text_Execute (params : vmap) : outcome (result config) :=
  let operation := text_param params "operation" in
  let text := text_param params "text" in
  let result (v : cvalue) : outcome (result config) := Ret (Ok {["result" := v]}) in
  if bool_decide (operation = "uppercase") then result (Dyn (VStr (to_upper text)))
  else if bool_decide (operation = "lowercase") then result (Dyn (VStr (to_lower text)))
  else if bool_decide (operation = "trim") then result (Dyn (VStr (trim_space text)))
  else if bool_decide (operation = "split") then result (Strs (split text (text_param params "separator")))
  else if bool_decide (operation = "join") then
    let items := match params !! "items" with Some (VArr vs) => vs | _ => [] end in
    result (Dyn (VStr (String.concat (text_param params "separator") (sprint fmt_float fmt_time <$> items))))
  else if bool_decide (operation = "replace") then result (Dyn (VStr (ReplaceAll text (text_param params "old") (text_param params "new"))))
  else if bool_decide (operation = "substring") then
    let start := get_float params "start" in
    let e := to_int64 outside (f64_add start (get_float params "length")) in
    let n := Z.of_nat (String.length text) in
    match slice_text text (to_int64 outside start) (if bool_decide (n < e)%Z then n else e) with
    | Ret s => result (Dyn (VStr s))
    | Panic m => Panic m
    | NoFuel => NoFuel
    end
  else if bool_decide (operation = "length") then result (Dyn (VInt (Z.of_nat (String.length text))))
  else if bool_decide (operation = "contains") then result (Dyn (VBool (contains text (text_param params "search"))))
  else if bool_decide (operation = "regex") then
    match find_all (text_param params "pattern") text with
    | Err e => Ret (Err ("invalid regex: " +:+ e))
    | Ok l => Ret (Ok (<["count" := Dyn (VInt (Z.of_nat (length l)))]> {["matches" := Strs l]}))
    end
  else result (Dyn (VStr text)).
End text.

(** *** Splitting and joining *)

Fixpoint sdrop (k : nat) (s : string) : string := match k, s with S k, String _ s => sdrop k s | _, _ => s end.
Lemma prefix_sdrop p s : String.prefix p s = true → s = p +:+ sdrop (String.length p) s.
Proof.
  revert s. induction p as [|c p IH]; intros s; [done|]. destruct s as [|d s]; [done|]. simpl. destruct (ascii_dec c d) as [<-|]; [|done].
  intros H. change (String c s = String c (p +:+ sdrop (String.length p) s)). f_equal. by apply IH.
Qed.
Lemma concat_cons sep x y l : String.concat sep (x :: y :: l) = x +:+ sep +:+ String.concat sep (y :: l).
Proof. done. Qed.
Lemma concat_head sep c x l : String.concat sep (String c x :: l) = String c (String.concat sep (x :: l)).
Proof. by destruct l. Qed.
Lemma concat_split_at sep s k :
  sep ≠ "" → String.concat sep ((split_at sep s k).1 :: (split_at sep s k).2) = sdrop k s.
Proof.
  intros Hs. revert k. induction s as [|c s IH]; intros k; [by destruct k|]. destruct k as [|k]; [|apply IH]. cbn [split_at].
  destruct (String.prefix sep (String c s)) eqn:E.
  - specialize (IH (String.length sep - 1)). destruct (split_at sep s _) as [h t]. simpl fst in *. simpl snd in *.
    rewrite concat_cons, IH. apply prefix_sdrop in E. destruct sep as [|d sep]; [done|]. simpl in E |- *.
    rewrite Nat.sub_0_r. by rewrite <- E.
  - specialize (IH 0). destruct (split_at sep s 0) as [h t]. simpl fst in *. simpl snd in *. rewrite concat_head, IH. by destruct s.
Qed.
Lemma concat_explode s w : String.concat "" ((explode s w).1 :: (explode s w).2) = s.
Proof.
  revert w. induction s as [|c s IH]; intros w; [done|]. cbn [explode]. destruct w as [|[|w]].
  - destruct s as [|d s]; [done|]. specialize (IH (rune_size (String d s))). destruct (explode _ _) as [h t]. cbn [fst snd] in *. by rewrite concat_cons, IH.
  - destruct s as [|d s]; [done|]. specialize (IH (rune_size (String d s))). destruct (explode _ _) as [h t]. cbn [fst snd] in *. by rewrite concat_cons, IH.
  - specialize (IH (S w)). destruct (explode s _) as [h t]. simpl fst in *. simpl snd in *. by rewrite concat_head, IH.
Qed.
Lemma join_split s sep : String.concat sep (split s sep) = s.
Proof.
  unfold split. case_bool_decide as E.
  - subst. destruct s as [|c s]; [done|]. pose proof (concat_explode (String c s) (rune_size (String c s))) as H. by destruct (explode _ _).
  - pose proof (concat_split_at sep s 0 E) as H. destruct (split_at sep s 0). cbn [fst snd] in H. rewrite H. by destruct s.
Qed.

(** The pieces one node gives, as an array of texts, another joins to the text,
    with any separator, the empty one included. *)
Lemma split_join_nodes fmt_float fmt_time outside find_all text sep out pieces :
  Text_Execute fmt_float fmt_time outside find_all (fields [("operation", VStr "split"); ("text", VStr text); ("separator", VStr sep)])
    = Ret (Ok out) → out !! "result" = Some (Strs pieces) →
  Text_Execute fmt_float fmt_time outside find_all
    (fields [("operation", VStr "join"); ("items", VArr (VStr <$> pieces)); ("separator", VStr sep)]) = Ret (Ok {["result" := Dyn (VStr text)]}).
Proof.
  intros E Hp. change (Ret (Ok ({["result" := Strs (split text sep)]} : config)) = Ret (Ok out)) in E.
  assert (out = {["result" := Strs (split text sep)]}) as -> by congruence. rewrite lookup_singleton_eq in Hp. injection Hp as <-.
  change (Ret (Ok ({["result" := Dyn (VStr (String.concat sep (sprint fmt_float fmt_time <$> (VStr <$> split text sep))))]} : config))
    = Ret (Ok {["result" := Dyn (VStr text)]})).
  rewrite <- list_fmap_compose. replace (_ <$> split text sep) with (split text sep); [by rewrite join_split|].
  symmetry. etrans; [|apply list_fmap_id]. by apply list_fmap_ext.
Qed.

(** ** Examples *)

(** Data with a nested map: [{"user": {"name": "Ann"}, "n": 1}] at location 1. *)
Definition demo_store : heap :=
  {| hpNext := 2; hpCells := {[0 := {["name" := HVal (VStr "Ann")]}; 1 := {["user" := HMap 0; "n" := HVal (VInt 1)]}]} |}.
Lemma demo_store_ok : heap_ok demo_store.
Proof.
  intros l m H. cbn in H. apply lookup_insert_Some in H as [[<- <-]|[_ H]].
  - split; [cbn; lia|]. intros k l' Hk. apply lookup_singleton_Some in Hk as [_ Hk]. discriminate Hk.
  - apply lookup_singleton_Some in H as [<- <-]. split; [cbn; lia|]. intros k l' Hk. apply lookup_insert_Some in Hk as [[_ Hk]|[_ Hk]].
    + injection Hk as <-. cbn. lia.
    + apply lookup_singleton_Some in Hk as [_ Hk]. discriminate Hk.
Qed.

(** The name is set in the result and, since the map of the user is shared, in the
    input. *)
Lemma setNestedValue_correct_witness :
  let '(result, h) := setNestedValue demo_store 1 "user.name" (HVal (VStr "Bob")) in
  heap_getNestedValue h result "user.name" = Ret (HVal (VStr "Bob")) ∧ heap_getNestedValue h 1 "user.name" = Ret (HVal (VStr "Bob")).
Proof.
  destruct (setNestedValue demo_store 1 "user.name" (HVal (VStr "Bob"))) as [result h] eqn:E.
  destruct (setNestedValue_correct demo_store 1 "user.name" (HVal (VStr "Bob")) result h) as (H1 & _ & _ & H4).
  - exact demo_store_ok.
  - cbn. lia.
  - repeat (apply Forall_cons; split; [reflexivity|]). apply Forall_nil. exact I.
  - vm_compute. exact I.
  - change (NoDup [1; 0]). repeat (apply NoDup_cons; split; [set_solver|]). apply NoDup_nil. exact I.
  - exact E.
  - split; [exact H1|]. apply H4; [apply Nat.ltb_lt; reflexivity|]. exists "user", 0. split; reflexivity.
Defined.

(** ** Where the nodes do not do what they say *)

(** A value in the way of a path: the field is set beside it, not below it. *)
Lemma set_beside_the_path :
  let '(result, h) := setNestedValue demo_store 1 "n.deep" (HVal (VInt 2)) in
  heap_getNestedValue h result "n.deep" = Ret hnil ∧ heap_getNestedValue h result "deep" = Ret (HVal (VInt 2)).
Proof. by vm_compute. Qed.
(** A value that has a placeholder: the result depends on the order of the map. *)
Lemma expression_order_matters :
  let data := fields [("a", VStr "{{b}}"); ("b", VStr "x")] in
  let run := Function_evaluateExpression (λ _, "") (λ _, "") "{{a}}" data in
  run ["a"; "b"] = "x" ∧ run ["b"; "a"] = "{{b}}".
Proof. by vm_compute. Qed.
(** Half a second, and half an hour, are no time. *)
Lemma fractions_not_waited unit :
  waitDuration (λ _, 0%Z) (fields [("duration", VFloat f64_half); ("unit", VStr unit)]) = 0%Z.
Proof. reflexivity. Qed.
(** A start beyond the text panics. *)
Lemma substring_beyond_panics fmt_float fmt_time find_all :
  Text_Execute fmt_float fmt_time (λ _, 0%Z) find_all
    (fields [("operation", VStr "substring"); ("text", VStr "abc"); ("start", VFloat (f64_of_Z 5)); ("length", VFloat (f64_of_Z 1))])
  = Panic slice_panic.
Proof. reflexivity. Qed.
(** Operands that are no numbers count as what their parse leaves, without an error. *)
Lemma operands_not_checked pow :
  Math_Execute pow (λ _, S754_zero false) (fields [("operation", VStr "add"); ("a", VStr "abc"); ("b", VInt 2)]) 0
  = Ok (fields [("result", VFloat (f64_of_Z 2))]).
Proof. by vm_compute. Qed.
Example math_examples :
  f64_floor (f64_div (f64_of_Z (-7)) (f64_of_Z 2)) = f64_of_Z (-4) ∧ f64_ceil (f64_div (f64_of_Z 7) (f64_of_Z 2)) = f64_of_Z 4
  ∧ f64_round (f64_div (f64_of_Z (-5)) (f64_of_Z 2)) = f64_of_Z (-3) ∧ f64_mod (f64_of_Z (-7)) (f64_of_Z 3) = f64_of_Z (-1)
  ∧ f64_round (f64_div (f64_of_Z (-1)) (f64_of_Z 4)) = S754_zero true.
Proof. by vm_compute. Qed.
