(* ===== verification/Projections.v ===== *)
(** pkg/cqrs/projection.go: read models that follow the events of workflows and
    executions, and their manager.

    The decoder of payloads is a parameter.  A payload that lacks a field the code
    asserts makes it panic. *)

From S2P Require Import Prelude GoValue EventStore WorkflowRepo.
From stdpp Require Import sorting.

(** ** The views *)

Record WorkflowListView := {
  vwID : string;
  vwName : string;
  vwDescription : string;
  vwUserID : string;
  vwTeamID : string;
  vwStatus : string;
  vwIsActive : bool;
  vwExecutionCount : Z;
  vwLastExecutedAt : option Z;
  vwSuccessRate : spec_float;
  vwAverageExecutionTime : Z;
  vwTags : string;
  vwCreatedAt : option Z;
  vwUpdatedAt : option Z
}.
Abbreviation views := (gmap string WorkflowListView).
Definition set_view (v : WorkflowListView) (name description status : string) (active : bool) (updated : option Z) : WorkflowListView :=
  {| vwID := vwID v; vwName := name; vwDescription := description; vwUserID := vwUserID v; vwTeamID := vwTeamID v; vwStatus := status;
     vwIsActive := active; vwExecutionCount := vwExecutionCount v; vwLastExecutedAt := vwLastExecutedAt v;
     vwSuccessRate := vwSuccessRate v; vwAverageExecutionTime := vwAverageExecutionTime v; vwTags := vwTags v;
     vwCreatedAt := vwCreatedAt v; vwUpdatedAt := updated |}.
Definition set_stats (v : WorkflowListView) (count : Z) (last : option Z) (average : Z) (updated : option Z) : WorkflowListView :=
  {| vwID := vwID v; vwName := vwName v; vwDescription := vwDescription v; vwUserID := vwUserID v; vwTeamID := vwTeamID v;
     vwStatus := vwStatus v; vwIsActive := vwIsActive v; vwExecutionCount := count; vwLastExecutedAt := last;
     vwSuccessRate := vwSuccessRate v; vwAverageExecutionTime := average; vwTags := vwTags v; vwCreatedAt := vwCreatedAt v;
     vwUpdatedAt := updated |}.

(** What a handler gives: an error and the views, or a panic. *)
Abbreviation handled := (outcome (option string * views)).
Definition as_handled (t : views) (r : result views) : handled :=
  match r with Ok t' => Ret (None, t') | Err e => Ret (Some e, t) end.
Definition update_view (t : views) (id : string) (f : WorkflowListView → WorkflowListView) (fail : db_fail) : handled :=
  as_handled t (try fail "UPDATE workflow_list_view" (Ok (alter f id t))).
Definition missing_field : string := "interface conversion: interface {} is nil".

Section projections.
Context (decode : string → option vmap) (outside : spec_float → Z).

(** The payload of an event, or the error of the decoder. *)
Definition with_payload (t : views) (e : Event) (k : vmap → handled) : handled :=
  match decode (evPayload e) with None => Ret (Some "invalid JSON", t) | Some p => k p end.
(** [p[k].(string)] without a check. *)
Definition assert_string (p : vmap) (k : string) (f : string → handled) : handled :=
  match get_string p k with Some s => f s | None => Panic missing_field end.
Definition getStringValue (p : vmap) (k : string) : string := default "" (get_string p k).

(** *** The list of workflows *)

Definition new_view (e : Event) (name description : string) (now : Z) : WorkflowListView :=
  {| vwID := evAggregateID e; vwName := name; vwDescription := description; vwUserID := evUserID e; vwTeamID := "";
     vwStatus := "inactive"; vwIsActive := false; vwExecutionCount := 0; vwLastExecutedAt := None; vwSuccessRate := S754_zero false;
     vwAverageExecutionTime := 0; vwTags := ""; vwCreatedAt := Some (default now (evTimestamp e));
     vwUpdatedAt := Some (default now (evTimestamp e)) |}.
Definition handleWorkflowCreated (t : views) (e : Event) (now : Z) (fail : db_fail) : handled :=
  with_payload t e (λ p, assert_string p "name" (λ name,
    let v := new_view e name (getStringValue p "description") now in
    as_handled t (try fail "INSERT workflow_list_view"
                    (if bool_decide (is_Some (t !! vwID v)) then Err duplicate_key else Ok (<[vwID v := v]> t))))).
Definition handleWorkflowUpdated (t : views) (e : Event) (fail : db_fail) : handled :=
  with_payload t e (λ p,
    update_view t (evAggregateID e)
      (λ v, set_view v (default (vwName v) (get_string p "name")) (default (vwDescription v) (get_string p "description"))
              (vwStatus v) (vwIsActive v) (evTimestamp e)) fail).
Definition handleWorkflowDeleted (t : views) (e : Event) (fail : db_fail) : handled :=
  as_handled t (try fail "DELETE workflow_list_view" (Ok (delete (evAggregateID e) t))).
Definition handleWorkflowActivated (t : views) (e : Event) (fail : db_fail) : handled :=
  update_view t (evAggregateID e) (λ v, set_view v (vwName v) (vwDescription v) "active" true (evTimestamp e)) fail.
Definition handleWorkflowDeactivated (t : views) (e : Event) (fail : db_fail) : handled :=
  update_view t (evAggregateID e) (λ v, set_view v (vwName v) (vwDescription v) "inactive" false (evTimestamp e)) fail.
Definition WorkflowList_Handle (t : views) (e : Event) (now : Z) (fail : db_fail) : handled :=
  if bool_decide (evType e = "WorkflowCreated") then handleWorkflowCreated t e now fail
  else if bool_decide (evType e = "WorkflowUpdated") then handleWorkflowUpdated t e fail
  else if bool_decide (evType e = "WorkflowDeleted") then handleWorkflowDeleted t e fail
  else if bool_decide (evType e = "WorkflowActivated") then handleWorkflowActivated t e fail
  else if bool_decide (evType e = "WorkflowDeactivated") then handleWorkflowDeactivated t e fail
  else Ret (None, t).
Definition WorkflowList_Reset (t : views) (fail : db_fail) : result views := try fail "TRUNCATE workflow_list_view" (Ok ∅).

(** *** Statistics of executions *)

Definition handleExecutionStarted (t : views) (e : Event) (now : Z) (fail : db_fail) : handled :=
  with_payload t e (λ p, assert_string p "workflow_id" (λ id,
    update_view t id (λ v, set_stats v (vwExecutionCount v + 1) (evTimestamp e) (vwAverageExecutionTime v) (Some now)) fail)).
(** The mean with the time of one more execution, in int64; the count of a row is
    below the bound of its column. *)
Definition new_average (v : WorkflowListView) (time : Z) : Z :=
  Z.quot (wrap64 (wrap64 (vwAverageExecutionTime v * vwExecutionCount v) + time)) (vwExecutionCount v + 1).
Definition Stats_handleExecutionCompleted (t : views) (e : Event) (now : Z) (fail : db_fail) : handled :=
  with_payload t e (λ p, assert_string p "workflow_id" (λ id,
    match p !! "execution_time" with
    | Some (VFloat f) =>
        match fail "SELECT workflow_list_view" with
        | Some e => Ret (Some e, t)
        | None => match t !! id with
                  | None => Ret (Some "record not found", t)
                  | Some v =>
                      if bool_decide (vwExecutionCount v + 1 = 0)%Z then Panic "integer divide by zero"
                      else update_view t id (λ w, set_stats w (vwExecutionCount w) (vwLastExecutedAt w)
                                                    (new_average v (to_int64 outside f)) (Some now)) fail
                  end
        end
    | _ => Panic missing_field
    end)).
(** The failure is read and not recorded. *)
Definition Stats_handleExecutionFailed (t : views) (e : Event) : handled :=
  with_payload t e (λ p, assert_string p "workflow_id" (λ _, Ret (None, t))).
Definition ExecutionStats_Handle (t : views) (e : Event) (now : Z) (fail : db_fail) : handled :=
  if bool_decide (evType e = "ExecutionStarted") then handleExecutionStarted t e now fail
  else if bool_decide (evType e = "ExecutionCompleted") then Stats_handleExecutionCompleted t e now fail
  else if bool_decide (evType e = "ExecutionFailed") then Stats_handleExecutionFailed t e
  else Ret (None, t).
(** It clears a table of its own, which nothing fills. *)
Definition ExecutionStats_Reset (t : views) (fail : db_fail) : result views := try fail "TRUNCATE execution_stats_view" (Ok t).

(** ** The manager *)

Record Projection := {
  pjName : string;
  pjHandle : views → Event → Z → db_fail → handled;
  pjReset : views → db_fail → result views
}.
Definition NewWorkflowListProjection : Projection :=
  {| pjName := "workflow_list"; pjHandle := WorkflowList_Handle; pjReset := WorkflowList_Reset |}.
Definition NewExecutionStatsProjection : Projection :=
  {| pjName := "execution_stats"; pjHandle := ExecutionStats_Handle; pjReset := ExecutionStats_Reset |}.

Record ProjectionManager := {
  pmProjections : gmap string Projection;
  pmViews : views;
  pmPosition : gmap string Z;       (* the table of positions *)
  pmLast : Z;
  pmRunning : bool;
  pmStopped : bool;                 (* the channel is closed *)
  pmLoops : nat                     (* goroutines of processEvents *)
}.
Definition set_manager (m : ProjectionManager) (t : views) (pos : gmap string Z) (last : Z) (running stopped : bool) (loops : nat) :
    ProjectionManager :=
  {| pmProjections := pmProjections m; pmViews := t; pmPosition := pos; pmLast := last; pmRunning := running; pmStopped := stopped;
     pmLoops := loops |}.
Definition NewProjectionManager (t : views) (pos : gmap string Z) : ProjectionManager :=
  {| pmProjections := ∅; pmViews := t; pmPosition := pos; pmLast := 0; pmRunning := false; pmStopped := false; pmLoops := 0 |}.
Definition Projection_Register (m : ProjectionManager) (p : Projection) : ProjectionManager :=
  {| pmProjections := <[pjName p := p]> (pmProjections m); pmViews := pmViews m; pmPosition := pmPosition m; pmLast := pmLast m;
     pmRunning := pmRunning m; pmStopped := pmStopped m; pmLoops := pmLoops m |}.

Definition loadPosition (m : ProjectionManager) (fail : db_fail) : result Z :=
  match fail "SELECT positions" with Some e => Err e | None => Ok (default (pmLast m) (pmPosition m !! "main")) end.
Definition Projections_Start (m : ProjectionManager) (fail : db_fail) : option string * ProjectionManager :=
  if pmRunning m then (Some "projection manager already running", m)
  else match loadPosition m fail with
       | Err e => (Some e, set_manager m (pmViews m) (pmPosition m) (pmLast m) true (pmStopped m) (pmLoops m))
       | Ok last => (None, set_manager m (pmViews m) (pmPosition m) last true (pmStopped m) (S (pmLoops m)))
       end.
(** Closing a closed channel panics. *)
Definition Projections_Stop (m : ProjectionManager) : outcome ProjectionManager :=
  if pmRunning m then
    if pmStopped m then Panic "close of closed channel"
    else Ret (set_manager m (pmViews m) (pmPosition m) (pmLast m) false true (pmLoops m))
  else Ret m.

(** What a call reads from outside: the clock, the order of the projections and
    the failures of the database by projection. *)
Record ProjectionCall := {
  pcNow : Z;
  pcOrd : list string;
  pcFail : nat → db_fail
}.
Fixpoint handle_each (ps : list (nat * Projection)) (t : views) (e : Event) (c : ProjectionCall) : outcome views :=
  match ps with
  | [] => Ret t
  | (k, p) :: ps => match pjHandle p t e (pcNow c) (pcFail c k) with
                    | Ret (_, t') => handle_each ps t' e c
                    | Panic msg => Panic msg
                    | NoFuel => NoFuel
                    end
  end.
Definition in_order (m : ProjectionManager) (ord : list string) : list Projection := omap (λ n, pmProjections m !! n) ord.
Definition updatePosition (m : ProjectionManager) (t : views) (fail : db_fail) : option string * ProjectionManager :=
  let position := (pmLast m + 1)%Z in
  match fail "UPSERT positions" with
  | Some e => (Some e, set_manager m t (pmPosition m) position (pmRunning m) (pmStopped m) (pmLoops m))
  | None => (None, set_manager m t (<["main" := position]> (pmPosition m)) position (pmRunning m) (pmStopped m) (pmLoops m))
  end.
Definition processEvent (m : ProjectionManager) (e : Event) (c : ProjectionCall) : outcome (option string * ProjectionManager) :=
  let ps := in_order m (pcOrd c) in
  match handle_each (imap pair ps) (pmViews m) e c with
  | Ret t => Ret (updatePosition m t (pcFail c (length ps)))
  | Panic msg => Panic msg
  | NoFuel => NoFuel
  end.
(** The events of a tick, one after the other, with their errors ignored. *)
Fixpoint process_batch (m : ProjectionManager) (es : list (Event * ProjectionCall)) : outcome ProjectionManager :=
  match es with
  | [] => Ret m
  | (e, c) :: es => match processEvent m e c with
                    | Ret (_, m') => process_batch m' es
                    | Panic msg => Panic msg
                    | NoFuel => NoFuel
                    end
  end.
(** The query of the code. *)
Definition queryNewEvents (m : ProjectionManager) : list (Event * ProjectionCall) := [].
Definition processEvents_tick (m : ProjectionManager) : outcome ProjectionManager := process_batch m (queryNewEvents m).

Fixpoint reset_each (ps : list (nat * Projection)) (t : views) (c : ProjectionCall) : option string * views :=
  match ps with
  | [] => (None, t)
  | (k, p) :: ps => match pjReset p t (pcFail c k) with
                    | Err e => (Some ("failed to reset projection " +:+ pjName p +:+ ": " +:+ e), t)
                    | Ok t' => reset_each ps t' c
                    end
  end.
(** The events to replay are none in the code. *)
Definition Rebuild (m : ProjectionManager) (c : ProjectionCall) : option string * ProjectionManager :=
  match reset_each (imap pair (in_order m (pcOrd c))) (pmViews m) c with
  | (Some e, t) => (Some e, set_manager m t (pmPosition m) (pmLast m) (pmRunning m) (pmStopped m) (pmLoops m))
  | (None, t) => (None, set_manager m t (pmPosition m) 0 (pmRunning m) (pmStopped m) (pmLoops m))
  end.

(** ** Queries *)

Definition updated_later (a b : WorkflowListView) : Prop :=
  match vwUpdatedAt a, vwUpdatedAt b with Some x, Some y => (y ≤ x)%Z | _, None => True | None, Some _ => False end.
#[local] Instance updated_later_dec : RelDecision updated_later.
Proof. intros a b. unfold updated_later. destruct (vwUpdatedAt a), (vwUpdatedAt b); apply _. Defined.
Definition Views_List (t : views) (ord : list string) (userID : string) (limit offset : Z) (fail : db_fail) : result (list WorkflowListView) :=
  try fail "SELECT workflow_list_view"
    (let rows := merge_sort updated_later (rows_where t ord (λ v, bool_decide (userID = "") || bool_decide (vwUserID v = userID))) in
     Ok (take (if bool_decide (limit < 0)%Z then length rows else Z.to_nat limit) (drop (Z.to_nat offset) rows))).
Definition Views_GetByID (t : views) (ord : list string) (id : string) (fail : db_fail) : result (option WorkflowListView) :=
  try fail "SELECT workflow_list_view" (Ok (head (rows_where t ord (λ v, bool_decide (vwID v = id))))).
Definition Views_Search (ilike : string → string → bool) (t : views) (ord : list string) (query : string) (fail : db_fail) :
    result (list WorkflowListView) :=
  try fail "SELECT workflow_list_view"
    (let term := "%" +:+ query +:+ "%" in
     Ok (take 50 (merge_sort updated_later (rows_where t ord (λ v, ilike (vwName v) term || ilike (vwDescription v) term))))).

(** ** What a view should be: the events of its workflow, one after the other *)

Definition list_events : list string :=
  ["WorkflowCreated"; "WorkflowUpdated"; "WorkflowDeleted"; "WorkflowActivated"; "WorkflowDeactivated"].
Definition stats_events : list string := ["ExecutionStarted"; "ExecutionCompleted"].
Definition payload_of (e : Event) : option vmap := decode (evPayload e).
Definition payload_workflow (e : Event) : option string := payload_of e ≫= λ p, get_string p "workflow_id".
Definition about (e : Event) : option string :=
  if bool_decide (evType e ∈ list_events) then Some (evAggregateID e)
  else if bool_decide (evType e ∈ stats_events) then payload_workflow e else None.

(** The row of the workflow of an event, after it, written out.  A completed
    execution weighs the old mean with the number of executions started, which
    counts it already, and its own time with one: not the mean of the
    completed executions ([first_average_is_half]). *)
Definition view_step (now : Z) (e : Event) (row : option WorkflowListView) : option WorkflowListView :=
  let payload := default ∅ (payload_of e) in
  if bool_decide (evType e = "WorkflowCreated") then
    match row, get_string payload "name" with
    | None, Some name =>
        let created := match evTimestamp e with Some t => t | None => now end in
        Some {| vwID := evAggregateID e; vwName := name; vwDescription := default "" (get_string payload "description");
                vwUserID := evUserID e; vwTeamID := ""; vwStatus := "inactive"; vwIsActive := false; vwExecutionCount := 0;
                vwLastExecutedAt := None; vwSuccessRate := S754_zero false; vwAverageExecutionTime := 0; vwTags := "";
                vwCreatedAt := Some created; vwUpdatedAt := Some created |}
    | _, _ => row
    end
  else if bool_decide (evType e = "WorkflowUpdated") then
    match payload_of e with
    | None => row
    | Some p => (λ v, set_view v (default (vwName v) (get_string p "name")) (default (vwDescription v) (get_string p "description"))
                        (vwStatus v) (vwIsActive v) (evTimestamp e)) <$> row
    end
  else if bool_decide (evType e = "WorkflowDeleted") then None
  else if bool_decide (evType e = "WorkflowActivated") then
    (λ v, set_view v (vwName v) (vwDescription v) "active" true (evTimestamp e)) <$> row
  else if bool_decide (evType e = "WorkflowDeactivated") then
    (λ v, set_view v (vwName v) (vwDescription v) "inactive" false (evTimestamp e)) <$> row
  else if bool_decide (evType e = "ExecutionStarted") then
    (λ v, set_stats v (vwExecutionCount v + 1) (evTimestamp e) (vwAverageExecutionTime v) (Some now)) <$> row
  else
    match payload !! "execution_time" with
    | Some (VFloat f) =>
        (λ v, let started := vwExecutionCount v in
              let total := wrap64 (wrap64 (vwAverageExecutionTime v * started) + to_int64 outside f) in
              set_stats v started (vwLastExecutedAt v) (Z.quot total (started + 1)) (Some now)) <$> row
    | _ => row
    end.

(** The fields the code asserts are there. *)
Definition well_formed (e : Event) : Prop :=
  match payload_of e with
  | None => True
  | Some p =>
      (evType e = "WorkflowCreated" → is_Some (get_string p "name"))
      ∧ (evType e ∈ "ExecutionFailed" :: stats_events → is_Some (get_string p "workflow_id"))
      ∧ (evType e = "ExecutionCompleted" → ∃ f, p !! "execution_time" = Some (VFloat f))
  end.
Definition no_failures (c : ProjectionCall) : Prop := ∀ k stmt, pcFail c k stmt = None.

Definition counts_ok (t : views) : Prop := ∀ id v, t !! id = Some v → (0 ≤ vwExecutionCount v)%Z.

(** A handler does its part of the step. *)
Definition does (types : list string) (now : Z) (e : Event) (t : views) (r : handled) : Prop :=
  counts_ok t → ∃ err t', r = Ret (err, t')
    ∧ ∀ id, t' !! id = if bool_decide (evType e ∈ types) && bool_decide (about e = Some id) then view_step now e (t !! id) else t !! id.

Lemma update_view_alter t id0 f fail : fail "UPDATE workflow_list_view" = None → update_view t id0 f fail = Ret (None, alter f id0 t).
Proof. clear. intros Hf. unfold update_view, try. by rewrite Hf. Qed.
Lemma lookup_alter_if (f : WorkflowListView → WorkflowListView) i (t : views) id :
  alter f i t !! id = if bool_decide (i = id) then f <$> t !! id else t !! id.
Proof. clear. case_bool_decide as E; [subst i; apply lookup_alter_eq|by apply lookup_alter_ne]. Qed.

Lemma about_list e : evType e ∈ list_events → about e = Some (evAggregateID e).
Proof. intros H. unfold about. by rewrite bool_decide_true. Qed.
Lemma stats_not_list e : evType e ∈ stats_events → evType e ∉ list_events.
Proof.
  clear. unfold stats_events. rewrite !elem_of_cons. intros [->|[->|[]%not_elem_of_nil]]; apply (bool_decide_unpack _); by vm_compute.
Qed.
Lemma about_stats e : evType e ∈ stats_events → about e = payload_workflow e.
Proof. intros H. unfold about. rewrite bool_decide_false, bool_decide_true by (done || by apply stats_not_list). done. Qed.

Ltac decide_types := repeat first [rewrite bool_decide_true by done | rewrite bool_decide_false by done].

Lemma Created_does t e now fail :
  evType e = "WorkflowCreated" → well_formed e → (∀ stmt, fail stmt = None) →
  ∃ err t', handleWorkflowCreated t e now fail = Ret (err, t')
    ∧ ∀ id, t' !! id = if bool_decide (evAggregateID e = id) then view_step now e (t !! id) else t !! id.
Proof.
  intros Et Hwf Hf. unfold handleWorkflowCreated, with_payload, view_step. rewrite Et, (bool_decide_true ("WorkflowCreated" = _)) by done.
  change (decode (evPayload e)) with (payload_of e). unfold well_formed in Hwf. destruct (payload_of e) as [p|]; simpl.
  - destruct (proj1 Hwf Et) as [name Hn]. unfold assert_string, try. rewrite Hn, Hf. set (v := new_view _ _ _ _).
    case_bool_decide as Hx; simpl; eexists _, _; (split; [done|]); intros id; case_bool_decide as Ei; subst; simpl in *; try done.
    + by destruct Hx as [x ->].
    + apply eq_None_not_Some in Hx. rewrite Hx. apply lookup_insert_eq.
    + by rewrite lookup_insert_ne.
  - eexists _, _. split; [done|]. intros id. case_bool_decide; [|done]. by destruct (t !! id).
Qed.

Lemma WorkflowList_does t e now fail :
  well_formed e → (∀ stmt, fail stmt = None) → does list_events now e t (WorkflowList_Handle t e now fail).
Proof.
  intros Hwf Hf _. unfold WorkflowList_Handle.
  destruct (decide (evType e ∈ list_events)) as [Hin|Hout].
  2:{ rewrite (bool_decide_false (evType e ∈ list_events)) by done. unfold list_events in Hout.
      rewrite !not_elem_of_cons in Hout. destruct Hout as (? & ? & ? & ? & ? & _). decide_types. by eexists _, _. }
  rewrite (about_list e Hin), (bool_decide_true (evType e ∈ list_events)) by done. cbn [andb].
  assert (∀ id, bool_decide (Some (evAggregateID e) = Some id) = bool_decide (evAggregateID e = id)) as Hb
    by (intros id; apply bool_decide_ext; naive_solver).
  setoid_rewrite Hb. unfold list_events in Hin. rewrite !elem_of_cons in Hin. destruct Hin as [E|[E|[E|[E|[E|[]%not_elem_of_nil]]]]]; rewrite E; decide_types.
  - destruct (Created_does t e now fail E Hwf Hf) as (err & t' & H1 & H2). by exists err, t'.
  - unfold handleWorkflowUpdated, with_payload, view_step. change (decode (evPayload e)) with (payload_of e). rewrite E. decide_types.
    destruct (payload_of e) as [p|]; [rewrite update_view_alter by done|]; eexists _, _; (split; [done|]); intros id; [apply lookup_alter_if|by case_bool_decide].
  - unfold handleWorkflowDeleted, try, view_step. rewrite Hf, E. decide_types. simpl. eexists _, _. split; [done|]. intros id. case_bool_decide as Ei.
    + subst id. apply lookup_delete_eq.
    + by apply lookup_delete_ne.
  - unfold handleWorkflowActivated, view_step. rewrite E, update_view_alter by done. decide_types. eexists _, _. split; [done|]. apply lookup_alter_if.
  - unfold handleWorkflowDeactivated, view_step. rewrite E, update_view_alter by done. decide_types. eexists _, _. split; [done|]. apply lookup_alter_if.
Qed.

Lemma ExecutionStats_does t e now fail :
  well_formed e → (∀ stmt, fail stmt = None) → does stats_events now e t (ExecutionStats_Handle t e now fail).
Proof.
  intros Hwf Hf Hok. unfold ExecutionStats_Handle. unfold well_formed in Hwf.
  destruct (decide (evType e ∈ stats_events)) as [Hin|Hout].
  2:{ rewrite (bool_decide_false (evType e ∈ stats_events)) by done. pose proof Hout as Hn. unfold stats_events in Hn.
      rewrite !not_elem_of_cons in Hn. destruct Hn as (? & ? & _). decide_types. case_bool_decide as Ef; [|by eexists _, _].
      unfold Stats_handleExecutionFailed, with_payload, assert_string. change (decode (evPayload e)) with (payload_of e).
      destruct (payload_of e) as [p|]; [|by eexists _, _].
      destruct Hwf as (_ & [id ->] & _); [rewrite Ef; apply elem_of_cons; by left|]. by eexists _, _. }
  rewrite (about_stats e Hin), (bool_decide_true (evType e ∈ stats_events)) by done. cbn [andb]. unfold payload_workflow.
  unfold handleExecutionStarted, Stats_handleExecutionCompleted, with_payload, view_step. change (decode (evPayload e)) with (payload_of e).
  destruct (payload_of e) as [p|]; simpl.
  2:{ exists (Some "invalid JSON"), t. split; [|done].
      unfold stats_events in Hin. rewrite !elem_of_cons in Hin. by destruct Hin as [E|[E|[]%not_elem_of_nil]]; rewrite E; decide_types. }
  destruct Hwf as (_ & [w Hw] & Hc); [apply elem_of_cons; by right|]. rewrite Hw. unfold assert_string. rewrite Hw.
  assert (∀ id, bool_decide (Some w = Some id) = bool_decide (w = id)) as Hb by (intros id; apply bool_decide_ext; naive_solver).
  setoid_rewrite Hb. unfold stats_events in Hin. rewrite !elem_of_cons in Hin.
  destruct Hin as [E|[E|[]%not_elem_of_nil]]; rewrite E; decide_types.
  - rewrite update_view_alter by done. eexists _, _. split; [done|]. apply lookup_alter_if.
  - destruct (Hc E) as [f ->]. rewrite Hf. destruct (t !! w) as [v|] eqn:Ev.
    + pose proof (Hok _ _ Ev). rewrite bool_decide_false, update_view_alter by (done || lia).
      eexists _, _. split; [done|]. intros id. rewrite lookup_alter_if.
      case_bool_decide as Ei; [|done]. subst id. by rewrite Ev.
    + eexists _, _. split; [done|]. intros id. case_bool_decide as Ei; [|done]. subst id. by rewrite Ev.
Qed.

Lemma about_types e id : about e = Some id → evType e ∈ list_events ∨ evType e ∈ stats_events.
Proof. unfold about. intros H. repeat case_bool_decide; auto. done. Qed.

Lemma view_step_count now e row v :
  (∀ v, row = Some v → (0 ≤ vwExecutionCount v)%Z) → view_step now e row = Some v → (0 ≤ vwExecutionCount v)%Z.
Proof.
  intros Hok. unfold view_step. intros H. destruct row as [v0|]; [specialize (Hok v0 eq_refl)|clear Hok];
    repeat (case_bool_decide || case_match); simpl in *; simplify_eq; simpl; lia.
Qed.
Lemma counts_ok_step (b : string → bool) now e t t' :
  (∀ id, t' !! id = if b id then view_step now e (t !! id) else t !! id) → counts_ok t → counts_ok t'.
Proof.
  intros Hs Hok id v. rewrite Hs. destruct (b id); [|apply Hok]. apply view_step_count. apply Hok.
Qed.

(** Both projections, in either order, make the step. *)
Lemma both_handle e now t types1 types2 (r : handled) (f : views → handled) :
  (types1 = list_events ∧ types2 = stats_events ∨ types1 = stats_events ∧ types2 = list_events) →
  counts_ok t → does types1 now e t r → (∀ t', does types2 now e t' (f t')) →
  ∃ err t', r = Ret (err, t') ∧ ∃ err' t'', f t' = Ret (err', t'')
    ∧ ∀ id, t'' !! id = if bool_decide (about e = Some id) then view_step now e (t !! id) else t !! id.
Proof.
  intros Ht Hok H1 H2. destruct (H1 Hok) as (err & t' & -> & H1'). clear H1. rename H1' into H1.
  destruct (H2 t') as (err' & t'' & E2 & H2'); [by apply (counts_ok_step _ _ _ _ _ H1)|]. exists err, t'. split; [done|].
  exists err', t''. split; [done|]. intros id. rewrite H2', !H1. pose proof (about_types e id). pose proof (stats_not_list e).
  destruct Ht as [[-> ->]|[-> ->]]; repeat case_bool_decide; simpl; naive_solver.
Qed.

Definition both_registered (m : ProjectionManager) : Prop :=
  pmProjections m !! "workflow_list" = Some NewWorkflowListProjection ∧ pmProjections m !! "execution_stats" = Some NewExecutionStatsProjection.
Definition both_names : list string := ["workflow_list"; "execution_stats"].

Lemma both_orders ord : ord ≡ₚ both_names → ord = both_names ∨ ord = reverse both_names.
Proof.
  clear. intros H. pose proof (Permutation_length H) as Hl. destruct ord as [|a [|b [|? ?]]]; try done.
  unfold both_names in *. apply Permutation_length_2 in H. destruct H as [[-> ->]|[-> ->]]; auto.
Qed.

Lemma processEvent_does m e c :
  both_registered m → counts_ok (pmViews m) → pcOrd c ≡ₚ both_names → no_failures c → well_formed e →
  ∃ m', processEvent m e c = Ret (None, m') ∧ pmProjections m' = pmProjections m ∧ pmLast m' = (pmLast m + 1)%Z
    ∧ pmPosition m' !! "main" = Some (pmLast m')
    ∧ ∀ id, pmViews m' !! id = if bool_decide (about e = Some id) then view_step (pcNow c) e (pmViews m !! id) else pmViews m !! id.
Proof.
  intros [Hl Hs] Hok Hord Hf Hwf. unfold processEvent, in_order, updatePosition.
  destruct (both_orders _ Hord) as [->| ->]; unfold both_names, reverse; cbn [omap list_omap rev_append]; rewrite ?Hl, ?Hs; simpl; rewrite Hf.
  - destruct (both_handle e (pcNow c) (pmViews m) list_events stats_events (WorkflowList_Handle (pmViews m) e (pcNow c) (pcFail c 0))
                (λ t, ExecutionStats_Handle t e (pcNow c) (pcFail c 1))) as (err & t' & -> & err' & t'' & -> & Hv);
      [by left|done|by apply WorkflowList_does|intros t'; by apply ExecutionStats_does|].
    eexists. repeat split; [apply lookup_insert_eq|done].
  - destruct (both_handle e (pcNow c) (pmViews m) stats_events list_events (ExecutionStats_Handle (pmViews m) e (pcNow c) (pcFail c 0))
                (λ t, WorkflowList_Handle t e (pcNow c) (pcFail c 1))) as (err & t' & -> & err' & t'' & -> & Hv);
      [by right|done|by apply ExecutionStats_does|intros t'; by apply WorkflowList_does|].
    eexists. repeat split; [apply lookup_insert_eq|done].
Qed.

(** The row of a workflow after a history, from the events about it only. *)
Definition row_after (id : string) (es : list (Event * ProjectionCall)) (row : option WorkflowListView) : option WorkflowListView :=
  foldl (λ row ec, view_step (pcNow ec.2) ec.1 row) row (filter (λ ec, about ec.1 = Some id) es).

(** C39. The read model is what its events say, as long as the database works:
    the code drops the error of a handler and advances all the same.  Take a
    manager with the two projections of the code, any table without negative
    counts, and any history of events in which every payload that decodes has
    the fields the handlers assert, with the projections visited in any order at
    every event and no failure of the database.  The batch ends without a panic,
    the position in memory advances by the number of events and is what is
    stored afterwards, whatever was stored before, and the row of every
    workflow is the fold of [view_step], which is stated without the handlers,
    over the events about that workflow alone, in order.  (In the code the
    query for new events gives none: [tick_does_nothing].) *)
Theorem projection_follows_history m es :
  both_registered m → counts_ok (pmViews m) →
  (∀ e c, (e, c) ∈ es → pcOrd c ≡ₚ both_names ∧ no_failures c ∧ well_formed e) →
  ∃ m', process_batch m es = Ret m'
    ∧ pmLast m' = (pmLast m + Z.of_nat (length es))%Z
    ∧ (es ≠ [] → pmPosition m' !! "main" = Some (pmLast m'))
    ∧ ∀ id, pmViews m' !! id = row_after id es (pmViews m !! id).
Proof.
  revert m. induction es as [|[e c] es IH]; intros m Hreg Hok Hes; [exists m; repeat split; simpl; [lia|done]|].
  destruct (Hes e c) as (Hord & Hf & Hwf); [by left|].
  destruct (processEvent_does m e c Hreg Hok Hord Hf Hwf) as (m1 & E1 & Hp & Hlast & Hpos & Hv).
  destruct (IH m1) as (m' & E2 & Hlast' & Hpos' & Hv'); [unfold both_registered; by rewrite Hp|by apply (counts_ok_step _ _ _ _ _ Hv)|intros e' c' Hin; apply Hes; by right|].
  exists m'. cbn [process_batch]. rewrite E1. repeat split; [done|simpl length; lia| |].
  - intros _. destruct es as [|ec es]; [|by apply Hpos']. simpl in E2. by simplify_eq.
  - intros id. rewrite Hv', Hv. unfold row_after. rewrite filter_cons. simpl. by repeat case_decide; repeat case_bool_decide.
Qed.

(** The query of new events gives none: a tick changes nothing. *)
Lemma tick_does_nothing m : processEvents_tick m = Ret m.
Proof. clear. done. Qed.

(** A rebuild empties the list of workflows and puts nothing in its place. *)
Lemma rebuild_empties m c :
  pmProjections m !! "workflow_list" = Some NewWorkflowListProjection → pcOrd c = ["workflow_list"] → no_failures c →
  (Rebuild m c).1 = None ∧ pmViews (Rebuild m c).2 = ∅.
Proof. intros Hp Ho Hf. unfold Rebuild, in_order. rewrite Ho. cbn. rewrite Hp. cbn. unfold WorkflowList_Reset, try. by rewrite Hf. Qed.

(** A failed start leaves the manager marked as running, with no goroutine. *)
Lemma failed_start_stays_running m fail e :
  pmRunning m = false → fail "SELECT positions" = Some e →
  (Projections_Start m fail).1 = Some e ∧ pmRunning (Projections_Start m fail).2 = true
  ∧ pmLoops (Projections_Start m fail).2 = pmLoops m
  ∧ ∀ fail', (Projections_Start (Projections_Start m fail).2 fail').1 = Some "projection manager already running".
Proof. clear. intros Hr Hf. unfold Projections_Start, loadPosition. rewrite Hr, Hf. by repeat split. Qed.

(** The channel is closed once and never made again: the second stop panics. *)
Lemma restart_then_stop_panics m m1 fail :
  pmRunning m = true → Projections_Stop m = Ret m1 → fail "SELECT positions" = None →
  Projections_Stop (Projections_Start m1 fail).2 = Panic "close of closed channel".
Proof.
  clear. intros Hr H Hf. unfold Projections_Stop in H. rewrite Hr in H. destruct (pmStopped m); [done|]. injection H as <-.
  unfold Projections_Start, loadPosition. simpl. rewrite Hf. done.
Qed.

(** A failed execution is not recorded. *)
Lemma failure_not_recorded t e now fail err t' :
  evType e = "ExecutionFailed" → ExecutionStats_Handle t e now fail = Ret (err, t') → t' = t.
Proof.
  intros E. unfold ExecutionStats_Handle, Stats_handleExecutionFailed, with_payload, assert_string. rewrite E. decide_types.
  intros H. repeat case_match; by simplify_eq.
Qed.

(** One execution that starts and completes: the mean is half of its time. *)
Lemma first_average_is_half v time now last :
  vwExecutionCount v = 0%Z → vwAverageExecutionTime v = 0%Z → (0 ≤ time < 2 ^ 63)%Z →
  new_average (set_stats v (vwExecutionCount v + 1) last (vwAverageExecutionTime v) now) time = Z.quot time 2.
Proof. clear. intros Hc Ha Ht. unfold new_average. simpl. rewrite Hc, Ha. change (wrap64 (0 * (0 + 1))) with 0%Z. rewrite wrap64_id; [done|lia]. Qed.
End projections.

(** *** Examples *)

Definition example_decode (s : string) : option vmap :=
  if bool_decide (s = "data") then
    Some {["name" := VStr "Daily"; "workflow_id" := VStr "wf1"; "execution_time" := VFloat (f64_of_Z 8)]}
  else if bool_decide (s = "empty") then Some ∅ else None.
Definition example_event (type payload : string) (at_ : Z) : Event :=
  {| evID := ""; evAggregateID := "wf1"; evType := type; evVersion := 1; evPayload := payload; evMetadata := ∅; evTimestamp := Some at_;
     evUserID := "u1"; evCorrelationID := "" |}.
Definition example_call (now : Z) : ProjectionCall := {| pcNow := now; pcOrd := both_names; pcFail := λ _ _, None |}.
Definition example_manager : ProjectionManager :=
  Projection_Register (Projection_Register (NewProjectionManager ∅ ∅) (NewWorkflowListProjection example_decode))
    (NewExecutionStatsProjection example_decode (λ _, 0%Z)).
Definition example_history : list (Event * ProjectionCall) :=
  [(example_event "WorkflowCreated" "data" 1, example_call 1); (example_event "WorkflowActivated" "" 2, example_call 2);
   (example_event "ExecutionStarted" "data" 3, example_call 3); (example_event "ExecutionCompleted" "data" 4, example_call 4)].

Lemma example_history_ok e c :
  (e, c) ∈ example_history → pcOrd c ≡ₚ both_names ∧ no_failures c ∧ well_formed example_decode e.
Proof.
  unfold example_history. rewrite !elem_of_cons. intros H.
  destruct H as [H|[H|[H|[H|[]%not_elem_of_nil]]]]; injection H as -> ->; (split; [done|]); (split; [by intros ? ?|]); try done;
    (split; [intros _; by eexists|split; intros _; by eexists]).
Qed.
Lemma projection_follows_history_witness :
  ∃ m', process_batch example_manager example_history = Ret m' ∧ pmLast m' = 4%Z ∧ pmPosition m' !! "main" = Some 4%Z
    ∧ (λ v, (vwName v, vwStatus v, vwExecutionCount v, vwAverageExecutionTime v)) <$> pmViews m' !! "wf1" = Some ("Daily", "active", 1, 4)%Z.
Proof.
  destruct (projection_follows_history example_decode (λ _, 0%Z) example_manager example_history) as (m' & E & H1 & H2 & H3).
  - by split.
  - intros id v H. by vm_compute in H.
  - apply example_history_ok.
  - exists m'. split; [done|]. rewrite H2 by done. rewrite H1. repeat split. rewrite H3. by vm_compute.
Defined.

(** A payload without a name ends the goroutine with a panic. *)
Example created_without_name_panics :
  process_batch example_manager [(example_event "WorkflowCreated" "empty" 1, example_call 1)] = Panic missing_field.
Proof. by vm_compute. Qed.
