(* ===== verification/CredentialApi.v ===== *)
(** internal/credential/adapters/http/handlers/handlers.go and the router of
    internal/credential/server/server.go: the HTTP interface of the credential
    service.

    The user of a request is the one its header X-User-ID names.  The decoders of
    bodies are parameters.  The metrics are left out; API keys, SSH keys,
    certificates, the vault, OAuth and the audit are answers of constants in the
    code, and are so here. *)

From S2P Require Import Prelude GoLib GoValue WorkflowRepo Tokens Credentials Http.

(** ** Answers *)

Inductive CredBody :=
| CBEmpty
| CBCredential (c : Credential)
| CBCredentials (l : list Credential)
| CBTypes (l : list CredentialType)
| CBData (d : vmap)
| CBObject (h : vmap).                  (* another gin.H *)
Abbreviation Response := (Http.Response CredBody).
Definition cred_says (status : Z) (h : list (string * value)) : Response := JSON status (CBObject (list_to_map h)).
Definition cred_fails (status : Z) (msg : string) : Response := cred_says status [("error", VStr msg)].
Definition cred_message (status : Z) (msg : string) : Response := cred_says status [("message", VStr msg)].

(** ** Routes *)

Inductive CredEndpoint :=
| KHealth | KReady
| KList | KGet | KCreate | KUpdate | KDelete
| KTest | KRotate | KDecrypt | KShare | KUnshare
| KTypes | KTypeSchema
| KOAuthAuthorize | KOAuthCallback | KOAuthRefresh | KOAuthRevoke
| KCreateAPIKey | KListAPIKeys | KRevokeAPIKey | KRegenerateAPIKey
| KCreateSSHKey | KListSSHKeys | KDeleteSSHKey | KGetPublicKey
| KUploadCertificate | KListCertificates | KGetCertificate | KDeleteCertificate | KVerifyCertificate
| KBackupVault | KRestoreVault | KRekeyVault | KVaultStatus
| KCredentialAudit | KAuditLogs | KImport | KExport.
Abbreviation Route := (Http.Route CredEndpoint).
Definition cred_v1 (method : string) (segs : list Seg) (e : CredEndpoint) : string * Route :=
  route method ([Lit "api"; Lit "v1"; Lit "credentials"] ++ segs) e.

Definition Cred_setupRouter : list (string * Route) := [
  route "GET" [Lit "health"; Lit "live"] KHealth;
  route "GET" [Lit "health"; Lit "ready"] KReady;
  cred_v1 "GET" [] KList;
  cred_v1 "GET" [Par "id"] KGet;
  cred_v1 "POST" [] KCreate;
  cred_v1 "PUT" [Par "id"] KUpdate;
  cred_v1 "DELETE" [Par "id"] KDelete;
  cred_v1 "POST" [Par "id"; Lit "test"] KTest;
  cred_v1 "POST" [Par "id"; Lit "rotate"] KRotate;
  cred_v1 "GET" [Par "id"; Lit "decrypt"] KDecrypt;
  cred_v1 "POST" [Par "id"; Lit "share"] KShare;
  cred_v1 "DELETE" [Par "id"; Lit "share"; Par "userId"] KUnshare;
  cred_v1 "GET" [Lit "types"] KTypes;
  cred_v1 "GET" [Lit "types"; Par "type"; Lit "schema"] KTypeSchema;
  cred_v1 "GET" [Lit "oauth"; Par "provider"; Lit "authorize"] KOAuthAuthorize;
  cred_v1 "GET" [Lit "oauth"; Par "provider"; Lit "callback"] KOAuthCallback;
  cred_v1 "POST" [Lit "oauth"; Par "provider"; Lit "refresh"] KOAuthRefresh;
  cred_v1 "DELETE" [Lit "oauth"; Par "provider"; Lit "revoke"] KOAuthRevoke;
  cred_v1 "POST" [Lit "api-keys"] KCreateAPIKey;
  cred_v1 "GET" [Lit "api-keys"] KListAPIKeys;
  cred_v1 "DELETE" [Lit "api-keys"; Par "id"] KRevokeAPIKey;
  cred_v1 "POST" [Lit "api-keys"; Par "id"; Lit "regenerate"] KRegenerateAPIKey;
  cred_v1 "POST" [Lit "ssh-keys"] KCreateSSHKey;
  cred_v1 "GET" [Lit "ssh-keys"] KListSSHKeys;
  cred_v1 "DELETE" [Lit "ssh-keys"; Par "id"] KDeleteSSHKey;
  cred_v1 "GET" [Lit "ssh-keys"; Par "id"; Lit "public"] KGetPublicKey;
  cred_v1 "POST" [Lit "certificates"] KUploadCertificate;
  cred_v1 "GET" [Lit "certificates"] KListCertificates;
  cred_v1 "GET" [Lit "certificates"; Par "id"] KGetCertificate;
  cred_v1 "DELETE" [Lit "certificates"; Par "id"] KDeleteCertificate;
  cred_v1 "GET" [Lit "certificates"; Par "id"; Lit "verify"] KVerifyCertificate;
  cred_v1 "POST" [Lit "vault"; Lit "backup"] KBackupVault;
  cred_v1 "POST" [Lit "vault"; Lit "restore"] KRestoreVault;
  cred_v1 "POST" [Lit "vault"; Lit "rekey"] KRekeyVault;
  cred_v1 "GET" [Lit "vault"; Lit "status"] KVaultStatus;
  cred_v1 "GET" [Par "id"; Lit "audit"] KCredentialAudit;
  cred_v1 "GET" [Lit "audit"] KAuditLogs;
  cred_v1 "POST" [Lit "import"] KImport;
  cred_v1 "GET" [Lit "export"] KExport].

(** ** Bodies *)

(** A body without data decodes to a nil map, which [required] refuses. *)
Record CredDecoders := {
  kdCreate : string → result (CreateCredentialRequest * bool);     (* the data is not nil *)
  kdUpdate : string → result UpdateCredentialRequest;
  kdTarget : string → result string
}.
Definition create_by (q : CreateCredentialRequest) (u : string) : CreateCredentialRequest :=
  {| cqName := cqName q; cqType := cqType q; cqUserID := u; cqTeamID := cqTeamID q; cqDescription := cqDescription q; cqData := cqData q;
     cqTags := cqTags q; cqExpiresAt := cqExpiresAt q |}.
Definition update_by (q : UpdateCredentialRequest) (u : string) : UpdateCredentialRequest :=
  {| uqUserID := u; uqName := uqName q; uqDescription := uqDescription q; uqData := uqData q; uqTags := uqTags q |}.
Definition create_tags (q : CreateCredentialRequest * bool) : complaints :=
  required "Name" (cqName q.1) ++ required "Type" (cqType q.1) ++ (if q.2 then [] else [("Data", "required")]).

Section api.
Context (seal : string → string → string → string) (open : string → string → string → option string).
Context (column : vmap → option vmap) (key : string).
Context (dc : CredDecoders) (tag_error : complaints → string).

Abbreviation cred_api := (handler CredentialService CredBody).
Abbreviation cred_body := (read_body tag_error).
Definition bad (e : string) : Response := cred_fails StatusBadRequest e.

(** ** Handlers *)

Definition with_user (rq : Request) (k : string → cred_api) : cred_api :=
  let userID := GetHeader rq "X-User-ID" in
  if bool_decide (userID = "") then tell (cred_fails StatusUnauthorized "user ID required") else k userID.

Definition handle_ListCredentials (c : CredentialCall) (rq : Request) : cred_api :=
  with_user rq (λ u, asks (λ s, ListCredentials s u c) (λ _, cred_fails StatusInternalServerError "failed to list credentials")
                       (λ l, JSON StatusOK (CBCredentials l))).
Definition handle_GetCredential (c : CredentialCall) (r : Route) (rq : Request) : cred_api :=
  with_user rq (λ u, asks (λ s, GetCredential s (Param r "id") u c) (λ _, cred_fails StatusNotFound "credential not found")
                       (λ x, JSON StatusOK (CBCredential x))).
Definition handle_CreateCredential (c : CredentialCall) (rq : Request) : cred_api :=
  with_user rq (λ u, cred_body (kdCreate dc) create_tags bad rq (λ q,
    after_ (λ s, CreateCredential seal column key s (create_by q.1 u) c) bad (λ x, JSON StatusCreated (CBCredential x)))).
Definition handle_UpdateCredential (c : CredentialCall) (r : Route) (rq : Request) : cred_api :=
  with_user rq (λ u, cred_body (kdUpdate dc) (λ _, []) bad rq (λ q,
    after_ (λ s, UpdateCredential seal column key s (Param r "id") (update_by q u) c) bad (λ x, JSON StatusOK (CBCredential x)))).
Definition handle_DeleteCredential (c : CredentialCall) (r : Route) (rq : Request) : cred_api :=
  with_user rq (λ u, after (λ s, DeleteCredential s (Param r "id") u c) bad (JSON StatusNoContent CBEmpty)).
Definition handle_TestCredential (c : CredentialCall) (r : Route) (rq : Request) : cred_api :=
  with_user rq (λ u, after_ (λ s, TestCredential open column key s (Param r "id") u c)
    (λ e, cred_says StatusOK [("valid", VBool false); ("error", VStr e)]) (λ _, cred_says StatusOK [("valid", VBool true)])).
Definition handle_DecryptCredential (c : CredentialCall) (r : Route) (rq : Request) : cred_api :=
  with_user rq (λ u, after_ (λ s, GetDecryptedCredential open column key s (Param r "id") u c) bad (λ x, JSON StatusOK (CBData (cdData x)))).
Definition handle_ShareCredential (c : CredentialCall) (r : Route) (rq : Request) : cred_api :=
  with_user rq (λ u, cred_body (kdTarget dc) (required "TargetUserID") bad rq (λ target,
    after (λ s, ShareCredential column s (Param r "id") u target c) bad (cred_message StatusOK "Credential shared"))).

(** The handlers that do no more than to answer. *)
Definition constant (e : CredEndpoint) : Response :=
  match e with
  | KHealth => cred_says StatusOK [("status", VStr "healthy")]
  | KReady => cred_says StatusOK [("status", VStr "ready")]
  | KRotate => cred_message StatusOK "Credential rotated"
  | KTypes => JSON StatusOK (CBTypes GetCredentialTypes)
  | KTypeSchema => cred_says StatusOK [("schema", VObj [])]
  | KOAuthAuthorize => cred_says StatusOK [("auth_url", VStr "https://oauth.example.com")]
  | KOAuthCallback => cred_message StatusOK "OAuth callback processed"
  | KOAuthRefresh => cred_message StatusOK "Token refreshed"
  | KOAuthRevoke => cred_message StatusOK "Token revoked"
  | KCreateAPIKey => cred_says StatusCreated [("api_key", VStr "generated_key")]
  | KListAPIKeys => cred_says StatusOK [("api_keys", VArr [])]
  | KRegenerateAPIKey => cred_says StatusOK [("api_key", VStr "new_generated_key")]
  | KCreateSSHKey => cred_message StatusCreated "SSH key created"
  | KListSSHKeys => cred_says StatusOK [("ssh_keys", VArr [])]
  | KGetPublicKey => cred_says StatusOK [("public_key", VStr "ssh-rsa ...")]
  | KUploadCertificate => cred_message StatusCreated "Certificate uploaded"
  | KListCertificates => cred_says StatusOK [("certificates", VArr [])]
  | KGetCertificate => cred_says StatusOK [("certificate", VStr "Certificate details")]
  | KVerifyCertificate => cred_says StatusOK [("valid", VBool true)]
  | KBackupVault => cred_message StatusOK "Vault backed up"
  | KRestoreVault => cred_message StatusOK "Vault restored"
  | KRekeyVault => cred_message StatusOK "Vault rekeyed"
  | KVaultStatus => cred_says StatusOK [("status", VStr "sealed"); ("version", VStr "1.0")]
  | KCredentialAudit => cred_says StatusOK [("audit", VArr [])]
  | KAuditLogs => cred_says StatusOK [("logs", VArr [])]
  | KImport => cred_message StatusOK "Credentials imported"
  | KExport => cred_says StatusOK [("data", VObj [])]
  | _ => JSON StatusNoContent CBEmpty
  end.
Definition cred_handle (c : CredentialCall) (r : Route) (rq : Request) : cred_api :=
  match rtEndpoint r with
  | KList => handle_ListCredentials c rq
  | KGet => handle_GetCredential c r rq
  | KCreate => handle_CreateCredential c rq
  | KUpdate => handle_UpdateCredential c r rq
  | KDelete => handle_DeleteCredential c r rq
  | KTest => handle_TestCredential c r rq
  | KDecrypt => handle_DecryptCredential c r rq
  | KShare => handle_ShareCredential c r rq
  | e => tell (constant e)
  end.
Definition cred_serve (c : CredentialCall) (rq : Request) : cred_api :=
  if bool_decide (rqMethod rq = "OPTIONS") then tell (JSON StatusNoContent CBEmpty)
  else match find_route Cred_setupRouter rq with
       | None => tell (JSON StatusNotFound CBEmpty)
       | Some r => cred_handle c r rq
       end.
Definition cred_serves (trace : list (CredentialCall * Request)) (s : CredentialService) : CredentialService :=
  foldl (λ s cr, (cred_serve cr.1 cr.2 s).2) s trace.

(** ** What a request does to the rows *)

(** The state after is what an operation of the service leaves, in the name of the user. *)
Definition performs (u : string) (c : CredentialCall) (s s' : CredentialService) : Prop :=
  s' = s ∨ ∃ op, cred_caller op = u ∧ s' = cred_run seal open column key op c s.

Lemma with_user_performs rq (k : string → cred_api) c s :
  performs (GetHeader rq "X-User-ID") c s (k (GetHeader rq "X-User-ID") s).2 → performs (GetHeader rq "X-User-ID") c s (with_user rq k s).2.
Proof. intros Hk. unfold with_user. case_bool_decide; [by left|exact Hk]. Qed.
Lemma body_performs {R} (d : string → result R) check rq (k : R → cred_api) u c s :
  (∀ r, performs u c s (k r s).2) → performs u c s (cred_body d check bad rq k s).2.
Proof. intros Hk. rewrite read_body_state. destruct (d _) as [r|]; [destruct (check r); [apply Hk|]|]; by left. Qed.
Lemma cred_handle_performs c r rq s : performs (GetHeader rq "X-User-ID") c s (cred_handle c r rq s).2.
Proof.
  unfold cred_handle. destruct (rtEndpoint r); try (by left); apply with_user_performs; try apply body_performs; try intros q;
    rewrite ?after_state, ?after__state, ?asks_state; try (by left); right.
  - by exists (CrCreate (create_by q.1 (GetHeader rq "X-User-ID"))).
  - by exists (CrUpdate (Param r "id") (update_by q (GetHeader rq "X-User-ID"))).
  - by exists (CrDelete (Param r "id") (GetHeader rq "X-User-ID")).
  - by exists (CrTest (Param r "id") (GetHeader rq "X-User-ID")).
  - by exists (CrUse (Param r "id") (GetHeader rq "X-User-ID")).
  - by exists (CrShare (Param r "id") (GetHeader rq "X-User-ID") q).
Qed.
Lemma cred_serve_step c rq s :
  rows_ok (cvRows s) → rows_step (GetHeader rq "X-User-ID") (cvRows s) (cvRows (cred_serve c rq s).2).
Proof.
  intros Hok. unfold cred_serve. case_bool_decide; [by left|]. destruct (find_route _ _) as [r|]; [|by left].
  destruct (cred_handle_performs c r rq s) as [->|(op & <- & ->)]; [by left|by apply cred_run_step].
Qed.
Lemma cred_serves_keep trace s id r :
  rows_ok (cvRows s) → cvRows s !! id = Some r → cdIsShared r = false →
  Forall (λ cr : CredentialCall * Request, GetHeader cr.2 "X-User-ID" ≠ cdUserID r) trace →
  rows_ok (cvRows (cred_serves trace s)) ∧ cvRows (cred_serves trace s) !! id = Some r.
Proof.
  intros Hok Hr Hs Ht. revert s Hok Hr. induction Ht as [|[c rq] trace Hne _ IH]; intros s Hok Hr; [done|].
  pose proof (cred_serve_step c rq s Hok) as Hstep. apply IH; [by eapply rows_step_ok|].
  eapply rows_step_keeps; [done..| |done]. simpl in Hne. congruence.
Qed.

(** ** The requests about a credential *)

(** Those that name one. *)
Definition concerns (e : CredEndpoint) : bool :=
  match e with KGet | KUpdate | KDelete | KTest | KRotate | KDecrypt | KShare | KUnshare | KCredentialAudit => true | _ => false end.
(** Those of them whose handler only gives an answer. *)
Definition unguarded (e : CredEndpoint) : bool := match e with KRotate | KUnshare | KCredentialAudit => true | _ => false end.
Definition denied (resp : Response) : Prop :=
  rsStatus resp ∈ [StatusBadRequest; StatusUnauthorized; StatusNotFound]
  ∨ ∃ e, resp = cred_says StatusOK [("valid", VBool false); ("error", VStr e)].
(** The credential is in the answer. *)
Definition mentions (b : CredBody) (id : string) : Prop :=
  match b with CBCredential x => cdID x = id | CBCredentials l => ∃ x, x ∈ l ∧ cdID x = id | _ => False end.

Section foreign.
Context (s : CredentialService) (id : string) (r : Credential) (u : string).
Context (Hok : rows_ok (cvRows s)) (Hr : cvRows s !! id = Some r) (Hs : cdIsShared r = false) (Hu : u ≠ cdUserID r).

Lemma foreign_get c : ∃ e, GetCredential s id u c = Err e.
Proof.
  clear -Hok Hr Hs Hu. unfold GetCredential. destruct (Creds_Get _ _ _ _) as [x|] eqn:Eg; [|by eexists].
  apply (Creds_Get_some _ _ _ _ _ Hok) in Eg. simplify_eq. rewrite bool_decide_false, Hs by congruence. by eexists.
Qed.
Lemma foreign_use c : ∃ e, GetDecryptedCredential open column key s id u c = (Err e, s).
Proof. clear -Hok Hr Hs Hu. destruct (foreign_get c) as [e He]. exists e. unfold GetDecryptedCredential. by rewrite He. Qed.
Lemma foreign_test c : ∃ e, TestCredential open column key s id u c = (Err e, s).
Proof. clear -Hok Hr Hs Hu. destruct (foreign_use c) as [e He]. exists e. unfold TestCredential. by rewrite He. Qed.
Lemma foreign_row ord fail : (∃ e, Creds_Get (cvRows s) ord id fail = Err e) ∨ Creds_Get (cvRows s) ord id fail = Ok r ∧ bool_decide (cdUserID r = u) = false.
Proof.
  clear -Hok Hr Hu. destruct (Creds_Get _ _ _ _) as [x|e] eqn:Eg; [right|left; by exists e].
  apply (Creds_Get_some _ _ _ _ _ Hok) in Eg. simplify_eq. split; [done|]. by apply bool_decide_eq_false, not_eq_sym.
Qed.
Lemma foreign_update q c : uqUserID q = u → ∃ e, UpdateCredential seal column key s id q c = (Err e, s).
Proof. clear -Hok Hr Hu. intros E. unfold UpdateCredential. destruct (foreign_row (ccOrd c) (ccFail c 0)) as [[e ->]|[-> H]]; rewrite ?E, ?H; by eexists. Qed.
Lemma foreign_delete c : ∃ e, DeleteCredential s id u c = (Some e, s).
Proof. clear -Hok Hr Hu. unfold DeleteCredential. destruct (foreign_row (ccOrd c) (ccFail c 0)) as [[e ->]|[-> ->]]; by eexists. Qed.
Lemma foreign_share target c : ∃ e, ShareCredential column s id u target c = (Some e, s).
Proof. clear -Hok Hr Hu. unfold ShareCredential. destruct (foreign_row (ccOrd c) (ccFail c 0)) as [[e ->]|[-> ->]]; by eexists. Qed.
End foreign.

Lemma intruder_denied s id r c rt rq :
  rows_ok (cvRows s) → cvRows s !! id = Some r → cdIsShared r = false → GetHeader rq "X-User-ID" ≠ cdUserID r →
  concerns (rtEndpoint rt) = true → unguarded (rtEndpoint rt) = false → Param rt "id" = id → denied (cred_handle c rt rq s).1 ∧ (cred_handle c rt rq s).2 = s.
Proof.
  intros Hok Hr Hs Hu Hc Hg Hp. unfold cred_handle. destruct (rtEndpoint rt); try discriminate Hc; try discriminate Hg;
    unfold handle_GetCredential, handle_UpdateCredential, handle_DeleteCredential, handle_TestCredential, handle_DecryptCredential,
      handle_ShareCredential, with_user, read_body, after, after_, asks, after_, tell; rewrite Hp;
    (case_bool_decide; [split; [by left; set_solver|done]|]).
  - destruct (foreign_get s id r _ Hok Hr Hs Hu c) as [e ->]. split; [left; set_solver|done].
  - destruct (kdUpdate _ _) as [q|]; [|split; [left; set_solver|done]].
    destruct (foreign_update s id r _ Hok Hr Hu (update_by q (GetHeader rq "X-User-ID")) c eq_refl) as [e ->]. split; [left; set_solver|done].
  - destruct (foreign_delete s id r _ Hok Hr Hu c) as [e ->]. split; [left; set_solver|done].
  - destruct (foreign_test s id r _ Hok Hr Hs Hu c) as [e ->]. split; [right; by exists e|done].
  - destruct (foreign_use s id r _ Hok Hr Hs Hu c) as [e ->]. split; [left; set_solver|done].
  - destruct (kdTarget _ _) as [q|]; [|split; [left; set_solver|done]]. destruct (required _ _); [|split; [left; set_solver|done]].
    destruct (foreign_share s id r _ Hok Hr Hu q c) as [e ->]. split; [left; set_solver|done].
Qed.

Lemma unguarded_constant c rt rq s :
  unguarded (rtEndpoint rt) = true → cred_handle c rt rq s = (constant (rtEndpoint rt), s).
Proof. intros H. unfold cred_handle. by destruct (rtEndpoint rt). Qed.

(** The credentials in the answers to somebody else. *)
Section unmentioned.
Context (s : CredentialService) (id : string) (r : Credential) (u : string) (c : CredentialCall).
Context (Hok : rows_ok (cvRows s)) (Hr : cvRows s !! id = Some r) (Hs : cdIsShared r = false) (Hu : u ≠ cdUserID r).

Lemma not_listed l x : ListCredentials s u c = Ok l → x ∈ l → cdID x ≠ id.
Proof.
  clear -Hok Hr Hu. unfold ListCredentials, Creds_List. intros E%try_ok Hx Hi. injection E as <-. apply rows_where_elem in Hx as (i & _ & Hi' & Hc%bool_decide_eq_true).
  pose proof (Hok _ _ Hi'). congruence.
Qed.
Lemma not_got i x : GetCredential s i u c = Ok x → cdID x ≠ id.
Proof.
  clear -Hok Hr Hs Hu. intros E Hi. destruct (foreign_get s id r u Hok Hr Hs Hu c) as [e He]. replace i with id in E by
    (unfold GetCredential in E; destruct (Creds_Get _ _ _ _) as [y|] eqn:Eg; [|done]; destruct (_ && _); [done|]; injection E as ->;
     apply (Creds_Get_some _ _ _ _ _ Hok) in Eg; by rewrite <- Hi, (Hok _ _ Eg)). congruence.
Qed.
Lemma not_created q x s' : CreateCredential seal column key s q c = (Ok x, s') → cdID x ≠ id.
Proof.
  clear -Hr. unfold CreateCredential. destruct (Credential_Validate _); [done|]. destruct (EncryptCredential _ _ _ _) as [[|] y]; [done|].
  destruct (Creds_Create _ _ _ _) as [t|] eqn:E; [|done]. intros [= <- _] Hi. unfold Creds_Create in E. apply try_ok in E.
  unfold stored_row in E. destruct (column _); simpl in E; [|done]. case_bool_decide as Hn; [done|]. apply Hn. rewrite Hi. by exists r.
Qed.
Lemma not_updated i q x s' : uqUserID q = u → UpdateCredential seal column key s i q c = (Ok x, s') → cdID x ≠ id.
Proof.
  clear -Hok Hr Hu. intros Eq E Hi. destruct (foreign_update s id r u Hok Hr Hu q c Eq) as [e He]. replace i with id in E; [congruence|].
  unfold UpdateCredential in E. destruct (Creds_Get _ _ _ _) as [y|] eqn:Eg; [|done]. apply (Creds_Get_some _ _ _ _ _ Hok) in Eg.
  destruct (negb _); [done|]. rewrite <- Hi. pose proof (Hok _ _ Eg) as Hy.
  destruct (if bool_decide _ then _ else _) as [[|] z] eqn:Ez; [done|]. assert (cdID z = i) as Hz.
  { case_bool_decide; [apply EncryptCredential_id in Ez as [d ->]|injection Ez as <-]; exact Hy. }
  destruct (Creds_Update _ _ _ _ _) as [t|]; [|done]. by injection E as <- _.
Qed.
End unmentioned.
Lemma foreign_unmentioned s id r c rq :
  rows_ok (cvRows s) → cvRows s !! id = Some r → cdIsShared r = false → GetHeader rq "X-User-ID" ≠ cdUserID r →
  ¬ mentions (rsBody (cred_serve c rq s).1) id.
Proof.
  intros Hok Hr Hs Hu. unfold cred_serve. case_bool_decide; [by intros []|]. destruct (find_route _ _) as [rt|]; [|by intros []].
  unfold cred_handle. destruct (rtEndpoint rt); try (by intros []);
    unfold handle_ListCredentials, handle_GetCredential, handle_CreateCredential, handle_UpdateCredential, handle_DeleteCredential,
      handle_TestCredential, handle_DecryptCredential, handle_ShareCredential, with_user, read_body, after, after_, asks, after_, tell;
    (case_bool_decide; [by intros []|]).
  - destruct (ListCredentials _ _ _) as [l|] eqn:E; [|by intros []]. intros (x & Hx & Hi). by eapply (not_listed s id r).
  - destruct (GetCredential _ _ _ _) as [x|] eqn:E; [|by intros []]. by eapply (not_got s id r).
  - destruct (kdCreate _ _) as [q|]; [|by intros []]. destruct (create_tags q); [|by intros []].
    destruct (CreateCredential _ _ _ _ _ _) as [[x|] s'] eqn:E; [|by intros []]. by eapply (not_created s id r).
  - destruct (kdUpdate _ _) as [q|]; [|by intros []]. destruct (UpdateCredential _ _ _ _ _ _ _) as [[x|] s'] eqn:E; [|by intros []].
    exact (not_updated s id r _ c Hok Hr Hu _ (update_by q _) _ _ eq_refl E).
  - destruct (DeleteCredential _ _ _ _) as [[|] ?]; by intros [].
  - destruct (TestCredential _ _ _ _ _ _ _) as [[|] ?]; by intros [].
  - destruct (GetDecryptedCredential _ _ _ _ _ _ _) as [[|] ?]; by intros [].
  - destruct (kdTarget _ _) as [q|]; [|by intros []]. destruct (required _ _); [|by intros []].
    destruct (ShareCredential _ _ _ _ _ _) as [[|] ?]; by intros [].
Qed.

(** C27. The HTTP interface keeps a credential that is not shared to the user it
    belongs to, going by the header X-User-ID.  After any requests in the names
    of others the credential is as it was, and it is in no answer to others, the
    lists and the answers to creations and updates included.  A further request
    of another that names it, on any of the nine routes that do, changes
    nothing, whatever fails meanwhile; on six of them it is refused, and on the
    other three (POST /:id/rotate, DELETE /:id/share/:userId, GET /:id/audit),
    whose handlers do nothing, it gets the same success or empty list as anybody
    for any ID, in any state of the service.  Its owner gets it when the select
    succeeds. *)
Theorem credential_api_isolation s trace id r :
  rows_ok (cvRows s) → cvRows s !! id = Some r → cdIsShared r = false →
  Forall (λ cr : CredentialCall * Request, GetHeader cr.2 "X-User-ID" ≠ cdUserID r) trace →
  let s' := cred_serves trace s in
  cvRows s' !! id = Some r
  ∧ (∀ c rq, GetHeader rq "X-User-ID" ≠ cdUserID r →
       ¬ mentions (rsBody (cred_serve c rq s').1) id
       ∧ ∀ rt, rqMethod rq ≠ "OPTIONS" → find_route Cred_setupRouter rq = Some rt → concerns (rtEndpoint rt) = true → Param rt "id" = id →
           (cred_serve c rq s').2 = s'
           ∧ if unguarded (rtEndpoint rt)
             then ∀ s2, cred_serve c rq s2 = (constant (rtEndpoint rt), s2)
             else denied (cred_serve c rq s').1)
  ∧ (∀ c rq rt, GetHeader rq "X-User-ID" = cdUserID r → cdUserID r ≠ "" → rqMethod rq ≠ "OPTIONS" →
       find_route Cred_setupRouter rq = Some rt → rtEndpoint rt = KGet → Param rt "id" = id →
       range_order (cvRows s') (ccOrd c) → ccFail c 0 "SELECT credentials" = None →
       cred_serve c rq s' = (JSON StatusOK (CBCredential r), s')).
Proof.
  intros Hok Hr Hs Ht s'. destruct (cred_serves_keep trace s id r Hok Hr Hs Ht) as [Hok' Hr']. fold s' in Hok', Hr'. split_and!; [done|..].
  - intros c rq Hu. split; [by apply (foreign_unmentioned s' id r)|]. intros rt Hm Hf Hc Hp. unfold cred_serve.
    rewrite bool_decide_false, Hf by done. destruct (unguarded (rtEndpoint rt)) eqn:Eu.
    + rewrite unguarded_constant by done. split; [done|]. intros s2. by apply unguarded_constant.
    + split; by apply (intruder_denied s' id r).
  - intros c rq rt Hu Hne Hm Hf He Hp Ho Hx. unfold cred_serve, cred_handle. rewrite bool_decide_false, Hf, He by done.
    unfold handle_GetCredential, with_user, asks, after_, GetCredential. rewrite Hu, bool_decide_false, Hp, (Creds_Get_lookup _ _ _ _ Hok' Ho Hx), Hr' by done.
    by rewrite bool_decide_true.
Qed.
End api.

(** ** An example *)

Definition demo_cred_decoders : CredDecoders :=
  {| kdCreate _ := Ok (demo_cred_request, true); kdUpdate _ := Err "EOF"; kdTarget b := Ok b |}.
Definition demo_cred_http (method u : string) (path : list string) : Request :=
  {| rqMethod := method; rqPath := ["api"; "v1"; "credentials"] ++ path; rqHeader := {["X-User-ID" := u]}; rqQuery := ∅; rqBody := "bob" |}.
Definition demo_cred_serve : CredentialCall → Request → CredentialService → Http.Response CredBody * CredentialService :=
  cred_serve toy_seal toy_open Some demo_secret_key demo_cred_decoders complain.
Definition demo_intruders : list (CredentialCall * Request) :=
  [(demo_cred_call "", demo_cred_http "DELETE" "bob" ["c"]); (demo_cred_call "", demo_cred_http "POST" "eve" ["c"; "share"]);
   (demo_cred_call "", demo_cred_http "GET" "bob" ["c"; "decrypt"])].

Lemma credential_api_isolation_witness :
  let s' := cred_serves toy_seal toy_open Some demo_secret_key demo_cred_decoders complain demo_intruders demo_created in
  cvRows s' !! "c" = Some demo_cred_row
  ∧ ¬ mentions (rsBody (demo_cred_serve (demo_cred_call "") (demo_cred_http "GET" "bob" []) s').1) "c"
  ∧ demo_cred_serve (demo_cred_call "") (demo_cred_http "GET" "ann" ["c"]) s' = (JSON StatusOK (CBCredential demo_cred_row), s').
Proof.
  destruct (credential_api_isolation toy_seal toy_open Some demo_secret_key demo_cred_decoders complain demo_created demo_intruders "c" demo_cred_row)
    as (H1 & H2 & H3).
  - intros id r H. replace (cvRows demo_created) with ({["c" := demo_cred_row]} : credentials) in H by (vm_compute; reflexivity).
    apply lookup_singleton_Some in H as [<- <-]. reflexivity.
  - vm_compute. reflexivity.
  - vm_compute. reflexivity.
  - repeat (apply Forall_cons; split; [vm_compute; discriminate|]). apply Forall_nil. exact I.
  - split; [exact H1|]. split; [apply H2; vm_compute; discriminate|].
    eapply H3; [reflexivity|vm_compute; discriminate|vm_compute; discriminate|reflexivity|reflexivity|reflexivity| |reflexivity].
    split; [apply NoDup_singleton|]. intros j. change (ccOrd _) with ["c"]. rewrite list_elem_of_singleton. split.
    + intros ->. exists demo_cred_row. exact H1.
    + intros [x Hx]. replace (cvRows _) with ({["c" := demo_cred_row]} : credentials) in Hx by (vm_compute; reflexivity).
      apply lookup_singleton_Some in Hx as [<- _]. reflexivity.
Defined.

(** ** Answers without an effect *)

(** The answers to a rotation of a credential, to the end of its sharing and to the
    revocation of an API key promise a success, of any credential and to anybody,
    and leave everything as it is. *)
Lemma placeholders_succeed seal open column key dc te c r rq s :
  rtEndpoint r ∈ [KRotate; KUnshare; KRevokeAPIKey; KRekeyVault; KDeleteCertificate] →
  succeeded (cred_handle seal open column key dc te c r rq s).1 ∧ (cred_handle seal open column key dc te c r rq s).2 = s.
Proof.
  unfold cred_handle, succeeded. intros H. rewrite !elem_of_cons in H.
  destruct H as [->|[->|[->|[->|[->|[]%elem_of_nil]]]]]; (split; [vm_compute; split; [discriminate|reflexivity]|reflexivity]).
Qed.
(** A credential that was shared stays shared: nothing takes it back. *)
Lemma unshare_keeps_shared :
  let shared := (demo_cred_serve (demo_cred_call "") (demo_cred_http "POST" "ann" ["c"; "share"]) demo_created).2 in
  let '(resp, s) := demo_cred_serve (demo_cred_call "") (demo_cred_http "DELETE" "ann" ["c"; "share"; "bob"]) shared in
  rsStatus resp = StatusNoContent
  ∧ rsStatus (demo_cred_serve (demo_cred_call "") (demo_cred_http "GET" "eve" ["c"; "decrypt"]) s).1 = StatusOK.
Proof. by vm_compute. Qed.
