(* ===== verification/UserApi.v ===== *)
(** internal/user/adapters/http/handlers/handlers.go and the router of
    internal/user/server/server.go: the HTTP interface of the user service.

    The decoders of bodies are parameters.  The metrics and the documentation are
    left out. *)

From S2P Require Import Prelude GoLib GoText WorkflowRepo Tokens Auth Users UserService Http.

(** ** Answers *)

Inductive UserBody :=
| UBEmpty
| UBObject (h : list (string * string))            (* a gin.H of texts *)
| UBUsers (r : ListUsersResponse)
| UBUser (u : User) (msg : option string)
| UBPermissions (userID : option string) (l : list string)
| UBTeam (t : Team) (msg : string)
| UBTeams (l : list Team)
| UBTeamWith (t : Team) (members : list User)
| UBRoles (l : list (string * string * string * list string)).    (* ID, name, description, permissions *)
Abbreviation Response := (Http.Response UserBody).
Definition user_fails (status : Z) (msg : string) : Response := JSON status (UBObject [("error", msg)]).
Definition user_message (msg : string) : Response := JSON StatusOK (UBObject [("message", msg)]).
Definition StatusNotImplemented : Z := 501.

(** ** Routes *)

Inductive UserEndpoint :=
| UHealth | UReady
| UListUsers | UGetUser | UUpdateUser | UDeleteUser | UGetUserPermissions
| UCreateTeam | UListTeams | UGetTeam | UUpdateTeam | UDeleteTeam | UAddTeamMember | URemoveTeamMember
| UListRoles | UCreateRole | UUpdateRole | UDeleteRole | UAssignRole | URevokeRole
| UListPermissions | UCreatePermission | UDeletePermission.
Abbreviation Route := (Http.Route UserEndpoint).
Definition user_v1 (method : string) (segs : list Seg) (e : UserEndpoint) : string * Route :=
  route method ([Lit "api"; Lit "v1"; Lit "users"] ++ segs) e.

Definition User_setupRouter : list (string * Route) := [
  route "GET" [Lit "health"; Lit "live"] UHealth;
  route "GET" [Lit "health"; Lit "ready"] UReady;
  user_v1 "GET" [] UListUsers;
  user_v1 "GET" [Par "id"] UGetUser;
  user_v1 "PUT" [Par "id"] UUpdateUser;
  user_v1 "DELETE" [Par "id"] UDeleteUser;
  user_v1 "GET" [Par "id"; Lit "permissions"] UGetUserPermissions;
  user_v1 "POST" [Lit "teams"] UCreateTeam;
  user_v1 "GET" [Lit "teams"] UListTeams;
  user_v1 "GET" [Lit "teams"; Par "id"] UGetTeam;
  user_v1 "PUT" [Lit "teams"; Par "id"] UUpdateTeam;
  user_v1 "DELETE" [Lit "teams"; Par "id"] UDeleteTeam;
  user_v1 "POST" [Lit "teams"; Par "id"; Lit "members"] UAddTeamMember;
  user_v1 "DELETE" [Lit "teams"; Par "id"; Lit "members"; Par "userId"] URemoveTeamMember;
  user_v1 "GET" [Lit "roles"] UListRoles;
  user_v1 "POST" [Lit "roles"] UCreateRole;
  user_v1 "PUT" [Lit "roles"; Par "id"] UUpdateRole;
  user_v1 "DELETE" [Lit "roles"; Par "id"] UDeleteRole;
  user_v1 "POST" [Lit "roles"; Par "id"; Lit "assign"] UAssignRole;
  user_v1 "DELETE" [Lit "roles"; Par "id"; Lit "revoke"] URevokeRole;
  user_v1 "GET" [Lit "permissions"] UListPermissions;
  user_v1 "POST" [Lit "permissions"] UCreatePermission;
  user_v1 "DELETE" [Lit "permissions"; Par "id"] UDeletePermission].

(** ** The predefined roles and permissions *)

Definition ListRoles : list (string * string * string * list string) := [
  ("admin", "Admin", "Full access to all resources", ["*"]);
  ("user", "User", "Standard user access", ["workflows:read"; "workflows:write"; "executions:read"]);
  ("viewer", "Viewer", "Read-only access", ["workflows:read"; "executions:read"]);
  ("developer", "Developer", "Developer access", ["workflows:*"; "executions:*"; "credentials:read"])].
Definition ListPermissions : list string := [
  "workflows:read"; "workflows:write"; "workflows:delete"; "workflows:execute";
  "executions:read"; "executions:write"; "executions:delete";
  "credentials:read"; "credentials:write"; "credentials:delete";
  "users:read"; "users:write"; "users:delete";
  "teams:read"; "teams:write"; "teams:delete";
  "admin:*"].

(** ** Bodies *)

Record UserDecoders := {
  udUpdateUser : string → result UpdateUserRequest;
  udCreateTeam : string → result CreateTeamRequest;
  udUpdateTeam : string → result UpdateTeamRequest;
  udUserID : string → result string
}.

Section api.
Context (order_by : string → list User → list User).
Context (rfc3339 : Z → string) (parse_rfc3339 : string → option Z).
Context (dc : UserDecoders) (tag_error : complaints → string).

(** A request makes one call of the service, that for a team a second one. *)
Record UserApiCall := { uaCall : ServiceCall; uaMembers : ServiceCall }.
Abbreviation user_api := (handler UserService UserBody).
Abbreviation user_body := (read_body tag_error).
Definition invalid (e : string) : Response := JSON StatusBadRequest (UBObject [("error", "Invalid request"); ("details", e)]).
Definition id_missing (_ : string) : Response := user_fails StatusBadRequest "userId is required".
Definition failing (msg : string) (_ : string) : Response := user_fails StatusInternalServerError msg.
Definition missing (what msg failed : string) (e : string) : Response :=
  if bool_decide (e = what) then user_fails StatusNotFound msg else failing failed e.
(** A call that always succeeds. *)
Definition done_ (call : UserService → UserService) (ok : Response) : user_api := λ s, (ok, call s).

(** ** Handlers *)

Definition list_request (rq : Request) : ListUsersRequest :=
  {| lrPage := atoi (DefaultQuery rq "page" "1"); lrLimit := atoi (DefaultQuery rq "limit" "20"); lrStatus := Query rq "status";
     lrRoleID := Query rq "roleId"; lrSortBy := DefaultQuery rq "sortBy" "created_at"; lrSortDesc := bool_decide (Query rq "sortDesc" = "true") |}.
Definition handle_ListUsers (a : UserApiCall) (rq : Request) : user_api :=
  asks (λ s, Service_ListUsers order_by s (list_request rq) (uaCall a)) (failing "Failed to list users") (λ r, JSON StatusOK (UBUsers r)).
Definition handle_GetUser (a : UserApiCall) (r : Route) : user_api :=
  asks (λ s, Service_GetUser s (Param r "id") (uaCall a)) (λ _, user_fails StatusNotFound "User not found") (λ u, JSON StatusOK (UBUser u None)).
Definition handle_UpdateUser (a : UserApiCall) (r : Route) (rq : Request) : user_api :=
  user_body (udUpdateUser dc) (λ _, []) invalid rq (λ q,
    after_ (λ s, Service_UpdateUser s (Param r "id") q (uaCall a)) (missing "user not found" "User not found" "Failed to update user")
      (λ u, JSON StatusOK (UBUser u (Some "User updated successfully")))).
Definition handle_DeleteUser (a : UserApiCall) (r : Route) : user_api :=
  after (λ s, Service_DeleteUser s (Param r "id") (uaCall a)) (failing "Failed to delete user") (user_message "User deleted successfully").
Definition handle_GetUserPermissions (a : UserApiCall) (r : Route) : user_api :=
  asks (λ s, Service_GetUserPermissions s (Param r "id") (uaCall a)) (λ _, user_fails StatusNotFound "User not found")
    (λ l, JSON StatusOK (UBPermissions (Some (Param r "id")) l)).

(** *** Teams *)

(** No middleware sets [userId]: the owner of a request without one is the empty
    text, as [c.GetString] answers. *)
Definition handle_CreateTeam (a : UserApiCall) (rq : Request) : user_api :=
  user_body (udCreateTeam dc) (λ _, []) invalid rq (λ q,
    after_ (λ s, CreateTeam rfc3339 s q (uaCall a)) (failing "Failed to create team")
      (λ t, JSON StatusCreated (UBTeam t "Team created successfully"))).
Definition handle_ListTeams (a : UserApiCall) : user_api :=
  asks (λ s, ListTeams parse_rfc3339 s (uaCall a)) (failing "Failed to list teams") (λ l, JSON StatusOK (UBTeams l)).
(** An error of the members is ignored. *)
Definition handle_GetTeam (a : UserApiCall) (r : Route) : user_api := λ s,
  match GetTeam parse_rfc3339 s (Param r "id") (vcDown (uaCall a) 0) with
  | Err _ => (user_fails StatusNotFound "Team not found", s)
  | Ok t => (JSON StatusOK (UBTeamWith t (default [] (ok_of (GetTeamMembers s (Param r "id") (uaMembers a))))), s)
  end.
Definition handle_UpdateTeam (a : UserApiCall) (r : Route) (rq : Request) : user_api :=
  user_body (udUpdateTeam dc) (λ _, []) invalid rq (λ q,
    after_ (λ s, UpdateTeam parse_rfc3339 s (Param r "id") q (uaCall a)) (missing "team not found" "Team not found" "Failed to update team")
      (λ t, JSON StatusOK (UBTeam t "Team updated successfully"))).
Definition handle_DeleteTeam (a : UserApiCall) (r : Route) : user_api :=
  done_ (λ s, DeleteTeam s (Param r "id") (uaCall a)) (user_message "Team deleted successfully").
Definition handle_AddTeamMember (a : UserApiCall) (r : Route) (rq : Request) : user_api :=
  user_body (udUserID dc) (required "UserID") id_missing rq (λ u,
    after (λ s, AddTeamMember parse_rfc3339 s (Param r "id") u (uaCall a)) (user_fails StatusBadRequest) (user_message "Member added successfully")).
Definition handle_RemoveTeamMember (a : UserApiCall) (r : Route) : user_api :=
  done_ (λ s, RemoveTeamMember s (Param r "id") (Param r "userId") (uaCall a)) (user_message "Member removed successfully").

(** *** Roles and permissions *)

Definition role_message (msg userID roleID : string) : Response :=
  JSON StatusOK (UBObject [("message", msg); ("userId", userID); ("roleId", roleID)]).
Definition handle_UserAssignRole (a : UserApiCall) (r : Route) (rq : Request) : user_api :=
  user_body (udUserID dc) (required "UserID") id_missing rq (λ u,
    after (λ s, Service_AssignRole s u (Param r "id") (uaCall a)) (failing "Failed to assign role")
      (role_message "Role assigned successfully" u (Param r "id"))).
Definition handle_RevokeRole (a : UserApiCall) (r : Route) (rq : Request) : user_api :=
  user_body (udUserID dc) (required "UserID") id_missing rq (λ u,
    after (λ s, RevokeRole s u (Param r "id") (uaCall a)) (failing "Failed to revoke role")
      (role_message "Role revoked successfully" u (Param r "id"))).
Definition unsupported (msg : string) : user_api := tell (user_fails StatusNotImplemented msg).

Definition user_handle (a : UserApiCall) (r : Route) (rq : Request) : user_api :=
  match rtEndpoint r with
  | UHealth => tell (JSON StatusOK (UBObject [("status", "healthy"); ("service", "user-service")]))
  | UReady => tell (JSON StatusOK (UBObject [("status", "ready"); ("service", "user-service")]))
  | UListUsers => handle_ListUsers a rq
  | UGetUser => handle_GetUser a r
  | UUpdateUser => handle_UpdateUser a r rq
  | UDeleteUser => handle_DeleteUser a r
  | UGetUserPermissions => handle_GetUserPermissions a r
  | UCreateTeam => handle_CreateTeam a rq
  | UListTeams => handle_ListTeams a
  | UGetTeam => handle_GetTeam a r
  | UUpdateTeam => handle_UpdateTeam a r rq
  | UDeleteTeam => handle_DeleteTeam a r
  | UAddTeamMember => handle_AddTeamMember a r rq
  | URemoveTeamMember => handle_RemoveTeamMember a r
  | UListRoles => tell (JSON StatusOK (UBRoles ListRoles))
  | UCreateRole => unsupported "Custom role creation not supported. Use predefined roles."
  | UUpdateRole => unsupported "Role modification not supported. Use predefined roles."
  | UDeleteRole => unsupported "Role deletion not supported. Use predefined roles."
  | UAssignRole => handle_UserAssignRole a r rq
  | URevokeRole => handle_RevokeRole a r rq
  | UListPermissions => tell (JSON StatusOK (UBPermissions None ListPermissions))
  | UCreatePermission => unsupported "Custom permission creation not supported"
  | UDeletePermission => unsupported "Permission deletion not supported"
  end.
Definition user_serve (a : UserApiCall) (rq : Request) : user_api :=
  if bool_decide (rqMethod rq = "OPTIONS") then tell (JSON StatusNoContent UBEmpty)
  else match find_route User_setupRouter rq with
       | None => tell (JSON StatusNotFound UBEmpty)
       | Some r => user_handle a r rq
       end.

(** ** What the interface guarantees *)

(** The endpoints that read, and those of GET are such. *)
Definition user_reads (e : UserEndpoint) : bool :=
  match e with
  | UUpdateUser | UDeleteUser | UCreateTeam | UUpdateTeam | UDeleteTeam | UAddTeamMember | URemoveTeamMember | UAssignRole | URevokeRole => false
  | _ => true
  end.
Lemma get_reads : Forall (λ mr : string * Route, mr.1 = "GET" → user_reads (rtEndpoint mr.2) = true) User_setupRouter.
Proof. clear. repeat (apply Forall_cons; split; [done|]). by apply Forall_nil. Qed.
(** A GET changes nothing. *)
Lemma user_get_pure a rq s : rqMethod rq = "GET" → (user_serve a rq s).2 = s.
Proof.
  intros Hm. unfold user_serve. case_bool_decide; [done|]. destruct (find_route _ _) as [r|] eqn:E; [|done].
  apply find_route_endpoint in E as (r0 & Hin & He). pose proof (proj1 (Forall_forall _ _) get_reads _ Hin Hm) as Hr. simpl in Hr.
  rewrite He in Hr. unfold user_handle. destruct (rtEndpoint r); try discriminate Hr; try reflexivity; try exact (asks_state _ _ _ _).
  unfold handle_GetTeam. by destruct (GetTeam _ _ _ _).
Qed.
(** A request for what is not supported is answered 501 and changes nothing. *)
Lemma roles_fixed a r rq s :
  rtEndpoint r ∈ [UCreateRole; UUpdateRole; UDeleteRole; UCreatePermission; UDeletePermission] →
  rsStatus (user_handle a r rq s).1 = StatusNotImplemented ∧ (user_handle a r rq s).2 = s.
Proof. unfold user_handle. rewrite !elem_of_cons. intros [->|[->|[->|[->|[->|[]%elem_of_nil]]]]]; done. Qed.
(** A role that the list names by an ID no row has cannot be assigned. *)
Lemma unlisted_role a r rq s :
  rtEndpoint r = UAssignRole → udRoles (svUsers s) !! Param r "id" = None →
  ¬ succeeded (user_handle a r rq s).1 ∧ (user_handle a r rq s).2 = s.
Proof.
  intros He Hr. unfold user_handle. rewrite He. unfold handle_UserAssignRole, read_body, after, Service_AssignRole, keep_users, Users_AssignRole, change_user_role, role_exists, try, tell.
  destruct (udUserID _ _) as [u|]; [destruct (required _ _)|]; try (split; [by intros [_ ?]|done]).
  rewrite Hr. destruct (vcFail _ _ _); [|destruct (udUsers _ !! _); [destruct (vcFail _ _ _)|]]; (split; [by intros [_ ?]|done]).
Qed.
(** Nobody is asked who they are: no header of a request matters. *)
Lemma headers_ignored a rq h : user_serve a {| rqMethod := rqMethod rq; rqPath := rqPath rq; rqHeader := h; rqQuery := rqQuery rq; rqBody := rqBody rq |} = user_serve a rq.
Proof. done. Qed.
End api.

(** ** Examples *)

Definition demo_user_decoders : UserDecoders :=
  {| udUpdateUser _ := Err "EOF"; udCreateTeam _ := Ok {| crName := "ops"; crDescription := ""; crOwnerID := "" |}; udUpdateTeam _ := Err "EOF";
     udUserID b := Ok b |}.
Definition demo_user_serve (method : string) (path : list string) (body : string) : UserService → Http.Response UserBody * UserService :=
  user_serve (λ _ l, l) unary_time parse_unary demo_user_decoders complain
    {| uaCall := demo_service_call 1 "t"; uaMembers := demo_service_call 1 "" |}
    {| rqMethod := method; rqPath := ["api"; "v1"; "users"] ++ path; rqHeader := ∅; rqQuery := ∅; rqBody := body |}.

(** A request without any credentials makes a user an administrator. *)
Lemma anybody_assigns_roles :
  let db := {| udUsers := udUsers demo_table; udRoles := udRoles demo_table; udUserRoles := ∅; udTeamMembers := ∅ |} in
  let '(resp, s) := demo_user_serve "POST" ["roles"; "r"; "assign"] "1" {| svUsers := db; svTeams := ∅; svEvents := [] |} in
  rsStatus resp = StatusOK ∧ udUserRoles (svUsers s) = {[("1", "r")]} ∧ roName <$> udRoles (svUsers s) !! "r" = Some "admin".
Proof. by vm_compute. Qed.
(** The team of a request that names no owner belongs to the empty text. *)
Lemma team_without_owner :
  let '(resp, s) := demo_user_serve "POST" ["teams"] "" demo_service in
  rsStatus resp = StatusCreated ∧ smembers (svTeams s) (members_key "t") [""] = Some [""].
Proof. by vm_compute. Qed.
