(* ===== verification/WebhookApi.v ===== *)
(** internal/webhook/adapters/http: the handlers of the webhook service, its router
    of incoming requests, and the routes of internal/webhook/server/server.go.

    The user of a request is the one its header X-User-ID names, where a handler
    asks for one.  The decoders of bodies are parameters; the metrics are left out. *)

From S2P Require Import Prelude GoValue GoLib WorkflowRepo Redis Tokens Webhooks Http.

(** ** Answers *)

Inductive HookBody :=
| HBEmpty
| HBWebhook (w : Webhook)
| HBWebhooks (l : list Webhook)
| HBReply (r : option WebhookResponse)
| HBObject (h : list (string * value)).            (* another gin.H *)
Abbreviation Response := (Http.Response HookBody).
Definition hook_says (status : Z) (h : list (string * value)) : Response := JSON status (HBObject h).
Definition hook_fails (status : Z) (msg : string) : Response := hook_says status [("error", VStr msg)].

(** ** Routes *)

Inductive HookEndpoint :=
| WHealth | WReady | WRoute
| WList | WGet | WCreate | WUpdate | WDelete
| WEnable | WDisable | WRegenerateSecret | WTest
| WLogs | WStats | WRetry | WListTemplates | WFromTemplate | WVerify.
Abbreviation Route := (Http.Route HookEndpoint).
Definition hook_v1 (method : string) (segs : list Seg) (e : HookEndpoint) : string * Route :=
  route method ([Lit "api"; Lit "v1"; Lit "webhooks"] ++ segs) e.
Definition Any (segs : list Seg) (e : HookEndpoint) : list (string * Route) :=
  (λ m, route m segs e) <$> ["GET"; "POST"; "PUT"; "PATCH"; "HEAD"; "OPTIONS"; "DELETE"; "CONNECT"; "TRACE"].

Definition Hook_setupRouter : list (string * Route) := [
  route "GET" [Lit "health"; Lit "live"] WHealth;
  route "GET" [Lit "health"; Lit "ready"] WReady]
  ++ Any [Lit "webhook"; Par "path"] WRoute ++ Any [Lit "webhooks"; Par "path"] WRoute ++ [
  hook_v1 "GET" [] WList;
  hook_v1 "GET" [Par "id"] WGet;
  hook_v1 "POST" [] WCreate;
  hook_v1 "PUT" [Par "id"] WUpdate;
  hook_v1 "DELETE" [Par "id"] WDelete;
  hook_v1 "POST" [Par "id"; Lit "enable"] WEnable;
  hook_v1 "POST" [Par "id"; Lit "disable"] WDisable;
  hook_v1 "POST" [Par "id"; Lit "regenerate-secret"] WRegenerateSecret;
  hook_v1 "POST" [Par "id"; Lit "test"] WTest;
  hook_v1 "GET" [Par "id"; Lit "logs"] WLogs;
  hook_v1 "GET" [Par "id"; Lit "stats"] WStats;
  hook_v1 "POST" [Par "id"; Lit "retry"; Par "logId"] WRetry;
  hook_v1 "GET" [Lit "templates"] WListTemplates;
  hook_v1 "POST" [Lit "from-template"] WFromTemplate;
  hook_v1 "POST" [Lit "verify"] WVerify].

(** ** Bodies *)

Record HookDecoders := {
  hdCreate : string → result CreateWebhookRequest;
  hdUpdate : string → result UpdateWebhookRequest
}.
Definition hook_by (q : CreateWebhookRequest) (u : string) : CreateWebhookRequest :=
  {| cwWorkflowID := cwWorkflowID q; cwNodeID := cwNodeID q; cwUserID := u; cwName := cwName q; cwPath := cwPath q; cwMethod := cwMethod q;
     cwRequireAuth := cwRequireAuth q; cwAuthType := cwAuthType q; cwAuthConfig := cwAuthConfig q; cwHeaders := cwHeaders q;
     cwRateLimit := cwRateLimit q |}.
Definition only_active (b : bool) : UpdateWebhookRequest :=
  {| uwName := ""; uwMethod := ""; uwIsActive := Some b; uwRequireAuth := None; uwAuthType := ""; uwAuthConfig := None; uwRateLimit := 0 |}.

Section api.
Context (hmac_hex : string → string → string) (unmarshal : string → option (option vmap)).
Context (dc : HookDecoders) (tag_error : complaints → string).

Abbreviation hook_api := (handler WebhookService HookBody).
Abbreviation hook_body := (read_body tag_error).
Definition hook_bad (e : string) : Response := hook_fails StatusBadRequest e.

(** ** Handlers *)

Definition hook_user (rq : Request) (k : string → hook_api) : hook_api :=
  let userID := GetHeader rq "X-User-ID" in
  if bool_decide (userID = "") then tell (hook_fails StatusUnauthorized "user ID required") else k userID.

Definition handle_ListWebhooks (c : WebhookCall) (rq : Request) : hook_api :=
  hook_user rq (λ u, asks (λ s, ListWebhooks s u c) (λ _, hook_fails StatusInternalServerError "failed to list webhooks")
                      (λ l, JSON StatusOK (HBWebhooks l))).
Definition handle_GetWebhook (c : WebhookCall) (r : Route) : hook_api :=
  asks (λ s, Webhook_Get s (Param r "id") c) (λ _, hook_fails StatusNotFound "webhook not found") (λ w, JSON StatusOK (HBWebhook w)).
Definition handle_CreateWebhook (c : WebhookCall) (rq : Request) : hook_api :=
  hook_user rq (λ u,
    hook_body (hdCreate dc) (λ q, required "WorkflowID" (cwWorkflowID q) ++ required "NodeID" (cwNodeID q)) hook_bad rq (λ q,
      after_ (λ s, CreateWebhook s (hook_by q u) c) hook_bad (λ w, JSON StatusCreated (HBWebhook w)))).
Definition changing (c : WebhookCall) (r : Route) (q : UpdateWebhookRequest) : hook_api :=
  after_ (λ s, UpdateWebhook s (Param r "id") q c) hook_bad (λ w, JSON StatusOK (HBWebhook w)).
Definition handle_UpdateWebhook (c : WebhookCall) (r : Route) (rq : Request) : hook_api :=
  hook_body (hdUpdate dc) (λ _, []) hook_bad rq (changing c r).
Definition handle_DeleteWebhook (c : WebhookCall) (r : Route) : hook_api :=
  after (λ s, DeleteWebhook s (Param r "id") c) hook_bad (JSON StatusNoContent HBEmpty).
Definition handle_EnableWebhook (c : WebhookCall) (r : Route) : hook_api := changing c r (only_active true).
Definition handle_DisableWebhook (c : WebhookCall) (r : Route) : hook_api := changing c r (only_active false).

Definition hook_template (id name description : string) : value :=
  VObj [("id", VStr id); ("name", VStr name); ("description", VStr description)].
Definition hook_constant (e : HookEndpoint) : Response :=
  match e with
  | WHealth => hook_says StatusOK [("status", VStr "healthy")]
  | WReady => hook_says StatusOK [("status", VStr "ready")]
  | WRegenerateSecret => hook_says StatusOK [("message", VStr "Secret regenerated")]
  | WTest => hook_says StatusOK [("success", VBool true); ("message", VStr "Test webhook sent")]
  | WLogs => hook_says StatusOK [("logs", VArr [])]
  | WStats => hook_says StatusOK [("stats", VObj [("totalCalls", VInt 0); ("successfulCalls", VInt 0); ("failedCalls", VInt 0)])]
  | WRetry => hook_says StatusOK [("message", VStr "Retry initiated")]
  | WListTemplates => hook_says StatusOK [("templates", VArr [
      hook_template "github" "GitHub Webhook" "Receive GitHub events";
      hook_template "stripe" "Stripe Webhook" "Receive Stripe events";
      hook_template "slack" "Slack Webhook" "Receive Slack events"])]
  | WFromTemplate => hook_says StatusCreated [("message", VStr "Webhook created from template")]
  | _ => hook_says StatusOK [("valid", VBool true)]
  end.

(** *** Incoming requests *)

(** The handler of incoming requests, which no route leads to. *)
Definition HandleIncomingWebhook (c : WebhookCall) (path : string) (r : Webhooks.Request) (s : WebhookService) : outcome Response * WebhookService :=
  let '(o, s') := HandleWebhook hmac_hex unmarshal s path r c in
  (match o with
   | Ret (response, statusCode, err) =>
       Ret (match err with Some e => hook_fails statusCode e | None => JSON statusCode (HBReply response) end)
   | Panic m => Panic m
   | NoFuel => NoFuel
   end, s').
(** The router's, which answers the routes of webhooks. *)
Definition RouteWebhook : hook_api := tell (hook_says StatusOK [("message", VStr "Webhook received")]).
(** [LoadRoutes]: the webhooks are read and dropped. *)
Definition LoadRoutes (s : WebhookService) (c : WebhookCall) : option string :=
  match ListActive (wsTable s) (wcOrd c) (wcFail c 0) with Err e => Some e | Ok _ => None end.

Definition hook_handle (c : WebhookCall) (r : Route) (rq : Request) : hook_api :=
  match rtEndpoint r with
  | WRoute => RouteWebhook
  | WList => handle_ListWebhooks c rq
  | WGet => handle_GetWebhook c r
  | WCreate => handle_CreateWebhook c rq
  | WUpdate => handle_UpdateWebhook c r rq
  | WDelete => handle_DeleteWebhook c r
  | WEnable => handle_EnableWebhook c r
  | WDisable => handle_DisableWebhook c r
  | e => tell (hook_constant e)
  end.
Definition hook_serve (c : WebhookCall) (rq : Request) : hook_api :=
  if bool_decide (rqMethod rq = "OPTIONS") then tell (JSON StatusNoContent HBEmpty)
  else match find_route Hook_setupRouter rq with
       | None => tell (JSON StatusNotFound HBEmpty)
       | Some r => hook_handle c r rq
       end.

(** ** What the interface guarantees *)

(** Every request keeps the cache and the table together, when updates do not fail. *)
Lemma hook_serve_keeps c rq s : coherent s → updates_ok c → keeps s (hook_serve c rq s).2.
Proof.
  intros Hs Hc. unfold hook_serve. case_bool_decide; [by apply keeps_same|]. destruct (find_route _ _) as [r|]; [|by apply keeps_same].
  unfold hook_handle. destruct (rtEndpoint r); try (by apply keeps_same);
    unfold handle_ListWebhooks, handle_GetWebhook, handle_CreateWebhook, handle_UpdateWebhook, handle_DeleteWebhook, handle_EnableWebhook,
      handle_DisableWebhook, hook_user, changing; try (case_bool_decide; [by apply keeps_same|]);
    rewrite ?read_body_state, ?asks_state, ?after_state, ?after__state; try (by apply keeps_same); try (by apply UpdateWebhook_keeps).
  - destruct (hdCreate _ _) as [q|]; [destruct (_ ++ _)|]; try (by apply keeps_same). rewrite after__state. by apply CreateWebhook_keeps.
  - destruct (hdUpdate _ _) as [q|]; [|by apply keeps_same]. rewrite after__state. by apply UpdateWebhook_keeps.
  - by apply DeleteWebhook_keeps.
Qed.
(** An incoming request is answered with success, whatever it is, and nothing
    happens: no webhook is looked up, no event asks for an execution. *)
Lemma incoming_dropped c rq r s :
  rqMethod rq ≠ "OPTIONS" → find_route Hook_setupRouter rq = Some r → rtEndpoint r = WRoute →
  hook_serve c rq s = (hook_says StatusOK [("message", VStr "Webhook received")], s).
Proof. intros Hm Hf He. unfold hook_serve, hook_handle. by rewrite bool_decide_false, Hf, He. Qed.
End api.

(** ** Examples *)

Definition demo_hook_http (method : string) (path : list string) : Request :=
  {| rqMethod := method; rqPath := path; rqHeader := ∅; rqQuery := ∅; rqBody := "" |}.
Definition demo_hook_serve : Request → WebhookService → Http.Response HookBody * WebhookService :=
  hook_serve {| hdCreate _ := Err "EOF"; hdUpdate _ := Ok (only_active false) |} complain (demo_hook_call 1).

(** The service would publish the event of a call that the route drops. *)
Lemma route_drops_a_call :
  length (wsEvents (HandleIncomingWebhook demo_mac demo_json (demo_hook_call 1) "in" (demo_request "x" false) demo_started).2) = 1
  ∧ (demo_hook_serve (demo_hook_http "POST" ["webhooks"; "in"]) demo_started).2 = demo_started
  ∧ rsStatus (demo_hook_serve (demo_hook_http "POST" ["webhooks"; "unknown"]) demo_started).1 = StatusOK.
Proof. split_and!; [by vm_compute|reflexivity|reflexivity]. Qed.
(** Requests without a user read, disable and delete the webhook of a user. *)
Lemma webhooks_of_everybody :
  rsBody (demo_hook_serve (demo_hook_http "GET" ["api"; "v1"; "webhooks"; "h"]) demo_started).1 = HBWebhook demo_hook
  ∧ whIsActive <$> wsTable (demo_hook_serve (demo_hook_http "POST" ["api"; "v1"; "webhooks"; "h"; "disable"]) demo_started).2 !! "h" = Some false
  ∧ wsTable (demo_hook_serve (demo_hook_http "DELETE" ["api"; "v1"; "webhooks"; "h"]) demo_started).2 = ∅.
Proof. by vm_compute. Qed.
