(* ===== verification/Archival.v ===== *)
(** internal/execution/adapters/archival: the archiver, which moves old executions
    from the tables to compressed objects, and the retriever, which reads both.

    The object store is the class [Storage], with the laws of an object store; gzip,
    encoding/json, the text of a date and LIKE are parameters.  Executions are those
    of [Orchestrator] with their creator and the executions of their nodes. *)

From S2P Require Import Prelude GoValue GoLib GoText WorkflowRepo Tokens Orchestrator.
From Stdlib Require Import Ascii.
From stdpp Require Import sorting.

(** ** Data *)

Record Execution := { exRow : WorkflowExecution; exCreatedBy : string; exNodes : list NodeExecution }.
Definition exID (e : Execution) : string := weID (exRow e).
Definition exCreatedAt (e : Execution) : Z := weCreatedAt (exRow e).
Record ExecutionArchive := {
  eaID : string;
  eaDate : string;
  eaCount : Z;
  eaExecutions : list Execution;
  eaCreatedAt : Z
}.
Record ArchiveMetadata := {
  amID : string;
  amType : string;
  amDate : string;
  amRecordCount : Z;
  amOriginalSize : Z;
  amCompressedSize : Z;
  amCompressionRatio : spec_float;
  amStorageKey : string;
  amCreatedAt : Z
}.
Record ArchiveStats := {
  xsTotalArchives : Z;
  xsTotalRecords : Z;
  xsTotalStorageSize : Z;
  xsAverageCompressionRatio : spec_float;
  xsArchivesByType : gmap string Z;
  xsRecentArchives : Z
}.
Record ArchivedExecutionFilter := {
  afWorkflowID : string;
  afStatus : string;
  afUserID : string;
  afStartDate : Z;
  afEndDate : Z;
  afLimit : Z
}.
Record UnifiedExecutionFilter := {
  ufArchived : ArchivedExecutionFilter;            (* the fields they share *)
  ufIncludeHotStorage : bool;
  ufIncludeColdStorage : bool
}.

(** The storage backend: an object is what was uploaded last under its key. *)
Class Storage (T : Type) := {
  st_upload : T → string → string → option string * T;
  st_download : T → string → result string;
  st_delete : T → string → option string * T;
  st_upload_ok t k d t' : st_upload t k d = (None, t') → st_download t' k = Ok d;
  st_upload_other t k d k' : k' ≠ k → st_download (st_upload t k d).2 k' = st_download t k';
  st_delete_other t k k' : k' ≠ k → st_download (st_delete t k).2 k' = st_download t k'
}.

Record Archiver := { arRetentionDays : Z; arBatchSize : nat }.
Definition NewArchiver (retentionDays : Z) : Archiver := {| arRetentionDays := retentionDays; arBatchSize := 1000 |}.

Section archival.
Context {T : Type} `{!Storage T}.
Context (compress decompress : string → result string).
Context (marshal : ExecutionArchive → result string) (unmarshal : string → result ExecutionArchive).
Context (date_of : Z → string) (add_days : Z → Z → Z) (like : string → string → bool).

(** The tables, and the objects. *)
Record ArchiveStore := {
  asRows : gmap string (WorkflowExecution * string);        (* with created_by *)
  asNodes : gmap string NodeExecution;
  asMeta : gmap string ArchiveMetadata;
  asObjects : T
}.
(** What a call reads from outside: the orders of executions, of node executions, of
    metadata and of the dates of a batch, IDs, the clock, and what fails. *)
Record ArchiveCall := {
  acRows : nat → list string;
  acNodes : list string;
  acMeta : list string;
  acDates : nat → list string → list string;
  acUuid : nat → string;
  acNow : nat → Z;
  acFail : nat → db_fail;
  acDown : nat → option string                              (* the error of a download *)
}.
Definition put_objects (s : ArchiveStore) (o : T) : ArchiveStore :=
  {| asRows := asRows s; asNodes := asNodes s; asMeta := asMeta s; asObjects := o |}.
Definition put_meta (s : ArchiveStore) (m : gmap string ArchiveMetadata) : ArchiveStore :=
  {| asRows := asRows s; asNodes := asNodes s; asMeta := m; asObjects := asObjects s |}.

(** Preload("NodeExecutions"). *)
Definition nodes_of (s : ArchiveStore) (ord : list string) (id : string) : list NodeExecution :=
  rows_where (asNodes s) ord (λ n, bool_decide (neExecutionID n = id)).
Definition load_execution (s : ArchiveStore) (ord : list string) (r : WorkflowExecution * string) : Execution :=
  {| exRow := r.1; exCreatedBy := r.2; exNodes := nodes_of s ord (weID r.1) |}.

(** ** The archiver *)

Definition storage_key (date id : string) : string := "archive/executions/" +:+ date +:+ "/" +:+ id +:+ ".gz".
Definition compression_ratio (original compressed : Z) : spec_float :=
  f64_mul (f64_div (f64_of_Z (original - compressed)) (f64_of_Z original)) (f64_of_Z 100).
Definition create_meta (t : gmap string ArchiveMetadata) (m : ArchiveMetadata) (fail : db_fail) : result (gmap string ArchiveMetadata) :=
  try fail "INSERT archive_metadata"
    (if bool_decide (is_Some (t !! amID m)) || existsb (λ p, bool_decide (amStorageKey p.2 = amStorageKey m)) (map_to_list t)
     then Err duplicate_key else Ok (<[amID m := m]> t)).

(** One date of a batch; [n] is the number of the archive. *)
Definition archive_group (c : ArchiveCall) (date : string) (execs : list Execution) (n : nat) (s : ArchiveStore) : option string * ArchiveStore :=
  let archive := {| eaID := acUuid c n; eaDate := date; eaCount := Z.of_nat (length execs); eaExecutions := execs; eaCreatedAt := acNow c n |} in
  match marshal archive with
  | Err e => (Some ("failed to serialize archive: " +:+ e), s)
  | Ok data =>
      match compress data with
      | Err e => (Some ("failed to compress data: " +:+ e), s)
      | Ok compressed =>
          let key := storage_key date (eaID archive) in
          match st_upload (asObjects s) key compressed with
          | (Some e, o) => (Some ("failed to upload archive: " +:+ e), put_objects s o)
          | (None, o) =>
              let s := put_objects s o in
              let size := Z.of_nat (String.length data) in
              let csize := Z.of_nat (String.length compressed) in
              let m := {| amID := eaID archive; amType := "executions"; amDate := date; amRecordCount := eaCount archive;
                          amOriginalSize := size; amCompressedSize := csize; amCompressionRatio := compression_ratio size csize;
                          amStorageKey := key; amCreatedAt := acNow c n |} in
              match create_meta (asMeta s) m (acFail c n) with
              | Err e => (Some ("failed to save archive metadata: " +:+ e), s)
              | Ok t => (None, put_meta s t)
              end
          end
      end
  end.
Definition exDate (e : Execution) : string := date_of (exCreatedAt e).
Fixpoint archive_groups (c : ArchiveCall) (execs : list Execution) (dates : list string) (n : nat) (s : ArchiveStore) :
    option string * nat * ArchiveStore :=
  match dates with
  | [] => (None, n, s)
  | date :: dates =>
      match archive_group c date (filter (λ e, exDate e = date) execs) n s with
      | (Some e, s) => (Some e, n, s)
      | (None, s) => archive_groups c execs dates (S n) s
      end
  end.
Definition archiveBatch (c : ArchiveCall) (i : nat) (execs : list Execution) (n : nat) (s : ArchiveStore) : option string * nat * ArchiveStore :=
  archive_groups c execs (acDates c i (remove_dups (exDate <$> execs))) n s.

(** The transaction deletes the node executions first. *)
Definition deleteArchivedExecutions (execs : list Execution) (s : ArchiveStore) (fail : db_fail) : result ArchiveStore :=
  let ids := exID <$> execs in
  try fail "DELETE node_executions" (try fail "DELETE workflow_executions"
    (Ok {| asRows := filter (λ r, r.1 ∉ ids) (asRows s); asNodes := filter (λ r, neExecutionID r.2 ∉ ids) (asNodes s);
           asMeta := asMeta s; asObjects := asObjects s |})).

Definition old_rows (c : ArchiveCall) (before : Z) (i : nat) (s : ArchiveStore) : list (WorkflowExecution * string) :=
  rows_where (asRows s) (acRows c i) (λ r, bool_decide (weCreatedAt r.1 < before)%Z).
(** Batch [i]; the offset grows although the rows before it are gone. *)
Fixpoint archive_loop (fuel : nat) (a : Archiver) (c : ArchiveCall) (before : Z) (i offset n : nat) (s : ArchiveStore) :
    outcome (option string) * ArchiveStore :=
  match fuel with
  | O => (NoFuel, s)
  | S fuel =>
      match acFail c i "SELECT workflow_executions" with
      | Some e => (Ret (Some ("failed to query executions: " +:+ e)), s)
      | None =>
          match load_execution s (acNodes c) <$> take (arBatchSize a) (drop offset (old_rows c before i s)) with
          | [] => (Ret None, s)
          | execs =>
              match archiveBatch c i execs n s with
              | (Some e, _, s) => (Ret (Some ("failed to archive batch: " +:+ e)), s)
              | (None, n, s) =>
                  match deleteArchivedExecutions execs s (acFail c i) with
                  | Err e => (Ret (Some ("failed to delete archived executions: " +:+ e)), s)
                  | Ok s => archive_loop fuel a c before (S i) (offset + length execs) n s
                  end
              end
          end
      end
  end.
Definition ArchiveExecutions (a : Archiver) (c : ArchiveCall) (before : Z) (s : ArchiveStore) : outcome (option string) * ArchiveStore :=
  archive_loop (S (size (asRows s))) a c before 0 0 0 s.

Definition meta_where (s : ArchiveStore) (ord : list string) (cond : ArchiveMetadata → bool) : list ArchiveMetadata :=
  rows_where (asMeta s) ord cond.
(** Download, decompress, decode. *)
Definition loadArchive (s : ArchiveStore) (down : option string) (key : string) : result ExecutionArchive :=
  match (match down with Some e => Err e | None => st_download (asObjects s) key end) with
  | Err e => Err ("failed to download archive: " +:+ e)
  | Ok compressed =>
      match decompress compressed with
      | Err e => Err ("failed to decompress archive: " +:+ e)
      | Ok data => match unmarshal data with Err e => Err ("failed to deserialize archive: " +:+ e) | Ok a => Ok a end
      end
  end.
Definition find_execution (id : string) (l : list Execution) : option Execution := List.find (λ e, bool_decide (exID e = id)) l.
Definition RestoreExecution (c : ArchiveCall) (s : ArchiveStore) (id date : string) : result Execution :=
  match try (acFail c 0) "SELECT archive_metadata"
      (match head (meta_where s (acMeta c) (λ m, bool_decide (amType m = "executions") && bool_decide (amDate m = date)
                                             && like (amStorageKey m) ("%/" +:+ date +:+ ".gz"))) with
       | Some m => Ok m
       | None => Err record_not_found
       end) with
  | Err e => Err ("archive metadata not found: " +:+ e)
  | Ok m =>
      match loadArchive s (acDown c 0) (amStorageKey m) with
      | Err e => Err e
      | Ok a => match find_execution id (eaExecutions a) with Some e => Ok e | None => Err "execution not found in archive" end
      end
  end.

(** Errors of single deletions are ignored. *)
Definition drop_archive (c : ArchiveCall) (s : ArchiveStore) (km : nat * ArchiveMetadata) : ArchiveStore :=
  let s := put_objects s (st_delete (asObjects s) (amStorageKey km.2)).2 in
  match acFail c (S km.1) "DELETE archive_metadata" with Some _ => s | None => put_meta s (delete (amID km.2) (asMeta s)) end.
Definition CleanupOldArchives (a : Archiver) (c : ArchiveCall) (s : ArchiveStore) : option string * ArchiveStore :=
  let cutoffDate := add_days (acNow c 0) (- (arRetentionDays a * 2))%Z in
  match acFail c 0 "SELECT archive_metadata" with
  | Some e => (Some e, s)
  | None => (None, foldl (drop_archive c) s (imap pair (meta_where s (acMeta c) (λ m, bool_decide (amCreatedAt m < cutoffDate)%Z))))
  end.

(** Errors of the queries are ignored; the sum of no rows is NULL and leaves the zero. *)
Definition meta_sum (l : list ArchiveMetadata) (f : ArchiveMetadata → Z) : Z := foldr Z.add 0%Z (f <$> l).
Definition GetArchiveStats (c : ArchiveCall) (s : ArchiveStore) : ArchiveStats :=
  let q {A} (k : nat) (zero x : A) := match acFail c k "SELECT archive_metadata" with Some _ => zero | None => x end in
  let l := (map_to_list (asMeta s)).*2 in
  let stored := q 2 0%Z (meta_sum l amCompressedSize) in
  let original := q 3 0%Z (meta_sum l amOriginalSize) in
  {| xsTotalArchives := q 0 0%Z (Z.of_nat (length l));
     xsTotalRecords := q 1 0%Z (meta_sum l amRecordCount);
     xsTotalStorageSize := stored;
     xsAverageCompressionRatio := (if bool_decide (0 < original)%Z then compression_ratio original stored else S754_zero false);
     xsArchivesByType := q 4 ∅ (foldl (λ m t, <[t := default 0 (m !! t) + 1]> m)%Z ∅ (amType <$> l));
     xsRecentArchives := q 5 0%Z (Z.of_nat (length (filter (λ m, add_days (acNow c 0) (-7) ≤ amCreatedAt m)%Z l))) |}.

(** ** The retriever *)

(** The archives are tried one after the other; those that cannot be read are
    skipped. *)
Fixpoint search_archives (c : ArchiveCall) (s : ArchiveStore) (id : string) (k : nat) (metas : list ArchiveMetadata) : result Execution :=
  match metas with
  | [] => Err "execution not found in archives"
  | m :: metas =>
      match loadArchive s (acDown c k) (amStorageKey m) with
      | Err _ => search_archives c s id (S k) metas
      | Ok a => match find_execution id (eaExecutions a) with Some e => Ok e | None => search_archives c s id (S k) metas end
      end
  end.
(** [acMeta] has the order of the query: the newest archive first. *)
Definition retrieveFromArchive (c : ArchiveCall) (s : ArchiveStore) (id : string) : result Execution :=
  match acFail c 0 "SELECT archive_metadata" with
  | Some e => Err e
  | None => search_archives c s id 0 (meta_where s (acMeta c) (λ m, bool_decide (amType m = "executions")))
  end.
Definition RetrieveExecution (c : ArchiveCall) (s : ArchiveStore) (id : string) : result Execution :=
  match acFail c 0 "SELECT workflow_executions" with
  | Some e => Err e
  | None => match asRows s !! id with Some r => Ok (load_execution s (acNodes c) r) | None => retrieveFromArchive c s id end
  end.

Definition zero_date : Z := (-62135596800 * Second)%Z.
Definition matchesFilter (e : Execution) (f : ArchivedExecutionFilter) : bool :=
  let r := exRow e in
  negb (negb (bool_decide (afWorkflowID f = "")) && negb (bool_decide (weWorkflowID r = afWorkflowID f)))
  && negb (negb (bool_decide (afStatus f = "")) && negb (bool_decide (weStatus r = afStatus f)))
  && negb (negb (bool_decide (afUserID f = "")) && negb (bool_decide (exCreatedBy e = afUserID f)))
  && negb (negb (bool_decide (afStartDate f = zero_date)) && bool_decide (weCreatedAt r < afStartDate f)%Z)
  && negb (negb (bool_decide (afEndDate f = zero_date)) && bool_decide (afEndDate f < weCreatedAt r)%Z).
Definition limited (limit : Z) (l : list Execution) : list Execution :=
  if bool_decide (0 < limit)%Z && bool_decide (limit < Z.of_nat (length l))%Z then take (Z.to_nat limit) l else l.
(** The archives of the days from [startDate] to [endDate], as texts. *)
Definition QueryArchivedExecutions (c : ArchiveCall) (s : ArchiveStore) (f : ArchivedExecutionFilter) : result (list Execution) :=
  let startDate := date_of (afStartDate f) in
  let endDate := date_of (afEndDate f) in
  match acFail c 0 "SELECT archive_metadata" with
  | Some e => Err e
  | None =>
      let metas := meta_where s (acMeta c) (λ m, bool_decide (amType m = "executions") && String.leb startDate (amDate m) && String.leb (amDate m) endDate) in
      Ok (limited (afLimit f)
           (concat (imap (λ k m, match loadArchive s (acDown c k) (amStorageKey m) with
                                 | Err _ => []
                                 | Ok a => filter (λ e, matchesFilter e f = true) (eaExecutions a)
                                 end) metas)))
  end.

(** The conditions of the query of the table: no user. *)
Definition matches_hot (f : ArchivedExecutionFilter) (r : WorkflowExecution * string) : bool :=
  (bool_decide (afWorkflowID f = "") || bool_decide (weWorkflowID r.1 = afWorkflowID f))
  && (bool_decide (afStatus f = "") || bool_decide (weStatus r.1 = afStatus f))
  && (bool_decide (afStartDate f = zero_date) || bool_decide (afStartDate f ≤ weCreatedAt r.1)%Z)
  && (bool_decide (afEndDate f = zero_date) || bool_decide (weCreatedAt r.1 ≤ afEndDate f)%Z).
(** The node executions are not loaded with these rows. *)
Definition bare (r : WorkflowExecution * string) : Execution := {| exRow := r.1; exCreatedBy := r.2; exNodes := [] |}.

(** One round of the inner loop: [x] is the element at [i], against each after it. *)
Fixpoint exchange (x : Execution) (l : list Execution) : Execution * list Execution :=
  match l with
  | [] => (x, [])
  | y :: l => if bool_decide (exCreatedAt x < exCreatedAt y)%Z
              then let '(z, l) := exchange y l in (z, x :: l)
              else let '(z, l) := exchange x l in (z, y :: l)
  end.
Fixpoint sort_from (n : nat) (l : list Execution) : list Execution :=
  match n, l with
  | S n, x :: l => let '(z, l) := exchange x l in z :: sort_from n l
  | _, _ => l
  end.
Definition sortExecutionsByDate (l : list Execution) : list Execution := sort_from (length l - 1) l.

Definition GetUnifiedExecutions (c : ArchiveCall) (s : ArchiveStore) (f : UnifiedExecutionFilter) : result (list Execution) :=
  match (if ufIncludeHotStorage f then
           try (acFail c 0) "SELECT workflow_executions" (Ok (bare <$> rows_where (asRows s) (acRows c 0) (matches_hot (ufArchived f))))
         else Ok []) with
  | Err e => Err e
  | Ok hot =>
      match (if ufIncludeColdStorage f then QueryArchivedExecutions c s (ufArchived f) else Ok []) with
      | Err e => Err e
      | Ok cold => Ok (limited (afLimit (ufArchived f)) (sortExecutionsByDate (hot ++ cold)))
      end
  end.

(** [tx.Create(execution)] inserts the row and, as its association, the node
    executions that are not there; each is then inserted again. *)
Definition create_execution (s : ArchiveStore) (e : Execution) (fail : db_fail) : result ArchiveStore :=
  try fail "INSERT workflow_executions"
    (if bool_decide (is_Some (asRows s !! exID e)) then Err duplicate_key
     else Ok {| asRows := <[exID e := (exRow e, exCreatedBy e)]> (asRows s);
                asNodes := asNodes s ∪ list_to_map ((λ n, (neID n, n)) <$> exNodes e); asMeta := asMeta s; asObjects := asObjects s |}).
Fixpoint create_nodes (s : ArchiveStore) (l : list NodeExecution) (fail : db_fail) : result ArchiveStore :=
  match l with
  | [] => Ok s
  | n :: l =>
      match try fail "INSERT node_executions"
          (if bool_decide (is_Some (asNodes s !! neID n)) then Err duplicate_key
           else Ok {| asRows := asRows s; asNodes := <[neID n := n]> (asNodes s); asMeta := asMeta s; asObjects := asObjects s |}) with
      | Err e => Err e
      | Ok s => create_nodes s l fail
      end
  end.
Definition RestoreToHotStorage (c : ArchiveCall) (s : ArchiveStore) (id : string) : option string * ArchiveStore :=
  match retrieveFromArchive c s id with
  | Err e => (Some e, s)
  | Ok e =>
      match create_execution s e (acFail c 1) with
      | Err er => (Some er, s)
      | Ok s1 => match create_nodes s1 (exNodes e) (acFail c 1) with Err er => (Some er, s) | Ok s2 => (None, s2) end
      end
  end.

(** ** Sorting *)

Definition newer_first (a b : Execution) : Prop := (exCreatedAt b ≤ exCreatedAt a)%Z.
Lemma exchange_spec x l :
  (exchange x l).1 :: (exchange x l).2 ≡ₚ x :: l ∧ Forall (newer_first (exchange x l).1) (x :: l).
Proof.
  clear. revert x. induction l as [|y l IH]; intros x; simpl; [split; [done|]; constructor; [unfold newer_first; lia|done]|].
  case_bool_decide as Hxy.
  - destruct (IH y) as [Hp Hf]. destruct (exchange y l) as [z l']. simpl in *. split.
    + by rewrite (Permutation_swap x z), Hp.
    + apply Forall_cons in Hf as [Hy Hf]. repeat constructor; [unfold newer_first in *; lia|done|done].
  - destruct (IH x) as [Hp Hf]. destruct (exchange x l) as [z l']. simpl in *. split.
    + by rewrite (Permutation_swap y z), Hp, Permutation_swap.
    + apply Forall_cons in Hf as [Hx Hf]. repeat constructor; [done|unfold newer_first in *; lia|done].
Qed.
Lemma sort_from_spec n l : length l ≤ S n → sort_from n l ≡ₚ l ∧ StronglySorted newer_first (sort_from n l).
Proof.
  clear. revert l. induction n as [|n IH]; intros l Hl.
  - destruct l as [|x [|]]; simpl in *; [by repeat constructor..|lia].
  - destruct l as [|x l]; simpl; [by repeat constructor|]. destruct (exchange_spec x l) as [Hp Hf]. destruct (exchange x l) as [z l']. simpl in *.
    assert (length l' = length l) as El by (apply Permutation_length in Hp; simpl in Hp; lia).
    destruct (IH l') as [IHp IHs]; [lia|]. split; [by rewrite IHp|]. constructor; [done|]. apply Forall_forall. intros y Hy.
    apply (proj1 (Forall_forall _ _) Hf). rewrite <- Hp, <- IHp. by apply list_elem_of_further.
Qed.
Lemma sortExecutionsByDate_correct l : sortExecutionsByDate l ≡ₚ l ∧ StronglySorted newer_first (sortExecutionsByDate l).
Proof. apply sort_from_spec. lia. Qed.

(** ** The executions that are kept *)

(** The same execution, whatever the order of its nodes. *)
Definition same_execution (a b : Execution) : Prop := exRow a = exRow b ∧ exCreatedBy a = exCreatedBy b ∧ exNodes a ≡ₚ exNodes b.
#[global] Instance same_execution_equiv : Equivalence same_execution.
Proof.
  clear. split.
  - intros a. by split_and!.
  - intros a b (H1 & H2 & H3). by split_and!.
  - intros a b c (H1 & H2 & H3) (H4 & H5 & H6). split_and!; [congruence|congruence|by etrans].
Qed.
Definition read_archive (s : ArchiveStore) (key : string) : option ExecutionArchive :=
  match loadArchive s None key with Ok a => Some a | Err _ => None end.
Definition hot (s : ArchiveStore) (id : string) (e : Execution) : Prop :=
  ∃ r, asRows s !! id = Some r ∧ same_execution (load_execution s (keys (asNodes s)) r) e.
Definition cold (s : ArchiveStore) (id : string) (e : Execution) : Prop :=
  ∃ mid m a e', asMeta s !! mid = Some m ∧ amType m = "executions" ∧ read_archive s (amStorageKey m) = Some a
    ∧ e' ∈ eaExecutions a ∧ exID e' = id ∧ same_execution e' e.
Definition held (s : ArchiveStore) (id : string) (e : Execution) : Prop := hot s id e ∨ cold s id e.

(** Rows and metadata under their IDs, objects under the key of date and ID. *)
Definition store_ok (s : ArchiveStore) : Prop :=
  map_Forall (λ id r, weID r.1 = id) (asRows s)
  ∧ map_Forall (λ mid m, amID m = mid ∧ amStorageKey m = storage_key (amDate m) mid ∧ no_char "/"%char (amDate m) = true) (asMeta s).
(** The copies of an execution are equal. *)
Definition single (s : ArchiveStore) : Prop := ∀ id a b, held s id a → held s id b → same_execution a b.

Context (date_plain : ∀ t, no_char "/"%char (date_of t) = true).
Context (gzip_inverse : ∀ d z, compress d = Ok z → decompress z = Ok d).
Context (json_inverse : ∀ a d, marshal a = Ok d → unmarshal d = Ok a).

Lemma storage_key_inj d d' i i' :
  no_char "/"%char d = true → no_char "/"%char d' = true → storage_key d i = storage_key d' i' → d = d' ∧ i = i'.
Proof.
  clear. intros Hd Hd' E. unfold storage_key in E. apply (inj (String.append "archive/executions/")) in E.
  change ("/" +:+ i +:+ ".gz") with (String "/" (i +:+ ".gz")) in E. change ("/" +:+ i' +:+ ".gz") with (String "/" (i' +:+ ".gz")) in E.
  pose proof (cut_app "/" d (i +:+ ".gz") Hd) as H. rewrite E, cut_app in H by done. injection H as -> H. split; [done|].
  by apply string_app_inj_r in H.
Qed.

Lemma rows_where_perm {A} (t : gmap string A) ord ord' cond : ord ≡ₚ ord' → rows_where t ord cond ≡ₚ rows_where t ord' cond.
Proof. clear. intros H. unfold rows_where. by rewrite H. Qed.
(** An order of a table may name rows that are gone. *)
Definition covers {A} (t : gmap string A) (ord : list string) : Prop := NoDup ord ∧ ∀ k, is_Some (t !! k) → k ∈ ord.
Lemma rows_where_cons {A} (t : gmap string A) k ord cond :
  rows_where t (k :: ord) cond
  = match t !! k with Some r => if cond r then r :: rows_where t ord cond else rows_where t ord cond | None => rows_where t ord cond end.
Proof. clear. unfold rows_where. simpl. destruct (t !! k) as [r|]; [by destruct (cond r)|done]. Qed.
Lemma rows_where_present {A} (t : gmap string A) ord cond : rows_where t ord cond = rows_where t (filter (λ k, is_Some (t !! k)) ord) cond.
Proof.
  clear. induction ord as [|k ord IH]; [done|]. rewrite filter_cons, rows_where_cons. case_decide as H.
  - by rewrite rows_where_cons, IH.
  - apply eq_None_not_Some in H. by rewrite H, IH.
Qed.
Lemma covers_present {A} (t : gmap string A) ord : covers t ord → range_order t (filter (λ k, is_Some (t !! k)) ord).
Proof. clear. intros [Hn Hc]. split; [by apply NoDup_filter|]. intros k. rewrite list_elem_of_filter. naive_solver. Qed.
Lemma covers_rows {A} (t : gmap string A) ord cond : covers t ord → rows_where t ord cond ≡ₚ rows_where t (keys t) cond.
Proof.
  clear. intros H. rewrite rows_where_present. apply rows_where_perm. eapply range_order_perm; [by apply covers_present|apply keys_range_order].
Qed.
Lemma covers_keys {A} (t : gmap string A) : covers t (keys t).
Proof. clear. destruct (keys_range_order t) as [Hn Hk]. split; [done|]. intros k. by rewrite Hk. Qed.
Lemma load_hot s ord id r : covers (asNodes s) ord → asRows s !! id = Some r → hot s id (load_execution s ord r).
Proof. clear. intros Ho Hr. exists r. split; [done|]. split_and!; [done..|]. symmetry. by apply covers_rows. Qed.

(** A new object: the archives that are read through metadata stay. *)
Definition uploaded (s : ArchiveStore) (key z : string) : ArchiveStore := put_objects s (st_upload (asObjects s) key z).2.
Lemma read_other s key z key' : key' ≠ key → read_archive (uploaded s key z) key' = read_archive s key'.
Proof. clear. intros H. unfold read_archive, loadArchive. simpl. by rewrite st_upload_other. Qed.
Lemma fresh_key s date u mid m :
  store_ok s → no_char "/"%char date = true → asMeta s !! u = None → asMeta s !! mid = Some m → amStorageKey m ≠ storage_key date u.
Proof.
  clear. intros [_ Hm] Hd Hu Hi E. destruct (Hm _ _ Hi) as (_ & Hk & Hp). rewrite Hk in E. apply storage_key_inj in E as [_ ->]; [|done|done].
  simpl in *. congruence.
Qed.
Lemma cold_uploaded s date u z id e :
  store_ok s → no_char "/"%char date = true → asMeta s !! u = None → cold (uploaded s (storage_key date u) z) id e ↔ cold s id e.
Proof.
  clear. intros Hok Hd Hu. unfold cold. simpl. split; intros (mid & m & a & e' & Hi & Ht & Ha & He); exists mid, m, a, e'.
  - by rewrite read_other in Ha by by apply (fresh_key s date u mid m).
  - by rewrite read_other by by apply (fresh_key s date u mid m).
Qed.
Lemma cold_recorded s m a id e :
  asMeta s !! amID m = None → amType m = "executions" → read_archive s (amStorageKey m) = Some a →
  cold (put_meta s (<[amID m := m]> (asMeta s))) id e ↔ cold s id e ∨ ∃ e', e' ∈ eaExecutions a ∧ exID e' = id ∧ same_execution e' e.
Proof.
  clear. intros Hn Ht Ha. unfold cold. simpl. split.
  - intros (mid & m' & a' & e' & Hi & Ht' & Ha' & Hin & Hid & Hs). change (read_archive s (amStorageKey m') = Some a') in Ha'.
    apply lookup_insert_Some in Hi as [[<- <-]|[Hne Hi]]; [right|left].
    + replace a' with a in Hin by congruence. by exists e'.
    + by exists mid, m', a', e'.
  - intros [(mid & m' & a' & e' & Hi & H)|(e' & Hin & Hid & Hs)].
    + exists mid, m', a', e'. split; [|done]. rewrite lookup_insert_ne; [done|]. intros <-. simpl in *. congruence.
    + exists (amID m), m, a, e'. by rewrite lookup_insert_eq.
Qed.

(** The IDs that are not drawn yet are of no archive. *)
Definition fresh_from (c : ArchiveCall) (n : nat) (s : ArchiveStore) : Prop := ∀ k, n ≤ k → asMeta s !! acUuid c k = None.
(** What archiving executions of the tables does: the tables stay, the archives
    grow by copies of what is in the tables. *)
Record archiving (n n' : nat) (c : ArchiveCall) (s s' : ArchiveStore) : Prop := {
  ag_ok : store_ok s';
  ag_rows : asRows s' = asRows s;
  ag_nodes : asNodes s' = asNodes s;
  ag_grows id e : cold s id e → cold s' id e;
  ag_copies id e : cold s' id e → held s id e;
  ag_names : fresh_from c n s → fresh_from c n' s'
}.
Lemma archiving_refl n c s : store_ok s → archiving n n c s s.
Proof. clear. intros Hok. split; try done. by right. Qed.
Lemma hot_same s s' id e : asRows s' = asRows s → asNodes s' = asNodes s → hot s' id e ↔ hot s id e.
Proof. clear. intros E1 E2. unfold hot, load_execution, nodes_of. by rewrite E1, E2. Qed.
Lemma archiving_held n n' c s s' id e : archiving n n' c s s' → held s' id e ↔ held s id e.
Proof.
  clear. intros [_ E1 E2 Hg Hc _]. unfold held. rewrite (hot_same s s') by done. split.
  - intros [H|H]; [by left|by apply Hc].
  - intros [H|H]; [by left|right; by apply Hg].
Qed.
Lemma archiving_trans n1 n2 n3 c s1 s2 s3 :
  archiving n1 n2 c s1 s2 → archiving n2 n3 c s2 s3 → archiving n1 n3 c s1 s3.
Proof.
  clear. intros H12 H23. split.
  - apply H23.
  - rewrite (ag_rows _ _ _ _ _ H23). apply H12.
  - rewrite (ag_nodes _ _ _ _ _ H23). apply H12.
  - intros id e H. apply (ag_grows _ _ _ _ _ H23). by apply (ag_grows _ _ _ _ _ H12).
  - intros id e H. apply (archiving_held _ _ _ _ _ id e H12). by apply (ag_copies _ _ _ _ _ H23).
  - intros H. apply (ag_names _ _ _ _ _ H23). by apply (ag_names _ _ _ _ _ H12).
Qed.

Lemma archive_group_step c date execs n s r s' :
  store_ok s → Inj (=) (=) (acUuid c) → fresh_from c n s → no_char "/"%char date = true → (∀ e, e ∈ execs → hot s (exID e) e) →
  archive_group c date execs n s = (r, s') →
  archiving n (S n) c s s' ∧ (r = None → ∀ e, e ∈ execs → cold s' (exID e) e).
Proof.
  clear -gzip_inverse json_inverse. intros Hok Hinj Hf Hd He E. unfold archive_group in E.
  assert (∀ s1, store_ok s1 → asRows s1 = asRows s → asNodes s1 = asNodes s → asMeta s1 = asMeta s → (∀ id e, cold s1 id e ↔ cold s id e) →
    archiving n (S n) c s s1) as Hsame.
  { intros s1 H1 H2 H3 H4 H5. split; try done; [intros id e; by rewrite H5|intros id e H%H5; by right|].
    intros _ k Hk. rewrite H4. apply Hf. lia. }
  set (archive := {| eaID := _ |}) in E. destruct (marshal archive) as [data|] eqn:Em; [|injection E as <- <-; split; [by apply Hsame|done]].
  destruct (compress data) as [z|] eqn:Ez; [|injection E as <- <-; split; [by apply Hsame|done]].
  cbn [eaID archive] in E. pose proof (Hf n ltac:(lia)) as Hn. pose proof (λ id e, cold_uploaded s date (acUuid c n) z id e Hok Hd Hn) as Hcold.
  destruct (st_upload _ _ z) as [[er|] o] eqn:Eu; cbv beta iota zeta in E.
  { injection E as <- <-. split; [|done]. unfold uploaded in Hcold. rewrite Eu in Hcold. by apply Hsame. }
  unfold uploaded in Hcold. rewrite Eu in Hcold. simpl snd in Hcold. set (s1 := put_objects s o) in *.
  assert (read_archive s1 (storage_key date (acUuid c n)) = Some archive) as Hread.
  { unfold read_archive, loadArchive. simpl. by rewrite (st_upload_ok _ _ _ _ Eu), (gzip_inverse _ _ Ez), (json_inverse _ _ Em). }
  set (m := {| amID := _ |}) in E. destruct (create_meta _ m _) as [t|] eqn:Ec; [|injection E as <- <-; split; [by apply Hsame|done]].
  injection E as <- <-. unfold create_meta in Ec. apply try_ok in Ec. destruct (_ || _); [done|]. injection Ec as <-.
  pose proof (λ id e, cold_recorded s1 m archive id e Hn eq_refl Hread) as Hrec. split.
  - destruct Hok as [Hr Hm]. split; try done.
    + split; [done|]. simpl. apply map_Forall_insert_2; done.
    + intros id e H. apply Hrec. left. by apply Hcold.
    + intros id e [H|(e' & Hin & <- & Hs)]%Hrec; [right; by apply Hcold|left]. destruct (He e' Hin) as (row & H1 & H2). exists row. split; [done|]. by etrans.
    + intros _ k Hk. simpl. rewrite lookup_insert_ne; [apply Hf; lia|]. intros ->%Hinj. lia.
  - intros _ e Hin. apply Hrec. right. by exists e.
Qed.

Lemma archive_groups_step c execs dates n s r n' s' :
  store_ok s → Inj (=) (=) (acUuid c) → fresh_from c n s → Forall (λ d, no_char "/"%char d = true) dates →
  (∀ e, e ∈ execs → hot s (exID e) e) → archive_groups c execs dates n s = (r, n', s') →
  (∃ k, archiving n k c s s') ∧ (r = None → archiving n n' c s s' ∧ ∀ e, e ∈ execs → exDate e ∈ dates → cold s' (exID e) e).
Proof.
  clear -gzip_inverse json_inverse. intros Hok Hinj. revert n s Hok. induction dates as [|d dates IH]; intros n s Hok Hf Hd He E; simpl in E.
  { injection E as <- <- <-. pose proof (archiving_refl n c s Hok). split; [by exists n|]. intros _. split; [done|]. intros e _ Hx. by apply elem_of_nil in Hx. }
  apply Forall_cons in Hd as [Hd Hds]. destruct (archive_group _ _ _ _ _) as [[er|] s1] eqn:Eg;
    destruct (archive_group_step _ _ _ _ _ _ _ Hok Hinj Hf Hd (λ e H, He e (proj2 (proj1 (list_elem_of_filter _ _ _) H))) Eg) as [H1 Hc].
  { injection E as <- <- <-. split; [by exists (S n)|done]. }
  assert (∀ e, e ∈ execs → hot s1 (exID e) e) as He1 by (intros e Hin; apply (hot_same s); [apply H1|apply H1|by apply He]).
  destruct (IH (S n) s1 (ag_ok _ _ _ _ _ H1) (ag_names _ _ _ _ _ H1 Hf) Hds He1 E) as [[k Hk] Hr].
  split; [exists k; by eapply archiving_trans|]. intros ->. destruct (Hr eq_refl) as [H2 Hcold]. split; [by eapply archiving_trans|].
  intros e Hin Hdate. apply elem_of_cons in Hdate as [Hdate|Hdate]; [|by apply Hcold].
  apply (ag_grows _ _ _ _ _ H2), Hc; [done|]. by apply list_elem_of_filter.
Qed.
Lemma archiveBatch_step c i execs n s r n' s' :
  store_ok s → Inj (=) (=) (acUuid c) → fresh_from c n s → (∀ l, acDates c i l ≡ₚ l) → (∀ e, e ∈ execs → hot s (exID e) e) →
  archiveBatch c i execs n s = (r, n', s') →
  (∃ k, archiving n k c s s') ∧ (r = None → archiving n n' c s s' ∧ ∀ e, e ∈ execs → cold s' (exID e) e).
Proof.
  clear -gzip_inverse json_inverse date_plain. intros Hok Hinj Hf Hp He E.
  assert (Forall (λ d, no_char "/"%char d = true) (acDates c i (remove_dups (exDate <$> execs)))) as Hd.
  { rewrite Hp. apply Forall_forall. intros d (e & -> & _)%elem_of_remove_dups%list_elem_of_fmap. apply date_plain. }
  destruct (archive_groups_step _ _ _ _ _ _ _ _ Hok Hinj Hf Hd He E) as [H1 H2].
  split; [done|]. intros ->. destruct (H2 eq_refl) as [H3 H4]. split; [done|]. intros e Hin. apply H4; [done|]. rewrite Hp.
  apply elem_of_remove_dups, list_elem_of_fmap. by exists e.
Qed.

(** *** The deletion *)

Lemma rows_where_kept {A} (t : gmap string A) (P : string * A → Prop) `{!∀ x, Decision (P x)} ord cond :
  (∀ k r, t !! k = Some r → cond r = true → P (k, r)) → rows_where (filter P t) ord cond = rows_where t ord cond.
Proof.
  clear. intros HP. induction ord as [|k ord IH]; [done|]. rewrite !rows_where_cons, IH. destruct (t !! k) as [r|] eqn:E.
  - destruct (cond r) eqn:Ec.
    + replace (filter P t !! k) with (Some r); [by rewrite Ec|]. symmetry. apply map_lookup_filter_Some. split; [done|by apply HP].
    + destruct (filter P t !! k) as [r'|] eqn:E'; [|done]. apply map_lookup_filter_Some in E' as [E' _]. simplify_eq. by rewrite Ec.
  - by rewrite (proj2 (map_lookup_filter_None _ _ _) (or_introl E)).
Qed.
Lemma covers_filter {A} (t : gmap string A) (P : string * A → Prop) `{!∀ x, Decision (P x)} ord : covers t ord → covers (filter P t) ord.
Proof. clear. intros [Hn Hc]. split; [done|]. intros k [r [Hr _]%map_lookup_filter_Some]. apply Hc. by exists r. Qed.

Definition deleted (ids : list string) (s : ArchiveStore) : ArchiveStore :=
  {| asRows := filter (λ r, r.1 ∉ ids) (asRows s); asNodes := filter (λ r, neExecutionID r.2 ∉ ids) (asNodes s);
     asMeta := asMeta s; asObjects := asObjects s |}.
Lemma hot_deleted ids s id e : store_ok s → hot (deleted ids s) id e ↔ hot s id e ∧ id ∉ ids.
Proof.
  clear. intros [Hk _]. assert (∀ r, weID r.1 = id → id ∉ ids →
    same_execution (load_execution (deleted ids s) (keys (asNodes (deleted ids s))) r) (load_execution s (keys (asNodes s)) r)) as Hload.
  { intros r Hr Hid. split_and!; [done..|]. simpl. unfold nodes_of. rewrite Hr. simpl.
    rewrite <- (rows_where_kept (asNodes s) (λ x, neExecutionID x.2 ∉ ids) (keys (asNodes s))) by (intros k n _ Hn%bool_decide_eq_true; simpl; congruence).
    symmetry. apply covers_rows, covers_filter, covers_keys. }
  unfold hot. split.
  - intros (r & [Hr Hid]%map_lookup_filter_Some & Hs). split; [|done]. exists r. split; [done|]. rewrite <- Hs. symmetry. apply Hload; [by apply (Hk id)|done].
  - intros [(r & Hr & Hs) Hid]. exists r. split; [by apply map_lookup_filter_Some|]. rewrite Hload; [done|by apply (Hk id)|done].
Qed.
(** What is archived can be deleted. *)
Lemma deleted_held ids s id e :
  store_ok s → (∀ i, i ∈ ids → ∃ x, hot s i x ∧ cold s i x) → held (deleted ids s) id e ↔ held s id e.
Proof.
  clear. intros Hok Hids. unfold held. rewrite hot_deleted by done. change (cold (deleted ids s) id e) with (cold s id e).
  split; [intros [[H _]|H]; [by left|by right]|]. intros [H|H]; [|by right]. destruct (decide (id ∈ ids)) as [Hin|Hin]; [|by left].
  right. destruct (Hids id Hin) as (x & (r & Hr & Hx) & (mid & m & a & e' & H1 & H2 & H3 & H4 & H5 & H6)). destruct H as (r' & Hr' & He).
  exists mid, m, a, e'. split_and!; [done..|]. replace r' with r in He by congruence. rewrite H6, <- Hx. done.
Qed.
Lemma deleted_ok ids s : store_ok s → store_ok (deleted ids s).
Proof. clear. intros [Hr Hm]. split; [|done]. intros id r [H _]%map_lookup_filter_Some. by apply (Hr id r). Qed.
Lemma deleted_size ids s id r : asRows s !! id = Some r → id ∈ ids → size (asRows (deleted ids s)) < size (asRows s).
Proof.
  clear. intros Hr Hid. apply map_subset_size. split; [apply map_filter_subseteq|]. intros H. eapply lookup_weaken in H; [|exact Hr].
  apply map_lookup_filter_Some in H as [_ H]. done.
Qed.

(** *** The whole run *)

Lemma elem_of_slice {A} (x : A) n m l : x ∈ take n (drop m l) → x ∈ l.
Proof. clear. intros H. rewrite <- (take_drop m l), <- (take_drop n (drop m l)), !elem_of_app. auto. Qed.

Lemma archive_loop_held fuel a c before i offset n s :
  store_ok s → Inj (=) (=) (acUuid c) → fresh_from c n s → (∀ i l, acDates c i l ≡ₚ l) → covers (asNodes s) (acNodes c) → size (asRows s) < fuel →
  ∃ r s', archive_loop fuel a c before i offset n s = (Ret r, s') ∧ store_ok s' ∧ covers (asNodes s') (acNodes c) ∧ ∀ id e, held s' id e ↔ held s id e.
Proof.
  clear -gzip_inverse json_inverse date_plain. intros Hok Hinj Hf Hp Hc Hsz. revert i offset n s Hok Hf Hc Hsz.
  induction fuel as [|fuel IH]; intros i offset n s Hok Hf Hc Hsz; [lia|]. cbn [archive_loop]. destruct (acFail c i _); [by eexists _, s|].
  set (rows := take _ _). destruct (load_execution s (acNodes c) <$> rows) as [|e0 execs0] eqn:El; [by eexists _, s|]. rewrite <- El. set (execs := load_execution s (acNodes c) <$> rows) in *.
  assert (∀ e, e ∈ execs → hot s (exID e) e) as He.
  { intros e (r & -> & Hr)%list_elem_of_fmap. apply load_hot; [done|]. apply elem_of_slice in Hr.
    apply rows_where_elem in Hr as (id & _ & Hr & _). unfold exID. simpl. by rewrite (proj1 Hok id r Hr). }
  destruct (archiveBatch c i execs n s) as [[[er|] n1] s1] eqn:Eb; destruct (archiveBatch_step _ _ _ _ _ _ _ _ Hok Hinj Hf (Hp i) He Eb) as [[k Hk] H1].
  { eexists _, s1. split; [done|]. split; [apply Hk|]. split; [by rewrite (ag_nodes _ _ _ _ _ Hk)|]. intros id e. by eapply archiving_held. }
  destruct (H1 eq_refl) as [Ha Hcold]. unfold deleteArchivedExecutions, try. destruct (acFail c i "DELETE node_executions"); [|destruct (acFail c i "DELETE workflow_executions")].
  1, 2: eexists _, s1; split; [done|]; split; [apply Ha|]; split; [by rewrite (ag_nodes _ _ _ _ _ Ha)|]; intros id e; by eapply archiving_held.
  change {| asRows := _; asNodes := _; asMeta := _; asObjects := _ |} with (deleted (exID <$> execs) s1).
  assert (∀ i, i ∈ exID <$> execs → ∃ x, hot s1 i x ∧ cold s1 i x) as Hdel.
  { intros j (e & -> & Hin)%list_elem_of_fmap. exists e. split; [|by apply Hcold]. apply (hot_same s); [apply Ha|apply Ha|by apply He]. }
  assert (e0 ∈ execs) as Hin0 by (rewrite El; apply list_elem_of_here). destruct (He e0 Hin0) as (r0 & Hr0 & _).
  destruct (IH (S i) (offset + length execs) n1 (deleted (exID <$> execs) s1)) as (r & s' & E & H3 & H4 & H5).
  - apply deleted_ok, Ha.
  - exact (ag_names _ _ _ _ _ Ha Hf).
  - apply covers_filter. by rewrite (ag_nodes _ _ _ _ _ Ha).
  - eapply Nat.lt_le_trans; [eapply (deleted_size _ s1 (exID e0) r0)|rewrite (ag_rows _ _ _ _ _ Ha); lia].
    + by rewrite (ag_rows _ _ _ _ _ Ha).
    + apply list_elem_of_fmap. by exists e0.
  - exists r, s'. split_and!; [done..|]. intros id e. rewrite H5, deleted_held; [by eapply archiving_held|apply Ha|done].
Qed.

(** ** Retrieving *)

(** The queries and the downloads of a call succeed and see every row. *)
Record reads_ok (c : ArchiveCall) (s : ArchiveStore) : Prop := {
  ro_rows : acFail c 0 "SELECT workflow_executions" = None;
  ro_meta : acFail c 0 "SELECT archive_metadata" = None;
  ro_down k : acDown c k = None;
  ro_nodes : covers (asNodes s) (acNodes c);
  ro_all : covers (asMeta s) (acMeta c)
}.
Definition in_archive (s : ArchiveStore) (id : string) (m : ArchiveMetadata) (e : Execution) : Prop :=
  ∃ a, read_archive s (amStorageKey m) = Some a ∧ e ∈ eaExecutions a ∧ exID e = id.
Lemma find_execution_spec id l :
  match find_execution id l with Some e => e ∈ l ∧ exID e = id | None => ∀ e, e ∈ l → exID e ≠ id end.
Proof.
  clear. unfold find_execution. destruct (List.find _ l) as [e|] eqn:E.
  - apply find_some in E as [Hin Hid%bool_decide_eq_true]. by apply list_elem_of_In in Hin.
  - intros e Hin Hid. apply list_elem_of_In in Hin. apply (find_none _ _ E) in Hin. by rewrite bool_decide_true in Hin.
Qed.
Lemma search_archives_spec c s id k metas :
  (∀ k, acDown c k = None) →
  match search_archives c s id k metas with
  | Ok e => ∃ m, m ∈ metas ∧ in_archive s id m e
  | Err _ => ∀ m e, m ∈ metas → ¬ in_archive s id m e
  end.
Proof.
  clear. intros Hd. revert k. induction metas as [|m metas IH]; intros k; simpl; [intros m e Hm; by apply elem_of_nil in Hm|].
  rewrite Hd. specialize (IH (S k)). destruct (loadArchive s None (amStorageKey m)) as [a|er] eqn:El.
  - assert (read_archive s (amStorageKey m) = Some a) as Ha by (unfold read_archive; by rewrite El).
    pose proof (find_execution_spec id (eaExecutions a)) as Hf. destruct (find_execution id _) as [e|].
    + exists m. split; [apply list_elem_of_here|]. by exists a.
    + destruct (search_archives c s id (S k) metas) as [e|].
      * destruct IH as (m' & Hm & H). exists m'. split; [by apply list_elem_of_further|done].
      * intros m' x [->|Hm]%elem_of_cons; [|by apply IH]. intros (a' & Ha' & Hin & Hid). replace a' with a in Hin by congruence. by apply (Hf x).
  - destruct (search_archives c s id (S k) metas) as [e|].
    + destruct IH as (m' & Hm & H). exists m'. split; [by apply list_elem_of_further|done].
    + intros m' x [->|Hm]%elem_of_cons; [|by apply IH]. intros (a & Ha & _). unfold read_archive in Ha. by rewrite El in Ha.
Qed.
(** Retrieval finds the executions that are kept, and no others. *)
Lemma RetrieveExecution_correct c s id :
  store_ok s → reads_ok c s →
  match RetrieveExecution c s id with Ok e => held s id e | Err _ => ∀ e, ¬ held s id e end.
Proof.
  clear. intros Hok Hr. unfold RetrieveExecution, retrieveFromArchive. rewrite (ro_rows _ _ Hr), (ro_meta _ _ Hr).
  destruct (asRows s !! id) as [r|] eqn:E; [left; by apply load_hot; [apply Hr|]|].
  set (metas := meta_where _ _ _). pose proof (search_archives_spec c s id 0 metas (ro_down _ _ Hr)) as H.
  assert (∀ m, m ∈ metas ↔ ∃ mid, asMeta s !! mid = Some m ∧ amType m = "executions") as Hm.
  { intros m. unfold metas, meta_where. rewrite rows_where_elem. split.
    - intros (mid & _ & Hm & Ht%bool_decide_eq_true). by exists mid.
    - intros (mid & Hm & Ht). exists mid. split; [apply (ro_all _ _ Hr); by exists m|]. by rewrite bool_decide_true. }
  destruct (search_archives _ _ _ _ _) as [e|er].
  - right. destruct H as (m & (mid & Hi & Ht)%Hm & a & Ha & Hin & Hid). by exists mid, m, a, e.
  - intros e [(r & Hr' & _)|(mid & m & a & e' & Hi & Ht & Ha & Hin & Hid & _)]; [congruence|].
    apply (H m e'); [apply Hm; by exists mid|by exists a].
Qed.

(** C12. Archiving is invisible to readers.  Whatever queries, uploads and deletions
    fail on the way, ArchiveExecutions returns, and every execution that could be
    retrieved before, from the table or from an archive, is retrieved afterwards with
    the same row, creator and node executions, and no other: nothing is deleted that
    is not in an archive whose metadata is recorded, and no archive is overwritten. *)
Theorem archiving_transparent a c before s :
  store_ok s → single s → Inj (=) (=) (acUuid c) → fresh_from c 0 s → (∀ i l, acDates c i l ≡ₚ l) → covers (asNodes s) (acNodes c) →
  ∃ r s', ArchiveExecutions a c before s = (Ret r, s') ∧ store_ok s' ∧ single s'
    ∧ ∀ c1 c2 id, reads_ok c1 s → reads_ok c2 s' →
        match RetrieveExecution c1 s id, RetrieveExecution c2 s' id with
        | Ok e, Ok e' => same_execution e e'
        | Err _, Err _ => True
        | _, _ => False
        end.
Proof.
  intros Hok Hs Hinj Hf Hp Hc.
  destruct (archive_loop_held (S (size (asRows s))) a c before 0 0 0 s Hok Hinj Hf Hp Hc ltac:(lia)) as (r & s' & E & Hok' & _ & Hh).
  exists r, s'. split_and!; [done|done|intros id x y Hx%Hh Hy%Hh; by eapply Hs|]. intros c1 c2 id H1 H2.
  pose proof (RetrieveExecution_correct c1 s id Hok H1) as R1. pose proof (RetrieveExecution_correct c2 s' id Hok' H2) as R2.
  destruct (RetrieveExecution c1 s id) as [e|], (RetrieveExecution c2 s' id) as [e'|].
  - apply Hh in R2. by eapply Hs.
  - apply Hh in R1. by eapply R2.
  - apply Hh in R2. by eapply R1.
  - done.
Qed.

(** A run of one batch takes all. *)
Lemma archive_groups_rows c execs dates n s r n' s' : archive_groups c execs dates n s = (r, n', s') → asRows s' = asRows s.
Proof.
  clear. revert n s. induction dates as [|d dates IH]; intros n s E; simpl in E; [by injection E as _ _ <-|].
  assert (asRows (archive_group c d (filter (λ e, exDate e = d) execs) n s).2 = asRows s) as H.
  { unfold archive_group. destruct (marshal _); [|done]. destruct (compress _); [|done]. destruct (st_upload _ _ _) as [[|] o]; [done|].
    destruct (create_meta _ _ _); done. }
  destruct (archive_group _ _ _ _ _) as [[er|] s1]; simpl in H; [by injection E as _ _ <-|]. rewrite <- H. by eapply IH.
Qed.
Lemma old_rows_elem c before i s x : x ∈ old_rows c before i s → ∃ id, asRows s !! id = Some x ∧ (weCreatedAt x.1 < before)%Z.
Proof. clear. intros (id & _ & Hi & Hb%bool_decide_eq_true)%rows_where_elem. by exists id. Qed.
Lemma archived_when_few a c before s s' :
  store_ok s → covers (asRows s) (acRows c 0) → length (old_rows c before 0 s) ≤ arBatchSize a →
  ArchiveExecutions a c before s = (Ret None, s') → ∀ id r, asRows s' !! id = Some r → (before ≤ weCreatedAt r.1)%Z.
Proof.
  clear. intros Hok Hc Hl E. unfold ArchiveExecutions in E. cbn [archive_loop] in E. destruct (acFail c 0 _); [done|]. rewrite drop_0, take_ge in E by done.
  set (execs := load_execution s (acNodes c) <$> old_rows c before 0 s) in *.
  assert (∀ id r, asRows s !! id = Some r → (weCreatedAt r.1 < before)%Z → id ∈ exID <$> execs) as Hin.
  { intros id r Hr Hb. rewrite <- (proj1 Hok _ _ Hr). unfold execs. rewrite <- list_fmap_compose. change (weID r.1) with ((exID ∘ load_execution s (acNodes c)) r).
    apply list_elem_of_fmap_2, rows_where_elem. exists id. split; [apply Hc; by exists r|]. by rewrite bool_decide_true. }
  assert (∀ id r, asRows (deleted (exID <$> execs) s) !! id = Some r → (before ≤ weCreatedAt r.1)%Z) as Hdel.
  { intros id r [Hr Hn]%map_lookup_filter_Some. destruct (decide (before ≤ weCreatedAt r.1)%Z); [done|]. exfalso. apply Hn. eapply Hin; [done|lia]. }
  clearbody execs. clear Hin.
  destruct execs as [|e0 execs0]; [by injection E as <-; intros id r Hr; apply (Hdel id); apply map_lookup_filter_Some; split; [|apply not_elem_of_nil]|].
  set (execs := e0 :: execs0) in *. destruct (archiveBatch c 0 execs 0 s) as [[[er|] n1] s1] eqn:Eb; [done|]. apply archive_groups_rows in Eb.
  unfold deleteArchivedExecutions, try in E. destruct (acFail c 0 "DELETE node_executions"); [done|]. destruct (acFail c 0 "DELETE workflow_executions"); [done|].
  change {| asRows := _; asNodes := _; asMeta := _; asObjects := _ |} with (deleted (exID <$> execs) s1) in E.
  assert (asRows (deleted (exID <$> execs) s1) = asRows (deleted (exID <$> execs) s)) as Er by (simpl; by rewrite Eb).
  assert (old_rows c before 1 (deleted (exID <$> execs) s1) = []) as Ho.
  { destruct (old_rows c before 1 (deleted (exID <$> execs) s1)) as [|x l] eqn:Eo; [done|]. assert (x ∈ x :: l) as Hx by apply list_elem_of_here. rewrite <- Eo in Hx.
    apply old_rows_elem in Hx as (id & Hi & Hb). rewrite Er in Hi. apply Hdel in Hi. lia. }
  destruct (size (asRows s)) as [|f]; [done|]. cbn [archive_loop] in E. destruct (acFail c 1 _); [done|]. rewrite Ho, drop_nil, take_nil in E.
  injection E as <-. intros id r Hr. change (asRows (deleted (exID <$> execs) s1) !! id = Some r) in Hr. rewrite Er in Hr. by apply (Hdel id).
Qed.

(** *** Cleaning up *)

(** Archives that are not older than the period keep their metadata and objects. *)
Lemma cleanup_keeps a c s mid m :
  store_ok s → asMeta s !! mid = Some m → (add_days (acNow c 0) (- (arRetentionDays a * 2)) ≤ amCreatedAt m)%Z →
  asMeta (CleanupOldArchives a c s).2 !! mid = Some m
  ∧ read_archive (CleanupOldArchives a c s).2 (amStorageKey m) = read_archive s (amStorageKey m).
Proof.
  clear. intros Hok Hm Hc. unfold CleanupOldArchives. destruct (acFail c 0 _); [done|]. simpl.
  assert (Forall (λ km : nat * ArchiveMetadata, amID km.2 ≠ mid ∧ amStorageKey m ≠ amStorageKey km.2)
    (imap pair (meta_where s (acMeta c) (λ m, bool_decide (amCreatedAt m < add_days (acNow c 0) (- (arRetentionDays a * 2)))%Z)))) as Hf.
  { apply Forall_forall. intros [k x] (k' & y & [= <- ->] & Hx)%elem_of_lookup_imap. simpl. apply list_elem_of_lookup_2, rows_where_elem in Hx as (i & _ & Hi & Hb%bool_decide_eq_true).
    destruct (proj2 Hok _ _ Hi) as (Ei & Ek & Hp). destruct (proj2 Hok _ _ Hm) as (Ei' & Ek' & Hp'). assert (i ≠ mid) as Hne by (intros ->; simplify_eq; lia).
    split; [congruence|]. rewrite Ek, Ek'. intros [_ ->]%storage_key_inj; done. }
  generalize (imap pair (meta_where s (acMeta c) (λ m, bool_decide (amCreatedAt m < add_days (acNow c 0) (- (arRetentionDays a * 2)))%Z))), Hf. clear Hf Hok Hc.
  intros l Hf. revert s Hm. induction Hf as [|km l [Hi Hk] _ IH]; intros s Hm; simpl; [done|].
  assert (asMeta (drop_archive c s km) !! mid = Some m) as Hm' by (unfold drop_archive; destruct (acFail _ _ _); simpl; [done|by rewrite lookup_delete_ne]).
  destruct (IH _ Hm') as [H1 H2]. split; [done|]. rewrite H2. unfold read_archive, loadArchive, drop_archive. destruct (acFail _ _ _); simpl; by rewrite st_delete_other.
Qed.

(** ** Where archives do not do what they say *)

Lemma no_slash_inside b y : no_char "/"%char (b +:+ String "/" y) = false.
Proof. clear. induction b as [|c b IH]; [done|]. simpl. rewrite IH. apply andb_false_r. Qed.
Lemma last_segment a b x y :
  no_char "/"%char x = true → no_char "/"%char y = true → a +:+ String "/" x = b +:+ String "/" y → x = y.
Proof.
  clear. intros Hx Hy. revert b. induction a as [|c a IH]; intros [|d b] E.
  - by injection E as ->.
  - injection E as _ ->. by rewrite no_slash_inside in Hx.
  - injection E as _ <-. by rewrite no_slash_inside in Hy.
  - injection E as _ E. by eapply IH.
Qed.
(** RestoreExecution looks for an archive whose name is a date; the names are IDs. *)
Lemma restore_never_finds c s id date :
  (∀ k lit, no_char "%"%char lit = true → no_char "_"%char lit = true → like k ("%" +:+ lit) = true → ∃ p, k = p +:+ lit) →
  store_ok s → no_char "%"%char (date +:+ ".gz") = true → no_char "_"%char (date +:+ ".gz") = true → no_char "/"%char date = true →
  (∀ mid, is_Some (asMeta s !! mid) → no_char "/"%char mid = true ∧ mid ≠ date) →
  ∃ e, RestoreExecution c s id date = Err e.
Proof.
  clear. intros Hlike [_ Hm] Hp Hu Hd Hids. unfold RestoreExecution. destruct (try _ _ _) as [m|e] eqn:E; [|by eexists]. exfalso.
  apply try_ok in E. destruct (head _) as [m'|] eqn:Eh; [|done]. injection E as ->. apply head_Some_elem_of, rows_where_elem in Eh as (mid & _ & Hi & Hc).
  apply andb_prop in Hc as [_ Hl]. apply (Hlike _ ("/" +:+ date +:+ ".gz")) in Hl as [p Ek]; [|done|done].
  destruct (Hm _ _ Hi) as (_ & Hk & _). destruct (Hids mid) as [Hs Hne]; [by exists m|]. rewrite Hk in Ek. unfold storage_key in Ek.
  assert ((("archive/executions/" +:+ amDate m) +:+ String "/" mid) +:+ ".gz" = (p +:+ String "/" date) +:+ ".gz") as Ek' by (by rewrite !string_app_assoc).
  apply string_app_inj_r in Ek'. by apply Hne, (last_segment _ _ _ _ Hs Hd Ek').
Qed.
(** An execution with node executions is not restored to the tables: they are
    created with it, and then once more. *)
Lemma restore_fails_with_nodes c s id e :
  retrieveFromArchive c s id = Ok e → exNodes e ≠ [] → ∃ er, RestoreToHotStorage c s id = (Some er, s).
Proof.
  clear. intros E Hn. unfold RestoreToHotStorage. rewrite E. destruct (create_execution s e (acFail c 1)) as [s1|er] eqn:Ec; [|by eexists].
  unfold create_execution in Ec. apply try_ok in Ec. destruct (bool_decide _); [done|]. injection Ec as <-. destruct (exNodes e) as [|n l] eqn:El; [done|].
  cbn [create_nodes]. unfold try. destruct (acFail c 1 _) as [er|]; [by eexists|]. rewrite bool_decide_true; [by eexists|].
  simpl. apply lookup_union_is_Some. right. by rewrite lookup_insert_eq; eexists.
Qed.
(** Without an end date no archive is searched: the zero date is its last day. *)
Lemma open_end_finds_nothing c s f :
  afEndDate f = zero_date → (∀ mid m, asMeta s !! mid = Some m → String.leb (amDate m) (date_of zero_date) = false) →
  acFail c 0 "SELECT archive_metadata" = None → QueryArchivedExecutions c s f = Ok [].
Proof.
  clear. intros Hz Hm Hf. unfold QueryArchivedExecutions. rewrite Hf, Hz. replace (meta_where _ _ _) with ([] : list ArchiveMetadata).
  - simpl. unfold limited. destruct (_ && _); [by rewrite take_nil|done].
  - symmetry. unfold meta_where. destruct (rows_where _ _ _) as [|m l] eqn:E; [done|]. assert (m ∈ m :: l) as Hin by apply list_elem_of_here.
    rewrite <- E in Hin. apply rows_where_elem in Hin as (mid & _ & Hi & Hc). rewrite (Hm _ _ Hi), andb_false_r in Hc. done.
Qed.
(** The user of a filter is not asked for among the rows of the table. *)
Lemma hot_ignores_user f u r :
  matches_hot {| afWorkflowID := afWorkflowID f; afStatus := afStatus f; afUserID := u; afStartDate := afStartDate f; afEndDate := afEndDate f;
                 afLimit := afLimit f |} r = matches_hot f r.
Proof. done. Qed.
End archival.

(** ** An example *)

#[export] Instance map_storage : Storage (gmap string string).
Proof.
  refine {| st_upload t k d := (None, <[k := d]> t);
            st_download t k := match t !! k with Some d => Ok d | None => Err "NoSuchKey" end;
            st_delete t k := (None, delete k t) |}.
  - intros t k d t' [= <-]. by rewrite lookup_insert_eq.
  - intros t k d k' Hne. simpl. by rewrite lookup_insert_ne.
  - intros t k k' Hne. simpl. by rewrite lookup_delete_ne.
Defined.


#[export] Instance WorkflowExecution_eq_dec : EqDecision WorkflowExecution.
Proof. solve_decision. Defined.
#[export] Instance NodeExecution_eq_dec : EqDecision NodeExecution.
Proof. solve_decision. Defined.
#[export] Instance Execution_eq_dec : EqDecision Execution.
Proof. solve_decision. Defined.
#[export] Instance ExecutionArchive_eq_dec : EqDecision ExecutionArchive.
Proof. solve_decision. Defined.

Definition demo_row (id : string) (created : Z) : WorkflowExecution :=
  {| weID := id; weWorkflowID := "wf"; weVersion := 1; weStatus := "completed"; weStartedAt := created; weFinishedAt := None; weExecutionTime := 0;
     weData := None; weError := ""; weCreatedAt := created |}.
Definition demo_node : NodeExecution :=
  {| neID := "na"; neExecutionID := "a"; neNodeID := "n"; neStatus := "completed"; neStartedAt := 1; neFinishedAt := None; neInputData := None;
     neOutputData := None; neError := ""; neRetryCount := 0 |}.
Definition demo_stored : ArchiveStore (T := gmap string string) :=
  {| asRows := {["a" := (demo_row "a" 1, "ann"); "b" := (demo_row "b" 100, "bob")]}; asNodes := {["na" := demo_node]}; asMeta := ∅; asObjects := ∅ |}.
Definition demo_archive_call : ArchiveCall :=
  {| acRows := λ _, ["a"; "b"]; acNodes := ["na"]; acMeta := ["0"]; acDates := λ _ l, l; acUuid := pretty; acNow := λ _, 9%Z;
     acFail := λ _ _, None; acDown := λ _, None |}.
Definition demo_old : Execution := {| exRow := demo_row "a" 1; exCreatedBy := "ann"; exNodes := [demo_node] |}.
Definition demo_archive : ExecutionArchive :=
  {| eaID := "0"; eaDate := "2024-01-01"; eaCount := 1; eaExecutions := [demo_old]; eaCreatedAt := 9 |}.
Definition toy_marshal (a : ExecutionArchive) : result string := if decide (a = demo_archive) then Ok "{}" else Err "unsupported".
Definition toy_unmarshal (d : string) : result ExecutionArchive := if decide (d = "{}") then Ok demo_archive else Err "EOF".
Definition demo_archiver (size : nat) : Archiver := {| arRetentionDays := 30; arBatchSize := size |}.
Definition demo_run (size : nat) (before : Z) (s : ArchiveStore) : outcome (option string) * ArchiveStore :=
  ArchiveExecutions Ok toy_marshal (λ _, "2024-01-01") (demo_archiver size) demo_archive_call before s.
Definition demo_retrieve (s : ArchiveStore) (id : string) : result Execution := RetrieveExecution Ok toy_unmarshal demo_archive_call s id.

Lemma demo_single : single Ok toy_unmarshal demo_stored.
Proof.
  assert (∀ id e, ¬ cold Ok toy_unmarshal demo_stored id e) as Hc by (intros id e (mid & m & a & e' & H & _); cbn in H; by rewrite lookup_empty in H).
  intros id a b [(r & Hr & <-)|Ha] [(r' & Hr' & <-)|Hb]; [|by apply Hc in Hb|by apply Hc in Ha|by apply Hc in Ha]. by simplify_eq.
Qed.
Lemma toy_codec a d : toy_marshal a = Ok d → toy_unmarshal d = Ok a.
Proof. unfold toy_marshal. case_decide as E; [|done]. intros [= <-]. by subst. Qed.
Definition demo_meta : ArchiveMetadata :=
  {| amID := ""; amType := ""; amDate := ""; amRecordCount := 0; amOriginalSize := 0; amCompressedSize := 0; amCompressionRatio := S754_zero false;
     amStorageKey := ""; amCreatedAt := 0 |}.
Lemma demo_stored_ok : store_ok demo_stored.
Proof.
  split; intros id r H; cbn in H; [|by rewrite lookup_empty in H].
  apply lookup_insert_Some in H as [[<- <-]|[_ H]]; [done|]. by apply lookup_singleton_Some in H as [<- <-].
Qed.
Definition demo_archived : ArchiveStore := (demo_run 1 50 demo_stored).2.
Lemma covers_one {A} (t : gmap string A) k : (∀ i, is_Some (t !! i) → i = k) → covers t [k].
Proof. intros H. split; [apply NoDup_singleton|]. intros i Hi. rewrite (H i Hi). apply list_elem_of_here. Qed.
Lemma demo_nodes : covers (asNodes demo_stored) ["na"].
Proof. apply covers_one. intros i [n Hn]. cbn in Hn. by apply lookup_singleton_Some in Hn as [<- _]. Qed.
Lemma demo_reads : reads_ok demo_archive_call demo_stored ∧ reads_ok demo_archive_call demo_archived.
Proof.
  split; split; try reflexivity; try exact demo_nodes; apply covers_one; intros i [m Hm].
  - cbn in Hm. by rewrite lookup_empty in Hm.
  - replace (asNodes demo_archived) with (∅ : gmap string NodeExecution) in Hm by (vm_compute; reflexivity). by rewrite lookup_empty in Hm.
  - replace (asMeta demo_archived) with ({["0" := default demo_meta (asMeta demo_archived !! "0")]} : gmap string ArchiveMetadata) in Hm
      by (vm_compute; reflexivity). by apply lookup_singleton_Some in Hm as [<- _].
Qed.
(** The old execution is gone from the table and is retrieved as before. *)
Lemma archiving_transparent_witness :
  asRows demo_archived !! "a" = None
  ∧ match demo_retrieve demo_stored "a", demo_retrieve demo_archived "a" with
    | Ok e, Ok e' => same_execution e e'
    | Err _, Err _ => True
    | _, _ => False
    end
  ∧ demo_retrieve demo_archived "a" = Ok demo_old.
Proof.
  split; [vm_compute; reflexivity|]. split; [|vm_compute; reflexivity].
  destruct (archiving_transparent Ok Ok toy_marshal toy_unmarshal (λ _, "2024-01-01") (λ _, eq_refl) (λ d z H, eq_sym H) toy_codec
    (demo_archiver 1) demo_archive_call 50 demo_stored) as (r & s' & E & _ & _ & H).
  - exact demo_stored_ok.
  - exact demo_single.
  - apply pretty_nat_inj.
  - intros k _. apply lookup_empty.
  - intros i l. reflexivity.
  - exact demo_nodes.
  - assert (s' = demo_archived) as -> by (unfold demo_archived, demo_run; rewrite E; reflexivity).
    exact (H demo_archive_call demo_archive_call "a" (proj1 demo_reads) (proj2 demo_reads)).
Defined.
(** With a batch of one row the second of two old rows is left: the offset passes
    over it. *)
Lemma offset_skips_rows :
  let s := {| asRows := {["a" := (demo_row "a" 1, "ann"); "b" := (demo_row "b" 2, "bob")]}; asNodes := {["na" := demo_node]}; asMeta := ∅; asObjects := ∅ |} in
  let '(r, s') := demo_run 1 50 s in r = Ret None ∧ is_Some (asRows s' !! "b") ∧ asRows s' !! "a" = None.
Proof. vm_compute. split; [done|]. split; [by eexists|done]. Qed.
