(* ===== verification/GlobalVariables.v ===== *)
(** internal/variable: the global variables, their repository and their service,
    which encrypts the secret ones and keeps a Redis hash of all values for
    executions.

    AES-GCM is a parameter, as it is for credentials.  The table has no index that
    keeps keys apart: the migration's constraint spans columns that are NULL. *)

From Stdlib Require Import Ascii NArith.
From S2P Require Import Prelude GoValue GoLib Base64 WorkflowRepo Redis Tokens Credentials.

(** ** Variables *)

Record GlobalVariable := {
  vrID : string;
  vrKey : string;
  vrValue : string;                     (* a ciphertext for secrets *)
  vrType : string;
  vrDescription : string;
  vrCreatedAt : Z;
  vrUpdatedAt : Z
}.
Definition set_var (v : GlobalVariable) (key value description : string) (updated : Z) : GlobalVariable :=
  {| vrID := vrID v; vrKey := key; vrValue := value; vrType := vrType v; vrDescription := description; vrCreatedAt := vrCreatedAt v;
     vrUpdatedAt := updated |}.
Definition with_value (v : GlobalVariable) (value : string) : GlobalVariable := set_var v (vrKey v) value (vrDescription v) (vrUpdatedAt v).

Definition TypeString := "string".
Definition TypeNumber := "number".
Definition TypeBoolean := "boolean".
Definition TypeSecret := "secret".
Definition ErrVariableNotFound := "variable not found".
Definition ErrInvalidVariableName := "invalid variable name".
Definition ErrVariableExists := "variable already exists".
Definition ErrInvalidVariableType := "invalid variable type".

Definition NewVariable (key value varType uuid : string) (now now' : Z) : GlobalVariable :=
  {| vrID := uuid; vrKey := key; vrValue := value; vrType := if bool_decide (varType = "") then TypeString else varType;
     vrDescription := ""; vrCreatedAt := now; vrUpdatedAt := now' |}.

(** The pattern [^[a-zA-Z][a-zA-Z0-9_]*$], and at most fifty bytes. *)
Definition letter (c : ascii) : bool :=
  let n := N_of_ascii c in ((65 <=? n) && (n <=? 90))%N || ((97 <=? n) && (n <=? 122))%N.
Definition key_char (c : ascii) : bool :=
  let n := N_of_ascii c in letter c || ((48 <=? n) && (n <=? 57))%N || bool_decide (c = "_"%char).
Definition validKey (key : string) : bool :=
  match key with "" => false | String c s => letter c && string_forall key_char s end.
Definition ValidateKey (key : string) : option string :=
  if bool_decide (key = "") then Some ErrInvalidVariableName
  else if negb (validKey key) then Some ErrInvalidVariableName
  else if bool_decide (50 < String.length key) then Some ErrInvalidVariableName
  else None.
Definition validTypes : list string := [TypeString; TypeNumber; TypeBoolean; TypeSecret].
Definition Variable_Validate (v : GlobalVariable) : option string :=
  match ValidateKey (vrKey v) with
  | Some e => Some e
  | None => if bool_decide (vrType v ∈ validTypes) then None else Some ErrInvalidVariableType
  end.
Definition IsSecret (v : GlobalVariable) : bool := bool_decide (vrType v = TypeSecret).
Definition MaskedValue (v : GlobalVariable) : string := if IsSecret v then "••••••••" else vrValue v.

Record VariableResponse := {
  voID : string;
  voKey : string;
  voValue : string;
  voType : string;
  voDescription : string;
  voCreatedAt : Z;
  voUpdatedAt : Z
}.
Definition ToResponse (v : GlobalVariable) : VariableResponse :=
  {| voID := vrID v; voKey := vrKey v; voValue := MaskedValue v; voType := vrType v; voDescription := vrDescription v;
     voCreatedAt := vrCreatedAt v; voUpdatedAt := vrUpdatedAt v |}.

(** ** The repository *)

Abbreviation variables := (gmap string GlobalVariable).
Definition has_key (key : string) (v : GlobalVariable) : bool := bool_decide (vrKey v = key).

Definition Var_Create (t : variables) (v : GlobalVariable) (fail : db_fail) : result variables :=
  try fail "INSERT variables" (if bool_decide (is_Some (t !! vrID v)) then Err duplicate_key else Ok (<[vrID v := v]> t)).
(** Every error is an absence to the two readers of one row. *)
Definition or_not_found {A} (r : result A) : result A := match r with Ok x => Ok x | Err _ => Err ErrVariableNotFound end.
Definition Var_GetByID (t : variables) (id : string) (fail : db_fail) : result GlobalVariable :=
  or_not_found (try fail "SELECT variables" (match t !! id with Some v => Ok v | None => Err record_not_found end)).
Definition Var_GetByKey (t : variables) (ord : list string) (key : string) (fail : db_fail) : result GlobalVariable :=
  or_not_found (try fail "SELECT variables"
    (match head (rows_where t ord (has_key key)) with Some v => Ok v | None => Err record_not_found end)).
(** [ord] has the rows in the order of their keys. *)
Definition Var_List (t : variables) (ord : list string) (fail : db_fail) : result (list GlobalVariable) :=
  try fail "SELECT variables" (Ok (rows_where t ord (λ _, true))).
(** [Save] sets the time of update on the pointer as well. *)
Definition Var_Update (t : variables) (v : GlobalVariable) (now : Z) (fail : db_fail) : GlobalVariable * result variables :=
  let v := set_var v (vrKey v) (vrValue v) (vrDescription v) now in
  (v, try fail "UPDATE variables" (Ok (<[vrID v := v]> t))).
Definition Var_Delete (t : variables) (id : string) (fail : db_fail) : result variables :=
  try fail "DELETE variables" (Ok (delete id t)).
Definition Var_Exists (t : variables) (ord : list string) (key : string) (fail : db_fail) : bool * option string :=
  match fail "SELECT count(variables)" with
  | Some e => (false, Some e)
  | None => (bool_decide (0 < length (rows_where t ord (has_key key))), None)
  end.
Definition GetAllAsMap (t : variables) (ord : list string) (fail : db_fail) : result (gmap string string) :=
  match Var_List t ord fail with
  | Err e => Err e
  | Ok l => Ok (foldl (λ m v, <[vrKey v := vrValue v]> m) ∅ l)
  end.

(** ** The hash of the values in Redis *)

Abbreviation texts := (gmap string string).
(** The hash [variables:all] and when it expires; without fields there is none. *)
Abbreviation redis_hash := (option (texts * option Z)).
Definition live_hash (h : redis_hash) (now : Z) : texts :=
  match h with Some (m, e) => if lives now e then m else ∅ | None => ∅ end.
Definition HGetAll (h : redis_hash) (now : Z) (fails : bool) : option texts := if fails then None else Some (live_hash h now).
(** New fields on those that are there, which keep their expiry. *)
Definition HSet (h : redis_hash) (now : Z) (fields : texts) (fails : bool) : redis_hash :=
  if fails then h
  else match h with
       | Some (m, e) => if lives now e then Some (fields ∪ m, e) else Some (fields, None)
       | None => Some (fields, None)
       end.
Definition Expire (h : redis_hash) (now ttl : Z) (fails : bool) : redis_hash :=
  if fails then h
  else match h with
       | Some (m, e) => if lives now e then Some (m, Some (now + ttl)%Z) else None
       | None => None
       end.
Definition Del (h : redis_hash) (fails : bool) : redis_hash := if fails then h else None.

(** ** The service *)

Record VariableService := {
  vsTable : variables;
  vsHash : redis_hash;
  vsEvents : list (string * string * vmap)
}.
(** What a call reads from outside: by statement or command of the call. *)
Record VariableCall := {
  vcNow : nat → Z;
  vcUuid : string;
  vcNonce : result string;
  vcOrd : nat → list string;
  vcFail : nat → db_fail;
  vcRedisFails : nat → bool;
  vcBus : option string
}.
Record CreateRequest := { crKey : string; crValue : string; crType : string; crDescription : string }.
Record UpdateRequest := { urKey : string; urValue : string; urDescription : string }.

Definition put_vars (s : VariableService) (t : variables) : VariableService :=
  {| vsTable := t; vsHash := vsHash s; vsEvents := vsEvents s |}.
Definition put_hash (s : VariableService) (h : redis_hash) : VariableService :=
  {| vsTable := vsTable s; vsHash := h; vsEvents := vsEvents s |}.
Definition invalidateCache (s : VariableService) (c : VariableCall) : VariableService := put_hash s (Del (vsHash s) (vcRedisFails c 0)).
Definition var_event (s : VariableService) (type id key : string) (c : VariableCall) : VariableService :=
  match vcBus c with
  | Some _ => s
  | None => {| vsTable := vsTable s; vsHash := vsHash s; vsEvents := vsEvents s ++ [(type, id, {["key" := VStr key]})] |}
  end.

(** A key of any length is cut or filled with zeros to thirty-two bytes. *)
Fixpoint zeros (n : nat) : string := match n with O => "" | S n => String "000"%char (zeros n) end.
Definition NewVariableService_key (encryptionKey : string) : string :=
  if bool_decide (String.length encryptionKey = 32) then encryptionKey
  else String.substring 0 32 (encryptionKey +:+ zeros 32).

Section service.
Context (seal : string → string → string → string) (open : string → string → string → option string).
Context (key : string).

Definition bad_key_size : string := "crypto/aes: invalid key size " +:+ pretty (String.length key).
Definition key_size_ok : bool := bool_decide (String.length key ∈ [16; 24; 32]).
Definition encrypt (plaintext : string) (nonce : result string) : result string :=
  if negb key_size_ok then Err bad_key_size
  else match nonce with
       | Err e => Err e
       | Ok nonce => Ok (EncodeToString (nonce +:+ seal key nonce plaintext))
       end.
Definition decrypt (ciphertext : string) : result string :=
  match DecodeString ciphertext with
  | Err e => Err e
  | Ok data =>
      if negb key_size_ok then Err bad_key_size
      else if bool_decide (String.length data < 12) then Err "ciphertext too short"
      else match open key (String.substring 0 12 data) (String.substring 12 (String.length data - 12) data) with
           | Some p => Ok p
           | None => Err "cipher: message authentication failed"
           end
  end.

(** The value of a variable as it is stored. *)
Definition stored_var (v : GlobalVariable) (c : VariableCall) : result GlobalVariable :=
  if IsSecret v then
    match encrypt (vrValue v) (vcNonce c) with
    | Err e => Err ("failed to encrypt secret: " +:+ e)
    | Ok ct => Ok (with_value v ct)
    end
  else Ok v.

Definition Service_Create (s : VariableService) (q : CreateRequest) (c : VariableCall) : result GlobalVariable * VariableService :=
  match ValidateKey (crKey q) with
  | Some e => (Err e, s)
  | None =>
      if fst (Var_Exists (vsTable s) (vcOrd c 0) (crKey q) (vcFail c 0)) then (Err ErrVariableExists, s)
      else
        let v := NewVariable (crKey q) (crValue q) (crType q) (vcUuid c) (vcNow c 0) (vcNow c 1) in
        let v := set_var v (vrKey v) (vrValue v) (crDescription q) (vrUpdatedAt v) in
        match Variable_Validate v with
        | Some e => (Err e, s)
        | None =>
            match stored_var v c with
            | Err e => (Err e, s)
            | Ok v =>
                match Var_Create (vsTable s) v (vcFail c 1) with
                | Err e => (Err ("failed to create variable: " +:+ e), s)
                | Ok t => (Ok v, var_event (invalidateCache (put_vars s t) c) "variable.created" (vrID v) (vrKey v) c)
                end
            end
        end
  end.

Definition Service_Get (s : VariableService) (id : string) (c : VariableCall) : result GlobalVariable :=
  Var_GetByID (vsTable s) id (vcFail c 0).
Definition Service_GetByKey (s : VariableService) (k : string) (c : VariableCall) : result GlobalVariable :=
  Var_GetByKey (vsTable s) (vcOrd c 0) k (vcFail c 0).
Definition Service_List (s : VariableService) (c : VariableCall) : result (list GlobalVariable) :=
  Var_List (vsTable s) (vcOrd c 0) (vcFail c 0).

(** The new key of an update, checked when it differs. *)
Definition changed_key (s : VariableService) (v : GlobalVariable) (k : string) (c : VariableCall) : result string :=
  if bool_decide (k = "") || bool_decide (k = vrKey v) then Ok (vrKey v)
  else match ValidateKey k with
       | Some e => Err e
       | None => if fst (Var_Exists (vsTable s) (vcOrd c 1) k (vcFail c 1)) then Err ErrVariableExists else Ok k
       end.
Definition new_value (v : GlobalVariable) (value : string) (c : VariableCall) : result GlobalVariable :=
  if bool_decide (value = "") then Ok v else stored_var (with_value v value) c.
Definition Service_Update (s : VariableService) (id : string) (q : UpdateRequest) (c : VariableCall) : result GlobalVariable * VariableService :=
  match Var_GetByID (vsTable s) id (vcFail c 0) with
  | Err e => (Err e, s)
  | Ok v =>
      match changed_key s v (urKey q) c with
      | Err e => (Err e, s)
      | Ok k =>
          match new_value (set_var v k (vrValue v) (vrDescription v) (vrUpdatedAt v)) (urValue q) c with
          | Err e => (Err e, s)
          | Ok v =>
              let description := if bool_decide (urDescription q = "") then vrDescription v else urDescription q in
              let v := set_var v (vrKey v) (vrValue v) description (vcNow c 0) in
              match Var_Update (vsTable s) v (vcNow c 1) (vcFail c 2) with
              | (_, Err e) => (Err ("failed to update variable: " +:+ e), s)
              | (v, Ok t) => (Ok v, var_event (invalidateCache (put_vars s t) c) "variable.updated" (vrID v) (vrKey v) c)
              end
          end
      end
  end.

Definition Service_Delete (s : VariableService) (id : string) (c : VariableCall) : option string * VariableService :=
  match Var_GetByID (vsTable s) id (vcFail c 0) with
  | Err e => (Some e, s)
  | Ok v =>
      match Var_Delete (vsTable s) id (vcFail c 1) with
      | Err e => (Some ("failed to delete variable: " +:+ e), s)
      | Ok t => (None, var_event (invalidateCache (put_vars s t) c) "variable.deleted" id (vrKey v) c)
      end
  end.

(** The text of a row. *)
Definition plain_text (v : GlobalVariable) : result string := if IsSecret v then decrypt (vrValue v) else Ok (vrValue v).
Definition GetDecryptedValue (s : VariableService) (k : string) (c : VariableCall) : result string :=
  match Var_GetByKey (vsTable s) (vcOrd c 0) k (vcFail c 0) with
  | Err e => Err e
  | Ok v => match plain_text v with Err e => Err ("failed to decrypt secret: " +:+ e) | Ok p => Ok p end
  end.

(** [GetAllForExecution] in the two steps between which other calls can come:
    what it reads, and the hash it writes; one that cannot be decrypted is left
    out. *)
Definition add_plain (m : texts) (v : GlobalVariable) : texts := match plain_text v with Ok p => <[vrKey v := p]> m | Err _ => m end.
Definition read_all (s : VariableService) (c : VariableCall) : result (texts * bool) :=
  let cached := default ∅ (HGetAll (vsHash s) (vcNow c 0) (vcRedisFails c 0)) in
  if negb (bool_decide (cached = ∅)) then Ok (cached, false)
  else match Var_List (vsTable s) (vcOrd c 0) (vcFail c 0) with Err e => Err e | Ok l => Ok (foldl add_plain ∅ l, true) end.
Definition fill_hash (s : VariableService) (m : texts) (c : VariableCall) : VariableService :=
  if bool_decide (m = ∅) then s
  else put_hash s (Expire (HSet (vsHash s) (vcNow c 1) m (vcRedisFails c 1)) (vcNow c 2) (5 * 60 * 1000000000) (vcRedisFails c 2)).
Definition GetAllForExecution (s : VariableService) (c : VariableCall) : result texts * VariableService :=
  match read_all s c with
  | Err e => (Err e, s)
  | Ok (m, false) => (Ok m, s)
  | Ok (m, true) => (Ok m, fill_hash s m c)
  end.
End service.

(** ** The calls of a client, and what they mean without encryption and cache *)

Inductive var_op :=
| OpCreate (q : CreateRequest)
| OpUpdate (id : string) (q : UpdateRequest)
| OpDelete (id : string)
| OpValue (k : string)                  (* [GetDecryptedValue] *)
| OpAll.                                (* [GetAllForExecution] *)
Inductive var_answer := Refused (e : string) | Done | Text (p : string) | All (h : texts).

Definition answer_of {A} (f : A → var_answer) (r : result A) : var_answer := match r with Ok x => f x | Err e => Refused e end.
Definition var_call (seal : string → string → string → string) (open : string → string → string → option string) (key : string)
    (s : VariableService) (op : var_op) (c : VariableCall) : var_answer * VariableService :=
  match op with
  | OpCreate q => let '(r, s') := Service_Create seal key s q c in (answer_of (λ _, Done) r, s')
  | OpUpdate id q => let '(r, s') := Service_Update seal key s id q c in (answer_of (λ _, Done) r, s')
  | OpDelete id => let '(e, s') := Service_Delete s id c in (from_option Refused Done e, s')
  | OpValue k => (answer_of Text (GetDecryptedValue open key s k c), s)
  | OpAll => let '(r, s') := GetAllForExecution open key s c in (answer_of All r, s')
  end.

(** The texts by ID: the state of the meaning. *)
Record Plain := { plKey : string; plValue : string; plType : string; plDescription : string }.
Abbreviation plains := (gmap string Plain).
Definition unused_key (m : plains) (k : string) : Prop := ∀ id p, m !! id = Some p → plKey p ≠ k.
Definition values_of (m : plains) (h : texts) : Prop :=
  ∀ k x, h !! k = Some x ↔ ∃ id p, m !! id = Some p ∧ plKey p = k ∧ plValue p = x.

Definition or_old_text (new old : string) : string := if bool_decide (new = "") then old else new.
Definition made (q : CreateRequest) : Plain :=
  {| plKey := crKey q; plValue := crValue q; plType := or_old_text (crType q) TypeString; plDescription := crDescription q |}.
Definition edited_plain (p : Plain) (q : UpdateRequest) : Plain :=
  {| plKey := or_old_text (urKey q) (plKey p); plValue := or_old_text (urValue q) (plValue p); plType := plType p;
     plDescription := or_old_text (urDescription q) (plDescription p) |}.

(** When a call is to succeed. *)
Definition accepts (m : plains) (op : var_op) (c : VariableCall) : Prop :=
  match op with
  | OpCreate q => ValidateKey (crKey q) = None ∧ plType (made q) ∈ validTypes ∧ unused_key m (crKey q) ∧ m !! vcUuid c = None
  | OpUpdate id q => ∃ p, m !! id = Some p ∧ (plKey (edited_plain p q) = plKey p ∨ ValidateKey (urKey q) = None ∧ unused_key m (urKey q))
  | OpDelete id => is_Some (m !! id)
  | OpValue k => ¬ unused_key m k
  | OpAll => True
  end.
(** The database and the random reader answer. *)
Definition works (c : VariableCall) : Prop := (∀ k stmt, vcFail c k stmt = None) ∧ ∃ n, vcNonce c = Ok n.
Definition meant (m : plains) (op : var_op) (c : VariableCall) (a : var_answer) : Prop :=
  match a, op with
  | Refused _, _ => works c → ¬ accepts m op c
  | Done, (OpCreate _ | OpUpdate _ _ | OpDelete _) => accepts m op c
  | Text x, OpValue k => ∃ id p, m !! id = Some p ∧ plKey p = k ∧ plValue p = x
  | All h, OpAll => values_of m h
  | _, _ => False
  end.
Definition next_plain (m : plains) (op : var_op) (c : VariableCall) (a : var_answer) : plains :=
  match a, op with
  | Done, OpCreate q => <[vcUuid c := made q]> m
  | Done, OpUpdate id q => alter (λ p, edited_plain p q) id m
  | Done, OpDelete id => delete id m
  | _, _ => m
  end.

Section refinement.
Context (seal : string → string → string → string) (open : string → string → string → option string).
Context (open_seal : ∀ k n p, open k n (seal k n p) = Some p).
Context (key : string) (key_size : String.length key = 32).
Implicit Types (m : plains) (v : GlobalVariable) (p : Plain) (h : texts).
Abbreviation var_call := (var_call seal open key).

(** Rows of texts. *)
Record var_row v p : Prop := {
  row_key : vrKey v = plKey p;
  row_type : vrType v = plType p;
  row_description : vrDescription v = plDescription p;
  row_plain : plain_text open key v = Ok (plValue p)
}.
Definition rows_of (t : variables) m : Prop := map_Forall (λ id v, vrID v = id) t ∧ ∀ id, option_relation var_row (λ _, False) (λ _, False) (t !! id) (m !! id).
Definition apart m : Prop := ∀ i j p q, m !! i = Some p → m !! j = Some q → plKey p = plKey q → i = j.
Definition vars_refine (s : VariableService) m : Prop :=
  rows_of (vsTable s) m ∧ apart m ∧ match vsHash s with Some (h, _) => values_of m h | None => True end.

(** The database lists every row; counting does not fail; a nonce has twelve
    bytes; an invalidation reaches Redis. *)
Definition var_writes (op : var_op) : bool := match op with OpCreate _ | OpUpdate _ _ | OpDelete _ => true | _ => false end.
Definition good (s : VariableService) (op : var_op) (c : VariableCall) : Prop :=
  (∀ k id, is_Some (vsTable s !! id) → id ∈ vcOrd c k)
  ∧ (∀ k, vcFail c k "SELECT count(variables)" = None)
  ∧ nonce_ok (vcNonce c)
  ∧ (var_writes op = true → vcRedisFails c 0 = false).

Lemma key_ok : key_size_ok key = true.
Proof. clear -key_size. unfold key_size_ok. rewrite key_size. done. Qed.

Lemma decrypt_encrypt x nonce ct : nonce_ok nonce → encrypt seal key x nonce = Ok ct → decrypt open key ct = Ok x.
Proof.
  clear -open_seal key_size. intros Hn He. pose proof key_ok as Hk.
  assert (Encrypt seal key x nonce = Ok ct) as HE.
  { unfold encrypt, Encrypt in *. unfold key_size_ok in Hk. unfold key_size_ok, cipher_ok in *. rewrite Hk in *. by destruct nonce. }
  destruct (Decrypt_Encrypt _ _ open_seal _ _ _ _ Hn HE) as [Hd _]. unfold decrypt, Decrypt in *. unfold key_size_ok, cipher_ok in *.
  rewrite Hk in *. repeat case_match; by simplify_eq.
Qed.
Lemma stored_var_row v c v' p :
  nonce_ok (vcNonce c) → stored_var seal key v c = Ok v' → vrKey v = plKey p → vrType v = plType p → vrDescription v = plDescription p →
  vrValue v = plValue p → var_row v' p ∧ vrID v' = vrID v.
Proof.
  clear -open_seal key_size. intros Hn E Hk Ht Hd Hv. unfold stored_var in E. destruct (IsSecret v) eqn:Es.
  - destruct (encrypt _ _ _ _) as [ct|] eqn:Ee; [|done]. simplify_eq. split; [|done]. split; try done. unfold plain_text.
    change (IsSecret (with_value v ct)) with (IsSecret v). rewrite Es. simpl. rewrite <- Hv. by eapply decrypt_encrypt.
  - simplify_eq. split; [|done]. split; try done. unfold plain_text. by rewrite Es, Hv.
Qed.
Lemma stored_works v c : works c → ∃ v', stored_var seal key v c = Ok v'.
Proof.
  clear -key_size. intros [_ [n Hn]]. unfold stored_var, encrypt. rewrite key_ok, Hn. simpl. destruct (IsSecret v); eauto.
Qed.

(** What the table says of keys. *)
Lemma rows_lookup t m id v : rows_of t m → t !! id = Some v → ∃ p, m !! id = Some p ∧ var_row v p ∧ vrID v = id.
Proof.
  clear. intros [Hid Ht] Hv. specialize (Ht id). rewrite Hv in Ht. destruct (m !! id) as [p|]; [|done]. exists p. split_and!; [done|done|by apply Hid].
Qed.
Lemma rows_lookup' t m id p : rows_of t m → m !! id = Some p → ∃ v, t !! id = Some v ∧ var_row v p ∧ vrID v = id.
Proof.
  clear. intros [Hid Ht] Hp. pose proof (Ht id) as H. rewrite Hp in H. destruct (t !! id) as [v|] eqn:E; [|done]. exists v. split_and!; [done|done|by apply Hid].
Qed.
Lemma rows_none t m id : rows_of t m → t !! id = None ↔ m !! id = None.
Proof. clear. intros [_ Ht]. specialize (Ht id). by destruct (t !! id), (m !! id). Qed.
Lemma rows_insert t m id v p : rows_of t m → var_row v p → vrID v = id → rows_of (<[id := v]> t) (<[id := p]> m).
Proof.
  clear. intros [Hid Ht] Hv Hi. split; [by apply map_Forall_insert_2|]. intros j. destruct (decide (id = j)) as [->|].
  - by rewrite !lookup_insert_eq.
  - rewrite !lookup_insert_ne by done. apply Ht.
Qed.
Lemma rows_delete t m id : rows_of t m → rows_of (delete id t) (delete id m).
Proof.
  clear. intros [Hid Ht]. split; [by apply map_Forall_delete|]. intros j. destruct (decide (id = j)) as [->|].
  - by rewrite !lookup_delete_eq.
  - rewrite !lookup_delete_ne by done. apply Ht.
Qed.

Lemma rows_with_key t m ord k v :
  rows_of t m → (∀ id, is_Some (t !! id) → id ∈ ord) →
  v ∈ rows_where t ord (has_key k) ↔ ∃ id p, t !! id = Some v ∧ m !! id = Some p ∧ var_row v p ∧ plKey p = k.
Proof.
  clear. intros Ht Ho. unfold rows_where. rewrite list_elem_of_omap. unfold has_key. split.
  - intros (id & _ & E). destruct (t !! id) as [v'|] eqn:Ev; [|done]. case_bool_decide; [|done]. simplify_eq.
    destruct (rows_lookup _ _ _ _ Ht Ev) as (p & Hp & Hr & _). exists id, p. split_and!; try done. by rewrite <- (row_key _ _ Hr).
  - intros (id & p & Ev & Hp & Hr & <-). exists id. rewrite Ev, bool_decide_true by apply Hr. split; [apply Ho; eauto|done].
Qed.
Lemma Exists_unused t m ord k fail :
  rows_of t m → (∀ id, is_Some (t !! id) → id ∈ ord) → fail "SELECT count(variables)" = None →
  fst (Var_Exists t ord k fail) = false ↔ unused_key m k.
Proof.
  clear. intros Ht Ho Hf. unfold Var_Exists. rewrite Hf. simpl. rewrite bool_decide_eq_false. pose proof (rows_with_key t m ord k) as Hrk. split.
  - intros Hn id p Hp Hk. destruct (rows_lookup' _ _ _ _ Ht Hp) as (v & Hv & Hr & _). apply Hn.
    assert (v ∈ rows_where t ord (has_key k)) as Hin by (apply Hrk; eauto 10). destruct (rows_where _ _ _); [by apply not_elem_of_nil in Hin|simpl; lia].
  - intros Hu. destruct (rows_where t ord (has_key k)) as [|v l]; [simpl; lia|]. exfalso.
    destruct (Hrk v Ht Ho) as [(id & p & _ & Hp & _ & Hk) _]; [left|]. by apply (Hu id p).
Qed.

(** *** The hash *)

Lemma values_unique m h h' : values_of m h → values_of m h' → h = h'.
Proof. clear. intros H H'. apply map_eq. intros k. apply option_eq. intros x. by rewrite (H k x), (H' k x). Qed.

Lemma add_plain_spec (l : list GlobalVariable) h k x :
  (∀ v, v ∈ l → ∃ p, var_row v p) → (∀ v v', v ∈ l → v' ∈ l → vrKey v = vrKey v' → v = v') →
  foldl (add_plain open key) h l !! k = Some x
  ↔ (∃ v, v ∈ l ∧ vrKey v = k ∧ plain_text open key v = Ok x) ∨ (∀ v, v ∈ l → vrKey v ≠ k) ∧ h !! k = Some x.
Proof.
  clear. revert h. induction l as [|v l IH]; intros h Hr Hu; simpl; [set_solver|]. rewrite IH by set_solver. destruct (Hr v) as [p Hp]; [left|].
  unfold add_plain. rewrite (row_plain _ _ Hp). destruct (decide (vrKey v = k)) as [<-|Hne].
  - rewrite lookup_insert_eq. split.
    + intros [(v' & Hv' & ?)|[_ [= <-]]]; left; [exists v'; set_solver|]. exists v. split_and!; [left|done|apply Hp].
    + intros [(v' & [->|Hv']%elem_of_cons & Hk & Hx)|[Hn _]]; [|left; eauto|set_solver]. rewrite (row_plain _ _ Hp) in Hx. simplify_eq.
      destruct (decide (Exists (λ v', vrKey v' = vrKey v) l)) as [(v' & Hv' & Hk')%Exists_exists|Hn].
      * left. exists v'. assert (v' = v) as -> by set_solver. split_and!; [done|done|apply Hp].
      * right. split; [|done]. intros v' Hv' Hk'. apply Hn, Exists_exists. eauto.
  - rewrite lookup_insert_ne by done. set_solver.
Qed.
Lemma all_values t m ord :
  rows_of t m → apart m → (∀ id, is_Some (t !! id) → id ∈ ord) →
  values_of m (foldl (add_plain open key) ∅ (rows_where t ord (λ _, true))).
Proof.
  clear. intros Ht Ha Ho k x.
  assert (∀ v, v ∈ rows_where t ord (λ _, true) ↔ ∃ id, t !! id = Some v) as Hin.
  { intros v. rewrite rows_where_elem. split; [naive_solver|]. intros [id Hv]. exists id. split_and!; [apply Ho; eauto|done..]. }
  rewrite add_plain_spec.
  - split.
    + intros [(v & [id Hv]%Hin & <- & Hx)|[_ ?]]; [|set_solver]. destruct (rows_lookup _ _ _ _ Ht Hv) as (p & Hp & Hr & _). exists id, p.
      split_and!; [done|by rewrite (row_key _ _ Hr)|]. rewrite (row_plain _ _ Hr) in Hx. by simplify_eq.
    + intros (id & p & Hp & <- & <-). destruct (rows_lookup' _ _ _ _ Ht Hp) as (v & Hv & Hr & _). left. exists v.
      split_and!; [apply Hin; eauto|apply Hr..].
  - intros v [id Hv]%Hin. destruct (rows_lookup _ _ _ _ Ht Hv) as (p & _ & Hr & _). eauto.
  - intros v v' [i Hi]%Hin [j Hj]%Hin Hk. destruct (rows_lookup _ _ _ _ Ht Hi) as (p & Hp & Hr & _), (rows_lookup _ _ _ _ Ht Hj) as (q & Hq & Hr' & _).
    assert (i = j) as -> by (apply (Ha i j p q); try done; by rewrite <- (row_key _ _ Hr), <- (row_key _ _ Hr')). congruence.
Qed.

Lemma fill_hash_refines s m h c : vars_refine s m → values_of m h → vars_refine (fill_hash s h c) m.
Proof.
  clear. intros (Ht & Ha & Hh) Hv. unfold fill_hash. case_bool_decide; [done|]. split_and!; [done..|]. simpl. unfold Expire, HSet.
  assert (∀ h' : texts, values_of m h' → values_of m (h ∪ h')) as Hu.
  { intros h' H'. rewrite (values_unique _ _ _ H' Hv). by rewrite (map_subseteq_union h h). }
  destruct (vsHash s) as [[h' e]|]; repeat case_match; simplify_eq; eauto.
Qed.
Lemma read_all_spec s m c :
  vars_refine s m → (∀ id, is_Some (vsTable s !! id) → id ∈ vcOrd c 0) →
  match read_all open key s c with
  | Ok (h, _) => values_of m h
  | Err e => vcFail c 0 "SELECT variables" = Some e
  end.
Proof.
  clear. intros (Ht & Ha & Hh) Ho. unfold read_all. case_bool_decide as Hc; simpl.
  - unfold Var_List, try. destruct (vcFail c 0 _); [done|]. by apply all_values.
  - unfold HGetAll, live_hash in *. repeat case_match; simplify_eq; simpl in *; simplify_eq; done.
Qed.

(** *** The calls *)

(** A write leaves the new rows and no hash. *)
Lemma write_refines s t c type id k m :
  vcRedisFails c 0 = false → rows_of t m → apart m → vars_refine (var_event (invalidateCache (put_vars s t) c) type id k c) m.
Proof. clear. intros Hd Ht Ha. unfold var_event, invalidateCache. rewrite Hd. by destruct (vcBus c); split_and!. Qed.

Lemma apart_insert m id p : apart m → (∀ j q, m !! j = Some q → plKey q = plKey p → j = id) → apart (<[id := p]> m).
Proof.
  clear. intros Ha Hp i j a b. rewrite !lookup_insert_Some. intros [[<- <-]|[Hi Hai]] [[<- <-]|[Hj Hbj]] Hk; try done.
  - symmetry. by eapply Hp.
  - by eapply Hp.
  - by eapply Ha.
Qed.
Lemma apart_delete m id : apart m → apart (delete id m).
Proof. clear. intros Ha i j a b [_ Hi]%lookup_delete_Some [_ Hj]%lookup_delete_Some. by apply Ha. Qed.

Lemma var_create_refines s m q c :
  vars_refine s m → good s (OpCreate q) c →
  let '(a, s') := var_call s (OpCreate q) c in meant m (OpCreate q) c a ∧ vars_refine s' (next_plain m (OpCreate q) c a).
Proof.
  clear -open_seal key_size. intros Hs (Ho & Hf & Hn & Hd). pose proof Hs as (Ht & Ha & _). specialize (Hd eq_refl). unfold var_call, Service_Create.
  pose proof (Exists_unused _ _ _ (crKey q) _ Ht (Ho 0) (Hf 0)) as Hex.
  destruct (ValidateKey (crKey q)) as [e|] eqn:Ev; simpl; [split; [intros _ [? _]; congruence|done]|].
  destruct (fst (Var_Exists _ _ _ _)); [split; [intros _ (_ & _ & Hu & _); by apply Hex in Hu|done]|].
  set (v := set_var _ _ _ _ _). assert (Variable_Validate v = if bool_decide (plType (made q) ∈ validTypes) then None else Some ErrInvalidVariableType) as ->.
  { unfold Variable_Validate, v. simpl. rewrite Ev. done. }
  case_bool_decide as Hty; [|split; [by intros _ (_ & ? & _)|done]].
  destruct (stored_var seal key v c) as [v'|e] eqn:Es.
  2: { split; [|done]. intros Hw _. destruct (stored_works v c Hw) as [v' Hv']. simpl in *. congruence. }
  destruct (stored_var_row v c v' (made q) Hn Es) as [Hr Hi]; [done..|]. unfold Var_Create, try. simpl in Hi.
  destruct (vcFail c 1 _) as [e|] eqn:Ef; [split; [intros [Hw _]; by rewrite Hw in Ef|done]|]. rewrite Hi.
  case_bool_decide as Hid; [split; [|done]|]; simpl.
  - intros _ (_ & _ & _ & Hm). apply (rows_none _ _ _ Ht) in Hm. rewrite Hm in Hid. by destruct Hid.
  - apply eq_None_not_Some in Hid. split; [split_and!; [done|done|by apply Hex|by apply (rows_none _ _ _ Ht)]|].
    apply write_refines; [done|by apply rows_insert|]. apply apart_insert; [done|]. intros j p Hp Hk. exfalso. by eapply (proj1 Hex); eauto.
Qed.

Lemma GetByID_rows t m id fail :
  rows_of t m →
  match Var_GetByID t id fail with
  | Ok v => ∃ p, t !! id = Some v ∧ m !! id = Some p ∧ var_row v p ∧ vrID v = id
  | Err _ => is_Some (fail "SELECT variables") ∨ m !! id = None
  end.
Proof.
  clear. intros Ht. unfold Var_GetByID, or_not_found, try. destruct (fail _); [by left; eauto|].
  destruct (t !! id) as [v|] eqn:Ev; [|right; by apply (rows_none _ _ _ Ht)].
  destruct (rows_lookup _ _ _ _ Ht Ev) as (p & ? & ? & ?). eauto.
Qed.

(** The key of an update is the meant one, and no other row has it. *)
Lemma new_key_spec s m id v p q c :
  vars_refine s m → good s (OpUpdate id q) c → m !! id = Some p → var_row v p →
  match changed_key s v (urKey q) c with
  | Ok k => k = plKey (edited_plain p q) ∧ accepts m (OpUpdate id q) c ∧ ∀ j p', m !! j = Some p' → plKey p' = k → j = id
  | Err _ => ¬ accepts m (OpUpdate id q) c
  end.
Proof.
  clear. intros (Ht & Ha & _) (Ho & Hf & _) Hp Hr. unfold changed_key. rewrite (row_key _ _ Hr).
  destruct (bool_decide (urKey q = "") || bool_decide (urKey q = plKey p)) eqn:E.
  - assert (plKey (edited_plain p q) = plKey p) as Hk.
    { simpl. unfold or_old_text. repeat case_bool_decide; done. }
    rewrite Hk. split_and!; [done|exists p; by eauto|]. intros j p' Hj Hk'. by apply (Ha j id p' p).
  - apply orb_false_iff in E as [E1%bool_decide_eq_false E2%bool_decide_eq_false].
    assert (plKey (edited_plain p q) = urKey q) as Hk by (simpl; unfold or_old_text; by rewrite bool_decide_false).
    assert (accepts m (OpUpdate id q) c ↔ ValidateKey (urKey q) = None ∧ unused_key m (urKey q)) as Hacc.
    { split; [intros (p0 & Hp0 & [H|H]); simplify_eq; [congruence|done]|intros H; exists p; by eauto]. }
    pose proof (Exists_unused _ _ _ (urKey q) _ Ht (Ho 1) (Hf 1)) as Hex.
    destruct (ValidateKey (urKey q)) eqn:Ev; [rewrite Hacc; by intros [? _]|].
    destruct (fst (Var_Exists _ _ _ _)); [rewrite Hacc; intros [_ Hu]; by apply Hex in Hu|]. rewrite Hacc. split_and!; [done|done|by apply Hex|].
    intros j p' Hj Hk'. exfalso. by eapply (proj1 Hex); eauto.
Qed.
Lemma new_value_spec v p x c :
  nonce_ok (vcNonce c) → var_row v p →
  match new_value seal key v x c with
  | Ok v' => var_row v' {| plKey := plKey p; plValue := or_old_text x (plValue p); plType := plType p; plDescription := plDescription p |} ∧ vrID v' = vrID v
  | Err _ => ¬ works c
  end.
Proof.
  clear -open_seal key_size. intros Hn Hr. unfold new_value, or_old_text. case_bool_decide as Hx; [by split; destruct Hr|].
  destruct (stored_var _ _ _ _) as [v'|] eqn:Es.
  - destruct (stored_var_row (with_value v x) c v' {| plKey := plKey p; plValue := x; plType := plType p; plDescription := plDescription p |})
      as [? Hi]; try done; by apply Hr.
  - intros Hw. destruct (stored_works (with_value v x) c Hw). congruence.
Qed.
Lemma row_set v p d now : var_row v p → var_row (set_var v (vrKey v) (vrValue v) (or_old_text d (vrDescription v)) now)
  {| plKey := plKey p; plValue := plValue p; plType := plType p; plDescription := or_old_text d (plDescription p) |}.
Proof. clear. intros []. split; simpl; try done. by rewrite row_description0. Qed.
Lemma row_rekey v p k : var_row v p → var_row (set_var v k (vrValue v) (vrDescription v) (vrUpdatedAt v))
  {| plKey := k; plValue := plValue p; plType := plType p; plDescription := plDescription p |}.
Proof. clear. by intros []. Qed.

Lemma var_update_refines s m id q c :
  vars_refine s m → good s (OpUpdate id q) c →
  let '(a, s') := var_call s (OpUpdate id q) c in meant m (OpUpdate id q) c a ∧ vars_refine s' (next_plain m (OpUpdate id q) c a).
Proof.
  clear -open_seal key_size. intros Hs Hg. pose proof Hg as (Ho & Hf & Hn & Hd). pose proof Hs as (Ht & Ha & _). specialize (Hd eq_refl).
  unfold var_call, Service_Update. pose proof (GetByID_rows _ _ id (vcFail c 0) Ht) as Hid.
  destruct (Var_GetByID _ _ _) as [v|e].
  2: { split; [|done]. intros [Hw _] (p & Hp & _). destruct Hid as [He|He]; [rewrite Hw in He; by destruct He|congruence]. }
  destruct Hid as (p & Hv & Hp & Hr & Hi). pose proof (new_key_spec _ _ _ _ _ q c Hs Hg Hp Hr) as Hk.
  destruct (changed_key _ _ _ _) as [k|e]; [|by split; [intros _; exact Hk|]]. destruct Hk as (Ek & Hacc & Hj).
  pose proof (new_value_spec _ _ (urValue q) c Hn (row_rekey v p k Hr)) as Hval. destruct (new_value _ _ _ _ _) as [v1|e]; [|by split; [intros Hw; by destruct (Hval Hw)|]].
  destruct Hval as [Hr1 Hi1]. simpl in Hi1. unfold Var_Update, try.
  destruct (vcFail c 2 _) as [e|] eqn:Ef; [split; [intros [Hw _]; by rewrite Hw in Ef|done]|]. simpl. split; [done|]. rewrite Hi1, Hi.
  assert (alter (λ p, edited_plain p q) id m = <[id := edited_plain p q]> m) as ->.
  { apply map_eq. intros j. destruct (decide (id = j)) as [<-|]; [by rewrite lookup_alter_eq, lookup_insert_eq, Hp|].
    by rewrite lookup_alter_ne, lookup_insert_ne. }
  apply write_refines; [done|apply rows_insert; [done| |by simpl; congruence]|apply apart_insert; [done|]].
  - apply (row_set _ _ (urDescription q) (vcNow c 1)) in Hr1. simpl in Hr1. rewrite Ek in Hr1. exact Hr1.
  - intros j p' Hp' Hk'. apply (Hj j p' Hp'). by rewrite Ek.
Qed.
Lemma var_delete_refines s m id c :
  vars_refine s m → good s (OpDelete id) c →
  let '(a, s') := var_call s (OpDelete id) c in meant m (OpDelete id) c a ∧ vars_refine s' (next_plain m (OpDelete id) c a).
Proof.
  clear -key_size. intros Hs (_ & _ & _ & Hd). pose proof Hs as (Ht & Ha & _). specialize (Hd eq_refl). unfold var_call, Service_Delete.
  pose proof (GetByID_rows _ _ id (vcFail c 0) Ht) as Hid. destruct (Var_GetByID _ _ _) as [v|e].
  2: { split; [|done]. intros [Hw _] [p Hp]. destruct Hid as [He|He]; [rewrite Hw in He; by destruct He|congruence]. }
  destruct Hid as (p & _ & Hp & _). unfold Var_Delete, try.
  destruct (vcFail c 1 _) as [e|] eqn:Ef; [split; [intros [Hw _]; by rewrite Hw in Ef|done]|]. simpl. split; [by eexists|].
  apply write_refines; [done|by apply rows_delete|by apply apart_delete].
Qed.
Lemma value_refines s m k c :
  vars_refine s m → good s (OpValue k) c → meant m (OpValue k) c (answer_of Text (GetDecryptedValue open key s k c)).
Proof.
  clear. intros (Ht & _ & _) (Ho & _). unfold GetDecryptedValue, Var_GetByKey, or_not_found, try.
  destruct (vcFail c 0 _) as [e|] eqn:Ef; [intros [Hw _]; by rewrite Hw in Ef|].
  pose proof (rows_with_key (vsTable s) m (vcOrd c 0) k) as Hrk. destruct (rows_where (vsTable s) (vcOrd c 0) (has_key k)) as [|v l]; simpl.
  - intros _ Hu. apply Hu. intros id p Hp Hk. destruct (rows_lookup' _ _ _ _ Ht Hp) as (v & Hv & Hr & _).
    apply (not_elem_of_nil v). apply (Hrk v Ht (Ho 0)). eauto 10.
  - destruct (Hrk v Ht (Ho 0)) as [(id & p & _ & Hp & Hr & Hk) _]; [left|]. rewrite (row_plain _ _ Hr). simpl. eauto.
Qed.
Lemma all_refines s m c :
  vars_refine s m → good s OpAll c → let '(a, s') := var_call s OpAll c in meant m OpAll c a ∧ vars_refine s' m.
Proof.
  clear. intros Hs (Ho & _). unfold var_call, GetAllForExecution. pose proof (read_all_spec s m c Hs (Ho 0)) as Hr.
  destruct (read_all open key s c) as [[h []]|e]; simpl; split; try done; [by apply fill_hash_refines|]. intros [Hw _]. by rewrite Hw in Hr.
Qed.

(** A call answers what is meant and keeps the texts and the tables together. *)
Lemma call_refines s m op c :
  vars_refine s m → good s op c → let '(a, s') := var_call s op c in meant m op c a ∧ vars_refine s' (next_plain m op c a).
Proof.
  clear -open_seal key_size. intros Hs Hg. destruct op as [q|id q|id|k|].
  - by apply var_create_refines.
  - by apply var_update_refines.
  - by apply var_delete_refines.
  - split; [by apply value_refines|]. simpl. by destruct (GetDecryptedValue _ _ _ _ _).
  - pose proof (all_refines s m c Hs Hg) as H. destruct (var_call s OpAll c) as [a s'] eqn:E. by destruct a.
Qed.

(** Sequences of calls, with what each answers. *)
Fixpoint var_run (s : VariableService) (l : list (var_op * VariableCall)) : list var_answer * VariableService :=
  match l with
  | [] => ([], s)
  | (op, c) :: l => let '(a, s1) := var_call s op c in let '(as_, s2) := var_run s1 l in (a :: as_, s2)
  end.
Fixpoint good_run (s : VariableService) (l : list (var_op * VariableCall)) : Prop :=
  match l with [] => True | (op, c) :: l => good s op c ∧ good_run (var_call s op c).2 l end.
Fixpoint meant_run m (l : list (var_op * VariableCall)) (as_ : list var_answer) : Prop :=
  match l, as_ with
  | [], [] => True
  | (op, c) :: l, a :: as_ => meant m op c a ∧ meant_run (next_plain m op c a) l as_
  | _, _ => False
  end.

Lemma var_run_refines s m l : vars_refine s m → good_run s l → meant_run m l (var_run s l).1.
Proof.
  clear -open_seal key_size. revert s m. induction l as [|[op c] l IH]; intros s m Hs Hg; simpl; [done|]. destruct Hg as [Hg Hl].
  pose proof (call_refines s m op c Hs Hg) as Hc. destruct (var_call s op c) as [a s1] eqn:E. simpl in Hl. destruct Hc as [Ha Hs1].
  specialize (IH s1 _ Hs1 Hl). destruct (var_run s1 l) as [as_ s2]. done.
Qed.
End refinement.

Definition no_variables : VariableService := {| vsTable := ∅; vsHash := None; vsEvents := [] |}.

Lemma zeros_length n : String.length (zeros n) = n.
Proof. induction n; simpl; congruence. Qed.
Lemma substring_length n s : n ≤ String.length s → String.length (String.substring 0 n s) = n.
Proof. revert s. induction n as [|n IH]; intros [|a s]; simpl; try lia. intros H. rewrite IH by lia. done. Qed.
(** The key of a service always has the thirty-two bytes of AES-256. *)
Lemma service_key_length k : String.length (NewVariableService_key k) = 32.
Proof.
  unfold NewVariableService_key. case_bool_decide; [done|]. apply substring_length. rewrite string_app_length, zeros_length. lia.
Qed.

(** C24. Refinement: the service implements a table of plain texts.  Whatever key it is given, along every sequence of calls on an empty
    service in which the database lists its rows and counts them, other statements, the random reader, the bus and Redis failing as they
    may except for an invalidation, every answer is what it means without encryption and without the Redis hash: a creation or update succeeds only for a valid
    key that no other variable has, a deletion only for one that is there, and each does when nothing fails; a value read is the text last
    written; and an execution gets exactly the keys and texts of the variables that are there. *)
Theorem variables_refinement (seal : string → string → string → string) (open : string → string → string → option string)
    (encryptionKey : string) (l : list (var_op * VariableCall)) :
  (∀ k n p, open k n (seal k n p) = Some p) →
  let key := NewVariableService_key encryptionKey in
  good_run seal open key no_variables l → meant_run ∅ l (var_run seal open key no_variables l).1.
Proof.
  intros Hseal key Hg. eapply var_run_refines; [done|apply service_key_length| |done]. split_and!; [|by intros i j p q ?|done].
  split; [by intros i v ?|]. intros id. unfold no_variables. simpl. by rewrite !lookup_empty.
Qed.

(** *** Examples *)

Definition plain_seal (k n p : string) : string := p.
Definition plain_open (k n p : string) : option string := Some p.
Definition server_key := "temporary-32-byte-encryption-key".
(** A call at [now], with every row in the order [ord]. *)
Definition calm_var (uuid : string) (now : Z) (ord : list string) : VariableCall :=
  {| vcNow := λ _, now; vcUuid := uuid; vcNonce := Ok "nonce-123456"; vcOrd := λ _, ord; vcFail := λ _, db_ok; vcRedisFails := λ _, false; vcBus := None |}.
Definition new_token : CreateRequest := {| crKey := "token"; crValue := "abc"; crType := "secret"; crDescription := "" |}.
Definition token_to (x : string) : UpdateRequest := {| urKey := ""; urValue := x; urDescription := "" |}.
Definition day : list (var_op * VariableCall) :=
  [(OpCreate new_token, calm_var "1" 1 ["1"]); (OpCreate new_token, calm_var "2" 2 ["1"]); (OpAll, calm_var "" 3 ["1"]); (OpUpdate "1" (token_to "xyz"), calm_var "" 4 ["1"]);
   (OpAll, calm_var "" 5 ["1"]); (OpAll, calm_var "" 6 ["1"]); (OpValue "token", calm_var "" 7 ["1"]); (OpDelete "1", calm_var "" 8 ["1"]); (OpAll, calm_var "" 9 ["1"])].
Definition served := var_call plain_seal plain_open (NewVariableService_key server_key).

Lemma day_answers : (var_run plain_seal plain_open (NewVariableService_key server_key) no_variables day).1 =
  [Done; Refused ErrVariableExists; All {["token" := "abc"]}; Done; All {["token" := "xyz"]}; All {["token" := "xyz"]}; Text "xyz"; Done; All ∅].
Proof. vm_compute. reflexivity. Qed.

(** Calm calls are good ones when they list the rows. *)
Fixpoint listed_run (s : VariableService) (l : list (var_op * VariableCall)) : bool :=
  match l with
  | [] => true
  | (op, c) :: l => forallb (λ kv : string * GlobalVariable, bool_decide (kv.1 ∈ vcOrd c 0)) (map_to_list (vsTable s)) && listed_run (served s op c).2 l
  end.
Definition is_calm (oc : var_op * VariableCall) : Prop := ∃ uuid now ord, oc.2 = calm_var uuid now ord.
Lemma calm_good s l : Forall is_calm l → listed_run s l = true → good_run plain_seal plain_open (NewVariableService_key server_key) s l.
Proof.
  intros Hl. revert s. induction Hl as [|[op c] l (uuid & now & ord & Hc) Hl IH]; intros s; [done|]. cbn [snd] in Hc. subst c. cbn [listed_run good_run].
  rewrite andb_true_iff, forallb_forall. intros [Ho Hr]. split; [|by apply IH]. split_and!; try done. intros k id [v Hv].
  apply (bool_decide_eq_true_1 _). apply (Ho (id, v)), list_elem_of_In, elem_of_map_to_list. done.
Qed.

Lemma variables_refinement_witness :
  (∀ k n p, plain_open k n (plain_seal k n p) = Some p)
  ∧ good_run plain_seal plain_open (NewVariableService_key server_key) no_variables day
  ∧ meant_run ∅ day (var_run plain_seal plain_open (NewVariableService_key server_key) no_variables day).1.
Proof.
  assert (good_run plain_seal plain_open (NewVariableService_key server_key) no_variables day) as Hg.
  { apply calm_good; [|vm_compute; reflexivity]. repeat (apply Forall_cons; split; [by do 3 eexists|]). by apply Forall_nil. }
  split_and!; [done|exact Hg|]. apply (variables_refinement plain_seal plain_open server_key day); [done|exact Hg].
Defined.

(** *** What the code does besides *)

(** An execution that reads the rows before an update and writes the hash after
    it: until the hash expires every execution gets the old text. *)
Definition one_token : VariableService := (served no_variables (OpCreate new_token) (calm_var "1" 1 ["1"])).2.
Lemma hash_race :
  let key := NewVariableService_key server_key in
  ∃ m, read_all plain_open key one_token (calm_var "" 2 ["1"]) = Ok (m, true)
    ∧ let s := (served one_token (OpUpdate "1" (token_to "xyz")) (calm_var "" 3 ["1"])).2 in
      let s := fill_hash s m (calm_var "" 4 ["1"]) in
      GetDecryptedValue plain_open key s "token" (calm_var "" 5 ["1"]) = Ok "xyz"
      ∧ (GetAllForExecution plain_open key s (calm_var "" 299999999999 ["1"])).1 = Ok {["token" := "abc"]}.
Proof. exists {["token" := "abc"]}. split; [vm_compute; reflexivity|]. split; vm_compute; reflexivity. Qed.
(** So does an invalidation that does not reach Redis. *)
Definition redis_down (c : VariableCall) : VariableCall :=
  {| vcNow := vcNow c; vcUuid := vcUuid c; vcNonce := vcNonce c; vcOrd := vcOrd c; vcFail := vcFail c; vcRedisFails := λ _, true; vcBus := vcBus c |}.
Lemma lost_invalidation :
  let s := (served one_token OpAll (calm_var "" 2 ["1"])).2 in
  let '(a, s) := served s (OpDelete "1") (redis_down (calm_var "" 3 ["1"])) in
  a = Done ∧ vsTable s = ∅ ∧ (served s OpAll (calm_var "" 4 [])).1 = All {["token" := "abc"]}.
Proof. vm_compute. by split_and!. Qed.
(** A count that fails counts as none: two variables have the key. *)
Definition count_down (c : VariableCall) : VariableCall :=
  {| vcNow := vcNow c; vcUuid := vcUuid c; vcNonce := vcNonce c; vcOrd := vcOrd c;
     vcFail := λ _ stmt, if bool_decide (stmt = "SELECT count(variables)") then Some "timeout" else None; vcRedisFails := vcRedisFails c; vcBus := vcBus c |}.
Lemma duplicate_after_failed_count :
  let '(a, s) := served one_token (OpCreate new_token) (count_down (calm_var "2" 2 ["1"])) in
  a = Done ∧ vrKey <$> rows_where (vsTable s) ["1"; "2"] (λ _, true) = ["token"; "token"].
Proof. vm_compute. by split. Qed.
(** The texts of the types number and boolean are not looked at. *)
Lemma number_not_checked :
  (served no_variables (OpCreate {| crKey := "n"; crValue := "many"; crType := "number"; crDescription := "" |}) (calm_var "1" 1 [])).1 = Done.
Proof. vm_compute. reflexivity. Qed.
(** Without a key the service encrypts under thirty-two zeros. *)
Lemma empty_key_accepted : NewVariableService_key "" = zeros 32.
Proof. reflexivity. Qed.
(** The hash holds the secrets in clear. *)
Lemma hash_in_clear : vsHash (served one_token OpAll (calm_var "" 2 ["1"])).2 = Some ({["token" := "abc"]}, Some 300000000002%Z).
Proof. vm_compute. reflexivity. Qed.
