(* ===== verification/VariableApi.v ===== *)
(** internal/variable/adapters/http/handlers and the routes of
    internal/variable/server/server.go.  The decoders of bodies are parameters; the
    metrics are left out. *)

From S2P Require Import Prelude GoValue GoLib WorkflowRepo GlobalVariables Http.

(** ** Answers and routes *)

Inductive VarBody :=
| VBEmpty
| VBVariable (v : VariableResponse)
| VBData (l : list VariableResponse)                (* gin.H{"data": ...} *)
| VBObject (h : list (string * value)).
Abbreviation Response := (Http.Response VarBody).
Definition var_says (status : Z) (h : list (string * value)) : Response := JSON status (VBObject h).
Definition var_fails (status : Z) (msg : string) : Response := var_says status [("error", VStr msg)].

Inductive VarEndpoint := VHealth | VReady | VList | VCreate | VGet | VUpdate | VDelete.
Abbreviation Route := (Http.Route VarEndpoint).
Definition var_v1 (method : string) (segs : list Seg) (e : VarEndpoint) : string * Route :=
  route method ([Lit "api"; Lit "v1"; Lit "variables"] ++ segs) e.
Definition Var_setupRouter : list (string * Route) := [
  route "GET" [Lit "health"; Lit "live"] VHealth;
  route "GET" [Lit "health"; Lit "ready"] VReady;
  var_v1 "GET" [] VList;
  var_v1 "POST" [] VCreate;
  var_v1 "GET" [Par "id"] VGet;
  var_v1 "PUT" [Par "id"] VUpdate;
  var_v1 "DELETE" [Par "id"] VDelete].

Record VarDecoders := { vdCreate : string → result CreateRequest; vdUpdate : string → result UpdateRequest }.

(** ** Handlers *)

Section api.
Context (seal : string → string → string → string) (key : string).
Context (dc : VarDecoders) (tag_error : complaints → string).
Abbreviation var_api := (handler VariableService VarBody).
Definition var_bad (e : string) : Response := var_fails StatusBadRequest e.

Definition handle_ListVars (c : VariableCall) : var_api :=
  asks (λ s, Service_List s c) (λ _, var_fails StatusInternalServerError "failed to list variables")
    (λ l, JSON StatusOK (VBData (ToResponse <$> l))).
Definition handle_GetVar (c : VariableCall) (r : Route) : var_api :=
  asks (λ s, Service_Get s (Param r "id") c) (λ _, var_fails StatusNotFound "variable not found") (λ v, JSON StatusOK (VBVariable (ToResponse v))).
Definition handle_CreateVar (c : VariableCall) (rq : Request) : var_api :=
  read_body tag_error (vdCreate dc) (λ q, required "Key" (crKey q) ++ required "Value" (crValue q)) var_bad rq (λ q,
    after_ (λ s, Service_Create seal key s q c)
      (λ e, var_fails (if bool_decide (e = ErrVariableExists) then StatusConflict else StatusBadRequest) e)
      (λ v, JSON StatusCreated (VBVariable (ToResponse v)))).
Definition handle_UpdateVar (c : VariableCall) (r : Route) (rq : Request) : var_api :=
  read_body tag_error (vdUpdate dc) (λ _, []) var_bad rq (λ q,
    after_ (λ s, Service_Update seal key s (Param r "id") q c) var_bad (λ v, JSON StatusOK (VBVariable (ToResponse v)))).
Definition handle_DeleteVar (c : VariableCall) (r : Route) : var_api :=
  after (λ s, Service_Delete s (Param r "id") c) var_bad (JSON StatusNoContent VBEmpty).

Definition var_handle (c : VariableCall) (r : Route) (rq : Request) : var_api :=
  match rtEndpoint r with
  | VHealth => tell (var_says StatusOK [("status", VStr "healthy")])
  | VReady => tell (var_says StatusOK [("status", VStr "ready")])
  | VList => handle_ListVars c
  | VCreate => handle_CreateVar c rq
  | VGet => handle_GetVar c r
  | VUpdate => handle_UpdateVar c r rq
  | VDelete => handle_DeleteVar c r
  end.
(** The middleware answers OPTIONS; no other part of it looks at a request. *)
Definition var_serve (c : VariableCall) (rq : Request) : var_api :=
  if bool_decide (rqMethod rq = "OPTIONS") then tell (JSON StatusNoContent VBEmpty)
  else match find_route Var_setupRouter rq with
       | None => tell (JSON StatusNotFound VBEmpty)
       | Some r => var_handle c r rq
       end.
Fixpoint var_serve_all (s : VariableService) (l : list (Request * VariableCall)) : list Response * VariableService :=
  match l with
  | [] => ([], s)
  | (rq, c) :: l => let '(a, s1) := var_serve c rq s in let '(as_, s2) := var_serve_all s1 l in (a :: as_, s2)
  end.

(** ** Secrets

    Two services that differ in nothing but the stored texts of secrets and the
    hash. *)

Record same_but_secret (v w : GlobalVariable) : Prop := {
  sb_id : vrID v = vrID w;
  sb_key : vrKey v = vrKey w;
  sb_type : vrType v = vrType w;
  sb_description : vrDescription v = vrDescription w;
  sb_created : vrCreatedAt v = vrCreatedAt w;
  sb_updated : vrUpdatedAt v = vrUpdatedAt w;
  sb_value : IsSecret v = false → vrValue v = vrValue w
}.
Definition alike_rows (t t' : variables) : Prop := ∀ id, option_Forall2 same_but_secret (t !! id) (t' !! id).
Definition alike (s s' : VariableService) : Prop := alike_rows (vsTable s) (vsTable s') ∧ vsEvents s = vsEvents s'.
(** Answers to two alike services: the same error, or alike values. *)
Definition alike_result {A} (R : A → A → Prop) (r r' : result A) : Prop :=
  match r, r' with Ok x, Ok y => R x y | Err e, Err e' => e = e' | _, _ => False end.

Lemma secret_same v w : same_but_secret v w → IsSecret v = IsSecret w.
Proof. intros H. unfold IsSecret. by rewrite (sb_type _ _ H). Qed.
Lemma response_same v w : same_but_secret v w → ToResponse v = ToResponse w.
Proof.
  intros H. unfold ToResponse, MaskedValue. rewrite <- (secret_same _ _ H). destruct H as [-> -> -> -> -> -> Hv].
  destruct (IsSecret v); [done|]. by rewrite Hv.
Qed.
Lemma same_refl v : same_but_secret v v.
Proof. done. Qed.
Lemma set_var_same v w k x d n :
  same_but_secret v w → same_but_secret (set_var v k x d n) (set_var w k x d n).
Proof. intros []. by split. Qed.
Lemma set_value_same v w k d n :
  same_but_secret v w → same_but_secret (set_var v k (vrValue v) d n) (set_var w k (vrValue w) d n).
Proof. intros []. by split. Qed.

Lemma alike_lookup t t' id : alike_rows t t' → option_Forall2 same_but_secret (t !! id) (t' !! id).
Proof. intros H. apply H. Qed.
Lemma alike_insert t t' id v w : alike_rows t t' → same_but_secret v w → alike_rows (<[id := v]> t) (<[id := w]> t').
Proof.
  intros Ht Hv j. destruct (decide (id = j)) as [->|]; [rewrite !lookup_insert_eq; by constructor|]. rewrite !lookup_insert_ne by done. apply Ht.
Qed.
Lemma alike_delete t t' id : alike_rows t t' → alike_rows (delete id t) (delete id t').
Proof.
  intros Ht j. destruct (decide (id = j)) as [->|]; [rewrite !lookup_delete_eq; by constructor|]. rewrite !lookup_delete_ne by done. apply Ht.
Qed.
Lemma alike_rows_where t t' ord cond :
  alike_rows t t' → (∀ v w, same_but_secret v w → cond v = cond w) → Forall2 same_but_secret (rows_where t ord cond) (rows_where t' ord cond).
Proof.
  intros Ht Hc. unfold rows_where. induction ord as [|id ord IH]; simpl; [done|]. destruct (Ht id) as [v w Hv|]; simpl; [|done].
  rewrite (Hc v w Hv). destruct (cond w); simpl; [by constructor|done].
Qed.
Lemma alike_exists t t' ord k fail : alike_rows t t' → Var_Exists t ord k fail = Var_Exists t' ord k fail.
Proof.
  intros Ht. unfold Var_Exists. destruct (fail _); [done|]. do 2 f_equal.
  rewrite (Forall2_length _ _ _ (alike_rows_where t t' ord (has_key k) Ht ltac:(intros v w Hv; unfold has_key; by rewrite (sb_key _ _ Hv)))). done.
Qed.
Lemma alike_GetByID t t' id fail : alike_rows t t' → alike_result same_but_secret (Var_GetByID t id fail) (Var_GetByID t' id fail).
Proof. intros Ht. unfold Var_GetByID, or_not_found, try. destruct (fail _); [done|]. by destruct (Ht id). Qed.

Lemma alike_event s s' t t' type id k c :
  alike s s' → alike_rows t t' → alike (var_event (invalidateCache (put_vars s t) c) type id k c) (var_event (invalidateCache (put_vars s' t') c) type id k c).
Proof. intros [_ He] Ht. unfold var_event. destruct (vcBus c); split; simpl; try done. by rewrite He. Qed.
(** What two alike services answer to a call, and what becomes of them. *)
Definition alike_step {A} (R : A → A → Prop) (r r' : A * VariableService) : Prop := R r.1 r'.1 ∧ alike r.2 r'.2.

Lemma Create_alike s s' q c :
  alike s s' → alike_step (alike_result same_but_secret) (Service_Create seal key s q c) (Service_Create seal key s' q c).
Proof.
  intros Hs. pose proof Hs as [Ht _]. unfold Service_Create. destruct (ValidateKey _); [done|]. rewrite (alike_exists _ _ _ _ _ Ht).
  destruct (fst _); [done|]. destruct (Variable_Validate _); [done|]. destruct (stored_var _ _ _ _) as [v|]; [|done]. unfold Var_Create, try.
  destruct (vcFail c 1 _); [done|]. assert (bool_decide (is_Some (vsTable s !! vrID v)) = bool_decide (is_Some (vsTable s' !! vrID v))) as ->.
  { apply bool_decide_ext. by destruct (Ht (vrID v)). }
  case_bool_decide; [done|]. split; [done|]. simpl. apply alike_event; [done|]. by apply alike_insert.
Qed.
Lemma new_value_alike v w x c : same_but_secret v w → alike_result same_but_secret (new_value seal key v x c) (new_value seal key w x c).
Proof.
  intros Hv. unfold new_value. case_bool_decide; [done|]. unfold stored_var.
  change (IsSecret (with_value v x)) with (IsSecret v). change (IsSecret (with_value w x)) with (IsSecret w). rewrite (secret_same _ _ Hv).
  assert (∀ y, same_but_secret (with_value v y) (with_value w y)) as Hy by (by intros y; destruct Hv; split).
  destruct (IsSecret w); simpl; [destruct (encrypt _ _ _ _); simpl; [apply Hy|done]|apply Hy].
Qed.
Lemma Update_alike s s' id q c :
  alike s s' → alike_step (alike_result same_but_secret) (Service_Update seal key s id q c) (Service_Update seal key s' id q c).
Proof.
  intros Hs. pose proof Hs as [Ht _]. unfold Service_Update. pose proof (alike_GetByID _ _ id (vcFail c 0) Ht) as Hg.
  destruct (Var_GetByID (vsTable s) id _) as [v|], (Var_GetByID (vsTable s') id _) as [w|]; simpl in Hg; try done.
  assert (changed_key s v (urKey q) c = changed_key s' w (urKey q) c) as ->.
  { unfold changed_key. by rewrite (sb_key _ _ Hg), (alike_exists _ _ _ _ _ Ht). }
  destruct (changed_key _ _ _ _) as [k|]; [|done]. rewrite (sb_description _ _ Hg), (sb_updated _ _ Hg).
  pose proof (new_value_alike _ _ (urValue q) c (set_value_same v w k (vrDescription w) (vrUpdatedAt w) Hg)) as Hn.
  destruct (new_value _ _ (set_var v _ _ _ _) _ _) as [v1|], (new_value _ _ (set_var w _ _ _ _) _ _) as [w1|]; simpl in Hn; try done.
  unfold Var_Update, try. destruct (vcFail c 2 _); [done|]. simpl. rewrite (sb_key _ _ Hn), (sb_id _ _ Hn), (sb_description _ _ Hn).
  apply (set_value_same _ _ (vrKey w1) (if bool_decide (urDescription q = "") then vrDescription w1 else urDescription q) (vcNow c 1)) in Hn.
  split; [done|]. apply alike_event; [done|]. by apply alike_insert.
Qed.
Lemma Delete_alike s s' id c : alike s s' → alike_step eq (Service_Delete s id c) (Service_Delete s' id c).
Proof.
  intros Hs. pose proof Hs as [Ht _]. unfold Service_Delete. pose proof (alike_GetByID _ _ id (vcFail c 0) Ht) as Hg.
  destruct (Var_GetByID (vsTable s) id _) as [v|], (Var_GetByID (vsTable s') id _) as [w|]; simpl in Hg; try done; [|by subst].
  unfold Var_Delete, try. destruct (vcFail c 1 _); [done|]. rewrite (sb_key _ _ Hg). split; [done|]. simpl. apply alike_event; [done|].
  by apply alike_delete.
Qed.

(** Handlers that answer the same from alike results. *)
Lemma after__alike {A} (R : A → A → Prop) (f : VariableService → result A * VariableService) err ok s s' :
  alike_step (alike_result R) (f s) (f s') → (∀ x y, R x y → ok x = ok y) → alike_step eq (after_ (B := VarBody) f err ok s) (after_ f err ok s').
Proof.
  unfold after_. destruct (f s) as [r s1], (f s') as [r' s1']. intros [Hr Hs] Hok. split; [|done]. simpl in *.
  destruct r, r'; simpl in Hr; try done; [by apply Hok|by subst].
Qed.
Lemma serve_alike c rq s s' : alike s s' → alike_step eq (var_serve c rq s) (var_serve c rq s').
Proof.
  intros Hs. pose proof Hs as [Ht _]. unfold var_serve. case_bool_decide; [done|]. destruct (find_route _ _) as [r|]; [|done]. unfold var_handle.
  assert (∀ status v w, same_but_secret v w → JSON status (VBVariable (ToResponse v)) = JSON status (VBVariable (ToResponse w))) as Hv
    by (intros ??? Hvw%response_same; by rewrite Hvw).
  destruct (rtEndpoint r); try done.
  - apply (after__alike (Forall2 same_but_secret)).
    + split; [|done]. unfold Service_List, Var_List, try. destruct (vcFail c 0 _); [done|]. simpl. by apply alike_rows_where.
    + intros l l' Hl. do 2 f_equal. induction Hl as [|v w l l' Hvw%response_same _ IH]; [done|]. by rewrite !fmap_cons, Hvw, IH.
  - unfold handle_CreateVar, read_body. destruct (vdCreate _ _); [|done]. destruct (_ ++ _); [|done].
    eapply after__alike; [by apply Create_alike|by apply Hv].
  - eapply after__alike; [split; [by apply alike_GetByID|done]|by apply Hv].
  - unfold handle_UpdateVar, read_body. destruct (vdUpdate _ _); [|done]. eapply after__alike; [by apply Update_alike|by apply Hv].
  - unfold handle_DeleteVar, after. pose proof (Delete_alike s s' (Param r "id") c Hs) as [He Hs'].
    destruct (Service_Delete s _ _), (Service_Delete s' _ _). simpl in *. by subst.
Qed.
End api.

(** C20. No disclosure: of two services that differ only in the stored texts of their secrets and in the Redis hash, any sequence of HTTP
    requests, whatever fails, gets the same answers, byte for byte of what the answers are made of.  So no request learns anything of a
    stored secret, not even of its ciphertext. *)
Theorem secrets_not_disclosed (seal : string → string → string → string) (key : string) (dc : VarDecoders) (tag_error : complaints → string)
    (s s' : VariableService) (l : list (Request * VariableCall)) :
  alike s s' → (var_serve_all seal key dc tag_error s l).1 = (var_serve_all seal key dc tag_error s' l).1.
Proof.
  revert s s'. induction l as [|[rq c] l IH]; intros s s' Hs; simpl; [done|]. pose proof (serve_alike seal key dc tag_error c rq s s' Hs) as [Ha Hs1].
  destruct (var_serve seal key dc tag_error c rq s) as [a s1], (var_serve seal key dc tag_error c rq s') as [a' s1']. simpl in *. subst.
  specialize (IH _ _ Hs1). destruct (var_serve_all _ _ _ _ s1 l), (var_serve_all _ _ _ _ s1' l). simpl in *. by subst.
Qed.

(** ** Examples *)

Definition var_decoders : VarDecoders :=
  {| vdCreate := λ b, Ok {| crKey := "token"; crValue := b; crType := "secret"; crDescription := "" |}; vdUpdate := λ b, Ok (token_to b) |}.
Definition var_rq (method : string) (path : list string) (body : string) : Request :=
  {| rqMethod := method; rqPath := path; rqHeader := ∅; rqQuery := ∅; rqBody := body |}.
Definition var_path (segs : list string) : list string := ["api"; "v1"; "variables"] ++ segs.
Definition var_demo_serve := var_serve plain_seal server_key var_decoders complain.
(** A service with one secret. *)
Definition with_secret (x : string) : VariableService :=
  (var_demo_serve (calm_var "1" 1 []) (var_rq "POST" (var_path []) x) no_variables).2.
Definition visits : list (Request * VariableCall) :=
  [(var_rq "GET" (var_path []) "", calm_var "" 2 ["1"]); (var_rq "PUT" (var_path ["1"]) "new", calm_var "" 3 ["1"]); (var_rq "GET" (var_path ["1"]) "", calm_var "" 4 ["1"])].

Lemma secrets_not_disclosed_witness :
  vsTable (with_secret "abc") ≠ vsTable (with_secret "xyz")
  ∧ (var_serve_all plain_seal server_key var_decoders complain (with_secret "abc") visits).1
    = (var_serve_all plain_seal server_key var_decoders complain (with_secret "xyz") visits).1.
Proof.
  split; [intros H; apply (f_equal (λ t : variables, vrValue <$> t !! "1")) in H; vm_compute in H; discriminate|].
  apply (secrets_not_disclosed plain_seal server_key var_decoders complain). split; [|vm_compute; reflexivity]. intros id.
  change (vsTable (with_secret "abc")) with (<["1" := default (NewVariable "" "" "" "" 0 0) (vsTable (with_secret "abc") !! "1")]> (∅ : variables)).
  change (vsTable (with_secret "xyz")) with (<["1" := default (NewVariable "" "" "" "" 0 0) (vsTable (with_secret "xyz") !! "1")]> (∅ : variables)).
  destruct (decide ("1" = id)) as [<-|]; [rewrite !lookup_insert_eq; constructor; split; vm_compute; done|].
  rewrite !lookup_insert_ne, !lookup_empty by done. constructor.
Defined.

(** ** What the interface does besides *)

(** Nobody is asked who they are: any request writes. *)
Lemma anyone_writes : rsStatus (var_demo_serve (calm_var "1" 1 []) (var_rq "POST" (var_path []) "x") no_variables).1 = StatusCreated.
Proof. vm_compute. reflexivity. Qed.
(** Changing or deleting a variable that is not there is a bad request, not an
    absence. *)
Lemma absent_is_bad_request c r rq s q :
  vdUpdate var_decoders (rqBody rq) = Ok q → vsTable s !! Param r "id" = None →
  rsStatus (handle_UpdateVar plain_seal server_key var_decoders complain c r rq s).1 = StatusBadRequest
  ∧ rsStatus (handle_DeleteVar c r s).1 = StatusBadRequest
  ∧ rsStatus (handle_GetVar c r s).1 = StatusNotFound.
Proof.
  intros Hq Hid. unfold handle_UpdateVar, read_body, handle_DeleteVar, handle_GetVar, asks, after, after_, Service_Update, Service_Delete, Service_Get,
    Var_GetByID, or_not_found, try. rewrite Hq, Hid. simpl. by destruct (vcFail c 0 _).
Qed.
(** No update empties a value or a description. *)
Lemma update_keeps_text seal key s id q c v :
  vsTable s !! id = Some v → urValue q = "" → urDescription q = "" →
  match (Service_Update seal key s id q c).1 with Ok w => vrValue w = vrValue v ∧ vrDescription w = vrDescription v | Err _ => True end.
Proof.
  intros Hv Hq Hd. unfold Service_Update, Var_GetByID, or_not_found, try, new_value. rewrite Hv, Hq, Hd. destruct (vcFail c 0 _); [done|].
  destruct (changed_key _ _ _ _); [|done]. simpl. unfold Var_Update, try. by destruct (vcFail c 2 _).
Qed.
