(* ===== verification/ExecutionGraph.v ===== *)
(** pkg/contracts/workflow/execution.go: the dependencies between the nodes of a
    workflow and the groups of nodes that may run in parallel. *)

From S2P Require Import Prelude GoValue Graph Workflow GoLib.

(** ** The graph *)

Record ExecutionDependency := {
  edNodeID : string;
  edDependsOn : list string;
  edWaitForAll : bool;
  edContinueOnFail : bool
}.
Record ParallelExecutionGroup := {
  pgID : string;
  pgNodeIDs : list string;
  pgMaxConcurrency : Z
}.
Record ExecutionGraph := {
  egNodes : gmap string Node;
  egDependencies : gmap string ExecutionDependency;
  egParallelGroups : list ParallelExecutionGroup
}.

Definition add_dependency (deps : gmap string ExecutionDependency) (conn : Connection) : gmap string ExecutionDependency :=
  match deps !! cTarget conn with
  | Some d => <[cTarget conn := {| edNodeID := edNodeID d; edDependsOn := edDependsOn d ++ [cSource conn]; edWaitForAll := edWaitForAll d;
                                   edContinueOnFail := edContinueOnFail d |}]> deps
  | None => <[cTarget conn := {| edNodeID := cTarget conn; edDependsOn := [cSource conn]; edWaitForAll := true; edContinueOnFail := false |}]> deps
  end.
Definition createDependencyKey (deps : list string) : string := foldl (λ key dep, key +:+ dep +:+ ",") "" deps.
(** [stamp] is the time of the call in whole seconds. *)
Definition generateGroupID (stamp : string) : string := "group_" +:+ stamp.

(** [ord] is the order of the range over the dependencies, [ord2] that over the
    groups by their keys, [stamps] the times at which groups get their IDs. *)
Definition group_node (deps : gmap string ExecutionDependency) (groups : gmap string (list string)) (nodeID : string) : gmap string (list string) :=
  match deps !! nodeID with
  | Some d =>
      if bool_decide (0 < length (edDependsOn d))
      then let key := createDependencyKey (edDependsOn d) in <[key := default [] (groups !! key) ++ [nodeID]]> groups
      else groups
  | None => groups
  end.
Definition dep_groups (deps : gmap string ExecutionDependency) (ord : list string) : gmap string (list string) := foldl (group_node deps) ∅ ord.
Fixpoint make_groups (groups : gmap string (list string)) (ord2 : list string) (k : nat) (stamps : nat → string) : list ParallelExecutionGroup :=
  match ord2 with
  | [] => []
  | key :: ord2 =>
      let nodes := default [] (groups !! key) in
      if bool_decide (1 < length nodes)
      then {| pgID := generateGroupID (stamps k); pgNodeIDs := nodes; pgMaxConcurrency := Z.of_nat (length nodes) |} :: make_groups groups ord2 (S k) stamps
      else make_groups groups ord2 k stamps
  end.
Definition identifyParallelGroups (g : ExecutionGraph) (ord ord2 : list string) (stamps : nat → string) : ExecutionGraph :=
  {| egNodes := egNodes g; egDependencies := egDependencies g;
     egParallelGroups := egParallelGroups g ++ make_groups (dep_groups (egDependencies g) ord) ord2 0 stamps |}.
Definition dependencies_of (w : Workflow) : gmap string ExecutionDependency := foldl add_dependency ∅ (wConnections w).
Definition BuildExecutionGraph (w : Workflow) (ord ord2 : list string) (stamps : nat → string) : ExecutionGraph :=
  identifyParallelGroups {| egNodes := node_map (wNodes w); egDependencies := dependencies_of w; egParallelGroups := [] |} ord ord2 stamps.

(** ** What it is *)

(** The sources of the connections into a node, in their order. *)
Definition sources (w : Workflow) (id : string) : list string :=
  cSource <$> filter (λ c, cTarget c = id) (wConnections w).

Lemma dependencies_spec w id :
  dependencies_of w !! id = match sources w id with
                            | [] => None
                            | l => Some {| edNodeID := id; edDependsOn := l; edWaitForAll := true; edContinueOnFail := false |}
                            end.
Proof.
  unfold dependencies_of, sources. induction (wConnections w) as [|c l IH] using rev_ind; [done|].
  rewrite foldl_app, filter_app, fmap_app. cbn [foldl]. unfold add_dependency at 1. destruct (decide (cTarget c = id)) as [<-|Hne].
  - rewrite filter_cons_True, filter_nil, IH by done.
    destruct (cSource <$> filter (λ c0, cTarget c0 = cTarget c) l) as [|x xs]; simpl; by rewrite lookup_insert_eq.
  - rewrite filter_cons_False, filter_nil by done. simpl. rewrite app_nil_r, <- IH. destruct (foldl add_dependency ∅ l !! cTarget c); by rewrite lookup_insert_ne.
Qed.

Definition key_of (w : Workflow) (id : string) : string := createDependencyKey (sources w id).
(** The nodes under a key, in the order of the range. *)
Lemma dep_groups_spec w ord key :
  (∀ id, id ∈ ord → sources w id ≠ []) →
  default [] (dep_groups (dependencies_of w) ord !! key) = filter (λ id, key_of w id = key) ord
  ∧ (dep_groups (dependencies_of w) ord !! key = None ↔ filter (λ id, key_of w id = key) ord = []).
Proof.
  unfold dep_groups. induction ord as [|id ord IH] using rev_ind; intros Ho; [simpl; by rewrite lookup_empty|].
  rewrite foldl_app, filter_app. cbn [foldl]. destruct IH as [IH1 IH2]; [intros i Hi; apply Ho; set_solver|].
  assert (dependencies_of w !! id = Some {| edNodeID := id; edDependsOn := sources w id; edWaitForAll := true; edContinueOnFail := false |}) as Hd.
  { rewrite dependencies_spec. destruct (sources w id) eqn:E; [destruct (Ho id); [set_solver|done]|done]. }
  unfold group_node at 1 3. rewrite Hd. cbn [edDependsOn]. rewrite bool_decide_true
    by (destruct (sources w id) eqn:E; [destruct (Ho id); [set_solver|done]|simpl; lia]).
  change (createDependencyKey (sources w id)) with (key_of w id). destruct (decide (key_of w id = key)) as [<-|Hne].
  - rewrite lookup_insert_eq, filter_cons_True, filter_nil by done. cbn [default from_option]. rewrite IH1. split; [done|]. split; [done|]. by intros []%app_nil.
  - rewrite lookup_insert_ne, filter_cons_False, filter_nil, app_nil_r by done. done.
Qed.

Lemma make_groups_elem groups ord2 k stamps (l : list string) :
  l ∈ pgNodeIDs <$> make_groups groups ord2 k stamps ↔ ∃ key, key ∈ ord2 ∧ l = default [] (groups !! key) ∧ 1 < length l.
Proof.
  revert k. induction ord2 as [|key ord2 IH]; intros k; simpl; [set_solver|]. case_bool_decide as Hl.
  - simpl. rewrite elem_of_cons, IH. set_solver.
  - rewrite IH. split; [set_solver|]. intros (key' & [->|Hk]%elem_of_cons & -> & Hlen); [done|eauto].
Qed.

(** The groups are the classes of two or more nodes with the same key, in
    whatever orders the maps are visited. *)
Lemma parallel_groups_correct w ord ord2 stamps (l : list string) :
  range_order (dependencies_of w) ord → range_order (dep_groups (dependencies_of w) ord) ord2 →
  l ∈ pgNodeIDs <$> egParallelGroups (BuildExecutionGraph w ord ord2 stamps)
  ↔ 1 < length l ∧ ∃ id, id ∈ l ∧ l = filter (λ id', key_of w id' = key_of w id) ord.
Proof.
  intros Ho Ho2. simpl. rewrite make_groups_elem.
  assert (∀ id, id ∈ ord → sources w id ≠ []) as Hs.
  { intros id Hid. apply (range_order_elem _ _ _ Ho) in Hid. rewrite dependencies_spec in Hid. destruct (sources w id); [by destruct Hid|done]. }
  split.
  - intros (key & _ & -> & Hl). destruct (dep_groups_spec w ord key Hs) as [E _]. rewrite E in *. split; [done|].
    destruct (filter (λ id, key_of w id = key) ord) as [|id l] eqn:El; [simpl in Hl; lia|]. exists id. split; [left|].
    assert (id ∈ filter (λ id, key_of w id = key) ord) as Hid by (rewrite El; left). apply list_elem_of_filter in Hid as [<- _]. by rewrite El.
  - intros (Hl & id & Hid & ->). destruct (dep_groups_spec w ord (key_of w id) Hs) as [E1 E2]. exists (key_of w id). rewrite E1. split; [|done].
    apply (range_order_elem _ _ _ Ho2). destruct (dep_groups _ _ !! key_of w id) eqn:Eg; [by eexists|]. rewrite (proj1 E2 eq_refl) in Hl. simpl in Hl. lia.
Qed.

(** Nodes without an incoming connection are in no group, and a node is in at
    most one. *)
Lemma roots_in_no_group w ord ord2 stamps l id :
  range_order (dependencies_of w) ord → range_order (dep_groups (dependencies_of w) ord) ord2 →
  l ∈ pgNodeIDs <$> egParallelGroups (BuildExecutionGraph w ord ord2 stamps) → id ∈ l → sources w id ≠ [].
Proof.
  intros Ho Ho2 (_ & x & _ & ->)%(parallel_groups_correct w ord ord2 stamps l Ho Ho2) [_ Hid]%list_elem_of_filter.
  apply (range_order_elem _ _ _ Ho) in Hid. rewrite dependencies_spec in Hid. destruct (sources w id); [by destruct Hid|done].
Qed.
Lemma groups_disjoint w ord ord2 stamps l l' id :
  range_order (dependencies_of w) ord → range_order (dep_groups (dependencies_of w) ord) ord2 →
  l ∈ pgNodeIDs <$> egParallelGroups (BuildExecutionGraph w ord ord2 stamps) →
  l' ∈ pgNodeIDs <$> egParallelGroups (BuildExecutionGraph w ord ord2 stamps) → id ∈ l → id ∈ l' → l = l'.
Proof.
  intros Ho Ho2 (_ & x & _ & ->)%(parallel_groups_correct w ord ord2 stamps l Ho Ho2)
    (_ & y & _ & ->)%(parallel_groups_correct w ord ord2 stamps l' Ho Ho2) [Hx _]%list_elem_of_filter [Hy _]%list_elem_of_filter.
  by rewrite <- Hx, <- Hy.
Qed.

(** ** What the keys do *)

Definition conn_of (source target : string) : Connection :=
  {| cID := source +:+ target; cSource := source; cTarget := target; cSourcePort := ""; cTargetPort := ""; cData := None |}.
(** The same predecessors in another order make another key. *)
Lemma order_of_connections_matters :
  createDependencyKey ["a"; "b"] ≠ createDependencyKey ["b"; "a"].
Proof. by vm_compute. Qed.
(** A comma in an ID makes different predecessors look the same. *)
Lemma comma_confuses_keys : createDependencyKey ["a,b"] = createDependencyKey ["a"; "b"].
Proof. reflexivity. Qed.
(** Groups made within a second have the same ID. *)
Lemma group_ids_repeat groups ord2 stamp :
  ∀ p, p ∈ make_groups groups ord2 0 (λ _, stamp) → pgID p = generateGroupID stamp.
Proof.
  generalize 0. induction ord2 as [|key ord2 IH]; intros k p; simpl; [set_solver|]. case_bool_decide; [|apply IH].
  rewrite elem_of_cons. intros [->|Hp]; [done|by eapply IH].
Qed.
