(* ===== verification/Analytics.v ===== *)
(** internal/workflow/app/analytics/collector.go: the statistics of workflows,
    counted in a buffer, copied to Redis and saved by goroutines.

    JSON and the mean the database computes are parameters.  [scWritten] lists the
    statements that save statistics in the order in which they reach the database;
    the rows are what they leave. *)

From S2P Require Import Prelude GoValue GoLib Tokens WorkflowRepo Orchestrator.

(** ** Data *)

Record ErrorStats := { esErrorType : string; esCount : Z; esLastSeen : Z; esNodeID : string }.
Record NodeStats := {
  nsNodeID : string;
  nsNodeName : string;
  nsExecutions : Z;
  nsFailures : Z;
  nsAverageRuntime : Z;
  nsErrorRate : spec_float
}.
Record WorkflowStats := {
  waWorkflowID : string;
  waTotalExecutions : Z;
  waSuccessfulRuns : Z;
  waFailedRuns : Z;
  waCancelledRuns : Z;
  waAverageRuntime : Z;
  waMinRuntime : Z;
  waMaxRuntime : Z;
  waLastExecution : option Z;
  waLastSuccessfulRun : option Z;
  waLastFailedRun : option Z;
  waErrorRate : spec_float;
  waSuccessRate : spec_float;
  waThroughputPerHour : spec_float;
  waThroughputPerDay : spec_float;
  waCommonErrors : list ErrorStats;
  waNodeStatistics : list NodeStats;
  waUpdatedAt : Z
}.
Definition zero_rate : spec_float := f64_of_Z 0.
Definition new_stats (id : string) : WorkflowStats :=
  {| waWorkflowID := id; waTotalExecutions := 0; waSuccessfulRuns := 0; waFailedRuns := 0; waCancelledRuns := 0; waAverageRuntime := 0;
     waMinRuntime := 0; waMaxRuntime := 0; waLastExecution := None; waLastSuccessfulRun := None; waLastFailedRun := None; waErrorRate := zero_rate;
     waSuccessRate := zero_rate; waThroughputPerHour := zero_rate; waThroughputPerDay := zero_rate; waCommonErrors := []; waNodeStatistics := [];
     waUpdatedAt := 0 |}.

(** Statistics with other counters, runtimes, times and errors. *)
Definition with_runtimes (s : WorkflowStats) (avg min max : Z) : WorkflowStats :=
  {| waWorkflowID := waWorkflowID s; waTotalExecutions := waTotalExecutions s; waSuccessfulRuns := waSuccessfulRuns s; waFailedRuns := waFailedRuns s;
     waCancelledRuns := waCancelledRuns s; waAverageRuntime := avg; waMinRuntime := min; waMaxRuntime := max; waLastExecution := waLastExecution s;
     waLastSuccessfulRun := waLastSuccessfulRun s; waLastFailedRun := waLastFailedRun s; waErrorRate := waErrorRate s; waSuccessRate := waSuccessRate s;
     waThroughputPerHour := waThroughputPerHour s; waThroughputPerDay := waThroughputPerDay s; waCommonErrors := waCommonErrors s;
     waNodeStatistics := waNodeStatistics s; waUpdatedAt := waUpdatedAt s |}.
Definition with_counts (s : WorkflowStats) (total ok failed cancelled : Z) (last last_ok last_failed : option Z) (errors : list ErrorStats) : WorkflowStats :=
  {| waWorkflowID := waWorkflowID s; waTotalExecutions := total; waSuccessfulRuns := ok; waFailedRuns := failed;
     waCancelledRuns := cancelled; waAverageRuntime := waAverageRuntime s; waMinRuntime := waMinRuntime s; waMaxRuntime := waMaxRuntime s;
     waLastExecution := last; waLastSuccessfulRun := last_ok; waLastFailedRun := last_failed; waErrorRate := waErrorRate s;
     waSuccessRate := waSuccessRate s; waThroughputPerHour := waThroughputPerHour s; waThroughputPerDay := waThroughputPerDay s;
     waCommonErrors := errors; waNodeStatistics := waNodeStatistics s; waUpdatedAt := waUpdatedAt s |}.
Definition with_rates (s : WorkflowStats) (ok err : spec_float) (nodes : list NodeStats) (updated : Z) : WorkflowStats :=
  {| waWorkflowID := waWorkflowID s; waTotalExecutions := waTotalExecutions s; waSuccessfulRuns := waSuccessfulRuns s; waFailedRuns := waFailedRuns s;
     waCancelledRuns := waCancelledRuns s; waAverageRuntime := waAverageRuntime s; waMinRuntime := waMinRuntime s; waMaxRuntime := waMaxRuntime s;
     waLastExecution := waLastExecution s; waLastSuccessfulRun := waLastSuccessfulRun s; waLastFailedRun := waLastFailedRun s; waErrorRate := err;
     waSuccessRate := ok; waThroughputPerHour := waThroughputPerHour s; waThroughputPerDay := waThroughputPerDay s;
     waCommonErrors := waCommonErrors s; waNodeStatistics := nodes; waUpdatedAt := updated |}.

Record TimeSeriesData := {
  tdTimestamp : Z;
  tdExecutions : Z;
  tdSuccesses : Z;
  tdFailures : Z;
  tdAvgRuntime : Z;
  tdMetrics : option vmap
}.

(** The collector; [scGoing] has what the goroutines of flushes have still to
    save, [scFlushes] the flushes that executions asked for and that have not run. *)
Record StatsCollector := {
  scBuffer : gmap string WorkflowStats;
  scRedis : gmap string (string * Z);
  scWritten : list WorkflowStats;
  scGoing : list (list WorkflowStats);
  scFlushes : nat;
  scStopped : bool
}.
Definition bufferSize : nat := 100.
Definition NewStatsCollector (redis : gmap string (string * Z)) (written : list WorkflowStats) : StatsCollector :=
  {| scBuffer := ∅; scRedis := redis; scWritten := written; scGoing := []; scFlushes := 0; scStopped := false |}.
Definition put_buffer (sc : StatsCollector) (b : gmap string WorkflowStats) : StatsCollector :=
  {| scBuffer := b; scRedis := scRedis sc; scWritten := scWritten sc; scGoing := scGoing sc; scFlushes := scFlushes sc; scStopped := scStopped sc |}.
Definition stat_rows (sc : StatsCollector) : gmap string WorkflowStats := foldl (λ t s, <[waWorkflowID s := s]> t) ∅ (scWritten sc).

(** ** Recording *)

(** The first entry with the error, or a new one, counted; ten are kept. *)
Fixpoint count_error (l : list ErrorStats) (msg : string) (now : Z) : list ErrorStats :=
  match l with
  | [] => [{| esErrorType := msg; esCount := 1; esLastSeen := now; esNodeID := "" |}]
  | x :: l => if bool_decide (esErrorType x = msg)
              then {| esErrorType := msg; esCount := wrap64 (esCount x + 1); esLastSeen := now; esNodeID := esNodeID x |} :: l
              else x :: count_error l msg now
  end.
Definition recordError (errors : list ErrorStats) (msg : string) (now : Z) : list ErrorStats :=
  if bool_decide (msg = "") then errors else take 10 (count_error errors msg now).

(** The new mean of [n] runs. *)
Definition next_mean (mean runtime n : Z) : Z := wrap64 (Z.quot (wrap64 (wrap64 (mean * wrap64 (n - 1)) + runtime)) n).
Definition add_runtime (s : WorkflowStats) (runtime : Z) : WorkflowStats :=
  if bool_decide (waAverageRuntime s = 0)%Z then with_runtimes s runtime runtime runtime
  else with_runtimes s (next_mean (waAverageRuntime s) runtime (waTotalExecutions s)) (Z.min runtime (waMinRuntime s)) (Z.max runtime (waMaxRuntime s)).
Definition ExecutionCancelled := "cancelled".
Definition count_status (s : WorkflowStats) (e : WorkflowExecution) (now now' : Z) : WorkflowStats :=
  let '(ok, failed, cancelled) := (waSuccessfulRuns s, waFailedRuns s, waCancelledRuns s) in
  if bool_decide (weStatus e = ExecutionCompleted) then
    with_counts s (waTotalExecutions s) (wrap64 (ok + 1)) failed cancelled (waLastExecution s) (Some now) (waLastFailedRun s) (waCommonErrors s)
  else if bool_decide (weStatus e = ExecutionFailed) then
    with_counts s (waTotalExecutions s) ok (wrap64 (failed + 1)) cancelled (waLastExecution s) (waLastSuccessfulRun s) (Some now)
      (recordError (waCommonErrors s) (weError e) now')
  else if bool_decide (weStatus e = ExecutionCancelled) then
    with_counts s (waTotalExecutions s) ok failed (wrap64 (cancelled + 1)) (waLastExecution s) (waLastSuccessfulRun s) (waLastFailedRun s) (waCommonErrors s)
  else s.
Definition rate (part total : Z) : spec_float := f64_mul (f64_div (f64_of_Z part) (f64_of_Z total)) (f64_of_Z 100).
Definition count_execution (s : WorkflowStats) (e : WorkflowExecution) (now now' : Z) : WorkflowStats :=
  let s := with_counts s (wrap64 (waTotalExecutions s + 1)) (waSuccessfulRuns s) (waFailedRuns s) (waCancelledRuns s) (Some now)
             (waLastSuccessfulRun s) (waLastFailedRun s) (waCommonErrors s) in
  let s := match weFinishedAt e with
           | Some _ => count_status (add_runtime s (weExecutionTime e)) e now now'
           | None => s
           end in
  with_rates s (rate (waSuccessfulRuns s) (waTotalExecutions s)) (rate (waFailedRuns s) (waTotalExecutions s)) (waNodeStatistics s) (waUpdatedAt s).

Definition stats_key (id : string) : string := "stats:workflow:" +:+ id.

Section collector.
Context (marshal : WorkflowStats → string) (unmarshal : string → WorkflowStats).
Context (unmarshal_series : string → list TimeSeriesData) (mean : list Z → spec_float).

Definition storeInRedis (r : gmap string (string * Z)) (s : WorkflowStats) (now : Z) (fails : bool) : gmap string (string * Z) :=
  if fails then r else <[stats_key (waWorkflowID s) := (marshal s, now + Hour)%Z]> r.
Definition redis_text (r : gmap string (string * Z)) (k : string) (now : Z) (fails : bool) : option string :=
  if fails then None else match r !! k with Some (t, e) => if bool_decide (now < e)%Z then Some t else None | None => None end.
Definition Stats_getFromRedis (r : gmap string (string * Z)) (id : string) (now : Z) (fails : bool) : option WorkflowStats :=
  unmarshal <$> redis_text r (stats_key id) now fails.

(** [times] are the clocks of a call in their order. *)
Definition Stats_RecordExecution (sc : StatsCollector) (e : WorkflowExecution) (times : nat → Z) (redis_fails : bool) : StatsCollector :=
  let s := count_execution (default (new_stats (weWorkflowID e)) (scBuffer sc !! weWorkflowID e)) e (times 0) (times 1) in
  let buffer := <[weWorkflowID e := s]> (scBuffer sc) in
  {| scBuffer := buffer; scRedis := storeInRedis (scRedis sc) s (times 2) redis_fails; scWritten := scWritten sc; scGoing := scGoing sc;
     scFlushes := if bool_decide (bufferSize ≤ size buffer) then S (scFlushes sc) else scFlushes sc; scStopped := scStopped sc |}.

Definition extractWorkflowID (executionID : string) : string := "workflow_" +:+ executionID.
Definition count_node (x : NodeStats) (n : NodeExecution) : NodeStats :=
  let runs := wrap64 (nsExecutions x + 1) in
  let failures := if bool_decide (neStatus n = NodeExecutionFailed) then wrap64 (nsFailures x + 1) else nsFailures x in
  let avg := match neFinishedAt n with
             | None => nsAverageRuntime x
             | Some t => let runtime := wrap64 (t - neStartedAt n) in
                         if bool_decide (nsAverageRuntime x = 0)%Z then runtime else next_mean (nsAverageRuntime x) runtime runs
             end in
  {| nsNodeID := nsNodeID x; nsNodeName := nsNodeName x; nsExecutions := runs; nsFailures := failures; nsAverageRuntime := avg;
     nsErrorRate := if bool_decide (0 < runs)%Z then rate failures runs else nsErrorRate x |}.
Fixpoint count_in (l : list NodeStats) (n : NodeExecution) : list NodeStats :=
  match l with
  | [] => [count_node {| nsNodeID := neNodeID n; nsNodeName := ""; nsExecutions := 0; nsFailures := 0; nsAverageRuntime := 0; nsErrorRate := zero_rate |} n]
  | x :: l => if bool_decide (nsNodeID x = neNodeID n) then count_node x n :: l else x :: count_in l n
  end.
Definition RecordNodeExecution (sc : StatsCollector) (n : NodeExecution) : StatsCollector :=
  let workflowID := extractWorkflowID (neExecutionID n) in
  let s := default (new_stats workflowID) (scBuffer sc !! workflowID) in
  put_buffer sc (<[workflowID := with_rates s (waSuccessRate s) (waErrorRate s) (count_in (waNodeStatistics s) n) (waUpdatedAt s)]> (scBuffer sc)).

(** ** Saving *)

(** [ord] is the order of the range, [now] gives the times. *)
Definition Stats_flush (sc : StatsCollector) (ord : list string) (now : string → Z) : StatsCollector :=
  if bool_decide (scBuffer sc = ∅) then sc
  else {| scBuffer := ∅; scRedis := scRedis sc; scWritten := scWritten sc;
          scGoing := scGoing sc ++ [omap (λ id, (λ s, with_rates s (waSuccessRate s) (waErrorRate s) (waNodeStatistics s) (now id)) <$> scBuffer sc !! id) ord];
          scFlushes := scFlushes sc; scStopped := scStopped sc |}.
(** The flush of a goroutine an execution started. *)
Definition asked_flush (sc : StatsCollector) (ord : list string) (now : string → Z) : StatsCollector :=
  match scFlushes sc with
  | O => sc
  | S k => let sc := Stats_flush sc ord now in
           {| scBuffer := scBuffer sc; scRedis := scRedis sc; scWritten := scWritten sc; scGoing := scGoing sc; scFlushes := k; scStopped := scStopped sc |}
  end.
(** One goroutine saves its next statistics; an error is dropped. *)
Definition save_next (sc : StatsCollector) (i : nat) (fails : bool) : StatsCollector :=
  match scGoing sc !! i with
  | Some (s :: rest) =>
      {| scBuffer := scBuffer sc; scRedis := scRedis sc; scWritten := if fails then scWritten sc else scWritten sc ++ [s];
         scGoing := <[i := rest]> (scGoing sc); scFlushes := scFlushes sc; scStopped := scStopped sc |}
  | _ => sc
  end.
(** Closing a channel twice panics. *)
Definition Stats_Stop (sc : StatsCollector) (ord : list string) (now : string → Z) : outcome StatsCollector :=
  if scStopped sc then Panic "close of closed channel"
  else let sc := Stats_flush sc ord now in
       Ret {| scBuffer := scBuffer sc; scRedis := scRedis sc; scWritten := scWritten sc; scGoing := scGoing sc; scFlushes := scFlushes sc; scStopped := true |}.

(** ** Reading *)

Definition Stats_GetWorkflowStats (sc : StatsCollector) (id : string) (now : Z) (redis_fails : bool) (fail : db_fail) : result WorkflowStats :=
  match scBuffer sc !! id with
  | Some s => Ok s
  | None =>
      match Stats_getFromRedis (scRedis sc) id now redis_fails with
      | Some s => Ok s
      | None => try fail "SELECT workflow_stats" (Ok (default (new_stats id) (stat_rows sc !! id)))
      end
  end.
Definition period_start (period : string) (endTime : Z) : Z :=
  if bool_decide (period = "1h") then endTime - Hour
  else if bool_decide (period = "24h") then endTime - 24 * Hour
  else if bool_decide (period = "7d") then endTime - 7 * (24 * Hour)
  else if bool_decide (period = "30d") then endTime - 30 * (24 * Hour)
  else endTime - 24 * Hour.
(** Sums over the rows of the period. *)
Definition stats_sum (f : WorkflowStats → Z) (l : list WorkflowStats) : Z := foldr (λ s n, f s + n)%Z 0%Z l.
Record StatsReport := {
  agPeriod : string;
  agStart : Z;
  agEnd : Z;
  agTotal : Z;
  agSuccessful : Z;
  agFailed : Z;
  agAverage : Z;
  agSuccessRate : spec_float;
  agErrorRate : spec_float;
  agThroughput : spec_float;
  agActive : Z
}.
Definition hours (d : Z) : spec_float := f64_add (f64_of_Z (Z.quot d Hour)) (f64_div (f64_of_Z (Z.rem d Hour)) (f64_of_Z Hour)).
(** For a user the rows are joined with the workflows, which have a time of update
    as well, and the condition does not say which of the two it means. *)
Definition GetAggregatedStats (sc : StatsCollector) (userID period : string) (endTime : Z) (fail : db_fail) : result StatsReport :=
  let startTime := period_start period endTime in
  try fail "SELECT workflow_stats"
   (if negb (bool_decide (userID = "")) then Err "column reference updated_at is ambiguous"
    else
     let l := filter (λ s, (startTime ≤ waUpdatedAt s ≤ endTime)%Z) ((map_to_list (stat_rows sc)).*2) in
     let total := stats_sum waTotalExecutions l in
     let ok := stats_sum waSuccessfulRuns l in
     let failed := stats_sum waFailedRuns l in
     let some := bool_decide (0 < total)%Z in
     Ok {| agPeriod := period; agStart := startTime; agEnd := endTime; agTotal := total; agSuccessful := ok; agFailed := failed;
           agAverage := f64_trunc (mean (waAverageRuntime <$> l)); agSuccessRate := if some then rate ok total else zero_rate;
           agErrorRate := if some then rate failed total else zero_rate;
           agThroughput := f64_div (f64_of_Z total) (hours (endTime - startTime)); agActive := Z.of_nat (length l) |}).
Definition GetTimeSeries (sc : StatsCollector) (workflowID interval : string) (now : Z) (redis_fails : bool) : list TimeSeriesData :=
  match redis_text (scRedis sc) ("timeseries:" +:+ workflowID +:+ ":" +:+ interval) now redis_fails with
  | Some t => unmarshal_series t
  | None => []
  end.
(** ** Conservation

    What becomes of the executions that are recorded. *)

Inductive sc_step :=
| SRecord (e : WorkflowExecution) (times : nat → Z) (redis_fails : bool)
| SNode (n : NodeExecution)
| STick (ord : list string) (now : string → Z)             (* the ticker *)
| SAsked (ord : list string) (now : string → Z)
| SSave (i : nat).
Definition sc_do (sc : StatsCollector) (x : sc_step) : StatsCollector :=
  match x with
  | SRecord e times f => Stats_RecordExecution sc e times f
  | SNode n => RecordNodeExecution sc n
  | STick ord now => Stats_flush sc ord now
  | SAsked ord now => asked_flush sc ord now
  | SSave i => save_next sc i false
  end.
(** A range visits every entry once. *)
Definition sc_ok (sc : StatsCollector) (x : sc_step) : Prop :=
  match x with STick ord _ | SAsked ord _ => range_order (scBuffer sc) ord | _ => True end.
Inductive sc_run : StatsCollector → list sc_step → StatsCollector → Prop :=
| sc_run_nil sc : sc_run sc [] sc
| sc_run_snoc sc l sc1 x : sc_run sc l sc1 → sc_ok sc1 x → sc_run sc (l ++ [x]) (sc_do sc1 x).

(** A counter of the statistics with the executions it counts. *)
Record stat_counter := { ctRead : WorkflowStats → Z; ctCounts : WorkflowExecution → bool }.
Definition finished_as (status : string) (e : WorkflowExecution) : bool :=
  bool_decide (is_Some (weFinishedAt e)) && bool_decide (weStatus e = status).
Definition counters : list stat_counter :=
  [{| ctRead := waTotalExecutions; ctCounts := λ _, true |}; {| ctRead := waSuccessfulRuns; ctCounts := finished_as ExecutionCompleted |};
   {| ctRead := waFailedRuns; ctCounts := finished_as ExecutionFailed |}; {| ctRead := waCancelledRuns; ctCounts := finished_as ExecutionCancelled |}].
Definition counted_step (ct : stat_counter) (id : string) (x : sc_step) : Z :=
  match x with SRecord e _ _ => if bool_decide (weWorkflowID e = id) && ctCounts ct e then 1 else 0 | _ => 0 end.
Definition recorded (ct : stat_counter) (id : string) (l : list sc_step) : Z := foldr (λ x n, counted_step ct id x + n)%Z 0%Z l.

(** What the statistics of a workflow say, wherever they are. *)
Definition said (ct : stat_counter) (id : string) (s : WorkflowStats) : Z := if bool_decide (waWorkflowID s = id) then ctRead ct s else 0.
Definition said_all (ct : stat_counter) (id : string) (l : list WorkflowStats) : Z := stats_sum (said ct id) l.
Definition stats_held (ct : stat_counter) (id : string) (sc : StatsCollector) : Z :=
  (from_option (ctRead ct) 0 (scBuffer sc !! id) + said_all ct id (concat (scGoing sc)) + said_all ct id (scWritten sc))%Z.
Definition named (sc : StatsCollector) : Prop := map_Forall (λ id s, waWorkflowID s = id) (scBuffer sc).

Lemma wrap64_shift a k : wrap64 (a + 2 ^ 64 * k) = wrap64 a.
Proof. clear. unfold wrap64. f_equal. rewrite <- (Z_mod_plus_full (a + 2 ^ 63) k). f_equal. lia. Qed.
Lemma wrap64_add a b c : wrap64 a = wrap64 b → wrap64 (a + c) = wrap64 (b + c).
Proof.
  clear. intros H. unfold wrap64 in H. pose proof (Z_div_mod_eq_full (a + 2 ^ 63) (2 ^ 64)) as Ha. pose proof (Z_div_mod_eq_full (b + 2 ^ 63) (2 ^ 64)) as Hb.
  replace (a + c)%Z with (b + c + 2 ^ 64 * ((a + 2 ^ 63) / 2 ^ 64 - (b + 2 ^ 63) / 2 ^ 64))%Z by lia. apply wrap64_shift.
Qed.
Lemma wrap64_wrap a : wrap64 (wrap64 a) = wrap64 a.
Proof. clear. apply wrap64_id, wrap64_range. Qed.

Lemma sum_of_app f l l' : stats_sum f (l ++ l') = (stats_sum f l + stats_sum f l')%Z.
Proof. clear. induction l as [|x l IH]; simpl; lia. Qed.
Lemma sum_of_perm f l l' : l ≡ₚ l' → stats_sum f l = stats_sum f l'.
Proof. clear. induction 1; simpl; lia. Qed.

(** One execution adds one to the counters that count it. *)
Lemma count_execution_reads ct s e now now' :
  ct ∈ counters → wrap64 (ctRead ct (count_execution s e now now')) = wrap64 (ctRead ct s + if ctCounts ct e then 1 else 0).
Proof.
  clear. intros H. unfold counters in H. unfold count_execution, count_status, add_runtime, finished_as in *.
  assert (ExecutionCompleted ≠ ExecutionFailed ∧ ExecutionCompleted ≠ ExecutionCancelled ∧ ExecutionFailed ≠ ExecutionCancelled) as (H1 & H2 & H3) by done.
  repeat (apply elem_of_cons in H as [->|H]); [..|by apply not_elem_of_nil in H]; unfold finished_as; simpl;
    destruct (weFinishedAt e) as [t|]; simpl; repeat case_bool_decide; simpl; rewrite ?wrap64_wrap, ?Z.add_0_r; try done; try congruence;
    match goal with H : ¬ is_Some (Some _) |- _ => by destruct H | H : is_Some None |- _ => by destruct H | _ => idtac end.
Qed.
Lemma count_execution_id s e now now' : waWorkflowID (count_execution s e now now') = waWorkflowID s.
Proof. clear. unfold count_execution, count_status, add_runtime. simpl. by repeat case_match. Qed.
Lemma new_stats_reads ct id : ct ∈ counters → ctRead ct (new_stats id) = 0%Z.
Proof. clear. unfold counters. intros H. repeat (apply elem_of_cons in H as [->|H]; [done|]). by apply not_elem_of_nil in H. Qed.
(** Rates, nodes and times are not counters. *)
Lemma with_rates_reads ct s a b l t : ct ∈ counters → ctRead ct (with_rates s a b l t) = ctRead ct s.
Proof. clear. unfold counters. intros H. repeat (apply elem_of_cons in H as [->|H]; [done|]). by apply not_elem_of_nil in H. Qed.
Definition stamped_stats (b : gmap string WorkflowStats) (now : string → Z) (id : string) : option WorkflowStats :=
  (λ s, with_rates s (waSuccessRate s) (waErrorRate s) (waNodeStatistics s) (now id)) <$> b !! id.
Lemma omap_option_list {A B} (f : A → option B) x l : omap f (x :: l) = option_list (f x) ++ omap f l.
Proof. clear. simpl. by destruct (f x). Qed.
Lemma flushed_said ct id (b : gmap string WorkflowStats) now ord :
  ct ∈ counters → map_Forall (λ id s, waWorkflowID s = id) b → NoDup ord →
  said_all ct id (omap (stamped_stats b now) ord) = if bool_decide (id ∈ ord) then from_option (ctRead ct) 0%Z (b !! id) else 0%Z.
Proof.
  clear. intros Hct Hn. induction 1 as [|k ord Hk _ IH]; [by rewrite bool_decide_false by set_solver|].
  assert (said_all ct id (option_list (stamped_stats b now k)) = if bool_decide (k = id) then from_option (ctRead ct) 0%Z (b !! id) else 0%Z) as Hs.
  { unfold stamped_stats, said_all, said. destruct (decide (k = id)) as [<-|Hne].
    - rewrite (bool_decide_true (k = k)) by done. destruct (b !! k) as [s|] eqn:E; [|done]. cbn. rewrite (Hn _ _ E), bool_decide_true, with_rates_reads by done. lia.
    - rewrite (bool_decide_false (k = id)) by done. destruct (b !! k) as [s|] eqn:E; [|done]. cbn. rewrite (Hn _ _ E), bool_decide_false by done. done. }
  rewrite omap_option_list. unfold said_all in *. rewrite sum_of_app, Hs, IH. destruct (decide (k = id)) as [->|Hne].
  - rewrite bool_decide_true, (bool_decide_false (id ∈ ord)), bool_decide_true by set_solver. lia.
  - rewrite (bool_decide_false (k = id)) by done. rewrite (bool_decide_ext (id ∈ k :: ord) (id ∈ ord)) by set_solver. lia.
Qed.
Lemma flush_held ct id sc ord now :
  ct ∈ counters → named sc → range_order (scBuffer sc) ord → stats_held ct id (Stats_flush sc ord now) = stats_held ct id sc ∧ named (Stats_flush sc ord now).
Proof.
  clear. intros Hct Hn Ho. unfold Stats_flush. case_bool_decide; [done|]. split; [|by intros k s ?]. unfold stats_held. simpl. rewrite concat_app. simpl. rewrite app_nil_r.
  pose proof (flushed_said ct id (scBuffer sc) now ord Hct Hn (range_order_nodup _ _ Ho)) as Hf. unfold stamped_stats in Hf.
  unfold said_all in *. rewrite sum_of_app, Hf. rewrite lookup_empty. simpl. case_bool_decide as Hid; [lia|].
  rewrite (range_order_elem _ _ _ Ho) in Hid. apply eq_None_not_Some in Hid. rewrite Hid. simpl. lia.
Qed.
Lemma save_held ct id sc i : stats_held ct id (save_next sc i false) = stats_held ct id sc.
Proof.
  clear. unfold save_next. destruct (scGoing sc !! i) as [[|s rest]|] eqn:E; try done. unfold stats_held, said_all. simpl. rewrite sum_of_app. simpl.
  rewrite <- (take_drop_middle _ _ _ E). rewrite insert_app_r_alt by (rewrite length_take; lia).
  rewrite length_take_le by (apply lookup_lt_Some in E; lia). rewrite Nat.sub_diag. simpl. rewrite !concat_app, !sum_of_app. simpl. rewrite !sum_of_app. lia.
Qed.

(** A step holds what it held and what it records. *)
Lemma step_held ct id sc x :
  ct ∈ counters → named sc → sc_ok sc x → wrap64 (stats_held ct id (sc_do sc x)) = wrap64 (stats_held ct id sc + counted_step ct id x) ∧ named (sc_do sc x).
Proof.
  clear -sc. intros Hct Hn Hx. destruct x as [e times f|n|ord now|ord now|i]; simpl; rewrite ?Z.add_0_r.
  - assert (∀ id s, scBuffer sc !! id = Some s → waWorkflowID s = id) as Hid by done. split.
    + unfold stats_held. simpl. destruct (decide (weWorkflowID e = id)) as [<-|Hne].
      * rewrite lookup_insert_eq, (bool_decide_true (weWorkflowID e = _)) by done. simpl.
        set (s := default _ _). pose proof (count_execution_reads ct s e (times 0) (times 1) Hct) as Hc.
        rewrite <- !Z.add_assoc. rewrite (wrap64_add _ _ _ Hc). f_equal.
        assert (ctRead ct s = from_option (ctRead ct) 0%Z (scBuffer sc !! weWorkflowID e)) as -> by (unfold s; destruct (scBuffer sc !! _); [done|by apply new_stats_reads]).
        lia.
      * rewrite lookup_insert_ne, bool_decide_false by done. f_equal. simpl. lia.
    + apply map_Forall_insert_2; [|done]. rewrite count_execution_id. destruct (scBuffer sc !! _) as [s|] eqn:E; [by apply Hid|done].
  - split.
    + unfold stats_held. simpl. destruct (decide (extractWorkflowID (neExecutionID n) = id)) as [<-|Hne]; [|by rewrite lookup_insert_ne].
      rewrite lookup_insert_eq. simpl. rewrite with_rates_reads by done. destruct (scBuffer sc !! _) eqn:E; [done|]. simpl. by rewrite new_stats_reads.
    + apply map_Forall_insert_2; [|done]. simpl. destruct (scBuffer sc !! _) as [s|] eqn:E; [by apply Hn|done].
  - destruct (flush_held ct id sc ord now Hct Hn Hx) as [-> ?]. done.
  - unfold asked_flush. destruct (scFlushes sc); [done|]. destruct (flush_held ct id sc ord now Hct Hn Hx) as [Hh ?]. split; [|done]. by rewrite <- Hh.
  - rewrite save_held. split; [done|]. unfold save_next. by repeat case_match.
Qed.
(** Whatever executions and nodes are recorded, and whenever flushes and the
    goroutines they start run in between: the statistics of a workflow in the
    buffer, on the way and in the statements of the database together count its
    executions, all of them and by how they finished, in sixty-four bits. *)
Lemma counters_conserved redis l sc ct id :
  sc_run (NewStatsCollector redis []) l sc → ct ∈ counters → wrap64 (stats_held ct id sc) = wrap64 (recorded ct id l).
Proof.
  intros Hr Hct. assert (wrap64 (stats_held ct id sc) = wrap64 (recorded ct id l) ∧ named sc) as [? _]; [|done].
  remember (NewStatsCollector redis []) as sc0 eqn:E. induction Hr as [sc|sc l sc1 x Hr IH Hx]; subst.
  - split; [|by intros k s ?]. unfold stats_held, NewStatsCollector. simpl. by rewrite lookup_empty.
  - destruct IH as [IH Hn]; [done|]. destruct (step_held ct id sc1 x Hct Hn Hx) as [Hs Hn']. split; [|done]. rewrite Hs, (wrap64_add _ _ _ IH). f_equal.
    clear. induction l as [|y l IH]; simpl; lia.
Qed.

(** ** What is read *)

(** The statements follow each other on the same row: the last one stands, and
    those before it are lost. *)
Lemma save_overwrites sc i s rest :
  scGoing sc !! i = Some (s :: rest) → stat_rows (save_next sc i false) !! waWorkflowID s = Some s.
Proof. clear. intros E. unfold save_next, stat_rows. rewrite E. simpl. rewrite foldl_app. simpl. by rewrite lookup_insert_eq. Qed.
(** After a flush the next execution of a workflow starts from one: readers see the
    executions since the last flush. *)
Lemma counts_since_flush sc ord now e times f now' g fail :
  Stats_GetWorkflowStats (Stats_RecordExecution (Stats_flush sc ord now) e times f) (weWorkflowID e) now' g fail
  = Ok (count_execution (new_stats (weWorkflowID e)) e (times 0) (times 1)).
Proof.
  clear. unfold Stats_GetWorkflowStats, Stats_RecordExecution. simpl. rewrite lookup_insert_eq.
  assert (scBuffer (Stats_flush sc ord now) = ∅) as ->.
  { unfold Stats_flush. by case_bool_decide. }
  by rewrite lookup_empty.
Qed.
(** A report for a user is an error of the database. *)
Lemma no_report_for_a_user sc userID period now fail :
  userID ≠ "" → ∃ e, GetAggregatedStats sc userID period now fail = Err e.
Proof. clear. intros H. unfold GetAggregatedStats, try. destruct (fail _); [eauto|]. rewrite bool_decide_false by done. simpl. eauto. Qed.
(** Ten errors are kept, the first ones: another one is dropped as it comes. *)
Lemma eleventh_error_dropped errors msg now :
  length errors = 10 → msg ∉ esErrorType <$> errors → recordError errors msg now = errors.
Proof.
  clear. intros Hl Hm. unfold recordError. case_bool_decide; [done|].
  assert (count_error errors msg now = errors ++ [{| esErrorType := msg; esCount := 1; esLastSeen := now; esNodeID := "" |}]) as ->.
  { clear Hl. induction errors as [|x l IH]; [done|]. simpl in *. rewrite bool_decide_false by set_solver. rewrite IH by set_solver. done. }
  rewrite <- Hl. by rewrite take_app_length.
Qed.
(** A node is counted under a made-up workflow, whatever workflow it is of. *)
Lemma nodes_counted_elsewhere sc n id :
  id ≠ extractWorkflowID (neExecutionID n) → scBuffer (RecordNodeExecution sc n) !! id = scBuffer sc !! id.
Proof. clear. intros H. unfold RecordNodeExecution. simpl. by rewrite lookup_insert_ne. Qed.
End collector.

(** A mean over runs of which one has not finished: it weighs as much as the others. *)
Definition ran (status : string) (finished : option Z) (time : Z) : WorkflowExecution :=
  {| weID := "e"; weWorkflowID := "wf"; weVersion := 1; weStatus := status; weStartedAt := 0; weFinishedAt := finished; weExecutionTime := time; weData := None;
     weError := ""; weCreatedAt := 0 |}.
Lemma unfinished_runs_weigh :
  waAverageRuntime (foldl (λ s e, count_execution s e 0 0) (new_stats "wf")
    [ran "running" None 0; ran "completed" (Some 1%Z) 10; ran "completed" (Some 1%Z) 20]) = 13%Z.
Proof. vm_compute. reflexivity. Qed.
(** A second stop panics. *)
Lemma second_stop_panics sc ord now ord' now' sc' : Stats_Stop sc ord now = Ret sc' → Stats_Stop sc' ord' now' = Panic "close of closed channel".
Proof. unfold Stats_Stop. destruct (scStopped sc); [done|]. intros [= <-]. done. Qed.
