(* ===== verification/Calendar.v ===== *)
(** The calendar of package time, in UTC: days since 1970-01-01 and their dates in
    the proleptic Gregorian calendar, [time.Date] and [AddDate] with their
    normalisation.  Instants are nanoseconds since 1970. *)

From S2P Require Import Prelude.

Local Open Scope Z_scope.

(** The days of 400 years, and the day 0000-03-01 counted from 1970-01-01. *)
Definition era_days : Z := 146097.
Definition epoch_shift : Z := 719468.

(** The day of a date; years start in March. *)
Definition day_of (y m d : Z) : Z :=
  let y := if m <=? 2 then y - 1 else y in
  let yoe := y `mod` 400 in
  let doy := (153 * ((m + 9) `mod` 12) + 2) / 5 + d - 1 in
  (y / 400) * era_days + (yoe * 365 + yoe / 4 - yoe / 100 + doy) - epoch_shift.

Record Date_ := { dtYear : Z; dtMonth : Z; dtDay : Z }.
Definition date_of (z : Z) : Date_ :=
  let z := z + epoch_shift in
  let era := z / era_days in
  let doe := z `mod` era_days in
  let yoe := (doe - doe / 1460 + doe / 36524 - doe / 146096) / 365 in
  let doy := doe - (365 * yoe + yoe / 4 - yoe / 100) in
  let mp := (5 * doy + 2) / 153 in
  let m := if mp <? 10 then mp + 3 else mp - 9 in
  {| dtYear := yoe + era * 400 + (if m <=? 2 then 1 else 0); dtMonth := m; dtDay := doy - (153 * mp + 2) / 5 + 1 |}.

(** The first day of the [i]-th month from January of year 0. *)
Definition month_day (i : Z) : Z := day_of (i / 12) (i `mod` 12 + 1) 1.
Definition month_of (z : Z) : Z := 12 * dtYear (date_of z) + dtMonth (date_of z) - 1.

Definition nanos : Z := 1000000000.
Definition day_nanos : Z := 86400 * nanos.
(** [time.Date] with a month and a day out of their ranges. *)
Definition Date (y m d h min s ns : Z) : Z := (month_day (12 * y + m - 1) + d - 1) * day_nanos + ((h * 60 + min) * 60 + s) * nanos + ns.
Definition today (t : Z) : Date_ := date_of (t / day_nanos).
Definition AddDate (t years months days : Z) : Z :=
  let d := today t in
  (month_day (12 * (dtYear d + years) + (dtMonth d + months) - 1) + (dtDay d + days) - 1) * day_nanos + t `mod` day_nanos.

(** ** Facts *)

Lemma month_day_shift i k : month_day (i + 4800 * k) = month_day i + era_days * k.
Proof.
  unfold month_day, day_of. replace (i + 4800 * k) with (i + (400 * k) * 12) by lia. rewrite Z_mod_plus_full, Z_div_plus_full by lia.
  destruct (_ <=? 2); [replace (i / 12 + 400 * k - 1) with (i / 12 - 1 + k * 400) by lia|replace (i / 12 + 400 * k) with (i / 12 + k * 400) by lia];
    rewrite Z_mod_plus_full, Z_div_plus_full by lia; lia.
Qed.
Lemma date_of_shift z k :
  date_of (z + era_days * k) = {| dtYear := dtYear (date_of z) + 400 * k; dtMonth := dtMonth (date_of z); dtDay := dtDay (date_of z) |}.
Proof.
  unfold date_of. replace (z + era_days * k + epoch_shift) with (z + epoch_shift + k * era_days) by lia.
  rewrite Z_mod_plus_full, Z_div_plus_full by (unfold era_days; lia). cbn [dtYear dtMonth dtDay]. f_equal. lia.
Qed.

(** Divisions by constants are linear arithmetic. *)
Ltac calendar := Z.to_euclidean_division_equations; lia.

Lemma month_day_step i : month_day i < month_day (i + 1).
Proof.
  unfold month_day, day_of, era_days, epoch_shift.
  destruct (Z.leb_spec (i `mod` 12 + 1) 2), (Z.leb_spec ((i + 1) `mod` 12 + 1) 2); calendar.
Qed.
Lemma month_day_mono i j : i < j → month_day i < month_day j.
Proof.
  intros H. replace j with (i + Z.of_nat (Z.to_nat (j - i))) by lia. assert (0 < Z.to_nat (j - i))%nat as Hn by lia. revert Hn.
  generalize (Z.to_nat (j - i)) as n. induction n as [|n IH]; [lia|]. intros _. pose proof (month_day_step (i + Z.of_nat n)) as Hs.
  replace (i + Z.of_nat n + 1) with (i + Z.of_nat (S n)) in Hs by lia. destruct n as [|n]; [by rewrite Z.add_0_r in Hs|]. specialize (IH ltac:(lia)). lia.
Qed.

(** The year of an era from its day: the years start every 365 or 366 days. *)
Lemma year_of_era doe yoe :
  0 ≤ doe < era_days → yoe = (doe - doe / 1460 + doe / 36524 - doe / 146096) / 365 →
  0 ≤ yoe < 400 ∧ 0 ≤ doe - (365 * yoe + yoe / 4 - yoe / 100) < 366
  ∧ (yoe < 399 → doe < 365 * (yoe + 1) + (yoe + 1) / 4 - (yoe + 1) / 100).
Proof. unfold era_days. intros Hd ->. split_and!; [calendar..|]. intros ?. calendar. Qed.

(** Months counted from March. *)
Definition year_day (y : Z) : Z := (y / 400) * era_days + (y `mod` 400 * 365 + y `mod` 400 / 4 - y `mod` 400 / 100) - epoch_shift.
Lemma month_day_march y mp : 0 ≤ mp < 12 → month_day (12 * y + mp + 2) = year_day y + (153 * mp + 2) / 5.
Proof.
  intros Hm. unfold month_day, day_of, year_day.
  assert ((12 * y + mp + 2) / 12 = if mp <? 10 then y else y + 1) as -> by (destruct (Z.ltb_spec mp 10); calendar).
  assert ((12 * y + mp + 2) `mod` 12 + 1 = if mp <? 10 then mp + 3 else mp - 9) as -> by (destruct (Z.ltb_spec mp 10); calendar).
  destruct (Z.ltb_spec mp 10).
  - replace (mp + 3 <=? 2) with false by (symmetry; apply Z.leb_gt; lia). replace ((mp + 3 + 9) `mod` 12) with mp by calendar. lia.
  - replace (mp - 9 <=? 2) with true by (symmetry; apply Z.leb_le; lia). replace ((mp - 9 + 9) `mod` 12) with mp by calendar.
    replace (y + 1 - 1) with y by lia. lia.
Qed.

(** The date of a day, counted from March. *)
Lemma date_of_march z : ∃ y mp doy,
  0 ≤ mp < 12 ∧ z = year_day y + doy ∧ year_day y ≤ z < year_day (y + 1) ∧ (153 * mp + 2) / 5 ≤ doy ∧ (mp < 11 → doy < (153 * (mp + 1) + 2) / 5)
  ∧ month_of z = 12 * y + mp + 2 ∧ dtDay (date_of z) = doy - (153 * mp + 2) / 5 + 1.
Proof.
  unfold month_of, date_of. cbn [dtYear dtMonth dtDay]. pose proof (Z.div_mod (z + epoch_shift) era_days ltac:(unfold era_days; lia)) as Hz.
  pose proof (Z.mod_pos_bound (z + epoch_shift) era_days ltac:(unfold era_days; lia)) as Hd.
  set (doe := (z + epoch_shift) `mod` era_days) in *. set (era := (z + epoch_shift) / era_days) in *. clearbody doe era.
  remember ((doe - doe / 1460 + doe / 36524 - doe / 146096) / 365) as yoe eqn:Ey.
  destruct (year_of_era doe yoe Hd Ey) as (Hy & Hdoy & Hnext). clear Ey.
  remember (doe - (365 * yoe + yoe / 4 - yoe / 100)) as doy eqn:Edoy. remember ((5 * doy + 2) / 153) as mp eqn:Emp.
  assert (0 ≤ mp < 12) as Hmp by (subst mp; clear -Hdoy; calendar).
  assert ((yoe + era * 400) / 400 = era) as E1 by calendar. assert ((yoe + era * 400) `mod` 400 = yoe) as E2 by calendar.
  exists (yoe + era * 400), mp, doy. unfold year_day at 1 2. rewrite E1, E2. split_and!.
  - subst mp. clear -Hdoy. calendar.
  - subst mp. clear -Hdoy. calendar.
  - lia.
  - lia.
  - unfold year_day. destruct (decide (yoe = 399)) as [->|Hn].
    + replace (399 + era * 400 + 1) with (0 + (era + 1) * 400) by lia. rewrite Z_div_plus_full, Z_mod_plus_full by lia. change (0 / 400) with 0.
      change (0 `mod` 400) with 0. change (0 / 4) with 0. change (0 / 100) with 0. lia.
    + replace (yoe + era * 400 + 1) with (yoe + 1 + era * 400) by lia. rewrite Z_div_plus_full, Z_mod_plus_full by lia.
      rewrite (Z.div_small (yoe + 1)), (Z.mod_small (yoe + 1)) by lia. specialize (Hnext ltac:(lia)). lia.
  - subst mp. clear. calendar.
  - intros _. subst mp. clear. calendar.
  - destruct (Z.ltb_spec mp 10).
    + replace (mp + 3 <=? 2) with false by (symmetry; apply Z.leb_gt; lia). lia.
    + replace (mp - 9 <=? 2) with true by (symmetry; apply Z.leb_le; subst mp; clear -Hdoy; calendar). lia.
  - done.
Qed.

(** A day is in its month. *)
Lemma month_of_spec z : month_day (month_of z) ≤ z < month_day (month_of z + 1).
Proof.
  destruct (date_of_march z) as (y & mp & doy & Hm & -> & Hz & H1 & H2 & -> & _). rewrite month_day_march by done. split; [lia|].
  destruct (decide (mp = 11)) as [->|].
  - replace (12 * y + 11 + 2 + 1) with (12 * (y + 1) + 0 + 2) by lia. rewrite month_day_march by lia. change ((153 * 0 + 2) / 5) with 0. lia.
  - replace (12 * y + mp + 2 + 1) with (12 * y + (mp + 1) + 2) by lia. rewrite month_day_march by lia. specialize (H2 ltac:(lia)). lia.
Qed.
(** The day of the date of a day is the day. *)
Lemma date_round_trip z : month_day (month_of z) + dtDay (date_of z) - 1 = z.
Proof. destruct (date_of_march z) as (y & mp & doy & Hm & E & _ & _ & _ & -> & ->). rewrite month_day_march by done. lia. Qed.

(** Some dates. *)
Lemma dates : day_of 1970 1 1 = 0 ∧ day_of 2000 3 1 = 11017 ∧ date_of 19782 = {| dtYear := 2024; dtMonth := 2; dtDay := 29 |}.
Proof. vm_compute. by split_and!. Qed.
(** A month after the last day of January is in March. *)
Lemma month_after_january : today (AddDate (Date 2023 1 31 12 0 0 0) 0 1 0) = {| dtYear := 2023; dtMonth := 3; dtDay := 3 |}.
Proof. vm_compute. reflexivity. Qed.
