(* ===== verification/Billing.v ===== *)
(** internal/billing: plans, subscriptions, invoices, payment methods, usage and
    coupons; their repository, the service and its HTTP interface.  The client of
    Stripe is left out.  Times are in UTC. *)

From S2P Require Import Prelude GoValue GoLib Calendar WorkflowRepo Http.
From stdpp Require Import sorting.

(** ** Data *)

Definition ErrSubscriptionNotFound := "subscription not found".
Definition ErrPlanNotFound := "plan not found".
Definition ErrInvoiceNotFound := "invoice not found".
Definition ErrPaymentMethodNotFound := "payment method not found".
Definition SubscriptionStatusActive := "active".
Definition SubscriptionStatusTrialing := "trialing".
Definition SubscriptionStatusCancelled := "cancelled".
Definition IntervalMonthly := "monthly".
Definition InvoiceStatusDraft := "draft".

Record Plan := {
  plnID : string;
  plnName : string;
  plnSlug : string;
  plnDescription : string;
  plnPriceMonthly : spec_float;
  plnPriceYearly : spec_float;
  plnCurrency : string;
  plnFeatures : option vmap;
  plnIsActive : bool;
  plnIsPublic : bool;
  plnSortOrder : Z;
  plnMaxWorkflows : Z;
  plnMaxExecutions : Z;
  plnMaxTeamMembers : Z;
  plnMaxStorageBytes : Z;
  plnCreatedAt : Z;
  plnUpdatedAt : Z
}.
Definition set_plan (p : Plan) (currency : string) (active public : bool) (updated : Z) : Plan :=
  {| plnID := plnID p; plnName := plnName p; plnSlug := plnSlug p; plnDescription := plnDescription p; plnPriceMonthly := plnPriceMonthly p;
     plnPriceYearly := plnPriceYearly p; plnCurrency := currency; plnFeatures := plnFeatures p; plnIsActive := active; plnIsPublic := public;
     plnSortOrder := plnSortOrder p; plnMaxWorkflows := plnMaxWorkflows p; plnMaxExecutions := plnMaxExecutions p;
     plnMaxTeamMembers := plnMaxTeamMembers p; plnMaxStorageBytes := plnMaxStorageBytes p; plnCreatedAt := plnCreatedAt p; plnUpdatedAt := updated |}.
Definition NewPlan (name slug : string) (priceMonthly : spec_float) (uuid : string) (now now' : Z) : Plan :=
  {| plnID := uuid; plnName := name; plnSlug := slug; plnDescription := ""; plnPriceMonthly := priceMonthly; plnPriceYearly := f64_of_Z 0;
     plnCurrency := "USD"; plnFeatures := Some ∅; plnIsActive := true; plnIsPublic := true; plnSortOrder := 0; plnMaxWorkflows := 0;
     plnMaxExecutions := 0; plnMaxTeamMembers := 0; plnMaxStorageBytes := 0; plnCreatedAt := now; plnUpdatedAt := now' |}.

Record Subscription := {
  suID : string;
  suUserID : string;
  suTeamID : option string;
  suPlanID : string;
  suStatus : string;
  suBillingCycle : string;
  suCurrentPeriodStart : Z;
  suCurrentPeriodEnd : Z;
  suTrialEndsAt : option Z;
  suCanceledAt : option Z;
  suProvider : string;
  suProviderSubscriptionID : string;
  suProviderCustomerID : string;
  suMetadata : option vmap;
  suCreatedAt : Z;
  suUpdatedAt : Z
}.
Definition set_subscription (s : Subscription) (status cycle : string) (canceled : option Z) (updated : Z) : Subscription :=
  {| suID := suID s; suUserID := suUserID s; suTeamID := suTeamID s; suPlanID := suPlanID s; suStatus := status; suBillingCycle := cycle;
     suCurrentPeriodStart := suCurrentPeriodStart s; suCurrentPeriodEnd := suCurrentPeriodEnd s; suTrialEndsAt := suTrialEndsAt s;
     suCanceledAt := canceled; suProvider := suProvider s; suProviderSubscriptionID := suProviderSubscriptionID s;
     suProviderCustomerID := suProviderCustomerID s; suMetadata := suMetadata s; suCreatedAt := suCreatedAt s; suUpdatedAt := updated |}.
Definition NewSubscription (userID planID uuid : string) (now : Z) : Subscription :=
  {| suID := uuid; suUserID := userID; suTeamID := None; suPlanID := planID; suStatus := SubscriptionStatusActive; suBillingCycle := IntervalMonthly;
     suCurrentPeriodStart := now; suCurrentPeriodEnd := AddDate now 0 1 0; suTrialEndsAt := None; suCanceledAt := None; suProvider := "";
     suProviderSubscriptionID := ""; suProviderCustomerID := ""; suMetadata := Some ∅; suCreatedAt := now; suUpdatedAt := now |}.
Definition Subscription_IsActive (s : Subscription) : bool :=
  bool_decide (suStatus s = SubscriptionStatusActive) || bool_decide (suStatus s = SubscriptionStatusTrialing).
Definition Subscription_Cancel (s : Subscription) (atPeriodEnd : bool) (now : Z) : Subscription :=
  if atPeriodEnd then set_subscription s (suStatus s) (suBillingCycle s) (suCanceledAt s) now
  else set_subscription s SubscriptionStatusCancelled (suBillingCycle s) (Some now) now.

Record InvoiceLine := { ilDescription : string; ilQuantity : Z; ilUnitAmount : spec_float; ilAmount : spec_float }.
Record Invoice := {
  inID : string;
  inSubscriptionID : string;
  inUserID : string;
  inInvoiceNumber : string;
  inStatus : string;
  inCurrency : string;
  inSubtotal : spec_float;
  inTax : spec_float;
  inDiscount : spec_float;
  inTotal : spec_float;
  inLineItems : list InvoiceLine;
  inDueDate : option Z;
  inPaidAt : option Z;
  inProviderInvoiceID : string;
  inPDFURL : string;
  inCreatedAt : Z;
  inUpdatedAt : Z
}.
Definition set_invoice (i : Invoice) (currency : string) (updated : Z) : Invoice :=
  {| inID := inID i; inSubscriptionID := inSubscriptionID i; inUserID := inUserID i; inInvoiceNumber := inInvoiceNumber i; inStatus := inStatus i;
     inCurrency := currency; inSubtotal := inSubtotal i; inTax := inTax i; inDiscount := inDiscount i; inTotal := inTotal i;
     inLineItems := inLineItems i; inDueDate := inDueDate i; inPaidAt := inPaidAt i; inProviderInvoiceID := inProviderInvoiceID i;
     inPDFURL := inPDFURL i; inCreatedAt := inCreatedAt i; inUpdatedAt := updated |}.
Definition NewInvoice (subscriptionID userID : string) (total : spec_float) (uuid : string) (now now' : Z) : Invoice :=
  {| inID := uuid; inSubscriptionID := subscriptionID; inUserID := userID; inInvoiceNumber := ""; inStatus := InvoiceStatusDraft; inCurrency := "USD";
     inSubtotal := f64_of_Z 0; inTax := f64_of_Z 0; inDiscount := f64_of_Z 0; inTotal := total; inLineItems := []; inDueDate := None; inPaidAt := None;
     inProviderInvoiceID := ""; inPDFURL := ""; inCreatedAt := now; inUpdatedAt := now' |}.

Record PaymentMethod := {
  pmID : string;
  pmUserID : string;
  pmType : string;
  pmCardBrand : string;
  pmCardLast4 : string;
  pmCardExpMonth : Z;
  pmCardExpYear : Z;
  pmIsDefault : bool;
  pmProvider : string;
  pmProviderMethodID : string;
  pmCreatedAt : Z;
  pmUpdatedAt : Z
}.
Definition with_default (m : PaymentMethod) (b : bool) (updated : Z) : PaymentMethod :=
  {| pmID := pmID m; pmUserID := pmUserID m; pmType := pmType m; pmCardBrand := pmCardBrand m; pmCardLast4 := pmCardLast4 m;
     pmCardExpMonth := pmCardExpMonth m; pmCardExpYear := pmCardExpYear m; pmIsDefault := b; pmProvider := pmProvider m;
     pmProviderMethodID := pmProviderMethodID m; pmCreatedAt := pmCreatedAt m; pmUpdatedAt := updated |}.

Record Usage := {
  usgID : string;
  usgSubscriptionID : string;
  usgMetric : string;
  usgQuantity : Z;
  usgPeriodStart : Z;
  usgPeriodEnd : Z;
  usgMetadata : option vmap;
  usgCreatedAt : Z
}.
(** The period is the month of the time, to its last second. *)
Definition month_first (now : Z) : Z := Date (dtYear (today now)) (dtMonth (today now)) 1 0 0 0 0.
Definition month_last (now : Z) : Z := Date (dtYear (today now)) (dtMonth (today now) + 1) 0 23 59 59 0.
Definition NewUsage (subscriptionID metric : string) (quantity : Z) (uuid : string) (now : Z) : Usage :=
  {| usgID := uuid; usgSubscriptionID := subscriptionID; usgMetric := metric; usgQuantity := quantity; usgPeriodStart := month_first now;
     usgPeriodEnd := month_last now; usgMetadata := None; usgCreatedAt := now |}.

Record Coupon := {
  cpID : string;
  cpCode : string;
  cpName : string;
  cpDiscountType : string;
  cpDiscountValue : spec_float;
  cpCurrency : string;
  cpMaxRedemptions : option Z;
  cpRedemptionCount : Z;
  cpValidFrom : Z;
  cpValidUntil : option Z;
  cpIsActive : bool;
  cpCreatedAt : Z
}.
Definition redeemed (c : Coupon) : Coupon :=
  {| cpID := cpID c; cpCode := cpCode c; cpName := cpName c; cpDiscountType := cpDiscountType c; cpDiscountValue := cpDiscountValue c;
     cpCurrency := cpCurrency c; cpMaxRedemptions := cpMaxRedemptions c; cpRedemptionCount := cpRedemptionCount c + 1; cpValidFrom := cpValidFrom c;
     cpValidUntil := cpValidUntil c; cpIsActive := cpIsActive c; cpCreatedAt := cpCreatedAt c |}.

(** ** The repository *)

Record BillingDB := {
  blPlans : gmap string Plan;
  blSubscriptions : gmap string Subscription;
  blInvoices : gmap string Invoice;
  blMethods : gmap string PaymentMethod;
  blUsage : gmap string Usage;
  blCoupons : gmap string Coupon
}.
Definition put_plans (db : BillingDB) (t : gmap string Plan) : BillingDB :=
  {| blPlans := t; blSubscriptions := blSubscriptions db; blInvoices := blInvoices db; blMethods := blMethods db; blUsage := blUsage db; blCoupons := blCoupons db |}.
Definition put_subscriptions (db : BillingDB) (t : gmap string Subscription) : BillingDB :=
  {| blPlans := blPlans db; blSubscriptions := t; blInvoices := blInvoices db; blMethods := blMethods db; blUsage := blUsage db; blCoupons := blCoupons db |}.
Definition put_invoices (db : BillingDB) (t : gmap string Invoice) : BillingDB :=
  {| blPlans := blPlans db; blSubscriptions := blSubscriptions db; blInvoices := t; blMethods := blMethods db; blUsage := blUsage db; blCoupons := blCoupons db |}.
Definition put_methods (db : BillingDB) (t : gmap string PaymentMethod) : BillingDB :=
  {| blPlans := blPlans db; blSubscriptions := blSubscriptions db; blInvoices := blInvoices db; blMethods := t; blUsage := blUsage db; blCoupons := blCoupons db |}.
Definition put_usage (db : BillingDB) (t : gmap string Usage) : BillingDB :=
  {| blPlans := blPlans db; blSubscriptions := blSubscriptions db; blInvoices := blInvoices db; blMethods := blMethods db; blUsage := t; blCoupons := blCoupons db |}.
Definition put_coupons (db : BillingDB) (t : gmap string Coupon) : BillingDB :=
  {| blPlans := blPlans db; blSubscriptions := blSubscriptions db; blInvoices := blInvoices db; blMethods := blMethods db; blUsage := blUsage db; blCoupons := t |}.

(** An insertion into a table with a primary key and an index [index] that is unique. *)
Definition insert_row {A} (stmt : string) (id index : A → string) (t : gmap string A) (x : A) (fail : db_fail) : result (gmap string A) :=
  try fail stmt
    (if bool_decide (is_Some (t !! id x)) || existsb (λ p : string * A, bool_decide (index p.2 = index x)) (map_to_list t) then Err duplicate_key
     else Ok (<[id x := x]> t)).
(** [Save]: the row of the ID, unless the index is another one's. *)
Definition save_row {A} (stmt : string) (id index : A → string) (t : gmap string A) (x : A) (fail : db_fail) : result (gmap string A) :=
  try fail stmt
    (if existsb (λ p : string * A, negb (bool_decide (p.1 = id x)) && bool_decide (index p.2 = index x)) (map_to_list t) then Err duplicate_key
     else Ok (<[id x := x]> t)).
(** The first row of a condition, every error being an absence. *)
Definition first_bill {A} (stmt : string) (t : gmap string A) (ord : list string) (cond : A → bool) (absent : string) (fail : db_fail) : result A :=
  match try fail stmt (match head (rows_where t ord cond) with Some x => Ok x | None => Err record_not_found end) with
  | Ok x => Ok x
  | Err _ => Err absent
  end.
Definition row_with {A} (stmt : string) (t : gmap string A) (id absent : string) (fail : db_fail) : result A :=
  match try fail stmt (match t !! id with Some x => Ok x | None => Err record_not_found end) with
  | Ok x => Ok x
  | Err _ => Err absent
  end.
Definition map_db {A} (f : A → BillingDB) (r : result A) : result BillingDB := match r with Ok t => Ok (f t) | Err e => Err e end.

(** *** Plans *)

(** Zero values of columns with a default are left to the database. *)
Definition plan_defaults (p : Plan) : Plan :=
  set_plan p (if bool_decide (plnCurrency p = "") then "USD" else plnCurrency p) true true (plnUpdatedAt p).
Definition CreatePlan (db : BillingDB) (p : Plan) (fail : db_fail) : result BillingDB :=
  map_db (put_plans db) (insert_row "INSERT plans" plnID plnSlug (blPlans db) (plan_defaults p) fail).
Definition GetPlan (db : BillingDB) (id : string) (fail : db_fail) : result Plan := row_with "SELECT plans" (blPlans db) id ErrPlanNotFound fail.
Definition GetPlanBySlug (db : BillingDB) (ord : list string) (slug : string) (fail : db_fail) : result Plan :=
  first_bill "SELECT plans" (blPlans db) ord (λ p, bool_decide (plnSlug p = slug)) ErrPlanNotFound fail.
Definition plan_before (p q : Plan) : Prop := (plnSortOrder p ≤ plnSortOrder q)%Z.
#[global] Instance plan_before_dec : RelDecision plan_before.
Proof. intros p q. unfold plan_before. apply _. Defined.
Definition ListPlans (db : BillingDB) (ord : list string) (activeOnly : bool) (fail : db_fail) : result (list Plan) :=
  try fail "SELECT plans" (Ok (merge_sort plan_before (rows_where (blPlans db) ord (λ p, negb activeOnly || plnIsActive p)))).
Definition UpdatePlan (db : BillingDB) (p : Plan) (now : Z) (fail : db_fail) : result BillingDB :=
  map_db (put_plans db) (save_row "UPDATE plans" plnID plnSlug (blPlans db) (set_plan p (plnCurrency p) (plnIsActive p) (plnIsPublic p) now) fail).
Definition DeletePlan (db : BillingDB) (id : string) (fail : db_fail) : result BillingDB :=
  map_db (put_plans db) (try fail "DELETE plans" (Ok (delete id (blPlans db)))).

(** *** Subscriptions *)

Definition CreateSubscription (db : BillingDB) (s : Subscription) (fail : db_fail) : result BillingDB :=
  let cycle := if bool_decide (suBillingCycle s = "") then IntervalMonthly else suBillingCycle s in
  map_db (put_subscriptions db)
    (insert_row "INSERT subscriptions" suID suID (blSubscriptions db) (set_subscription s (suStatus s) cycle (suCanceledAt s) (suUpdatedAt s)) fail).
Definition GetSubscription (db : BillingDB) (id : string) (fail : db_fail) : result Subscription :=
  row_with "SELECT subscriptions" (blSubscriptions db) id ErrSubscriptionNotFound fail.
Definition GetSubscriptionByProviderID (db : BillingDB) (ord : list string) (providerID : string) (fail : db_fail) : result Subscription :=
  first_bill "SELECT subscriptions" (blSubscriptions db) ord (λ s, bool_decide (suProviderSubscriptionID s = providerID)) ErrSubscriptionNotFound fail.
Definition active_of (userID : string) (s : Subscription) : bool :=
  bool_decide (suUserID s = userID) && bool_decide (suStatus s ∈ [SubscriptionStatusActive; SubscriptionStatusTrialing]).
Definition GetActiveSubscription (db : BillingDB) (ord : list string) (userID : string) (fail : db_fail) : result Subscription :=
  first_bill "SELECT subscriptions" (blSubscriptions db) ord (active_of userID) ErrSubscriptionNotFound fail.
Definition created_later {A} (at_ : A → Z) (a b : A) : Prop := (at_ b ≤ at_ a)%Z.
#[global] Instance created_later_dec {A} (at_ : A → Z) : RelDecision (created_later at_).
Proof. intros a b. unfold created_later. apply _. Defined.
Definition ListSubscriptions (db : BillingDB) (ord : list string) (userID : string) (fail : db_fail) : result (list Subscription) :=
  try fail "SELECT subscriptions" (Ok (merge_sort (created_later suCreatedAt) (rows_where (blSubscriptions db) ord (λ s, bool_decide (suUserID s = userID))))).
Definition UpdateSubscription (db : BillingDB) (s : Subscription) (now : Z) (fail : db_fail) : result BillingDB :=
  map_db (put_subscriptions db)
    (save_row "UPDATE subscriptions" suID suID (blSubscriptions db) (set_subscription s (suStatus s) (suBillingCycle s) (suCanceledAt s) now) fail).

(** *** Invoices *)

Definition CreateInvoice (db : BillingDB) (i : Invoice) (fail : db_fail) : result BillingDB :=
  let currency := if bool_decide (inCurrency i = "") then "USD" else inCurrency i in
  map_db (put_invoices db) (insert_row "INSERT invoices" inID inInvoiceNumber (blInvoices db) (set_invoice i currency (inUpdatedAt i)) fail).
Definition GetInvoice (db : BillingDB) (id : string) (fail : db_fail) : result Invoice := row_with "SELECT invoices" (blInvoices db) id ErrInvoiceNotFound fail.
Definition GetInvoiceByNumber (db : BillingDB) (ord : list string) (number : string) (fail : db_fail) : result Invoice :=
  first_bill "SELECT invoices" (blInvoices db) ord (λ i, bool_decide (inInvoiceNumber i = number)) ErrInvoiceNotFound fail.
Definition ListInvoices (db : BillingDB) (ord : list string) (userID : string) (limit : Z) (fail : db_fail) : result (list Invoice) :=
  try fail "SELECT invoices"
    (let l := merge_sort (created_later inCreatedAt) (rows_where (blInvoices db) ord (λ i, bool_decide (inUserID i = userID))) in
     Ok (if bool_decide (0 < limit)%Z then take (Z.to_nat limit) l else l)).
Definition UpdateInvoice (db : BillingDB) (i : Invoice) (now : Z) (fail : db_fail) : result BillingDB :=
  map_db (put_invoices db) (save_row "UPDATE invoices" inID inInvoiceNumber (blInvoices db) (set_invoice i (inCurrency i) now) fail).

(** *** Payment methods *)

Definition CreatePaymentMethod (db : BillingDB) (m : PaymentMethod) (fail : db_fail) : result BillingDB :=
  map_db (put_methods db) (insert_row "INSERT payment_methods" pmID pmID (blMethods db) m fail).
Definition GetPaymentMethod (db : BillingDB) (id : string) (fail : db_fail) : result PaymentMethod :=
  row_with "SELECT payment_methods" (blMethods db) id ErrPaymentMethodNotFound fail.
Definition default_first (a b : PaymentMethod) : Prop :=
  (pmIsDefault a = true ∧ pmIsDefault b = false) ∨ (pmIsDefault a = pmIsDefault b ∧ (pmCreatedAt b ≤ pmCreatedAt a)%Z).
#[global] Instance default_first_dec : RelDecision default_first.
Proof. intros a b. unfold default_first. apply _. Defined.
Definition ListPaymentMethods (db : BillingDB) (ord : list string) (userID : string) (fail : db_fail) : result (list PaymentMethod) :=
  try fail "SELECT payment_methods" (Ok (merge_sort default_first (rows_where (blMethods db) ord (λ m, bool_decide (pmUserID m = userID))))).
(** Two statements, the second of which may fail or find nothing. *)
Definition unset_defaults (userID : string) (now : Z) (t : gmap string PaymentMethod) : gmap string PaymentMethod :=
  (λ m, if bool_decide (pmUserID m = userID) then with_default m false now else m) <$> t.
Definition set_one (userID id : string) (now : Z) (t : gmap string PaymentMethod) : gmap string PaymentMethod :=
  alter (λ m, if bool_decide (pmUserID m = userID) then with_default m true now else m) id t.
Definition SetDefaultPaymentMethod (db : BillingDB) (userID paymentMethodID : string) (now now' : Z) (fail : nat → db_fail) : option string * BillingDB :=
  match fail 0 "UPDATE payment_methods" with
  | Some e => (Some e, db)
  | None =>
      let db := put_methods db (unset_defaults userID now (blMethods db)) in
      match fail 1 "UPDATE payment_methods" with
      | Some e => (Some e, db)
      | None => (None, put_methods db (set_one userID paymentMethodID now' (blMethods db)))
      end
  end.
Definition DeletePaymentMethod (db : BillingDB) (id : string) (fail : db_fail) : result BillingDB :=
  map_db (put_methods db) (try fail "DELETE payment_methods" (Ok (delete id (blMethods db)))).

(** *** Usage and coupons *)

Definition Repo_RecordUsage (db : BillingDB) (u : Usage) (fail : db_fail) : result BillingDB :=
  map_db (put_usage db) (insert_row "INSERT usage_records" usgID usgID (blUsage db) u fail).
Definition in_period (subscriptionID : string) (periodStart periodEnd : Z) (u : Usage) : bool :=
  bool_decide (usgSubscriptionID u = subscriptionID) && bool_decide (periodStart ≤ usgPeriodStart u)%Z && bool_decide (usgPeriodEnd u ≤ periodEnd)%Z.
Definition quantity (l : list Usage) : Z := foldr (λ u n, usgQuantity u + n)%Z 0%Z l.
Definition of_metric (metric : string) (u : Usage) : bool := bool_decide (usgMetric u = metric).
(** [GROUP BY metric]: every metric of the rows with its sum. *)
Definition GetUsageSummary (db : BillingDB) (ord : list string) (subscriptionID : string) (periodStart periodEnd : Z) (fail : db_fail) : result (gmap string Z) :=
  try fail "SELECT usage_records"
    (let l := rows_where (blUsage db) ord (in_period subscriptionID periodStart periodEnd) in
     Ok (list_to_map ((λ m, (m, quantity (filter (λ u, of_metric m u = true) l))) <$> remove_dups (usgMetric <$> l)))).
Definition GetUsageByMetric (db : BillingDB) (ord : list string) (subscriptionID metric : string) (periodStart periodEnd : Z) (fail : db_fail) : result Z :=
  try fail "SELECT usage_records"
    (Ok (quantity (rows_where (blUsage db) ord (λ u, in_period subscriptionID periodStart periodEnd u && of_metric metric u)))).
Definition GetCoupon (db : BillingDB) (ord : list string) (code : string) (fail : db_fail) : result Coupon :=
  try fail "SELECT coupons"
    (match head (rows_where (blCoupons db) ord (λ c, bool_decide (cpCode c = code) && cpIsActive c)) with Some c => Ok c | None => Err record_not_found end).
Definition IncrementCouponRedemptions (db : BillingDB) (id : string) (fail : db_fail) : result BillingDB :=
  map_db (put_coupons db) (try fail "UPDATE coupons" (Ok (alter redeemed id (blCoupons db)))).

(** ** The service *)

Definition Billing_RecordUsage (db : BillingDB) (subscriptionID metric : string) (q : Z) (uuid : string) (now : Z) (fail : db_fail) : result BillingDB :=
  Repo_RecordUsage db (NewUsage subscriptionID metric q uuid now) fail.

(** ** The HTTP interface *)

Inductive BillBody :=
| BBEmpty
| BBPlans (l : list Plan) | BBPlan (p : Plan)
| BBSubscriptions (l : list Subscription) | BBSubscription (s : Subscription)
| BBInvoices (l : list Invoice) | BBInvoice (i : Invoice)
| BBMethods (l : list PaymentMethod)
| BBCoupon (c : Coupon)
| BBObject (h : list (string * value)).
Definition bill_fails (status : Z) (msg : string) : Response BillBody := JSON status (BBObject [("error", VStr msg)]).
Inductive BillEndpoint :=
| BHealth | BReady | BSubscriptions | BSubscription | BPlans | BPlan | BPaymentMethods | BInvoices | BInvoice | BCoupon.
Definition bill_v1 (segs : list Seg) (e : BillEndpoint) : string * Route BillEndpoint := route "GET" ([Lit "api"; Lit "v1"; Lit "billing"] ++ segs) e.
Definition Bill_setupRouter : list (string * Route BillEndpoint) := [
  route "GET" [Lit "health"; Lit "live"] BHealth;
  route "GET" [Lit "health"; Lit "ready"] BReady;
  bill_v1 [Lit "subscriptions"] BSubscriptions;
  bill_v1 [Lit "subscriptions"; Par "id"] BSubscription;
  bill_v1 [Lit "plans"] BPlans;
  bill_v1 [Lit "plans"; Par "id"] BPlan;
  bill_v1 [Lit "payment-methods"] BPaymentMethods;
  bill_v1 [Lit "invoices"] BInvoices;
  bill_v1 [Lit "invoices"; Par "id"] BInvoice;
  bill_v1 [Lit "coupons"; Par "code"] BCoupon].

Abbreviation bill_api := (handler BillingDB BillBody).
Definition bill_user (rq : Request) (k : string → bill_api) : bill_api :=
  let userID := GetHeader rq "X-User-ID" in
  if bool_decide (userID = "") then tell (bill_fails StatusUnauthorized "user ID required") else k userID.
Definition handle_ListPlans (ord : list string) (fail : db_fail) (rq : Request) : bill_api :=
  asks (λ db, ListPlans db ord (negb (bool_decide (Query rq "active" = "false"))) fail)
    (λ _, bill_fails StatusInternalServerError "failed to list plans") (λ l, JSON StatusOK (BBPlans l)).
Definition handle_GetPlan (fail : db_fail) (r : Route BillEndpoint) : bill_api :=
  asks (λ db, GetPlan db (Param r "id") fail) (λ _, bill_fails StatusNotFound "plan not found") (λ p, JSON StatusOK (BBPlan p)).
Definition handle_GetSubscriptions (ord : list string) (fail : db_fail) (rq : Request) : bill_api :=
  bill_user rq (λ u, asks (λ db, ListSubscriptions db ord u fail)
    (λ _, bill_fails StatusInternalServerError "failed to list subscriptions") (λ l, JSON StatusOK (BBSubscriptions l))).
Definition handle_GetSubscription (fail : db_fail) (r : Route BillEndpoint) : bill_api :=
  asks (λ db, GetSubscription db (Param r "id") fail) (λ _, bill_fails StatusNotFound "subscription not found") (λ s, JSON StatusOK (BBSubscription s)).
Definition handle_ListInvoices (ord : list string) (fail : db_fail) (rq : Request) : bill_api :=
  bill_user rq (λ u, asks (λ db, ListInvoices db ord u 50 fail)
    (λ _, bill_fails StatusInternalServerError "failed to list invoices") (λ l, JSON StatusOK (BBInvoices l))).
Definition handle_GetInvoice (fail : db_fail) (r : Route BillEndpoint) : bill_api :=
  asks (λ db, GetInvoice db (Param r "id") fail) (λ _, bill_fails StatusNotFound "invoice not found") (λ i, JSON StatusOK (BBInvoice i)).
Definition handle_ListPaymentMethods (ord : list string) (fail : db_fail) (rq : Request) : bill_api :=
  bill_user rq (λ u, asks (λ db, ListPaymentMethods db ord u fail)
    (λ _, bill_fails StatusInternalServerError "failed to list payment methods") (λ l, JSON StatusOK (BBMethods l))).
Definition handle_GetCoupon (ord : list string) (fail : db_fail) (r : Route BillEndpoint) : bill_api :=
  asks (λ db, GetCoupon db ord (Param r "code") fail) (λ _, bill_fails StatusNotFound "coupon not found") (λ c, JSON StatusOK (BBCoupon c)).
Definition bill_handle (ord : list string) (fail : db_fail) (r : Route BillEndpoint) (rq : Request) : bill_api :=
  match rtEndpoint r with
  | BHealth => tell (JSON StatusOK (BBObject [("status", VStr "healthy")]))
  | BReady => tell (JSON StatusOK (BBObject [("status", VStr "ready")]))
  | BSubscriptions => handle_GetSubscriptions ord fail rq
  | BSubscription => handle_GetSubscription fail r
  | BPlans => handle_ListPlans ord fail rq
  | BPlan => handle_GetPlan fail r
  | BPaymentMethods => handle_ListPaymentMethods ord fail rq
  | BInvoices => handle_ListInvoices ord fail rq
  | BInvoice => handle_GetInvoice fail r
  | BCoupon => handle_GetCoupon ord fail r
  end.
Definition bill_serve (ord : list string) (fail : db_fail) (rq : Request) : bill_api :=
  if bool_decide (rqMethod rq = "OPTIONS") then tell (JSON StatusNoContent BBEmpty)
  else match find_route Bill_setupRouter rq with
       | None => tell (JSON StatusNotFound BBEmpty)
       | Some r => bill_handle ord fail r rq
       end.

(** ** Usage *)

Definition same_month (a b : Z) : Prop := month_of (a / day_nanos) = month_of (b / day_nanos).
#[global] Instance same_month_dec : RelDecision same_month.
Proof. intros a b. unfold same_month. apply _. Defined.
Definition made_by_service (db : BillingDB) : Prop :=
  map_Forall (λ _ u, usgPeriodStart u = month_first (usgCreatedAt u) ∧ usgPeriodEnd u = month_last (usgCreatedAt u)) (blUsage db).

Lemma month_first_day t : month_first t = (month_day (month_of (t / day_nanos)) * day_nanos)%Z.
Proof. unfold month_first, Date, today, month_of. simpl. lia. Qed.
Lemma month_last_day t : month_last t = (month_day (month_of (t / day_nanos) + 1) * day_nanos - nanos)%Z.
Proof.
  unfold month_last, Date, today, month_of.
  replace (12 * dtYear (date_of (t / day_nanos)) + (dtMonth (date_of (t / day_nanos)) + 1) - 1)%Z
    with (12 * dtYear (date_of (t / day_nanos)) + dtMonth (date_of (t / day_nanos)) - 1 + 1)%Z by lia.
  unfold day_nanos, nanos. lia.
Qed.
(** Every time is in its period, but for the last second of the month. *)
Lemma period_covers t : (month_first t ≤ t < month_last t + nanos)%Z.
Proof.
  rewrite month_first_day, month_last_day. pose proof (month_of_spec (t / day_nanos)) as [H1 H2].
  pose proof (Z.div_mod t day_nanos ltac:(done)) as Ht. pose proof (Z.mod_pos_bound t day_nanos ltac:(done)) as Hr. unfold day_nanos, nanos in *. lia.
Qed.
(** The periods of two times lie in each other exactly in the same month. *)
Lemma periods_nest a b : (month_first b ≤ month_first a ∧ month_last a ≤ month_last b)%Z ↔ same_month a b.
Proof.
  rewrite !month_first_day, !month_last_day. unfold same_month. set (i := month_of (a / day_nanos)). set (j := month_of (b / day_nanos)). clearbody i j.
  split; [|intros ->; lia]. intros [H1 H2]. assert (month_day j ≤ month_day i ∧ month_day (i + 1) ≤ month_day (j + 1))%Z as [H3 H4] by (unfold day_nanos, nanos in *; lia).
  destruct (Z.lt_trichotomy i j) as [H|[H|H]]; [|done|].
  - pose proof (month_day_mono i j H). lia.
  - pose proof (month_day_mono (j + 1) (i + 1) ltac:(lia)). lia.
Qed.
Lemma in_period_month db t sub u id :
  made_by_service db → blUsage db !! id = Some u →
  in_period sub (month_first t) (month_last t) u = bool_decide (usgSubscriptionID u = sub ∧ same_month (usgCreatedAt u) t).
Proof.
  intros Hm Hu. destruct (Hm _ _ Hu) as [E1 E2]. unfold in_period. rewrite E1, E2.
  rewrite <- !bool_decide_and. apply bool_decide_ext. rewrite <- periods_nest. tauto.
Qed.
Lemma quantity_cons u l : quantity (u :: l) = (usgQuantity u + quantity l)%Z.
Proof. done. Qed.
Lemma rows_where_filter (t : gmap string Usage) ord (cond : Usage → bool) (P : Usage → Prop) `{!∀ u, Decision (P u)} :
  (∀ id u, t !! id = Some u → cond u = bool_decide (P u)) → rows_where t ord cond = filter P (rows_where t ord (λ _, true)).
Proof.
  intros Hc. unfold rows_where, omap, list_omap. induction ord as [|id ord IH]; [done|]. destruct (t !! id) as [u|] eqn:E; [|done]. rewrite (Hc _ _ E).
  case_bool_decide; [rewrite filter_cons_True by done|rewrite filter_cons_False by done]; by rewrite IH.
Qed.
(** The usage of a month is the sum of what was recorded for the subscription and
    the metric in it, and the summary has every metric with its sum. *)
Lemma usage_of_month db ord sub metric t :
  made_by_service db →
  let l := filter (λ u, usgSubscriptionID u = sub ∧ same_month (usgCreatedAt u) t) (rows_where (blUsage db) ord (λ _, true)) in
  GetUsageByMetric db ord sub metric (month_first t) (month_last t) db_ok = Ok (quantity (filter (λ u, usgMetric u = metric) l))
  ∧ ∃ m, GetUsageSummary db ord sub (month_first t) (month_last t) db_ok = Ok m
      ∧ m !! metric = if bool_decide (metric ∈ usgMetric <$> l) then Some (quantity (filter (λ u, usgMetric u = metric) l)) else None.
Proof.
  intros Hm l. unfold GetUsageByMetric, GetUsageSummary, try. simpl. split.
  - f_equal. unfold l. rewrite list_filter_filter. f_equal. apply rows_where_filter. intros id u Hu. rewrite (in_period_month _ _ _ _ _ Hm Hu).
    unfold of_metric. rewrite <- bool_decide_and. apply bool_decide_ext. tauto.
  - assert (rows_where (blUsage db) ord (in_period sub (month_first t) (month_last t)) = l) as ->.
    { apply rows_where_filter. intros id u Hu. by apply (in_period_month _ _ _ _ _ Hm Hu). }
    eexists. split; [done|].
    assert (∀ m, filter (λ u, of_metric m u = true) l = filter (λ u, usgMetric u = m) l) as Hf.
    { intros m. apply list_filter_iff. intros u. unfold of_metric. apply bool_decide_eq_true. }
    rewrite <- Hf. set (f := λ m, quantity (filter (λ u, of_metric m u = true) l)). case_bool_decide as Hin.
    + apply elem_of_list_to_map_1; [|by apply list_elem_of_fmap; exists metric; rewrite elem_of_remove_dups].
      rewrite <- list_fmap_compose. rewrite (list_fmap_ext _ id); [rewrite list_fmap_id; apply NoDup_remove_dups|done].
    + apply not_elem_of_list_to_map_1. rewrite <- list_fmap_compose. rewrite list_elem_of_fmap. intros (m & -> & Hm')%id. by rewrite elem_of_remove_dups in Hm'.
Qed.

(** What the service records is in the month it is recorded in. *)
Lemma RecordUsage_made db sub metric q uuid now fail db' :
  made_by_service db → Billing_RecordUsage db sub metric q uuid now fail = Ok db' → made_by_service db' ∧ blUsage db' = <[uuid := NewUsage sub metric q uuid now]> (blUsage db).
Proof.
  intros Hm. unfold Billing_RecordUsage, Repo_RecordUsage, insert_row, try. destruct (fail _); [done|]. destruct (_ || _); [done|]. intros [= <-].
  split; [|done]. by apply map_Forall_insert_2.
Qed.

(** ** The default payment method *)

Definition defaults_of (db : BillingDB) (userID id : string) : Prop := ∃ m, blMethods db !! id = Some m ∧ pmUserID m = userID ∧ pmIsDefault m = true.
Definition clear_default (db : BillingDB) (userID : string) : Prop := ∀ id, ¬ defaults_of db userID id.

Definition chosen_default (userID id : string) (now now' : Z) (id' : string) (m : PaymentMethod) : PaymentMethod :=
  if bool_decide (pmUserID m = userID)
  then (if bool_decide (id' = id) then with_default (with_default m false now) true now' else with_default m false now) else m.
Lemma set_one_lookup (t : gmap string PaymentMethod) userID id now now' id' :
  set_one userID id now' (unset_defaults userID now t) !! id' = chosen_default userID id now now' id' <$> t !! id'.
Proof.
  unfold set_one, unset_defaults, chosen_default. destruct (decide (id = id')) as [<-|Hne].
  - rewrite lookup_alter_eq, lookup_fmap, (bool_decide_true (id = id)) by done. destruct (t !! id) as [m|]; [|done]. cbn. f_equal.
    repeat case_bool_decide; done.
  - rewrite lookup_alter_ne, lookup_fmap, (bool_decide_false (id' = id)) by done. done.
Qed.
(** A success makes the method the user's only default when it is theirs; otherwise
    it takes their default away and says nothing. The others keep theirs. *)
Lemma SetDefault_correct db userID id now now' fail db' :
  SetDefaultPaymentMethod db userID id now now' fail = (None, db') →
  (∀ id', defaults_of db' userID id' ↔ id' = id ∧ ∃ m, blMethods db !! id = Some m ∧ pmUserID m = userID)
  ∧ (∀ u id', u ≠ userID → defaults_of db' u id' ↔ defaults_of db u id').
Proof.
  unfold SetDefaultPaymentMethod. destruct (fail 0 _); [done|]. destruct (fail 1 _); [done|]. intros [= <-]. unfold defaults_of. split.
  - intros id'. split.
    + intros (m & Hm & Hu & Hd). simpl in Hm. rewrite set_one_lookup in Hm. apply fmap_Some in Hm as (m0 & H0 & ->). unfold chosen_default in *.
      case_bool_decide as Hm0; [|done]. case_bool_decide; [subst; naive_solver|done].
    + intros (-> & m & Hm & Hu). simpl. rewrite set_one_lookup, Hm. eexists. split; [done|]. unfold chosen_default. by rewrite !bool_decide_true by done.
  - intros u id' Hne. split.
    + intros (m & Hm & Hu & Hd). simpl in Hm. rewrite set_one_lookup in Hm. apply fmap_Some in Hm as (m0 & H0 & ->). unfold chosen_default in *.
      case_bool_decide as Hm0; [|naive_solver]. case_bool_decide; simpl in Hu; congruence.
    + intros (m & Hm & Hu & Hd). exists m. simpl. rewrite set_one_lookup, Hm. split; [|done]. unfold chosen_default. simpl.
      by rewrite bool_decide_false by congruence.
Qed.
(** A failure between the two statements leaves the user without a default. *)
Lemma SetDefault_half db userID id now now' fail db' e :
  fail 0 "UPDATE payment_methods" = None → SetDefaultPaymentMethod db userID id now now' fail = (Some e, db') → clear_default db' userID.
Proof.
  unfold SetDefaultPaymentMethod. intros ->. destruct (fail 1 _); [|done]. intros [= -> <-] id' (m & Hm & Hu & Hd). simpl in Hm. unfold unset_defaults in Hm.
  rewrite lookup_fmap in Hm. destruct (blMethods db !! id') as [m0|]; [|done]. simpl in Hm. injection Hm as <-. case_bool_decide; [done|]. done.
Qed.

(** ** What the code does besides *)

(** A cancellation at the end of the period changes nothing that anything reads. *)
Lemma cancel_at_period_end s now :
  Subscription_IsActive (Subscription_Cancel s true now) = Subscription_IsActive s ∧ suCanceledAt (Subscription_Cancel s true now) = suCanceledAt s
  ∧ suCurrentPeriodEnd (Subscription_Cancel s true now) = suCurrentPeriodEnd s.
Proof. done. Qed.
(** A plan that is not active or not public is created active and public. *)
Lemma plans_created_active db p fail db' :
  CreatePlan db p fail = Ok db' → ∃ q, blPlans db' !! plnID p = Some q ∧ plnIsActive q = true ∧ plnIsPublic q = true.
Proof.
  unfold CreatePlan, insert_row, try. destruct (fail _); [done|]. destruct (_ || _); [done|]. intros [= <-]. simpl. rewrite lookup_insert_eq. eauto.
Qed.
(** Of the invoices the constructor makes, which have no number, one can be stored. *)
Lemma second_invoice_refused db i fail uuid now now' sub user total :
  blInvoices db !! inID i = Some i → inInvoiceNumber i = "" → ∃ e, CreateInvoice db (NewInvoice sub user total uuid now now') fail = Err e.
Proof.
  intros Hi Hn. unfold CreateInvoice, insert_row, try. destruct (fail _); simpl; [eauto|].
  assert (existsb (λ p : string * Invoice, bool_decide (inInvoiceNumber p.2 = "")) (map_to_list (blInvoices db)) = true) as Hx.
  { apply existsb_exists. exists (inID i, i). split; [by apply list_elem_of_In, elem_of_map_to_list|]. by apply bool_decide_eq_true. }
  rewrite Hx, orb_true_r. simpl. eauto.
Qed.
(** A coupon is given out whatever its limits say. *)
Lemma coupon_limits_ignored db ord code c fail :
  GetCoupon db ord code fail = Ok c →
  let worn := {| cpID := cpID c; cpCode := cpCode c; cpName := cpName c; cpDiscountType := cpDiscountType c; cpDiscountValue := cpDiscountValue c;
                 cpCurrency := cpCurrency c; cpMaxRedemptions := Some 0%Z; cpRedemptionCount := 7; cpValidFrom := cpValidFrom c; cpValidUntil := Some 0%Z;
                 cpIsActive := cpIsActive c; cpCreatedAt := cpCreatedAt c |} in
  GetCoupon (put_coupons db {[cpID c := worn]}) [cpID c] code fail = Ok worn.
Proof.
  unfold GetCoupon, try. destruct (fail _); [done|]. destruct (head _) as [c'|] eqn:E; [|done]. intros [= ->].
  apply head_Some_elem_of, rows_where_elem in E as (id & _ & _ & Hc). unfold rows_where. simpl. rewrite lookup_singleton_eq. simpl. by rewrite Hc.
Qed.
(** A subscription or an invoice is shown to everybody who knows its ID. *)
Lemma bills_of_everybody ord db s i rq rq' :
  blSubscriptions db !! suID s = Some s → blInvoices db !! inID i = Some i → suID s ≠ "" → inID i ≠ "" →
  rqMethod rq = "GET" → rqPath rq = ["api"; "v1"; "billing"; "subscriptions"; suID s] →
  rqMethod rq' = "GET" → rqPath rq' = ["api"; "v1"; "billing"; "invoices"; inID i] →
  (bill_serve ord db_ok rq db).1 = JSON StatusOK (BBSubscription s) ∧ (bill_serve ord db_ok rq' db).1 = JSON StatusOK (BBInvoice i).
Proof.
  intros Hs Hi Ns Ni Em Ep Em' Ep'. unfold bill_serve, find_route. rewrite Em, Ep, Em', Ep'. simpl. rewrite !(bool_decide_false (_ = "")) by done. simpl.
  unfold handle_GetSubscription, handle_GetInvoice, asks, after_, GetSubscription, GetInvoice, row_with, Param. simpl. rewrite !lookup_insert_eq. simpl.
  by rewrite Hs, Hi.
Qed.
