(* ===== verification/Permissions.v ===== *)
(** pkg/middleware/auth/permission_middleware.go: the checks of permissions, of
    ownership and of services, and how gin runs chains of handlers.

    A middleware looks at the context of a request and either goes on with
    [c.Next()] or answers and aborts. *)

From S2P Require Import Prelude GoValue GoLib GoText Tokens.

(** ** The checks *)

Abbreviation gctx := (gmap string cval).
Abbreviation guard := (gctx → verdict).

(** One permission of the user against the one that is required. *)
Definition trim_suffix (s suf : string) : string := String.substring 0 (String.length s - String.length suf) s.
Definition trim_start (s pre : string) : string := String.substring (String.length pre) (String.length s - String.length pre) s.
Definition perm_matches (resource action perm : string) : bool :=
  bool_decide (perm = resource +:+ ":" +:+ action) || bool_decide (perm = "*:*")
  || (has_suffix perm ":*" && bool_decide (trim_suffix perm ":*" = resource))
  || (String.prefix "*:" perm && bool_decide (trim_start perm "*:" = action)).
Definition RequireResourcePermission (resource action : string) : guard := λ c,
  match context_list c "permissions" with
  | None => Reply 403 "no permissions found"
  | Some (Err _) => Reply 500 "invalid permissions format"
  | Some (Ok perms) =>
      if existsb (perm_matches resource action) perms then Next c
      else Reply 403 ("permission denied for " +:+ resource +:+ ":" +:+ action)
  end.

(** [owner] is the function that finds the owner of the resource. *)
Definition RequireOwnership (owner : gctx → result string) : guard := λ c,
  match c !! "userId" with
  | None => Reply 403 "user not authenticated"
  | Some (CText userID) =>
      let roles := match c !! "roles" with Some (CList l) => l | _ => [] end in
      if existsb (λ r, bool_decide (r = "admin") || bool_decide (r = "super_admin")) roles then Next c
      else match owner c with
           | Err _ => Reply 500 "failed to determine resource ownership"
           | Ok o => if bool_decide (o = userID) then Next c else Reply 403 "you don't have permission to access this resource"
           end
  | Some _ => Reply 500 "invalid user ID format"
  end.

(** [token] and [name] are the headers of the request, empty when missing. *)
Definition ServiceAuth_Validate (serviceTokens : gmap string string) (token name : string) : guard := λ c,
  if bool_decide (token = "") || bool_decide (name = "") then Next c
  else match serviceTokens !! name with
       | Some expected =>
           if bool_decide (expected = token)
           then Next (<["permissions" := CList ["*:*"]]> (<["serviceName" := CText name]> (<["isService" := CBool true]> c)))
           else Reply 401 "invalid service credentials"
       | None => Reply 401 "invalid service credentials"
       end.

(** ** Chains of gin *)

Inductive gin_handler :=
| GMiddleware (f : guard)
| GCombined (fs : list guard)                       (* [CombineMiddleware] *)
| GEndpoint (name : string).
Inductive gin_event := Ran (name : string) | Wrote (status : Z).
Record gin := { gnIndex : Z; gnCtx : gctx; gnTrace : list gin_event }.
Definition abortIndex : Z := 63.
Definition IsAborted (g : gin) : bool := bool_decide (abortIndex ≤ gnIndex g)%Z.
Definition bump (g : gin) : gin := {| gnIndex := gnIndex g + 1; gnCtx := gnCtx g; gnTrace := gnTrace g |}.
Definition Abort_with (g : gin) (code : Z) : gin := {| gnIndex := abortIndex; gnCtx := gnCtx g; gnTrace := gnTrace g ++ [Wrote code] |}.
Definition note_ran (g : gin) (name : string) : gin := {| gnIndex := gnIndex g; gnCtx := gnCtx g; gnTrace := gnTrace g ++ [Ran name] |}.

(** A middleware with what [c.Next()] does, and several of them in a row. *)
Definition run_guard (next : gin → option gin) (f : guard) (g : gin) : option gin :=
  match f (gnCtx g) with
  | Next c => next {| gnIndex := gnIndex g; gnCtx := c; gnTrace := gnTrace g |}
  | Reply code _ => Some (Abort_with g code)
  end.
Fixpoint CombineMiddleware (next : gin → option gin) (fs : list guard) (g : gin) : option gin :=
  match fs with
  | [] => next g
  | f :: fs => match run_guard next f g with
               | Some g' => if IsAborted g' then Some g' else CombineMiddleware next fs g'
               | None => None
               end
  end.
(** The loop of [c.Next()], after its first increment of the index; [fuel] bounds
    the calls within calls. *)
Fixpoint gin_loop (fuel : nat) (hs : list gin_handler) (g : gin) : option gin :=
  match fuel with
  | O => None
  | S fuel =>
      if bool_decide (0 ≤ gnIndex g < Z.of_nat (length hs))%Z then
        let next g := gin_loop fuel hs (bump g) in
        match hs !! Z.to_nat (gnIndex g) with
        | None => Some g
        | Some h =>
            match (match h with
                   | GMiddleware f => run_guard next f g
                   | GCombined fs => CombineMiddleware next fs g
                   | GEndpoint name => Some (note_ran g name)
                   end) with
            | Some g' => gin_loop fuel hs (bump g')
            | None => None
            end
        end
      else Some g
  end.
Definition gin_serve (fuel : nat) (hs : list gin_handler) (c : gctx) : option gin := gin_loop fuel hs {| gnIndex := 0; gnCtx := c; gnTrace := [] |}.

(** ** What the checks admit *)

Lemma substring_app_l a b : String.substring 0 (String.length (a +:+ b) - String.length b) (a +:+ b) = a.
Proof.
  rewrite string_app_length. replace (String.length a + String.length b - String.length b) with (String.length a) by lia.
  induction a as [|x a IH]; simpl; [by destruct b|by rewrite IH].
Qed.
Lemma substring_split s k : k ≤ String.length s → s = String.substring 0 k s +:+ String.substring k (String.length s - k) s.
Proof.
  revert k. induction s as [|x s IH]; intros [|k] H; simpl in *; try done; try lia.
  - by rewrite substring_all.
  - rewrite string_app_cons. f_equal. apply IH. lia.
Qed.
Lemma has_suffix_spec s suf : has_suffix s suf = true ↔ ∃ a, s = a +:+ suf.
Proof.
  unfold has_suffix. rewrite andb_true_iff, !bool_decide_eq_true. split.
  - intros [Hl Hs]. exists (String.substring 0 (String.length s - String.length suf) s).
    pose proof (substring_split s (String.length s - String.length suf) ltac:(lia)) as H.
    replace (String.length s - (String.length s - String.length suf)) with (String.length suf) in H by lia. by rewrite Hs in H.
  - intros [a ->]. rewrite string_app_length. split; [lia|]. replace (String.length a + String.length suf - String.length suf) with (String.length a) by lia.
    pose proof (substring_app a suf) as H. rewrite string_app_length in H. replace (String.length a + String.length suf - String.length a) with (String.length suf) in H by lia.
    done.
Qed.

(** The four permissions that grant an action on a resource. *)
Definition granting (resource action : string) : list string :=
  [resource +:+ ":" +:+ action; "*:*"; resource +:+ ":*"; "*:" +:+ action].
Lemma perm_matches_spec resource action perm : perm_matches resource action perm = true ↔ perm ∈ granting resource action.
Proof.
  unfold perm_matches, granting. rewrite !orb_true_iff, !andb_true_iff, !bool_decide_eq_true, has_suffix_spec, prefix_spec, !elem_of_cons, elem_of_nil.
  assert ((∃ a, perm = a +:+ ":*") ∧ trim_suffix perm ":*" = resource ↔ perm = resource +:+ ":*") as ->.
  { split; [intros [[a ->] <-]; unfold trim_suffix; by rewrite substring_app_l|]. intros ->. split; [eauto|]. unfold trim_suffix. apply substring_app_l. }
  assert ((∃ b, perm = "*:" +:+ b) ∧ trim_start perm "*:" = action ↔ perm = "*:" +:+ action) as ->.
  { split; [intros [[b ->] <-]; unfold trim_start; by rewrite substring_app|]. intros ->. split; [eauto|]. unfold trim_start. apply substring_app. }
  tauto.
Qed.
(** A request goes on exactly with one of them. *)
Lemma resource_permission_admits resource action c c' :
  RequireResourcePermission resource action c = Next c' ↔ c' = c ∧ ∃ l p, c !! "permissions" = Some (CList l) ∧ p ∈ l ∧ p ∈ granting resource action.
Proof.
  unfold RequireResourcePermission, context_list. destruct (c !! "permissions") as [[s|l|b]|]; [split; [done|naive_solver]| |split; [done|naive_solver]..].
  destruct (existsb _ l) eqn:E.
  - apply existsb_exists in E as (p & Hp & Hm). apply list_elem_of_In in Hp. apply perm_matches_spec in Hm. split; [intros [= ->]; eauto 10|]. by intros [-> _].
  - split; [done|]. intros (_ & l' & p & [= <-] & Hp & Hm). rewrite <- not_true_iff_false in E. destruct E. apply existsb_exists. exists p.
    split; [by apply list_elem_of_In|by apply perm_matches_spec].
Qed.
(** An owner or an administrator. *)
Lemma ownership_admits owner c c' :
  RequireOwnership owner c = Next c' ↔
  c' = c ∧ ∃ u, c !! "userId" = Some (CText u)
    ∧ ((∃ l, c !! "roles" = Some (CList l) ∧ ("admin" ∈ l ∨ "super_admin" ∈ l)) ∨ owner c = Ok u).
Proof.
  unfold RequireOwnership. destruct (c !! "userId") as [[u|l|b]|]; [|split; [done|naive_solver]..].
  destruct (existsb _ _) eqn:E.
  - apply existsb_exists in E as (r & Hr & [->%bool_decide_eq_true| ->%bool_decide_eq_true]%orb_true_iff); apply list_elem_of_In in Hr;
      (split; [intros [= ->]; split; [done|]; exists u; split; [done|left]|by intros [-> _]]);
      destruct (c' !! "roles") as [[?|l|?]|]; try (by apply not_elem_of_nil in Hr); eauto.
  - assert (¬ ∃ l, c !! "roles" = Some (CList l) ∧ ("admin" ∈ l ∨ "super_admin" ∈ l)) as Hno.
    { intros (l & El & Hl). rewrite El in E. rewrite <- not_true_iff_false in E. destruct E. apply existsb_exists.
      destruct Hl as [Hl|Hl]; [exists "admin"|exists "super_admin"]; (split; [by apply list_elem_of_In|done]). }
    destruct (owner c) as [o|e]; [case_bool_decide as Ho|].
    + subst o. split; [intros [= ->]; eauto|by intros [-> _]].
    + split; [done|]. intros (_ & u' & [= <-] & [?|[= ?]]); done.
    + split; [done|]. intros (_ & u' & _ & [?|?]); done.
Qed.

(** A service has every permission; a wrong token is refused. *)
Lemma service_admits tokens token name c :
  token ≠ "" → name ≠ "" →
  match ServiceAuth_Validate tokens token name c with
  | Next c' => tokens !! name = Some token ∧ ∀ resource action, RequireResourcePermission resource action c' = Next c'
  | Reply code _ => tokens !! name ≠ Some token ∧ code = 401%Z
  end.
Proof.
  intros Ht Hn. unfold ServiceAuth_Validate. rewrite !bool_decide_false by done. simpl. destruct (tokens !! name) as [t|]; [|done].
  case_bool_decide as E; [subst t|split; [congruence|done]]. split; [done|]. intros r a. apply resource_permission_admits. split; [done|].
  exists ["*:*"], "*:*". rewrite lookup_insert_eq. split_and!; [done|left|right; left].
Qed.
(** The check of tokens, which comes after it in the chain, refuses a service that
    has no token of a user, and puts the permissions of the user in place. *)
Lemma service_needs_a_token parse verify m r broken path now c :
  existsb (λ p, String.prefix p path) skipPaths = false →
  Handle parse verify m r broken path "" now c = Reply 401 "authorization header required".
Proof. intros H. unfold Handle. by rewrite H. Qed.

(** ** Chains *)

(** The guards one after the other, on the context each leaves. *)
Fixpoint all_guards (fs : list guard) (c : gctx) : verdict :=
  match fs with
  | [] => Next c
  | f :: fs => match f c with Next c => all_guards fs c | Reply code msg => Reply code msg end
  end.

Lemma gin_loop_end fuel hs g : (Z.of_nat (length hs) ≤ gnIndex g)%Z → gin_loop (S fuel) hs g = Some g.
Proof. intros H. simpl. by rewrite bool_decide_false by lia. Qed.

(** A chain of middlewares before a handler, each with its [c.Next()]: the handler
    runs exactly when all of them let the request go on, after all of them. *)
Lemma chain_from pre fs name c trace fuel :
  (length pre + length fs < 62)%nat → (length fs + 2 ≤ fuel)%nat →
  let hs := pre ++ (GMiddleware <$> fs) ++ [GEndpoint name] in
  ∃ g, gin_loop fuel hs {| gnIndex := Z.of_nat (length pre); gnCtx := c; gnTrace := trace |} = Some g
    ∧ (Z.of_nat (length hs) ≤ gnIndex g)%Z
    ∧ gnTrace g = trace ++ match all_guards fs c with Next _ => [Ran name] | Reply code _ => [Wrote code] end.
Proof.
  revert pre c fuel. induction fs as [|f fs IH]; intros pre c fuel Hn Hf; destruct fuel as [|fuel]; simpl in Hf; try lia; intros hs.
  - assert (hs !! length pre = Some (GEndpoint name)) as Hh by by apply list_lookup_middle.
    assert (length hs = length pre + 1)%nat as El by (unfold hs; by rewrite length_app). clearbody hs.
    cbn [gin_loop gnIndex]. rewrite bool_decide_true by lia. rewrite Nat2Z.id, Hh. destruct fuel as [|fuel]; [lia|].
    rewrite gin_loop_end by (simpl; lia). eexists. split_and!; [done|simpl; lia|done].
  - assert (hs = (pre ++ [GMiddleware f]) ++ (GMiddleware <$> fs) ++ [GEndpoint name]) as Eh by (unfold hs; by rewrite <- app_assoc).
    assert (length hs = length pre + length fs + 2)%nat as El by (unfold hs; rewrite !length_app, length_fmap; simpl; lia).
    assert (hs !! length pre = Some (GMiddleware f)) as Hh by by apply list_lookup_middle. clearbody hs.
    cbn [gin_loop gnIndex]. rewrite bool_decide_true by lia. rewrite Nat2Z.id, Hh.
    unfold run_guard. cbn [gnCtx gnTrace gnIndex all_guards]. destruct fuel as [|fuel]; [lia|]. destruct (f c) as [c'|code msg].
    + unfold bump. cbn [gnCtx gnTrace gnIndex].
      destruct (IH (pre ++ [GMiddleware f]) c' (S fuel)) as (g & Hg & Hi & Ht); [rewrite length_app; simpl; simpl in Hn; lia|lia|].
      rewrite <- Eh in Hg, Hi. replace (Z.of_nat (length pre) + 1)%Z with (Z.of_nat (length (pre ++ [GMiddleware f]))) by (rewrite length_app; simpl; lia).
      rewrite Hg. rewrite gin_loop_end by (simpl; lia). eexists. split_and!; [done|simpl; lia|done].
    + simpl in Hn. rewrite gin_loop_end by (unfold Abort_with, bump, abortIndex; simpl; lia). eexists.
      split_and!; [done|unfold Abort_with, bump, abortIndex; simpl; lia|done].
Qed.
Lemma chain_guards fs name c :
  (length fs < 62)%nat →
  ∃ g, gin_serve (length fs + 2) ((GMiddleware <$> fs) ++ [GEndpoint name]) c = Some g
    ∧ gnTrace g = match all_guards fs c with Next _ => [Ran name] | Reply code _ => [Wrote code] end.
Proof. intros Hn. destruct (chain_from [] fs name c [] (length fs + 2) Hn ltac:(lia)) as (g & Hg & _ & Ht). eauto. Qed.

(** Combined in one middleware they do not guard: the [c.Next()] of the first runs
    the handler, and the second is asked afterwards. *)
Lemma combined_too_late f1 f2 name c c1 code msg :
  f1 c = Next c1 → f2 c1 = Reply code msg →
  ∃ g, gin_serve 4 [GCombined [f1; f2]; GEndpoint name] c = Some g ∧ gnTrace g = [Ran name; Wrote code].
Proof. intros H1 H2. unfold gin_serve. simpl. unfold run_guard at 1. simpl. rewrite H1. simpl. unfold run_guard. simpl. rewrite H2. simpl. eauto. Qed.
