(* ===== verification/ApiKeyApi.v ===== *)
(** internal/auth/adapters/apikey: the handlers of API keys and their routes, behind
    the check of tokens of the authentication service, which finds the user of a
    request or answers it.  The decoder of bodies and [time.ParseDuration] are
    parameters. *)

From S2P Require Import Prelude GoValue GoLib GoText WorkflowRepo Tokens ApiKeys Http.
From stdpp Require Import sorting.
From Stdlib Require Import Ascii.

(** ** Durations *)

Definition is_digit (c : ascii) : bool := let n := N_of_ascii c in ((48 <=? n) && (n <=? 57))%N.
Definition digit_value (c : ascii) : Z := Z.of_N (N_of_ascii c) - 48.
Fixpoint scan_digits (s : string) (acc : Z) (any : bool) : option Z :=
  match s with
  | String c s' => if is_digit c then scan_digits s' (acc * 10 + digit_value c) true else if any then Some acc else None
  | "" => if any then Some acc else None
  end.
(** [fmt.Sscanf] of an int with the verb %d: spaces, a sign, digits; what follows is
    left alone. *)
Definition scan_space (c : ascii) : bool := is_space c && negb (bool_decide (c = "010"%char)).
Definition Sscanf_d (s : string) : result Z :=
  let s := trim_left scan_space s in
  let n := match s with
           | String "-" s' => Z.opp <$> scan_digits s' 0 false
           | String "+" s' => scan_digits s' 0 false
           | _ => scan_digits s 0 false
           end in
  match n with
  | None => Err "expected integer"
  | Some n => if bool_decide (- 2 ^ 63 ≤ n < 2 ^ 63)%Z then Ok n else Err "integer overflow"
  end.
Definition unit_nanos (unit : ascii) : option Z :=
  if bool_decide (unit = "d"%char) then Some (24 * Hour)%Z
  else if bool_decide (unit = "w"%char) then Some (7 * 24 * Hour)%Z
  else if bool_decide (unit = "m"%char) then Some (30 * 24 * Hour)%Z
  else if bool_decide (unit = "y"%char) then Some (365 * 24 * Hour)%Z
  else None.
Definition parseDuration (ParseDuration : string → result Z) (s : string) : result Z :=
  if bool_decide (String.length s < 2) then Err "invalid duration"
  else
    let unit := default "000"%char (String.get (String.length s - 1) s) in
    let value := String.substring 0 (String.length s - 1) s in
    match unit_nanos unit with
    | None => ParseDuration s
    | Some multiplier => match Sscanf_d value with Err e => Err e | Ok num => Ok (wrap64 (num * multiplier)) end
    end.

(** ** Bodies, answers and routes *)

Record KeyRequest := { kqName : string; kqPermissions : list string; kqExpiresIn : string }.
Record CreateResponse := {
  ksID : string;
  ksName : string;
  ksKey : string;
  ksKeyPrefix : string;
  ksPermissions : list string;
  ksExpiresAt : option Z;
  ksCreatedAt : Z
}.
Record APIKeyResponse := {
  kvID : string;
  kvName : string;
  kvKeyPrefix : string;
  kvPermissions : list string;
  kvLastUsedAt : option Z;
  kvExpiresAt : option Z;
  kvCreatedAt : Z;
  kvRevokedAt : option Z
}.
Inductive KeyBody := KBEmpty | KBCreated (r : CreateResponse) | KBKeys (l : list APIKeyResponse) | KBObject (h : list (string * value)).
Definition key_fails (status : Z) (msg : string) : Response KeyBody := JSON status (KBObject [("error", VStr msg)]).
Definition shown_key (k : APIKey) : APIKeyResponse :=
  {| kvID := akID k; kvName := akName k; kvKeyPrefix := akKeyPrefix k; kvPermissions := akPermissions k; kvLastUsedAt := akLastUsedAt k;
     kvExpiresAt := akExpiresAt k; kvCreatedAt := akCreatedAt k; kvRevokedAt := akRevokedAt k |}.

Inductive KeyEndpoint := KCreate | KList | KRevoke | KDelete.
Definition key_v1 (method : string) (segs : list Seg) (e : KeyEndpoint) : string * Route KeyEndpoint :=
  route method ([Lit "api"; Lit "v1"; Lit "auth"; Lit "api-keys"] ++ segs) e.
Definition SetupRoutes : list (string * Route KeyEndpoint) := [
  key_v1 "POST" [] KCreate;
  key_v1 "GET" [] KList;
  key_v1 "DELETE" [Par "id"] KRevoke;
  key_v1 "DELETE" [Par "id"; Lit "permanent"] KDelete].

(** The runes of a text in UTF-8, and the tag of the name. *)
Fixpoint runes (s : string) : nat :=
  match s with
  | "" => 0
  | String c s' => let n := N_of_ascii c in (if ((128 <=? n) && (n <=? 191))%N then 0 else 1) + runes s'
  end.
Definition key_tags (q : KeyRequest) : complaints :=
  match required "Name" (kqName q) with
  | [] => if bool_decide (255 < runes (kqName q)) then [("Name", "max")] else []
  | l => l
  end.

(** ** Handlers *)

Section api.
Context (sha256_hex : string → string) (ParseDuration : string → result Z).
Context (decode : string → result KeyRequest) (tag_error : complaints → string).
Abbreviation key_api := (handler keytable KeyBody).

Definition key_user (user : option string) (k : string → key_api) : key_api :=
  match user with None => tell (key_fails StatusUnauthorized "unauthorized") | Some u => k u end.
Definition default_permissions : list string := ["workflows:read"; "workflows:write"; "executions:read"].
Definition handle_CreateKey (user : option string) (c : KeyCall) (rq : Request) : key_api :=
  key_user user (λ u,
    read_body tag_error decode key_tags (key_fails StatusBadRequest) rq (λ q,
      let create expires :=
        after_ (λ t, APIKey_Create sha256_hex t
                       {| ckUserID := u; ckName := kqName q;
                          ckPermissions := match kqPermissions q with [] => default_permissions | l => l end; ckExpiresIn := expires |} c)
          (λ _, key_fails StatusInternalServerError "failed to create API key")
          (λ r, JSON StatusCreated (KBCreated
             {| ksID := akID (crAPIKey r); ksName := akName (crAPIKey r); ksKey := crRawKey r; ksKeyPrefix := akKeyPrefix (crAPIKey r);
                ksPermissions := akPermissions (crAPIKey r); ksExpiresAt := akExpiresAt (crAPIKey r); ksCreatedAt := akCreatedAt (crAPIKey r) |})) in
      if bool_decide (kqExpiresIn q = "") then create None
      else match parseDuration ParseDuration (kqExpiresIn q) with
           | Err _ => tell (key_fails StatusBadRequest "invalid expiresIn format. Use '30d', '90d', '1y', etc.")
           | Ok d => create (Some d)
           end)).
Definition handle_ListKeys (user : option string) (c : KeyCall) : key_api :=
  key_user user (λ u, asks (λ t, APIKey_List t u c) (λ _, key_fails StatusInternalServerError "failed to list API keys")
                       (λ l, JSON StatusOK (KBKeys (shown_key <$> l)))).
(** The errors of a withdrawal, and its success. *)
Definition withdrawal (verb done_ : string) (call : keytable → option string * keytable) : key_api :=
  after call
    (λ e, if bool_decide (e = "API key not found") then key_fails StatusNotFound e
          else if bool_decide (e = "unauthorized: API key does not belong to user") then key_fails StatusForbidden e
          else key_fails StatusInternalServerError ("failed to " +:+ verb +:+ " API key"))
    (JSON StatusOK (KBObject [("message", VStr ("API key " +:+ done_))])).
Definition key_id (r : Route KeyEndpoint) (k : string → key_api) : key_api :=
  let id := Param r "id" in if bool_decide (id = "") then tell (key_fails StatusBadRequest "API key ID required") else k id.
Definition handle_RevokeKey (user : option string) (c : KeyCall) (r : Route KeyEndpoint) : key_api :=
  key_user user (λ u, key_id r (λ id, withdrawal "revoke" "revoked successfully" (λ t, APIKey_Revoke t u id c))).
Definition handle_DeleteKey (user : option string) (c : KeyCall) (r : Route KeyEndpoint) : key_api :=
  key_user user (λ u, key_id r (λ id, withdrawal "delete" "deleted permanently" (λ t, APIKey_Delete t u id c))).
Definition key_handle (user : option string) (c : KeyCall) (r : Route KeyEndpoint) (rq : Request) : key_api :=
  match rtEndpoint r with
  | KCreate => handle_CreateKey user c rq
  | KList => handle_ListKeys user c
  | KRevoke => handle_RevokeKey user c r
  | KDelete => handle_DeleteKey user c r
  end.
Definition key_serve (user : option string) (c : KeyCall) (rq : Request) : key_api :=
  match find_route SetupRoutes rq with
  | None => tell (JSON StatusNotFound KBEmpty)
  | Some r => key_handle user c r rq
  end.

(** ** What the interface guarantees *)

(** A request of another user leaves the row of a key as it is. *)
Lemma key_of_others_kept user c rq t id k :
  keys_ok t → t !! id = Some k → user ≠ Some (akUserID k) → id ≠ kcUuid c → (key_serve user c rq t).2 !! id = Some k.
Proof.
  intros Hok Hk Hu Hid. unfold key_serve. destruct (find_route _ _) as [r|]; [|done]. unfold key_handle, handle_CreateKey, handle_ListKeys, handle_RevokeKey,
    handle_DeleteKey, key_user. destruct user as [u|]; [|by destruct (rtEndpoint r)]. assert (akUserID k ≠ u) as Hne by congruence.
  destruct (rtEndpoint r).
  - rewrite read_body_state. destruct (decode _) as [q|]; [|done]. destruct (key_tags q); [|done].
    assert (∀ req, (APIKey_Create sha256_hex t req c).2 !! id = Some k) as Hc.
    { intros req. unfold APIKey_Create. destruct (kcRandom c); [|done]. unfold Keys_Create, try. destruct (kcFail c 0 _); [done|].
      destruct (_ || _); [done|]. simpl. by rewrite lookup_insert_ne. }
    case_bool_decide; [by rewrite after__state|]. destruct (parseDuration _ _); [by rewrite after__state|done].
  - by rewrite asks_state.
  - unfold key_id. case_bool_decide; [done|]. unfold withdrawal. rewrite after_state. destruct (decide (Param r "id" = id)) as [<-|Hn].
    + by rewrite (proj1 (foreign_key_untouched t u _ c k Hok Hk Hne)).
    + unfold APIKey_Revoke. destruct (own_key _ _ _ _); [done|]. unfold written, Keys_Revoke, try. destruct (kcFail c 1 _); [done|]. simpl. by rewrite lookup_alter_ne.
  - unfold key_id. case_bool_decide; [done|]. unfold withdrawal. rewrite after_state. destruct (decide (Param r "id" = id)) as [<-|Hn].
    + by rewrite (proj1 (proj2 (foreign_key_untouched t u _ c k Hok Hk Hne))).
    + unfold APIKey_Delete. destruct (own_key _ _ _ _); [done|]. unfold written, Keys_Delete, try. destruct (kcFail c 1 _); [done|]. simpl. by rewrite lookup_delete_ne.
Qed.
(** A list has the keys of its user and no other. *)
Lemma list_is_own u c t l :
  (handle_ListKeys (Some u) c t).1 = JSON StatusOK (KBKeys l) →
  ∀ v, v ∈ l → ∃ k id, t !! id = Some k ∧ akUserID k = u ∧ kvID v = akID k.
Proof.
  clear. unfold handle_ListKeys, key_user, asks, after_, APIKey_List, GetByUserID, try. destruct (kcFail c 0 _); [done|]. simpl. intros [= <-] v.
  rewrite list_elem_of_fmap. intros (k & -> & Hk). apply list_elem_of_fmap in Hk as (k0 & -> & Hk0). rewrite merge_sort_Permutation in Hk0.
  apply rows_where_elem in Hk0 as (id & _ & Hid & Hu). apply bool_decide_eq_true in Hu. exists k0, id. split_and!; [done|done|].
  unfold with_permissions. by case_bool_decide.
Qed.
End api.

(** ** Expiry *)

(** Days, weeks, months and years; other units are those of package time. *)
Lemma some_durations pd :
  parseDuration pd "30d" = Ok (30 * 24 * Hour)%Z ∧ parseDuration pd "2w" = Ok (14 * 24 * Hour)%Z ∧ parseDuration pd "1y" = Ok (365 * 24 * Hour)%Z
  ∧ parseDuration pd "12h" = pd "12h" ∧ parseDuration pd "d" = Err "invalid duration".
Proof. vm_compute. by split_and!. Qed.
(** Three hundred years overflow: the key has expired when it is made. *)
Lemma long_life_expires pd : ∃ d, parseDuration pd "300y" = Ok d ∧ (d < 0)%Z.
Proof. eexists. split; [vm_compute; reflexivity|]. done. Qed.
(** What follows the digits is not looked at, and a negative time is accepted. *)
Lemma odd_durations pd : parseDuration pd "3 or 4d" = Ok (3 * 24 * Hour)%Z ∧ parseDuration pd "-1d" = Ok (- (24 * Hour))%Z.
Proof. vm_compute. by split. Qed.
(** The permission that grants everything is not one of those the check of requests
    knows, and the other way round. *)
Lemma star_differs k : akPermissions k = ["*:*"] → APIKey_HasPermission k "workflow" "read" = false.
Proof. unfold APIKey_HasPermission. by intros ->. Qed.
