(* ===== verification/ScheduleApi.v ===== *)
(** internal/schedule/adapters/http/handlers: the handlers of schedules with the
    routes they register, and the routes the server has instead.  The decoders of
    bodies are parameters; [user] is the user in the context of a request, empty
    when no middleware has set one. *)

From S2P Require Import Prelude GoValue GoLib Schedule Http.

Record CreateScheduleRequest := {
  csName : string;
  csDescription : string;
  csWorkflowID : string;
  csCronExpression : string;
  csTimezone : string;
  csData : vmap
}.
Inductive SchedBody := SBEmpty | SBSchedule (s : Schedule) | SBSchedules (l : list Schedule) | SBObject (h : list (string * value)).
Definition sched_says (status : Z) (h : list (string * value)) : Response SchedBody := JSON status (SBObject h).
Definition sched_fails (status : Z) (msg : string) : Response SchedBody := sched_says status [("error", VStr msg)].

Inductive SchedEndpoint := ZHealth | ZReady | ZList | ZCreate | ZGet | ZUpdate | ZDelete | ZPause | ZResume | ZTrigger.
(** [RegisterRoutes] on the group [group]. *)
Definition RegisterRoutes (group : list Seg) : list (string * Route SchedEndpoint) :=
  let at_ method segs e := route method (group ++ [Lit "schedules"] ++ segs) e in [
  at_ "GET" [] ZList;
  at_ "POST" [] ZCreate;
  at_ "GET" [Par "id"] ZGet;
  at_ "PUT" [Par "id"] ZUpdate;
  at_ "DELETE" [Par "id"] ZDelete;
  at_ "POST" [Par "id"; Lit "pause"] ZPause;
  at_ "POST" [Par "id"; Lit "resume"] ZResume;
  at_ "POST" [Par "id"; Lit "trigger"] ZTrigger].

(** What a call reads from outside: clocks, an ID, the order of rows, failures. *)
Record SchedCall := { zcNow : nat → Z; zcUuid : string; zcOrd : list string; zcErr : nat → option string }.

Section api.
Context (known_location : string → bool).
Context (decodeCreate : string → result CreateScheduleRequest) (decodeUpdate : string → result UpdateScheduleRequest) (tag_error : complaints → string).
Abbreviation sched_api := (handler ScheduleService SchedBody).
Definition sched_bad (e : string) : Response SchedBody := sched_fails StatusBadRequest e.

Definition handle_ListSchedules (user : string) (c : SchedCall) (rq : Request) : sched_api :=
  asks (λ s, ListSchedules s (zcOrd c) user (Query rq "workflowId") (zcErr c 0))
    (λ _, sched_fails StatusInternalServerError "Failed to list schedules") (λ l, JSON StatusOK (SBSchedules l)).
Definition requested (user : string) (c : SchedCall) (q : CreateScheduleRequest) : Schedule :=
  let s := NewSchedule (zcUuid c) (csName q) (csWorkflowID q) user (csCronExpression q) (zcNow c 0) (zcNow c 1) in
  {| scID := scID s; scName := scName s; scDescription := csDescription q; scWorkflowID := scWorkflowID s; scUserID := scUserID s; scTeamID := scTeamID s;
     scCronExpression := scCronExpression s; scTimezone := csTimezone q; scData := csData q; scIsActive := scIsActive s; scStartDate := scStartDate s;
     scEndDate := scEndDate s; scLastRunAt := scLastRunAt s; scNextRunAt := scNextRunAt s; scRunCount := scRunCount s; scMisfirePolicy := scMisfirePolicy s;
     scMaxRetries := scMaxRetries s; scTags := scTags s; scCreatedAt := scCreatedAt s; scUpdatedAt := scUpdatedAt s |}.
(** The answer has the schedule as the database has filled it in. *)
Definition handle_CreateSchedule (user : string) (c : SchedCall) (rq : Request) : sched_api :=
  read_body tag_error decodeCreate
    (λ q, required "Name" (csName q) ++ required "WorkflowID" (csWorkflowID q) ++ required "CronExpression" (csCronExpression q)) sched_bad rq (λ q,
    after (λ s, CreateSchedule known_location s (requested user c q) (zcNow c 2) (zcErr c 0))
      (λ _, sched_fails StatusInternalServerError "Failed to create schedule")
      (JSON StatusCreated (SBSchedule (with_defaults (zcNow c 2) (requested user c q))))).
Definition handle_GetSchedule (c : SchedCall) (r : Route SchedEndpoint) : sched_api :=
  asks (λ s, GetSchedule s (Param r "id") (zcErr c 0)) (λ _, sched_fails StatusNotFound "Schedule not found") (λ s, JSON StatusOK (SBSchedule s)).
Definition handle_UpdateSchedule (c : SchedCall) (r : Route SchedEndpoint) (rq : Request) : sched_api :=
  read_body tag_error decodeUpdate (λ _, []) sched_bad rq (λ q,
    after_ (λ s, Service_UpdateSchedule known_location s (Param r "id") q (zcNow c 0) (zcErr c 0, zcErr c 1))
      (λ _, sched_fails StatusInternalServerError "Failed to update schedule") (λ s, JSON StatusOK (SBSchedule s))).
Definition handle_DeleteSchedule (c : SchedCall) (r : Route SchedEndpoint) : sched_api :=
  after (λ s, Service_DeleteSchedule s (Param r "id") (zcErr c 0)) (λ _, sched_fails StatusInternalServerError "Failed to delete schedule")
    (sched_says StatusOK [("message", VStr "Schedule deleted")]).
Definition handle_PauseSchedule (c : SchedCall) (r : Route SchedEndpoint) : sched_api :=
  after (λ s, Service_PauseSchedule s (Param r "id") (zcNow c 0) (zcErr c 0, zcErr c 1)) (λ _, sched_fails StatusInternalServerError "Failed to pause schedule")
    (sched_says StatusOK [("message", VStr "Schedule paused")]).
Definition handle_ResumeSchedule (c : SchedCall) (r : Route SchedEndpoint) : sched_api :=
  after (λ s, Service_ResumeSchedule s (Param r "id") (zcNow c 0) (zcErr c 0, zcErr c 1)) (λ _, sched_fails StatusInternalServerError "Failed to resume schedule")
    (sched_says StatusOK [("message", VStr "Schedule resumed")]).
Definition handle_TriggerSchedule (c : SchedCall) (r : Route SchedEndpoint) : sched_api :=
  after_ (λ s, TriggerSchedule s (Param r "id") (zcErr c 0)) (λ _, sched_fails StatusInternalServerError "Failed to trigger schedule")
    (λ id, sched_says StatusOK [("executionId", VStr id)]).
Definition sched_handle (user : string) (c : SchedCall) (r : Route SchedEndpoint) (rq : Request) : sched_api :=
  match rtEndpoint r with
  | ZHealth => tell (sched_says StatusOK [("status", VStr "healthy")])
  | ZReady => tell (sched_says StatusOK [("status", VStr "ready")])
  | ZList => handle_ListSchedules user c rq
  | ZCreate => handle_CreateSchedule user c rq
  | ZGet => handle_GetSchedule c r
  | ZUpdate => handle_UpdateSchedule c r rq
  | ZDelete => handle_DeleteSchedule c r
  | ZPause => handle_PauseSchedule c r
  | ZResume => handle_ResumeSchedule c r
  | ZTrigger => handle_TriggerSchedule c r
  end.

(** ** The routes of the server *)

Definition Sched_setupRouter : list (string * Route SchedEndpoint) := [
  route "GET" [Lit "health"; Lit "live"] ZHealth;
  route "GET" [Lit "health"; Lit "ready"] ZReady;
  route "GET" [Lit "api"; Lit "v1"; Lit "schedules"] ZList;
  route "POST" [Lit "api"; Lit "v1"; Lit "schedules"] ZCreate].
Definition sched_constant (e : SchedEndpoint) : Response SchedBody :=
  match e with
  | ZHealth => sched_says StatusOK [("status", VStr "healthy")]
  | ZReady => sched_says StatusOK [("status", VStr "ready")]
  | ZList => sched_says StatusOK [("schedules", VArr [])]
  | _ => sched_says StatusCreated [("message", VStr "Schedule created")]
  end.
Definition sched_serve (rq : Request) : sched_api :=
  if bool_decide (rqMethod rq = "OPTIONS") then tell (JSON StatusNoContent SBEmpty)
  else match find_route Sched_setupRouter rq with
       | None => tell (JSON StatusNotFound SBEmpty)
       | Some r => tell (sched_constant (rtEndpoint r))
       end.

(** ** What they do *)

(** No request changes a schedule: the server answers that it created one and
    stores nothing. *)
Lemma server_changes_nothing rq s : (sched_serve rq s).2 = s.
Proof. clear. unfold sched_serve. case_bool_decide; [done|]. by destruct (find_route _ _). Qed.
Lemma creation_pretended rq s :
  rqMethod rq = "POST" → rqPath rq = ["api"; "v1"; "schedules"] → sched_serve rq s = (sched_says StatusCreated [("message", VStr "Schedule created")], s).
Proof. clear. intros Em Ep. unfold sched_serve, find_route. rewrite Em, Ep. reflexivity. Qed.

(** Behind the handlers the schedules stay valid. *)
Lemma sched_handle_valid user c r rq svc :
  known_location "UTC" = true → map_Forall (valid_row known_location) (ssTable svc) →
  map_Forall (valid_row known_location) (ssTable (sched_handle user c r rq svc).2).
Proof.
  intros Hutc Hs. unfold sched_handle, handle_ListSchedules, handle_CreateSchedule, handle_GetSchedule, handle_UpdateSchedule, handle_DeleteSchedule,
    handle_PauseSchedule, handle_ResumeSchedule, handle_TriggerSchedule.
  destruct (rtEndpoint r); rewrite ?read_body_state, ?asks_state, ?after_state, ?after__state; try done; try (apply (svc_step_valid known_location Hutc svc); [constructor|done]).
  - destruct (decodeCreate _) as [q|]; [|done]. destruct (_ ++ _); [|done]. rewrite after_state. apply (svc_step_valid known_location Hutc svc); [constructor|done].
  - destruct (decodeUpdate _) as [q|]; [|done]. rewrite after__state. apply (svc_step_valid known_location Hutc svc); [constructor|done].
Qed.
(** A mistake in the request is answered as an error of the server. *)
Lemma invalid_is_500 user c rq svc q :
  decodeCreate (rqBody rq) = Ok q → csName q ≠ "" → csWorkflowID q ≠ "" → csCronExpression q ≠ "" → String.length (csCronExpression q) < 9 →
  (handle_CreateSchedule user c rq svc).1 = sched_fails StatusInternalServerError "Failed to create schedule".
Proof.
  clear. intros Hd Hn Hw Hc Hl. unfold handle_CreateSchedule, read_body. rewrite Hd. unfold required. rewrite !bool_decide_false by done. simpl. unfold after.
  unfold CreateSchedule, Schedule_Validate. simpl. rewrite !bool_decide_false by done. by rewrite bool_decide_true.
Qed.
(** The schedules of a workflow are listed for everybody. *)
Lemma schedules_of_any_workflow user user' c rq svc :
  Query rq "workflowId" ≠ "" → handle_ListSchedules user c rq svc = handle_ListSchedules user' c rq svc.
Proof. clear. intros H. unfold handle_ListSchedules, asks, after_, ListSchedules. by rewrite !bool_decide_true. Qed.
End api.
