(* ===== verification/ExecutionMetrics.v ===== *)
(** internal/execution/app/metrics/collector.go: the metrics of executions and of
    nodes that the collector keeps itself; those of Prometheus are left out.  The
    background tasks are steps. *)

From S2P Require Import Prelude GoValue GoLib Tokens Orchestrator.

(** ** Data *)

Record NodeMetrics := {
  nmNodeID : string;
  nmNodeType : string;
  nmExecutionCount : Z;
  nmSuccessCount : Z;
  nmFailureCount : Z;
  nmAverageDuration : Z;
  nmMinDuration : Z;
  nmMaxDuration : Z;
  nmLastExecutionTime : option Z;
  nmErrorRate : spec_float
}.
(** The two maps of the code have the same pointers under the same keys. *)
Record ExecutionMetrics := {
  emTotalExecutions : Z;
  emActiveExecutions : Z;
  emCompletedExecutions : Z;
  emFailedExecutions : Z;
  emAverageExecutionTime : Z;
  emLastExecutionTime : option Z;
  emSuccessRate : spec_float;
  emNodeMetrics : gmap string NodeMetrics;
  emThroughputPerMinute : spec_float;
  emP50Latency : Z;
  emP95Latency : Z;
  emP99Latency : Z;
  emCPUUsage : spec_float;
  emMemoryUsage : Z;
  emQueueDepth : Z
}.
Definition no_rate : spec_float := f64_of_Z 0.
Definition NewCollector : ExecutionMetrics :=
  {| emTotalExecutions := 0; emActiveExecutions := 0; emCompletedExecutions := 0; emFailedExecutions := 0; emAverageExecutionTime := 0;
     emLastExecutionTime := None; emSuccessRate := no_rate; emNodeMetrics := ∅; emThroughputPerMinute := no_rate; emP50Latency := 0; emP95Latency := 0;
     emP99Latency := 0; emCPUUsage := no_rate; emMemoryUsage := 0; emQueueDepth := 0 |}.
Definition set_counters (m : ExecutionMetrics) (total active completed failed avg : Z) (last_ : option Z) (success : spec_float) : ExecutionMetrics :=
  {| emTotalExecutions := total; emActiveExecutions := active; emCompletedExecutions := completed; emFailedExecutions := failed;
     emAverageExecutionTime := avg; emLastExecutionTime := last_; emSuccessRate := success; emNodeMetrics := emNodeMetrics m;
     emThroughputPerMinute := emThroughputPerMinute m; emP50Latency := emP50Latency m; emP95Latency := emP95Latency m; emP99Latency := emP99Latency m;
     emCPUUsage := emCPUUsage m; emMemoryUsage := emMemoryUsage m; emQueueDepth := emQueueDepth m |}.
Definition set_gauges (m : ExecutionMetrics) (nodes : gmap string NodeMetrics) (throughput cpu : spec_float) (memory depth : Z) : ExecutionMetrics :=
  {| emTotalExecutions := emTotalExecutions m; emActiveExecutions := emActiveExecutions m; emCompletedExecutions := emCompletedExecutions m;
     emFailedExecutions := emFailedExecutions m; emAverageExecutionTime := emAverageExecutionTime m; emLastExecutionTime := emLastExecutionTime m;
     emSuccessRate := emSuccessRate m; emNodeMetrics := nodes; emThroughputPerMinute := throughput; emP50Latency := emP50Latency m;
     emP95Latency := emP95Latency m; emP99Latency := emP99Latency m; emCPUUsage := cpu; emMemoryUsage := memory; emQueueDepth := depth |}.

(** ** Recording *)

Definition RecordExecutionStart (m : ExecutionMetrics) : ExecutionMetrics :=
  set_counters m (wrap64 (emTotalExecutions m + 1)) (wrap64 (emActiveExecutions m + 1)) (emCompletedExecutions m) (emFailedExecutions m)
    (emAverageExecutionTime m) (emLastExecutionTime m) (emSuccessRate m).
Definition updateAverageExecutionTime (m : ExecutionMetrics) (duration now : Z) : ExecutionMetrics :=
  let total := wrap64 (emCompletedExecutions m + emFailedExecutions m) in
  let avg := if bool_decide (total = 0)%Z then duration
             else wrap64 (Z.quot (wrap64 (wrap64 (emAverageExecutionTime m * total) + duration)) (wrap64 (total + 1))) in
  set_counters m (emTotalExecutions m) (emActiveExecutions m) (emCompletedExecutions m) (emFailedExecutions m) avg (Some now) (emSuccessRate m).
Definition updateSuccessRate (m : ExecutionMetrics) : ExecutionMetrics :=
  let total := wrap64 (emCompletedExecutions m + emFailedExecutions m) in
  set_counters m (emTotalExecutions m) (emActiveExecutions m) (emCompletedExecutions m) (emFailedExecutions m) (emAverageExecutionTime m)
    (emLastExecutionTime m) (if bool_decide (0 < total)%Z then f64_div (f64_of_Z (emCompletedExecutions m)) (f64_of_Z total) else emSuccessRate m).
Definition RecordExecutionComplete (m : ExecutionMetrics) (duration : Z) (success : bool) (now : Z) : ExecutionMetrics :=
  let m := if success
           then set_counters m (emTotalExecutions m) (emActiveExecutions m) (wrap64 (emCompletedExecutions m + 1)) (emFailedExecutions m)
                  (emAverageExecutionTime m) (emLastExecutionTime m) (emSuccessRate m)
           else set_counters m (emTotalExecutions m) (emActiveExecutions m) (emCompletedExecutions m) (wrap64 (emFailedExecutions m + 1))
                  (emAverageExecutionTime m) (emLastExecutionTime m) (emSuccessRate m) in
  let m := set_counters m (emTotalExecutions m) (wrap64 (emActiveExecutions m - 1)) (emCompletedExecutions m) (emFailedExecutions m)
             (emAverageExecutionTime m) (emLastExecutionTime m) (emSuccessRate m) in
  updateSuccessRate (updateAverageExecutionTime m duration now).
Definition count_duration (x : NodeMetrics) (duration : Z) (success : bool) (now : Z) : NodeMetrics :=
  let n := wrap64 (nmExecutionCount x + 1) in
  let ok := if success then wrap64 (nmSuccessCount x + 1) else nmSuccessCount x in
  let bad := if success then nmFailureCount x else wrap64 (nmFailureCount x + 1) in
  {| nmNodeID := nmNodeID x; nmNodeType := nmNodeType x; nmExecutionCount := n; nmSuccessCount := ok; nmFailureCount := bad;
     nmAverageDuration := if bool_decide (n = 1)%Z then duration
                          else wrap64 (Z.quot (wrap64 (wrap64 (nmAverageDuration x * wrap64 (n - 1)) + duration)) n);
     nmMinDuration := Z.min duration (nmMinDuration x); nmMaxDuration := Z.max duration (nmMaxDuration x); nmLastExecutionTime := Some now;
     nmErrorRate := if bool_decide (0 < n)%Z then f64_div (f64_of_Z bad) (f64_of_Z n) else nmErrorRate x |}.
Definition new_node_metrics (nodeID nodeType : string) (duration : Z) : NodeMetrics :=
  {| nmNodeID := nodeID; nmNodeType := nodeType; nmExecutionCount := 0; nmSuccessCount := 0; nmFailureCount := 0; nmAverageDuration := 0;
     nmMinDuration := duration; nmMaxDuration := duration; nmLastExecutionTime := None; nmErrorRate := no_rate |}.
Definition updateNodeMetrics (m : ExecutionMetrics) (nodeID nodeType : string) (duration : Z) (success : bool) (now : Z) : ExecutionMetrics :=
  let x := default (new_node_metrics nodeID nodeType duration) (emNodeMetrics m !! nodeID) in
  set_gauges m (<[nodeID := count_duration x duration success now]> (emNodeMetrics m)) (emThroughputPerMinute m) (emCPUUsage m) (emMemoryUsage m) (emQueueDepth m).
Definition Metrics_RecordNodeExecution := updateNodeMetrics.
Definition RecordQueueSize (m : ExecutionMetrics) (priority : string) (size : Z) : ExecutionMetrics :=
  if bool_decide (priority = "total") then set_gauges m (emNodeMetrics m) (emThroughputPerMinute m) (emCPUUsage m) (emMemoryUsage m) size else m.
Definition RecordResourceUsage (m : ExecutionMetrics) (cpu : spec_float) (memory : Z) : ExecutionMetrics :=
  set_gauges m (emNodeMetrics m) (emThroughputPerMinute m) cpu memory (emQueueDepth m).
Definition GetNodeMetrics (m : ExecutionMetrics) (nodeID : string) : option NodeMetrics := emNodeMetrics m !! nodeID.

(** One round of the aggregation: [minutes] is the time since the last, [lastCount]
    the count then. *)
Definition aggregate_round (m : ExecutionMetrics) (lastCount : Z) (minutes : spec_float) : ExecutionMetrics * Z :=
  let current := wrap64 (emCompletedExecutions m + emFailedExecutions m) in
  (if f64_ltb no_rate minutes
   then set_gauges m (emNodeMetrics m) (f64_div (f64_of_Z (wrap64 (current - lastCount))) minutes) (emCPUUsage m) (emMemoryUsage m) (emQueueDepth m)
   else m, current).

(** ** Events *)

Definition get_int64 (p : vmap) (k : string) : Z := match p !! k with Some (VInt z) => z | _ => 0 end.
Definition text_of (p : vmap) (k : string) : string := default "" (get_string p k).
Definition metrics_handleExecutionStarted (m : ExecutionMetrics) : ExecutionMetrics := RecordExecutionStart m.
Definition metrics_handleExecutionCompleted (m : ExecutionMetrics) (payload : vmap) (now : Z) : ExecutionMetrics :=
  RecordExecutionComplete m (wrap64 (get_int64 payload "duration" * 1000000)) true now.
Definition metrics_handleExecutionFailed (m : ExecutionMetrics) (now : Z) : ExecutionMetrics := RecordExecutionComplete m 0 false now.
Definition metrics_handleNodeCompleted (m : ExecutionMetrics) (payload : vmap) (now : Z) : ExecutionMetrics :=
  Metrics_RecordNodeExecution m (text_of payload "nodeId") (text_of payload "nodeType") Second
    (bool_decide (text_of payload "status" = NodeExecutionCompleted)) now.
(** Assertions without a check panic. *)
Definition must_float (p : vmap) (k : string) : outcome spec_float :=
  match p !! k with Some (VFloat f) => Ret f | _ => Panic "interface conversion" end.
Definition sub_map (p : vmap) (k : string) : vmap := match p !! k with Some (VObj kvs) => list_to_map kvs | _ => ∅ end.
Definition sizes : list (string * string) := [("high", "highPriority"); ("normal", "normalPriority"); ("low", "lowPriority"); ("total", "totalQueued")].
Fixpoint record_sizes (m : ExecutionMetrics) (status : vmap) (l : list (string * string)) : outcome ExecutionMetrics :=
  match l with
  | [] => Ret m
  | (priority, field) :: l =>
      match must_float status field with
      | Ret f => record_sizes (RecordQueueSize m priority (f64_trunc f)) status l
      | Panic e => Panic e
      | NoFuel => NoFuel
      end
  end.
Definition handleQueueMetrics (m : ExecutionMetrics) (payload : vmap) : outcome ExecutionMetrics := record_sizes m (sub_map payload "status") sizes.
(** The utilization goes to Prometheus only. *)
Definition handleWorkerPoolMetrics (m : ExecutionMetrics) (payload : vmap) : outcome ExecutionMetrics :=
  let metrics := sub_map payload "metrics" in
  match must_float metrics "totalWorkers" with
  | Ret _ => match must_float metrics "activeWorkers" with Ret _ => Ret m | Panic e => Panic e | NoFuel => NoFuel end
  | Panic e => Panic e
  | NoFuel => NoFuel
  end.

(** ** What the counters say *)

Inductive metric_step :=
| MStarted
| MCompleted (payload : vmap) (now : Z)
| MFailed (now : Z)
| MNode (payload : vmap) (now : Z)
| MQueue (priority : string) (size : Z)
| MUsage (cpu : spec_float) (memory : Z)
| MRound (lastCount : Z) (minutes : spec_float).
Definition metric_do (m : ExecutionMetrics) (x : metric_step) : ExecutionMetrics :=
  match x with
  | MStarted => metrics_handleExecutionStarted m
  | MCompleted p now => metrics_handleExecutionCompleted m p now
  | MFailed now => metrics_handleExecutionFailed m now
  | MNode p now => metrics_handleNodeCompleted m p now
  | MQueue priority size => RecordQueueSize m priority size
  | MUsage cpu memory => RecordResourceUsage m cpu memory
  | MRound lastCount minutes => (aggregate_round m lastCount minutes).1
  end.
Definition started_by (x : metric_step) : Z := match x with MStarted => 1 | _ => 0 end.
Definition completed_by (x : metric_step) : Z := match x with MCompleted _ _ => 1 | _ => 0 end.
Definition failed_by (x : metric_step) : Z := match x with MFailed _ => 1 | _ => 0 end.
Definition total_of (f : metric_step → Z) (xs : list metric_step) : Z := foldr (λ x n, f x + n)%Z 0%Z xs.
Lemma total_of_snoc f xs x : total_of f (xs ++ [x]) = (total_of f xs + f x)%Z.
Proof. induction xs as [|y xs IH]; simpl; lia. Qed.
Lemma total_of_bound f xs : (∀ x, 0 ≤ f x ≤ 1)%Z → (0 ≤ total_of f xs ≤ Z.of_nat (length xs))%Z.
Proof. intros Hf. induction xs as [|y xs IH]; simpl; [done|]. specialize (Hf y). lia. Qed.

(** After any events the counters are the numbers of executions started, completed
    and failed, and the active ones those started and not ended. *)
Lemma counters_exact xs :
  (Z.of_nat (length xs) < 2 ^ 62)%Z →
  let m := foldl metric_do NewCollector xs in
  emTotalExecutions m = total_of started_by xs ∧ emCompletedExecutions m = total_of completed_by xs ∧ emFailedExecutions m = total_of failed_by xs
  ∧ emActiveExecutions m = (total_of started_by xs - total_of completed_by xs - total_of failed_by xs)%Z.
Proof.
  induction xs as [|x xs IH] using rev_ind; [done|]. rewrite length_app. simpl. intros Hl. rewrite foldl_app. simpl.
  destruct IH as (E1 & E2 & E3 & E4); [lia|]. rewrite !total_of_snoc.
  pose proof (total_of_bound started_by xs ltac:(by intros [])). pose proof (total_of_bound completed_by xs ltac:(by intros [])).
  pose proof (total_of_bound failed_by xs ltac:(by intros [])).
  set (m := foldl metric_do NewCollector xs) in *. destruct x; simpl; rewrite ?E1, ?E2, ?E3, ?E4; unfold RecordQueueSize, aggregate_round;
    try (split_and!; rewrite ?wrap64_id; lia); repeat case_match; simpl; rewrite ?E1, ?E2, ?E3, ?E4; split_and!; lia.
Qed.

(** ** Faults *)

(** The execution is counted before it is averaged, and so with a weight too many: after
    one execution of any duration the average is half of it. *)
Lemma average_halved p now :
  (0 ≤ get_int64 p "duration" < 9000000000000)%Z →
  emAverageExecutionTime (foldl metric_do NewCollector [MStarted; MCompleted p now]) = Z.quot (get_int64 p "duration" * 1000000) 2.
Proof.
  intros H. set (d := get_int64 p "duration") in *.
  assert (0 ≤ d * 1000000 / 2 ≤ d * 1000000)%Z by (split; [apply Z.div_pos; lia|apply Z.div_le_upper_bound; lia]).
  rewrite Z.quot_div_nonneg by lia. simpl. fold d. rewrite !(wrap64_id (d * 1000000)) by lia. change (wrap64 (0 * _)) with 0%Z.
  change (wrap64 (wrap64 (wrap64 (0 + 1) + 0) + 1)) with 2%Z. rewrite Z.add_0_l, (wrap64_id (d * 1000000)) by lia. rewrite Z.quot_div_nonneg by lia. apply wrap64_id. lia.
Qed.
(** A failed execution counts with no duration: it lowers the average. *)
Definition ten_seconds : vmap := {[ "duration" := VInt 10000 ]}.
Lemma failure_lowers_average :
  emAverageExecutionTime (foldl metric_do NewCollector [MStarted; MCompleted ten_seconds 0]) = 5000000000%Z
  ∧ emAverageExecutionTime (foldl metric_do NewCollector [MStarted; MCompleted ten_seconds 0; MStarted; MFailed 0]) = 3333333333%Z.
Proof. by vm_compute. Qed.

(** Every node is reported to take one second, whatever it took. *)
Definition one_second (x : NodeMetrics) : Prop := nmMinDuration x = Second ∧ nmMaxDuration x = Second.
Lemma nodes_last_one_second xs : map_Forall (λ _, one_second) (emNodeMetrics (foldl metric_do NewCollector xs)).
Proof.
  induction xs as [|x xs IH] using rev_ind; [apply map_Forall_empty|]. rewrite foldl_app. simpl.
  destruct x; simpl; try done; unfold RecordQueueSize; repeat case_match; try done.
  apply map_Forall_insert_2; [|done]. unfold one_second. simpl.
  destruct (emNodeMetrics _ !! _) as [y|] eqn:E; simpl; [|by rewrite Z.min_id, Z.max_id].
  destruct (IH _ _ E) as [-> ->]. by rewrite Z.min_id, Z.max_id.
Qed.

(** The percentiles stay zero. *)
Lemma percentiles_zero xs :
  let m := foldl metric_do NewCollector xs in emP50Latency m = 0%Z ∧ emP95Latency m = 0%Z ∧ emP99Latency m = 0%Z.
Proof.
  induction xs as [|x xs IH] using rev_ind; [done|]. rewrite foldl_app. simpl in *.
  destruct x; simpl; try done; unfold RecordQueueSize; by repeat case_match.
Qed.

(** An event of the queue without one of the sizes, or with a size that is an integer,
    panics; so does one of the worker pool. *)
Lemma queue_event_panics m p field :
  field ∈ sizes.*2 → (∀ f, sub_map p "status" !! field ≠ Some (VFloat f)) → ∃ e, handleQueueMetrics m p = Panic e.
Proof.
  unfold handleQueueMetrics. generalize sizes, m. clear m. intros l. induction l as [|[pr g] l IH]; intros m Hin Hf; simpl in *; [set_solver|].
  destruct (must_float _ g) as [f| |] eqn:E.
  - apply elem_of_cons in Hin as [->|Hin]; [|by apply IH]. unfold must_float in E. destruct (_ !! _) as [[]|]; simplify_eq. by destruct (Hf f).
  - eauto.
  - unfold must_float in E. by repeat case_match.
Qed.
Lemma worker_event_panics m p :
  (∀ f, sub_map p "metrics" !! "totalWorkers" ≠ Some (VFloat f)) → ∃ e, handleWorkerPoolMetrics m p = Panic e.
Proof.
  intros Hf. unfold handleWorkerPoolMetrics, must_float. destruct (sub_map p "metrics" !! "totalWorkers") as [[]|]; eauto. naive_solver.
Qed.

(** The event the orchestrator publishes when a node ends does not name the node: all
    nodes are counted as one, without name and type. *)
Definition node_completed_payload (status : string) : vmap := {[ "status" := VStr status ]}.
Lemma nodes_counted_as_one l now :
  let m := foldl metric_do NewCollector ((λ s, MNode (node_completed_payload s) now) <$> l) in dom (emNodeMetrics m) ⊆ {[ "" ]}.
Proof.
  induction l as [|s l IH] using rev_ind; [simpl; set_solver|]. rewrite fmap_app, foldl_app. simpl in *. rewrite dom_insert_L. set_solver.
Qed.
