(* ===== verification/ExecutionLogger.v ===== *)
(** internal/execution/app/logging/logger.go: the logs of executions, in memory, in
    Redis and on the connections of readers.

    JSON is a parameter; a connection is a name, and what a write to it does comes
    with the call.  The background tasks are steps. *)

From S2P Require Import Prelude GoValue GoLib GoText Tokens Orchestrator ExecutionMetrics.

(** ** Data *)

Definition LogLevelDebug := "debug".
Definition LogLevelInfo := "info".
Definition LogLevelWarning := "warning".
Definition LogLevelError := "error".
Definition LogLevelFatal := "fatal".

Record ExecutionLog := {
  lgID : string;
  lgExecutionID : string;
  lgNodeID : string;
  lgLevel : string;
  lgMessage : string;
  lgData : option vmap;
  lgTimestamp : option Z;                  (* None: the zero time *)
  lgSource : string;
  lgWorkflowID : string;
  lgUserID : string;
  lgTraceID : string;
  lgSpanID : string
}.
Definition stamp_log (l : ExecutionLog) (id : string) (t : option Z) : ExecutionLog :=
  {| lgID := id; lgExecutionID := lgExecutionID l; lgNodeID := lgNodeID l; lgLevel := lgLevel l; lgMessage := lgMessage l; lgData := lgData l;
     lgTimestamp := t; lgSource := lgSource l; lgWorkflowID := lgWorkflowID l; lgUserID := lgUserID l; lgTraceID := lgTraceID l; lgSpanID := lgSpanID l |}.
Record LoggerFilter := {
  lfLevel : string;
  lfNodeID : string;
  lfStartTime : option Z;
  lfEndTime : option Z;
  lfSearch : string;
  lfLimit : Z
}.
Definition no_filter : LoggerFilter := {| lfLevel := ""; lfNodeID := ""; lfStartTime := None; lfEndTime := None; lfSearch := ""; lfLimit := 0 |}.

Record ExecutionLogger := {
  elLogs : gmap string (list ExecutionLog);
  elRedis : gmap string (list string * option Z);
  elConns : gmap string (list string);
  elSent : list (string * ExecutionLog);
  elEvents : list ExecutionLog
}.
Definition maxLogsPerExecution : nat := 10000.
Definition NewExecutionLogger (redis : gmap string (list string * option Z)) : ExecutionLogger :=
  {| elLogs := ∅; elRedis := redis; elConns := ∅; elSent := []; elEvents := [] |}.
Definition put_logs (el : ExecutionLogger) (m : gmap string (list ExecutionLog)) : ExecutionLogger :=
  {| elLogs := m; elRedis := elRedis el; elConns := elConns el; elSent := elSent el; elEvents := elEvents el |}.
Definition put_lists (el : ExecutionLogger) (r : gmap string (list string * option Z)) : ExecutionLogger :=
  {| elLogs := elLogs el; elRedis := r; elConns := elConns el; elSent := elSent el; elEvents := elEvents el |}.
Definition put_conns (el : ExecutionLogger) (m : gmap string (list string)) : ExecutionLogger :=
  {| elLogs := elLogs el; elRedis := elRedis el; elConns := m; elSent := elSent el; elEvents := elEvents el |}.
Definition sent (el : ExecutionLogger) (conn : string) (l : ExecutionLog) : ExecutionLogger :=
  {| elLogs := elLogs el; elRedis := elRedis el; elConns := elConns el; elSent := elSent el ++ [(conn, l)]; elEvents := elEvents el |}.

(** What a call reads from outside: clocks, the commands of Redis that fail, the
    connections whose writes fail, whether the event is published. *)
Record LogCall := { lcNow : nat → Z; lcRedisFails : nat → bool; lcBroken : string → bool; lcBus : bool }.

(** ** Filters *)

(** [contains] of the file. *)
Fixpoint log_contains (s substr : string) : bool :=
  bool_decide (String.length substr ≤ String.length s)
  && (bool_decide (s = substr) || bool_decide (substr = "") || String.prefix substr s
      || match s with "" => false | String _ s' => log_contains s' substr end).
Definition before (t u : option Z) : bool :=
  match t, u with Some t, Some u => bool_decide (t < u)%Z | None, Some _ => true | _, None => false end.
Definition entry_matches (f : LoggerFilter) (l : ExecutionLog) : bool :=
  negb (negb (bool_decide (lfLevel f = "")) && negb (bool_decide (lgLevel l = lfLevel f)))
  && negb (negb (bool_decide (lfNodeID f = "")) && negb (bool_decide (lgNodeID l = lfNodeID f)))
  && negb (bool_decide (is_Some (lfStartTime f)) && before (lgTimestamp l) (lfStartTime f))
  && negb (bool_decide (is_Some (lfEndTime f)) && before (lfEndTime f) (lgTimestamp l))
  && negb (negb (bool_decide (lfSearch f = "")) && negb (log_contains (lgMessage l) (lfSearch f))).
Definition applyFilter (logs : list ExecutionLog) (f : LoggerFilter) : list ExecutionLog :=
  let filtered := filter (λ l, entry_matches f l = true) logs in
  if bool_decide (0 < lfLimit f)%Z && bool_decide (lfLimit f < Z.of_nat (length filtered))%Z
  then drop (length filtered - Z.to_nat (lfLimit f)) filtered else filtered.

(** ** Writing *)

Definition log_key (executionID : string) : string := "logs:execution:" +:+ executionID.
Definition Week : Z := 7 * 24 * Hour.
Definition live_list (r : gmap string (list string * option Z)) (k : string) (now : Z) : list string * option Z :=
  match r !! k with
  | Some (l, e) => if match e with Some t => bool_decide (now < t)%Z | None => true end then (l, e) else ([], None)
  | None => ([], None)
  end.

Section logger.
Context (marshal : ExecutionLog → option string) (unmarshal : string → option ExecutionLog) (fmt_float : spec_float → string) (fmt_time : Z → string).

(** RPUSH, EXPIRE and LTRIM; the errors of the last two are dropped. *)
Definition persistLog (r : gmap string (list string * option Z)) (l : ExecutionLog) (c : LogCall) : gmap string (list string * option Z) :=
  let k := log_key (lgExecutionID l) in
  match marshal l with
  | None => r
  | Some data =>
      if lcRedisFails c 0 then r
      else
        let '(items, e) := live_list r k (lcNow c 2) in
        let items := items ++ [data] in
        let e := if lcRedisFails c 1 then e else Some (lcNow c 3 + Week)%Z in
        let items := if lcRedisFails c 2 then items else drop (length items - maxLogsPerExecution) items in
        <[k := (items, e)]> r
  end.
Definition removeConnection (m : gmap string (list string)) (executionID conn : string) : gmap string (list string) :=
  match m !! executionID with
  | None => m
  | Some conns => match filter (λ x, x ≠ conn) conns with
                  | [] => delete executionID m
                  | rest => <[executionID := rest]> m
                  end
  end.
Definition stream_to (c : LogCall) (l : ExecutionLog) (el : ExecutionLogger) (conn : string) : ExecutionLogger :=
  if lcBroken c conn then put_conns el (removeConnection (elConns el) (lgExecutionID l) conn) else sent el conn l.
Definition streamLog (el : ExecutionLogger) (l : ExecutionLog) (c : LogCall) : ExecutionLogger :=
  foldl (stream_to c l) el (default [] (elConns el !! lgExecutionID l)).

Definition keep_entry (logs : list ExecutionLog) (l : ExecutionLog) : list ExecutionLog :=
  (if bool_decide (maxLogsPerExecution ≤ length logs) then drop 1 logs else logs) ++ [l].
Definition completed_log (l : ExecutionLog) (c : LogCall) : ExecutionLog :=
  stamp_log l (if bool_decide (lgID l = "") then "log_" +:+ pretty (lcNow c 0) else lgID l)
    (match lgTimestamp l with None => Some (lcNow c 1) | t => t end).
Definition Logger_Log (el : ExecutionLogger) (l : ExecutionLog) (c : LogCall) : ExecutionLogger :=
  let l := completed_log l c in
  let el := put_logs el (<[lgExecutionID l := keep_entry (default [] (elLogs el !! lgExecutionID l)) l]> (elLogs el)) in
  let el := put_lists el (persistLog (elRedis el) l c) in
  let el := streamLog el l c in
  {| elLogs := elLogs el; elRedis := elRedis el; elConns := elConns el; elSent := elSent el; elEvents := if lcBus c then elEvents el ++ [l] else elEvents el |}.

Definition log_entry (executionID nodeID level message : string) (data : option vmap) : ExecutionLog :=
  {| lgID := ""; lgExecutionID := executionID; lgNodeID := nodeID; lgLevel := level; lgMessage := message; lgData := data; lgTimestamp := None;
     lgSource := "system"; lgWorkflowID := ""; lgUserID := ""; lgTraceID := ""; lgSpanID := "" |}.
Definition LogInfo (el : ExecutionLogger) (executionID message : string) (data : option vmap) (c : LogCall) : ExecutionLogger :=
  Logger_Log el (log_entry executionID "" LogLevelInfo message data) c.
Definition LogError (el : ExecutionLogger) (executionID nodeID message : string) (err : option string) (c : LogCall) : ExecutionLogger :=
  Logger_Log el (log_entry executionID nodeID LogLevelError message (Some (match err with Some e => {["error" := VStr e]} | None => ∅ end))) c.

(** ** Reading *)

Definition loadLogsFromRedis (r : gmap string (list string * option Z)) (executionID : string) (now : Z) (fails : bool) : result (list ExecutionLog) :=
  if fails then Err "redis" else Ok (omap unmarshal (live_list r (log_key executionID) now).1).
(** The logs that are loaded are stored; the variable that is filtered is the one
    from before. *)
Definition Logger_GetLogs (el : ExecutionLogger) (executionID : string) (f : LoggerFilter) (now : Z) (fails : bool) : result (list ExecutionLog) * ExecutionLogger :=
  match elLogs el !! executionID with
  | Some logs => (Ok (applyFilter logs f), el)
  | None =>
      match loadLogsFromRedis (elRedis el) executionID now fails with
      | Err e => (Err e, el)
      | Ok loaded => (Ok (applyFilter [] f), put_logs el (<[executionID := loaded]> (elLogs el)))
      end
  end.
(** A reader joins and gets the logs there are, until a write fails; [broken] says
    which. *)
Fixpoint send_logs (el : ExecutionLogger) (executionID conn : string) (logs : list ExecutionLog) (k : nat) (broken : nat → bool) : ExecutionLogger :=
  match logs with
  | [] => el
  | l :: logs => if broken k then put_conns el (removeConnection (elConns el) executionID conn)
                 else send_logs (sent el conn l) executionID conn logs (S k) broken
  end.
Definition StreamLogs (el : ExecutionLogger) (conn executionID : string) (now : Z) (fails : bool) (broken : nat → bool) : ExecutionLogger :=
  let el := put_conns el (<[executionID := default [] (elConns el !! executionID) ++ [conn]]> (elConns el)) in
  let '(r, el) := Logger_GetLogs el executionID no_filter now fails in
  send_logs el executionID conn (match r with Ok l => l | Err _ => [] end) 0 broken.
(** A ping that fails. *)
Definition failed_ping (el : ExecutionLogger) (conn executionID : string) : ExecutionLogger :=
  put_conns el (removeConnection (elConns el) executionID conn).
(** One round of the cleanup: the logs whose last entry is older than a day. *)
Definition stale (now : Z) (logs : list ExecutionLog) : bool :=
  match last logs with Some l => match lgTimestamp l with Some t => bool_decide (24 * Hour < now - t)%Z | None => true end | None => false end.
Definition cleanup_round (el : ExecutionLogger) (now : Z) : ExecutionLogger :=
  put_logs el (filter (λ p, stale now p.2 = false) (elLogs el)).

(** ** Events *)

Record LogEvent := { leAggregateID : string; lePayload : vmap }.
Definition payload_value (p : vmap) (k : string) : value := default VNil (p !! k).
Definition log_handleExecutionStarted (el : ExecutionLogger) (e : LogEvent) (c : LogCall) : ExecutionLogger :=
  LogInfo el (leAggregateID e) "Execution started" (Some {["workflowId" := payload_value (lePayload e) "workflowId"]}) c.
Definition log_handleExecutionCompleted (el : ExecutionLogger) (e : LogEvent) (c : LogCall) : ExecutionLogger :=
  LogInfo el (leAggregateID e) "Execution completed" (Some {["duration" := payload_value (lePayload e) "duration"]}) c.
Definition log_handleExecutionFailed (el : ExecutionLogger) (e : LogEvent) (c : LogCall) : ExecutionLogger :=
  LogError el (leAggregateID e) "" "Execution failed" (Some (sprint fmt_float fmt_time (payload_value (lePayload e) "error"))) c.
Definition log_handleNodeStarted (el : ExecutionLogger) (e : LogEvent) (c : LogCall) : ExecutionLogger :=
  let executionID := default "" (get_string (lePayload e) "executionId") in
  let nodeID := default "" (get_string (lePayload e) "nodeId") in
  LogInfo el executionID ("Node " +:+ nodeID +:+ " started") (Some {["nodeType" := payload_value (lePayload e) "nodeType"]}) c.
Definition log_handleNodeCompleted (el : ExecutionLogger) (e : LogEvent) (c : LogCall) : ExecutionLogger :=
  let nodeID := default "" (get_string (lePayload e) "nodeId") in
  let status := default "" (get_string (lePayload e) "status") in
  if bool_decide (status = NodeExecutionCompleted)
  then LogInfo el (leAggregateID e) ("Node " +:+ nodeID +:+ " completed") None c
  else LogError el (leAggregateID e) nodeID ("Node " +:+ nodeID +:+ " failed") None c.
(** Connections are closed; what is logged later still is kept. *)
Definition Logger_Stop (el : ExecutionLogger) : ExecutionLogger := put_conns el ∅.

(** ** What is read is what was logged

    Any calls, in any order, whatever Redis, the connections and the bus do. *)

Inductive log_step :=
| LLog (l : ExecutionLog) (c : LogCall)
| LGet (executionID : string) (f : LoggerFilter) (now : Z) (fails : bool)
| LStream (conn executionID : string) (now : Z) (fails : bool) (broken : nat → bool)
| LPing (conn executionID : string)
| LCleanup (now : Z)
| LStop.
Definition log_do (el : ExecutionLogger) (x : log_step) : ExecutionLogger :=
  match x with
  | LLog l c => Logger_Log el l c
  | LGet id f now fails => (Logger_GetLogs el id f now fails).2
  | LStream conn id now fails broken => StreamLogs el conn id now fails broken
  | LPing conn id => failed_ping el conn id
  | LCleanup now => cleanup_round el now
  | LStop => Logger_Stop el
  end.
(** What was logged for an execution, in order. *)
Definition logged_by (id : string) (x : log_step) : list ExecutionLog :=
  match x with LLog l c => if bool_decide (lgExecutionID l = id) then [completed_log l c] else [] | _ => [] end.
Definition history (id : string) (xs : list log_step) : list ExecutionLog := xs ≫= logged_by id.

Context (json : ∀ l t, marshal l = Some t → unmarshal t = Some l).

(** The lists in memory and in Redis are parts of the history, in its order. *)
Definition reads (r : gmap string (list string * option Z)) (id : string) : list ExecutionLog := omap unmarshal (from_option fst [] (r !! log_key id)).
Definition parts_of (h : string → list ExecutionLog) (el : ExecutionLogger) : Prop :=
  (∀ id logs, elLogs el !! id = Some logs → logs `sublist_of` h id) ∧ (∀ id, reads (elRedis el) id `sublist_of` h id).

Lemma log_key_inj i j : log_key i = log_key j → i = j.
Proof. clear. unfold log_key. intros H. by simplify_eq. Qed.
Lemma live_list_reads r id now : omap unmarshal (live_list r (log_key id) now).1 `sublist_of` reads r id.
Proof. clear. unfold live_list, reads. destruct (r !! log_key id) as [[l e]|]; simpl; [|done]. case_match; simpl; [done|apply sublist_nil_l]. Qed.
Lemma omap_drop_sublist {A B} (g : A → option B) n (l : list A) : omap g (drop n l) `sublist_of` omap g l.
Proof. clear. rewrite <- (take_drop n l) at 2. rewrite omap_app. apply sublist_inserts_l. done. Qed.

Lemma persist_reads r l c h :
  (∀ id, reads r id `sublist_of` h id) →
  ∀ id, reads (persistLog r l c) id `sublist_of` h id ++ (if bool_decide (lgExecutionID l = id) then [l] else []).
Proof.
  clear -json. intros Hr id. unfold persistLog. destruct (marshal l) as [t|] eqn:Em; [|apply sublist_inserts_r, Hr].
  destruct (lcRedisFails c 0); [apply sublist_inserts_r, Hr|].
  destruct (live_list r (log_key (lgExecutionID l)) (lcNow c 2)) as [items e] eqn:El. case_bool_decide as Hid.
  - subst id. unfold reads. rewrite lookup_insert_eq. cbn [from_option fst].
    assert (omap unmarshal (items ++ [t]) `sublist_of` h (lgExecutionID l) ++ [l]) as Hi.
    { rewrite omap_app. cbn. rewrite (json _ _ Em). apply sublist_app; [|done]. etrans; [|apply Hr]. pose proof (live_list_reads r (lgExecutionID l) (lcNow c 2)) as H.
      by rewrite El in H. }
    destruct (lcRedisFails c 2); [done|]. etrans; [apply omap_drop_sublist|done].
  - rewrite app_nil_r. unfold reads. rewrite lookup_insert_ne; [apply Hr|]. intros H%log_key_inj. done.
Qed.
Lemma remember_sublist logs l h : logs `sublist_of` h → keep_entry logs l `sublist_of` h ++ [l].
Proof. clear. intros H. unfold keep_entry. apply sublist_app; [|done]. case_bool_decide; [|done]. etrans; [apply sublist_drop|done]. Qed.

(** Sending changes nothing but the connections and what was sent. *)
Lemma stream_keeps c l el conns : elLogs (foldl (stream_to c l) el conns) = elLogs el ∧ elRedis (foldl (stream_to c l) el conns) = elRedis el.
Proof. clear. revert el. induction conns as [|x conns IH]; intros el; [done|]. simpl. destruct (IH (stream_to c l el x)) as [-> ->]. unfold stream_to. by case_match. Qed.
Lemma send_keeps el id conn logs k broken : elLogs (send_logs el id conn logs k broken) = elLogs el ∧ elRedis (send_logs el id conn logs k broken) = elRedis el.
Proof. clear. revert el k. induction logs as [|x logs IH]; intros el k; [done|]. simpl. case_match; [done|]. by destruct (IH (sent el conn x) (S k)) as [-> ->]. Qed.

Lemma GetLogs_parts h el id f now fails : parts_of h el → parts_of h (Logger_GetLogs el id f now fails).2.
Proof.
  clear. intros [Hm Hr]. unfold Logger_GetLogs, loadLogsFromRedis. destruct (elLogs el !! id) as [logs|]; [done|]. destruct fails; [done|]. split; [|done]. simpl.
  intros j logs [[<- <-]|[_ Hj]]%lookup_insert_Some; [|by apply Hm]. etrans; [apply live_list_reads|apply Hr].
Qed.
Lemma log_do_parts h el x : parts_of h el → parts_of (λ id, h id ++ logged_by id x) (log_do el x).
Proof.
  clear -json. intros [Hm Hr]. destruct x as [l c|id f now fails|conn id now fails broken|conn id|now|]; simpl.
  - unfold Logger_Log, streamLog. set (l' := completed_log l c). change (lgExecutionID l) with (lgExecutionID l').
    match goal with |- context [foldl (stream_to c l') ?e ?cs] => destruct (stream_keeps c l' e cs) as [E1 E2] end. split; cbn [elLogs elRedis]; rewrite ?E1, ?E2; cbn [elLogs elRedis put_lists put_logs].
    + intros id logs [[<- <-]|[Hne Hid]]%lookup_insert_Some.
      * rewrite bool_decide_true by done. apply remember_sublist. destruct (elLogs el !! lgExecutionID l') eqn:E; [by apply Hm|apply sublist_nil_l].
      * rewrite bool_decide_false by done. rewrite app_nil_r. by apply Hm.
    + by apply persist_reads.
  - destruct (GetLogs_parts h el id f now fails (conj Hm Hr)) as [Hm' Hr']. split; intros; rewrite app_nil_r; auto.
  - unfold StreamLogs. destruct (Logger_GetLogs _ _ _ _ _) as [r el'] eqn:E.
    destruct (send_keeps el' id conn (match r with Ok l => l | Err _ => [] end) 0 broken) as [E1 E2].
    assert (parts_of h el') as [Hm' Hr'].
    { replace el' with ((r, el').2) by done. rewrite <- E. by apply GetLogs_parts. }
    split; intros; rewrite app_nil_r; rewrite ?E1, ?E2 in *; auto.
  - by split; intros; rewrite app_nil_r; auto.
  - split; intros; rewrite app_nil_r; [|auto]. simpl in *. apply (Hm _ logs). by apply map_lookup_filter_Some in H as [? _].
  - by split; intros; rewrite app_nil_r; auto.
Qed.

(** Along any run of calls, a read gives entries that were logged for the execution,
    in the order in which they were, and none of another; each matches the filter. *)
Lemma reads_are_logged redis xs id f now fails logs :
  (∀ id, reads redis id = []) →
  (Logger_GetLogs (foldl log_do (NewExecutionLogger redis) xs) id f now fails).1 = Ok logs →
  logs `sublist_of` history id xs ∧ ∀ l, l ∈ logs → entry_matches f l = true ∧ lgExecutionID l = id.
Proof.
  clear -json. intros Hr0 Hg.
  assert (∀ xs, parts_of (λ id, history id xs) (foldl log_do (NewExecutionLogger redis) xs)) as Hp.
  { intros ys. induction ys as [|x ys IH] using rev_ind; [split; [by intros ? ? ?|intros i; simpl; by rewrite Hr0]|].
    rewrite foldl_app. simpl. apply (log_do_parts _ _ x) in IH. unfold history in *. destruct IH as [H1 H2].
    split; intros; rewrite bind_app; simpl; rewrite app_nil_r; auto. }
  assert (∀ logs, applyFilter logs f `sublist_of` logs ∧ ∀ l, l ∈ applyFilter logs f → entry_matches f l = true) as Hf.
  { intros l0. unfold applyFilter. assert (filter (λ l, entry_matches f l = true) l0 `sublist_of` l0) as Hs by apply sublist_filter.
    destruct (_ && _); split; try done.
    - etrans; [apply sublist_drop|done].
    - intros l Hl. pose proof (elem_of_sublist _ _ _ Hl (sublist_drop _ _)) as Hl'. by apply list_elem_of_filter in Hl' as [? _].
    - intros l Hl. by apply list_elem_of_filter in Hl as [? _]. }
  assert (∃ l0, logs = applyFilter l0 f ∧ l0 `sublist_of` history id xs) as (l0 & -> & Hl0).
  { unfold Logger_GetLogs in Hg. destruct (elLogs _ !! id) as [l0|] eqn:E; [injection Hg as <-; exists l0; split; [done|by apply (proj1 (Hp xs))]|].
    destruct (loadLogsFromRedis _ _ _ _); [|done]. injection Hg as <-. exists []. split; [done|apply sublist_nil_l]. }
  destruct (Hf l0) as [H1 H2]. split; [by etrans|]. intros l Hl. split; [by apply H2|].
  pose proof (elem_of_sublist _ _ _ (elem_of_sublist _ _ _ Hl H1) Hl0) as Hl'. unfold history in Hl'.
  apply list_elem_of_bind in Hl' as (x & Hx & _). unfold logged_by in Hx. destruct x as [l1 c| | | | |]; try (by apply not_elem_of_nil in Hx).
  case_bool_decide; [|by apply not_elem_of_nil in Hx]. by apply list_elem_of_singleton in Hx as ->.
Qed.

(** ** Retention *)

(** Logging alone: memory has the last ten thousand entries, in order. *)
Definition last_logs (h : list ExecutionLog) : list ExecutionLog := drop (length h - maxLogsPerExecution) h.
Lemma remember_last h l : keep_entry (last_logs h) l = last_logs (h ++ [l]).
Proof.
  clear. assert (1 ≤ maxLogsPerExecution) as Hmax by (apply Nat.leb_le; reflexivity). unfold keep_entry, last_logs. rewrite length_drop, length_app. cbn [length].
  case_bool_decide as Hc.
  - rewrite drop_drop. rewrite drop_app_le by lia. f_equal. f_equal. lia.
  - replace (length h - maxLogsPerExecution) with 0 by lia. replace (length h + 1 - maxLogsPerExecution) with 0 by lia. done.
Qed.
Definition only_logs (xs : list (ExecutionLog * LogCall)) : list log_step := (λ p, LLog p.1 p.2) <$> xs.
Lemma retention redis xs id :
  elLogs (foldl log_do (NewExecutionLogger redis) (only_logs xs)) !! id
  = match history id (only_logs xs) with [] => None | h => Some (last_logs h) end.
Proof.
  clear. unfold only_logs. induction xs as [|[l c] xs IH] using rev_ind; [done|]. rewrite fmap_app, foldl_app. unfold history in *. rewrite bind_app. simpl.
  unfold Logger_Log, streamLog. match goal with |- context [foldl (stream_to c ?l') ?e ?cs] => destruct (stream_keeps c l' e cs) as [E1 _] end.
  cbn [elLogs]. rewrite E1. cbn [elLogs put_lists put_logs]. change (lgExecutionID (completed_log l c)) with (lgExecutionID l). rewrite app_nil_r.
  destruct (decide (lgExecutionID l = id)) as [<-|Hne].
  - rewrite lookup_insert_eq, bool_decide_true, IH by done.
    assert (∀ h : list ExecutionLog, match h ++ [completed_log l c] with [] => None | h' => Some (last_logs h') end = Some (last_logs (h ++ [completed_log l c]))) as Hh
      by by intros []. rewrite Hh, <- remember_last. do 2 f_equal. by destruct (_ ≫= _).
  - rewrite lookup_insert_ne, bool_decide_false, app_nil_r by done. done.
Qed.

(** ** Searching *)

(** The search of the file is that of the standard library. *)
Lemma log_contains_correct s sub : log_contains s sub = contains s sub.
Proof.
  clear. induction s as [|c s IH].
  - simpl. destruct sub; [done|]. simpl. done.
  - cbn [log_contains contains]. rewrite IH. destruct (contains s sub) eqn:E.
    + rewrite !orb_true_r. apply andb_true_iff. split; [|done]. apply bool_decide_eq_true. apply contains_spec in E as (a & b & ->).
      simpl. rewrite !string_app_length. lia.
    + rewrite !orb_false_r. destruct (String.prefix sub (String c s)) eqn:Ep.
      * rewrite !orb_true_r. apply andb_true_iff. split; [|done]. apply bool_decide_eq_true. apply prefix_spec in Ep as [b ->]. rewrite string_app_length. lia.
      * rewrite !orb_false_r. apply andb_false_iff. right. apply orb_false_iff. split; apply bool_decide_eq_false; [intros <-|intros ->].
        -- assert (String.prefix (String c s) (String c s +:+ "") = true) as H by apply prefix_app. rewrite string_app_nil_r in H. congruence.
        -- done.
Qed.

(** ** What the code does besides *)

(** The first read of an execution whose logs are in Redis and not in memory is
    empty; the second has them. *)
Lemma first_read_empty el id now logs :
  elLogs el !! id = None → loadLogsFromRedis (elRedis el) id now false = Ok logs →
  let r := Logger_GetLogs el id no_filter now false in r.1 = Ok [] ∧ (Logger_GetLogs r.2 id no_filter now false).1 = Ok (applyFilter logs no_filter).
Proof. clear. intros Hn Hl. unfold Logger_GetLogs at 1. rewrite Hn, Hl. simpl. split; [done|]. unfold Logger_GetLogs. simpl. by rewrite lookup_insert_eq. Qed.
(** An entry that comes before a read hides the ones that are only in Redis. *)
Lemma older_logs_hidden el l c now fails :
  elLogs el !! lgExecutionID l = None →
  (Logger_GetLogs (Logger_Log el l c) (lgExecutionID l) no_filter now fails).1 = Ok [completed_log l c].
Proof.
  clear. intros Hn. unfold Logger_Log, streamLog, Logger_GetLogs.
  match goal with |- context [foldl (stream_to c ?l') ?e ?cs] => destruct (stream_keeps c l' e cs) as [E1 _] end. cbn [elLogs]. rewrite E1.
  cbn [elLogs put_lists put_logs]. change (lgExecutionID (completed_log l c)) with (lgExecutionID l). rewrite lookup_insert_eq, Hn. reflexivity.
Qed.
(** The start of a node is logged for the execution its payload names, its end for
    the aggregate of the event, which for the events of the orchestrator is the
    execution of the node: its end is not among the logs of the execution, and does
    not name the node. *)
Lemma node_end_elsewhere el nodeExecID status c id :
  id ≠ nodeExecID →
  elLogs (log_handleNodeCompleted el {| leAggregateID := nodeExecID; lePayload := node_completed_payload status |} c) !! id = elLogs el !! id.
Proof.
  clear. intros Hne. unfold log_handleNodeCompleted, LogInfo, LogError, Logger_Log, streamLog. simpl.
  case_match; match goal with |- context [foldl (stream_to c ?l') ?e ?cs] => destruct (stream_keeps c l' e cs) as [E1 _] end; simpl; rewrite E1; simpl;
    by rewrite lookup_insert_ne.
Qed.
Lemma node_end_nameless el nodeExecID c :
  log_handleNodeCompleted el {| leAggregateID := nodeExecID; lePayload := node_completed_payload NodeExecutionCompleted |} c
  = LogInfo el nodeExecID "Node  completed" None c.
Proof. clear. reflexivity. Qed.
End logger.
